(* ===== verification/_CoqProject ===== *)
-Q . S2P
Prelude.v
StreamBuf.v
Base64.v
Base32.v
Strings.v
NumericString.v
Uri.v
UriFacts.v
Path.v
PathFacts.v
Encodings.v
TextConv.v
EncodingFacts.v
Digest.v
DigestSpec.v
DigestFacts.v
ShaFacts.v
DigestClaims.v
HashTable.v
Cache.v
CacheFacts.v
CacheClaims.v
Json.v
JsonFacts.v
JsonBuild.v
JsonText.v
JsonRound.v
JsonClaims.v
JsonObject.v
Fifo.v
FifoFacts.v
Notify.v
NotifyFacts.v
NotifyClaims.v
NotifyTimed.v
Glob.v
GlobFacts.v
Tokenizer.v
BinaryStream.v
BinaryFacts.v
BinaryClaims.v
HexBinary.v
CacheUnique.v
Headers.v
HeadersFacts.v
Http.v
HttpFacts.v
HttpStreams.v
HttpStreamFacts.v
HttpStreamClaims.v
Config.v
ConfigFiles.v
ConfigFacts.v
Options.v
OptionsFacts.v
Float.v
DateTime.v
DateTimeFacts.v
DateTimeClaims.v
DateTimeText.v
DateTimeTextFacts.v
Cookie.v
CookieFacts.v
CookieClaims.v
Random.v
RandomFacts.v
Uuid.v
UuidFacts.v
UuidClaims.v
