(* ===== verification/Prelude.v ===== *)
(** * The POCO C++ Libraries: a verification of the Foundation core

    The repository is the POCO C++ Libraries 1.5.3 (directories Foundation,
    JSON, Net, XML, Util, Data, Zip, MongoDB, Crypto, ...) with a number of
    bundled third-party trees (v8, WebKit, coreutils, folly, Gtest, the PDF,
    zlib, pcre and expat sources).  This development models the code of the
    Foundation library that the other libraries build on, the JSON library,
    the HTTP messages, cookies and streams of the Net library and the
    configurations and options of the Util library, in the build for 64-bit little-endian Unix, and proves
    what makes them correct.

    ** Conventions

    A [char] is its [unsigned char] value (a [Z] below 256), a [std::string]
    the list of its characters, an integer of a C++ type a [Z] whose
    wrap-around is written out ([u8], [u16], [u32], [u64], [s32], [s64])
    wherever the code can reach it; [int64] is signed arithmetic of 64 bits
    that is undefined when it overflows.  A call ends with a value ([Done]), with
    the end-of-file value of a stream operation ([Eof]), with an exception
    ([Raise]) or in undefined behaviour ([UB]: an access outside an array or a
    container, the use of an erased iterator, a remainder by zero, a signed
    overflow of [int64]).  Code with
    state is written in the monad [ST], in which the state survives every
    outcome.  Theorems are about results, not only about runs that return:
    they exclude [UB] and say which exception is thrown when.

    ** Files, and the code they model

    - [Prelude]: machine integers, outcomes, the monad, string searching,
      tactics, the hint database [poco].
    - [StreamBuf]: UnbufferedStreamBuf.h; the class [ByteStream] is the
      contract between a decoder (the device) and the reader of a block.
    - [Base64], [Base32]: the codecs of Base64Encoder/Decoder.cpp and
      Base32Encoder/Decoder.cpp, as instances of that contract.
    - [Strings]: Ascii.cpp and String.h.
    - [NumericString]: NumericString.h, NumberFormatter and NumberParser.
    - [Uri], [UriFacts]: URI.cpp, the class and its theorems, with the
      resolution of RFC 3986 as the RFC writes it.
    - [Path], [PathFacts]: Path.cpp in its three syntaxes; the home directory
      that the operating system supplies is an argument.
    - [Encodings], [TextConv], [EncodingFacts]: ten TextEncoding classes,
      TextIterator, TextConverter, UnicodeConverter.  A [TextEncoding] is a
      record of operations, the class [Lawful] what the converters need of it.
    - [Digest]: MD4Engine.cpp, MD5Engine.cpp, SHA1Engine.cpp, HMACEngine.h and
      DigestEngine.cpp; [DigestSpec] has the hashes of the RFCs and FIPS 180
      over whole messages, [DigestFacts] and [ShaFacts] the representation
      of the bytes fed so far, [DigestClaims] the theorems.  The class
      [HashEngine] is what an engine promises to HMAC.
    - [HashTable]: LinearHashTable.h with its iterators, HashMap.h, HashSet.h.
    - [Cache], [CacheFacts], [CacheClaims]: AbstractCache.h over the interface
      AbstractStrategy.h, with the LRU, expiring and access-expiring
      strategies and their collections.  [Implements] is what a strategy
      promises to the cache; the clock is the sequence of its readings.
      [CacheUnique]: UniqueExpireStrategy.h, UniqueAccessExpireStrategy.h and
      the decorators that give a value its expiry, as models of the same kind.
    - [Json]: Parser.h and Parser.cpp, ParseHandler, PrintHandler and
      Stringifier of the JSON library; [JsonFacts] has the calls an accepted
      text makes, [JsonBuild] the value ParseHandler builds of them,
      [JsonText] and [JsonRound] how the parser reads what the printer
      writes, [JsonClaims] the theorems; [JsonObject]: Object and Array as
      containers.  The conversion of floating point numbers is a parameter.
    - [Fifo], [FifoFacts]: Buffer.h and FIFOBuffer.h.
    - [Notify]: NotificationQueue, PriorityNotificationQueue (instances of one
      class of containers) and TimedNotificationQueue, as steps of threads
      that interleave between the sections under the mutex (for the timed
      queue every reading of the clock and every wait is a step); [NotifyFacts] has
      the invariant of the first two, [NotifyClaims] their theorems,
      [NotifyTimed] those of the third.
    - [Glob], [GlobFacts]: the matching of Glob.cpp; [Tokenizer]:
      StringTokenizer.cpp.
    - [BinaryStream], [BinaryFacts], [BinaryClaims]: BinaryReader and
      BinaryWriter; the text encoding of strings is a parameter.
      [HexBinary]: HexBinaryEncoder.cpp and HexBinaryDecoder.cpp.
    - [Headers], [HeadersFacts]: ListMap.h, NameValueCollection.cpp and
      MessageHeader.cpp, over the part of [std::istream] they use.
    - [Http], [HttpFacts]: MediaType.cpp, HTTPMessage.cpp, HTTPRequest.cpp and
      HTTPResponse.cpp.
    - [HttpStreams]: BufferedStreamBuf.h, HTTPSession.cpp and the chunked,
      fixed length and header stream buffers.  The socket is a parameter that
      may send fewer bytes than it is given; [StreamSocketLaws] is its law,
      [SendsAll] that of a socket that sends everything; [HttpStreamFacts] has the interfaces
      [DeviceReads] and [DeviceWrites] between a device and the buffered
      stream, which each of the three implements, [HttpStreamClaims] the
      theorems.
    - [Config]: AbstractConfiguration.cpp over the class [Configuration] of its
      virtual functions, and the map, property file, initialization file,
      layered and view configurations; the delegates of the events are a
      parameter.  [ConfigFiles] has the theorems on the two file formats,
      [ConfigFacts] those on references, the tree of keys and layers.
    - [Options], [OptionsFacts]: Option.cpp, OptionSet.cpp and
      OptionProcessor.cpp in both styles of the command line.
    - [Float]: the doubles of IEEE 754 that dates are computed in, as
      multiples of 2^-1074 with the rounding of every operation.
    - [DateTime]: Timespan.cpp, Timestamp.cpp and DateTime.cpp; [DateTimeFacts]
      has the Gregorian calendar and the computations in doubles,
      [DateTimeClaims] the theorems.  [DateTimeText]: DateTimeFormat.cpp,
      DateTimeFormatter.cpp and DateTimeParser.cpp, [DateTimeTextFacts] their
      theorems.
    - [Cookie]: HTTPCookie.cpp and the dates and cookies of HTTPResponse.cpp;
      [CookieFacts] has the texts of cookies and the timestamps a date of HTTP
      can carry, [CookieClaims] the theorems.
    - [Random], [RandomFacts]: Random.cpp, with the buffer as memory that may
      not have been written.
    - [Uuid]: UUID.cpp and UUIDGenerator.cpp over [Random], [DateTime] and the
      interface of the digests; [UuidFacts] has text, bytes and order,
      [UuidClaims] the generator.

    ** What the theorems show

    - Codecs: the encoders write the RFC 4648 text, the decoders read it back
      for every block size and decode every other text as the decoder of
      RFC 4648 that ignores line breaks and blanks does or throw
      DataFormatException, but for padding in the wrong place; no array access is out of range, except
      after a write error of the device ([Base64.encoder_write_safe]).
    - URIs: composition and parsing are inverse on well-formed URIs, percent
      coding is inverse for every set of reserved characters, resolution
      is that of RFC 3986 on the references [RFC3986.conforming] describes,
      normalization is idempotent.
    - Paths: each syntax reads its own text back; every path reachable by
      parsing and editing is normalized, under the conditions that append,
      setNode, setDevice and the VMS syntax need (lemmas show what happens
      without them); parsing always ends.
    - Text: conversion between lawful encodings is lossless and reports no
      error; the gaps of the decoders are stated as theorems.
    - Numbers and strings: formatting and parsing are inverse; the range check
      of the parser is off by one step at the top of each type.
    - Containers: the hash table refines a set and the map a finite map, for
      every sequence of calls; iteration visits every element once.
    - Caches: over any lawful strategy the answers agree with what was
      stored; the LRU cache is a list in order of use; an expiring cache
      answers by the age of the entry, or by the expiry the value carries.
    - Digests: one engine fed messages in pieces below 2^32 - 63 bytes leaves
      the reference hashes, HMAC over any such engine is RFC 2104; a single
      update of 2^32 bytes or more does not end.
    - JSON: an accepted text drives any handler by the calls of one value;
      printing and parsing are inverse; an object refines a finite map.
    - Buffers: a FIFO buffer refines the documented bounded queue with its
      notifications, up to the calls that do not do what is documented (drain
      of a part, setEOF without effect), which lemmas show.
    - Queues: in every interleaving each notification is in exactly one
      place, no wake-up is lost and waiting threads are served in the order of
      their calls; the timed queue, its wait loop included, is safe with
      one consumer and without clear, and not with two or with it.
    - Patterns and tokens: the glob matcher decides the language of the
      pattern and ends on every input; the tokens are the fields.
    - Binary and hexadecimal streams: the readers read back what the writers
      write; seven-bit integers are read within their width or not at all.
    - Headers and HTTP messages: a collection refines the documented map to
      lists of values as long as set and get meet names with one value (an
      added value goes in front of the others, against the documentation); what is written is read
      back, the fields of one name in an order that is not claimed; on every
      input reading ends within the documented limits or throws a message
      exception.
    - HTTP streams: the chunked and the fixed length stream carry a body
      exactly over a socket that sends everything, in whatever pieces it
      delivers, and leave the connection behind it; a socket that sends less
      loses a part of a chunk; reading ends on every input.
    - Configurations: references are expanded as their grammar says or the
      nesting is reported; removal and enumeration follow the tree of keys;
      property files are read back, and loading ends on every text; a layered
      configuration answers with its first layer and writes to one.
    - Options: a command line that spells settings is reported back exactly;
      an option that is not repeatable is reported at most once.
    - Dates: the computation in doubles follows the Gregorian calendar and is
      inverse for dates from 15 October 1582 to the year 9999 and times that
      are not in the last 102 microseconds of a day; outside, wrong dates are
      given as lemmas.  ISO 8601 and HTTP dates are read back.
    - Cookies and dates of a response: a response has what it was given; an
      age that is sent as an expiry is the time left, in whole seconds.
    - Random numbers: for every seed and size the sequence is the documented
      one, and no memory is read before it was written.
    - Identifiers: text, bytes and order agree (the text is read back when the
      two digits of a byte are read from left to right, which C++ leaves
      open); name based identifiers are
      those of RFC 4122 over any lawful engine; time based ones differ as long
      as there are at most ten in a microsecond, and not beyond.

    ** Fuel

    Loops that are not structural carry fuel that their theorems show to be
    enough: the text length for the parsers of paths and the conversion
    loops, the number of buckets for the hash table's iterator, seven steps
    for the byte collection of [TextIterator], 65 digits for a number, the
    remaining length for string replacement and for the JSON text, the
    nesting of a JSON value for the printer, the length of the container for
    [dispatch], the length of the pattern for the glob matcher, what is left
    of the input for seven-bit integers, header fields, session loops and
    configuration files, eleven less the depth for nested references, 32 for
    the search of the first day of a week, one reading of the clock for a time
    based identifier (more only after a hundred in one microsecond, where
    [UuidClaims.stamp_ends] says when the loop ends).

    ** Not modelled

    Locks inside the data structures (an operation under a mutex is one
    step; the notification queues have the steps in between), files,
    processes, sockets and the operating system, with its clock, time zone
    and random device, whose readings are arguments; floating point numbers
    as text, which the bundled double-conversion library converts; JSON
    objects that preserve the insertion order, and JSON queries, which work on
    values of run-time types; validators and callbacks of options and the help
    text; timeouts and network errors, forms and multipart messages, which sit
    on streams of files; XML, Data, Zip, MongoDB and Crypto, which wrap expat,
    data bases, zlib and OpenSSL; the third-party trees named above; generated
    tables of the PDF library.  The manifest lists every part with its
    reason. *)

From stdpp Require Export base list numbers option tactics.
From Stdlib Require Export ZArith Lia ZifyBool.
From Stdlib Require String Ascii.
Export String.StringSyntax Ascii.AsciiSyntax.
Delimit Scope string_scope with string.
Delimit Scope char_scope with char.
From coqutil Require Import Z.bitblast.

Open Scope Z_scope.

(** [lia] sees through division and remainder by constants. *)
Ltac Zify.zify_post_hook ::= Z.to_euclidean_division_equations.

(** ** Machine integers *)

(** Conversion to the unsigned types of 8, 16, 32 and 64 bits. *)
Definition u8 (z : Z) : Z := z mod 2 ^ 8.
Definition u16 (z : Z) : Z := z mod 2 ^ 16.
Definition u32 (z : Z) : Z := z mod 2 ^ 32.
Definition u64 (z : Z) : Z := z mod 2 ^ 64.

(** Two's complement conversion to a signed type of [w] bits. *)
Definition swrap (w z : Z) : Z := (z + 2 ^ (w - 1)) mod 2 ^ w - 2 ^ (w - 1).
Definition s8 : Z -> Z := swrap 8.
Definition s32 : Z -> Z := swrap 32.
Definition s64 : Z -> Z := swrap 64.

(** A byte, as an [unsigned char] holds it. *)
Definition is_byte (z : Z) : Prop := 0 <= z < 256.
Definition is_byteb (z : Z) : bool := (0 <=? z) && (z <? 256).

Lemma is_byteb_spec z : is_byteb z = true <-> is_byte z.
Proof. unfold is_byteb, is_byte. lia. Qed.

Global Instance is_byte_dec z : Decision (is_byte z).
Proof. refine (cast_if (decide (is_byteb z = true))); by rewrite <-is_byteb_spec. Defined.

Lemma u8_byte z : is_byte (u8 z).
Proof. unfold u8, is_byte. lia. Qed.

Lemma u8_id z : is_byte z -> u8 z = z.
Proof. unfold u8, is_byte. intros. lia. Qed.

Lemma s32_id z : - 2 ^ 31 <= z < 2 ^ 31 -> s32 z = z.
Proof. unfold s32, swrap. simpl. lia. Qed.

Lemma s64_id z : - 2 ^ 63 <= z < 2 ^ 63 -> s64 z = z.
Proof. unfold s64, swrap. simpl. lia. Qed.

(** ** Bit operations as arithmetic *)

Lemma land_mask x k m : 0 <= k -> m = 2 ^ k - 1 -> Z.land x m = x mod 2 ^ k.
Proof.
  intros Hk ->. rewrite <-Z.land_ones by done. f_equal. rewrite Z.ones_equiv. lia.
Qed.

Lemma lor_shiftl_add hi lo k :
  0 <= k -> 0 <= lo < 2 ^ k -> Z.lor (Z.shiftl hi k) lo = hi * 2 ^ k + lo.
Proof.
  intros Hk Hlo. rewrite <-Z.shiftl_mul_pow2 by done.
  enough (Z.land (Z.shiftl hi k) lo = 0) as E
    by (pose proof (Z.add_lor_land (Z.shiftl hi k) lo); lia).
  apply Z.bits_inj_0. intros i. rewrite Z.land_spec.
  destruct (Z.ltb_spec i 0) as [|Hi]; [by rewrite Z.testbit_neg_r by lia|].
  destruct (Z.ltb_spec i k) as [Hik|Hik].
  - by rewrite Z.shiftl_spec_low by lia.
  - rewrite <-(Z.mod_small lo (2 ^ k)) by done.
    rewrite Z.mod_pow2_bits_high by lia. apply andb_false_r.
Qed.

Lemma land_shifted_mask v m a :
  0 <= a -> Z.land v (Z.shiftl m a) = Z.shiftl (Z.land (Z.shiftr v a) m) a.
Proof.
  intros Ha. apply Z.bits_inj'. intros i Hi. rewrite Z.land_spec, !Z.shiftl_spec by lia.
  destruct (Z.ltb_spec i a).
  - rewrite (Z.testbit_neg_r m), (Z.testbit_neg_r (Z.land _ _)) by lia. apply andb_false_r.
  - rewrite Z.land_spec, Z.shiftr_spec by lia. do 2 f_equal. lia.
Qed.

(** A mask [m] (all ones) as a remainder, for the constants of the code. *)
Ltac mask_to_mod :=
  repeat match goal with
  | |- context [Z.land ?x ?m] =>
      let k := eval vm_compute in (Z.log2_up (m + 1)) in
      rewrite (land_mask x k m) by (vm_compute; congruence || reflexivity)
  end.

(** Bit-level equations and bounds over bytes, by arithmetic. *)
Ltac bits_arith :=
  unfold u8, is_byte in *; mask_to_mod;
  rewrite ?Z.shiftr_div_pow2 by lia;
  rewrite ?lor_shiftl_add by lia;
  rewrite ?Z.shiftl_mul_pow2 by lia; lia.

(** ** Character and string literals

    A [char] is represented by its [unsigned char] value, a [std::string]
    by the list of its characters. *)
Definition chr (a : Ascii.ascii) : Z := Z.of_N (Ascii.N_of_ascii a).
Arguments chr a%_char.
Definition str (s : String.string) : list Z := map chr (String.list_ascii_of_string s).
Arguments str s%_string.

Lemma chr_byte a : is_byte (chr a).
Proof.
  unfold chr, is_byte. pose proof (Ascii.N_ascii_bounded a). lia.
Qed.

Lemma str_bytes s : Forall is_byte (str s).
Proof. unfold str. apply Forall_map, Forall_true. intros; apply chr_byte. Qed.

(** ** Exceptions and outcomes *)

(** The exceptions of Poco/Exception.h, Poco/URI.h and Poco/JSON/JSONException.h
    the modelled code throws. *)
Inductive exception :=
| AssertionViolationException
| BugcheckException
| NullPointerException
| InvalidAccessException
| RangeException
| InvalidArgumentException
| NotFoundException
| DataFormatException
| SyntaxException
| URISyntaxException
| PathSyntaxException
| BadCastException
| JSONException
| CircularReferenceException
| RuntimeException
| UnknownOptionException
| AmbiguousOptionException
| MissingOptionException
| MissingArgumentException
| UnexpectedArgumentException
| DuplicateOptionException
| IncompatibleOptionsException
| EmptyOptionException
| MessageException
| NoMessageException
| NotAuthenticatedException
| StdOutOfRange.    (* std::out_of_range, thrown by std::string *)

Global Instance exception_eq_dec : EqDecision exception.
Proof. solve_decision. Defined.

(** What a call gives back: a value, the [eof] value of a stream operation,
    an exception, or undefined behaviour (an access outside an array). *)
Inductive res (A : Type) :=
| Done (a : A)
| Eof
| Raise (e : exception)
| UB.
Arguments Done {A} _.
Arguments Eof {A}.
Arguments Raise {A} _.
Arguments UB {A}.

(** The value of an expression of a signed type of 64 bits: undefined when it is
    not in the range of the type. *)
Definition int64 (z : Z) : res Z := if (- 2 ^ 63 <=? z) && (z <? 2 ^ 63) then Done z else UB.

Lemma int64_ok z : - 2 ^ 63 <= z < 2 ^ 63 -> int64 z = Done z.
Proof. intros H. unfold int64. rewrite (proj2 (Z.leb_le _ _)), (proj2 (Z.ltb_lt _ _)) by lia. done. Qed.

Global Instance res_eq_dec `{EqDecision A} : EqDecision (res A).
Proof. solve_decision. Defined.

(** Sequencing of pure code that can throw. *)
Definition rbind {A B} (m : res A) (k : A -> res B) : res B :=
  match m with Done a => k a | Eof => Eof | Raise e => Raise e | UB => UB end.

Declare Scope res_scope.
Delimit Scope res_scope with res.
Notation "'let?' x := m 'in' k" := (rbind m (fun x => k))
  (at level 10, x name, m at level 100, k at level 200) : res_scope.

(** ** The state and outcome monad of the stateful code

    The state survives every outcome: what a member function changed before
    an early return or a throw stays changed. *)
Definition ST (S A : Type) : Type := S -> res A * S.

Section Monad.
Context {S : Type}.

Definition ret {A} (a : A) : ST S A := fun s => (Done a, s).
Definition fail_eof {A} : ST S A := fun s => (Eof, s).
Definition throw {A} (e : exception) : ST S A := fun s => (Raise e, s).
Definition undef {A} : ST S A := fun s => (UB, s).
Definition get : ST S S := fun s => (Done s, s).
Definition modify (f : S -> S) : ST S unit := fun s => (Done tt, f s).

Definition bind {A B} (m : ST S A) (k : A -> ST S B) : ST S B := fun s =>
  match m s with
  | (Done a, s') => k a s'
  | (Eof, s') => (Eof, s')
  | (Raise e, s') => (Raise e, s')
  | (UB, s') => (UB, s')
  end.

(** [poco_assert] *)
Definition poco_assert (c : bool) : ST S unit :=
  if c then ret tt else throw AssertionViolationException.

(** A call of pure code. *)
Definition lift {A} (m : res A) : ST S A := fun s => (m, s).

(** [a[i]]: outside the array the behaviour is undefined. *)
Definition aget {A} (l : list A) (i : Z) : ST S A :=
  if i <? 0 then undef
  else match l !! Z.to_nat i with Some v => ret v | None => undef end.

Lemma aget_in {A} (l : list A) i v s :
  0 <= i -> l !! Z.to_nat i = Some v -> aget l i s = (Done v, s).
Proof. intros Hi Hl. unfold aget. rewrite (proj2 (Z.ltb_ge i 0)), Hl by lia. done. Qed.
End Monad.

Declare Scope st_scope.
Delimit Scope st_scope with st.
Notation "'let*' x := m 'in' k" := (bind m (fun x => k))
  (at level 10, x name, m at level 100, k at level 200) : st_scope.
Notation "'do*' m ; k" := (bind m (fun _ => k))
  (at level 10, m at level 100, k at level 200) : st_scope.

(** Run a monadic computation step by step in a goal. *)
Ltac st_unfold := unfold bind, ret, get, modify, throw, fail_eof, undef.

Section MonadLaws.
Context {S A B C : Type}.
Implicit Types (s : S).

Lemma bind_Done (m : ST S A) (k : A -> ST S B) s a s' :
  m s = (Done a, s') -> bind m k s = k a s'.
Proof. intros H. unfold bind. by rewrite H. Qed.

Lemma bind_Raise (m : ST S A) (k : A -> ST S B) s e s' :
  m s = (Raise e, s') -> bind m k s = (Raise e, s').
Proof. intros H. unfold bind. by rewrite H. Qed.

Lemma bind_ret (a : A) (k : A -> ST S B) s : bind (ret a) k s = k a s.
Proof. done. Qed.

Lemma bind_bind (m : ST S A) (k1 : A -> ST S B) (k2 : B -> ST S C) s :
  bind (bind m k1) k2 s = bind m (fun x => bind (k1 x) k2) s.
Proof. unfold bind. by destruct (m s) as [[] ?]. Qed.

Lemma bind_aget (l : list A) i v (k : A -> ST S B) s :
  (if i <? 0 then None else l !! Z.to_nat i) = Some v -> bind (aget l i) k s = k v s.
Proof. unfold bind, aget. destruct (i <? 0); [done|]. by intros ->. Qed.
End MonadLaws.

Lemma bind_get {S B} (k : S -> ST S B) (s : S) : bind get k s = k s s.
Proof. done. Qed.

Lemma bind_modify {S B} f (k : unit -> ST S B) (s : S) : bind (modify f) k s = k tt (f s).
Proof. done. Qed.

(** Execute the administrative steps of a computation; [aget] at known indices. *)
Ltac st_step :=
  first [ rewrite bind_bind | rewrite bind_ret | rewrite bind_get | rewrite bind_modify
        | erewrite bind_aget by reflexivity ]; cbv beta.

(** Decide the closed tests and fold the closed indices of a computation. *)
Ltac fold_consts :=
  repeat match goal with
  | |- context [if ?c then _ else _] =>
      match eval cbv in c with
      | true => change c with true; cbv iota
      | false => change c with false; cbv iota
      end
  | |- context [?a + ?b] =>
      let v := eval cbv in (a + b) in
      match v with
      | Z0 => change (a + b) with v
      | Zpos ?p => lazymatch isPcst p with true => change (a + b) with v end
      end
  | |- context [Z.to_nat ?a] =>
      let v := eval cbv in (Z.to_nat a) in
      match v with O => change (Z.to_nat a) with v | S _ => change (Z.to_nat a) with v end
  end.

(** ** Lists *)

(** Induction in steps of [k] elements, for code that works in groups. *)
Lemma list_chunk_ind {A} (k : nat) (P : list A -> Prop) :
  (0 < k)%nat ->
  (forall l, (length l < k)%nat -> P l) ->
  (forall g r, length g = k -> P r -> P (g ++ r)) ->
  forall l, P l.
Proof.
  intros Hk Hshort Hstep l.
  remember (length l) as n eqn:Hn. revert l Hn.
  induction (lt_wf n) as [n _ IH]. intros l ->.
  destruct (decide (length l < k)%nat) as [|Hge]; [auto|].
  rewrite <-(take_drop k l). apply Hstep; [rewrite length_take; lia|].
  apply (IH (length (drop k l))); [rewrite length_drop; lia|done].
Qed.

(** [chunk_induction l k]: a list shorter than [k], and a group of [k] before a list. *)
Ltac chunk_induction l k :=
  pattern l; revert l; refine (list_chunk_ind k _ _ _ _); [lia| |].

(** Elements that all pass a filter, and that all fail it. *)
Lemma filter_keeps {A} (P : A -> Prop) `{forall x, Decision (P x)} (l : list A) :
  (forall x, x ∈ l -> P x) -> filter P l = l.
Proof.
  induction l as [|x l IH]; intros Hl; [done|].
  rewrite filter_cons_True by (apply Hl, elem_of_cons; by left).
  f_equal. apply IH. intros y Hy. apply Hl, elem_of_cons. by right.
Qed.

Lemma filter_drops {A} (P : A -> Prop) `{forall x, Decision (P x)} (l : list A) :
  (forall x, x ∈ l -> ~ P x) -> filter P l = [].
Proof.
  induction l as [|x l IH]; intros Hl; [done|].
  rewrite filter_cons_False by (apply Hl, elem_of_cons; by left).
  apply IH. intros y Hy. apply Hl, elem_of_cons. by right.
Qed.

(** [while (it != end && p( *it )) out += *it++;] *)
Fixpoint span (p : Z -> bool) (l : list Z) : list Z * list Z :=
  match l with
  | [] => ([], [])
  | c :: r => if p c then let (a, b) := span p r in (c :: a, b) else ([], l)
  end.

(** ** Searching and cutting strings *)

(** [s.find(c) != npos] *)
Definition contains (s : list Z) (c : Z) : bool := existsb (Z.eqb c) s.

Definition eqb_str (a b : list Z) : bool := bool_decide (a = b).

Definition not_in (stop : list Z) (c : Z) : bool := negb (contains stop c).

Lemma eqb_str_spec a b : eqb_str a b = true <-> a = b.
Proof. unfold eqb_str. by rewrite bool_decide_eq_true. Qed.

Lemma span_app p a c r :
  Forall (fun x => p x = true) a -> p c = false -> span p (a ++ c :: r) = (a, c :: r).
Proof. intros Ha Hc. induction Ha as [|x a Hx Ha IH]; simpl; [by rewrite Hc|by rewrite Hx, IH]. Qed.

Lemma span_all p a : Forall (fun x => p x = true) a -> span p a = (a, []).
Proof. intros Ha. induction Ha as [|x a Hx Ha IH]; simpl; [done|by rewrite Hx, IH]. Qed.

(** No character of [s] is one of [stop]. *)
Definition avoids (stop s : list Z) : bool := forallb (not_in stop) s.

Lemma avoids_Forall stop s : avoids stop s = true <-> Forall (fun x => not_in stop x = true) s.
Proof. unfold avoids. rewrite forallb_forall, List.Forall_forall. done. Qed.

Lemma avoids_app stop a b : avoids stop (a ++ b) = avoids stop a && avoids stop b.
Proof. apply forallb_app. Qed.

Lemma avoids_cons stop c s : avoids stop (c :: s) = not_in stop c && avoids stop s.
Proof. done. Qed.

Lemma span_avoids stop a c r :
  avoids stop a = true -> contains stop c = true -> span (not_in stop) (a ++ c :: r) = (a, c :: r).
Proof.
  intros Ha Hc. apply span_app; [by apply avoids_Forall|]. unfold not_in. by rewrite Hc.
Qed.

Lemma span_avoids_all stop a : avoids stop a = true -> span (not_in stop) a = (a, []).
Proof. intros Ha. apply span_all. by apply avoids_Forall. Qed.

Lemma avoids_weaken stop stop' s :
  (forall c, contains stop c = true -> contains stop' c = true) ->
  avoids stop' s = true -> avoids stop s = true.
Proof.
  intros Hsub. rewrite !avoids_Forall. apply Forall_impl. intros c. unfold not_in.
  specialize (Hsub c). destruct (contains stop c); [by rewrite Hsub|done].
Qed.

Lemma span_stops p s d r : snd (span p s) = d :: r -> p d = false.
Proof.
  induction s as [|c s IH]; simpl; [done|]. destruct (p c) eqn:E.
  - destruct (span p s). simpl in *. auto.
  - by injection 1 as <- _.
Qed.

Lemma span_snd_in p s d r : snd (span p s) = d :: r -> exists a, s = a ++ d :: r.
Proof.
  induction s as [|c s IH]; simpl; [done|]. destruct (p c) eqn:E.
  - destruct (span p s). simpl in *. intros H. destruct (IH H) as [a ->]. by exists (c :: a).
  - injection 1 as -> ->. by exists [].
Qed.

Lemma bytes_Forall s : forallb is_byteb s = true -> Forall is_byte s.
Proof.
  rewrite forallb_forall, List.Forall_forall. intros H x Hx. apply is_byteb_spec. auto.
Qed.

(** [v.back()] and [v.pop_back()] of a non-empty vector. *)
Definition back (l : list (list Z)) : list Z := nth (length l - 1) l [].
Definition pop_back (l : list (list Z)) : list (list Z) := take (length l - 1) l.

Lemma back_snoc l s : back (l ++ [s]) = s.
Proof. unfold back. rewrite length_app. simpl. replace (_ - 1)%nat with (length l) by lia. apply nth_middle. Qed.

Lemma pop_back_snoc l s : pop_back (l ++ [s]) = l.
Proof.
  unfold pop_back. rewrite length_app. simpl. replace (_ - 1)%nat with (length l) by lia.
  by rewrite take_app_length.
Qed.

(** All the values below a bound satisfy a boolean test: the kernel evaluates it. *)
Fixpoint allbelow (n : nat) (f : Z -> bool) : bool :=
  match n with
  | O => true
  | S m => f (Z.of_nat m) && allbelow m f
  end.

Lemma allbelow_spec n f :
  allbelow n f = true -> forall z, 0 <= z < Z.of_nat n -> f z = true.
Proof.
  induction n as [|n IH]; simpl; [lia|].
  intros [Hn H]%andb_true_iff z Hz.
  destruct (decide (z = Z.of_nat n)) as [->|]; [done|]. apply IH; [done|lia].
Qed.

(** ** Numbers as bytes *)

(** The [n] bytes of a number, least significant first. *)
Fixpoint le_bytes (n : nat) (x : Z) : list Z :=
  match n with
  | O => []
  | S n => x mod 256 :: le_bytes n (x / 256)
  end.

Definition be_bytes (n : nat) (x : Z) : list Z := rev (le_bytes n x).

Lemma le_bytes_bytes n x : Forall is_byte (le_bytes n x).
Proof.
  revert x. induction n as [|n IH]; intros x; simpl; constructor; [|done].
  unfold is_byte. apply Z.mod_pos_bound. lia.
Qed.

Lemma length_le_bytes n x : length (le_bytes n x) = n.
Proof. revert x. induction n as [|n IH]; intros x; simpl; [done|]. by rewrite IH. Qed.

Lemma be_bytes_bytes n x : Forall is_byte (be_bytes n x).
Proof. apply Forall_rev, le_bytes_bytes. Qed.

Lemma length_be_bytes n x : length (be_bytes n x) = n.
Proof. unfold be_bytes. by rewrite length_rev, length_le_bytes. Qed.

Lemma le_bytes_mod n x : le_bytes n (x mod 256 ^ Z.of_nat n) = le_bytes n x.
Proof.
  revert x. induction n as [|n IH]; intros x; [done|]. simpl le_bytes.
  rewrite Nat2Z.inj_succ, Z.pow_succ_r, Z.rem_mul_r by lia. f_equal.
  - rewrite Z.mul_comm, Z.mod_add, Z.mod_mod by lia. done.
  - rewrite (Z.mul_comm 256), Z.div_add, Z.div_small, Z.add_0_l by lia. apply IH.
Qed.

Lemma le_bytes_app a b x : le_bytes (a + b) x = le_bytes a x ++ le_bytes b (x / 256 ^ Z.of_nat a).
Proof.
  revert x. induction a as [|a IH]; intros x; simpl le_bytes; [by rewrite Z.div_1_r|].
  rewrite IH, Z.div_div, <-Z.pow_succ_r, <-Nat2Z.inj_succ by lia. done.
Qed.

(** The number of some bytes, least significant first. *)
Fixpoint le_combine (bs : list Z) : Z :=
  match bs with
  | [] => 0
  | b :: r => b + 256 * le_combine r
  end.

Lemma le_combine_bytes n x : le_combine (le_bytes n x) = x mod 256 ^ Z.of_nat n.
Proof.
  revert x. induction n as [|n IH]; intros x; [by rewrite Z.mod_1_r|]. cbn [le_bytes le_combine].
  rewrite IH, Nat2Z.inj_succ, Z.pow_succ_r, Z.rem_mul_r by lia. lia.
Qed.

Lemma le_bytes_combine bs : Forall is_byte bs -> le_bytes (length bs) (le_combine bs) = bs.
Proof.
  induction 1 as [|b bs Hb _ IH]; [done|]. cbn [length le_bytes le_combine]. unfold is_byte in Hb. f_equal.
  - rewrite Z.mul_comm, Z.mod_add, Z.mod_small by lia. done.
  - rewrite Z.mul_comm, Z.div_add, Z.div_small by lia. by rewrite Z.add_0_l.
Qed.

Lemma le_combine_range bs : Forall is_byte bs -> 0 <= le_combine bs < 256 ^ Z.of_nat (length bs).
Proof.
  induction 1 as [|b bs Hb _ IH]; [cbn; lia|]. cbn [length le_combine]. unfold is_byte in Hb.
  rewrite Nat2Z.inj_succ, Z.pow_succ_r by lia. lia.
Qed.

(** ** Automation *)

Create HintDb poco discriminated.
#[export] Hint Resolve u8_byte chr_byte str_bytes le_bytes_bytes be_bytes_bytes : poco.

(** Split [Forall] hypotheses over a list of known shape. *)
Ltac inv_Forall :=
  repeat match goal with
  | H : Forall _ (_ :: _) |- _ => apply Forall_cons_iff in H as [? H]
  | H : Forall _ (_ ++ _) |- _ => apply Forall_app in H as [? H]
  | H : Forall _ [] |- _ => clear H
  end.

(** Equations between bit-level expressions over bounded integers. *)
Ltac bitwise := unfold u8, u16, u32, is_byte in *; Z.bitblast.
