(* ===== verification/StreamBuf.v ===== *)
(** Stream buffers.

    [Sink] and [Source] are what the codecs use of [std::streambuf] ([sputc],
    [sbumpc]); [Unbuffered] is Poco/UnbufferedStreamBuf.h, the base class of
    the codecs: one character of look-ahead over [readFromDevice], and
    [xsgetn] as the loop that reads a block.  The class [ByteStream] is the
    contract between a decoder and a reader: a device that hands out a given
    byte sequence and then end of file. *)

From S2P Require Import Prelude.

Open Scope st_scope.

(** ** The standard stream buffers a codec is connected to *)
Module Sink.
(** Characters accepted so far, and how many more the device accepts
    ([None]: any number). *)
Record ostreambuf := { written : list Z; room : option nat }.

(** [sputc(c)]: [false] is the [eof] result. *)
Definition sputc (c : Z) (b : ostreambuf) : bool * ostreambuf :=
  match room b with
  | Some O => (false, b)
  | Some (S n) => (true, {| written := written b ++ [c]; room := Some n |})
  | None => (true, {| written := written b ++ [c]; room := None |})
  end.

Definition empty : ostreambuf := {| written := []; room := None |}.
End Sink.

Module Source.
(** [sbumpc()] on the characters that are left; [None] is [eof]. *)
Definition sbumpc (input : list Z) : option Z * list Z :=
  match input with
  | [] => (None, [])
  | c :: r => (Some c, r)
  end.
End Source.

(** ** The contract of a device that is read *)

(** The values [readFromDevice] hands out from a state, and how the sequence
    ends: end of file, which is stable, or an exception. *)
Inductive produces {S} (read : ST S Z) : S -> list Z -> option exception -> Prop :=
| produces_eof s s' :
    read s = (Eof, s') -> read s' = (Eof, s') -> produces read s [] None
| produces_throw s s' e : read s = (Raise e, s') -> produces read s [] (Some e)
| produces_cons s s' b bs fin :
    read s = (Done b, s') -> b <> -1 -> produces read s' bs fin -> produces read s (b :: bs) fin.

(** A device that hands out the elements of a buffer one by one before it
    goes on from the state at the buffer's end. *)
Lemma produces_buffered {S} (read : ST S Z) (st : nat -> S) (g bs : list Z) fin :
  (forall j v, g !! j = Some v -> read (st j) = (Done v, st (Datatypes.S j)) /\ v <> -1) ->
  produces read (st (length g)) bs fin ->
  forall i, (i <= length g)%nat -> produces read (st i) (drop i g ++ bs) fin.
Proof.
  intros Hread Hend i Hi. remember (length g - i)%nat as k eqn:Hk. revert i Hi Hk.
  induction k as [|k IH]; intros i Hi Hk.
  - replace i with (length g) by lia. by rewrite drop_all.
  - destruct (lookup_lt_is_Some_2 g i) as [v Hv]; [lia|].
    rewrite (drop_S _ _ _ Hv). destruct (Hread i v Hv).
    eapply produces_cons; [done..|]. apply IH; lia.
Qed.

(** A device is a byte stream when [meaning] gives, for each well-formed
    state, the bytes it hands out and the way they end. *)
Class ByteStream {S} (read : ST S Z) (wf : S -> Prop)
    (meaning : S -> list Z * option exception) : Prop :=
  stream_produces : forall s, wf s -> produces read s (meaning s).1 (meaning s).2.

(** What a reader of at most [n] bytes gets from such a sequence. *)
Definition delivered (n : nat) (m : list Z * option exception) : res (list Z) :=
  match m.2 with
  | Some e => if decide (n <= length m.1)%nat then Done (take n m.1) else Raise e
  | None => Done (take n m.1)
  end.

Module Unbuffered.
Section Unbuffered.
Context {S : Type} (readFromDevice : ST S Z).

Definition eof : Z := -1.

Record streambuf := { _pb : Z; _ispb : bool; device : S }.

Definition BasicUnbufferedStreamBuf (s : S) : streambuf :=
  {| _pb := eof; _ispb := false; device := s |}.

Definition set_pb (c : Z) (b : streambuf) : streambuf :=
  {| _pb := c; _ispb := _ispb b; device := device b |}.
Definition set_ispb (f : bool) (b : streambuf) : streambuf :=
  {| _pb := _pb b; _ispb := f; device := device b |}.

(** The virtual call, its [eof] result as the value -1. *)
Definition call_device : ST streambuf Z := fun b =>
  let (r, s) := readFromDevice (device b) in
  let b' := {| _pb := _pb b; _ispb := _ispb b; device := s |} in
  match r with
  | Done c => (Done c, b')
  | Eof => (Done eof, b')
  | Raise e => (Raise e, b')
  | UB => (UB, b')
  end.

Definition underflow : ST streambuf Z :=
  let* b := get in
  if _ispb b then ret (_pb b)
  else
    let* c := call_device in
    if c =? eof then ret c
    else do* modify (set_ispb true); do* modify (set_pb c); ret c.

Definition uflow : ST streambuf Z :=
  let* b := get in
  if _ispb b then do* modify (set_ispb false); ret (_pb b)
  else
    let* c := call_device in
    if c =? eof then ret c
    else do* modify (set_pb c); ret c.

Definition pbackfail (c : Z) : ST streambuf Z :=
  let* b := get in
  if _ispb b then ret eof
  else do* modify (set_ispb true); do* modify (set_pb c); ret c.

(** The characters copied to [p]; their number is the returned count. *)
Fixpoint xsgetn (count : nat) : ST streambuf (list Z) :=
  match count with
  | O => ret []
  | Datatypes.S n =>
      let* c := uflow in
      if c =? eof then ret []
      else let* rest := xsgetn n in ret (c :: rest)
  end.

Lemma uflow_produces b c bs fin :
  _ispb b = false -> produces readFromDevice (device b) (c :: bs) fin ->
  exists b', uflow b = (Done c, b') /\ _ispb b' = false /\
             produces readFromDevice (device b') bs fin.
Proof.
  intros Hb Hp. inversion Hp as [| |? s' ? ? ? Hr Hc Hrest]; subst.
  eexists. unfold uflow, call_device. st_unfold. rewrite Hb, Hr.
  rewrite (proj2 (Z.eqb_neq _ _)) by done. simpl. eauto.
Qed.

Lemma uflow_exhausted b fin :
  _ispb b = false -> produces readFromDevice (device b) [] fin ->
  exists b', match fin with
             | None => uflow b = (Done eof, b')
             | Some e => uflow b = (Raise e, b')
             end.
Proof.
  intros Hb Hp. inversion Hp as [? s' Hr Hs|? s' e Hr|]; subst;
    eexists; unfold uflow, call_device; st_unfold; rewrite Hb, Hr; reflexivity.
Qed.

Lemma xsgetn_produces n b bs fin :
  _ispb b = false -> produces readFromDevice (device b) bs fin ->
  fst (xsgetn n b) = delivered n (bs, fin).
Proof.
  revert b bs. induction n as [|n IH]; intros b bs Hb Hp; simpl.
  { unfold delivered. destruct fin; [|done]. case_decide; [done|simpl in *; lia]. }
  destruct bs as [|c bs].
  - destruct (uflow_exhausted b fin Hb Hp) as (b' & Hu).
    destruct fin; unfold bind; rewrite Hu; done.
  - assert (c <> -1) by (inversion Hp; done).
    destruct (uflow_produces b c bs fin Hb Hp) as (b' & Hu & Hi & Hp').
    rewrite (bind_Done _ _ _ _ _ Hu), (proj2 (Z.eqb_neq c eof)) by done.
    specialize (IH b' bs Hi Hp'). unfold bind, ret.
    destruct (xsgetn n b') as [[] b'']; simpl in IH; unfold delivered in *; simpl in *;
      destruct fin; repeat case_decide; simplify_eq; try done; lia.
Qed.

(** Reading a block from a device that is a byte stream. *)
Lemma read_stream `{!ByteStream readFromDevice wf meaning} n s :
  wf s ->
  fst (xsgetn n (BasicUnbufferedStreamBuf s)) = delivered n (meaning s).
Proof.
  intros Hs. rewrite (surjective_pairing (meaning s)).
  apply xsgetn_produces; [done|]. by apply stream_produces.
Qed.
End Unbuffered.
End Unbuffered.
