(* ===== verification/Base64.v ===== *)
(** Base64 (Foundation/src/Base64Encoder.cpp, Base64Decoder.cpp).

    [Encoder] and [Decoder] are the two stream buffers with their members as
    records; [rfc4648] is the encoding of RFC 4648 as arithmetic on 24-bit
    groups, with the line breaks of the encoder.  The encoder equals the
    reference, and the decoder read through UnbufferedStreamBuf gives the
    bytes back whatever the line length. *)

From S2P Require Import Prelude StreamBuf.

Open Scope st_scope.

Definition OUT_ENCODING : list Z :=
  str "ABCDEFGHIJKLMNOPQRSTUVWXYZabcdefghijklmnopqrstuvwxyz0123456789+/".

Module Encoder.
Record Base64EncoderBuf := {
  _group : list Z;          (* unsigned char[3] *)
  _groupLength : Z;
  _pos : Z;
  _lineLength : Z;
  _buf : Sink.ostreambuf
}.

Definition construct (ostr : Sink.ostreambuf) : Base64EncoderBuf :=
  {| _group := [0; 0; 0]; _groupLength := 0; _pos := 0; _lineLength := 72; _buf := ostr |}.

Definition setLineLength (n : Z) (b : Base64EncoderBuf) : Base64EncoderBuf :=
  {| _group := _group b; _groupLength := _groupLength b; _pos := _pos b;
     _lineLength := n; _buf := _buf b |}.
Definition set_groupLength (n : Z) (b : Base64EncoderBuf) : Base64EncoderBuf :=
  {| _group := _group b; _groupLength := n; _pos := _pos b;
     _lineLength := _lineLength b; _buf := _buf b |}.
Definition set_pos (n : Z) (b : Base64EncoderBuf) : Base64EncoderBuf :=
  {| _group := _group b; _groupLength := _groupLength b; _pos := n;
     _lineLength := _lineLength b; _buf := _buf b |}.
Definition set_group (g : list Z) (b : Base64EncoderBuf) : Base64EncoderBuf :=
  {| _group := g; _groupLength := _groupLength b; _pos := _pos b;
     _lineLength := _lineLength b; _buf := _buf b |}.

(** [if (_buf.sputc(c) == eof) return eof;] *)
Definition put (c : Z) : ST Base64EncoderBuf unit := fun b =>
  let (ok, buf) := Sink.sputc c (_buf b) in
  let b' := {| _group := _group b; _groupLength := _groupLength b; _pos := _pos b;
               _lineLength := _lineLength b; _buf := buf |} in
  if ok then (Done tt, b') else (Eof, b').

(** [_group[i] = v;] *)
Definition store (i v : Z) : ST Base64EncoderBuf unit :=
  let* b := get in
  let* _old := aget (_group b) i in
  modify (set_group (<[Z.to_nat i := v]> (_group b))).

(** [idx = e; if (_buf.sputc(OUT_ENCODING[idx]) == eof) return eof;] *)
Definition put_digit (idx : Z) : ST Base64EncoderBuf unit :=
  let* c := aget OUT_ENCODING (u8 idx) in put c.

Definition writeToDevice (c : Z) : ST Base64EncoderBuf Z :=
  let* b := get in
  do* modify (set_groupLength (_groupLength b + 1));
  do* store (_groupLength b) (u8 c);
  let* b := get in
  if _groupLength b =? 3 then
    let* g0 := aget (_group b) 0 in
    let* g1 := aget (_group b) 1 in
    let* g2 := aget (_group b) 2 in
    do* put_digit (Z.shiftr g0 2);
    do* put_digit (Z.lor (Z.shiftl (Z.land g0 0x03) 4) (Z.shiftr g1 4));
    do* put_digit (Z.lor (Z.shiftl (Z.land g1 0x0F) 2) (Z.shiftr g2 6));
    do* put_digit (Z.land g2 0x3F);
    do* modify (fun b => set_pos (_pos b + 4) b);
    let* b := get in
    do* (if (0 <? _lineLength b) && (_lineLength b <=? _pos b) then
           do* put (chr "013"); do* put (chr "010"); modify (set_pos 0)
         else ret tt);
    do* modify (set_groupLength 0);
    ret c
  else ret c.

Definition close : ST Base64EncoderBuf Z :=
  let* b := get in
  do* (if _groupLength b =? 1 then
         do* store 1 0;
         let* b := get in
         let* g0 := aget (_group b) 0 in
         let* g1 := aget (_group b) 1 in
         do* put_digit (Z.shiftr g0 2);
         do* put_digit (Z.lor (Z.shiftl (Z.land g0 0x03) 4) (Z.shiftr g1 4));
         do* put (chr "=");
         put (chr "=")
       else if _groupLength b =? 2 then
         do* store 2 0;
         let* b := get in
         let* g0 := aget (_group b) 0 in
         let* g1 := aget (_group b) 1 in
         let* g2 := aget (_group b) 2 in
         do* put_digit (Z.shiftr g0 2);
         do* put_digit (Z.lor (Z.shiftl (Z.land g0 0x03) 4) (Z.shiftr g1 4));
         do* put_digit (Z.lor (Z.shiftl (Z.land g1 0x0F) 2) (Z.shiftr g2 6));
         put (chr "=")
       else ret tt);
  do* modify (set_groupLength 0);
  ret 0.

(** The inherited [overflow] on each character of a block, up to [eof]. *)
Fixpoint write (bs : list Z) : ST Base64EncoderBuf unit :=
  match bs with
  | [] => ret tt
  | c :: r => let* _c := writeToDevice c in write r
  end.

(** Encode a byte string: a fresh encoder, one write, close. *)
Definition encode (lineLength : Z) (bs : list Z) : res (list Z) :=
  match (do* write bs; close) (setLineLength lineLength (construct Sink.empty)) with
  | (Done _, b) => Done (Sink.written (_buf b))
  | (Eof, _) => Eof
  | (Raise e, _) => Raise e
  | (UB, _) => UB
  end.
End Encoder.

Module Decoder.
(** The static table, filled under the mutex by the first constructor. *)
Record statics := { IN_ENCODING : list Z; IN_ENCODING_INIT : bool }.

Definition initial_statics : statics :=
  {| IN_ENCODING := replicate 256 0; IN_ENCODING_INIT := false |}.

Definition fill (l : list Z) : list Z :=
  foldl (fun (t : list Z) (i : nat) =>
           match OUT_ENCODING !! i with
           | Some c => <[Z.to_nat c := Z.of_nat i]> t
           | None => t
           end) (replicate (length l) 0xFF) (seq 0 64).

Definition init_table (st : statics) : statics :=
  if IN_ENCODING_INIT st then st
  else {| IN_ENCODING := <[Z.to_nat (chr "=") := 0]> (fill (IN_ENCODING st));
          IN_ENCODING_INIT := true |}.

Record Base64DecoderBuf := {
  _group : list Z;          (* unsigned char[3] *)
  _groupLength : Z;
  _groupIndex : Z;
  _buf : list Z;
  table : statics
}.

Definition construct (st : statics) (istr : list Z) : Base64DecoderBuf :=
  {| _group := [0; 0; 0]; _groupLength := 0; _groupIndex := 0; _buf := istr;
     table := init_table st |}.

Definition is_blank (ch : Z) : bool :=
  (ch =? chr " ") || (ch =? chr "013") || (ch =? chr "009") || (ch =? chr "010").

Fixpoint skip_blanks (input : list Z) : option Z * list Z :=
  match input with
  | [] => (None, [])
  | ch :: r => if is_blank ch then skip_blanks r else (Some ch, r)
  end.

Definition readOne : ST Base64DecoderBuf (option Z) := fun b =>
  let (ch, rest) := skip_blanks (_buf b) in
  (Done ch, {| _group := _group b; _groupLength := _groupLength b;
               _groupIndex := _groupIndex b; _buf := rest; table := table b |}).

(** [if ((c = readOne()) == -1) throw ...; if (IN_ENCODING[c] == 0xFF) throw ...;]
    gives the character and its value. *)
Definition check_one (c : Z) : ST Base64DecoderBuf Z :=
  let* b := get in
  let* v := aget (IN_ENCODING (table b)) (u8 c) in
  if v =? 0xFF then throw DataFormatException else ret v.

Definition need_one : ST Base64DecoderBuf Z :=
  let* c := readOne in
  match c with None => throw DataFormatException | Some c => ret (u8 c) end.

Definition readFromDevice : ST Base64DecoderBuf Z :=
  let* b := get in
  if _groupIndex b <? _groupLength b then
    let* v := aget (_group b) (_groupIndex b) in
    do* modify (fun b => {| _group := _group b; _groupLength := _groupLength b;
                            _groupIndex := _groupIndex b + 1; _buf := _buf b;
                            table := table b |});
    ret v
  else
    let* c := readOne in
    match c with
    | None => fail_eof
    | Some c =>
        let* v0 := check_one c in
        let* b1 := need_one in
        let* v1 := check_one b1 in
        let* b2 := need_one in
        let* v2 := check_one b2 in
        let* b3 := need_one in
        let* v3 := check_one b3 in
        let g0 := u8 (Z.lor (Z.shiftl v0 2) (Z.shiftr v1 4)) in
        let g1 := u8 (Z.lor (Z.shiftl (Z.land v1 0x0F) 4) (Z.shiftr v2 2)) in
        let g2 := u8 (Z.lor (Z.shiftl v2 6) v3) in
        let len := if b2 =? chr "=" then 1 else if b3 =? chr "=" then 2 else 3 in
        do* modify (fun b => {| _group := [g0; g1; g2]; _groupLength := len;
                                _groupIndex := 1; _buf := _buf b; table := table b |});
        ret g0
    end.

(** The states of the static table: decoders are constructed one after the
    other under the mutex. *)
Inductive reachable_statics : statics -> Prop :=
| statics_initial : reachable_statics initial_statics
| statics_construct st : reachable_statics st -> reachable_statics (init_table st).

(** Read at most [n] bytes of a text through the stream buffer base class. *)
Definition decode (st : statics) (n : nat) (text : list Z) : res (list Z) :=
  fst (Unbuffered.xsgetn readFromDevice n
         (Unbuffered.BasicUnbufferedStreamBuf (construct st text))).
End Decoder.

(** ** The reference encoding *)

Definition digit (n : Z) : Z := nth (Z.to_nat n) OUT_ENCODING 0.

(** The four digits of a 24-bit group. *)
Definition quad (n : Z) : list Z :=
  [digit (n / 2 ^ 18); digit (n / 2 ^ 12 mod 2 ^ 6); digit (n / 2 ^ 6 mod 2 ^ 6);
   digit (n mod 2 ^ 6)].

Arguments digit : simpl never.
Arguments quad : simpl never.

(** RFC 4648, section 4, with a line break after the group that fills a line
    of [L] characters ([L <= 0]: none); [pos] characters are on the line. *)
Fixpoint rfc4648 (L pos : Z) (bs : list Z) : list Z :=
  match bs with
  | a :: b :: c :: r =>
      quad (a * 2 ^ 16 + b * 2 ^ 8 + c) ++
      (if (0 <? L) && (L <=? pos + 4) then [13; 10] ++ rfc4648 L 0 r
       else rfc4648 L (pos + 4) r)
  | [a; b] => take 3 (quad (a * 2 ^ 16 + b * 2 ^ 8)) ++ [chr "="]
  | [a] => take 2 (quad (a * 2 ^ 16)) ++ [chr "="; chr "="]
  | [] => []
  end.

Module EncoderProofs.
Import Encoder.

Definition emit (cs : list Z) (b : Base64EncoderBuf) : Base64EncoderBuf :=
  {| _group := _group b; _groupLength := _groupLength b; _pos := _pos b;
     _lineLength := _lineLength b;
     _buf := {| Sink.written := Sink.written (_buf b) ++ cs; Sink.room := Sink.room (_buf b) |} |}.

Definition unlimited (b : Base64EncoderBuf) : Prop := Sink.room (_buf b) = None.

Lemma put_ok c b : unlimited b -> put c b = (Done tt, emit [c] b).
Proof.
  unfold unlimited, put, Sink.sputc, emit. intros Hu. by rewrite Hu.
Qed.

Lemma put_digit_ok n b :
  unlimited b -> 0 <= n < 64 -> put_digit n b = (Done tt, emit [digit n] b).
Proof.
  intros Hu Hn. unfold put_digit.
  rewrite u8_id by (unfold is_byte; lia).
  rewrite (bind_Done _ _ b (digit n) b); [by apply put_ok|].
  apply aget_in; [lia|]. unfold digit.
  assert (Hl : (Z.to_nat n < length OUT_ENCODING)%nat) by (change (length OUT_ENCODING) with 64%nat; lia).
  destruct (lookup_lt_is_Some_2 _ _ Hl) as [v Hv].
  by rewrite Hv, (nth_lookup_Some _ _ _ _ Hv).
Qed.

Lemma emit_unlimited cs b : unlimited b -> unlimited (emit cs b).
Proof. done. Qed.

Lemma emit_emit c1 c2 b : emit c2 (emit c1 b) = emit (c1 ++ c2) b.
Proof. unfold emit. simpl. by rewrite app_assoc. Qed.

(** Run the statements of the encoder on a known state. *)
Ltac enc_step :=
  first
    [ st_step
    | erewrite bind_Done by (apply put_digit_ok; [done|bits_arith])
    | erewrite bind_Done by (apply put_ok; done)
    | rewrite put_ok by done ];
  cbn [_group _groupLength _pos _lineLength _buf set_group set_groupLength set_pos emit];
  fold_consts; cbn [insert list_insert].

(** The digits the shifts select are those of the 24-bit group. *)
Lemma quad_shifts n a b c :
  is_byte a -> is_byte b -> is_byte c -> n = a * 2 ^ 16 + b * 2 ^ 8 + c ->
  quad n =
    [digit (Z.shiftr a 2);
     digit (Z.lor (Z.shiftl (Z.land a 0x03) 4) (Z.shiftr b 4));
     digit (Z.lor (Z.shiftl (Z.land b 0x0F) 2) (Z.shiftr c 6));
     digit (Z.land c 0x3F)].
Proof. intros ? ? ? ->. unfold quad. do 3 (f_equal; [f_equal; bits_arith|]). do 2 f_equal. bits_arith. Qed.

(** The third byte of a group writes the four digits and the line break. *)
Lemma write_group x y z a b c s :
  is_byte a -> is_byte b -> is_byte c ->
  unlimited s -> _group s = [x; y; z] -> _groupLength s = 0 ->
  let brk := (0 <? _lineLength s) && (_lineLength s <=? _pos s + 4) in
  write [a; b; c] s =
    (Done tt, emit (quad (a * 2 ^ 16 + b * 2 ^ 8 + c) ++ if brk then [13; 10] else [])
                (set_pos (if brk then 0 else _pos s + 4) (set_group [a; b; c] s))).
Proof.
  intros Ha Hb Hc Hu Hg Hl brk.
  destruct s as [g gl p ll buf]. simpl in Hg, Hl. subst g gl.
  cbn [write]. unfold writeToDevice, store. rewrite !u8_id by done.
  repeat enc_step. rewrite (quad_shifts _ a b c) by done. subst brk. cbn [_lineLength _pos].
  destruct ((0 <? ll) && (ll <=? p + 4)); repeat enc_step; st_unfold; unfold emit; simpl;
    by rewrite <-!app_assoc.
Qed.

Lemma write_app l1 l2 s : write (l1 ++ l2) s = (do* write l1; write l2) s.
Proof.
  revert s. induction l1 as [|c l1 IH]; intros s; [done|]. simpl.
  rewrite bind_bind. unfold bind at 1 2. destruct (writeToDevice c s) as [[] s']; done || apply IH.
Qed.

(** Writing the bytes left over by the groups, then closing. *)
Lemma write_close_rest x y z r s :
  Forall is_byte r -> (length r < 3)%nat ->
  unlimited s -> _group s = [x; y; z] -> _groupLength s = 0 ->
  exists s', (do* write r; close) s = (Done 0, s') /\
    Sink.written (_buf s') = Sink.written (_buf s) ++ rfc4648 (_lineLength s) (_pos s) r.
Proof.
  intros Hr Hlen Hu Hg Hl.
  destruct s as [g gl p ll buf]. simpl in Hg, Hl. subst g gl.
  destruct r as [|a [|b [|? ?]]]; [| | |simpl in Hlen; lia];
    inv_Forall; cbn [write]; unfold close, writeToDevice, store; rewrite ?u8_id by done;
    repeat enc_step; eexists; (split; [reflexivity|]);
    cbn [rfc4648 _lineLength _pos _buf emit set_group set_groupLength Sink.written].
  - by rewrite app_nil_r.
  - rewrite (quad_shifts _ a 0 0) by (unfold is_byte in *; lia).
    simpl. by rewrite <-!app_assoc.
  - rewrite (quad_shifts _ a b 0) by (unfold is_byte in *; lia).
    simpl. by rewrite <-!app_assoc.
Qed.

Lemma write_close : forall bs x y z s,
  Forall is_byte bs -> unlimited s -> _group s = [x; y; z] -> _groupLength s = 0 ->
  exists s', (do* write bs; close) s = (Done 0, s') /\
    Sink.written (_buf s') = Sink.written (_buf s) ++ rfc4648 (_lineLength s) (_pos s) bs.
Proof.
  intros bs. chunk_induction bs 3%nat.
  { intros. by eapply write_close_rest. }
  intros g r Hg IH x y z s Hb Hu Hgr Hgl.
  destruct g as [|a [|b [|c [|? ?]]]]; try discriminate.
  inv_Forall.
  unfold bind at 1. rewrite write_app.
  erewrite bind_Done by (eapply write_group; eauto).
  edestruct IH as (s' & Hs' & Hw); [done| | | |exists s'; split; [exact Hs'|]]; [done..|].
  rewrite Hw. unfold emit. cbn. destruct (_ && _); by rewrite <-!app_assoc.
Qed.
End EncoderProofs.

(** ** The reference decoding *)

Definition decode_table : list Z :=
  Decoder.IN_ENCODING (Decoder.init_table Decoder.initial_statics).

(** The value of a character, 255 outside the alphabet. *)
Definition value (c : Z) : Z := nth (Z.to_nat c) decode_table 255.

Arguments value : simpl never.

Definition strip (text : list Z) : list Z :=
  filter (fun c => Decoder.is_blank c = false) text.

(** The number of data bytes of a quantum, from its padding. *)
Definition quantum_length (c2 c3 : Z) : Z :=
    if c2 =? chr "=" then 1 else if c3 =? chr "=" then 2 else 3.

(** The 24-bit group of four characters. *)
Definition quantum_bytes (c0 c1 c2 c3 : Z) : list Z :=
    let n := value c0 * 2 ^ 18 + value c1 * 2 ^ 12 + value c2 * 2 ^ 6 + value c3 in
    [n / 2 ^ 16; n / 2 ^ 8 mod 2 ^ 8; n mod 2 ^ 8].

(** Quantums of four characters, each with its number of data bytes; a
    character outside the alphabet or an incomplete quantum is an error. *)
Fixpoint decode_ref (sig : list Z) : list Z * option exception :=
  match sig with
  | [] => ([], None)
  | c0 :: c1 :: c2 :: c3 :: r =>
      if forallb (fun c => negb (value c =? 255)) [c0; c1; c2; c3] then
        let (bs, fin) := decode_ref r in
        (take (Z.to_nat (quantum_length c2 c3)) (quantum_bytes c0 c1 c2 c3) ++ bs, fin)
      else ([], Some DataFormatException)
  | _ => ([], Some DataFormatException)
  end.

Lemma value_range c : is_byte c -> value c = 255 \/ 0 <= value c < 64.
Proof.
  intros Hc.
  assert (H : (value c =? 255) || ((0 <=? value c) && (value c <? 64)) = true).
  { apply (allbelow_spec 256 (fun c => (value c =? 255) || ((0 <=? value c) && (value c <? 64))));
      [by vm_compute|done]. }
  lia.
Qed.

(** A digit is read back, is no blank and no padding. *)
Lemma digit_spec n :
  0 <= n < 64 ->
  value (digit n) = n /\ Decoder.is_blank (digit n) = false /\ digit n <> chr "=" /\ is_byte (digit n).
Proof.
  intros Hn.
  assert (H : (value (digit n) =? n) && negb (Decoder.is_blank (digit n)) &&
              negb (digit n =? chr "=") && is_byteb (digit n) = true).
  { revert n Hn. apply (allbelow_spec 64 (fun n => _ && _ && _ && _)). by vm_compute. }
  rewrite <-is_byteb_spec. apply andb_true_iff in H as [H ->].
  destruct (Decoder.is_blank (digit n)); [by rewrite andb_false_r in H|]. lia.
Qed.

Module DecoderProofs.
Import Decoder.

Definition mk (g : list Z) (len idx : Z) (buf : list Z) : Base64DecoderBuf :=
  {| _group := g; _groupLength := len; _groupIndex := idx; _buf := buf;
     table := init_table initial_statics |}.

Lemma skip_blanks_strip text :
  match skip_blanks text with
  | (None, r) => strip text = [] /\ r = []
  | (Some c, r) => strip text = c :: strip r /\ (Forall is_byte text -> is_byte c /\ Forall is_byte r)
  end.
Proof.
  induction text as [|c text IH]; [done|]. cbn [skip_blanks]. unfold strip in *.
  destruct (is_blank c) eqn:E.
  - rewrite filter_cons_False by congruence.
    destruct (skip_blanks text) as [[c'|] r]; [|done]. destruct IH as [H1 H2].
    split; [done|]. intros Hf. apply H2. by inv_Forall.
  - rewrite filter_cons_True by done. split; [done|]. intros Hf. by inv_Forall.
Qed.

Lemma strip_bytes text : Forall is_byte text -> Forall is_byte (strip text).
Proof.
  unfold strip. induction 1 as [|c text Hc H IH]; [constructor|].
  rewrite filter_cons. case_decide; [by constructor|done].
Qed.

Lemma check_one_spec g len idx buf c :
  is_byte c ->
  check_one c (mk g len idx buf) =
    (if value c =? 255 then Raise DataFormatException else Done (value c), mk g len idx buf).
Proof.
  intros Hc. unfold check_one. rewrite bind_get.
  rewrite (bind_aget _ _ (value c)).
  { by destruct (value c =? 255). }
  rewrite u8_id by done. unfold is_byte in Hc.
  rewrite (proj2 (Z.ltb_ge c 0)) by lia. unfold value. cbn [mk table].
  fold decode_table.
  assert (Hl : (Z.to_nat c < length decode_table)%nat)
    by (change (length decode_table) with 256%nat; lia).
  destruct (lookup_lt_is_Some_2 _ _ Hl) as [v Hv].
  by rewrite Hv, (nth_lookup_Some _ _ _ _ Hv).
Qed.

Lemma readOne_char g len idx text c sig :
  strip text = c :: sig -> Forall is_byte text ->
  exists r, readOne (mk g len idx text) = (Done (Some c), mk g len idx r) /\
    strip r = sig /\ is_byte c /\ Forall is_byte r.
Proof.
  intros Hs Hf. pose proof (skip_blanks_strip text) as H. unfold readOne. cbn [_buf mk].
  destruct (skip_blanks text) as [[c'|] r]; [|destruct H; congruence].
  destruct H as [H1 H2], (H2 Hf). exists r. rewrite Hs in H1. by inversion H1; subst.
Qed.

Lemma readOne_none g len idx text :
  strip text = [] -> readOne (mk g len idx text) = (Done None, mk g len idx []).
Proof.
  intros Hs. pose proof (skip_blanks_strip text) as H. unfold readOne. cbn [_buf mk].
  destruct (skip_blanks text) as [[c'|] r]; destruct H; congruence || by subst.
Qed.

Lemma need_one_char g len idx text c sig :
  strip text = c :: sig -> Forall is_byte text ->
  exists r, need_one (mk g len idx text) = (Done c, mk g len idx r) /\
    strip r = sig /\ is_byte c /\ Forall is_byte r.
Proof.
  intros Hs Hf. destruct (readOne_char g len idx text c sig Hs Hf) as (r & Hr & ? & ? & ?).
  exists r. split; [|done]. unfold need_one. rewrite (bind_Done _ _ _ _ _ Hr).
  by rewrite u8_id.
Qed.

Lemma need_one_none g len idx text :
  strip text = [] -> need_one (mk g len idx text) = (Raise DataFormatException, mk g len idx []).
Proof. intros Hs. unfold need_one, bind. by rewrite readOne_none. Qed.

(** Read the next significant character, and its value when it has one. *)
Ltac next_char :=
  match goal with
  | H : strip ?t = [] |- context [bind readOne _ (mk ?g ?l ?i ?t)] =>
      rewrite (bind_Done _ _ _ _ _ (readOne_none g l i t H))
  | H : strip ?t = _ :: _, F : Forall _ ?t |- context [bind readOne _ (mk ?g ?l ?i ?t)] =>
      let E := fresh "E" in destruct (readOne_char g l i t _ _ H F) as (? & E & ? & ? & ?);
      rewrite (bind_Done _ _ _ _ _ E)
  | H : strip ?t = [] |- context [bind need_one _ (mk ?g ?l ?i ?t)] =>
      rewrite (bind_Raise _ _ _ _ _ (need_one_none g l i t H))
  | H : strip ?t = _ :: _, F : Forall _ ?t |- context [bind need_one _ (mk ?g ?l ?i ?t)] =>
      let E := fresh "E" in destruct (need_one_char g l i t _ _ H F) as (? & E & ? & ? & ?);
      rewrite (bind_Done _ _ _ _ _ E)
  | H : is_byte ?c |- context [bind (check_one ?c) _ (mk ?g ?l ?i ?t)] =>
      let C := fresh "C" in
      pose proof (check_one_spec g l i t c H) as C;
      destruct (Z.eqb_spec (value c) 255);
      [rewrite (bind_Raise _ _ _ _ _ C) | rewrite (bind_Done _ _ _ _ _ C)]
  end; cbv beta iota.

(** The outcome of a read at a group boundary. *)
Definition read_result (sig : list Z) : res Z :=
  match sig with
  | [] => Eof
  | c0 :: c1 :: c2 :: c3 :: _ =>
      if forallb (fun c => negb (value c =? 255)) [c0; c1; c2; c3] then
        Done ((value c0 * 2 ^ 18 + value c1 * 2 ^ 12 + value c2 * 2 ^ 6 + value c3) / 2 ^ 16)
      else Raise DataFormatException
  | _ => Raise DataFormatException
  end.

Lemma read_short text g len idx :
  Forall is_byte text -> len <= idx -> (length (strip text) < 4)%nat ->
  exists s', readFromDevice (mk g len idx text) = (read_result (strip text), s') /\
    (strip text = [] -> s' = mk g len idx []).
Proof.
  intros Hf Hi Hl. unfold readFromDevice. rewrite bind_get. cbn [_groupIndex _groupLength mk].
  rewrite (proj2 (Z.ltb_ge idx len)) by lia. fold (mk g len idx text).
  destruct (strip text) as [|c0 [|c1 [|c2 [|? ?]]]] eqn:Hs; [..|simpl in Hl; lia];
    repeat next_char; eexists; (split; [reflexivity|done]).
Qed.

Lemma quantum_bits c0 c1 c2 c3 :
  0 <= value c0 < 64 -> 0 <= value c1 < 64 -> 0 <= value c2 < 64 -> 0 <= value c3 < 64 ->
  [u8 (Z.lor (Z.shiftl (value c0) 2) (Z.shiftr (value c1) 4));
   u8 (Z.lor (Z.shiftl (Z.land (value c1) 0x0F) 4) (Z.shiftr (value c2) 2));
   u8 (Z.lor (Z.shiftl (value c2) 6) (value c3))] = quantum_bytes c0 c1 c2 c3.
Proof.
  intros. unfold quantum_bytes. f_equal; [bits_arith|]. f_equal; [bits_arith|].
  f_equal. bits_arith.
Qed.

Lemma read_quantum text g len idx c0 c1 c2 c3 sig :
  Forall is_byte text -> len <= idx -> strip text = c0 :: c1 :: c2 :: c3 :: sig ->
  exists r s', strip r = sig /\ Forall is_byte r /\
    readFromDevice (mk g len idx text) = (read_result (strip text), s') /\
    (forall b, read_result (strip text) = Done b ->
       s' = mk (quantum_bytes c0 c1 c2 c3) (quantum_length c2 c3) 1 r).
Proof.
  intros Hf Hi Hs. unfold readFromDevice. rewrite bind_get. cbn [_groupIndex _groupLength mk].
  rewrite (proj2 (Z.ltb_ge idx len)) by lia. fold (mk g len idx text).
  destruct (readOne_char g len idx text _ _ Hs Hf) as (r0 & E0 & Hs0 & Hb0 & Hf0).
  destruct (need_one_char g len idx r0 _ _ Hs0 Hf0) as (r1 & E1 & Hs1 & Hb1 & Hf1).
  destruct (need_one_char g len idx r1 _ _ Hs1 Hf1) as (r2 & E2 & Hs2 & Hb2 & Hf2).
  destruct (need_one_char g len idx r2 _ _ Hs2 Hf2) as (r3 & E3 & Hs3 & Hb3 & Hf3).
  exists r3. rewrite Hs. unfold read_result. cbn [forallb].
  rewrite (bind_Done _ _ _ _ _ E0). next_char; [by eexists; split_and!|].
  rewrite (bind_Done _ _ _ _ _ E1). next_char; [by eexists; split_and!|].
  rewrite (bind_Done _ _ _ _ _ E2). next_char; [by eexists; split_and!|].
  rewrite (bind_Done _ _ _ _ _ E3). next_char; [by eexists; split_and!|].
  pose proof (quantum_bits c0 c1 c2 c3) as Hq.
  repeat match goal with
  | Hb : is_byte ?c, Hn : value ?c <> 255 |- _ =>
      destruct (value_range c Hb); [done|clear Hn]
  end.
  specialize (Hq ltac:(done) ltac:(done) ltac:(done) ltac:(done)).
  rewrite bind_modify, Hq. eexists. split_and!; [done..| |done].
  unfold ret. inversion Hq as [Hq0]. by rewrite Hq0.
Qed.

Lemma quantum_byte c0 c1 c2 c3 i b :
  is_byte c0 -> is_byte c1 -> is_byte c2 -> is_byte c3 ->
  forallb (fun c => negb (value c =? 255)) [c0; c1; c2; c3] = true ->
  quantum_bytes c0 c1 c2 c3 !! i = Some b -> b <> -1.
Proof.
  intros H0 H1 H2 H3 Hv.
  pose proof (value_range c0 H0). pose proof (value_range c1 H1).
  pose proof (value_range c2 H2). pose proof (value_range c3 H3).
  cbn [forallb] in Hv. unfold quantum_bytes. intros Hb.
  assert (0 <= value c0 < 64 /\ 0 <= value c1 < 64 /\ 0 <= value c2 < 64 /\ 0 <= value c3 < 64)
    by lia.
  apply list_elem_of_lookup_2 in Hb.
  repeat (apply elem_of_cons in Hb as [->|Hb]; [lia|]). by apply elem_of_nil in Hb.
Qed.

(** The bytes of a quantum that are still in the group are handed out next. *)
Lemma produces_group g idx len r bs fin :
  length g = 3%nat -> (forall i b, g !! i = Some b -> b <> -1) ->
  1 <= idx <= len -> len <= 3 ->
  produces readFromDevice (mk g len len r) bs fin ->
  produces readFromDevice (mk g len idx r) (drop (Z.to_nat idx) (take (Z.to_nat len) g) ++ bs) fin.
Proof.
  intros Hg Hne Hi Hl Hp.
  set (buf := take (Z.to_nat len) g).
  assert (Hlen : length buf = Z.to_nat len) by (unfold buf; rewrite length_take; lia).
  replace idx with (Z.of_nat (Z.to_nat idx)) at 1 by lia.
  refine (produces_buffered _ (fun i => mk g len (Z.of_nat i) r) buf bs fin _ _ _ _); [|by rewrite Hlen, Z2Nat.id by lia|lia].
  intros j v Hv. pose proof (lookup_lt_Some _ _ _ Hv).
  apply lookup_take_Some in Hv as [Hv _]. split; [|by eapply Hne].
  unfold readFromDevice. rewrite bind_get. cbn [_groupIndex _groupLength _group mk].
  rewrite (proj2 (Z.ltb_lt _ len)) by lia.
  rewrite (bind_aget _ _ v), bind_modify; [by replace (Z.of_nat (S j)) with (Z.of_nat j + 1) by lia|].
  rewrite (proj2 (Z.ltb_ge _ 0)), Nat2Z.id by lia. done.
Qed.

(** The decoder hands out what the reference decoding says, whatever the text. *)
Lemma produces_text : forall sig text g len idx,
  strip text = sig -> Forall is_byte text -> len <= idx ->
  produces readFromDevice (mk g len idx text) (decode_ref sig).1 (decode_ref sig).2.
Proof.
  intros sig. chunk_induction sig 4%nat.
  - intros sig Hl text g len idx Hs Hf Hi. subst sig.
    destruct (read_short text g len idx Hf Hi Hl) as (s' & Hr & Hnil).
    destruct (strip text) as [|c0 [|c1 [|c2 [|? ?]]]];
      cbn [decode_ref read_result fst snd length] in *; [..|lia];
      try (by eapply produces_throw).
    eapply produces_eof; [done|]. rewrite (Hnil eq_refl) at 1 2.
    destruct (read_short [] g len idx ltac:(done) Hi ltac:(simpl; lia)) as (s'' & Hr' & Hnil').
    rewrite Hr'. by rewrite (Hnil' eq_refl).
  - intros q sig Hq IH text g len idx Hs Hf Hi.
    destruct q as [|c0 [|c1 [|c2 [|c3 [|? ?]]]]]; try discriminate.
    destruct (read_quantum text g len idx c0 c1 c2 c3 sig Hf Hi Hs) as (r & s' & Hsr & Hfr & Hr & Hok).
    rewrite Hs in Hr, Hok. cbn [app read_result] in Hr, Hok. cbn [app decode_ref].
    destruct (forallb _ _) eqn:Hv; cbn [fst snd]; [|by eapply produces_throw, Hr].
    specialize (IH r (quantum_bytes c0 c1 c2 c3) (quantum_length c2 c3) (quantum_length c2 c3) Hsr Hfr
                  ltac:(lia)).
    destruct (decode_ref sig) as [bs fin]. rewrite (Hok _ eq_refl) in Hr. cbn [fst snd] in *.
    pose proof (strip_bytes text Hf) as Hsb. rewrite Hs in Hsb. cbn [app] in Hsb. inv_Forall.
    assert (Hne : forall i b, quantum_bytes c0 c1 c2 c3 !! i = Some b -> b <> -1)
      by (intros i b; by apply quantum_byte).
    assert (Hlen : 1 <= quantum_length c2 c3 <= 3)
      by (unfold quantum_length; repeat case_match; lia).
    apply (produces_group _ 1) in IH; [|done..|lia|lia].
    rewrite <-(take_drop 1 (take _ _)), <-app_assoc.
    rewrite take_take, Nat.min_l by lia. eapply produces_cons; [exact Hr| |exact IH].
    by apply (Hne 0%nat).
Qed.

Lemma init_table_reachable st :
  reachable_statics st -> init_table st = init_table initial_statics.
Proof.
  induction 1 as [|st Hst IH]; [done|]. rewrite IH. reflexivity.
Qed.

(** The decoder at a group boundary is a byte stream with the reference
    decoding as its meaning. *)
Definition at_boundary (s : Base64DecoderBuf) : Prop :=
  table s = init_table initial_statics /\ Forall is_byte (_buf s) /\
  _groupLength s <= _groupIndex s.

Global Instance decoder_stream :
  ByteStream readFromDevice at_boundary (fun s => decode_ref (strip (_buf s))).
Proof.
  intros [g len idx buf t] (Ht & Hb & Hi). simpl in *. subst t.
  by apply (produces_text _ buf g len idx).
Qed.
End DecoderProofs.

(** Reading the encoder's text gives the bytes: the reference functions agree. *)
Lemma strip_quad n l :
  0 <= n < 2 ^ 24 -> strip (quad n ++ l) = quad n ++ strip l.
Proof.
  intros Hn. unfold quad, strip. cbn [app].
  rewrite !filter_cons_True by (apply digit_spec; lia). done.
Qed.

Lemma strip_crlf l : strip (13 :: 10 :: l) = strip l.
Proof. reflexivity. Qed.

Lemma decode_rfc4648_group a b c l :
  is_byte a -> is_byte b -> is_byte c ->
  decode_ref (quad (a * 2 ^ 16 + b * 2 ^ 8 + c) ++ l) =
    (a :: b :: c :: (decode_ref l).1, (decode_ref l).2).
Proof.
  intros Ha Hb Hc. set (n := a * 2 ^ 16 + b * 2 ^ 8 + c). unfold is_byte in *.
  destruct (digit_spec (n / 2 ^ 18)) as (V0 & _); [lia|].
  destruct (digit_spec (n / 2 ^ 12 mod 2 ^ 6)) as (V1 & _); [lia|].
  destruct (digit_spec (n / 2 ^ 6 mod 2 ^ 6)) as (V2 & _ & N2 & _); [lia|].
  destruct (digit_spec (n mod 2 ^ 6)) as (V3 & _ & N3 & _); [lia|].
  unfold quad. cbn [app decode_ref forallb]. unfold quantum_length, quantum_bytes.
  rewrite V0, V1, V2, V3, !(proj2 (Z.eqb_neq _ _)) by (done || lia).
  cbn [negb andb]. destruct (decode_ref l) as [bs fin].
  change (Z.to_nat 3) with 3%nat. cbn [take app fst snd]. repeat f_equal; unfold n; lia.
Qed.

Lemma decode_rfc4648_rest L pos r :
  Forall is_byte r -> (length r < 3)%nat -> decode_ref (strip (rfc4648 L pos r)) = (r, None).
Proof.
  intros Hr Hl. destruct r as [|a [|b [|? ?]]]; [done| | |simpl in Hl; lia]; inv_Forall;
    unfold is_byte in *; cbn [rfc4648].
  - set (n := a * 2 ^ 16).
    destruct (digit_spec (n / 2 ^ 18)) as (V0 & B0 & _); [lia|].
    destruct (digit_spec (n / 2 ^ 12 mod 2 ^ 6)) as (V1 & B1 & _); [lia|].
    unfold quad, strip. cbn [take app].
    rewrite !filter_cons_True by done. cbn [decode_ref forallb].
    unfold quantum_length, quantum_bytes. rewrite V0, V1, !(proj2 (Z.eqb_neq _ 255)) by lia.
    change (value (chr "=")) with 0. change (chr "=" =? chr "=") with true.
    cbn [negb andb]. cbv iota. change (Z.to_nat 1) with 1%nat. change (Z.to_nat 2) with 2%nat.
    cbn [take app]. repeat f_equal; unfold n; lia.
  - set (n := a * 2 ^ 16 + b * 2 ^ 8).
    destruct (digit_spec (n / 2 ^ 18)) as (V0 & B0 & _); [lia|].
    destruct (digit_spec (n / 2 ^ 12 mod 2 ^ 6)) as (V1 & B1 & _); [lia|].
    destruct (digit_spec (n / 2 ^ 6 mod 2 ^ 6)) as (V2 & B2 & N2 & _); [lia|].
    unfold quad, strip. cbn [take app].
    rewrite !filter_cons_True by done. cbn [decode_ref forallb].
    unfold quantum_length, quantum_bytes.
    rewrite V0, V1, V2, (proj2 (Z.eqb_neq _ (chr "="))), !(proj2 (Z.eqb_neq _ 255)) by (done || lia).
    change (value (chr "=")) with 0. change (chr "=" =? chr "=") with true.
    cbn [negb andb]. cbv iota. change (Z.to_nat 1) with 1%nat. change (Z.to_nat 2) with 2%nat.
    cbn [take app]. repeat f_equal; unfold n; lia.
Qed.

Lemma decode_rfc4648 : forall bs L pos,
  Forall is_byte bs -> decode_ref (strip (rfc4648 L pos bs)) = (bs, None).
Proof.
  intros bs. chunk_induction bs 3%nat.
  { intros. by apply decode_rfc4648_rest. }
  intros g r Hg IH L pos Hb.
  destruct g as [|a [|b [|c [|? ?]]]]; try discriminate. inv_Forall. cbn [app rfc4648].
  rewrite strip_quad by (unfold is_byte in *; lia). rewrite decode_rfc4648_group by done.
  destruct (_ && _).
  - rewrite strip_crlf. by rewrite IH.
  - by rewrite IH.
Qed.

Lemma rfc4648_bytes : forall bs L pos, Forall is_byte bs -> Forall is_byte (rfc4648 L pos bs).
Proof.
  assert (Hq : forall n, 0 <= n < 2 ^ 24 -> Forall is_byte (quad n)).
  { intros n Hn. unfold quad. repeat constructor; apply digit_spec; lia. }
  intros bs. chunk_induction bs 3%nat.
  - intros r Hl L pos Hb. unfold is_byte in *.
    destruct r as [|a [|b [|? ?]]]; [constructor| | |simpl in Hl; lia]; inv_Forall; cbn [rfc4648];
      (apply Forall_app; split; [apply Forall_take, Hq; lia|repeat constructor; done]).
  - intros g r Hg IH L pos Hb.
    destruct g as [|a [|b [|c [|? ?]]]]; try discriminate. inv_Forall. cbn [app rfc4648].
    apply Forall_app; split; [apply Hq; unfold is_byte in *; lia|].
    destruct (_ && _); [repeat constructor|]; by (apply IH || done).
Qed.

Lemma encode_spec L bs : Forall is_byte bs -> Encoder.encode L bs = Done (rfc4648 L 0 bs).
Proof.
  intros Hb. unfold Encoder.encode.
  destruct (EncoderProofs.write_close bs 0 0 0
              (Encoder.setLineLength L (Encoder.construct Sink.empty)) Hb)
    as (s' & -> & Hw); [done..|]. by rewrite Hw.
Qed.

Lemma decode_spec st n text :
  Decoder.reachable_statics st -> Forall is_byte text ->
  Decoder.decode st n text = delivered n (decode_ref (strip text)).
Proof.
  intros Hst Ht. unfold Decoder.decode, Decoder.construct.
  rewrite (Unbuffered.read_stream Decoder.readFromDevice); [done|].
  repeat split; [by apply DecoderProofs.init_table_reachable|done|done].
Qed.

(** ** The codec's theorems *)

(** C1: a text written by the encoder is read back by the decoder as the bytes
    that were encoded, whatever the line length and however many bytes are
    asked for; and the encoder does write a text. *)
Theorem base64_roundtrip st L n bs :
  Decoder.reachable_statics st -> Forall is_byte bs ->
  exists text, Encoder.encode L bs = Done text /\ Decoder.decode st n text = Done (take n bs).
Proof.
  intros Hst Hb. exists (rfc4648 L 0 bs). split; [by apply encode_spec|].
  rewrite decode_spec by (done || by apply rfc4648_bytes). by rewrite decode_rfc4648.
Qed.

Lemma base64_roundtrip_witness :
  exists text, Encoder.encode 8 (str "Oragle, POCO") = Done text /\
    Decoder.decode Decoder.initial_statics 20 text = Done (str "Oragle, POCO").
Proof.
  apply (base64_roundtrip Decoder.initial_statics 8 20 (str "Oragle, POCO")); [constructor|].
  apply str_bytes.
Defined.

(** The streaming encoder writes the RFC 4648 encoding of the bytes it was
    given, with a CR LF after each group that fills a line; it never fails on a
    device that accepts every character. *)
Theorem encode_is_rfc4648 L bs :
  Forall is_byte bs -> Encoder.encode L bs = Done (rfc4648 L 0 bs).
Proof. apply encode_spec. Qed.

Lemma encode_is_rfc4648_witness :
  Encoder.encode 4 [0; 255; 16; 7] = Done (str "AP8Q" ++ [13; 10] ++ str "Bw==").
Proof. apply (encode_is_rfc4648 4 [0; 255; 16; 7]). repeat constructor; unfold is_byte; lia. Defined.

(** ** The decoding of RFC 4648 *)
Module RFC4648.

(** Table 1 of the RFC, and the characters that are not part of the text. *)
Definition ALPHABET : list Z := str "ABCDEFGHIJKLMNOPQRSTUVWXYZabcdefghijklmnopqrstuvwxyz0123456789+/".
Definition PAD : Z := chr "=".
Definition BLANKS : list Z := [32; 9; 10; 13].

Fixpoint index (c : Z) (l : list Z) (i : Z) : option Z :=
  match l with
  | [] => None
  | x :: l => if c =? x then Some i else index c l (i + 1)
  end.
Definition digit_value (c : Z) : option Z := index c ALPHABET 0.

Definition significant (text : list Z) : list Z := filter (fun c => contains BLANKS c = false) text.

(** How a text ends: as the RFC has it, with a character outside the alphabet
    or an incomplete quantum, or with padding where there may be none. *)
Inductive ending := Whole | Broken | Misplaced.

Definition known (c : Z) : bool := contains ALPHABET c || (c =? PAD).

(** The 24 bits of a quantum. *)
Definition group (a b c d : Z) : Z := a * 2 ^ 18 + b * 2 ^ 12 + c * 2 ^ 6 + d.
Definition byte (k n : Z) : Z := n / 2 ^ (8 * (2 - k)) mod 2 ^ 8.

Fixpoint decode (sig : list Z) : list Z * ending :=
  match sig with
  | [] => ([], Whole)
  | c0 :: c1 :: c2 :: c3 :: r =>
      let last bs := (bs, match r with [] => Whole | _ => Misplaced end) in
      let faulty := ([], if forallb known [c0; c1; c2; c3] then Misplaced else Broken) in
      match digit_value c0, digit_value c1, digit_value c2, digit_value c3 with
      | Some a, Some b, Some c, Some d =>
          let n := group a b c d in
          let (bs, e) := decode r in (byte 0 n :: byte 1 n :: byte 2 n :: bs, e)
      | Some a, Some b, Some c, None =>
          let n := group a b c 0 in if c3 =? PAD then last [byte 0 n; byte 1 n] else faulty
      | Some a, Some b, None, None =>
          if (c2 =? PAD) && (c3 =? PAD) then last [byte 0 (group a b 0 0)] else faulty
      | _, _, _, _ => faulty
      end
  | _ => ([], Broken)
  end.

(** What the code makes of a character, against the table of the RFC: a digit,
    the padding, or neither. *)
Lemma char_view c : is_byte c ->
  (exists v, digit_value c = Some v /\ value c = v /\ 0 <= v < 64 /\ (c =? PAD) = false /\ known c = true)
  \/ (digit_value c = None /\ value c = 0 /\ (c =? PAD) = true /\ known c = true)
  \/ (digit_value c = None /\ value c = 255 /\ (c =? PAD) = false /\ known c = false).
Proof.
  intros Hc.
  pose proof (allbelow_spec 256 (fun c => match digit_value c with
    | Some v => (value c =? v) && ((0 <=? v) && (v <? 64)) && negb (c =? PAD) && known c
    | None => if c =? PAD then (value c =? 0) && known c else (value c =? 255) && negb (known c)
    end) ltac:(vm_compute; reflexivity) c Hc) as H. cbv beta in H.
  destruct (digit_value c) as [v|]; [left; exists v|right]; [|destruct (c =? PAD); [left|right]];
    destruct (known c); rewrite ?andb_false_r in H; try discriminate H; try (destruct (c =? PAD)); split_and!; try done; lia.
Qed.

Lemma known_value c : is_byte c -> negb (value c =? 255) = known c.
Proof.
  intros Hc. destruct (char_view c Hc) as [(v & _ & -> & Hv & _ & ->)|[(_ & -> & _ & ->)|(_ & -> & _ & ->)]]; [|done..].
  by rewrite (proj2 (Z.eqb_neq v 255)) by lia.
Qed.

(** Look at the next character. *)
Ltac view c H :=
  let v := fresh "v" in let D := fresh "D" in let V := fresh "V" in let R := fresh "R" in let P := fresh "P" in let K := fresh "K" in
  destruct (char_view c H) as [(v & D & V & R & P & K)|[(D & V & P & K)|(D & V & P & K)]];
  rewrite ?D, ?V, ?P, ?K; clear D V P K.

Lemma group_bytes a b c d : 0 <= a < 64 -> 0 <= b < 64 -> 0 <= c < 64 -> 0 <= d < 64 ->
  let n := a * 2 ^ 18 + b * 2 ^ 12 + c * 2 ^ 6 + d in
  [n / 2 ^ 16; n / 2 ^ 8 mod 2 ^ 8; n mod 2 ^ 8] = [byte 0 (group a b c d); byte 1 (group a b c d); byte 2 (group a b c d)].
Proof. intros Ha Hb Hc Hd n. unfold byte, group. fold n. cbn [Z.sub Z.mul Z.add Z.opp Z.pos_sub Pos.mul]. repeat f_equal; unfold n; lia. Qed.

Lemma significant_strip text : Forall is_byte text -> significant text = strip text.
Proof.
  induction 1 as [|c text Hc _ IH]; [done|]. unfold significant, strip in *. rewrite !filter_cons, IH.
  pose proof (allbelow_spec 256 (fun c => Bool.eqb (contains BLANKS c) (Decoder.is_blank c)) ltac:(vm_compute; reflexivity) c Hc) as H.
  cbv beta in H. apply eqb_prop in H. by rewrite H.
Qed.

(** The bytes of the first quantums are the same; how the code goes on behind
    misplaced padding the RFC does not say. *)
Lemma decode_agrees sig : Forall is_byte sig ->
  match (decode sig).2 with
  | Whole => decode_ref sig = ((decode sig).1, None)
  | Broken => decode_ref sig = ((decode sig).1, Some DataFormatException)
  | Misplaced => (exists more, (decode_ref sig).1 = (decode sig).1 ++ more)
                 /\ ((decode_ref sig).2 = None \/ (decode_ref sig).2 = Some DataFormatException)
  end.
Proof.
  assert (forall sig, (decode_ref sig).2 = None \/ (decode_ref sig).2 = Some DataFormatException) as Hfin.
  { intros l. chunk_induction l 4%nat.
    - intros l Hl. destruct l as [|? [|? [|? [|? ?]]]]; cbn in *; [by left|by right|by right|by right|lia].
    - intros g l Hg IH. destruct g as [|? [|? [|? [|? [|? ?]]]]]; try discriminate. cbn [app decode_ref].
      destruct (forallb _ _); [|by right]. by destruct (decode_ref l). }
  chunk_induction sig 4%nat.
  - intros l Hl _. destruct l as [|? [|? [|? [|? ?]]]]; cbn in *; [done|done|done|done|lia].
  - intros g l Hg IH Hb. destruct g as [|c0 [|c1 [|c2 [|c3 [|? ?]]]]]; try discriminate. cbn [app] in *.
    inv_Forall. specialize (IH ltac:(done)).
    assert (is_byte c0 /\ is_byte c1 /\ is_byte c2 /\ is_byte c3) as (B0 & B1 & B2 & B3) by done.
    pose proof (Hfin (c0 :: c1 :: c2 :: c3 :: l)) as Hf. revert Hf.
    cbn [decode_ref decode forallb]. rewrite !known_value by done. unfold quantum_length, quantum_bytes. fold PAD.
    clear Hfin Hg. destruct (decode l) as [bs e], (decode_ref l) as [bs' fin] eqn:El. cbn [fst snd] in *.
    view c0 B0; view c1 B1; view c2 B2; view c3 B3; cbn [andb fst snd]; intros Hf.
    all: try done; try (split; [by eexists|exact Hf]).
    + rewrite group_bytes by done. change (Z.to_nat 3) with 3%nat. cbn [take app].
      destruct e; [by injection IH as -> ->..|]. destruct IH as [[more ->] Hfin]. split; [by exists more|done].
    + rewrite group_bytes by (done || lia). change (Z.to_nat 2) with 2%nat. cbn [take app].
      destruct l; [by injection El as <- <-|]. split; [by eexists|exact Hf].
    + rewrite group_bytes by (done || lia). change (Z.to_nat 1) with 1%nat. cbn [take app].
      destruct l; [by injection El as <- <-|]. split; [by eexists|exact Hf].
Qed.
End RFC4648.

(** C2: the decoder against RFC 4648, whose alphabet, padding and quantums are
    written out; blanks, tabs and line breaks are skipped. A text of the RFC gives
    its bytes, as many as are asked for. A text with a character outside the
    alphabet or an incomplete quantum gives the bytes in front of that quantum,
    and DataFormatException to a reader that asks for more. Behind padding that
    is not at the end, of which the RFC says nothing, the bytes in front are still
    right, and the read ends with bytes or DataFormatException. Nothing is read
    outside the arrays. *)
Theorem decode_is_reference st n text :
  Decoder.reachable_statics st -> Forall is_byte text ->
  let (bs, e) := RFC4648.decode (RFC4648.significant text) in
  match e with
  | RFC4648.Whole => Decoder.decode st n text = Done (take n bs)
  | RFC4648.Broken =>
      Decoder.decode st n text = if decide (n <= length bs)%nat then Done (take n bs) else Raise DataFormatException
  | RFC4648.Misplaced =>
      (n <= length bs -> Decoder.decode st n text = Done (take n bs))%nat
      /\ ((exists more, Decoder.decode st n text = Done (take n (bs ++ more))) \/ Decoder.decode st n text = Raise DataFormatException)
  end.
Proof.
  intros Hst Ht. rewrite decode_spec, RFC4648.significant_strip by done.
  pose proof (RFC4648.decode_agrees (strip text) (DecoderProofs.strip_bytes text Ht)) as H.
  destruct (RFC4648.decode (strip text)) as [bs e]. cbn [fst snd] in H. unfold delivered. destruct e; [by rewrite H..|].
  destruct (decode_ref (strip text)) as [bs' fin]. cbn [fst snd] in *. destruct H as [[more ->] [->| ->]].
  - split; [|left; by eexists]. intros Hn. by rewrite take_app_le.
  - rewrite length_app. split.
    + intros Hn. rewrite decide_True by lia. by rewrite take_app_le.
    + case_decide; [left; by eexists|by right].
Qed.

Lemma decode_is_reference_witness :
  Decoder.decode (Decoder.init_table Decoder.initial_statics) 4 (str "Zm9v Z*==") = Raise DataFormatException.
Proof.
  pose proof (decode_is_reference (Decoder.init_table Decoder.initial_statics) 4 (str "Zm9v Z*==")) as H.
  apply H; [repeat constructor|apply str_bytes].
Defined.

(** Padding in the middle is taken for digits that are zero. *)
Example misplaced_padding : Decoder.decode Decoder.initial_statics 10 (str "Zg==Zg==") = Done (str "ff")
  /\ RFC4648.decode (str "Zg==Zg==") = (str "f", RFC4648.Misplaced).
Proof. split; vm_compute; reflexivity. Qed.

(** ** The position in a line *)

(** With line breaks the position stays below the line length; without, it
    counts all characters: [_pos], an [int], holds at most 2^29 - 1 groups. *)
Lemma encoder_pos : forall bs x y z s,
  Forall is_byte bs -> EncoderProofs.unlimited s -> Encoder._group s = [x; y; z] -> Encoder._groupLength s = 0 ->
  (exists k, length bs = 3 * k)%nat -> exists s', Encoder.write bs s = (Done tt, s')
    /\ (Encoder._lineLength s <= 0 -> Encoder._pos s' = Encoder._pos s + 4 * (Z.of_nat (length bs) / 3))
    /\ (0 < Encoder._lineLength s -> Encoder._pos s < Encoder._lineLength s -> Encoder._pos s' < Encoder._lineLength s).
Proof.
  intros bs. chunk_induction bs 3%nat.
  { intros r Hr x y z s _ _ _ _ [k Hk]. destruct r; [|cbn in *; lia]. exists s. split_and!; [done|cbn; lia|done]. }
  intros g r Hg IH x y z s Hb Hu Hgr Hgl [k Hk]. destruct g as [|a [|b [|c [|? ?]]]]; try discriminate. inv_Forall.
  rewrite EncoderProofs.write_app. erewrite bind_Done by (eapply EncoderProofs.write_group; eauto).
  set (brk := (0 <? _) && _). edestruct (IH a b c) as (s' & Hs' & Q1 & Q2);
    [done| | | | |exists s'; split; [exact Hs'|]]; [done|done|done|exists (k - 1)%nat; cbn [app length] in Hk; lia|].
  cbn in Q1, Q2 |- *. split.
  - intros Hl. rewrite Q1 by done. unfold brk. rewrite (proj2 (Z.ltb_ge 0 _)) by lia. cbn [andb]. lia.
  - intros HL Hl. apply Q2; [done|]. unfold brk. destruct (Z.ltb_spec 0 (Encoder._lineLength s)), (Z.leb_spec (Encoder._lineLength s) (Encoder._pos s + 4)); cbn [andb]; lia.
Qed.

(** ** The encoder on a device that can fail *)

Module EncoderSafety.
Import Encoder.

(** Between two calls that did not fail the group holds at most two bytes. *)
Definition ready (b : Base64EncoderBuf) : Prop :=
  (exists x y z, _group b = [x; y; z] /\ is_byte x /\ is_byte y /\ is_byte z) /\
  0 <= _groupLength b <= 2.

(** The group is full: the next byte has no place. *)
Definition full (b : Base64EncoderBuf) : Prop :=
  length (_group b) = 3%nat /\ _groupLength b = 3.

(** Output statements change the device only, and fail as [eof] only. *)
Definition output_only {A} (m : ST Base64EncoderBuf A) : Prop := forall b,
  ((exists a, (m b).1 = Done a) \/ (m b).1 = Eof) /\
  _group (m b).2 = _group b /\ _groupLength (m b).2 = _groupLength b.

Lemma output_put c : output_only (put c).
Proof.
  intros b. unfold put, Sink.sputc.
  destruct (Sink.room (_buf b)) as [[|n]|]; simpl; eauto.
Qed.

Lemma output_bind {A B} (m : ST Base64EncoderBuf A) (k : A -> ST Base64EncoderBuf B) :
  output_only m -> (forall a, output_only (k a)) -> output_only (bind m k).
Proof.
  intros Hm Hk b. destruct (Hm b) as (Hr & Hg & Hl). unfold bind.
  destruct (m b) as [r b'] eqn:E. simpl in *. destruct Hr as [[a ->]| ->]; simpl; [|eauto].
  destruct (Hk a b') as (Hr' & Hg' & Hl'). rewrite Hg', Hl'. auto.
Qed.

Lemma output_digit n : 0 <= n < 64 -> output_only (put_digit n).
Proof.
  intros Hn b. unfold put_digit. rewrite u8_id by (unfold is_byte; lia).
  destruct (lookup_lt_is_Some_2 OUT_ENCODING (Z.to_nat n)) as [c Hc];
    [change (length OUT_ENCODING) with 64%nat; lia|].
  rewrite (bind_aget _ _ c); [apply output_put|].
  by rewrite (proj2 (Z.ltb_ge n 0)) by lia.
Qed.

Lemma output_set_pos f : output_only (modify (fun b => set_pos (f b) b)).
Proof. intros b. simpl. eauto. Qed.

Lemma output_get : output_only get.
Proof. intros b. simpl. eauto. Qed.

Lemma output_ret {A} (a : A) : output_only (ret a).
Proof. intros b. simpl. eauto. Qed.

(** A tail of [writeToDevice] that ends by emptying a full group. *)
Definition finishes (c : Z) (m : ST Base64EncoderBuf Z) : Prop := forall b,
  (exists x y z, _group b = [x; y; z] /\ is_byte x /\ is_byte y /\ is_byte z) ->
  _groupLength b = 3 ->
  ((m b).1 = Done c /\ ready (m b).2) \/ ((m b).1 = Eof /\ full (m b).2).

Lemma finishes_bind {A} c (m : ST Base64EncoderBuf A) k :
  output_only m -> (forall a, finishes c (k a)) -> finishes c (bind m k).
Proof.
  intros Hm Hk b Hg Hl. destruct (Hm b) as (Hr & Hg' & Hl'). unfold bind.
  destruct (m b) as [r b']. simpl in *. destruct Hr as [[a ->]| ->]; simpl.
  - apply Hk; [by rewrite Hg'|congruence].
  - right. split; [done|]. destruct Hg as (? & ? & ? & Hg & _).
    split; [by rewrite Hg', Hg|congruence].
Qed.

Lemma finishes_reset c : finishes c (do* modify (set_groupLength 0); ret c).
Proof. intros b Hg Hl. left. split; [done|]. split; [done|simpl; lia]. Qed.

Lemma write_safe c b :
  ready b ->
  ((writeToDevice c b).1 = Done c /\ ready (writeToDevice c b).2) \/
  ((writeToDevice c b).1 = Eof /\ full (writeToDevice c b).2).
Proof.
  intros [(x & y & z & Hg & Hx & Hy & Hz) Hl].
  destruct b as [g gl p ll buf]. simpl in Hg, Hl. subst g.
  pose proof (u8_byte c) as Hc. unfold writeToDevice, store.
  assert (gl = 0 \/ gl = 1 \/ gl = 2) as [->|[->| ->]] by lia;
    repeat (st_step; cbn [_group _groupLength _pos _lineLength _buf set_group set_groupLength];
            fold_consts; cbn [insert list_insert]).
  1,2: left; split; [done|]; split; [by do 3 eexists; split_and!; [reflexivity|..]|simpl; lia].
  match goal with |- ((?m ?s).1 = _ /\ _) \/ _ =>
    assert (Hf : finishes c m); [|apply (Hf s); [by do 3 eexists; split_and!; [reflexivity|..]|done]] end.
  do 4 (apply finishes_bind; [apply output_digit; bits_arith|intros _]).
  apply finishes_bind; [apply output_set_pos|intros _].
  apply finishes_bind; [apply output_get|intros b].
  apply finishes_bind; [|intros _; apply finishes_reset].
  destruct (_ && _); [|apply output_ret].
  do 2 (apply output_bind; [apply output_put|intros _]). apply (output_set_pos (fun _ => 0)).
Qed.
End EncoderSafety.

(** On any device, a write to an encoder whose previous writes succeeded
    stays inside its three-byte group, and either succeeds and leaves it ready
    for the next one or reports [eof]; after an [eof] the group is left full,
    and one more write stores outside it. *)
Theorem encoder_write_safe c c' b :
  EncoderSafety.ready b ->
  let (r, b') := Encoder.writeToDevice c b in
  (r = Done c /\ EncoderSafety.ready b') \/
  (r = Eof /\ fst (Encoder.writeToDevice c' b') = UB).
Proof.
  intros Hr. pose proof (EncoderSafety.write_safe c b Hr) as H.
  destruct (Encoder.writeToDevice c b) as [r b'] eqn:E. simpl in H.
  destruct H as [H|[-> [Hs Hl]]]; [by left|right]. split; [done|].
  unfold Encoder.writeToDevice, Encoder.store. rewrite bind_get, bind_modify, bind_bind, bind_get.
  simpl. rewrite Hl. unfold bind, aget. simpl.
  rewrite (lookup_ge_None_2 _ 3) by (simpl; lia). done.
Qed.

Lemma encoder_write_safe_witness :
  let b := Encoder.set_groupLength 2
             (Encoder.construct {| Sink.written := []; Sink.room := Some 1%nat |}) in
  fst (Encoder.writeToDevice 65 b) = Eof /\
  fst (Encoder.writeToDevice 66 (snd (Encoder.writeToDevice 65 b))) = UB.
Proof.
  set (b := Encoder.set_groupLength 2 _). intros b0.
  assert (Hr : EncoderSafety.ready b).
  { split; [|simpl; lia]. exists 0, 0, 0. unfold is_byte. split_and!; reflexivity || lia. }
  pose proof (encoder_write_safe 65 66 b Hr) as H.
  vm_compute in H. vm_compute. destruct H as [[H _]|H]; [discriminate|exact H].
Defined.
