(* ===== verification/Base32.v ===== *)
(** Base32 (Foundation/src/Base32Encoder.cpp, Base32Decoder.cpp).

    The same structure as [Base64], on groups of five bytes and quantums of
    eight characters, with the optional padding of the encoder and the short
    last quantum the decoder accepts without padding. *)

From S2P Require Import Prelude StreamBuf.

Open Scope st_scope.

Definition OUT_ENCODING : list Z := str "ABCDEFGHIJKLMNOPQRSTUVWXYZ234567".

Module Encoder.
Record Base32EncoderBuf := {
  _group : list Z;          (* unsigned char[5] *)
  _groupLength : Z;
  _buf : Sink.ostreambuf;
  _doPadding : bool
}.

Definition construct (ostr : Sink.ostreambuf) (padding : bool) : Base32EncoderBuf :=
  {| _group := [0; 0; 0; 0; 0]; _groupLength := 0; _buf := ostr; _doPadding := padding |}.

Definition set_groupLength (n : Z) (b : Base32EncoderBuf) : Base32EncoderBuf :=
  {| _group := _group b; _groupLength := n; _buf := _buf b; _doPadding := _doPadding b |}.
Definition set_group (g : list Z) (b : Base32EncoderBuf) : Base32EncoderBuf :=
  {| _group := g; _groupLength := _groupLength b; _buf := _buf b; _doPadding := _doPadding b |}.

(** [if (_buf.sputc(c) == eof) return eof;] *)
Definition put (c : Z) : ST Base32EncoderBuf unit := fun b =>
  let (ok, buf) := Sink.sputc c (_buf b) in
  let b' := {| _group := _group b; _groupLength := _groupLength b; _buf := buf;
               _doPadding := _doPadding b |} in
  if ok then (Done tt, b') else (Eof, b').

(** [_group[i] = v;] *)
Definition store (i v : Z) : ST Base32EncoderBuf unit :=
  let* b := get in
  let* _old := aget (_group b) i in
  modify (set_group (<[Z.to_nat i := v]> (_group b))).

Definition put_digit (idx : Z) : ST Base32EncoderBuf unit :=
  let* c := aget OUT_ENCODING (u8 idx) in put c.

(** The [n] padding statements at the end of a branch of [close]. *)
Fixpoint put_padding (n : nat) : ST Base32EncoderBuf unit :=
  match n with
  | O => ret tt
  | S n => do* put (chr "="); put_padding n
  end.

Definition writeToDevice (c : Z) : ST Base32EncoderBuf Z :=
  let* b := get in
  do* modify (set_groupLength (_groupLength b + 1));
  do* store (_groupLength b) (u8 c);
  let* b := get in
  if _groupLength b =? 5 then
    let* g0 := aget (_group b) 0 in
    let* g1 := aget (_group b) 1 in
    let* g2 := aget (_group b) 2 in
    let* g3 := aget (_group b) 3 in
    let* g4 := aget (_group b) 4 in
    do* put_digit (Z.shiftr g0 3);
    do* put_digit (Z.lor (Z.shiftl (Z.land g0 0x07) 2) (Z.shiftr g1 6));
    do* put_digit (Z.shiftr (Z.land g1 0x3E) 1);
    do* put_digit (Z.lor (Z.shiftl (Z.land g1 0x01) 4) (Z.shiftr g2 4));
    do* put_digit (Z.lor (Z.shiftl (Z.land g2 0x0F) 1) (Z.shiftr g3 7));
    do* put_digit (Z.shiftr (Z.land g3 0x7C) 2);
    do* put_digit (Z.lor (Z.shiftl (Z.land g3 0x03) 3) (Z.shiftr g4 5));
    do* put_digit (Z.land g4 0x1F);
    do* modify (set_groupLength 0);
    ret c
  else ret c.

Definition close : ST Base32EncoderBuf Z :=
  let* b := get in
  do* (if _groupLength b =? 1 then
         do* store 1 0;
         let* b := get in
         let* g0 := aget (_group b) 0 in
         do* put_digit (Z.shiftr g0 3);
         do* put_digit (Z.shiftl (Z.land g0 0x07) 2);
         if _doPadding b then put_padding 6 else ret tt
       else if _groupLength b =? 2 then
         do* store 2 0;
         let* b := get in
         let* g0 := aget (_group b) 0 in
         let* g1 := aget (_group b) 1 in
         do* put_digit (Z.shiftr g0 3);
         do* put_digit (Z.lor (Z.shiftl (Z.land g0 0x07) 2) (Z.shiftr g1 6));
         do* put_digit (Z.shiftr (Z.land g1 0x3E) 1);
         do* put_digit (Z.shiftl (Z.land g1 0x01) 4);
         if _doPadding b then put_padding 4 else ret tt
       else if _groupLength b =? 3 then
         do* store 3 0;
         let* b := get in
         let* g0 := aget (_group b) 0 in
         let* g1 := aget (_group b) 1 in
         let* g2 := aget (_group b) 2 in
         do* put_digit (Z.shiftr g0 3);
         do* put_digit (Z.lor (Z.shiftl (Z.land g0 0x07) 2) (Z.shiftr g1 6));
         do* put_digit (Z.shiftr (Z.land g1 0x3E) 1);
         do* put_digit (Z.lor (Z.shiftl (Z.land g1 0x01) 4) (Z.shiftr g2 4));
         do* put_digit (Z.shiftl (Z.land g2 0x0F) 1);
         if _doPadding b then put_padding 3 else ret tt
       else if _groupLength b =? 4 then
         do* store 4 0;
         let* b := get in
         let* g0 := aget (_group b) 0 in
         let* g1 := aget (_group b) 1 in
         let* g2 := aget (_group b) 2 in
         let* g3 := aget (_group b) 3 in
         do* put_digit (Z.shiftr g0 3);
         do* put_digit (Z.lor (Z.shiftl (Z.land g0 0x07) 2) (Z.shiftr g1 6));
         do* put_digit (Z.shiftr (Z.land g1 0x3E) 1);
         do* put_digit (Z.lor (Z.shiftl (Z.land g1 0x01) 4) (Z.shiftr g2 4));
         do* put_digit (Z.lor (Z.shiftl (Z.land g2 0x0F) 1) (Z.shiftr g3 7));
         do* put_digit (Z.shiftr (Z.land g3 0x7C) 2);
         do* put_digit (Z.shiftl (Z.land g3 0x03) 3);
         if _doPadding b then put_padding 1 else ret tt
       else ret tt);
  do* modify (set_groupLength 0);
  ret 0.

Fixpoint write (bs : list Z) : ST Base32EncoderBuf unit :=
  match bs with
  | [] => ret tt
  | c :: r => let* _c := writeToDevice c in write r
  end.

Definition encode (padding : bool) (bs : list Z) : res (list Z) :=
  match (do* write bs; close) (construct Sink.empty padding) with
  | (Done _, b) => Done (Sink.written (_buf b))
  | (Eof, _) => Eof
  | (Raise e, _) => Raise e
  | (UB, _) => UB
  end.
End Encoder.

Module Decoder.
Record statics := { IN_ENCODING : list Z; IN_ENCODING_INIT : bool }.

Definition initial_statics : statics :=
  {| IN_ENCODING := replicate 256 0; IN_ENCODING_INIT := false |}.

Definition fill (l : list Z) : list Z :=
  foldl (fun (t : list Z) (i : nat) =>
           match OUT_ENCODING !! i with
           | Some c => <[Z.to_nat c := Z.of_nat i]> t
           | None => t
           end) (replicate (length l) 0xFF) (seq 0 32).

Definition init_table (st : statics) : statics :=
  if IN_ENCODING_INIT st then st
  else {| IN_ENCODING := <[Z.to_nat (chr "=") := 0]> (fill (IN_ENCODING st));
          IN_ENCODING_INIT := true |}.

Record Base32DecoderBuf := {
  _group : list Z;          (* unsigned char[8] *)
  _groupLength : Z;
  _groupIndex : Z;
  _buf : list Z;
  table : statics
}.

Definition construct (st : statics) (istr : list Z) : Base32DecoderBuf :=
  {| _group := replicate 8 0; _groupLength := 0; _groupIndex := 0; _buf := istr;
     table := init_table st |}.

Definition readOne : ST Base32DecoderBuf (option Z) := fun b =>
  let (ch, rest) := Source.sbumpc (_buf b) in
  (Done ch, {| _group := _group b; _groupLength := _groupLength b;
               _groupIndex := _groupIndex b; _buf := rest; table := table b |}).

Definition in_encoding (c : Z) : ST Base32DecoderBuf Z :=
  let* b := get in aget (IN_ENCODING (table b)) (u8 c).

(** [if (IN_ENCODING[buffer[i]] == 0xFF) throw DataFormatException();] *)
Definition check_one (c : Z) : ST Base32DecoderBuf unit :=
  let* v := in_encoding c in
  if v =? 0xFF then throw DataFormatException else ret tt.

(** [if ((c = readOne()) == -1) throw ...;], then the check. *)
Definition need_one : ST Base32DecoderBuf Z :=
  let* c := readOne in
  match c with
  | None => throw DataFormatException
  | Some c => do* check_one (u8 c); ret (u8 c)
  end.

(** [if ((c = readOne()) == -1) break;], then the check: the rest of the
    loop body runs on the character, the code after it on a break. *)
Definition or_break (buffer : list Z) (after : list Z -> ST Base32DecoderBuf Z)
    (body : Z -> ST Base32DecoderBuf Z) : ST Base32DecoderBuf Z :=
  let* c := readOne in
  match c with
  | None => after buffer
  | Some c => do* check_one (u8 c); body (u8 c)
  end.

(** After the loop: [buffer] holds the characters read, filled up with '='. *)
Definition decode_group (read : list Z) : ST Base32DecoderBuf Z :=
  let buffer := read ++ replicate (8 - length read) (chr "=") in
  let* b0 := aget buffer 0 in let* b1 := aget buffer 1 in
  let* b2 := aget buffer 2 in let* b3 := aget buffer 3 in
  let* b4 := aget buffer 4 in let* b5 := aget buffer 5 in
  let* b6 := aget buffer 6 in let* b7 := aget buffer 7 in
  let* v0 := in_encoding b0 in let* v1 := in_encoding b1 in
  let* v2 := in_encoding b2 in let* v3 := in_encoding b3 in
  let* v4 := in_encoding b4 in let* v5 := in_encoding b5 in
  let* v6 := in_encoding b6 in let* v7 := in_encoding b7 in
  let g0 := u8 (Z.lor (Z.shiftl v0 3) (Z.shiftr v1 2)) in
  let g1 := u8 (Z.lor (Z.lor (Z.shiftl (Z.land v1 0x03) 6) (Z.shiftl v2 1)) (Z.shiftr v3 4)) in
  let g2 := u8 (Z.lor (Z.shiftl (Z.land v3 0x0F) 4) (Z.shiftr v4 1)) in
  let g3 := u8 (Z.lor (Z.lor (Z.shiftl (Z.land v4 0x01) 7) (Z.shiftl v5 2)) (Z.shiftr v6 3)) in
  let g4 := u8 (Z.lor (Z.shiftl (Z.land v6 0x07) 5) v7) in
  let len := if b2 =? chr "=" then 1 else if b4 =? chr "=" then 2
             else if b5 =? chr "=" then 3 else if b7 =? chr "=" then 4 else 5 in
  do* modify (fun b => {| _group := [g0; g1; g2; g3; g4] ++ drop 5 (_group b); _groupLength := len;
                          _groupIndex := 1; _buf := _buf b; table := table b |});
  ret g0.

Definition readFromDevice : ST Base32DecoderBuf Z :=
  let* b := get in
  if _groupIndex b <? _groupLength b then
    let* v := aget (_group b) (_groupIndex b) in
    do* modify (fun b => {| _group := _group b; _groupLength := _groupLength b;
                            _groupIndex := _groupIndex b + 1; _buf := _buf b;
                            table := table b |});
    ret v
  else
    let* c := readOne in
    match c with
    | None => fail_eof
    | Some c =>
        let b0 := u8 c in
        do* check_one b0;
        let* b1 := need_one in
        or_break [b0; b1] decode_group (fun b2 =>
        let* b3 := need_one in
        or_break [b0; b1; b2; b3] decode_group (fun b4 =>
        or_break [b0; b1; b2; b3; b4] decode_group (fun b5 =>
        let* b6 := need_one in
        or_break [b0; b1; b2; b3; b4; b5; b6] decode_group (fun b7 =>
        decode_group [b0; b1; b2; b3; b4; b5; b6; b7]))))
    end.

Inductive reachable_statics : statics -> Prop :=
| statics_initial : reachable_statics initial_statics
| statics_construct st : reachable_statics st -> reachable_statics (init_table st).

Definition decode (st : statics) (n : nat) (text : list Z) : res (list Z) :=
  fst (Unbuffered.xsgetn readFromDevice n
         (Unbuffered.BasicUnbufferedStreamBuf (construct st text))).
End Decoder.

(** ** The reference encoding *)

Definition digit (n : Z) : Z := nth (Z.to_nat n) OUT_ENCODING 0.

(** The eight digits of a 40-bit group. *)
Definition oct (n : Z) : list Z :=
  [digit (n / 2 ^ 35); digit (n / 2 ^ 30 mod 2 ^ 5); digit (n / 2 ^ 25 mod 2 ^ 5);
   digit (n / 2 ^ 20 mod 2 ^ 5); digit (n / 2 ^ 15 mod 2 ^ 5); digit (n / 2 ^ 10 mod 2 ^ 5);
   digit (n / 2 ^ 5 mod 2 ^ 5); digit (n mod 2 ^ 5)].

Definition big5 (a b c d e : Z) : Z := a * 2 ^ 32 + b * 2 ^ 24 + c * 2 ^ 16 + d * 2 ^ 8 + e.

Arguments digit : simpl never.
Arguments oct : simpl never.

(** A last group: the digits that carry data, and the padding if wanted. *)
Definition last_group (padding : bool) (k : nat) (n : Z) : list Z :=
  take k (oct n) ++ if padding then replicate (8 - k) (chr "=") else [].

(** RFC 4648, section 6. *)
Fixpoint rfc4648 (padding : bool) (bs : list Z) : list Z :=
  match bs with
  | a :: b :: c :: d :: e :: r => oct (big5 a b c d e) ++ rfc4648 padding r
  | [a; b; c; d] => last_group padding 7 (big5 a b c d 0)
  | [a; b; c] => last_group padding 5 (big5 a b c 0 0)
  | [a; b] => last_group padding 4 (big5 a b 0 0 0)
  | [a] => last_group padding 2 (big5 a 0 0 0 0)
  | [] => []
  end.

Module EncoderProofs.
Import Encoder.

Definition emit (cs : list Z) (b : Base32EncoderBuf) : Base32EncoderBuf :=
  {| _group := _group b; _groupLength := _groupLength b; _doPadding := _doPadding b;
     _buf := {| Sink.written := Sink.written (_buf b) ++ cs; Sink.room := Sink.room (_buf b) |} |}.

Definition unlimited (b : Base32EncoderBuf) : Prop := Sink.room (_buf b) = None.

Lemma put32_ok c b : unlimited b -> put c b = (Done tt, emit [c] b).
Proof. unfold unlimited, put, Sink.sputc, emit. intros Hu. by rewrite Hu. Qed.

Lemma put_digit32_ok n b :
  unlimited b -> 0 <= n < 32 -> put_digit n b = (Done tt, emit [digit n] b).
Proof.
  intros Hu Hn. unfold put_digit. rewrite u8_id by (unfold is_byte; lia).
  rewrite (bind_Done _ _ b (digit n) b); [by apply put32_ok|].
  apply aget_in; [lia|]. unfold digit.
  assert (Hl : (Z.to_nat n < length OUT_ENCODING)%nat) by (change (length OUT_ENCODING) with 32%nat; lia).
  destruct (lookup_lt_is_Some_2 _ _ Hl) as [v Hv]. by rewrite Hv, (nth_lookup_Some _ _ _ _ Hv).
Qed.

Lemma emit_emit32 c1 c2 b : emit c2 (emit c1 b) = emit (c1 ++ c2) b.
Proof. unfold emit. simpl. by rewrite app_assoc. Qed.

Lemma put_padding_ok k b :
  unlimited b -> put_padding k b = (Done tt, emit (replicate k (chr "=")) b).
Proof.
  revert b. induction k as [|k IH]; intros b Hu; simpl.
  - unfold ret, emit. destruct b as [g gl [w r] p]. simpl. by rewrite app_nil_r.
  - rewrite (bind_Done _ _ _ _ _ (put32_ok (chr "=") b Hu)), IH by done.
    unfold emit. simpl. by rewrite <-app_assoc.
Qed.

(** The masks that are not at the low end. *)
Lemma mask_3E x : Z.shiftr (Z.land x 0x3E) 1 = Z.land (Z.shiftr x 1) 0x1F.
Proof. by rewrite Z.shiftr_land. Qed.

Lemma mask_7C x : Z.shiftr (Z.land x 0x7C) 2 = Z.land (Z.shiftr x 2) 0x1F.
Proof. by rewrite Z.shiftr_land. Qed.

(** Run the statements of the encoder on a known state. *)
Ltac enc32_step :=
  first
    [ st_step
    | erewrite bind_Done by (apply put_digit32_ok; [done|rewrite ?mask_3E, ?mask_7C; bits_arith])
    | erewrite bind_Done by (apply put_padding_ok; done)
    | erewrite bind_Done by (apply put32_ok; done) ];
  cbn [_group _groupLength _doPadding _buf set_group set_groupLength emit];
  fold_consts; cbn [insert list_insert].

(** The digits the shifts select are those of the 40-bit group. *)
Lemma oct_shifts a b c d e :
  is_byte a -> is_byte b -> is_byte c -> is_byte d -> is_byte e ->
  oct (big5 a b c d e) =
    [digit (Z.shiftr a 3);
     digit (Z.lor (Z.shiftl (Z.land a 0x07) 2) (Z.shiftr b 6));
     digit (Z.shiftr (Z.land b 0x3E) 1);
     digit (Z.lor (Z.shiftl (Z.land b 0x01) 4) (Z.shiftr c 4));
     digit (Z.lor (Z.shiftl (Z.land c 0x0F) 1) (Z.shiftr d 7));
     digit (Z.shiftr (Z.land d 0x7C) 2);
     digit (Z.lor (Z.shiftl (Z.land d 0x03) 3) (Z.shiftr e 5));
     digit (Z.land e 0x1F)].
Proof.
  intros. rewrite mask_3E, mask_7C. unfold oct, big5.
  do 7 (f_equal; [f_equal; bits_arith|]). do 2 f_equal. bits_arith.
Qed.

Lemma write_group32 g a b c d e s :
  is_byte a -> is_byte b -> is_byte c -> is_byte d -> is_byte e ->
  length g = 5%nat -> unlimited s -> _group s = g -> _groupLength s = 0 ->
  write [a; b; c; d; e] s = (Done tt, emit (oct (big5 a b c d e)) (set_group [a; b; c; d; e] s)).
Proof.
  intros Ha Hb Hc Hd He Hlen Hu Hg Hl.
  destruct g as [|x0 [|x1 [|x2 [|x3 [|x4 [|? ?]]]]]]; try discriminate.
  destruct s as [gr gl buf p]. simpl in Hg, Hl. subst gr gl.
  cbn [write]. unfold writeToDevice, store. rewrite !u8_id by done.
  repeat enc32_step. rewrite (oct_shifts a b c d e) by done.
  st_unfold. by rewrite !emit_emit32.
Qed.
End EncoderProofs.

Lemma write32_app l1 l2 s : Encoder.write (l1 ++ l2) s = (do* Encoder.write l1; Encoder.write l2) s.
Proof.
  revert s. induction l1 as [|c l1 IH]; intros s; [done|]. simpl.
  rewrite bind_bind. unfold bind at 1 2. destruct (Encoder.writeToDevice c s) as [[] s']; done || apply IH.
Qed.

Module EncoderRest.
Import Encoder EncoderProofs.

(** Writing the bytes left over by the groups, then closing. *)
Lemma write_close_rest32 x0 x1 x2 x3 x4 r s :
  Forall is_byte r -> (length r < 5)%nat ->
  unlimited s -> _group s = [x0; x1; x2; x3; x4] -> _groupLength s = 0 ->
  exists s', (do* write r; close) s = (Done 0, s') /\
    Sink.written (_buf s') = Sink.written (_buf s) ++ rfc4648 (_doPadding s) r.
Proof.
  intros Hr Hlen Hu Hg Hl. destruct s as [g gl buf p]. simpl in Hg, Hl. subst g gl.
  destruct r as [|a [|b [|c [|d [|? ?]]]]]; [| | | | |simpl in Hlen; lia];
    inv_Forall; cbn [write]; unfold close, writeToDevice, store; rewrite ?u8_id by done;
    repeat enc32_step; try (destruct p; repeat enc32_step); eexists; (split; [reflexivity|]);
    cbn [rfc4648 _doPadding _buf emit set_group set_groupLength Sink.written];
    unfold last_group; rewrite ?oct_shifts by (done || unfold is_byte; lia);
    cbn [take app replicate Nat.sub]; rewrite <-?app_assoc; simpl; rewrite ?app_nil_r, ?Z.shiftr_0_l, ?Z.lor_0_r; done.
Qed.

Lemma write_close32 : forall bs g s,
  Forall is_byte bs -> length g = 5%nat -> unlimited s -> _group s = g -> _groupLength s = 0 ->
  exists s', (do* write bs; close) s = (Done 0, s') /\
    Sink.written (_buf s') = Sink.written (_buf s) ++ rfc4648 (_doPadding s) bs.
Proof.
  intros bs. chunk_induction bs 5%nat.
  { intros l Hl g s Hb Hlen Hu Hg Hgl.
    destruct g as [|x0 [|x1 [|x2 [|x3 [|x4 [|? ?]]]]]]; try discriminate. by eapply write_close_rest32. }
  intros q r Hq IH g s Hb Hlen Hu Hg Hgl.
  destruct q as [|a [|b [|c [|d [|e [|? ?]]]]]]; try discriminate. inv_Forall.
  unfold bind at 1. rewrite write32_app.
  erewrite bind_Done by (eapply write_group32; eauto).
  edestruct (IH [a; b; c; d; e]) as (s' & Hs' & Hw); [done| | | | |exists s'; split; [exact Hs'|]]; [done..|].
  rewrite Hw. unfold emit. cbn. by rewrite <-!app_assoc.
Qed.
End EncoderRest.

(** ** Decoding *)

Definition decode_table : list Z :=
  Decoder.IN_ENCODING (Decoder.init_table Decoder.initial_statics).

Definition value (c : Z) : Z := nth (Z.to_nat c) decode_table 255.

Arguments value : simpl never.

(** A digit is read back and is no padding. *)
Lemma digit32_spec n :
  0 <= n < 32 -> value (digit n) = n /\ digit n <> chr "=" /\ is_byte (digit n).
Proof.
  intros Hn.
  assert (H : (value (digit n) =? n) && negb (digit n =? chr "=") && is_byteb (digit n) = true).
  { revert n Hn. apply (allbelow_spec 32 (fun n => _ && _ && _)). by vm_compute. }
  rewrite <-is_byteb_spec. apply andb_true_iff in H as [H ->]. lia.
Qed.

Module DecoderProofs.
Import Decoder.

Definition mk (g : list Z) (len idx : Z) (buf : list Z) : Base32DecoderBuf :=
  {| _group := g; _groupLength := len; _groupIndex := idx; _buf := buf;
     table := init_table initial_statics |}.

(** A character of the alphabet or a padding character. *)
Definition legal (c : Z) : Prop := is_byte c /\ 0 <= value c < 32.

Lemma legal_byte c : legal c -> is_byte c.
Proof. by intros []. Qed.

Lemma legal_digit n : 0 <= n < 32 -> legal (digit n).
Proof. intros Hn. destruct (digit32_spec n Hn) as (V & _ & B). split; [done|lia]. Qed.

Lemma legal_pad : legal (chr "=").
Proof. split; [by vm_compute|]. change (value (chr "=")) with 0. lia. Qed.

Lemma in_encoding_ok g len idx buf c :
  is_byte c -> in_encoding c (mk g len idx buf) = (Done (value c), mk g len idx buf).
Proof.
  intros Hc. unfold in_encoding. rewrite bind_get. rewrite u8_id by done. unfold is_byte in Hc.
  apply aget_in; [lia|]. cbn [mk table]. fold decode_table. unfold value.
  assert (Hl : (Z.to_nat c < length decode_table)%nat) by (change (length decode_table) with 256%nat; lia).
  destruct (lookup_lt_is_Some_2 _ _ Hl) as [v Hv]. by rewrite Hv, (nth_lookup_Some _ _ _ _ Hv).
Qed.

Lemma check_one32_ok g len idx buf c :
  legal c -> check_one c (mk g len idx buf) = (Done tt, mk g len idx buf).
Proof.
  intros [Hc Hv]. unfold check_one. rewrite (bind_Done _ _ _ _ _ (in_encoding_ok g len idx buf c Hc)).
  by rewrite (proj2 (Z.eqb_neq _ _)) by lia.
Qed.

Lemma readOne32_cons g len idx c r :
  readOne (mk g len idx (c :: r)) = (Done (Some c), mk g len idx r).
Proof. done. Qed.

Lemma need_one32_ok g len idx c r :
  legal c -> need_one (mk g len idx (c :: r)) = (Done c, mk g len idx r).
Proof.
  intros Hc. unfold need_one. rewrite (bind_Done _ _ _ _ _ (readOne32_cons g len idx c r)).
  rewrite u8_id by apply Hc. by rewrite (bind_Done _ _ _ _ _ (check_one32_ok g len idx r c Hc)).
Qed.

Lemma or_break_cons g len idx c r buffer after body :
  legal c -> or_break buffer after body (mk g len idx (c :: r)) = body c (mk g len idx r).
Proof.
  intros Hc. unfold or_break. rewrite (bind_Done _ _ _ _ _ (readOne32_cons g len idx c r)).
  rewrite u8_id by apply Hc. by rewrite (bind_Done _ _ _ _ _ (check_one32_ok g len idx r c Hc)).
Qed.

Lemma or_break_nil g len idx buffer after body :
  or_break buffer after body (mk g len idx []) = after buffer (mk g len idx []).
Proof. done. Qed.

(** The 40-bit group of eight characters, and the number of its data bytes. *)
Definition quantum (cs : list Z) : Z :=
  foldl (fun n c => n * 2 ^ 5 + value c) 0 cs.

Definition bytes_of (n : Z) : list Z :=
  [n / 2 ^ 32; n / 2 ^ 24 mod 2 ^ 8; n / 2 ^ 16 mod 2 ^ 8; n / 2 ^ 8 mod 2 ^ 8; n mod 2 ^ 8].

Definition data_length (c2 c4 c5 c7 : Z) : Z :=
  if c2 =? chr "=" then 1 else if c4 =? chr "=" then 2
  else if c5 =? chr "=" then 3 else if c7 =? chr "=" then 4 else 5.

Lemma group_bits v0 v1 v2 v3 v4 v5 v6 v7 :
  0 <= v0 < 32 -> 0 <= v1 < 32 -> 0 <= v2 < 32 -> 0 <= v3 < 32 ->
  0 <= v4 < 32 -> 0 <= v5 < 32 -> 0 <= v6 < 32 -> 0 <= v7 < 32 ->
  [u8 (Z.lor (Z.shiftl v0 3) (Z.shiftr v1 2));
   u8 (Z.lor (Z.lor (Z.shiftl (Z.land v1 0x03) 6) (Z.shiftl v2 1)) (Z.shiftr v3 4));
   u8 (Z.lor (Z.shiftl (Z.land v3 0x0F) 4) (Z.shiftr v4 1));
   u8 (Z.lor (Z.lor (Z.shiftl (Z.land v4 0x01) 7) (Z.shiftl v5 2)) (Z.shiftr v6 3));
   u8 (Z.lor (Z.shiftl (Z.land v6 0x07) 5) v7)] =
  bytes_of (((((((v0 * 2 ^ 5 + v1) * 2 ^ 5 + v2) * 2 ^ 5 + v3) * 2 ^ 5 + v4) * 2 ^ 5 + v5) * 2 ^ 5 + v6) * 2 ^ 5 + v7).
Proof.
  intros. rewrite <-!Z.lor_assoc. unfold bytes_of.
  rewrite !Z.shiftr_div_pow2 by lia.
  rewrite (lor_shiftl_add v2 (v3 / 2 ^ 4) 1), (lor_shiftl_add v5 (v6 / 2 ^ 3) 2) by lia.
  repeat (f_equal; [bits_arith|]). f_equal. bits_arith.
Qed.

(** What the statements after the loop leave behind, for eight characters. *)
Lemma decode_group_ok read c0 c1 c2 c3 c4 c5 c6 c7 g len idx r :
  read ++ replicate (8 - length read) (chr "=") = [c0; c1; c2; c3; c4; c5; c6; c7] ->
  Forall legal [c0; c1; c2; c3; c4; c5; c6; c7] ->
  let n := quantum [c0; c1; c2; c3; c4; c5; c6; c7] in
  decode_group read (mk g len idx r) =
    (Done (n / 2 ^ 32), mk (bytes_of n ++ drop 5 g) (data_length c2 c4 c5 c7) 1 r).
Proof.
  intros Hb Hl n. inv_Forall.
  repeat match goal with H : legal _ |- _ => destruct H as [? ?] end.
  unfold decode_group. rewrite Hb. repeat st_step.
  repeat (erewrite bind_Done by (apply in_encoding_ok; done); cbv beta).
  rewrite bind_modify. unfold ret.
  pose proof (group_bits (value c0) (value c1) (value c2) (value c3) (value c4) (value c5) (value c6) (value c7)
    ltac:(done) ltac:(done) ltac:(done) ltac:(done) ltac:(done) ltac:(done) ltac:(done) ltac:(done)) as G.
  unfold n, quantum. cbn [foldl]. rewrite Z.mul_0_l, Z.add_0_l.
  rewrite <-G. unfold bytes_of in G. injection G as -> _ _ _ _. done.
Qed.

(** A read at a group boundary, on a whole group or on the short last one. *)
Lemma read_group cs c0 c1 c2 c3 c4 c5 c6 c7 g len idx r :
  length cs = 8%nat \/ (length cs ∈ [2; 4; 5; 7]%nat /\ r = []) ->
  cs ++ replicate (8 - length cs) (chr "=") = [c0; c1; c2; c3; c4; c5; c6; c7] ->
  Forall legal [c0; c1; c2; c3; c4; c5; c6; c7] -> len <= idx ->
  let n := quantum [c0; c1; c2; c3; c4; c5; c6; c7] in
  readFromDevice (mk g len idx (cs ++ r)) =
    (Done (n / 2 ^ 32), mk (bytes_of n ++ drop 5 g) (data_length c2 c4 c5 c7) 1 r).
Proof.
  intros Hk Hb Hl Hi n. unfold readFromDevice. rewrite bind_get. cbn [_groupIndex _groupLength mk].
  rewrite (proj2 (Z.ltb_ge idx len)) by lia. fold (mk g len idx (cs ++ r)).
  inv_Forall.
  assert (Hcase : cs = take (length cs) [c0; c1; c2; c3; c4; c5; c6; c7]) by (by rewrite <-Hb, take_app_length).
  destruct Hk as [Hk|[Hk ->]].
  2: repeat (apply elem_of_cons in Hk as [Hk|Hk]); [..|by apply not_elem_of_nil in Hk].
  all: rewrite Hk in Hcase; cbn [take] in Hcase; subst cs; cbn [app];
    erewrite bind_Done by apply readOne32_cons; cbv iota beta zeta;
    rewrite u8_id by (by apply legal_byte); erewrite bind_Done by (apply check_one32_ok; done);
    repeat first
      [ erewrite bind_Done by (apply need_one32_ok; done)
      | rewrite or_break_cons by done
      | rewrite or_break_nil ];
    (apply decode_group_ok; [done|repeat (constructor; [done|]); constructor]).
Qed.

(** The bytes that are still in the group are handed out next. *)
Lemma produces_group32 g idx len r bs fin :
  Z.of_nat (length g) >= len -> (forall i b, take (Z.to_nat len) g !! i = Some b -> b <> -1) ->
  1 <= idx <= len ->
  produces readFromDevice (mk g len len r) bs fin ->
  produces readFromDevice (mk g len idx r) (drop (Z.to_nat idx) (take (Z.to_nat len) g) ++ bs) fin.
Proof.
  intros Hg Hne Hi Hp. set (buf := take (Z.to_nat len) g).
  assert (Hlen : length buf = Z.to_nat len) by (unfold buf; rewrite length_take; lia).
  replace idx with (Z.of_nat (Z.to_nat idx)) at 1 by lia.
  refine (produces_buffered _ (fun i => mk g len (Z.of_nat i) r) buf bs fin _ _ _ _);
    [|by rewrite Hlen, Z2Nat.id by lia|lia].
  intros j v Hv. pose proof (lookup_lt_Some _ _ _ Hv).
  split; [|by eapply Hne]. apply lookup_take_Some in Hv as [Hv _].
  unfold readFromDevice. rewrite bind_get. cbn [_groupIndex _groupLength _group mk].
  rewrite (proj2 (Z.ltb_lt _ len)) by lia.
  rewrite (bind_aget _ _ v), bind_modify; [by replace (Z.of_nat (S j)) with (Z.of_nat j + 1) by lia|].
  rewrite (proj2 (Z.ltb_ge _ 0)), Nat2Z.id by lia. done.
Qed.

Lemma bytes_of_big5 a b c d e :
  is_byte a -> is_byte b -> is_byte c -> is_byte d -> is_byte e ->
  bytes_of (big5 a b c d e) = [a; b; c; d; e] /\ 0 <= big5 a b c d e < 2 ^ 40.
Proof.
  unfold is_byte, bytes_of, big5. intros. split; [|lia].
  repeat (f_equal; [lia|]). f_equal. lia.
Qed.

(** One group of the text hands out its data bytes, then the rest follows. *)
Lemma produces_quantum cs c0 c1 c2 c3 c4 c5 c6 c7 a b c d e g len idx r bs fin :
  length cs = 8%nat \/ (length cs ∈ [2; 4; 5; 7]%nat /\ r = []) ->
  cs ++ replicate (8 - length cs) (chr "=") = [c0; c1; c2; c3; c4; c5; c6; c7] ->
  Forall legal [c0; c1; c2; c3; c4; c5; c6; c7] -> len <= idx ->
  Forall is_byte [a; b; c; d; e] -> quantum [c0; c1; c2; c3; c4; c5; c6; c7] = big5 a b c d e ->
  (forall g len idx, len <= idx -> produces readFromDevice (mk g len idx r) bs fin) ->
  produces readFromDevice (mk g len idx (cs ++ r))
    (take (Z.to_nat (data_length c2 c4 c5 c7)) [a; b; c; d; e] ++ bs) fin.
Proof.
  intros Hk Hb Hl Hi Hby Hq Hr.
  assert (Hne : forall i x, [a; b; c; d; e] !! i = Some x -> x <> -1).
  { intros i x Hx. rewrite List.Forall_forall in Hby. apply list_elem_of_lookup_2, list_elem_of_In, Hby in Hx.
    unfold is_byte in Hx. lia. }
  pose proof (read_group cs _ _ _ _ _ _ _ _ g len idx r Hk Hb Hl Hi) as R. inv_Forall.
  destruct (bytes_of_big5 a b c d e) as [Hbo _]; [done..|]. cbv zeta in R. rewrite Hq, Hbo in R.
  assert (Ha : big5 a b c d e / 2 ^ 32 = a) by (unfold bytes_of in Hbo; by injection Hbo). rewrite Ha in R.
  set (n := data_length c2 c4 c5 c7) in *.
  assert (Hn : 1 <= n <= 5) by (unfold n, data_length; repeat case_match; lia).
  assert (Ht : take (Z.to_nat n) ([a; b; c; d; e] ++ drop 5 g) = take (Z.to_nat n) [a; b; c; d; e])
    by (apply take_app_le; simpl; lia).
  pose proof (produces_group32 ([a; b; c; d; e] ++ drop 5 g) 1 n r bs fin) as P. rewrite Ht in P.
  rewrite <-(take_drop 1 (take (Z.to_nat n) _)), <-app_assoc, take_take, Nat.min_l by lia.
  eapply produces_cons; [exact R|by apply (Hne 0%nat)|]. apply P.
  - rewrite length_app. simpl. lia.
  - intros i x [Hx _]%lookup_take_Some. by eapply Hne.
  - lia.
  - apply Hr. lia.
Qed.

Lemma produces_nil32 g len idx : len <= idx -> produces readFromDevice (mk g len idx []) [] None.
Proof.
  intros Hi. assert (E : readFromDevice (mk g len idx []) = (Eof, mk g len idx [])).
  { unfold readFromDevice. rewrite bind_get. cbn [_groupIndex _groupLength mk].
    by rewrite (proj2 (Z.ltb_ge idx len)) by lia. }
  by eapply produces_eof.
Qed.

(** The digits of a 40-bit group. *)
Lemma oct_digits n :
  0 <= n < 2 ^ 40 -> exists d0 d1 d2 d3 d4 d5 d6 d7,
  oct n = [digit d0; digit d1; digit d2; digit d3; digit d4; digit d5; digit d6; digit d7] /\
  0 <= d0 < 32 /\ 0 <= d1 < 32 /\ 0 <= d2 < 32 /\ 0 <= d3 < 32 /\
  0 <= d4 < 32 /\ 0 <= d5 < 32 /\ 0 <= d6 < 32 /\ 0 <= d7 < 32 /\
  ((((((d0 * 32 + d1) * 32 + d2) * 32 + d3) * 32 + d4) * 32 + d5) * 32 + d6) * 32 + d7 = n.
Proof.
  intros Hn. do 8 eexists. split; [reflexivity|]. split_and!; try lia.
Qed.

Lemma value_digit d : 0 <= d < 32 -> value (digit d) = d.
Proof. apply digit32_spec. Qed.

Lemma digit_not_pad d : 0 <= d < 32 -> (digit d =? chr "=") = false.
Proof. intros Hd. apply Z.eqb_neq. by apply digit32_spec. Qed.

Ltac legal_list :=
  repeat (constructor; [first [by apply legal_digit | apply legal_pad]|]); constructor.

(** One short last group: the values of its characters and the number of bytes. *)
Ltac last_case :=
  match goal with |- produces readFromDevice (mk ?g ?len ?idx ?T) _ None =>
    match goal with H : Forall is_byte [?a; ?b; ?c; ?d; ?e] |- _ =>
      let P := fresh "P" in
      eassert (P : produces readFromDevice (mk g len idx (T ++ []))
                     (take (Z.to_nat (data_length _ _ _ _)) [a; b; c; d; e] ++ []) None);
      [eapply produces_quantum;
         [(left; reflexivity) || (right; split; [repeat constructor|done]) | reflexivity | legal_list | done | done
         | unfold quantum; cbn [foldl]; rewrite ?value_digit by done; change (value (chr "=")) with 0;
           unfold big5; lia
         | intros; by apply produces_nil32]
      | unfold data_length in P; rewrite ?digit_not_pad in P by done; rewrite !app_nil_r in P; exact P]
    end
  end.

(** The last group of the encoder, padded or not. *)
Lemma produces_last padding k m r a b c d e g len idx :
  Forall is_byte [a; b; c; d; e] -> len <= idx ->
  (k, m) ∈ [(2, 1); (4, 2); (5, 3); (7, 4)]%nat ->
  drop m [a; b; c; d; e] = replicate (5 - m) 0 -> r = take m [a; b; c; d; e] ->
  produces readFromDevice (mk g len idx (last_group padding k (big5 a b c d e))) r None.
Proof.
  intros Hby Hi Hk Hz ->. pose proof Hby as Hby'.
  assert (0 <= big5 a b c d e < 2 ^ 40) as Hn by (clear Hz; inv_Forall; by apply bytes_of_big5).
  destruct (oct_digits _ Hn) as (d0 & d1 & d2 & d3 & d4 & d5 & d6 & d7 & Ho & H0 & H1 & H2 & H3 & H4 & H5 & H6 & H7 & Hs).
  unfold last_group. rewrite Ho.
  assert (Hby2 : 0 <= a < 256 /\ 0 <= b < 256 /\ 0 <= c < 256 /\ 0 <= d < 256 /\ 0 <= e < 256)
    by (clear -Hby; unfold is_byte in *; inv_Forall; done).
  unfold big5 in Hs.
  repeat (apply elem_of_cons in Hk as [[= -> ->]|Hk]); [..|by apply not_elem_of_nil in Hk];
    cbn [drop replicate Nat.sub] in Hz; injection Hz; intros; subst;
    cbn [take app].
  all: destruct padding; cbn [app]; last_case.
Qed.

(** The decoder hands out the bytes that were encoded. *)
Lemma produces_text32 : forall bs padding g len idx,
  Forall is_byte bs -> len <= idx ->
  produces readFromDevice (mk g len idx (rfc4648 padding bs)) bs None.
Proof.
  intros bs. chunk_induction bs 5%nat.
  - intros r Hl padding g len idx Hb Hi.
    destruct r as [|a [|b [|c [|d [|? ?]]]]]; [by apply produces_nil32| | | | |simpl in Hl; lia]; inv_Forall; cbn [rfc4648].
    + eapply (produces_last padding 2 1); [|done|repeat constructor|done|done]. repeat (constructor; [done || unfold is_byte; lia|]). constructor.
    + eapply (produces_last padding 4 2); [|done|repeat constructor|done|done]. repeat (constructor; [done || unfold is_byte; lia|]). constructor.
    + eapply (produces_last padding 5 3); [|done|repeat constructor|done|done]. repeat (constructor; [done || unfold is_byte; lia|]). constructor.
    + eapply (produces_last padding 7 4); [|done|repeat constructor|done|done]. repeat (constructor; [done || unfold is_byte; lia|]). constructor.
  - intros q r Hq IH padding g len idx Hb Hi.
    destruct q as [|a [|b [|c [|d [|e [|? ?]]]]]]; try discriminate. apply Forall_app in Hb as [Hq' Hr].
    cbn [app rfc4648].
    assert (0 <= big5 a b c d e < 2 ^ 40) as Hn by (clear -Hq'; inv_Forall; by apply bytes_of_big5).
    destruct (oct_digits _ Hn) as (d0 & d1 & d2 & d3 & d4 & d5 & d6 & d7 & Ho & H0 & H1 & H2 & H3 & H4 & H5 & H6 & H7 & Hs).
    rewrite Ho.
    epose proof (produces_quantum [digit d0; digit d1; digit d2; digit d3; digit d4; digit d5; digit d6; digit d7]
      _ _ _ _ _ _ _ _ a b c d e g len idx (rfc4648 padding r) r None ltac:(by left) ltac:(reflexivity)
      ltac:(legal_list) Hi Hq' _ (fun g len idx Hi => IH padding g len idx Hr Hi)) as P.
    unfold data_length in P. rewrite !digit_not_pad in P by done. exact P.
    Unshelve. unfold quantum. cbn [foldl]. rewrite !value_digit by done. rewrite <-Hs. lia.
Qed.
End DecoderProofs.

Lemma init_table32_reachable st :
  Decoder.reachable_statics st ->
  Decoder.init_table st = Decoder.init_table Decoder.initial_statics.
Proof. induction 1 as [|st Hst IH]; [done|]. rewrite IH. reflexivity. Qed.

(** The encoder writes the RFC 4648 base32 text of the bytes it is given,
    with or without padding, and the decoder reads either form back as the
    bytes that were encoded, however many are asked for, without an access
    outside its arrays. *)
Theorem base32_roundtrip st padding n bs :
  Decoder.reachable_statics st -> Forall is_byte bs ->
  Encoder.encode padding bs = Done (rfc4648 padding bs) /\
  Decoder.decode st n (rfc4648 padding bs) = Done (take n bs).
Proof.
  intros Hst Hb. split.
  - unfold Encoder.encode.
    destruct (EncoderRest.write_close32 bs [0; 0; 0; 0; 0] (Encoder.construct Sink.empty padding) Hb)
      as (s' & -> & Hw); [done..|]. by rewrite Hw.
  - unfold Decoder.decode, Decoder.construct. rewrite (init_table32_reachable st Hst).
    rewrite (Unbuffered.xsgetn_produces Decoder.readFromDevice n _ bs None); [done|done|].
    by apply DecoderProofs.produces_text32.
Qed.

Lemma base32_roundtrip_witness :
  Encoder.encode false (str "POCO") = Done (str "KBHUGTY") /\
  Decoder.decode Decoder.initial_statics 9 (str "KBHUGTY") = Done (str "POCO").
Proof.
  apply (base32_roundtrip Decoder.initial_statics false 9 (str "POCO")); [constructor|].
  apply str_bytes.
Defined.
