(* ===== verification/Strings.v ===== *)
(** Characters and strings (Poco/Ascii.h, Foundation/src/Ascii.cpp, Poco/String.h).

    [Ascii] is the property table with its predicates and case mappings;
    [Str] holds the string functions: trimming, case conversion, the
    case-insensitive comparison, translation, replacement, concatenation. *)

From S2P Require Import Prelude.

Module Ascii.
Definition ACP_CONTROL : Z := 0x0001.
Definition ACP_SPACE : Z := 0x0002.
Definition ACP_PUNCT : Z := 0x0004.
Definition ACP_DIGIT : Z := 0x0008.
Definition ACP_HEXDIGIT : Z := 0x0010.
Definition ACP_ALPHA : Z := 0x0020.
Definition ACP_LOWER : Z := 0x0040.
Definition ACP_UPPER : Z := 0x0080.
Definition ACP_GRAPH : Z := 0x0100.
Definition ACP_PRINT : Z := 0x0200.

(** [A | B | ...] *)
Definition flags (l : list Z) : Z := foldr Z.lor 0 l.

Definition CHARACTER_PROPERTIES : list Z :=
  [
   flags [ACP_CONTROL];
   flags [ACP_CONTROL];
   flags [ACP_CONTROL];
   flags [ACP_CONTROL];
   flags [ACP_CONTROL];
   flags [ACP_CONTROL];
   flags [ACP_CONTROL];
   flags [ACP_CONTROL];
   flags [ACP_CONTROL];
   flags [ACP_CONTROL; ACP_SPACE];
   flags [ACP_CONTROL; ACP_SPACE];
   flags [ACP_CONTROL; ACP_SPACE];
   flags [ACP_CONTROL; ACP_SPACE];
   flags [ACP_CONTROL; ACP_SPACE];
   flags [ACP_CONTROL];
   flags [ACP_CONTROL];
   flags [ACP_CONTROL];
   flags [ACP_CONTROL];
   flags [ACP_CONTROL];
   flags [ACP_CONTROL];
   flags [ACP_CONTROL];
   flags [ACP_CONTROL];
   flags [ACP_CONTROL];
   flags [ACP_CONTROL];
   flags [ACP_CONTROL];
   flags [ACP_CONTROL];
   flags [ACP_CONTROL];
   flags [ACP_CONTROL];
   flags [ACP_CONTROL];
   flags [ACP_CONTROL];
   flags [ACP_CONTROL];
   flags [ACP_CONTROL];
   flags [ACP_SPACE; ACP_PRINT];
   flags [ACP_PUNCT; ACP_GRAPH; ACP_PRINT];
   flags [ACP_PUNCT; ACP_GRAPH; ACP_PRINT];
   flags [ACP_PUNCT; ACP_GRAPH; ACP_PRINT];
   flags [ACP_PUNCT; ACP_GRAPH; ACP_PRINT];
   flags [ACP_PUNCT; ACP_GRAPH; ACP_PRINT];
   flags [ACP_PUNCT; ACP_GRAPH; ACP_PRINT];
   flags [ACP_PUNCT; ACP_GRAPH; ACP_PRINT];
   flags [ACP_PUNCT; ACP_GRAPH; ACP_PRINT];
   flags [ACP_PUNCT; ACP_GRAPH; ACP_PRINT];
   flags [ACP_PUNCT; ACP_GRAPH; ACP_PRINT];
   flags [ACP_PUNCT; ACP_GRAPH; ACP_PRINT];
   flags [ACP_PUNCT; ACP_GRAPH; ACP_PRINT];
   flags [ACP_PUNCT; ACP_GRAPH; ACP_PRINT];
   flags [ACP_PUNCT; ACP_GRAPH; ACP_PRINT];
   flags [ACP_PUNCT; ACP_GRAPH; ACP_PRINT];
   flags [ACP_DIGIT; ACP_HEXDIGIT; ACP_GRAPH; ACP_PRINT];
   flags [ACP_DIGIT; ACP_HEXDIGIT; ACP_GRAPH; ACP_PRINT];
   flags [ACP_DIGIT; ACP_HEXDIGIT; ACP_GRAPH; ACP_PRINT];
   flags [ACP_DIGIT; ACP_HEXDIGIT; ACP_GRAPH; ACP_PRINT];
   flags [ACP_DIGIT; ACP_HEXDIGIT; ACP_GRAPH; ACP_PRINT];
   flags [ACP_DIGIT; ACP_HEXDIGIT; ACP_GRAPH; ACP_PRINT];
   flags [ACP_DIGIT; ACP_HEXDIGIT; ACP_GRAPH; ACP_PRINT];
   flags [ACP_DIGIT; ACP_HEXDIGIT; ACP_GRAPH; ACP_PRINT];
   flags [ACP_DIGIT; ACP_HEXDIGIT; ACP_GRAPH; ACP_PRINT];
   flags [ACP_DIGIT; ACP_HEXDIGIT; ACP_GRAPH; ACP_PRINT];
   flags [ACP_PUNCT; ACP_GRAPH; ACP_PRINT];
   flags [ACP_PUNCT; ACP_GRAPH; ACP_PRINT];
   flags [ACP_PUNCT; ACP_GRAPH; ACP_PRINT];
   flags [ACP_PUNCT; ACP_GRAPH; ACP_PRINT];
   flags [ACP_PUNCT; ACP_GRAPH; ACP_PRINT];
   flags [ACP_PUNCT; ACP_GRAPH; ACP_PRINT];
   flags [ACP_PUNCT; ACP_GRAPH; ACP_PRINT];
   flags [ACP_HEXDIGIT; ACP_ALPHA; ACP_UPPER; ACP_GRAPH; ACP_PRINT];
   flags [ACP_HEXDIGIT; ACP_ALPHA; ACP_UPPER; ACP_GRAPH; ACP_PRINT];
   flags [ACP_HEXDIGIT; ACP_ALPHA; ACP_UPPER; ACP_GRAPH; ACP_PRINT];
   flags [ACP_HEXDIGIT; ACP_ALPHA; ACP_UPPER; ACP_GRAPH; ACP_PRINT];
   flags [ACP_HEXDIGIT; ACP_ALPHA; ACP_UPPER; ACP_GRAPH; ACP_PRINT];
   flags [ACP_HEXDIGIT; ACP_ALPHA; ACP_UPPER; ACP_GRAPH; ACP_PRINT];
   flags [ACP_ALPHA; ACP_UPPER; ACP_GRAPH; ACP_PRINT];
   flags [ACP_ALPHA; ACP_UPPER; ACP_GRAPH; ACP_PRINT];
   flags [ACP_ALPHA; ACP_UPPER; ACP_GRAPH; ACP_PRINT];
   flags [ACP_ALPHA; ACP_UPPER; ACP_GRAPH; ACP_PRINT];
   flags [ACP_ALPHA; ACP_UPPER; ACP_GRAPH; ACP_PRINT];
   flags [ACP_ALPHA; ACP_UPPER; ACP_GRAPH; ACP_PRINT];
   flags [ACP_ALPHA; ACP_UPPER; ACP_GRAPH; ACP_PRINT];
   flags [ACP_ALPHA; ACP_UPPER; ACP_GRAPH; ACP_PRINT];
   flags [ACP_ALPHA; ACP_UPPER; ACP_GRAPH; ACP_PRINT];
   flags [ACP_ALPHA; ACP_UPPER; ACP_GRAPH; ACP_PRINT];
   flags [ACP_ALPHA; ACP_UPPER; ACP_GRAPH; ACP_PRINT];
   flags [ACP_ALPHA; ACP_UPPER; ACP_GRAPH; ACP_PRINT];
   flags [ACP_ALPHA; ACP_UPPER; ACP_GRAPH; ACP_PRINT];
   flags [ACP_ALPHA; ACP_UPPER; ACP_GRAPH; ACP_PRINT];
   flags [ACP_ALPHA; ACP_UPPER; ACP_GRAPH; ACP_PRINT];
   flags [ACP_ALPHA; ACP_UPPER; ACP_GRAPH; ACP_PRINT];
   flags [ACP_ALPHA; ACP_UPPER; ACP_GRAPH; ACP_PRINT];
   flags [ACP_ALPHA; ACP_UPPER; ACP_GRAPH; ACP_PRINT];
   flags [ACP_ALPHA; ACP_UPPER; ACP_GRAPH; ACP_PRINT];
   flags [ACP_ALPHA; ACP_UPPER; ACP_GRAPH; ACP_PRINT];
   flags [ACP_PUNCT; ACP_GRAPH; ACP_PRINT];
   flags [ACP_PUNCT; ACP_GRAPH; ACP_PRINT];
   flags [ACP_PUNCT; ACP_GRAPH; ACP_PRINT];
   flags [ACP_PUNCT; ACP_GRAPH; ACP_PRINT];
   flags [ACP_PUNCT; ACP_GRAPH; ACP_PRINT];
   flags [ACP_PUNCT; ACP_GRAPH; ACP_PRINT];
   flags [ACP_HEXDIGIT; ACP_ALPHA; ACP_LOWER; ACP_GRAPH; ACP_PRINT];
   flags [ACP_HEXDIGIT; ACP_ALPHA; ACP_LOWER; ACP_GRAPH; ACP_PRINT];
   flags [ACP_HEXDIGIT; ACP_ALPHA; ACP_LOWER; ACP_GRAPH; ACP_PRINT];
   flags [ACP_HEXDIGIT; ACP_ALPHA; ACP_LOWER; ACP_GRAPH; ACP_PRINT];
   flags [ACP_HEXDIGIT; ACP_ALPHA; ACP_LOWER; ACP_GRAPH; ACP_PRINT];
   flags [ACP_HEXDIGIT; ACP_ALPHA; ACP_LOWER; ACP_GRAPH; ACP_PRINT];
   flags [ACP_ALPHA; ACP_LOWER; ACP_GRAPH; ACP_PRINT];
   flags [ACP_ALPHA; ACP_LOWER; ACP_GRAPH; ACP_PRINT];
   flags [ACP_ALPHA; ACP_LOWER; ACP_GRAPH; ACP_PRINT];
   flags [ACP_ALPHA; ACP_LOWER; ACP_GRAPH; ACP_PRINT];
   flags [ACP_ALPHA; ACP_LOWER; ACP_GRAPH; ACP_PRINT];
   flags [ACP_ALPHA; ACP_LOWER; ACP_GRAPH; ACP_PRINT];
   flags [ACP_ALPHA; ACP_LOWER; ACP_GRAPH; ACP_PRINT];
   flags [ACP_ALPHA; ACP_LOWER; ACP_GRAPH; ACP_PRINT];
   flags [ACP_ALPHA; ACP_LOWER; ACP_GRAPH; ACP_PRINT];
   flags [ACP_ALPHA; ACP_LOWER; ACP_GRAPH; ACP_PRINT];
   flags [ACP_ALPHA; ACP_LOWER; ACP_GRAPH; ACP_PRINT];
   flags [ACP_ALPHA; ACP_LOWER; ACP_GRAPH; ACP_PRINT];
   flags [ACP_ALPHA; ACP_LOWER; ACP_GRAPH; ACP_PRINT];
   flags [ACP_ALPHA; ACP_LOWER; ACP_GRAPH; ACP_PRINT];
   flags [ACP_ALPHA; ACP_LOWER; ACP_GRAPH; ACP_PRINT];
   flags [ACP_ALPHA; ACP_LOWER; ACP_GRAPH; ACP_PRINT];
   flags [ACP_ALPHA; ACP_LOWER; ACP_GRAPH; ACP_PRINT];
   flags [ACP_ALPHA; ACP_LOWER; ACP_GRAPH; ACP_PRINT];
   flags [ACP_ALPHA; ACP_LOWER; ACP_GRAPH; ACP_PRINT];
   flags [ACP_ALPHA; ACP_LOWER; ACP_GRAPH; ACP_PRINT];
   flags [ACP_PUNCT; ACP_GRAPH; ACP_PRINT];
   flags [ACP_PUNCT; ACP_GRAPH; ACP_PRINT];
   flags [ACP_PUNCT; ACP_GRAPH; ACP_PRINT];
   flags [ACP_PUNCT; ACP_GRAPH; ACP_PRINT];
   flags [ACP_CONTROL]
  ].

Definition isAscii (ch : Z) : bool := Z.land (u32 ch) 0xFFFFFF80 =? 0.

Definition properties (ch : Z) : Z :=
  if isAscii ch then nth (Z.to_nat ch) CHARACTER_PROPERTIES 0 else 0.

Definition hasProperties (ch props : Z) : bool := Z.land (properties ch) props =? props.
Definition hasSomeProperties (ch props : Z) : bool := negb (Z.land (properties ch) props =? 0).

Definition isSpace (ch : Z) : bool := hasProperties ch ACP_SPACE.
Definition isDigit (ch : Z) : bool := hasProperties ch ACP_DIGIT.
Definition isHexDigit (ch : Z) : bool := hasProperties ch ACP_HEXDIGIT.
Definition isPunct (ch : Z) : bool := hasProperties ch ACP_PUNCT.
Definition isAlpha (ch : Z) : bool := hasProperties ch ACP_ALPHA.
Definition isAlphaNumeric (ch : Z) : bool := hasSomeProperties ch (Z.lor ACP_ALPHA ACP_DIGIT).
Definition isLower (ch : Z) : bool := hasProperties ch ACP_LOWER.
Definition isUpper (ch : Z) : bool := hasProperties ch ACP_UPPER.

Definition toLower (ch : Z) : Z := if isUpper ch then ch + 32 else ch.
Definition toUpper (ch : Z) : Z := if isLower ch then ch - 32 else ch.

(** The table says what the character classes are, over the whole range of
    an [unsigned char]. *)
Lemma isUpper_spec ch : is_byte ch -> isUpper ch = ((chr "A" <=? ch) && (ch <=? chr "Z")).
Proof.
  intros H. apply (eqb_prop (isUpper ch)).
  apply (allbelow_spec 256 (fun ch => Bool.eqb (isUpper ch) ((chr "A" <=? ch) && (ch <=? chr "Z"))));
    [by vm_compute|done].
Qed.

Lemma isLower_spec ch : is_byte ch -> isLower ch = ((chr "a" <=? ch) && (ch <=? chr "z")).
Proof.
  intros H. apply (eqb_prop (isLower ch)).
  apply (allbelow_spec 256 (fun ch => Bool.eqb (isLower ch) ((chr "a" <=? ch) && (ch <=? chr "z"))));
    [by vm_compute|done].
Qed.

Lemma isDigit_spec ch : is_byte ch -> isDigit ch = ((chr "0" <=? ch) && (ch <=? chr "9")).
Proof.
  intros H. apply (eqb_prop (isDigit ch)).
  apply (allbelow_spec 256 (fun ch => Bool.eqb (isDigit ch) ((chr "0" <=? ch) && (ch <=? chr "9"))));
    [by vm_compute|done].
Qed.

Lemma isSpace_spec ch : is_byte ch -> isSpace ch = (ch =? 32) || ((9 <=? ch) && (ch <=? 13)).
Proof.
  intros H. apply (eqb_prop (isSpace ch)).
  apply (allbelow_spec 256 (fun ch => Bool.eqb (isSpace ch) ((ch =? 32) || ((9 <=? ch) && (ch <=? 13)))));
    [by vm_compute|done].
Qed.

Lemma toLower_byte ch : is_byte ch -> is_byte (toLower ch).
Proof.
  intros H. apply is_byteb_spec.
  apply (allbelow_spec 256 (fun ch => is_byteb (toLower ch))); [by vm_compute|done].
Qed.

Lemma toLower_idem ch : is_byte ch -> toLower (toLower ch) = toLower ch.
Proof.
  intros H. apply Z.eqb_eq.
  apply (allbelow_spec 256 (fun ch => toLower (toLower ch) =? toLower ch)); [by vm_compute|done].
Qed.
End Ascii.

Module Str.

(** *** Trimming *)

Fixpoint trimLeft (s : list Z) : list Z :=
  match s with
  | c :: r => if Ascii.isSpace c then trimLeft r else s
  | [] => []
  end.

Definition space_at (s : list Z) (i : nat) : bool :=
  match s !! i with Some c => Ascii.isSpace c | None => false end.

(** [while (pos >= lo && isSpace(str[pos])) --pos;] with [n = pos + 1]. *)
Fixpoint last_nonspace (s : list Z) (lo n : nat) : nat :=
  match n with
  | O => O
  | S p => if (lo <=? p)%nat && space_at s p then last_nonspace s lo p else n
  end.

Definition trimRight (s : list Z) : list Z := take (last_nonspace s 0 (length s)) s.

(** [while (first <= last && isSpace(str[first])) ++first;] with [n = last + 1]. *)
Fixpoint first_nonspace (s : list Z) (fuel first n : nat) : nat :=
  match fuel with
  | O => first
  | S f => if (first <? n)%nat && space_at s first then first_nonspace s f (S first) n else first
  end.

(** [str.erase(str.begin(), it)] and [str.resize(pos + 1)]. *)
Definition trimLeftInPlace (s : list Z) : list Z :=
  drop (first_nonspace s (length s) 0 (length s)) s.
Definition trimRightInPlace (s : list Z) : list Z := take (last_nonspace s 0 (length s)) s.

Definition trim (s : list Z) : list Z :=
  let first := first_nonspace s (length s) 0 (length s) in
  let n := last_nonspace s first (length s) in
  take (n - first) (drop first s).

Definition trimInPlace (s : list Z) : list Z :=
  let first := first_nonspace s (length s) 0 (length s) in
  let n := last_nonspace s first (length s) in
  drop first (take n s).

(** *** Case *)

Definition toUpper (s : list Z) : list Z := map Ascii.toUpper s.
Definition toLower (s : list Z) : list Z := map Ascii.toLower s.

(** *** Case-insensitive comparison; the characters compare as [char]. *)

Fixpoint icompare (s1 s2 : list Z) : Z :=
  match s1, s2 with
  | [], [] => 0
  | [], _ :: _ => -1
  | _ :: _, [] => 1
  | a :: r1, b :: r2 =>
      let c1 := s8 (Ascii.toLower a) in
      let c2 := s8 (Ascii.toLower b) in
      if c1 <? c2 then -1 else if c1 >? c2 then 1 else icompare r1 r2
  end.

(** The range version: [n] characters of [str] from [pos]. *)
Definition icompare_range (str : list Z) (pos n : nat) (s2 : list Z) : Z :=
  let sz := length str in
  let pos := if (sz <? pos)%nat then sz else pos in
  let n := if (sz <? pos + n)%nat then (sz - pos)%nat else n in
  icompare (take n (drop pos str)) s2.

Definition CILess (s1 s2 : list Z) : bool := icompare s1 s2 <? 0.

(** *** Translation *)

Fixpoint find_char (s : list Z) (c : Z) : option nat :=
  match s with
  | [] => None
  | x :: r => if x =? c then Some O else S <$> find_char r c
  end.

Definition translate (s from to : list Z) : list Z :=
  foldl (fun result c =>
           match find_char from c with
           | None => result ++ [c]
           | Some pos => match to !! pos with Some t => result ++ [t] | None => result end
           end) [] s.

(** *** Replacement *)

Fixpoint is_prefix (p s : list Z) : bool :=
  match p, s with
  | [], _ => true
  | a :: p', b :: s' => (a =? b) && is_prefix p' s'
  | _ :: _, [] => false
  end.

(** [str.find(pat, start)] on the part of [str] from [start], as an offset from there. *)
Fixpoint find_sub (pat s : list Z) : option nat :=
  if is_prefix pat s then Some O
  else match s with
       | [] => None
       | _ :: r => S <$> find_sub pat r
       end.

(** The loop of [replaceInPlace]: [rest] is [str] from [start]. *)
Fixpoint replace_loop (fuel : nat) (rest from to result : list Z) : option (list Z) :=
  match fuel with
  | O => None
  | S f =>
      match find_sub from rest with
      | Some off => replace_loop f (drop (off + length from) rest) from to
                      (result ++ take off rest ++ to)
      | None => Some (result ++ rest)
      end
  end.

Definition replaceInPlace (s from to : list Z) (start : nat) : res (list Z) :=
  match from with
  | [] => Raise AssertionViolationException
  | _ =>
      if (length s <? start)%nat then Raise StdOutOfRange   (* result.append(str, start, ...) *)
      else match replace_loop (S (length s)) (drop start s) from to (take start s) with
      | Some r => Done r
      | None => UB
      end
  end.

(** The loop of the version for a single character: the search always starts at
    [start] again, and a zero [to] erases the character. *)
Fixpoint replace_char_loop (fuel : nat) (s : list Z) (from to : Z) (start : nat) : option (list Z) :=
  match fuel with
  | O => None
  | S f =>
      match find_char (drop start s) from with
      | Some off =>
          let pos := (start + off)%nat in
          replace_char_loop f
            (if negb (to =? 0) then <[pos := to]> s else take pos s ++ drop (S pos) s) from to start
      | None => Some s
      end
  end.

Definition replaceInPlace_char (s : list Z) (from to : Z) (start : nat) : res (list Z) :=
  if from =? to then Done s
  else match replace_char_loop (S (length s)) s from to start with
       | Some r => Done r
       | None => UB
       end.

Definition removeInPlace (s : list Z) (ch : Z) (start : nat) : res (list Z) :=
  replaceInPlace_char s ch 0 start.

(** *** Case-insensitive search *)

Definition i_eq (c1 c2 : Z) : bool := Ascii.toLower c1 =? Ascii.toLower c2.

Fixpoint i_prefix (p s : list Z) : bool :=
  match p, s with
  | [], _ => true
  | a :: p', b :: s' => i_eq b a && i_prefix p' s'
  | _ :: _, [] => false
  end.

(** [std::search] with [i_char_traits::eq]; [None] is [end]. *)
Fixpoint i_search (s sought : list Z) : option nat :=
  if i_prefix sought s then Some O
  else match s with
       | [] => None
       | _ :: r => S <$> i_search r sought
       end.

(** [None] is [npos]; a match at the very end is taken for no match. *)
Definition isubstr (s sought : list Z) : option nat :=
  match i_search s sought with
  | Some p => if (p =? length s)%nat then None else Some p
  | None => None
  end.

(** *** Concatenation of a sequence *)

Definition cat (delim : list Z) (l : list (list Z)) : list Z :=
  foldl (fun result x => (match result with [] => result | _ => result ++ delim end) ++ x) [] l.

(** *** Lemmas on trimming *)

Definition all_space (s : list Z) : Prop := Forall (fun c => Ascii.isSpace c = true) s.

Lemma first_nonspace_spec s fuel first n :
  (first <= n <= length s)%nat -> (n - first <= fuel)%nat ->
  let f := first_nonspace s fuel first n in
  (first <= f <= n)%nat /\
  (forall i, (first <= i < f)%nat -> space_at s i = true) /\
  (f = n \/ space_at s f = false).
Proof.
  revert first. induction fuel as [|fuel IH]; intros first Hn Hf; simpl.
  { split_and!; [lia|lia| |left; lia]. intros. lia. }
  destruct (first <? n)%nat eqn:E; simpl; [|split_and!; [lia|lia| |left; lia]; intros; lia].
  destruct (space_at s first) eqn:Es; [|split_and!; [lia|lia| |by right]; intros; lia].
  destruct (IH (S first)) as (H1 & H2 & H3); [lia..|].
  split_and!; [lia|lia| |done]. intros i Hi.
  destruct (decide (i = first)) as [->|]; [done|]. apply H2. lia.
Qed.

Lemma last_nonspace_spec s lo n :
  (lo <= n <= length s)%nat ->
  let m := last_nonspace s lo n in
  (lo <= m <= n)%nat /\
  (forall i, (m <= i < n)%nat -> space_at s i = true) /\
  (m = lo \/ space_at s (m - 1) = false).
Proof.
  induction n as [|p IH]; intros Hn; simpl; [split_and!; [lia|lia| |left; lia]; intros; lia|].
  destruct (lo <=? p)%nat eqn:E; simpl; [|split_and!; [lia|lia| |left; lia]; intros; lia].
  destruct (space_at s p) eqn:Es.
  - destruct IH as (H1 & H2 & H3); [lia|]. split_and!; [lia|lia| |done]. intros i Hi.
    destruct (decide (i = p)) as [->|]; [done|]. apply H2. lia.
  - split_and!; [lia|lia| |]; [intros; lia|]. right. by replace (S p - 1)%nat with p by lia.
Qed.

Lemma all_space_segment s i j :
  (forall k, (i <= k < j)%nat -> space_at s k = true) -> all_space (take (j - i) (drop i s)).
Proof.
  intros H. apply Forall_lookup. intros k c [Hc Hk]%lookup_take_Some.
  rewrite lookup_drop in Hc. specialize (H (i + k)%nat ltac:(lia)).
  unfold space_at in H. by rewrite Hc in H.
Qed.

(** The parts trimmed away are white space, what is left has none at its ends. *)
Lemma trim_decompose s :
  exists l r, s = l ++ trim s ++ r /\ all_space l /\ all_space r /\
    space_at (trim s) 0 = false /\ space_at (trim s) (length (trim s) - 1) = false.
Proof.
  unfold trim. set (f := first_nonspace s (length s) 0 (length s)).
  set (m := last_nonspace s f (length s)).
  destruct (first_nonspace_spec s (length s) 0 (length s)) as (F1 & F2 & F3); [lia..|]. fold f in F1, F2, F3.
  destruct (last_nonspace_spec s f (length s)) as (M1 & M2 & M3); [lia|]. fold m in M1, M2, M3.
  clearbody m. clearbody f.
  exists (take f s), (drop m s).
  assert (Hr : drop m s = take (length s - m) (drop m s)).
  { rewrite take_ge; [done|]. rewrite length_drop. lia. }
  split_and!.
  - rewrite <-(take_drop f s) at 1. f_equal.
    rewrite <-(take_drop (m - f) (drop f s)) at 1. f_equal. rewrite drop_drop. f_equal. lia.
  - replace (take f s) with (take (f - 0) (drop 0 s)) by (by rewrite drop_0, Nat.sub_0_r).
    by apply all_space_segment.
  - rewrite Hr. by apply all_space_segment.
  - unfold space_at at 1. destruct (_ !! _) as [c|] eqn:Hc; [|done].
    apply lookup_take_Some in Hc as [Hc Hlt]. rewrite lookup_drop, Nat.add_0_r in Hc.
    destruct F3 as [F3|F3]; [lia|]. unfold space_at in F3. by rewrite Hc in F3.
  - unfold space_at at 1. destruct (_ !! _) as [c|] eqn:Hc; [|done].
    apply lookup_take_Some in Hc as [Hc Hlt]. rewrite length_take, length_drop, lookup_drop in *.
    destruct M3 as [M3|M3]; [lia|]. unfold space_at in M3.
    replace (f + ((m - f) `min` (length s - f) - 1))%nat with (m - 1)%nat in Hc by lia.
    by rewrite Hc in M3.
Qed.

Lemma trimInPlace_trim s : trimInPlace s = trim s.
Proof.
  unfold trimInPlace, trim. rewrite skipn_firstn_comm. done.
Qed.

Lemma trimLeft_drop s : trimLeft s = trimLeftInPlace s.
Proof.
  unfold trimLeftInPlace.
  enough (forall pre r n, n = length (pre ++ r) ->
            trimLeft r = drop (first_nonspace (pre ++ r) (length r) (length pre) n) (pre ++ r)) as H
    by exact (H [] s (length s) eq_refl).
  intros pre r. revert pre. induction r as [|c r IH]; intros pre n Hn.
  - simpl. by rewrite drop_app_length.
  - cbn [length first_nonspace trimLeft]. rewrite (proj2 (Nat.ltb_lt _ _))
      by (subst n; rewrite length_app; simpl; lia).
    unfold space_at. rewrite lookup_app_r, Nat.sub_diag by lia. cbn.
    destruct (Ascii.isSpace c); [|by rewrite drop_app_length].
    rewrite (IH (pre ++ [c]) n) by (by rewrite <-app_assoc).
    rewrite length_app, <-app_assoc. simpl. by rewrite Nat.add_1_r.
Qed.

(** *** Lemmas on the comparison *)

Lemma icompare_range_value s1 s2 : -1 <= icompare s1 s2 <= 1.
Proof.
  revert s2. induction s1 as [|a r1 IH]; intros [|b r2]; simpl; [lia..|].
  repeat case_match; [lia..|apply IH].
Qed.

Lemma icompare_opp s1 s2 : icompare s2 s1 = - icompare s1 s2.
Proof.
  revert s2. induction s1 as [|a r1 IH]; intros [|b r2]; simpl; [done..|].
  set (x := s8 (Ascii.toLower a)). set (y := s8 (Ascii.toLower b)).
  destruct (Z.lt_trichotomy x y) as [|[->|]]; repeat case_match; lia || apply IH.
Qed.

Lemma icompare_trans a b c :
  icompare a b <= 0 -> icompare b c <= 0 ->
  icompare a c <= 0 /\ (icompare a b < 0 \/ icompare b c < 0 -> icompare a c < 0).
Proof.
  revert b c. induction a as [|x a IH]; intros [|y b] [|z c]; simpl; try lia.
  set (x' := s8 (Ascii.toLower x)). set (y' := s8 (Ascii.toLower y)). set (z' := s8 (Ascii.toLower z)).
  specialize (IH b c).
  destruct (x' <? y') eqn:E1, (x' >? y') eqn:E2, (y' <? z') eqn:E3, (y' >? z') eqn:E4,
    (x' <? z') eqn:E5, (x' >? z') eqn:E6; lia.
Qed.

Lemma s8_inj x y : is_byte x -> is_byte y -> s8 x = s8 y -> x = y.
Proof. unfold is_byte, s8, swrap. simpl. lia. Qed.

Lemma icompare_zero s1 s2 :
  Forall is_byte s1 -> Forall is_byte s2 -> (icompare s1 s2 = 0 <-> toLower s1 = toLower s2).
Proof.
  intros H1. revert s2. induction H1 as [|a r1 Ha H1 IH]; intros [|b r2] H2; simpl; try done.
  inv_Forall. pose proof (Ascii.toLower_byte a Ha) as La.
  assert (Lb : is_byte (Ascii.toLower b)) by (by apply Ascii.toLower_byte).
  pose proof (s8_inj _ _ La Lb) as Hinj.
  destruct (_ <? _) eqn:E1; [split; [done|intros [= E _]; rewrite E in E1; lia]|].
  destruct (_ >? _) eqn:E2; [split; [done|intros [= E _]; rewrite E in E2; lia]|].
  rewrite IH by done. split; [intros ->; f_equal; apply Hinj; lia|by intros [= _ ->]].
Qed.

(** *** Lemmas on replacement *)

Lemma is_prefix_spec p s : is_prefix p s = true <-> exists r, s = p ++ r.
Proof.
  revert s. induction p as [|a p IH]; intros s; simpl; [split; [by exists s|done]|].
  destruct s as [|b s]; [split; [done|intros [r [=]]]|].
  rewrite andb_true_iff, Z.eqb_eq, IH. split.
  - intros [-> [r ->]]. by exists r.
  - intros [r [= -> ->]]. eauto.
Qed.

(** [s] splits at its first occurrence of [pat]. *)
Definition first_occurrence (pat pre post s : list Z) : Prop :=
  s = pre ++ pat ++ post /\
  forall pre' post', s = pre' ++ pat ++ post' -> (length pre <= length pre')%nat.

Lemma find_sub_Some pat s k :
  find_sub pat s = Some k ->
  first_occurrence pat (take k s) (drop (k + length pat) s) s /\ (k + length pat <= length s)%nat.
Proof.
  revert k. induction s as [|c s IH]; intros k; simpl.
  - destruct (is_prefix pat []) eqn:E; [|done]. intros [= <-].
    apply is_prefix_spec in E as [r E]. symmetry in E. apply app_nil in E as [-> ->].
    split; [|simpl; lia]. split; [done|]. intros. simpl. lia.
  - destruct (is_prefix pat (c :: s)) eqn:E.
    + intros [= <-]. apply is_prefix_spec in E as [r E].
      split; [|apply (f_equal length) in E; rewrite length_app in E; simpl in *; lia].
      rewrite E. cbn [take Nat.add]. rewrite drop_app_length.
      split; [done|]. intros. simpl. lia.
    + intros (k' & Hk & ->)%fmap_Some. destruct (IH k' Hk) as ((H1 & H2) & H3).
      split; [|simpl; lia]. split; [simpl; by rewrite H1 at 1|].
      intros [|c' pre'] post' Hs.
      * exfalso. assert (is_prefix pat (c :: s) = true) by (apply is_prefix_spec; by exists post').
        congruence.
      * simpl in Hs. injection Hs as -> Hs. specialize (H2 _ _ Hs). simpl. lia.
Qed.

Lemma find_sub_None pat s : find_sub pat s = None -> forall pre post, s <> pre ++ pat ++ post.
Proof.
  induction s as [|c s IH]; simpl; destruct (is_prefix pat _) eqn:E; try done.
  - intros _ pre post Hs. symmetry in Hs. apply app_nil in Hs as [-> Hs].
    apply app_nil in Hs as [-> ->]. done.
  - intros Hf%fmap_None pre post Hs. destruct pre as [|c' pre]; simpl in Hs.
    + assert (is_prefix pat (c :: s) = true) by (apply is_prefix_spec; by exists post). congruence.
    + injection Hs as -> Hs. by apply (IH Hf pre post).
Qed.

(** The specification of replacement: cut at the occurrences of [from], left
    to right and without overlap, and put [to] in their place. *)
Inductive replaced (from to : list Z) : list Z -> list Z -> Prop :=
| replaced_none s : (forall pre post, s <> pre ++ from ++ post) -> replaced from to s s
| replaced_one pre post s r :
    first_occurrence from pre post s -> replaced from to post r ->
    replaced from to s (pre ++ to ++ r).

Lemma replace_loop_spec fuel rest from to result :
  from <> [] -> (length rest < fuel)%nat ->
  exists r, replace_loop fuel rest from to result = Some (result ++ r) /\ replaced from to rest r.
Proof.
  intros Hf. revert rest result. induction fuel as [|fuel IH]; intros rest result Hl; [lia|]. simpl.
  destruct (find_sub from rest) as [k|] eqn:E.
  - destruct (find_sub_Some _ _ _ E) as [Ho Hk].
    destruct (IH (drop (k + length from) rest) (result ++ take k rest ++ to)) as (r & -> & Hr).
    { rewrite length_drop. destruct from; [done|]. simpl in *. lia. }
    exists (take k rest ++ to ++ r). rewrite <-!app_assoc. split; [done|]. by econstructor.
  - exists rest. split; [done|]. constructor. by apply find_sub_None.
Qed.
(** *** Lemmas on replacing characters *)

(** What replacing a character gives, from a position on. *)
Definition subst_char (from to : Z) (l : list Z) : list Z :=
  concat (map (fun c => if c =? from then (if to =? 0 then [] else [to]) else [c]) l).

Lemma find_char_Some l c off :
  find_char l c = Some off ->
  exists pre post, l = pre ++ c :: post /\ length pre = off /\ Forall (fun x => x <> c) pre.
Proof.
  revert off. induction l as [|x l IH]; intros off; simpl; [done|].
  destruct (Z.eqb_spec x c) as [->|Hx].
  - injection 1 as <-. by exists [], l.
  - intros (k & Hk & ->)%fmap_Some. destruct (IH k Hk) as (pre & post & -> & <- & Hp).
    exists (x :: pre), post. auto.
Qed.

Lemma find_char_None l c : find_char l c = None -> Forall (fun x => x <> c) l.
Proof.
  induction l as [|x l IH]; simpl; [done|]. destruct (Z.eqb_spec x c); [done|].
  intros H%fmap_None. auto.
Qed.

Lemma subst_char_other from to l : Forall (fun x => x <> from) l -> subst_char from to l = l.
Proof.
  induction 1 as [|x l Hx Hl IH]; [done|]. unfold subst_char. cbn [map concat].
  rewrite (proj2 (Z.eqb_neq _ _) Hx). cbn [app]. f_equal. exact IH.
Qed.

Lemma subst_char_app from to a b : subst_char from to (a ++ b) = subst_char from to a ++ subst_char from to b.
Proof. unfold subst_char. by rewrite map_app, concat_app. Qed.

Lemma insert_middle (pre post : list Z) c to : <[length pre := to]> (pre ++ c :: post) = pre ++ to :: post.
Proof. rewrite insert_app_r_alt, Nat.sub_diag by lia. done. Qed.

Lemma replace_char_loop_spec fuel head tail from to :
  from <> to -> (length (filter (fun x => x = from) tail) < fuel)%nat ->
  replace_char_loop fuel (head ++ tail) from to (length head) = Some (head ++ subst_char from to tail).
Proof.
  intros Hne. revert tail. induction fuel as [|f IH]; intros tail Hf; [lia|].
  cbn [replace_char_loop]. rewrite drop_app_length.
  destruct (find_char tail from) as [off|] eqn:E.
  - apply find_char_Some in E as (pre & post & -> & <- & Hp).
    assert (forall t, (length (filter (fun x => x = from) t) <
                       length (filter (fun x => x = from) (pre ++ from :: post)))%nat ->
      subst_char from to t = subst_char from to (pre ++ from :: post) ->
      replace_char_loop f (head ++ t) from to (length head) =
        Some (head ++ subst_char from to (pre ++ from :: post))) as Hstep
      by (intros t Ht <-; apply IH; lia).
    destruct (Z.eqb_spec to 0) as [E0|E0]; cbn [negb].
    + replace (take _ _ ++ drop _ _) with (head ++ (pre ++ post)).
      * apply Hstep; [rewrite !list.filter_app, !length_app, filter_cons_True by done; simpl; lia|].
        rewrite !subst_char_app. f_equal. unfold subst_char. cbn [map concat].
        by rewrite Z.eqb_refl, E0.
      * rewrite take_app_add, take_app_length. rewrite <-Nat.add_succ_r, drop_app_add.
        replace (S (length pre)) with (length (pre ++ [from])) by (rewrite length_app; simpl; lia).
        rewrite (app_assoc pre [from] post : pre ++ from :: post = _), drop_app_length.
        by rewrite <-app_assoc.
    + rewrite insert_app_r, insert_middle. apply Hstep.
      * rewrite !list.filter_app, !length_app, (filter_cons_False _ to), (filter_cons_True _ from) by congruence. simpl. lia.
      * rewrite !subst_char_app. f_equal. unfold subst_char. cbn [map concat].
        rewrite Z.eqb_refl. rewrite (proj2 (Z.eqb_neq to from)), (proj2 (Z.eqb_neq to 0)) by done. done.
  - by rewrite subst_char_other by (by apply find_char_None).
Qed.

End Str.

(** ** Theorems *)

(** [trim] removes exactly the white space at both ends: the removed parts
    are white space and what is left neither starts nor ends with it; the
    in-place variants give the same strings as the copying ones. *)
Theorem trim_correct s :
  Str.trimLeftInPlace s = Str.trimLeft s /\ Str.trimRightInPlace s = Str.trimRight s /\
  Str.trimInPlace s = Str.trim s /\
  exists l r, s = l ++ Str.trim s ++ r /\ Str.all_space l /\ Str.all_space r /\
    Str.space_at (Str.trim s) 0 = false /\
    Str.space_at (Str.trim s) (length (Str.trim s) - 1) = false.
Proof.
  split_and!; [by rewrite Str.trimLeft_drop|done|apply Str.trimInPlace_trim|apply Str.trim_decompose].
Qed.

(** The comparison behind the case-insensitive maps ([CILess]) is a strict
    weak order, and two byte strings are equivalent for it exactly when they
    have the same lower-case form. *)
Theorem CILess_strict_weak_order :
  (forall a, Str.CILess a a = false) /\
  (forall a b c, Str.CILess a b = true -> Str.CILess b c = true -> Str.CILess a c = true) /\
  (forall a b, Str.CILess a b = true -> Str.CILess b a = false) /\
  (forall a b, Forall is_byte a -> Forall is_byte b ->
     (Str.CILess a b = false /\ Str.CILess b a = false) <-> Str.toLower a = Str.toLower b).
Proof.
  unfold Str.CILess. split_and!.
  - intros a. pose proof (Str.icompare_opp a a). lia.
  - intros a b c H1 H2. destruct (Str.icompare_trans a b c); lia.
  - intros a b H. pose proof (Str.icompare_opp a b). lia.
  - intros a b Ha Hb. rewrite <-Str.icompare_zero by done. pose proof (Str.icompare_opp a b). lia.
Qed.

(** [replaceInPlace] terminates for every non-empty search string and every
    start position inside the string, leaves the part before it alone and
    replaces the occurrences after it from left to right without overlap. *)
Theorem replaceInPlace_correct s from to start :
  from <> [] -> (start <= length s)%nat ->
  exists r, Str.replaceInPlace s from to start = Done (take start s ++ r) /\
    Str.replaced from to (drop start s) r.
Proof.
  intros Hf Hs. unfold Str.replaceInPlace. destruct from as [|c from]; [done|].
  rewrite (proj2 (Nat.ltb_ge _ _)) by done.
  destruct (Str.replace_loop_spec (S (length s)) (drop start s) (c :: from) to (take start s))
    as (r & -> & Hr); [done|rewrite length_drop; lia|]. eauto.
Qed.

Lemma replaceInPlace_correct_witness :
  exists r, Str.replaceInPlace (str "banana") (str "an") (str "AN") 2 = Done (take 2 (str "banana") ++ r) /\
    Str.replaced (str "an") (str "AN") (drop 2 (str "banana")) r.
Proof. apply (replaceInPlace_correct (str "banana") (str "an") (str "AN") 2); [done|simpl; lia]. Defined.

(** Replacing a character from a position on terminates and maps every
    occurrence from there, and only there: to the new character, or to nothing
    when it is zero; past the end it changes nothing. *)
Theorem replaceInPlace_char_correct s from to start :
  Str.replaceInPlace_char s from to start =
    Done (take start s ++ (if from =? to then drop start s else Str.subst_char from to (drop start s))).
Proof.
  unfold Str.replaceInPlace_char. destruct (Z.eqb_spec from to); [by rewrite take_drop|].
  destruct (decide (start <= length s)%nat) as [Hle|Hgt].
  - pose proof (Str.replace_char_loop_spec (S (length s)) (take start s) (drop start s) from to n) as H.
    rewrite length_take, Nat.min_l, take_drop in H by done. rewrite H; [done|].
    pose proof (list.length_filter (fun x => x = from) (drop start s)). rewrite length_drop in *. lia.
  - cbn [Str.replace_char_loop]. rewrite drop_ge, take_ge by lia. simpl. by rewrite app_nil_r.
Qed.
