(* ===== verification/NumericString.v ===== *)
(** Integers and their text (Poco/NumericString.h, NumberParser, NumberFormatter).

    [strToInt] and [intToStr] are the two templates, over a description of the
    integer type they are instantiated with: arithmetic outside the range of a
    signed type is undefined, an unsigned one wraps.  [Parser] and [Formatter]
    are the NumberParser and NumberFormatter entry points for 32- and 64-bit
    integers. *)

From S2P Require Import Prelude Strings.

Open Scope res_scope.

(** ** Integer types *)

Record int_type := { imin : Z; imax : Z }.

Definition Int32 : int_type := {| imin := - 2 ^ 31; imax := 2 ^ 31 - 1 |}.
Definition UInt32 : int_type := {| imin := 0; imax := 2 ^ 32 - 1 |}.
Definition Int64 : int_type := {| imin := - 2 ^ 63; imax := 2 ^ 63 - 1 |}.
Definition UInt64 : int_type := {| imin := 0; imax := 2 ^ 64 - 1 |}.

(** The value of an arithmetic expression of the type. *)
Definition arith (I : int_type) (z : Z) : res Z :=
  if (imin I <=? z) && (z <=? imax I) then Done z
  else if imin I <? 0 then UB
  else Done (z mod (imax I + 1)).

(** ** Text to integer *)

Definition isspace (c : Z) : bool := (c =? 32) || ((9 <=? c) && (c <=? 13)).

(** The characters of a C string: up to the first NUL. *)
Fixpoint c_str (s : list Z) : list Z :=
  match s with
  | [] => []
  | c :: r => if c =? 0 then [] else c :: c_str r
  end.

Fixpoint skip_space (s : list Z) : list Z :=
  match s with
  | c :: r => if isspace c then skip_space r else s
  | [] => []
  end.

Definition between (lo c hi : Z) : bool := (lo <=? c) && (c <=? hi).

(** The [for] loop with its [switch]; [state]: a significant digit was seen.
    [Done (Some r)] is the jump to [done], [Done None] is [return false]. *)
Fixpoint strToInt_loop (I : int_type) (base thSep : Z) (state : bool) (result : Z) (s : list Z)
    : res (option Z) :=
  match s with
  | [] => Done (Some result)
  | c :: r =>
      let digit d :=
        if result >? imax I / base then Done None
        else let? v := arith I (result * base + d) in strToInt_loop I base thSep true v r in
      let skip (_ : unit) := strToInt_loop I base thSep state result r in
      if (c =? chr "x") || (c =? chr "X") then
        if negb (base =? 0x10) then Done None
        else if negb state then skip tt else digit (c - chr "0")
      else if c =? chr "0" then if negb state then skip tt else digit (c - chr "0")
      else if between (chr "1") c (chr "7") then digit (c - chr "0")
      else if (c =? chr "8") || (c =? chr "9") then
        if (base =? 10) || (base =? 0x10) then digit (c - chr "0") else Done None
      else if between (chr "a") c (chr "f") then
        if negb (base =? 0x10) then Done None else digit (10 + c - chr "a")
      else if between (chr "A") c (chr "F") then
        if negb (base =? 0x10) then Done None else digit (10 + c - chr "A")
      else if (c =? chr "U") || (c =? chr "u") || (c =? chr "L") || (c =? chr "l") then
        Done (Some result)
      else if c =? chr "." then
        if (base =? 10) && (thSep =? chr ".") then skip tt else Done None
      else if c =? chr "," then
        if (base =? 10) && (thSep =? chr ",") then skip tt else Done None
      else if c =? chr " " then
        if (base =? 10) && (thSep =? chr " ") then skip tt else Done (Some result)
      else if between 9 c 13 then Done (Some result)
      else Done None
  end.

(** [Done (Some v)]: [true] with the result [v]; [Done None]: [false]. *)
Definition strToInt (I : int_type) (str : list Z) (base thSep : Z) : res (option Z) :=
  match skip_space (c_str str) with
  | [] => Done None
  | c :: r =>
      let neg := (base =? 10) && (c =? chr "-") in
      let s := if neg then r else if c =? chr "+" then r else c :: r in
      let? o := strToInt_loop I base thSep false 0 s in
      match o with
      | None => Done None
      | Some v => if neg then let? v' := arith I (- v) in Done (Some v') else Done (Some v)
      end
  end.

(** ** Integer to text *)

(** [*ptr++ = c] on a buffer of [size] characters, through the range check of
    [Impl::Ptr]. *)
Definition put (size : nat) (c : Z) (buf : list Z) : res (list Z) :=
  if (length buf <? size)%nat then Done (buf ++ [c]) else Raise RangeException.

Definition DIGITS : list Z := str "FEDCBA9876543210123456789ABCDEF".

(** The do-while loop: the characters so far, least significant first, and
    [tmpVal], the last value that was divided. *)
Fixpoint digit_loop (fuel : nat) (size : nat) (base thSep value : Z) (thCount : Z) (buf : list Z)
    : res (list Z * Z) :=
  match fuel with
  | O => UB
  | S f =>
      let value' := Z.quot value base in
      let? buf := put size (nth (Z.to_nat (15 + (value - value' * base))) DIGITS 0) buf in
      let sep := negb (thSep =? 0) && (base =? 10) in
      let thCount := if sep then thCount + 1 else thCount in
      let? buf := if sep && (thCount =? 3) then put size thSep buf else Done buf in
      let thCount := if sep && (thCount =? 3) then 0 else thCount in
      if value' =? 0 then Done (buf, value) else digit_loop f size base thSep value' thCount buf
  end.

(** [while ((ptr - result) < width) *ptr++ = fill;] *)
Fixpoint pad (n : nat) (size : nat) (fill : Z) (buf : list Z) : res (list Z) :=
  match n with
  | O => Done buf
  | S n => let? buf := put size fill buf in pad n size fill buf
  end.

Definition pad_to (width : Z) (size : nat) (fill : Z) (buf : list Z) : res (list Z) :=
  pad (Z.to_nat (width - Z.of_nat (length buf))) size fill buf.

(** The digits take at most 64 rounds: 64-bit values, base 2 or more. *)
Definition MAX_DIGITS : nat := 65.

(** [size] is the size of the character array; the result is the text and the
    terminating NUL is stored after it. *)
Definition intToStr (value base : Z) (size : nat) (prefix : bool) (width fill thSep : Z)
    : res (option (list Z)) :=
  if (base <? 2) || (0x10 <? base) then Done None
  else
    let? p := digit_loop MAX_DIGITS size base thSep value 0 [] in
    let '(buf, tmpVal) := p in
    let width := if fill =? chr "0" then
                   width - (if tmpVal <? 0 then 1 else 0)
                   - (if prefix && (base =? 8) then 1 else 0)
                   - (if prefix && (base =? 0x10) then 2 else 0)
                 else width in
    let? buf := if fill =? chr "0" then pad_to width size fill buf else Done buf in
    let? buf := if prefix && (base =? 8) then put size (chr "0") buf
                else if prefix && (base =? 0x10) then
                  let? buf := put size (chr "x") buf in put size (chr "0") buf
                else Done buf in
    let? buf := if tmpVal <? 0 then put size (chr "-") buf else Done buf in
    let? buf := if negb (fill =? chr "0") then pad_to width size fill buf else Done buf in
    (* *ptr-- = '\0' *)
    if (length buf <? size)%nat then Done (Some (rev buf)) else UB.

(** The unsigned variant: the same text without the sign. *)
Definition uIntToStr (value base : Z) (size : nat) (prefix : bool) (width fill thSep : Z)
    : res (option (list Z)) :=
  if (base <? 2) || (0x10 <? base) then Done None
  else
    let? p := digit_loop MAX_DIGITS size base thSep value 0 [] in
    let '(buf, tmpVal) := p in
    let width := if fill =? chr "0" then
                   width - (if prefix && (base =? 8) then 1 else 0)
                   - (if prefix && (base =? 0x10) then 2 else 0)
                 else width in
    let? buf := if fill =? chr "0" then pad_to width size fill buf else Done buf in
    let? buf := if prefix && (base =? 8) then put size (chr "0") buf
                else if prefix && (base =? 0x10) then
                  let? buf := put size (chr "x") buf in put size (chr "0") buf
                else Done buf in
    let? buf := if negb (fill =? chr "0") then pad_to width size fill buf else Done buf in
    if (length buf <? size)%nat then Done (Some (rev buf)) else UB.

(** ** NumberFormatter *)

Module Formatter.
Definition NF_MAX_INT_STRING_LEN : nat := 32.
Definition POCO_MAX_INT_STRING_LEN : nat := 65.

(** [str.append(result, sz)] and [result.assign(res, size)] with the text. *)
Definition appended (s : list Z) (r : res (option (list Z))) : res (list Z) :=
  let? t := r in match t with Some t => Done (s ++ t) | None => UB end.

Definition format_int (value : Z) : res (list Z) :=
  appended [] (intToStr value 10 POCO_MAX_INT_STRING_LEN false (-1) (chr " ") 0).
Definition format_int_width (value width : Z) : res (list Z) :=
  appended [] (intToStr value 10 POCO_MAX_INT_STRING_LEN false width (chr " ") 0).
Definition format0_int (value width : Z) : res (list Z) :=
  appended [] (intToStr value 10 POCO_MAX_INT_STRING_LEN false width (chr "0") 0).
Definition formatHex_int (value : Z) (prefix : bool) : res (list Z) :=
  appended [] (uIntToStr (u32 value) 0x10 POCO_MAX_INT_STRING_LEN prefix (-1) (chr " ") 0).
Definition formatHex_int_width (value width : Z) (prefix : bool) : res (list Z) :=
  appended [] (uIntToStr (u32 value) 0x10 POCO_MAX_INT_STRING_LEN prefix width (chr "0") 0).
Definition append_int (s : list Z) (value : Z) : res (list Z) :=
  appended s (intToStr value 10 NF_MAX_INT_STRING_LEN false (-1) (chr " ") 0).
Definition append_int_width (s : list Z) (value width : Z) : res (list Z) :=
  appended s (intToStr value 10 NF_MAX_INT_STRING_LEN false width (chr " ") 0).
Definition append0_int (s : list Z) (value width : Z) : res (list Z) :=
  appended s (intToStr value 10 NF_MAX_INT_STRING_LEN false width (chr "0") 0).
Definition appendHex_int (s : list Z) (value : Z) : res (list Z) :=
  appended s (uIntToStr (u32 value) 0x10 NF_MAX_INT_STRING_LEN false (-1) (chr " ") 0).
Definition appendHex_int_width (s : list Z) (value width : Z) : res (list Z) :=
  appended s (uIntToStr (u32 value) 0x10 NF_MAX_INT_STRING_LEN false width (chr "0") 0).

Definition format_unsigned (value : Z) : res (list Z) :=
  appended [] (uIntToStr value 10 POCO_MAX_INT_STRING_LEN false (-1) (chr " ") 0).
Definition format_unsigned_width (value width : Z) : res (list Z) :=
  appended [] (uIntToStr value 10 POCO_MAX_INT_STRING_LEN false width (chr " ") 0).
Definition format0_unsigned (value width : Z) : res (list Z) :=
  appended [] (uIntToStr value 10 POCO_MAX_INT_STRING_LEN false width (chr "0") 0).
Definition formatHex_unsigned (value : Z) (prefix : bool) : res (list Z) :=
  appended [] (uIntToStr value 0x10 POCO_MAX_INT_STRING_LEN prefix (-1) (chr " ") 0).
Definition formatHex_unsigned_width (value width : Z) (prefix : bool) : res (list Z) :=
  appended [] (uIntToStr value 0x10 POCO_MAX_INT_STRING_LEN prefix width (chr "0") 0).
Definition append_unsigned (s : list Z) (value : Z) : res (list Z) :=
  appended s (uIntToStr value 10 NF_MAX_INT_STRING_LEN false (-1) (chr " ") 0).
Definition append_unsigned_width (s : list Z) (value width : Z) : res (list Z) :=
  appended s (uIntToStr value 10 NF_MAX_INT_STRING_LEN false width (chr " ") 0).
Definition append0_unsigned (s : list Z) (value width : Z) : res (list Z) :=
  appended s (uIntToStr value 10 NF_MAX_INT_STRING_LEN false width (chr "0") 0).
Definition appendHex_unsigned (s : list Z) (value : Z) : res (list Z) :=
  appended s (uIntToStr value 0x10 NF_MAX_INT_STRING_LEN false (-1) (chr " ") 0).
Definition appendHex_unsigned_width (s : list Z) (value width : Z) : res (list Z) :=
  appended s (uIntToStr value 0x10 NF_MAX_INT_STRING_LEN false width (chr "0") 0).

Definition format_Int64 (value : Z) : res (list Z) :=
  appended [] (intToStr value 10 POCO_MAX_INT_STRING_LEN false (-1) (chr " ") 0).
Definition format_Int64_width (value width : Z) : res (list Z) :=
  appended [] (intToStr value 10 POCO_MAX_INT_STRING_LEN false width (chr " ") 0).
Definition format0_Int64 (value width : Z) : res (list Z) :=
  appended [] (intToStr value 10 POCO_MAX_INT_STRING_LEN false width (chr "0") 0).
Definition formatHex_Int64 (value : Z) (prefix : bool) : res (list Z) :=
  appended [] (uIntToStr (u64 value) 0x10 POCO_MAX_INT_STRING_LEN prefix (-1) (chr " ") 0).
Definition formatHex_Int64_width (value width : Z) (prefix : bool) : res (list Z) :=
  appended [] (uIntToStr (u64 value) 0x10 POCO_MAX_INT_STRING_LEN prefix width (chr "0") 0).
Definition append_Int64 (s : list Z) (value : Z) : res (list Z) :=
  appended s (intToStr value 10 NF_MAX_INT_STRING_LEN false (-1) (chr " ") 0).
Definition append_Int64_width (s : list Z) (value width : Z) : res (list Z) :=
  appended s (intToStr value 10 NF_MAX_INT_STRING_LEN false width (chr "0") 0).
Definition append0_Int64 (s : list Z) (value width : Z) : res (list Z) :=
  appended s (intToStr value 10 NF_MAX_INT_STRING_LEN false width (chr "0") 0).
Definition appendHex_Int64 (s : list Z) (value : Z) : res (list Z) :=
  appended s (uIntToStr (u64 value) 0x10 NF_MAX_INT_STRING_LEN false (-1) (chr " ") 0).
Definition appendHex_Int64_width (s : list Z) (value width : Z) : res (list Z) :=
  appended s (uIntToStr (u64 value) 0x10 NF_MAX_INT_STRING_LEN false width (chr "0") 0).

Definition format_UInt64 (value : Z) : res (list Z) :=
  appended [] (uIntToStr value 10 POCO_MAX_INT_STRING_LEN false (-1) (chr " ") 0).
Definition format_UInt64_width (value width : Z) : res (list Z) :=
  appended [] (uIntToStr value 10 POCO_MAX_INT_STRING_LEN false width (chr " ") 0).
Definition format0_UInt64 (value width : Z) : res (list Z) :=
  appended [] (uIntToStr value 10 POCO_MAX_INT_STRING_LEN false width (chr "0") 0).
Definition formatHex_UInt64 (value : Z) (prefix : bool) : res (list Z) :=
  appended [] (uIntToStr value 0x10 POCO_MAX_INT_STRING_LEN prefix (-1) (chr " ") 0).
Definition formatHex_UInt64_width (value width : Z) (prefix : bool) : res (list Z) :=
  appended [] (uIntToStr value 0x10 POCO_MAX_INT_STRING_LEN prefix width (chr "0") 0).
Definition append_UInt64 (s : list Z) (value : Z) : res (list Z) :=
  appended s (uIntToStr value 10 NF_MAX_INT_STRING_LEN false (-1) (chr " ") 0).
Definition append_UInt64_width (s : list Z) (value width : Z) : res (list Z) :=
  appended s (uIntToStr value 10 NF_MAX_INT_STRING_LEN false width (chr "0") 0).
Definition append0_UInt64 (s : list Z) (value width : Z) : res (list Z) :=
  appended s (uIntToStr value 10 NF_MAX_INT_STRING_LEN false width (chr "0") 0).
Definition appendHex_UInt64 (s : list Z) (value : Z) : res (list Z) :=
  appended s (uIntToStr value 0x10 NF_MAX_INT_STRING_LEN false (-1) (chr " ") 0).
Definition appendHex_UInt64_width (s : list Z) (value width : Z) : res (list Z) :=
  appended s (uIntToStr value 0x10 NF_MAX_INT_STRING_LEN false width (chr "0") 0).

(** The overloads for [long] and [unsigned long], which have 64 bits where
    POCO_LONG_IS_64_BIT is defined. *)
Definition format_long (value : Z) : res (list Z) :=
  appended [] (intToStr value 10 POCO_MAX_INT_STRING_LEN false (-1) (chr " ") 0).
Definition format_long_width (value width : Z) : res (list Z) :=
  appended [] (intToStr value 10 POCO_MAX_INT_STRING_LEN false width (chr " ") 0).
Definition format0_long (value width : Z) : res (list Z) :=
  appended [] (intToStr value 10 POCO_MAX_INT_STRING_LEN false width (chr "0") 0).
Definition formatHex_long (value : Z) (prefix : bool) : res (list Z) :=
  appended [] (uIntToStr (u64 value) 0x10 POCO_MAX_INT_STRING_LEN prefix (-1) (chr " ") 0).
Definition formatHex_long_width (value width : Z) (prefix : bool) : res (list Z) :=
  appended [] (uIntToStr (u64 value) 0x10 POCO_MAX_INT_STRING_LEN prefix width (chr "0") 0).
Definition append_long (s : list Z) (value : Z) : res (list Z) :=
  appended s (intToStr value 10 NF_MAX_INT_STRING_LEN false (-1) (chr " ") 0).
Definition append_long_width (s : list Z) (value width : Z) : res (list Z) :=
  appended s (intToStr value 10 NF_MAX_INT_STRING_LEN false width (chr " ") 0).
Definition append0_long (s : list Z) (value width : Z) : res (list Z) :=
  appended s (intToStr value 10 NF_MAX_INT_STRING_LEN false width (chr "0") 0).
Definition appendHex_long (s : list Z) (value : Z) : res (list Z) :=
  appended s (uIntToStr (u64 value) 0x10 NF_MAX_INT_STRING_LEN false (-1) (chr " ") 0).
Definition appendHex_long_width (s : list Z) (value width : Z) : res (list Z) :=
  appended s (uIntToStr (u64 value) 0x10 NF_MAX_INT_STRING_LEN false width (chr "0") 0).

Definition format_ulong (value : Z) : res (list Z) :=
  appended [] (uIntToStr value 10 POCO_MAX_INT_STRING_LEN false (-1) (chr " ") 0).
Definition format_ulong_width (value width : Z) : res (list Z) :=
  appended [] (uIntToStr value 10 POCO_MAX_INT_STRING_LEN false width (chr " ") 0).
Definition format0_ulong (value width : Z) : res (list Z) :=
  appended [] (uIntToStr value 10 POCO_MAX_INT_STRING_LEN false width (chr "0") 0).
Definition formatHex_ulong (value : Z) (prefix : bool) : res (list Z) :=
  appended [] (uIntToStr value 0x10 POCO_MAX_INT_STRING_LEN prefix (-1) (chr " ") 0).
Definition formatHex_ulong_width (value width : Z) (prefix : bool) : res (list Z) :=
  appended [] (uIntToStr value 0x10 POCO_MAX_INT_STRING_LEN prefix width (chr "0") 0).
Definition append_ulong (s : list Z) (value : Z) : res (list Z) :=
  appended s (uIntToStr value 10 NF_MAX_INT_STRING_LEN false (-1) (chr " ") 0).
Definition append_ulong_width (s : list Z) (value width : Z) : res (list Z) :=
  appended s (uIntToStr value 10 NF_MAX_INT_STRING_LEN false width (chr "0") 0).
Definition append0_ulong (s : list Z) (value width : Z) : res (list Z) :=
  appended s (uIntToStr value 10 NF_MAX_INT_STRING_LEN false width (chr "0") 0).
Definition appendHex_ulong (s : list Z) (value : Z) : res (list Z) :=
  appended s (uIntToStr value 0x10 NF_MAX_INT_STRING_LEN false (-1) (chr " ") 0).
Definition appendHex_ulong_width (s : list Z) (value width : Z) : res (list Z) :=
  appended s (uIntToStr value 0x10 NF_MAX_INT_STRING_LEN false width (chr "0") 0).

(** BoolFormat and the text of a truth value. *)
Inductive BoolFormat := FMT_TRUE_FALSE | FMT_YES_NO | FMT_ON_OFF.

Definition format_bool (value : bool) (format : BoolFormat) : list Z :=
  match format with
  | FMT_TRUE_FALSE => if value then str "true" else str "false"
  | FMT_YES_NO => if value then str "yes" else str "no"
  | FMT_ON_OFF => if value then str "on" else str "off"
  end.

End Formatter.

(** ** NumberParser *)

Module Parser.
Definition NUM_BASE_OCT : Z := 8.
Definition NUM_BASE_DEC : Z := 10.
Definition NUM_BASE_HEX : Z := 0x10.

Definition tryParse (s : list Z) (thSep : Z) : res (option Z) := strToInt Int32 s NUM_BASE_DEC thSep.
Definition tryParseUnsigned (s : list Z) (thSep : Z) : res (option Z) := strToInt UInt32 s NUM_BASE_DEC thSep.
Definition tryParseHex (s : list Z) : res (option Z) := strToInt UInt32 s NUM_BASE_HEX (chr ",").
Definition tryParseOct (s : list Z) : res (option Z) := strToInt UInt32 s NUM_BASE_OCT (chr ",").
Definition tryParse64 (s : list Z) (thSep : Z) : res (option Z) := strToInt Int64 s NUM_BASE_DEC thSep.
Definition tryParseUnsigned64 (s : list Z) (thSep : Z) : res (option Z) := strToInt UInt64 s NUM_BASE_DEC thSep.
Definition tryParseHex64 (s : list Z) : res (option Z) := strToInt UInt64 s NUM_BASE_HEX (chr ",").
Definition tryParseOct64 (s : list Z) : res (option Z) := strToInt UInt64 s NUM_BASE_OCT (chr ",").

(** [if (tryParse...(s, result)) return result; else throw SyntaxException(...)] *)
Definition or_syntax_error {A} (r : res (option A)) : res A :=
  let? o := r in match o with Some v => Done v | None => Raise SyntaxException end.

Definition parse (s : list Z) (thSep : Z) : res Z := or_syntax_error (tryParse s thSep).
Definition parseUnsigned (s : list Z) (thSep : Z) : res Z := or_syntax_error (tryParseUnsigned s thSep).
Definition parseHex (s : list Z) : res Z := or_syntax_error (tryParseHex s).
Definition parseOct (s : list Z) : res Z := or_syntax_error (tryParseOct s).
Definition parse64 (s : list Z) (thSep : Z) : res Z := or_syntax_error (tryParse64 s thSep).
Definition parseUnsigned64 (s : list Z) (thSep : Z) : res Z := or_syntax_error (tryParseUnsigned64 s thSep).
Definition parseHex64 (s : list Z) : res Z := or_syntax_error (tryParseHex64 s).
Definition parseOct64 (s : list Z) : res Z := or_syntax_error (tryParseOct64 s).

Definition tryParseBool (s : list Z) : res (option bool) :=
  let? n := tryParse s (chr ",") in
  match n with
  | Some n => Done (Some (negb (n =? 0)))
  | None =>
      if Str.icompare s (str "true") =? 0 then Done (Some true)
      else if Str.icompare s (str "yes") =? 0 then Done (Some true)
      else if Str.icompare s (str "on") =? 0 then Done (Some true)
      else if Str.icompare s (str "false") =? 0 then Done (Some false)
      else if Str.icompare s (str "no") =? 0 then Done (Some false)
      else if Str.icompare s (str "off") =? 0 then Done (Some false)
      else Done None
  end.

Definition parseBool (s : list Z) : res bool := or_syntax_error (tryParseBool s).
End Parser.

(** ** Lemmas *)

(** The character of a digit, and the value of a digit list, least significant first. *)
Definition digit_char (d : Z) : Z := nth (Z.to_nat (15 + d)) DIGITS 0.

Fixpoint value_lsb (b : Z) (ds : list Z) : Z :=
  match ds with
  | [] => 0
  | d :: r => d + b * value_lsb b r
  end.

(** The digits of a number in a base: in range, at least one, and no leading
    zero but for zero itself. *)
Definition is_digits (b : Z) (ds : list Z) : Prop :=
  Forall (fun d => 0 <= d < b) ds /\ ds <> [] /\ (ds = [0] \/ nth (length ds - 1) ds 0 <> 0).

Lemma nth_last_cons (d : Z) ds :
  ds <> [] -> nth (length (d :: ds) - 1) (d :: ds) 0 = nth (length ds - 1) ds 0.
Proof. destruct ds as [|d' ds]; [done|]. intros _. simpl. by rewrite Nat.sub_0_r. Qed.

Lemma value_lsb_bound b ds : 2 <= b -> Forall (fun d => 0 <= d < b) ds -> 0 <= value_lsb b ds.
Proof. intros Hb. induction 1; simpl; nia. Qed.

Lemma value_lsb_pos b ds : 2 <= b -> is_digits b ds -> ds <> [0] -> 0 < value_lsb b ds.
Proof.
  intros Hb (Hd & Hne & Hz) Hn0. destruct Hz as [|Hz]; [done|]. clear Hn0 Hne.
  induction Hd as [|d ds Hd Hds IH]; [done|]. destruct ds as [|d' ds].
  - simpl in *. lia.
  - rewrite nth_last_cons in Hz by done. specialize (IH Hz). cbn [value_lsb] in *. nia.
Qed.

Lemma ptr_put_ok size c buf : (length buf < size)%nat -> put size c buf = Done (buf ++ [c]).
Proof. intros H. unfold put. by rewrite (proj2 (Nat.ltb_lt _ _)). Qed.

Lemma digit_char_opp d : 0 <= d < 16 -> nth (Z.to_nat (15 + - d)) DIGITS 0 = digit_char d.
Proof.
  intros Hd. apply Z.eqb_eq.
  apply (allbelow_spec 16 (fun d => nth (Z.to_nat (15 + - d)) DIGITS 0 =? digit_char d));
    [by vm_compute|lia].
Qed.

(** The loop writes the digits of the magnitude, whatever the sign [s]. *)
Lemma digit_loop_spec n fuel size b s v buf :
  2 <= b <= 16 -> s = 1 \/ s = -1 -> 0 <= v < b ^ Z.of_nat n -> (0 < n <= fuel)%nat ->
  (length buf + n <= size)%nat ->
  exists ds top, digit_loop fuel size b 0 (s * v) 0 buf = Done (buf ++ map digit_char ds, s * top) /\
    0 <= top /\ (0 < v -> 0 < top) /\ is_digits b ds /\ value_lsb b ds = v /\ (length ds <= n)%nat.
Proof.
  intros Hb Hs. revert fuel v buf. induction n as [|n IH]; intros fuel v buf Hv Hf Hl; [lia|].
  destruct fuel as [|fuel]; [lia|]. cbn [digit_loop].
  assert (Hq : Z.quot (s * v) b = s * (v / b)).
  { destruct Hs as [->| ->]; [rewrite !Z.mul_1_l; apply Z.quot_div_nonneg; lia|].
    replace (-1 * v) with (- v) by lia. rewrite Z.quot_opp_l, Z.quot_div_nonneg by lia. lia. }
  assert (Hmod : 0 <= v - v / b * b < b) by (pose proof (Z.mod_pos_bound v b); rewrite Z.mod_eq in *; lia).
  rewrite Hq. set (d := v - v / b * b) in *.
  assert (Hc : nth (Z.to_nat (15 + (s * v - s * (v / b) * b))) DIGITS 0 = digit_char d).
  { destruct Hs as [->| ->]; [unfold digit_char; do 2 f_equal; unfold d; lia|].
    rewrite <-(digit_char_opp d) by lia. do 2 f_equal. unfold d. lia. }
  rewrite Hc, ptr_put_ok by lia. change (0 =? 0) with true. cbn [rbind negb andb]. cbv zeta iota.
  destruct (s * (v / b) =? 0) eqn:E.
  - exists [d], v. assert (v / b = 0) by (destruct Hs as [->| ->]; lia).
    assert (d = v) by (unfold d; lia).
    split_and!; [done|lia|lia| |simpl; lia|simpl; lia].
    repeat split; [repeat constructor; lia|done|].
    destruct (decide (v = 0)); [left; congruence|right; simpl; lia].
  - assert (0 < v / b) by (destruct Hs as [->| ->]; pose proof (Z.div_pos v b); lia).
    assert (v / b < b ^ Z.of_nat n).
    { apply Z.div_lt_upper_bound; [lia|]. rewrite <-Z.pow_succ_r by lia.
      replace (Z.succ (Z.of_nat n)) with (Z.of_nat (S n)) by lia. lia. }
    assert (0 < n)%nat by (destruct n; simpl in *; lia).
    destruct (IH fuel (v / b) (buf ++ [digit_char d])) as (ds & top & -> & Ht & Htp & Hds & Hval & Hlen);
      [lia|lia|rewrite length_app; simpl; lia|].
    exists (d :: ds), top. rewrite <-app_assoc. split_and!; [done|done|lia| |cbn [value_lsb]; unfold d; lia|simpl; lia].
    destruct Hds as (D1 & D2 & D3). split_and!; [by constructor|done|].
    right. rewrite nth_last_cons by done. destruct D3 as [->|D3]; [|done].
    simpl in Hval. lia.
Qed.

(** One digit character in the parsing loop. *)
Lemma strToInt_loop_digit I b thSep state result d rest :
  b = 10 \/ b = 16 -> 0 <= d < b -> state = true \/ d <> 0 -> imin I <= 0 -> 0 <= result ->
  result * b + d <= imax I ->
  strToInt_loop I b thSep state result (digit_char d :: rest) =
    strToInt_loop I b thSep true (result * b + d) rest.
Proof.
  intros Hb Hd Hst Hmin Hr Hmax.
  assert (Hlim : (result >? imax I / b) = false).
  { assert (result <= imax I / b) by (apply Z.div_le_lower_bound; lia). lia. }
  assert (Har : forall z, z = result * b + d -> arith I z = Done (result * b + d)).
  { intros z ->. unfold arith. rewrite (proj2 (Z.leb_le (imin I) _)), (proj2 (Z.leb_le _ (imax I))) by lia.
    done. }
  assert (Hdig : exists c e, digit_char d = c /\ e = d /\
    strToInt_loop I b thSep state result (c :: rest) =
      (if result >? imax I / b then Done None
       else let? v := arith I (result * b + e) in strToInt_loop I b thSep true v rest)).
  { assert (d = 0 \/ d = 1 \/ d = 2 \/ d = 3 \/ d = 4 \/ d = 5 \/ d = 6 \/ d = 7 \/ d = 8 \/ d = 9 \/
            (b = 16 /\ (d = 10 \/ d = 11 \/ d = 12 \/ d = 13 \/ d = 14 \/ d = 15))) as Hc by lia.
    repeat destruct Hc as [Hc|Hc]; [..|destruct Hc as [-> Hc]; repeat destruct Hc as [Hc|Hc]];
      subst d; try (destruct Hst as [->|?]; [|lia]);
      try (destruct Hb as [->| ->]); try lia;
      (eexists _, _; split; [reflexivity|]; split; [reflexivity|]; reflexivity). }
  destruct Hdig as (c & e & Hc & -> & Hl). rewrite Hc, Hl, Hlim, (Har _ eq_refl). done.
Qed.

(** The digits of a number, most significant first, are read back as the number. *)
Lemma strToInt_loop_digits I b thSep ds rest :
  b = 10 \/ b = 16 -> imin I <= 0 -> is_digits b ds -> ds <> [0] -> value_lsb b ds <= imax I ->
  strToInt_loop I b thSep false 0 (rev (map digit_char ds) ++ rest) =
    strToInt_loop I b thSep true (value_lsb b ds) rest.
Proof.
  intros Hb Hmin (Hd & Hne & Hz) Hn0 Hmax. destruct Hz as [|Hz]; [done|]. clear Hn0 Hne.
  revert rest Hz Hmax. induction Hd as [|d ds Hd Hds IH]; intros rest Hz Hmax; [done|].
  cbn [map rev value_lsb] in *. rewrite <-app_assoc. cbn [app].
  destruct ds as [|d' ds].
  - cbn [map rev value_lsb app] in *.
    rewrite (strToInt_loop_digit I b thSep false 0 d rest) by (simpl in Hz; lia). f_equal. lia.
  - rewrite nth_last_cons in Hz by done.
    assert (0 <= value_lsb b (d' :: ds)) by (apply value_lsb_bound; [lia|done]).
    rewrite IH by (done || nia). rewrite strToInt_loop_digit by (done || nia || (by left)).
    f_equal. lia.
Qed.

Lemma strToInt_loop_text I b thSep ds :
  b = 10 \/ b = 16 -> imin I <= 0 -> is_digits b ds -> value_lsb b ds <= imax I ->
  strToInt_loop I b thSep false 0 (rev (map digit_char ds)) = Done (Some (value_lsb b ds)).
Proof.
  intros Hb Hmin Hds Hmax. destruct (decide (ds = [0])) as [->|Hn].
  - destruct Hb as [->| ->]; reflexivity.
  - rewrite <-(app_nil_r (rev _)), strToInt_loop_digits by done. done.
Qed.

(** Digit characters are neither NUL nor white space nor signs. *)
Lemma digit_char_plain d :
  0 <= d < 16 ->
  (digit_char d =? 0) = false /\ isspace (digit_char d) = false /\
  (digit_char d =? chr "-") = false /\ (digit_char d =? chr "+") = false.
Proof.
  intros Hd.
  assert (H : negb (digit_char d =? 0) && negb (isspace (digit_char d)) &&
              negb (digit_char d =? chr "-") && negb (digit_char d =? chr "+") = true).
  { revert d Hd. apply (allbelow_spec 16 (fun d => _ && _ && _ && _)). by vm_compute. }
  rewrite !andb_true_iff, !negb_true_iff in H. tauto.
Qed.

Lemma c_str_digits ds :
  Forall (fun d => 0 <= d < 16) ds -> c_str (map digit_char ds) = map digit_char ds.
Proof.
  induction 1 as [|d ds Hd H IH]; [done|]. cbn [map c_str].
  destruct (digit_char_plain d Hd) as [-> _]. by rewrite IH.
Qed.

Lemma strToInt_digits I b thSep ds :
  b = 10 \/ b = 16 -> imin I <= 0 -> is_digits b ds -> value_lsb b ds <= imax I ->
  strToInt I (rev (map digit_char ds)) b thSep = Done (Some (value_lsb b ds)).
Proof.
  intros Hb Hmin Hds Hmax. pose proof (strToInt_loop_text I b thSep ds Hb Hmin Hds Hmax) as Hl.
  assert (H16 : Forall (fun d => 0 <= d < 16) (rev ds)).
  { apply Forall_rev. destruct Hds as [Hd _]. revert Hd. apply Forall_impl. simpl. lia. }
  rewrite <-map_rev in *. unfold strToInt. rewrite c_str_digits by done.
  destruct (rev ds) as [|d r] eqn:E.
  - destruct Hds as (_ & Hne & _). destruct Hne. by rewrite <-(rev_involutive ds), E.
  - apply Forall_cons_iff in H16 as [Hd _]. destruct (digit_char_plain d Hd) as (_ & P1 & P2 & P3).
    cbn [map skip_space] in *. rewrite P1, P2, P3, andb_false_r, Hl. done.
Qed.

Lemma strToInt_neg_digits I thSep ds :
  imin I < 0 -> is_digits 10 ds -> value_lsb 10 ds <= imax I -> value_lsb 10 ds <= - imin I ->
  strToInt I (chr "-" :: rev (map digit_char ds)) 10 thSep = Done (Some (- value_lsb 10 ds)).
Proof.
  intros Hmin Hds Hmax Hmn.
  pose proof (strToInt_loop_text I 10 thSep ds ltac:(by left) ltac:(lia) Hds Hmax) as Hl.
  assert (H16 : Forall (fun d => 0 <= d < 16) (rev ds)).
  { apply Forall_rev. destruct Hds as [Hd _]. revert Hd. apply Forall_impl. simpl. lia. }
  rewrite <-map_rev in *. unfold strToInt. cbn [c_str].
  change (chr "-" =? 0) with false. cbv iota. cbn [skip_space].
  change (isspace (chr "-")) with false. cbv iota. rewrite c_str_digits by done.
  change ((10 =? 10) && (chr "-" =? chr "-")) with true. cbv iota zeta. rewrite Hl. cbn [rbind].
  assert (0 <= value_lsb 10 ds) by (apply value_lsb_bound; [lia|apply Hds]).
  unfold arith. rewrite (proj2 (Z.leb_le (imin I) _)), (proj2 (Z.leb_le _ (imax I))) by lia. done.
Qed.

(** The plain text of an integer: its sign and its digits. *)
Lemma pad_to_minus1 size fill buf : pad_to (-1) size fill buf = Done buf.
Proof. unfold pad_to. replace (Z.to_nat _) with 0%nat by lia. done. Qed.

Lemma intToStr_text n v b size :
  2 <= b <= 16 -> (0 < n <= MAX_DIGITS)%nat -> - b ^ Z.of_nat n < v < b ^ Z.of_nat n ->
  (n + 1 < size)%nat ->
  exists ds, is_digits b ds /\ value_lsb b ds = Z.abs v /\
    intToStr v b size false (-1) (chr " ") 0 =
      Done (Some ((if v <? 0 then [chr "-"] else []) ++ rev (map digit_char ds))).
Proof.
  intros Hb Hn Hv Hs. set (s := if v <? 0 then -1 else 1).
  assert (Hsv : v = s * Z.abs v) by (unfold s; destruct (v <? 0) eqn:E; lia).
  destruct (digit_loop_spec n MAX_DIGITS size b s (Z.abs v) [])
    as (ds & top & Hl & Ht & Htp & Hds & Hval & Hlen); [lia|unfold s; case_match; lia|lia|lia|simpl; lia|].
  exists ds. split; [done|]. split; [done|]. unfold intToStr.
  rewrite (proj2 (Z.ltb_ge b 2)), (proj2 (Z.ltb_ge 16 b)) by lia. cbn [orb].
  rewrite Hsv at 1. rewrite Hl. cbn [rbind app]. change (chr " " =? chr "0") with false.
  cbn [negb andb]. cbv iota zeta. cbn [rbind].
  assert (Hneg : (s * top <? 0) = (v <? 0)).
  { unfold s. destruct (v <? 0) eqn:E; lia. }
  rewrite Hneg. destruct (v <? 0) eqn:E.
  - rewrite ptr_put_ok by (rewrite length_map; lia). cbn [rbind]. rewrite pad_to_minus1. cbn [rbind].
    rewrite (proj2 (Nat.ltb_lt _ _)) by (rewrite length_app, length_map; simpl; lia).
    by rewrite rev_app_distr.
  - cbn [rbind]. rewrite pad_to_minus1. cbn [rbind].
    rewrite (proj2 (Nat.ltb_lt _ _)) by (rewrite length_map; lia). done.
Qed.

Lemma uIntToStr_text n v b size :
  2 <= b <= 16 -> (0 < n <= MAX_DIGITS)%nat -> 0 <= v < b ^ Z.of_nat n -> (n < size)%nat ->
  exists ds, is_digits b ds /\ value_lsb b ds = v /\
    uIntToStr v b size false (-1) (chr " ") 0 = Done (Some (rev (map digit_char ds))).
Proof.
  intros Hb Hn Hv Hs.
  destruct (digit_loop_spec n MAX_DIGITS size b 1 v [])
    as (ds & top & Hl & Ht & Htp & Hds & Hval & Hlen); [lia|by left|lia|lia|simpl; lia|].
  exists ds. split; [done|]. split; [done|]. unfold uIntToStr.
  rewrite (proj2 (Z.ltb_ge b 2)), (proj2 (Z.ltb_ge 16 b)) by lia. cbn [orb].
  rewrite Z.mul_1_l in Hl. rewrite Hl. cbn [rbind app]. change (chr " " =? chr "0") with false.
  cbn [negb andb]. cbv iota zeta. cbn [rbind]. rewrite pad_to_minus1. cbn [rbind].
  by rewrite (proj2 (Nat.ltb_lt _ _)) by (rewrite length_map; lia).
Qed.

Lemma signed_roundtrip I v sep :
  imin I = - imax I - 1 -> 0 < imax I < 10 ^ 20 -> - imax I <= v <= imax I ->
  exists t, Formatter.appended [] (intToStr v 10 Formatter.POCO_MAX_INT_STRING_LEN false (-1) (chr " ") 0)
              = Done t /\
            Parser.or_syntax_error (strToInt I t 10 sep) = Done v.
Proof.
  intros Hmin Hmax Hv.
  destruct (intToStr_text 20 v 10 Formatter.POCO_MAX_INT_STRING_LEN) as (ds & Hds & Hval & ->);
    [lia|unfold MAX_DIGITS; lia|lia|unfold Formatter.POCO_MAX_INT_STRING_LEN; lia|].
  eexists. split; [reflexivity|]. destruct (v <? 0) eqn:E; cbn [app].
  - rewrite strToInt_neg_digits by (done || lia). simpl. f_equal. lia.
  - rewrite strToInt_digits by (done || lia || (by left)). simpl. f_equal. lia.
Qed.

Lemma unsigned_roundtrip I n v b sep :
  b = 10 \/ b = 16 -> imin I = 0 -> 0 <= v <= imax I -> (0 < n < 64)%nat -> imax I < b ^ Z.of_nat n ->
  exists t, Formatter.appended [] (uIntToStr v b Formatter.POCO_MAX_INT_STRING_LEN false (-1) (chr " ") 0)
              = Done t /\
            Parser.or_syntax_error (strToInt I t b sep) = Done v.
Proof.
  intros Hb Hmin Hv Hn Hmax.
  destruct (uIntToStr_text n v b Formatter.POCO_MAX_INT_STRING_LEN) as (ds & Hds & Hval & ->);
    [lia|unfold MAX_DIGITS; lia|lia|unfold Formatter.POCO_MAX_INT_STRING_LEN; lia|].
  eexists. split; [reflexivity|]. cbn [app].
  rewrite strToInt_digits by (done || lia). simpl. by rewrite Hval.
Qed.

(** ** Theorems *)

(** Every [int] (64-bit integer) but the least one is read back from its
    decimal text as the same number, whatever the thousand separator of the
    parser; neither conversion throws or leaves its buffer. *)
Theorem signed_decimal_roundtrip v sep :
  (- 2 ^ 31 < v < 2 ^ 31 ->
   exists t, Formatter.format_int v = Done t /\ Parser.parse t sep = Done v) /\
  (- 2 ^ 63 < v < 2 ^ 63 ->
   exists t, Formatter.format_Int64 v = Done t /\ Parser.parse64 t sep = Done v).
Proof.
  split; intros Hv; [apply (signed_roundtrip Int32)|apply (signed_roundtrip Int64)];
    unfold Int32, Int64; cbn [imin imax]; lia.
Qed.

(** Every unsigned integer of 32 or 64 bits is read back from its decimal
    and from its hexadecimal text as the same number. *)
Theorem unsigned_text_roundtrip v sep :
  (0 <= v < 2 ^ 32 ->
   (exists t, Formatter.format_unsigned v = Done t /\ Parser.parseUnsigned t sep = Done v) /\
   (exists t, Formatter.formatHex_unsigned v false = Done t /\ Parser.parseHex t = Done v)) /\
  (0 <= v < 2 ^ 64 ->
   (exists t, Formatter.format_UInt64 v = Done t /\ Parser.parseUnsigned64 t sep = Done v) /\
   (exists t, Formatter.formatHex_UInt64 v false = Done t /\ Parser.parseHex64 t = Done v)).
Proof.
  split; intros Hv; split;
    [apply (unsigned_roundtrip UInt32 20)|apply (unsigned_roundtrip UInt32 20)
    |apply (unsigned_roundtrip UInt64 20)|apply (unsigned_roundtrip UInt64 20)];
    unfold UInt32, UInt64, Parser.NUM_BASE_DEC, Parser.NUM_BASE_HEX; cbn [imin imax]; lia.
Qed.

(** The range check of [strToInt] compares with the quotient of the maximum
    and the base only, so the next number after the maximum passes it: a signed
    addition overflows, and an unsigned one wraps to zero with success. *)
Theorem strToInt_misses_overflow sep :
  Parser.tryParse (str "2147483648") sep = UB /\
  Parser.tryParse64 (str "9223372036854775808") sep = UB /\
  Parser.tryParseUnsigned (str "4294967296") sep = Done (Some 0) /\
  Parser.tryParseUnsigned64 (str "18446744073709551616") sep = Done (Some 0).
Proof. split_and!; reflexivity. Qed.

(** The text of a truth value, in each of the three formats, is read back as
    the same truth value, by the parser that accepts all of them in any case. *)
Theorem bool_text_roundtrip value format :
  Parser.parseBool (Formatter.format_bool value format) = Done value /\
  Parser.parseBool (Str.toUpper (Formatter.format_bool value format)) = Done value.
Proof. by destruct value, format. Qed.
