(* ===== verification/Uri.v ===== *)
(** Uniform resource identifiers (Foundation/src/URI.cpp, Poco/URI.h).

    The class members are the record [URI]; the member functions that change
    them are computations over it, so that what was assigned before an
    exception stays assigned.  An iterator [it] that a parsing function moves
    is the list of the characters that are left, and the function returns what
    is left after it. *)

From S2P Require Import Prelude Strings NumericString.

Open Scope st_scope.

Record URI := {
  _scheme : list Z;
  _userInfo : list Z;
  _host : list Z;
  _port : Z;                 (* unsigned short *)
  _path : list Z;
  _query : list Z;
  _fragment : list Z
}.

Definition empty_uri : URI :=
  {| _scheme := []; _userInfo := []; _host := []; _port := 0; _path := []; _query := [];
     _fragment := [] |}.

Definition set_scheme (v : list Z) (u : URI) : URI :=
  {| _scheme := v; _userInfo := _userInfo u; _host := _host u; _port := _port u;
     _path := _path u; _query := _query u; _fragment := _fragment u |}.
Definition set_userInfo (v : list Z) (u : URI) : URI :=
  {| _scheme := _scheme u; _userInfo := v; _host := _host u; _port := _port u;
     _path := _path u; _query := _query u; _fragment := _fragment u |}.
Definition set_host (v : list Z) (u : URI) : URI :=
  {| _scheme := _scheme u; _userInfo := _userInfo u; _host := v; _port := _port u;
     _path := _path u; _query := _query u; _fragment := _fragment u |}.
Definition set_port (v : Z) (u : URI) : URI :=
  {| _scheme := _scheme u; _userInfo := _userInfo u; _host := _host u; _port := v;
     _path := _path u; _query := _query u; _fragment := _fragment u |}.
Definition set_path (v : list Z) (u : URI) : URI :=
  {| _scheme := _scheme u; _userInfo := _userInfo u; _host := _host u; _port := _port u;
     _path := v; _query := _query u; _fragment := _fragment u |}.
Definition set_query (v : list Z) (u : URI) : URI :=
  {| _scheme := _scheme u; _userInfo := _userInfo u; _host := _host u; _port := _port u;
     _path := _path u; _query := v; _fragment := _fragment u |}.
Definition set_fragment (v : list Z) (u : URI) : URI :=
  {| _scheme := _scheme u; _userInfo := _userInfo u; _host := _host u; _port := _port u;
     _path := _path u; _query := _query u; _fragment := v |}.

Definition RESERVED_PATH : list Z := str "?#".
Definition RESERVED_QUERY : list Z := str "#".
Definition RESERVED_FRAGMENT : list Z := [].
Definition ILLEGAL : list Z := str "%<>{}|\" ++ [34] ++ str "^`".

(** ** Percent encoding *)

Definition unreserved (c : Z) : bool :=
  between (chr "a") c (chr "z") || between (chr "A") c (chr "Z") || between (chr "0") c (chr "9") ||
  (c =? chr "-") || (c =? chr "_") || (c =? chr ".") || (c =? chr "~").

(** What the loop body of [encode] appends for a character; the comparisons
    are on [char], which is signed. *)
Definition encode_char (reserved : list Z) (c : Z) : res (list Z) :=
  if unreserved (s8 c) then Done [c]
  else if (s8 c <=? 0x20) || (0x7F <=? s8 c) || contains ILLEGAL c || contains reserved c then
    rbind (Formatter.formatHex_unsigned_width c 2 false) (fun h => Done (chr "%" :: h))
  else Done [c].

Fixpoint encode (s reserved encodedStr : list Z) : res (list Z) :=
  match s with
  | [] => Done encodedStr
  | c :: r => rbind (encode_char reserved c) (fun e => encode r reserved (encodedStr ++ e))
  end.

(** The value of a hexadecimal digit. *)
Definition hex_value (c : Z) : option Z :=
  if between (chr "0") c (chr "9") then Some (c - chr "0")
  else if between (chr "A") c (chr "F") then Some (c - chr "A" + 10)
  else if between (chr "a") c (chr "f") then Some (c - chr "a" + 10)
  else None.

Definition emit (c : Z) : ST (list Z) unit := modify (fun out => out ++ [c]).

(** The loop of [decode]; the state is [decodedStr]. *)
Fixpoint decode_loop (plusAsSpace inQuery : bool) (s : list Z) : ST (list Z) unit :=
  match s with
  | [] => ret tt
  | c :: r =>
      let inQuery := inQuery || (c =? chr "?") in
      if inQuery && plusAsSpace && (c =? chr "+") then
        do* emit (chr " "); decode_loop plusAsSpace inQuery r
      else if c =? chr "%" then
        match r with
        | [] => throw SyntaxException
        | [_] => throw SyntaxException
        | hi :: lo :: r' =>
            match hex_value hi with
            | None => throw SyntaxException
            | Some h =>
                match hex_value lo with
                | None => throw SyntaxException
                | Some l => do* emit (u8 (u8 (h * 16) + l)); decode_loop plusAsSpace inQuery r'
                end
            end
        end
      else do* emit c; decode_loop plusAsSpace inQuery r
  end.

Definition decode (s : list Z) (plusAsSpace : bool) : ST (list Z) unit :=
  decode_loop plusAsSpace false s.

(** [decode(s, _path)] and the like: the member is the output string. *)
Definition decode_into (get_m : URI -> list Z) (set_m : list Z -> URI -> URI) (s : list Z)
    : ST URI unit := fun u =>
  let (r, out) := decode s false (get_m u) in (r, set_m out u).

(** ** Ports *)

Definition getWellKnownPort (u : URI) : Z :=
  if eqb_str (_scheme u) (str "ftp") then 21
  else if eqb_str (_scheme u) (str "ssh") then 22
  else if eqb_str (_scheme u) (str "telnet") then 23
  else if eqb_str (_scheme u) (str "http") then 80
  else if eqb_str (_scheme u) (str "nntp") then 119
  else if eqb_str (_scheme u) (str "ldap") then 389
  else if eqb_str (_scheme u) (str "https") then 443
  else if eqb_str (_scheme u) (str "rtsp") then 554
  else if eqb_str (_scheme u) (str "sip") then 5060
  else if eqb_str (_scheme u) (str "sips") then 5061
  else if eqb_str (_scheme u) (str "xmpp") then 5222
  else 0.

Definition isWellKnownPort (u : URI) : bool := _port u =? getWellKnownPort u.

Definition getPort (u : URI) : Z := if _port u =? 0 then getWellKnownPort u else _port u.
Definition setPort (port : Z) (u : URI) : URI := set_port port u.

Definition isRelative (u : URI) : bool := bool_decide (_scheme u = []).

(** ** Setters *)

Definition setScheme (scheme : list Z) (u : URI) : URI :=
  let u := set_scheme (Str.toLower scheme) u in
  if _port u =? 0 then set_port (getWellKnownPort u) u else u.

Definition clear (u : URI) : URI := empty_uri.

Definition setUserInfo (userInfo : list Z) : ST URI unit :=
  do* modify (set_userInfo []); decode_into _userInfo set_userInfo userInfo.

Definition setHost (host : list Z) (u : URI) : URI := set_host host u.

Definition setPath (path : list Z) : ST URI unit :=
  do* modify (set_path []); decode_into _path set_path path.

Definition setRawQuery (query : list Z) (u : URI) : URI := set_query query u.

Definition setQuery (query : list Z) : ST URI unit :=
  do* modify (set_query []);
  let* q := lift (encode query RESERVED_QUERY []) in modify (set_query q).

Definition addQueryParameter (param val : list Z) : ST URI unit :=
  let reserved := RESERVED_QUERY ++ str "=&" in
  do* modify (fun u => match _query u with [] => u | q => set_query (q ++ [chr "&"]) u end);
  let* u := get in
  let* q := lift (encode param reserved (_query u)) in
  do* modify (set_query (q ++ [chr "="]));
  let* q := lift (encode val reserved (q ++ [chr "="])) in
  modify (set_query q).

Definition getQuery (u : URI) : res (list Z) :=
  match decode (_query u) false [] with
  | (Done _, q) => Done q
  | (Eof, _) => Eof
  | (Raise e, _) => Raise e
  | (UB, _) => UB
  end.

Definition setFragment (fragment : list Z) : ST URI unit :=
  do* modify (set_fragment []); decode_into _fragment set_fragment fragment.

(** ** Parsing *)

Definition parsePath (it : list Z) : ST URI (list Z) :=
  let (path, rest) := span (not_in (str "?#")) it in
  do* decode_into _path set_path path; ret rest.

Definition parseQuery (it : list Z) : ST URI (list Z) :=
  let (query, rest) := span (not_in (str "#")) it in
  do* modify (set_query query); ret rest.

Definition parseFragment (it : list Z) : ST URI unit :=
  decode_into _fragment set_fragment it.

Definition parsePathEtc (it : list Z) : ST URI unit :=
  match it with
  | [] => ret tt
  | c :: _ =>
      let* it := (if not_in (str "?#") c then parsePath it else ret it) in
      let* it := match it with
                 | c :: r => if c =? chr "?" then parseQuery r else ret it
                 | [] => ret it
                 end in
      match it with
      | c :: r => if c =? chr "#" then parseFragment r else ret tt
      | [] => ret tt
      end
  end.

(** The port after the colon. *)
Definition parsePort (port : list Z) : ST URI unit :=
  match port with
  | [] => modify (fun u => set_port (getWellKnownPort u) u)
  | _ =>
      let* n := lift (Parser.tryParse port (chr ",")) in
      match n with
      | Some nport =>
          if (0 <? nport) && (nport <? 65536) then modify (set_port (u16 nport))
          else throw SyntaxException
      | None => throw SyntaxException
      end
  end.

Definition parseHostAndPort (it : list Z) : ST URI unit :=
  match it with
  | [] => ret tt
  | c :: r =>
      let* hr := (if c =? chr "[" then
                    let (host, rest) := span (not_in (str "]")) r in
                    match rest with
                    | [] => throw SyntaxException
                    | _ :: rest => ret (host, rest)
                    end
                  else ret (span (not_in (str ":")) it)) in
      let '(host, rest) := hr in
      do* match rest with
          | c :: port =>
              if c =? chr ":" then parsePort port
              else modify (fun u => set_port (getWellKnownPort u) u)
          | [] => modify (fun u => set_port (getWellKnownPort u) u)
          end;
      modify (set_host (Str.toLower host))
  end.

(** The loop of [parseAuthority]: user info, the part after the last [@], the rest. *)
Fixpoint authority_loop (userInfo part it : list Z) : list Z * list Z * list Z :=
  match it with
  | [] => (userInfo, part, [])
  | c :: r =>
      if contains (str "/?#") c then (userInfo, part, it)
      else if c =? chr "@" then authority_loop part [] r
      else authority_loop userInfo (part ++ [c]) r
  end.

Definition parseAuthority (it : list Z) : ST URI (list Z) :=
  let '(userInfo, part, rest) := authority_loop [] [] it in
  do* parseHostAndPort part;
  do* modify (set_userInfo userInfo);
  ret rest.

Definition parse (uri : list Z) : ST URI unit :=
  match uri with
  | [] => ret tt
  | c :: _ =>
      if not_in (str "/.?#") c then
        let (scheme, rest) := span (not_in (str ":?#/")) uri in
        match rest with
        | colon :: it =>
            if colon =? chr ":" then
              match it with
              | [] => throw SyntaxException
              | a :: it' =>
                  do* modify (setScheme scheme);
                  let* it := (if a =? chr "/" then
                                match it' with
                                | b :: it'' => if b =? chr "/" then parseAuthority it'' else ret it
                                | [] => ret it
                                end
                              else ret it) in
                  parsePathEtc it
              end
            else parsePathEtc uri
        | [] => parsePathEtc uri
        end
      else parsePathEtc uri
  end.

Definition setAuthority (authority : list Z) : ST URI unit :=
  do* modify (set_userInfo []); do* modify (set_host []); do* modify (set_port 0);
  let* _rest := parseAuthority authority in ret tt.

Definition setPathEtc (pathEtc : list Z) : ST URI unit :=
  do* modify (set_path []); do* modify (set_query []); do* modify (set_fragment []);
  parsePathEtc pathEtc.

(** The constructors from a text and from parts; [_port] of the last two is
    set by [parseAuthority] unless the authority is empty. *)
Definition run {A} (m : ST URI A) (u : URI) : res URI :=
  match m u with
  | (Done _, u') => Done u'
  | (Eof, _) => Eof
  | (Raise e, _) => Raise e
  | (UB, _) => UB
  end.

Definition of_string (uri : list Z) : res URI := run (parse uri) empty_uri.

Definition of_scheme_pathEtc (scheme pathEtc : list Z) : res URI :=
  run (do* modify (set_scheme (Str.toLower scheme));
       do* modify (fun u => set_port (getWellKnownPort u) u);
       parsePathEtc pathEtc) empty_uri.

Definition assign_string (uri : list Z) : ST URI unit := do* modify clear; parse uri.

(** ** Composition *)

Definition getAuthority (u : URI) : res (list Z) :=
  let auth := match _userInfo u with [] => [] | i => i ++ [chr "@"] end in
  let auth := if contains (_host u) (chr ":") then auth ++ [chr "["] ++ _host u ++ [chr "]"]
              else auth ++ _host u in
  if negb (_port u =? 0) && negb (isWellKnownPort u) then
    Formatter.append_int (auth ++ [chr ":"]) (_port u)
  else Done auth.

Definition query_and_fragment (u : URI) (uri : list Z) : res (list Z) :=
  let uri := match _query u with [] => uri | q => uri ++ [chr "?"] ++ q end in
  match _fragment u with
  | [] => Done uri
  | f => encode f RESERVED_FRAGMENT (uri ++ [chr "#"])
  end.

Definition toString (u : URI) : res (list Z) :=
  rbind
    (if isRelative u then encode (_path u) RESERVED_PATH []
     else
       rbind (getAuthority u) (fun auth =>
       let uri := _scheme u ++ [chr ":"] in
       let uri := if negb (bool_decide (auth = [])) || eqb_str (_scheme u) (str "file")
                  then uri ++ str "//" ++ auth else uri in
       match _path u with
       | c :: _ =>
           let uri := if negb (bool_decide (auth = [])) && negb (c =? chr "/")
                      then uri ++ [chr "/"] else uri in
           encode (_path u) RESERVED_PATH uri
       | [] =>
           Done (if negb (bool_decide (_query u = [])) || negb (bool_decide (_fragment u = []))
                 then uri ++ [chr "/"] else uri)
       end))
    (query_and_fragment u).

Definition getPathEtc (u : URI) : res (list Z) :=
  rbind (encode (_path u) RESERVED_PATH []) (query_and_fragment u).

Definition getPathAndQuery (u : URI) : res (list Z) :=
  rbind (encode (_path u) RESERVED_PATH [])
    (fun p => Done (match _query u with [] => p | q => p ++ [chr "?"] ++ q end)).

(** ** Comparison *)

Definition equals (u v : URI) : bool :=
  eqb_str (_scheme u) (_scheme v) && eqb_str (_userInfo u) (_userInfo v) &&
  eqb_str (_host u) (_host v) && (getPort u =? getPort v) && eqb_str (_path u) (_path v) &&
  eqb_str (_query u) (_query v) && eqb_str (_fragment u) (_fragment v).

(** ** Path segments and resolution *)

(** The loop of [getPathSegments], appending to [segments]. *)
Fixpoint segments_loop (it seg : list Z) (segments : list (list Z)) : list (list Z) :=
  match it with
  | [] => match seg with [] => segments | _ => segments ++ [seg] end
  | c :: r =>
      if c =? chr "/" then
        match seg with
        | [] => segments_loop r [] segments
        | _ => segments_loop r [] (segments ++ [seg])
        end
      else segments_loop r (seg ++ [c]) segments
  end.

Definition getPathSegments (path : list Z) (segments : list (list Z)) : list (list Z) :=
  segments_loop path [] segments.

Definition DOT : list Z := str ".".
Definition DOTDOT : list Z := str "..".

(** One round of the loop of [removeDotSegments]. *)
Definition dot_step (removeLeading : bool) (norm : list (list Z)) (seg : list Z) : list (list Z) :=
  if eqb_str seg DOTDOT then
    if negb (bool_decide (norm = [])) then
      if eqb_str (back norm) DOTDOT then norm ++ [seg] else pop_back norm
    else if negb removeLeading then norm ++ [seg] else norm
  else if negb (eqb_str seg DOT) then norm ++ [seg]
  else norm.

Definition starts_with_slash (s : list Z) : bool :=
  match s with c :: _ => c =? chr "/" | [] => false end.
Definition ends_with_slash (s : list Z) : bool :=
  match s with [] => false | _ => nth (length s - 1) s 0 =? chr "/" end.

(** The loop of [buildPath]; [first] as in the code. *)
Fixpoint build_loop (relative leadingSlash first : bool) (segments : list (list Z)) (path : list Z)
    : list Z :=
  match segments with
  | [] => path
  | seg :: r =>
      let path :=
        if first then
          if leadingSlash then path ++ [chr "/"]
          else if relative && contains seg (chr ":") then path ++ str "./" else path
        else path ++ [chr "/"] in
      build_loop relative leadingSlash false r (path ++ seg)
  end.

Definition buildPath (segments : list (list Z)) (leadingSlash trailingSlash : bool) (u : URI) : URI :=
  let path := build_loop (isRelative u) leadingSlash true segments [] in
  set_path (if trailingSlash then path ++ [chr "/"] else path) u.

Definition removeDotSegments (removeLeading : bool) (u : URI) : URI :=
  match _path u with
  | [] => u
  | _ =>
      let segments := getPathSegments (_path u) [] in
      buildPath (foldl (dot_step removeLeading) [] segments)
        (starts_with_slash (_path u)) (ends_with_slash (_path u)) u
  end.

Definition normalize (u : URI) : URI := removeDotSegments (negb (isRelative u)) u.

(** One round of the loop of [mergePath]: segments and [addTrailingSlash]. *)
Definition merge_step (st : list (list Z) * bool) (seg : list Z) : list (list Z) * bool :=
  let (norm, _) := st in
  if eqb_str seg DOTDOT then
    (if negb (bool_decide (norm = [])) then pop_back norm else norm, true)
  else if negb (eqb_str seg DOT) then (norm ++ [seg], false)
  else (norm, true).

Definition mergePath (path : list Z) (u : URI) : URI :=
  let segments :=
    match _path u with
    | [] => []
    | _ =>
        let segs := getPathSegments (_path u) [] in
        if negb (ends_with_slash (_path u)) && negb (bool_decide (segs = [])) then pop_back segs
        else segs
    end in
  let addLeadingSlash := starts_with_slash (_path u) || starts_with_slash path in
  let segments := getPathSegments path segments in
  let (norm, addTrailingSlash) := foldl merge_step ([], false) segments in
  buildPath norm addLeadingSlash (ends_with_slash path || addTrailingSlash) u.

Definition resolve (rel u : URI) : URI :=
  let u :=
    if negb (bool_decide (_scheme rel = [])) then
      removeDotSegments true
        (set_query (_query rel) (set_path (_path rel) (set_port (_port rel)
          (set_host (_host rel) (set_userInfo (_userInfo rel) (set_scheme (_scheme rel) u))))))
    else if negb (bool_decide (_host rel = [])) then
      removeDotSegments true
        (set_query (_query rel) (set_path (_path rel) (set_port (_port rel)
          (set_host (_host rel) (set_userInfo (_userInfo rel) u)))))
    else
      match _path rel with
      | [] => if negb (bool_decide (_query rel = [])) then set_query (_query rel) u else u
      | _ =>
          let u := if starts_with_slash (_path rel)
                   then removeDotSegments true (set_path (_path rel) u)
                   else mergePath (_path rel) u in
          set_query (_query rel) u
      end in
  set_fragment (_fragment rel) u.

Definition resolve_string (relativeURI : list Z) (u : URI) : res URI :=
  rbind (of_string relativeURI) (fun rel => Done (resolve rel u)).
