(* ===== verification/UriFacts.v ===== *)
(** What URI.cpp guarantees: percent encoding, parsing of what is composed,
    dot segments, comparison and resolution. *)

From S2P Require Import Prelude Strings NumericString Uri.

Open Scope st_scope.

(** ** Percent encoding *)

(** The escape sequence of a byte. *)
Definition percent (c : Z) : list Z :=
  [chr "%"; digit_char (c / 16); digit_char (c mod 16)].

(** The characters [encode] escapes. *)
Definition escaped (reserved : list Z) (c : Z) : bool :=
  negb (unreserved c) && ((c <=? 32) || (127 <=? c) || contains ILLEGAL c || contains reserved c).

Lemma formatHex_byte c :
  is_byte c ->
  Formatter.formatHex_unsigned_width c 2 false = Done [digit_char (c / 16); digit_char (c mod 16)].
Proof.
  intros Hc.
  pose proof (allbelow_spec 256 (fun c => bool_decide
    (Formatter.formatHex_unsigned_width c 2 false =
      Done [digit_char (c / 16); digit_char (c mod 16)]))) as H.
  specialize (H ltac:(vm_compute; reflexivity) c Hc). by apply bool_decide_eq_true in H.
Qed.

Lemma encode_char_spec reserved c :
  is_byte c -> encode_char reserved c = Done (if escaped reserved c then percent c else [c]).
Proof.
  intros Hc. unfold encode_char, escaped.
  assert (unreserved (s8 c) = unreserved c) as ->.
  { unfold unreserved, between, s8, swrap, is_byte in *. cbn [chr]. 
    unfold chr; simpl. lia. }
  destruct (unreserved c); [done|].
  assert ((s8 c <=? 32) || (127 <=? s8 c) = (c <=? 32) || (127 <=? c)) as ->.
  { unfold s8, swrap, is_byte in *. simpl. lia. }
  simpl. destruct (_ || _); [|done]. by rewrite formatHex_byte.
Qed.

(** The whole text [encode] appends. *)
Definition encoding (reserved s : list Z) : list Z :=
  concat (map (fun c => if escaped reserved c then percent c else [c]) s).

Lemma uri_encode_spec reserved s out :
  Forall is_byte s -> encode s reserved out = Done (out ++ encoding reserved s).
Proof.
  intros Hs. revert out. induction Hs as [|c s Hc Hs IH]; intros out; simpl.
  - by rewrite app_nil_r.
  - rewrite encode_char_spec by done. simpl. rewrite IH. unfold encoding. simpl.
    by rewrite app_assoc.
Qed.

Lemma hex_value_digit d : 0 <= d < 16 -> hex_value (digit_char d) = Some d.
Proof.
  intros Hd.
  pose proof (allbelow_spec 16 (fun d => bool_decide (hex_value (digit_char d) = Some d))) as H.
  specialize (H ltac:(vm_compute; reflexivity) d Hd). by apply bool_decide_eq_true in H.
Qed.

Lemma escaped_percent reserved : escaped reserved (chr "%") = true.
Proof. unfold escaped, ILLEGAL, contains. by vm_compute (_ && (_ || true)). Qed.

Lemma decode_loop_percent plus inq c r out :
  is_byte c ->
  decode_loop plus inq (percent c ++ r) out = decode_loop plus inq r (out ++ [c]).
Proof.
  intros Hc. unfold percent. unfold app. cbn [decode_loop].
  change (chr "%" =? chr "?") with false. change (chr "%" =? chr "+") with false.
  change (chr "%" =? chr "%") with true. rewrite andb_false_r, orb_false_r.
  rewrite !hex_value_digit by (unfold is_byte in *; lia).
  unfold emit. rewrite bind_modify. do 3 f_equal. unfold u8, is_byte in *. lia.
Qed.

Lemma decode_loop_plain plus inq c r out :
  c <> chr "%" -> (plus = true -> c <> chr "+") ->
  exists inq', decode_loop plus inq (c :: r) out = decode_loop plus inq' r (out ++ [c]).
Proof.
  intros Hp Hplus. exists (inq || (c =? chr "?")). cbn [decode_loop].
  destruct (Z.eqb_spec c (chr "+")) as [->|_].
  - destruct plus; [by destruct Hplus|]. rewrite andb_false_r. done.
  - rewrite andb_false_r, (proj2 (Z.eqb_neq _ _) Hp). done.
Qed.

(** The plus sign is a space in a query only when the caller asks for it. *)
Definition plus_safe (plus : bool) (reserved : list Z) : Prop :=
  plus = true -> contains reserved (chr "+") = true.

Lemma decode_encoding plus reserved s inq out :
  plus_safe plus reserved -> Forall is_byte s ->
  decode_loop plus inq (encoding reserved s) out = (Done tt, out ++ s).
Proof.
  intros Hplus Hs. revert inq out. induction Hs as [|c s Hc Hs IH]; intros inq out.
  - by rewrite app_nil_r.
  - unfold encoding. cbn [map concat]. fold (encoding reserved s).
    destruct (escaped reserved c) eqn:E.
    + rewrite decode_loop_percent by done. rewrite IH. by rewrite <-app_assoc.
    + change ([c] ++ ?x) with (c :: x).
      destruct (decode_loop_plain plus inq c (encoding reserved s) out) as [inq' ->].
      * intros ->. by rewrite escaped_percent in E.
      * intros Hpl ->. unfold escaped in E. rewrite (Hplus Hpl), !orb_true_r in E. done.
      * rewrite IH. by rewrite <-app_assoc.
Qed.

(** A text is well formed when every percent sign starts an escape sequence. *)
Fixpoint escapes_ok (s : list Z) : bool :=
  match s with
  | [] => true
  | c :: r =>
      if c =? chr "%" then
        match r with
        | hi :: lo :: r' =>
            bool_decide (is_Some (hex_value hi)) && bool_decide (is_Some (hex_value lo)) && escapes_ok r'
        | _ => false
        end
      else escapes_ok r
  end.

Lemma decode_outcome plus inq s out :
  fst (decode_loop plus inq s out) = if escapes_ok s then Done tt else Raise SyntaxException.
Proof.
  remember (length s) as n eqn:Hn. revert s Hn inq out.
  induction (lt_wf n) as [n _ IH]. intros s -> inq out.
  destruct s as [|c r]; [done|]. cbn [decode_loop escapes_ok].
  destruct (Z.eqb_spec c (chr "%")) as [->|Hc].
  - change (chr "%" =? chr "+") with false. rewrite andb_false_r.
    destruct r as [|hi [|lo r]]; [done..|].
    destruct (hex_value hi) as [h|]; [|done]. destruct (hex_value lo) as [l|]; [|done].
    cbn [bool_decide]. unfold emit. rewrite bind_modify.
    rewrite (IH (length r)) by (simpl; lia || done). done.
  - destruct (_ && (c =? chr "+")); unfold emit; rewrite bind_modify;
      apply (IH (length r)); simpl; lia || done.
Qed.

(** Decoded text is text of bytes. *)
Lemma decode_bytes plus inq s out :
  Forall is_byte s -> Forall is_byte out -> Forall is_byte (snd (decode_loop plus inq s out)).
Proof.
  remember (length s) as n eqn:Hn. revert s Hn inq out.
  induction (lt_wf n) as [n _ IH]. intros s -> inq out Hs Hout.
  assert (forall x, is_byte x -> Forall is_byte (out ++ [x])) as Hx
    by (intros; apply Forall_app_2; auto).
  destruct Hs as [|c s Hc Hs]; [done|]. cbn [decode_loop].
  destruct (_ && (c =? chr "+")).
  { unfold emit; rewrite bind_modify. apply (IH (length s)); eauto with poco; simpl; lia. }
  destruct (c =? chr "%").
  - destruct Hs as [|hi s Hhi [|lo s' Hlo Hs]]; [done..|].
    destruct (hex_value hi); [|done]. destruct (hex_value lo); [|done].
    unfold emit; rewrite bind_modify. apply (IH (length s')); eauto with poco; simpl; lia.
  - unfold emit; rewrite bind_modify. apply (IH (length s)); eauto; simpl; lia.
Qed.

(** ** Parsing what is composed *)

(** Escaping hides the reserved characters. *)
Lemma digit_char_not_in_query d : 0 <= d < 16 -> not_in (str "?#") (digit_char d) = true.
Proof.
  intros Hd. apply (allbelow_spec 16 (fun d => not_in (str "?#") (digit_char d))); [done|lia].
Qed.

Lemma encoding_path_avoids s :
  Forall is_byte s -> avoids (str "?#") (encoding RESERVED_PATH s) = true.
Proof.
  induction 1 as [|c s Hc Hs IH]; [done|]. unfold encoding. cbn [map concat].
  fold (encoding RESERVED_PATH s). rewrite avoids_app, IH, andb_true_r.
  destruct (escaped RESERVED_PATH c) eqn:E.
  - unfold percent, avoids. cbn [forallb].
    rewrite !digit_char_not_in_query by (unfold is_byte in *; lia). done.
  - unfold avoids. cbn [forallb]. rewrite andb_true_r. unfold not_in.
    destruct (contains (str "?#") c) eqn:Ec; [|done].
    unfold escaped in E. change RESERVED_PATH with (str "?#") in E.
    rewrite Ec, orb_true_r, andb_true_r in E.
    unfold contains in Ec. apply existsb_exists in Ec as (x & Hx & ->%Z.eqb_eq).
    repeat (destruct Hx as [<-|Hx]; [done|]). done.
Qed.

Lemma encoding_cons_first reserved c s :
  encoding reserved (c :: s) = (if escaped reserved c then percent c else [c]) ++ encoding reserved s.
Proof. done. Qed.

Lemma decode_into_encoding get_m set_m reserved s u :
  Forall is_byte s ->
  decode_into get_m set_m (encoding reserved s) u = (Done tt, set_m (get_m u ++ s) u).
Proof.
  intros Hs. unfold decode_into, decode. by rewrite (decode_encoding false) by done.
Qed.

(** The query and the fragment as they are written. *)
Definition tail_text (q f : list Z) : list Z :=
  (match q with [] => [] | _ => chr "?" :: q end) ++
  (match f with [] => [] | _ => chr "#" :: encoding RESERVED_FRAGMENT f end).

Lemma query_and_fragment_spec u uri :
  Forall is_byte (_fragment u) ->
  query_and_fragment u uri = Done (uri ++ tail_text (_query u) (_fragment u)).
Proof.
  intros Hf. unfold query_and_fragment, tail_text.
  destruct (_fragment u) as [|x f]; [rewrite app_nil_r; by destruct (_query u); rewrite ?app_nil_r|].
  rewrite uri_encode_spec by done. f_equal.
  destruct (_query u); simpl; rewrite <-?app_assoc; simpl; by rewrite <-?app_assoc.
Qed.

(** The end of [parsePathEtc]. *)
Lemma parse_tail q f u :
  avoids (str "#") q = true -> Forall is_byte f -> _query u = [] -> _fragment u = [] ->
  (let* it := match tail_text q f with
              | c :: r => if c =? chr "?" then parseQuery r else ret (tail_text q f)
              | [] => ret (tail_text q f)
              end in
   match it with
   | c :: r => if c =? chr "#" then parseFragment r else ret tt
   | [] => ret tt
   end) u = (Done tt, set_fragment f (set_query q u)).
Proof.
  intros Hq Hf Eq Ef. unfold tail_text. destruct q as [|x q].
  - destruct u; simpl in *; subst. destruct f as [|y f]; [done|]. cbn [app].
    change (chr "#" =? chr "?") with false. cbv iota. rewrite bind_ret.
    change (chr "#" =? chr "#") with true. cbv iota.
    unfold parseFragment. by rewrite decode_into_encoding.
  - cbn [app]. change (chr "?" =? chr "?") with true. cbv iota. unfold parseQuery.
    destruct f as [|y f].
    + rewrite app_nil_r. change (x :: q) with ([] ++ x :: q).
      rewrite span_avoids_all by done. destruct u; simpl in *; subst. done.
    + change (x :: q ++ ?r) with ((x :: q) ++ r).
      rewrite span_avoids by done. rewrite bind_bind, bind_modify, bind_ret.
      change (chr "#" =? chr "#") with true. cbv iota.
      unfold parseFragment. rewrite decode_into_encoding by done.
      destruct u; simpl in *; by subst.
Qed.

Lemma parsePathEtc_spec path q f u :
  Forall is_byte path -> avoids (str "#") q = true -> Forall is_byte f ->
  _path u = [] -> _query u = [] -> _fragment u = [] ->
  parsePathEtc (encoding RESERVED_PATH path ++ tail_text q f) u =
    (Done tt, set_fragment f (set_query q (set_path path u))).
Proof.
  intros Hp Hq Hf Ep Eq Ef. unfold parsePathEtc.
  pose proof (encoding_path_avoids path Hp) as Ha.
  destruct path as [|x path].
  - cbn [encoding map concat app].
    assert (set_path [] u = u) as -> by (destruct u; simpl in *; by subst).
    rewrite <-(parse_tail q f u) by done.
    destruct (tail_text q f) as [|c r] eqn:Et; [done|].
    assert (not_in (str "?#") c = false) as ->; [|done].
    destruct q; [destruct f; [done|]|]; by injection Et as <- <-.
  - destruct (encoding RESERVED_PATH (x :: path)) as [|c e] eqn:Ee.
    { rewrite encoding_cons_first in Ee. by destruct (escaped _ x). }
    cbn [app]. destruct (proj1 (andb_true_iff _ _) Ha) as [-> _].
    change (c :: e ++ ?t) with ((c :: e) ++ t).
    assert (parsePath ((c :: e) ++ tail_text q f) u =
            (Done (tail_text q f), set_path (x :: path) u)) as Hpp.
    { unfold parsePath.
      assert (span (not_in (str "?#")) ((c :: e) ++ tail_text q f) = (c :: e, tail_text q f)) as ->.
      { destruct (tail_text q f) as [|c' r'] eqn:Et.
        - rewrite app_nil_r. by apply span_avoids_all.
        - apply span_avoids; [done|]. destruct q; [destruct f; [done|]|]; by injection Et as <- <-. }
      rewrite <-Ee. unfold bind. rewrite decode_into_encoding by done. by rewrite Ep. }
    rewrite (bind_Done _ _ _ _ _ Hpp). apply parse_tail; by destruct u.
Qed.

(** *** The authority *)

Lemma getWellKnownPort_scheme u v : _scheme u = _scheme v -> getWellKnownPort u = getWellKnownPort v.
Proof. unfold getWellKnownPort. by intros ->. Qed.

Definition port_digits (p : Z) : list Z :=
  match Formatter.append_int [] p with Done t => t | _ => [] end.

Lemma digit_char_not_delim d : 0 <= d < 10 -> not_in (str "@/?#:") (digit_char d) = true.
Proof.
  intros Hd. apply (allbelow_spec 10 (fun d => not_in (str "@/?#:") (digit_char d))); [done|lia].
Qed.

Lemma port_digits_spec s p :
  0 < p < 65536 ->
  Formatter.append_int s p = Done (s ++ port_digits p) /\
  Parser.tryParse (port_digits p) (chr ",") = Done (Some p) /\
  avoids (str "@/?#:") (port_digits p) = true /\ port_digits p <> [].
Proof.
  intros Hp.
  destruct (intToStr_text 5 p 10 Formatter.NF_MAX_INT_STRING_LEN) as (ds & Hds & Hv & Ht);
    [lia|unfold MAX_DIGITS; lia|lia|unfold Formatter.NF_MAX_INT_STRING_LEN; lia|].
  rewrite (proj2 (Z.ltb_ge p 0)) in Ht by lia.
  assert (port_digits p = rev (map digit_char ds)) as Hd.
  { unfold port_digits, Formatter.append_int. rewrite Ht. done. }
  rewrite Hd. unfold Formatter.append_int. rewrite Ht. split; [done|]. split_and!.
  - unfold Parser.tryParse, Parser.NUM_BASE_DEC.
    rewrite strToInt_digits; [do 2 f_equal; lia|by left|unfold Int32; cbn; lia|done|unfold Int32; cbn; lia].
  - apply avoids_Forall, Forall_rev, Forall_map. destruct Hds as [Hr _]. revert Hr.
    apply Forall_impl. intros d Hd'. by apply digit_char_not_delim.
  - destruct Hds as (_ & Hne & _). intros E. apply Hne.
    destruct ds; [done|]. by apply (f_equal length) in E; rewrite length_rev in E.
Qed.

(** The port is written when it is not the scheme's own. *)
Definition port_written (u : URI) : bool := negb (_port u =? 0) && negb (isWellKnownPort u).

Definition port_text (u : URI) : list Z :=
  if port_written u then chr ":" :: port_digits (_port u) else [].

Definition host_text (u : URI) : list Z :=
  if contains (_host u) (chr ":") then [chr "["] ++ _host u ++ [chr "]"] else _host u.

Definition userInfo_text (u : URI) : list Z :=
  match _userInfo u with [] => [] | i => i ++ [chr "@"] end.

Definition authority_text (u : URI) : list Z := userInfo_text u ++ host_text u ++ port_text u.

Lemma getAuthority_spec u : 0 <= _port u < 65536 -> getAuthority u = Done (authority_text u).
Proof.
  intros Hp. unfold getAuthority, authority_text, userInfo_text, host_text, port_text.
  fold (port_written u). destruct (port_written u) eqn:Ew.
  - assert (0 < _port u < 65536) as Hp' by (unfold port_written in Ew; lia).
    rewrite (proj1 (port_digits_spec _ _ Hp')). f_equal.
    destruct (_userInfo u), (contains (_host u) _); cbn [app]; rewrite <-?app_assoc; cbn [app];
      rewrite <-?app_assoc; cbn [app]; reflexivity.
  - rewrite app_nil_r. by destruct (_userInfo u), (contains (_host u) _).
Qed.

(** Well-formed authorities: what the composed text can be cut at again. *)
Definition wf_authority (u : URI) : bool :=
  avoids (str "@/?#") (_userInfo u) && avoids (str "@/?#") (_host u) &&
  (if contains (_host u) (chr ":") then avoids (str "]") (_host u)
   else negb (match _host u with c :: _ => c =? chr "[" | [] => false end)) &&
  eqb_str (Str.toLower (_host u)) (_host u) && (0 <=? _port u) && (_port u <? 65536).

Lemma authority_loop_plain ui part a r :
  avoids (str "@/?#") a = true ->
  authority_loop ui part (a ++ r) = authority_loop ui (part ++ a) r.
Proof.
  revert part. induction a as [|c a IH]; intros part Ha; [by rewrite app_nil_r|].
  apply andb_true_iff in Ha as [Hc Ha]. cbn [app authority_loop].
  unfold not_in, contains in Hc. cbn [str map existsb String.list_ascii_of_string] in Hc.
  unfold contains. cbn [str map existsb String.list_ascii_of_string].
  assert ((c =? chr "@") = false) as -> by lia.
  assert ((c =? chr "/") || ((c =? chr "?") || ((c =? chr "#") || false)) = false) as -> by lia.
  rewrite IH by done. by rewrite <-app_assoc.
Qed.

(** The text of the authority ends where a path, a query or a fragment starts. *)
Definition ends_authority (rest : list Z) : bool :=
  match rest with [] => true | c :: _ => contains (str "/?#") c end.

Lemma authority_loop_end ui part rest :
  ends_authority rest = true -> authority_loop ui part rest = (ui, part, rest).
Proof. destruct rest as [|c r]; [done|]. cbn [authority_loop ends_authority]. by intros ->. Qed.

Lemma host_port_text_avoids u :
  wf_authority u = true -> avoids (str "@/?#") (host_text u ++ port_text u) = true.
Proof.
  unfold wf_authority. intros (((((_ & Hh)%andb_true_iff & _)%andb_true_iff & _)%andb_true_iff
    & Hp0)%andb_true_iff & Hp1)%andb_true_iff.
  rewrite avoids_app. apply andb_true_iff. split.
  - unfold host_text. case_match; [|done]. by rewrite !avoids_app, Hh.
  - unfold port_text. destruct (port_written u) eqn:Ew; [|done].
    unfold port_written in Ew. destruct (port_digits_spec [] (_port u)) as (_ & _ & Ha & _); [lia|].
    rewrite avoids_cons. rewrite (avoids_weaken _ (str "@/?#:")); [done| |done].
    intros c. unfold contains. cbn [str map existsb String.list_ascii_of_string]. lia.
Qed.

Lemma authority_text_loop u rest :
  wf_authority u = true -> ends_authority rest = true ->
  authority_loop [] [] (authority_text u ++ rest) = (_userInfo u, host_text u ++ port_text u, rest).
Proof.
  intros Hw Hr. pose proof (host_port_text_avoids u Hw) as Hhp.
  unfold wf_authority in Hw. apply andb_true_iff in Hw as [Hw _].
  apply andb_true_iff in Hw as [Hw _]. apply andb_true_iff in Hw as [Hw _].
  apply andb_true_iff in Hw as [Hw _]. apply andb_true_iff in Hw as [Hu _].
  unfold authority_text, userInfo_text. rewrite <-app_assoc.
  destruct (_userInfo u) as [|x ui].
  - change ([] ++ ?r) with r. rewrite authority_loop_plain by done. by rewrite authority_loop_end.
  - rewrite <-app_assoc, authority_loop_plain by done. cbn [app authority_loop].
    change (contains (str "/?#") (chr "@")) with false. change (chr "@" =? chr "@") with true.
    cbv iota. rewrite authority_loop_plain by done. by rewrite authority_loop_end.
Qed.

(** The port after the host, as [parseHostAndPort] sets it. *)
Lemma parse_port_text u v :
  0 <= _port u < 65536 -> _scheme v = _scheme u ->
  match port_text u with
  | c :: port =>
      if c =? chr ":" then parsePort port
      else modify (fun u => set_port (getWellKnownPort u) u)
  | [] => modify (fun u => set_port (getWellKnownPort u) u)
  end v = (Done tt, set_port (getPort u) v).
Proof.
  intros Hp Hs. unfold port_text, getPort. destruct (port_written u) eqn:Ew.
  - unfold port_written in Ew. destruct (port_digits_spec [] (_port u)) as (_ & Ht & _ & Hne); [lia|].
    change (chr ":" =? chr ":") with true. cbv iota. unfold parsePort.
    destruct (port_digits (_port u)) as [|d ds]; [done|].
    rewrite Ht. unfold lift, bind.
    assert ((0 <? _port u) && (_port u <? 65536) = true) as -> by lia.
    assert ((_port u =? 0) = false) as -> by lia. unfold modify, u16. by rewrite Z.mod_small by lia.
  - unfold modify. do 2 f_equal. rewrite (getWellKnownPort_scheme v u) by done.
    unfold port_written, isWellKnownPort in Ew. destruct (_port u =? 0) eqn:E; lia.
Qed.

Lemma parseHostAndPort_spec u v :
  wf_authority u = true -> _scheme v = _scheme u -> _host v = [] -> _port v = getWellKnownPort u ->
  parseHostAndPort (host_text u ++ port_text u) v =
    (Done tt, set_host (_host u) (set_port (getPort u) v)).
Proof.
  intros Hw Hs Hh Hp. unfold wf_authority in Hw.
  apply andb_true_iff in Hw as [Hw Hp1]. apply andb_true_iff in Hw as [Hw Hp0].
  apply andb_true_iff in Hw as [Hw Hlow%bool_decide_eq_true]. apply andb_true_iff in Hw as [Hw Hbr].
  pose proof (parse_port_text u v ltac:(lia) Hs) as Hport. unfold parseHostAndPort.
  destruct (contains (_host u) (chr ":")) eqn:Ec; unfold host_text; rewrite Ec.
  - cbn [app]. change (chr "[" =? chr "[") with true. cbv iota. rewrite <-app_assoc.
    cbn [app]. rewrite span_avoids by done. rewrite bind_ret.
    rewrite (bind_Done _ _ _ _ _ Hport). by rewrite Hlow.
  - assert (avoids (str ":") (_host u) = true) as Hcol.
    { apply avoids_Forall, List.Forall_forall. intros x Hx. unfold not_in, contains.
      cbn [str map existsb String.list_ascii_of_string]. rewrite orb_false_r.
      destruct (Z.eqb_spec x (chr ":")) as [->|]; [|done].
      assert (existsb (Z.eqb (chr ":")) (_host u) = true) as Hf; [|by unfold contains in Ec; rewrite Hf in Ec].
      apply existsb_exists. exists (chr ":"). split; [done|]. apply Z.eqb_refl. }
    assert (span (not_in (str ":")) (_host u ++ port_text u) = (_host u, port_text u)) as Hspan.
    { unfold port_text. destruct (port_written u); [by apply span_avoids|].
      rewrite app_nil_r. by apply span_avoids_all. }
    destruct (_host u ++ port_text u) as [|c r] eqn:E.
    + apply app_eq_nil in E as [E1 E2]. rewrite E1, E2 in *.
      unfold modify in Hport. injection Hport as Hport. rewrite <-Hport.
      rewrite (getWellKnownPort_scheme v u), <-Hp by done. by destruct v; simpl in *; subst.
    + assert ((c =? chr "[") = false) as ->.
      { destruct (_host u); simpl in E.
        - unfold port_text in E. destruct (port_written u); [|done]. by injection E as <- _.
        - injection E as -> _. by apply negb_true_iff. }
      rewrite Hspan, bind_ret. rewrite (bind_Done _ _ _ _ _ Hport). by rewrite Hlow.
Qed.

(** *** The whole text *)

(** Composition writes a slash where the path has none but must have one, and
    parsing fills in the port of the scheme. *)
Definition written_path (u : URI) : list Z :=
  match _path u with
  | c :: _ =>
      if negb (bool_decide (authority_text u = [])) && negb (c =? chr "/")
      then chr "/" :: _path u else _path u
  | [] =>
      if negb (bool_decide (_query u = [])) || negb (bool_decide (_fragment u = []))
      then [chr "/"] else []
  end.

Definition canonical (u : URI) : URI :=
  if isRelative u then u else set_port (getPort u) (set_path (written_path u) u).

Definition double_slash (s : list Z) : bool := starts_with_slash s && starts_with_slash (drop 1 s).

(** The URIs that their text can stand for. *)
Definition wf_uri (u : URI) : bool :=
  forallb is_byteb (_path u) && forallb is_byteb (_fragment u) && avoids (str "#") (_query u) &&
  (if isRelative u then
     bool_decide (_userInfo u = []) && bool_decide (_host u = []) && (_port u =? 0) &&
     match _path u with
     | [] => true
     | c :: _ => contains (str "/.") c || avoids (str ":") (_path u)
     end
   else
     avoids (str ":?#/") (_scheme u) && avoids (str ".") (take 1 (_scheme u)) &&
     eqb_str (Str.toLower (_scheme u)) (_scheme u) && wf_authority u &&
     (if negb (bool_decide (authority_text u = [])) then true
      else if eqb_str (_scheme u) (str "file") then
        bool_decide (_path u = []) || starts_with_slash (_path u)
      else negb (bool_decide (written_path u = [])) && negb (double_slash (_path u)))).

(** The text after the scheme. *)
Definition authority_part (u : URI) : list Z :=
  if negb (bool_decide (authority_text u = [])) || eqb_str (_scheme u) (str "file")
  then str "//" ++ authority_text u else [].

Definition hier_text (u : URI) : list Z :=
  authority_part u ++
  encoding RESERVED_PATH (written_path u) ++ tail_text (_query u) (_fragment u).

Lemma encoding_slash s : encoding RESERVED_PATH (chr "/" :: s) = chr "/" :: encoding RESERVED_PATH s.
Proof. done. Qed.

Lemma toString_absolute u :
  isRelative u = false -> 0 <= _port u < 65536 -> Forall is_byte (_path u) ->
  Forall is_byte (_fragment u) ->
  toString u = Done (_scheme u ++ [chr ":"] ++ hier_text u).
Proof.
  intros Hr Hp Hpath Hf. unfold toString. rewrite Hr, getAuthority_spec by done. cbn [rbind].
  unfold hier_text, written_path.
  assert (forall b (x y : list Z), (if b : bool then (_scheme u ++ [chr ":"]) ++ x ++ y
            else _scheme u ++ [chr ":"]) = _scheme u ++ [chr ":"] ++ (if b then x ++ y else [])) as Hif
    by (intros []; intros; rewrite <-?app_assoc; reflexivity).
  rewrite Hif. fold (authority_part u).
  destruct (_path u) as [|c path].
  - cbn [rbind]. rewrite query_and_fragment_spec by done. f_equal.
    case_match; [rewrite encoding_slash|]; cbn [encoding map concat];
      rewrite <-!app_assoc; reflexivity.
  - rewrite uri_encode_spec by done. cbn [rbind]. rewrite query_and_fragment_spec by done. f_equal.
    case_match; [rewrite encoding_slash|]; rewrite <-!app_assoc; reflexivity.
Qed.

Lemma written_path_bytes u : Forall is_byte (_path u) -> Forall is_byte (written_path u).
Proof.
  intros H. unfold written_path.
  destruct H; case_match; auto using Forall_cons_2, Forall_nil_2, chr_byte.
Qed.

Lemma written_path_ends_authority u :
  authority_text u <> [] \/ _path u = [] ->
  ends_authority (encoding RESERVED_PATH (written_path u) ++ tail_text (_query u) (_fragment u)) = true.
Proof.
  intros H. unfold written_path. destruct (_path u) as [|c path].
  - destruct (_query u); simpl; [|done]. by destruct (_fragment u).
  - destruct H as [H|]; [|done]. rewrite bool_decide_eq_false_2 by done. cbn [negb andb].
    destruct (Z.eqb_spec c (chr "/")) as [->|]; simpl; by rewrite ?encoding_slash.
Qed.

Lemma encoding_double_slash w q f :
  double_slash (encoding RESERVED_PATH w ++ tail_text q f) = double_slash w.
Proof.
  assert (starts_with_slash (tail_text q f) = false) as Ht by (by destruct q, f).
  assert (forall c, escaped RESERVED_PATH c = true -> (c =? chr "/") = false) as Hesc.
  { intros c Hc. apply Z.eqb_neq. intros ->. done. }
  unfold double_slash. destruct w as [|c w].
  { change (encoding RESERVED_PATH [] ++ tail_text q f) with (tail_text q f). by rewrite Ht. }
  rewrite encoding_cons_first. destruct (escaped RESERVED_PATH c) eqn:Ec.
  { cbn [starts_with_slash percent app]. by rewrite (Hesc c) by done. }
  cbn [starts_with_slash app drop]. f_equal. rewrite !drop_0. destruct w as [|d w]; [done|].
  rewrite encoding_cons_first. destruct (escaped RESERVED_PATH d) eqn:Ed; [|done].
  cbn [starts_with_slash percent app]. by rewrite (Hesc d) by done.
Qed.

(** What the scheme and the authority leave behind. *)
Lemma parse_hier u v :
  wf_uri u = true -> isRelative u = false ->
  v = set_port (getWellKnownPort u) (set_scheme (_scheme u) empty_uri) ->
  exists a r, hier_text u = a :: r /\
  (let* it := (if a =? chr "/" then
                 match r with
                 | b :: it'' => if b =? chr "/" then parseAuthority it'' else ret (a :: r)
                 | [] => ret (a :: r)
                 end
               else ret (a :: r)) in
   parsePathEtc it) v = (Done tt, canonical u).
Proof.
  intros Hw Hr Hv. unfold wf_uri in Hw. rewrite Hr in Hw.
  apply andb_true_iff in Hw as [Hw Habs]. apply andb_true_iff in Hw as [Hw Hq].
  apply andb_true_iff in Hw as [Hp%bytes_Forall Hf%bytes_Forall].
  apply andb_true_iff in Habs as [Habs Hlast]. apply andb_true_iff in Habs as [_ Hauth].
  set (rest := encoding RESERVED_PATH (written_path u) ++ tail_text (_query u) (_fragment u)).
  assert (forall v', _path v' = [] -> _query v' = [] -> _fragment v' = [] ->
            parsePathEtc rest v' =
              (Done tt, set_fragment (_fragment u) (set_query (_query u) (set_path (written_path u) v'))))
    as Hrest by (intros; apply parsePathEtc_spec; auto using written_path_bytes).
  unfold hier_text, authority_part. fold rest.
  destruct (negb (bool_decide (authority_text u = [])) || eqb_str (_scheme u) (str "file")) eqn:E.
  - exists (chr "/"), (chr "/" :: authority_text u ++ rest). split; [reflexivity|].
    change (chr "/" =? chr "/") with true. cbv iota.
    assert (ends_authority rest = true) as Hend.
    { destruct (bool_decide (authority_text u = [])) eqn:Ea; cbn [negb] in Hlast.
      - apply bool_decide_eq_true in Ea. cbn [negb orb] in E. rewrite E in Hlast.
        unfold rest. apply orb_true_iff in Hlast as [Hl%bool_decide_eq_true|Hl];
          [by apply written_path_ends_authority; right|].
        unfold written_path. destruct (_path u) as [|c p]; [done|].
        rewrite bool_decide_eq_true_2 by done. apply Z.eqb_eq in Hl as ->.
        cbn [negb andb]. by rewrite encoding_slash.
      - apply bool_decide_eq_false in Ea. by apply written_path_ends_authority; left. }
    unfold parseAuthority. rewrite authority_text_loop by done.
    assert (parseHostAndPort (host_text u ++ port_text u) v =
              (Done tt, set_host (_host u) (set_port (getPort u) v))) as Hhp
      by (apply parseHostAndPort_spec; by subst v).
    rewrite bind_bind, (bind_Done _ _ _ _ _ Hhp), bind_bind, bind_modify, bind_ret.
    rewrite Hrest by (by subst v). unfold canonical. rewrite Hr. subst v. by destruct u.
  - apply orb_false_iff in E as [Ea%negb_false_iff Efile].
    rewrite Ea, Efile in Hlast. cbn [negb] in Hlast. apply bool_decide_eq_true in Ea.
    apply andb_true_iff in Hlast as [Hne Hds]. apply negb_true_iff, bool_decide_eq_false in Hne.
    apply negb_true_iff in Hds.
    assert (authority_text u = [] -> canonical u =
      set_fragment (_fragment u) (set_query (_query u) (set_path (written_path u) v))) as Hcan.
    { intros _. unfold canonical. rewrite Hr.
      unfold authority_text, userInfo_text, host_text, port_text in Ea.
      apply app_eq_nil in Ea as [Eu [Eh Ep]%app_eq_nil].
      assert (_userInfo u = []) as Eu' by (destruct (_userInfo u); [done|by destruct l]).
      assert (_host u = []) as Eh' by (by destruct (contains (_host u) _)).
      assert (getPort u = getWellKnownPort u) as ->.
      { unfold getPort. destruct (_port u =? 0) eqn:E0; [done|].
        destruct (port_written u) eqn:Ew; [done|].
        unfold port_written, isWellKnownPort in Ew. lia. }
      subst v. destruct u; simpl in *. by subst. }
    specialize (Hcan Ea).
    unfold rest in *. clearbody rest. destruct (written_path u) as [|c w] eqn:Ewp; [done|].
    destruct (encoding RESERVED_PATH (c :: w)) as [|a e] eqn:Ee.
    { rewrite encoding_cons_first in Ee. by destruct (escaped _ c). }
    exists a, (e ++ tail_text (_query u) (_fragment u)). split; [done|].
    rewrite Hcan, <-(Hrest v) by (by subst v). cbn [app].
    destruct (a =? chr "/") eqn:E1; [|done].
    destruct (e ++ _) as [|b r'] eqn:Eer; [done|]. destruct (b =? chr "/") eqn:E2; [|done].
    exfalso. assert (double_slash (c :: w) = true) as Hds'.
    { rewrite <-(encoding_double_slash _ (_query u) (_fragment u)), Ee. cbn [app]. rewrite Eer.
      unfold double_slash. simpl. by rewrite E1, E2. }
    rewrite <-Ewp in Hds'. unfold written_path in Hds'. rewrite Ea in Hds'.
    destruct (_path u); [by destruct (_ || _)|]. simpl in Hds', Hds. congruence.
Qed.

Lemma parse_absolute u :
  wf_uri u = true -> isRelative u = false ->
  parse (_scheme u ++ [chr ":"] ++ hier_text u) empty_uri = (Done tt, canonical u).
Proof.
  intros Hw Hr.
  destruct (parse_hier u _ Hw Hr eq_refl) as (a & r & Eh & Hp). rewrite Eh.
  unfold wf_uri in Hw. rewrite Hr in Hw. apply andb_true_iff in Hw as [_ Habs].
  apply andb_true_iff in Habs as [Habs _]. apply andb_true_iff in Habs as [Habs _].
  apply andb_true_iff in Habs as [Habs Hlow%bool_decide_eq_true].
  apply andb_true_iff in Habs as [Hs Hdot].
  pose proof (span_avoids (str ":?#/") (_scheme u) (chr ":") (a :: r) Hs ltac:(done)) as Hspan.
  unfold isRelative in Hr. apply bool_decide_eq_false in Hr. unfold parse. cbn [app].
  destruct (_scheme u) as [|c s] eqn:Es; [done|]. cbn [app].
  assert (not_in (str "/.?#") c = true) as ->.
  { rewrite avoids_cons in Hs. apply andb_true_iff in Hs as [Hc _].
    change (take 1 (c :: s)) with [c] in Hdot. rewrite avoids_cons in Hdot. apply andb_true_iff in Hdot as [Hd _].
    unfold not_in, contains in *. cbn [str map existsb String.list_ascii_of_string] in *. lia. }
  change (c :: s ++ chr ":" :: a :: r) with ((c :: s) ++ chr ":" :: a :: r). rewrite Hspan.
  change (chr ":" =? chr ":") with true. cbv iota. rewrite bind_modify.
  assert (setScheme (c :: s) empty_uri =
            set_port (getWellKnownPort u) (set_scheme (c :: s) empty_uri)) as ->.
  { unfold setScheme. rewrite Hlow. cbn [_port empty_uri set_scheme]. f_equal.
    by apply getWellKnownPort_scheme. }
  exact Hp.
Qed.

Lemma encoding_path_colon s :
  Forall is_byte s -> avoids (str ":") s = true -> avoids (str ":") (encoding RESERVED_PATH s) = true.
Proof.
  induction 1 as [|c s Hc Hs IH]; [done|]. rewrite avoids_cons, encoding_cons_first, avoids_app.
  intros [Hcc ->%IH]%andb_true_iff. rewrite andb_true_r.
  destruct (escaped RESERVED_PATH c); [|by rewrite avoids_cons, Hcc].
  assert (forall d, 0 <= d < 16 -> not_in (str ":") (digit_char d) = true) as Hd.
  { intros d Hd. apply (allbelow_spec 16 (fun d => not_in (str ":") (digit_char d))); [done|lia]. }
  unfold percent, avoids. cbn [forallb]. by rewrite !Hd by (unfold is_byte in *; lia).
Qed.

(** A text with no colon, or with a first character that no scheme has, is not
    taken for one that starts with a scheme. *)
Lemma parse_relative t u :
  match t with [] => True | c :: _ => not_in (str "/.?#") c = false \/
    match snd (span (not_in (str ":?#/")) t) with [] => True | d :: _ => d <> chr ":" end end ->
  parse t u = parsePathEtc t u.
Proof.
  destruct t as [|c t]; [done|]. intros H. unfold parse.
  destruct (not_in (str "/.?#") c); [|done]. destruct H as [|H]; [done|].
  destruct (span _ (c :: t)) as [sch [|d r]]; [done|]. simpl in H.
  by rewrite (proj2 (Z.eqb_neq _ _) H).
Qed.

Lemma relative_text_no_scheme path q f :
  Forall is_byte path ->
  match path with [] => True | c :: _ => contains (str "/.") c || avoids (str ":") path = true end ->
  let t := encoding RESERVED_PATH path ++ tail_text q f in
  match t with [] => True | c :: _ => not_in (str "/.?#") c = false \/
    match snd (span (not_in (str ":?#/")) t) with [] => True | d :: _ => d <> chr ":" end end.
Proof.
  intros Hb Hp t. destruct path as [|c path].
  - unfold t. change (encoding RESERVED_PATH [] ++ ?x) with x.
    destruct q; [destruct f; [done|]|]; by left.
  - assert (t = encoding RESERVED_PATH (c :: path) ++ tail_text q f) as Et by done. clearbody t.
    destruct t as [|c0 t0] eqn:E0; [done|]. rewrite <-E0 in *.
    apply orb_true_iff in Hp as [Hp|Hp].
    + left. assert (c = chr "/" \/ c = chr ".") as Hc.
      { unfold contains in Hp. cbn [str map existsb String.list_ascii_of_string] in Hp. lia. }
      rewrite E0 in Et. destruct Hc as [-> | ->]; by injection Et as -> _.
    + right. pose proof (encoding_path_colon _ Hb Hp) as Hc.
      destruct (tail_text q f) as [|d r] eqn:Etl.
      * rewrite app_nil_r in Et. destruct (snd _) as [|d r] eqn:Es; [done|].
        apply span_snd_in in Es as [a Ea]. rewrite Et in Ea. rewrite Ea, avoids_app, avoids_cons in Hc.
        apply andb_true_iff in Hc as [_ [Hc _]%andb_true_iff]. intros ->. done.
      * assert (contains (str ":?#/") d = true /\ d <> chr ":") as [Hd1 Hd2].
        { destruct q; [destruct f; [done|]|]; by injection Etl as <- _. }
        clear Etl E0. subst t. clear Hp Hb.
        induction (encoding RESERVED_PATH (c :: path)) as [|x e IH]; cbn [app span].
        -- unfold not_in at 1. by rewrite Hd1.
        -- rewrite avoids_cons in Hc. apply andb_true_iff in Hc as [Hx Hc].
           destruct (not_in (str ":?#/") x) eqn:Ex; [destruct (span _ (e ++ _)); by apply IH|].
           simpl. by intros ->.
Qed.

Lemma parse_toString_lemma u : wf_uri u = true -> rbind (toString u) of_string = Done (canonical u).
Proof.
  intros Hw. pose proof Hw as Hw'. unfold wf_uri in Hw'.
  apply andb_true_iff in Hw' as [Hw' Hrel]. apply andb_true_iff in Hw' as [Hw' Hq].
  apply andb_true_iff in Hw' as [Hp%bytes_Forall Hf%bytes_Forall].
  destruct (isRelative u) eqn:Er.
  - apply andb_true_iff in Hrel as [Hrel Hpath]. apply andb_true_iff in Hrel as [Hrel Hport].
    apply andb_true_iff in Hrel as [Hui%bool_decide_eq_true Hh%bool_decide_eq_true].
    unfold toString. rewrite Er, uri_encode_spec by done. cbn [rbind app].
    rewrite query_and_fragment_spec by done. cbn [rbind]. unfold of_string, run.
    rewrite parse_relative, parsePathEtc_spec by (done ||
      (apply relative_text_no_scheme; [done|by destruct (_path u)])).
    unfold canonical. rewrite Er. f_equal. unfold isRelative in Er. apply bool_decide_eq_true in Er.
    apply Z.eqb_eq in Hport. destruct u; simpl in *. by subst.
  - apply andb_true_iff in Hrel as [Hrel _]. apply andb_true_iff in Hrel as [_ Ha].
    unfold wf_authority in Ha. rewrite toString_absolute by (done || lia).
    cbn [rbind]. unfold of_string, run. by rewrite parse_absolute.
Qed.

(** ** Path segments *)

(** A segment: not empty, and without a slash. *)
Definition is_segment (s : list Z) : Prop := s <> [] /\ avoids (str "/") s = true.
(** A segment that is not a dot segment. *)
Definition plain_segment (s : list Z) : Prop := s <> DOT /\ s <> DOTDOT.

Lemma not_in_slash c : not_in (str "/") c = negb (c =? chr "/").
Proof. unfold not_in, contains. cbn [str map existsb String.list_ascii_of_string]. by rewrite orb_false_r. Qed.

Lemma segments_loop_acc it seg acc : segments_loop it seg acc = acc ++ segments_loop it seg [].
Proof.
  revert seg acc. induction it as [|c it IH]; intros seg acc; cbn [segments_loop].
  - destruct seg; by rewrite ?app_nil_r.
  - destruct (c =? chr "/"); [|apply IH]. destruct seg; [apply IH|].
    rewrite IH, (IH [] ([] ++ _)). by rewrite <-app_assoc.
Qed.

Lemma segments_loop_text a r seg acc :
  avoids (str "/") a = true -> segments_loop (a ++ r) seg acc = segments_loop r (seg ++ a) acc.
Proof.
  revert seg. induction a as [|c a IH]; intros seg; [by rewrite app_nil_r|].
  rewrite avoids_cons, not_in_slash. intros [Hc%negb_true_iff Ha]%andb_true_iff.
  cbn [app segments_loop]. rewrite Hc, IH by done. by rewrite <-app_assoc.
Qed.

(** The segments, each after a slash. *)
Definition slashed (segs : list (list Z)) : list Z := concat (map (cons (chr "/")) segs).

Lemma segments_loop_slashed segs seg tail acc :
  Forall is_segment segs -> avoids (str "/") seg = true -> tail = [] \/ tail = [chr "/"] ->
  segments_loop (slashed segs ++ tail) seg acc =
    acc ++ (if bool_decide (seg = []) then [] else [seg]) ++ segs.
Proof.
  intros Hs. revert seg acc. induction Hs as [|s segs [Hne Ha] Hs IH]; intros seg acc Hseg Ht.
  - destruct Ht as [-> | ->]; cbn; [|change (47 =? chr "/") with true; cbv iota];
      destruct seg; by rewrite ?app_nil_r.
  - unfold slashed. cbn [map concat]. fold (slashed segs).
    change ((chr "/" :: s) ++ slashed segs) with (chr "/" :: (s ++ slashed segs)).
    cbn [app segments_loop]. change (chr "/" =? chr "/") with true. cbv iota.
    rewrite <-app_assoc.
    destruct seg as [|x seg]; rewrite segments_loop_text, IH by done; cbn [app].
    + rewrite bool_decide_eq_false_2 by done. done.
    + rewrite bool_decide_eq_false_2 by done. by rewrite <-app_assoc.
Qed.

Lemma segments_are_segments it seg acc :
  avoids (str "/") seg = true -> Forall is_segment acc -> Forall is_segment (segments_loop it seg acc).
Proof.
  revert seg acc. induction it as [|c it IH]; intros seg acc Hs Ha; cbn [segments_loop].
  - destruct seg; [done|]. apply Forall_app_2; [done|]. repeat constructor; done.
  - destruct (c =? chr "/") eqn:E.
    + destruct seg; apply IH; try done. apply Forall_app_2; [done|]. repeat constructor; done.
    + apply IH; [|done]. by rewrite avoids_app, Hs, avoids_cons, not_in_slash, E.
Qed.

(** What [buildPath] writes. *)
Definition path_prefix (relative leadingSlash : bool) (s : list Z) : list Z :=
  if leadingSlash then [chr "/"] else if relative && contains s (chr ":") then str "./" else [].

Lemma build_loop_rest relative leadingSlash segs path :
  build_loop relative leadingSlash false segs path = path ++ slashed segs.
Proof.
  revert path. induction segs as [|s segs IH]; intros path; cbn [build_loop]; [by rewrite app_nil_r|].
  rewrite IH. unfold slashed. cbn [map concat]. rewrite <-!app_assoc. done.
Qed.

Definition slash_if (b : bool) : list Z := if b then [chr "/"] else [].

Lemma buildPath_spec segs lead trail u :
  _path (buildPath segs lead trail u) =
    match segs with
    | [] => slash_if trail
    | s :: r => path_prefix (isRelative u) lead s ++ s ++ slashed r ++ slash_if trail
    end.
Proof.
  unfold buildPath. cbn [_path set_path]. destruct segs as [|s r]; cbn [build_loop].
  - by destruct trail.
  - rewrite build_loop_rest. unfold path_prefix, slash_if.
    by destruct lead, (isRelative u && contains s (chr ":")), trail; cbn [app];
      rewrite <-?app_assoc, ?app_nil_r.
Qed.

Definition first_dot (relative leadingSlash : bool) (segs : list (list Z)) : list (list Z) :=
  match segs with
  | s :: _ => if negb leadingSlash && relative && contains s (chr ":") then [DOT] else []
  | [] => []
  end.

Lemma buildPath_segments segs lead trail u :
  Forall is_segment segs ->
  getPathSegments (_path (buildPath segs lead trail u)) [] = first_dot (isRelative u) lead segs ++ segs.
Proof.
  intros Hs. rewrite buildPath_spec. unfold getPathSegments.
  destruct Hs as [|s r [Hne Ha] Hr]; [by destruct trail|].
  assert (slash_if trail = [] \/ slash_if trail = [chr "/"]) as Ht by (destruct trail; auto).
  assert (forall acc, segments_loop (s ++ slashed r ++ slash_if trail) [] acc = acc ++ s :: r) as Hmain.
  { intros acc. rewrite segments_loop_text, segments_loop_slashed by done. cbn [app].
    by rewrite bool_decide_eq_false_2. }
  unfold path_prefix, first_dot. destruct lead; cbn [negb andb].
  { exact (Hmain []). }
  destruct (isRelative u && contains s (chr ":")); [exact (Hmain [DOT])|exact (Hmain [])].
Qed.

(** *** Dot segments *)

(** A normal list of segments: parent segments only in front, and only when
    they may stay there. *)
Definition normal (removeLeading : bool) (segs : list (list Z)) : Prop :=
  exists k l, segs = repeat DOTDOT k ++ l /\ Forall plain_segment l /\ (removeLeading = true -> k = 0%nat).

Lemma dot_step_plain removeLeading norm s :
  plain_segment s -> dot_step removeLeading norm s = norm ++ [s].
Proof.
  intros [H1 H2]. unfold dot_step.
  destruct (eqb_str s DOTDOT) eqn:E; [by apply eqb_str_spec in E|].
  destruct (eqb_str s DOT) eqn:E'; [by apply eqb_str_spec in E'|done].
Qed.

Lemma dot_step_normal removeLeading norm s :
  normal removeLeading norm -> normal removeLeading (dot_step removeLeading norm s).
Proof.
  intros (k & l & -> & Hl & Hk).
  destruct (decide (s = DOT)) as [->|H1]; [by exists k, l|].
  destruct (decide (s = DOTDOT)) as [->|H2].
  2:{ rewrite dot_step_plain by done. exists k, (l ++ [s]). rewrite app_assoc.
      split_and!; [done| |done]. apply Forall_app_2; [done|]. by repeat constructor. }
  unfold dot_step. change (eqb_str DOTDOT DOTDOT) with true. cbv iota.
  destruct l as [|s' l' _] using rev_ind.
  - rewrite app_nil_r. destruct k as [|k].
    + cbn [repeat app]. rewrite bool_decide_eq_true_2 by done. cbn [negb].
      destruct removeLeading; [by exists 0%nat, []|]. cbn [negb]. by exists 1%nat, [].
    + rewrite bool_decide_eq_false_2 by done. cbn [negb].
      replace (eqb_str (back _) DOTDOT) with true
        by (cbn [repeat]; rewrite repeat_cons, back_snoc; done).
      exists (S (S k)), []. rewrite app_nil_r. split_and!; [|done|intros E; by specialize (Hk E)].
      change (repeat DOTDOT (S (S k))) with (DOTDOT :: repeat DOTDOT (S k)). by rewrite repeat_cons.
  - rewrite app_assoc, back_snoc, pop_back_snoc. apply Forall_app in Hl as [Hl' Hs'].
    rewrite bool_decide_eq_false_2 by (intros E; by destruct (app_cons_not_nil _ _ _ (eq_sym E))).
    cbn [negb]. inv_Forall. destruct (eqb_str s' DOTDOT) eqn:E.
    { apply eqb_str_spec in E as ->. by destruct H as [_ ?]. }
    by exists k, l'.
Qed.

Lemma foldl_dot_step_normal removeLeading segs norm :
  normal removeLeading norm -> normal removeLeading (foldl (dot_step removeLeading) norm segs).
Proof.
  revert norm. induction segs as [|s segs IH]; intros norm H; [done|]. by apply IH, dot_step_normal.
Qed.

Lemma foldl_dot_step_plain removeLeading l norm :
  Forall plain_segment l -> foldl (dot_step removeLeading) norm l = norm ++ l.
Proof.
  intros Hl. revert norm. induction Hl as [|s l Hs Hl IH]; intros norm; [by rewrite app_nil_r|].
  cbn [foldl]. rewrite dot_step_plain, IH by done. by rewrite <-app_assoc.
Qed.

Lemma foldl_dot_step_parents k n :
  foldl (dot_step false) (repeat DOTDOT n) (repeat DOTDOT k) = repeat DOTDOT (n + k).
Proof.
  revert n. induction k as [|k IH]; intros n; [by rewrite Nat.add_0_r|].
  cbn [repeat foldl].
  replace (dot_step false (repeat DOTDOT n) DOTDOT) with (repeat DOTDOT (S n)).
  - rewrite IH. f_equal. lia.
  - unfold dot_step. change (eqb_str DOTDOT DOTDOT) with true. cbv iota.
    destruct n as [|n]; [done|]. rewrite bool_decide_eq_false_2 by done. cbn [negb].
    replace (eqb_str (back _) DOTDOT) with true
      by (cbn [repeat]; rewrite repeat_cons, back_snoc; done).
    change (repeat DOTDOT (S (S n))) with (DOTDOT :: repeat DOTDOT (S n)). by rewrite repeat_cons.
Qed.

(** Removing dot segments from a normal list changes nothing. *)
Lemma foldl_dot_step_id removeLeading segs :
  normal removeLeading segs -> foldl (dot_step removeLeading) [] segs = segs.
Proof.
  intros (k & l & -> & Hl & Hk). rewrite foldl_app.
  destruct removeLeading.
  - rewrite (Hk eq_refl). by rewrite (foldl_dot_step_plain _ l []).
  - change [] with (repeat DOTDOT 0). rewrite foldl_dot_step_parents. by apply foldl_dot_step_plain.
Qed.

Lemma foldl_dot_step_segments removeLeading segs norm :
  Forall is_segment norm -> Forall is_segment segs ->
  Forall is_segment (foldl (dot_step removeLeading) norm segs).
Proof.
  intros Hn Hs. revert norm Hn. induction Hs as [|s segs Hs Hss IH]; intros norm Hn; [done|].
  apply IH. assert (Forall is_segment (norm ++ [s])) by (apply Forall_app_2; auto).
  unfold dot_step. repeat case_match; auto. by apply Forall_take.
Qed.

Lemma isRelative_scheme u v : _scheme u = _scheme v -> isRelative u = isRelative v.
Proof. unfold isRelative. by intros ->. Qed.

(** The segments of the path after [removeDotSegments]. *)
Lemma removeDotSegments_segments b u :
  exists norm, normal b norm /\ Forall is_segment norm /\
    getPathSegments (_path (removeDotSegments b u)) [] =
      first_dot (isRelative u) (starts_with_slash (_path u)) norm ++ norm.
Proof.
  unfold removeDotSegments. destruct (_path u) as [|c p] eqn:Ep.
  - exists []. rewrite Ep. split_and!; [by exists 0%nat, []|done|done].
  - set (norm := foldl _ _ _). exists norm.
    assert (Forall is_segment norm) as Hn
      by (apply foldl_dot_step_segments; [done|by apply segments_are_segments]).
    split_and!; [by apply foldl_dot_step_normal; exists 0%nat, []|done|].
    by rewrite buildPath_segments.
Qed.

Lemma ends_with_slash_snoc s c : ends_with_slash (s ++ [c]) = (c =? chr "/").
Proof.
  unfold ends_with_slash. rewrite length_app. simpl.
  replace (_ - 1)%nat with (length s) by lia. rewrite nth_middle. by destruct s.
Qed.

Lemma segment_ends s p : is_segment s -> ends_with_slash (p ++ s) = false.
Proof.
  intros [Hne Ha]. destruct s as [|c s _] using rev_ind; [done|].
  rewrite app_assoc, ends_with_slash_snoc.
  rewrite avoids_app, avoids_cons, not_in_slash in Ha.
  by destruct (c =? chr "/"); rewrite ?andb_false_r in Ha.
Qed.

(** The slashes at both ends of a path that was built. *)
Lemma buildPath_slashes segs lead trail u :
  Forall is_segment segs -> segs <> [] ->
  starts_with_slash (_path (buildPath segs lead trail u)) = lead /\
  ends_with_slash (_path (buildPath segs lead trail u)) = trail.
Proof.
  intros Hs Hne. rewrite buildPath_spec. destruct Hs as [|s r Hs Hr]; [done|]. split.
  - destruct Hs as [Hn Ha]. unfold path_prefix. destruct lead; [done|].
    destruct (_ && _); [done|]. destruct s as [|c s]; [done|].
    rewrite avoids_cons, not_in_slash in Ha. simpl. by destruct (c =? chr "/").
  - set (p := path_prefix _ _ _). destruct trail; unfold slash_if.
    + rewrite !app_assoc. apply ends_with_slash_snoc.
    + rewrite app_nil_r. destruct r as [|s' r' _] using rev_ind.
      * unfold slashed. cbn [map concat]. rewrite app_nil_r. by apply segment_ends.
      * apply Forall_app in Hr as [_ Hr]. inv_Forall.
        unfold slashed. rewrite map_app, concat_app. cbn [map concat]. rewrite app_nil_r.
        change (chr "/" :: s') with ([chr "/"] ++ s'). rewrite !app_assoc. by apply segment_ends.
Qed.

Lemma buildPath_twice segs lead trail lead' trail' u :
  buildPath segs lead trail (buildPath segs lead' trail' u) = buildPath segs lead trail u.
Proof. done. Qed.

Lemma foldl_first_dot b rel lead norm :
  foldl (dot_step b) [] (first_dot rel lead norm ++ norm) = foldl (dot_step b) [] norm.
Proof. unfold first_dot. destruct norm; [done|]. by destruct (_ && _). Qed.

Lemma removeDotSegments_idem b u :
  removeDotSegments b (removeDotSegments b u) = removeDotSegments b u.
Proof.
  unfold removeDotSegments at 2 3. destruct (_path u) as [|c p] eqn:Ep.
  { unfold removeDotSegments. by rewrite Ep. }
  set (norm := foldl _ _ _). set (lead := starts_with_slash _). set (trail := ends_with_slash _).
  assert (Forall is_segment norm) as Hn
    by (apply foldl_dot_step_segments; [done|by apply segments_are_segments]).
  assert (normal b norm) as Hnorm by (by apply foldl_dot_step_normal; exists 0%nat, []).
  clearbody norm. unfold removeDotSegments.
  destruct (_path (buildPath norm lead trail u)) as [|c' p'] eqn:Ep'; [done|].
  rewrite <-Ep', buildPath_segments by done. rewrite foldl_first_dot, foldl_dot_step_id by done.
  destruct norm as [|s r].
  - rewrite buildPath_spec in Ep' |- *. destruct trail; [|done]. done.
  - destruct (buildPath_slashes (s :: r) lead trail u) as [-> ->]; done.
Qed.

(** *** Resolution *)

(** The path has no dot segment left. *)
Definition dot_free (path : list Z) : Prop := Forall plain_segment (getPathSegments path []).

Lemma first_dot_absolute lead segs : first_dot false lead segs = [].
Proof. unfold first_dot. destruct segs; [done|]. by rewrite andb_false_r. Qed.

Lemma removeDotSegments_dot_free u : isRelative u = false -> dot_free (_path (removeDotSegments true u)).
Proof.
  intros Hr. unfold dot_free.
  destruct (removeDotSegments_segments true u) as (norm & (k & l & -> & Hl & Hk) & _ & ->).
  rewrite Hr, first_dot_absolute, (Hk eq_refl). done.
Qed.

Lemma mergePath_fields path u : exists p, mergePath path u = set_path p u.
Proof. unfold mergePath. destruct (foldl _ _ _). unfold buildPath. by eexists. Qed.

Lemma removeDotSegments_fields b u : exists p, removeDotSegments b u = set_path p u.
Proof.
  unfold removeDotSegments, buildPath. destruct (_path u) eqn:E; [|by eexists].
  exists []. destruct u; simpl in *; by subst.
Qed.

(** *** Resolution over lists of segments *)
Module Segments.

(** The segments of a path: the pieces between slashes, without empty ones. *)
Fixpoint split (p : list Z) : list (list Z) :=
  match p with
  | [] => [[]]
  | c :: p =>
      if c =? chr "/" then [] :: split p
      else match split p with s :: r => (c :: s) :: r | [] => [[c]] end
  end.
Definition pieces (p : list Z) : list (list Z) := filter (fun s => s <> []) (split p).

(** What remains of segments, the last one first, when [ups] parents are still
    to be left out. *)
Fixpoint keep (ups : nat) (rsegs : list (list Z)) : list (list Z) :=
  match rsegs with
  | [] => []
  | s :: r =>
      if eqb_str s (str ".") then keep ups r
      else if eqb_str s (str "..") then keep (S ups) r
      else match ups with O => s :: keep O r | S ups => keep ups r end
  end.
Definition without_dots (segs : list (list Z)) : list (list Z) := rev (keep 0 (rev segs)).

Definition is_dot (s : list Z) : bool := eqb_str s (str ".") || eqb_str s (str "..").
Definition ends_in_dot (segs : list (list Z)) : bool := match rev segs with s :: _ => is_dot s | [] => false end.

Definition is_slash (c : Z) : bool := c =? chr "/".
Definition opens (p : list Z) : bool := match p with c :: _ => is_slash c | [] => false end.
Definition closes (p : list Z) : bool := opens (rev p).

(** The path up to its last slash. *)
Definition directory (p : list Z) : list Z := rev (snd (span (fun c => negb (is_slash c)) (rev p))).

Fixpoint join (segs : list (list Z)) : list Z :=
  match segs with
  | [] => []
  | [s] => s
  | s :: r => s ++ chr "/" :: join r
  end.
Definition path_of (lead : bool) (segs : list (list Z)) (trail : bool) : list Z :=
  (if lead && negb (bool_decide (segs = [])) then [chr "/"] else []) ++ join segs ++ (if trail then [chr "/"] else []).

(** The path of a reference, and a relative path merged with that of the base. *)
Definition own_path (p : list Z) : list Z := path_of (opens p) (without_dots (pieces p)) (closes p).
Definition merged_path (base p : list Z) : list Z :=
  path_of (opens base) (without_dots (pieces (directory base) ++ pieces p)) (closes p || ends_in_dot (pieces p)).

Definition has (component : list Z) : bool := negb (bool_decide (component = [])).

(** Which component comes from where. *)
Definition target (R Base : URI) : URI :=
  let authority := if has (_scheme R) || has (_host R) then R else Base in
  {| _scheme := if has (_scheme R) then _scheme R else _scheme Base;
     _userInfo := _userInfo authority; _host := _host authority; _port := _port authority;
     _path := if has (_scheme R) || has (_host R) || opens (_path R) then own_path (_path R)
              else if has (_path R) then merged_path (_path Base) (_path R) else _path Base;
     _query := if has (_scheme R) || has (_host R) || has (_path R) || has (_query R) then _query R else _query Base;
     _fragment := _fragment R |}.
End Segments.

Section Resolve.
Import Segments.

Lemma split_ne p : exists s r, split p = s :: r.
Proof. destruct p as [|c p]; cbn; [by eexists _, _|]. destruct (c =? chr "/"); [by eexists _, _|]. destruct (split p); by eexists _, _. Qed.

Lemma split_segments p : forall seg acc, segments_loop p seg acc =
  acc ++ filter (fun s => s <> []) (match split p with s :: r => (seg ++ s) :: r | [] => [] end).
Proof.
  induction p as [|c p IH]; intros seg acc; cbn [segments_loop split].
  - rewrite filter_cons, app_nil_r. destruct seg; [rewrite decide_False by (by intros []); by rewrite app_nil_r|by rewrite decide_True].
  - destruct (c =? chr "/").
    + rewrite app_nil_r, filter_cons. destruct (split_ne p) as (s & r & Es). destruct seg as [|x seg].
      * rewrite decide_False by (by intros []). rewrite IH, Es. done.
      * rewrite decide_True by done. rewrite IH, Es. by rewrite <- app_assoc.
    + rewrite IH. destruct (split_ne p) as (s & r & ->). by rewrite <- app_assoc.
Qed.

Lemma pieces_ok p acc : getPathSegments p acc = acc ++ pieces p.
Proof. unfold getPathSegments, pieces. rewrite split_segments. destruct (split_ne p) as (s & r & ->). done. Qed.

Lemma split_app a b : split (a ++ chr "/" :: b) = split a ++ split b.
Proof.
  induction a as [|c a IH]; [done|]. cbn [app split]. rewrite IH. destruct (c =? chr "/"); [done|].
  by destruct (split_ne a) as (s & r & ->).
Qed.

Lemma pieces_app a b : pieces (a ++ chr "/" :: b) = pieces a ++ pieces b.
Proof. unfold pieces. by rewrite split_app, list.filter_app. Qed.

Lemma split_plain b : Forall (fun c => is_slash c = false) b -> split b = [b].
Proof. induction 1 as [|c b Hc _ IH]; [done|]. cbn [split]. unfold is_slash in Hc. by rewrite Hc, IH. Qed.

Lemma opens_ok p : starts_with_slash p = opens p.
Proof. by destruct p. Qed.

Lemma closes_ok p : ends_with_slash p = closes p.
Proof.
  destruct p as [|c p _] using rev_ind; [done|]. rewrite ends_with_slash_snoc. unfold closes. by rewrite rev_unit.
Qed.

Lemma last_slash p : Forall (fun c => is_slash c = false) p
  \/ exists a b, p = a ++ chr "/" :: b /\ Forall (fun c => is_slash c = false) b.
Proof.
  induction p as [|c p [IH|(a & b & -> & Hb)]]; [by left| |right; by exists (c :: a), b].
  destruct (is_slash c) eqn:E; [|left; by constructor]. right. exists [], p. unfold is_slash in E. apply Z.eqb_eq in E as ->. done.
Qed.

Lemma closes_plain a b : Forall (fun c => is_slash c = false) b -> b <> [] -> closes (a ++ b) = false.
Proof.
  intros Hb Hne. destruct b as [|c b _] using rev_ind; [done|]. apply Forall_app in Hb as [_ Hc]. rewrite Forall_singleton in Hc.
  unfold closes. rewrite app_assoc, rev_unit. exact Hc.
Qed.

(** The pieces that stay when a relative path is merged. *)
Lemma directory_ok p : p <> [] ->
  (if negb (closes p) && negb (bool_decide (pieces p = [])) then pop_back (pieces p) else pieces p) = pieces (directory p).
Proof.
  intros Hp. assert (forall b, Forall (fun c => is_slash c = false) b -> Forall (fun c => negb (is_slash c) = true) (rev b)) as Hrev.
  { intros b Hb. apply Forall_rev. revert Hb. apply Forall_impl. by intros c ->. }
  unfold directory. destruct (last_slash p) as [Hb|(a & b & -> & Hb)].
  - rewrite span_all by (by apply Hrev). cbn [snd rev]. change (closes p) with (closes ([] ++ p)). rewrite closes_plain by done.
    assert (pieces p = [p]) as -> by (unfold pieces; rewrite split_plain by done; by rewrite filter_cons_True). done.
  - rewrite rev_app_distr. cbn [rev]. rewrite <- app_assoc. cbn [app]. rewrite span_app by (done || by apply Hrev). cbn [snd app rev]. rewrite rev_involutive.
    rewrite !pieces_app. change (pieces []) with (@nil (list Z)). rewrite app_nil_r. destruct b as [|c b].
    + change (pieces []) with (@nil (list Z)). rewrite app_nil_r. unfold closes. by rewrite rev_unit.
    + assert (pieces (c :: b) = [c :: b]) as -> by (unfold pieces; rewrite split_plain by done; by rewrite filter_cons_True).
      change (chr "/" :: c :: b) with ([chr "/"] ++ c :: b). rewrite app_assoc, closes_plain by done.
      rewrite bool_decide_eq_false_2 by (by destruct (pieces a)). cbn [negb andb]. apply pop_back_snoc.
Qed.

(** ** Dot segments, counted from the end *)
Definition pop (l : list (list Z)) : list (list Z) := if negb (bool_decide (l = [])) then pop_back l else l.

Lemma pop_snoc l x : pop (l ++ [x]) = l.
Proof. unfold pop. rewrite bool_decide_eq_false_2 by (by destruct l). apply pop_back_snoc. Qed.

Lemma keep_ups (step : list (list Z) -> list Z -> list (list Z)) (inv : list (list Z) -> Prop) segs :
  inv [] -> (forall l s, inv l -> inv (step l s)) ->
  (forall l s, inv l -> step l s = if eqb_str s (str ".") then l else if eqb_str s (str "..") then pop l else l ++ [s]) ->
  forall ups, Nat.iter ups pop (foldl step [] segs) = rev (keep ups (rev segs)).
Proof.
  intros H0 Hinv Hstep.
  induction segs as [|s segs IH] using rev_ind; intros ups.
  - cbn [foldl rev keep]. induction ups as [|ups IH]; [done|]. change (Nat.iter (S ups) pop []) with (pop (Nat.iter ups pop [])). by rewrite IH.
  - rewrite foldl_snoc, rev_unit. cbn [keep]. rewrite Hstep.
    2:{ clear IH. revert H0. generalize (@nil (list Z)). induction segs; intros l Hl; [done|]; cbn; by apply IHsegs, Hinv. }
    destruct (eqb_str s (str ".")); [apply IH|]. destruct (eqb_str s (str "..")).
    + rewrite <- IH. by rewrite Nat.iter_swap.
    + destruct ups as [|ups]; [cbn [Nat.iter rev]; by rewrite <- IH|]. rewrite <- IH.
      change (Nat.iter (S ups) pop (foldl step [] segs ++ [s])) with (pop (Nat.iter ups pop (foldl step [] segs ++ [s]))).
      rewrite <- Nat.iter_swap. by rewrite pop_snoc.
Qed.

Lemma dots_removed segs : foldl (dot_step true) [] segs = without_dots segs.
Proof.
  apply (keep_ups (dot_step true) (Forall plain_segment) segs) with (ups := 0%nat).
  - done.
  - intros l s Hl. destruct (dot_step_normal true l s) as (k & l' & -> & H & Hk); [by exists 0%nat, l|]. by rewrite (Hk eq_refl).
  - intros l s Hl. unfold dot_step, pop. fold DOT DOTDOT. destruct (eqb_str s DOTDOT) eqn:E.
    + apply eqb_str_spec in E as ->. change (eqb_str DOTDOT DOT) with false. cbv iota.
      destruct l as [|x l _] using rev_ind; [done|]. rewrite bool_decide_eq_false_2 by (by destruct l). cbn [negb]. rewrite back_snoc.
      apply Forall_app in Hl as [_ Hx]. rewrite Forall_singleton in Hx. destruct (eqb_str x DOTDOT) eqn:Ex; [|done].
      apply eqb_str_spec in Ex as ->. by destruct Hx.
    + by destruct (eqb_str s DOT).
Qed.

Lemma dots_merged segs : foldl merge_step ([], false) segs = (without_dots segs, ends_in_dot segs).
Proof.
  assert (forall l b, fst (foldl merge_step (l, b) segs) = foldl (fun l s => fst (merge_step (l, false) s)) l segs) as Hf.
  { induction segs as [|s segs IH]; intros l b; [done|]. cbn [foldl]. rewrite <- (IH _ (snd (merge_step (l, b) s))).
    replace (fst (merge_step (l, false) s)) with (fst (merge_step (l, b) s)) by done. by rewrite <- surjective_pairing. }
  rewrite (surjective_pairing (foldl _ _ _)), Hf. f_equal.
  - apply (keep_ups (fun l s => fst (merge_step (l, false) s)) (fun _ => True) segs) with (ups := 0%nat); [done|done|].
    intros l s _. unfold merge_step, pop. fold DOT DOTDOT. destruct (eqb_str s DOTDOT) eqn:E.
    + by apply eqb_str_spec in E as ->.
    + by destruct (eqb_str s DOT).
  - clear Hf. destruct segs as [|s segs _] using rev_ind; [done|]. rewrite foldl_snoc. unfold ends_in_dot, is_dot. rewrite rev_unit.
    destruct (foldl merge_step ([], false) segs) as [l b]. unfold merge_step. fold DOT DOTDOT.
    destruct (eqb_str s DOTDOT) eqn:E; [by rewrite orb_true_r|]. by destruct (eqb_str s DOT).
Qed.

Lemma join_slashed s r : join (s :: r) = s ++ slashed r.
Proof.
  revert s. induction r as [|x r IH]; intros s; [unfold slashed; cbn; by rewrite app_nil_r|].
  change (join (s :: x :: r)) with (s ++ chr "/" :: join (x :: r)). rewrite IH. done.
Qed.

Lemma path_built segs lead trail u : isRelative u = false -> _path (buildPath segs lead trail u) = path_of lead segs trail.
Proof.
  intros Hu. rewrite buildPath_spec, Hu. unfold path_of, path_prefix, slash_if. destruct segs as [|s r].
  - rewrite bool_decide_eq_true_2 by done. by rewrite andb_false_r.
  - rewrite bool_decide_eq_false_2 by done. rewrite andb_true_r, join_slashed, <- app_assoc. by destruct lead.
Qed.

Lemma own_path_ok u : isRelative u = false -> removeDotSegments true u = set_path (own_path (_path u)) u.
Proof.
  intros Hu. destruct (removeDotSegments_fields true u) as [p Ep].
  assert (_path (removeDotSegments true u) = own_path (_path u)) as E; [|by rewrite Ep in E |- *; rewrite <- E].
  unfold removeDotSegments. destruct (_path u) as [|c p'] eqn:E; [by rewrite E|].
  rewrite path_built by done. by rewrite dots_removed, pieces_ok, opens_ok, closes_ok.
Qed.

Lemma merged_path_ok p u : isRelative u = false -> opens p = false -> p <> [] -> mergePath p u = set_path (merged_path (_path u) p) u.
Proof.
  intros Hu Ho Hne. destruct (mergePath_fields p u) as [p' Ep].
  assert (_path (mergePath p u) = merged_path (_path u) p) as E; [|by rewrite Ep in E |- *; rewrite <- E].
  unfold mergePath. cbv zeta. rewrite dots_merged, path_built by done. rewrite (opens_ok p), Ho, orb_false_r, opens_ok, (closes_ok p), (pieces_ok p).
  assert (exists s r, pieces p = r ++ [s]) as (s & r & Es).
  { assert (pieces p <> []) as Hp.
    { destruct p as [|c p0]; [done|]. unfold pieces. cbn [split]. change (is_slash c = false) in Ho. unfold is_slash in Ho. rewrite Ho.
      destruct (split_ne p0) as (s & r & ->). by rewrite filter_cons_True. }
    destruct (pieces p) as [|s r _] using rev_ind; [done|]. by exists s, r. }
  assert (forall l, ends_in_dot (l ++ pieces p) = ends_in_dot (pieces p)) as Hd
    by (intros l; unfold ends_in_dot; by rewrite Es, app_assoc, !rev_unit).
  rewrite Hd. unfold merged_path. do 3 f_equal. destruct (_path u) as [|c q] eqn:Eq; [done|].
  rewrite pieces_ok. cbn [app]. rewrite closes_ok. rewrite directory_ok by done. done.
Qed.
End Resolve.

(** *** The resolution of RFC 3986, section 5.2 *)
Module RFC3986.
Import Segments.

Definition SLASH : list Z := [chr "/"].

(** What is behind a prefix. *)
Fixpoint behind (prefix s : list Z) : option (list Z) :=
  match prefix, s with
  | [], _ => Some s
  | x :: prefix, c :: s => if x =? c then behind prefix s else None
  | _, [] => None
  end.

Definition not_slash (c : Z) : bool := negb (is_slash c).

(** The first segment with the slash in front of it, and the rest. *)
Definition first_segment (input : list Z) : list Z * list Z :=
  match input with
  | c :: r => if is_slash c then let (s, rest) := span not_slash r in (c :: s, rest) else span not_slash input
  | [] => ([], [])
  end.

(** The output without its last segment and the slash in front of that. *)
Definition drop_last (output : list Z) : list Z := rev (tail (snd (span not_slash (rev output)))).

(** The steps A to E of section 5.2.4, on the input and the output buffer. *)
Definition dots_step (input output : list Z) : list Z * list Z :=
  match behind (str "../") input, behind (str "./") input, behind (str "/./") input, behind (str "/../") input with
  | Some r, _, _, _ => (r, output)
  | _, Some r, _, _ => (r, output)
  | _, _, Some r, _ => (SLASH ++ r, output)
  | _, _, _, Some r => (SLASH ++ r, drop_last output)
  | _, _, _, _ =>
      if eqb_str input (str "/.") then (SLASH, output)
      else if eqb_str input (str "/..") then (SLASH, drop_last output)
      else if eqb_str input (str ".") || eqb_str input (str "..") then ([], output)
      else let (s, rest) := first_segment input in (rest, output ++ s)
  end.

Fixpoint dots_loop (fuel : nat) (input output : list Z) : list Z :=
  match input, fuel with
  | [], _ | _, O => output
  | _, S fuel => let (input, output) := dots_step input output in dots_loop fuel input output
  end.

Definition remove_dot_segments (path : list Z) : list Z := dots_loop (length path) path [].

(** Section 5.2.3. *)
Definition merge (Base : URI) (path : list Z) : list Z :=
  if has (_host Base) && bool_decide (_path Base = []) then SLASH ++ path else directory (_path Base) ++ path.

(** Section 5.2.2; a component that is empty counts as undefined. *)
Definition target (R Base : URI) : URI :=
  if has (_scheme R) then
    {| _scheme := _scheme R; _userInfo := _userInfo R; _host := _host R; _port := _port R;
       _path := remove_dot_segments (_path R); _query := _query R; _fragment := _fragment R |}
  else if has (_host R) then
    {| _scheme := _scheme Base; _userInfo := _userInfo R; _host := _host R; _port := _port R;
       _path := remove_dot_segments (_path R); _query := _query R; _fragment := _fragment R |}
  else if bool_decide (_path R = []) then
    {| _scheme := _scheme Base; _userInfo := _userInfo Base; _host := _host Base; _port := _port Base;
       _path := _path Base; _query := if has (_query R) then _query R else _query Base; _fragment := _fragment R |}
  else
    {| _scheme := _scheme Base; _userInfo := _userInfo Base; _host := _host Base; _port := _port Base;
       _path := if opens (_path R) then remove_dot_segments (_path R) else remove_dot_segments (merge Base (_path R));
       _query := _query R; _fragment := _fragment R |}.

(** The references that are resolved like that: no empty segments, a path that
    replaces the one of the base is empty or starts with a slash and does not end
    in a dot segment, and a path that is merged meets a base whose path starts
    with a slash. *)
Fixpoint doubled (p : list Z) : bool :=
  match p with
  | c :: ((d :: _) as r) => (is_slash c && is_slash d) || doubled r
  | _ => false
  end.
Definition conforming (R Base : URI) : bool :=
  let p := _path R in
  bool_decide (p = []) ||
  if has (_scheme R) || has (_host R) || opens p then opens p && negb (doubled p) && negb (ends_in_dot (pieces p))
  else opens (_path Base) && negb (doubled (_path Base)) && negb (doubled p).
End RFC3986.

Section Conforming.
Import Segments RFC3986.

(** A segment: no slash, and not empty. *)
Definition bare (s : list Z) : Prop := s <> [] /\ Forall (fun c => is_slash c = false) s.

Definition slash_next (rest : list Z) : Prop := rest = [] \/ exists r, rest = 47 :: r.

Lemma eqb_str_cons c d a b : eqb_str (c :: a) (d :: b) = (c =? d) && eqb_str a b.
Proof.
  unfold eqb_str. destruct (Z.eqb_spec c d) as [-> |Hne]; cbn [andb].
  - apply bool_decide_ext. split; [by intros [=]|by intros ->].
  - apply bool_decide_eq_false_2. by intros [=].
Qed.

Lemma bare_span s rest : Forall (fun c => is_slash c = false) s -> slash_next rest -> span not_slash (s ++ rest) = (s, rest).
Proof.
  intros Hs Hr. assert (Forall (fun c => not_slash c = true) s) as Hs' by (eapply Forall_impl; [|exact Hs]; intros c Hc; unfold not_slash; by rewrite Hc).
  destruct Hr as [-> |(r & ->)]; [rewrite app_nil_r; by apply span_all|by apply span_app].
Qed.

(** One step of the RFC takes one segment. *)
Lemma step_segment s rest o : bare s -> slash_next rest ->
  dots_step (47 :: s ++ rest) o =
    if eqb_str s (str ".") then (match rest with [] => SLASH | _ => rest end, o)
    else if eqb_str s (str "..") then (match rest with [] => SLASH | _ => rest end, drop_last o)
    else (rest, o ++ 47 :: s).
Proof.
  intros [Hne Hs] Hr. pose proof (bare_span s rest Hs Hr) as Esp. unfold dots_step.
  assert (first_segment (47 :: s ++ rest) = (47 :: s, rest)) as -> by (cbn; by rewrite Esp).
  change (str "../") with [46; 46; 47]. change (str "./") with [46; 47]. change (str "/./") with [47; 46; 47].
  change (str "/../") with [47; 46; 46; 47]. change (str "/.") with [47; 46]. change (str "/..") with [47; 46; 46].
  change (str ".") with [46]. change (str "..") with [46; 46]. clear Esp.
  destruct s as [|c1 s]; [done|]. apply Forall_cons_iff in Hs as [H1 Hs]. unfold is_slash in H1. change (chr "/") with 47 in H1.
  rewrite !eqb_str_cons. cbn [app behind]. change (46 =? 47) with false. change (47 =? 46) with false. change (47 =? 47) with true. cbn [andb].
  rewrite !eqb_str_cons, (Z.eqb_sym 46 c1). destruct (c1 =? 46) eqn:E1; cbn [andb]; [|done].
  destruct s as [|c2 s]; cbn [app].
  { destruct Hr as [-> |(r & ->)]; [done|]. cbn [behind]. done. }
  apply Forall_cons_iff in Hs as [H2 Hs]. unfold is_slash in H2. change (chr "/") with 47 in H2. cbn [behind]. rewrite (Z.eqb_sym 47 c2), H2.
  change (eqb_str (c2 :: s ++ rest) []) with false. change (eqb_str (c2 :: s) []) with false.
  rewrite !eqb_str_cons, (Z.eqb_sym 46 c2). destruct (c2 =? 46) eqn:E2; cbn [andb]; [|done].
  destruct s as [|c3 s]; cbn [app].
  { destruct Hr as [-> |(r & ->)]; [done|]. cbn [behind]. done. }
  apply Forall_cons_iff in Hs as [H3 Hs]. unfold is_slash in H3. change (chr "/") with 47 in H3. cbn [behind]. by rewrite (Z.eqb_sym 47 c3), H3.
Qed.

Definition dot_segment (l : list (list Z)) (s : list Z) : list (list Z) :=
  if eqb_str s (str ".") then l else if eqb_str s (str "..") then pop l else l ++ [s].

Lemma slashed_snoc l s : slashed (l ++ [s]) = slashed l ++ 47 :: s.
Proof. unfold slashed. rewrite map_app, concat_app. cbn. by rewrite app_nil_r. Qed.

Lemma drop_last_slashed l : Forall bare l -> drop_last (slashed l) = slashed (pop l).
Proof.
  intros Hl. destruct l as [|s l _] using rev_ind; [done|]. rewrite pop_snoc, slashed_snoc. apply Forall_app in Hl as [_ Hs].
  apply Forall_cons_iff in Hs as [[_ Hs] _]. unfold drop_last. rewrite rev_app_distr. cbn [rev]. rewrite <- app_assoc. cbn [app].
  rewrite bare_span; [cbn [snd tail]; apply rev_involutive|by apply Forall_rev|right; by eexists].
Qed.

Lemma dot_segment_bare l s : Forall bare l -> bare s -> Forall bare (dot_segment l s).
Proof.
  intros Hl Hs. unfold dot_segment. case_match; [done|]. case_match; [|apply Forall_app_2; [done|by constructor]].
  destruct l as [|x l _] using rev_ind; [done|]. rewrite pop_snoc. by apply Forall_app in Hl as [? _].
Qed.

Lemma slashed_next segs trail : slash_next (slashed segs ++ slash_if trail).
Proof. destruct segs as [|s segs]; [destruct trail; [right; by exists []|by left]|]. right. by eexists. Qed.

Lemma dots_loop_ok segs : Forall bare segs -> forall trail norm fuel, Forall bare norm ->
  (length (slashed segs ++ slash_if trail) <= fuel)%nat ->
  dots_loop fuel (slashed segs ++ slash_if trail) (slashed norm)
  = slashed (foldl dot_segment norm segs) ++ slash_if (trail || ends_in_dot segs).
Proof.
  induction 1 as [|s segs Hs Hsegs IH]; intros trail norm fuel Hn Hf.
  - destruct trail; [|by destruct fuel; cbn; rewrite app_nil_r]. destruct fuel as [|fuel]; [cbn in Hf; lia|]. cbn. by destruct fuel.
  - change (slashed (s :: segs)) with (47 :: s ++ slashed segs) in *. rewrite <- app_comm_cons, <- app_assoc in *.
    destruct fuel as [|fuel]; [cbn in Hf; lia|]. cbn [dots_loop]. rewrite step_segment by (done || apply slashed_next).
    set (rest := match slashed segs ++ slash_if trail with [] => SLASH | _ => slashed segs ++ slash_if trail end).
    assert (rest = slashed segs ++ slash_if (trail || bool_decide (segs = []))) as Er.
    { unfold rest. destruct segs; [by destruct trail|]. by rewrite bool_decide_eq_false_2, orb_false_r. }
    assert (is_dot s = true -> slash_if (trail || bool_decide (segs = []) || ends_in_dot segs) = slash_if (trail || ends_in_dot (s :: segs))) as Hend.
    { intros Hd. rewrite <- orb_assoc. do 2 f_equal. unfold ends_in_dot. destruct segs as [|x segs' _] using rev_ind; [done|].
      cbn [rev]. rewrite rev_unit. cbn [app]. by rewrite bool_decide_eq_false_2 by (by destruct segs'). }
    assert (length (slashed segs ++ slash_if (trail || bool_decide (segs = []))) <= fuel)%nat as Hl.
    { cbn in Hf. rewrite !length_app in *. destruct Hs as [Hne _]. destruct s; [done|]. cbn in Hf. unfold slash_if in *. destruct trail, (bool_decide (segs = [])); cbn in *; lia. }
    pose proof (dot_segment_bare norm s Hn Hs) as Hn'. cbn [foldl]. unfold dot_segment in Hn' |- *. fold dot_segment. rewrite Er. unfold is_dot in Hend.
    destruct (eqb_str s (str ".")) eqn:E1; [rewrite IH by done; by rewrite Hend|].
    destruct (eqb_str s (str "..")) eqn:E2; [rewrite drop_last_slashed, IH by done; by rewrite Hend|].
    rewrite <- slashed_snoc. rewrite IH; [|done|cbn in Hf; rewrite !length_app in *; lia]. do 2 f_equal. f_equal.
    unfold ends_in_dot. destruct segs as [|x segs' _] using rev_ind; [|cbn [rev]; rewrite rev_unit; reflexivity].
    cbn [rev app]. unfold is_dot. by rewrite E1, E2.
Qed.

(** A path without empty segments is its segments. *)
Lemma doubled_app a b : doubled (a ++ b) = false -> doubled b = false.
Proof.
  induction a as [|c a IH]; [done|]. intros H. apply IH. cbn [app] in H. destruct (a ++ b) as [|d l]; [done|].
  apply (proj1 (orb_false_iff _ _) H).
Qed.

Lemma split_bare p : Forall (Forall (fun c => is_slash c = false)) (split p).
Proof.
  induction p as [|c p IH]; cbn [split]; [by repeat constructor|]. destruct (c =? chr "/") eqn:E; [by constructor|].
  destruct (split p) as [|s r]; [by repeat constructor|]. apply Forall_cons_iff in IH as [H1 H2]. constructor; [by constructor|done].
Qed.

Lemma pieces_bare p : Forall bare (pieces p).
Proof.
  unfold pieces, bare. pose proof (split_bare p) as H. apply List.Forall_forall. intros s Hs. apply list_elem_of_In, list_elem_of_filter in Hs as [Hne Hin].
  split; [done|]. rewrite List.Forall_forall in H. by apply H, list_elem_of_In.
Qed.

Lemma pieces_single s : bare s -> pieces s = [s].
Proof. intros [Hne Hs]. unfold pieces. rewrite split_plain by done. by rewrite filter_cons_True. Qed.

Lemma pieces_slash p : pieces (47 :: p) = pieces p.
Proof. exact (pieces_app [] p). Qed.

Lemma pieces_merge a b : pieces (a ++ 47 :: b) = pieces a ++ pieces b.
Proof. exact (pieces_app a b). Qed.

Lemma closes_app a b : b <> [] -> closes (a ++ b) = closes b.
Proof. intros Hb. destruct b as [|c b _] using rev_ind; [done|]. unfold closes. by rewrite app_assoc, !rev_unit. Qed.

Lemma text_of_pieces n : forall p, (length p <= n)%nat -> opens p = true -> doubled p = false -> p = slashed (pieces p) ++ slash_if (closes p).
Proof.
  induction n as [|n IH]; intros [|c q] Hl Ho Hd; try done; [cbn in Hl; lia|]. cbn [opens] in Ho. unfold is_slash in Ho. apply Z.eqb_eq in Ho as ->.
  change (chr "/") with 47 in *. destruct q as [|d q']; [done|]. set (q := d :: q') in *. assert (is_slash d = false) as Hds.
  { subst q. cbn [doubled] in Hd. by apply orb_false_iff in Hd as [Hd _]. }
  assert (exists s r, q = s ++ r /\ bare s /\ slash_next r) as (s & r & Eq & Hs & Hr).
  { destruct (last_slash (rev q)) as [Hb|(a & b & Er & Hb)].
    - exists q, []. rewrite app_nil_r. split_and!; [done|split; [done|by rewrite <- (rev_involutive q); apply Forall_rev]|by left].
    - assert (q = rev b ++ chr "/" :: rev a) as Eq by (rewrite <- (rev_involutive q), Er, rev_app_distr; cbn; by rewrite <- app_assoc).
      exists (rev b), (chr "/" :: rev a). split_and!; [done| |right; by eexists]. split; [|by apply Forall_rev].
      intros Eb. rewrite Eb in Eq. injection Eq as Ed _. by rewrite Ed in Hds. }
  rewrite Eq in *. destruct Hr as [-> |(r' & ->)].
  - rewrite app_nil_r in *. rewrite pieces_slash, pieces_single by done. change (47 :: s) with ([47] ++ s).
    rewrite closes_plain by apply Hs. unfold slashed, slash_if. cbn [map concat]. by rewrite !app_nil_r.
  - change (47 :: s ++ 47 :: r') with ((47 :: s) ++ 47 :: r'). rewrite closes_app, pieces_merge, pieces_slash, pieces_single by done.
    rewrite <- (pieces_slash r'). change (slashed ([s] ++ pieces (47 :: r'))) with ((47 :: s) ++ slashed (pieces (47 :: r'))). rewrite <- app_assoc. f_equal.
    apply IH; [cbn in Hl; rewrite length_app in Hl; cbn in Hl |- *; lia|done|]. by apply (doubled_app (47 :: s)).
Qed.

(** On such paths the RFC and the segments agree. *)
Lemma rfc_path p : opens p = true -> doubled p = false ->
  remove_dot_segments p = path_of true (without_dots (pieces p)) (closes p || ends_in_dot (pieces p)).
Proof.
  intros Ho Hd. unfold remove_dot_segments. pose proof (text_of_pieces (length p) p (le_n _) Ho Hd) as E.
  assert (foldl dot_segment [] (pieces p) = without_dots (pieces p)) as Ef
    by (apply (keep_ups dot_segment (fun _ => True) (pieces p)) with (ups := 0%nat); done).
  set (l := length p) in *. assert (l = length p) as El by done. clearbody l. rewrite E at 1.
  rewrite <- (app_nil_r []) at 1. change ([] ++ []) with (slashed []). rewrite dots_loop_ok; [|apply pieces_bare|done|rewrite <- E; lia].
  rewrite Ef. unfold path_of. destruct (without_dots (pieces p)) as [|s r]; [done|]. rewrite bool_decide_eq_false_2 by done.
  cbn [negb andb]. rewrite join_slashed. change (slashed (s :: r)) with (chr "/" :: s ++ slashed r). done.
Qed.

Lemma rfc_own p : opens p = true -> doubled p = false -> ends_in_dot (pieces p) = false -> remove_dot_segments p = own_path p.
Proof. intros Ho Hd He. rewrite rfc_path by done. unfold own_path. by rewrite He, Ho, orb_false_r. Qed.

Lemma directory_split p : opens p = true -> exists a b, p = a ++ 47 :: b /\ directory p = a ++ [47] /\ Forall (fun c => is_slash c = false) b.
Proof.
  intros Ho. destruct (last_slash p) as [Hb|(a & b & -> & Hb)]; [destruct Hb as [|c p Hc _]; [done|by cbn in Ho; rewrite Ho in Hc]|].
  exists a, b. split_and!; [done| |done]. unfold directory. rewrite rev_app_distr. cbn [rev]. rewrite <- app_assoc. cbn [app].
  rewrite span_app; [cbn [snd rev]; by rewrite rev_involutive| |done]. apply Forall_rev. eapply Forall_impl; [|exact Hb]. by intros c ->.
Qed.

Lemma doubled_merge a b p : doubled (a ++ 47 :: b) = false -> opens p = false -> doubled p = false -> doubled (a ++ 47 :: p) = false.
Proof.
  assert (forall c d r, doubled (c :: d :: r) = (is_slash c && is_slash d) || doubled (d :: r)) as Hcons by done.
  intros Ha Ho Hp. induction a as [|c a IH].
  - cbn [app]. destruct p as [|d p]; [done|]. cbn [opens] in Ho. by rewrite Hcons, Ho, andb_false_r.
  - destruct a as [|d a]; cbn [app] in *; rewrite Hcons in *; apply orb_false_iff in Ha as [H1 H2]; rewrite H1; cbn [orb]; by apply IH.
Qed.

Lemma pieces_relative p : opens p = false -> p <> [] -> pieces p <> [].
Proof.
  intros Ho Hne. destruct p as [|c p0]; [done|]. unfold pieces. cbn [split]. change (is_slash c = false) in Ho. unfold is_slash in Ho. rewrite Ho.
  destruct (split_ne p0) as (s & r & ->). by rewrite filter_cons_True.
Qed.

Lemma ends_in_dot_app l k : k <> [] -> ends_in_dot (l ++ k) = ends_in_dot k.
Proof. intros Hk. destruct k as [|s k _] using rev_ind; [done|]. unfold ends_in_dot. by rewrite app_assoc, !rev_unit. Qed.

Lemma rfc_merged (Base : URI) p : opens (_path Base) = true -> doubled (_path Base) = false -> opens p = false -> p <> [] -> doubled p = false ->
  remove_dot_segments (merge Base p) = merged_path (_path Base) p.
Proof.
  intros Ho Hd Hop Hne Hdp. unfold merge. rewrite (bool_decide_eq_false_2 (_path Base = [])) by (intros E; by rewrite E in Ho). rewrite andb_false_r.
  destruct (directory_split (_path Base) Ho) as (a & b & Eb & Ed & _). unfold merged_path. rewrite Ed. rewrite Eb in Ho, Hd |- *. rewrite <- app_assoc. cbn [app].
  assert (opens (a ++ 47 :: p) = true) as Ho' by (by destruct a).
  rewrite rfc_path; [|done|by eapply doubled_merge]. rewrite Ho, !pieces_merge, ends_in_dot_app by (by apply pieces_relative).
  change (a ++ 47 :: p) with (a ++ [47] ++ p). rewrite app_assoc, closes_app by done. change (pieces []) with (@nil (list Z)). by rewrite app_nil_r.
Qed.

(** The two targets. *)
Lemma target_segments R Base : conforming R Base = true -> RFC3986.target R Base = Segments.target R Base.
Proof.
  unfold conforming, RFC3986.target, Segments.target. intros Hc.
  destruct (bool_decide_reflect (_path R = [])) as [Ep|Ep]; cbn [orb] in Hc.
  - rewrite Ep. unfold has. rewrite (bool_decide_eq_true_2 (@nil Z = [])) by done. cbn [negb opens].
    by destruct (bool_decide (_scheme R = [])), (bool_decide (_host R = [])), (bool_decide (_query R = [])).
  - assert (has (_path R) = true) as Hp by (unfold has; by rewrite bool_decide_eq_false_2). rewrite Hp.
    destruct (opens (_path R)) eqn:Eo.
    + rewrite orb_true_r in Hc. apply andb_true_iff in Hc as [Hc He]. apply andb_true_iff in Hc as [_ Hd]. apply negb_true_iff in He, Hd.
      rewrite rfc_own by done. by destruct (has (_scheme R)), (has (_host R)).
    + destruct (has (_scheme R)); [done|]. destruct (has (_host R)); [done|]. cbn [orb] in Hc |- *.
      apply andb_true_iff in Hc as [Hc He]. apply andb_true_iff in Hc as [Ho Hd]. apply negb_true_iff in He, Hd. by rewrite rfc_merged.
Qed.
End Conforming.

(** ** Theorems *)

(** Percent-encoding is undone by decoding, whatever characters are reserved:
    for every byte string, [encode] succeeds and [decode] of what it appended
    gives the string back (when plus signs are read as spaces, they must be
    among the reserved characters). *)
Theorem uri_decode_encode plus reserved s :
  Forall is_byte s -> (plus = true -> contains reserved (chr "+") = true) ->
  exists t, encode s reserved [] = Done t /\ decode t plus [] = (Done tt, s).
Proof.
  intros Hs Hplus. exists (encoding reserved s). rewrite uri_encode_spec by done. split; [done|].
  unfold decode. by rewrite decode_encoding.
Qed.

Lemma uri_decode_encode_witness :
  exists t, encode (str "a+b c/?%") (str "?+") [] = Done t /\ decode t true [] = (Done tt, str "a+b c/?%").
Proof. apply (uri_decode_encode true (str "?+")); [apply str_bytes|reflexivity]. Defined.

(** Decoding is total: it succeeds exactly on the texts in which every
    percent sign starts a two-digit hexadecimal escape, throws SyntaxException on
    the others, and bytes decode to bytes. *)
Theorem uri_decode_total plus s :
  Forall is_byte s ->
  fst (decode s plus []) = (if escapes_ok s then Done tt else Raise SyntaxException) /\
  Forall is_byte (snd (decode s plus [])).
Proof. intros Hs. split; [apply decode_outcome|by apply decode_bytes]. Qed.

Lemma uri_decode_total_witness :
  fst (decode (str "a%2") false []) = Raise SyntaxException /\
  Forall is_byte (snd (decode (str "a%2") false [])).
Proof. apply (uri_decode_total false (str "a%2")), str_bytes. Defined.

(** C3: parsing the text of a URI gives the URI back, up to the port of the
    scheme and the slash that composition supplies, for every well-formed URI,
    absolute or relative, with user info, IPv6 hosts, ports, queries and
    fragments. *)
Theorem uri_parse_toString u : wf_uri u = true -> rbind (toString u) of_string = Done (canonical u).
Proof. apply parse_toString_lemma. Qed.

Definition sample_uri : URI :=
  {| _scheme := str "http"; _userInfo := str "user"; _host := str "::1"; _port := 8080;
     _path := str "/a b/?c"; _query := str "q=%20"; _fragment := str "f g" |}.

Lemma uri_parse_toString_witness :
  rbind (toString sample_uri) of_string = Done sample_uri.
Proof. apply (uri_parse_toString sample_uri). vm_compute. reflexivity. Defined.

(** Normalization. [removeDotSegments] leaves parent segments only at the
    front, and none when the leading ones are removed; the path of an absolute
    URI has no dot segment after [normalize]; normalizing twice is normalizing
    once, and only the path changes. *)
Theorem uri_normalize_correct u :
  (exists norm, normal (negb (isRelative u)) norm /\
     getPathSegments (_path (normalize u)) [] =
       first_dot (isRelative u) (starts_with_slash (_path u)) norm ++ norm) /\
  (isRelative u = false -> dot_free (_path (normalize u))) /\
  normalize (normalize u) = normalize u /\
  (exists p, normalize u = set_path p u).
Proof.
  unfold normalize. split_and!.
  - destruct (removeDotSegments_segments (negb (isRelative u)) u) as (norm & Hn & _ & E). eauto.
  - intros Hr. rewrite Hr. by apply removeDotSegments_dot_free.
  - assert (isRelative (removeDotSegments (negb (isRelative u)) u) = isRelative u) as ->.
    { apply isRelative_scheme. by destruct (removeDotSegments_fields (negb (isRelative u)) u) as [p ->]. }
    apply removeDotSegments_idem.
  - apply removeDotSegments_fields.
Qed.

(** What [resolve] computes, over lists of segments. *)
Lemma resolve_segments rel u : isRelative u = false -> resolve rel u = Segments.target rel u.
Proof.
  intros Hu. unfold resolve, Segments.target, Segments.has.
  destruct (bool_decide_reflect (_scheme rel = [])) as [Es|Es]; cbn [negb orb].
  - destruct (bool_decide_reflect (_host rel = [])) as [Eh|Eh]; cbn [negb orb].
    + destruct (_path rel) as [|c p] eqn:Ep.
      * rewrite (bool_decide_eq_true_2 (@nil Z = [])) by done. cbn [negb orb Segments.opens]. by destruct (bool_decide (_query rel = [])), u.
      * rewrite (bool_decide_eq_false_2 (c :: p = [])) by done. cbn [negb orb]. rewrite opens_ok. destruct (Segments.opens (c :: p)) eqn:Eo.
        -- rewrite own_path_ok by exact Hu. by destruct u.
        -- rewrite merged_path_ok by done. by destruct u.
    + rewrite own_path_ok by exact Hu. by destruct u.
  - rewrite own_path_ok by (unfold isRelative; by apply bool_decide_eq_false). by destruct u.
Qed.

(** C4: resolving a reference against an absolute base gives the target URI of RFC
    3986: the component selection of section 5.2.2 with [merge] of 5.2.3 and the
    loop [remove_dot_segments] of 5.2.4, written as in the RFC on characters. It
    holds for the references that are [conforming]: the paths that take part have
    no empty segment; a path that replaces that of the base (the reference has a
    scheme, a host or a leading slash) is empty, or starts with a slash and does
    not end in a dot segment; a path that is merged meets a base whose path
    starts with a slash. *)
Theorem uri_resolve_correct rel u : isRelative u = false -> RFC3986.conforming rel u = true ->
  resolve rel u = RFC3986.target rel u.
Proof. intros Hu Hc. rewrite resolve_segments by exact Hu. symmetry. by apply target_segments. Qed.

Lemma uri_resolve_correct_witness :
  let base := set_path (str "/b/c/d") sample_uri in
  let rel := set_path (str "../g/.") empty_uri in
  let other := {| _scheme := []; _userInfo := str "u"; _host := str "other"; _port := 81; _path := str "/x/../y"; _query := []; _fragment := [] |} in
  (resolve rel base = RFC3986.target rel base /\ resolve other base = RFC3986.target other base)
  /\ (_path (RFC3986.target rel base) = str "/b/g/" /\ _path (RFC3986.target other base) = str "/y").
Proof.
  intros base rel other. split; [split|split; reflexivity].
  - apply (uri_resolve_correct rel base); reflexivity.
  - apply (uri_resolve_correct other base); reflexivity.
Defined.

(** Outside of them the code and the RFC differ. A path that is not merged loses
    the slash of a dot segment at its end; *)
Example last_dot_lost :
  let rel := set_path (str "/a/b/..") empty_uri in
  _path (resolve rel sample_uri) = str "/a" /\ _path (RFC3986.target rel sample_uri) = str "/a/".
Proof. split; reflexivity. Qed.

(** and a path merged with the empty path of a base that has a host gets no slash. *)
Example merged_without_slash :
  let base := set_path [] sample_uri in
  let rel := set_path (str "g") empty_uri in
  _path (resolve rel base) = str "g" /\ _path (RFC3986.target rel base) = str "/g".
Proof. split; reflexivity. Qed.

(** [equals] is an equivalence relation, and it identifies exactly the URIs
    that have the same components once the default port is filled in. *)
Theorem uri_equals_equivalence :
  (forall u, equals u u = true) /\
  (forall u v, equals u v = equals v u) /\
  (forall u v w, equals u v = true -> equals v w = true -> equals u w = true) /\
  (forall u v, equals u v = true <-> set_port (getPort u) u = set_port (getPort v) v).
Proof.
  assert (forall u v, equals u v = true <-> set_port (getPort u) u = set_port (getPort v) v) as H.
  { intros u v. unfold equals. rewrite !andb_true_iff, !eqb_str_spec, Z.eqb_eq.
    destruct u as [a1 b1 c1 d1 e1 f1 g1], v as [a2 b2 c2 d2 e2 f2 g2].
    cbn [set_port _scheme _userInfo _host _port _path _query _fragment].
    split; [intros [[[[[[-> ->] ->] ->] ->] ->] ->]; done|]. by injection 1 as <- <- <- <- <- <- <-. }
  split_and!; [|intros u v| |exact H].
  - intros u. by apply H.
  - apply eq_true_iff_eq. rewrite !H. done.
  - intros u v w. rewrite !H. congruence.
Qed.
