(* ===== verification/Path.v ===== *)
(** File system paths (Foundation/src/Path.cpp, Poco/Path.h), as built for Unix.

    The class members are the record [Path]; the parsers are computations over
    it.  The home directory and the current directory come from the operating
    system (PathImpl): they are arguments.  An iterator is the list of the
    characters that are left. *)

From S2P Require Import Prelude Strings.

Open Scope st_scope.

Record Path := {
  _node : list Z;
  _device : list Z;
  _name : list Z;
  _version : list Z;
  _dirs : list (list Z);
  _absolute : bool
}.

Inductive Style := PATH_UNIX | PATH_WINDOWS | PATH_VMS | PATH_NATIVE | PATH_GUESS.

Definition DOT : list Z := str ".".
Definition DOTDOT : list Z := str "..".

Definition set_node (v : list Z) (p : Path) : Path :=
  {| _node := v; _device := _device p; _name := _name p; _version := _version p;
     _dirs := _dirs p; _absolute := _absolute p |}.
Definition set_device (v : list Z) (p : Path) : Path :=
  {| _node := _node p; _device := v; _name := _name p; _version := _version p;
     _dirs := _dirs p; _absolute := _absolute p |}.
Definition set_name (v : list Z) (p : Path) : Path :=
  {| _node := _node p; _device := _device p; _name := v; _version := _version p;
     _dirs := _dirs p; _absolute := _absolute p |}.
Definition set_version (v : list Z) (p : Path) : Path :=
  {| _node := _node p; _device := _device p; _name := _name p; _version := v;
     _dirs := _dirs p; _absolute := _absolute p |}.
Definition set_dirs (v : list (list Z)) (p : Path) : Path :=
  {| _node := _node p; _device := _device p; _name := _name p; _version := _version p;
     _dirs := v; _absolute := _absolute p |}.
Definition set_absolute (v : bool) (p : Path) : Path :=
  {| _node := _node p; _device := _device p; _name := _name p; _version := _version p;
     _dirs := _dirs p; _absolute := v |}.

(** The constructors [Path()] and [Path(bool)]. *)
Definition new_path (absolute : bool) : Path :=
  {| _node := []; _device := []; _name := []; _version := []; _dirs := []; _absolute := absolute |}.

Definition clear (p : Path) : Path := new_path false.

(** ** Directories *)

Definition pushDirectory (dir : list Z) (p : Path) : Path :=
  if negb (bool_decide (dir = [])) && negb (eqb_str dir DOT) then
    if eqb_str dir DOTDOT then
      if negb (bool_decide (_dirs p = [])) && negb (eqb_str (back (_dirs p)) DOTDOT) then
        set_dirs (pop_back (_dirs p)) p
      else if negb (_absolute p) then set_dirs (_dirs p ++ [dir]) p
      else p
    else set_dirs (_dirs p ++ [dir]) p
  else p.

Definition popDirectory (p : Path) : res Path :=
  match _dirs p with
  | [] => Raise AssertionViolationException
  | _ => Done (set_dirs (pop_back (_dirs p)) p)
  end.

Definition popFrontDirectory (p : Path) : res Path :=
  match _dirs p with
  | [] => Raise AssertionViolationException
  | _ :: r => Done (set_dirs r p)
  end.

Definition makeDirectory (p : Path) : Path :=
  set_version [] (set_name [] (pushDirectory (_name p) p)).

Definition makeFile (p : Path) : Path :=
  if negb (bool_decide (_dirs p = [])) && bool_decide (_name p = []) then
    set_dirs (pop_back (_dirs p)) (set_name (back (_dirs p)) p)
  else p.

Definition makeParent (p : Path) : Path :=
  match _name p with
  | [] =>
      match _dirs p with
      | [] => if negb (_absolute p) then set_dirs [DOTDOT] p else p
      | dirs => if eqb_str (back dirs) DOTDOT then set_dirs (dirs ++ [DOTDOT]) p
                else set_dirs (pop_back dirs) p
      end
  | _ => set_version [] (set_name [] p)
  end.

Definition parent (p : Path) : Path := makeParent p.

(** [makeAbsolute(base)] *)
Definition makeAbsolute (base p : Path) : Path :=
  if negb (_absolute p) then
    let tmp := foldl (fun t d => pushDirectory d t) (makeDirectory base) (_dirs p) in
    set_absolute (_absolute base)
      (set_dirs (_dirs tmp) (set_device (_device tmp) (set_node (_node tmp) p)))
  else p.

Definition absolute (base p : Path) : Path :=
  if negb (_absolute p) then makeAbsolute base p else p.

Definition append (path p : Path) : Path :=
  let p := makeDirectory p in
  set_version (_version path) (set_name (_name path) (set_dirs (_dirs p ++ _dirs path) p)).

Definition resolve (path p : Path) : Path :=
  if _absolute path then path
  else set_name (_name path) (foldl (fun t d => pushDirectory d t) p (_dirs path)).

(** [Path(parent, fileName)] and [Path(parent, relative)] *)
Definition of_parent_file (par : Path) (fileName : list Z) : Path :=
  set_name fileName (makeDirectory par).
Definition of_parent_relative (par relative : Path) : Path := resolve relative par.

Definition setNode (node : list Z) (p : Path) : Path :=
  set_absolute (_absolute p || negb (bool_decide (node = []))) (set_node node p).
Definition setDevice (device : list Z) (p : Path) : Path :=
  set_absolute (_absolute p || negb (bool_decide (device = []))) (set_device device p).

(** [directory(n)] and [operator []] *)
Definition directory (n : Z) (p : Path) : res (list Z) :=
  if (0 <=? n) && (n <=? Z.of_nat (length (_dirs p))) then
    match _dirs p !! Z.to_nat n with Some d => Done d | None => Done (_name p) end
  else Raise AssertionViolationException.

(** ** File names *)

(** [_name.rfind('.')] *)
Fixpoint rfind (c : Z) (s : list Z) : option nat :=
  match s with
  | [] => None
  | x :: r => match rfind c r with
              | Some k => Some (S k)
              | None => if x =? c then Some O else None
              end
  end.

Definition getBaseName (p : Path) : list Z :=
  match rfind (chr ".") (_name p) with Some pos => take pos (_name p) | None => _name p end.
Definition getExtension (p : Path) : list Z :=
  match rfind (chr ".") (_name p) with Some pos => drop (pos + 1) (_name p) | None => [] end.

Definition setFileName (name : list Z) (p : Path) : Path := set_name name p.
Definition setBaseName (name : list Z) (p : Path) : Path :=
  let ext := getExtension p in
  set_name (match ext with [] => name | _ => name ++ [chr "."] ++ ext end) p.
Definition setExtension (extension : list Z) (p : Path) : Path :=
  let base := getBaseName p in
  set_name (match extension with [] => base | _ => base ++ [chr "."] ++ extension end) p.

Definition isDirectory (p : Path) : bool := bool_decide (_name p = []).
Definition isFile (p : Path) : bool := negb (bool_decide (_name p = [])).
Definition depth (p : Path) : Z := Z.of_nat (length (_dirs p)).

(** ** Parsing *)

(** What [parseUnix] does with a name before a slash: a device, as long as there
    are no directories, or a directory. *)
Definition unix_name (name : list Z) (p : Path) : Path :=
  match _dirs p with
  | [] =>
      match name with
      | [] => pushDirectory name p
      | _ => if nth (length name - 1) name 0 =? chr ":" then
               set_device (take (length name - 1) name) (set_absolute true p)
             else pushDirectory name p
      end
  | _ => pushDirectory name p
  end.

(** [while (it != end)]: read a name up to a separator; [dir] is what is done
    with a name before one, the name at the end of the text is the file name. *)
Fixpoint names_loop (seps : list Z) (dir : list Z -> Path -> Path) (fuel : nat) (it : list Z)
    : ST Path unit :=
  match fuel with
  | O => undef
  | S f =>
      match it with
      | [] => ret tt
      | _ =>
          let (name, rest) := span (not_in seps) it in
          match rest with
          | [] => modify (set_name name)
          | _ :: it' => do* modify (dir name); names_loop seps dir f it'
          end
      end
  end.

Definition unix_loop (it : list Z) : ST Path unit :=
  names_loop (str "/") unix_name (S (length it)) it.

(** [cwd] is the path of the home directory, asked for after a tilde only. *)
Definition parseUnix_with (cwd : res Path) (path : list Z) : ST Path unit :=
  do* modify clear;
  match path with
  | [] => ret tt
  | c :: it =>
      if c =? chr "/" then
        do* modify (set_absolute true); unix_loop it
      else if c =? chr "~" then
        if match it with [] => true | d :: _ => d =? chr "/" end then
          let* h := lift cwd in
          do* modify (set_dirs (_dirs h)); do* modify (set_absolute true);
          unix_loop it
        else unix_loop path
      else unix_loop path
  end.

(** A path that needs the home directory. *)
Definition tilde (path : list Z) : bool :=
  match path with
  | c :: it => (c =? chr "~") && match it with [] => true | d :: _ => d =? chr "/" end
  | [] => false
  end.

Definition outcome {A} (m : ST Path A) (p : Path) : res Path :=
  match m p with
  | (Done _, p') => Done p'
  | (Eof, _) => Eof
  | (Raise e, _) => Raise e
  | (UB, _) => UB
  end.

(** [Path cwd(home())] parses the home directory in turn: the recursion does not
    end when that one is itself below a tilde. *)
Definition parseUnix (home path : list Z) : ST Path unit :=
  parseUnix_with (if tilde home then UB else outcome (parseUnix_with UB home) (new_path false)) path.

Definition is_letter (d : Z) : bool :=
  (chr "a" <=? d) && (d <=? chr "z") || (chr "A" <=? d) && (d <=? chr "Z").

Definition is_slash (c : Z) : bool := (c =? chr "\") || (c =? chr "/").

Definition windows_loop (it : list Z) : ST Path unit :=
  names_loop (str "\/") pushDirectory (S (length it)) it.

(** The node or the drive at the start of a Windows path; what is left of it. *)
Definition windows_root (it : list Z) : ST Path (list Z) :=
  let* p := get in
  match it with
  | [] => ret it
  | c :: it1 =>
      if _absolute p && is_slash c then
        let (node, rest) := span (not_in (str "\/")) it1 in
        do* modify (set_node node); ret (drop 1 rest)
      else
        match it1 with
        | colon :: it2 =>
            if colon =? chr ":" then
              if _absolute p || negb (is_letter c) then throw PathSyntaxException
              else
                do* modify (set_absolute true);
                do* modify (fun p => set_device (_device p ++ [c]) p);
                match it2 with
                | s :: it3 => if is_slash s then ret it3 else throw PathSyntaxException
                | [] => throw PathSyntaxException
                end
            else ret it
        | [] => ret it
        end
  end.

Definition parseWindows (path : list Z) : ST Path unit :=
  do* modify clear;
  do* match path with
      | [] => ret tt
      | c :: r =>
          let* it := (if is_slash c then do* modify (set_absolute true); ret r else ret path) in
          let* it := windows_root it in
          windows_loop it
      end;
  modify (fun p => if negb (bool_decide (_node p = [])) && bool_decide (_dirs p = []) &&
                      negb (bool_decide (_name p = [])) then makeDirectory p else p).

Definition DASH : list Z := str "-".

(** One bracket of a VMS path up to its closing bracket, which is left; [dash]
    is what a minus sign does. *)
Fixpoint vms_loop (fuel : nat) (dash : Path -> Path) (it : list Z) : ST Path (list Z) :=
  match fuel with
  | O => undef
  | S f =>
      match it with
      | [] => ret it
      | c :: r =>
          if c =? chr "]" then ret it
          else
            let (name, it') := if c =? chr "-" then (DASH, it) else span (not_in (str ".]")) it in
            do* modify (fun p =>
                  match name with
                  | [] => p
                  | _ => if eqb_str name DASH then dash p else set_dirs (_dirs p ++ [name]) p
                  end);
            vms_loop f dash
              (match it' with
               | c' :: r' => if negb (c' =? chr "]") then r' else it'
               | [] => it'
               end)
      end
  end.

Definition dash_first (p : Path) : Path :=
  if bool_decide (_dirs p = []) || eqb_str (back (_dirs p)) DOTDOT
  then set_dirs (_dirs p ++ [DOTDOT]) p else set_dirs (pop_back (_dirs p)) p.

Definition dash_second (d : nat) (p : Path) : Path :=
  if (d <? length (_dirs p))%nat then set_dirs (pop_back (_dirs p)) p else p.

(** The second bracket, after the closing bracket of the first. *)
Definition vms_second (it : list Z) : ST Path (list Z) :=
  match it with
  | c :: it1 =>
      if c =? chr "[" then
        let* p := get in
        if negb (_absolute p) then throw PathSyntaxException
        else if match it1 with d :: _ => d =? chr "." | [] => false end then throw PathSyntaxException
        else
          let* it2 := vms_loop (S (length it1)) (dash_second (length (_dirs p))) it1 in
          match it2 with [] => throw PathSyntaxException | _ :: it3 => ret it3 end
      else ret it
  | [] => ret it
  end.

(** The directories, after an opening bracket. *)
Definition vms_brackets (it : list Z) : ST Path (list Z) :=
  match it with
  | [] => ret it
  | c :: r =>
      do* modify (set_absolute true);
      let* it1 := (if c =? chr "." then do* modify (set_absolute false); ret r
                   else if (c =? chr "]") || (c =? chr "-")
                   then do* modify (set_absolute false); ret it
                   else ret it) in
      let* it2 := vms_loop (S (length it1)) dash_first it1 in
      match it2 with
      | [] => throw PathSyntaxException
      | _ :: it3 => vms_second it3
      end
  end.

(** The device of a path that has a node, or no colon yet; the name read on the
    way and what is left. *)
Definition vms_device (name it : list Z) : ST Path (list Z * list Z) :=
  let* p := get in
  match it with
  | c :: _ =>
      if bool_decide (_device p = []) && negb (c =? chr "[") then
        let (more, it') := span (not_in (str ":;")) it in
        match it' with
        | d :: r => if d =? chr ":" then
                      do* modify (set_device (name ++ more)); do* modify (set_absolute true);
                      ret ([], r)
                    else ret (name ++ more, it')
        | [] => ret (name ++ more, it')
        end
      else ret (name, it)
  | [] => ret (name, it)
  end.

(** The directories, the name and the version, after the node and the device. *)
Definition vms_rest (name it : list Z) : ST Path unit :=
  let* it := (match name with
              | [] =>
                  let* it := (match it with
                              | d :: r => if d =? chr "[" then
                                            let* it := vms_brackets r in
                                            do* modify (set_name []); ret it
                                          else ret it
                              | [] => ret it
                              end) in
                  let (nm, it') := span (not_in (str ";")) it in
                  do* modify (fun p => set_name (_name p ++ nm) p); ret it'
              | _ => do* modify (set_name name); ret it
              end) in
  match it with
  | d :: r => if d =? chr ";" then modify (fun p => set_version (_version p ++ r) p) else ret tt
  | [] => ret tt
  end.

Definition parseVMS (path : list Z) : ST Path unit :=
  do* modify clear;
  let (name, it) := span (not_in (str ":[;")) path in
  match path, it with
  | [], _ => ret tt
  | _, [] => modify (set_name name)
  | _, c :: r =>
      let* ni := (if c =? chr ":" then
                    match r with
                    | d :: r' =>
                        if d =? chr ":" then
                          do* modify (set_node name); do* modify (set_absolute true); ret ([], r')
                        else do* modify (set_device name); do* modify (set_absolute true); ret ([], r)
                    | [] => do* modify (set_device name); do* modify (set_absolute true); ret ([], r)
                    end
                  else ret (name, it)) in
      let* ni := vms_device (fst ni) (snd ni) in
      vms_rest (fst ni) (snd ni)
  end.

(** What [parseGuess] finds out about the characters: a backslash, a slash, an
    opening bracket, a bracket closed after one, and the text after the last
    bracket or semicolon (the [case] labels fall through). *)
Record guess := {
  hasBackslash : bool;
  hasSlash : bool;
  hasOpenBracket : bool;
  hasClosBracket : bool;
  semiIt : option (list Z)
}.

Fixpoint guess_loop (g : guess) (it : list Z) : guess :=
  match it with
  | [] => g
  | c :: r =>
      guess_loop
        (if c =? chr "\" then
           {| hasBackslash := true; hasSlash := hasSlash g; hasOpenBracket := hasOpenBracket g;
              hasClosBracket := hasClosBracket g; semiIt := semiIt g |}
         else if c =? chr "/" then
           {| hasBackslash := hasBackslash g; hasSlash := true; hasOpenBracket := hasOpenBracket g;
              hasClosBracket := hasClosBracket g; semiIt := semiIt g |}
         else if c =? chr "[" then
           {| hasBackslash := hasBackslash g; hasSlash := hasSlash g; hasOpenBracket := true;
              hasClosBracket := true; semiIt := Some it |}
         else if c =? chr "]" then
           {| hasBackslash := hasBackslash g; hasSlash := hasSlash g;
              hasOpenBracket := hasOpenBracket g; hasClosBracket := hasOpenBracket g;
              semiIt := Some it |}
         else if c =? chr ";" then
           {| hasBackslash := hasBackslash g; hasSlash := hasSlash g;
              hasOpenBracket := hasOpenBracket g; hasClosBracket := hasClosBracket g;
              semiIt := Some it |}
         else g) r
  end.

Definition parseGuess (home path : list Z) : ST Path unit :=
  let isWindows := match path with
                   | _ :: c1 :: c2 :: _ => (c1 =? chr ":") && ((c2 =? chr "/") || (c2 =? chr "\"))
                   | _ => false
                   end in
  let g0 := {| hasBackslash := false; hasSlash := false; hasOpenBracket := false;
               hasClosBracket := false; semiIt := None |} in
  let g := if negb isWindows then guess_loop g0 path else g0 in
  if hasBackslash g || isWindows then parseWindows path
  else if hasSlash g then parseUnix home path
  else
    let isVMS := hasClosBracket g ||
                 match semiIt g with
                 | Some it => forallb (fun c => negb ((c <? chr "0") || (c >? chr "9"))) (drop 1 it)
                 | None => false
                 end in
    if isVMS then parseVMS path else parseUnix home path.

Definition assign_style (home path : list Z) (style : Style) : ST Path unit :=
  match style with
  | PATH_UNIX => parseUnix home path
  | PATH_WINDOWS => parseWindows path
  | PATH_VMS => parseVMS path
  | PATH_NATIVE => parseUnix home path
  | PATH_GUESS => parseGuess home path
  end.

(** [assign(path)] and [parse(path)] of the Unix build. *)
Definition assign (home path : list Z) : ST Path unit := parseUnix home path.

(** [tryParse(path, style)] parses into a local object first. *)
Definition tryParse (home path : list Z) (style : Style) (p : Path) : res (bool * Path) :=
  match assign_style home path style (new_path false) with
  | (Done _, q) => Done (true, q)
  | (Raise _, _) => Done (false, p)
  | (Eof, _) => Eof
  | (UB, _) => UB
  end.

Definition parseDirectory (home path : list Z) (style : Style) : ST Path unit :=
  do* assign_style home path style; modify makeDirectory.

(** ** Composition *)

Definition buildUnix (p : Path) : list Z :=
  (if negb (bool_decide (_device p = [])) then str "/" ++ _device p ++ str ":/"
   else if _absolute p then str "/" else []) ++
  foldl (fun result d => result ++ d ++ str "/") [] (_dirs p) ++ _name p.

Definition buildWindows (p : Path) : list Z :=
  (if negb (bool_decide (_node p = [])) then str "\\" ++ _node p ++ str "\"
   else if negb (bool_decide (_device p = [])) then _device p ++ str ":\"
   else if _absolute p then str "\" else []) ++
  foldl (fun result d => result ++ d ++ str "\") [] (_dirs p) ++ _name p.

(** The loop of [buildVMS]; [first] holds for the first directory. *)
Fixpoint vms_dirs (first : bool) (dirs : list (list Z)) : list Z :=
  match dirs with
  | [] => []
  | d :: r =>
      (if negb first && negb (eqb_str d DOTDOT) then str "." else []) ++
      (if eqb_str d DOTDOT then str "-" else d) ++ vms_dirs false r
  end.

Definition buildVMS (p : Path) : list Z :=
  (match _node p with [] => [] | n => n ++ str "::" end) ++
  (match _device p with [] => [] | d => d ++ str ":" end) ++
  (match _dirs p with
   | [] => []
   | d :: _ => str "[" ++ (if negb (_absolute p) && negb (eqb_str d DOTDOT) then str "." else []) ++
               vms_dirs true (_dirs p) ++ str "]"
   end) ++
  _name p ++
  (match _version p with [] => [] | v => str ";" ++ v end).

Definition toString_style (p : Path) (style : Style) : list Z :=
  match style with
  | PATH_UNIX => buildUnix p
  | PATH_WINDOWS => buildWindows p
  | PATH_VMS => buildVMS p
  | PATH_NATIVE | PATH_GUESS => buildUnix p
  end.

Definition toString (p : Path) : list Z := buildUnix p.

(** [find(begin, end, name, path)]; [exists_] is [File::exists]. *)
Fixpoint find (exists_ : list Z -> bool) (home : list Z) (dirs : list (list Z)) (name : list Z)
    : res (option Path) :=
  match dirs with
  | [] => Done None
  | d :: r =>
      rbind (outcome (assign home d) (new_path false)) (fun p =>
      rbind (outcome (assign home name) (new_path false)) (fun q =>
      let p := resolve q (makeDirectory p) in
      if exists_ (toString p) then Done (Some p) else find exists_ home r name))
  end.
