(* ===== verification/PathFacts.v ===== *)
(** What Path.cpp guarantees: the directories stay normalized under the
    operations that edit a path (some of them with a condition), and the texts of a path, in the Unix, Windows
    and VMS syntax, are read back as the same path. *)

From S2P Require Import Prelude Strings Path.

Open Scope st_scope.

(** ** Normalized directories *)

(** A directory name as [pushDirectory] keeps it. *)
Definition plain_dir (d : list Z) : Prop := d <> [] /\ d <> DOT /\ d <> DOTDOT.

(** Parent directories only at the front, and none in an absolute path. *)
Definition normal (absolute : bool) (dirs : list (list Z)) : Prop :=
  exists k l, dirs = repeat DOTDOT k ++ l /\ Forall plain_dir l /\ (absolute = true -> k = 0%nat).

Definition wf_path (p : Path) : Prop := normal (_absolute p) (_dirs p).

Lemma normal_nil a : normal a [].
Proof. by exists 0%nat, []. Qed.
#[export] Hint Resolve normal_nil : poco.

Lemma normal_snoc a dirs d : normal a dirs -> plain_dir d -> normal a (dirs ++ [d]).
Proof.
  intros (k & l & -> & Hl & Hk) Hd. exists k, (l ++ [d]). rewrite app_assoc. split_and!; [done| |done].
  apply Forall_app_2; auto.
Qed.

Lemma normal_snoc_inv a dirs d :
  normal a (dirs ++ [d]) ->
  normal a dirs /\ (d = DOTDOT -> a = false /\ exists k, dirs = repeat DOTDOT k).
Proof.
  intros (k & l & E & Hl & Hk). destruct l as [|x l _] using rev_ind.
  - rewrite app_nil_r in E. destruct k as [|k]; [by destruct dirs|].
    cbn [repeat] in E. rewrite repeat_cons in E. apply app_inj_tail in E as [-> ->]. split.
    + exists k, []. rewrite app_nil_r. split_and!; [done|done|]. intros Ha. by specialize (Hk Ha).
    + intros _. split; [|by exists k]. destruct a; [by specialize (Hk eq_refl)|done].
  - rewrite app_assoc in E. apply app_inj_tail in E as [-> ->].
    apply Forall_app in Hl as [Hl Hx]. inv_Forall. split; [by exists k, l|].
    intros ->. by destruct H as (_ & _ & ?).
Qed.

Lemma normal_parents k : normal false (repeat DOTDOT k).
Proof. exists k, []. by rewrite app_nil_r. Qed.

Lemma normal_tail a d dirs : normal a (d :: dirs) -> normal a dirs.
Proof.
  intros ([|k] & l & E & Hl & Hk).
  - simpl in E. subst l. inv_Forall. by exists 0%nat, dirs.
  - injection E as -> ->. exists k, l. split_and!; [done|done|]. intros Ha. by specialize (Hk Ha).
Qed.

(** The three cases of [pushDirectory] on a normalized list. *)
Lemma push_plain d p : plain_dir d -> pushDirectory d p = set_dirs (_dirs p ++ [d]) p.
Proof.
  intros (H1 & H2 & H3). unfold pushDirectory, eqb_str.
  by rewrite !bool_decide_eq_false_2 by done.
Qed.

Lemma push_noop d p : d = [] \/ d = DOT -> pushDirectory d p = p.
Proof. unfold pushDirectory. by intros [-> | ->]. Qed.

Lemma push_parent_pop dirs d p :
  _dirs p = dirs ++ [d] -> d <> DOTDOT -> pushDirectory DOTDOT p = set_dirs dirs p.
Proof.
  intros E Hd. unfold pushDirectory. rewrite E, back_snoc, pop_back_snoc.
  rewrite (bool_decide_eq_false_2 (dirs ++ [d] = [])) by (by destruct dirs).
  unfold eqb_str at 3. by rewrite (bool_decide_eq_false_2 (d = DOTDOT)) by done.
Qed.

Lemma push_parent_keep k p :
  _dirs p = repeat DOTDOT k -> _absolute p = false ->
  pushDirectory DOTDOT p = set_dirs (repeat DOTDOT (S k)) p.
Proof.
  intros E Ha. unfold pushDirectory. rewrite E, Ha.
  change (negb (bool_decide (DOTDOT = [])) && negb (eqb_str DOTDOT DOT)) with true.
  change (eqb_str DOTDOT DOTDOT) with true. cbv iota. cbn [negb].
  cbn [repeat]. rewrite repeat_cons.
  destruct k as [|k]; [done|]. cbn [repeat]. rewrite repeat_cons, back_snoc.
  change (eqb_str DOTDOT DOTDOT) with true. by rewrite andb_false_r.
Qed.

Lemma push_parent_root p : _dirs p = [] -> _absolute p = true -> pushDirectory DOTDOT p = p.
Proof. intros E Ha. unfold pushDirectory. by rewrite E, Ha. Qed.

(** Pushing never changes anything but the directories. *)
Lemma push_fields d p : exists dirs, pushDirectory d p = set_dirs dirs p.
Proof.
  unfold pushDirectory. repeat case_match; try by eexists.
  all: exists (_dirs p); by destruct p.
Qed.

Lemma push_wf d p : wf_path p -> wf_path (pushDirectory d p).
Proof.
  intros Hw. destruct (decide (d = [] \/ d = DOT)) as [Hn|Hn]; [by rewrite push_noop|].
  destruct (decide (d = DOTDOT)) as [->|Hd].
  2:{ assert (plain_dir d) by (unfold plain_dir; tauto). rewrite push_plain by done.
      by apply normal_snoc. }
  destruct (_dirs p) as [|x dirs _] eqn:E using rev_ind.
  - destruct (_absolute p) eqn:Ea; [by rewrite push_parent_root|].
    rewrite (push_parent_keep 0) by done. unfold wf_path. cbn. rewrite Ea. apply (normal_parents 1).
  - pose proof Hw as Hw'. unfold wf_path in Hw'. rewrite E in Hw'.
    apply normal_snoc_inv in Hw' as [Hn' Hx].
    destruct (decide (x = DOTDOT)) as [->|Hxd].
    + destruct (Hx eq_refl) as (Ha & k & ->). rewrite (push_parent_keep (S k)); [|cbn [repeat]; by rewrite E, repeat_cons|done].
      unfold wf_path. cbn [_dirs _absolute set_dirs]. rewrite Ha. apply normal_parents.
    + by rewrite (push_parent_pop dirs x).
Qed.
#[export] Hint Resolve push_wf : poco.

Lemma foldl_push_wf l p : wf_path p -> wf_path (foldl (fun t d => pushDirectory d t) p l).
Proof. revert p. induction l as [|d l IH]; intros p Hp; [done|]. apply IH, push_wf, Hp. Qed.

Lemma foldl_push_fields l p :
  exists dirs, foldl (fun t d => pushDirectory d t) p l = set_dirs dirs p.
Proof.
  revert p. induction l as [|d l IH]; intros p; cbn [foldl].
  - exists (_dirs p). by destruct p.
  - destruct (IH (pushDirectory d p)) as [ds ->]. destruct (push_fields d p) as [ds' ->]. by exists ds.
Qed.

(** Pushing the elements of a normalized list one by one gives the list. *)
Lemma foldl_push_normal dirs p :
  normal (_absolute p) dirs -> _dirs p = [] ->
  foldl (fun t d => pushDirectory d t) p dirs = set_dirs dirs p.
Proof.
  intros (k & l & -> & Hl & Hk) Ep. rewrite foldl_app.
  assert (foldl (fun t d => pushDirectory d t) p (repeat DOTDOT k) = set_dirs (repeat DOTDOT k) p) as ->.
  { destruct (_absolute p) eqn:Ea.
    - rewrite (Hk eq_refl). destruct p; simpl in *. by subst.
    - clear Hk. enough (forall n q, _dirs q = repeat DOTDOT n -> _absolute q = false ->
        foldl (fun t d => pushDirectory d t) q (repeat DOTDOT k) = set_dirs (repeat DOTDOT (n + k)) q) as H
        by (apply (H 0%nat); auto).
      clear. induction k as [|k IH]; intros n q Eq Ea.
      + rewrite Nat.add_0_r. destruct q; simpl in *. by subst.
      + cbn [repeat foldl]. rewrite (push_parent_keep n) by done.
        rewrite (IH (S n)) by done. by rewrite Nat.add_succ_r. }
  generalize (repeat DOTDOT k) as ds. clear Hk Ep. induction Hl as [|d l Hd Hl IH]; intros ds.
  - by rewrite app_nil_r.
  - cbn [foldl]. rewrite push_plain by done. cbn [_dirs set_dirs].
    specialize (IH (ds ++ [d])). rewrite <-app_assoc in IH. exact IH.
Qed.

(** ** The operations keep the directories normalized *)

Lemma makeDirectory_wf p : wf_path p -> wf_path (makeDirectory p).
Proof. intros H. unfold makeDirectory. apply (push_wf (_name p) p) in H. exact H. Qed.

Lemma pop_back_normal a dirs : normal a dirs -> normal a (pop_back dirs).
Proof.
  destruct dirs as [|d dirs _] using rev_ind; [done|]. rewrite pop_back_snoc.
  by intros [H _]%normal_snoc_inv.
Qed.

Lemma makeParent_wf p : wf_path p -> wf_path (makeParent p).
Proof.
  intros H. unfold makeParent. destruct (_name p); [|exact H].
  destruct (_dirs p) as [|d ds] eqn:E.
  - destruct (_absolute p) eqn:Ea; [exact H|]. unfold wf_path. cbn. rewrite Ea. apply (normal_parents 1).
  - unfold wf_path in H. rewrite E in H. rewrite <-E in *. clear E d ds.
    destruct (_dirs p) as [|x dirs _] using rev_ind; [apply normal_nil|].
    rewrite back_snoc, pop_back_snoc. apply normal_snoc_inv in H as [H Hx].
    destruct (eqb_str x DOTDOT) eqn:E; [|exact H]. apply eqb_str_spec in E.
    destruct (Hx E) as (Ha & k & ->). subst x. unfold wf_path. cbn [_dirs _absolute set_dirs].
    rewrite Ha, <-repeat_cons. change (DOTDOT :: repeat DOTDOT k) with (repeat DOTDOT (S k)).
    rewrite <-repeat_cons. apply (normal_parents (S (S k))).
Qed.

Lemma resolve_wf q p : wf_path q -> wf_path p -> wf_path (resolve q p).
Proof.
  intros Hq Hp. unfold resolve. destruct (_absolute q); [done|].
  pose proof (foldl_push_wf (_dirs q) p Hp) as H. exact H.
Qed.

Lemma makeAbsolute_wf base p : wf_path base -> wf_path p -> wf_path (makeAbsolute base p).
Proof.
  intros Hb Hp. unfold makeAbsolute. destruct (_absolute p) eqn:Ea; [done|]. cbn [negb].
  pose proof (foldl_push_wf (_dirs p) _ (makeDirectory_wf base Hb)) as H. unfold wf_path in H |- *.
  destruct (foldl_push_fields (_dirs p) (makeDirectory base)) as [ds E]. rewrite E in *. cbn in *.
  unfold makeDirectory in H. destruct (push_fields (_name base) base) as [ds' E']. by rewrite E' in H.
Qed.

Lemma names_loop_wf seps dir fuel it p r q :
  (forall name p, wf_path p -> wf_path (dir name p)) -> wf_path p ->
  names_loop seps dir fuel it p = (Done r, q) -> wf_path q.
Proof.
  intros Hdir. revert it p. induction fuel as [|f IH]; intros it p Hp; [done|]. cbn [names_loop].
  destruct it as [|c it]; [by injection 1 as _ <-|].
  destruct (span (not_in seps) (c :: it)) as [name [|d rest]].
  - by injection 1 as _ <-.
  - rewrite bind_modify. apply IH, Hdir, Hp.
Qed.

Lemma unix_name_wf name p : wf_path p -> wf_path (unix_name name p).
Proof.
  intros Hp. unfold unix_name. destruct (_dirs p) eqn:E; [|by apply push_wf].
  destruct name as [|c name]; [by apply push_wf|]. case_match; [|by apply push_wf].
  unfold wf_path. cbn. rewrite E. apply normal_nil.
Qed.

Lemma parseUnix_with_wf cwd path p q r :
  (forall h, cwd = Done h -> normal true (_dirs h)) ->
  parseUnix_with cwd path p = (Done r, q) -> wf_path q.
Proof.
  intros Hcwd. unfold parseUnix_with. rewrite bind_modify.
  assert (forall it p0, wf_path p0 -> unix_loop it p0 = (Done r, q) -> wf_path q) as Hloop
    by (intros it p0 H0; apply names_loop_wf; [apply unix_name_wf|done]).
  destruct path as [|c it]; [by injection 1 as _ <-; apply normal_nil|].
  destruct (c =? chr "/"); [rewrite bind_modify; apply Hloop, normal_nil|].
  destruct (c =? chr "~"); [|apply Hloop, normal_nil].
  destruct (match it with [] => true | d :: _ => d =? chr "/" end); [|apply Hloop, normal_nil].
  destruct cwd as [h| | |] eqn:Ec; try done. unfold lift at 1, bind at 1.
  rewrite !bind_modify. apply Hloop. exact (Hcwd h eq_refl).
Qed.

(** The home directory as the operating system gives it: an absolute path. *)
Definition home_ok (home : list Z) : Prop := exists h, home = chr "/" :: h.

Lemma names_loop_absolute seps dir fuel it p r q :
  (forall name p, _absolute p = true -> _absolute (dir name p) = true) -> _absolute p = true ->
  names_loop seps dir fuel it p = (Done r, q) -> _absolute q = true.
Proof.
  intros Hdir. revert it p. induction fuel as [|f IH]; intros it p Hp; [done|]. cbn [names_loop].
  destruct it as [|c it]; [by injection 1 as _ <-|].
  destruct (span (not_in seps) (c :: it)) as [name [|d rest]].
  - by injection 1 as _ <-.
  - rewrite bind_modify. apply IH, Hdir, Hp.
Qed.

Lemma unix_name_absolute name p : _absolute p = true -> _absolute (unix_name name p) = true.
Proof.
  intros Hp. assert (_absolute (pushDirectory name p) = true).
  { by destruct (push_fields name p) as [ds ->]. }
  unfold unix_name. by repeat case_match.
Qed.

Lemma parseUnix_wf home path p q r :
  home_ok home -> parseUnix home path p = (Done r, q) -> wf_path q.
Proof.
  intros [h ->]. unfold parseUnix. change (tilde (chr "/" :: h)) with false. cbv iota.
  apply parseUnix_with_wf. intros cwd. unfold outcome.
  destruct (parseUnix_with UB (chr "/" :: h) (new_path false)) as [[] q'] eqn:E; try done.
  injection 1 as ->. pose proof E as Hwf. apply parseUnix_with_wf in Hwf; [|done].
  unfold parseUnix_with in E. rewrite bind_modify in E.
  change (chr "/" =? chr "/") with true in E. cbv iota in E. rewrite bind_modify in E.
  unfold unix_loop in E.
  apply names_loop_absolute in E; [|apply unix_name_absolute|done].
  unfold wf_path in Hwf. by rewrite E in Hwf.
Qed.

Lemma windows_root_dirs it p r q :
  windows_root it p = (Done r, q) -> _dirs q = _dirs p /\ (_absolute p = true -> _absolute q = true).
Proof.
  unfold windows_root. rewrite bind_get.
  destruct it as [|c it]; [by injection 1 as _ <-|].
  destruct (_absolute p && is_slash c) eqn:E1.
  { destruct (span _ it). rewrite bind_modify. by injection 1 as _ <-. }
  destruct it as [|d it]; [by injection 1 as _ <-|].
  destruct (d =? chr ":"); [|by injection 1 as _ <-].
  destruct (_absolute p || negb (is_letter c)); [done|]. rewrite !bind_modify.
  destruct it as [|s it]; [done|]. destruct (is_slash s); [|done]. by injection 1 as _ <-.
Qed.

Lemma parseWindows_wf path p q r : parseWindows path p = (Done r, q) -> wf_path q.
Proof.
  unfold parseWindows. rewrite bind_modify.
  assert (forall p', wf_path p' -> wf_path (if negb (bool_decide (_node p' = [])) &&
    bool_decide (_dirs p' = []) && negb (bool_decide (_name p' = [])) then makeDirectory p' else p'))
    as Hend by (intros; case_match; auto using makeDirectory_wf).
  destruct path as [|c path]; [rewrite bind_ret; injection 1 as _ <-; apply (Hend (clear p)), normal_nil|].
  assert (exists it1 p1, (if is_slash c then do* modify (set_absolute true); ret path
            else ret (c :: path)) (clear p) = (Done it1, p1) /\ _dirs p1 = []) as (it1 & p1 & E1 & Ed).
  { destruct (is_slash c); by eexists _, _. }
  rewrite bind_bind, (bind_Done _ _ _ _ _ E1), bind_bind.
  destruct (windows_root it1 p1) as [[it2| | |] p2] eqn:E2; unfold bind at 1; rewrite E2; try done.
  apply windows_root_dirs in E2 as [E2 _]. rewrite Ed in E2.
  destruct (windows_loop it2 p2) as [[[]| | |] p3] eqn:E3; unfold bind; rewrite E3; try done.
  injection 1 as _ <-. apply (Hend p3). eapply names_loop_wf; [| |exact E3].
  - intros; by apply push_wf.
  - unfold wf_path. rewrite E2. apply normal_nil.
Qed.

(** *** The VMS syntax: parent directories only in front *)

Definition keeps_normal {A} (m : ST Path A) : Prop := forall p r q, normal false (_dirs p) -> m p = (Done r, q) -> normal false (_dirs q).

Lemma normal_bind {A B} (m : ST Path A) (k : A -> ST Path B) : keeps_normal m -> (forall a, keeps_normal (k a)) -> keeps_normal (bind m k).
Proof.
  intros Hm Hk p r q Hp. unfold bind. destruct (m p) as [[a| | |] p1] eqn:E; try done. by apply Hk, (Hm _ _ _ Hp E).
Qed.

Lemma normal_get {B} (k : Path -> ST Path B) : (forall s, keeps_normal (k s)) -> keeps_normal (bind get k).
Proof. intros Hk p r q Hp. rewrite bind_get. by apply Hk. Qed.

Lemma normal_ret {A} (a : A) : keeps_normal (ret a).
Proof. by intros p r q Hp [= _ <-]. Qed.

Lemma normal_throw {A} e : keeps_normal (A := A) (throw e).
Proof. by intros p r q Hp. Qed.

Lemma normal_modify f : (forall p, normal false (_dirs p) -> normal false (_dirs (f p))) -> keeps_normal (modify f).
Proof. intros Hf p r q Hp [= _ <-]. by apply Hf. Qed.

Lemma normal_fields f : (forall p, _dirs (f p) = _dirs p) -> keeps_normal (modify f).
Proof. intros Hf. apply normal_modify. intros p. by rewrite Hf. Qed.

Lemma dash_first_normal p : normal false (_dirs p) -> normal false (_dirs (dash_first p)).
Proof.
  intros H. unfold dash_first. destruct (_dirs p) as [|x dirs _] eqn:E using rev_ind; [apply (normal_parents 1)|].
  rewrite (bool_decide_eq_false_2 (dirs ++ [x] = [])) by (by destruct dirs). rewrite back_snoc. cbn [orb].
  destruct (eqb_str x DOTDOT) eqn:Ex; cbn [_dirs set_dirs]; [|by apply pop_back_normal].
  apply eqb_str_spec in Ex. apply normal_snoc_inv in H as [_ H]. destruct (H Ex) as (_ & k & ->). rewrite Ex.
  rewrite <- repeat_cons. change (DOTDOT :: repeat DOTDOT k) with (repeat DOTDOT (S k)). rewrite <- repeat_cons. apply (normal_parents (S (S k))).
Qed.

Lemma dash_second_normal n p : normal false (_dirs p) -> normal false (_dirs (dash_second n p)).
Proof. intros H. unfold dash_second. case_match; [|done]. by apply pop_back_normal. Qed.

Lemma bracket_name_plain c r name it' : (c =? chr "]") = false -> (c =? chr "-") = false -> span (not_in (str ".]")) (c :: r) = (name, it') ->
  name = [] \/ plain_dir name.
Proof.
  intros H1 H2. cbn [span]. destruct (not_in (str ".]") c) eqn:E; [|intros [= <- _]; by left].
  destruct (span (not_in (str ".]")) r) as [n i]. intros [= <- _]. right. split_and!; [done| |]; intros [= Hc _]; by rewrite Hc in E.
Qed.

Lemma vms_loop_normal dash fuel : (forall p, normal false (_dirs p) -> normal false (_dirs (dash p))) ->
  forall it, keeps_normal (vms_loop fuel dash it).
Proof.
  intros Hd. induction fuel as [|f IH]; intros it; cbn [vms_loop]; [by intros p r q Hp|]. destruct it as [|c it]; [apply normal_ret|].
  destruct (c =? chr "]") eqn:E1; [apply normal_ret|].
  destruct (c =? chr "-") eqn:E2.
  - apply normal_bind; [|intros _; apply IH]. apply normal_modify. exact Hd.
  - destruct (span (not_in (str ".]")) (c :: it)) as [name it'] eqn:Es. apply normal_bind; [|intros _; apply IH].
    apply normal_modify. intros p Hp. destruct (bracket_name_plain c it name it' E1 E2 Es) as [-> |Hn]; [done|].
    destruct name as [|x name]; [done|]. destruct (eqb_str (x :: name) DASH); [by apply Hd|]. by apply normal_snoc.
Qed.

Lemma vms_brackets_normal it : keeps_normal (vms_brackets it).
Proof.
  unfold vms_brackets. destruct it as [|c r]; [apply normal_ret|]. apply normal_bind; [by apply normal_fields|]. intros _.
  apply normal_bind.
  { repeat case_match; try (apply normal_bind; [by apply normal_fields|]); intros; apply normal_ret. }
  intros it1. apply normal_bind; [apply vms_loop_normal, dash_first_normal|]. intros [|d it2]; [apply normal_throw|].
  unfold vms_second. destruct it2 as [|e it3]; [apply normal_ret|]. case_match; [|apply normal_ret]. apply normal_get. intros p.
  case_match; [apply normal_throw|]. case_match; [apply normal_throw|].
  apply normal_bind; [apply vms_loop_normal; intros; by apply dash_second_normal|]. intros [|x l]; [apply normal_throw|apply normal_ret].
Qed.

Lemma vms_rest_normal name it : keeps_normal (vms_rest name it).
Proof.
  unfold vms_rest. apply normal_bind.
  - destruct name as [|c name]; [|apply normal_bind; [by apply normal_fields|intros; apply normal_ret]]. apply normal_bind.
    + destruct it as [|d r]; [apply normal_ret|]. case_match; [|apply normal_ret]. apply normal_bind; [apply vms_brackets_normal|].
      intros it1. apply normal_bind; [by apply normal_fields|intros; apply normal_ret].
    + intros it1. destruct (span _ it1). apply normal_bind; [by apply normal_fields|intros; apply normal_ret].
  - intros [|d r]; [apply normal_ret|]. case_match; [by apply normal_fields|apply normal_ret].
Qed.

Lemma vms_device_normal name it : keeps_normal (vms_device name it).
Proof.
  unfold vms_device. apply normal_get. intros p. destruct it as [|c r]; [apply normal_ret|]. case_match; [|apply normal_ret].
  destruct (span _ _) as [more [|d l]]; [apply normal_ret|]. case_match; [|apply normal_ret].
  do 2 (apply normal_bind; [by apply normal_fields|intros _]). apply normal_ret.
Qed.

Lemma parseVMS_normal path p r q : parseVMS path p = (Done r, q) -> normal false (_dirs q).
Proof.
  unfold parseVMS. rewrite bind_modify. generalize (normal_nil false : normal false (_dirs (clear p))). generalize (clear p). clear p.
  enough (keeps_normal (let (name, it) := span (not_in (str ":[;")) path in
    match path, it with
    | [], _ => ret tt
    | _, [] => modify (set_name name)
    | _, c :: r =>
        let* ni := (if c =? chr ":" then
                      match r with
                      | d :: r' =>
                          if d =? chr ":" then
                            do* modify (set_node name); do* modify (set_absolute true); ret ([], r')
                          else do* modify (set_device name); do* modify (set_absolute true); ret ([], r)
                      | [] => do* modify (set_device name); do* modify (set_absolute true); ret ([], r)
                      end
                    else ret (name, it)) in
        let* ni := vms_device (fst ni) (snd ni) in
        vms_rest (fst ni) (snd ni)
    end)) as H by (intros p Hp E; exact (H p r q Hp E)).
  destruct (span (not_in (str ":[;")) path) as [name [|c it]]; destruct path; try apply normal_ret; [by apply normal_fields|].
  apply normal_bind; [repeat case_match; try (do 2 (apply normal_bind; [by apply normal_fields|intros _])); apply normal_ret|].
  intros ni. apply normal_bind; [apply vms_device_normal|]. intros ni'. apply vms_rest_normal.
Qed.

(** No parent directory in an absolute path. *)
Definition below_root (p : Path) : Prop := _absolute p = true -> DOTDOT ∉ _dirs p.

Lemma normal_below a dirs : normal false dirs -> (a = true -> DOTDOT ∉ dirs) -> normal a dirs.
Proof.
  intros (k & l & -> & Hl & _) Ha. exists k, l. split_and!; [done..|]. intros ->. destruct k as [|k]; [done|].
  exfalso. apply (Ha eq_refl). by left.
Qed.

Lemma normal_weaken a dirs : normal a dirs -> normal false dirs.
Proof. intros (k & l & -> & Hl & _). by exists k, l. Qed.

Lemma normal_plain a dirs : normal a dirs -> DOTDOT ∉ dirs -> Forall plain_dir dirs.
Proof. intros (k & l & -> & Hl & _) Hn. destruct k as [|k]; [done|]. exfalso. apply Hn. by left. Qed.

Lemma append_wf q p : wf_path q -> wf_path p -> DOTDOT ∉ _dirs q -> wf_path (append q p).
Proof.
  intros Hq Hp Hn. apply makeDirectory_wf in Hp. unfold append, wf_path in *. cbn [_dirs _absolute set_dirs set_name set_version] in *.
  pose proof (normal_plain _ _ Hq Hn) as Hd. destruct Hp as (k & l & -> & Hl & Hk). exists k, (l ++ _dirs q). rewrite app_assoc.
  split_and!; [done|by apply Forall_app_2|exact Hk].
Qed.

Lemma parseGuess_wf home path p r q : home_ok home -> parseGuess home path p = (Done r, q) -> below_root q -> wf_path q.
Proof.
  intros Hh. unfold parseGuess. cbv zeta.
  repeat match goal with |- (if ?c then _ else _) _ = _ -> _ => destruct c end; intros E Hb.
  - by eapply parseWindows_wf.
  - by eapply parseUnix_wf.
  - apply parseVMS_normal in E. by apply normal_below.
  - by eapply parseUnix_wf.
Qed.

(** The states a program can reach, by parsing in any syntax and by the editing
    operations.  The VMS syntax can climb above the root ([vms_above_root]),
    [append] does not look at parent directories ([append_parents]), and a node or
    a device makes a path absolute whatever its directories ([device_parents]): for
    these the paths are without parent directories. *)
Section Reachable.
Variable home : list Z.

Inductive reachable : Path -> Prop :=
| reach_new b : reachable (new_path b)
| reach_unix path p q : parseUnix home path p = (Done tt, q) -> reachable q
| reach_windows path p q : parseWindows path p = (Done tt, q) -> reachable q
| reach_vms path p q : parseVMS path p = (Done tt, q) -> below_root q -> reachable q
| reach_guess path p q : parseGuess home path p = (Done tt, q) -> below_root q -> reachable q
| reach_push d p : reachable p -> reachable (pushDirectory d p)
| reach_pop p q : reachable p -> popDirectory p = Done q -> reachable q
| reach_popFront p q : reachable p -> popFrontDirectory p = Done q -> reachable q
| reach_makeDirectory p : reachable p -> reachable (makeDirectory p)
| reach_makeFile p : reachable p -> reachable (makeFile p)
| reach_makeParent p : reachable p -> reachable (makeParent p)
| reach_makeAbsolute base p : reachable base -> reachable p -> reachable (makeAbsolute base p)
| reach_resolve q p : reachable q -> reachable p -> reachable (resolve q p)
| reach_append q p : reachable q -> reachable p -> DOTDOT ∉ _dirs q -> reachable (append q p)
| reach_of_parent_file p name : reachable p -> reachable (of_parent_file p name)
| reach_setNode node p : reachable p -> below_root (setNode node p) -> reachable (setNode node p)
| reach_setDevice device p : reachable p -> below_root (setDevice device p) -> reachable (setDevice device p)
| reach_setFileName name p : reachable p -> reachable (setFileName name p)
| reach_setBaseName name p : reachable p -> reachable (setBaseName name p)
| reach_setExtension ext p : reachable p -> reachable (setExtension ext p).

Lemma reachable_wf p : home_ok home -> reachable p -> wf_path p.
Proof.
  intros Hh H. induction H as [b|path p q E|path p q E|path p q E Hb|path p q E Hb|d p _ IH|p q _ IH E|p q _ IH E|p _ IH|p _ IH
    |p _ IH|base p _ IHb _ IH|q p _ IHq _ IH|q p _ IHq _ IH Hn|p name _ IH|node p _ IH Hb|device p _ IH Hb|name p _ IH|name p _ IH|ext p _ IH].
  - apply normal_nil.
  - by eapply parseUnix_wf.
  - by eapply parseWindows_wf.
  - apply parseVMS_normal in E. by apply normal_below.
  - by eapply parseGuess_wf.
  - by apply push_wf.
  - unfold popDirectory in E. destruct (_dirs p) eqn:Ed; [done|]. rewrite <-Ed in E.
    injection E as <-. by apply pop_back_normal.
  - unfold popFrontDirectory, wf_path in *. destruct (_dirs p) eqn:Ed; [done|].
    injection E as <-. cbn. by apply normal_tail in IH.
  - by apply makeDirectory_wf.
  - unfold makeFile. case_match; [|done]. by apply pop_back_normal.
  - by apply makeParent_wf.
  - by apply makeAbsolute_wf.
  - by apply resolve_wf.
  - by apply append_wf.
  - by apply makeDirectory_wf.
  - apply normal_below; [|exact Hb]. by apply normal_weaken in IH.
  - apply normal_below; [|exact Hb]. by apply normal_weaken in IH.
  - exact IH.
  - exact IH.
  - exact IH.
Qed.
End Reachable.

(** The operations that do not keep the directories normalized. *)
Example append_parents :
  buildUnix (append (pushDirectory DOTDOT (new_path false)) (pushDirectory (str "a") (new_path false))) = str "a/../".
Proof. reflexivity. Qed.

Example device_parents :
  let p := setDevice (str "C") (pushDirectory DOTDOT (new_path false)) in _absolute p = true /\ _dirs p = [DOTDOT].
Proof. split; reflexivity. Qed.

Example vms_above_root :
  let q := snd (parseVMS (str "[a.-.-]") (new_path false)) in _absolute q = true /\ _dirs q = [DOTDOT].
Proof. split; reflexivity. Qed.

(** ** Reading back what is written *)

(** The directories, each followed by the separator. *)
Definition join (sep : Z) (dirs : list (list Z)) : list Z := concat (map (fun d => d ++ [sep]) dirs).

Lemma foldl_join s sep dirs acc :
  s = [sep] -> foldl (fun result d => result ++ d ++ s) acc dirs = acc ++ join sep dirs.
Proof.
  intros ->. revert acc. induction dirs as [|d dirs IH]; intros acc; cbn [foldl].
  - by rewrite app_nil_r.
  - rewrite IH. unfold join. cbn [map concat]. by rewrite <-!app_assoc.
Qed.

Lemma join_length sep dirs : (length dirs <= length (join sep dirs))%nat.
Proof.
  induction dirs as [|d dirs IH]; [done|]. unfold join in *. cbn [map concat length].
  rewrite !length_app. simpl. lia.
Qed.

Lemma set_name_same p : set_name (_name p) p = p.
Proof. by destruct p. Qed.

Lemma set_dirs_same p : set_dirs (_dirs p) p = p.
Proof. by destruct p. Qed.

Lemma names_loop_text seps sep dir dirs name fuel p :
  contains seps sep = true -> Forall (fun d => avoids seps d = true) dirs -> avoids seps name = true ->
  (forall d p, _name (dir d p) = _name p) -> _name p = [] -> (length dirs < fuel)%nat ->
  names_loop seps dir fuel (join sep dirs ++ name) p =
    (Done tt, set_name name (foldl (fun t d => dir d t) p dirs)).
Proof.
  intros Hsep Hd Hn Hdir Hp. revert fuel p Hp.
  induction Hd as [|d dirs Hd Hds IH]; intros [|f] p Hp Hf; try (simpl in *; lia).
  - cbn [join map concat app names_loop foldl]. destruct name as [|c name].
    + rewrite <-Hp, set_name_same. done.
    + by rewrite span_avoids_all.
  - cbn [names_loop]. unfold join. cbn [map concat]. fold (join sep dirs).
    rewrite <-!app_assoc. cbn [app].
    destruct (d ++ sep :: join sep dirs ++ name) as [|c r] eqn:E; [by destruct d|].
    rewrite <-E, span_avoids by done. rewrite bind_modify. cbn [foldl].
    apply IH; [by rewrite Hdir|simpl in Hf; lia].
Qed.

Lemma push_name d p : _name (pushDirectory d p) = _name p.
Proof. by destruct (push_fields d p) as [ds ->]. Qed.

Lemma unix_name_name d p : _name (unix_name d p) = _name p.
Proof. unfold unix_name. repeat case_match; by rewrite ?push_name. Qed.

(** *** Unix *)

Definition ends_with_colon (d : list Z) : bool := nth (length d - 1) d 0 =? chr ":".

(** Paths that have a Unix text: no node and no version; a device only in an
    absolute path; a first directory that is not taken for a device, and a
    relative path that does not start with a tilde. *)
Definition unix_path (p : Path) : Prop :=
  wf_path p /\ _node p = [] /\ _version p = [] /\
  Forall (fun d => avoids (str "/") d = true) (_dirs p) /\
  avoids (str "/") (_name p) = true /\ avoids (str "/") (_device p) = true /\
  (_device p <> [] -> _absolute p = true) /\
  match _dirs p with [] => True | d :: _ => ends_with_colon d = false end /\
  (_absolute p = false -> tilde (join (chr "/") (_dirs p) ++ _name p) = false).

Lemma foldl_unix_name dirs p :
  normal (_absolute p) dirs -> _dirs p = [] ->
  match dirs with [] => True | d :: _ => ends_with_colon d = false end ->
  foldl (fun t d => unix_name d t) p dirs = set_dirs dirs p.
Proof.
  intros Hn Ep Hc. revert Hn Hc. induction dirs as [|d dirs IH] using rev_ind; intros Hn Hc.
  - cbn [foldl]. rewrite <-Ep. symmetry. apply set_dirs_same.
  - pose proof (foldl_push_normal _ p Hn Ep) as Hp. pose proof Hn as Hn'.
    apply normal_snoc_inv in Hn' as [Hn' _].
    rewrite foldl_app in *. rewrite (foldl_push_normal dirs p Hn' Ep) in Hp.
    rewrite IH; [|exact Hn'|destruct dirs; [done|exact Hc]]. rewrite <-Hp. cbn [foldl].
    destruct dirs as [|d' dirs'].
    + unfold unix_name. cbn [_dirs set_dirs]. destruct d as [|c d]; [done|].
      change (match [c :: d] with [] => True | d :: _ => ends_with_colon d = false end)
        with (ends_with_colon (c :: d) = false) in Hc.
      unfold ends_with_colon in Hc. by rewrite Hc.
    + done.
Qed.

Lemma unix_loop_text dirs name p :
  Forall (fun d => avoids (str "/") d = true) dirs -> avoids (str "/") name = true -> _name p = [] ->
  unix_loop (join (chr "/") dirs ++ name) p =
    (Done tt, set_name name (foldl (fun t d => unix_name d t) p dirs)).
Proof.
  intros Hd Hn Hp. unfold unix_loop. apply names_loop_text; auto using unix_name_name.
  rewrite length_app. pose proof (join_length (chr "/") dirs). lia.
Qed.

Lemma unix_text p :
  buildUnix p =
    (if negb (bool_decide (_device p = [])) then chr "/" :: join (chr "/") ((_device p ++ [chr ":"]) :: _dirs p)
     else if _absolute p then chr "/" :: join (chr "/") (_dirs p) else join (chr "/") (_dirs p)) ++ _name p.
Proof.
  unfold buildUnix. rewrite (foldl_join _ (chr "/")) by done. rewrite !app_assoc. f_equal.
  destruct (negb _); [|by destruct (_absolute p)].
  unfold join. cbn [map concat]. rewrite <-!app_assoc. reflexivity.
Qed.

Lemma parse_unix_root cwd dirs name q :
  Forall (fun d => avoids (str "/") d = true) dirs -> avoids (str "/") name = true ->
  parseUnix_with cwd (chr "/" :: join (chr "/") dirs ++ name) q =
    (Done tt, set_name name (foldl (fun t d => unix_name d t) (new_path true) dirs)).
Proof.
  intros Hd Hn. unfold parseUnix_with. rewrite bind_modify.
  change (chr "/" =? chr "/") with true. cbv iota. rewrite bind_modify. by apply unix_loop_text.
Qed.

Lemma parse_unix_relative cwd dirs name q :
  Forall (fun d => avoids (str "/") d = true) dirs -> avoids (str "/") name = true ->
  Forall (fun d => d <> []) dirs ->
  tilde (join (chr "/") dirs ++ name) = false ->
  parseUnix_with cwd (join (chr "/") dirs ++ name) q =
    (Done tt, set_name name (foldl (fun t d => unix_name d t) (new_path false) dirs)).
Proof.
  intros Hd Hn Hne Ht. unfold parseUnix_with. rewrite bind_modify.
  change (clear q) with (new_path false).
  pose proof (unix_loop_text dirs name (new_path false) Hd Hn eq_refl) as Hl.
  destruct (join (chr "/") dirs ++ name) as [|c it] eqn:E; [exact Hl|].
  assert ((c =? chr "/") = false) as ->.
  { assert (not_in (str "/") c = true) as Hc.
    { destruct dirs as [|[|x d] dirs]; cbn [join map concat app] in E.
      - subst name. rewrite avoids_cons in Hn. by apply andb_true_iff in Hn as [? _].
      - by inv_Forall.
      - injection E as -> _. apply Forall_cons_iff in Hd as [Hx _]. rewrite avoids_cons in Hx.
        by apply andb_true_iff in Hx as [? _]. }
    unfold not_in, contains in Hc. cbn [str map existsb String.list_ascii_of_string] in Hc. lia. }
  unfold tilde in Ht. destruct (c =? chr "~"); [|exact Hl]. cbn [andb] in Ht. by rewrite Ht.
Qed.

Lemma normal_nonempty a dirs : normal a dirs -> Forall (fun d => d <> []) dirs.
Proof.
  intros (k & l & -> & Hl & _). apply Forall_app_2.
  - apply List.Forall_forall. intros x Hx. apply repeat_spec in Hx as ->. done.
  - revert Hl. apply Forall_impl. by intros x [? _].
Qed.

Lemma unix_name_device dev :
  unix_name (dev ++ [chr ":"]) (new_path true) = set_device dev (new_path true).
Proof.
  unfold unix_name. cbn [_dirs new_path]. destruct (dev ++ [chr ":"]) as [|x l] eqn:E; [by destruct dev|].
  rewrite <-E, length_app. simpl. replace (length dev + 1 - 1)%nat with (length dev) by lia.
  rewrite nth_middle, take_app_length. done.
Qed.

Lemma parse_build_unix home p q : unix_path p -> parseUnix home (buildUnix p) q = (Done tt, p).
Proof.
  intros (Hw & Hnode & Hver & Hd & Hn & Hdev & Hda & Hc & Ht). unfold parseUnix. rewrite unix_text.
  set (cwd := if tilde home then UB else _).
  destruct (bool_decide_reflect (_device p = [])) as [Ed|Ed]; cbn [negb].
  - destruct (_absolute p) eqn:Ea.
    + change ((chr "/" :: ?l) ++ ?r) with (chr "/" :: l ++ r). rewrite parse_unix_root by done.
      unfold wf_path in Hw. rewrite Ea in Hw. rewrite foldl_unix_name by done.
      f_equal. destruct p; simpl in *. by subst.
    + unfold wf_path in Hw. rewrite Ea in Hw.
      rewrite parse_unix_relative by eauto using normal_nonempty.
      rewrite foldl_unix_name by done. f_equal. destruct p; simpl in *. by subst.
  - change ((chr "/" :: ?l) ++ ?r) with (chr "/" :: l ++ r).
    rewrite parse_unix_root; [| |done].
    + cbn [foldl]. rewrite unix_name_device. unfold wf_path in Hw. rewrite (Hda Ed) in Hw.
      rewrite foldl_unix_name by done. f_equal. specialize (Hda Ed). destruct p; simpl in *. by subst.
    + constructor; [|done]. rewrite avoids_app, Hdev. done.
Qed.

(** *** Windows *)

(** A text whose second character would make it a drive. *)
Definition drive_like (t : list Z) : bool :=
  match t with _ :: c :: _ => c =? chr ":" | _ => false end.

(** Paths that have a Windows text: a share has a node and a directory, a drive
    is one letter, and without either the text is not taken for a drive. *)
Definition windows_path (p : Path) : Prop :=
  wf_path p /\ _version p = [] /\
  Forall (fun d => avoids (str "\/") d = true) (_dirs p) /\
  avoids (str "\/") (_name p) = true /\ avoids (str "\/") (_node p) = true /\
  (if decide (_node p <> []) then
     _device p = [] /\ _absolute p = true /\ (_dirs p <> [] \/ _name p = [])
   else
     match _device p with
     | [] => drive_like (join (chr "\") (_dirs p) ++ _name p) = false
     | [c] => is_letter c = true /\ _absolute p = true
     | _ => False
     end).

Lemma windows_loop_text dirs name p :
  Forall (fun d => avoids (str "\/") d = true) dirs -> avoids (str "\/") name = true -> _name p = [] ->
  normal (_absolute p) dirs -> _dirs p = [] ->
  windows_loop (join (chr "\") dirs ++ name) p = (Done tt, set_name name (set_dirs dirs p)).
Proof.
  intros Hd Hn Hp Hnorm Ed. unfold windows_loop.
  rewrite <-(foldl_push_normal dirs p) by done.
  apply names_loop_text; auto using push_name.
  rewrite length_app. pose proof (join_length (chr "\") dirs). lia.
Qed.

Lemma windows_text p :
  buildWindows p =
    (if negb (bool_decide (_node p = [])) then str "\\" ++ _node p ++ str "\"
     else if negb (bool_decide (_device p = [])) then _device p ++ str ":\"
     else if _absolute p then str "\" else []) ++ join (chr "\") (_dirs p) ++ _name p.
Proof. unfold buildWindows. by rewrite (foldl_join _ (chr "\")) by done. Qed.

(** The first character of the text of the directories and the name. *)
Lemma join_first seps sep dirs name c t :
  Forall (fun d => avoids seps d = true) dirs -> avoids seps name = true ->
  Forall (fun d => d <> []) dirs -> join sep dirs ++ name = c :: t -> not_in seps c = true.
Proof.
  intros Hd Hn Hne E. destruct dirs as [|[|x d] dirs]; cbn [join map concat app] in E.
  - subst name. rewrite avoids_cons in Hn. by apply andb_true_iff in Hn as [? _].
  - by inv_Forall.
  - injection E as -> _. apply Forall_cons_iff in Hd as [Hx _]. rewrite avoids_cons in Hx.
    by apply andb_true_iff in Hx as [? _].
Qed.

Lemma is_slash_not_in c : is_slash c = negb (not_in (str "\/") c).
Proof.
  unfold is_slash, not_in, contains. rewrite negb_involutive.
  cbn [str map existsb String.list_ascii_of_string]. by rewrite orb_false_r.
Qed.

Lemma windows_root_none t q :
  match t with [] => True | c :: _ => is_slash c = false end -> drive_like t = false ->
  windows_root t q = (Done t, q).
Proof.
  intros Hs Hd. unfold windows_root. rewrite bind_get. destruct t as [|c [|d t]]; [done| |].
  - by rewrite Hs, andb_false_r.
  - rewrite Hs, andb_false_r. cbn [drive_like] in Hd. by rewrite Hd.
Qed.

Lemma makeDirectory_if_no_node p :
  (if negb (bool_decide (_node p = [])) && bool_decide (_dirs p = []) && negb (bool_decide (_name p = []))
   then makeDirectory p else p) =
  (if decide (_node p <> [] /\ _dirs p = [] /\ _name p <> []) then makeDirectory p else p).
Proof.
  destruct (bool_decide_reflect (_node p = [])), (bool_decide_reflect (_dirs p = [])),
    (bool_decide_reflect (_name p = [])); cbn [negb andb]; case_decide; tauto || done.
Qed.

Lemma parse_build_windows p q : windows_path p -> parseWindows (buildWindows p) q = (Done tt, p).
Proof.
  intros (Hw & Hver & Hd & Hn & Hnode & Hroot). rewrite windows_text. unfold parseWindows.
  rewrite bind_modify. change (clear q) with (new_path false). unfold wf_path in Hw.
  pose proof (normal_nonempty _ _ Hw) as Hne.
  set (t := join (chr "\") (_dirs p) ++ _name p) in *.
  assert (match t with [] => True | c :: _ => is_slash c = false end) as Hfirst.
  { destruct t as [|c t'] eqn:Et; [done|]. rewrite is_slash_not_in.
    by rewrite (join_first _ _ _ _ _ _ Hd Hn Hne Et). }
  destruct (bool_decide_reflect (_node p = [])) as [En|En]; cbn [negb].
  - rewrite decide_False in Hroot by tauto. destruct (_device p) as [|dev [|]] eqn:Edev; [| |done].
    + rewrite bool_decide_eq_true_2 by done. cbn [negb].
      destruct (_absolute p) eqn:Ea.
      * cbn [app str map String.list_ascii_of_string]. change (is_slash (chr "\")) with true. cbv iota.
        rewrite !bind_bind, bind_modify, bind_ret.
        rewrite bind_bind, (bind_Done _ _ _ _ _ (windows_root_none t _ Hfirst Hroot)).
        rewrite (bind_Done _ _ _ _ _ (windows_loop_text (_dirs p) (_name p)
          (set_absolute true (new_path false)) Hd Hn eq_refl Hw eq_refl)).
        unfold modify. f_equal. destruct p; simpl in *. by subst.
      * cbn [app]. assert (windows_loop t (new_path false) =
          (Done tt, set_name (_name p) (set_dirs (_dirs p) (new_path false)))) as Hl
          by (apply windows_loop_text; done).
        destruct t as [|c t'] eqn:Et.
        { apply app_eq_nil in Et as [Ej Enm]. rewrite bind_ret.
          assert (_dirs p = []) as Ed by (destruct (_dirs p) as [|[]]; done).
          transitivity (Done tt, new_path false); [reflexivity|].
          f_equal. clear Hl. destruct p; simpl in *. by subst. }
        rewrite Hfirst. rewrite bind_bind, bind_ret, bind_bind.
        rewrite (bind_Done _ _ _ _ _ (windows_root_none (c :: t') _ Hfirst Hroot)).
        rewrite (bind_Done _ _ _ _ _ Hl). unfold modify. f_equal. destruct p; simpl in *. by subst.
    + rewrite bool_decide_eq_false_2 by done. cbn [negb]. destruct Hroot as [Hlet Ha].
      cbn [app str map String.list_ascii_of_string].
      assert (is_slash dev = false) as Hsl.
      { unfold is_slash, is_letter in *. change (chr "a") with 97 in Hlet. change (chr "z") with 122 in Hlet.
        change (chr "A") with 65 in Hlet. change (chr "Z") with 90 in Hlet.
        change (chr "\") with 92. change (chr "/") with 47. lia. }
      rewrite Hsl, !bind_bind, bind_ret.
      assert (windows_root (dev :: chr ":" :: chr "\" :: t) (new_path false) =
        (Done t, set_device [dev] (set_absolute true (new_path false)))) as Hr.
      { unfold windows_root. rewrite bind_get. rewrite Hsl, andb_false_r.
        change (chr ":" =? chr ":") with true. cbv iota. by rewrite Hlet. }
      rewrite bind_bind, (bind_Done _ _ _ _ _ Hr). rewrite Ha in Hw.
      rewrite (bind_Done _ _ _ _ _ (windows_loop_text (_dirs p) (_name p)
        (set_device [dev] (set_absolute true (new_path false))) Hd Hn eq_refl Hw eq_refl)).
      unfold modify. f_equal. destruct p; simpl in *. by subst.
  - rewrite decide_True in Hroot by done. destruct Hroot as (Hdev & Ha & Hs).
    cbn [app str map String.list_ascii_of_string]. change (is_slash (chr "\")) with true. cbv iota.
    rewrite !bind_bind, bind_modify, bind_ret.
    assert (windows_root (chr "\" :: _node p ++ chr "\" :: t) (set_absolute true (new_path false)) =
      (Done t, set_node (_node p) (set_absolute true (new_path false)))) as Hr.
    { unfold windows_root. rewrite bind_get. cbn [_absolute set_absolute andb].
      change (is_slash (chr "\")) with true. cbv iota. rewrite span_avoids by done. reflexivity. }
    rewrite <-app_assoc. cbn [app].
    rewrite bind_bind, (bind_Done _ _ _ _ _ Hr). rewrite Ha in Hw.
    rewrite (bind_Done _ _ _ _ _ (windows_loop_text (_dirs p) (_name p)
      (set_node (_node p) (set_absolute true (new_path false))) Hd Hn eq_refl Hw eq_refl)).
    unfold modify. f_equal. rewrite makeDirectory_if_no_node. rewrite decide_False.
    + destruct p; simpl in *. by subst.
    + cbn. intros (_ & H1 & H2). destruct Hs; done.
Qed.

(** *** VMS *)

(** A directory name the bracket syntax can hold. *)
Definition vms_dir (d : list Z) : Prop :=
  avoids (str ".]") d = true /\ avoids (str "-") (take 1 d) = true.

(** Paths that have a VMS text. *)
Definition vms_path (p : Path) : Prop :=
  wf_path p /\ Forall (fun d => d = DOTDOT \/ vms_dir d) (_dirs p) /\
  avoids (str ":[;") (_node p) = true /\ avoids (str ":[;") (_device p) = true /\
  avoids (str ":[;") (_name p) = true /\
  (_dirs p = [] -> _absolute p = negb (bool_decide (_node p = []) && bool_decide (_device p = []))).

Lemma vms_dir_cons d :
  plain_dir d -> vms_dir d ->
  exists c r, d = c :: r /\ (c =? chr "]") = false /\ (c =? chr "-") = false /\ (c =? chr ".") = false.
Proof.
  intros (Hne & _ & _) [H1 H2]. destruct d as [|c r]; [done|]. exists c, r. split; [done|].
  change (take 1 (c :: r)) with [c] in H2. rewrite avoids_cons in H1, H2.
  apply andb_true_iff in H1 as [H1 _], H2 as [H2 _]. unfold not_in, contains in *.
  cbn [str map existsb String.list_ascii_of_string] in *. lia.
Qed.

Lemma vms_dirs_false d l : d <> DOTDOT -> vms_dirs false (d :: l) = chr "." :: vms_dirs true (d :: l).
Proof.
  intros Hd. cbn [vms_dirs]. unfold eqb_str. by rewrite bool_decide_eq_false_2 by done.
Qed.

Lemma vms_loop_close fuel dash rest p :
  vms_loop (S fuel) dash (chr "]" :: rest) p = (Done (chr "]" :: rest), p).
Proof. done. Qed.

Lemma vms_loop_name fuel dash d x r p :
  plain_dir d -> vms_dir d -> contains (str ".]") x = true ->
  vms_loop (S fuel) dash (d ++ x :: r) p =
    vms_loop fuel dash (if x =? chr "]" then x :: r else r) (set_dirs (_dirs p ++ [d]) p).
Proof.
  intros Hp Hd Hx. destruct (vms_dir_cons d Hp Hd) as (c & d' & E & E1 & E2 & E3).
  assert (span (not_in (str ".]")) (d ++ x :: r) = (d, x :: r)) as Hs
    by (apply span_avoids; [apply Hd|done]).
  assert (eqb_str d DASH = false) as Hdash.
  { unfold eqb_str. apply bool_decide_eq_false. intros ->. by injection E as <- _. }
  cbn [vms_loop]. rewrite E in *. cbn [app] in *. rewrite E1, E2, Hs, bind_modify, Hdash.
  by destruct (x =? chr "]").
Qed.

Lemma vms_loop_plain fuel dash l rest p :
  Forall plain_dir l -> Forall vms_dir l ->
  (length (vms_dirs true l ++ chr "]" :: rest) < fuel)%nat ->
  vms_loop fuel dash (vms_dirs true l ++ chr "]" :: rest) p =
    (Done (chr "]" :: rest), set_dirs (_dirs p ++ l) p).
Proof.
  intros Hp Hd. revert fuel p. induction Hp as [|d l Hpd Hpl IH]; intros [|f] p Hf; try lia.
  - cbn [vms_dirs app]. rewrite app_nil_r, set_dirs_same. done.
  - apply Forall_cons_iff in Hd as [Hd Hdl].
    assert (eqb_str d DOTDOT = false) as Hdd by (apply bool_decide_eq_false; apply Hpd).
    assert (d <> []) as Hne by apply Hpd. assert (0 < length d)%nat by (destruct d; simpl; lia || done).
    assert (vms_dirs true (d :: l) = d ++ vms_dirs false l) as Et.
    { cbn [vms_dirs]. by rewrite Hdd. }
    rewrite Et in *. rewrite <-app_assoc in *. rewrite length_app in Hf.
    destruct l as [|d2 l].
    + cbn [vms_dirs app] in *. rewrite vms_loop_name by done.
      change (chr "]" =? chr "]") with true. cbv iota.
      destruct f as [|f]; [simpl in Hf; lia|]. apply vms_loop_close.
    + inversion Hpl as [|? ? Hp2 _]; subst. rewrite vms_dirs_false in * by apply Hp2. cbn [app] in *.
      rewrite vms_loop_name by done. change (chr "." =? chr "]") with false. cbv iota.
      rewrite IH; [|done|cbn [length] in Hf; lia]. cbn [_dirs set_dirs]. by rewrite <-app_assoc.
Qed.

Lemma vms_loop_dot fuel dash r p :
  vms_loop (S fuel) dash (chr "." :: r) p = vms_loop fuel dash r p.
Proof. done. Qed.

Lemma dash_first_parents n p :
  _dirs p = repeat DOTDOT n -> dash_first p = set_dirs (repeat DOTDOT (S n)) p.
Proof.
  intros E. unfold dash_first. rewrite E. cbn [repeat]. rewrite (repeat_cons n).
  destruct n as [|n]; [done|].
  replace (eqb_str (back _) DOTDOT) with true by (cbn [repeat]; rewrite repeat_cons, back_snoc; done).
  by rewrite orb_true_r.
Qed.

Lemma vms_loop_dirs k l first fuel rest n p :
  Forall plain_dir l -> Forall vms_dir l -> _dirs p = repeat DOTDOT n ->
  (length (vms_dirs first (repeat DOTDOT k ++ l) ++ chr "]" :: rest) < fuel)%nat ->
  vms_loop fuel dash_first (vms_dirs first (repeat DOTDOT k ++ l) ++ chr "]" :: rest) p =
    (Done (chr "]" :: rest), set_dirs (repeat DOTDOT n ++ repeat DOTDOT k ++ l) p).
Proof.
  intros Hp Hd. revert first fuel n p. induction k as [|k IH]; intros first fuel n p Ep Hf.
  - cbn [repeat app] in *. rewrite <-Ep. destruct first; [by apply vms_loop_plain|].
    destruct Hp as [|d l Hpd Hpl]; [by apply (vms_loop_plain fuel dash_first [])|].
    rewrite vms_dirs_false in * by apply Hpd. destruct fuel as [|f]; [lia|]. cbn [app] in *.
    rewrite vms_loop_dot. apply vms_loop_plain; [by constructor|done|cbn [length] in Hf; lia].
  - destruct fuel as [|f]; [lia|].
    assert (vms_dirs first (repeat DOTDOT (S k) ++ l) = chr "-" :: vms_dirs false (repeat DOTDOT k ++ l)) as Et.
    { cbn [repeat app vms_dirs]. change (eqb_str DOTDOT DOTDOT) with true. by rewrite andb_false_r. }
    rewrite Et in *. cbn [app vms_loop]. change (chr "-" =? chr "]") with false.
    change (chr "-" =? chr "-") with true. cbn [negb]. cbv iota. rewrite bind_modify.
    change (match DASH with [] => p | _ => if eqb_str DASH DASH then dash_first p else set_dirs (_dirs p ++ [DASH]) p end)
      with (dash_first p). rewrite (dash_first_parents n) by done.
    rewrite (IH false f (S n)); [|reflexivity|cbn [app length] in Hf; lia].
    f_equal.
    cbn [repeat]. by rewrite (repeat_cons n), <-!app_assoc.
Qed.

(** The text of the directories between the brackets, with the closing one. *)
Definition bracket_text (p : Path) : list Z :=
  match _dirs p with
  | [] => []
  | d :: _ => (if negb (_absolute p) && negb (eqb_str d DOTDOT) then str "." else []) ++
              vms_dirs true (_dirs p) ++ str "]"
  end.

(** What can follow the closing bracket. *)
Definition no_bracket (rest : list Z) : Prop :=
  match rest with [] => True | c :: _ => (c =? chr "[") = false end.

Lemma vms_second_none rest p : no_bracket rest -> vms_second rest p = (Done rest, p).
Proof. destruct rest as [|c r]; [done|]. unfold vms_second. by intros ->. Qed.

Lemma vms_brackets_text p rest q :
  wf_path p -> Forall (fun d => d = DOTDOT \/ vms_dir d) (_dirs p) -> _dirs p <> [] ->
  no_bracket rest -> _dirs q = [] ->
  vms_brackets (bracket_text p ++ rest) q =
    (Done rest, set_dirs (_dirs p) (set_absolute (_absolute p) q)).
Proof.
  intros (k & l & E & Hl & Hk) Hd Hne Hrest Eq.
  assert (Forall vms_dir l) as Hvl.
  { rewrite E in Hd. apply Forall_app in Hd as [_ Hd]. clear -Hd Hl.
    induction Hl as [|d l Hp Hl IH]; [constructor|]. apply Forall_cons_iff in Hd as [[->|H] Hd].
    - by destruct Hp as (_ & _ & ?). 
    - constructor; auto. }
  assert (forall q', _dirs q' = [] -> forall c t, vms_dirs true (_dirs p) ++ chr "]" :: rest = c :: t ->
    (let* it2 := vms_loop (S (length (c :: t))) dash_first (c :: t) in
     match it2 with [] => throw PathSyntaxException | _ :: it3 => vms_second it3 end) q' =
    (Done rest, set_dirs (_dirs p) q')) as Hloop.
  { intros q' Eq' c t Et. rewrite <-Et, E.
    rewrite (bind_Done _ _ _ _ _ (vms_loop_dirs k l true _ rest 0 q' Hl Hvl Eq' (Nat.lt_succ_diag_r _))).
    by apply vms_second_none. }
  unfold bracket_text. rewrite E in Hne. destruct (_dirs p) as [|d ds] eqn:Eds; [by rewrite <-E in Hne|].
  rewrite <-!app_assoc. change (str "]" ++ rest) with (chr "]" :: rest).
  destruct (vms_dirs true (d :: ds) ++ chr "]" :: rest) as [|c t] eqn:Et; [by destruct (vms_dirs true (d :: ds))|].
  assert (d <> DOTDOT -> (c =? chr "]") = false /\ (c =? chr "-") = false /\ (c =? chr ".") = false /\ k = 0%nat) as Hplain.
  { intros Hd0. destruct k as [|k]; [|by injection E as ->]. cbn [repeat app] in E. subst l.
    apply Forall_cons_iff in Hl as [Hpd _], Hvl as [Hvd _].
    destruct (vms_dir_cons d Hpd Hvd) as (c' & r' & -> & H1 & H2 & H3).
    cbn [vms_dirs] in Et. unfold eqb_str in Et. rewrite bool_decide_eq_false_2 in Et by done.
    by injection Et as -> _. }
  destruct (decide (d = DOTDOT)) as [->|Hd0].
  - change (eqb_str DOTDOT DOTDOT) with true. rewrite andb_false_r. cbn [app].
    assert (_absolute p = false) as Ha.
    { destruct (_absolute p); [|done]. rewrite (Hk eq_refl) in E. cbn [repeat app] in E. subst l.
      by apply Forall_cons_iff in Hl as [(_ & _ & ?) _]. }
    assert (c = chr "-") as -> by (by injection Et as <- _).
    unfold vms_brackets. rewrite bind_modify. change (chr "-" =? chr ".") with false.
    change ((chr "-" =? chr "]") || (chr "-" =? chr "-")) with true. cbv iota.
    rewrite bind_bind, bind_modify, bind_ret. rewrite Ha. by apply Hloop.
  - destruct (Hplain Hd0) as (H1 & H2 & H3 & _). unfold eqb_str. rewrite bool_decide_eq_false_2 by done.
    destruct (_absolute p) eqn:Ha; cbn [negb andb app].
    + unfold vms_brackets. rewrite bind_modify, H1, H2, H3. cbn [orb]. rewrite bind_ret. by apply Hloop.
    + change (str "." ++ c :: t) with (chr "." :: c :: t). unfold vms_brackets. rewrite bind_modify.
      change (chr "." =? chr ".") with true. cbv iota. rewrite bind_bind, bind_modify, bind_ret.
      by apply Hloop.
Qed.

(** The name and the version. *)
Definition version_text (p : Path) : list Z :=
  match _version p with [] => [] | v => chr ";" :: v end.

Definition dirs_text (p : Path) : list Z :=
  match _dirs p with [] => [] | _ => chr "[" :: bracket_text p end.

Lemma vms_text p :
  buildVMS p =
    (match _node p with [] => [] | n => n ++ str "::" end) ++
    (match _device p with [] => [] | d => d ++ str ":" end) ++
    dirs_text p ++ _name p ++ version_text p.
Proof. unfold buildVMS, dirs_text, bracket_text, version_text. by destruct (_dirs p), (_version p). Qed.

Lemma no_bracket_tail p :
  avoids (str ":[;") (_name p) = true -> no_bracket (_name p ++ version_text p).
Proof.
  intros Hn. unfold no_bracket, version_text. destruct (_name p) as [|c nm]; [by destruct (_version p)|].
  rewrite avoids_cons in Hn. apply andb_true_iff in Hn as [Hc _]. unfold not_in, contains in Hc.
  cbn [app str map existsb String.list_ascii_of_string] in *. lia.
Qed.

Lemma span_name p :
  avoids (str ":[;") (_name p) = true ->
  span (not_in (str ";")) (_name p ++ version_text p) = (_name p, version_text p) /\
  span (not_in (str ":;")) (_name p ++ version_text p) = (_name p, version_text p) /\
  span (not_in (str ":[;")) (_name p ++ version_text p) = (_name p, version_text p).
Proof.
  intros Hn.
  assert (avoids (str ";") (_name p) = true /\ avoids (str ":;") (_name p) = true) as [H1 H2].
  { split; (eapply avoids_weaken; [|exact Hn]); intros c; unfold contains;
      cbn [str map existsb String.list_ascii_of_string]; lia. }
  unfold version_text. destruct (_version p).
  - rewrite app_nil_r. by rewrite !span_avoids_all.
  - by rewrite !span_avoids.
Qed.

(** The node and the device are read: what is left gives the rest of the path. *)
Lemma vms_rest_dirs p q :
  vms_path p -> _name q = [] -> _version q = [] -> _dirs q = [] -> _node q = _node p ->
  _device q = _device p ->
  _absolute q = negb (bool_decide (_node p = []) && bool_decide (_device p = [])) ->
  vms_rest [] (dirs_text p ++ _name p ++ version_text p) q = (Done tt, p).
Proof.
  intros (Hw & Hd & _ & _ & Hn & Habs) E1 E2 E3 E4 E5 E6.
  destruct (span_name p Hn) as (Hs & _ & _).
  assert (forall q', _name q' = [] -> _version q' = [] -> _dirs q' = _dirs p -> _node q' = _node p ->
    _device q' = _device p -> _absolute q' = _absolute p ->
    (let* it' := (let* it := ret (_name p ++ version_text p) in
                  let (nm, it') := span (not_in (str ";")) it in
                  do* modify (fun p => set_name (_name p ++ nm) p); ret it') in
     match it' with
     | d :: r => if d =? chr ";" then modify (fun p => set_version (_version p ++ r) p) else ret tt
     | [] => ret tt
     end) q' = (Done tt, p)) as Hend.
  { intros q' F1 F2 F3 F4 F5 F6. rewrite bind_bind, bind_ret, Hs, bind_bind, bind_modify, bind_ret.
    unfold version_text. destruct (_version p) eqn:Ev; [|change (chr ";" =? chr ";") with true];
      unfold ret, modify; f_equal; destruct p, q'; simpl in *; by subst. }
  unfold vms_rest, dirs_text. destruct (_dirs p) as [|d ds] eqn:Ed.
  - cbn [app]. pose proof (no_bracket_tail p Hn) as Hnb. specialize (Hend q).
    rewrite <-Hend by (done || congruence || (rewrite E6; symmetry; by apply Habs)).
    destruct (_name p ++ version_text p) as [|c r] eqn:Et; [done|]. cbn in Hnb. by rewrite Hnb.
  - rewrite <-Ed in *. cbn [app]. change (chr "[" =? chr "[") with true. cbv iota.
    assert (_dirs p <> []) as Hne by (by rewrite Ed).
    pose proof (vms_brackets_text p _ q Hw Hd Hne (no_bracket_tail p Hn) E3) as Hb.
    rewrite !bind_bind, (bind_Done _ _ _ _ _ Hb), bind_bind, bind_modify.
    specialize (Hend (set_name [] (set_dirs (_dirs p) (set_absolute (_absolute p) q)))).
    rewrite <-Hend by done. by rewrite !bind_bind.
Qed.

Lemma vms_rest_name p q :
  vms_path p -> _dirs p = [] -> _name p <> [] -> _version q = [] -> _dirs q = [] ->
  _node q = _node p -> _device q = _device p ->
  _absolute q = negb (bool_decide (_node p = []) && bool_decide (_device p = [])) ->
  vms_rest (_name p) (version_text p) q = (Done tt, p).
Proof.
  intros (Hw & Hd & _ & _ & Hn & Habs) Ed Hne E2 E3 E4 E5 E6. specialize (Habs Ed).
  unfold vms_rest. destruct (_name p) as [|c nm] eqn:En; [done|]. rewrite bind_bind, bind_modify, bind_ret.
  unfold version_text. destruct (_version p) eqn:Ev; [|change (chr ";" =? chr ";") with true];
    unfold ret, modify; f_equal; destruct p, q; simpl in *; by subst.
Qed.

(** The device after a node, or the name when there is none. *)
Lemma vms_device_text p q :
  vms_path p -> _device q = [] -> _device p <> [] ->
  vms_device [] (_device p ++ str ":" ++ dirs_text p ++ _name p ++ version_text p) q =
    (Done ([], dirs_text p ++ _name p ++ version_text p), set_absolute true (set_device (_device p) q)).
Proof.
  intros (_ & _ & _ & Hdev & _ & _) Eq Hne. unfold vms_device. rewrite bind_get.
  destruct (_device p) as [|c dev] eqn:Ed; [done|]. cbn [app].
  pose proof Hdev as Hc. rewrite avoids_cons in Hc. apply andb_true_iff in Hc as [Hc _].
  assert ((c =? chr "[") = false) as ->.
  { unfold not_in, contains in Hc. cbn [str map existsb String.list_ascii_of_string] in Hc. lia. }
  rewrite bool_decide_eq_true_2 by done. cbn [negb andb].
  change (c :: dev ++ str ":" ++ ?r) with ((c :: dev) ++ chr ":" :: r). rewrite span_avoids; [reflexivity| |done].
  eapply avoids_weaken; [|exact Hdev]. intros x. unfold contains.
  cbn [str map existsb String.list_ascii_of_string]. lia.
Qed.

Lemma vms_device_keep it q :
  _device q <> [] \/ match it with [] => True | c :: _ => (c =? chr "[") = true end ->
  vms_device [] it q = (Done ([], it), q).
Proof.
  intros H. unfold vms_device. rewrite bind_get. destruct it as [|c it]; [done|].
  destruct H as [H|H]; [by rewrite bool_decide_eq_false_2|]. by rewrite H, andb_false_r.
Qed.

(** The rest of a path without a device that was not read yet. *)
Lemma vms_after_node p q :
  vms_path p -> _device p = [] -> _device q = [] -> _name q = [] -> _version q = [] -> _dirs q = [] ->
  _node q = _node p -> _absolute q = negb (bool_decide (_node p = [])) ->
  (let* ni := vms_device [] (dirs_text p ++ _name p ++ version_text p) in
   vms_rest (fst ni) (snd ni)) q = (Done tt, p).
Proof.
  intros Hp Ed Eq E1 E2 E3 E4 E6. pose proof Hp as (_ & _ & _ & _ & Hn & _).
  assert (_absolute q = negb (bool_decide (_node p = []) && bool_decide (_device p = []))) as E6'
    by (by rewrite (bool_decide_eq_true_2 _ Ed), andb_true_r).
  pose proof (vms_rest_dirs p q Hp E1 E2 E3 E4 ltac:(congruence) E6') as Hrest.
  destruct (_dirs p) as [|d ds] eqn:Eds.
  - unfold dirs_text in *. rewrite Eds in *. cbn [app] in *.
    destruct (_name p) as [|c nm] eqn:En.
    + cbn [app] in *. unfold vms_device. rewrite bind_bind, bind_get. unfold version_text in *.
      destruct (_version p) as [|v vs]; [exact Hrest|].
      rewrite Eq. change (bool_decide ([] = []) && negb (chr ";" =? chr "[")) with true. cbv iota.
      exact Hrest.
    + destruct (span_name p ltac:(by rewrite En)) as (_ & Hs & _). rewrite En in Hs.
      pose proof (vms_rest_name p q Hp Eds ltac:(by rewrite En) E2 E3 E4 ltac:(congruence) E6') as Hname.
      rewrite En in Hname. unfold vms_device. rewrite bind_bind, bind_get.
      pose proof (no_bracket_tail p ltac:(by rewrite En)) as Hnb. rewrite En in Hnb.
      rewrite Hs. cbn in Hnb. cbn [app]. rewrite Hnb, (bool_decide_eq_true_2 _ Eq). cbn [negb andb].
      unfold version_text in *. destruct (_version p) as [|v vs]; [exact Hname|].
      change (chr ";" =? chr ":") with false. cbv iota. rewrite bind_ret. exact Hname.
  - assert (dirs_text p = chr "[" :: bracket_text p) as Et by (unfold dirs_text; by rewrite Eds).
    rewrite Et in *. cbn [app] in *. erewrite bind_Done by (apply vms_device_keep; by right).
    exact Hrest.
Qed.

Lemma parse_build_vms p q : vms_path p -> parseVMS (buildVMS p) q = (Done tt, p).
Proof.
  intros Hp. pose proof Hp as (_ & _ & Hnode & Hdev & Hn & Habs). rewrite vms_text. unfold parseVMS.
  rewrite bind_modify. change (clear q) with (new_path false).
  set (rest := dirs_text p ++ _name p ++ version_text p).
  destruct (_node p) as [|n node] eqn:Enode.
  - cbn [app]. destruct (_device p) as [|d dev] eqn:Edev.
    + (* no node, no device *)
      cbn [app].
      pose proof (vms_after_node p (new_path false) Hp Edev eq_refl eq_refl eq_refl eq_refl
        (eq_sym Enode) ltac:(by rewrite Enode)) as Hafter.
      destruct (_dirs p) as [|x ds] eqn:Eds.
      * unfold rest, dirs_text in *. rewrite Eds in *. cbn [app] in *.
        destruct (span_name p Hn) as (_ & _ & Hs). rewrite Hs.
        unfold version_text in *. destruct (_version p) as [|v vs] eqn:Ev.
        -- rewrite app_nil_r in *. specialize (Habs eq_refl).
           destruct (_name p) as [|c nm] eqn:En; unfold ret, modify; f_equal; destruct p; simpl in *;
             by subst.
        -- destruct (_name p ++ chr ";" :: v :: vs) eqn:Et; [by destruct (_name p)|].
           change (chr ";" =? chr ":") with false. cbv iota. rewrite bind_ret. cbn [fst snd].
           unfold vms_device. rewrite bind_bind, bind_get. cbn [_device new_path].
           change (bool_decide ([] = []) && negb (chr ";" =? chr "[")) with true. cbv iota.
           change (span (not_in (str ":;")) (chr ";" :: v :: vs)) with (@nil Z, chr ";" :: v :: vs).
           cbv iota. change (chr ";" =? chr ":") with false. cbv iota. rewrite bind_ret, app_nil_r.
           cbn [fst snd]. destruct (_name p) as [|c nm] eqn:En.
           { pose proof (vms_rest_dirs p (new_path false) Hp eq_refl eq_refl eq_refl) as Hr.
             unfold dirs_text, version_text in Hr. rewrite Eds, En, Ev, Enode, Edev in Hr.
             by apply Hr. }
           { pose proof (vms_rest_name p (new_path false) Hp Eds) as Hr.
             unfold version_text in Hr. rewrite En, Ev, Enode, Edev in Hr. by apply Hr. }
      * assert (dirs_text p = chr "[" :: bracket_text p) as Et by (unfold dirs_text; by rewrite Eds).
        unfold rest. rewrite Et in *. cbn [app] in *.
        change (span (not_in (str ":[;")) (chr "[" :: ?r)) with (@nil Z, chr "[" :: r). cbv iota.
        change (chr "[" =? chr ":") with false. cbv iota. rewrite bind_ret. exact Hafter.
    + (* a device *)
      rewrite app_comm_cons, <-Edev, <-app_assoc in *. change (str ":" ++ rest) with (chr ":" :: rest).
      rewrite span_avoids by done.
      destruct (_device p ++ chr ":" :: rest) as [|y ys] eqn:Ey; [by destruct (_device p)|]. clear Ey y ys.
      change (chr ":" =? chr ":") with true. cbv iota.
      set (q1 := set_absolute true (set_device (_device p) (new_path false))).
      assert (vms_rest [] rest q1 = (Done tt, p)) as Hr.
      { apply vms_rest_dirs; try done. unfold q1. cbn. rewrite Enode, Edev. done. }
      assert (_device q1 <> []) as Hq1 by (unfold q1; cbn; by rewrite Edev).
      assert (match rest with [] => True | c :: _ => (c =? chr ":") = false end) as Hc.
      { unfold rest, dirs_text. destruct (_dirs p); [|done]. cbn [app]. unfold version_text.
        destruct (_name p) as [|c nm]; [by destruct (_version p)|]. rewrite avoids_cons in Hn.
        apply andb_true_iff in Hn as [Hn _]. unfold not_in, contains in Hn.
        cbn [app str map existsb String.list_ascii_of_string] in *. lia. }
      destruct rest as [|c r].
      * rewrite bind_bind, bind_modify, bind_bind, bind_modify, bind_ret. cbn [fst snd]. fold q1.
        rewrite (bind_Done _ _ _ _ _ (vms_device_keep _ q1 (or_introl Hq1))). exact Hr.
      * rewrite Hc, bind_bind, bind_modify, bind_bind, bind_modify, bind_ret. cbn [fst snd]. fold q1.
        rewrite (bind_Done _ _ _ _ _ (vms_device_keep _ q1 (or_introl Hq1))). exact Hr.
  - (* a node *)
    rewrite <-Enode in *. rewrite <-app_assoc. change (str "::" ++ ?r) with (chr ":" :: chr ":" :: r).
    rewrite span_avoids by done.
    destruct (_node p ++ chr ":" :: _) as [|y ys] eqn:Ey; [by destruct (_node p)|]. clear Ey y ys.
    change (chr ":" =? chr ":") with true. cbv iota.
    rewrite bind_bind, bind_modify, bind_bind, bind_modify, bind_ret. cbn [fst snd].
    set (q1 := set_absolute true (set_node (_node p) (new_path false))).
    destruct (_device p) as [|d dev] eqn:Edev.
    + cbn [app]. apply vms_after_node; try done. unfold q1. cbn. by rewrite Enode.
    + rewrite <-Edev. rewrite <-app_assoc. unfold rest.
      rewrite (bind_Done _ _ _ _ _ (vms_device_text p q1 Hp eq_refl ltac:(by rewrite Edev))).
      apply vms_rest_dirs; try done. cbn. by rewrite Enode.
Qed.

(** ** Every text is parsed or rejected *)

(** A computation that ends with a value or a syntax error. *)
Definition parses {A} (m : ST Path A) : Prop :=
  forall p, match fst (m p) with Done _ => True | Raise e => e = PathSyntaxException | _ => False end.

Lemma parses_bind {A B} (m : ST Path A) (k : A -> ST Path B) :
  parses m -> (forall a, parses (k a)) -> parses (bind m k).
Proof.
  intros Hm Hk p. unfold bind. specialize (Hm p). destruct (m p) as [[a| | |] p']; try done. apply Hk.
Qed.

Lemma parses_ret {A} (a : A) : parses (ret a). Proof. done. Qed.
Lemma parses_modify f : parses (modify f). Proof. done. Qed.
Lemma parses_throw {A} : parses (throw PathSyntaxException : ST Path A). Proof. done. Qed.
Lemma parses_get : parses get. Proof. done. Qed.
#[local] Hint Resolve parses_ret parses_modify parses_throw parses_get : poco.

Ltac parses_tac :=
  repeat first
    [ apply parses_bind; [|intros ?]
    | solve [auto with poco]
    | match goal with |- parses (match ?x with _ => _ end) => destruct x end ].

Lemma span_length p s : (length (snd (span p s)) <= length s)%nat.
Proof.
  induction s as [|c s IH]; simpl; [done|]. destruct (p c); [|done]. destruct (span p s). simpl in *. lia.
Qed.

Lemma names_loop_parses seps dir fuel it : (length it < fuel)%nat -> parses (names_loop seps dir fuel it).
Proof.
  revert it. induction fuel as [|f IH]; intros it Hf; [lia|]. cbn [names_loop].
  destruct it as [|c it]; [parses_tac|].
  pose proof (span_length (not_in seps) (c :: it)) as Hl.
  destruct (span (not_in seps) (c :: it)) as [name [|d rest]]; [parses_tac|].
  apply parses_bind; [parses_tac|]. intros _. apply IH. simpl in *. lia.
Qed.

Lemma vms_loop_parses fuel dash it : (length it < fuel)%nat -> parses (vms_loop fuel dash it).
Proof.
  revert it. induction fuel as [|f IH]; intros it Hf; [lia|]. cbn [vms_loop].
  destruct it as [|c r]; [parses_tac|]. destruct (c =? chr "]") eqn:Ec; [parses_tac|].
  destruct (c =? chr "-") eqn:Ed.
  - apply parses_bind; [parses_tac|]. intros _. rewrite Ec. cbn [negb]. apply IH. simpl in Hf. lia.
  - cbn [span]. destruct (not_in (str ".]") c) eqn:Es.
    + pose proof (span_length (not_in (str ".]")) r) as Hl.
      destruct (span (not_in (str ".]")) r) as [a b]. apply parses_bind; [parses_tac|]. intros _.
      apply IH. simpl in *. destruct b as [|x b]; [simpl; lia|]. destruct (negb _); simpl in *; lia.
    + apply parses_bind; [parses_tac|]. intros _. rewrite Ec. cbn [negb]. apply IH. simpl in Hf. lia.
Qed.

Lemma unix_loop_parses it : parses (unix_loop it).
Proof. apply names_loop_parses. lia. Qed.
Lemma windows_loop_parses it : parses (windows_loop it).
Proof. apply names_loop_parses. lia. Qed.
#[local] Hint Resolve unix_loop_parses windows_loop_parses : poco.

Lemma parseUnix_with_parses cwd path :
  tilde path = false \/ (exists h, cwd = Done h) -> parses (parseUnix_with cwd path).
Proof.
  intros H. unfold parseUnix_with. apply parses_bind; [parses_tac|]. intros _.
  destruct path as [|c it]; [parses_tac|]. destruct (c =? chr "/"); [parses_tac|].
  unfold tilde in H. destruct (c =? chr "~"); [|parses_tac]. cbn [andb] in H.
  destruct (match it with [] => true | d :: _ => d =? chr "/" end); [|parses_tac].
  destruct H as [|[h ->]]; [done|]. parses_tac.
Qed.

Lemma parseUnix_with_done cwd path p :
  tilde path = false -> exists q, parseUnix_with cwd path p = (Done tt, q).
Proof.
  intros Ht. assert (forall it p0, exists q, unix_loop it p0 = (Done tt, q)) as Hloop.
  { intros it. unfold unix_loop. generalize (Nat.lt_succ_diag_r (length it)).
    generalize (S (length it)) as f. intros f. revert it. induction f as [|f IH]; intros it Hf p0; [lia|].
    cbn [names_loop]. destruct it as [|c it]; [by eexists|].
    pose proof (span_length (not_in (str "/")) (c :: it)) as Hl.
    destruct (span (not_in (str "/")) (c :: it)) as [name [|d rest]]; [by eexists|].
    rewrite bind_modify. apply IH. simpl in *. lia. }
  unfold parseUnix_with. rewrite bind_modify. destruct path as [|c it]; [by eexists|].
  destruct (c =? chr "/"); [rewrite bind_modify; apply Hloop|]. unfold tilde in Ht.
  destruct (c =? chr "~"); [|apply Hloop]. cbn [andb] in Ht. rewrite Ht. apply Hloop.
Qed.

Lemma parseUnix_parses home path : tilde home = false -> parses (parseUnix home path).
Proof.
  intros Hh. unfold parseUnix. rewrite Hh. apply parseUnix_with_parses. right.
  unfold outcome. destruct (parseUnix_with_done UB home (new_path false) Hh) as [q ->]. by eexists.
Qed.

Lemma parseWindows_parses path : parses (parseWindows path).
Proof.
  unfold parseWindows, windows_root. apply parses_bind; [parses_tac|]. intros _. parses_tac.
Qed.

Lemma parseVMS_parses path : parses (parseVMS path).
Proof.
  unfold parseVMS, vms_device, vms_rest, vms_brackets, vms_second.
  parses_tac; apply vms_loop_parses; lia.
Qed.

Lemma assign_style_parses home path style :
  tilde home = false -> parses (assign_style home path style).
Proof.
  intros Hh. destruct style; cbn [assign_style]; auto using parseUnix_parses, parseWindows_parses, parseVMS_parses.
  unfold parseGuess. repeat case_match; auto using parseUnix_parses, parseWindows_parses, parseVMS_parses.
Qed.

(** ** File names *)

Lemma rfind_Some c s k :
  rfind c s = Some k -> exists a b, s = a ++ c :: b /\ length a = k /\ ~ In c b.
Proof.
  revert k. induction s as [|x s IH]; intros k; simpl; [done|].
  destruct (rfind c s) as [j|] eqn:E.
  - injection 1 as <-. destruct (IH j eq_refl) as (a & b & -> & <- & Hb). by exists (x :: a), b.
  - destruct (Z.eqb_spec x c) as [->|]; [|done]. injection 1 as <-. exists [], s. split_and!; [done..|].
    clear IH. induction s as [|y s IH]; [by intros []|]. simpl in E.
    destruct (rfind c s); [done|]. destruct (Z.eqb_spec y c); [done|]. intros [->|H]; [done|by apply IH].
Qed.

Lemma rfind_middle c a b : ~ In c b -> rfind c (a ++ c :: b) = Some (length a).
Proof.
  intros Hb. induction a as [|x a IH]; simpl.
  - assert (rfind c b = None) as ->.
    { induction b as [|y b IH]; [done|]. simpl. rewrite IH by (intros H; apply Hb; by right).
      destruct (Z.eqb_spec y c) as [->|]; [|done]. destruct Hb. by left. }
    by rewrite Z.eqb_refl.
  - by rewrite IH.
Qed.

Lemma base_ext_middle a b p :
  ~ In (chr ".") b -> getBaseName (set_name (a ++ chr "." :: b) p) = a /\
                      getExtension (set_name (a ++ chr "." :: b) p) = b.
Proof.
  intros Hb. unfold getBaseName, getExtension. cbn [_name set_name]. rewrite rfind_middle by done.
  rewrite take_app_length. split; [done|].
  rewrite drop_app_add. done.
Qed.

(** ** Theorems *)

(** The Unix text of a path is read back as the same path, whatever the home
    directory is and whatever the object held before: directories, parent
    directories of relative paths, devices and file names all survive. *)
Theorem path_unix_roundtrip home p q : unix_path p -> parseUnix home (buildUnix p) q = (Done tt, p).
Proof. apply parse_build_unix. Qed.

Definition sample_path : Path :=
  {| _node := []; _device := []; _name := str "file.txt"; _version := [];
     _dirs := [DOTDOT; str "usr"; str "lib"]; _absolute := false |}.

Lemma sample_path_wf : wf_path sample_path.
Proof. exists 1%nat, [str "usr"; str "lib"]. by repeat split; repeat constructor. Qed.

Lemma path_unix_roundtrip_witness :
  parseUnix (str "/home/me/") (buildUnix sample_path) (new_path true) = (Done tt, sample_path).
Proof.
  apply (path_unix_roundtrip (str "/home/me/") sample_path (new_path true)).
  split; [apply sample_path_wf|]. by repeat split; repeat constructor.
Defined.

(** The Windows text of a path (a share, a drive or neither) is read back as
    the same path. *)
Theorem path_windows_roundtrip p q : windows_path p -> parseWindows (buildWindows p) q = (Done tt, p).
Proof. apply parse_build_windows. Qed.

Lemma path_windows_roundtrip_witness :
  parseWindows (buildWindows sample_path) (new_path true) = (Done tt, sample_path).
Proof.
  apply (path_windows_roundtrip sample_path (new_path true)).
  split; [apply sample_path_wf|]. by repeat split; repeat constructor.
Defined.

(** The VMS text of a path, with node, device, bracketed directories, name
    and version, is read back as the same path. *)
Theorem path_vms_roundtrip p q : vms_path p -> parseVMS (buildVMS p) q = (Done tt, p).
Proof. apply parse_build_vms. Qed.

Lemma path_vms_roundtrip_witness :
  parseVMS (buildVMS (set_version (str "7") sample_path)) (new_path true) =
    (Done tt, set_version (str "7") sample_path).
Proof.
  apply (path_vms_roundtrip (set_version (str "7") sample_path) (new_path true)).
  split; [apply sample_path_wf|]. split; [|by repeat split].
  repeat constructor; (by left) || by right.
Defined.

(** C24: in every state that parsing and the editing operations can reach, the
    directories are normalized: no empty name and no [.], [..] only in front, and
    none at all in an absolute path.  Parsing in the Unix and the Windows syntax,
    pushDirectory, popDirectory, popFrontDirectory, makeDirectory, makeFile,
    makeParent, makeAbsolute, resolve, the constructors and the setters of the name
    count without a condition; parsing in the VMS or a guessed syntax, setNode and
    setDevice when they do not give an absolute path with parent directories, and
    append of a path without parent directories. *)
Theorem path_reachable_normalized home p : home_ok home -> reachable home p -> wf_path p.
Proof. apply reachable_wf. Qed.

Lemma path_reachable_normalized_witness :
  wf_path (append (pushDirectory (str "b") (new_path false)) (makeParent (pushDirectory (str "..") (new_path true)))).
Proof.
  apply (path_reachable_normalized (str "/root")); [by exists (str "root")|].
  apply reach_append; [apply reach_push, reach_new|apply reach_makeParent, reach_push, reach_new|].
  refine (@bool_decide_unpack _ _ _); vm_compute; exact I.
Defined.

(** Parsing is total in every style: it gives a path or throws
    PathSyntaxException (the loops end within the fuel of their texts), unless
    the home directory is itself given with a tilde; [tryParse] therefore never
    throws, and leaves the object alone when it returns false. *)
Theorem path_parse_total home path style p :
  tilde home = false ->
  match fst (assign_style home path style p) with
  | Done _ => True | Raise e => e = PathSyntaxException | _ => False
  end /\
  exists b p', tryParse home path style p = Done (b, p') /\ (b = false -> p' = p).
Proof.
  intros Hh. split; [by apply assign_style_parses|]. unfold tryParse.
  pose proof (assign_style_parses home path style Hh (new_path false)) as H.
  destruct (assign_style home path style (new_path false)) as [[] q]; try done; by eexists _, _.
Qed.

Lemma path_parse_total_witness :
  exists b p', tryParse (str "/home/me/") (str "c:x\y") PATH_WINDOWS sample_path = Done (b, p') /\
    (b = false -> p' = sample_path).
Proof. apply (path_parse_total (str "/home/me/") (str "c:x\y") PATH_WINDOWS sample_path eq_refl). Defined.

(** Base name and extension are the two sides of the last dot: setting one
    keeps the other, and an extension without a dot is read back. *)
Theorem path_extension_laws p e b :
  ~ In (chr ".") e -> e <> [] ->
  getExtension (setExtension e p) = e /\
  getBaseName (setExtension e p) = getBaseName p /\
  (getExtension p <> [] -> getExtension (setBaseName b p) = getExtension p /\
                           getBaseName (setBaseName b p) = b /\
                           _name p = getBaseName p ++ str "." ++ getExtension p).
Proof.
  intros He Hne. unfold setExtension. destruct e as [|x e]; [done|]. cbn [app].
  destruct (base_ext_middle (getBaseName p) (x :: e) p He) as [-> ->]. split_and!; [done..|].
  intros Hx. unfold setBaseName. destruct (getExtension p) as [|y ext] eqn:E; [done|]. cbn [app].
  unfold getExtension in E. destruct (rfind (chr ".") (_name p)) as [k|] eqn:Ek; [|done].
  pose proof Ek as Ek'. apply rfind_Some in Ek' as (u & v & En & <- & Hv).
  assert (v = y :: ext) as ->.
  { rewrite En in E. replace (length u + 1)%nat with (length (u ++ [chr "."])) in E
      by (rewrite length_app; done).
    by rewrite (app_assoc u [chr "."] v : u ++ chr "." :: v = _), drop_app_length in E. }
  destruct (base_ext_middle b (y :: ext) p Hv) as [-> ->]. split_and!; [done..|].
  unfold getBaseName. rewrite Ek, En, take_app_length. done.
Qed.

Lemma path_extension_laws_witness :
  getExtension (setExtension (str "bak") sample_path) = str "bak" /\
  getBaseName (setExtension (str "bak") sample_path) = str "file".
Proof.
  destruct (path_extension_laws sample_path (str "bak") (str "x")) as (H1 & H2 & _).
  - vm_compute. intros [|[|[|[]]]]; discriminate.
  - discriminate.
  - split; [exact H1|]. rewrite H2. reflexivity.
Defined.
