(* ===== verification/Encodings.v ===== *)
(** Text encodings (Foundation/src/*Encoding.cpp, Poco/TextEncoding.h).

    A [TextEncoding] is the record of its virtual functions.  The pointer and
    length arguments of [queryConvert] and [sequenceLength] are the list of the
    bytes they may read (the callers pass at least one); [convert(ch, bytes,
    length)] gives the number it returns and the bytes it stores.  Numbers are
    laid out in memory as on a little-endian machine. *)

From S2P Require Import Prelude Strings.

Record TextEncoding := {
  names : list (list Z);
  query : list Z -> Z;                  (* queryConvert *)
  seqlen : list Z -> Z;                 (* sequenceLength *)
  to_bytes : Z -> Z -> Z * list Z       (* convert(ch, bytes, length) *)
}.

Definition MAX_SEQUENCE_LENGTH : Z := 6.

Definition canonicalName (E : TextEncoding) : list Z := nth 0 (names E) [].

Definition isA (E : TextEncoding) (encodingName : list Z) : bool :=
  existsb (fun name => Str.icompare encodingName name =? 0) (names E).

(** The consecutive integers from [a]. *)
Fixpoint upto (n : nat) (a : Z) : list Z :=
  match n with O => [] | S m => a :: upto m (a + 1) end.

(** The [switch] of a single-byte encoding. *)
Fixpoint find_case (ch : Z) (l : list (Z * Z)) : option Z :=
  match l with
  | [] => None
  | (c, b) :: r => if ch =? c then Some b else find_case ch r
  end.

(** ** ByteOrder::flipBytes *)

Definition flipBytes16 (value : Z) : Z :=
  u16 (Z.lor (Z.land (Z.shiftr value 8) 0x00FF) (Z.land (Z.shiftl value 8) 0xFF00)).

Definition flipBytes32 (value : Z) : Z :=
  Z.lor (Z.lor (Z.land (Z.shiftr value 24) 0x000000FF) (Z.land (Z.shiftr value 8) 0x0000FF00))
        (Z.lor (Z.land (Z.shiftl value 8) 0x00FF0000) (Z.land (Z.shiftl value 24) 0xFF000000)).

Module ASCII.
Definition _names : list (list Z) := [str "ASCII"].

Definition _charMap : list Z := upto 128 0 ++ repeat (-1) 128.

Definition convert_to (ch length : Z) : Z * list Z :=
  if (0 <=? ch) && (ch <=? 127) then (1, if 1 <=? length then [u8 ch] else []) else (0, []).

Definition queryConvert (bytes : list Z) : Z :=
  match bytes with b :: _ => nth (Z.to_nat b) _charMap 0 | [] => -1 end.

Definition sequenceLength (bytes : list Z) : Z := 1.

Definition encoding : TextEncoding :=
  {| names := _names; query := queryConvert; seqlen := sequenceLength; to_bytes := convert_to |}.
End ASCII.

Module UTF8.
Definition _names : list (list Z) := [str "UTF-8"; str "UTF8"].

Definition _charMap : list Z :=
  upto 128 0 ++ repeat (-1) 64 ++ repeat (-2) 32 ++ repeat (-3) 16 ++
  repeat (-4) 8 ++ repeat (-5) 4 ++ repeat (-6) 2 ++ repeat (-1) 2.

(** The check of the second byte, by the first. *)
Definition second_ok (first a : Z) : bool :=
  negb (a >? 0xBF) &&
  (if first =? 0xE0 then negb (a <? 0xA0)
   else if first =? 0xED then negb (a >? 0x9F)
   else if first =? 0xF0 then negb (a <? 0x90)
   else if first =? 0xF4 then negb (a >? 0x8F)
   else negb (a <? 0x80)).

Definition trail_ok (a : Z) : bool := negb ((a <? 0x80) || (a >? 0xBF)).

Definition first_ok (first : Z) : bool :=
  negb ((first >=? 0x80) && (first <? 0xC2)) && (first <=? 0xF4).

(** [isLegal(bytes, length)] with the sequence as a list. *)
Definition isLegal (bytes : list Z) : bool :=
  match bytes with
  | [first; b1; b2; b3] => trail_ok b3 && trail_ok b2 && second_ok first b1 && first_ok first
  | [first; b1; b2] => trail_ok b2 && second_ok first b1 && first_ok first
  | [first; b1] => second_ok first b1 && first_ok first
  | [first] => first_ok first
  | _ => false
  end.

Definition queryConvert (bytes : list Z) : Z :=
  match bytes with
  | [] => -1
  | first :: rest =>
      let n := nth (Z.to_nat first) _charMap 0 in
      if - n >? Z.of_nat (length bytes) then n
      else if (n =? -6) || (n =? -5) || (n =? -1) then -1
      else if (n =? -4) || (n =? -3) || (n =? -2) then
        if negb (isLegal (take (Z.to_nat (- n)) bytes)) then -1
        else foldl (fun uc b => Z.lor (Z.shiftl uc 6) (Z.land b 0x3F))
               (Z.land first (Z.lor (Z.shiftl 0x07 (n + 4)) 0x03))
               (take (Z.to_nat (- n - 1)) rest)
      else n
  end.

Definition sequenceLength (bytes : list Z) : Z :=
  match bytes with
  | [] => -1
  | first :: _ =>
      let cc := nth (Z.to_nat first) _charMap 0 in
      if 0 <=? cc then 1 else - cc
  end.

Definition convert_to (ch length : Z) : Z * list Z :=
  if ch <=? 0x7F then (1, if 1 <=? length then [u8 ch] else [])
  else if ch <=? 0x7FF then
    (2, if 2 <=? length then
          [u8 (Z.lor (Z.land (Z.shiftr ch 6) 0x1F) 0xC0); u8 (Z.lor (Z.land ch 0x3F) 0x80)]
        else [])
  else if ch <=? 0xFFFF then
    (3, if 3 <=? length then
          [u8 (Z.lor (Z.land (Z.shiftr ch 12) 0x0F) 0xE0);
           u8 (Z.lor (Z.land (Z.shiftr ch 6) 0x3F) 0x80); u8 (Z.lor (Z.land ch 0x3F) 0x80)]
        else [])
  else if ch <=? 0x10FFFF then
    (4, if 4 <=? length then
          [u8 (Z.lor (Z.land (Z.shiftr ch 18) 0x07) 0xF0);
           u8 (Z.lor (Z.land (Z.shiftr ch 12) 0x3F) 0x80);
           u8 (Z.lor (Z.land (Z.shiftr ch 6) 0x3F) 0x80); u8 (Z.lor (Z.land ch 0x3F) 0x80)]
        else [])
  else (0, []).

Definition encoding : TextEncoding :=
  {| names := _names; query := queryConvert; seqlen := sequenceLength; to_bytes := convert_to |}.
End UTF8.

Inductive ByteOrderType := BIG_ENDIAN_BYTE_ORDER | LITTLE_ENDIAN_BYTE_ORDER | NATIVE_BYTE_ORDER.

(** [setByteOrder(byteOrder)] and [setByteOrder(byteOrderMark)]: [_flipBytes]. *)
Definition setByteOrder (byteOrder : ByteOrderType) : bool :=
  match byteOrder with BIG_ENDIAN_BYTE_ORDER => true | _ => false end.
Definition setByteOrderMark (byteOrderMark : Z) : bool := negb (byteOrderMark =? 0xFEFF).

Module UTF16.
Definition _names : list (list Z) := [str "UTF-16"; str "UTF16"].

(** A [UInt16] in memory, read and written byte by byte. *)
Definition load16 (b0 b1 : Z) : Z := b0 + 256 * b1.
Definition store16 (w : Z) : list Z := [w mod 256; w / 256 mod 256].

Section Encoding.
Variable flip : bool.    (* _flipBytes *)

(** The call of [ByteOrder::flipBytes(uc)] gives the flipped number back and does
    not change [uc]. *)
Definition queryConvert (bytes : list Z) : Z :=
  match bytes with
  | b0 :: b1 :: rest =>
      let uc := load16 b0 b1 in
      if (uc >=? 0xd800) && (uc <? 0xdc00) then
        match rest with
        | b2 :: b3 :: _ =>
            let uc2 := load16 b2 b3 in
            if (uc2 >=? 0xdc00) && (uc <? 0xe000) then
              Z.shiftl (Z.land uc 0x3ff) 10 + Z.land uc2 0x3ff + 0x10000
            else -1
        | _ => -4
        end
      else uc
  | _ => -2
  end.

Definition sequenceLength (bytes : list Z) : Z :=
  if flip then
    match bytes with
    | c :: _ => if (c >=? 0xd8) && (c <? 0xdc) then 4 else 2
    | _ => -2
    end
  else
    match bytes with
    | b0 :: b1 :: _ =>
        let uc := load16 b0 b1 in if (uc >=? 0xd800) && (uc <? 0xdc00) then 4 else 2
    | _ => -2
    end.

Definition convert_to (ch length : Z) : Z * list Z :=
  if ch <=? 0xFFFF then
    (2, if 2 <=? length then store16 (if flip then flipBytes16 (u16 ch) else u16 ch) else [])
  else
    (4, if 4 <=? length then
          let ch1 := ch - 0x10000 in
          let w1 := u16 (0xD800 + Z.land (Z.shiftr ch1 10) 0x3FF) in
          let w2 := u16 (0xDC00 + Z.land ch1 0x3FF) in
          store16 (if flip then flipBytes16 w1 else w1) ++ store16 (if flip then flipBytes16 w2 else w2)
        else []).

Definition encoding : TextEncoding :=
  {| names := _names; query := queryConvert; seqlen := sequenceLength; to_bytes := convert_to |}.
End Encoding.
End UTF16.

Module UTF32.
Definition _names : list (list Z) := [str "UTF-32"; str "UTF32"].

Definition load32 (b0 b1 b2 b3 : Z) : Z := b0 + 256 * b1 + 65536 * b2 + 16777216 * b3.
Definition store32 (w : Z) : list Z :=
  [w mod 256; w / 256 mod 256; w / 65536 mod 256; w / 16777216 mod 256].

Section Encoding.
Variable flip : bool.

(** The [UInt32] is returned as an [int]. *)
Definition queryConvert (bytes : list Z) : Z :=
  match bytes with
  | b0 :: b1 :: b2 :: b3 :: _ => s32 (load32 b0 b1 b2 b3)
  | _ => -4
  end.

Definition sequenceLength (bytes : list Z) : Z := 4.

Definition convert_to (ch length : Z) : Z * list Z :=
  (4, if 4 <=? length then store32 (if flip then flipBytes32 (u32 ch) else u32 ch) else []).

Definition encoding : TextEncoding :=
  {| names := _names; query := queryConvert; seqlen := sequenceLength; to_bytes := convert_to |}.
End Encoding.
End UTF32.

Module Latin1.
Definition _names : list (list Z) := [str "ISO-8859-1"; str "Latin1"; str "Latin-1"].

Definition _charMap : list Z :=
  [0x00; 0x01; 0x02; 0x03; 0x04; 0x05; 0x06; 0x07; 0x08; 0x09; 0x0a; 0x0b; 0x0c; 0x0d; 0x0e; 0x0f;
   0x10; 0x11; 0x12; 0x13; 0x14; 0x15; 0x16; 0x17; 0x18; 0x19; 0x1a; 0x1b; 0x1c; 0x1d; 0x1e; 0x1f;
   0x20; 0x21; 0x22; 0x23; 0x24; 0x25; 0x26; 0x27; 0x28; 0x29; 0x2a; 0x2b; 0x2c; 0x2d; 0x2e; 0x2f;
   0x30; 0x31; 0x32; 0x33; 0x34; 0x35; 0x36; 0x37; 0x38; 0x39; 0x3a; 0x3b; 0x3c; 0x3d; 0x3e; 0x3f;
   0x40; 0x41; 0x42; 0x43; 0x44; 0x45; 0x46; 0x47; 0x48; 0x49; 0x4a; 0x4b; 0x4c; 0x4d; 0x4e; 0x4f;
   0x50; 0x51; 0x52; 0x53; 0x54; 0x55; 0x56; 0x57; 0x58; 0x59; 0x5a; 0x5b; 0x5c; 0x5d; 0x5e; 0x5f;
   0x60; 0x61; 0x62; 0x63; 0x64; 0x65; 0x66; 0x67; 0x68; 0x69; 0x6a; 0x6b; 0x6c; 0x6d; 0x6e; 0x6f;
   0x70; 0x71; 0x72; 0x73; 0x74; 0x75; 0x76; 0x77; 0x78; 0x79; 0x7a; 0x7b; 0x7c; 0x7d; 0x7e; 0x7f;
   0x80; 0x81; 0x82; 0x83; 0x84; 0x85; 0x86; 0x87; 0x88; 0x89; 0x8a; 0x8b; 0x8c; 0x8d; 0x8e; 0x8f;
   0x90; 0x91; 0x92; 0x93; 0x94; 0x95; 0x96; 0x97; 0x98; 0x99; 0x9a; 0x9b; 0x9c; 0x9d; 0x9e; 0x9f;
   0xa0; 0xa1; 0xa2; 0xa3; 0xa4; 0xa5; 0xa6; 0xa7; 0xa8; 0xa9; 0xaa; 0xab; 0xac; 0xad; 0xae; 0xaf;
   0xb0; 0xb1; 0xb2; 0xb3; 0xb4; 0xb5; 0xb6; 0xb7; 0xb8; 0xb9; 0xba; 0xbb; 0xbc; 0xbd; 0xbe; 0xbf;
   0xc0; 0xc1; 0xc2; 0xc3; 0xc4; 0xc5; 0xc6; 0xc7; 0xc8; 0xc9; 0xca; 0xcb; 0xcc; 0xcd; 0xce; 0xcf;
   0xd0; 0xd1; 0xd2; 0xd3; 0xd4; 0xd5; 0xd6; 0xd7; 0xd8; 0xd9; 0xda; 0xdb; 0xdc; 0xdd; 0xde; 0xdf;
   0xe0; 0xe1; 0xe2; 0xe3; 0xe4; 0xe5; 0xe6; 0xe7; 0xe8; 0xe9; 0xea; 0xeb; 0xec; 0xed; 0xee; 0xef;
   0xf0; 0xf1; 0xf2; 0xf3; 0xf4; 0xf5; 0xf6; 0xf7; 0xf8; 0xf9; 0xfa; 0xfb; 0xfc; 0xfd; 0xfe; 0xff].

Definition convert_to (ch length : Z) : Z * list Z :=
  if (0 <=? ch) && (ch <=? 255) then (1, if 1 <=? length then [u8 ch] else []) else (0, []).

Definition queryConvert (bytes : list Z) : Z := match bytes with b :: _ => b | [] => -1 end.

Definition sequenceLength (bytes : list Z) : Z := 1.

Definition encoding : TextEncoding :=
  {| names := _names; query := queryConvert; seqlen := sequenceLength; to_bytes := convert_to |}.
End Latin1.

Module Latin2.
Definition _names : list (list Z) := [str "ISO-8859-2"; str "Latin2"; str "Latin-2"].

Definition _charMap : list Z :=
  [0x0000; 0x0001; 0x0002; 0x0003; 0x0004; 0x0005; 0x0006; 0x0007; 0x0008; 0x0009; 0x000a; 0x000b; 0x000c; 0x000d; 0x000e; 0x000f;
   0x0010; 0x0011; 0x0012; 0x0013; 0x0014; 0x0015; 0x0016; 0x0017; 0x0018; 0x0019; 0x001a; 0x001b; 0x001c; 0x001d; 0x001e; 0x001f;
   0x0020; 0x0021; 0x0022; 0x0023; 0x0024; 0x0025; 0x0026; 0x0027; 0x0028; 0x0029; 0x002a; 0x002b; 0x002c; 0x002d; 0x002e; 0x002f;
   0x0030; 0x0031; 0x0032; 0x0033; 0x0034; 0x0035; 0x0036; 0x0037; 0x0038; 0x0039; 0x003a; 0x003b; 0x003c; 0x003d; 0x003e; 0x003f;
   0x0040; 0x0041; 0x0042; 0x0043; 0x0044; 0x0045; 0x0046; 0x0047; 0x0048; 0x0049; 0x004a; 0x004b; 0x004c; 0x004d; 0x004e; 0x004f;
   0x0050; 0x0051; 0x0052; 0x0053; 0x0054; 0x0055; 0x0056; 0x0057; 0x0058; 0x0059; 0x005a; 0x005b; 0x005c; 0x005d; 0x005e; 0x005f;
   0x0060; 0x0061; 0x0062; 0x0063; 0x0064; 0x0065; 0x0066; 0x0067; 0x0068; 0x0069; 0x006a; 0x006b; 0x006c; 0x006d; 0x006e; 0x006f;
   0x0070; 0x0071; 0x0072; 0x0073; 0x0074; 0x0075; 0x0076; 0x0077; 0x0078; 0x0079; 0x007a; 0x007b; 0x007c; 0x007d; 0x007e; 0x007f;
   0x0080; 0x0081; 0x0082; 0x0083; 0x0084; 0x0085; 0x0086; 0x0087; 0x0088; 0x0089; 0x008a; 0x008b; 0x008c; 0x008d; 0x008e; 0x008f;
   0x0090; 0x0091; 0x0092; 0x0093; 0x0094; 0x0095; 0x0096; 0x0097; 0x0098; 0x0099; 0x009a; 0x009b; 0x009c; 0x009d; 0x009e; 0x009f;
   0x00a0; 0x0104; 0x02d8; 0x0141; 0x00a4; 0x013d; 0x015a; 0x00a7; 0x00a8; 0x0160; 0x015e; 0x0164; 0x0179; 0x00ad; 0x017d; 0x017b;
   0x00b0; 0x0105; 0x02db; 0x0142; 0x00b4; 0x013e; 0x015b; 0x02c7; 0x00b8; 0x0161; 0x015f; 0x0165; 0x017a; 0x02dd; 0x017e; 0x017c;
   0x0154; 0x00c1; 0x00c2; 0x0102; 0x00c4; 0x0139; 0x0106; 0x00c7; 0x010c; 0x00c9; 0x0118; 0x00cb; 0x011a; 0x00cd; 0x00ce; 0x010e;
   0x0110; 0x0143; 0x0147; 0x00d3; 0x00d4; 0x0150; 0x00d6; 0x00d7; 0x0158; 0x016e; 0x00da; 0x0170; 0x00dc; 0x00dd; 0x0162; 0x00df;
   0x0155; 0x00e1; 0x00e2; 0x0103; 0x00e4; 0x013a; 0x0107; 0x00e7; 0x010d; 0x00e9; 0x0119; 0x00eb; 0x011b; 0x00ed; 0x00ee; 0x010f;
   0x0111; 0x0144; 0x0148; 0x00f3; 0x00f4; 0x0151; 0x00f6; 0x00f7; 0x0159; 0x016f; 0x00fa; 0x0171; 0x00fc; 0x00fd; 0x0163; 0x02d9].

Definition convert_to (ch length : Z) : Z * list Z :=
  if (0 <=? ch) && (ch <=? 255) && (nth (Z.to_nat ch) _charMap 0 =? ch) then
    (1, if 1 <=? length then [u8 ch] else [])
  else (0, []).

Definition queryConvert (bytes : list Z) : Z :=
  match bytes with b :: _ => nth (Z.to_nat b) _charMap 0 | [] => -1 end.

Definition sequenceLength (bytes : list Z) : Z := 1.

Definition encoding : TextEncoding :=
  {| names := _names; query := queryConvert; seqlen := sequenceLength; to_bytes := convert_to |}.
End Latin2.

Module Latin9.
Definition _names : list (list Z) := [str "ISO-8859-15"; str "Latin9"; str "Latin-9"].

Definition _charMap : list Z :=
  [0x0000; 0x0001; 0x0002; 0x0003; 0x0004; 0x0005; 0x0006; 0x0007; 0x0008; 0x0009; 0x000a; 0x000b; 0x000c; 0x000d; 0x000e; 0x000f;
   0x0010; 0x0011; 0x0012; 0x0013; 0x0014; 0x0015; 0x0016; 0x0017; 0x0018; 0x0019; 0x001a; 0x001b; 0x001c; 0x001d; 0x001e; 0x001f;
   0x0020; 0x0021; 0x0022; 0x0023; 0x0024; 0x0025; 0x0026; 0x0027; 0x0028; 0x0029; 0x002a; 0x002b; 0x002c; 0x002d; 0x002e; 0x002f;
   0x0030; 0x0031; 0x0032; 0x0033; 0x0034; 0x0035; 0x0036; 0x0037; 0x0038; 0x0039; 0x003a; 0x003b; 0x003c; 0x003d; 0x003e; 0x003f;
   0x0040; 0x0041; 0x0042; 0x0043; 0x0044; 0x0045; 0x0046; 0x0047; 0x0048; 0x0049; 0x004a; 0x004b; 0x004c; 0x004d; 0x004e; 0x004f;
   0x0050; 0x0051; 0x0052; 0x0053; 0x0054; 0x0055; 0x0056; 0x0057; 0x0058; 0x0059; 0x005a; 0x005b; 0x005c; 0x005d; 0x005e; 0x005f;
   0x0060; 0x0061; 0x0062; 0x0063; 0x0064; 0x0065; 0x0066; 0x0067; 0x0068; 0x0069; 0x006a; 0x006b; 0x006c; 0x006d; 0x006e; 0x006f;
   0x0070; 0x0071; 0x0072; 0x0073; 0x0074; 0x0075; 0x0076; 0x0077; 0x0078; 0x0079; 0x007a; 0x007b; 0x007c; 0x007d; 0x007e; 0x007f;
   0x0080; 0x0081; 0x0082; 0x0083; 0x0084; 0x0085; 0x0086; 0x0087; 0x0088; 0x0089; 0x008a; 0x008b; 0x008c; 0x008d; 0x008e; 0x008f;
   0x0090; 0x0091; 0x0092; 0x0093; 0x0094; 0x0095; 0x0096; 0x0097; 0x0098; 0x0099; 0x009a; 0x009b; 0x009c; 0x009d; 0x009e; 0x009f;
   0x00a0; 0x00a1; 0x00a2; 0x00a3; 0x20ac; 0x00a5; 0x0160; 0x00a7; 0x0161; 0x00a9; 0x00aa; 0x00ab; 0x00ac; 0x00ad; 0x00ae; 0x00af;
   0x00b0; 0x00b1; 0x00b2; 0x00b3; 0x017d; 0x00b5; 0x00b6; 0x00b7; 0x017e; 0x00b9; 0x00ba; 0x00bb; 0x0152; 0x0153; 0x0178; 0x00bf;
   0x00c0; 0x00c1; 0x00c2; 0x00c3; 0x00c4; 0x00c5; 0x00c6; 0x00c7; 0x00c8; 0x00c9; 0x00ca; 0x00cb; 0x00cc; 0x00cd; 0x00ce; 0x00cf;
   0x00d0; 0x00d1; 0x00d2; 0x00d3; 0x00d4; 0x00d5; 0x00d6; 0x00d7; 0x00d8; 0x00d9; 0x00da; 0x00db; 0x00dc; 0x00dd; 0x00de; 0x00df;
   0x00e0; 0x00e1; 0x00e2; 0x00e3; 0x00e4; 0x00e5; 0x00e6; 0x00e7; 0x00e8; 0x00e9; 0x00ea; 0x00eb; 0x00ec; 0x00ed; 0x00ee; 0x00ef;
   0x00f0; 0x00f1; 0x00f2; 0x00f3; 0x00f4; 0x00f5; 0x00f6; 0x00f7; 0x00f8; 0x00f9; 0x00fa; 0x00fb; 0x00fc; 0x00fd; 0x00fe; 0x00ff].

Definition cases : list (Z * Z) :=
  [(0x0152, 0xbc); (0x0153, 0xbd); (0x0160, 0xa6); (0x0161, 0xa8); (0x017d, 0xb4);
   (0x017e, 0xb8); (0x0178, 0xbe); (0x20ac, 0xa4)].

Definition convert_to (ch length : Z) : Z * list Z :=
  if (0 <=? ch) && (ch <=? 255) && (nth (Z.to_nat ch) _charMap 0 =? ch) then
    (1, if 1 <=? length then [u8 ch] else [])
  else match find_case ch cases with
       | Some b => (1, if 1 <=? length then [b] else [])
       | None => (0, [])
       end.

Definition queryConvert (bytes : list Z) : Z :=
  match bytes with b :: _ => nth (Z.to_nat b) _charMap 0 | [] => -1 end.

Definition sequenceLength (bytes : list Z) : Z := 1.

Definition encoding : TextEncoding :=
  {| names := _names; query := queryConvert; seqlen := sequenceLength; to_bytes := convert_to |}.
End Latin9.

Module Windows1250.
Definition _names : list (list Z) := [str "Windows-1250"; str "CP1250"].

Definition _charMap : list Z :=
  [0x0000; 0x0001; 0x0002; 0x0003; 0x0004; 0x0005; 0x0006; 0x0007; 0x0008; 0x0009; 0x000a; 0x000b; 0x000c; 0x000d; 0x000e; 0x000f;
   0x0010; 0x0011; 0x0012; 0x0013; 0x0014; 0x0015; 0x0016; 0x0017; 0x0018; 0x0019; 0x001a; 0x001b; 0x001c; 0x001d; 0x001e; 0x001f;
   0x0020; 0x0021; 0x0022; 0x0023; 0x0024; 0x0025; 0x0026; 0x0027; 0x0028; 0x0029; 0x002a; 0x002b; 0x002c; 0x002d; 0x002e; 0x002f;
   0x0030; 0x0031; 0x0032; 0x0033; 0x0034; 0x0035; 0x0036; 0x0037; 0x0038; 0x0039; 0x003a; 0x003b; 0x003c; 0x003d; 0x003e; 0x003f;
   0x0040; 0x0041; 0x0042; 0x0043; 0x0044; 0x0045; 0x0046; 0x0047; 0x0048; 0x0049; 0x004a; 0x004b; 0x004c; 0x004d; 0x004e; 0x004f;
   0x0050; 0x0051; 0x0052; 0x0053; 0x0054; 0x0055; 0x0056; 0x0057; 0x0058; 0x0059; 0x005a; 0x005b; 0x005c; 0x005d; 0x005e; 0x005f;
   0x0060; 0x0061; 0x0062; 0x0063; 0x0064; 0x0065; 0x0066; 0x0067; 0x0068; 0x0069; 0x006a; 0x006b; 0x006c; 0x006d; 0x006e; 0x006f;
   0x0070; 0x0071; 0x0072; 0x0073; 0x0074; 0x0075; 0x0076; 0x0077; 0x0078; 0x0079; 0x007a; 0x007b; 0x007c; 0x007d; 0x007e; 0x007f;
   0x20AC; 0x0081; 0x201A; 0x0083; 0x201e; 0x2026; 0x2020; 0x2021; 0x0088; 0x2030; 0x0160; 0x2039; 0x015a; 0x0164; 0x017d; 0x0179;
   0x0090; 0x2018; 0x2019; 0x201c; 0x201d; 0x2022; 0x2013; 0x2014; 0x0098; 0x2122; 0x0161; 0x203a; 0x015b; 0x0165; 0x017e; 0x017a;
   0x00a0; 0x02c7; 0x02d8; 0x0141; 0x00a4; 0x0104; 0x00a6; 0x00a7; 0x00a8; 0x00a9; 0x015e; 0x00ab; 0x00ac; 0x00ad; 0x00ae; 0x017b;
   0x00b0; 0x00b1; 0x02db; 0x0142; 0x00b4; 0x00b5; 0x00b6; 0x00b7; 0x00b8; 0x0105; 0x015f; 0x00bb; 0x013d; 0x02dd; 0x013e; 0x017c;
   0x0154; 0x00c1; 0x00c2; 0x0102; 0x00c4; 0x0139; 0x0106; 0x00c7; 0x010c; 0x00c9; 0x0118; 0x00cb; 0x011a; 0x00cd; 0x00ce; 0x010e;
   0x0110; 0x0143; 0x0147; 0x00d3; 0x00d4; 0x0150; 0x00d6; 0x00d7; 0x0158; 0x016e; 0x00da; 0x0170; 0x00dc; 0x00dd; 0x0162; 0x00df;
   0x0155; 0x00e1; 0x00e2; 0x0103; 0x00e4; 0x013a; 0x0107; 0x00e7; 0x010d; 0x00e9; 0x0119; 0x00eb; 0x011b; 0x00ed; 0x00ee; 0x010f;
   0x0111; 0x0144; 0x0148; 0x00f3; 0x00f4; 0x0151; 0x00f6; 0x00f7; 0x0159; 0x016f; 0x00fa; 0x0171; 0x00fc; 0x00fd; 0x0163; 0x02d9].

Definition convert_to (ch length : Z) : Z * list Z :=
  if (0 <=? ch) && (ch <=? 255) && (nth (Z.to_nat ch) _charMap 0 =? ch) then
    (1, if 1 <=? length then [u8 ch] else [])
  else (0, []).

Definition queryConvert (bytes : list Z) : Z :=
  match bytes with b :: _ => nth (Z.to_nat b) _charMap 0 | [] => -1 end.

Definition sequenceLength (bytes : list Z) : Z := 1.

Definition encoding : TextEncoding :=
  {| names := _names; query := queryConvert; seqlen := sequenceLength; to_bytes := convert_to |}.
End Windows1250.

Module Windows1251.
Definition _names : list (list Z) := [str "Windows-1251"; str "CP1251"].

Definition _charMap : list Z :=
  [0x0000; 0x0001; 0x0002; 0x0003; 0x0004; 0x0005; 0x0006; 0x0007; 0x0008; 0x0009; 0x000a; 0x000b; 0x000c; 0x000d; 0x000e; 0x000f;
   0x0010; 0x0011; 0x0012; 0x0013; 0x0014; 0x0015; 0x0016; 0x0017; 0x0018; 0x0019; 0x001a; 0x001b; 0x001c; 0x001d; 0x001e; 0x001f;
   0x0020; 0x0021; 0x0022; 0x0023; 0x0024; 0x0025; 0x0026; 0x0027; 0x0028; 0x0029; 0x002a; 0x002b; 0x002c; 0x002d; 0x002e; 0x002f;
   0x0030; 0x0031; 0x0032; 0x0033; 0x0034; 0x0035; 0x0036; 0x0037; 0x0038; 0x0039; 0x003a; 0x003b; 0x003c; 0x003d; 0x003e; 0x003f;
   0x0040; 0x0041; 0x0042; 0x0043; 0x0044; 0x0045; 0x0046; 0x0047; 0x0048; 0x0049; 0x004a; 0x004b; 0x004c; 0x004d; 0x004e; 0x004f;
   0x0050; 0x0051; 0x0052; 0x0053; 0x0054; 0x0055; 0x0056; 0x0057; 0x0058; 0x0059; 0x005a; 0x005b; 0x005c; 0x005d; 0x005e; 0x005f;
   0x0060; 0x0061; 0x0062; 0x0063; 0x0064; 0x0065; 0x0066; 0x0067; 0x0068; 0x0069; 0x006a; 0x006b; 0x006c; 0x006d; 0x006e; 0x006f;
   0x0070; 0x0071; 0x0072; 0x0073; 0x0074; 0x0075; 0x0076; 0x0077; 0x0078; 0x0079; 0x007a; 0x007b; 0x007c; 0x007d; 0x007e; 0x007f;
   0x0402; 0x0403; 0x201A; 0x0453; 0x201e; 0x2026; 0x2020; 0x2021; 0x20AC; 0x2030; 0x0409; 0x040A; 0x2039; 0x040C; 0x040B; 0x040F;
   0x0452; 0x2018; 0x2019; 0x201c; 0x201d; 0x2022; 0x2013; 0x2014; 0x0098; 0x2122; 0x0459; 0x203a; 0x045a; 0x045c; 0x045b; 0x045f;
   0x00a0; 0x040E; 0x045e; 0x0408; 0x00a4; 0x0490; 0x00a6; 0x00a7; 0x0401; 0x00a9; 0x0404; 0x00ab; 0x00ac; 0x00ad; 0x00ae; 0x0407;
   0x00b0; 0x00b1; 0x0406; 0x0456; 0x0491; 0x00b5; 0x00b6; 0x00b7; 0x0451; 0x2116; 0x0454; 0x00bb; 0x0458; 0x0405; 0x0455; 0x457c;
   0x0410; 0x0411; 0x0412; 0x0413; 0x0414; 0x0415; 0x0416; 0x0417; 0x0418; 0x0419; 0x041A; 0x041B; 0x041C; 0x041d; 0x041e; 0x041f;
   0x0420; 0x0421; 0x0422; 0x0423; 0x0424; 0x0425; 0x0426; 0x0427; 0x0428; 0x0429; 0x042a; 0x042b; 0x042c; 0x042d; 0x042e; 0x042f;
   0x0430; 0x0431; 0x0432; 0x0433; 0x0434; 0x0435; 0x0436; 0x0437; 0x0438; 0x0439; 0x043a; 0x043b; 0x043c; 0x043d; 0x043e; 0x043f;
   0x0440; 0x0441; 0x0442; 0x0443; 0x0444; 0x0445; 0x0446; 0x0447; 0x0448; 0x0449; 0x044a; 0x044b; 0x044c; 0x044d; 0x044e; 0x044f].

Definition convert_to (ch length : Z) : Z * list Z :=
  if (0 <=? ch) && (ch <=? 255) && (nth (Z.to_nat ch) _charMap 0 =? ch) then
    (1, if 1 <=? length then [u8 ch] else [])
  else (0, []).

Definition queryConvert (bytes : list Z) : Z :=
  match bytes with b :: _ => nth (Z.to_nat b) _charMap 0 | [] => -1 end.

Definition sequenceLength (bytes : list Z) : Z := 1.

Definition encoding : TextEncoding :=
  {| names := _names; query := queryConvert; seqlen := sequenceLength; to_bytes := convert_to |}.
End Windows1251.

Module Windows1252.
Definition _names : list (list Z) := [str "Windows-1252"; str "CP1252"].

Definition _charMap : list Z :=
  [0x0000; 0x0001; 0x0002; 0x0003; 0x0004; 0x0005; 0x0006; 0x0007; 0x0008; 0x0009; 0x000a; 0x000b; 0x000c; 0x000d; 0x000e; 0x000f;
   0x0010; 0x0011; 0x0012; 0x0013; 0x0014; 0x0015; 0x0016; 0x0017; 0x0018; 0x0019; 0x001a; 0x001b; 0x001c; 0x001d; 0x001e; 0x001f;
   0x0020; 0x0021; 0x0022; 0x0023; 0x0024; 0x0025; 0x0026; 0x0027; 0x0028; 0x0029; 0x002a; 0x002b; 0x002c; 0x002d; 0x002e; 0x002f;
   0x0030; 0x0031; 0x0032; 0x0033; 0x0034; 0x0035; 0x0036; 0x0037; 0x0038; 0x0039; 0x003a; 0x003b; 0x003c; 0x003d; 0x003e; 0x003f;
   0x0040; 0x0041; 0x0042; 0x0043; 0x0044; 0x0045; 0x0046; 0x0047; 0x0048; 0x0049; 0x004a; 0x004b; 0x004c; 0x004d; 0x004e; 0x004f;
   0x0050; 0x0051; 0x0052; 0x0053; 0x0054; 0x0055; 0x0056; 0x0057; 0x0058; 0x0059; 0x005a; 0x005b; 0x005c; 0x005d; 0x005e; 0x005f;
   0x0060; 0x0061; 0x0062; 0x0063; 0x0064; 0x0065; 0x0066; 0x0067; 0x0068; 0x0069; 0x006a; 0x006b; 0x006c; 0x006d; 0x006e; 0x006f;
   0x0070; 0x0071; 0x0072; 0x0073; 0x0074; 0x0075; 0x0076; 0x0077; 0x0078; 0x0079; 0x007a; 0x007b; 0x007c; 0x007d; 0x007e; 0x007f;
   0x20AC; 0x0081; 0x201A; 0x0192; 0x201e; 0x2026; 0x2020; 0x2021; 0x02c6; 0x2030; 0x0160; 0x2039; 0x0152; 0x008d; 0x017d; 0x008f;
   0x0090; 0x2018; 0x2019; 0x201c; 0x201d; 0x2022; 0x2013; 0x2014; 0x02dc; 0x2122; 0x0161; 0x203a; 0x0153; 0x009d; 0x017e; 0x0178;
   0x00a0; 0x00a1; 0x00a2; 0x00a3; 0x00a4; 0x00a5; 0x00a6; 0x00a7; 0x00a8; 0x00a9; 0x00aa; 0x00ab; 0x00ac; 0x00ad; 0x00ae; 0x00af;
   0x00b0; 0x00b1; 0x00b2; 0x00b3; 0x00b4; 0x00b5; 0x00b6; 0x00b7; 0x00b8; 0x00b9; 0x00ba; 0x00bb; 0x00bc; 0x00bd; 0x00be; 0x00bf;
   0x00c0; 0x00c1; 0x00c2; 0x00c3; 0x00c4; 0x00c5; 0x00c6; 0x00c7; 0x00c8; 0x00c9; 0x00ca; 0x00cb; 0x00cc; 0x00cd; 0x00ce; 0x00cf;
   0x00d0; 0x00d1; 0x00d2; 0x00d3; 0x00d4; 0x00d5; 0x00d6; 0x00d7; 0x00d8; 0x00d9; 0x00da; 0x00db; 0x00dc; 0x00dd; 0x00de; 0x00df;
   0x00e0; 0x00e1; 0x00e2; 0x00e3; 0x00e4; 0x00e5; 0x00e6; 0x00e7; 0x00e8; 0x00e9; 0x00ea; 0x00eb; 0x00ec; 0x00ed; 0x00ee; 0x00ef;
   0x00f0; 0x00f1; 0x00f2; 0x00f3; 0x00f4; 0x00f5; 0x00f6; 0x00f7; 0x00f8; 0x00f9; 0x00fa; 0x00fb; 0x00fc; 0x00fd; 0x00fe; 0x00ff].

Definition cases : list (Z * Z) :=
  [(0x20ac, 0x80); (0x201a, 0x82); (0x0192, 0x83); (0x201e, 0x84); (0x2026, 0x85);
   (0x2020, 0x86); (0x2021, 0x87); (0x02c6, 0x88); (0x2030, 0x89); (0x0160, 0x8a);
   (0x2039, 0x8b); (0x0152, 0x8c); (0x017d, 0x8e); (0x2018, 0x91); (0x2019, 0x92);
   (0x201c, 0x93); (0x201d, 0x94); (0x2022, 0x95); (0x2013, 0x96); (0x2014, 0x97);
   (0x02dc, 0x98); (0x2122, 0x99); (0x0161, 0x9a); (0x203a, 0x9b); (0x0153, 0x9c);
   (0x017e, 0x9e); (0x0178, 0x9f)].

Definition convert_to (ch length : Z) : Z * list Z :=
  if (0 <=? ch) && (ch <=? 255) && (nth (Z.to_nat ch) _charMap 0 =? ch) then
    (1, if 1 <=? length then [u8 ch] else [])
  else match find_case ch cases with
       | Some b => (1, if 1 <=? length then [b] else [])
       | None => (0, [])
       end.

Definition queryConvert (bytes : list Z) : Z :=
  match bytes with b :: _ => nth (Z.to_nat b) _charMap 0 | [] => -1 end.

Definition sequenceLength (bytes : list Z) : Z := 1.

Definition encoding : TextEncoding :=
  {| names := _names; query := queryConvert; seqlen := sequenceLength; to_bytes := convert_to |}.
End Windows1252.
