(* ===== verification/TextConv.v ===== *)
(** Text iteration and conversion (Foundation/src/TextIterator.cpp,
    TextConverter.cpp, UnicodeConverter.cpp, StreamConverter.cpp) over any
    encoding, and what an encoding must promise for them: the class [Lawful]. *)

From S2P Require Import Prelude Strings Encodings.

Open Scope st_scope.

Definition zlen {A} (l : list A) : Z := Z.of_nat (length l).
Definition ztake {A} (n : Z) (l : list A) : list A := take (Z.to_nat n) l.
Definition zdrop {A} (n : Z) (l : list A) : list A := drop (Z.to_nat n) l.

(** ** TextIterator *)

Module Iterator.
Section Iterator.
Variable E : TextEncoding.

(** The reading loops of the operators: [n] is what [f] ([queryConvert] or
    [sequenceLength]) gave for the first [read] bytes of [rest], the string from
    the iterator on.  Bytes are copied to a buffer of six. *)
Fixpoint fill (fuel : nat) (f : list Z -> Z) (rest : list Z) (n read : Z) : res (Z * Z) :=
  if (n <? -1) && (- n - read <=? zlen rest - read) then
    match fuel with
    | O => UB                                      (* the loop does not end *)
    | S k =>
        let read := Z.max read (Z.min (- n) (zlen rest)) in
        if read >? MAX_SEQUENCE_LENGTH then UB     (* outside the buffer *)
        else fill k f rest (f (ztake read rest)) read
    end
  else Done (n, read).

Definition FUEL : nat := 7.

(** [operator *] and [operator ++], at [rest]. *)
Definition deref (rest : list Z) : res Z :=
  match rest with
  | [] => Raise AssertionViolationException
  | _ =>
      let? nr := fill FUEL (query E) rest (query E (ztake 1 rest)) 1 in
      let (n, _) := nr in
      Done (if n <? -1 then -1 else n)
  end%res.

Definition next (rest : list Z) : res (list Z) :=
  match rest with
  | [] => Raise AssertionViolationException
  | _ =>
      let? nr := fill FUEL (seqlen E) rest (seqlen E (ztake 1 rest)) 1 in
      let (n, read) := nr in
      Done (zdrop (Z.max read n) rest)
  end%res.
End Iterator.
End Iterator.

(** ** TextConverter *)

Module Converter.
Record TextConverter := {
  _inEncoding : TextEncoding;
  _outEncoding : TextEncoding;
  _defaultChar : Z
}.

Section Converter.
Variable C : TextConverter.
Variable trans : Z -> Z.       (* the Transform *)

(** Encode a character, or the default character when there is no sequence for it. *)
Definition emit (c : Z) : res (list Z) :=
  let (n, buffer) := to_bytes (_outEncoding C) c MAX_SEQUENCE_LENGTH in
  let (n, buffer) := if n =? 0 then to_bytes (_outEncoding C) (_defaultChar C) MAX_SEQUENCE_LENGTH
                     else (n, buffer) in
  if n <=? MAX_SEQUENCE_LENGTH then Done (ztake n buffer) else Raise AssertionViolationException.

(** [convert(const std::string& source, ...)]: errors and destination. *)
Fixpoint convert_loop (fuel : nat) (it : list Z) (errors : Z) (destination : list Z)
    : res (Z * list Z) :=
  match it with
  | [] => Done (errors, destination)
  | _ =>
      match fuel with
      | O => UB
      | S f =>
          let? c := Iterator.deref (_inEncoding C) it in
          let errors := if c =? -1 then errors + 1 else errors in
          let c := if c =? -1 then _defaultChar C else c in
          let? bytes := emit (trans c) in
          let? it := Iterator.next (_inEncoding C) it in
          convert_loop f it errors (destination ++ bytes)
      end
  end%res.

Definition convert (source destination : list Z) : res (Z * list Z) :=
  convert_loop (length source) source 0 destination.

(** The inner loop of [convert(const void* source, int length, ...)]. *)
Fixpoint query_loop (fuel : nat) (it : list Z) (n read : Z) : res (Z * Z) :=
  if (-1 >? n) && (zlen it >=? - n) then
    match fuel with
    | O => UB
    | S f => query_loop f it (query (_inEncoding C) (ztake (- n) it)) (- n)
    end
  else Done (n, read).

Fixpoint convert_bytes_loop (fuel : nat) (it : list Z) (errors : Z) (destination : list Z)
    : res (Z * list Z) :=
  match it with
  | [] => Done (errors, destination)
  | _ =>
      match fuel with
      | O => UB
      | S f =>
          let? nr := query_loop (length it) it (query (_inEncoding C) (ztake 1 it)) 1 in
          let (n, read) := nr in
          let it := if -1 >? n then [] else zdrop read it in
          let uc := if -1 >=? n then _defaultChar C else n in
          let errors := if -1 >=? n then errors + 1 else errors in
          let? bytes := emit (trans uc) in
          convert_bytes_loop f it errors (destination ++ bytes)
      end
  end%res.

Definition convert_bytes (source destination : list Z) : res (Z * list Z) :=
  convert_bytes_loop (length source) source 0 destination.
End Converter.
End Converter.

(** ** UnicodeConverter

    A UTF-16 or UTF-32 string is the list of its units. *)
Module Unicode.
(** [while (it != end) { int cc = *it++; ... }] over a UTF-8 string; [unit]
    gives the units that are appended for a character. *)
Fixpoint loop (unit : Z -> list Z) (fuel : nat) (it : list Z) (out : list Z) : res (list Z) :=
  match it with
  | [] => Done out
  | _ =>
      match fuel with
      | O => UB
      | S f =>
          let? cc := Iterator.deref UTF8.encoding it in
          let? it := Iterator.next UTF8.encoding it in
          loop unit f it (out ++ unit cc)
      end
  end%res.

Definition to_utf32 (utf8String : list Z) : res (list Z) :=
  loop (fun cc => [u32 cc]) (length utf8String) utf8String [].

Definition utf16_units (cc : Z) : list Z :=
  if cc <=? 0xffff then [u16 cc]
  else
    let cc := cc - 0x10000 in
    [Z.lor (u16 (Z.land (Z.shiftr cc 10) 0x3ff)) 0xd800; Z.lor (u16 (Z.land cc 0x3ff)) 0xdc00].

Definition to_utf16 (utf8String : list Z) : res (list Z) :=
  loop utf16_units (length utf8String) utf8String [].

(** The memory of a string of units. *)
Definition bytes16 (s : list Z) : list Z := concat (map UTF16.store16 s).
Definition bytes32 (s : list Z) : list Z := concat (map UTF32.store32 s).

Definition converter (E : TextEncoding) : Converter.TextConverter :=
  {| Converter._inEncoding := E; Converter._outEncoding := UTF8.encoding;
     Converter._defaultChar := chr "?" |}.

Definition of_utf16 (utf16String : list Z) : res (list Z) :=
  rbind (Converter.convert_bytes (converter (UTF16.encoding false)) (fun c => c) (bytes16 utf16String) [])
    (fun r => Done (snd r)).

Definition of_utf32 (utf32String : list Z) : res (list Z) :=
  rbind (Converter.convert_bytes (converter (UTF32.encoding false)) (fun c => c) (bytes32 utf32String) [])
    (fun r => Done (snd r)).
End Unicode.

(** ** What the converters rely on *)

(** Asking about more and more of the bytes [bs] of a character ends with the
    answer [v] for all of them: [k] bytes were looked at so far. *)
Inductive answers (f : list Z -> Z) (bs : list Z) (v : Z) : nat -> Prop :=
| answers_done : f bs = v -> answers f bs v (length bs)
| answers_more k k' :
    (k < k' <= length bs)%nat -> f (take k bs) = - Z.of_nat k' -> (1 < k')%nat ->
    answers f bs v k' -> answers f bs v k.

Class Lawful (E : TextEncoding) (valid : Z -> Prop) := {
  (** the sequence of a character *)
  enc : Z -> list Z;
  enc_length ch : valid ch -> (1 <= length (enc ch) <= 6)%nat;
  enc_bytes ch : valid ch -> Forall is_byte (enc ch);
  valid_nonneg ch : valid ch -> 0 <= ch;
  (** [convert(ch, ...)] writes it *)
  law_to_bytes ch : valid ch -> to_bytes E ch MAX_SEQUENCE_LENGTH = (zlen (enc ch), enc ch);
  (** reading at it gives the character, and the iterator knows how long it is;
      the answers depend on the bytes asked about only *)
  law_query ch : valid ch -> answers (query E) (enc ch) ch 1;
  law_seqlen ch : valid ch ->
    exists k, (1 <= k <= length (enc ch))%nat /\ seqlen E (take k (enc ch)) = zlen (enc ch) /\
      (k = 1%nat \/ (k = 2%nat /\ seqlen E (take 1 (enc ch)) = -2))
}.
Arguments enc E {valid _} ch.

(** ** Clients of a lawful encoding *)

Lemma ztake_app {A} (bs rest : list A) k :
  (k <= length bs)%nat -> ztake (Z.of_nat k) (bs ++ rest) = take k bs.
Proof. intros Hk. unfold ztake. rewrite Nat2Z.id. by rewrite take_app_le. Qed.

Lemma zdrop_app {A} (bs rest : list A) : zdrop (zlen bs) (bs ++ rest) = rest.
Proof. unfold zdrop, zlen. by rewrite Nat2Z.id, drop_app_length. Qed.

Section Client.
Context (E : TextEncoding) (valid : Z -> Prop) {L : Lawful E valid}.

Lemma fill_answers f bs v k rest fuel :
  answers f bs v k -> 0 <= v -> (k <= length bs <= 6)%nat -> (length bs - k < fuel)%nat ->
  Iterator.fill fuel f (bs ++ rest) (f (take k bs)) (Z.of_nat k) = Done (v, zlen bs).
Proof.
  intros Ha Hv. revert fuel. induction Ha as [Hf|k k' Hk Hf Hk1 Ha IH]; intros fuel Hb Hfu.
  - rewrite firstn_all, Hf. destruct fuel; cbn [Iterator.fill];
      by rewrite (proj2 (Z.ltb_ge v (-1))) by lia.
  - rewrite Hf. destruct fuel as [|fuel]; [lia|]. cbn [Iterator.fill].
    assert (zlen (bs ++ rest) = Z.of_nat (length bs) + zlen rest) as Hl
      by (unfold zlen; rewrite length_app; lia).
    assert (0 <= zlen rest) by (unfold zlen; lia).
    rewrite Hl. rewrite (proj2 (Z.ltb_lt _ _)), (proj2 (Z.leb_le _ _)) by lia. cbn [andb].
    replace (Z.max _ _) with (Z.of_nat k') by lia.
    unfold MAX_SEQUENCE_LENGTH. rewrite Z.gtb_ltb, (proj2 (Z.ltb_ge 6 _)) by lia.
    rewrite ztake_app by lia. apply IH; lia.
Qed.

Lemma deref_enc ch rest : valid ch -> Iterator.deref E (enc E ch ++ rest) = Done ch.
Proof.
  intros Hv. pose proof (enc_length ch Hv) as Hl. pose proof (valid_nonneg ch Hv) as Hn.
  unfold Iterator.deref. destruct (enc E ch ++ rest) as [|c r] eqn:Ec; [destruct (enc E ch); [simpl in *; lia|done]|].
  rewrite <-Ec. change 1 with (Z.of_nat 1) at 1 2. rewrite ztake_app by lia.
  rewrite (fill_answers (query E) (enc E ch) ch 1); [|by apply law_query|done|lia|unfold Iterator.FUEL; lia].
  cbn [rbind]. by rewrite (proj2 (Z.ltb_ge ch (-1))) by lia.
Qed.

Lemma next_enc ch rest : valid ch -> Iterator.next E (enc E ch ++ rest) = Done rest.
Proof.
  intros Hv. pose proof (enc_length ch Hv) as Hl.
  unfold Iterator.next. destruct (enc E ch ++ rest) as [|c r] eqn:Ec; [destruct (enc E ch); [simpl in *; lia|done]|].
  rewrite <-Ec. change 1 with (Z.of_nat 1) at 1. rewrite ztake_app by lia.
  assert (zlen (enc E ch ++ rest) = zlen (enc E ch) + zlen rest) as Hlen
    by (unfold zlen; rewrite length_app; lia).
  assert (0 <= zlen rest) by (unfold zlen; lia).
  assert (forall n read, 1 <= n -> read <= n -> n = zlen (enc E ch) ->
    (let? nr := Done (n, read) in let (n, read) := nr in Done (zdrop (Z.max read n) (enc E ch ++ rest)))%res
      = Done rest) as Hdone.
  { intros n read H1 H2 ->. cbn [rbind]. rewrite Z.max_r by lia. by rewrite zdrop_app. }
  destruct (law_seqlen ch Hv) as (k & Hk & Hs & [-> | [-> H2]]).
  - rewrite Hs. unfold Iterator.FUEL. cbn [Iterator.fill].
    rewrite (proj2 (Z.ltb_ge _ (-1))) by (unfold zlen; lia). cbn [andb]. apply Hdone; unfold zlen in *; lia.
  - rewrite H2. unfold Iterator.FUEL. cbn [Iterator.fill].
    change (-2 <? -1) with true. rewrite (proj2 (Z.leb_le _ _)) by (unfold zlen in *; lia). cbn [andb].
    replace (Z.max 1 _) with (Z.of_nat 2) by (unfold zlen in *; lia).
    change (Z.of_nat 2 >? MAX_SEQUENCE_LENGTH) with false. cbv iota.
    rewrite ztake_app by lia. rewrite Hs. cbn [Iterator.fill].
    rewrite (proj2 (Z.ltb_ge _ (-1))) by (unfold zlen; lia). cbn [andb]. apply Hdone; unfold zlen in *; lia.
Qed.

(** The bytes of a text. *)
Definition text (cs : list Z) : list Z := concat (map (enc E) cs).

Lemma text_length cs : Forall valid cs -> (length cs <= length (text cs))%nat.
Proof.
  induction 1 as [|c cs Hc Hcs IH]; [done|]. unfold text in *. cbn [map concat length].
  rewrite length_app. pose proof (enc_length c Hc). lia.
Qed.

Lemma query_loop_enc C ch rest fuel :
  Converter._inEncoding C = E -> valid ch -> (length (enc E ch) <= fuel)%nat ->
  Converter.query_loop C fuel (enc E ch ++ rest) (query E (ztake 1 (enc E ch ++ rest))) 1 =
    Done (ch, zlen (enc E ch)).
Proof.
  intros HC Hv Hf. pose proof (enc_length ch Hv) as Hl. pose proof (valid_nonneg ch Hv) as Hn.
  change 1 with (Z.of_nat 1) at 1 2. rewrite ztake_app by lia.
  assert (length (enc E ch) - 1 < fuel)%nat as Hf' by lia. clear Hf.
  pose proof (law_query ch Hv) as Ha. revert fuel Hf'.
  assert (1 <= length (enc E ch))%nat as Hk by lia. revert Hk.
  induction Ha as [Hq|k k' Hk Hq Hk1 Ha IH]; intros Hk0 fuel Hfu.
  - rewrite firstn_all, Hq. destruct fuel; cbn [Converter.query_loop];
      by rewrite Z.gtb_ltb, (proj2 (Z.ltb_ge ch (-1))) by lia.
  - rewrite Hq. destruct fuel as [|fuel]; [lia|]. cbn [Converter.query_loop].
    assert (zlen (enc E ch ++ rest) = Z.of_nat (length (enc E ch)) + zlen rest) as Hlen
      by (unfold zlen; rewrite length_app; lia).
    assert (0 <= zlen rest) by (unfold zlen; lia).
    rewrite Hlen, Z.gtb_ltb, Z.geb_leb, (proj2 (Z.ltb_lt _ _)), (proj2 (Z.leb_le _ _)) by lia.
    cbn [andb]. rewrite Z.opp_involutive, HC, ztake_app by lia. apply IH; lia.
Qed.
End Client.
Arguments text E {valid L} cs.

(** Conversion between two lawful encodings. *)
Section Convert.
Context (A B : TextEncoding) (va vb : Z -> Prop) {LA : Lawful A va} {LB : Lawful B vb}.
Variables (defaultChar : Z) (trans : Z -> Z).

Let C : Converter.TextConverter :=
  {| Converter._inEncoding := A; Converter._outEncoding := B; Converter._defaultChar := defaultChar |}.

Lemma emit_enc ch : vb ch -> Converter.emit C ch = Done (enc B ch).
Proof.
  intros Hv. unfold Converter.emit. cbn [Converter._outEncoding C]. rewrite law_to_bytes by done.
  pose proof (enc_length ch Hv) as Hl. unfold zlen, MAX_SEQUENCE_LENGTH.
  rewrite (proj2 (Z.eqb_neq _ 0)), (proj2 (Z.leb_le _ 6)) by lia.
  unfold ztake. by rewrite Nat2Z.id, firstn_all.
Qed.

Lemma convert_text cs destination :
  Forall va cs -> Forall vb (map trans cs) ->
  Converter.convert C trans (text A cs) destination = Done (0, destination ++ text B (map trans cs)).
Proof.
  intros Ha Hb. unfold Converter.convert.
  pose proof (text_length A va cs Ha) as Hlen. revert Hlen. generalize (length (text A cs)) as fuel.
  revert destination. induction Ha as [|c cs Hc Hcs IH]; intros dst fuel Hf.
  - destruct fuel; cbn; by rewrite app_nil_r.
  - inversion Hb as [|? ? Hvc Hvcs]; subst. pose proof (enc_length (E := A) c Hc) as Hl.
    unfold text. cbn [map concat]. fold (text A cs).
    destruct fuel as [|fuel]; [simpl in Hf; lia|].
    destruct (enc A c ++ text A cs) as [|x r] eqn:Ex; [destruct (enc A c); [simpl in Hl; lia|done]|].
    cbn [Converter.convert_loop]. cbn [Converter._inEncoding C]. rewrite <-Ex.
    rewrite (deref_enc A va), (next_enc A va) by done. cbn [rbind].
    pose proof (valid_nonneg c Hc). rewrite (proj2 (Z.eqb_neq c (-1))) by lia.
    rewrite emit_enc by done. cbn [rbind]. rewrite IH by (done || (simpl in Hf; lia)).
    unfold text. cbn [map concat]. by rewrite <-app_assoc.
Qed.

Lemma convert_bytes_text cs destination :
  Forall va cs -> Forall vb (map trans cs) ->
  Converter.convert_bytes C trans (text A cs) destination = Done (0, destination ++ text B (map trans cs)).
Proof.
  intros Ha Hb. unfold Converter.convert_bytes.
  pose proof (text_length A va cs Ha) as Hlen. revert Hlen. generalize (length (text A cs)) as fuel.
  revert destination. induction Ha as [|c cs Hc Hcs IH]; intros dst fuel Hf.
  - destruct fuel; cbn; by rewrite app_nil_r.
  - inversion Hb as [|? ? Hvc Hvcs]; subst. pose proof (enc_length (E := A) c Hc) as Hl.
    unfold text. cbn [map concat]. fold (text A cs).
    destruct fuel as [|fuel]; [simpl in Hf; lia|].
    destruct (enc A c ++ text A cs) as [|x r] eqn:Ex; [destruct (enc A c); [simpl in Hl; lia|done]|].
    cbn [Converter.convert_bytes_loop]. cbn [Converter._inEncoding C]. rewrite <-Ex.
    rewrite (query_loop_enc A va C) by (done || (rewrite length_app; lia)). cbn [rbind].
    pose proof (valid_nonneg c Hc).
    rewrite Z.gtb_ltb, Z.geb_leb, (proj2 (Z.ltb_ge c (-1))), (proj2 (Z.leb_gt c (-1))) by lia.
    rewrite emit_enc by done. cbn [rbind]. rewrite zdrop_app.
    rewrite IH by (done || (simpl in Hf; lia)).
    unfold text. cbn [map concat]. by rewrite <-app_assoc.
Qed.
End Convert.

(** An encoding with one byte per character is lawful when every character it
    has a byte for is read back from that byte. *)
Definition single_byte (E : TextEncoding) (valid : Z -> Prop) : Prop :=
  forall ch, valid ch ->
    0 <= ch /\ exists b, is_byte b /\ to_bytes E ch MAX_SEQUENCE_LENGTH = (1, [b]) /\
      query E [b] = ch /\ seqlen E [b] = 1.

Program Definition single_byte_lawful E valid (H : single_byte E valid) : Lawful E valid :=
  {| enc ch := snd (to_bytes E ch MAX_SEQUENCE_LENGTH) |}.
Next Obligation. intros E valid H ch Hv. destruct (H ch Hv) as (_ & b & _ & -> & _). simpl. lia. Qed.
Next Obligation. intros E valid H ch Hv. destruct (H ch Hv) as (_ & b & Hb & -> & _). by constructor. Qed.
Next Obligation. intros E valid H ch Hv. by destruct (H ch Hv). Qed.
Next Obligation. intros E valid H ch Hv. by destruct (H ch Hv) as (_ & b & _ & -> & _). Qed.
Next Obligation.
  intros E valid H ch Hv. destruct (H ch Hv) as (_ & b & _ & -> & Hq & _).
  exact (answers_done (query E) [b] ch Hq).
Qed.
Next Obligation.
  intros E valid H ch Hv. destruct (H ch Hv) as (_ & b & _ & -> & _ & Hs). exists 1%nat.
  split; [simpl; lia|]. split; [exact Hs|by left].
Qed.
