(* ===== verification/EncodingFacts.v ===== *)
(** The encodings are lawful ([Lawful] of TextConv): every Unicode scalar value
    is read back from its UTF-8, UTF-16 and UTF-32 sequences, every character of
    a single-byte code page from its byte; what follows for the converters. *)

From S2P Require Import Prelude Strings Encodings TextConv.

(** A Unicode scalar value. *)
Definition scalar (ch : Z) : Prop := 0 <= ch <= 0x10FFFF /\ ~ (0xD800 <= ch <= 0xDFFF).

Lemma lor_tag a tag hi k : 0 <= k -> tag = hi * 2 ^ k -> 0 <= a < 2 ^ k -> Z.lor a tag = tag + a.
Proof.
  intros Hk -> Ha. rewrite Z.lor_comm, <-Z.shiftl_mul_pow2 by done.
  rewrite lor_shiftl_add by done. by rewrite Z.shiftl_mul_pow2.
Qed.

(** ** UTF-8 *)

Lemma utf8_charMap b :
  is_byte b ->
  nth (Z.to_nat b) UTF8._charMap 0 =
    (if b <? 128 then b else if b <? 192 then -1 else if b <? 224 then -2 else if b <? 240 then -3
     else if b <? 248 then -4 else if b <? 252 then -5 else if b <? 254 then -6 else -1).
Proof.
  intros Hb. apply Z.eqb_eq.
  apply (allbelow_spec 256 (fun b => nth (Z.to_nat b) UTF8._charMap 0 =?
    (if b <? 128 then b else if b <? 192 then -1 else if b <? 224 then -2 else if b <? 240 then -3
     else if b <? 248 then -4 else if b <? 252 then -5 else if b <? 254 then -6 else -1)));
    [vm_compute; reflexivity|exact Hb].
Qed.

(** One more byte of a sequence. *)
Lemma utf8_add uc b : Z.lor (Z.shiftl uc 6) (Z.land b 0x3F) = uc * 64 + b mod 64.
Proof. rewrite (land_mask b 6) by done. by rewrite lor_shiftl_add by lia. Qed.

Ltac decide_tests :=
  repeat match goal with
  | |- context [if ?c then _ else _] =>
      first [replace c with true by lia | replace c with false by lia]; cbv iota
  end.

Lemma utf8_query1 b rest : 0 <= b < 128 -> UTF8.queryConvert (b :: rest) = b.
Proof.
  intros Hb. unfold UTF8.queryConvert. rewrite utf8_charMap by (unfold is_byte; lia). decide_tests. done.
Qed.

Lemma utf8_query_short b rest k :
  is_byte b -> (k = 2 /\ 192 <= b < 224 \/ k = 3 /\ 224 <= b < 240 \/ k = 4 /\ 240 <= b < 248) ->
  Z.of_nat (length (b :: rest)) < k -> UTF8.queryConvert (b :: rest) = - k.
Proof.
  intros Hb Hk Hl. unfold UTF8.queryConvert. rewrite utf8_charMap by done.
  destruct Hk as [[-> Hk]|[[-> Hk]|[-> Hk]]]; decide_tests; done.
Qed.

Lemma utf8_query2 b0 b1 :
  192 <= b0 < 224 -> is_byte b1 ->
  UTF8.queryConvert [b0; b1] =
    if UTF8.isLegal [b0; b1] then (b0 mod 32) * 64 + b1 mod 64 else -1.
Proof.
  intros H0 H1. unfold UTF8.queryConvert. rewrite utf8_charMap by (unfold is_byte; lia). decide_tests.
  change (Z.to_nat (- -2)) with 2%nat. change (Z.to_nat (- -2 - 1)) with 1%nat. cbn [length take].
  change (- -2 >? Z.of_nat 2) with false.
  change ((-2 =? -6) || (-2 =? -5) || (-2 =? -1)) with false.
  change ((-2 =? -4) || (-2 =? -3) || (-2 =? -2)) with true. cbv iota.
  destruct (UTF8.isLegal [b0; b1]); [|done]. cbn [negb foldl].
  change (Z.lor (Z.shiftl 7 (-2 + 4)) 3) with 31. rewrite (land_mask b0 5), utf8_add by done. done.
Qed.

Lemma utf8_query3 b0 b1 b2 :
  224 <= b0 < 240 -> is_byte b1 -> is_byte b2 ->
  UTF8.queryConvert [b0; b1; b2] =
    if UTF8.isLegal [b0; b1; b2] then ((b0 mod 16) * 64 + b1 mod 64) * 64 + b2 mod 64 else -1.
Proof.
  intros H0 H1 H2. unfold UTF8.queryConvert. rewrite utf8_charMap by (unfold is_byte; lia). decide_tests.
  change (Z.to_nat (- -3)) with 3%nat. change (Z.to_nat (- -3 - 1)) with 2%nat. cbn [length take].
  change (- -3 >? Z.of_nat 3) with false.
  change ((-3 =? -6) || (-3 =? -5) || (-3 =? -1)) with false.
  change ((-3 =? -4) || (-3 =? -3) || (-3 =? -2)) with true. cbv iota.
  destruct (UTF8.isLegal [b0; b1; b2]); [|done]. cbn [negb foldl].
  change (Z.lor (Z.shiftl 7 (-3 + 4)) 3) with 15. rewrite (land_mask b0 4), !utf8_add by done. done.
Qed.

Lemma utf8_query4 b0 b1 b2 b3 :
  240 <= b0 < 248 -> is_byte b1 -> is_byte b2 -> is_byte b3 ->
  UTF8.queryConvert [b0; b1; b2; b3] =
    if UTF8.isLegal [b0; b1; b2; b3]
    then (((b0 mod 8) * 64 + b1 mod 64) * 64 + b2 mod 64) * 64 + b3 mod 64 else -1.
Proof.
  intros H0 H1 H2 H3. unfold UTF8.queryConvert. rewrite utf8_charMap by (unfold is_byte; lia). decide_tests.
  change (Z.to_nat (- -4)) with 4%nat. change (Z.to_nat (- -4 - 1)) with 3%nat. cbn [length take].
  change (- -4 >? Z.of_nat 4) with false.
  change ((-4 =? -6) || (-4 =? -5) || (-4 =? -1)) with false.
  change ((-4 =? -4) || (-4 =? -3) || (-4 =? -2)) with true. cbv iota.
  destruct (UTF8.isLegal [b0; b1; b2; b3]); [|done]. cbn [negb foldl].
  change (Z.lor (Z.shiftl 7 (-4 + 4)) 3) with 7. rewrite (land_mask b0 3), !utf8_add by done. done.
Qed.

(** The sequence of a character, by arithmetic. *)
Definition utf8_bytes (ch : Z) : list Z :=
  if ch <=? 0x7F then [ch]
  else if ch <=? 0x7FF then [192 + ch / 64; 128 + ch mod 64]
  else if ch <=? 0xFFFF then [224 + ch / 4096; 128 + ch / 64 mod 64; 128 + ch mod 64]
  else [240 + ch / 262144; 128 + ch / 4096 mod 64; 128 + ch / 64 mod 64; 128 + ch mod 64].

Lemma utf8_tag x k m tag hi :
  0 <= k <= 6 -> m = 2 ^ k - 1 -> tag = hi * 2 ^ k -> 0 <= tag -> tag + 2 ^ k <= 256 ->
  u8 (Z.lor (Z.land x m) tag) = tag + x mod 2 ^ k.
Proof.
  intros Hk Hm Ht H0 H1. assert (0 < 2 ^ k) by (apply Z.pow_pos_nonneg; lia).
  pose proof (Z.mod_pos_bound x (2 ^ k) ltac:(lia)).
  rewrite (land_mask x k m) by (done || lia). rewrite (lor_tag _ tag hi k) by (done || lia).
  unfold u8. rewrite Z.mod_small by (change (2 ^ 8) with 256; lia). done.
Qed.

Lemma utf8_to_bytes ch :
  0 <= ch <= 0x10FFFF -> UTF8.convert_to ch 6 = (zlen (utf8_bytes ch), utf8_bytes ch).
Proof.
  intros Hch. unfold UTF8.convert_to, utf8_bytes.
  rewrite !Z.shiftr_div_pow2 by done.
  rewrite !(utf8_tag _ 6 0x3F 0x80 2), (utf8_tag _ 5 0x1F 0xC0 6), (utf8_tag _ 4 0x0F 0xE0 14),
    (utf8_tag _ 3 0x07 0xF0 30) by (done || lia).
  change (2 ^ 6) with 64. change (2 ^ 12) with 4096. change (2 ^ 18) with 262144.
  change (2 ^ 5) with 32. change (2 ^ 4) with 16. change (2 ^ 3) with 8.
  destruct (ch <=? 127) eqn:E1; [unfold zlen, u8; simpl; by rewrite Z.mod_small by lia|].
  destruct (ch <=? 2047) eqn:E2; [unfold zlen; simpl; repeat f_equal; lia|].
  destruct (ch <=? 65535) eqn:E3; [unfold zlen; simpl; repeat f_equal; lia|].
  replace (ch <=? 1114111) with true by lia. unfold zlen. simpl. repeat f_equal; lia.
Qed.

Lemma second_ok_spec first a :
  128 <= a <= 191 ->
  (first = 0xE0 -> 0xA0 <= a) -> (first = 0xED -> a <= 0x9F) -> (first = 0xF0 -> 0x90 <= a) ->
  (first = 0xF4 -> a <= 0x8F) -> UTF8.second_ok first a = true.
Proof. intros. unfold UTF8.second_ok. repeat case_match; lia. Qed.

Lemma utf8_legal ch : scalar ch -> 0x7F < ch -> UTF8.isLegal (utf8_bytes ch) = true.
Proof.
  intros [Hch Hsur] Hlow. unfold utf8_bytes.
  replace (ch <=? 127) with false by lia.
  destruct (ch <=? 2047) eqn:E2; [|destruct (ch <=? 65535) eqn:E3];
    unfold UTF8.isLegal, UTF8.trail_ok, UTF8.first_ok;
    rewrite second_ok_spec by lia; lia.
Qed.

Lemma utf8_bytes_bytes ch : scalar ch -> Forall is_byte (utf8_bytes ch).
Proof. intros [Hch _]. unfold utf8_bytes, is_byte. repeat case_match; repeat constructor; lia. Qed.

Lemma utf8_query ch : scalar ch -> answers UTF8.queryConvert (utf8_bytes ch) ch 1.
Proof.
  intros Hs. pose proof Hs as [Hch Hsur]. pose proof (utf8_legal ch Hs) as Hleg.
  unfold utf8_bytes in *. destruct (ch <=? 127) eqn:E1.
  { apply (answers_done UTF8.queryConvert [ch] ch). apply utf8_query1. lia. }
  assert (0x7F < ch) as Hlow by lia. specialize (Hleg Hlow).
  destruct (ch <=? 2047) eqn:E2; [|destruct (ch <=? 65535) eqn:E3].
  - apply (answers_more _ _ _ 1 2); [simpl; lia|apply utf8_query_short; unfold is_byte; simpl; lia|lia|].
    refine (answers_done UTF8.queryConvert [_; _] ch _).
    rewrite utf8_query2, Hleg by (unfold is_byte; lia). lia.
  - apply (answers_more _ _ _ 1 3); [simpl; lia|apply utf8_query_short; unfold is_byte; simpl; lia|lia|].
    refine (answers_done UTF8.queryConvert [_; _; _] ch _).
    rewrite utf8_query3, Hleg by (unfold is_byte; lia). lia.
  - apply (answers_more _ _ _ 1 4); [simpl; lia|apply utf8_query_short; unfold is_byte; simpl; lia|lia|].
    refine (answers_done UTF8.queryConvert [_; _; _; _] ch _).
    rewrite utf8_query4, Hleg by (unfold is_byte; lia). lia.
Qed.

Lemma utf8_seqlen ch : scalar ch -> UTF8.sequenceLength (take 1 (utf8_bytes ch)) = zlen (utf8_bytes ch).
Proof.
  intros [Hch _]. unfold utf8_bytes. repeat case_match; cbn [take UTF8.sequenceLength];
    rewrite utf8_charMap by (unfold is_byte; lia); decide_tests; unfold zlen; simpl; lia.
Qed.

Lemma utf8_bytes_length ch : (1 <= length (utf8_bytes ch) <= 6)%nat.
Proof. unfold utf8_bytes. repeat case_match; simpl; lia. Qed.

Global Instance utf8_lawful : Lawful UTF8.encoding scalar.
Proof.
  refine {| enc := utf8_bytes |}; cbn [to_bytes query seqlen UTF8.encoding].
  - intros ch _. apply utf8_bytes_length.
  - apply utf8_bytes_bytes.
  - intros ch [H _]. lia.
  - intros ch [H _]. by apply utf8_to_bytes.
  - apply utf8_query.
  - intros ch Hs. exists 1%nat. pose proof (utf8_bytes_length ch). split; [lia|].
    split; [by apply utf8_seqlen|by left].
Defined.

(** A sequence that is accepted is the sequence of its character: the decoder
    takes no overlong form and no surrogate, if the second byte is a
    continuation byte. *)
Lemma utf8_canonical b0 rest uc :
  Forall is_byte (b0 :: rest) -> UTF8.queryConvert (b0 :: rest) = uc -> 0 <= uc ->
  Z.of_nat (length (b0 :: rest)) = UTF8.sequenceLength [b0] ->
  match rest with b1 :: _ => 128 <= b1 | [] => True end ->
  scalar uc /\ utf8_bytes uc = b0 :: rest.
Proof.
  intros Hb Hq Hu Hl Hsec. apply Forall_cons_iff in Hb as [H0 Hr]. unfold UTF8.sequenceLength in Hl.
  pose proof (utf8_charMap b0 H0) as Hm. rewrite Hm in Hl.
  destruct (b0 <? 128) eqn:E0.
  { rewrite (proj2 (Z.leb_le 0 b0)) in Hl by (unfold is_byte in *; lia).
    destruct rest; [|simpl in Hl; lia]. rewrite utf8_query1 in Hq by (unfold is_byte in *; lia).
    subst uc. split; [unfold scalar; lia|]. unfold utf8_bytes. by rewrite (proj2 (Z.leb_le b0 0x7F)) by lia. }
  destruct (b0 <? 192) eqn:E1.
  { destruct rest; [|simpl in Hl; lia]. unfold UTF8.queryConvert in Hq. rewrite Hm in Hq. simpl in Hq. lia. }
  destruct (b0 <? 224) eqn:E2; [|destruct (b0 <? 240) eqn:E3; [|destruct (b0 <? 248) eqn:E4]].
  - destruct rest as [|b1 [|]]; simpl in Hl; try lia. inv_Forall.
    rewrite utf8_query2 in Hq by (unfold is_byte in *; lia).
    destruct (UTF8.isLegal [b0; b1]) eqn:Hleg; [|lia].
    unfold UTF8.isLegal, UTF8.second_ok, UTF8.first_ok in Hleg. unfold is_byte in *.
    revert Hleg. decide_tests. intros Hleg. split; [unfold scalar; lia|].
    unfold utf8_bytes. decide_tests. repeat f_equal; lia.
  - destruct rest as [|b1 [|b2 [|]]]; simpl in Hl; try lia. inv_Forall.
    rewrite utf8_query3 in Hq by (unfold is_byte in *; lia).
    destruct (UTF8.isLegal [b0; b1; b2]) eqn:Hleg; [|lia].
    unfold UTF8.isLegal, UTF8.second_ok, UTF8.trail_ok, UTF8.first_ok in Hleg. unfold is_byte in *.
    revert Hleg. repeat case_match; intros Hleg; (split; [unfold scalar; lia|]);
      unfold utf8_bytes; decide_tests; repeat f_equal; lia.
  - destruct rest as [|b1 [|b2 [|b3 [|]]]]; simpl in Hl; try lia. inv_Forall.
    rewrite utf8_query4 in Hq by (unfold is_byte in *; lia).
    destruct (UTF8.isLegal [b0; b1; b2; b3]) eqn:Hleg; [|lia].
    unfold UTF8.isLegal, UTF8.second_ok, UTF8.trail_ok, UTF8.first_ok in Hleg. unfold is_byte in *.
    revert Hleg. repeat case_match; intros Hleg; (split; [unfold scalar; lia|]);
      unfold utf8_bytes; decide_tests; repeat f_equal; lia.
  - exfalso. unfold UTF8.queryConvert in Hq. rewrite Hm in Hq. unfold is_byte in *.
    destruct (b0 <? 252), (b0 <? 254); cbn [Z.leb Z.compare Z.opp] in Hl; rewrite Hl in Hq; simpl in Hq; lia.
Qed.

(** ** UTF-16 and UTF-32 in the byte order of the machine *)

Definition utf16_bytes (ch : Z) : list Z :=
  if ch <=? 0xFFFF then UTF16.store16 ch
  else UTF16.store16 (0xD800 + (ch - 0x10000) / 1024) ++ UTF16.store16 (0xDC00 + ch mod 1024).

Lemma utf16_to_bytes ch :
  scalar ch -> UTF16.convert_to false ch 6 = (zlen (utf16_bytes ch), utf16_bytes ch).
Proof.
  intros [Hch _]. unfold UTF16.convert_to, utf16_bytes, u16.
  destruct (ch <=? 65535) eqn:E; [by rewrite Z.mod_small by lia|].
  change (4 <=? 6) with true. cbv iota zeta. rewrite Z.shiftr_div_pow2 by done.
  rewrite !(land_mask _ 10 0x3FF) by done.
  replace ((0xD800 + ((ch - 0x10000) / 2 ^ 10) mod 2 ^ 10) mod 2 ^ 16)
    with (0xD800 + (ch - 0x10000) / 1024) by lia.
  replace ((0xDC00 + (ch - 0x10000) mod 2 ^ 10) mod 2 ^ 16) with (0xDC00 + ch mod 1024) by lia.
  done.
Qed.

Lemma load_store16 w : 0 <= w < 65536 -> UTF16.load16 (w mod 256) (w / 256 mod 256) = w.
Proof. intros. unfold UTF16.load16. lia. Qed.

Lemma utf16_query ch : scalar ch -> answers UTF16.queryConvert (utf16_bytes ch) ch 1.
Proof.
  intros [Hch Hsur]. unfold utf16_bytes, UTF16.store16. cbn [app]. destruct (ch <=? 65535) eqn:E.
  - apply (answers_more _ _ _ 1 2); [simpl; lia|done|lia|].
    refine (answers_done UTF16.queryConvert [_; _] ch _). unfold UTF16.queryConvert.
    rewrite load_store16 by lia. by replace ((ch >=? 55296) && (ch <? 56320)) with false by lia.
  - set (w1 := 0xD800 + (ch - 0x10000) / 1024). set (w2 := 0xDC00 + ch mod 1024).
    assert (0xD800 <= w1 < 0xDC00) as Hw1 by (unfold w1; lia).
    assert (0xDC00 <= w2 < 0xE000) as Hw2 by (unfold w2; lia).
    apply (answers_more _ _ _ 1 2); [simpl; lia|done|lia|].
    apply (answers_more _ _ _ 2 4); [simpl; lia| |lia|].
    + cbn [take UTF16.queryConvert]. rewrite load_store16 by lia.
      by replace ((w1 >=? 55296) && (w1 <? 56320)) with true by lia.
    + refine (answers_done UTF16.queryConvert [_; _; _; _] ch _). unfold UTF16.queryConvert.
      rewrite !load_store16 by lia. replace ((w1 >=? 55296) && (w1 <? 56320)) with true by lia.
      replace ((w2 >=? 56320) && (w1 <? 57344)) with true by lia.
      rewrite !(land_mask _ 10 0x3FF), Z.shiftl_mul_pow2 by done. unfold w1, w2. lia.
Qed.

Global Instance utf16_lawful : Lawful (UTF16.encoding false) scalar.
Proof.
  refine {| enc := utf16_bytes |}; cbn [to_bytes query seqlen UTF16.encoding].
  - intros ch _. unfold utf16_bytes. case_match; simpl; lia.
  - intros ch [Hch _]. unfold utf16_bytes, UTF16.store16, is_byte.
    case_match; cbn [app]; repeat constructor; lia.
  - intros ch [H _]. lia.
  - apply utf16_to_bytes.
  - apply utf16_query.
  - intros ch [Hch Hsur]. exists 2%nat. unfold utf16_bytes, UTF16.store16. cbn [app].
    destruct (ch <=? 65535) eqn:E; (split; [simpl; lia|]); (split; [|by right]);
      cbn [take UTF16.sequenceLength]; rewrite load_store16 by lia; decide_tests; done.
Defined.

Lemma load_store32 w :
  0 <= w < 2 ^ 32 ->
  UTF32.load32 (w mod 256) (w / 256 mod 256) (w / 65536 mod 256) (w / 16777216 mod 256) = w.
Proof. intros. unfold UTF32.load32. lia. Qed.

Global Instance utf32_lawful : Lawful (UTF32.encoding false) scalar.
Proof.
  refine {| enc := UTF32.store32 |}; cbn [to_bytes query seqlen UTF32.encoding].
  - intros ch _. simpl. lia.
  - intros ch [Hch _]. unfold UTF32.store32, is_byte. repeat constructor; lia.
  - intros ch [H _]. lia.
  - intros ch [H _]. unfold UTF32.convert_to, u32. by rewrite Z.mod_small by lia.
  - intros ch [H _]. apply (answers_more _ _ _ 1 4); [simpl; lia|done|lia|].
    refine (answers_done UTF32.queryConvert [_; _; _; _] ch _). unfold UTF32.queryConvert.
    rewrite load_store32 by lia. apply s32_id. lia.
  - intros ch _. exists 1%nat. split; [simpl; lia|]. split; [done|by left].
Defined.

(** ** Single-byte encodings *)

(** The characters a code page has a byte for. *)
Definition in_page (charMap : list Z) (ch : Z) : Prop := exists b, is_byte b /\ nth (Z.to_nat b) charMap 0 = ch.

(** The check of a whole code page. *)
Definition page_check (E : TextEncoding) (charMap : list Z) : bool :=
  allbelow 256 (fun b =>
    let ch := nth (Z.to_nat b) charMap 0 in
    (0 <=? ch) && bool_decide (to_bytes E ch MAX_SEQUENCE_LENGTH = (1, [b])) && (query E [b] =? ch) &&
    (seqlen E [b] =? 1)).

Lemma page_lawful E charMap : page_check E charMap = true -> single_byte E (in_page charMap).
Proof.
  intros Hc ch (b & Hb & <-). unfold page_check in Hc.
  pose proof (allbelow_spec _ _ Hc b Hb) as H. cbv beta zeta in H.
  apply andb_true_iff in H as [H H4%Z.eqb_eq]. apply andb_true_iff in H as [H H3%Z.eqb_eq].
  apply andb_true_iff in H as [H1%Z.leb_le H2%bool_decide_eq_true]. split; [done|]. by exists b.
Qed.

Global Instance latin1_lawful : Lawful Latin1.encoding (in_page Latin1._charMap) :=
  single_byte_lawful _ _ (page_lawful Latin1.encoding Latin1._charMap eq_refl).
Global Instance latin9_lawful : Lawful Latin9.encoding (in_page Latin9._charMap) :=
  single_byte_lawful _ _ (page_lawful Latin9.encoding Latin9._charMap eq_refl).
Global Instance windows1252_lawful : Lawful Windows1252.encoding (in_page Windows1252._charMap) :=
  single_byte_lawful _ _ (page_lawful Windows1252.encoding Windows1252._charMap eq_refl).

Lemma ascii_single : single_byte ASCII.encoding (fun ch => 0 <= ch < 128).
Proof.
  intros ch Hch. split; [lia|]. exists ch. split; [unfold is_byte; lia|].
  pose proof (allbelow_spec 128 (fun b =>
    bool_decide (ASCII.convert_to b MAX_SEQUENCE_LENGTH = (1, [b])) && (ASCII.queryConvert [b] =? b))
    eq_refl ch Hch) as H.
  apply andb_true_iff in H as [H1%bool_decide_eq_true H2%Z.eqb_eq]. done.
Qed.

Global Instance ascii_lawful : Lawful ASCII.encoding (fun ch => 0 <= ch < 128) :=
  single_byte_lawful _ _ ascii_single.

(** ** UnicodeConverter *)

Lemma unicode_loop unit cs fuel out :
  Forall scalar cs -> (length cs <= fuel)%nat ->
  Unicode.loop unit fuel (text UTF8.encoding cs) out = Done (out ++ concat (map unit cs)).
Proof.
  intros Hcs. revert fuel out. induction Hcs as [|c cs Hc Hcs IH]; intros fuel out Hf.
  - destruct fuel; cbn; by rewrite app_nil_r.
  - destruct fuel as [|fuel]; [simpl in Hf; lia|]. unfold text. cbn [map concat].
    fold (text UTF8.encoding cs). pose proof (enc_length (E := UTF8.encoding) c Hc) as Hl.
    destruct (enc UTF8.encoding c ++ text UTF8.encoding cs) as [|x r] eqn:Ex;
      [destruct (enc UTF8.encoding c); [simpl in Hl; lia|done]|].
    cbn [Unicode.loop]. rewrite <-Ex.
    rewrite (deref_enc UTF8.encoding scalar), (next_enc UTF8.encoding scalar) by done. cbn [rbind].
    rewrite IH by (simpl in Hf; lia). by rewrite <-app_assoc.
Qed.

Lemma utf16_units_bytes c : scalar c -> Unicode.bytes16 (Unicode.utf16_units c) = utf16_bytes c.
Proof.
  intros [Hc _]. unfold Unicode.utf16_units, Unicode.bytes16, utf16_bytes, u16.
  destruct (c <=? 65535) eqn:E; cbn [map concat].
  - by rewrite app_nil_r, Z.mod_small by lia.
  - rewrite Z.shiftr_div_pow2, !(land_mask _ 10 0x3ff) by done.
    rewrite (lor_tag _ 0xd800 54 10), (lor_tag _ 0xdc00 55 10) by (done || lia).
    rewrite app_nil_r. f_equal; f_equal; lia.
Qed.

Lemma bytes16_units cs :
  Forall scalar cs ->
  Unicode.bytes16 (concat (map Unicode.utf16_units cs)) = text (UTF16.encoding false) cs.
Proof.
  induction 1 as [|c cs Hc Hcs IH]; [done|]. cbn [map concat].
  unfold Unicode.bytes16 in *. rewrite map_app, concat_app, IH.
  change (concat (map UTF16.store16 (Unicode.utf16_units c))) with (Unicode.bytes16 (Unicode.utf16_units c)).
  by rewrite utf16_units_bytes.
Qed.

Lemma bytes32_units cs :
  Forall scalar cs ->
  Unicode.bytes32 (concat (map (fun c => [u32 c]) cs)) = text (UTF32.encoding false) cs.
Proof.
  induction 1 as [|c cs [Hc _] Hcs IH]; [done|]. cbn [map concat app].
  unfold Unicode.bytes32 in *. cbn [map concat]. rewrite IH. unfold u32.
  by rewrite Z.mod_small by lia.
Qed.

Lemma utf32_query_take n b0 b1 b2 b3 rest :
  4 <= n -> UTF32.queryConvert (ztake n ([b0; b1; b2; b3] ++ rest)) = s32 (UTF32.load32 b0 b1 b2 b3).
Proof.
  intros Hn. unfold ztake. destruct (Z.to_nat n) as [|[|[|[|k]]]] eqn:E; [lia..|]. done.
Qed.

(** ** Theorems *)



(** UTF-8: every Unicode scalar value has a sequence of one to four bytes
    from which it is read back; every shorter non-empty prefix asks for the
    whole sequence. *)
Theorem utf8_scalar_roundtrip ch :
  scalar ch ->
  exists bs, UTF8.convert_to ch MAX_SEQUENCE_LENGTH = (zlen bs, bs) /\
    (1 <= length bs <= 4)%nat /\ Forall is_byte bs /\ UTF8.queryConvert bs = ch /\
    UTF8.sequenceLength (take 1 bs) = zlen bs /\
    forall k, (1 <= k < length bs)%nat -> UTF8.queryConvert (take k bs) = - zlen bs.
Proof.
  intros Hs. pose proof Hs as [Hch Hsur]. exists (utf8_bytes ch).
  pose proof (utf8_legal ch Hs) as Hleg.
  split; [by apply utf8_to_bytes|]. split; [unfold utf8_bytes; repeat case_match; simpl; lia|].
  split; [by apply utf8_bytes_bytes|].
  assert (UTF8.queryConvert (utf8_bytes ch) = ch /\
    forall k, (1 <= k < length (utf8_bytes ch))%nat ->
      UTF8.queryConvert (take k (utf8_bytes ch)) = - zlen (utf8_bytes ch)) as [H1 H2];
    [|split_and!; [done|by apply utf8_seqlen|done]].
  unfold utf8_bytes in *. destruct (ch <=? 127) eqn:E1.
  { split; [apply utf8_query1; lia|simpl; lia]. }
  assert (0x7F < ch) as Hlow by lia. specialize (Hleg Hlow).
  destruct (ch <=? 2047) eqn:E2; [|destruct (ch <=? 65535) eqn:E3]; split.
  - rewrite utf8_query2, Hleg by (unfold is_byte; lia). lia.
  - intros [|[|k]] Hk; simpl in Hk; try lia. apply utf8_query_short; unfold zlen, is_byte; simpl; lia.
  - rewrite utf8_query3, Hleg by (unfold is_byte; lia). lia.
  - intros [|[|[|k]]] Hk; simpl in Hk; try lia; apply utf8_query_short; unfold zlen, is_byte; simpl; lia.
  - rewrite utf8_query4, Hleg by (unfold is_byte; lia). lia.
  - intros [|[|[|[|k]]]] Hk; simpl in Hk; try lia; apply utf8_query_short; unfold zlen, is_byte; simpl; lia.
Qed.

Lemma utf8_scalar_roundtrip_witness :
  exists bs, UTF8.convert_to 0x1F600 MAX_SEQUENCE_LENGTH = (zlen bs, bs) /\ UTF8.queryConvert bs = 0x1F600.
Proof.
  destruct (utf8_scalar_roundtrip 0x1F600) as (bs & H1 & _ & _ & H2 & _); [split; lia|]. by exists bs.
Defined.

(** A sequence the UTF-8 decoder accepts is the one the encoder writes for
    the character, so overlong forms, surrogates and values above U+10FFFF are
    rejected, provided the second byte is a continuation byte; without that
    condition the statement fails (an ASCII byte after 0xED or 0xF4 is taken for
    a continuation byte). *)
Theorem utf8_decode_canonical b0 rest uc :
  Forall is_byte (b0 :: rest) -> UTF8.queryConvert (b0 :: rest) = uc -> 0 <= uc ->
  Z.of_nat (length (b0 :: rest)) = UTF8.sequenceLength [b0] ->
  match rest with b1 :: _ => 128 <= b1 | [] => True end ->
  scalar uc /\ UTF8.convert_to uc MAX_SEQUENCE_LENGTH = (zlen (b0 :: rest), b0 :: rest).
Proof.
  intros Hb Hq Hu Hl Hs. destruct (utf8_canonical b0 rest uc Hb Hq Hu Hl Hs) as [Hsc <-].
  split; [done|]. apply utf8_to_bytes. apply Hsc.
Qed.

Lemma utf8_decode_canonical_witness :
  scalar 0x20AC /\ UTF8.convert_to 0x20AC MAX_SEQUENCE_LENGTH = (3, [0xE2; 0x82; 0xAC]).
Proof.
  apply (utf8_decode_canonical 0xE2 [0x82; 0xAC] 0x20AC); try reflexivity; try lia.
  repeat constructor; lia.
Defined.

(** The second-byte check of [isLegal] has no lower bound after 0xED and
    0xF4: every byte below 0x80 is taken for a continuation byte there, so that
    malformed sequences decode, among them to surrogates and to values above
    U+10FFFF. *)
Theorem utf8_accepts_malformed a b c :
  0 <= a < 128 -> 128 <= b < 192 -> 128 <= c < 192 ->
  UTF8.queryConvert [0xED; a; b] = 0xD000 + (a mod 64) * 64 + (b - 128) /\
  UTF8.queryConvert [0xF4; a; b; c] = 0x100000 + (a mod 64) * 4096 + (b - 128) * 64 + (c - 128).
Proof.
  intros Ha Hb Hc. split.
  - rewrite utf8_query3 by (unfold is_byte; lia).
    replace (UTF8.isLegal [0xED; a; b]) with true; [lia|].
    unfold UTF8.isLegal, UTF8.second_ok, UTF8.trail_ok, UTF8.first_ok. simpl. lia.
  - rewrite utf8_query4 by (unfold is_byte; lia).
    replace (UTF8.isLegal [0xF4; a; b; c]) with true; [lia|].
    unfold UTF8.isLegal, UTF8.second_ok, UTF8.trail_ok, UTF8.first_ok. simpl. lia.
Qed.

Lemma utf8_accepts_malformed_witness :
  UTF8.queryConvert [0xED; 0x20; 0x80] = 0xD800 /\ UTF8.queryConvert [0xF4; 0x3F; 0x80; 0x80] = 0x13F000.
Proof. split; [apply (utf8_accepts_malformed 0x20 0x80 0x80); lia|apply (utf8_accepts_malformed 0x3F 0x80 0x80); lia]. Defined.

(** UnicodeConverter: text goes from UTF-8 to UTF-16 and to UTF-32 and comes
    back unchanged. *)
Theorem unicode_converter_roundtrip cs :
  Forall scalar cs ->
  exists u16 u32, Unicode.to_utf16 (text UTF8.encoding cs) = Done u16 /\
    Unicode.of_utf16 u16 = Done (text UTF8.encoding cs) /\
    Unicode.to_utf32 (text UTF8.encoding cs) = Done u32 /\
    Unicode.of_utf32 u32 = Done (text UTF8.encoding cs).
Proof.
  intros Hcs. exists (concat (map Unicode.utf16_units cs)), (concat (map (fun c => [u32 c]) cs)).
  unfold Unicode.to_utf16, Unicode.to_utf32, Unicode.of_utf16, Unicode.of_utf32.
  rewrite !unicode_loop by (done || by apply (text_length UTF8.encoding scalar)).
  rewrite bytes16_units, bytes32_units by done. unfold Unicode.converter.
  rewrite (convert_bytes_text (UTF16.encoding false) UTF8.encoding scalar scalar),
    (convert_bytes_text (UTF32.encoding false) UTF8.encoding scalar scalar) by (by rewrite ?map_id).
  by rewrite map_id.
Qed.

Lemma unicode_converter_roundtrip_witness :
  exists u16 u32, Unicode.to_utf16 (text UTF8.encoding [0x48; 0x1F600]) = Done u16 /\
    Unicode.of_utf16 u16 = Done (text UTF8.encoding [0x48; 0x1F600]) /\
    Unicode.to_utf32 (text UTF8.encoding [0x48; 0x1F600]) = Done u32 /\
    Unicode.of_utf32 u32 = Done (text UTF8.encoding [0x48; 0x1F600]).
Proof. apply (unicode_converter_roundtrip [0x48; 0x1F600]). repeat constructor; lia. Defined.

(** The byte order of UTF-16 text is honoured in writing only: the sequence
    that a flipped encoding writes for a character of the basic plane is read
    back by the same encoding as the character with the two bytes exchanged,
    because the result of [ByteOrder::flipBytes] is dropped. *)
Theorem flipped_byte_order_lost ch :
  0 <= ch < 65536 -> ~ (0xD8 <= ch mod 256 < 0xDC) ->
  exists bs, to_bytes (UTF16.encoding true) ch MAX_SEQUENCE_LENGTH = (2, bs) /\
    query (UTF16.encoding true) bs = ch mod 256 * 256 + ch / 256.
Proof.
  intros Hch Hs. assert (flipBytes16 ch = ch mod 256 * 256 + ch / 256) as Hf.
  { unfold flipBytes16. rewrite Z.shiftr_div_pow2 by done. rewrite (land_mask _ 8 0xFF) by done.
    replace (Z.land (Z.shiftl ch 8) 0xFF00) with (Z.shiftl (ch mod 256) 8).
    - rewrite Z.lor_comm, lor_shiftl_add by lia. unfold u16. lia.
    - change 0xFF00 with (Z.shiftl 0xFF 8). rewrite <-Z.shiftl_land. by rewrite (land_mask ch 8 0xFF). }
  exists (UTF16.store16 (flipBytes16 ch)). cbn [to_bytes query UTF16.encoding].
  unfold UTF16.convert_to, u16. rewrite (proj2 (Z.leb_le ch 0xFFFF)) by lia.
  rewrite Z.mod_small by lia. split; [done|]. rewrite Hf. unfold UTF16.store16, UTF16.queryConvert.
  rewrite load_store16 by lia. decide_tests. done.
Qed.

Lemma flipped_byte_order_lost_witness :
  exists bs, to_bytes (UTF16.encoding true) 0x41 MAX_SEQUENCE_LENGTH = (2, bs) /\
    query (UTF16.encoding true) bs = 0x4100.
Proof. apply (flipped_byte_order_lost 0x41); lia. Defined.

(** A UTF-32 unit with the top bit set is returned as a negative number, which
    means a request for more bytes: after the unit 0xFFFFFFFA the reading loop of
    the converter asks for six bytes for ever, whatever the fuel, on every text
    that has them; the iterator hangs on it in the same way. *)
Theorem utf32_negative_diverges fuel rest C :
  Converter._inEncoding C = UTF32.encoding false -> 6 <= 4 + zlen rest ->
  Converter.query_loop C fuel ([0xFA; 0xFF; 0xFF; 0xFF] ++ rest)
    (query (Converter._inEncoding C) [0xFA; 0xFF; 0xFF; 0xFF]) 1 = UB /\
  Iterator.deref (UTF32.encoding false) ([0xFA; 0xFF; 0xFF; 0xFF] ++ rest) = UB.
Proof.
  intros HC Hlen. rewrite HC. assert (Hz : zlen ([0xFA; 0xFF; 0xFF; 0xFF] ++ rest) = 4 + zlen rest).
  { unfold zlen. rewrite length_app. simpl length. lia. }
  split.
  - assert (forall read, Converter.query_loop C fuel ([0xFA; 0xFF; 0xFF; 0xFF] ++ rest) (-6) read = UB)
      as H; [|apply H].
    induction fuel as [|f IH]; intros read; cbn [Converter.query_loop];
      rewrite Z.gtb_ltb, Z.geb_leb, (proj2 (Z.ltb_lt _ _)), (proj2 (Z.leb_le _ _)) by lia;
      cbn [andb]; [done|].
    rewrite HC. cbn [query UTF32.encoding]. rewrite utf32_query_take by lia. apply IH.
  - assert (forall f, Iterator.fill f (query (UTF32.encoding false)) ([0xFA; 0xFF; 0xFF; 0xFF] ++ rest) (-6) 6
              = UB) as H6.
    { induction f as [|f IH]; cbn [Iterator.fill];
        rewrite (proj2 (Z.ltb_lt _ _)), (proj2 (Z.leb_le _ _)) by lia; cbn [andb]; [done|].
      replace (Z.max 6 _) with 6 by lia. change (6 >? MAX_SEQUENCE_LENGTH) with false. cbv iota.
      cbn [query UTF32.encoding]. rewrite utf32_query_take by lia. apply IH. }
    unfold Iterator.deref. cbn [app] in *. unfold Iterator.FUEL. cbn [Iterator.fill].
    change (query (UTF32.encoding false) (ztake 1 (250 :: 255 :: 255 :: 255 :: rest))) with (-4).
    rewrite (proj2 (Z.ltb_lt (-4) _)), (proj2 (Z.leb_le (- -4 - 1) _)) by lia. cbn [andb].
    replace (Z.max 1 _) with 4 by lia. change (4 >? MAX_SEQUENCE_LENGTH) with false. cbv iota.
    change (query (UTF32.encoding false) (ztake 4 (250 :: 255 :: 255 :: 255 :: rest))) with (-6).
    rewrite (proj2 (Z.ltb_lt (-6) _)), (proj2 (Z.leb_le (- -6 - 4) _)) by lia. cbn [andb].
    replace (Z.max 4 _) with 6 by lia. change (6 >? MAX_SEQUENCE_LENGTH) with false. cbv iota.
    pose proof (utf32_query_take 6 250 255 255 255 rest ltac:(lia)) as Hq. cbn [app] in Hq.
    change (query (UTF32.encoding false)) with UTF32.queryConvert in *. rewrite Hq.
    change (s32 (UTF32.load32 250 255 255 255)) with (-6).
    pose proof (H6 5%nat) as H. cbn [Iterator.fill] in H. by rewrite H.
Qed.

Lemma utf32_negative_diverges_witness :
  Iterator.deref (UTF32.encoding false) ([0xFA; 0xFF; 0xFF; 0xFF] ++ [0x41; 0; 0; 0]) = UB.
Proof.
  apply (utf32_negative_diverges 3 [0x41; 0; 0; 0] (Unicode.converter (UTF32.encoding false)));
    [reflexivity|unfold zlen; simpl; lia].
Defined.

(** Three code pages decode their whole upper half but encode only the
    characters whose code is the byte itself: for every byte of Windows-1250,
    Windows-1251 and Latin-2, encoding the decoded character gives the byte back
    exactly when the two are equal, and fails otherwise (no Cyrillic letter can
    be encoded). *)
Theorem code_pages_not_invertible b :
  is_byte b ->
  Forall (fun E => to_bytes E (query E [b]) MAX_SEQUENCE_LENGTH =
                     if query E [b] =? b then (1, [b]) else (0, []))
    [Windows1250.encoding; Windows1251.encoding; Latin2.encoding].
Proof.
  intros Hb. pose (ok E b := bool_decide (to_bytes E (query E [b]) MAX_SEQUENCE_LENGTH =
                     if query E [b] =? b then (1, [b]) else (0, []))).
  assert (forall E, allbelow 256 (ok E) = true ->
            to_bytes E (query E [b]) MAX_SEQUENCE_LENGTH = if query E [b] =? b then (1, [b]) else (0, [])) as H.
  { intros E HE. pose proof (allbelow_spec 256 (ok E) HE b Hb) as H. by apply bool_decide_eq_true in H. }
  repeat constructor; apply H; vm_compute; reflexivity.
Qed.

Lemma code_pages_not_invertible_witness :
  Forall (fun E => to_bytes E (query E [0xC8]) MAX_SEQUENCE_LENGTH =
                     if query E [0xC8] =? 0xC8 then (1, [0xC8]) else (0, []))
    [Windows1250.encoding; Windows1251.encoding; Latin2.encoding].
Proof. apply (code_pages_not_invertible 0xC8). unfold is_byte. lia. Defined.
