(* ===== verification/Digest.v ===== *)
(** Message digests: MD4Engine.cpp, MD5Engine.cpp, SHA1Engine.cpp,
    DigestEngine.cpp and HMACEngine.h.

    [DigestEngine] is the interface as a record of operations; [HMAC] is
    parametrised by one.  MD4 and MD5 share the text of everything but the
    block transformation, which [MD] takes as an argument.  The rounds that
    the macros unroll are lists of steps on the registers [A] to [D], in the
    order of the source. *)

From S2P Require Import Prelude.

Open Scope st_scope.

(** ** Bytes, words and memory *)

(** [std::memcpy(&dst[i], src, n)] of the [n] bytes [src]: undefined outside. *)
Definition blit (dst : list Z) (i : nat) (src : list Z) : res (list Z) :=
  if (i + length src <=? length dst)%nat
  then Done (take i dst ++ src ++ drop (i + length src) dst)
  else UB.

(** The [n] bytes from [&src[i]]. *)
Definition slice (src : list Z) (i n : nat) : res (list Z) :=
  if (i + n <=? length src)%nat then Done (take n (drop i src)) else UB.

(** Words of 32 bits as bytes, the low byte first. *)
Definition word_bytes (w : Z) : list Z :=
  [Z.land w 0xff; Z.land (Z.shiftr w 8) 0xff; Z.land (Z.shiftr w 16) 0xff; Z.land (Z.shiftr w 24) 0xff].

Definition encode (ws : list Z) : list Z := concat (map word_bytes ws).

Fixpoint decode (bs : list Z) : list Z :=
  match bs with
  | b0 :: b1 :: b2 :: b3 :: r =>
      Z.lor (Z.lor (Z.lor b0 (Z.shiftl b1 8)) (Z.shiftl b2 16)) (Z.shiftl b3 24) :: decode r
  | _ => []
  end.

Definition not32 (x : Z) : Z := 0xffffffff - x.
Definition rotate_left (x n : Z) : Z := Z.lor (u32 (Z.shiftl x n)) (Z.shiftr x (32 - n)).
Definition add32 (x y : Z) : Z := u32 (x + y).

(** ** The interface *)

(** [digest()] returns a reference to the member [_digest]: [result] reads
    what the reference denotes at the time it is used. *)
Record DigestEngine := {
  engine : Type;
  BLOCK_SIZE : nat;
  DIGEST_SIZE : nat;
  construct : res engine;
  reset : ST engine unit;
  update : list Z -> ST engine unit;
  digest : ST engine unit;
  result : engine -> list Z
}.

(** ** MD4 and MD5: everything but the transformation *)
Module MD.
Section Engine.
Context (transform : list Z -> list Z -> list Z).   (* state, block *)

Record Context_ := {
  state : list Z;        (* UInt32[4] *)
  count0 : Z;            (* count[2]: number of bits, low word first *)
  count1 : Z;
  buffer : list Z        (* unsigned char[64] *)
}.

Record MDEngine := { _context : Context_; _digest : list Z }.

Definition initial : Context_ :=
  {| state := [0x67452301; 0xefcdab89; 0x98badcfe; 0x10325476];
     count0 := 0; count1 := 0; buffer := replicate 64 0 |}.

Definition reset_ : ST MDEngine unit :=
  modify (fun e => {| _context := initial; _digest := _digest e |}).

Definition construct_ : res MDEngine := Done {| _context := initial; _digest := [] |}.

(** [for (i = partLen; i + 63 < inputLen; i += 64) transform(state, &input[i]);]
    with [unsigned int i]; [Eof] when the fuel runs out. *)
Fixpoint transform_loop (fuel : nat) (input : list Z) (i : Z) (st : list Z) : res (Z * list Z) :=
  match fuel with
  | O => Eof
  | S fuel =>
      if u32 (i + 63) <? Z.of_nat (length input) then
        (let? b := slice input (Z.to_nat i) 64 in
         transform_loop fuel input (u32 (i + 64)) (transform st b))%res
      else Done (i, st)
  end.

Definition updateImpl (input : list Z) : ST MDEngine unit :=
  let* e := get in
  let c := _context e in
  let inputLen := Z.of_nat (length input) in
  let index := Z.land (Z.shiftr (count0 c) 3) 0x3F in
  let bits := u32 (Z.shiftl (u32 inputLen) 3) in
  let c0 := add32 (count0 c) bits in
  let c1 := if c0 <? bits then add32 (count1 c) 1 else count1 c in
  let c1 := add32 c1 (Z.shiftr (u32 inputLen) 29) in
  let partLen := 64 - index in
  let* r :=
    (if partLen <=? inputLen then
       let* part := lift (slice input 0 (Z.to_nat partLen)) in
       let* buf := lift (blit (buffer c) (Z.to_nat index) part) in
       let* r := lift (transform_loop (S (length input)) input partLen (transform (state c) buf)) in
       ret (fst r, snd r, buf, 0)
     else ret (0, state c, buffer c, index)) in
  let '(i, st, buf, index) := r in
  let* rest := lift (slice input (Z.to_nat i) (Z.to_nat (inputLen - i))) in
  let* buf := lift (blit buf (Z.to_nat index) rest) in
  modify (fun e => {| _context := {| state := st; count0 := c0; count1 := c1; buffer := buf |};
                      _digest := _digest e |}).

Definition PADDING : list Z := 0x80 :: replicate 63 0.

Definition digest_ : ST MDEngine unit :=
  let* e := get in
  let bits := encode [count0 (_context e); count1 (_context e)] in
  let index := Z.land (Z.shiftr (count0 (_context e)) 3) 0x3f in
  let padLen := if index <? 56 then 56 - index else 120 - index in
  let* pad := lift (slice PADDING 0 (Z.to_nat padLen)) in
  do* updateImpl pad;
  do* updateImpl bits;
  let* e := get in
  let d := encode (state (_context e)) in
  do* modify (fun e => {| _context := _context e; _digest := d |});
  reset_.

Definition engine_ : DigestEngine :=
  {| engine := MDEngine; BLOCK_SIZE := 64; DIGEST_SIZE := 16; construct := construct_;
     reset := reset_; update := updateImpl; digest := digest_; result := _digest |}.
End Engine.

(** The registers of the transformations. *)
Inductive reg := A | B | C | D.

Record regs := { ra : Z; rb : Z; rc : Z; rd : Z }.

Definition rget (r : reg) (v : regs) : Z :=
  match r with A => ra v | B => rb v | C => rc v | D => rd v end.

Definition rset (r : reg) (x : Z) (v : regs) : regs :=
  match r with
  | A => {| ra := x; rb := rb v; rc := rc v; rd := rd v |}
  | B => {| ra := ra v; rb := x; rc := rc v; rd := rd v |}
  | C => {| ra := ra v; rb := rb v; rc := x; rd := rd v |}
  | D => {| ra := ra v; rb := rb v; rc := rc v; rd := x |}
  end.

(** [UInt32 a = state[0], b = state[1], ...] and [state[0] += a; ...] *)
Definition load (st : list Z) : regs :=
  {| ra := nth 0 st 0; rb := nth 1 st 0; rc := nth 2 st 0; rd := nth 3 st 0 |}.

Definition add_to (st : list Z) (v : regs) : list Z :=
  [add32 (nth 0 st 0) (ra v); add32 (nth 1 st 0) (rb v);
   add32 (nth 2 st 0) (rc v); add32 (nth 3 st 0) (rd v)].

Definition F (x y z : Z) : Z := Z.lor (Z.land x y) (Z.land (not32 x) z).
Definition H (x y z : Z) : Z := Z.lxor (Z.lxor x y) z.
End MD.

Module MD5.
Import MD.

Definition G (x y z : Z) : Z := Z.lor (Z.land x z) (Z.land y (not32 z)).
Definition I (x y z : Z) : Z := Z.lxor y (Z.lor x (not32 z)).

Definition S11 : Z := 7.
Definition S12 : Z := 12.
Definition S13 : Z := 17.
Definition S14 : Z := 22.
Definition S21 : Z := 5.
Definition S22 : Z := 9.
Definition S23 : Z := 14.
Definition S24 : Z := 20.
Definition S31 : Z := 4.
Definition S32 : Z := 11.
Definition S33 : Z := 16.
Definition S34 : Z := 23.
Definition S41 : Z := 6.
Definition S42 : Z := 10.
Definition S43 : Z := 15.
Definition S44 : Z := 21.

(** The macros FF, GG, HH and II. *)
Inductive macro := FF | GG | HH | II.

Definition fn (m : macro) : Z -> Z -> Z -> Z :=
  match m with FF => F | GG => G | HH => H | II => I end.

(** [(a) += f((b), (c), (d)) + (x) + ac; (a) = ROTATE_LEFT((a), (s)); (a) += (b);] *)
Definition apply_macro (x : list Z) (v : regs)
    (step : macro * reg * reg * reg * reg * nat * Z * Z) : regs :=
  let '(m, a, b, c, d, k, s, ac) := step in
  let v := rset a (add32 (rget a v)
                     (add32 (add32 (fn m (rget b v) (rget c v) (rget d v)) (nth k x 0)) ac)) v in
  let v := rset a (rotate_left (rget a v) s) v in
  rset a (add32 (rget a v) (rget b v)) v.

Definition steps : list (macro * reg * reg * reg * reg * nat * Z * Z) :=
  [(FF, A, B, C, D, 0%nat, S11, 0xd76aa478); (FF, D, A, B, C, 1%nat, S12, 0xe8c7b756);
   (FF, C, D, A, B, 2%nat, S13, 0x242070db); (FF, B, C, D, A, 3%nat, S14, 0xc1bdceee);
   (FF, A, B, C, D, 4%nat, S11, 0xf57c0faf); (FF, D, A, B, C, 5%nat, S12, 0x4787c62a);
   (FF, C, D, A, B, 6%nat, S13, 0xa8304613); (FF, B, C, D, A, 7%nat, S14, 0xfd469501);
   (FF, A, B, C, D, 8%nat, S11, 0x698098d8); (FF, D, A, B, C, 9%nat, S12, 0x8b44f7af);
   (FF, C, D, A, B, 10%nat, S13, 0xffff5bb1); (FF, B, C, D, A, 11%nat, S14, 0x895cd7be);
   (FF, A, B, C, D, 12%nat, S11, 0x6b901122); (FF, D, A, B, C, 13%nat, S12, 0xfd987193);
   (FF, C, D, A, B, 14%nat, S13, 0xa679438e); (FF, B, C, D, A, 15%nat, S14, 0x49b40821);
   (GG, A, B, C, D, 1%nat, S21, 0xf61e2562); (GG, D, A, B, C, 6%nat, S22, 0xc040b340);
   (GG, C, D, A, B, 11%nat, S23, 0x265e5a51); (GG, B, C, D, A, 0%nat, S24, 0xe9b6c7aa);
   (GG, A, B, C, D, 5%nat, S21, 0xd62f105d); (GG, D, A, B, C, 10%nat, S22, 0x2441453);
   (GG, C, D, A, B, 15%nat, S23, 0xd8a1e681); (GG, B, C, D, A, 4%nat, S24, 0xe7d3fbc8);
   (GG, A, B, C, D, 9%nat, S21, 0x21e1cde6); (GG, D, A, B, C, 14%nat, S22, 0xc33707d6);
   (GG, C, D, A, B, 3%nat, S23, 0xf4d50d87); (GG, B, C, D, A, 8%nat, S24, 0x455a14ed);
   (GG, A, B, C, D, 13%nat, S21, 0xa9e3e905); (GG, D, A, B, C, 2%nat, S22, 0xfcefa3f8);
   (GG, C, D, A, B, 7%nat, S23, 0x676f02d9); (GG, B, C, D, A, 12%nat, S24, 0x8d2a4c8a);
   (HH, A, B, C, D, 5%nat, S31, 0xfffa3942); (HH, D, A, B, C, 8%nat, S32, 0x8771f681);
   (HH, C, D, A, B, 11%nat, S33, 0x6d9d6122); (HH, B, C, D, A, 14%nat, S34, 0xfde5380c);
   (HH, A, B, C, D, 1%nat, S31, 0xa4beea44); (HH, D, A, B, C, 4%nat, S32, 0x4bdecfa9);
   (HH, C, D, A, B, 7%nat, S33, 0xf6bb4b60); (HH, B, C, D, A, 10%nat, S34, 0xbebfbc70);
   (HH, A, B, C, D, 13%nat, S31, 0x289b7ec6); (HH, D, A, B, C, 0%nat, S32, 0xeaa127fa);
   (HH, C, D, A, B, 3%nat, S33, 0xd4ef3085); (HH, B, C, D, A, 6%nat, S34, 0x4881d05);
   (HH, A, B, C, D, 9%nat, S31, 0xd9d4d039); (HH, D, A, B, C, 12%nat, S32, 0xe6db99e5);
   (HH, C, D, A, B, 15%nat, S33, 0x1fa27cf8); (HH, B, C, D, A, 2%nat, S34, 0xc4ac5665);
   (II, A, B, C, D, 0%nat, S41, 0xf4292244); (II, D, A, B, C, 7%nat, S42, 0x432aff97);
   (II, C, D, A, B, 14%nat, S43, 0xab9423a7); (II, B, C, D, A, 5%nat, S44, 0xfc93a039);
   (II, A, B, C, D, 12%nat, S41, 0x655b59c3); (II, D, A, B, C, 3%nat, S42, 0x8f0ccc92);
   (II, C, D, A, B, 10%nat, S43, 0xffeff47d); (II, B, C, D, A, 1%nat, S44, 0x85845dd1);
   (II, A, B, C, D, 8%nat, S41, 0x6fa87e4f); (II, D, A, B, C, 15%nat, S42, 0xfe2ce6e0);
   (II, C, D, A, B, 6%nat, S43, 0xa3014314); (II, B, C, D, A, 13%nat, S44, 0x4e0811a1);
   (II, A, B, C, D, 4%nat, S41, 0xf7537e82); (II, D, A, B, C, 11%nat, S42, 0xbd3af235);
   (II, C, D, A, B, 2%nat, S43, 0x2ad7d2bb); (II, B, C, D, A, 9%nat, S44, 0xeb86d391)].

Definition transform (st block : list Z) : list Z :=
  let x := decode block in
  add_to st (foldl (apply_macro x) (load st) steps).

Definition MD5Engine : DigestEngine := engine_ transform.
End MD5.

Module MD4.
Import MD.

Definition G (x y z : Z) : Z := Z.lor (Z.lor (Z.land x y) (Z.land x z)) (Z.land y z).

Definition S11 : Z := 3.
Definition S12 : Z := 7.
Definition S13 : Z := 11.
Definition S14 : Z := 19.
Definition S21 : Z := 3.
Definition S22 : Z := 5.
Definition S23 : Z := 9.
Definition S24 : Z := 13.
Definition S31 : Z := 3.
Definition S32 : Z := 9.
Definition S33 : Z := 11.
Definition S34 : Z := 15.

Inductive macro := FF | GG | HH.

Definition fn (m : macro) : Z -> Z -> Z -> Z :=
  match m with FF => F | GG => G | HH => H end.

(** The constant that the macro adds. *)
Definition constant (m : macro) : Z :=
  match m with FF => 0 | GG => 0x5a827999 | HH => 0x6ed9eba1 end.

(** [(a) += f((b), (c), (d)) + (x) + constant; (a) = ROTATE_LEFT((a), (s));] *)
Definition apply_macro (x : list Z) (v : regs)
    (step : macro * reg * reg * reg * reg * nat * Z) : regs :=
  let '(m, a, b, c, d, k, s) := step in
  let v := rset a (add32 (rget a v)
                     (add32 (add32 (fn m (rget b v) (rget c v) (rget d v)) (nth k x 0)) (constant m))) v in
  rset a (rotate_left (rget a v) s) v.

Definition steps : list (macro * reg * reg * reg * reg * nat * Z) :=
  [(FF, A, B, C, D, 0%nat, S11); (FF, D, A, B, C, 1%nat, S12); (FF, C, D, A, B, 2%nat, S13);
   (FF, B, C, D, A, 3%nat, S14); (FF, A, B, C, D, 4%nat, S11); (FF, D, A, B, C, 5%nat, S12);
   (FF, C, D, A, B, 6%nat, S13); (FF, B, C, D, A, 7%nat, S14); (FF, A, B, C, D, 8%nat, S11);
   (FF, D, A, B, C, 9%nat, S12); (FF, C, D, A, B, 10%nat, S13); (FF, B, C, D, A, 11%nat, S14);
   (FF, A, B, C, D, 12%nat, S11); (FF, D, A, B, C, 13%nat, S12); (FF, C, D, A, B, 14%nat, S13);
   (FF, B, C, D, A, 15%nat, S14); (GG, A, B, C, D, 0%nat, S21); (GG, D, A, B, C, 4%nat, S22);
   (GG, C, D, A, B, 8%nat, S23); (GG, B, C, D, A, 12%nat, S24); (GG, A, B, C, D, 1%nat, S21);
   (GG, D, A, B, C, 5%nat, S22); (GG, C, D, A, B, 9%nat, S23); (GG, B, C, D, A, 13%nat, S24);
   (GG, A, B, C, D, 2%nat, S21); (GG, D, A, B, C, 6%nat, S22); (GG, C, D, A, B, 10%nat, S23);
   (GG, B, C, D, A, 14%nat, S24); (GG, A, B, C, D, 3%nat, S21); (GG, D, A, B, C, 7%nat, S22);
   (GG, C, D, A, B, 11%nat, S23); (GG, B, C, D, A, 15%nat, S24); (HH, A, B, C, D, 0%nat, S31);
   (HH, D, A, B, C, 8%nat, S32); (HH, C, D, A, B, 4%nat, S33); (HH, B, C, D, A, 12%nat, S34);
   (HH, A, B, C, D, 2%nat, S31); (HH, D, A, B, C, 10%nat, S32); (HH, C, D, A, B, 6%nat, S33);
   (HH, B, C, D, A, 14%nat, S34); (HH, A, B, C, D, 1%nat, S31); (HH, D, A, B, C, 9%nat, S32);
   (HH, C, D, A, B, 5%nat, S33); (HH, B, C, D, A, 13%nat, S34); (HH, A, B, C, D, 3%nat, S31);
   (HH, D, A, B, C, 11%nat, S32); (HH, C, D, A, B, 7%nat, S33); (HH, B, C, D, A, 15%nat, S34)].

Definition transform (st block : list Z) : list Z :=
  let x := decode block in
  add_to st (foldl (apply_macro x) (load st) steps).

Definition updateImpl : list Z -> ST MDEngine unit := MD.updateImpl transform.
Definition digest_ : ST MDEngine unit := MD.digest_ transform.
Definition reset_ : ST MDEngine unit := MD.reset_.

Definition MD4Engine : DigestEngine :=
  {| engine := MDEngine; BLOCK_SIZE := 64; DIGEST_SIZE := 16; construct := MD.construct_;
     reset := reset_; update := updateImpl; digest := digest_; result := _digest |}.
End MD4.

(** ** SHA-1 *)
Module SHA1.

(** The message buffer [data] is the memory of [UInt32 data[16]], 64 bytes;
    its words are read and written low byte first (POCO_ARCH_LITTLE_ENDIAN). *)
Record Context_ := {
  digest_words : list Z;  (* UInt32 digest[5] *)
  countLo : Z;
  countHi : Z;
  data : list Z;
  slop : Z
}.

Record SHA1Engine_ := { _context : Context_; _digest : list Z }.

Definition with_context (f : Context_ -> Context_) : ST SHA1Engine_ unit :=
  modify (fun e => {| _context := f (_context e); _digest := _digest e |}).

Definition with_data (f : list Z -> list Z) : ST SHA1Engine_ unit :=
  with_context (fun c => {| digest_words := digest_words c; countLo := countLo c;
                            countHi := countHi c; data := f (data c); slop := slop c |}).

Definition with_slop (n : Z) : ST SHA1Engine_ unit :=
  with_context (fun c => {| digest_words := digest_words c; countLo := countLo c;
                            countHi := countHi c; data := data c; slop := n |}).

(** [std::memcpy] or [std::memset] into the buffer, at byte [i]. *)
Definition put_data (i : Z) (bs : list Z) : ST SHA1Engine_ unit :=
  let* e := get in
  let* d := lift (blit (data (_context e)) (Z.to_nat i) bs) in
  with_data (fun _ => d).

Definition reverse_word (w : Z) : Z :=
  let value := Z.lor (u32 (Z.shiftl w 16)) (Z.shiftr w 16) in
  Z.lor (Z.shiftr (Z.land value 0xFF00FF00) 8) (Z.shiftl (Z.land value 0x00FF00FF) 8).

Definition byteReverse (byteCount : nat) : ST SHA1Engine_ unit :=
  let n := (byteCount / 4)%nat in
  with_data (fun d => let ws := decode d in encode (map reverse_word (take n ws) ++ drop n ws)).

Definition f1 (x y z : Z) : Z := Z.lor (Z.land x y) (Z.land (not32 x) z).
Definition f2 (x y z : Z) : Z := Z.lxor (Z.lxor x y) z.
Definition f3 (x y z : Z) : Z := Z.lor (Z.lor (Z.land x y) (Z.land x z)) (Z.land y z).
Definition f4 (x y z : Z) : Z := Z.lxor (Z.lxor x y) z.

Definition K1 : Z := 0x5A827999.
Definition K2 : Z := 0x6ED9EBA1.
Definition K3 : Z := 0x8F1BBCDC.
Definition K4 : Z := 0xCA62C1D6.

(** [S(n, X)] *)
Definition rot (n x : Z) : Z := Z.lor (u32 (Z.shiftl x n)) (Z.shiftr x (32 - n)).

(** [expand(count)] writes [W[count]], the first word not yet written. *)
Definition expand (W : list Z) (count : nat) : list Z :=
  W ++ [rot 1 (Z.lxor (Z.lxor (Z.lxor (nth (count - 3) W 0) (nth (count - 8) W 0))
                              (nth (count - 14) W 0)) (nth (count - 16) W 0))].

Record vars := { vA : Z; vB : Z; vC : Z; vD : Z; vE : Z }.

(** [subRound1] to [subRound4]: the same text but for [f] and [K]. *)
Definition subRound (f : Z -> Z -> Z -> Z) (K : Z) (W : list Z) (v : vars) (count : nat) : vars :=
  let temp := u32 (rot 5 (vA v) + f (vB v) (vC v) (vD v) + vE v + nth count W 0 + K) in
  {| vA := temp; vB := vA v; vC := rot 30 (vB v); vD := vC v; vE := vD v |}.

Definition subRound1 := subRound f1 K1.
Definition subRound2 := subRound f2 K2.
Definition subRound3 := subRound f3 K3.
Definition subRound4 := subRound f4 K4.

Definition transform_words (ws hash : list Z) : list Z :=
  let W := foldl expand (take 16 ws) (seq 16 64) in
  let v := {| vA := nth 0 hash 0; vB := nth 1 hash 0; vC := nth 2 hash 0;
              vD := nth 3 hash 0; vE := nth 4 hash 0 |} in
  let v := foldl (subRound1 W) v (seq 0 20) in
  let v := foldl (subRound2 W) v (seq 20 20) in
  let v := foldl (subRound3 W) v (seq 40 20) in
  let v := foldl (subRound4 W) v (seq 60 20) in
  [add32 (nth 0 hash 0) (vA v); add32 (nth 1 hash 0) (vB v); add32 (nth 2 hash 0) (vC v);
   add32 (nth 3 hash 0) (vD v); add32 (nth 4 hash 0) (vE v)].

Definition transform : ST SHA1Engine_ unit :=
  with_context (fun c => {| digest_words := transform_words (decode (data c)) (digest_words c);
                            countLo := countLo c; countHi := countHi c;
                            data := data c; slop := slop c |}).

(** One turn of [while (count-- > 0)] *)
Definition update_byte (b : Z) : ST SHA1Engine_ unit :=
  let* e := get in
  do* put_data (slop (_context e)) [b];
  do* with_slop (u32 (slop (_context e) + 1));
  let* e := get in
  if slop (_context e) =? 64 then
    do* byteReverse 64;
    do* transform;
    with_slop 0
  else ret tt.

Fixpoint update_bytes (bs : list Z) : ST SHA1Engine_ unit :=
  match bs with
  | [] => ret tt
  | b :: r => do* update_byte b; update_bytes r
  end.

Definition updateImpl (buffer : list Z) : ST SHA1Engine_ unit :=
  let count := Z.of_nat (length buffer) in
  let bits := u32 (Z.shiftl (u32 count) 3) in
  do* with_context (fun c =>
    let hi := if add32 (countLo c) bits <? countLo c then add32 (countHi c) 1 else countHi c in
    {| digest_words := digest_words c; countLo := add32 (countLo c) bits;
       countHi := add32 hi (Z.shiftr (u32 count) 29); data := data c; slop := slop c |});
  update_bytes buffer.

Definition initial : Context_ :=
  {| digest_words := [0x67452301; 0xEFCDAB89; 0x98BADCFE; 0x10325476; 0xC3D2E1F0];
     countLo := 0; countHi := 0; data := replicate 64 0; slop := 0 |}.

Definition reset_ : ST SHA1Engine_ unit := with_context (fun _ => initial).

Definition construct_ : res SHA1Engine_ := Done {| _context := initial; _digest := [] |}.

(** [(BYTE) (digest[count>>2] >> (8*(3-(count & 0x3)))) & 0xff] *)
Definition hash_byte (hash : list Z) (count : nat) : Z :=
  Z.land (u8 (Z.shiftr (nth (Nat.shiftr count 2) hash 0)
                       (8 * (3 - Z.land (Z.of_nat count) 3)))) 0xff.

Definition digest_ : ST SHA1Engine_ unit :=
  let* e := get in
  let lowBitcount := countLo (_context e) in
  let highBitcount := countHi (_context e) in
  let count := Z.land (Z.shiftr (countLo (_context e)) 3) 0x3F in
  do* put_data count [0x80];
  let count := count + 1 in
  do* (if 56 <? count then
         do* put_data count (replicate (Z.to_nat (64 - count)) 0);
         do* byteReverse 64;
         do* transform;
         put_data 0 (replicate 56 0)
       else put_data count (replicate (Z.to_nat (56 - count)) 0));
  do* byteReverse 64;
  do* put_data 56 (word_bytes highBitcount);
  do* put_data 60 (word_bytes lowBitcount);
  do* transform;
  do* byteReverse 20;
  do* modify (fun e => {| _context := _context e;
                          _digest := map (hash_byte (digest_words (_context e))) (seq 0 20) |});
  reset_.

Definition SHA1Engine : DigestEngine :=
  {| engine := SHA1Engine_; BLOCK_SIZE := 64; DIGEST_SIZE := 20; construct := construct_;
     reset := reset_; update := updateImpl; digest := digest_; result := _digest |}.
End SHA1.

(** ** HMACEngine<Engine> *)
Module HMAC.
Section Engine.
Context (Engine : DigestEngine).

Record HMACEngine_ := { _engine : engine Engine; _ipad : list Z; _opad : list Z }.

(** A call of a member function of [_engine]. *)
Definition call {A} (f : ST (engine Engine) A) : ST HMACEngine_ A := fun h =>
  let '(r, e) := f (_engine h) in (r, {| _engine := e; _ipad := _ipad h; _opad := _opad h |}).

Definition reset_ : ST HMACEngine_ unit :=
  do* call (reset Engine);
  let* h := get in
  call (update Engine (_ipad h)).

(** [char db[DIGEST_SIZE]]: the copy fits and fills it only if the digest has that size. *)
Definition digest_ : ST HMACEngine_ unit :=
  do* call (digest Engine);
  let* h := get in
  let db := result Engine (_engine h) in
  do* (if (length db =? DIGEST_SIZE Engine)%nat then ret tt else undef);
  do* call (reset Engine);
  do* call (update Engine (_opad h));
  do* call (update Engine db);
  do* call (digest Engine);
  reset_.

Definition updateImpl (data : list Z) : ST HMACEngine_ unit := call (update Engine data).

Definition set_pads (i o : list Z) : ST HMACEngine_ unit :=
  modify (fun h => {| _engine := _engine h; _ipad := i; _opad := o |}).

(** The first half of [init]: the block both pads start from. *)
Definition load_key (passphrase : list Z) : ST HMACEngine_ (list Z) :=
  let zero := replicate (BLOCK_SIZE Engine) 0 in
  if (BLOCK_SIZE Engine <? length passphrase)%nat then
    do* call (reset Engine);
    do* call (update Engine passphrase);
    do* call (digest Engine);
    let* h := get in
    lift (blit zero 0 (take (BLOCK_SIZE Engine) (result Engine (_engine h))))
  else lift (blit zero 0 passphrase).

Definition init (passphrase : list Z) : ST HMACEngine_ unit :=
  let* pad := load_key passphrase in
  do* set_pads (map (Z.lxor 0x36) pad) (map (Z.lxor 0x5c) pad);
  reset_.

Definition construct_ (passphrase : list Z) : res HMACEngine_ :=
  (let? e := construct Engine in
   fst (bind (init passphrase) (fun _ => get) {| _engine := e; _ipad := []; _opad := [] |}))%res.

Definition HMACEngine (passphrase : list Z) : DigestEngine :=
  {| engine := HMACEngine_; BLOCK_SIZE := BLOCK_SIZE Engine; DIGEST_SIZE := DIGEST_SIZE Engine;
     construct := construct_ passphrase; reset := reset_; update := updateImpl;
     digest := digest_; result := fun h => result Engine (_engine h) |}.
End Engine.
End HMAC.

(** ** DigestEngine.cpp: digests as text *)
Definition digits : list Z := str "0123456789abcdef".

Fixpoint digestToHex (bytes : list Z) : list Z :=
  match bytes with
  | [] => []
  | c :: r => nth (Z.to_nat (Z.land (Z.shiftr c 4) 0xF)) digits 0
              :: nth (Z.to_nat (Z.land c 0xF)) digits 0 :: digestToHex r
  end.

(** The chain of comparisons that gives a hexadecimal digit its value. *)
Definition hex_value (c : Z) : res Z :=
  if (chr "0" <=? c) && (c <=? chr "9") then Done (c - chr "0")
  else if (chr "a" <=? c) && (c <=? chr "f") then Done (c - chr "a" + 10)
  else if (chr "A" <=? c) && (c <=? chr "F") then Done (c - chr "A" + 10)
  else Raise DataFormatException.

(** The loop of [digestFromHex]; past the end [digest[i]] is the character 0. *)
Fixpoint from_hex_loop (digest : list Z) : res (list Z) :=
  match digest with
  | [] => Done []
  | h :: r =>
      (let? c := hex_value h in
       match r with
       | [] => (let? l := hex_value 0 in Done [u8 (Z.shiftl c 4 + l)])
       | l :: r =>
           (let? l := hex_value l in
            let? rest := from_hex_loop r in
            Done (u8 (Z.shiftl c 4 + l) :: rest))
       end)%res
  end.

Definition digestFromHex (digest : list Z) : res (list Z) :=
  if negb (length digest mod 2 =? 0)%nat then Raise DataFormatException
  else from_hex_loop digest.

(** ** Known answers *)

(** Feed the chunks to a new engine and read the digest. *)
Fixpoint update_all (E : DigestEngine) (chunks : list (list Z)) : ST (engine E) unit :=
  match chunks with
  | [] => ret tt
  | d :: r => do* update E d; update_all E r
  end.

Definition digest_of (E : DigestEngine) (chunks : list (list Z)) : res (list Z) :=
  (let? e := construct E in
   fst (bind (update_all E chunks) (fun _ =>
        bind (digest E) (fun _ => bind get (fun e => ret (result E e)))) e))%res.

(** A session with one engine: the digests of several messages. *)
Fixpoint digests (E : DigestEngine) (messages : list (list (list Z))) : ST (engine E) (list (list Z)) :=
  match messages with
  | [] => ret []
  | chunks :: r =>
      do* update_all E chunks;
      do* digest E;
      let* e := get in
      let* ds := digests E r in
      ret (result E e :: ds)
  end.

Definition session (E : DigestEngine) (messages : list (list (list Z))) : res (list (list Z)) :=
  (let? e := construct E in fst (digests E messages e))%res.

Definition hex_of (r : res (list Z)) : option (list Z) :=
  match r with Done d => Some (digestToHex d) | _ => None end.

Example md5_abc : hex_of (digest_of MD5.MD5Engine [str "abc"]) = Some (str "900150983cd24fb0d6963f7d28e17f72").
Proof. vm_compute. reflexivity. Qed.

Example md4_abc : hex_of (digest_of MD4.MD4Engine [str "abc"]) = Some (str "a448017aaf21d8525fc10ae87aa6729d").
Proof. vm_compute. reflexivity. Qed.

Example sha1_two_blocks :
  hex_of (digest_of SHA1.SHA1Engine
            [str "abcdbcdecdefdefgefghfghighij"; str "hijkijkljklmklmnlmnomnopnopq"])
  = Some (str "84983e441c3bd26ebaae4aa1f95129e5e54670f1").
Proof. vm_compute. reflexivity. Qed.

Example hmac_md5_rfc2202 :
  hex_of (digest_of (HMAC.HMACEngine MD5.MD5Engine (str "Jefe")) [str "what do ya want for nothing?"])
  = Some (str "750c783e6ab0b503eaa86e310a5db738").
Proof. vm_compute. reflexivity. Qed.
