(* ===== verification/DigestSpec.v ===== *)
(** Reference definitions of the message digests, from the documents the
    engines name: RFC 1320 (MD4), RFC 1321 (MD5), FIPS 180-1 (SHA-1) and
    RFC 2104 (HMAC), over whole messages.

    [Iterated] is what the three hashes share: a message is padded to a
    multiple of 64 bytes and its blocks are folded with a compression
    function.  The compression functions are indexed by the number of the
    step: no unrolled rounds, no renamed registers, and for SHA-1 the
    recursive message schedule. *)

From S2P Require Import Prelude.

Local Open Scope Z_scope.

(** ** Words *)
Definition circular_left (x n : Z) : Z := Z.lor (Z.shiftl x n mod 2 ^ 32) (Z.shiftr x (32 - n)).
Definition complement (x : Z) : Z := 2 ^ 32 - 1 - x.
Definition plus (x y : Z) : Z := (x + y) mod 2 ^ 32.

Definition le_word (b0 b1 b2 b3 : Z) : Z := b0 + b1 * 2 ^ 8 + b2 * 2 ^ 16 + b3 * 2 ^ 24.

(** The words of a block, least or most significant byte first. *)
Fixpoint le_words (bs : list Z) : list Z :=
  match bs with
  | b0 :: b1 :: b2 :: b3 :: r => le_word b0 b1 b2 b3 :: le_words r
  | _ => []
  end.

Fixpoint be_words (bs : list Z) : list Z :=
  match bs with
  | b0 :: b1 :: b2 :: b3 :: r => le_word b3 b2 b1 b0 :: be_words r
  | _ => []
  end.

(** ** Iterated hash functions *)
Module Iterated.

(** The bytes that bring a message of [n] bytes to 56 modulo 64. *)
Definition padding (n : nat) : list Z := 0x80 :: replicate (Z.to_nat ((55 - Z.of_nat n) mod 64)) 0.

Fixpoint blocks (n : nat) (m : list Z) : list (list Z) :=
  match n with
  | O => []
  | S n => take 64 m :: blocks n (drop 64 m)
  end.

(** The number of full blocks, and what is left behind them. *)
Definition full (m : list Z) : nat := length m / 64.
Definition rest (m : list Z) : list Z := drop (64 * full m) m.

Section Hash.
Context (compress : list Z -> list Z -> list Z) (iv : list Z).
Context (bytes : nat -> Z -> list Z).   (* the byte order of the length *)

Definition absorb (m : list Z) : list Z := foldl compress iv (blocks (full m) m).

Definition padded (m : list Z) : list Z :=
  m ++ padding (length m) ++ bytes 8 (8 * Z.of_nat (length m) mod 2 ^ 64).

(** The length field keeps the low 64 bits of the length. *)
Definition hash (m : list Z) : list Z := concat (map (bytes 4) (absorb (padded m))).
End Hash.
End Iterated.

(** ** RFC 1321 *)
Module RFC1321.

Definition F x y z := Z.lor (Z.land x y) (Z.land (complement x) z).
Definition G x y z := Z.lor (Z.land x z) (Z.land y (complement z)).
Definition H x y z := Z.lxor (Z.lxor x y) z.
Definition I x y z := Z.lxor y (Z.lor x (complement z)).

(** [sin x] for an integer [x], in units of 2^-256: 120 terms of the power
    series, each rounded down.  For [x <= 64] the terms left out are below
    2^-100 and the roundings sum up to less. *)
Fixpoint sin_series (fuel : nat) (x n term sum : Z) : Z :=
  match fuel with
  | O => sum
  | S fuel => sin_series fuel x (n + 2) (- (term * x * x / ((n + 1) * (n + 2)))) (sum + term)
  end.

Definition sin_fixed (x : Z) : Z := sin_series 120 x 1 (x * 2 ^ 256) 0.

(** Entry [i + 1] of the table: the integer part of 4294967296 times |sin (i + 1)|. *)
Definition T (i : nat) : Z := Z.shiftr (Z.abs (sin_fixed (Z.of_nat i + 1))) 224.

Definition round_function (i : nat) : Z -> Z -> Z -> Z := nth (i / 16) [F; G; H; I] F.

Definition word_index (i : nat) : nat :=
  (nth (i / 16) [i; 5 * i + 1; 3 * i + 5; 7 * i] 0 mod 16)%nat.

Definition shift (i : nat) : Z :=
  nth (i mod 4) (nth (i / 16) [[7; 12; 17; 22]; [5; 9; 14; 20]; [4; 11; 16; 23]; [6; 10; 15; 21]] []) 0.

(** [a = b + ((a + f(b,c,d) + X[k] + T[i]) <<< s)], then the registers turn. *)
Definition step (X : list Z) (v : Z * Z * Z * Z) (i : nat) : Z * Z * Z * Z :=
  let '(a, b, c, d) := v in
  (d, plus b (circular_left ((a + round_function i b c d + nth (word_index i) X 0 + T i) mod 2 ^ 32)
                            (shift i)), b, c).

Definition compress (st block : list Z) : list Z :=
  let '(a, b, c, d) :=
    foldl (step (le_words block)) (nth 0 st 0, nth 1 st 0, nth 2 st 0, nth 3 st 0) (seq 0 64) in
  [plus (nth 0 st 0) a; plus (nth 1 st 0) b; plus (nth 2 st 0) c; plus (nth 3 st 0) d].

Definition iv : list Z := [0x67452301; 0xefcdab89; 0x98badcfe; 0x10325476].

Definition md5 : list Z -> list Z := Iterated.hash compress iv le_bytes.
End RFC1321.

(** ** RFC 1320 *)
Module RFC1320.

Definition F x y z := Z.lor (Z.land x y) (Z.land (complement x) z).
Definition G x y z := Z.lor (Z.lor (Z.land x y) (Z.land x z)) (Z.land y z).
Definition H x y z := Z.lxor (Z.lxor x y) z.

Definition round_function (i : nat) : Z -> Z -> Z -> Z := nth (i / 16) [F; G; H] F.

(** The root constants of rounds 2 and 3: the integer parts of 2^30 times
    the square roots of 2 and 3. *)
Definition root (i : nat) : Z := nth (i / 16) [0; Z.sqrt (2 * 2 ^ 60); Z.sqrt (3 * 2 ^ 60)] 0.

(** The four bits of a number, in the reverse order. *)
Definition reverse_bits (k : nat) : nat :=
  (8 * (k mod 2) + 4 * (k / 2 mod 2) + 2 * (k / 4 mod 2) + k / 8 mod 2)%nat.

Definition word_index (i : nat) : nat :=
  let j := (i mod 16)%nat in nth (i / 16) [j; 4 * (j mod 4) + j / 4; reverse_bits j]%nat 0%nat.

Definition shift (i : nat) : Z :=
  nth (i mod 4) (nth (i / 16) [[3; 7; 11; 19]; [3; 5; 9; 13]; [3; 9; 11; 15]] []) 0.

Definition step (X : list Z) (v : Z * Z * Z * Z) (i : nat) : Z * Z * Z * Z :=
  let '(a, b, c, d) := v in
  (d, circular_left ((a + round_function i b c d + nth (word_index i) X 0 + root i) mod 2 ^ 32)
                    (shift i), b, c).

Definition compress (st block : list Z) : list Z :=
  let '(a, b, c, d) :=
    foldl (step (le_words block)) (nth 0 st 0, nth 1 st 0, nth 2 st 0, nth 3 st 0) (seq 0 48) in
  [plus (nth 0 st 0) a; plus (nth 1 st 0) b; plus (nth 2 st 0) c; plus (nth 3 st 0) d].

Definition md4 : list Z -> list Z := Iterated.hash compress RFC1321.iv le_bytes.
End RFC1320.

(** ** FIPS 180-1 *)
Module FIPS180_1.

Definition f (t : nat) (b c d : Z) : Z :=
  if (t <? 20)%nat then Z.lor (Z.land b c) (Z.land (complement b) d)
  else if (t <? 40)%nat then Z.lxor (Z.lxor b c) d
  else if (t <? 60)%nat then Z.lor (Z.lor (Z.land b c) (Z.land b d)) (Z.land c d)
  else Z.lxor (Z.lxor b c) d.

(** The integer parts of 2^30 times the square roots of 2, 3, 5 and 10. *)
Definition K (t : nat) : Z := Z.sqrt (nth (t / 20) [2; 3; 5; 10] 0 * 2 ^ 60).

(** The message schedule; [fuel] is at least [S t]. *)
Fixpoint W_ (fuel : nat) (ws : list Z) (t : nat) : Z :=
  match fuel with
  | O => 0
  | S fuel =>
      if (t <? 16)%nat then nth t ws 0
      else circular_left (Z.lxor (Z.lxor (Z.lxor (W_ fuel ws (t - 3)) (W_ fuel ws (t - 8)))
                                         (W_ fuel ws (t - 14))) (W_ fuel ws (t - 16))) 1
  end.

Definition W (ws : list Z) (t : nat) : Z := W_ (S t) ws t.

Definition step (ws : list Z) (v : Z * Z * Z * Z * Z) (t : nat) : Z * Z * Z * Z * Z :=
  let '(a, b, c, d, e) := v in
  ((circular_left a 5 + f t b c d + e + W ws t + K t) mod 2 ^ 32, a, circular_left b 30, c, d).

Definition compress (h block : list Z) : list Z :=
  let '(a, b, c, d, e) :=
    foldl (step (be_words block))
      (nth 0 h 0, nth 1 h 0, nth 2 h 0, nth 3 h 0, nth 4 h 0) (seq 0 80) in
  [plus (nth 0 h 0) a; plus (nth 1 h 0) b; plus (nth 2 h 0) c; plus (nth 3 h 0) d;
   plus (nth 4 h 0) e].

Definition iv : list Z := [0x67452301; 0xEFCDAB89; 0x98BADCFE; 0x10325476; 0xC3D2E1F0].

Definition sha1 : list Z -> list Z := Iterated.hash compress iv be_bytes.
End FIPS180_1.

(** ** RFC 2104 *)
Module RFC2104.
Section HMAC.
Context (H : list Z -> list Z) (B : nat).

(** Keys longer than a block are hashed; shorter keys are filled with zeros. *)
Definition key_block (K : list Z) : list Z :=
  let K := if (B <? length K)%nat then H K else K in
  K ++ replicate (B - length K) 0.

Definition xor_byte (c : Z) (l : list Z) : list Z := map (fun x => Z.lxor x c) l.

Definition hmac (K text : list Z) : list Z :=
  H (xor_byte 0x5c (key_block K) ++ H (xor_byte 0x36 (key_block K) ++ text)).
End HMAC.
End RFC2104.

(** ** The test vectors of the documents *)
Example md5_rfc1321 : RFC1321.md5 (str "message digest")
  = [0xf9; 0x6b; 0x69; 0x7d; 0x7c; 0xb7; 0x93; 0x8d; 0x52; 0x5a; 0x2f; 0x31; 0xaa; 0xf1; 0x61; 0xd0].
Proof. vm_compute. reflexivity. Qed.

Example md4_rfc1320 : RFC1320.md4 (str "message digest")
  = [0xd9; 0x13; 0x0a; 0x81; 0x64; 0x54; 0x9f; 0xe8; 0x18; 0x87; 0x48; 0x06; 0xe1; 0xc7; 0x01; 0x4b].
Proof. vm_compute. reflexivity. Qed.
