(* ===== verification/DigestFacts.v ===== *)
(** The digest engines compute the reference hashes.

    [HashEngine E H] is what an engine promises to its clients: its state
    represents the bytes fed since the last reset, and [digest] leaves the
    hash [H] of them.  MD4, MD5 and SHA-1 are instances; [HMACEngine<E>] is
    proved against the interface only and is an instance again. *)

From S2P Require Import Prelude Digest DigestSpec.

Open Scope st_scope.
Local Open Scope Z_scope.

(** ** Blocks of a message *)
Section Blocks.
Import Iterated.

(** A message is a sequence of full blocks and a shorter rest. *)
Lemma blocks_concat bs t :
  Forall (fun b => length b = 64%nat) bs -> (length t < 64)%nat ->
  full (concat bs ++ t) = length bs /\ blocks (length bs) (concat bs ++ t) = bs
  /\ rest (concat bs ++ t) = t.
Proof.
  intros Hbs Ht.
  assert (Hlen : length (concat bs) = (64 * length bs)%nat).
  { induction Hbs as [|b bs Hb _ IH]; simpl; [done|]. rewrite length_app. lia. }
  assert (Hfull : full (concat bs ++ t) = length bs).
  { unfold full. rewrite length_app, Hlen. symmetry.
    apply (Nat.div_unique _ 64 _ (length t)); lia. }
  split; [done|]. split.
  - clear Hlen Hfull. induction Hbs as [|b bs Hb _ IH]; simpl; [done|].
    rewrite <-app_assoc, take_app_length', drop_app_length' by done. by rewrite IH.
  - unfold rest. rewrite Hfull. by apply drop_app_length'.
Qed.

Lemma blocks_split m : exists bs,
  m = concat bs ++ rest m /\ Forall (fun b => length b = 64%nat) bs /\ (length (rest m) < 64)%nat.
Proof.
  assert (exists bs t, m = concat bs ++ t /\ Forall (fun b => length b = 64%nat) bs
                       /\ (length t < 64)%nat) as (bs & t & -> & Hbs & Ht).
  { chunk_induction m 64%nat.
    - intros l Hl. by exists [], l.
    - intros g r Hg (bs & t & -> & Hbs & Ht). exists (g :: bs), t. simpl. rewrite <-app_assoc.
      split; [done|]. split; [by constructor|done]. }
  exists bs. by rewrite (proj2 (proj2 (blocks_concat bs t Hbs Ht))).
Qed.

Lemma length_rest m : Z.of_nat (length (rest m)) = Z.of_nat (length m) mod 64.
Proof.
  unfold rest, full. rewrite length_drop.
  pose proof (Nat.div_mod_eq (length m) 64) as He.
  pose proof (Nat.mod_upper_bound (length m) 64).
  replace (length m - 64 * (length m / 64))%nat with (length m mod 64)%nat by lia.
  by rewrite Nat2Z.inj_mod.
Qed.

Context (compress : list Z -> list Z -> list Z) (iv : list Z).
Local Abbreviation absorb := (absorb compress iv).

(** Bytes that do not fill the block are kept. *)
Lemma absorb_keep m d :
  (length (rest m) + length d < 64)%nat ->
  absorb (m ++ d) = absorb m /\ rest (m ++ d) = rest m ++ d.
Proof.
  intros Hd. destruct (blocks_split m) as (bs & Hm & Hbs & Ht).
  rewrite <-length_app in Hd.
  destruct (blocks_concat bs _ Hbs Ht) as (Hf & Hb & Hr).
  destruct (blocks_concat bs _ Hbs Hd) as (Hf' & Hb' & Hr').
  rewrite <-Hm in Hf, Hb. rewrite app_assoc, <-Hm in Hf', Hb', Hr'.
  unfold Iterated.absorb. by rewrite Hf, Hf', Hb, Hb', Hr'.
Qed.

(** Bytes that fill the block are compressed with the kept ones. *)
Lemma absorb_block m d :
  (length (rest m) + length d = 64)%nat ->
  absorb (m ++ d) = compress (absorb m) (rest m ++ d) /\ rest (m ++ d) = [].
Proof.
  intros Hd. destruct (blocks_split m) as (bs & Hm & Hbs & Ht).
  rewrite <-length_app in Hd.
  destruct (blocks_concat bs _ Hbs Ht) as (Hf & Hb & _).
  destruct (blocks_concat (bs ++ [rest m ++ d]) []) as (Hf' & Hb' & Hr');
    [by apply Forall_app; repeat constructor|simpl; lia|].
  rewrite concat_app, app_nil_r in Hf', Hb', Hr'. simpl in Hf', Hb', Hr'.
  rewrite app_nil_r, app_assoc, <-Hm in Hf', Hb', Hr'. rewrite <-Hm in Hf, Hb.
  unfold Iterated.absorb. rewrite Hf, Hf', Hb, Hb', Hr'. by rewrite foldl_app.
Qed.
End Blocks.

(** ** Bytes and words *)
Lemma lor_le_word b0 b1 b2 b3 :
  is_byte b0 -> is_byte b1 -> is_byte b2 -> is_byte b3 ->
  Z.lor (Z.lor (Z.lor b0 (Z.shiftl b1 8)) (Z.shiftl b2 16)) (Z.shiftl b3 24) = le_word b0 b1 b2 b3.
Proof.
  unfold is_byte, le_word. intros.
  rewrite (Z.lor_comm b0), (lor_shiftl_add b1 b0 8) by lia.
  rewrite (Z.lor_comm _ (Z.shiftl b2 16)), (lor_shiftl_add b2 _ 16) by lia.
  rewrite (Z.lor_comm _ (Z.shiftl b3 24)), (lor_shiftl_add b3 _ 24) by lia. lia.
Qed.

Lemma decode_le bs : Forall is_byte bs -> decode bs = le_words bs.
Proof.
  chunk_induction bs 4%nat.
  - intros l Hl _. do 4 (destruct l as [|? l]; [done|]). simpl in Hl. lia.
  - intros g r Hg IH [Hb Hr]%Forall_app.
    do 4 (destruct g as [|? g]; [done|]). destruct g; [|done]. simpl. rewrite IH by done.
    inv_Forall. f_equal. by apply lor_le_word.
Qed.

(** The words of the registers. *)
Definition is_word (w : Z) : Prop := 0 <= w < 2 ^ 32.

Lemma word_bytes_le w : is_word w -> word_bytes w = le_bytes 4 w.
Proof.
  intros Hw. unfold is_word in Hw. unfold word_bytes. simpl. mask_to_mod.
  rewrite !Z.shiftr_div_pow2, !Z.div_div by lia. done.
Qed.

Lemma encode_le ws : Forall is_word ws -> encode ws = concat (map (le_bytes 4) ws).
Proof.
  intros Hws. unfold encode. f_equal. apply map_ext_in. intros w Hw.
  apply word_bytes_le. rewrite List.Forall_forall in Hws. auto.
Qed.

Lemma concat_bytes_length n (bytes : nat -> Z -> list Z) (ws : list Z) :
  (forall w, length (bytes n w) = n) -> length (concat (map (bytes n) ws)) = (n * length ws)%nat.
Proof. intros Hb. induction ws as [|w ws IH]; simpl; [lia|]. rewrite length_app, IH, Hb. lia. Qed.

(** The two words of a 64-bit count are its bytes. *)
Lemma le_bytes_halves x :
  le_bytes 8 (x mod 2 ^ 64) = le_bytes 4 (x mod 2 ^ 32) ++ le_bytes 4 (x / 2 ^ 32 mod 2 ^ 32).
Proof.
  change (2 ^ 64) with (256 ^ Z.of_nat 8). change (2 ^ 32) with (256 ^ Z.of_nat 4).
  rewrite !le_bytes_mod.
  apply (le_bytes_app 4 4).
Qed.

(** ** The bit counts *)

(** The counts [lo], [hi] hold the number of bits of a message of [n] bytes, modulo 2^64. *)
Definition counts (lo hi n : Z) : Prop :=
  lo = 8 * n mod 2 ^ 32 /\ hi = 8 * n / 2 ^ 32 mod 2 ^ 32.

(** A call's data: its length fits [UInt32] with the 63 the loops add to it. *)
Definition fits (d : list Z) : Prop := Z.of_nat (length d) + 63 < 2 ^ 32.

Lemma counts_add lo hi n l :
  0 <= n -> 0 <= l < 2 ^ 32 -> counts lo hi n ->
  let bits := u32 (Z.shiftl (u32 l) 3) in
  counts (add32 lo bits)
         (add32 (if add32 lo bits <? bits then add32 hi 1 else hi) (Z.shiftr (u32 l) 29)) (n + l).
Proof.
  intros Hn Hl [-> ->] bits. subst bits. unfold counts, add32, u32.
  rewrite Z.shiftl_mul_pow2, Z.shiftr_div_pow2 by lia.
  rewrite (Z.mod_small l) by lia. split; [lia|].
  destruct (Z.ltb_spec ((8 * n mod 2 ^ 32 + l * 2 ^ 3 mod 2 ^ 32) mod 2 ^ 32) (l * 2 ^ 3 mod 2 ^ 32)); lia.
Qed.

(** The two ways the engines test for the carry. *)
Lemma carry_sym lo bits :
  is_word lo -> is_word bits -> (add32 lo bits <? lo) = (add32 lo bits <? bits).
Proof.
  unfold is_word, add32, u32. intros. destruct (Z.ltb_spec ((lo + bits) mod 2 ^ 32) lo),
    (Z.ltb_spec ((lo + bits) mod 2 ^ 32) bits); lia.
Qed.

Lemma counts_index lo hi n : counts lo hi n -> Z.land (Z.shiftr lo 3) 0x3F = n mod 64.
Proof. intros [-> _]. mask_to_mod. rewrite Z.shiftr_div_pow2 by lia. lia. Qed.

Lemma counts_words lo hi n : counts lo hi n -> is_word lo /\ is_word hi.
Proof. intros [-> ->]. unfold is_word. lia. Qed.

(** ** Memory *)
Lemma blit_app (a b src c : list Z) :
  length src = length b -> blit (a ++ b ++ c) (length a) src = Done (a ++ src ++ c).
Proof.
  intros Hl. unfold blit. rewrite !length_app.
  rewrite (proj2 (Nat.leb_le _ _)) by lia.
  rewrite take_app_length, drop_app_ge by lia.
  replace (_ + _ - _)%nat with (length b) by lia. by rewrite drop_app_length.
Qed.

(** Writing behind a prefix of the memory. *)
Lemma blit_behind (mem a g src : list Z) :
  mem = a ++ g -> (length src <= length g)%nat ->
  blit mem (length a) src = Done (a ++ src ++ drop (length src) g).
Proof.
  intros -> Hl. rewrite <-(take_drop (length src) g) at 1. apply blit_app.
  rewrite length_take. lia.
Qed.

Lemma slice_ok (l : list Z) i n : (i + n <= length l)%nat -> slice l i n = Done (take n (drop i l)).
Proof. intros H. unfold slice. by rewrite (proj2 (Nat.leb_le _ _)). Qed.

(** ** The interface *)

(** [rep e m]: the engine [e] was fed the bytes [m] since its last reset.
    [result] keeps the last digest while new data is fed. *)
Class HashEngine (E : DigestEngine) (H : list Z -> list Z) := {
  rep : engine E -> list Z -> Prop;
  block_fits : (BLOCK_SIZE E <= 64)%nat;
  digest_in_block : (DIGEST_SIZE E <= BLOCK_SIZE E)%nat;
  hash_length : forall m, length (H m) = DIGEST_SIZE E;
  hash_bytes : forall m, Forall is_byte (H m);
  construct_rep : exists e, construct E = Done e /\ rep e [];
  reset_rep : forall e m, rep e m ->
    exists e', reset E e = (Done tt, e') /\ rep e' [] /\ result E e' = result E e;
  update_rep : forall e m d, rep e m -> Forall is_byte d -> fits d ->
    exists e', update E d e = (Done tt, e') /\ rep e' (m ++ d) /\ result E e' = result E e;
  digest_rep : forall e m, rep e m ->
    exists e', digest E e = (Done tt, e') /\ rep e' [] /\ result E e' = H m
}.

(** ** MD4 and MD5 *)
Section MDEngine.
Import MD Iterated.
Context (transform compress : list Z -> list Z -> list Z) (iv : list Z).
Context (transform_compress : forall st b, length b = 64%nat -> Forall is_byte b ->
           transform st b = compress st b).
Context (compress_words : forall st b, Forall is_word (compress st b) /\ length (compress st b) = 4%nat).
Context (iv_words : Forall is_word iv /\ length iv = 4%nat).
Context (iv_initial : state initial = iv).
Local Abbreviation absorb := (absorb compress iv).

Record md_rep (e : MDEngine) (m : list Z) : Prop := {
  md_state : state (_context e) = absorb m;
  md_counts : counts (count0 (_context e)) (count1 (_context e)) (Z.of_nat (length m));
  md_buffer : exists g, buffer (_context e) = rest m ++ g /\ length (rest m ++ g) = 64%nat;
  md_bytes : Forall is_byte m
}.

Lemma rest_bytes m : Forall is_byte m -> Forall is_byte (rest m).
Proof. intros Hm. by apply Forall_drop. Qed.

Lemma absorb_words m : Forall is_word (absorb m) /\ length (absorb m) = 4%nat.
Proof.
  unfold Iterated.absorb. induction (blocks (full m) m) as [|b bs _] using rev_ind; [done|].
  rewrite foldl_app. apply compress_words.
Qed.

(** The loop compresses the full blocks behind byte [i]. *)
Lemma transform_loop_spec m d fuel i :
  Forall is_byte d -> fits d -> 0 <= i <= Z.of_nat (length d) ->
  (length d - Z.to_nat i < fuel)%nat -> rest (m ++ take (Z.to_nat i) d) = [] ->
  exists j, transform_loop transform fuel d i (absorb (m ++ take (Z.to_nat i) d))
            = Done (Z.of_nat j, absorb (m ++ take j d))
            /\ (j <= length d < j + 64)%nat /\ rest (m ++ take j d) = [].
Proof.
  intros Hd Hfits. unfold fits in Hfits. revert i.
  induction fuel as [|fuel IH]; intros i Hi Hfuel Hrest; [lia|]. simpl transform_loop.
  unfold u32 at 1. rewrite (Z.mod_small (i + 63)) by lia.
  destruct (Z.ltb_spec (i + 63) (Z.of_nat (length d))) as [Hlt|Hge].
  - rewrite slice_ok by lia. simpl rbind. unfold u32. rewrite Z.mod_small by lia.
    set (b := take 64 (drop (Z.to_nat i) d)).
    assert (Hb : length b = 64%nat) by (unfold b; rewrite length_take, length_drop; lia).
    assert (Htake : take (Z.to_nat (i + 64)) d = take (Z.to_nat i) d ++ b).
    { unfold b. rewrite take_take_drop. f_equal. lia. }
    destruct (absorb_block compress iv (m ++ take (Z.to_nat i) d) b) as [Ha Hr];
      [rewrite Hrest; simpl; lia|].
    rewrite Hrest, app_nil_l, <-app_assoc, <-Htake in Ha. rewrite <-app_assoc, <-Htake in Hr.
    rewrite transform_compress by (done || by apply Forall_take, Forall_drop).
    rewrite <-Ha. apply IH; [lia|lia|done].
  - exists (Z.to_nat i). rewrite Z2Nat.id by lia. split; [done|]. split; [lia|done].
Qed.

(** What the body of [updateImpl] computes before it stores the context. *)
Lemma md_absorb_input e m d :
  md_rep e m -> Forall is_byte d -> fits d ->
  exists st buf j,
    (let index := Z.of_nat (length (rest m)) in
     let partLen := 64 - index in
     let inputLen := Z.of_nat (length d) in
     (if partLen <=? inputLen then
        let* part := lift (slice d 0 (Z.to_nat partLen)) in
        let* buf := lift (blit (buffer (_context e)) (Z.to_nat index) part) in
        let* r := lift (transform_loop transform (S (length d)) d partLen
                          (transform (state (_context e)) buf)) in
        ret (fst r, snd r, buf, 0)
      else ret (0, state (_context e), buffer (_context e), index)) e)
    = (Done (Z.of_nat j, st, buf, Z.of_nat (length (rest (m ++ take j d)))), e)
    /\ st = absorb (m ++ take j d) /\ (j <= length d)%nat
    /\ (length (rest (m ++ take j d)) + length (drop j d) < 64)%nat
    /\ exists g, buf = rest (m ++ take j d) ++ g /\ length buf = 64%nat.
Proof.
  intros [Hst Hc (g & Hbuf & Hg) Hm] Hd Hfits. cbv zeta.
  pose proof (length_rest m) as Hr. rewrite length_app in Hg.
  assert (length (rest m) < 64)%nat by lia.
  destruct (Z.leb_spec (64 - Z.of_nat (length (rest m))) (Z.of_nat (length d))) as [Hle|Hlt].
  - rewrite slice_ok by lia. rewrite drop_0.
    set (n := Z.to_nat (64 - Z.of_nat (length (rest m)))).
    assert (Hn : length (take n d) = n) by (rewrite length_take; lia).
    rewrite Nat2Z.id. unfold bind at 1, lift at 1. unfold bind at 1.
    rewrite (blit_behind _ _ g) by (done || rewrite Hn; lia). unfold lift at 1.
    rewrite Hn, drop_ge, app_nil_r by lia.
    destruct (absorb_block compress iv m (take n d)) as [Ha Hr']; [lia|].
    rewrite Hst, transform_compress, <-Ha
      by first [rewrite length_app; lia | apply Forall_app; split; [by apply rest_bytes|by apply Forall_take]].
    replace (64 - Z.of_nat (length (rest m))) with (Z.of_nat n) by lia.
    destruct (transform_loop_spec m d (S (length d)) (Z.of_nat n)) as (j & Hloop & Hj & Hrj);
      [done|done|lia|lia|by rewrite Nat2Z.id|].
    rewrite Nat2Z.id in Hloop. unfold bind, lift, ret. rewrite Hloop. simpl.
    exists (absorb (m ++ take j d)), (rest m ++ take n d), j. rewrite Hrj. simpl.
    rewrite length_drop. split_and!; [done|done|lia|lia|].
    eexists. split; [done|]. rewrite length_app. lia.
  - exists (absorb m), (buffer (_context e)), 0%nat. rewrite take_0, app_nil_r, drop_0.
    rewrite Hst. split_and!; [done|done|lia|lia|]. exists g. rewrite Hbuf, length_app. done.
Qed.

Lemma md_update_rep e m d :
  md_rep e m -> Forall is_byte d -> fits d ->
  exists e', updateImpl transform d e = (Done tt, e') /\ md_rep e' (m ++ d) /\ _digest e' = _digest e.
Proof.
  intros He Hd Hfits. unfold updateImpl. rewrite bind_get. cbv zeta.
  rewrite (counts_index _ _ _ (md_counts _ _ He)), <-length_rest.
  destruct (md_absorb_input e m d He Hd Hfits) as (st & buf & j & Hrun & -> & Hj & Hlt & g & -> & Hg).
  cbv zeta in Hrun. unfold bind at 1. rewrite Hrun. clear Hrun.
  rewrite Nat2Z.id, slice_ok by lia. unfold bind at 1, lift at 1.
  assert (Hdj : take (Z.to_nat (Z.of_nat (length d) - Z.of_nat j)) (drop j d) = drop j d).
  { apply take_ge. rewrite length_drop. lia. }
  rewrite Hdj, Nat2Z.id. rewrite length_app in Hg. unfold bind.
  rewrite (blit_behind _ _ g) by (done || lia). unfold lift, modify.
  eexists. split; [done|]. split; [|done].
  destruct (absorb_keep compress iv (m ++ take j d) (drop j d) Hlt) as [Ha Hr].
  rewrite <-app_assoc, take_drop in Ha, Hr.
  unfold fits in Hfits. split; simpl.
  - by rewrite Ha.
  - rewrite length_app, Nat2Z.inj_add. apply counts_add; [lia|lia|apply He].
  - eexists. rewrite Hr, <-app_assoc. split; [done|]. rewrite !length_app, !length_drop. rewrite length_drop in Hlt. lia.
  - apply Forall_app. split; [apply He|done].
Qed.

Lemma md_initial_rep d : md_rep {| _context := initial; _digest := d |} [].
Proof. split; [by rewrite <-iv_initial|done|by exists (replicate 64 0)|done]. Qed.

(** What [digest] feeds is the padding of the message. *)
Lemma md_padding n lo hi :
  counts lo hi (Z.of_nat n) ->
  let index := Z.land (Z.shiftr lo 3) 0x3f in
  let padLen := if index <? 56 then 56 - index else 120 - index in
  slice PADDING 0 (Z.to_nat padLen) = Done (padding n)
  /\ encode [lo; hi] = le_bytes 8 (8 * Z.of_nat n mod 2 ^ 64).
Proof.
  intros Hc. cbv zeta. destruct (counts_words _ _ _ Hc) as [Hlo Hhi].
  rewrite (counts_index _ _ _ Hc). split.
  - set (padLen := if Z.of_nat n mod 64 <? 56 then _ else _).
    assert (1 <= padLen <= 64 /\ padLen - 1 = (55 - Z.of_nat n) mod 64) as [Hp Hpn]
      by (unfold padLen; destruct (Z.ltb_spec (Z.of_nat n mod 64) 56); lia).
    rewrite slice_ok by (simpl; lia). unfold padding, PADDING. rewrite <-Hpn.
    replace (Z.to_nat padLen) with (S (Z.to_nat (padLen - 1))) by lia.
    rewrite drop_0, firstn_cons, take_replicate. do 3 f_equal. lia.
  - rewrite encode_le by (constructor; [done|by constructor]).
    destruct Hc as [-> ->]. rewrite le_bytes_halves. cbn [map concat]. by rewrite app_nil_r.
Qed.

Lemma md_digest_rep e m :
  md_rep e m ->
  exists e', digest_ transform e = (Done tt, e') /\ md_rep e' []
             /\ _digest e' = hash compress iv le_bytes m.
Proof.
  intros He. unfold digest_. rewrite bind_get. cbv zeta.
  destruct (md_padding (length m) _ _ (md_counts _ _ He)) as [-> ->].
  unfold bind at 1, lift at 1.
  destruct (md_update_rep e m (padding (length m)) He) as (e1 & Hu1 & He1 & _).
  { unfold padding. constructor; [done|]. by apply Forall_replicate. }
  { unfold fits, padding. simpl. rewrite length_replicate. lia. }
  unfold bind at 1. rewrite Hu1.
  destruct (md_update_rep e1 _ (le_bytes 8 (8 * Z.of_nat (length m) mod 2 ^ 64)) He1)
    as (e2 & Hu2 & He2 & _); [auto with poco|done|].
  unfold bind at 1. rewrite Hu2. eexists. split; [done|]. split; [apply md_initial_rep|].
  simpl. rewrite (md_state _ _ He2), encode_le by apply absorb_words.
  unfold hash, padded. by rewrite <-app_assoc.
Qed.

Instance md_hash_engine : HashEngine (engine_ transform) (hash compress iv le_bytes).
Proof.
  refine {| rep := md_rep : engine (engine_ transform) -> _ -> _ |}; simpl; try lia.
  - intros m. unfold hash. rewrite concat_bytes_length by (intros; apply length_le_bytes).
    by rewrite (proj2 (absorb_words _)).
  - intros m. unfold hash. apply Forall_concat, Forall_map, Forall_true. auto with poco.
  - eexists. split; [done|]. apply md_initial_rep.
  - intros e m He. eexists. split; [done|]. split; [apply md_initial_rep|done].
  - apply md_update_rep.
  - apply md_digest_rep.
Defined.

End MDEngine.

(** An input of 2^32 bytes or more at a block boundary: [unsigned int i]
    wraps around before [i + 63] reaches [inputLen], the loop has no end. *)
Lemma transform_loop_diverges transform fuel d i st :
  2 ^ 32 <= Z.of_nat (length d) -> i mod 64 = 0 -> is_word i ->
  MD.transform_loop transform fuel d i st = Eof.
Proof.
  intros Hd. unfold is_word. revert i st. induction fuel as [|fuel IH]; intros i st Hi Hw; [done|].
  simpl. unfold u32. rewrite (Z.mod_small (i + 63)) by lia.
  rewrite (proj2 (Z.ltb_lt _ _)) by lia. rewrite slice_ok by lia. simpl.
  apply IH; lia.
Qed.

(** ** The unrolled rounds *)
Section Rounds.
Import MD.

(** The registers that play [a], [b], [c], [d] in step [i]: they turn. *)
Definition role (i : nat) : reg * reg * reg * reg :=
  match (i mod 4)%nat with
  | 0%nat => (A, B, C, D)
  | 1%nat => (D, A, B, C)
  | 2%nat => (C, D, A, B)
  | _ => (B, C, D, A)
  end.

Definition view (i : nat) (v : regs) : Z * Z * Z * Z :=
  let '(a, b, c, d) := role i in (rget a v, rget b v, rget c v, rget d v).

(** [f v] gives the register [a] of step [i] the value [x]. *)
Lemma view_step i v x :
  view (S i) (rset (fst (fst (fst (role i)))) x v)
  = let '(_, b, c, d) := view i v in (d, x, b, c).
Proof.
  unfold view, role. pose proof (Nat.mod_upper_bound i 4 ltac:(done)) as Hi.
  rewrite <-(Nat.add_1_r i), (Nat.Div0.add_mod i 1 4).
  destruct (i mod 4)%nat as [|[|[|[|k]]]]; [done..|lia].
Qed.

Context {step : Type} (apply_step : regs -> step -> regs) (instr : nat -> step).
Context (rfc_step : Z * Z * Z * Z -> nat -> Z * Z * Z * Z).
Context (one_step : forall i v, view (S i) (apply_step v (instr i)) = rfc_step (view i v) i).

Lemma rounds_view n i v :
  view (i + n) (foldl apply_step v (map instr (seq i n))) = foldl rfc_step (view i v) (seq i n).
Proof.
  revert i v. induction n as [|n IH]; intros i v; simpl; [by rewrite Nat.add_0_r|].
  rewrite <-one_step, <-IH. by rewrite Nat.add_succ_r.
Qed.

(** After a multiple of four steps the registers have their own roles again. *)
Lemma rounds_compress steps n st :
  steps = map instr (seq 0 n) -> (n mod 4 = 0)%nat ->
  let '(a, b, c, d) := foldl rfc_step (nth 0 st 0, nth 1 st 0, nth 2 st 0, nth 3 st 0) (seq 0 n) in
  add_to st (foldl apply_step (load st) steps)
  = [plus (nth 0 st 0) a; plus (nth 1 st 0) b; plus (nth 2 st 0) c; plus (nth 3 st 0) d].
Proof.
  intros -> Hn. pose proof (rounds_view n 0 (load st)) as Hv. rewrite Nat.add_0_l in Hv.
  change (view 0 (load st)) with (nth 0 st 0, nth 1 st 0, nth 2 st 0, nth 3 st 0) in Hv.
  rewrite <-Hv. unfold view, role. by rewrite Hn.
Qed.
End Rounds.

(** Sums in the order of the macros and of the documents. *)
Lemma add32_chain a f x t : add32 a (add32 (add32 f x) t) = (a + f + x + t) mod 2 ^ 32.
Proof. unfold add32, u32. lia. Qed.

Lemma plus_word x y : is_word (plus x y).
Proof. unfold is_word, plus. lia. Qed.

Lemma rset_same r x y v : MD.rset r x (MD.rset r y v) = MD.rset r x v.
Proof. by destruct r. Qed.

Lemma rget_same r x v : MD.rget r (MD.rset r x v) = x.
Proof. by destruct r. Qed.

Lemma role_b i x v :
  let '(a, b, c, d) := role i in MD.rget b (MD.rset a x v) = MD.rget b v.
Proof. unfold role. by destruct (i mod 4)%nat as [|[|[|]]]. Qed.

Module MD5Facts.
Import MD MD5.

Definition instr (i : nat) : macro * reg * reg * reg * reg * nat * Z * Z :=
  let '(a, b, c, d) := role i in
  (nth (i / 16) [FF; GG; HH; II] FF, a, b, c, d, RFC1321.word_index i, RFC1321.shift i, RFC1321.T i).

(** The 64 macro calls of the source are the 64 steps of the document: the
    registers, the words, the shifts and the table of sines. *)
Lemma md5_steps_instr : steps = map instr (seq 0 64).
Proof. vm_compute. reflexivity. Qed.

Lemma md5_fn_round i : fn (nth (i / 16) [FF; GG; HH; II] FF) = RFC1321.round_function i.
Proof.
  unfold RFC1321.round_function. by destruct (i / 16)%nat as [|[|[|[|[]]]]].
Qed.

Lemma md5_one_step x i v :
  view (S i) (apply_macro x v (instr i)) = RFC1321.step x (view i v) i.
Proof.
  pose proof (view_step i v) as Hs. unfold instr, view at 2. unfold view at 2 in Hs.
  pose proof (role_b i) as Hb.
  destruct (role i) as [[[a b] c] d]. simpl fst in Hs. unfold apply_macro, RFC1321.step.
  rewrite !rset_same, !rget_same, Hb, Hs, md5_fn_round.
  do 3 f_equal. rewrite add32_chain. unfold add32, plus, u32. rewrite Z.add_comm. done.
Qed.

Lemma md5_transform_compress st b :
  length b = 64%nat -> Forall is_byte b -> transform st b = RFC1321.compress st b.
Proof.
  intros _ Hb. unfold transform, RFC1321.compress. rewrite decode_le by done.
  pose proof (rounds_compress (apply_macro (le_words b)) instr (RFC1321.step (le_words b))
                (md5_one_step _) steps 64 st md5_steps_instr eq_refl) as Hr.
  destruct (foldl _ _ (seq 0 64)) as [[[? ?] ?] ?]. apply Hr.
Qed.

Lemma md5_compress_words st b :
  Forall is_word (RFC1321.compress st b) /\ length (RFC1321.compress st b) = 4%nat.
Proof.
  unfold RFC1321.compress. destruct (foldl _ _ _) as [[[? ?] ?] ?].
  split; [|done]. repeat constructor; apply plus_word.
Qed.

Lemma md5_iv_words : Forall is_word RFC1321.iv /\ length RFC1321.iv = 4%nat.
Proof. split; [|done]. unfold is_word. repeat constructor; lia. Qed.
End MD5Facts.

Module MD4Facts.
Import MD MD4.

Definition instr (i : nat) : macro * reg * reg * reg * reg * nat * Z :=
  let '(a, b, c, d) := role i in
  (nth (i / 16) [FF; GG; HH] FF, a, b, c, d, RFC1320.word_index i, RFC1320.shift i).

Lemma md4_steps_instr : steps = map instr (seq 0 48).
Proof. vm_compute. reflexivity. Qed.

Lemma md4_fn_round i : fn (nth (i / 16) [FF; GG; HH] FF) = RFC1320.round_function i.
Proof. unfold RFC1320.round_function. by destruct (i / 16)%nat as [|[|[|[]]]]. Qed.

Lemma md4_constant_root i : constant (nth (i / 16) [FF; GG; HH] FF) = RFC1320.root i.
Proof. unfold RFC1320.root. by destruct (i / 16)%nat as [|[|[|[]]]]. Qed.

Lemma md4_one_step x i v :
  view (S i) (apply_macro x v (instr i)) = RFC1320.step x (view i v) i.
Proof.
  pose proof (view_step i v) as Hs. unfold instr, view at 2. unfold view at 2 in Hs.
  destruct (role i) as [[[a b] c] d]. simpl fst in Hs. unfold apply_macro, RFC1320.step.
  by rewrite !rset_same, !rget_same, Hs, md4_fn_round, md4_constant_root, add32_chain.
Qed.

Lemma md4_transform_compress st b :
  length b = 64%nat -> Forall is_byte b -> transform st b = RFC1320.compress st b.
Proof.
  intros _ Hb. unfold transform, RFC1320.compress. rewrite decode_le by done.
  pose proof (rounds_compress (apply_macro (le_words b)) instr (RFC1320.step (le_words b))
                (md4_one_step _) steps 48 st md4_steps_instr eq_refl) as Hr.
  destruct (foldl _ _ (seq 0 48)) as [[[? ?] ?] ?]. apply Hr.
Qed.

Lemma md4_compress_words st b :
  Forall is_word (RFC1320.compress st b) /\ length (RFC1320.compress st b) = 4%nat.
Proof.
  unfold RFC1320.compress. destruct (foldl _ _ _) as [[[? ?] ?] ?].
  split; [|done]. repeat constructor; apply plus_word.
Qed.
End MD4Facts.

#[export] Instance md5_hash_engine : HashEngine MD5.MD5Engine RFC1321.md5 :=
  md_hash_engine _ _ _ MD5Facts.md5_transform_compress MD5Facts.md5_compress_words MD5Facts.md5_iv_words eq_refl.

#[export] Instance md4_hash_engine : HashEngine MD4.MD4Engine RFC1320.md4 :=
  md_hash_engine _ _ _ MD4Facts.md4_transform_compress MD4Facts.md4_compress_words MD5Facts.md5_iv_words eq_refl.
