(* ===== verification/ShaFacts.v ===== *)
(** SHA1Engine computes FIPS 180-1.

    The engine works on the memory of sixteen little-endian words, whose
    bytes it reverses in place before each transformation, and [digest]
    writes the padding there without going through [update]. *)

From S2P Require Import Prelude Digest DigestSpec DigestFacts.
From Stdlib Require Import ZifyNat.

Open Scope st_scope.
Local Open Scope Z_scope.
Import SHA1 Iterated FIPS180_1.

(** ** Bytes and words *)
Lemma decode_encode ws : Forall is_word ws -> decode (encode ws) = ws.
Proof.
  induction 1 as [|w ws Hw _ IH]; [done|]. unfold encode in *. simpl. rewrite IH. f_equal.
  rewrite lor_le_word by (unfold is_byte; mask_to_mod; lia). unfold is_word in Hw. unfold le_word.
  mask_to_mod. rewrite !Z.shiftr_div_pow2 by lia. lia.
Qed.

(** The swap of the halves, then of the bytes of each half. *)
Lemma swap_halves b0 b1 b2 b3 :
  is_byte b0 -> is_byte b1 -> is_byte b2 -> is_byte b3 ->
  Z.lor (u32 (Z.shiftl (le_word b0 b1 b2 b3) 16)) (Z.shiftr (le_word b0 b1 b2 b3) 16)
  = le_word b2 b3 b0 b1.
Proof.
  unfold is_byte, u32. intros.
  replace (Z.shiftl (le_word b0 b1 b2 b3) 16 mod 2 ^ 32) with (Z.shiftl (b0 + b1 * 2 ^ 8) 16)
    by (rewrite !Z.shiftl_mul_pow2 by lia; unfold le_word; lia).
  rewrite Z.shiftr_div_pow2 by lia.
  replace (le_word b0 b1 b2 b3 / 2 ^ 16) with (b2 + b3 * 2 ^ 8) by (unfold le_word; lia).
  rewrite lor_shiftl_add by lia. unfold le_word. lia.
Qed.

Lemma word_byte b0 b1 b2 b3 :
  is_byte b0 -> is_byte b1 -> is_byte b2 -> is_byte b3 ->
  let w := le_word b0 b1 b2 b3 in
  Z.land (Z.shiftr w 0) 255 = b0 /\ Z.land (Z.shiftr w 8) 255 = b1
  /\ Z.land (Z.shiftr w 16) 255 = b2 /\ Z.land (Z.shiftr w 24) 255 = b3.
Proof.
  unfold is_byte, le_word. intros. cbv zeta. mask_to_mod. rewrite !Z.shiftr_div_pow2 by lia. lia.
Qed.

Lemma reverse_be b0 b1 b2 b3 :
  is_byte b0 -> is_byte b1 -> is_byte b2 -> is_byte b3 ->
  reverse_word (le_word b0 b1 b2 b3) = le_word b3 b2 b1 b0.
Proof.
  intros H0 H1 H2 H3. unfold reverse_word. cbv zeta. rewrite swap_halves by done.
  change 0xFF00FF00 with (Z.lor (Z.shiftl 255 24) (Z.shiftl 255 8)).
  change 0x00FF00FF with (Z.lor (Z.shiftl 255 16) (Z.shiftl 255 0)).
  destruct (word_byte b2 b3 b0 b1) as (E0 & E1 & E2 & E3); [done..|].
  rewrite !Z.land_lor_distr_r, !land_shifted_mask, E0, E1, E2, E3 by lia.
  rewrite Z.shiftr_lor, Z.shiftl_lor, !Z.shiftl_shiftl, !Z.shiftr_shiftl_r by lia.
  rewrite <-lor_le_word by done.
  change (Z.shiftr b1 (8 - 24)) with (Z.shiftl b1 16). change (Z.shiftr b3 (8 - 8)) with b3.
  change (16 + 8) with 24. change (0 + 8) with 8.
  apply Z.bits_inj'. intros i _. rewrite !Z.lor_spec.
  by destruct (Z.testbit b3 i), (Z.testbit (Z.shiftl b1 16) i), (Z.testbit (Z.shiftl b0 24) i),
    (Z.testbit (Z.shiftl b2 8) i).
Qed.

Lemma be_words_app a b : (length a mod 4 = 0)%nat -> be_words (a ++ b) = be_words a ++ be_words b.
Proof.
  chunk_induction a 4%nat.
  - intros l Hl H. rewrite Nat.mod_small in H by lia. by destruct l.
  - intros g r Hg IH Hm. rewrite length_app, Hg in Hm.
    do 4 (destruct g as [|? g]; [done|]). destruct g; [|done]. simpl. rewrite IH; [done|]. lia.
Qed.

Lemma reverse_decode bs : Forall is_byte bs -> map reverse_word (decode bs) = be_words bs.
Proof.
  chunk_induction bs 4%nat.
  - intros l Hl _. do 4 (destruct l as [|? l]; [done|]). simpl in Hl. lia.
  - intros g r Hg IH [Hb Hr]%Forall_app.
    do 4 (destruct g as [|? g]; [done|]). destruct g; [|done]. simpl. rewrite IH by done.
    inv_Forall. f_equal. rewrite lor_le_word by done. by apply reverse_be.
Qed.

Lemma be_words_words bs : Forall is_byte bs -> Forall is_word (be_words bs).
Proof.
  chunk_induction bs 4%nat.
  - intros l Hl _. do 4 (destruct l as [|? l]; [constructor|]). simpl in Hl. lia.
  - intros g r Hg IH [Hb Hr]%Forall_app.
    do 4 (destruct g as [|? g]; [done|]). destruct g; [|done]. simpl. constructor; [|auto].
    inv_Forall. unfold is_word, is_byte, le_word in *. lia.
Qed.

Lemma length_be_words bs : (4 * length (be_words bs) + length bs mod 4 = length bs)%nat.
Proof.
  chunk_induction bs 4%nat.
  - intros l Hl. do 4 (destruct l as [|? l]; [done|]). simpl in Hl. lia.
  - intros g r Hg IH. rewrite length_app.
    do 4 (destruct g as [|? g]; [done|]). destruct g; [|done]. cbn [app be_words length] in *. lia.
Qed.

Lemma encode_bytes ws : Forall is_byte (encode ws).
Proof.
  unfold encode. apply Forall_concat, Forall_map, Forall_true. intros w.
  repeat constructor; mask_to_mod; lia.
Qed.

Lemma length_encode ws : length (encode ws) = (4 * length ws)%nat.
Proof. unfold encode. induction ws as [|w ws IH]; simpl in *; [done|]. rewrite IH. lia. Qed.

Lemma encode_app a b : encode (a ++ b) = encode a ++ encode b.
Proof. unfold encode. by rewrite map_app, concat_app. Qed.

(** Reversing the words of the buffer in place. *)
Lemma byte_reversed d :
  Forall is_byte d -> length d = 64%nat ->
  (let ws := decode d in encode (map reverse_word (take (64 / 4) ws) ++ drop (64 / 4) ws))
  = encode (be_words d).
Proof.
  intros Hd Hl. cbv zeta. rewrite <-reverse_decode by done.
  assert (length (decode d) = 16)%nat.
  { rewrite <-(length_map reverse_word), reverse_decode by done.
    pose proof (length_be_words d). rewrite Hl in *. simpl in *. lia. }
  change (64 / 4)%nat with 16%nat. rewrite take_ge, drop_ge, app_nil_r by lia. done.
Qed.

(** ** The transformation *)
Lemma W_fuel ws fuel fuel' t : (t < fuel)%nat -> (t < fuel')%nat -> W_ fuel ws t = W_ fuel' ws t.
Proof.
  revert fuel fuel'. induction (lt_wf t) as [t _ IH]. intros [|fuel] [|fuel'] H H'; [lia..|].
  simpl. destruct (Nat.ltb_spec t 16); [done|].
  by rewrite !(IH _) with (fuel := fuel) (fuel' := fuel') by lia.
Qed.

Lemma W_low ws t : (t < 16)%nat -> W ws t = nth t ws 0.
Proof. intros Ht. unfold W. simpl. by rewrite (proj2 (Nat.ltb_lt _ _)). Qed.

Lemma W_eq ws t : (16 <= t)%nat ->
  W ws t = circular_left (Z.lxor (Z.lxor (Z.lxor (W ws (t - 3)) (W ws (t - 8)))
                                         (W ws (t - 14))) (W ws (t - 16))) 1.
Proof.
  intros Ht. unfold W at 1. simpl. rewrite (proj2 (Nat.ltb_ge _ _)) by done.
  unfold W.
  by rewrite (W_fuel ws t (S (t - 3)) (t - 3)), (W_fuel ws t (S (t - 8)) (t - 8)),
    (W_fuel ws t (S (t - 14)) (t - 14)), (W_fuel ws t (S (t - 16)) (t - 16)) by lia.
Qed.

#[local] Opaque W.

Lemma nth_map_seq (f : nat -> Z) n i : (i < n)%nat -> nth i (map f (seq 0 n)) 0 = f i.
Proof.
  intros Hi. rewrite (nth_indep _ _ (f 0%nat)) by (rewrite length_map, length_seq; lia).
  by rewrite map_nth, seq_nth by lia.
Qed.

(** The words that [expand] appends are the schedule. *)
Lemma expand_schedule ws n :
  length ws = 16%nat ->
  foldl expand ws (seq 16 n) = map (W ws) (seq 0 (16 + n)).
Proof.
  intros Hws. induction n as [|n IH].
  - change (foldl expand ws (seq 16 0)) with ws.
    apply (nth_ext _ _ 0 0); [by rewrite length_map, length_seq|].
    intros i Hi. rewrite nth_map_seq by lia. by rewrite W_low by lia.
  - rewrite seq_S, foldl_app, IH, (Nat.add_succ_r 16 n), (seq_S (16 + n)), map_app, Nat.add_0_l.
    cbn [foldl map]. unfold expand. f_equal.
    rewrite !nth_map_seq by lia. rewrite (W_eq ws (16 + n)) by lia. reflexivity.
Qed.

Definition tuple (v : vars) : Z * Z * Z * Z * Z := (vA v, vB v, vC v, vD v, vE v).

(** A run of rounds with the same function and constant. *)
Lemma sub_rounds fn k ws v i n :
  (i + n <= 80)%nat ->
  (forall t, (i <= t < i + n)%nat -> (forall b c d, f t b c d = fn b c d) /\ K t = k) ->
  tuple (foldl (subRound fn k (map (W ws) (seq 0 80))) v (seq i n))
  = foldl (step ws) (tuple v) (seq i n).
Proof.
  set (Ws := map (W ws) (seq 0 80)).
  revert i v. induction n as [|n IH]; intros i v Hn Hf; [done|]. cbn [seq foldl].
  rewrite IH by (first [lia | intros; apply Hf; lia]). f_equal.
  destruct (Hf i) as [Hfi Hki]; [lia|]. unfold step, tuple, subRound. cbn [vA vB vC vD vE].
  unfold Ws. rewrite nth_map_seq by lia. by rewrite Hfi, Hki.
Qed.

Lemma K_range t j : (t / 20 = j)%nat -> K t = Z.sqrt (nth j [2; 3; 5; 10] 0 * 2 ^ 60).
Proof. by intros <-. Qed.

Lemma round_parameters t :
  ((t < 20)%nat -> (forall b c d, f t b c d = f1 b c d) /\ K t = K1)
  /\ ((20 <= t < 40)%nat -> (forall b c d, f t b c d = f2 b c d) /\ K t = K2)
  /\ ((40 <= t < 60)%nat -> (forall b c d, f t b c d = f3 b c d) /\ K t = K3)
  /\ ((60 <= t < 80)%nat -> (forall b c d, f t b c d = f4 b c d) /\ K t = K4).
Proof.
  unfold f. destruct (Nat.ltb_spec t 20), (Nat.ltb_spec t 40), (Nat.ltb_spec t 60);
    split_and!; intros Ht; try lia; (split; [done|]).
  - by rewrite (K_range t 0) by lia.
  - by rewrite (K_range t 1) by lia.
  - by rewrite (K_range t 2) by lia.
  - by rewrite (K_range t 3) by lia.
Qed.

Lemma sha_transform_compress h b :
  length b = 64%nat -> transform_words (be_words b) h = compress h b.
Proof.
  intros Hb. assert (Hl : length (be_words b) = 16%nat).
  { pose proof (length_be_words b). rewrite Hb in *. change (64 mod 4)%nat with 0%nat in *. lia. }
  unfold transform_words, compress. cbv zeta. rewrite take_ge, expand_schedule by lia.
  change (16 + 64)%nat with 80%nat.
  set (v := {| vA := nth 0 h 0 |}).
  change (nth 0 h 0, nth 1 h 0, nth 2 h 0, nth 3 h 0, nth 4 h 0) with (tuple v).
  replace (foldl (step (be_words b)) (tuple v) (seq 0 80))
    with (foldl (step (be_words b)) (tuple v) (seq 0 20 ++ seq 20 20 ++ seq 40 20 ++ seq 60 20)) by done.
  rewrite !foldl_app.
  rewrite <-(sub_rounds f1 K1) by (lia || intros; apply round_parameters; lia).
  rewrite <-(sub_rounds f2 K2) by (lia || intros; apply round_parameters; lia).
  rewrite <-(sub_rounds f3 K3) by (lia || intros; apply round_parameters; lia).
  rewrite <-(sub_rounds f4 K4) by (lia || intros; apply round_parameters; lia).
  done.
Qed.

Lemma sha_compress_words h b : Forall is_word (compress h b) /\ length (compress h b) = 5%nat.
Proof.
  unfold compress. destruct (foldl _ _ _) as [[[[? ?] ?] ?] ?].
  split; [|done]. repeat constructor; apply plus_word.
Qed.

(** ** The engine *)
#[local] Opaque compress.
Local Abbreviation absorb := (absorb compress iv).

(** The message [m] is in the engine; the counts are those of [n] bytes. *)
Record sha_core (e : SHA1Engine_) (m : list Z) (n : Z) : Prop := {
  sha_words : digest_words (_context e) = absorb m;
  sha_counts : counts (countLo (_context e)) (countHi (_context e)) n;
  sha_slop : slop (_context e) = Z.of_nat (length (rest m));
  sha_data : exists g, data (_context e) = rest m ++ g /\ length (rest m ++ g) = 64%nat
                       /\ Forall is_byte g;
  sha_bytes : Forall is_byte m
}.

Definition sha_rep (e : SHA1Engine_) (m : list Z) : Prop := sha_core e m (Z.of_nat (length m)).

Definition set_data (d : list Z) (e : SHA1Engine_) : SHA1Engine_ :=
  let c := _context e in
  {| _context := {| digest_words := digest_words c; countLo := countLo c; countHi := countHi c;
                    data := d; slop := slop c |}; _digest := _digest e |}.

Lemma put_data_behind (e : SHA1Engine_) a g i bs :
  data (_context e) = a ++ g -> i = Z.of_nat (length a) -> (length bs <= length g)%nat ->
  put_data i bs e = (Done tt, set_data (a ++ bs ++ drop (length bs) g) e).
Proof.
  intros Hd -> Hl. unfold put_data. rewrite bind_get, Nat2Z.id, (blit_behind _ a g) by done. done.
Qed.

(** [SHA1_BYTE_REVERSE(_context.data, BLOCK_SIZE); transform();] on the bytes of a block. *)
Lemma reverse_transform {A} (e : SHA1Engine_) (k : unit -> ST SHA1Engine_ A) :
  Forall is_byte (data (_context e)) -> length (data (_context e)) = 64%nat ->
  bind (byteReverse 64) (fun _ => bind transform k) e
  = k tt {| _context :=
              {| digest_words := compress (digest_words (_context e)) (data (_context e));
                 countLo := countLo (_context e); countHi := countHi (_context e);
                 data := encode (be_words (data (_context e))); slop := slop (_context e) |};
            _digest := _digest e |}.
Proof.
  intros Hb Hl. unfold bind, byteReverse, transform, with_data, with_context, modify.
  pose proof (byte_reversed _ Hb Hl) as Hrev. cbv zeta in Hrev |- *.
  cbn [_context _digest digest_words countLo countHi data slop].
  rewrite Hrev, decode_encode by by apply be_words_words.
  by rewrite sha_transform_compress.
Qed.

Lemma sha_update_byte e m n b :
  sha_core e m n -> is_byte b ->
  exists e', update_byte b e = (Done tt, e') /\ sha_core e' (m ++ [b]) n /\ _digest e' = _digest e.
Proof.
  intros [Hw Hc Hs (g & Hd & Hl & Hg) Hm] Hb. pose proof (length_rest m) as Hr.
  rewrite length_app in Hl. unfold update_byte.
  rewrite bind_get, Hs, (bind_Done _ _ _ _ _ (put_data_behind e _ g _ [b] Hd eq_refl ltac:(simpl; lia))).
  unfold with_data, with_slop, with_context. rewrite !bind_modify, bind_get. simpl.
  unfold u32. rewrite Z.mod_small by lia.
  assert (Hbytes : Forall is_byte (m ++ [b])) by (apply Forall_app; split; [done|by constructor]).
  destruct (Z.eqb_spec (Z.of_nat (length (rest m)) + 1) 64) as [Hfull|Hkeep].
  - destruct (absorb_block compress iv m [b]) as [Ha Hr']; [simpl; lia|].
    assert (Hg1 : length g = 1%nat) by lia. destruct g as [|c [|]]; simpl in Hg1; [lia| |lia].
    rewrite reverse_transform; simpl; rewrite ?drop_0, ?app_nil_r;
      [|apply Forall_app; split; [by apply Forall_drop|by constructor]|rewrite length_app; simpl; lia].
    eexists. split; [reflexivity|]. split; [|reflexivity]. rewrite Hw, <-Ha.
    split; cbn [_context digest_words countLo countHi data slop]; rewrite ?Hr';
      [reflexivity|exact Hc|reflexivity| |exact Hbytes].
    exists (encode (be_words (rest m ++ [b]))). split; [reflexivity|]. split; [|apply encode_bytes].
    rewrite app_nil_l, length_encode. pose proof (length_be_words (rest m ++ [b])) as H4.
    rewrite length_app in H4. simpl in H4. lia.
  - destruct (absorb_keep compress iv m [b]) as [Ha Hr']; [simpl; lia|].
    eexists. split; [reflexivity|]. split; [|reflexivity].
    split; cbn [_context digest_words countLo countHi data slop]; rewrite ?Hr', ?Ha;
      [exact Hw|exact Hc|rewrite length_app; simpl; lia| |exact Hbytes].
    exists (drop 1 g). rewrite <-app_assoc. split; [reflexivity|].
    rewrite !length_app, length_drop. split; [simpl; lia|by apply Forall_drop].
Qed.

Lemma sha_update_bytes e m n d :
  sha_core e m n -> Forall is_byte d ->
  exists e', update_bytes d e = (Done tt, e') /\ sha_core e' (m ++ d) n /\ _digest e' = _digest e.
Proof.
  intros He Hd. revert e m He. induction Hd as [|b d Hb _ IH]; intros e m He.
  - exists e. by rewrite app_nil_r.
  - destruct (sha_update_byte e m n b He Hb) as (e1 & H1 & He1 & Hd1).
    destruct (IH e1 _ He1) as (e2 & H2 & He2 & Hd2).
    exists e2. simpl. rewrite (bind_Done _ _ _ _ _ H1), H2, Hd2, Hd1. rewrite <-app_assoc in He2. done.
Qed.

Lemma sha_update_rep e m d :
  sha_rep e m -> Forall is_byte d -> fits d ->
  exists e', updateImpl d e = (Done tt, e') /\ sha_rep e' (m ++ d) /\ _digest e' = _digest e.
Proof.
  intros He Hd Hfits. unfold updateImpl, with_context, fits in *. cbv zeta. rewrite bind_modify.
  eapply sha_update_bytes in Hd as (e' & -> & He' & Hd'); [by exists e'|].
  destruct He as [Hw Hc Hs Hg Hm]. split; simpl; try done.
  rewrite length_app, Nat2Z.inj_add. destruct (counts_words _ _ _ Hc).
  rewrite carry_sym by (done || unfold is_word, u32; lia). apply counts_add; [lia|lia|done].
Qed.

Lemma sha_initial_rep d : sha_rep {| _context := initial; _digest := d |} [].
Proof.
  split; [done|done|done| |done]. exists (replicate 64 0). split; [done|]. split; [done|].
  by apply Forall_replicate.
Qed.

(** ** The padding, written in place *)

Lemma be_bytes_halves x :
  be_bytes 8 (x mod 2 ^ 64) = be_bytes 4 (x / 2 ^ 32 mod 2 ^ 32) ++ be_bytes 4 (x mod 2 ^ 32).
Proof. unfold be_bytes. by rewrite le_bytes_halves, rev_app_distr. Qed.

Lemma be_words_word w r : is_word w -> be_words (be_bytes 4 w ++ r) = w :: be_words r.
Proof.
  intros Hw. unfold is_word in Hw. unfold be_bytes. simpl. f_equal. unfold le_word.
  rewrite !Z.div_div by lia. lia.
Qed.

(** The last block: its first 56 bytes are in the buffer, the counts are
    written as words behind them. *)
Lemma final_transform (e : SHA1Engine_) P Q hi lo :
  data (_context e) = P ++ Q -> length P = 56%nat -> length Q = 8%nat ->
  Forall is_byte (P ++ Q) -> is_word hi -> is_word lo ->
  exists e',
    (forall A (k : unit -> ST SHA1Engine_ A),
       bind (byteReverse 64) (fun _ => bind (put_data 56 (word_bytes hi)) (fun _ =>
       bind (put_data 60 (word_bytes lo)) (fun _ => bind transform k))) e = k tt e')
    /\ digest_words (_context e')
       = compress (digest_words (_context e)) (P ++ be_bytes 4 hi ++ be_bytes 4 lo)
    /\ _digest e' = _digest e.
Proof.
  intros Hd HP HQ Hb Hhi Hlo.
  assert (Hlen : length (P ++ Q) = 64%nat) by (rewrite length_app; lia).
  pose proof (byte_reversed (P ++ Q) Hb Hlen) as Hrev. cbv zeta in Hrev.
  rewrite be_words_app in Hrev by by rewrite HP.
  rewrite (encode_app (be_words P)) in Hrev.
  assert (HlP : length (encode (be_words P)) = 56%nat).
  { rewrite length_encode. pose proof (length_be_words P). rewrite HP in *.
    change (56 mod 4)%nat with 0%nat in *. lia. }
  assert (HlQ : length (encode (be_words Q)) = 8%nat).
  { rewrite length_encode. pose proof (length_be_words Q). rewrite HQ in *.
    change (8 mod 4)%nat with 0%nat in *. lia. }
  set (e1 := set_data (encode (be_words P) ++ encode (be_words Q)) e).
  set (e2 := set_data (encode (be_words P) ++ word_bytes hi ++ drop 4 (encode (be_words Q))) e1).
  eexists. split; [intros A k|].
  { unfold byteReverse, with_data, with_context. rewrite bind_modify, Hd, Hrev. fold e1.
    rewrite (bind_Done _ _ _ _ _ (put_data_behind e1 (encode (be_words P)) (encode (be_words Q)) 56
               (word_bytes hi) eq_refl ltac:(by rewrite HlP) ltac:(simpl; lia))).
    rewrite (bind_Done _ _ _ _ _ (put_data_behind e2 (encode (be_words P) ++ word_bytes hi)
               (drop 4 (encode (be_words Q))) 60 (word_bytes lo)
               (app_assoc _ _ _) ltac:(rewrite length_app, HlP; done) ltac:(rewrite length_drop; simpl; lia))).
    unfold transform, with_context. rewrite bind_modify. reflexivity. }
  split; [|reflexivity]. cbn [set_data e1 e2 _context digest_words data].
  rewrite (drop_ge (drop 4 _)), app_nil_r by (rewrite length_drop; simpl; lia).
  set (B := P ++ be_bytes 4 hi ++ be_bytes 4 lo).
  assert (HB : be_words B = be_words P ++ [hi; lo]).
  { unfold B. rewrite be_words_app, be_words_word by (done || by rewrite HP).
    by rewrite <-(app_nil_r (be_bytes 4 lo)), be_words_word. }
  replace ((encode (be_words P) ++ word_bytes hi) ++ word_bytes lo) with (encode (be_words B))
    by (rewrite HB, encode_app, <-app_assoc; unfold encode at 2; simpl; reflexivity).
  apply Forall_app in Hb as [HbP _].
  rewrite decode_encode by (rewrite HB; apply Forall_app; split; [by apply be_words_words|constructor; [done|by constructor]]).
  apply sha_transform_compress. unfold B. rewrite !length_app, !length_be_bytes. lia.
Qed.

(** Both shapes of the padding, as the blocks that [digest] builds. *)
Lemma padded_one m hi lo :
  counts lo hi (Z.of_nat (length m)) -> (length (rest m) < 56)%nat ->
  absorb (padded be_bytes m)
  = compress (absorb m)
      ((rest m ++ [0x80] ++ replicate (55 - length (rest m)) 0) ++ be_bytes 4 hi ++ be_bytes 4 lo).
Proof.
  intros [-> ->] Hr. pose proof (length_rest m) as Hm. unfold padded.
  rewrite be_bytes_halves. unfold padding.
  replace (Z.to_nat ((55 - Z.of_nat (length m)) mod 64)) with (55 - length (rest m))%nat by lia.
  set (d := (_ :: _) ++ _).
  destruct (absorb_block compress iv m d) as [-> _]; [|by rewrite <-!app_assoc].
  unfold d. rewrite !length_app, !length_be_bytes. simpl. rewrite length_replicate. lia.
Qed.

Lemma padded_two m hi lo :
  counts lo hi (Z.of_nat (length m)) -> (56 <= length (rest m))%nat ->
  absorb (padded be_bytes m)
  = compress (compress (absorb m) (rest m ++ [0x80] ++ replicate (63 - length (rest m)) 0))
      (replicate 56 0 ++ be_bytes 4 hi ++ be_bytes 4 lo).
Proof.
  intros [-> ->] Hr. pose proof (length_rest m) as Hm. unfold padded.
  rewrite be_bytes_halves. unfold padding.
  replace (Z.to_nat ((55 - Z.of_nat (length m)) mod 64)) with (63 - length (rest m) + 56)%nat by lia.
  set (d1 := [0x80] ++ replicate (63 - length (rest m)) 0). set (d2 := replicate 56 0 ++ _).
  assert (Hp : forall X, m ++ (0x80 :: replicate (63 - length (rest m) + 56) 0) ++ X
               = (m ++ d1) ++ replicate 56 0 ++ X).
  { intros X. unfold d1. rewrite replicate_add, <-!app_assoc. simpl. by rewrite <-app_assoc. }
  rewrite Hp. fold d2.
  destruct (absorb_block compress iv m d1) as [Ha Hr'];
    [unfold d1; simpl; rewrite length_replicate; lia|].
  destruct (absorb_block compress iv (m ++ d1) d2) as [-> _]; [|by rewrite Hr', Ha].
  unfold d2. by rewrite Hr', !length_app, !length_be_bytes.
Qed.

(** The bytes of the result are the words, high byte first. *)
Lemma hash_bytes_words h :
  Forall is_word h -> length h = 5%nat -> map (hash_byte h) (seq 0 20) = concat (map (be_bytes 4) h).
Proof.
  intros Hw Hl. do 5 (destruct h as [|? h]; [done|]). destruct h; [|done]. inv_Forall.
  unfold is_word in *. cbn -[Z.shiftr Z.land Z.div Z.modulo Z.mul Z.sub].
  unfold hash_byte. cbn -[Z.shiftr Z.land Z.div Z.modulo]. 
  unfold u8. mask_to_mod. rewrite !Z.shiftr_div_pow2, !Z.div_div by lia.
  rewrite !Z.mod_mod by lia.
  repeat match goal with |- context [2 ^ ?e] => let v := eval vm_compute in (2 ^ e) in change (2 ^ e) with v end.
  rewrite !Z.div_1_r. reflexivity.
Qed.

Lemma sha_absorb_words m : Forall is_word (absorb m) /\ length (absorb m) = 5%nat.
Proof.
  unfold Iterated.absorb. induction (blocks (full m) m) as [|b bs _] using rev_ind.
  - split; [|done]. unfold is_word. repeat constructor; simpl; lia.
  - rewrite foldl_app. apply sha_compress_words.
Qed.

(** The end of [digest], from the last block on. *)
Lemma sha_digest_end (e : SHA1Engine_) h :
  digest_words (_context e) = h -> Forall is_word h -> length h = 5%nat ->
  exists e', bind (byteReverse 20) (fun _ =>
    bind (modify (fun e => {| _context := _context e;
                              _digest := map (hash_byte (digest_words (_context e))) (seq 0 20) |}))
         (fun _ => reset_)) e = (Done tt, e')
    /\ sha_rep e' [] /\ _digest e' = concat (map (be_bytes 4) h).
Proof.
  intros Hh Hw Hl. unfold byteReverse, with_data, with_context. rewrite !bind_modify.
  eexists. split; [reflexivity|]. split; [apply sha_initial_rep|].
  cbn [_context _digest digest_words]. rewrite Hh. by apply hash_bytes_words.
Qed.

(** The padding to 56 bytes, behind the byte 0x80. *)
Lemma sha_pad (e : SHA1Engine_) m g hi lo :
  data (_context e) = (rest m ++ [0x80]) ++ g -> digest_words (_context e) = absorb m ->
  length ((rest m ++ [0x80]) ++ g) = 64%nat -> Forall is_byte ((rest m ++ [0x80]) ++ g) ->
  counts lo hi (Z.of_nat (length m)) ->
  let count := Z.of_nat (length (rest m)) + 1 in
  exists e' P Q,
    (if 56 <? count then
       do* put_data count (replicate (Z.to_nat (64 - count)) 0);
       do* byteReverse 64;
       do* transform;
       put_data 0 (replicate 56 0)
     else put_data count (replicate (Z.to_nat (56 - count)) 0)) e = (Done tt, e')
    /\ data (_context e') = P ++ Q /\ length P = 56%nat /\ length Q = 8%nat
    /\ Forall is_byte (P ++ Q)
    /\ compress (digest_words (_context e')) (P ++ be_bytes 4 hi ++ be_bytes 4 lo)
       = absorb (padded be_bytes m).
Proof.
  intros Hd Hw Hl Hb Hc count. pose proof (length_rest m) as Hr.
  assert (Hi : count = Z.of_nat (length (rest m ++ [0x80]))) by (rewrite length_app; simpl; lia).
  rewrite length_app in Hl. pose proof Hb as [Hb1 Hg]%Forall_app.
  assert (Hz : forall n, Forall is_byte (replicate n 0)) by (intros; by apply Forall_replicate).
  destruct (Z.ltb_spec 56 count) as [Hlt|Hge].
  - set (n := Z.to_nat (64 - count)).
    rewrite (bind_Done _ _ _ _ _ (put_data_behind e _ g _ (replicate n 0) Hd Hi
               ltac:(rewrite length_replicate; lia))).
    rewrite length_replicate, (drop_ge g), app_nil_r by lia.
    rewrite reverse_transform; cbn [set_data _context data];
      [|by apply Forall_app|rewrite length_app, length_replicate; lia].
    set (d := encode _). set (e2 := {| _context := _ |}).
    assert (Hd2 : length d = 64%nat).
    { unfold d. rewrite length_encode. set (x := (_ ++ _)).
      assert (Hx : length x = 64%nat) by (unfold x; rewrite length_app, length_replicate; lia).
      pose proof (length_be_words x). rewrite Hx in *. change (64 mod 4)%nat with 0%nat in *. lia. }
    rewrite (put_data_behind e2 [] d 0 (replicate 56 0) eq_refl eq_refl
               ltac:(rewrite length_replicate; lia)).
    do 2 eexists. exists (drop 56 d). split; [reflexivity|]. rewrite length_replicate.
    split; [reflexivity|]. rewrite length_replicate, length_drop, Hd2. split_and!; [done|done| |].
    + apply Forall_app. split; [done|]. apply Forall_drop, encode_bytes.
    + rewrite (padded_two m hi lo) by (done || lia). cbn [set_data _context digest_words e2].
      rewrite Hw, <-app_assoc. unfold n. by replace (Z.to_nat _) with (63 - length (rest m))%nat by lia.
  - set (n := Z.to_nat (56 - count)).
    rewrite (put_data_behind e _ g _ (replicate n 0) Hd Hi ltac:(rewrite length_replicate; lia)).
    rewrite length_replicate.
    exists (set_data ((rest m ++ [0x80]) ++ replicate n 0 ++ drop n g) e),
      ((rest m ++ [0x80]) ++ replicate n 0), (drop n g).
    split; [reflexivity|]. split; [apply app_assoc|].
    split; [rewrite length_app, length_replicate; lia|]. split; [rewrite length_drop; lia|].
    split; [rewrite <-app_assoc; apply Forall_app; split; [done|]; apply Forall_app; split; [done|]; by apply Forall_drop|].
    rewrite (padded_one m hi lo) by (done || lia). cbn [set_data _context digest_words].
    rewrite Hw, <-!app_assoc. unfold n. by replace (Z.to_nat _) with (55 - length (rest m))%nat by lia.
Qed.

Lemma sha_digest_rep e m :
  sha_rep e m ->
  exists e', digest_ e = (Done tt, e') /\ sha_rep e' [] /\ _digest e' = sha1 m.
Proof.
  intros [Hw Hc Hs (g & Hd & Hl & Hg) Hm]. pose proof (length_rest m) as Hr.
  destruct (counts_words _ _ _ Hc) as [Hlo Hhi]. rewrite length_app in Hl.
  unfold digest_. rewrite bind_get, (counts_index _ _ _ Hc), <-Hr. cbv zeta.
  rewrite (bind_Done _ _ _ _ _ (put_data_behind e _ g _ [0x80] Hd eq_refl ltac:(simpl; lia))).
  set (e1 := set_data _ e). change (length [0x80]) with 1%nat in e1.
  destruct (sha_pad e1 m (drop 1 g) (countHi (_context e)) (countLo (_context e)))
    as (e2 & P & Q & H2 & Hd2 & HP & HQ & Hb2 & Hpad); [by rewrite <-app_assoc|done| | |done|].
  { rewrite !length_app, length_drop. simpl. lia. }
  { rewrite !Forall_app. split_and!; [by apply Forall_drop| |by apply Forall_drop]. by constructor. }
  rewrite (bind_Done _ _ _ _ _ H2).
  destruct (final_transform e2 P Q _ _ Hd2 HP HQ Hb2 Hhi Hlo) as (e3 & Hfin & Hw3 & _).
  rewrite Hfin. rewrite Hpad in Hw3.
  destruct (sha_absorb_words (padded be_bytes m)) as [HW HL].
  exact (sha_digest_end e3 _ Hw3 HW HL).
Qed.

#[export] Instance sha1_hash_engine : HashEngine SHA1Engine sha1.
Proof.
  refine {| rep := sha_rep : engine SHA1Engine -> _ -> _ |}; simpl; try lia.
  - intros m. unfold sha1, hash. rewrite concat_bytes_length by (intros; apply length_be_bytes).
    by rewrite (proj2 (sha_absorb_words _)).
  - intros m. unfold sha1, hash. apply Forall_concat, Forall_map, Forall_true. auto with poco.
  - eexists. split; [done|]. apply sha_initial_rep.
  - intros e m He. eexists. split; [reflexivity|]. split; [apply sha_initial_rep|done].
  - apply sha_update_rep.
  - apply sha_digest_rep.
Defined.
