(* ===== verification/DigestClaims.v ===== *)
(** What the digest engines promise: the hashes of RFC 1320, RFC 1321,
    FIPS 180-1 and RFC 2104 for every way of feeding the data, the typing of
    the contexts, the input that does not end, and the hexadecimal form. *)

From S2P Require Import Prelude Digest DigestSpec DigestFacts ShaFacts.
From Stdlib Require Import ZifyNat.

Open Scope st_scope.
Local Open Scope Z_scope.

Lemma Done_inj {A} (a b : A) : Done a = Done b -> a = b.
Proof. by injection 1. Qed.

(** ** Clients of an engine *)

(** Data as the calls of [update] give it. *)
Definition feedable (chunks : list (list Z)) : Prop :=
  Forall (fun d => Forall is_byte d /\ fits d) chunks.

Section Sessions.
Context {E : DigestEngine} {H : list Z -> list Z} `{HE : !HashEngine E H}.

Lemma update_all_rep chunks e m :
  rep e m -> feedable chunks ->
  exists e', update_all E chunks e = (Done tt, e') /\ rep e' (m ++ concat chunks).
Proof.
  intros He Hc. revert e m He. induction Hc as [|d r [Hd Hf] _ IH]; intros e m He; simpl.
  - exists e. by rewrite app_nil_r.
  - destruct (update_rep e m d He Hd Hf) as (e1 & H1 & He1 & _).
    destruct (IH e1 _ He1) as (e2 & H2 & He2). exists e2.
    rewrite (bind_Done _ _ _ _ _ H1), app_assoc. done.
Qed.

Lemma digests_rep messages e :
  rep e [] -> Forall feedable messages ->
  exists e', digests E messages e = (Done (map (fun chunks => H (concat chunks)) messages), e').
Proof.
  intros He Hm. revert e He. induction Hm as [|chunks r Hc _ IH]; intros e He; simpl; [by exists e|].
  destruct (update_all_rep chunks e [] He Hc) as (e1 & H1 & He1).
  destruct (digest_rep e1 _ He1) as (e2 & H2 & He2 & Hres).
  destruct (IH e2 He2) as (e3 & H3). exists e3.
  rewrite (bind_Done _ _ _ _ _ H1), (bind_Done _ _ _ _ _ H2), bind_get, (bind_Done _ _ _ _ _ H3).
  unfold ret. by rewrite Hres.
Qed.

Lemma session_rep messages :
  Forall feedable messages -> session E messages = Done (map (fun chunks => H (concat chunks)) messages).
Proof.
  intros Hm. destruct construct_rep as (e & Hcon & He). unfold session. rewrite Hcon. simpl.
  destruct (digests_rep messages e He Hm) as [e' ->]. done.
Qed.
End Sessions.

(** ** HMAC, against the interface *)
Section Hmac.
Import HMAC.
Context {E : DigestEngine} {H : list Z -> list Z} `{HE : !HashEngine E H}.
Context (key : list Z).

Local Abbreviation inner := (RFC2104.xor_byte 0x36 (RFC2104.key_block H (BLOCK_SIZE E) key)).
Local Abbreviation outer := (RFC2104.xor_byte 0x5c (RFC2104.key_block H (BLOCK_SIZE E) key)).

Record hmac_rep (h : HMACEngine_ E) (m : list Z) : Prop := {
  hmac_engine : rep (_engine _ h) (inner ++ m);
  hmac_ipad : _ipad _ h = inner;
  hmac_opad : _opad _ h = outer
}.

Lemma call_Done {A} (f : ST (engine E) A) e i o a e' :
  f e = (Done a, e') ->
  call E f {| _engine := e; _ipad := i; _opad := o |}
  = (Done a, {| _engine := e'; _ipad := i; _opad := o |}).
Proof. intros Hf. unfold call. cbn. by rewrite Hf. Qed.

Lemma key_block_length : length (RFC2104.key_block H (BLOCK_SIZE E) key) = BLOCK_SIZE E.
Proof.
  unfold RFC2104.key_block. rewrite length_app, length_replicate.
  destruct (Nat.ltb_spec (BLOCK_SIZE E) (length key)); [|lia].
  rewrite hash_length. pose proof digest_in_block. lia.
Qed.

Lemma xor_bytes c l : is_byte c -> Forall is_byte l -> Forall is_byte (RFC2104.xor_byte c l).
Proof.
  intros Hc Hl. apply Forall_map. revert Hl. apply Forall_impl. intros x Hx.
  unfold is_byte in *. split; [by apply Z.lxor_nonneg; lia|].
  destruct (decide (Z.lxor x c = 0)) as [->|Hn]; [lia|]. change 256 with (2 ^ 8).
  assert (0 <= Z.lxor x c) by (apply Z.lxor_nonneg; lia).
  apply Z.log2_lt_pow2; [lia|]. eapply Z.le_lt_trans; [apply Z.log2_lxor; lia|].
  assert (forall y, 0 <= y < 256 -> Z.log2 y < 8) as Hlog.
  { intros y Hy. destruct (decide (y = 0)) as [->|]; [done|]. apply Z.log2_lt_pow2; lia. }
  apply Z.max_lub_lt; by apply Hlog.
Qed.

Context (key_bytes : Forall is_byte key) (key_fits : fits key).

Lemma key_block_bytes : Forall is_byte (RFC2104.key_block H (BLOCK_SIZE E) key).
Proof.
  unfold RFC2104.key_block. apply Forall_app. split; [|by apply Forall_replicate].
  destruct (_ <? _)%nat; [apply hash_bytes|done].
Qed.

Lemma pad_fed c : is_byte c ->
  Forall is_byte (RFC2104.xor_byte c (RFC2104.key_block H (BLOCK_SIZE E) key))
  /\ fits (RFC2104.xor_byte c (RFC2104.key_block H (BLOCK_SIZE E) key)).
Proof.
  intros Hc. split; [by apply xor_bytes, key_block_bytes|].
  unfold fits, RFC2104.xor_byte. rewrite length_map, key_block_length. pose proof block_fits. lia.
Qed.

Lemma hmac_reset_rep h m :
  rep (_engine _ h) m -> _ipad _ h = inner -> _opad _ h = outer ->
  exists h', HMAC.reset_ E h = (Done tt, h') /\ hmac_rep h' []
             /\ result E (_engine _ h') = result E (_engine _ h).
Proof.
  destruct h as [e i o]. cbn [_engine _ipad _opad]. intros Hr -> ->. destruct (reset_rep _ m Hr) as (e1 & H1 & He1 & Hres1).
  destruct (pad_fed 0x36 ltac:(done)) as [Hb Hf].
  destruct (update_rep e1 [] _ He1 Hb Hf) as (e2 & H2 & He2 & Hres2).
  unfold HMAC.reset_. rewrite (bind_Done _ _ _ _ _ (call_Done _ _ _ _ _ _ H1)), bind_get. cbn [_engine _ipad _opad].
  rewrite (call_Done _ _ _ _ _ _ H2). eexists. split; [done|].
  split; [split; simpl; [by rewrite app_nil_r|done|done]|by simpl; rewrite Hres2].
Qed.

Lemma hmac_digest_rep h m :
  hmac_rep h m ->
  exists h', HMAC.digest_ E h = (Done tt, h') /\ hmac_rep h' []
             /\ result E (_engine _ h') = RFC2104.hmac H (BLOCK_SIZE E) key m.
Proof.
  destruct h as [e i o]. intros [Hr Hi Ho]. cbn [_engine _ipad _opad] in *. subst i o.
  destruct (digest_rep _ _ Hr) as (e1 & H1 & He1 & Hres1).
  destruct (reset_rep _ _ He1) as (e2 & H2 & He2 & _).
  destruct (pad_fed 0x5c ltac:(done)) as [Hb Hf].
  destruct (update_rep e2 [] _ He2 Hb Hf) as (e3 & H3 & He3 & _).
  destruct (update_rep e3 _ (H (inner ++ m)) He3 (hash_bytes _)) as (e4 & H4 & He4 & _).
  { unfold fits. rewrite hash_length. pose proof block_fits. pose proof digest_in_block. lia. }
  destruct (digest_rep _ _ He4) as (e5 & H5 & He5 & Hres5).
  unfold HMAC.digest_. rewrite (bind_Done _ _ _ _ _ (call_Done _ _ _ _ _ _ H1)), bind_get. cbn [_engine _ipad _opad].
  rewrite Hres1, hash_length, Nat.eqb_refl, bind_ret.
  rewrite (bind_Done _ _ _ _ _ (call_Done _ _ _ _ _ _ H2)). cbn [_engine _ipad _opad].
  rewrite (bind_Done _ _ _ _ _ (call_Done _ _ _ _ _ _ H3)). cbn [_engine _ipad _opad].
  rewrite (bind_Done _ _ _ _ _ (call_Done _ _ _ _ _ _ H4)). cbn [_engine _ipad _opad].
  rewrite (bind_Done _ _ _ _ _ (call_Done _ _ _ _ _ _ H5)). cbn [_engine _ipad _opad].
  destruct (hmac_reset_rep {| _engine := e5; _ipad := inner; _opad := outer |} _ He5 eq_refl eq_refl)
    as (h' & Hreset & Hh' & Hres).
  exists h'. split; [exact Hreset|]. split; [done|]. rewrite Hres. simpl. by rewrite Hres5.
Qed.

(** The pads that [init] computes. *)
Lemma blit_key n d : (length d <= n)%nat ->
  blit (replicate n 0) 0 d = Done (d ++ replicate (n - length d) 0).
Proof.
  intros Hd. rewrite (blit_behind _ [] (replicate n 0)) by (done || by rewrite length_replicate).
  by rewrite drop_replicate.
Qed.

Lemma load_key_rep e m :
  rep e m ->
  exists e' m', load_key E key {| _engine := e; _ipad := []; _opad := [] |}
    = (Done (RFC2104.key_block H (BLOCK_SIZE E) key), {| _engine := e'; _ipad := []; _opad := [] |})
    /\ rep e' m'.
Proof.
  intros He. unfold load_key, RFC2104.key_block. cbv zeta.
  destruct (Nat.ltb_spec (BLOCK_SIZE E) (length key)) as [Hlt|Hge].
  - destruct (reset_rep _ _ He) as (e1 & H1 & He1 & _).
    destruct (update_rep e1 [] key He1 key_bytes key_fits) as (e2 & H2 & He2 & _).
    destruct (digest_rep _ _ He2) as (e3 & H3 & He3 & Hres).
    exists e3, []. split; [|done].
    rewrite (bind_Done _ _ _ _ _ (call_Done _ _ _ _ _ _ H1)).
    rewrite (bind_Done _ _ _ _ _ (call_Done _ _ _ _ _ _ H2)).
    rewrite (bind_Done _ _ _ _ _ (call_Done _ _ _ _ _ _ H3)), bind_get.
    cbn [_engine _ipad _opad]. rewrite Hres, app_nil_l.
    pose proof digest_in_block. pose proof (hash_length key).
    rewrite take_ge, blit_key by lia. done.
  - exists e, m. split; [|done]. by rewrite blit_key by lia.
Qed.

Lemma hmac_construct_rep : exists h, HMAC.construct_ E key = Done h /\ hmac_rep h [].
Proof.
  destruct construct_rep as (e & Hcon & He). unfold HMAC.construct_. rewrite Hcon. simpl rbind.
  destruct (load_key_rep e [] He) as (e' & m' & Hkey & He').
  edestruct (hmac_reset_rep {| _engine := e'; _ipad := inner; _opad := outer |} m')
    as (h & Hreset & Hh & _); [done..|].
  exists h. split; [|done]. unfold HMAC.init. rewrite bind_bind, (bind_Done _ _ _ _ _ Hkey).
  unfold set_pads. rewrite bind_bind, bind_modify. cbn [_engine].
  unfold RFC2104.xor_byte in Hreset.
  rewrite (map_ext (Z.lxor 0x36) (fun x => Z.lxor x 0x36)) by (intros; apply Z.lxor_comm).
  rewrite (map_ext (Z.lxor 0x5c) (fun x => Z.lxor x 0x5c)) by (intros; apply Z.lxor_comm).
  by rewrite (bind_Done _ _ _ _ _ Hreset).
Qed.

Instance hmac_hash_engine :
  HashEngine (HMACEngine E key) (RFC2104.hmac H (BLOCK_SIZE E) key).
Proof.
  refine {| rep := hmac_rep : engine (HMACEngine E key) -> _ -> _ |}; simpl.
  - apply block_fits.
  - apply digest_in_block.
  - intros m. unfold RFC2104.hmac. apply hash_length.
  - intros m. unfold RFC2104.hmac. apply hash_bytes.
  - apply hmac_construct_rep.
  - intros h m [Hr Hi Ho]. by apply (hmac_reset_rep h (inner ++ m)).
  - intros [e i o] m d [Hr Hi Ho] Hd Hf. destruct (update_rep _ _ d Hr Hd Hf) as (e' & Hu & He' & Hres).
    unfold HMAC.updateImpl. rewrite (call_Done _ _ _ _ _ _ Hu). eexists. split; [done|].
    split; [split; simpl; [by rewrite app_assoc|done|done]|done].
  - apply hmac_digest_rep.
Defined.
End Hmac.

(** ** The engines *)

Lemma feedable_all messages :
  forallb (forallb (fun d => forallb is_byteb d && (Z.of_nat (length d) + 63 <? 2 ^ 32))) messages = true ->
  Forall feedable messages.
Proof.
  intros Hall. rewrite forallb_forall in Hall. apply List.Forall_forall. intros chunks Hc.
  apply List.Forall_forall. intros d Hd. specialize (Hall _ Hc). rewrite forallb_forall in Hall.
  apply Hall, andb_true_iff in Hd as [Hb Hf].
  split; [by apply bytes_Forall|]. unfold fits. lia.
Qed.

(** C32: one MD5Engine or MD4Engine, used for any number of messages that
    arrive in any number of calls of less than 2^32 - 63 bytes each (see
    [md_huge_update_diverges]), leaves after each [digest] the hash of
    RFC 1321 or RFC 1320 of the bytes of that message: the unrolled rounds,
    the buffering of partial blocks, the bit counts, the padding and the
    reset. *)
Theorem md_session_rfc messages :
  Forall feedable messages ->
  session MD5.MD5Engine messages = Done (map (fun chunks => RFC1321.md5 (concat chunks)) messages)
  /\ session MD4.MD4Engine messages = Done (map (fun chunks => RFC1320.md4 (concat chunks)) messages).
Proof. intros Hm. split; by apply session_rep. Qed.

Lemma md_session_rfc_witness :
  map (fun chunks => RFC1321.md5 (concat chunks)) [[str "mess"; []; str "age digest"]; [[]]]
  = [[0xf9; 0x6b; 0x69; 0x7d; 0x7c; 0xb7; 0x93; 0x8d; 0x52; 0x5a; 0x2f; 0x31; 0xaa; 0xf1; 0x61; 0xd0];
     [0xd4; 0x1d; 0x8c; 0xd9; 0x8f; 0x00; 0xb2; 0x04; 0xe9; 0x80; 0x09; 0x98; 0xec; 0xf8; 0x42; 0x7e]]
  /\ map (fun chunks => RFC1320.md4 (concat chunks)) [[str "a"; str "bc"]]
  = [[0xa4; 0x48; 0x01; 0x7a; 0xaf; 0x21; 0xd8; 0x52; 0x5f; 0xc1; 0x0a; 0xe8; 0x7a; 0xa6; 0x72; 0x9d]].
Proof.
  split; apply Done_inj.
  - pose proof (proj1 (md_session_rfc [[str "mess"; []; str "age digest"]; [[]]]
      ltac:(apply feedable_all; vm_compute; reflexivity))) as E.
    rewrite <-E. vm_compute. reflexivity.
  - pose proof (proj2 (md_session_rfc [[str "a"; str "bc"]]
      ltac:(apply feedable_all; vm_compute; reflexivity))) as E.
    rewrite <-E. vm_compute. reflexivity.
Defined.

(** C34: one SHA1Engine, for any number of messages in any number of calls of
    less than 2^32 - 63 bytes each, computes the hashes of FIPS 180-1: the words reversed in place
    on a little-endian machine, the message schedule in an array, and the
    padding that [digest] writes into the buffer, in one block or in two. *)
Theorem sha1_session_fips180 messages :
  Forall feedable messages ->
  session SHA1.SHA1Engine messages = Done (map (fun chunks => FIPS180_1.sha1 (concat chunks)) messages).
Proof. apply session_rep. Qed.

(** Two blocks of padding in the second message. *)
Lemma sha1_session_fips180_witness :
  map (fun chunks => FIPS180_1.sha1 (concat chunks))
    [[str "a"; str "bc"]; [str "abcdbcdecdefdefgefghfghighij"; str "hijkijkljklmklmnlmnomnopnopq"]]
  = [[0xa9; 0x99; 0x3e; 0x36; 0x47; 0x06; 0x81; 0x6a; 0xba; 0x3e;
      0x25; 0x71; 0x78; 0x50; 0xc2; 0x6c; 0x9c; 0xd0; 0xd8; 0x9d];
     [0x84; 0x98; 0x3e; 0x44; 0x1c; 0x3b; 0xd2; 0x6e; 0xba; 0xae;
      0x4a; 0xa1; 0xf9; 0x51; 0x29; 0xe5; 0xe5; 0x46; 0x70; 0xf1]].
Proof.
  apply Done_inj. rewrite <-sha1_session_fips180; [vm_compute; reflexivity|].
  apply feedable_all. vm_compute. reflexivity.
Defined.

(** C33: [HMACEngine<Engine>] over any engine that keeps the promises of
    [HashEngine] computes the HMAC of RFC 2104, for every key, message after
    message; it keeps the same promises itself.  [digest] returns a reference
    into the inner engine, which is reset before the caller reads it: the
    digest is still there. *)
Theorem hmac_session_rfc2104 E H `{!HashEngine E H} key messages :
  Forall is_byte key -> fits key -> Forall feedable messages ->
  session (HMAC.HMACEngine E key) messages
  = Done (map (fun chunks => RFC2104.hmac H (BLOCK_SIZE E) key (concat chunks)) messages).
Proof.
  intros Hb Hf Hm. pose proof (hmac_hash_engine key Hb Hf). by apply session_rep.
Qed.

Lemma hmac_session_rfc2104_witness :
  map (fun chunks => RFC2104.hmac RFC1321.md5 (BLOCK_SIZE MD5.MD5Engine) (str "Jefe") (concat chunks))
    [[str "what do ya want "; str "for nothing?"]]
  = [[0x75; 0x0c; 0x78; 0x3e; 0x6a; 0xb0; 0xb5; 0x03; 0xea; 0xa8; 0x6e; 0x31; 0x0a; 0x5d; 0xb7; 0x38]].
Proof.
  apply Done_inj. rewrite <-(hmac_session_rfc2104 MD5.MD5Engine RFC1321.md5).
  - vm_compute. reflexivity.
  - apply str_bytes.
  - unfold fits. vm_compute. reflexivity.
  - apply feedable_all. vm_compute. reflexivity.
Defined.

(** ** Too much data in one call *)

(** A single call of [update] with 2^32 bytes or more, at a block
    boundary, does not return in MD4Engine and MD5Engine: the loop's
    [unsigned int i] wraps around before [i + 63 < inputLen] fails. *)
Theorem md_huge_update_diverges transform fuel d st :
  2 ^ 32 <= Z.of_nat (length d) -> MD.transform_loop transform fuel d 64 st = Eof.
Proof. intros Hd. by apply transform_loop_diverges. Qed.

Lemma md_huge_update_diverges_witness :
  MD.transform_loop MD5.transform 1000 (replicate (Z.to_nat (2 ^ 32)) 0) 64 (MD.state MD.initial) = Eof.
Proof. apply md_huge_update_diverges. rewrite length_replicate, Z2Nat.id; lia. Defined.

(** ** Hexadecimal form *)
Lemma digest_hex_value n : 0 <= n < 16 -> hex_value (nth (Z.to_nat n) digits 0) = Done n.
Proof.
  intros Hn. assert (Hall : allbelow 16 (fun n => bool_decide (hex_value (nth (Z.to_nat n) digits 0) = Done n)) = true)
    by (vm_compute; reflexivity).
  by apply (allbelow_spec _ _ Hall), bool_decide_eq_true in Hn.
Qed.

Lemma length_digestToHex bs : length (digestToHex bs) = (2 * length bs)%nat.
Proof. induction bs as [|b bs IH]; simpl; [done|]. rewrite IH. lia. Qed.

Lemma from_hex_to_hex bs : Forall is_byte bs -> from_hex_loop (digestToHex bs) = Done bs.
Proof.
  induction 1 as [|b bs Hb _ IH]; cbn [digestToHex from_hex_loop]; [done|]. unfold is_byte in Hb.
  mask_to_mod. rewrite Z.shiftr_div_pow2 by lia.
  rewrite (digest_hex_value (b / 2 ^ 4 mod 2 ^ 4)), (digest_hex_value (b mod 2 ^ 4)) by lia. simpl.
  rewrite IH. simpl. do 2 f_equal. unfold u8. rewrite Z.shiftl_mul_pow2 by lia. lia.
Qed.

(** A character that [digestFromHex] takes. *)
Definition is_hex (c : Z) : bool :=
  ((chr "0" <=? c) && (c <=? chr "9")) || ((chr "a" <=? c) && (c <=? chr "f"))
  || ((chr "A" <=? c) && (c <=? chr "F")).

Lemma hex_value_dec c :
  if is_hex c then exists n, hex_value c = Done n /\ 0 <= n < 16 else hex_value c = Raise DataFormatException.
Proof.
  unfold is_hex, hex_value. change (chr "0") with 48. change (chr "9") with 57.
  change (chr "a") with 97. change (chr "f") with 102. change (chr "A") with 65. change (chr "F") with 70.
  destruct ((48 <=? c) && (c <=? 57)) eqn:E1; simpl; [eexists; split; [done|lia]|].
  destruct ((97 <=? c) && (c <=? 102)) eqn:E2; simpl; [eexists; split; [done|lia]|].
  destruct ((65 <=? c) && (c <=? 70)) eqn:E3; simpl; [eexists; split; [done|lia]|done].
Qed.

Lemma from_hex_outcome s :
  (length s mod 2 = 0)%nat ->
  if forallb is_hex s then exists bs, from_hex_loop s = Done bs /\ Forall is_byte bs
                                      /\ length s = (2 * length bs)%nat
  else from_hex_loop s = Raise DataFormatException.
Proof.
  chunk_induction s 2%nat.
  - intros l Hl He. rewrite Nat.mod_small in He by done. destruct l; [|done]. by exists [].
  - intros g r Hg IH He. destruct g as [|h [|l [|]]]; try done. simpl app in *. simpl forallb.
    simpl length in He. assert (Hr : (length r mod 2 = 0)%nat) by lia.
    specialize (IH Hr). simpl from_hex_loop.
    pose proof (hex_value_dec h) as Hh. destruct (is_hex h); [|by rewrite Hh].
    destruct Hh as (nh & -> & Hnh). simpl.
    pose proof (hex_value_dec l) as Hv. destruct (is_hex l); [|by rewrite Hv].
    destruct Hv as (nl & -> & Hnl). simpl. destruct (forallb is_hex r); [|by rewrite IH].
    destruct IH as (bs & -> & Hbs & Hlen). eexists. split; [done|].
    split; [by constructor; auto with poco|]. simpl. lia.
Qed.

(** [digestFromHex] inverts [digestToHex]; of the other strings it takes
    exactly those of even length and hexadecimal digits of either case, and
    throws DataFormatException for the rest. *)
Theorem digest_hex_roundtrip bs s :
  Forall is_byte bs ->
  digestFromHex (digestToHex bs) = Done bs
  /\ (if (length s mod 2 =? 0)%nat && forallb is_hex s
      then exists d, digestFromHex s = Done d /\ Forall is_byte d /\ length s = (2 * length d)%nat
      else digestFromHex s = Raise DataFormatException).
Proof.
  intros Hbs. unfold digestFromHex. split.
  - rewrite length_digestToHex, Nat.mul_comm, Nat.Div0.mod_mul. by apply from_hex_to_hex.
  - destruct (Nat.eqb_spec (length s mod 2) 0) as [He|]; [|done]. by apply from_hex_outcome.
Qed.

Lemma digest_hex_roundtrip_witness :
  digestFromHex (digestToHex [0; 171; 255]) = Done [0; 171; 255]
  /\ digestFromHex (str "0G") = Raise DataFormatException.
Proof. apply (digest_hex_roundtrip [0; 171; 255] (str "0G")). by apply bytes_Forall. Defined.
