(* ===== verification/HashTable.v ===== *)
(** Linear hashing (Foundation/include/Poco/LinearHashTable.h) and the two
    containers built on it, HashSet.h and HashMap.h.

    The table is a vector of buckets that grows by one bucket per insertion
    and shrinks by one per removal: [split] and [merge] move the elements of
    one bucket.  An access outside a vector and a remainder by zero are
    undefined behaviour ([UB]); the theorems show that neither happens, and
    that the table implements a set up to the order of its elements. *)

From stdpp Require Import gmap.
From S2P Require Import Prelude.

Open Scope res_scope.

(** ** The code *)

Module Table.
Record LinearHashTable (Value : Type) := {
  _buckets : list (list Value);
  _split : Z;       (* std::size_t *)
  _front : Z;
  _size : Z
}.
Arguments Build_LinearHashTable {Value}.
Arguments _buckets {Value}. Arguments _split {Value}.
Arguments _front {Value}. Arguments _size {Value}.

(** An iterator: a position in the vector of buckets, the end of that vector
    and a position in the bucket. *)
Record Iterator := { _vecIt : nat; _endIt : nat; _buckIt : nat }.

(** [it1 != it2] *)
Definition it_ne (i j : Iterator) : bool :=
  negb (_vecIt i =? _vecIt j)%nat ||
  (negb (_vecIt i =? _endIt i)%nat && negb (_buckIt i =? _buckIt j)%nat).

(** [v[i]] of a vector: undefined outside. *)
Definition at_ {A} (v : list A) (i : nat) : res A :=
  match v !! i with Some x => Done x | None => UB end.

(** [n % m] on [std::size_t]. *)
Definition rem (n m : Z) : res Z := if m =? 0 then UB else Done (n mod m).

Section Code.
Context {Value : Type} (eqb : Value -> Value -> bool) (hash : Value -> Z).
Abbreviation table := (LinearHashTable Value).

Definition construct : table :=
  {| _buckets := [[]]; _split := 0; _front := 1; _size := 0 |}.

Definition bucketAddressForHash (n : Z) (t : table) : res nat :=
  let? r := rem n (_front t) in
  if _split t <=? r then Done (Z.to_nat r)
  else let? r2 := rem n (u64 (2 * _front t)) in Done (Z.to_nat r2).

Definition bucketAddress (v : Value) (t : table) : res nat :=
  bucketAddressForHash (hash v) t.

Definition set_buckets (bs : list (list Value)) (t : table) : table :=
  {| _buckets := bs; _split := _split t; _front := _front t; _size := _size t |}.

(** [_buckets[addr].push_back(v)] *)
Definition push (addr : nat) (v : Value) (t : table) : res table :=
  let? b := at_ (_buckets t) addr in
  Done (set_buckets (<[addr := b ++ [v]]> (_buckets t)) t).

(** The loop of [split] and [merge] over the elements of the bucket taken out. *)
Fixpoint redistribute (tmp : list Value) (t : table) : res table :=
  match tmp with
  | [] => Done t
  | v :: tmp =>
      let? addr := bucketAddress v t in
      let? t := push addr v t in
      redistribute tmp t
  end.

Definition split (t : table) : res table :=
  let t := if _split t =? _front t
           then {| _buckets := _buckets t; _split := 0; _front := u64 (_front t * 2);
                   _size := _size t |}
           else t in
  let buckets := _buckets t ++ [[]] in
  let i := Z.to_nat (_split t) in
  let? tmp := at_ buckets i in
  redistribute tmp
    {| _buckets := <[i := []]> buckets; _split := u64 (_split t + 1);
       _front := _front t; _size := _size t |}.

Definition merge (t : table) : res table :=
  let t := if _split t =? 0
           then {| _buckets := _buckets t; _split := _front t / 2; _front := _front t / 2;
                   _size := _size t |}
           else t in
  let? tmp := at_ (_buckets t) (length (_buckets t) - 1) in
  redistribute tmp
    {| _buckets := take (length (_buckets t) - 1) (_buckets t); _split := u64 (_split t - 1);
       _front := _front t; _size := _size t |}.

(** [std::find(b.begin(), b.end(), value)] *)
Fixpoint find_in (b : list Value) (value : Value) : nat :=
  match b with
  | [] => O
  | x :: b => if eqb x value then O else S (find_in b value)
  end.

(** [ConstIterator(_buckets.end(), _buckets.end(), _buckets.front().end())] *)
Definition end_ (t : table) : res Iterator :=
  let? b := at_ (_buckets t) 0 in
  Done {| _vecIt := length (_buckets t); _endIt := length (_buckets t); _buckIt := length b |}.

(** The loop of [begin]: the first bucket that is not empty. *)
Fixpoint skip_empty (bs : list (list Value)) (i : nat) : nat :=
  match bs with
  | [] :: bs => skip_empty bs (S i)
  | _ => i
  end.

Definition begin (t : table) : res Iterator :=
  let it := skip_empty (_buckets t) 0 in
  if (it =? length (_buckets t))%nat then end_ t
  else Done {| _vecIt := it; _endIt := length (_buckets t); _buckIt := 0 |}.

(** [*it] *)
Definition deref (t : table) (it : Iterator) : res Value :=
  let? b := at_ (_buckets t) (_vecIt it) in at_ b (_buckIt it).

(** The loop of [operator ++]; the fuel is the number of buckets. *)
Fixpoint next_loop (fuel : nat) (t : table) (it : Iterator) : res Iterator :=
  match fuel with
  | O => Done it
  | S fuel =>
      if (_vecIt it =? _endIt it)%nat then Done it
      else
        let? b := at_ (_buckets t) (_vecIt it) in
        if (_buckIt it =? length b)%nat then
          let vec := S (_vecIt it) in
          next_loop fuel t
            {| _vecIt := vec; _endIt := _endIt it;
               _buckIt := if (vec =? _endIt it)%nat then _buckIt it else O |}
        else Done it
  end.

Definition next (t : table) (it : Iterator) : res Iterator :=
  if (_vecIt it =? _endIt it)%nat then Done it
  else next_loop (S (length (_buckets t))) t
         {| _vecIt := _vecIt it; _endIt := _endIt it; _buckIt := S (_buckIt it) |}.

Definition find (value : Value) (t : table) : res Iterator :=
  let? addr := bucketAddress value t in
  let? b := at_ (_buckets t) addr in
  let buckIt := find_in b value in
  if (buckIt =? length b)%nat then end_ t
  else Done {| _vecIt := addr; _endIt := length (_buckets t); _buckIt := buckIt |}.

Definition count (value : Value) (t : table) : res Z :=
  let? it := find value t in
  let? e := end_ t in
  Done (if it_ne it e then 1 else 0).

Definition insert (value : Value) (t : table) : res (Iterator * bool * table) :=
  let h := hash value in
  let? addr := bucketAddressForHash h t in
  let? b := at_ (_buckets t) addr in
  let buckIt := find_in b value in
  if (buckIt =? length b)%nat then
    let? t := split t in
    let? addr := bucketAddressForHash h t in
    let? b := at_ (_buckets t) addr in
    let? t := push addr value t in
    Done ({| _vecIt := addr; _endIt := length (_buckets t); _buckIt := length b |}, true,
          {| _buckets := _buckets t; _split := _split t; _front := _front t;
             _size := u64 (_size t + 1) |})
  else Done ({| _vecIt := addr; _endIt := length (_buckets t); _buckIt := buckIt |}, false, t).

(** [erase(Iterator)] *)
Definition erase_at (it : Iterator) (t : table) : res table :=
  let? e := end_ t in
  if it_ne it e then
    let? b := at_ (_buckets t) (_vecIt it) in
    let? _old := at_ b (_buckIt it) in
    merge {| _buckets := <[_vecIt it := delete (_buckIt it) b]> (_buckets t);
             _split := _split t; _front := _front t; _size := u64 (_size t - 1) |}
  else Done t.

Definition erase (value : Value) (t : table) : res table :=
  let? it := find value t in erase_at it t.

(** [swap] with a fresh table. *)
Definition clear (t : table) : table := construct.

Definition size (t : table) : Z := _size t.
Definition empty (t : table) : bool := _size t =? 0.
Definition buckets (t : table) : Z := Z.of_nat (length (_buckets t)).
End Code.
End Table.

(** HashMapEntry, HashMapEntryHash and HashMap: a table of entries compared
    and hashed by their key. *)
Module Map.
Import Table.

Record HashMapEntry (Key Mapped : Type) := { first : Key; second : Mapped }.
Arguments Build_HashMapEntry {Key Mapped}.
Arguments first {Key Mapped}. Arguments second {Key Mapped}.

Section Code.
Context {Key Mapped : Type} `{EqDecision Key} (func : Key -> Z) (default : Mapped).
Abbreviation entry := (HashMapEntry Key Mapped).
Abbreviation table := (LinearHashTable entry).

Definition entry_eqb (a b : entry) : bool := bool_decide (first a = first b).
Definition entry_hash (e : entry) : Z := func (first e).

(** [HashMapEntry(key)] *)
Definition entry_of (k : Key) : entry := {| first := k; second := default |}.

Definition find (k : Key) (t : table) : res Iterator := Table.find entry_eqb entry_hash (entry_of k) t.

Definition count (k : Key) (t : table) : res Z :=
  let? it := Table.find entry_eqb entry_hash (entry_of k) t in
  let? e := end_ t in
  Done (if it_ne it e then 1 else 0).

Definition insert (k : Key) (v : Mapped) (t : table) : res (Iterator * bool * table) :=
  Table.insert entry_eqb entry_hash {| first := k; second := v |} t.

Definition erase (k : Key) (t : table) : res table :=
  let? it := find k t in erase_at entry_hash it t.

(** [operator []] of a const map. *)
Definition at_const (k : Key) (t : table) : res Mapped :=
  let? it := Table.find entry_eqb entry_hash (entry_of k) t in
  let? e := end_ t in
  if it_ne it e then let? en := deref t it in Done (second en)
  else Raise NotFoundException.

(** [operator []]: the entry the reference points into, and the table. *)
Definition at_ref (k : Key) (t : table) : res (Iterator * table) :=
  let? r := Table.insert entry_eqb entry_hash (entry_of k) t in
  Done (fst (fst r), snd r).

(** A write through the reference [it->second]. *)
Definition assign (it : Iterator) (v : Mapped) (t : table) : res table :=
  let? b := at_ (_buckets t) (_vecIt it) in
  let? en := at_ b (_buckIt it) in
  Done (set_buckets (<[_vecIt it := <[_buckIt it := {| first := first en; second := v |}]> b]>
                       (_buckets t)) t).

(** [map[k] = v] *)
Definition put (k : Key) (v : Mapped) (t : table) : res table :=
  let? r := at_ref k t in assign (fst r) v (snd r).
End Code.
End Map.

(** ** What a table promises *)

Module TableFacts.
Import Table.

(** Equality of values as the code needs it: an equivalence that the hash
    function respects. *)
Class HashKey {Value : Type} (eqb : Value -> Value -> bool) (hash : Value -> Z) := {
  key_refl a : eqb a a = true;
  key_sym a b : eqb a b = eqb b a;
  key_trans a b c : eqb a b = true -> eqb b c = true -> eqb a c = true;
  key_hash a b : eqb a b = true -> hash a = hash b
}.

(** The elements, in the order an iteration visits them. *)
Definition elements {Value} (t : LinearHashTable Value) : list Value := concat (_buckets t).

(** The bucket of a hash value [n]. *)
Definition addr (f s n : Z) : Z := if s <=? n mod f then n mod f else n mod (2 * f).

Lemma mod_double n f : 0 < f -> n mod (2 * f) = n mod f \/ n mod (2 * f) = n mod f + f.
Proof.
  intros Hf. rewrite (Z.mul_comm 2 f), Z.rem_mul_r by lia.
  pose proof (Z.mod_pos_bound (n / f) 2). assert ((n / f) mod 2 = 0 \/ (n / f) mod 2 = 1) as [->| ->] by lia; lia.
Qed.

(** Decide a goal about [addr] by the two possible residues. *)
Ltac addr_cases n f :=
  unfold addr; pose proof (Z.mod_pos_bound n f ltac:(lia)); destruct (mod_double n f ltac:(lia));
  repeat match goal with
  | H : n mod (2 * f) = _ |- _ => rewrite H; clear H
  end; generalize dependent (n mod f); intros;
  repeat match goal with |- context [?a <=? ?b] => destruct (Z.leb_spec a b) end; try lia.

Lemma addr_range f s n : 0 <= s <= f -> 0 < f -> 0 <= addr f s n < f + s.
Proof. intros. addr_cases n f. Qed.

Lemma addr_double f n : 0 < f -> addr (2 * f) 0 n = addr f f n.
Proof.
  intros Hf. unfold addr at 1.
  rewrite (proj2 (Z.leb_le 0 _)) by (apply Z.mod_pos_bound; lia).
  addr_cases n f.
Qed.

(** Only the elements of the bucket that is split get a new address... *)
Lemma addr_grow f s n : 0 <= s < f -> addr f s n <> s -> addr f (s + 1) n = addr f s n.
Proof. intros Hs. addr_cases n f. Qed.

(** ... and only those of the last bucket when it is merged. *)
Lemma addr_shrink f s n : 0 <= s < f -> addr f (s + 1) n <> f + s -> addr f s n = addr f (s + 1) n.
Proof. intros Hs. addr_cases n f. Qed.

Lemma concat_insert_perm {A} (bs : list (list A)) i b v :
  bs !! i = Some b -> concat (<[i := b ++ [v]]> bs) ≡ₚ v :: concat bs.
Proof.
  intros Hi. rewrite <-(take_drop_middle bs i b Hi) at 2.
  rewrite insert_take_drop by (by eapply lookup_lt_Some).
  rewrite !concat_app. simpl. solve_Permutation.
Qed.

Lemma concat_take_out {A} (bs : list (list A)) i b :
  bs !! i = Some b -> concat bs ≡ₚ b ++ concat (<[i := []]> bs).
Proof.
  intros Hi. rewrite <-(take_drop_middle bs i b Hi) at 1.
  rewrite insert_take_drop by (by eapply lookup_lt_Some).
  rewrite !concat_app. simpl. solve_Permutation.
Qed.

Lemma elem_of_buckets {A} (bs : list (list A)) v :
  v ∈ concat bs <-> exists i b, bs !! i = Some b /\ v ∈ b.
Proof.
  rewrite list_elem_of_In, in_concat. setoid_rewrite <-list_elem_of_In. split.
  - intros (b & Hb & Hv). apply list_elem_of_lookup in Hb as [i Hi]. eauto.
  - intros (i & b & Hi & Hv). exists b. split; [by eapply list_elem_of_lookup_2|done].
Qed.

Section Facts.
Context {Value : Type} (eqb : Value -> Value -> bool) (hash : Value -> Z).
Context `{HK : !HashKey eqb hash}.
Abbreviation table := (LinearHashTable Value).

(** Every value sits in its bucket. *)
Definition placed (f s : Z) (bs : list (list Value)) : Prop :=
  forall i b v, bs !! i = Some b -> v ∈ b -> addr f s (hash v) = Z.of_nat i.

(** The shape of the address space: a power of two and a split position. *)
Definition shape (t : table) : Prop :=
  (exists k, 0 <= k /\ _front t = 2 ^ k) /\ 0 <= _split t <= _front t /\ _front t < 2 ^ 62 /\
  Z.of_nat (length (_buckets t)) = _front t + _split t.

Definition occurs (v : Value) (l : list Value) : bool := existsb (eqb v) l.

(** No two equal elements. *)
Definition distinct (l : list Value) : Prop :=
  forall v, (length (filter (fun x => eqb v x = true) l) <= 1)%nat.

Record WF (t : table) : Prop := {
  wf_shape : shape t;
  wf_placed : placed (_front t) (_split t) (_buckets t);
  wf_distinct : distinct (elements t);
  wf_size : _size t = Z.of_nat (length (elements t));
  wf_count : Z.of_nat (length (_buckets t)) = 1 + _size t
}.

Lemma shape_pos (t : table) : shape t -> 0 < _front t.
Proof. intros ((k & Hk & ->) & _). by apply Z.pow_pos_nonneg. Qed.

Lemma addr_bounds (t : table) n :
  shape t -> 0 <= addr (_front t) (_split t) n < Z.of_nat (length (_buckets t)).
Proof.
  intros H. pose proof (shape_pos t H). destruct H as (_ & Hs & _ & ->). by apply addr_range.
Qed.

Lemma address_ok n t :
  shape t ->
  bucketAddressForHash n t = Done (Z.to_nat (addr (_front t) (_split t) n)) /\
  (Z.to_nat (addr (_front t) (_split t) n) < length (_buckets t))%nat.
Proof.
  intros H. pose proof (shape_pos t H). pose proof (addr_bounds t n H).
  destruct H as (_ & _ & Hb & _). split; [|lia].
  unfold bucketAddressForHash, rem, addr. rewrite (proj2 (Z.eqb_neq _ 0)) by lia. simpl.
  case_match; [done|]. unfold u64. rewrite (Z.mod_small (2 * _)) by lia.
  by rewrite (proj2 (Z.eqb_neq _ 0)) by lia.
Qed.

Lemma at_ok {A} (l : list A) i x : l !! i = Some x -> at_ l i = Done x.
Proof. intros H. unfold at_. by rewrite H. Qed.

(** Looking up the bucket of a value. *)
Lemma bucket_ok v t :
  shape t -> exists b,
  _buckets t !! Z.to_nat (addr (_front t) (_split t) (hash v)) = Some b.
Proof. intros H. apply lookup_lt_is_Some_2, (address_ok (hash v) t H). Qed.

Lemma push_ok v t :
  shape t -> placed (_front t) (_split t) (_buckets t) ->
  let i := Z.to_nat (addr (_front t) (_split t) (hash v)) in
  exists t', push i v t = Done t' /\ shape t' /\ placed (_front t') (_split t') (_buckets t') /\
    elements t' ≡ₚ v :: elements t /\ _front t' = _front t /\ _split t' = _split t /\
    _size t' = _size t /\ length (_buckets t') = length (_buckets t).
Proof.
  intros Hs Hp i. destruct (bucket_ok v t Hs) as [b Hb]. fold i in Hb.
  assert (Hi : addr (_front t) (_split t) (hash v) = Z.of_nat i).
  { destruct (addr_bounds t (hash v) Hs). subst i. lia. }
  clearbody i.
  unfold push. rewrite (at_ok _ _ _ Hb). simpl. eexists; split; [done|].
  unfold shape, elements. simpl. rewrite length_insert. split_and!; try apply Hs; try done.
  - intros j c x Hj Hx. destruct (decide (i = j)) as [->|Hij].
    + rewrite list_lookup_insert_eq in Hj by (by eapply lookup_lt_Some).
      injection Hj as <-. apply elem_of_app in Hx as [Hx|Hx]; [by eapply Hp|].
      apply list_elem_of_singleton in Hx as ->. done.
    + rewrite list_lookup_insert_ne in Hj by done. by eapply Hp.
  - by apply concat_insert_perm.
Qed.

Lemma redistribute_ok tmp t :
  shape t -> placed (_front t) (_split t) (_buckets t) ->
  exists t', redistribute hash tmp t = Done t' /\ shape t' /\
    placed (_front t') (_split t') (_buckets t') /\
    elements t' ≡ₚ tmp ++ elements t /\ _front t' = _front t /\ _split t' = _split t /\
    _size t' = _size t /\ length (_buckets t') = length (_buckets t).
Proof.
  revert t. induction tmp as [|v tmp IH]; intros t Hs Hp; simpl.
  - by exists t.
  - unfold bucketAddress. rewrite (proj1 (address_ok (hash v) t Hs)). simpl.
    destruct (push_ok v t Hs Hp) as (t1 & -> & Hs1 & Hp1 & He1 & Hf1 & Hsp1 & Hz1 & Hl1). simpl.
    destruct (IH t1 Hs1 Hp1) as (t2 & -> & Hs2 & Hp2 & He2 & Hf2 & Hsp2 & Hz2 & Hl2).
    exists t2. split_and!; try done; try congruence.
    rewrite He2, He1. solve_Permutation.
Qed.

(** What [split] and [merge] keep: everything but the number of buckets. *)
Definition same_contents (t t' : table) : Prop :=
  shape t' /\ placed (_front t') (_split t') (_buckets t') /\
  elements t' ≡ₚ elements t /\ _size t' = _size t.

(** The wrap of the split position to the next round, in both directions. *)
Lemma double_ok t :
  shape t -> placed (_front t) (_split t) (_buckets t) ->
  Z.of_nat (length (_buckets t)) < 2 ^ 62 -> _split t = _front t ->
  let t0 := {| _buckets := _buckets t; _split := 0; _front := u64 (_front t * 2); _size := _size t |} in
  shape t0 /\ placed (_front t0) (_split t0) (_buckets t0) /\ _split t0 < _front t0.
Proof.
  intros Hs Hp Hb E t0. pose proof (shape_pos t Hs).
  destruct Hs as ((k & Hk & Hf) & _ & Hf2 & Hl).
  assert (Hu : u64 (_front t * 2) = 2 * _front t) by (unfold u64; lia).
  unfold t0. simpl. rewrite Hu. split_and!; [|..|lia].
  - unfold shape. simpl. split_and!; try lia. exists (k + 1). rewrite Hf, Z.pow_add_r; lia.
  - intros i b v Hi Hv. rewrite addr_double by done. rewrite <-E at 2. by eapply Hp.
Qed.

Lemma halve_ok t :
  shape t -> placed (_front t) (_split t) (_buckets t) ->
  (2 <= length (_buckets t))%nat -> _split t = 0 ->
  let t0 := {| _buckets := _buckets t; _split := _front t / 2; _front := _front t / 2; _size := _size t |} in
  shape t0 /\ placed (_front t0) (_split t0) (_buckets t0) /\ 0 < _split t0.
Proof.
  intros ((k & Hk & Hf) & _ & Hf2 & Hl) Hp Hb E t0.
  assert (0 < k) by (destruct (decide (k = 0)) as [->|]; simpl in *; lia).
  assert (Hk2 : _front t = 2 * 2 ^ (k - 1)) by (rewrite Hf, <-Z.pow_succ_r by lia; f_equal; lia).
  assert (Hh : _front t / 2 = 2 ^ (k - 1)) by lia.
  pose proof (Z.pow_pos_nonneg 2 (k - 1) ltac:(lia) ltac:(lia)).
  unfold t0. simpl. rewrite Hh. split_and!; [|..|done].
  - unfold shape. simpl. split_and!; try lia. exists (k - 1). lia.
  - intros i b v Hi Hv. rewrite <-addr_double by done. rewrite <-Hk2, <-E. by eapply Hp.
Qed.

Lemma split_step_ok t tmp :
  shape t -> placed (_front t) (_split t) (_buckets t) -> _split t < _front t ->
  _buckets t !! Z.to_nat (_split t) = Some tmp ->
  let t1 := {| _buckets := <[Z.to_nat (_split t) := []]> (_buckets t ++ [[]]);
               _split := _split t + 1; _front := _front t; _size := _size t |} in
  shape t1 /\ placed (_front t1) (_split t1) (_buckets t1) /\ elements t ≡ₚ tmp ++ elements t1.
Proof.
  intros (Hk & Hs & Hf & Hl) Hp Hlt Htmp t1. unfold t1, shape, elements. simpl.
  rewrite length_insert, length_app. simpl. split_and!; try done; try lia.
  - intros j b v Hj Hv. destruct (decide (Z.to_nat (_split t) = j)) as [<-|Hne].
    { rewrite list_lookup_insert_eq in Hj by (rewrite length_app; simpl; lia).
      injection Hj as <-. by apply not_elem_of_nil in Hv. }
    rewrite list_lookup_insert_ne in Hj by done.
    apply lookup_app_Some in Hj as [Hj|[_ Hj]].
    + rewrite <-(Hp j b v Hj Hv). apply addr_grow; [lia|]. rewrite (Hp j b v Hj Hv). lia.
    + apply list_lookup_singleton_Some in Hj as [_ <-]. by apply not_elem_of_nil in Hv.
  - rewrite insert_app_l by (by eapply lookup_lt_Some). rewrite concat_app. simpl.
    rewrite app_nil_r. by apply concat_take_out.
Qed.

Lemma split_ok t :
  shape t -> placed (_front t) (_split t) (_buckets t) ->
  Z.of_nat (length (_buckets t)) < 2 ^ 62 ->
  exists t', split hash t = Done t' /\ same_contents t t' /\
    length (_buckets t') = S (length (_buckets t)).
Proof.
  intros Hs Hp Hb.
  set (t0 := if _split t =? _front t
             then {| _buckets := _buckets t; _split := 0; _front := u64 (_front t * 2); _size := _size t |}
             else t).
  assert (Ht0 : shape t0 /\ placed (_front t0) (_split t0) (_buckets t0) /\ _split t0 < _front t0 /\
                _buckets t0 = _buckets t /\ _size t0 = _size t).
  { unfold t0. destruct (Z.eqb_spec (_split t) (_front t)) as [E|E].
    - destruct (double_ok t Hs Hp Hb E) as (? & ? & ?). done.
    - split_and!; try done. destruct Hs as (_ & Hs & _). lia. }
  destruct Ht0 as (Hs0 & Hp0 & Hlt & Hb0 & Hz0). unfold split. fold t0.
  clearbody t0. pose proof Hs0 as (_ & Hs0' & Hf0 & Hl0).
  destruct (lookup_lt_is_Some_2 (_buckets t0) (Z.to_nat (_split t0))) as [tmp Htmp]; [lia|].
  rewrite (at_ok _ _ tmp) by (by apply lookup_app_l_Some). simpl.
  replace (u64 (_split t0 + 1)) with (_split t0 + 1) by (unfold u64; lia).
  destruct (split_step_ok t0 tmp Hs0 Hp0 Hlt Htmp) as (Hs1 & Hp1 & He1).
  destruct (redistribute_ok tmp _ Hs1 Hp1) as (t2 & -> & Hs2 & Hp2 & He2 & _ & _ & Hz2 & Hl2).
  exists t2. split; [done|]. simpl in *. rewrite Hl2, length_insert, length_app, Hb0. simpl.
  split; [|lia]. split_and!; try done; [|congruence].
  rewrite He2, <-He1. unfold elements. by rewrite Hb0.
Qed.

Lemma merge_step_ok t tmp :
  shape t -> placed (_front t) (_split t) (_buckets t) -> 0 < _split t ->
  _buckets t !! (length (_buckets t) - 1)%nat = Some tmp ->
  let t1 := {| _buckets := take (length (_buckets t) - 1) (_buckets t);
               _split := _split t - 1; _front := _front t; _size := _size t |} in
  shape t1 /\ placed (_front t1) (_split t1) (_buckets t1) /\ elements t ≡ₚ tmp ++ elements t1.
Proof.
  intros (Hk & Hs & Hf & Hl) Hp Hlt Htmp t1. unfold t1, shape, elements. simpl.
  rewrite length_take. split_and!; try done; try lia.
  - intros j b v Hj Hv. apply lookup_take_Some in Hj as [Hj Hlj].
    rewrite <-(Hp j b v Hj Hv).
    replace (_split t) with (_split t - 1 + 1) at 2 by lia. apply addr_shrink; [lia|].
    replace (_split t - 1 + 1) with (_split t) by lia. rewrite (Hp j b v Hj Hv). lia.
  - rewrite <-(take_drop_middle _ _ _ Htmp) at 1.
    rewrite drop_ge by lia. rewrite concat_app. simpl. rewrite app_nil_r. solve_Permutation.
Qed.

Lemma merge_ok t :
  shape t -> placed (_front t) (_split t) (_buckets t) ->
  (2 <= length (_buckets t))%nat ->
  exists t', merge hash t = Done t' /\ same_contents t t' /\
    S (length (_buckets t')) = length (_buckets t).
Proof.
  intros Hs Hp Hb.
  set (t0 := if _split t =? 0
             then {| _buckets := _buckets t; _split := _front t / 2; _front := _front t / 2; _size := _size t |}
             else t).
  assert (Ht0 : shape t0 /\ placed (_front t0) (_split t0) (_buckets t0) /\ 0 < _split t0 /\
                _buckets t0 = _buckets t /\ _size t0 = _size t).
  { unfold t0. destruct (Z.eqb_spec (_split t) 0) as [E|E].
    - destruct (halve_ok t Hs Hp Hb E) as (? & ? & ?). done.
    - split_and!; try done. destruct Hs as (_ & Hs & _). lia. }
  destruct Ht0 as (Hs0 & Hp0 & Hlt & Hb0 & Hz0). unfold merge. fold t0.
  clearbody t0. pose proof Hs0 as (_ & Hs0' & Hf0 & Hl0).
  destruct (lookup_lt_is_Some_2 (_buckets t0) (length (_buckets t0) - 1)) as [tmp Htmp]; [rewrite Hb0; lia|].
  rewrite (at_ok _ _ tmp) by done. simpl.
  replace (u64 (_split t0 - 1)) with (_split t0 - 1) by (unfold u64; lia).
  destruct (merge_step_ok t0 tmp Hs0 Hp0 Hlt Htmp) as (Hs1 & Hp1 & He1).
  destruct (redistribute_ok tmp _ Hs1 Hp1) as (t2 & -> & Hs2 & Hp2 & He2 & _ & _ & Hz2 & Hl2).
  exists t2. split; [done|]. simpl in *. rewrite Hl2, length_take, Hb0.
  split; [|lia]. split_and!; try done; [|congruence].
  rewrite He2, <-He1. unfold elements. by rewrite Hb0.
Qed.

(** *** Values up to equality *)

Global Instance distinct_Proper : Proper ((≡ₚ) ==> iff) distinct.
Proof. intros l l' E. unfold distinct. by setoid_rewrite E. Qed.

Lemma occurs_spec v l : occurs v l = true <-> exists x, x ∈ l /\ eqb v x = true.
Proof. unfold occurs. rewrite existsb_exists. by setoid_rewrite list_elem_of_In. Qed.

Global Instance occurs_Proper v : Proper ((≡ₚ) ==> eq) (occurs v).
Proof.
  intros l l' E. apply eq_bool_prop_intro. rewrite !Is_true_true, !occurs_spec. by setoid_rewrite E.
Qed.

Lemma occurs_false v l : occurs v l = false -> filter (fun x => eqb v x = true) l = [].
Proof.
  unfold occurs. induction l as [|x l IH]; simpl; [done|]. intros [Hx Hl]%orb_false_iff.
  rewrite filter_cons_False by (rewrite Hx; done). auto.
Qed.

Lemma eqb_cong u v x : eqb u v = true -> eqb u x = eqb v x.
Proof.
  intros E. apply eq_true_iff_eq. split; intros H.
  - eapply key_trans; [rewrite key_sym; exact E|done].
  - by eapply key_trans.
Qed.

Lemma distinct_cons v l : distinct l -> occurs v l = false -> distinct (v :: l).
Proof.
  intros Hd Ho u. destruct (eqb u v) eqn:E.
  - rewrite filter_cons_True by done.
    assert (filter (fun x => eqb u x = true) l = []) as ->; [|simpl; lia].
    apply occurs_false. unfold occurs in *. rewrite <-Ho. clear -E HK.
    induction l as [|x l IH]; simpl; [done|]. by rewrite IH, (eqb_cong u v x E).
  - rewrite filter_cons_False by (by rewrite E). apply Hd.
Qed.

Lemma distinct_uncons v l : distinct (v :: l) -> distinct l /\ occurs v l = false.
Proof.
  intros Hd. split.
  - intros u. specialize (Hd u). rewrite filter_cons in Hd. case_decide; simpl in *; lia.
  - specialize (Hd v). rewrite filter_cons_True in Hd by apply key_refl. simpl in Hd.
    destruct (occurs v l) eqn:E; [|done]. apply occurs_spec in E as (x & Hx & E).
    destruct (filter (fun x => eqb v x = true) l) as [|y r] eqn:F; [|simpl in Hd; lia].
    enough (x ∈ (@nil Value)) by (by apply not_elem_of_nil in H).
    rewrite <-F. by apply list_elem_of_filter.
Qed.

Lemma find_in_le b v : (find_in eqb b v <= length b)%nat.
Proof. induction b as [|x b IH]; simpl; [done|]. case_match; lia. Qed.

Lemma find_in_spec b v :
  if occurs v b
  then exists x, b !! find_in eqb b v = Some x /\ eqb v x = true /\ (find_in eqb b v < length b)%nat
  else find_in eqb b v = length b.
Proof.
  unfold occurs. induction b as [|x b IH]; simpl; [done|].
  rewrite (key_sym x v). destruct (eqb v x) eqn:E; simpl; [exists x; split_and!; [done|done|lia]|].
  destruct (existsb (eqb v) b); [|lia]. destruct IH as (y & Hy & He & Hl). exists y. split_and!; [done|done|lia].
Qed.

(** The bucket of a value holds every element equal to it. *)
Lemma occurs_bucket v t b :
  placed (_front t) (_split t) (_buckets t) ->
  _buckets t !! Z.to_nat (addr (_front t) (_split t) (hash v)) = Some b ->
  occurs v (elements t) = occurs v b.
Proof.
  intros Hp Hb. apply eq_true_iff_eq. rewrite !occurs_spec. split; intros (x & Hx & E); exists x; (split; [|done]).
  - apply elem_of_buckets in Hx as (i & c & Hi & Hx). pose proof (Hp i c x Hi Hx) as Ha.
    rewrite <-(key_hash (hash := hash) v x E) in Ha. rewrite Ha, Nat2Z.id in Hb. congruence.
  - apply elem_of_buckets. eauto.
Qed.

(** *** Search *)

(** An iterator that points to the element [x]. *)
Definition points_to (t : table) (it : Iterator) (x : Value) : Prop :=
  _endIt it = length (_buckets t) /\
  exists b, _buckets t !! _vecIt it = Some b /\ b !! _buckIt it = Some x.

Lemma points_to_deref t it x : points_to t it x -> deref t it = Done x.
Proof. intros (_ & b & Hb & Hx). unfold deref. rewrite (at_ok _ _ _ Hb). simpl. by apply at_ok. Qed.

Lemma end_ok (t : table) : shape t -> exists e, end_ t = Done e /\ _vecIt e = length (_buckets t).
Proof.
  intros Hs. pose proof (shape_pos t Hs). destruct Hs as (_ & Hs & _ & Hl). unfold end_.
  destruct (lookup_lt_is_Some_2 (_buckets t) 0) as [b Hb]; [lia|].
  rewrite (at_ok _ _ _ Hb). simpl. by eexists.
Qed.

Lemma points_to_not_end (t : table) it x e :
  points_to t it x -> end_ t = Done e -> it_ne it e = true.
Proof.
  intros (_ & b & Hb & _). unfold end_, at_. destruct (_buckets t !! 0%nat); [|done].
  simpl. intros [= <-]. unfold it_ne. simpl. apply lookup_lt_Some in Hb.
  rewrite (proj2 (Nat.eqb_neq _ _)) by lia. done.
Qed.

Lemma it_ne_same e : _vecIt e = _endIt e -> it_ne e e = false.
Proof. intros H. unfold it_ne. by rewrite Nat.eqb_refl, H, Nat.eqb_refl. Qed.

Lemma find_ok v t :
  shape t -> placed (_front t) (_split t) (_buckets t) ->
  if occurs v (elements t)
  then exists it x, find eqb hash v t = Done it /\ points_to t it x /\ eqb v x = true
  else find eqb hash v t = end_ t.
Proof.
  intros Hs Hp. destruct (bucket_ok v t Hs) as [b Hb].
  rewrite (occurs_bucket v t b Hp Hb). unfold find, bucketAddress.
  rewrite (proj1 (address_ok (hash v) t Hs)). simpl. rewrite (at_ok _ _ _ Hb). simpl.
  pose proof (find_in_spec b v) as F. destruct (occurs v b).
  - destruct F as (x & Hx & E & Hlt). rewrite (proj2 (Nat.eqb_neq _ _)) by lia.
    eexists _, x. split; [done|]. split; [|done]. split; [done|]. by exists b.
  - by rewrite F, Nat.eqb_refl.
Qed.

Lemma end_is_end (t : table) e : end_ t = Done e -> _vecIt e = _endIt e.
Proof. unfold end_, at_. destruct (_buckets t !! 0%nat); [|done]. simpl. by intros [= <-]. Qed.

Lemma count_ok v t :
  shape t -> placed (_front t) (_split t) (_buckets t) ->
  count eqb hash v t = Done (if occurs v (elements t) then 1 else 0).
Proof.
  intros Hs Hp. pose proof (find_ok v t Hs Hp) as F. destruct (end_ok t Hs) as (e & He & _).
  unfold count. destruct (occurs v (elements t)).
  - destruct F as (it & x & -> & Hit & _). simpl. rewrite He. simpl.
    by rewrite (points_to_not_end t it x e Hit He).
  - rewrite F, He. simpl. by rewrite (it_ne_same e (end_is_end t e He)).
Qed.

(** *** Insertion and removal *)

Lemma insert_new_ok v t :
  WF t -> _size t < 2 ^ 62 - 1 -> occurs v (elements t) = false ->
  exists it t', insert eqb hash v t = Done (it, true, t') /\ WF t' /\
    elements t' ≡ₚ v :: elements t /\ points_to t' it v.
Proof.
  intros [Hs Hp Hd Hz Hc] Hb Ho. destruct (bucket_ok v t Hs) as [b Hbk].
  pose proof (find_in_spec b v) as F. rewrite (occurs_bucket v t b Hp Hbk) in Ho. rewrite Ho in F.
  unfold insert. rewrite (proj1 (address_ok (hash v) t Hs)). simpl.
  rewrite (at_ok _ _ _ Hbk). simpl. rewrite F, Nat.eqb_refl.
  destruct (split_ok t Hs Hp ltac:(lia)) as (t1 & -> & (Hs1 & Hp1 & He1 & Hz1) & Hl1). simpl.
  rewrite (proj1 (address_ok (hash v) t1 Hs1)). simpl.
  destruct (bucket_ok v t1 Hs1) as [b1 Hb1]. rewrite (at_ok _ _ _ Hb1). simpl.
  destruct (push_ok v t1 Hs1 Hp1) as (t2 & E2 & Hs2 & Hp2 & He2 & Hf2 & Hsp2 & Hz2 & Hl2).
  rewrite E2. simpl. eexists _, _. split; [done|].
  assert (Hz' : u64 (_size t2 + 1) = Z.of_nat (length (elements t2))).
  { rewrite He2, Hz2, Hz1. simpl. rewrite He1. unfold u64. lia. }
  split; [split; simpl; try done|split].
  - unfold elements. simpl. fold (elements t2). rewrite He2, He1. apply distinct_cons; [done|].
    by rewrite (occurs_bucket v t b Hp Hbk).
  - rewrite Hz', He2. simpl. rewrite He1, Hl2, Hl1. lia.
  - unfold elements. simpl. fold (elements t2). by rewrite He2, He1.
  - split; [done|]. unfold push in E2. rewrite (at_ok _ _ _ Hb1) in E2. simpl in E2.
    injection E2 as <-. simpl. eexists. rewrite list_lookup_insert_eq by (by eapply lookup_lt_Some).
    split; [done|]. by rewrite lookup_app_r, Nat.sub_diag by done.
Qed.

Lemma insert_old_ok v t :
  WF t -> occurs v (elements t) = true ->
  exists it x, insert eqb hash v t = Done (it, false, t) /\ points_to t it x /\ eqb v x = true.
Proof.
  intros [Hs Hp _ _ _] Ho. destruct (bucket_ok v t Hs) as [b Hbk].
  pose proof (find_in_spec b v) as F. rewrite (occurs_bucket v t b Hp Hbk) in Ho. rewrite Ho in F.
  destruct F as (x & Hx & E & Hlt).
  unfold insert. rewrite (proj1 (address_ok (hash v) t Hs)). simpl.
  rewrite (at_ok _ _ _ Hbk). simpl. rewrite (proj2 (Nat.eqb_neq _ _)) by lia.
  eexists _, x. split; [done|]. split; [|done]. split; [done|]. by exists b.
Qed.

Lemma concat_delete_perm {A} (bs : list (list A)) i b j x :
  bs !! i = Some b -> b !! j = Some x -> concat bs ≡ₚ x :: concat (<[i := delete j b]> bs).
Proof.
  intros Hi Hj. rewrite <-(take_drop_middle bs i b Hi) at 1.
  rewrite insert_take_drop by (by eapply lookup_lt_Some).
  rewrite !concat_app. simpl.
  transitivity (concat (take i bs) ++ (x :: delete j b) ++ concat (drop (S i) bs)); [|solve_Permutation].
  by rewrite <-(delete_Permutation b j x Hj).
Qed.

Lemma erase_at_ok it x t :
  WF t -> points_to t it x ->
  exists t', erase_at hash it t = Done t' /\ WF t' /\ elements t ≡ₚ x :: elements t'.
Proof.
  intros [Hs Hp Hd Hz Hc] Hit. destruct (end_ok t Hs) as (e & He & _). unfold erase_at.
  rewrite He. simpl. rewrite (points_to_not_end t it x e Hit He).
  destruct Hit as (_ & b & Hb & Hx). rewrite (at_ok _ _ _ Hb). simpl.
  rewrite (at_ok _ _ _ Hx). simpl.
  pose proof (concat_delete_perm _ _ _ _ _ Hb Hx) as Hperm.
  set (t1 := {| _buckets := _ |}).
  assert (Hlen : length (elements t) = S (length (elements t1))) by (unfold elements at 1; by rewrite Hperm).
  pose proof Hs as (Hk & Hsp & Hf & Hl).
  assert (Hz1 : _size t1 = Z.of_nat (length (elements t1))) by (simpl; unfold u64; lia).
  destruct (merge_ok t1) as (t2 & E2 & (Hs2 & Hp2 & He2 & Hz2) & Hl2).
  - unfold shape, t1. simpl. by rewrite length_insert.
  - intros i c y Hi Hy. destruct (decide (_vecIt it = i)) as [<-|].
    + simpl in Hi. rewrite list_lookup_insert_eq in Hi by (by eapply lookup_lt_Some).
      injection Hi as <-. eapply Hp; [done|]. by eapply list_elem_of_delete_inv.
    + simpl in Hi. rewrite list_lookup_insert_ne in Hi by done. by eapply Hp.
  - unfold t1. simpl. rewrite length_insert. lia.
  - exists t2. split; [done|].
    assert (Hel : elements t ≡ₚ x :: elements t2) by (unfold elements at 1; rewrite Hperm, He2; done).
    split; [|done]. unfold t1 in Hl2. simpl in Hl2. rewrite length_insert in Hl2.
    split; try done.
    + rewrite Hel in Hd. exact (proj1 (distinct_uncons _ _ Hd)).
    + by rewrite Hz2, He2.
    + rewrite Hz2, Hz1. lia.
Qed.

(** *** The abstract set: a list of distinct values, up to its order *)

Definition spec_erase (v : Value) (l : list Value) : list Value :=
  filter (fun x => eqb v x = false) l.

Lemma spec_erase_cons v x l :
  distinct (x :: l) -> eqb v x = true -> spec_erase v (x :: l) = l.
Proof.
  intros [_ Ho]%distinct_uncons E. unfold spec_erase.
  rewrite filter_cons_False by (by rewrite E).
  unfold occurs in Ho. clear -Ho E HK. induction l as [|y l IH]; simpl; [done|].
  apply orb_false_iff in Ho as [Hy Hl].
  rewrite filter_cons_True by (by rewrite (eqb_cong v x y E)). f_equal. auto.
Qed.

Lemma spec_erase_absent v l : occurs v l = false -> spec_erase v l = l.
Proof.
  unfold occurs, spec_erase. induction l as [|y l IH]; simpl; [done|].
  intros [Hy Hl]%orb_false_iff. rewrite filter_cons_True by done. f_equal. auto.
Qed.

Global Instance spec_erase_Proper v : Proper ((≡ₚ) ==> (≡ₚ)) (spec_erase v).
Proof. intros l l' E. unfold spec_erase. by rewrite E. Qed.

Lemma erase_ok v t :
  WF t -> exists t', erase eqb hash v t = Done t' /\ WF t' /\
    elements t' ≡ₚ spec_erase v (elements t).
Proof.
  intros H. pose proof (find_ok v t (wf_shape _ H) (wf_placed _ H)) as F. unfold erase.
  destruct (occurs v (elements t)) eqn:Ho.
  - destruct F as (it & x & -> & Hit & E). simpl.
    destruct (erase_at_ok it x t H Hit) as (t' & -> & H' & Hel). exists t'. split_and!; [done..|].
    rewrite Hel. rewrite spec_erase_cons; [done| |done]. rewrite <-Hel. apply H.
  - destruct (end_ok t (wf_shape _ H)) as (e & He & _). rewrite F, He. simpl. unfold erase_at.
    rewrite He. simpl. rewrite (it_ne_same e (end_is_end t e He)). exists t.
    split_and!; [done..|]. by rewrite spec_erase_absent.
Qed.

Lemma construct_WF : WF construct.
Proof.
  split; unfold shape, distinct, elements; simpl; try done; try lia.
  - split; [exists 0; lia|lia].
  - intros i b v Hi Hv. apply list_lookup_singleton_Some in Hi as [_ <-]. by apply not_elem_of_nil in Hv.
Qed.

(** The operations of a client, what each returns, and what they mean. *)
Inductive op := Insert (v : Value) | Erase (v : Value) | Count (v : Value) | Clear | Size.

Definition step (o : op) (t : table) : res (Z * table) :=
  match o with
  | Insert v => let? r := insert eqb hash v t in Done (Z.b2z (snd (fst r)), snd r)
  | Erase v => let? t := erase eqb hash v t in Done (0, t)
  | Count v => let? n := count eqb hash v t in Done (n, t)
  | Clear => Done (0, clear t)
  | Size => Done (size t, t)
  end.

Definition spec_step (o : op) (l : list Value) : Z * list Value :=
  match o with
  | Insert v => if occurs v l then (0, l) else (1, v :: l)
  | Erase v => (0, spec_erase v l)
  | Count v => (Z.b2z (occurs v l), l)
  | Clear => (0, [])
  | Size => (Z.of_nat (length l), l)
  end.

Fixpoint run (ops : list op) (t : table) : res (list Z * table) :=
  match ops with
  | [] => Done ([], t)
  | o :: ops =>
      let? r := step o t in
      let? rs := run ops (snd r) in
      Done (fst r :: fst rs, snd rs)
  end.

Fixpoint spec_run (ops : list op) (l : list Value) : list Z * list Value :=
  match ops with
  | [] => ([], l)
  | o :: ops =>
      let r := spec_step o l in
      let rs := spec_run ops (snd r) in
      (fst r :: fst rs, snd rs)
  end.

(** The simulation relation. *)
Definition represents (t : table) (l : list Value) : Prop := WF t /\ elements t ≡ₚ l.

Lemma step_simulates o t l :
  represents t l -> _size t < 2 ^ 62 - 1 ->
  exists t', step o t = Done (fst (spec_step o l), t') /\ represents t' (snd (spec_step o l)) /\
    _size t' <= _size t + 1.
Proof.
  intros [H E] Hb. pose proof (wf_size _ H) as Hz. destruct o as [v|v|v| |]; simpl.
  - assert (occurs v l = occurs v (elements t)) as -> by (by rewrite E).
    destruct (occurs v (elements t)) eqn:Ho.
    + destruct (insert_old_ok v t H Ho) as (it & x & -> & _ & _). exists t. split; [done|]. split; [done|lia].
    + destruct (insert_new_ok v t H Hb Ho) as (it & t' & -> & H' & E' & _). exists t'. split; [done|].
      rewrite (wf_size _ H'), E'. simpl. split; [|lia]. split; [done|]. by rewrite E', E.
  - destruct (erase_ok v t H) as (t' & -> & H' & E'). exists t'. split; [done|].
    rewrite (wf_size _ H'), E'. pose proof (length_filter (fun x => eqb v x = false) (elements t)).
    split; [|unfold spec_erase; lia]. split; [done|]. by rewrite E', E.
  - rewrite (count_ok v t (wf_shape _ H) (wf_placed _ H)). simpl. exists t.
    assert (occurs v l = occurs v (elements t)) as -> by (by rewrite E).
    split; [by destruct (occurs v (elements t))|]. split; [done|lia].
  - exists construct. split; [done|]. simpl. split; [split; [apply construct_WF|done]|lia].
  - exists t. unfold size. rewrite Hz, E. split; [done|]. split; [done|lia].
Qed.

Lemma run_simulates ops t l :
  represents t l -> _size t + Z.of_nat (length ops) < 2 ^ 62 ->
  exists t', run ops t = Done (fst (spec_run ops l), t') /\ represents t' (snd (spec_run ops l)).
Proof.
  revert t l. induction ops as [|o ops IH]; intros t l Hr Hb; simpl in *; [by exists t|].
  destruct (step_simulates o t l Hr ltac:(lia)) as (t1 & -> & Hr1 & Hz1). simpl.
  destruct (IH t1 _ Hr1 ltac:(lia)) as (t2 & -> & Hr2). by exists t2.
Qed.

(** *** Iteration *)

(** [for (it = begin(); it != end(); ++it) out.push_back( *it)]; [Eof] when
    the fuel runs out. *)
Fixpoint collect (fuel : nat) (t : table) (it : Iterator) : res (list Value) :=
  match fuel with
  | O => Eof
  | S fuel =>
      let? e := end_ t in
      if it_ne it e then
        let? v := deref t it in
        let? it := next t it in
        let? vs := collect fuel t it in
        Done (v :: vs)
      else Done []
  end.

(** The elements from a position on. *)
Definition rest (t : table) (it : Iterator) : list Value :=
  match _buckets t !! _vecIt it with
  | Some b => drop (_buckIt it) b ++ concat (drop (S (_vecIt it)) (_buckets t))
  | None => []
  end.

(** A position the loops stop at: the end or an element. *)
Definition settled (t : table) (it : Iterator) : Prop :=
  _endIt it = length (_buckets t) /\ (_vecIt it = length (_buckets t) \/ exists x, points_to t it x).

Lemma rest_next_bucket t i e j b :
  _buckets t !! i = Some b ->
  rest t {| _vecIt := i; _endIt := e; _buckIt := length b |} =
  rest t {| _vecIt := S i; _endIt := e; _buckIt := if (S i =? e)%nat then j else O |} \/
  S i = e /\ e <> length (_buckets t).
Proof.
  intros Hb. unfold rest. cbn [_vecIt _buckIt]. rewrite Hb, drop_all, app_nil_l.
  destruct (_buckets t !! S i) as [c|] eqn:Hc.
  - destruct (Nat.eqb_spec (S i) e) as [<-|]; [right; split; [done|]; apply lookup_lt_Some in Hc; lia|].
    left. by rewrite (drop_S _ _ _ Hc).
  - left. apply lookup_ge_None in Hc. by rewrite drop_ge.
Qed.

Lemma next_loop_ok fuel t it b :
  _endIt it = length (_buckets t) -> (length (_buckets t) - _vecIt it < fuel)%nat ->
  _buckets t !! _vecIt it = Some b -> (_buckIt it <= length b)%nat ->
  exists it', next_loop fuel t it = Done it' /\ settled t it' /\ rest t it' = rest t it.
Proof.
  revert it b. induction fuel as [|fuel IH]; intros it b He Hf Hb Hj; [lia|]. cbn [next_loop].
  pose proof (lookup_lt_Some _ _ _ Hb) as Hlt. rewrite (proj2 (Nat.eqb_neq (_vecIt it) (_endIt it))) by lia.
  rewrite (at_ok _ _ _ Hb). cbn [rbind]. destruct (Nat.eqb_spec (_buckIt it) (length b)) as [E|E].
  - destruct (rest_next_bucket t (_vecIt it) (_endIt it) (_buckIt it) b Hb) as [R|[]]; [|lia].
    assert (R0 : rest t it = rest t {| _vecIt := _vecIt it; _endIt := _endIt it; _buckIt := length b |})
      by (unfold rest; by rewrite <-E).
    rewrite R0, R. destruct (Nat.eqb_spec (S (_vecIt it)) (_endIt it)) as [E2|E2].
    + exists {| _vecIt := S (_vecIt it); _endIt := _endIt it; _buckIt := _buckIt it |}.
      split; [|split; [split; [exact He|left; cbn [_vecIt]; lia]|done]].
      destruct fuel as [|fuel]; [lia|]. cbn [next_loop _vecIt _endIt]. by rewrite (proj2 (Nat.eqb_eq _ _) E2).
    + destruct (lookup_lt_is_Some_2 (_buckets t) (S (_vecIt it))) as [c Hc]; [lia|].
      apply (IH _ c); simpl; [done|lia|done|lia].
  - destruct (lookup_lt_is_Some_2 b (_buckIt it)) as [x Hx]; [lia|].
    exists it. split_and!; try done. split; [done|]. right. exists x. split; [done|]. by exists b.
Qed.

Lemma next_ok t it x :
  points_to t it x ->
  exists it', next t it = Done it' /\ settled t it' /\ rest t it = x :: rest t it'.
Proof.
  intros (He & b & Hb & Hx). pose proof (lookup_lt_Some _ _ _ Hb). pose proof (lookup_lt_Some _ _ _ Hx).
  unfold next. rewrite (proj2 (Nat.eqb_neq _ _)) by lia.
  destruct (next_loop_ok (S (length (_buckets t))) t
              {| _vecIt := _vecIt it; _endIt := _endIt it; _buckIt := S (_buckIt it) |} b)
    as (it' & -> & Hs & Hr); simpl; [done|lia|done|lia|].
  exists it'. split_and!; [done..|]. rewrite Hr. unfold rest. simpl. rewrite Hb.
  by rewrite (drop_S _ _ _ Hx).
Qed.

Lemma settled_end t it e :
  settled t it -> end_ t = Done e ->
  if it_ne it e then exists x, points_to t it x else rest t it = [].
Proof.
  intros (He & [Hv|[x Hx]]) Hend; [|by rewrite (points_to_not_end t it x e Hx Hend); eauto].
  assert (it_ne it e = false) as ->.
  { unfold end_, at_ in Hend. destruct (_buckets t !! 0%nat); [|done]. simpl in Hend.
    injection Hend as <-. unfold it_ne. simpl. by rewrite He, Hv, Nat.eqb_refl. }
  unfold rest. by rewrite lookup_ge_None_2 by lia.
Qed.

Lemma collect_ok t : (exists e, end_ t = Done e) -> forall fuel it,
  settled t it -> (length (rest t it) < fuel)%nat -> collect fuel t it = Done (rest t it).
Proof.
  intros [e He]. induction fuel as [|fuel IH]; intros it Hs Hf; [lia|]. simpl. rewrite He. simpl.
  pose proof (settled_end t it e Hs He) as H. destruct (it_ne it e); [|by rewrite H].
  destruct H as [x Hx]. rewrite (points_to_deref t it x Hx). simpl.
  destruct (next_ok t it x Hx) as (it' & -> & Hs' & Hr). rewrite Hr in *. simpl in *.
  by rewrite IH by (done || lia).
Qed.

Lemma skip_empty_spec (bs : list (list Value)) i :
  exists k, skip_empty bs i = (i + k)%nat /\ (k <= length bs)%nat /\ concat bs = concat (drop k bs) /\
    (k = length bs \/ exists x b, bs !! k = Some (x :: b)).
Proof.
  revert i. induction bs as [|[|x b] bs IH]; intros i; simpl.
  - exists O. split_and!; [lia|lia|done|by left].
  - destruct (IH (S i)) as (k & -> & Hk & Hc & Hx). exists (S k). split_and!; [lia|lia|done|].
    destruct Hx as [->|]; [by left|by right].
  - exists O. split_and!; [lia|lia|done|]. right. by exists x, b.
Qed.

Lemma begin_ok (t : table) e :
  end_ t = Done e -> exists it, begin t = Done it /\ settled t it /\ rest t it = elements t.
Proof.
  intros He. destruct (skip_empty_spec (_buckets t) 0) as (k & Hk & Hle & Hc & Hx).
  unfold begin. rewrite Hk. simpl. destruct (Nat.eqb_spec k (length (_buckets t))) as [E|E].
  - exists e. unfold end_, at_ in *. destruct (_buckets t !! 0%nat) as [b|] eqn:Hb; [|done].
    simpl in *. injection He as <-. split_and!; [done| |].
    + split; [done|by left].
    + unfold rest, elements. simpl. rewrite lookup_ge_None_2 by lia. by rewrite Hc, drop_ge by lia.
  - destruct Hx as [|(x & b & Hb)]; [done|]. eexists. split_and!; [done| |].
    + split; [done|]. right. exists x. split; [done|]. by exists (x :: b).
    + unfold rest, elements. simpl. rewrite Hb, drop_0, Hc. by rewrite (drop_S _ _ _ Hb).
Qed.

(** An iteration over a table: every element once, in bucket order. *)
Definition iterate (t : table) : res (list Value) :=
  let? it := begin t in collect (S (Z.to_nat (size t))) t it.

Lemma iterate_ok t : WF t -> iterate t = Done (elements t).
Proof.
  intros H. destruct (end_ok t (wf_shape _ H)) as (e & He & _).
  destruct (begin_ok t e He) as (it & Hit & Hs & Hr). unfold iterate. rewrite Hit. cbn [rbind].
  rewrite <-Hr. apply collect_ok; [by exists e|done|]. unfold size. rewrite Hr, (wf_size _ H). lia.
Qed.
End Facts.
End TableFacts.

(** ** HashMap is a finite map *)

Module MapFacts.
Import Table TableFacts Map.

Lemma list_delete_insert {A} (l : list A) i x : delete i (<[i := x]> l) = delete i l.
Proof. rewrite !delete_take_drop, take_insert_ge, drop_insert_lt by lia. done. Qed.

Lemma concat_update_perm {A} (bs : list (list A)) i b j x y :
  bs !! i = Some b -> b !! j = Some x ->
  concat (<[i := <[j := y]> b]> bs) ≡ₚ y :: concat (<[i := delete j b]> bs).
Proof.
  intros Hb Hx. pose proof (lookup_lt_Some _ _ _ Hb). pose proof (lookup_lt_Some _ _ _ Hx).
  rewrite (concat_delete_perm (<[i := <[j := y]> b]> bs) i (<[j := y]> b) j y).
  - by rewrite list_insert_insert_eq, list_delete_insert.
  - by rewrite list_lookup_insert_eq.
  - by rewrite list_lookup_insert_eq.
Qed.

Section Facts.
Context {Key Mapped : Type} `{Countable Key} (func : Key -> Z) (default : Mapped).
Abbreviation entry := (HashMapEntry Key Mapped).
Abbreviation table := (LinearHashTable entry).
Abbreviation eqb := (@entry_eqb Key Mapped _).
Abbreviation hash := (@entry_hash Key Mapped func).

Global Instance entry_HashKey : HashKey eqb hash.
Proof.
  split; unfold entry_eqb, entry_hash.
  - intros a. by apply bool_decide_eq_true.
  - intros a b. apply bool_decide_ext. split; congruence.
  - intros a b c. rewrite !bool_decide_eq_true. congruence.
  - intros a b. rewrite bool_decide_eq_true. congruence.
Qed.

Definition pair_of (e : entry) : Key * Mapped := (first e, second e).

(** The map a table stands for. *)
Definition to_map (t : table) : gmap Key Mapped := list_to_map (map pair_of (elements t)).

Lemma occurs_key e l : occurs eqb e l = true <-> first e ∈ (map pair_of l).*1.
Proof.
  rewrite (occurs_spec eqb), list_elem_of_fmap. unfold entry_eqb.
  setoid_rewrite bool_decide_eq_true. split.
  - intros (x & Hx & E). exists (pair_of x). split; [done|]. apply list_elem_of_fmap. by exists x.
  - intros (p & E & (x & -> & Hx)%list_elem_of_fmap). by exists x.
Qed.

Lemma distinct_keys l : distinct eqb l -> NoDup (map pair_of l).*1.
Proof.
  induction l as [|e l IH]; simpl; intros Hd; [constructor|].
  destruct (distinct_uncons eqb hash e l Hd) as [Hd' Ho]. constructor; [|auto].
  change (first e ∉ (map pair_of l).*1). rewrite <-occurs_key. congruence.
Qed.

Lemma to_map_perm t l :
  WF eqb hash t -> elements t ≡ₚ l -> to_map t = list_to_map (map pair_of l).
Proof.
  intros HW E. apply list_to_map_proper; [apply distinct_keys, HW|]. by rewrite E.
Qed.

Lemma to_map_cons t e l :
  WF eqb hash t -> elements t ≡ₚ e :: l ->
  to_map t = <[first e := second e]> (list_to_map (map pair_of l)) /\
  (list_to_map (map pair_of l) : gmap Key Mapped) !! first e = None.
Proof.
  intros HW E. split; [by rewrite (to_map_perm t (e :: l) HW E)|].
  apply not_elem_of_list_to_map_1. pose proof (wf_distinct _ _ _ HW) as Hd. rewrite E in Hd.
  apply (distinct_uncons eqb hash) in Hd as [_ Ho]. rewrite <-occurs_key. congruence.
Qed.

Lemma occurs_map e t :
  WF eqb hash t -> occurs eqb e (elements t) = bool_decide (is_Some (to_map t !! first e)).
Proof.
  intros HW. apply eq_true_iff_eq. rewrite occurs_key, bool_decide_eq_true. unfold to_map.
  split; intros Hk.
  - destruct (decide (is_Some (list_to_map (M := gmap Key Mapped) (map pair_of (elements t)) !! first e))) as [|Hn]; [done|].
    apply eq_None_not_Some in Hn. by apply not_elem_of_list_to_map_2 in Hn.
  - destruct Hk as [v Hv]. apply elem_of_list_to_map_2 in Hv.
    apply list_elem_of_fmap. by exists (first e, v).
Qed.

Lemma points_to_map t it e :
  WF eqb hash t -> points_to t it e -> to_map t !! first e = Some (second e).
Proof.
  intros HW (_ & b & Hb & He). apply elem_of_list_to_map_1; [apply distinct_keys, HW|].
  apply list_elem_of_fmap. exists e. split; [done|]. apply elem_of_buckets.
  exists (_vecIt it), b. split; [done|]. by eapply list_elem_of_lookup_2.
Qed.

Lemma erase_map t e t' :
  WF eqb hash t -> WF eqb hash t' -> elements t ≡ₚ e :: elements t' ->
  to_map t' = delete (first e) (to_map t).
Proof.
  intros HW HW' E. destruct (to_map_cons t e _ HW E) as [-> Hn].
  by rewrite delete_insert_id by done.
Qed.

(** *** The operations on the map *)

Lemma map_find_ok k t :
  WF eqb hash t ->
  match to_map t !! k with
  | Some v => exists it, find func default k t = Done it /\ points_to t it {| first := k; second := v |}
  | None => find func default k t = end_ t
  end.
Proof.
  intros HW. pose proof (find_ok eqb hash (entry_of default k) t (wf_shape _ _ _ HW) (wf_placed _ _ _ HW)) as F.
  rewrite (occurs_map _ t HW) in F. simpl in F. unfold find.
  destruct (to_map t !! k) as [v|] eqn:Hv; simpl in F; [|done].
  destruct F as (it & x & Hf & Hit & E). exists it. split; [done|].
  apply bool_decide_eq_true in E. simpl in E. pose proof (points_to_map t it x HW Hit) as Hx.
  rewrite <-E, Hv in Hx. injection Hx as ->. rewrite E. by destruct x.
Qed.

Lemma map_count_ok k t :
  WF eqb hash t -> count func default k t = Done (Z.b2z (bool_decide (is_Some (to_map t !! k)))).
Proof.
  intros HW. pose proof (count_ok eqb hash (entry_of default k) t (wf_shape _ _ _ HW) (wf_placed _ _ _ HW)) as C.
  rewrite (occurs_map _ t HW) in C. unfold count, Table.count in *. rewrite C. simpl.
  by case_bool_decide.
Qed.

Lemma map_at_const_ok k t :
  WF eqb hash t ->
  at_const func default k t =
  match to_map t !! k with Some v => Done v | None => Raise NotFoundException end.
Proof.
  intros HW. pose proof (map_find_ok k t HW) as F. unfold at_const. unfold find in F.
  destruct (end_ok t (wf_shape _ _ _ HW)) as (e & He & _). destruct (to_map t !! k) as [v|].
  - destruct F as (it & -> & Hit). simpl. rewrite He. simpl.
    rewrite (points_to_not_end t it _ e Hit He), (points_to_deref t it _ Hit). done.
  - rewrite F, He. simpl. by rewrite (it_ne_same e (end_is_end t e He)).
Qed.

Lemma map_insert_ok k v t :
  WF eqb hash t -> _size t < 2 ^ 62 - 1 ->
  exists it t', insert func k v t = Done (it, bool_decide (to_map t !! k = None), t') /\
    WF eqb hash t' /\ _size t' <= _size t + 1 /\
    let w := from_option id v (to_map t !! k) in
    points_to t' it {| first := k; second := w |} /\ to_map t' = <[k := w]> (to_map t).
Proof.
  intros HW Hb. set (e := {| first := k; second := v |}).
  pose proof (occurs_map e t HW) as Ho. simpl in Ho. unfold insert. fold e.
  destruct (to_map t !! k) as [w|] eqn:Hw; simpl in *.
  - destruct (insert_old_ok eqb hash e t HW Ho) as (it & x & -> & Hit & E).
    apply bool_decide_eq_true in E. simpl in E.
    pose proof (points_to_map t it x HW Hit) as Hx. rewrite <-E, Hw in Hx. injection Hx as ->.
    exists it, t. rewrite E. split_and!; [done|done|lia| |].
    + by destruct x.
    + rewrite insert_id; [done|]. by rewrite <-E.
  - destruct (insert_new_ok eqb hash e t HW Hb Ho) as (it & t' & -> & HW' & El & Hit).
    exists it, t'. split_and!; [done|done| |done|].
    + rewrite (wf_size _ _ _ HW'), El, (wf_size _ _ _ HW). simpl. lia.
    + by destruct (to_map_cons t' e _ HW' El) as [-> _].
Qed.

Lemma map_erase_ok k t :
  WF eqb hash t ->
  exists t', erase func default k t = Done t' /\ WF eqb hash t' /\ _size t' <= _size t /\
    to_map t' = delete k (to_map t).
Proof.
  intros HW. pose proof (map_find_ok k t HW) as F. unfold erase.
  destruct (to_map t !! k) as [v|] eqn:Hv.
  - destruct F as (it & -> & Hit). simpl.
    destruct (erase_at_ok eqb hash it _ t HW Hit) as (t' & -> & HW' & El).
    exists t'. split_and!; [done|done| |by rewrite (erase_map t _ t' HW HW' El)].
    rewrite (wf_size _ _ _ HW'), (wf_size _ _ _ HW), El. simpl. lia.
  - destruct (end_ok t (wf_shape _ _ _ HW)) as (e & He & _). rewrite F, He. simpl. unfold erase_at.
    rewrite He. simpl. rewrite (it_ne_same e (end_is_end t e He)). exists t.
    split_and!; [done|done|lia|]. by rewrite delete_id.
Qed.

Lemma map_assign_ok it e v t :
  WF eqb hash t -> points_to t it e ->
  exists t', assign it v t = Done t' /\ WF eqb hash t' /\ _size t' = _size t /\
    to_map t' = <[first e := v]> (to_map t).
Proof.
  intros HW (_ & b & Hb & He). unfold assign. rewrite (at_ok _ _ _ Hb). simpl.
  rewrite (at_ok _ _ _ He). simpl. set (e' := {| first := first e; second := v |}).
  set (t' := set_buckets _ t). exists t'. split; [done|].
  pose proof (concat_delete_perm _ _ _ _ _ Hb He) as E1.
  pose proof (concat_update_perm _ _ _ _ _ e' Hb He) as E2.
  pose proof (wf_distinct _ _ _ HW) as Hd. unfold elements in Hd. rewrite E1 in Hd.
  destruct (distinct_uncons eqb hash _ _ Hd) as [Hd' Ho].
  pose proof HW as [Hs Hp _ Hz Hc].
  assert (HW' : WF eqb hash t').
  { split; unfold shape, elements, t'; simpl; rewrite ?length_insert; try done.
    - intros i c x Hi Hx. destruct (decide (_vecIt it = i)) as [<-|].
      + rewrite list_lookup_insert_eq in Hi by (by eapply lookup_lt_Some). injection Hi as <-.
        apply list_elem_of_lookup in Hx as [j Hj]. destruct (decide (_buckIt it = j)) as [<-|].
        * rewrite list_lookup_insert_eq in Hj by (by eapply lookup_lt_Some). injection Hj as <-.
          apply (Hp _ _ e Hb). by eapply list_elem_of_lookup_2.
        * rewrite list_lookup_insert_ne in Hj by done. apply (Hp _ _ x Hb). by eapply list_elem_of_lookup_2.
      + rewrite list_lookup_insert_ne in Hi by done. by eapply Hp.
    - rewrite E2. by apply (distinct_cons eqb hash).
    - rewrite Hz. unfold elements. by rewrite E1, E2. }
  split_and!; [done..|].
  destruct (to_map_cons t' e' _ HW' E2) as [-> _]. destruct (to_map_cons t e _ HW E1) as [-> _].
  by rewrite insert_insert_eq.
Qed.

Lemma map_put_ok k v t :
  WF eqb hash t -> _size t < 2 ^ 62 - 1 ->
  exists t', put func default k v t = Done t' /\ WF eqb hash t' /\ _size t' <= _size t + 1 /\
    to_map t' = <[k := v]> (to_map t).
Proof.
  intros HW Hb. unfold put, at_ref.
  destruct (map_insert_ok k default t HW Hb) as (it & t1 & E & HW1 & Hz1 & Hit & Em).
  unfold insert in E. unfold entry_of. rewrite E. simpl.
  destruct (map_assign_ok it _ v t1 HW1 Hit) as (t2 & -> & HW2 & Hz2 & Em2).
  exists t2. split_and!; [done|done|lia|]. rewrite Em2, Em. simpl. by rewrite insert_insert_eq.
Qed.

(** The operations of a client of a map; [Assign] is [m[k] = v], [Ref] a read
    of [m[k]] on a map that is not const, [Get] on one that is. *)
Inductive op :=
| Insert (k : Key) (v : Mapped) | Erase (k : Key) | Assign (k : Key) (v : Mapped)
| Ref (k : Key) | Get (k : Key) | Count (k : Key) | Clear | Size.

Inductive answer := Nothing | Number (n : Z) | Value (v : Mapped) | NotFound.

Definition step (o : op) (t : table) : res (answer * table) :=
  match o with
  | Insert k v => let? r := insert func k v t in Done (Number (Z.b2z (snd (fst r))), snd r)
  | Erase k => let? t := erase func default k t in Done (Nothing, t)
  | Assign k v => let? t := put func default k v t in Done (Nothing, t)
  | Ref k =>
      let? r := at_ref func default k t in
      let? e := deref (snd r) (fst r) in Done (Value (second e), snd r)
  | Get k =>
      match at_const func default k t with
      | Done v => Done (Value v, t)
      | Raise NotFoundException => Done (NotFound, t)
      | Raise e => Raise e
      | Eof => Eof
      | UB => UB
      end
  | Count k => let? n := count func default k t in Done (Number n, t)
  | Clear => Done (Nothing, clear t)
  | Size => Done (Number (size t), t)
  end.

Definition spec_step (o : op) (m : gmap Key Mapped) : answer * gmap Key Mapped :=
  match o with
  | Insert k v =>
      match m !! k with Some _ => (Number 0, m) | None => (Number 1, <[k := v]> m) end
  | Erase k => (Nothing, delete k m)
  | Assign k v => (Nothing, <[k := v]> m)
  | Ref k => match m !! k with Some v => (Value v, m) | None => (Value default, <[k := default]> m) end
  | Get k => match m !! k with Some v => (Value v, m) | None => (NotFound, m) end
  | Count k => (Number (match m !! k with Some _ => 1 | None => 0 end), m)
  | Clear => (Nothing, ∅)
  | Size => (Number (Z.of_nat (base.size m)), m)
  end.

Fixpoint run (ops : list op) (t : table) : res (list answer * table) :=
  match ops with
  | [] => Done ([], t)
  | o :: ops =>
      let? r := step o t in
      let? rs := run ops (snd r) in
      Done (fst r :: fst rs, snd rs)
  end.

Fixpoint spec_run (ops : list op) (m : gmap Key Mapped) : list answer * gmap Key Mapped :=
  match ops with
  | [] => ([], m)
  | o :: ops =>
      let r := spec_step o m in
      let rs := spec_run ops (snd r) in
      (fst r :: fst rs, snd rs)
  end.

Lemma to_map_size t : WF eqb hash t -> Z.of_nat (base.size (to_map t)) = _size t.
Proof.
  intros HW. rewrite (wf_size _ _ _ HW). unfold to_map.
  rewrite map_size_list_to_map by apply distinct_keys, HW. by rewrite length_map.
Qed.

Lemma map_step_simulates o t :
  WF eqb hash t -> _size t < 2 ^ 62 - 1 ->
  exists t', step o t = Done (fst (spec_step o (to_map t)), t') /\ WF eqb hash t' /\
    to_map t' = snd (spec_step o (to_map t)) /\ _size t' <= _size t + 1.
Proof.
  intros HW Hb. destruct o as [k v|k|k v|k|k|k| |]; simpl.
  - destruct (map_insert_ok k v t HW Hb) as (it & t' & -> & HW' & Hz & _ & Em). exists t'. simpl.
    destruct (to_map t !! k) as [w|] eqn:Hw; simpl in *; rewrite ?Em, ?insert_id by done; done.
  - destruct (map_erase_ok k t HW) as (t' & -> & HW' & Hz & Em). exists t'. split_and!; [done..|lia].
  - destruct (map_put_ok k v t HW Hb) as (t' & -> & HW' & Hz & Em). by exists t'.
  - destruct (map_insert_ok k default t HW Hb) as (it & t' & E & HW' & Hz & Hit & Em). unfold at_ref.
    unfold insert in E. unfold entry_of. rewrite E. simpl. rewrite (points_to_deref t' it _ Hit). simpl.
    exists t'. destruct (to_map t !! k) as [w|] eqn:Hw; simpl in *; rewrite ?Em, ?insert_id by done; done.
  - rewrite (map_at_const_ok k t HW). exists t.
    destruct (to_map t !! k); simpl; (split_and!; [done..|lia]).
  - rewrite (map_count_ok k t HW). exists t. simpl.
    destruct (to_map t !! k); simpl; (split_and!; [done..|lia]).
  - exists construct. split_and!; [done|apply construct_WF|done|]. simpl.
    rewrite (wf_size _ _ _ HW). lia.
  - exists t. rewrite (to_map_size t HW). split_and!; [done..|lia].
Qed.

Lemma map_run_simulates ops t :
  WF eqb hash t -> _size t + Z.of_nat (length ops) < 2 ^ 62 ->
  exists t', run ops t = Done (fst (spec_run ops (to_map t)), t') /\ WF eqb hash t' /\
    to_map t' = snd (spec_run ops (to_map t)).
Proof.
  revert t. induction ops as [|o ops IH]; intros t HW Hb; simpl in *; [by exists t|].
  destruct (map_step_simulates o t HW ltac:(lia)) as (t1 & -> & HW1 & Em & Hz1). simpl.
  destruct (IH t1 HW1 ltac:(lia)) as (t2 & -> & HW2 & Em2). rewrite <-Em. by exists t2.
Qed.
End Facts.
End MapFacts.

(** ** The claims *)

(** C29: for every sequence of insert, erase, count, clear and size calls on a
    new table (fewer than 2^62 calls, so that the bucket count stays inside
    [std::size_t]) no access is out of bounds and no remainder is by zero,
    every answer is the one of a mathematical set, the elements are those of
    that set, each once, the number of buckets is the number of elements plus
    one, and a search afterwards finds exactly the elements. *)
Theorem hash_table_refines_set {Value} (eqb : Value -> Value -> bool) (hash : Value -> Z)
    (HK : TableFacts.HashKey eqb hash) (ops : list (TableFacts.op (Value := Value))) :
  Z.of_nat (length ops) < 2 ^ 62 ->
  let '(answers, l) := TableFacts.spec_run eqb ops [] in
  exists t, TableFacts.run eqb hash ops Table.construct = Done (answers, t) /\
    TableFacts.elements t ≡ₚ l /\ TableFacts.distinct eqb l /\
    Table.size t = Z.of_nat (length l) /\ Table.buckets t = 1 + Z.of_nat (length l) /\
    forall v,
      if existsb (eqb v) l
      then exists it x, Table.find eqb hash v t = Done it /\ Table.deref t it = Done x /\ eqb v x = true
      else Table.find eqb hash v t = Table.end_ t.
Proof.
  intros Hb. destruct (TableFacts.run_simulates eqb hash ops Table.construct []) as (t & Hrun & HW & E).
  { split; [apply TableFacts.construct_WF|done]. }
  { simpl. lia. }
  destruct (TableFacts.spec_run eqb ops []) as [answers l]. simpl in *. exists t.
  pose proof (TableFacts.wf_size _ _ _ HW) as Hz. pose proof (TableFacts.wf_count _ _ _ HW) as Hc.
  split_and!; [done|done|rewrite <-E; apply HW|unfold Table.size; by rewrite Hz, E| |].
  - unfold Table.buckets. by rewrite Hc, Hz, E.
  - intros v.
    pose proof (TableFacts.find_ok eqb hash v t (TableFacts.wf_shape _ _ _ HW) (TableFacts.wf_placed _ _ _ HW)) as F.
    rewrite (TableFacts.occurs_Proper eqb v _ _ E) in F. unfold TableFacts.occurs in F.
    destruct (existsb (eqb v) l); [|done]. destruct F as (it & x & Hf & Hit & Ev). exists it, x.
    split_and!; [done| |done]. by apply TableFacts.points_to_deref.
Qed.

Lemma Z_HashKey : TableFacts.HashKey Z.eqb (fun z => z).
Proof. split; lia. Qed.

Lemma hash_table_refines_set_witness :
  exists t, TableFacts.run Z.eqb (fun z => z)
              [TableFacts.Insert 5; TableFacts.Insert 9; TableFacts.Insert 5; TableFacts.Insert 2;
               TableFacts.Erase 9; TableFacts.Count 5; TableFacts.Count 9; TableFacts.Size]
              Table.construct = Done ([1; 1; 0; 1; 0; 1; 0; 2], t) /\
    TableFacts.elements t ≡ₚ [2; 5].
Proof.
  pose proof (hash_table_refines_set Z.eqb (fun z => z) Z_HashKey
    [TableFacts.Insert 5; TableFacts.Insert 9; TableFacts.Insert 5; TableFacts.Insert 2;
     TableFacts.Erase 9; TableFacts.Count 5; TableFacts.Count 9; TableFacts.Size]
    ltac:(vm_compute; reflexivity)) as (t & Hrun & E & _).
  exists t. split; [exact Hrun|exact E].
Defined.

(** Iterating from [begin] with [operator ++] until [end] is reached
    terminates on every table a client can build and visits every element
    exactly once. *)
Theorem hash_table_iteration {Value} (eqb : Value -> Value -> bool) (hash : Value -> Z)
    (HK : TableFacts.HashKey eqb hash) (ops : list (TableFacts.op (Value := Value))) answers t :
  Z.of_nat (length ops) < 2 ^ 62 ->
  TableFacts.run eqb hash ops Table.construct = Done (answers, t) ->
  exists vs, TableFacts.iterate t = Done vs /\ vs ≡ₚ snd (TableFacts.spec_run eqb ops []) /\
    TableFacts.distinct eqb vs.
Proof.
  intros Hb Hrun. destruct (TableFacts.run_simulates eqb hash ops Table.construct []) as (t' & Hrun' & HW & E).
  { split; [apply TableFacts.construct_WF|done]. }
  { simpl. lia. }
  rewrite Hrun' in Hrun. injection Hrun as _ <-. exists (TableFacts.elements t').
  split_and!; [by apply (TableFacts.iterate_ok eqb hash)|done|apply HW].
Qed.

Lemma hash_table_iteration_witness :
  exists vs, TableFacts.iterate
    {| Table._buckets := [[4]; [5]; []]; Table._split := 1; Table._front := 2; Table._size := 2 |} =
    Done vs /\ vs ≡ₚ [4; 5].
Proof.
  pose proof (hash_table_iteration Z.eqb (fun z => z) Z_HashKey
    [TableFacts.Insert 5; TableFacts.Insert 9; TableFacts.Insert 4; TableFacts.Erase 9] [1; 1; 1; 0]
    {| Table._buckets := [[4]; [5]; []]; Table._split := 1; Table._front := 2; Table._size := 2 |}
    ltac:(vm_compute; reflexivity) ltac:(vm_compute; reflexivity)) as (vs & Hi & E & _).
  exists vs. split; [exact Hi|exact E].
Defined.

(** HashMap is a finite map: for every sequence of insert, erase,
    [operator []] (read, write and const), count, clear and size calls the
    answers are those of the map, [insert] never overwrites, a missing key
    read through a const map throws NotFoundException and through another
    one is created with the default value, and an iteration lists the map. *)
Theorem hash_map_refines_map {Key Mapped} `{Countable Key} (func : Key -> Z) (default : Mapped)
    (ops : list (MapFacts.op (Key := Key) (Mapped := Mapped))) :
  Z.of_nat (length ops) < 2 ^ 62 ->
  let '(answers, m) := MapFacts.spec_run default ops ∅ in
  exists t es, MapFacts.run func default ops Table.construct = Done (answers, t) /\
    TableFacts.iterate t = Done es /\ map MapFacts.pair_of es ≡ₚ map_to_list m.
Proof.
  intros Hb. destruct (MapFacts.map_run_simulates func default ops Table.construct) as (t & Hrun & HW & E).
  { apply TableFacts.construct_WF. }
  { simpl. lia. }
  change (MapFacts.to_map Table.construct) with (∅ : gmap Key Mapped) in *.
  destruct (MapFacts.spec_run default ops ∅) as [answers m]. simpl in *.
  exists t, (TableFacts.elements t).
  split_and!; [done|by apply (TableFacts.iterate_ok _ _ t HW)|].
  rewrite <-E. unfold MapFacts.to_map. rewrite map_to_list_to_map; [done|].
  apply (MapFacts.distinct_keys func), HW.
Qed.

Lemma hash_map_refines_map_witness :
  exists t es, MapFacts.run (fun k => k mod 3) 0
    [MapFacts.Insert 1 10; MapFacts.Insert 4 40; MapFacts.Insert 1 11; MapFacts.Get 7; MapFacts.Ref 7;
     MapFacts.Assign 4 41; MapFacts.Get 4; MapFacts.Erase 1; MapFacts.Size] Table.construct =
    Done ([MapFacts.Number 1; MapFacts.Number 1; MapFacts.Number 0; MapFacts.NotFound; MapFacts.Value 0;
           MapFacts.Nothing; MapFacts.Value 41; MapFacts.Nothing; MapFacts.Number 2], t) /\
    TableFacts.iterate t = Done es.
Proof.
  pose proof (hash_map_refines_map (fun k => k mod 3) 0
    [MapFacts.Insert 1 10; MapFacts.Insert 4 40; MapFacts.Insert 1 11; MapFacts.Get 7; MapFacts.Ref 7;
     MapFacts.Assign 4 41; MapFacts.Get 4; MapFacts.Erase 1; MapFacts.Size]
    ltac:(vm_compute; reflexivity)) as (t & es & Hrun & Hi & _).
  exists t, es. split; [exact Hrun|exact Hi].
Defined.
