(* ===== verification/Cache.v ===== *)
(** Caches: AbstractCache.h over a replacement strategy (AbstractStrategy.h),
    with the strategies LRUStrategy.h, ExpireStrategy.h,
    AccessExpireStrategy.h and StrategyCollection.h.

    [AbstractStrategy] is the interface as a record of operations; a cache is
    parametrised by one.  The class [Lawful] is what a strategy promises to the
    cache, and the theorems on the cache are proved against it.  The events of
    a cache have the strategy's handlers as their only delegates, so a
    notification is a call of the handler.

    The iterators that the index of a strategy keeps are node numbers: a node
    keeps its number for life, and the use of a number that names no node is
    undefined behaviour.  The wall clock is the sequence [time] of its
    readings; the state carries the number of readings taken so far.  *)

From stdpp Require Import gmap sorting.
From S2P Require Import Prelude.

Open Scope st_scope.

(** ** Node containers: std::list and std::multimap *)

Module Nodes.
Section Code.
Context {A : Type}.

(** The nodes in order, each with its number, and the next number. *)
Record nodes := { items : list (nat * A); fresh : nat }.

Definition none : nodes := {| items := []; fresh := 0 |}.

(** [*it] *)
Fixpoint find_node (id : nat) (l : list (nat * A)) : option A :=
  match l with
  | [] => None
  | (i, a) :: l => if (i =? id)%nat then Some a else find_node id l
  end.

Fixpoint remove_node (id : nat) (l : list (nat * A)) : list (nat * A) :=
  match l with
  | [] => []
  | (i, a) :: l => if (i =? id)%nat then l else (i, a) :: remove_node id l
  end.

(** [push_front(a)]; the new iterator is [begin()]. *)
Definition push_front (a : A) (l : nodes) : nat * nodes :=
  (fresh l, {| items := (fresh l, a) :: items l; fresh := S (fresh l) |}).

(** Insertion into a multimap: behind the elements that are not greater. *)
Fixpoint insert_sorted (le : A -> A -> bool) (x : nat * A) (l : list (nat * A)) : list (nat * A) :=
  match l with
  | [] => [x]
  | y :: l => if le (snd y) (snd x) then y :: insert_sorted le x l else x :: y :: l
  end.

Definition insert (le : A -> A -> bool) (a : A) (l : nodes) : nat * nodes :=
  (fresh l, {| items := insert_sorted le (fresh l, a) (items l); fresh := S (fresh l) |}).

(** [erase(it)] *)
Definition erase (id : nat) (l : nodes) : res nodes :=
  match find_node id (items l) with
  | None => UB
  | Some _ => Done {| items := remove_node id (items l); fresh := fresh l |}
  end.

(** [splice(begin(), *this, it)] *)
Definition splice_front (id : nat) (l : nodes) : res nodes :=
  match find_node id (items l) with
  | None => UB
  | Some a => Done {| items := (id, a) :: remove_node id (items l); fresh := fresh l |}
  end.
End Code.
Arguments nodes : clear implicits.
End Nodes.

(** ** The interface of the strategies *)

(** The handlers; [ValidArgs] is the flag [onIsValid] may clear, the set of
    [onReplace] is passed in and out. *)
Record AbstractStrategy (K V : Type) `{Countable K} := {
  state : Type;
  onAdd : K -> V -> ST (state * nat) unit;
  onRemove : K -> ST (state * nat) unit;
  onGet : K -> ST (state * nat) unit;
  onClear : ST (state * nat) unit;
  onIsValid : K -> bool -> ST (state * nat) bool;
  onReplace : gset K -> ST (state * nat) (gset K)
}.
Arguments state {K V _ _}. Arguments onAdd {K V _ _}. Arguments onRemove {K V _ _}.
Arguments onGet {K V _ _}. Arguments onClear {K V _ _}. Arguments onIsValid {K V _ _}.
Arguments onReplace {K V _ _}.

(** The handler of Update that AbstractStrategy defines. *)
Definition onUpdate {K V} `{Countable K} (S : AbstractStrategy K V) (k : K) (v : V) :
    ST (state S * nat) unit :=
  do* onRemove S k; onAdd S k v.

(** The state of a strategy beside the clock. *)
Definition gets {S} : ST (S * nat) S := fun s => (Done (fst s), s).
Definition puts {S} (x : S) : ST (S * nat) unit := fun s => (Done tt, (x, snd s)).

(** ** LRUStrategy *)
Module LRU.
Section Code.
Context {K V : Type} `{Countable K}.

Record LRUStrategy := {
  _size : Z;                      (* std::size_t *)
  _keys : Nodes.nodes K;
  _keyIndex : gmap K nat
}.

Definition construct (size : Z) : res LRUStrategy :=
  if size <? 1 then Raise InvalidArgumentException
  else Done {| _size := size; _keys := Nodes.none; _keyIndex := ∅ |}.

Definition onAdd (k : K) (_ : V) : ST (LRUStrategy * nat) unit :=
  let* s := gets in
  let (it, keys) := Nodes.push_front k (_keys s) in
  puts {| _size := _size s; _keys := keys; _keyIndex := <[k := it]> (_keyIndex s) |}.

Definition onRemove (k : K) : ST (LRUStrategy * nat) unit :=
  let* s := gets in
  match _keyIndex s !! k with
  | None => ret tt
  | Some it =>
      let* keys := lift (Nodes.erase it (_keys s)) in
      puts {| _size := _size s; _keys := keys; _keyIndex := delete k (_keyIndex s) |}
  end.

(** The spliced node is [begin()] afterwards: the index keeps its number. *)
Definition onGet (k : K) : ST (LRUStrategy * nat) unit :=
  let* s := gets in
  match _keyIndex s !! k with
  | None => ret tt
  | Some it =>
      let* keys := lift (Nodes.splice_front it (_keys s)) in
      puts {| _size := _size s; _keys := keys; _keyIndex := <[k := it]> (_keyIndex s) |}
  end.

Definition onClear : ST (LRUStrategy * nat) unit :=
  let* s := gets in
  puts {| _size := _size s; _keys := {| Nodes.items := []; Nodes.fresh := Nodes.fresh (_keys s) |};
          _keyIndex := ∅ |}.

Definition onIsValid (k : K) (valid : bool) : ST (LRUStrategy * nat) bool :=
  let* s := gets in
  ret (match _keyIndex s !! k with None => false | Some _ => valid end).

(** [while (i++ < diff)]: the position moves towards the front and stays there. *)
Fixpoint replace_loop (diff : nat) (keys : list K) (pos : nat) (elemsToRemove : gset K) : res (gset K) :=
  match diff with
  | O => Done elemsToRemove
  | S diff =>
      match keys !! pos with
      | None => UB
      | Some k => replace_loop diff keys (pos - 1) ({[k]} ∪ elemsToRemove)
      end
  end.

Definition onReplace (elemsToRemove : gset K) : ST (LRUStrategy * nat) (gset K) :=
  let* s := gets in
  let curSize := Z.of_nat (size (_keyIndex s)) in
  if curSize <? _size s then ret elemsToRemove
  else
    let diff := Z.to_nat (curSize - _size s) in
    let keys := map snd (Nodes.items (_keys s)) in
    match keys with
    | [] => undef                 (* --_keys.end() of an empty list *)
    | _ => lift (replace_loop diff keys (length keys - 1) elemsToRemove)
    end.

Definition strategy : AbstractStrategy K V :=
  {| state := LRUStrategy; Cache.onAdd := onAdd; Cache.onRemove := onRemove; Cache.onGet := onGet;
     Cache.onClear := onClear; Cache.onIsValid := onIsValid; Cache.onReplace := onReplace |}.
End Code.
Arguments LRUStrategy K {_ _}.
Arguments strategy K V {_ _}.
End LRU.

(** ** ExpireStrategy and AccessExpireStrategy *)
Module Expire.
Section Code.
Context {K V : Type} `{Countable K} (time : nat -> Z).

Record ExpireStrategy := {
  _expireTime : Z;                        (* Int64, microseconds *)
  _keys : gmap K nat;
  _keyIndex : Nodes.nodes (Z * K)         (* std::multimap<Timestamp, TKey> *)
}.

Definition construct (expireTimeInMilliSec : Z) : res ExpireStrategy :=
  (let? e := int64 (expireTimeInMilliSec * 1000) in
   if e <? 25000 then Raise InvalidArgumentException
   else Done {| _expireTime := e; _keys := ∅; _keyIndex := Nodes.none |})%res.

(** [Timestamp now;] *)
Definition now {S} : ST (S * nat) Z := fun s => (Done (time (snd s)), (fst s, Datatypes.S (snd s))).

(** [Timestamp::isElapsed] *)
Definition isElapsed {S} (ts interval : Z) : ST (S * nat) bool :=
  let* n := now in ret (interval <=? s64 (n - ts)).

Definition not_later (a b : Z * K) : bool := fst a <=? fst b.

Definition onAdd (k : K) (_ : V) : ST (ExpireStrategy * nat) unit :=
  let* t := now in
  let* s := gets in
  let (it, index) := Nodes.insert not_later (t, k) (_keyIndex s) in
  match _keys s !! k with
  | None => puts {| _expireTime := _expireTime s; _keys := <[k := it]> (_keys s); _keyIndex := index |}
  | Some old =>
      let* index := lift (Nodes.erase old index) in
      puts {| _expireTime := _expireTime s; _keys := <[k := it]> (_keys s); _keyIndex := index |}
  end.

Definition onRemove (k : K) : ST (ExpireStrategy * nat) unit :=
  let* s := gets in
  match _keys s !! k with
  | None => ret tt
  | Some it =>
      let* index := lift (Nodes.erase it (_keyIndex s)) in
      puts {| _expireTime := _expireTime s; _keys := delete k (_keys s); _keyIndex := index |}
  end.

Definition onGet (k : K) : ST (ExpireStrategy * nat) unit := ret tt.

Definition onClear : ST (ExpireStrategy * nat) unit :=
  let* s := gets in
  puts {| _expireTime := _expireTime s; _keys := ∅;
          _keyIndex := {| Nodes.items := []; Nodes.fresh := Nodes.fresh (_keyIndex s) |} |}.

Definition onIsValid (k : K) (valid : bool) : ST (ExpireStrategy * nat) bool :=
  let* s := gets in
  match _keys s !! k with
  | None => ret false
  | Some it =>
      match Nodes.find_node it (Nodes.items (_keyIndex s)) with
      | None => undef
      | Some (t, _) =>
          let* e := isElapsed t (_expireTime s) in
          ret (if e then false else valid)
      end
  end.

(** [while (it != end() && it->first.isElapsed(_expireTime))] *)
Fixpoint replace_loop (expire : Z) (l : list (Z * K)) (elemsToRemove : gset K) :
    ST (ExpireStrategy * nat) (gset K) :=
  match l with
  | [] => ret elemsToRemove
  | (t, k) :: l =>
      let* e := isElapsed t expire in
      if e then replace_loop expire l ({[k]} ∪ elemsToRemove) else ret elemsToRemove
  end.

Definition onReplace (elemsToRemove : gset K) : ST (ExpireStrategy * nat) (gset K) :=
  let* s := gets in
  replace_loop (_expireTime s) (map snd (Nodes.items (_keyIndex s))) elemsToRemove.

Definition strategy : AbstractStrategy K V :=
  {| state := ExpireStrategy; Cache.onAdd := onAdd; Cache.onRemove := onRemove; Cache.onGet := onGet;
     Cache.onClear := onClear; Cache.onIsValid := onIsValid; Cache.onReplace := onReplace |}.

(** AccessExpireStrategy: a read access renews the time stamp. *)
Definition access_onGet (k : K) : ST (ExpireStrategy * nat) unit :=
  let* s := gets in
  match _keys s !! k with
  | None => ret tt
  | Some it =>
      let* index := lift (Nodes.erase it (_keyIndex s)) in
      let* t := now in
      let (it, index) := Nodes.insert not_later (t, k) index in
      puts {| _expireTime := _expireTime s; _keys := <[k := it]> (_keys s); _keyIndex := index |}
  end.

Definition access_strategy : AbstractStrategy K V :=
  {| state := ExpireStrategy; Cache.onAdd := onAdd; Cache.onRemove := onRemove;
     Cache.onGet := access_onGet; Cache.onClear := onClear; Cache.onIsValid := onIsValid;
     Cache.onReplace := onReplace |}.
End Code.
Arguments ExpireStrategy K {_ _}.
Arguments strategy K V {_ _} time.
Arguments access_strategy K V {_ _} time.
End Expire.

(** ** StrategyCollection: the strategies one after the other *)
Module Collection.
Section Code.
Context {K V : Type} `{Countable K}.

(** The handlers of the first strategy, on the first component of the state... *)
Definition on_head {S T A} (m : ST (S * nat) A) : ST ((S * T) * nat) A := fun s =>
  let (r, s') := m (fst (fst s), snd s) in (r, ((fst s', snd (fst s)), snd s')).

(** ... and those of the others on the second. *)
Definition on_tail {S T A} (m : ST (T * nat) A) : ST ((S * T) * nat) A := fun s =>
  let (r, s') := m (snd (fst s), snd s) in (r, ((fst (fst s), fst s'), snd s')).

(** The loops over [_strategies] of the handlers: one strategy, then the rest. *)
Definition cons_strategy (S T : AbstractStrategy K V) : AbstractStrategy K V :=
  {| state := state S * state T;
     onAdd k v := do* on_head (onAdd S k v); on_tail (onAdd T k v);
     onRemove k := do* on_head (onRemove S k); on_tail (onRemove T k);
     onGet k := do* on_head (onGet S k); on_tail (onGet T k);
     onClear := do* on_head (onClear S); on_tail (onClear T);
     onIsValid k valid :=
       if valid : bool then
         let* valid := on_head (onIsValid S k valid) in on_tail (onIsValid T k valid)
       else ret valid;
     onReplace elems := let* elems := on_head (onReplace S elems) in on_tail (onReplace T elems) |}.

Definition nil_strategy : AbstractStrategy K V :=
  {| state := unit;
     onAdd _ _ := ret tt; onRemove _ := ret tt; onGet _ := ret tt; onClear := ret tt;
     onIsValid _ valid := ret valid; onReplace elems := ret elems |}.

Fixpoint StrategyCollection (l : list (AbstractStrategy K V)) : AbstractStrategy K V :=
  match l with
  | [] => nil_strategy
  | first :: l => cons_strategy first (StrategyCollection l)
  end.
End Code.
End Collection.

(** ** AbstractCache *)
Module Abstract.
Section Code.
Context {K V : Type} `{Countable K} (S : AbstractStrategy K V).

Record AbstractCache := {
  _strategy : state S;
  _data : gmap K V;               (* std::map<TKey, SharedPtr<TValue> > *)
  readings : nat                  (* of the clock *)
}.

Definition construct (s : state S) : AbstractCache :=
  {| _strategy := s; _data := ∅; readings := 0 |}.

(** [Event.notify(this, args)]: the handler of the strategy runs. *)
Definition notify {A} (m : ST (state S * nat) A) : ST AbstractCache A := fun c =>
  let (r, s) := m (_strategy c, readings c) in
  (r, {| _strategy := fst s; _data := _data c; readings := snd s |}).

Definition set_data (f : gmap K V -> gmap K V) : ST AbstractCache unit :=
  modify (fun c => {| _strategy := _strategy c; _data := f (_data c); readings := readings c |}).

(** [doRemove(_data.find(key))] *)
Definition doRemove (k : K) : ST AbstractCache unit :=
  let* c := get in
  match _data c !! k with
  | None => ret tt
  | Some _ => do* notify (onRemove S k); set_data (delete k)
  end.

Fixpoint remove_all (l : list K) : ST AbstractCache unit :=
  match l with
  | [] => ret tt
  | k :: l => do* doRemove k; remove_all l
  end.

Definition doReplace : ST AbstractCache unit :=
  let* delMe := notify (onReplace S ∅) in
  remove_all (elements delMe).

(** [_data.insert]: an existing entry would stay. *)
Definition data_insert (k : K) (v : V) : ST AbstractCache unit :=
  set_data (fun m => match m !! k with Some _ => m | None => <[k := v]> m end).

Definition doAdd (k : K) (v : V) : ST AbstractCache unit :=
  do* doRemove k;
  do* notify (onAdd S k v);
  do* data_insert k v;
  doReplace.

Definition doUpdate (k : K) (v : V) : ST AbstractCache unit :=
  let* c := get in
  do* match _data c !! k with
      | None => do* notify (onAdd S k v); data_insert k v
      | Some _ => do* notify (onUpdate S k v); set_data (<[k := v]>)
      end;
  doReplace.

Definition doHas (k : K) : ST AbstractCache bool :=
  let* c := get in
  match _data c !! k with
  | None => ret false
  | Some _ => notify (onIsValid S k true)
  end.

Definition doGet (k : K) : ST AbstractCache (option V) :=
  let* c := get in
  match _data c !! k with
  | None => ret None
  | Some v =>
      do* notify (onGet S k);
      let* valid := notify (onIsValid S k true) in
      if valid : bool then ret (Some v) else do* doRemove k; ret None
  end.

Definition doClear : ST AbstractCache unit :=
  do* notify (onClear S); set_data (fun _ => ∅).

(** [size()] and [getAllKeys()] replace first. *)
Definition size : ST AbstractCache Z :=
  do* doReplace; let* c := get in ret (Z.of_nat (base.size (_data c))).

Definition getAllKeys : ST AbstractCache (gset K) :=
  do* doReplace; let* c := get in ret (dom (_data c)).

(** The calls a client can make, each under the lock of the cache. *)
Inductive op :=
| Add (k : K) (v : V) | Update (k : K) (v : V) | Remove (k : K) | Has (k : K) | Get (k : K)
| Clear | Size | ForceReplace | GetAllKeys.

Inductive answer :=
| Nothing | Flag (b : bool) | Pointer (v : option V) | Number (n : Z) | Keys (X : gset K).

Definition step (o : op) : ST AbstractCache answer :=
  match o with
  | Add k v => do* doAdd k v; ret Nothing
  | Update k v => do* doUpdate k v; ret Nothing
  | Remove k => do* doRemove k; ret Nothing
  | Has k => let* b := doHas k in ret (Flag b)
  | Get k => let* v := doGet k in ret (Pointer v)
  | Clear => do* doClear; ret Nothing
  | Size => let* n := size in ret (Number n)
  | ForceReplace => do* doReplace; ret Nothing
  | GetAllKeys => let* X := getAllKeys in ret (Keys X)
  end.

Fixpoint run (ops : list op) : ST AbstractCache (list answer) :=
  match ops with
  | [] => ret []
  | o :: ops => let* a := step o in let* l := run ops in ret (a :: l)
  end.
End Code.
Arguments op K V : clear implicits.
Arguments answer K V {_ _}.
End Abstract.
