(* ===== verification/CacheFacts.v ===== *)
(** Facts about the caches.

    A strategy is described by a pure model ([StrategyModel]: a state with
    functions for the handlers); [Implements] says that the handlers of a
    strategy compute the functions of a model and never use an iterator that
    was erased.  A cache over a strategy that implements a model behaves like
    the pure cache [Pure] over that model; the claims are proved there, for
    the models of the LRU, expiring and combined strategies. *)

From stdpp Require Import gmap sorting.
From S2P Require Import Prelude Cache.

Open Scope st_scope.

(** ** Node containers with an index *)
Module Indexed.
Import Nodes.

Section Facts.
Context {K A : Type} `{Countable K} (key : A -> K).

(** The index maps the key of every node to its number, and nothing else. *)
Record indexed (l : list (nat * A)) (next : nat) (idx : gmap K nat) : Prop := {
  ix_ids : NoDup l.*1;
  ix_keys : NoDup (key <$> l.*2);
  ix_fresh id : id ∈ l.*1 -> (id < next)%nat;
  ix_lookup k id : idx !! k = Some id <-> exists a, (id, a) ∈ l /\ key a = k
}.

Global Instance indexed_Proper : Proper ((≡ₚ) ==> eq ==> eq ==> iff) indexed.
Proof.
  assert (P : forall l l' n idx, l ≡ₚ l' -> indexed l n idx -> indexed l' n idx).
  { intros l l' n idx E [H1 H2 H3 H4].
    split; [by rewrite <-E|by rewrite <-E|by setoid_rewrite <-E|by setoid_rewrite <-E]. }
  intros l l' E n ? <- idx ? <-. split; apply P; done.
Qed.

Lemma elem_key id a (l : list (nat * A)) : (id, a) ∈ l -> key a ∈ key <$> l.*2.
Proof. intros Hl. by apply list_elem_of_fmap_2, (list_elem_of_fmap_2 snd _ (id, a)). Qed.

Lemma indexed_nil n : indexed [] n ∅.
Proof.
  split; [constructor|constructor|by intros ? ?%not_elem_of_nil|]. intros k id. rewrite lookup_empty.
  split; [done|]. by intros (a & ?%not_elem_of_nil & _).
Qed.

Lemma indexed_dom l n idx : indexed l n idx -> dom idx = list_to_set (key <$> l.*2).
Proof.
  intros [_ _ _ H4]. apply set_eq. intros k. rewrite elem_of_dom, elem_of_list_to_set. split.
  - intros [id Hid]. apply H4 in Hid as (a & Ha & <-). by eapply elem_key.
  - intros (a & -> & ((id & a') & -> & Ha)%list_elem_of_fmap)%list_elem_of_fmap.
    exists id. apply H4. eauto.
Qed.

Lemma indexed_absent l n idx k : indexed l n idx -> k ∉ key <$> l.*2 -> idx !! k = None.
Proof.
  intros Hi Hk. apply not_elem_of_dom. rewrite (indexed_dom _ _ _ Hi). by rewrite elem_of_list_to_set.
Qed.

Lemma indexed_size l n idx : indexed l n idx -> size idx = length l.
Proof.
  intros Hi. rewrite <-size_dom, (indexed_dom _ _ _ Hi), size_list_to_set by apply Hi.
  by rewrite !length_fmap.
Qed.

Lemma find_node_in id a (l : list (nat * A)) : NoDup l.*1 -> (id, a) ∈ l -> find_node id l = Some a.
Proof.
  induction l as [|(i & b) l IH]; simpl; intros Hn Hin; [by apply not_elem_of_nil in Hin|].
  apply list.NoDup_cons in Hn as [Hi Hn]. apply elem_of_cons in Hin as [[= -> ->]|Hin].
  - by rewrite Nat.eqb_refl.
  - destruct (Nat.eqb_spec i id) as [->|]; [|auto].
    destruct Hi. by apply (list_elem_of_fmap_2 fst) in Hin.
Qed.

Lemma remove_node_perm id a (l : list (nat * A)) : find_node id l = Some a -> l ≡ₚ (id, a) :: remove_node id l.
Proof.
  induction l as [|(i & b) l IH]; simpl; [done|]. destruct (Nat.eqb_spec i id) as [->|]; [by intros [= ->]|].
  intros Hf. rewrite (IH Hf) at 1. apply perm_swap.
Qed.

(** Removing a node removes its key from the sequence of the others. *)
Lemma remove_node_filter id a l :
  find_node id l = Some a -> NoDup (key <$> l.*2) ->
  (remove_node id l).*2 = filter (fun x => key x <> key a) l.*2.
Proof.
  induction l as [|(i & b) l IH]; simpl; [done|].
  intros Hf [Hb Hn]%list.NoDup_cons. destruct (Nat.eqb_spec i id) as [->|].
  - injection Hf as ->. rewrite filter_cons_False by (by intros []). symmetry.
    apply filter_keeps. intros x Hx E. destruct Hb. rewrite <-E. by apply list_elem_of_fmap_2.
  - simpl. rewrite filter_cons_True; [f_equal; by apply IH|]. intros E. destruct Hb. rewrite E.
    eapply (elem_key id). rewrite (remove_node_perm _ _ _ Hf). apply elem_of_cons. by left.
Qed.

Lemma indexed_insert l l' n idx a :
  indexed l n idx -> key a ∉ key <$> l.*2 -> l' ≡ₚ (n, a) :: l ->
  indexed l' (S n) (<[key a := n]> idx).
Proof.
  intros Hi Hk E. rewrite E. pose proof (indexed_absent _ _ _ _ Hi Hk) as Hn. destruct Hi as [H1 H2 H3 H4].
  split; simpl.
  - constructor; [|done]. intros Hin. specialize (H3 _ Hin). lia.
  - by constructor.
  - intros id [->|Hin]%elem_of_cons; [lia|]. specialize (H3 _ Hin). lia.
  - intros k id. setoid_rewrite elem_of_cons. destruct (decide (k = key a)) as [->|Hne].
    + rewrite lookup_insert_eq. split.
      * intros [= <-]. exists a. auto.
      * intros (b & [[= -> ->]|Hb] & E2); [done|]. destruct Hk. rewrite <-E2.
        by eapply elem_key.
    + rewrite lookup_insert_ne by done. rewrite H4. split.
      * intros (b & Hb & <-). exists b. auto.
      * intros (b & [[= -> ->]|Hb] & <-); [done|]. exists b. auto.
Qed.

Lemma indexed_remove l n idx id a :
  indexed l n idx -> find_node id l = Some a ->
  indexed (remove_node id l) n (delete (key a) idx).
Proof.
  intros Hi Hf. rewrite (remove_node_perm _ _ _ Hf) in Hi. destruct Hi as [H1 H2 H3 H4]. simpl in *.
  apply list.NoDup_cons in H1 as [Hid H1]. apply list.NoDup_cons in H2 as [Hk H2]. split; [done|done| |].
  - intros i Hin. apply H3. apply elem_of_cons. auto.
  - intros k i. destruct (decide (k = key a)) as [->|Hne].
    + rewrite lookup_delete_eq. split; [done|]. intros (b & Hb & E). destruct Hk. rewrite <-E.
      by eapply elem_key.
    + rewrite lookup_delete_ne by done. rewrite H4. setoid_rewrite elem_of_cons. split.
      * intros (b & [[= -> ->]|Hb] & E); [congruence|]. eauto.
      * intros (b & Hb & E). eauto.
Qed.

(** A key of the index has its node. *)
Lemma indexed_find l n idx k id :
  indexed l n idx -> idx !! k = Some id -> exists a, find_node id l = Some a /\ key a = k.
Proof.
  intros Hi Hk. apply (ix_lookup _ _ _ Hi) in Hk as (a & Ha & E). exists a. split; [|done].
  apply find_node_in; [apply Hi|done].
Qed.

Lemma indexed_present l n idx k :
  indexed l n idx -> k ∈ key <$> l.*2 -> exists id a, idx !! k = Some id /\ find_node id l = Some a /\ key a = k.
Proof.
  intros Hi Hk. assert (is_Some (idx !! k)) as [id Hid].
  { apply elem_of_dom. rewrite (indexed_dom _ _ _ Hi). by apply elem_of_list_to_set. }
  destruct (indexed_find _ _ _ _ _ Hi Hid) as (a & Hf & E). eauto.
Qed.
End Facts.
End Indexed.

(** ** Models of strategies and what implements them *)

(** The pure meaning of a strategy.  [m_tracks m X]: the keys of the state
    [m] are [X].  The number is that of the clock readings so far. *)
Record StrategyModel (K V : Type) `{Countable K} := {
  mstate : Type;
  m_tracks : mstate -> gset K -> Prop;
  m_add : K -> V -> mstate -> nat -> mstate * nat;
  m_remove : K -> mstate -> mstate;
  m_get : K -> mstate -> nat -> mstate * nat;
  m_clear : mstate -> mstate;
  m_valid : K -> mstate -> nat -> bool * nat;
  m_replace : mstate -> nat -> gset K * nat
}.
Arguments mstate {K V _ _}. Arguments m_tracks {K V _ _}. Arguments m_add {K V _ _}.
Arguments m_remove {K V _ _}. Arguments m_get {K V _ _}. Arguments m_clear {K V _ _}.
Arguments m_valid {K V _ _}. Arguments m_replace {K V _ _}.

(** The keys a model keeps after each handler. *)
Class ModelLaws {K V} `{Countable K} (M : StrategyModel K V) := {
  law_add k v m n X : m_tracks M m X -> k ∉ X -> m_tracks M (fst (m_add M k v m n)) ({[k]} ∪ X);
  law_remove k m X : m_tracks M m X -> k ∈ X -> m_tracks M (m_remove M k m) (X ∖ {[k]});
  law_get k m n X : m_tracks M m X -> k ∈ X -> m_tracks M (fst (m_get M k m n)) X;
  law_clear m X : m_tracks M m X -> m_tracks M (m_clear M m) ∅
}.

(** What a strategy promises to the cache. *)
Class Implements {K V} `{Countable K} (S : AbstractStrategy K V) (M : StrategyModel K V) := {
  rep : state S -> mstate M -> Prop;
  impl_add s m n X k v : rep s m -> m_tracks M m X -> k ∉ X ->
    exists s', onAdd S k v (s, n) = (Done tt, (s', snd (m_add M k v m n))) /\
               rep s' (fst (m_add M k v m n));
  impl_remove s m n X k : rep s m -> m_tracks M m X -> k ∈ X ->
    exists s', onRemove S k (s, n) = (Done tt, (s', n)) /\ rep s' (m_remove M k m);
  impl_get s m n X k : rep s m -> m_tracks M m X -> k ∈ X ->
    exists s', onGet S k (s, n) = (Done tt, (s', snd (m_get M k m n))) /\
               rep s' (fst (m_get M k m n));
  impl_clear s m n : rep s m ->
    exists s', onClear S (s, n) = (Done tt, (s', n)) /\ rep s' (m_clear M m);
  impl_valid s m n X k : rep s m -> m_tracks M m X -> k ∈ X ->
    onIsValid S k true (s, n) = (Done (fst (m_valid M k m n)), (s, snd (m_valid M k m n)));
  impl_replace s m n D : rep s m ->
    onReplace S D (s, n) = (Done (D ∪ fst (m_replace M m n)), (s, snd (m_replace M m n)))
}.

(** ** The pure cache over a model *)
Module Pure.
Import Abstract.
Section Spec.
Context {K V : Type} `{Countable K} (M : StrategyModel K V).

Record pcache := { p_m : mstate M; p_data : gmap K V; p_n : nat }.

Definition p_remove (k : K) (c : pcache) : pcache :=
  match p_data c !! k with
  | None => c
  | Some _ => {| p_m := m_remove M k (p_m c); p_data := delete k (p_data c); p_n := p_n c |}
  end.

Definition p_remove_all (l : list K) (c : pcache) : pcache := foldl (flip p_remove) c l.

Definition p_replace (c : pcache) : pcache :=
  let (D, n) := m_replace M (p_m c) (p_n c) in
  p_remove_all (elements D) {| p_m := p_m c; p_data := p_data c; p_n := n |}.

Definition p_store (k : K) (v : V) (c : pcache) : pcache :=
  let c := p_remove k c in
  let (m, n) := m_add M k v (p_m c) (p_n c) in
  p_replace {| p_m := m; p_data := <[k := v]> (p_data c); p_n := n |}.

Definition p_has (k : K) (c : pcache) : bool * pcache :=
  match p_data c !! k with
  | None => (false, c)
  | Some _ =>
      let (b, n) := m_valid M k (p_m c) (p_n c) in
      (b, {| p_m := p_m c; p_data := p_data c; p_n := n |})
  end.

Definition p_get (k : K) (c : pcache) : option V * pcache :=
  match p_data c !! k with
  | None => (None, c)
  | Some v =>
      let (m, n) := m_get M k (p_m c) (p_n c) in
      let (b, n) := m_valid M k m n in
      let c := {| p_m := m; p_data := p_data c; p_n := n |} in
      if b : bool then (Some v, c) else (None, p_remove k c)
  end.

Definition p_clear (c : pcache) : pcache :=
  {| p_m := m_clear M (p_m c); p_data := ∅; p_n := p_n c |}.

Definition p_step (o : op K V) (c : pcache) : answer K V * pcache :=
  match o with
  | Add k v => (Nothing, p_store k v c)
  | Update k v => (Nothing, p_store k v c)
  | Remove k => (Nothing, p_remove k c)
  | Has k => let (b, c) := p_has k c in (Flag b, c)
  | Get k => let (v, c) := p_get k c in (Pointer v, c)
  | Clear => (Nothing, p_clear c)
  | Size => let c := p_replace c in (Number (Z.of_nat (base.size (p_data c))), c)
  | ForceReplace => (Nothing, p_replace c)
  | GetAllKeys => let c := p_replace c in (Keys (dom (p_data c)), c)
  end.

Fixpoint p_run (ops : list (op K V)) (c : pcache) : list (answer K V) * pcache :=
  match ops with
  | [] => ([], c)
  | o :: ops =>
      let r := p_step o c in
      let rs := p_run ops (snd r) in
      (fst r :: fst rs, snd rs)
  end.
End Spec.

Section Refinement.
Context {K V : Type} `{Countable K} (S : AbstractStrategy K V) (M : StrategyModel K V).
Context `{HI : !Implements S M, HL : !ModelLaws M}.
Abbreviation cache := (AbstractCache S).
Abbreviation pure := (pcache (V := V) M).

Definition tracked (p : pure) : Prop := m_tracks M (p_m M p) (dom (p_data M p)).

Definition sim (c : cache) (p : pure) : Prop :=
  rep (_strategy S c) (p_m M p) /\ _data S c = p_data M p /\ readings S c = p_n M p /\ tracked p.

Lemma doRemove_ok k c p :
  sim c p -> exists c', doRemove S k c = (Done tt, c') /\ sim c' (p_remove M k p).
Proof.
  destruct p as [m d n]. intros (Hr & Hd & Hn & Ht). simpl in *. unfold doRemove, p_remove.
  rewrite bind_get, Hd. simpl. destruct (d !! k) as [v|] eqn:E; [|by exists c].
  assert (Hk : k ∈ dom d) by (by apply elem_of_dom_2 in E).
  destruct (impl_remove _ _ n _ _ Hr Ht Hk) as (s' & Es & Hr').
  unfold bind, notify. rewrite Hn, Es. simpl. eexists. split; [done|].
  split_and!; [done|by simpl; rewrite Hd|done|]. unfold tracked. simpl.
  rewrite dom_delete_L. by apply law_remove.
Qed.

Lemma remove_all_ok l c p :
  sim c p -> exists c', remove_all S l c = (Done tt, c') /\ sim c' (p_remove_all M l p).
Proof.
  revert c p. induction l as [|k l IH]; intros c p Hs; simpl; [by exists c|].
  destruct (doRemove_ok k c p Hs) as (c1 & E1 & Hs1). rewrite (bind_Done _ _ _ _ _ E1). by apply IH.
Qed.

Lemma doReplace_ok c p :
  sim c p -> exists c', doReplace S c = (Done tt, c') /\ sim c' (p_replace M p).
Proof.
  destruct p as [m d n]. intros (Hr & Hd & Hn & Ht). simpl in *. unfold doReplace, p_replace. simpl.
  pose proof (impl_replace _ _ n ∅ Hr) as E. destruct (m_replace M m n) as [D n'] eqn:ED.
  unfold bind at 1, notify. rewrite Hn, E. simpl. rewrite union_empty_l_L.
  by apply remove_all_ok.
Qed.

(** [onAdd] and the insertion into the data, for a key that is not there. *)
Lemma add_ok k v c m d n :
  sim c {| p_m := m; p_data := d; p_n := n |} -> d !! k = None ->
  let (m', n') := m_add M k v m n in
  exists c', (do* notify S (onAdd S k v); data_insert S k v) c = (Done tt, c') /\
    sim c' {| p_m := m'; p_data := <[k := v]> d; p_n := n' |}.
Proof.
  intros (Hr & Hd & Hn & Ht) Hk. simpl in *. unfold tracked in Ht. simpl in Ht.
  apply not_elem_of_dom in Hk as Hk'. destruct (impl_add _ _ n _ k v Hr Ht Hk') as (s' & Es & Hr').
  pose proof (law_add k v m n _ Ht Hk') as Hl.
  destruct (m_add M k v m n) as [m' n']. unfold bind, notify. rewrite Hn, Es. simpl.
  eexists. split; [done|]. split_and!; [done|simpl; by rewrite Hd, Hk|done|].
  unfold tracked. simpl. by rewrite dom_insert_L.
Qed.

Lemma p_remove_absent k (p : pure) : p_data M (p_remove M k p) !! k = None.
Proof. unfold p_remove. destruct (p_data M p !! k) eqn:E; [|done]. simpl. by rewrite lookup_delete_eq. Qed.

Lemma doAdd_ok k v c p :
  sim c p -> exists c', doAdd S k v c = (Done tt, c') /\ sim c' (p_store M k v p).
Proof.
  intros Hs. unfold doAdd, p_store. destruct (doRemove_ok k c p Hs) as (c1 & E1 & Hs1).
  rewrite (bind_Done _ _ _ _ _ E1). pose proof (p_remove_absent k p) as Ha.
  destruct (p_remove M k p) as [m d n]. simpl in *.
  pose proof (add_ok k v c1 m d n Hs1 Ha) as A. destruct (m_add M k v m n) as [m' n'].
  destruct A as (c2 & E2 & Hs2). rewrite <-bind_bind.
  rewrite (bind_Done _ _ _ _ _ E2). by apply doReplace_ok.
Qed.

Lemma update_existing_ok k v w c m d n :
  sim c {| p_m := m; p_data := d; p_n := n |} -> d !! k = Some w ->
  let (m', n') := m_add M k v (m_remove M k m) n in
  exists c', (do* notify S (onUpdate S k v); set_data S (<[k := v]>)) c = (Done tt, c') /\
    sim c' {| p_m := m'; p_data := <[k := v]> d; p_n := n' |}.
Proof.
  intros (Hr & Hd & Hn & Ht) Hw. simpl in *. unfold tracked in Ht. simpl in Ht.
  assert (Hk : k ∈ dom d) by (by apply elem_of_dom_2 in Hw).
  destruct (impl_remove _ _ n _ _ Hr Ht Hk) as (s1 & E1 & Hr1).
  pose proof (law_remove k m _ Ht Hk) as Ht1.
  assert (Hk1 : k ∉ dom d ∖ {[k]}) by set_solver.
  destruct (impl_add _ _ n _ k v Hr1 Ht1 Hk1) as (s2 & E2 & Hr2).
  pose proof (law_add k v _ n _ Ht1 Hk1) as Ht2.
  destruct (m_add M k v (m_remove M k m) n) as [m' n']. unfold bind, notify, onUpdate, bind.
  rewrite Hn, E1, E2. simpl. eexists. split; [done|]. split_and!; [done|simpl; by rewrite Hd|done|].
  unfold tracked. simpl in *. rewrite dom_insert_L.
  replace ({[k]} ∪ dom d) with ({[k]} ∪ dom d ∖ {[k]}); [done|].
  apply set_eq. intros x. destruct (decide (x = k)); set_solver.
Qed.

Lemma doUpdate_ok k v c p :
  sim c p -> exists c', doUpdate S k v c = (Done tt, c') /\ sim c' (p_store M k v p).
Proof.
  destruct p as [m d n]. intros Hs. pose proof Hs as (_ & Hd & _). simpl in Hd.
  unfold doUpdate, p_store, p_remove. rewrite bind_get, Hd. simpl.
  destruct (d !! k) as [w|] eqn:E; simpl.
  - pose proof (update_existing_ok k v w c m d n Hs E) as A.
    destruct (m_add M k v (m_remove M k m) n) as [m' n']. destruct A as (c2 & E2 & Hs2).
    rewrite (bind_Done _ _ _ _ _ E2). rewrite insert_delete_eq. by apply doReplace_ok.
  - pose proof (add_ok k v c m d n Hs E) as A. destruct (m_add M k v m n) as [m' n'].
    destruct A as (c2 & E2 & Hs2). rewrite (bind_Done _ _ _ _ _ E2). by apply doReplace_ok.
Qed.

Lemma doHas_ok k c p :
  sim c p -> exists c', doHas S k c = (Done (fst (p_has M k p)), c') /\ sim c' (snd (p_has M k p)).
Proof.
  destruct p as [m d n]. intros (Hr & Hd & Hn & Ht). simpl in *. unfold doHas, p_has.
  rewrite bind_get, Hd. simpl. destruct (d !! k) as [v|] eqn:E; [|by exists c].
  assert (Hk : k ∈ dom d) by (by apply elem_of_dom_2 in E).
  pose proof (impl_valid _ _ n _ _ Hr Ht Hk) as Ev. destruct (m_valid M k m n) as [b n'].
  unfold notify. rewrite Hn, Ev. simpl. eexists. split; [done|]. done.
Qed.

Lemma doGet_ok k c p :
  sim c p -> exists c', doGet S k c = (Done (fst (p_get M k p)), c') /\ sim c' (snd (p_get M k p)).
Proof.
  destruct p as [m d n]. intros (Hr & Hd & Hn & Ht). simpl in *. unfold doGet, p_get.
  rewrite bind_get, Hd. simpl. destruct (d !! k) as [v|] eqn:E; [|by exists c].
  assert (Hk : k ∈ dom d) by (by apply elem_of_dom_2 in E).
  destruct (impl_get _ _ n _ _ Hr Ht Hk) as (s1 & E1 & Hr1).
  pose proof (law_get k m n _ Ht Hk) as Ht1. destruct (m_get M k m n) as [m1 n1]. simpl in *.
  pose proof (impl_valid _ _ n1 _ _ Hr1 Ht1 Hk) as Ev. destruct (m_valid M k m1 n1) as [b n2].
  simpl in *. unfold bind at 1, notify. rewrite Hn, E1. simpl.
  unfold bind at 1, notify. simpl. rewrite Ev. simpl.
  set (c2 := {| _strategy := _ |}). assert (Hs2 : sim c2 {| p_m := m1; p_data := d; p_n := n2 |}) by done.
  destruct b; [by exists c2|]. destruct (doRemove_ok k c2 _ Hs2) as (c3 & E3 & Hs3).
  rewrite (bind_Done _ _ _ _ _ E3). by exists c3.
Qed.

Lemma doClear_ok c p :
  sim c p -> exists c', doClear S c = (Done tt, c') /\ sim c' (p_clear M p).
Proof.
  destruct p as [m d n]. intros (Hr & Hd & Hn & Ht). simpl in *. unfold doClear, p_clear.
  destruct (impl_clear _ _ n Hr) as (s' & Es & Hr'). unfold bind, notify. rewrite Hn, Es. simpl.
  eexists. split; [done|]. split_and!; [done..|]. unfold tracked. simpl. rewrite dom_empty_L.
  by eapply law_clear.
Qed.

Lemma cache_step_ok o c p :
  sim c p -> exists c', step S o c = (Done (fst (p_step M o p)), c') /\ sim c' (snd (p_step M o p)).
Proof.
  intros Hs. destruct o; simpl.
  - destruct (doAdd_ok k v c p Hs) as (c' & E & Hs'). rewrite (bind_Done _ _ _ _ _ E). by exists c'.
  - destruct (doUpdate_ok k v c p Hs) as (c' & E & Hs'). rewrite (bind_Done _ _ _ _ _ E). by exists c'.
  - destruct (doRemove_ok k c p Hs) as (c' & E & Hs'). rewrite (bind_Done _ _ _ _ _ E). by exists c'.
  - destruct (doHas_ok k c p Hs) as (c' & E & Hs'). rewrite (bind_Done _ _ _ _ _ E).
    destruct (p_has M k p). by exists c'.
  - destruct (doGet_ok k c p Hs) as (c' & E & Hs'). rewrite (bind_Done _ _ _ _ _ E).
    destruct (p_get M k p). by exists c'.
  - destruct (doClear_ok c p Hs) as (c' & E & Hs'). rewrite (bind_Done _ _ _ _ _ E). by exists c'.
  - destruct (doReplace_ok c p Hs) as (c' & E & Hs'). unfold size. rewrite bind_bind.
    rewrite (bind_Done _ _ _ _ _ E). exists c'. destruct Hs' as (? & Hd & ?). unfold bind, get, ret.
    rewrite Hd. done.
  - destruct (doReplace_ok c p Hs) as (c' & E & Hs'). rewrite (bind_Done _ _ _ _ _ E). by exists c'.
  - destruct (doReplace_ok c p Hs) as (c' & E & Hs'). unfold getAllKeys. rewrite bind_bind.
    rewrite (bind_Done _ _ _ _ _ E). exists c'. destruct Hs' as (? & Hd & ?). unfold bind, get, ret.
    rewrite Hd. done.
Qed.

(** The cache computes what the pure cache computes. *)
Lemma cache_run_ok ops c p :
  sim c p -> exists c', run S ops c = (Done (fst (p_run M ops p)), c') /\ sim c' (snd (p_run M ops p)).
Proof.
  revert c p. induction ops as [|o ops IH]; intros c p Hs; simpl; [by exists c|].
  destruct (cache_step_ok o c p Hs) as (c1 & E1 & Hs1). rewrite (bind_Done _ _ _ _ _ E1).
  destruct (IH c1 _ Hs1) as (c2 & E2 & Hs2). rewrite (bind_Done _ _ _ _ _ E2). by exists c2.
Qed.
End Refinement.
End Pure.

(** ** LRUStrategy implements a list of keys, the most recently used first *)
Module LRUModel.
Import Indexed LRU.
Section Facts.
Context {K V : Type} `{Countable K} (N : Z).

Definition without (k : K) (ks : list K) : list K := filter (fun x => x <> k) ks.

Definition lru_model : StrategyModel K V :=
  {| mstate := list K;
     m_tracks ks X := NoDup ks /\ X = list_to_set ks;
     m_add k _ ks n := (k :: ks, n);
     m_remove k ks := without k ks;
     m_get k ks n := (k :: without k ks, n);
     m_clear _ := [];
     m_valid k ks n := (bool_decide (k ∈ ks), n);
     m_replace ks n := (list_to_set (drop (Z.to_nat N) ks), n) |}.

Lemma elem_without k x ks : x ∈ without k ks <-> x <> k /\ x ∈ ks.
Proof. unfold without. by rewrite list_elem_of_filter. Qed.

Lemma NoDup_without k ks : NoDup ks -> NoDup (without k ks).
Proof. unfold without. apply list.NoDup_filter. Qed.

Global Instance lru_laws : ModelLaws lru_model.
Proof.
  split; simpl.
  - intros k v ks n X [Hn ->] Hk. split; [|done]. constructor; [|done].
    by rewrite elem_of_list_to_set in Hk.
  - intros k ks X [Hn ->] Hk. split; [by apply NoDup_without|]. apply set_eq. intros x.
    rewrite elem_of_difference, !elem_of_list_to_set, elem_without, elem_of_singleton. naive_solver.
  - intros k ks n X [Hn ->] Hk. rewrite elem_of_list_to_set in Hk. split.
    + constructor; [|by apply NoDup_without]. rewrite elem_without. naive_solver.
    + apply set_eq. intros x. simpl.
      rewrite elem_of_union, !elem_of_list_to_set, elem_without, elem_of_singleton.
      destruct (decide (x = k)); naive_solver.
  - intros ks X _. split; [constructor|done].
Qed.

Definition lru_rep (s : LRUStrategy K) (ks : list K) : Prop :=
  _size s = N /\ 1 <= N /\ (Nodes.items (_keys s)).*2 = ks /\
  indexed id (Nodes.items (_keys s)) (Nodes.fresh (_keys s)) (_keyIndex s).

(** The loop collects the keys behind the first [n]. *)
Lemma lru_loop_spec d (ks : list K) (n : nat) D :
  (1 <= n)%nat -> (n + d <= length ks)%nat ->
  replace_loop d ks (n + d - 1) D = Done (D ∪ list_to_set (drop n (take (n + d) ks))).
Proof.
  intros Hn. revert D. induction d as [|d IH]; intros D Hl; simpl.
  - rewrite drop_ge by (rewrite length_take; lia). simpl. by rewrite union_empty_r_L.
  - destruct (lookup_lt_is_Some_2 ks (n + d)) as [k Hk]; [lia|].
    replace (n + S d - 1)%nat with (n + d)%nat by lia. rewrite Hk, IH by lia.
    replace (n + S d)%nat with (S (n + d)) by lia. rewrite (take_S_r _ _ _ Hk).
    rewrite drop_app_le by (rewrite length_take; lia). rewrite list_to_set_app_L. simpl.
    f_equal. set_solver.
Qed.

Lemma lru_replace_ok (s : LRUStrategy K) ks n D :
  lru_rep s ks -> onReplace D (s, n) = (Done (D ∪ list_to_set (drop (Z.to_nat N) ks)), (s, n)).
Proof.
  intros (Hz & HN & Hk & Hi). unfold onReplace, bind, gets. simpl.
  change (map snd (Nodes.items (_keys s))) with ((Nodes.items (_keys s)).*2).
  rewrite (indexed_size _ _ _ _ Hi), Hz.
  assert (Hl : length (Nodes.items (_keys s)) = length ks) by (by rewrite <-Hk, length_fmap). rewrite Hl, Hk.
  destruct (Z.ltb_spec (Z.of_nat (length ks)) N) as [Hlt|Hge].
  - rewrite drop_ge by lia. simpl. by rewrite union_empty_r_L.
  - destruct ks as [|x ks'] eqn:E; [simpl in Hge; lia|]. rewrite <-E in *. clear E x ks'. unfold lift.
    replace (length ks - 1)%nat with (Z.to_nat N + Z.to_nat (Z.of_nat (length ks) - N) - 1)%nat by lia.
    rewrite lru_loop_spec by lia. by rewrite take_ge by lia.
Qed.

Global Instance lru_Implements : Implements (LRU.strategy K V) lru_model.
Proof.
  refine {| rep := (lru_rep : state (LRU.strategy K V) -> mstate lru_model -> Prop) |}; simpl.
  - intros s ks n X k v (Hz & HN & Hk & Hi) [_ ->] HX. rewrite elem_of_list_to_set in HX.
    eexists. split; [done|]. split_and!; [done|done|simpl; f_equal; exact Hk|].
    apply (indexed_insert id _ _ _ _ k Hi); [|done]. by rewrite list_fmap_id, Hk.
  - intros s ks n X k (Hz & HN & Hk & Hi) [_ ->] HX. rewrite elem_of_list_to_set in HX.
    destruct (indexed_present id _ _ _ k Hi) as (it & a & Hit & Hf & Ha); [by rewrite list_fmap_id, Hk|].
    simpl in Ha. subst a. unfold onRemove, bind, gets. simpl. rewrite Hit. unfold lift, Nodes.erase.
    rewrite Hf. eexists. split; [done|]. split_and!; [done|done| |by apply (indexed_remove id)].
    simpl. rewrite <-Hk. apply (remove_node_filter id); [done|apply Hi].
  - intros s ks n X k (Hz & HN & Hk & Hi) [_ ->] HX. rewrite elem_of_list_to_set in HX.
    destruct (indexed_present id _ _ _ k Hi) as (it & a & Hit & Hf & Ha); [by rewrite list_fmap_id, Hk|].
    simpl in Ha. subst a. unfold onGet, bind, gets. simpl. rewrite Hit. unfold lift, Nodes.splice_front.
    rewrite Hf. eexists. split; [done|]. split_and!; [done|done| |].
    + simpl. f_equal. rewrite <-Hk. apply (remove_node_filter id); [done|apply Hi].
    + simpl. rewrite insert_id by done. by rewrite <-(remove_node_perm _ _ _ Hf).
  - intros s ks n (Hz & HN & Hk & Hi). eexists. split; [done|]. split_and!; [done|done|done|].
    apply indexed_nil.
  - intros s ks n X k (Hz & HN & Hk & Hi) [_ ->] HX. rewrite elem_of_list_to_set in HX.
    destruct (indexed_present id _ _ _ k Hi) as (it & a & Hit & _); [by rewrite list_fmap_id, Hk|].
    unfold onIsValid, bind, gets. simpl. rewrite Hit. by rewrite bool_decide_eq_true_2.
  - intros s ks n D Hr. by apply lru_replace_ok.
Defined.
End Facts.
End LRUModel.

(** ** Entries with a time stamp in order, one for each key *)
Module Stamped.
Import Indexed.
Section Facts.
Context {K A : Type} `{Countable K} (key : A -> K) (tm : A -> Z).

Definition not_later (a b : A) : bool := tm a <=? tm b.

Definition drop_key (k : K) (es : list A) : list A := filter (fun x => key x <> k) es.

Fixpoint ins (a : A) (es : list A) : list A :=
  match es with
  | [] => [a]
  | b :: es => if not_later b a then b :: ins a es else a :: b :: es
  end.

(** The entry of a key. *)
Fixpoint entry (k : K) (es : list A) : option A :=
  match es with
  | [] => None
  | a :: es => if decide (key a = k) then Some a else entry k es
  end.

Definition in_order (es : list A) : Prop := StronglySorted (fun a b => tm a <= tm b) es.

Definition tracks (es : list A) (X : gset K) : Prop :=
  NoDup (key <$> es) /\ X = list_to_set (key <$> es) /\ in_order es.

Lemma ins_perm a es : ins a es ≡ₚ a :: es.
Proof.
  induction es as [|b es IH]; simpl; [done|]. case_match; [|done]. rewrite IH. apply perm_swap.
Qed.

Lemma ins_in_order a es : in_order es -> in_order (ins a es).
Proof.
  unfold in_order. induction 1 as [|b es Hs IH Hb]; simpl; [by repeat constructor|].
  unfold not_later. destruct (Z.leb_spec (tm b) (tm a)).
  - constructor; [done|]. rewrite ins_perm. constructor; [done|exact Hb].
  - constructor; [by constructor|]. constructor; [lia|].
    eapply Forall_impl; [|exact Hb]. simpl. lia.
Qed.

Lemma drop_key_in_order k es : in_order es -> in_order (drop_key k es).
Proof.
  unfold in_order, drop_key. induction 1 as [|b es Hs IH Hb]; [constructor|]. rewrite filter_cons.
  case_decide; [|done]. constructor; [done|].
  apply List.Forall_forall. rewrite List.Forall_forall in Hb. intros x Hx. apply Hb.
  apply list_elem_of_In in Hx. apply list_elem_of_In.
  by apply list_elem_of_filter in Hx as [_ Hx].
Qed.

Lemma drop_key_keys k es : key <$> drop_key k es = filter (fun x => x <> k) (key <$> es).
Proof.
  unfold drop_key. induction es as [|a es IH]; [done|]. rewrite fmap_cons, !filter_cons.
  repeat case_decide; try done. rewrite fmap_cons. by f_equal.
Qed.

Lemma elem_drop_key k x es : x ∈ key <$> drop_key k es <-> x <> k /\ x ∈ key <$> es.
Proof. rewrite drop_key_keys. by rewrite list_elem_of_filter. Qed.

Lemma NoDup_drop_key k es : NoDup (key <$> es) -> NoDup (key <$> drop_key k es).
Proof. rewrite drop_key_keys. apply list.NoDup_filter. Qed.

Lemma entry_elem a es : NoDup (key <$> es) -> a ∈ es -> entry (key a) es = Some a.
Proof.
  induction es as [|b es IH]; simpl; intros Hn Hin; [by apply not_elem_of_nil in Hin|].
  apply list.NoDup_cons in Hn as [Hx Hn]. apply elem_of_cons in Hin as [<-|Hin].
  - by rewrite decide_True.
  - rewrite decide_False; [auto|]. intros E. destruct Hx. rewrite E. by apply list_elem_of_fmap_2.
Qed.

Lemma add_tracks a es X : tracks es X -> key a ∉ X -> tracks (ins a es) ({[key a]} ∪ X).
Proof.
  intros (Hn & -> & Ho) Hk. rewrite elem_of_list_to_set in Hk. split_and!.
  - rewrite ins_perm. simpl. by constructor.
  - by rewrite (ins_perm _ es).
  - by apply ins_in_order.
Qed.

Lemma remove_tracks k es X : tracks es X -> k ∈ X -> tracks (drop_key k es) (X ∖ {[k]}).
Proof.
  intros (Hn & -> & Ho) Hk. split_and!.
  - by apply NoDup_drop_key.
  - apply set_eq. intros x.
    rewrite elem_of_difference, !elem_of_list_to_set, elem_drop_key, elem_of_singleton. naive_solver.
  - by apply drop_key_in_order.
Qed.

(** The entry of a key is replaced. *)
Lemma renew_tracks a es X : tracks es X -> key a ∈ X -> tracks (ins a (drop_key (key a) es)) X.
Proof.
  intros Ht Hk. pose proof (remove_tracks (key a) es X Ht Hk) as Hr.
  apply (add_tracks a) in Hr; [|rewrite elem_of_difference, elem_of_singleton; naive_solver].
  replace ({[key a]} ∪ X ∖ {[key a]}) with X in Hr; [done|].
  apply set_eq. intros x. rewrite elem_of_union, elem_of_difference, elem_of_singleton.
  destruct (decide (x = key a)); naive_solver.
Qed.

Lemma clear_tracks : tracks [] ∅.
Proof. split_and!; [constructor|done|constructor]. Qed.

(** *** The entries in a multimap with an index *)
Definition kept (c : Nodes.nodes A) (idx : gmap K nat) (es : list A) : Prop :=
  (Nodes.items c).*2 = es /\ indexed key (Nodes.items c) (Nodes.fresh c) idx.

Lemma insert_sorted_perm (x : nat * A) l : Nodes.insert_sorted not_later x l ≡ₚ x :: l.
Proof. induction l as [|y l IH]; simpl; [done|]. case_match; [|done]. rewrite IH. apply perm_swap. Qed.

Lemma insert_sorted_snd (x : nat * A) l : (Nodes.insert_sorted not_later x l).*2 = ins (snd x) l.*2.
Proof. induction l as [|y l IH]; simpl; [done|]. case_match; simpl; [by f_equal|done]. Qed.

Lemma kept_absent c idx es k : kept c idx es -> k ∉ key <$> es -> idx !! k = None.
Proof. intros (Hk & Hi) Hx. apply (indexed_absent key _ _ _ _ Hi). by rewrite Hk. Qed.

Lemma kept_nil n : kept {| Nodes.items := []; Nodes.fresh := n |} ∅ [].
Proof. split; [done|]. apply indexed_nil. Qed.

(** A new node for an absent key. *)
Lemma kept_insert c idx es a :
  kept c idx es -> key a ∉ key <$> es ->
  kept (snd (Nodes.insert not_later a c)) (<[key a := Nodes.fresh c]> idx) (ins a es).
Proof.
  intros (Hk & Hi) Hx. split; simpl.
  - by rewrite insert_sorted_snd, <-Hk.
  - apply (indexed_insert key _ _ _ _ a Hi); [by rewrite Hk|]. by rewrite insert_sorted_perm.
Qed.

(** The node of a key that is there goes. *)
Lemma kept_erase c idx es k :
  kept c idx es -> k ∈ key <$> es ->
  exists it a l, idx !! k = Some it /\ Nodes.find_node it (Nodes.items c) = Some a /\ key a = k /\ entry k es = Some a /\
    Nodes.erase it c = Done l /\ Nodes.fresh l = Nodes.fresh c /\ kept l (delete k idx) (drop_key k es).
Proof.
  intros (Hk & Hi) Hx.
  destruct (indexed_present key _ _ _ k Hi) as (it & a & Hit & Hf & Ha); [by rewrite Hk|].
  eexists it, a, _. unfold Nodes.erase. rewrite Hf. split_and!; [done..| |done|done|].
  - subst k es. apply entry_elem; [apply Hi|]. apply (list_elem_of_fmap_2 snd _ (it, a)).
    rewrite (remove_node_perm _ _ _ Hf). apply elem_of_cons. by left.
  - subst k. split; [|by apply (indexed_remove key)]; simpl.
    rewrite <-Hk. apply (remove_node_filter key); [done|apply Hi].
Qed.
End Facts.
End Stamped.

(** ** ExpireStrategy implements a list of time stamps in order *)
Module ExpireModel.
Import Indexed Expire Stamped.
Section Facts.
Context {K V : Type} `{Countable K} (time : nat -> Z) (E : Z).
Abbreviation drop_key := (drop_key (A := Z * K) snd).
Abbreviation ins := (ins (A := Z * K) fst).

(** The time stamp of a key. *)
Definition stamp (k : K) (es : list (Z * K)) : Z :=
  match entry snd k es with Some (t, _) => t | None => 0 end.

Definition elapsed (n : nat) (t : Z) : bool := E <=? s64 (time n - t).

Fixpoint elapsed_prefix (es : list (Z * K)) (n : nat) : gset K * nat :=
  match es with
  | [] => (∅, n)
  | (t, k) :: es =>
      if elapsed n t then let (D, n') := elapsed_prefix es (S n) in ({[k]} ∪ D, n')
      else (∅, S n)
  end.

Definition expire_model : StrategyModel K V :=
  {| mstate := list (Z * K);
     m_tracks := tracks snd fst;
     m_add k _ es n := (ins (time n, k) es, S n);
     m_remove k es := drop_key k es;
     m_get k es n := (es, n);
     m_clear _ := [];
     m_valid k es n := (negb (elapsed n (stamp k es)), S n);
     m_replace es n := elapsed_prefix es n |}.

(** With renewal of the time stamp on access. *)
Definition access_model : StrategyModel K V :=
  {| mstate := list (Z * K);
     m_tracks := m_tracks expire_model;
     m_add := m_add expire_model;
     m_remove := m_remove expire_model;
     m_get k es n := (ins (time n, k) (drop_key k es), S n);
     m_clear := m_clear expire_model;
     m_valid := m_valid expire_model;
     m_replace := m_replace expire_model |}.

Lemma stamp_elem t k es : NoDup es.*2 -> (t, k) ∈ es -> stamp k es = t.
Proof. intros Hn Hin. unfold stamp. by rewrite (entry_elem snd (t, k) es Hn Hin). Qed.

Global Instance expire_laws : ModelLaws expire_model.
Proof.
  split; [|apply remove_tracks|done|intros; apply clear_tracks]. intros k v es n X. apply (add_tracks snd fst (time n, k)).
Qed.

Global Instance access_laws : ModelLaws access_model.
Proof.
  split; [|apply remove_tracks| |intros; apply clear_tracks].
  - intros k v es n X. apply (add_tracks snd fst (time n, k)).
  - intros k es n X. apply (renew_tracks snd fst (time n, k)).
Qed.

Definition expire_rep (s : ExpireStrategy K) (es : list (Z * K)) : Prop :=
  _expireTime s = E /\ kept snd (_keyIndex s) (_keys s) es.

Lemma expire_replace_ok s es D n :
  _expireTime s = E ->
  replace_loop time E es D (s, n) =
  (Done (D ∪ fst (elapsed_prefix es n)), (s, snd (elapsed_prefix es n))).
Proof.
  intros He. revert D n. induction es as [|(t & k) es IH]; intros D n; simpl.
  - by rewrite union_empty_r_L.
  - unfold bind, isElapsed, now. simpl. unfold bind, now. simpl. fold (elapsed n t).
    destruct (elapsed n t); simpl; [|by rewrite union_empty_r_L].
    rewrite IH. destruct (elapsed_prefix es (S n)) as [D' n']. simpl.
    do 2 f_equal. set_solver.
Qed.

Lemma expire_onReplace_ok s es n D :
  expire_rep s es ->
  onReplace time D (s, n) = (Done (D ∪ fst (elapsed_prefix es n)), (s, snd (elapsed_prefix es n))).
Proof.
  intros (He & Hk & _). unfold onReplace, bind, gets. simpl.
  change (map snd (Nodes.items (_keyIndex s))) with ((Nodes.items (_keyIndex s)).*2).
  rewrite Hk, He. by apply expire_replace_ok.
Qed.

Lemma expire_onAdd_ok s es n k (v : V) :
  expire_rep s es -> k ∉ es.*2 ->
  exists s', onAdd time k v (s, n) = (Done tt, (s', S n)) /\ expire_rep s' (ins (time n, k) es).
Proof.
  intros Hr Hk. unfold onAdd, bind, now, gets. simpl.
  destruct Hr as [He Hc]. rewrite (kept_absent snd _ _ _ _ Hc Hk). eexists. split; [done|]. split; [done|].
  by apply (kept_insert snd fst _ _ _ (time n, k)).
Qed.

Lemma expire_onRemove_ok s es n k :
  expire_rep s es -> k ∈ es.*2 ->
  exists s', onRemove k (s, n) = (Done tt, (s', n)) /\ expire_rep s' (drop_key k es).
Proof.
  intros [He Hc] Hk. destruct (kept_erase snd _ _ _ _ Hc Hk) as (it & a & l & Hit & _ & _ & _ & El & _ & Hc').
  unfold onRemove, bind, gets. simpl. rewrite Hit. unfold lift. rewrite El. by eexists.
Qed.

Lemma expire_onClear_ok s es n :
  expire_rep s es -> exists s', onClear (s, n) = (Done tt, (s', n)) /\ expire_rep s' [].
Proof.
  intros [He _]. eexists. split; [done|]. split; [done|]. apply kept_nil.
Qed.

Lemma expire_onIsValid_ok s es n k :
  expire_rep s es -> k ∈ es.*2 ->
  onIsValid time k true (s, n) = (Done (negb (elapsed n (stamp k es))), (s, S n)).
Proof.
  intros [He Hc] Hk. destruct (kept_erase snd _ _ _ _ Hc Hk) as (it & (t & x) & l & Hit & Hf & Ha & Hen & _).
  simpl in Ha. subst x. unfold onIsValid, bind, gets. simpl. rewrite Hit, Hf. unfold stamp. rewrite Hen.
  unfold isElapsed, bind, now. simpl. rewrite He. unfold elapsed. by case_match.
Qed.

Lemma access_onGet_ok s es n k :
  expire_rep s es -> k ∈ es.*2 ->
  exists s', access_onGet time k (s, n) = (Done tt, (s', S n)) /\
    expire_rep s' (ins (time n, k) (drop_key k es)).
Proof.
  intros [He Hc] Hk. destruct (kept_erase snd _ _ _ _ Hc Hk) as (it & a & l & Hit & _ & _ & _ & El & Hfr & Hc').
  unfold access_onGet, bind, gets. simpl. rewrite Hit. unfold lift. rewrite El. simpl.
  eexists. split; [done|]. split; [done|].
  apply (kept_insert snd fst _ _ _ (time n, k)) in Hc'; [|rewrite elem_drop_key; naive_solver].
  simpl in Hc'. by rewrite insert_delete_eq in Hc'.
Qed.

Global Instance expire_Implements : Implements (Expire.strategy K V time) expire_model.
Proof.
  refine {| rep := (expire_rep : state (Expire.strategy K V time) -> mstate expire_model -> Prop) |}; simpl.
  - intros s es n X k v Hr (_ & -> & _) HX. rewrite elem_of_list_to_set in HX. by apply expire_onAdd_ok.
  - intros s es n X k Hr (_ & -> & _) HX. rewrite elem_of_list_to_set in HX. by apply expire_onRemove_ok.
  - intros s es n X k Hr _ _. by exists s.
  - intros s es n Hr. by eapply expire_onClear_ok.
  - intros s es n X k Hr (_ & -> & _) HX. rewrite elem_of_list_to_set in HX. by apply expire_onIsValid_ok.
  - intros s es n D Hr. by apply expire_onReplace_ok.
Defined.

Global Instance access_Implements : Implements (Expire.access_strategy K V time) access_model.
Proof.
  refine {| rep := (expire_rep : state (Expire.access_strategy K V time) -> mstate access_model -> Prop) |}; simpl.
  - intros s es n X k v Hr (_ & -> & _) HX. rewrite elem_of_list_to_set in HX. by apply expire_onAdd_ok.
  - intros s es n X k Hr (_ & -> & _) HX. rewrite elem_of_list_to_set in HX. by apply expire_onRemove_ok.
  - intros s es n X k Hr (_ & -> & _) HX. rewrite elem_of_list_to_set in HX. by apply access_onGet_ok.
  - intros s es n Hr. by eapply expire_onClear_ok.
  - intros s es n X k Hr (_ & -> & _) HX. rewrite elem_of_list_to_set in HX. by apply expire_onIsValid_ok.
  - intros s es n D Hr. by apply expire_onReplace_ok.
Defined.
End Facts.
End ExpireModel.

(** ** A collection implements the product of the models *)
Module CollectionModel.
Import Collection.
Section Facts.
Context {K V : Type} `{Countable K}.

Definition nil_model : StrategyModel K V :=
  {| mstate := unit; m_tracks _ _ := True;
     m_add _ _ m n := (m, n); m_remove _ m := m; m_get _ m n := (m, n); m_clear m := m;
     m_valid _ _ n := (true, n); m_replace _ n := (∅, n) |}.

Definition cons_model (M1 M2 : StrategyModel K V) : StrategyModel K V :=
  {| mstate := mstate M1 * mstate M2;
     m_tracks m X := m_tracks M1 (fst m) X /\ m_tracks M2 (snd m) X;
     m_add k v m n :=
       let (a, n) := m_add M1 k v (fst m) n in let (b, n) := m_add M2 k v (snd m) n in ((a, b), n);
     m_remove k m := (m_remove M1 k (fst m), m_remove M2 k (snd m));
     m_get k m n :=
       let (a, n) := m_get M1 k (fst m) n in let (b, n) := m_get M2 k (snd m) n in ((a, b), n);
     m_clear m := (m_clear M1 (fst m), m_clear M2 (snd m));
     m_valid k m n :=
       let (v, n) := m_valid M1 k (fst m) n in if v : bool then m_valid M2 k (snd m) n else (false, n);
     m_replace m n :=
       let (D1, n) := m_replace M1 (fst m) n in let (D2, n) := m_replace M2 (snd m) n in (D1 ∪ D2, n) |}.

Global Instance nil_laws : ModelLaws nil_model.
Proof. by split. Qed.

Global Instance cons_laws M1 M2 `{!ModelLaws M1, !ModelLaws M2} : ModelLaws (cons_model M1 M2).
Proof.
  split; simpl.
  - intros k v m n X [H1 H2] Hk. pose proof (law_add k v (fst m) n X H1 Hk) as L1.
    destruct (m_add M1 k v (fst m) n) as [a n1]. pose proof (law_add k v (snd m) n1 X H2 Hk) as L2.
    by destruct (m_add M2 k v (snd m) n1).
  - intros k m X [H1 H2] Hk. split; by apply law_remove.
  - intros k m n X [H1 H2] Hk. pose proof (law_get k (fst m) n X H1 Hk) as L1.
    destruct (m_get M1 k (fst m) n) as [a n1]. pose proof (law_get k (snd m) n1 X H2 Hk) as L2.
    by destruct (m_get M2 k (snd m) n1).
  - intros m X [H1 H2]. split; by eapply law_clear.
Qed.

(** An invalid key stays invalid. *)
Lemma collection_invalid (l : list (AbstractStrategy K V)) k st :
  onIsValid (StrategyCollection l) k false st = (Done false, st).
Proof. by destruct l. Qed.

Global Instance nil_Implements : Implements (StrategyCollection (K := K) (V := V) []) nil_model.
Proof.
  refine {| rep := fun (_ : state (StrategyCollection (K := K) (V := V) [])) (_ : mstate nil_model) => True |};
    simpl; intros; unfold ret; eauto.
  by rewrite union_empty_r_L.
Defined.

Global Instance cons_Implements (S : AbstractStrategy K V) (l : list (AbstractStrategy K V)) M1 M2
    `{HI1 : !Implements S M1, HI2 : !Implements (StrategyCollection l) M2} :
  Implements (StrategyCollection (S :: l)) (cons_model M1 M2).
Proof.
  refine {| rep := fun (s : state (StrategyCollection (S :: l))) (m : mstate (cons_model M1 M2)) =>
                     rep (Implements := HI1) (fst s) (fst m) /\ rep (Implements := HI2) (snd s) (snd m) |}.
  - intros [s1 s2] [m1 m2] n X k v [R1 R2] [T1 T2] Hk. simpl in *.
    destruct (impl_add s1 m1 n X k v R1 T1 Hk) as (s1' & E1 & R1').
    destruct (m_add M1 k v m1 n) as [a n1]. destruct (impl_add s2 m2 n1 X k v R2 T2 Hk) as (s2' & E2 & R2').
    destruct (m_add M2 k v m2 n1) as [b n2]. simpl in *. exists (s1', s2').
    unfold bind, on_head, on_tail. simpl. rewrite E1. simpl. by rewrite E2.
  - intros [s1 s2] [m1 m2] n X k [R1 R2] [T1 T2] Hk. simpl in *.
    destruct (impl_remove s1 m1 n X k R1 T1 Hk) as (s1' & E1 & R1').
    destruct (impl_remove s2 m2 n X k R2 T2 Hk) as (s2' & E2 & R2'). exists (s1', s2').
    unfold bind, on_head, on_tail. simpl. rewrite E1. simpl. by rewrite E2.
  - intros [s1 s2] [m1 m2] n X k [R1 R2] [T1 T2] Hk. simpl in *.
    destruct (impl_get s1 m1 n X k R1 T1 Hk) as (s1' & E1 & R1').
    destruct (m_get M1 k m1 n) as [a n1]. destruct (impl_get s2 m2 n1 X k R2 T2 Hk) as (s2' & E2 & R2').
    destruct (m_get M2 k m2 n1) as [b n2]. simpl in *. exists (s1', s2').
    unfold bind, on_head, on_tail. simpl. rewrite E1. simpl. by rewrite E2.
  - intros [s1 s2] [m1 m2] n [R1 R2]. simpl in *.
    destruct (impl_clear s1 m1 n R1) as (s1' & E1 & R1'). destruct (impl_clear s2 m2 n R2) as (s2' & E2 & R2').
    exists (s1', s2'). unfold bind, on_head, on_tail. simpl. rewrite E1. simpl. by rewrite E2.
  - intros [s1 s2] [m1 m2] n X k [R1 R2] [T1 T2] Hk. simpl in *.
    pose proof (impl_valid s1 m1 n X k R1 T1 Hk) as E1. destruct (m_valid M1 k m1 n) as [v n1]. simpl in *.
    unfold bind, on_head, on_tail. simpl. rewrite E1. simpl. destruct v.
    + by rewrite (impl_valid s2 m2 n1 X k R2 T2 Hk).
    + by rewrite collection_invalid.
  - intros [s1 s2] [m1 m2] n D [R1 R2]. simpl in *.
    pose proof (impl_replace s1 m1 n D R1) as E1. destruct (m_replace M1 m1 n) as [D1 n1]. simpl in *.
    pose proof (impl_replace s2 m2 n1 (D ∪ D1) R2) as E2. destruct (m_replace M2 m2 n1) as [D2 n2].
    unfold bind, on_head, on_tail. simpl in *. rewrite E1. simpl. rewrite E2. simpl.
    by rewrite union_assoc_L.
Defined.
End Facts.
End CollectionModel.
