(* ===== verification/CacheClaims.v ===== *)
(** The claims about the caches: what any cache answers ([Sound]), the LRU
    cache as a list in order of use ([LRUSpec]), and the age of the entries
    of the expiring caches ([ExpireSpec]). *)

From stdpp Require Import gmap sorting.
From S2P Require Import Prelude Cache CacheFacts.

Open Scope st_scope.

(** ** Any cache: answers never contradict what was stored *)
Module Sound.
Import Abstract Pure.
Section Facts.
Context {K V : Type} `{Countable K} (S : AbstractStrategy K V) (M : StrategyModel K V).
Context `{HI : !Implements S M, HL : !ModelLaws M}.
Abbreviation pure := (pcache (V := V) M).

(** The map a client has stored, as if nothing were ever replaced. *)
Definition ideal_step (o : op K V) (d : gmap K V) : gmap K V :=
  match o with
  | Add k v | Update k v => <[k := v]> d
  | Remove k => delete k d
  | Clear => ∅
  | _ => d
  end.

(** The answers a cache may give when the client has stored [d]. *)
Definition sound (o : op K V) (d : gmap K V) (a : answer K V) : Prop :=
  match o, a with
  | Has k, Flag b => b = true -> is_Some (d !! k)
  | Get k, Pointer r => forall v, r = Some v -> d !! k = Some v
  | Size, Number n => 0 <= n <= Z.of_nat (base.size d)
  | GetAllKeys, Keys X => X ⊆ dom d
  | (Add _ _ | Update _ _ | Remove _ | Clear | ForceReplace), Nothing => True
  | _, _ => False
  end.

Fixpoint all_sound (ops : list (op K V)) (d : gmap K V) (answers : list (answer K V)) : Prop :=
  match ops, answers with
  | [], [] => True
  | o :: ops, a :: answers => sound o d a /\ all_sound ops (ideal_step o d) answers
  | _, _ => False
  end.

Lemma p_remove_subseteq k (p : pure) : p_data M (p_remove M k p) ⊆ p_data M p.
Proof. unfold p_remove. case_match; [|done]. simpl. apply delete_subseteq. Qed.

Lemma p_remove_all_subseteq l (p : pure) : p_data M (p_remove_all M l p) ⊆ p_data M p.
Proof.
  revert p. induction l as [|k l IH]; intros p; simpl; [done|].
  etransitivity; [apply IH|apply p_remove_subseteq].
Qed.

Lemma p_replace_subseteq (p : pure) : p_data M (p_replace M p) ⊆ p_data M p.
Proof.
  unfold p_replace. destruct (m_replace M (p_m M p) (p_n M p)) as [D n].
  etransitivity; [apply p_remove_all_subseteq|done].
Qed.

Lemma p_remove_delete k (p : pure) : p_data M (p_remove M k p) = delete k (p_data M p).
Proof. unfold p_remove. destruct (p_data M p !! k) eqn:E; [done|]. by rewrite delete_id. Qed.

Lemma tracked_remove k (p : pure) : tracked M p -> tracked M (p_remove M k p).
Proof.
  intros Ht. unfold p_remove. destruct (p_data M p !! k) eqn:Ek; [|done]. unfold tracked. cbn [p_m p_data].
  rewrite dom_delete_L. apply law_remove; [done|]. by apply elem_of_dom_2 in Ek.
Qed.

Lemma p_remove_all_gone ks (p : pure) k v :
  p_data M (p_remove_all M ks p) !! k = Some v -> ~ k ∈ ks.
Proof.
  revert p. induction ks as [|x ks IH]; intros p Hv; simpl in *; [apply not_elem_of_nil|].
  intros [->|Hk]%elem_of_cons; [|by apply (IH _ Hv)].
  pose proof (lookup_weaken _ _ _ _ Hv (p_remove_all_subseteq ks _)) as Hd.
  simpl in Hd. unfold flip in Hd. by rewrite p_remove_absent in Hd.
Qed.

Lemma p_store_subseteq k v (p : pure) d :
  p_data M p ⊆ d -> p_data M (p_store M k v p) ⊆ <[k := v]> d.
Proof.
  intros Hd. unfold p_store. pose proof (p_remove_delete k p) as E.
  destruct (p_remove M k p) as [m e n]. simpl in *.
  destruct (m_add M k v m n) as [m' n']. etransitivity; [apply p_replace_subseteq|]. simpl. subst e.
  rewrite insert_delete_eq. by apply insert_mono.
Qed.

Lemma p_step_sound o (p : pure) d :
  p_data M p ⊆ d ->
  sound o d (fst (p_step M o p)) /\ p_data M (snd (p_step M o p)) ⊆ ideal_step o d.
Proof.
  intros Hd. destruct o; simpl.
  - split; [done|]. by apply p_store_subseteq.
  - split; [done|]. by apply p_store_subseteq.
  - split; [done|]. rewrite p_remove_delete. by apply delete_mono.
  - unfold p_has. destruct (p_data M p !! k) eqn:E; [|done].
    destruct (m_valid M k (p_m M p) (p_n M p)). simpl. split; [|done]. intros _.
    eapply lookup_weaken in E; [|done]. eauto.
  - unfold p_get. destruct (p_data M p !! k) eqn:E; [|done].
    destruct (m_get M k (p_m M p) (p_n M p)) as [m n]. destruct (m_valid M k m n) as [[] n2]; simpl.
    + split; [|done]. intros w [= <-]. by eapply lookup_weaken.
    + split; [done|]. etransitivity; [apply p_remove_subseteq|done].
  - done.
  - assert (Hs : p_data M (p_replace M p) ⊆ d) by (etransitivity; [apply p_replace_subseteq|done]).
    split; [|done]. apply subseteq_dom, subseteq_size in Hs. rewrite !size_dom in Hs. lia.
  - split; [done|]. etransitivity; [apply p_replace_subseteq|done].
  - assert (Hs : p_data M (p_replace M p) ⊆ d) by (etransitivity; [apply p_replace_subseteq|done]).
    split; [|done]. by apply subseteq_dom.
Qed.

Lemma p_run_sound ops (p : pure) d :
  p_data M p ⊆ d -> all_sound ops d (fst (p_run M ops p)).
Proof.
  revert p d. induction ops as [|o ops IH]; intros p d Hd; simpl; [done|].
  destruct (p_step_sound o p d Hd) as [H1 H2]. auto.
Qed.
End Facts.
End Sound.

(** ** The LRU cache as a list of entries, the most recently used first *)
Module LRUSpec.
Import Abstract Pure LRUModel.
Section Facts.
Context {K V : Type} `{Countable K} (N : Z).
Abbreviation pure := (pcache (V := V) (lru_model (K := K) N)).

Definition drop_pair (k : K) (l : list (K * V)) : list (K * V) := filter (fun x => fst x <> k) l.

Definition lookup_pair (k : K) (l : list (K * V)) : option V := (list_to_map l : gmap K V) !! k.

Definition lru_step (o : op K V) (l : list (K * V)) : answer K V * list (K * V) :=
  match o with
  | Add k v | Update k v => (Nothing, take (Z.to_nat N) ((k, v) :: drop_pair k l))
  | Remove k => (Nothing, drop_pair k l)
  | Has k => (Flag (bool_decide (is_Some (lookup_pair k l))), l)
  | Get k =>
      match lookup_pair k l with
      | Some v => (Pointer (Some v), (k, v) :: drop_pair k l)
      | None => (Pointer None, l)
      end
  | Clear => (Nothing, [])
  | Size => (Number (Z.of_nat (length l)), l)
  | ForceReplace => (Nothing, l)
  | GetAllKeys => (Keys (list_to_set l.*1), l)
  end.

Fixpoint lru_run (ops : list (op K V)) (l : list (K * V)) : list (answer K V) * list (K * V) :=
  match ops with
  | [] => ([], l)
  | o :: ops =>
      let r := lru_step o l in
      let rs := lru_run ops (snd r) in
      (fst r :: fst rs, snd rs)
  end.

(** The pure cache holds the entries of the list. *)
Definition holds (p : pure) (l : list (K * V)) : Prop :=
  p_m _ p = l.*1 /\ p_data _ p = list_to_map l /\ NoDup l.*1.

Lemma drop_pair_fst k l : (drop_pair k l).*1 = without k l.*1.
Proof.
  unfold drop_pair, without. induction l as [|(x & v) l IH]; [done|]. rewrite fmap_cons, !filter_cons. simpl.
  repeat case_decide; try done. rewrite fmap_cons. by f_equal.
Qed.

Lemma drop_pair_map k l : (list_to_map (drop_pair k l) : gmap K V) = delete k (list_to_map l).
Proof.
  unfold drop_pair. induction l as [|(x & v) l IH]; simpl; [by rewrite delete_empty|].
  rewrite filter_cons. simpl. case_decide as D.
  - simpl. by rewrite IH, delete_insert_ne.
  - destruct (decide (x = k)) as [->|]; [|done]. by rewrite IH, delete_insert_eq.
Qed.

Lemma drop_pair_absent k l : k ∉ l.*1 -> drop_pair k l = l.
Proof. intros Hk. apply filter_keeps. intros x Hx E. apply Hk. rewrite <-E. by apply list_elem_of_fmap_2. Qed.

Lemma holds_remove k p l : holds p l -> holds (p_remove _ k p) (drop_pair k l).
Proof.
  intros (Hm & Hd & Hn). unfold p_remove. destruct (p_data _ p !! k) as [v|] eqn:E.
  - split_and!; simpl.
    + by rewrite drop_pair_fst, <-Hm.
    + by rewrite drop_pair_map, Hd.
    + rewrite drop_pair_fst. by apply NoDup_without.
  - rewrite drop_pair_absent; [done|]. apply not_elem_of_list_to_map_2. by rewrite <-Hd.
Qed.

Lemma holds_remove_all ks p l :
  holds p l -> holds (p_remove_all _ ks p) (filter (fun x => fst x ∉ ks) l).
Proof.
  revert p l. induction ks as [|k ks IH]; intros p l Hp; simpl.
  - rewrite filter_keeps; [done|]. intros x _. apply not_elem_of_nil.
  - specialize (IH _ _ (holds_remove k p l Hp)). unfold drop_pair in IH. rewrite list_filter_filter in IH.
    rewrite (list_filter_iff _ (fun x => (fst x ∉ ks) /\ fst x <> k)); [done|].
    intros x. rewrite elem_of_cons. naive_solver.
Qed.

Lemma filter_take n (l : list (K * V)) :
  NoDup l.*1 -> filter (fun x => fst x ∉ elements (list_to_set (drop n l.*1) : gset K)) l = take n l.
Proof.
  intros Hn. remember (elements _) as D eqn:ED. rewrite <-(take_drop n l) at 1. rewrite list.filter_app.
  rewrite <-(take_drop n l.*1) in Hn. apply list.NoDup_app in Hn as (_ & Hd & _).
  rewrite (filter_keeps _ (take n l)), (filter_drops _ (drop n l)).
  - by rewrite app_nil_r.
  - intros x Hx Hin. apply Hin. rewrite ED, elem_of_elements, elem_of_list_to_set, <-fmap_drop.
    by apply list_elem_of_fmap_2.
  - intros x Hx. rewrite ED, elem_of_elements, elem_of_list_to_set. apply Hd. rewrite <-fmap_take.
    by apply list_elem_of_fmap_2.
Qed.

(** Replacement keeps the first [N] entries. *)
Lemma holds_replace p l : holds p l -> holds (p_replace _ p) (take (Z.to_nat N) l).
Proof.
  intros Hp. pose proof Hp as (Hm & Hd & Hn). unfold p_replace. simpl. rewrite Hm.
  rewrite <-(filter_take (Z.to_nat N) l Hn). apply holds_remove_all. done.
Qed.

Lemma holds_front k v p l :
  holds p l -> holds (@Build_pcache K V _ _ (lru_model N) (k :: without k (p_m _ p))
                        (<[k := v]> (delete k (p_data _ p))) (p_n _ p)) ((k, v) :: drop_pair k l).
Proof.
  intros (Hm & Hd & Hn). split_and!; simpl.
  - f_equal. by rewrite Hm, <-drop_pair_fst.
  - by rewrite drop_pair_map, Hd.
  - constructor; [|rewrite drop_pair_fst; by apply NoDup_without].
    change (k ∉ (drop_pair k l).*1). rewrite drop_pair_fst, elem_without. naive_solver.
Qed.

Lemma holds_store k v p l :
  holds p l -> holds (p_store _ k v p) (take (Z.to_nat N) ((k, v) :: drop_pair k l)).
Proof.
  intros Hp. pose proof (holds_remove k p l Hp) as Hr. unfold p_store.
  apply holds_replace. destruct Hr as (Hm & Hd & Hn). split_and!; simpl.
  - by f_equal.
  - by rewrite Hd.
  - constructor; [|done]. change (k ∉ (drop_pair k l).*1). rewrite drop_pair_fst, elem_without. naive_solver.
Qed.

Lemma length_drop_pair k l : (length (drop_pair k l) <= length l)%nat.
Proof. apply list.length_filter. Qed.

Lemma lookup_pair_elem k v l : lookup_pair k l = Some v -> (k, v) ∈ l.
Proof. apply elem_of_list_to_map_2. Qed.

Lemma length_drop_pair_lt k v l :
  NoDup l.*1 -> lookup_pair k l = Some v -> (length (drop_pair k l) < length l)%nat.
Proof.
  intros Hn Hl. apply lookup_pair_elem, list_elem_of_split in Hl as (l1 & l2 & ->). unfold drop_pair.
  rewrite list.filter_app, filter_cons_False by (by intros []). rewrite !length_app. simpl.
  pose proof (list.length_filter (fun x => fst x <> k) l1).
  pose proof (list.length_filter (fun x => fst x <> k) l2). lia.
Qed.

Lemma lru_step_ok o p l :
  holds p l -> (length l <= Z.to_nat N)%nat ->
  fst (p_step _ o p) = fst (lru_step o l) /\ holds (snd (p_step _ o p)) (snd (lru_step o l)) /\
  (length (snd (lru_step o l)) <= Z.to_nat N)%nat.
Proof.
  intros Hp Hl. pose proof Hp as (Hm & Hd & Hn).
  assert (Hr : holds (p_replace _ p) l) by (rewrite <-(take_ge l (Z.to_nat N)) by done; by apply holds_replace).
  destruct o as [k v|k v|k|k|k| | | |]; simpl.
  - split_and!; [done|by apply holds_store|rewrite length_take; lia].
  - split_and!; [done|by apply holds_store|rewrite length_take; lia].
  - split_and!; [done|by apply holds_remove|]. pose proof (length_drop_pair k l). lia.
  - unfold p_has, lookup_pair. rewrite <-Hd. destruct (p_data _ p !! k) eqn:E; simpl; [|done].
    split_and!; [|done|done]. rewrite Hm, bool_decide_eq_true_2; [done|].
    rewrite Hd in E. apply elem_of_list_to_map_2 in E. by apply (list_elem_of_fmap_2 fst) in E.
  - unfold p_get. destruct (lookup_pair k l) as [v|] eqn:E; unfold lookup_pair in E; rewrite <-Hd in E;
      rewrite E; [|done]. simpl.
    rewrite (bool_decide_eq_true_2 (k ∈ _)) by (apply elem_of_cons; by left). simpl.
    split_and!; [done| |].
    + pose proof (holds_front k v p l Hp) as F. by rewrite insert_delete_eq, insert_id in F.
    + rewrite Hd in E. pose proof (length_drop_pair_lt k v l Hn E). lia.
  - split_and!; [done| |lia]. split_and!; [done|done|constructor].
  - split_and!; [|done|done]. destruct Hr as (_ & -> & _). by rewrite map_size_list_to_map.
  - done.
  - split_and!; [|done|done]. destruct Hr as (_ & -> & _). by rewrite dom_list_to_map_L.
Qed.

Lemma lru_run_ok ops p l :
  holds p l -> (length l <= Z.to_nat N)%nat ->
  fst (p_run _ ops p) = fst (lru_run ops l) /\ holds (snd (p_run _ ops p)) (snd (lru_run ops l)) /\
  (length (snd (lru_run ops l)) <= Z.to_nat N)%nat.
Proof.
  revert p l. induction ops as [|o ops IH]; intros p l Hp Hl; simpl; [done|].
  destruct (lru_step_ok o p l Hp Hl) as (E & Hp' & Hl').
  destruct (IH _ _ Hp' Hl') as (E2 & Hp2 & Hl2). by rewrite E, E2.
Qed.
End Facts.
End LRUSpec.

(** ** The age of entries in the expiring caches *)
Module ExpireSpec.
Import Abstract Pure Stamped ExpireModel.

(** The wall clock: microseconds since the epoch that never run backwards. *)
Class Clock (time : nat -> Z) := {
  clock_mono i j : (i <= j)%nat -> time i <= time j;
  clock_range i : 0 <= time i < 2 ^ 62
}.

Section Facts.
Context {K V : Type} `{Countable K} (time : nat -> Z) (E : Z) `{HC : !Clock time}.
Abbreviation model := (expire_model (K := K) time E).
Abbreviation pure := (pcache (V := V) model).

(** What a client has stored and when: the clock reading [n] is the one the
    store operation takes. *)
Definition note (o : op K V) (n : nat) (g : gmap K (V * Z)) : gmap K (V * Z) :=
  match o with
  | Add k v | Update k v => <[k := (v, time n)]> g
  | Remove k => delete k g
  | Clear => ∅
  | _ => g
  end.

(** The cache against the notes [g]: an entry that is there is the one noted,
    an entry that is gone was too old. *)
Record aged (p : pure) (g : gmap K (V * Z)) : Prop := {
  ag_tracks : tracked _ p;
  ag_data k v : p_data _ p !! k = Some v -> exists t, g !! k = Some (v, t) /\ (t, k) ∈ p_m _ p;
  ag_time k v t : g !! k = Some (v, t) -> 0 <= t <= time (p_n _ p);
  ag_gone k v t : g !! k = Some (v, t) -> p_data _ p !! k = None -> E <= time (p_n _ p) - t
}.

Lemma elapsed_iff n t : 0 <= t < 2 ^ 62 -> elapsed time E n t = (E <=? time n - t).
Proof. intros Ht. unfold elapsed. pose proof (clock_range n). rewrite s64_id by lia. done. Qed.

Lemma aged_later m d n n' g :
  aged (@Build_pcache K V _ _ model m d n) g -> (n <= n')%nat -> aged (@Build_pcache K V _ _ model m d n') g.
Proof.
  intros [H1 H2 H3 H4] Hn. pose proof (clock_mono _ _ Hn). split; simpl in *; [done|done| |].
  - intros k v t Hg. specialize (H3 _ _ _ Hg). lia.
  - intros k v t Hg Hd. specialize (H4 _ _ _ Hg Hd). lia.
Qed.

(** The stamp the strategy keeps for an entry is the one noted. *)
Lemma aged_stamp p g k v :
  aged p g -> p_data _ p !! k = Some v -> exists t, g !! k = Some (v, t) /\ stamp k (p_m _ p) = t.
Proof.
  intros Ha Hd. destruct (ag_data _ _ Ha k v Hd) as (t & Hg & Hin). exists t. split; [done|].
  apply stamp_elem; [|done]. apply (ag_tracks _ _ Ha).
Qed.

Lemma elem_drop_key_pair t x k (es : list (Z * K)) : x <> k -> (t, x) ∈ es -> (t, x) ∈ drop_key snd k es.
Proof. intros Hx Hin. unfold drop_key. apply list_elem_of_filter. done. Qed.

(** An entry is removed: the client asked for it, or it is too old. *)
Lemma aged_remove k p g g' :
  aged p g ->
  (forall x, x <> k -> g' !! x = g !! x) ->
  (g' !! k = None \/ g' !! k = g !! k /\ forall v t, g !! k = Some (v, t) -> E <= time (p_n _ p) - t) ->
  aged (p_remove _ k p) g'.
Proof.
  intros [H1 H2 H3 H4] Hne Hk. pose proof (Sound.tracked_remove _ k p H1) as Ht.
  pose proof (Sound.p_remove_delete _ k p) as Ed.
  assert (En : p_n _ (p_remove _ k p) = p_n _ p) by (unfold p_remove; by case_match).
  assert (Em : forall t x, x <> k -> (t, x) ∈ p_m _ p -> (t, x) ∈ p_m _ (p_remove _ k p)).
  { intros t x Hx Hin. unfold p_remove. case_match; [|done]. by apply elem_drop_key_pair. }
  split; [done|..]; rewrite ?Ed, ?En.
  - intros x v [Hx Hd]%lookup_delete_Some. destruct (H2 x v Hd) as (t & Hg & Hin). exists t.
    rewrite Hne by done. auto.
  - intros x v t Hg. destruct (decide (x = k)) as [->|Hx]; [|rewrite Hne in Hg by done; eauto].
    destruct Hk as [Hk|[Hk _]]; rewrite Hk in Hg; [done|eauto].
  - intros x v t Hg Hd. destruct (decide (x = k)) as [->|Hx].
    + destruct Hk as [Hk|[Hk Ho]]; rewrite Hk in Hg; [done|eauto].
    + rewrite Hne in Hg by done. rewrite lookup_delete_ne in Hd by done. eauto.
Qed.

Lemma aged_evict_all ks p g :
  aged p g ->
  (forall k v t, k ∈ ks -> g !! k = Some (v, t) -> E <= time (p_n _ p) - t) ->
  aged (p_remove_all _ ks p) g.
Proof.
  revert p. induction ks as [|k ks IH]; intros p Ha Ho; simpl; [done|]. apply IH.
  - apply (aged_remove k p g g); [done|done|]. right. split; [done|]. intros v t. apply Ho, elem_of_cons. by left.
  - intros x v t Hx Hg. unfold p_remove. case_match; simpl; eapply Ho; try done; apply elem_of_cons; by right.
Qed.

(** The keys the strategy gives up are old, those it keeps are not. *)
Lemma elapsed_prefix_old (es : list (Z * K)) n :
  (n <= snd (elapsed_prefix time E es n))%nat /\
  forall k, k ∈ fst (elapsed_prefix time E es n) ->
    exists t i, (t, k) ∈ es /\ (i <= snd (elapsed_prefix time E es n))%nat /\ elapsed time E i t = true.
Proof.
  revert n. induction es as [|(t & x) es IH]; intros n; simpl; [split; [lia|]; set_solver|].
  destruct (elapsed time E n t) eqn:Ee; [|split; [simpl; lia|set_solver]].
  destruct (IH (S n)) as [Hn Ho]. destruct (elapsed_prefix time E es (S n)) as [D n']. simpl in *.
  split; [lia|]. intros k [->%elem_of_singleton|Hk]%elem_of_union.
  - exists t, n. split_and!; [apply elem_of_cons; by left|lia|done].
  - destruct (Ho k Hk) as (u & i & Hin & Hi & Hu). exists u, i. split_and!; [apply elem_of_cons; by right|lia|done].
Qed.

Lemma elapsed_prefix_fresh (es : list (Z * K)) n t k :
  in_order fst es -> (forall u x, (u, x) ∈ es -> 0 <= u <= time n) ->
  (t, k) ∈ es -> k ∉ fst (elapsed_prefix time E es n) -> time n - t < E.
Proof.
  intros Ho. revert n. induction Ho as [|(u & x) es Ho IH Hb]; intros n Hr Hin Hk; [by apply not_elem_of_nil in Hin|].
  simpl in Hk. assert (Hu : 0 <= u <= time n) by (eapply Hr, elem_of_cons; by left).
  pose proof (clock_range n). pose proof (elapsed_iff n u ltac:(lia)) as Ei. destruct (elapsed time E n u).
  - pose proof (IH (S n)) as IH'. destruct (elapsed_prefix time E es (S n)) as [D n'] eqn:Ep. simpl in *.
    apply not_elem_of_union in Hk as [Hx Hk]. apply elem_of_cons in Hin as [[= -> ->]|Hin]; [set_solver|].
    pose proof (clock_mono n (S n) ltac:(lia)).
    assert (time (S n) - t < E); [|lia]. apply IH'; [|done|done].
    intros u' x' Hin'. specialize (Hr u' x' ltac:(apply elem_of_cons; by right)). lia.
  - assert (u <= t); [|lia]. apply elem_of_cons in Hin as [[= -> ->]|Hin]; [lia|].
    rewrite List.Forall_forall in Hb. by apply (Hb (t, k)), list_elem_of_In.
Qed.

Lemma tracked_elem (p : pure) t k : tracked _ p -> (t, k) ∈ p_m _ p -> is_Some (p_data _ p !! k).
Proof.
  intros (_ & HX & _) Hin. apply elem_of_dom. rewrite HX, elem_of_list_to_set.
  by apply (list_elem_of_fmap_2 snd) in Hin.
Qed.

Lemma aged_elem p g t k :
  aged p g -> (t, k) ∈ p_m _ p ->
  exists v, p_data _ p !! k = Some v /\ g !! k = Some (v, t) /\ 0 <= t <= time (p_n _ p).
Proof.
  intros Ha Hin. destruct (tracked_elem p t k (ag_tracks _ _ Ha) Hin) as [v Hv]. exists v. split; [done|].
  destruct (aged_stamp p g k v Ha Hv) as (u & Hg & Hu).
  rewrite (stamp_elem t k) in Hu; [|apply (ag_tracks _ _ Ha)|done]. subst u.
  split; [done|]. by eapply ag_time.
Qed.

Lemma aged_replace p g : aged p g -> aged (p_replace _ p) g.
Proof.
  intros Ha. unfold p_replace. cbn [m_replace expire_model].
  destruct (elapsed_prefix_old (p_m _ p) (p_n _ p)) as [Hn Ho].
  destruct (elapsed_prefix time E (p_m _ p) (p_n _ p)) as [D n']. simpl in *.
  apply aged_evict_all.
  - destruct p as [m d n]. by apply (aged_later m d n n').
  - intros k v t Hk Hg. simpl. apply elem_of_elements in Hk.
    destruct (Ho k Hk) as (u & i & Hin & Hi & Hu). destruct (aged_elem p g u k Ha Hin) as (w & _ & Hg' & Hr).
    rewrite Hg in Hg'. injection Hg' as <- <-.
    pose proof (clock_range (p_n _ p)). rewrite elapsed_iff in Hu by lia. pose proof (clock_mono _ _ Hi). lia.
Qed.

Lemma aged_store k v p g : aged p g -> aged (p_store _ k v p) (<[k := (v, time (p_n _ p))]> g).
Proof.
  intros Ha. unfold p_store. apply aged_replace.
  assert (Hr : aged (p_remove _ k p) (delete k g)).
  { apply (aged_remove k p g); [done|intros x Hx; by rewrite lookup_delete_ne|left; by rewrite lookup_delete_eq]. }
  assert (Hn : p_n _ (p_remove _ k p) = p_n _ p) by (unfold p_remove; by case_match).
  pose proof (p_remove_absent _ k p) as Hk. destruct (p_remove _ k p) as [m d n]. simpl in Hn, Hk. subst n.
  destruct Hr as [H1 H2 H3 H4]. pose proof (clock_mono (p_n _ p) (S (p_n _ p)) ltac:(lia)).
  pose proof (clock_range (p_n _ p)). simpl in *. split; cbn [p_m p_data p_n].
  - unfold tracked. cbn [p_m p_data]. rewrite dom_insert_L. apply (add_tracks snd fst (_, k)); [done|]. by apply not_elem_of_dom.
  - intros x w. destruct (decide (x = k)) as [->|Hx].
    + rewrite !lookup_insert_eq. intros [= <-]. eexists. split; [done|]. rewrite ins_perm. apply elem_of_cons. by left.
    + rewrite !lookup_insert_ne by done. intros Hd. destruct (H2 x w Hd) as (t & Hg & Hin).
      rewrite lookup_delete_ne in Hg by done. exists t. split; [done|]. rewrite ins_perm. apply elem_of_cons. by right.
  - intros x w t. destruct (decide (x = k)) as [->|Hx].
    + rewrite lookup_insert_eq. intros [= <- <-]. lia.
    + rewrite lookup_insert_ne by done. intros Hg. specialize (H3 x w t). rewrite lookup_delete_ne in H3 by done.
      specialize (H3 Hg). lia.
  - intros x w t. destruct (decide (x = k)) as [->|Hx]; [by rewrite !lookup_insert_eq|].
    rewrite !lookup_insert_ne by done. intros Hg Hd. specialize (H4 x w t). rewrite lookup_delete_ne in H4 by done.
    specialize (H4 Hg Hd). lia.
Qed.

(** What the notes say about a key at a clock reading. *)
Definition fresh_value (g : gmap K (V * Z)) (n : nat) (k : K) : option V :=
  match g !! k with
  | Some (v, t) => if time n - t <? E then Some v else None
  | None => None
  end.

Lemma aged_value p g k :
  aged p g ->
  match p_data _ p !! k with
  | Some v => fresh_value g (p_n _ p) k =
              if elapsed time E (p_n _ p) (stamp k (p_m _ p)) then None else Some v
  | None => fresh_value g (p_n _ p) k = None
  end.
Proof.
  intros Ha. unfold fresh_value. destruct (p_data _ p !! k) as [v|] eqn:Hd.
  - destruct (aged_stamp p g k v Ha Hd) as (t & Hg & ->). rewrite Hg.
    pose proof (ag_time _ _ Ha _ _ _ Hg). pose proof (clock_range (p_n _ p)).
    rewrite elapsed_iff by lia. destruct (Z.ltb_spec (time (p_n _ p) - t) E), (Z.leb_spec E (time (p_n _ p) - t)); done || lia.
  - destruct (g !! k) as [[v t]|] eqn:Hg; [|done]. pose proof (ag_gone _ _ Ha _ _ _ Hg Hd).
    by rewrite (proj2 (Z.ltb_ge _ _)).
Qed.

Lemma aged_has k p g :
  aged p g -> fst (p_has _ k p) = bool_decide (is_Some (fresh_value g (p_n _ p) k)) /\ aged (snd (p_has _ k p)) g.
Proof.
  intros Ha. pose proof (aged_value p g k Ha) as Hv. unfold p_has.
  destruct (p_data _ p !! k) as [v|]; rewrite Hv; [|done]. simpl. destruct p as [m d n]. split.
  - by destruct (elapsed time E _ _).
  - apply (aged_later m d n (S n)); [done|lia].
Qed.

Lemma aged_get k p g :
  aged p g -> fst (p_get _ k p) = fresh_value g (p_n _ p) k /\ aged (snd (p_get _ k p)) g.
Proof.
  intros Ha. pose proof (aged_value p g k Ha) as Hv. unfold p_get.
  destruct (p_data _ p !! k) as [v|] eqn:Hd; rewrite Hv; [|done]. simpl. destruct p as [m d n]. simpl in *.
  assert (Hl : aged (@Build_pcache K V _ _ model m d (S n)) g) by (apply (aged_later m d n); [done|lia]).
  destruct (elapsed time E n (stamp k m)) eqn:Ee; simpl; [|done]. split; [done|].
  apply (aged_remove k _ g g Hl); [done|]. right. split; [done|]. intros w t Hg. simpl.
  destruct (aged_stamp _ g k v Ha Hd) as (u & Hg' & Hu). rewrite Hg in Hg'. injection Hg' as <- <-. simpl in Hu.
  rewrite Hu in Ee. pose proof (ag_time _ _ Ha _ _ _ Hg). pose proof (clock_range n). simpl in *.
  rewrite elapsed_iff in Ee by lia. pose proof (clock_mono n (S n) ltac:(lia)). lia.
Qed.

Lemma aged_step o p g : aged p g -> aged (snd (p_step _ o p)) (note o (p_n _ p) g).
Proof.
  intros Ha. destruct o as [k v|k v|k|k|k| | | |]; simpl.
  - by apply aged_store.
  - by apply aged_store.
  - apply (aged_remove k p g); [done|intros x Hx; by rewrite lookup_delete_ne|left; by rewrite lookup_delete_eq].
  - pose proof (aged_has k p g Ha) as [_ Hh]. by destruct (p_has _ k p).
  - pose proof (aged_get k p g Ha) as [_ Hh]. by destruct (p_get _ k p).
  - split; simpl; try done. split_and!; [constructor|by rewrite dom_empty_L|constructor].
  - by apply aged_replace.
  - by apply aged_replace.
  - by apply aged_replace.
Qed.

(** After a replacement only fresh entries are left, and all that are still
    fresh then. *)
Lemma replace_keys p g k :
  aged p g ->
  (k ∈ dom (p_data _ (p_replace _ p)) -> is_Some (fresh_value g (p_n _ p) k)) /\
  (is_Some (fresh_value g (p_n _ (p_replace _ p)) k) -> k ∈ dom (p_data _ (p_replace _ p))).
Proof.
  intros Ha. split.
  - intros Hk. pose proof (aged_replace p g Ha) as Hr.
    apply elem_of_dom in Hk as [v Hv]. destruct (ag_data _ _ Hr k v Hv) as (t & Hg & _).
    pose proof (Sound.p_replace_subseteq _ p) as Hs. pose proof (lookup_weaken _ _ _ _ Hv Hs) as Hd.
    destruct (ag_data _ _ Ha k v Hd) as (u & Hg' & Hin). rewrite Hg in Hg'. injection Hg' as <-.
    assert (time (p_n _ p) - t < E).
    { apply (elapsed_prefix_fresh (p_m _ p) (p_n _ p) t k); [apply (ag_tracks _ _ Ha)| |done|].
      - intros u x Hux. by destruct (aged_elem p g u x Ha Hux) as (? & ? & ? & ?).
      - intros HD. unfold p_replace in Hv. cbn [m_replace expire_model] in Hv.
        destruct (elapsed_prefix time E (p_m _ p) (p_n _ p)) as [D n']. simpl in *.
        apply Sound.p_remove_all_gone in Hv. by apply Hv, elem_of_elements. }
    unfold fresh_value. rewrite Hg. by rewrite (proj2 (Z.ltb_lt _ _)).
  - intros Hf. pose proof (aged_replace p g Ha) as Hr. pose proof (aged_value _ g k Hr) as Hv.
    destruct (p_data _ (p_replace _ p) !! k) eqn:Ed; [by apply elem_of_dom_2 in Ed|].
    rewrite Hv in Hf. by destruct Hf.
Qed.
End Facts.

(** The notes and the cache after a sequence of calls. *)
Fixpoint stored {K V} `{Countable K} (S : AbstractStrategy K V) (time : nat -> Z)
    (ops : list (op K V)) (c : AbstractCache S) (g : gmap K (V * Z)) :
    gmap K (V * Z) * AbstractCache S :=
  match ops with
  | [] => (g, c)
  | o :: ops => stored S time ops (snd (step S o c)) (note time o (readings S c) g)
  end.

Section Stored.
Context {K V : Type} `{Countable K} (time : nat -> Z) `{HC : !Clock time} (E : Z).
Abbreviation strategy := (Expire.strategy K V time).
Abbreviation model := (expire_model (K := K) time E).

Lemma stored_ok ops c p g :
  sim strategy model c p -> aged time E p g ->
  exists p', sim strategy model (snd (stored strategy time ops c g)) p' /\
             aged time E p' (fst (stored strategy time ops c g)).
Proof.
  revert c p g. induction ops as [|o ops IH]; intros c p g Hs Ha; simpl; [by exists p|].
  destruct (cache_step_ok strategy model o c p Hs) as (c' & Ec & Hs'). rewrite Ec. simpl.
  apply (IH c' _ _ Hs'). assert (readings strategy c = p_n _ p) as -> by apply Hs. by apply aged_step.
Qed.

Lemma initial_ok s :
  Expire._expireTime s = E -> expire_rep E s [] ->
  sim strategy model (construct strategy s) (@Build_pcache K V _ _ model [] ∅ 0) /\
  aged time E (@Build_pcache K V _ _ model [] ∅ 0) ∅.
Proof.
  intros HE Hr. assert (Ht : tracked model (@Build_pcache K V _ _ model [] ∅ 0)).
  { unfold tracked. simpl. split_and!; [constructor|by rewrite dom_empty_L|constructor]. }
  split; [done|]. by split.
Qed.
End Stored.

Lemma expire_construct_rep {K} `{Countable K} ms (s : Expire.ExpireStrategy K) :
  Expire.construct ms = Done s -> expire_rep (Expire._expireTime s) s [].
Proof.
  unfold Expire.construct. destruct (int64 _) as [e| | |]; cbn [rbind]; [|done..]. case_match; [done|]. intros [= <-]. split; [done|]. apply Stamped.kept_nil.
Qed.
End ExpireSpec.

(** ** The claims *)

Import Abstract.

(** Against the interface of the strategies: whatever lawful strategy a
    cache uses (the LRU, expiring and access-expiring strategies and every
    collection of them are), every sequence of calls ends without the use of
    an iterator that was erased, and every answer is consistent with what the
    client has stored: [get] returns the last value stored for the key or
    nothing, [has] holds only for stored keys, and the size and the keys are
    those of a part of what was stored. *)
Theorem cache_answers_sound {K V} `{Countable K} (S : AbstractStrategy K V) (M : StrategyModel K V)
    (HI : Implements S M) (HL : ModelLaws M) (s : state S) (m : mstate M) (ops : list (op K V)) :
  rep s m -> m_tracks M m ∅ ->
  exists answers c, run S ops (construct S s) = (Done answers, c) /\
    Sound.all_sound ops ∅ answers.
Proof.
  intros Hr Ht. set (p := @Pure.Build_pcache K V _ _ M m ∅ 0).
  assert (Hs : Pure.sim S M (construct S s) p).
  { split_and!; [done..|]. unfold Pure.tracked. simpl. by rewrite dom_empty_L. }
  destruct (Pure.cache_run_ok S M ops _ p Hs) as (c & Ec & _). eexists _, c. split; [done|].
  by apply (Sound.p_run_sound M ops p ∅).
Qed.

Lemma cache_answers_sound_witness :
  let time := fun n => Z.of_nat n in
  let S := Collection.StrategyCollection [LRU.strategy Z Z; Expire.strategy Z Z time] in
  exists answers c,
    run S [Add 1 10; Add 2 20; Get 1; Add 3 30; GetAllKeys; Get 2]
      (construct S ({| LRU._size := 2; LRU._keys := Nodes.none; LRU._keyIndex := ∅ |},
                    ({| Expire._expireTime := 25000; Expire._keys := ∅; Expire._keyIndex := Nodes.none |}, tt))) =
      (Done answers, c) /\
    Sound.all_sound [Add 1 10; Add 2 20; Get 1; Add 3 30; GetAllKeys; Get 2] ∅ answers.
Proof.
  intros time S.
  apply (cache_answers_sound S
           (CollectionModel.cons_model (LRUModel.lru_model 2)
              (CollectionModel.cons_model (ExpireModel.expire_model time 25000) CollectionModel.nil_model))
           _ _ _ ([], ([], tt))).
  - split; [|split; [|done]].
    + split_and!; [done|lia|done|apply Indexed.indexed_nil].
    + split; [done|apply Stamped.kept_nil].
  - split; [|split; [|done]].
    + split; [constructor|done].
    + split_and!; [constructor|done|constructor].
Defined.

(** C30: the LRU cache is exactly the list of its entries in the order of
    their last use: every answer to every sequence of calls is the one of the
    list, which never has more than [size] entries, [add] and [get] move the
    entry to the front, and a new entry pushes out the last one.  The
    constructor throws InvalidArgumentException for a size below one. *)
Theorem lru_cache_refines {K V} `{Countable K} (size : Z) (ops : list (op K V)) :
  match LRU.construct size with
  | Done s =>
      exists c, run (LRU.strategy K V) ops (construct (LRU.strategy K V) s) =
                (Done (fst (LRUSpec.lru_run size ops [])), c) /\
      _data _ c = list_to_map (snd (LRUSpec.lru_run size ops [])) /\
      Z.of_nat (length (snd (LRUSpec.lru_run size ops []))) <= size
  | r => r = Raise InvalidArgumentException /\ size < 1
  end.
Proof.
  unfold LRU.construct. destruct (Z.ltb_spec size 1) as [|Hs]; [done|].
  set (s := {| LRU._size := size |}).
  set (p := @Pure.Build_pcache K V _ _ (LRUModel.lru_model size) [] ∅ 0).
  assert (Hsim : Pure.sim (LRU.strategy K V) (LRUModel.lru_model size) (construct (LRU.strategy K V) s) p).
  { split_and!; [|done|done|].
    - split_and!; [done|lia|done|apply Indexed.indexed_nil].
    - split; [constructor|]. simpl. by rewrite dom_empty_L. }
  destruct (Pure.cache_run_ok _ _ ops _ p Hsim) as (c & Ec & (_ & Hd & _)).
  destruct (LRUSpec.lru_run_ok size ops p []) as (Ea & (_ & Hm & _) & Hl).
  { split_and!; [done|done|constructor]. }
  { simpl. lia. }
  exists c. rewrite <-Ea. split_and!; [done|by rewrite Hd|lia].
Qed.

(** C31: in a cache that expires entries after a fixed time, with a clock that
    does not run backwards: after any sequence of calls [get] and [has]
    answer for a key exactly the value last stored if less than the expiry
    time has passed since the store, and nothing otherwise; the keys listed
    are fresh when the call starts, and include all that are fresh when it
    ends. *)
Theorem expire_cache_exact {K V} `{Countable K} (time : nat -> Z) (HC : ExpireSpec.Clock time)
    (ms : Z) (s : Expire.ExpireStrategy K) (ops : list (op K V)) :
  Expire.construct ms = Done s ->
  let S := Expire.strategy K V time in
  let g := fst (ExpireSpec.stored S time ops (construct S s) ∅) in
  let c := snd (ExpireSpec.stored S time ops (construct S s) ∅) in
  let fresh := ExpireSpec.fresh_value time (Expire._expireTime s) g in
  (forall k, fst (doGet S k c) = Done (fresh (readings S c) k)) /\
  (forall k, fst (doHas S k c) = Done (bool_decide (is_Some (fresh (readings S c) k)))) /\
  exists X c', getAllKeys S c = (Done X, c') /\
    (forall k, k ∈ X -> is_Some (fresh (readings S c) k)) /\
    (forall k, is_Some (fresh (readings S c') k) -> k ∈ X).
Proof.
  intros Hs S g c fresh. pose proof (ExpireSpec.expire_construct_rep ms s Hs) as Hr.
  destruct (ExpireSpec.initial_ok (V := V) time (Expire._expireTime s) s eq_refl Hr) as [Hsim Ha].
  destruct (ExpireSpec.stored_ok time (Expire._expireTime s) ops _ _ _ Hsim Ha) as (p & Hsim' & Ha').
  fold S in Hsim', Ha'. fold c in Hsim'. fold g in Ha'. clearbody g c. subst fresh.
  assert (Hn : readings S c = Pure.p_n _ p) by apply Hsim'. rewrite Hn. split_and!.
  - intros k. destruct (Pure.doGet_ok _ _ k c p Hsim') as (c' & -> & _). simpl.
    by destruct (ExpireSpec.aged_get time (Expire._expireTime s) k p g Ha') as [-> _].
  - intros k. destruct (Pure.doHas_ok _ _ k c p Hsim') as (c' & -> & _). simpl.
    by destruct (ExpireSpec.aged_has time (Expire._expireTime s) k p g Ha') as [-> _].
  - destruct (Pure.doReplace_ok _ _ c p Hsim') as (c' & Ec & Hsim2). exists (dom (_data S c')), c'.
    split; [unfold getAllKeys; by rewrite (bind_Done _ _ _ _ _ Ec)|].
    destruct Hsim2 as (_ & Hd2 & Hn2 & _). rewrite Hd2, Hn2.
    split; intros k; apply (ExpireSpec.replace_keys time (Expire._expireTime s) p g k Ha').
Qed.

Lemma clock_example : ExpireSpec.Clock (fun n => Z.min (6000 * Z.of_nat n) 1000000).
Proof. split; lia. Qed.

Lemma expire_cache_exact_witness :
  let time := fun n => Z.min (6000 * Z.of_nat n) 1000000 in
  let S := Expire.strategy Z Z time in
  let c := snd (ExpireSpec.stored S time [Add 1 10; Has 1; Add 2 20]
      (construct S {| Expire._expireTime := 25000; Expire._keys := ∅; Expire._keyIndex := Nodes.none |}) ∅) in
  fst (doGet S 1 c) = Done None /\ fst (doGet S 2 c) = Done (Some 20).
Proof.
  pose proof (expire_cache_exact (V := Z) _ clock_example 25
    {| Expire._expireTime := 25000; Expire._keys := ∅; Expire._keyIndex := Nodes.none |}
    [Add 1 10; Has 1; Add 2 20] eq_refl) as [T _].
  split; (etransitivity; [apply T|]); vm_compute; reflexivity.
Defined.

(** In a cache that expires entries by access, [has] compares the age of
    the time stamp with the expiry time, but [get] renews the time stamp
    before it asks whether the entry is valid: it returns the value of every
    entry that has not been replaced yet, however old, unless more than the
    expiry time passes between its own two readings of the clock. *)
Theorem access_get_ignores_age {K V} `{Countable K} (time : nat -> Z) (ms : Z)
    (s : Expire.ExpireStrategy K) (ops : list (op K V)) answers c k v :
  let S := Expire.access_strategy K V time in
  let E := Expire._expireTime s in
  Expire.construct ms = Done s ->
  run S ops (construct S s) = (Done answers, c) ->
  _data S c !! k = Some v ->
  exists it t, Expire._keys (_strategy S c) !! k = Some it /\
    Nodes.find_node it (Nodes.items (Expire._keyIndex (_strategy S c))) = Some (t, k) /\
    fst (doHas S k c) = Done (s64 (time (readings S c) - t) <? E) /\
    (s64 (time (1 + readings S c)%nat - time (readings S c)) < E -> fst (doGet S k c) = Done (Some v)).
Proof.
  intros S E Hs Hrun Hd. pose proof (ExpireSpec.expire_construct_rep ms s Hs) as Hr.
  set (M := ExpireModel.access_model (K := K) (V := V) time E). set (p0 := @Pure.Build_pcache K V _ _ M [] ∅ 0).
  assert (Hsim : Pure.sim S M (construct S s) p0).
  { split_and!; [done..|]. split_and!; [constructor|simpl; by rewrite dom_empty_L|constructor]. }
  destruct (Pure.cache_run_ok S M ops _ p0 Hsim) as (c' & Ec & Hsim').
  rewrite Hrun in Ec. injection Ec as _ <-. destruct (snd (Pure.p_run M ops p0)) as [es d n].
  pose proof Hsim' as (Hrep & Hd' & Hn & (Hnd & HX & _)). simpl in *. rewrite Hd' in Hd.
  assert (Hk : k ∈ es.*2) by (rewrite <-(elem_of_list_to_set (C := gset K)), <-HX; by apply elem_of_dom_2 in Hd).
  destruct Hrep as [_ Hc]. destruct (Stamped.kept_erase snd _ _ es k Hc Hk) as (it & (t & x) & l & Hit & Hf & Hx & Hen & _).
  simpl in Hx. subst x. exists it, t. split_and!; [done|done| |].
  - destruct (Pure.doHas_ok S M k c _ Hsim') as (c2 & -> & _). unfold Pure.p_has. simpl. rewrite Hd. simpl.
    unfold ExpireModel.stamp. rewrite Hen, Hn. unfold ExpireModel.elapsed. by rewrite Z.ltb_antisym.
  - intros Hlt. destruct (Pure.doGet_ok S M k c _ Hsim') as (c2 & -> & _). unfold Pure.p_get. simpl. rewrite Hd. simpl.
    rewrite (ExpireModel.stamp_elem (time n) k).
    + unfold ExpireModel.elapsed. rewrite Hn in Hlt. by rewrite (proj2 (Z.leb_gt _ _) Hlt).
    + rewrite Stamped.ins_perm. simpl. constructor; [|by apply Stamped.NoDup_drop_key].
      rewrite Stamped.elem_drop_key. naive_solver.
    + rewrite Stamped.ins_perm. apply elem_of_cons. by left.
Qed.

(** The entry is found old by [has], and [get] returns it all the same. *)
Lemma access_get_ignores_age_witness :
  let time := fun n => if (n <=? 2)%nat then 0 else 30000 in
  let S := Expire.access_strategy Z Z time in
  let c := snd (run S [Add 1 10; Has 1]
      (construct S {| Expire._expireTime := 25000; Expire._keys := ∅; Expire._keyIndex := Nodes.none |})) in
  fst (doHas S 1 c) = Done false /\ fst (doGet S 1 c) = Done (Some 10).
Proof.
  intros time S c.
  destruct (access_get_ignores_age time 25
    {| Expire._expireTime := 25000; Expire._keys := ∅; Expire._keyIndex := Nodes.none |}
    [Add 1 10; Has 1] [Nothing; Flag true] c 1 10 eq_refl) as (it & t & Hit & Hf & Hh & Hg).
  - apply injective_projections; [vm_compute; reflexivity|reflexivity].
  - vm_compute. reflexivity.
  - split; [|apply Hg; vm_compute; reflexivity].
    vm_compute in Hit. injection Hit as <-. vm_compute in Hf. injection Hf as <-. exact Hh.
Defined.
