(* ===== verification/Json.v ===== *)
(** JSON: Parser.h, Parser.cpp, Handler.h, ParseHandler, PrintHandler,
    Stringifier and the parts of Object and Array they use.

    [Parser] is a table driven state machine with a stack of modes that calls
    a [Handler] as it recognises the text; the handlers are records of one
    operation per call.  [ParseHandler] builds objects and arrays behind
    shared pointers: the model has the heap they point into.  The conversion
    of floating point numbers is a parameter. *)

From S2P Require Import Prelude Strings NumericString Encodings.

Open Scope st_scope.

(** ** Codes of Parser.h *)
Module Codes.

(* Classes *)
Definition C_SPACE : Z := 0.
Definition C_WHITE : Z := 1.
Definition C_LCURB : Z := 2.
Definition C_RCURB : Z := 3.
Definition C_LSQRB : Z := 4.
Definition C_RSQRB : Z := 5.
Definition C_COLON : Z := 6.
Definition C_COMMA : Z := 7.
Definition C_QUOTE : Z := 8.
Definition C_BACKS : Z := 9.
Definition C_SLASH : Z := 10.
Definition C_PLUS : Z := 11.
Definition C_MINUS : Z := 12.
Definition C_POINT : Z := 13.
Definition C_ZERO : Z := 14.
Definition C_DIGIT : Z := 15.
Definition C_LOW_A : Z := 16.
Definition C_LOW_B : Z := 17.
Definition C_LOW_C : Z := 18.
Definition C_LOW_D : Z := 19.
Definition C_LOW_E : Z := 20.
Definition C_LOW_F : Z := 21.
Definition C_LOW_L : Z := 22.
Definition C_LOW_N : Z := 23.
Definition C_LOW_R : Z := 24.
Definition C_LOW_S : Z := 25.
Definition C_LOW_T : Z := 26.
Definition C_LOW_U : Z := 27.
Definition C_ABCDF : Z := 28.
Definition C_E : Z := 29.
Definition C_ETC : Z := 30.
Definition C_STAR : Z := 31.
Definition NR_CLASSES : Z := 32.

(* States *)
Definition GO : Z := 0.
Definition OK : Z := 1.
Definition OB : Z := 2.
Definition KE : Z := 3.
Definition CO : Z := 4.
Definition VA : Z := 5.
Definition AR : Z := 6.
Definition ST_ : Z := 7.
Definition EC : Z := 8.
Definition U1 : Z := 9.
Definition U2 : Z := 10.
Definition U3 : Z := 11.
Definition U4 : Z := 12.
Definition MI : Z := 13.
Definition ZE : Z := 14.
Definition IT : Z := 15.
Definition FR : Z := 16.
Definition E1 : Z := 17.
Definition E2 : Z := 18.
Definition E3 : Z := 19.
Definition T1 : Z := 20.
Definition T2 : Z := 21.
Definition T3 : Z := 22.
Definition F1 : Z := 23.
Definition F2 : Z := 24.
Definition F3 : Z := 25.
Definition F4 : Z := 26.
Definition N1 : Z := 27.
Definition N2 : Z := 28.
Definition N3 : Z := 29.
Definition C1 : Z := 30.
Definition C2 : Z := 31.
Definition C3 : Z := 32.
Definition FX : Z := 33.
Definition D1 : Z := 34.
Definition D2 : Z := 35.
Definition NR_STATES : Z := 36.

(* Modes *)
Definition MODE_ARRAY : Z := 1.
Definition MODE_DONE : Z := 2.
Definition MODE_KEY : Z := 3.
Definition MODE_OBJECT : Z := 4.

(* Actions *)
Definition CB : Z := -10.
Definition CE : Z := -11.
Definition FA : Z := -12.
Definition TR : Z := -13.
Definition NU : Z := -14.
Definition DE : Z := -15.
Definition DF : Z := -16.
Definition SB : Z := -17.
Definition MX : Z := -18.
Definition ZX : Z := -19.
Definition IX : Z := -20.
Definition EX : Z := -21.
Definition UC : Z := -22.

Definition xx : Z := -1.

Definition _asciiClass : list Z :=
  [xx; xx; xx; xx; xx; xx; xx; xx;
   xx; C_WHITE; C_WHITE; xx; xx; C_WHITE; xx; xx;
   xx; xx; xx; xx; xx; xx; xx; xx;
   xx; xx; xx; xx; xx; xx; xx; xx;
   C_SPACE; C_ETC; C_QUOTE; C_ETC; C_ETC; C_ETC; C_ETC; C_ETC;
   C_ETC; C_ETC; C_STAR; C_PLUS; C_COMMA; C_MINUS; C_POINT; C_SLASH;
   C_ZERO; C_DIGIT; C_DIGIT; C_DIGIT; C_DIGIT; C_DIGIT; C_DIGIT; C_DIGIT;
   C_DIGIT; C_DIGIT; C_COLON; C_ETC; C_ETC; C_ETC; C_ETC; C_ETC;
   C_ETC; C_ABCDF; C_ABCDF; C_ABCDF; C_ABCDF; C_E; C_ABCDF; C_ETC;
   C_ETC; C_ETC; C_ETC; C_ETC; C_ETC; C_ETC; C_ETC; C_ETC;
   C_ETC; C_ETC; C_ETC; C_ETC; C_ETC; C_ETC; C_ETC; C_ETC;
   C_ETC; C_ETC; C_ETC; C_LSQRB; C_BACKS; C_RSQRB; C_ETC; C_ETC;
   C_ETC; C_LOW_A; C_LOW_B; C_LOW_C; C_LOW_D; C_LOW_E; C_LOW_F; C_ETC;
   C_ETC; C_ETC; C_ETC; C_ETC; C_LOW_L; C_ETC; C_LOW_N; C_ETC;
   C_ETC; C_ETC; C_LOW_R; C_LOW_S; C_LOW_T; C_LOW_U; C_ETC; C_ETC;
   C_ETC; C_ETC; C_ETC; C_LCURB; C_ETC; C_RCURB; C_ETC; C_ETC].

Definition _stateTransitionTable : list (list Z) :=
  [(* GO *) [GO; GO; -6; xx; -5; xx; xx; xx; xx; xx; CB; xx; xx; xx; xx; xx; xx; xx; xx; xx; xx; xx; xx; xx; xx; xx; xx; xx; xx; xx; xx; xx];
   (* OK *) [OK; OK; xx; -8; xx; -7; xx; -3; xx; xx; CB; xx; xx; xx; xx; xx; xx; xx; xx; xx; xx; xx; xx; xx; xx; xx; xx; xx; xx; xx; xx; xx];
   (* OB *) [OB; OB; xx; -9; xx; xx; xx; xx; SB; xx; CB; xx; xx; xx; xx; xx; xx; xx; xx; xx; xx; xx; xx; xx; xx; xx; xx; xx; xx; xx; xx; xx];
   (* KE *) [KE; KE; xx; xx; xx; xx; xx; xx; SB; xx; CB; xx; xx; xx; xx; xx; xx; xx; xx; xx; xx; xx; xx; xx; xx; xx; xx; xx; xx; xx; xx; xx];
   (* CO *) [CO; CO; xx; xx; xx; xx; -2; xx; xx; xx; CB; xx; xx; xx; xx; xx; xx; xx; xx; xx; xx; xx; xx; xx; xx; xx; xx; xx; xx; xx; xx; xx];
   (* VA *) [VA; VA; -6; xx; -5; xx; xx; xx; SB; xx; CB; xx; MX; xx; ZX; IX; xx; xx; xx; xx; xx; FA; xx; NU; xx; xx; TR; xx; xx; xx; xx; xx];
   (* AR *) [AR; AR; -6; xx; -5; -7; xx; xx; SB; xx; CB; xx; MX; xx; ZX; IX; xx; xx; xx; xx; xx; FA; xx; NU; xx; xx; TR; xx; xx; xx; xx; xx];
   (* ST_ *) [ST_; xx; ST_; ST_; ST_; ST_; ST_; ST_; -4; EX; ST_; ST_; ST_; ST_; ST_; ST_; ST_; ST_; ST_; ST_; ST_; ST_; ST_; ST_; ST_; ST_; ST_; ST_; ST_; ST_; ST_; ST_];
   (* EC *) [xx; xx; xx; xx; xx; xx; xx; xx; ST_; ST_; ST_; xx; xx; xx; xx; xx; xx; ST_; xx; xx; xx; ST_; xx; ST_; ST_; xx; ST_; U1; xx; xx; xx; xx];
   (* U1 *) [xx; xx; xx; xx; xx; xx; xx; xx; xx; xx; xx; xx; xx; xx; U2; U2; U2; U2; U2; U2; U2; U2; xx; xx; xx; xx; xx; xx; U2; U2; xx; xx];
   (* U2 *) [xx; xx; xx; xx; xx; xx; xx; xx; xx; xx; xx; xx; xx; xx; U3; U3; U3; U3; U3; U3; U3; U3; xx; xx; xx; xx; xx; xx; U3; U3; xx; xx];
   (* U3 *) [xx; xx; xx; xx; xx; xx; xx; xx; xx; xx; xx; xx; xx; xx; U4; U4; U4; U4; U4; U4; U4; U4; xx; xx; xx; xx; xx; xx; U4; U4; xx; xx];
   (* U4 *) [xx; xx; xx; xx; xx; xx; xx; xx; xx; xx; xx; xx; xx; xx; UC; UC; UC; UC; UC; UC; UC; UC; xx; xx; xx; xx; xx; xx; UC; UC; xx; xx];
   (* MI *) [xx; xx; xx; xx; xx; xx; xx; xx; xx; xx; xx; xx; xx; xx; ZE; IT; xx; xx; xx; xx; xx; xx; xx; xx; xx; xx; xx; xx; xx; xx; xx; xx];
   (* ZE *) [OK; OK; xx; -8; xx; -7; xx; -3; xx; xx; CB; xx; xx; DF; xx; xx; xx; xx; xx; xx; xx; xx; xx; xx; xx; xx; xx; xx; xx; xx; xx; xx];
   (* IT *) [OK; OK; xx; -8; xx; -7; xx; -3; xx; xx; CB; xx; xx; DF; IT; IT; xx; xx; xx; xx; DE; xx; xx; xx; xx; xx; xx; xx; xx; DE; xx; xx];
   (* FR *) [OK; OK; xx; -8; xx; -7; xx; -3; xx; xx; CB; xx; xx; xx; FR; FR; xx; xx; xx; xx; E1; xx; xx; xx; xx; xx; xx; xx; xx; E1; xx; xx];
   (* E1 *) [xx; xx; xx; xx; xx; xx; xx; xx; xx; xx; xx; E2; E2; xx; E3; E3; xx; xx; xx; xx; xx; xx; xx; xx; xx; xx; xx; xx; xx; xx; xx; xx];
   (* E2 *) [xx; xx; xx; xx; xx; xx; xx; xx; xx; xx; xx; xx; xx; xx; E3; E3; xx; xx; xx; xx; xx; xx; xx; xx; xx; xx; xx; xx; xx; xx; xx; xx];
   (* E3 *) [OK; OK; xx; -8; xx; -7; xx; -3; xx; xx; xx; xx; xx; xx; E3; E3; xx; xx; xx; xx; xx; xx; xx; xx; xx; xx; xx; xx; xx; xx; xx; xx];
   (* T1 *) [xx; xx; xx; xx; xx; xx; xx; xx; xx; xx; xx; xx; xx; xx; xx; xx; xx; xx; xx; xx; xx; xx; xx; xx; T2; xx; xx; xx; xx; xx; xx; xx];
   (* T2 *) [xx; xx; xx; xx; xx; xx; xx; xx; xx; xx; xx; xx; xx; xx; xx; xx; xx; xx; xx; xx; xx; xx; xx; xx; xx; xx; xx; T3; xx; xx; xx; xx];
   (* T3 *) [xx; xx; xx; xx; xx; xx; xx; xx; xx; xx; CB; xx; xx; xx; xx; xx; xx; xx; xx; xx; OK; xx; xx; xx; xx; xx; xx; xx; xx; xx; xx; xx];
   (* F1 *) [xx; xx; xx; xx; xx; xx; xx; xx; xx; xx; xx; xx; xx; xx; xx; xx; F2; xx; xx; xx; xx; xx; xx; xx; xx; xx; xx; xx; xx; xx; xx; xx];
   (* F2 *) [xx; xx; xx; xx; xx; xx; xx; xx; xx; xx; xx; xx; xx; xx; xx; xx; xx; xx; xx; xx; xx; xx; F3; xx; xx; xx; xx; xx; xx; xx; xx; xx];
   (* F3 *) [xx; xx; xx; xx; xx; xx; xx; xx; xx; xx; xx; xx; xx; xx; xx; xx; xx; xx; xx; xx; xx; xx; xx; xx; xx; F4; xx; xx; xx; xx; xx; xx];
   (* F4 *) [xx; xx; xx; xx; xx; xx; xx; xx; xx; xx; CB; xx; xx; xx; xx; xx; xx; xx; xx; xx; OK; xx; xx; xx; xx; xx; xx; xx; xx; xx; xx; xx];
   (* N1 *) [xx; xx; xx; xx; xx; xx; xx; xx; xx; xx; xx; xx; xx; xx; xx; xx; xx; xx; xx; xx; xx; xx; xx; xx; xx; xx; xx; N2; xx; xx; xx; xx];
   (* N2 *) [xx; xx; xx; xx; xx; xx; xx; xx; xx; xx; xx; xx; xx; xx; xx; xx; xx; xx; xx; xx; xx; xx; N3; xx; xx; xx; xx; xx; xx; xx; xx; xx];
   (* N3 *) [xx; xx; xx; xx; xx; xx; xx; xx; xx; xx; CB; xx; xx; xx; xx; xx; xx; xx; xx; xx; xx; xx; OK; xx; xx; xx; xx; xx; xx; xx; xx; xx];
   (* C1 *) [xx; xx; xx; xx; xx; xx; xx; xx; xx; xx; xx; xx; xx; xx; xx; xx; xx; xx; xx; xx; xx; xx; xx; xx; xx; xx; xx; xx; xx; xx; xx; C2];
   (* C2 *) [C2; C2; C2; C2; C2; C2; C2; C2; C2; C2; C2; C2; C2; C2; C2; C2; C2; C2; C2; C2; C2; C2; C2; C2; C2; C2; C2; C2; C2; C2; C2; C3];
   (* C3 *) [C2; C2; C2; C2; C2; C2; C2; C2; C2; C2; CE; C2; C2; C2; C2; C2; C2; C2; C2; C2; C2; C2; C2; C2; C2; C2; C2; C2; C2; C2; C2; C3];
   (* FX *) [OK; OK; xx; -8; xx; -7; xx; -3; xx; xx; xx; xx; xx; xx; FR; FR; xx; xx; xx; xx; E1; xx; xx; xx; xx; xx; xx; xx; xx; E1; xx; xx];
   (* D1 *) [xx; xx; xx; xx; xx; xx; xx; xx; xx; D2; xx; xx; xx; xx; xx; xx; xx; xx; xx; xx; xx; xx; xx; xx; xx; xx; xx; xx; xx; xx; xx; xx];
   (* D2 *) [xx; xx; xx; xx; xx; xx; xx; xx; xx; xx; xx; xx; xx; xx; xx; xx; xx; xx; xx; xx; xx; xx; xx; xx; xx; xx; xx; U1; xx; xx; xx; xx]].
End Codes.

(** ** Values and handlers *)

(** The overloads of [Handler::value]. *)
Inductive scalar {double : Type} :=
| VInt (v : Z)
| VUInt (v : Z)
| VInt64 (v : Z)
| VUInt64 (v : Z)
| VDouble (d : double)
| VBool (b : bool)
| VString (s : list Z).
Arguments scalar : clear implicits.

(** A [Dynamic::Var] as the handlers use it; the pointers are node numbers. *)
Inductive Var {double : Type} :=
| VEmpty
| VScalar (v : scalar double)
| VObject (p : nat)
| VArray (p : nat).
Arguments Var : clear implicits.

(** The calls of a [Handler]; [Value] carries the overload in its constructor. *)
Inductive event {double : Type} :=
| StartObject
| EndObject
| StartArray
| EndArray
| Key (k : list Z)
| Null
| Value (v : scalar double).
Arguments event : clear implicits.

Record Handler (double : Type) := {
  hstate : Type;
  on : event double -> ST hstate unit;
  h_reset : ST hstate unit;
  h_asVar : hstate -> Var double
}.
Arguments hstate {double} _.
Arguments on {double} _ _.
Arguments h_reset {double} _.
Arguments h_asVar {double} _ _.

(** [catch (const SyntaxException&)], the derived exceptions included. *)
Definition catch_syntax {S A} (m h : ST S A) : ST S A := fun s =>
  match m s with
  | (Raise SyntaxException, s') | (Raise URISyntaxException, s') | (Raise PathSyntaxException, s') => h s'
  | r => r
  end.

(** ** Parser *)
Module Parser.
Import Codes.
Section Parser.
Context {double : Type} (parseFloat : list Z -> res double).   (* NumberParser::parseFloat *)
Context (handler : Handler double).

Inductive JSONType := T_NONE | T_INTEGER | T_FLOAT | T_NULL | T_TRUE | T_FALSE | T_STRING.

Definition type_eqb (a b : JSONType) : bool :=
  match a, b with
  | T_NONE, T_NONE | T_INTEGER, T_INTEGER | T_FLOAT, T_FLOAT | T_NULL, T_NULL
  | T_TRUE, T_TRUE | T_FALSE, T_FALSE | T_STRING, T_STRING => true
  | _, _ => false
  end.

(** [_pHandler] is empty for a null pointer; [_stack] has its size. *)
Record Parser_ := {
  _pHandler : option (hstate handler);
  _state : Z;
  _beforeCommentState : Z;
  _type : JSONType;
  _escaped : bool;
  _comment : bool;
  _utf16HighSurrogate : Z;
  _depth : Z;
  _top : Z;
  _stack : list Z;
  _parseBuffer : list Z;
  _allowNullByte : bool;
  _allowComments : bool
}.

(** Assignments to the members. *)
Definition set_handler (h : option (hstate handler)) (p : Parser_) : Parser_ :=
  Build_Parser_ h (_state p) (_beforeCommentState p) (_type p) (_escaped p) (_comment p)
    (_utf16HighSurrogate p) (_depth p) (_top p) (_stack p) (_parseBuffer p) (_allowNullByte p) (_allowComments p).
Definition set_state (s : Z) (p : Parser_) : Parser_ :=
  Build_Parser_ (_pHandler p) s (_beforeCommentState p) (_type p) (_escaped p) (_comment p)
    (_utf16HighSurrogate p) (_depth p) (_top p) (_stack p) (_parseBuffer p) (_allowNullByte p) (_allowComments p).
Definition set_before (s : Z) (p : Parser_) : Parser_ :=
  Build_Parser_ (_pHandler p) (_state p) s (_type p) (_escaped p) (_comment p)
    (_utf16HighSurrogate p) (_depth p) (_top p) (_stack p) (_parseBuffer p) (_allowNullByte p) (_allowComments p).
Definition set_type (t : JSONType) (p : Parser_) : Parser_ :=
  Build_Parser_ (_pHandler p) (_state p) (_beforeCommentState p) t (_escaped p) (_comment p)
    (_utf16HighSurrogate p) (_depth p) (_top p) (_stack p) (_parseBuffer p) (_allowNullByte p) (_allowComments p).
Definition set_escaped (b : bool) (p : Parser_) : Parser_ :=
  Build_Parser_ (_pHandler p) (_state p) (_beforeCommentState p) (_type p) b (_comment p)
    (_utf16HighSurrogate p) (_depth p) (_top p) (_stack p) (_parseBuffer p) (_allowNullByte p) (_allowComments p).
Definition set_comment (b : bool) (p : Parser_) : Parser_ :=
  Build_Parser_ (_pHandler p) (_state p) (_beforeCommentState p) (_type p) (_escaped p) b
    (_utf16HighSurrogate p) (_depth p) (_top p) (_stack p) (_parseBuffer p) (_allowNullByte p) (_allowComments p).
Definition set_high (u : Z) (p : Parser_) : Parser_ :=
  Build_Parser_ (_pHandler p) (_state p) (_beforeCommentState p) (_type p) (_escaped p) (_comment p)
    u (_depth p) (_top p) (_stack p) (_parseBuffer p) (_allowNullByte p) (_allowComments p).
Definition set_top (t : Z) (p : Parser_) : Parser_ :=
  Build_Parser_ (_pHandler p) (_state p) (_beforeCommentState p) (_type p) (_escaped p) (_comment p)
    (_utf16HighSurrogate p) (_depth p) t (_stack p) (_parseBuffer p) (_allowNullByte p) (_allowComments p).
Definition set_stack (l : list Z) (p : Parser_) : Parser_ :=
  Build_Parser_ (_pHandler p) (_state p) (_beforeCommentState p) (_type p) (_escaped p) (_comment p)
    (_utf16HighSurrogate p) (_depth p) (_top p) l (_parseBuffer p) (_allowNullByte p) (_allowComments p).
Definition set_buffer (b : list Z) (p : Parser_) : Parser_ :=
  Build_Parser_ (_pHandler p) (_state p) (_beforeCommentState p) (_type p) (_escaped p) (_comment p)
    (_utf16HighSurrogate p) (_depth p) (_top p) (_stack p) b (_allowNullByte p) (_allowComments p).

(** [if (_pHandler) _pHandler->f(...)] *)
Definition call (e : event double) : ST Parser_ unit := fun p =>
  match _pHandler p with
  | None => (Done tt, p)
  | Some h => let '(r, h') := on handler e h in (r, set_handler (Some h') p)
  end.

(** [_stack[_top]], checked by [Buffer::operator []]. *)
Definition stack_top : ST Parser_ Z :=
  let* p := get in
  if _top p <? 0 then throw AssertionViolationException
  else match _stack p !! Z.to_nat (_top p) with
       | Some m => ret m
       | None => throw AssertionViolationException
       end.

Definition push (mode : Z) : ST Parser_ bool :=
  do* modify (fun p => set_top (_top p + 1) p);
  let* p := get in
  let size := Z.of_nat (length (_stack p)) in
  if (0 <=? _depth p) && (_depth p <=? _top p) then ret false
  else
    do* (if (_depth p <? 0) && (size <=? _top p)
         then modify (fun p => set_stack (_stack p ++ replicate (length (_stack p)) 0) p)
         else ret tt);
    let* p := get in
    do* poco_assert ((0 <=? _top p) && (_top p <? Z.of_nat (length (_stack p))));
    do* modify (fun p => set_stack (<[Z.to_nat (_top p) := mode]> (_stack p)) p);
    ret true.

Definition pop (mode : Z) : ST Parser_ bool :=
  let* p := get in
  if _top p <? 0 then ret false
  else
    let* m := stack_top in
    if negb (m =? mode) then ret false
    else do* modify (fun p => set_top (_top p - 1) p); ret true.

Definition clearBuffer : ST Parser_ unit := modify (set_buffer []).

Definition parseBufferPopBackChar : ST Parser_ unit :=
  let* p := get in
  do* poco_assert (1 <=? length (_parseBuffer p))%nat;
  modify (fun p => set_buffer (removelast (_parseBuffer p)) p).

Definition parseBufferPushBackChar (c : Z) : ST Parser_ unit :=
  modify (fun p => set_buffer (_parseBuffer p ++ [c]) p).

(** The replacement of the character behind a backslash. *)
Definition escape (nextChar : Z) : list Z :=
  if nextChar =? chr "b" then [8]
  else if nextChar =? chr "f" then [12]
  else if nextChar =? chr "n" then [10]
  else if nextChar =? chr "r" then [13]
  else if nextChar =? chr "t" then [9]
  else if nextChar =? 34 then [34]
  else if nextChar =? 92 then [92]
  else if nextChar =? chr "/" then [chr "/"]
  else if nextChar =? chr "u" then [92; chr "u"]
  else [].

Definition addEscapedCharToParseBuffer (nextChar : Z) : ST Parser_ unit :=
  do* modify (set_escaped false);
  do* parseBufferPopBackChar;
  modify (fun p => set_buffer (_parseBuffer p ++ escape nextChar) p).

Definition addCharToParseBuffer (nextChar nextClass : Z) : ST Parser_ unit :=
  let* p := get in
  if _escaped p then addEscapedCharToParseBuffer nextChar
  else if negb (_comment p) then
    if negb (type_eqb (_type p) T_NONE) || negb ((nextClass =? C_SPACE) || (nextClass =? C_WHITE))
    then parseBufferPushBackChar nextChar
    else ret tt
  else ret tt.

(** [(unsigned) char] of a hexadecimal digit and its value. *)
Definition hex_digit (c : Z) : Z :=
  let x := if c <? 128 then c else u32 (c - 256) in
  if chr "a" <=? x then x - (chr "a" - 10)
  else if chr "A" <=? x then x - (chr "A" - 10)
  else Z.land x (2 ^ 32 - 1 - 0x30).

Definition IS_HIGH_SURROGATE (uc : Z) : bool := Z.land uc 0xFC00 =? 0xD800.
Definition IS_LOW_SURROGATE (uc : Z) : bool := Z.land uc 0xFC00 =? 0xDC00.
Definition DECODE_SURROGATE_PAIR (hi lo : Z) : Z :=
  Z.shiftl (Z.land hi 0x3FF) 10 + Z.land lo 0x3FF + 0x10000.
Definition utf8_lead_bits : list Z := [0x00; 0xC0; 0xE0; 0xF0].

(** The bytes appended for a character with [trail_bytes] trailing bytes. *)
Definition utf8_bytes (uc : Z) (trail_bytes : nat) : list Z :=
  u8 (Z.lor (Z.shiftr uc (Z.of_nat trail_bytes * 6)) (nth trail_bytes utf8_lead_bits 0))
  :: map (fun j => Z.lor (Z.land (Z.shiftr uc (Z.of_nat j * 6)) 0x3F) 0x80) (rev (seq 0 trail_bytes)).

(** The result [false] is the return value 0. *)
Definition decodeUnicodeChar : ST Parser_ bool :=
  let* p := get in
  let n := length (_parseBuffer p) in
  do* poco_assert (6 <=? n)%nat;
  let xs := map hex_digit (drop (n - 4) (_parseBuffer p)) in
  do* poco_assert (forallb (fun x => x <? 16) xs);
  let uc := foldl (fun uc x => Z.lor (Z.shiftl uc 4) x) 0 xs in
  if negb (_allowNullByte p) && (uc =? 0) then ret false
  else
    do* modify (set_buffer (take (n - 6) (_parseBuffer p)));
    let append uc trail :=
      do* modify (fun p => set_buffer (_parseBuffer p ++ utf8_bytes uc trail) p); ret true in
    if negb (_utf16HighSurrogate p =? 0) then
      if IS_LOW_SURROGATE uc then
        do* modify (set_high 0);
        append (DECODE_SURROGATE_PAIR (_utf16HighSurrogate p) uc) 3%nat
      else ret false
    else if uc <? 0x80 then append uc 0%nat
    else if uc <? 0x800 then append uc 1%nat
    else if IS_HIGH_SURROGATE uc then do* modify (set_high uc); ret true
    else if IS_LOW_SURROGATE uc then ret false
    else append uc 2%nat.

(** The conversions of an integer, with the overload that is called. *)
Definition integer_value (s : list Z) : ST Parser_ unit :=
  catch_syntax
    (let* v := lift (NumericString.Parser.parse64 s (chr ",")) in
     call (Value (if (2 ^ 31 - 1 <? v) || (v <? - 2 ^ 31) then VInt64 v else VInt v)))
    (let* v := lift (NumericString.Parser.parseUnsigned64 s (chr ",")) in
     call (Value (if 2 ^ 32 - 1 <? v then VUInt64 v else VUInt v))).

Definition parseBuffer : ST Parser_ unit :=
  let* p := get in
  let buf := _parseBuffer p in
  do* (match _pHandler p with
       | None => ret tt
       | Some _ =>
           match _type p with
           | T_NONE => ret tt
           | T_TRUE => call (Value (VBool true))
           | T_FALSE => call (Value (VBool false))
           | T_NULL => call Null
           | T_FLOAT =>
               do* poco_assert (1 <=? length buf)%nat;
               if nth (length buf - 1) buf 0 =? chr "." then throw SyntaxException
               else let* d := lift (parseFloat buf) in call (Value (VDouble d))
           | T_INTEGER => integer_value buf
           | T_STRING => call (Value (VString buf))
           end
       end);
  clearBuffer.

Definition utf8CheckFirst (u : Z) : nat :=
  if u <? 0x80 then 1
  else if (0x80 <=? u) && (u <=? 0xBF) then 0
  else if (u =? 0xC0) || (u =? 0xC1) then 0
  else if (0xC2 <=? u) && (u <=? 0xDF) then 2
  else if (0xE0 <=? u) && (u <=? 0xEF) then 3
  else if (0xF0 <=? u) && (u <=? 0xF4) then 4
  else 0.

(** [if (!push(mode)) return false;] and the like in front of the rest of a case. *)
Definition when (m : ST Parser_ bool) (k : ST Parser_ bool) : ST Parser_ bool :=
  let* ok := m in if ok then k else ret false.

Definition type_is (t : JSONType) : ST Parser_ unit :=
  let* p := get in poco_assert (type_eqb (_type p) t).
Definition type_is_not (t : JSONType) : ST Parser_ unit :=
  let* p := get in poco_assert (negb (type_eqb (_type p) t)).

Definition assertNotStringNullBool : ST Parser_ unit :=
  let* p := get in
  poco_assert (match _type p with T_FALSE | T_TRUE | T_NULL | T_STRING => false | _ => true end).

(** [_type = t; _state = s; break;] *)
Definition enter (t : JSONType) (s : Z) : ST Parser_ bool :=
  do* modify (set_type t);
  do* modify (set_state s);
  ret true.

(** The switch over the actions. *)
Definition action (nextState : Z) : ST Parser_ bool :=
  if nextState =? UC then
    when decodeUnicodeChar
      (let* p := get in
       do* modify (set_state (if negb (_utf16HighSurrogate p =? 0) then D1 else ST_)); ret true)
  else if nextState =? EX then
    do* modify (set_escaped true); do* modify (set_state EC); ret true
  else if nextState =? MX then enter T_INTEGER MI
  else if nextState =? ZX then enter T_INTEGER ZE
  else if nextState =? IX then enter T_INTEGER IT
  else if nextState =? DE then do* assertNotStringNullBool; enter T_FLOAT E1
  else if nextState =? DF then do* assertNotStringNullBool; enter T_FLOAT FX
  else if nextState =? SB then do* clearBuffer; do* type_is T_NONE; enter T_STRING ST_
  else if nextState =? NU then do* type_is T_NONE; enter T_NULL N1
  else if nextState =? FA then do* type_is T_NONE; enter T_FALSE F1
  else if nextState =? TR then do* type_is T_NONE; enter T_TRUE T1
  else if nextState =? CE then
    do* modify (set_comment false);
    let* p := get in
    do* poco_assert (length (_parseBuffer p) =? 0)%nat;
    do* type_is T_NONE;
    do* modify (fun p => set_state (_beforeCommentState p) p);
    ret true
  else if nextState =? CB then
    let* p := get in
    if negb (_allowComments p) then ret false
    else
      do* parseBufferPopBackChar;
      do* parseBuffer;
      let* p := get in
      do* poco_assert (length (_parseBuffer p) =? 0)%nat;
      do* type_is_not T_STRING;
      let* m := stack_top in
      do* modify (fun p =>
            set_before (if (m =? MODE_ARRAY) || (m =? MODE_OBJECT)
                        then if (_state p =? VA) || (_state p =? AR) then _state p else OK
                        else _state p) p);
      do* modify (set_type T_NONE);
      do* modify (set_state C1);
      do* modify (set_comment true);
      ret true
  else if nextState =? -9 then
    do* clearBuffer;
    do* call EndObject;
    when (pop MODE_KEY) (do* modify (set_state OK); ret true)
  else if nextState =? -8 then
    do* parseBufferPopBackChar;
    do* parseBuffer;
    do* call EndObject;
    when (pop MODE_OBJECT) (enter T_NONE OK)
  else if nextState =? -7 then
    do* parseBufferPopBackChar;
    do* parseBuffer;
    do* call EndArray;
    when (pop MODE_ARRAY) (enter T_NONE OK)
  else if nextState =? -6 then
    do* parseBufferPopBackChar;
    do* call StartObject;
    when (push MODE_KEY) (do* type_is T_NONE; do* modify (set_state OB); ret true)
  else if nextState =? -5 then
    do* parseBufferPopBackChar;
    do* call StartArray;
    when (push MODE_ARRAY) (do* type_is T_NONE; do* modify (set_state AR); ret true)
  else if nextState =? -4 then
    do* parseBufferPopBackChar;
    let* m := stack_top in
    if m =? MODE_KEY then
      do* type_is T_STRING;
      do* modify (set_type T_NONE);
      do* modify (set_state CO);
      let* p := get in
      do* call (Key (_parseBuffer p));
      do* clearBuffer;
      ret true
    else if (m =? MODE_ARRAY) || (m =? MODE_OBJECT) then
      do* type_is T_STRING;
      do* parseBuffer;
      enter T_NONE OK
    else ret false
  else if nextState =? -3 then
    do* parseBufferPopBackChar;
    do* parseBuffer;
    let* m := stack_top in
    if m =? MODE_OBJECT then
      when (pop MODE_OBJECT) (when (push MODE_KEY) (do* type_is_not T_STRING; enter T_NONE KE))
    else if m =? MODE_ARRAY then do* type_is_not T_STRING; enter T_NONE VA
    else ret false
  else if nextState =? -2 then
    do* parseBufferPopBackChar;
    when (pop MODE_KEY) (when (push MODE_OBJECT)
      (do* type_is T_NONE; do* modify (set_state VA); ret true))
  else ret false.

(** [parseChar(c, source)]: the result and what is left of the source. *)
Definition parseChar (ch : Z) (source : list Z) : ST Parser_ (bool * list Z) :=
  let* p := get in
  if negb (_allowNullByte p) && (ch =? 0) then ret (false, source)
  else if 0x80 <=? ch then
    let count := utf8CheckFirst ch in
    if (count =? 0)%nat then throw JSONException
    else if (length source <? count - 1)%nat then throw JSONException
    else
      let buffer := ch :: take (count - 1) source in
      if negb (UTF8.isLegal buffer) then throw JSONException
      else
        do* modify (fun p => set_buffer (_parseBuffer p ++ buffer) p);
        ret (true, drop (count - 1) source)
  else
    let nextClass := nth (Z.to_nat ch) _asciiClass xx in
    if nextClass <=? xx then ret (false, source)
    else
      do* addCharToParseBuffer ch nextClass;
      let* p := get in
      let nextState := nth (Z.to_nat nextClass) (nth (Z.to_nat (_state p)) _stateTransitionTable []) xx in
      let* ok := (if 0 <=? nextState then do* modify (set_state nextState); ret true
                  else action nextState) in
      ret (ok, source).

(** [while (source.nextChar(c)) if (0 == parseChar(c, source)) throw e;] *)
Fixpoint parse_loop (fuel : nat) (e : exception) (source : list Z) : ST Parser_ unit :=
  match fuel with
  | O => fail_eof
  | S fuel =>
      match source with
      | [] => ret tt
      | c :: source =>
          let* r := parseChar c source in
          if fst r then parse_loop fuel e (snd r) else throw e
      end
  end.

Definition done : ST Parser_ bool :=
  let* p := get in if _state p =? OK then pop MODE_DONE else ret false.

Definition asVar (p : Parser_) : Var double :=
  match _pHandler p with Some h => h_asVar handler h | None => VEmpty end.

Definition parse_with (e : exception) (json : list Z) : ST Parser_ (Var double) :=
  do* parse_loop (S (length json)) e json;
  let* ok := done in
  if ok then let* p := get in ret (asVar p) else throw JSONException.

(** [parse(const std::string&)] and [parse(std::istream&)] *)
Definition parse (json : list Z) : ST Parser_ (Var double) := parse_with SyntaxException json.
Definition parse_stream (json : list Z) : ST Parser_ (Var double) := parse_with JSONException json.

Definition JSON_PARSER_STACK_SIZE : nat := 128.
Definition JSON_UNLIMITED_DEPTH : Z := -1.

(** A new [Parser(pHandler)]: [push(MODE_DONE)] succeeds. *)
Definition construct (h : option (hstate handler)) : Parser_ :=
  {| _pHandler := h; _state := GO; _beforeCommentState := 0; _type := T_NONE; _escaped := false;
     _comment := false; _utf16HighSurrogate := 0; _depth := JSON_UNLIMITED_DEPTH; _top := 0;
     _stack := MODE_DONE :: replicate (JSON_PARSER_STACK_SIZE - 1) 0; _parseBuffer := [];
     _allowNullByte := true; _allowComments := false |}.

Definition setDepth (depth : Z) (p : Parser_) : Parser_ :=
  Build_Parser_ (_pHandler p) (_state p) (_beforeCommentState p) (_type p) (_escaped p) (_comment p)
    (_utf16HighSurrogate p) depth (_top p) (_stack p) (_parseBuffer p) (_allowNullByte p) (_allowComments p).
Definition setAllowNullByte (b : bool) (p : Parser_) : Parser_ :=
  Build_Parser_ (_pHandler p) (_state p) (_beforeCommentState p) (_type p) (_escaped p) (_comment p)
    (_utf16HighSurrogate p) (_depth p) (_top p) (_stack p) (_parseBuffer p) b (_allowComments p).
Definition setAllowComments (b : bool) (p : Parser_) : Parser_ :=
  Build_Parser_ (_pHandler p) (_state p) (_beforeCommentState p) (_type p) (_escaped p) (_comment p)
    (_utf16HighSurrogate p) (_depth p) (_top p) (_stack p) (_parseBuffer p) (_allowNullByte p) b.

(** [_stack.clear()] writes zeros; [_comment] keeps its value. *)
Definition reset : ST Parser_ unit :=
  do* modify (set_state GO);
  do* modify (set_before 0);
  do* modify (set_type T_NONE);
  do* modify (set_escaped false);
  do* modify (set_high 0);
  do* modify (set_top (-1));
  do* modify (fun p => set_stack (replicate (length (_stack p)) 0) p);
  do* modify (set_buffer []);
  do* push MODE_DONE;
  fun p => match _pHandler p with
           | None => (Done tt, p)
           | Some h => let '(r, h') := h_reset handler h in (r, set_handler (Some h') p)
           end.
End Parser.
End Parser.

(** ** Objects, arrays and the default handler *)
(** [operator <] of std::string: lexicographic, on unsigned characters. *)
Fixpoint str_lt (a b : list Z) : bool :=
  match a, b with
  | _, [] => false
  | [], _ :: _ => true
  | x :: a, y :: b => if x <? y then true else if x =? y then str_lt a b else false
  end.

(** A [std::map] with string keys as its entries in order; [_values[key] = value] *)
Fixpoint map_set {A} (k : list Z) (v : A) (m : list (list Z * A)) : list (list Z * A) :=
  match m with
  | [] => [(k, v)]
  | (k', v') :: r =>
      if str_lt k k' then (k, v) :: m
      else if str_lt k' k then (k', v') :: map_set k v r
      else (k, v) :: r
  end.

Section Values.
Context {double : Type}.
Local Abbreviation var := (Var double).

(** What a shared pointer points to: an [Object] that does not preserve the
    insertion order, or an [Array]. *)
Inductive node :=
| ObjectNode (values : list (list Z * var))
| ArrayNode (values : list var).

Record ParseHandler_ := {
  ph_stack : list var;      (* std::stack<Var>, the top first *)
  ph_key : list Z;
  ph_result : var;
  ph_heap : list node
}.
End Values.
Arguments node : clear implicits.
Arguments ParseHandler_ : clear implicits.

Module ParseHandler.
Section Handler.
Context {double : Type}.
Local Abbreviation var := (Var double).
Local Abbreviation handler := (ParseHandler_ double).

(** [obj->set(key, value)] and [arr->add(value)] through a pointer. *)
Definition write (p : nat) (f : node double -> node double) : ST handler unit :=
  modify (fun h => {| ph_stack := ph_stack h; ph_key := ph_key h; ph_result := ph_result h;
                      ph_heap := alter f p (ph_heap h) |}).

Definition object_set (k : list Z) (v : var) (n : node double) : node double :=
  match n with ObjectNode m => ObjectNode (map_set k v m) | n => n end.

Definition array_add (v : var) (n : node double) : node double :=
  match n with ArrayNode l => ArrayNode (l ++ [v]) | n => n end.

Definition set_key (k : list Z) : ST handler unit :=
  modify (fun h => {| ph_stack := ph_stack h; ph_key := k; ph_result := ph_result h; ph_heap := ph_heap h |}).

(** [_stack.top()] of an empty stack is undefined. *)
Definition top : ST handler var :=
  let* h := get in match ph_stack h with v :: _ => ret v | [] => undef end.

Definition setValue (value : var) : ST handler unit :=
  let* parent := top in
  match parent with
  | VArray p => write p (array_add value)
  | VObject p => let* h := get in do* write p (object_set (ph_key h) value); set_key []
  | _ => ret tt
  end.

(** [new Object] or [new Array], the common text of startObject and startArray. *)
Definition start (n : node double) (ptr : nat -> var) : ST handler unit :=
  let* h := get in
  let v := ptr (length (ph_heap h)) in
  do* modify (fun h => {| ph_stack := ph_stack h; ph_key := ph_key h; ph_result := ph_result h;
                          ph_heap := ph_heap h ++ [n] |});
  do* (match ph_stack h with
       | [] => modify (fun h => {| ph_stack := ph_stack h; ph_key := ph_key h; ph_result := v;
                                   ph_heap := ph_heap h |})
       | _ => setValue v
       end);
  modify (fun h => {| ph_stack := v :: ph_stack h; ph_key := ph_key h; ph_result := ph_result h;
                      ph_heap := ph_heap h |}).

Definition startObject : ST handler unit := start (ObjectNode []) VObject.
Definition startArray : ST handler unit := start (ArrayNode []) VArray.

(** [_stack.pop()] of an empty stack is undefined. *)
Definition endContainer : ST handler unit :=
  let* h := get in
  match ph_stack h with
  | [] => undef
  | _ :: r => modify (fun h => {| ph_stack := r; ph_key := ph_key h; ph_result := ph_result h;
                                  ph_heap := ph_heap h |})
  end.

Definition endObject : ST handler unit := endContainer.
Definition endArray : ST handler unit := endContainer.
Definition key (k : list Z) : ST handler unit := set_key k.
Definition value (v : scalar double) : ST handler unit := setValue (VScalar v).
Definition null : ST handler unit := setValue VEmpty.

Definition reset : ST handler unit :=
  modify (fun h => {| ph_stack := []; ph_key := []; ph_result := VEmpty; ph_heap := ph_heap h |}).

Definition construct : handler :=
  {| ph_stack := []; ph_key := []; ph_result := VEmpty; ph_heap := [] |}.

Definition ParseHandler : Handler double :=
  {| hstate := handler;
     on e := match e with
             | StartObject => startObject
             | EndObject => endObject
             | StartArray => startArray
             | EndArray => endArray
             | Key k => key k
             | Null => null
             | Value v => value v
             end;
     h_reset := reset;
     h_asVar := ph_result |}.
End Handler.
End ParseHandler.

(** ** Stringifier *)
Module Stringifier.
Section Stringify.
Context {double : Type} (formatDouble : double -> list Z).   (* NumberFormatter::format(double) *)
Context (heap : list (node double)).

(** [std::hex << std::uppercase << std::setfill('0') << std::setw(4) << n] for [n < 32] *)
Definition hex4 (n : Z) : list Z :=
  [chr "0"; chr "0"; NumericString.digit_char (n / 16); NumericString.digit_char (n mod 16)].

Definition format_char (c : Z) : list Z :=
  if c =? 34 then [92; 34]
  else if c =? 92 then [92; 92]
  else if c =? 8 then [92; chr "b"]
  else if c =? 12 then [92; chr "f"]
  else if c =? 10 then [92; chr "n"]
  else if c =? 13 then [92; chr "r"]
  else if c =? 9 then [92; chr "t"]
  else if (0 <? c) && (c <=? 0x1F) then [92; chr "u"] ++ hex4 c
  else [c].

Definition formatString (value : list Z) : list Z :=
  34 :: concat (map format_char value) ++ [34].

Definition spaces (n : nat) : list Z := replicate n 32.

(** [formatString] of a string, [any.convert<std::string>()] of the other values. *)
Definition format_scalar (v : scalar double) : res (list Z) :=
  match v with
  | VInt z => NumericString.Formatter.format_int z
  | VUInt z => NumericString.Formatter.format_unsigned z
  | VInt64 z => NumericString.Formatter.format_Int64 z
  | VUInt64 z => NumericString.Formatter.format_UInt64 z
  | VDouble d => Done (formatDouble d)
  | VBool b => Done (if b then str "true" else str "false")
  | VString s => Done (formatString s)
  end.

(** The loops over the entries of an object and of an array; [f] prints a value. *)
Fixpoint object_entries (f : Var double -> res (list Z)) (indent step : nat)
    (m : list (list Z * Var double)) : res (list Z) :=
  match m with
  | [] => Done []
  | (k, v) :: r =>
      (let? t := f v in
       let? rest := object_entries f indent step r in
       Done (spaces indent ++ [34] ++ k ++ [34]
             ++ (if (0 <? indent)%nat then str " : " else str ":") ++ t
             ++ (match r with [] => [] | _ => str "," end)
             ++ (if (0 <? step)%nat then [10] else []) ++ rest))%res
  end.

Fixpoint array_entries (f : Var double -> res (list Z)) (indent step : nat)
    (l : list (Var double)) : res (list Z) :=
  match l with
  | [] => Done []
  | v :: r =>
      (let? t := f v in
       let? rest := array_entries f indent step r in
       Done (spaces indent ++ t
             ++ (match r with [] => [] | _ => str "," ++ (if (0 <? step)%nat then [10] else []) end)
             ++ rest))%res
  end.

(** [if (indent >= step) indent -= step;] *)
Definition outdent (indent step : nat) : nat := if (step <=? indent)%nat then indent - step else indent.

(** [Stringifier::stringify(any, out, indent, step)] with [step >= 0], through
    [Object::stringify] and [Array::stringify]; [fuel] bounds the nesting. *)
Fixpoint stringify_at (fuel : nat) (any : Var double) (indent step : nat) : res (list Z) :=
  match fuel with
  | O => Eof
  | S fuel =>
      match any with
      | VObject p =>
          match heap !! p with
          | Some (ObjectNode m) =>
              (let? t := object_entries (fun v => stringify_at fuel v (indent + step) step) indent step m in
               Done (str "{" ++ (if (0 <? indent)%nat then [10] else []) ++ t
                     ++ spaces (outdent indent step) ++ str "}"))%res
          | _ => UB
          end
      | VArray p =>
          match heap !! p with
          | Some (ArrayNode l) =>
              (let? t := array_entries (fun v => stringify_at fuel v (indent + step) step) indent step l in
               Done (str "[" ++ (if (0 <? indent)%nat then [10] else []) ++ t
                     ++ (if (0 <? step)%nat then [10] else [])
                     ++ spaces (outdent indent step) ++ str "]"))%res
          | _ => UB
          end
      | VEmpty => Done (str "null")
      | VScalar v => format_scalar v
      end
  end.

(** [stringify(any, out, indent)]: [step == -1] becomes [indent]. *)
Definition stringify (fuel : nat) (any : Var double) (indent : nat) : res (list Z) :=
  stringify_at fuel any indent indent.
End Stringify.
End Stringifier.

(** ** PrintHandler *)
Module PrintHandler.
Section Print.
Context {double : Type} (put_double : double -> list Z).   (* operator << (std::ostream&, double) *)

(** [_out] is what was written and the number base: the manipulator
    [std::hex] of [Stringifier::formatString] stays in effect. *)
Record PrintHandler_ := {
  out : list Z;
  hex : bool;
  _indent : nat;
  _tab : list Z;
  _array : bool;
  _value : bool
}.

Definition JSON_PRINT_FLAT : nat := 0.

Definition write (s : list Z) : ST PrintHandler_ unit :=
  modify (fun h => {| out := out h ++ s; hex := hex h; _indent := _indent h; _tab := _tab h;
                      _array := _array h; _value := _value h |}).
Definition set_hex : ST PrintHandler_ unit :=
  modify (fun h => {| out := out h; hex := true; _indent := _indent h; _tab := _tab h;
                      _array := _array h; _value := _value h |}).
Definition set_tab (f : list Z -> list Z) : ST PrintHandler_ unit :=
  modify (fun h => {| out := out h; hex := hex h; _indent := _indent h; _tab := f (_tab h);
                      _array := _array h; _value := _value h |}).
Definition set_array (b : bool) : ST PrintHandler_ unit :=
  modify (fun h => {| out := out h; hex := hex h; _indent := _indent h; _tab := _tab h;
                      _array := b; _value := _value h |}).
Definition set_value (b : bool) : ST PrintHandler_ unit :=
  modify (fun h => {| out := out h; hex := hex h; _indent := _indent h; _tab := _tab h;
                      _array := _array h; _value := b |}).

Definition construct (indent : nat) : PrintHandler_ :=
  {| out := []; hex := false; _indent := indent; _tab := []; _array := false; _value := false |}.

Definition reset : ST PrintHandler_ unit :=
  do* set_tab (fun _ => []); do* set_array false; set_value false.

Definition printFlat (h : PrintHandler_) : bool := (_indent h =? JSON_PRINT_FLAT)%nat.
Definition endLine (h : PrintHandler_) : list Z := if negb (printFlat h) then [10] else [].
Definition indent (h : PrintHandler_) : nat := if negb (printFlat h) then _indent h else 0.

(** [operator <<] of an integer of [bits] bits. *)
Fixpoint digits (fuel : nat) (base n : Z) (acc : list Z) : list Z :=
  match fuel with
  | O => acc
  | S fuel =>
      let acc := NumericString.digit_char (n mod base) :: acc in
      if n / base =? 0 then acc else digits fuel base (n / base) acc
  end.

Definition int_text (hex : bool) (bits v : Z) : list Z :=
  if hex then digits 16 16 (v mod 2 ^ bits) []
  else if v <? 0 then chr "-" :: digits 20 10 (- v) [] else digits 20 10 v [].

Definition startObject : ST PrintHandler_ unit :=
  do* write (str "{");
  let* h := get in
  do* write (endLine h);
  set_tab (fun t => t ++ replicate (indent h) 32).

Definition endObject : ST PrintHandler_ unit :=
  let* h := get in
  do* (if (indent h <=? length (_tab h))%nat
       then set_tab (fun t => take (length t - indent h) t) else ret tt);
  let* h := get in
  write (endLine h ++ _tab h ++ str "}").

Definition startArray : ST PrintHandler_ unit :=
  let* h := get in
  do* write (str "[" ++ endLine h);
  do* set_tab (fun t => t ++ replicate (indent h) 32);
  do* set_array true;
  set_value false.

(** [_tab.erase(pos)] with a position past the end throws. *)
Definition endArray : ST PrintHandler_ unit :=
  let* h := get in
  do* (if (indent h <=? length (_tab h))%nat
       then set_tab (fun t => take (length t - indent h) t) else throw StdOutOfRange);
  let* h := get in
  do* write (endLine h ++ _tab h ++ str "]");
  do* set_array false;
  set_value false.

Definition comma : ST PrintHandler_ unit :=
  let* h := get in write (str "," ++ endLine h).

Definition arrayValue : ST PrintHandler_ unit :=
  let* h := get in
  if _array h then
    do* (if _value h then comma else ret tt);
    let* h := get in write (_tab h)
  else ret tt.

Definition key (k : list Z) : ST PrintHandler_ unit :=
  let* h := get in
  do* (if _value h then do* comma; set_value false else ret tt);
  do* write (_tab h ++ [34] ++ k ++ [34]);
  do* (if negb (printFlat h) then write [32] else ret tt);
  do* write (str ":");
  if negb (printFlat h) then write [32] else ret tt.

Definition null : ST PrintHandler_ unit :=
  do* arrayValue; do* write (str "null"); set_value true.

(** [Stringifier::formatString(value, _out)] leaves the stream in [std::hex]
    when it wrote a code. *)
Definition writes_code (c : Z) : bool :=
  (0 <? c) && (c <=? 0x1F) && negb ((8 <=? c) && (c <=? 10)) && negb ((12 <=? c) && (c <=? 13)).

Definition value (v : scalar double) : ST PrintHandler_ unit :=
  do* arrayValue;
  let* h := get in
  do* (match v with
       | VInt z => write (int_text (hex h) 32 z)
       | VUInt z => write (int_text (hex h) 32 z)
       | VInt64 z => write (int_text (hex h) 64 z)
       | VUInt64 z => write (int_text (hex h) 64 z)
       | VString s =>
           do* write (Stringifier.formatString s);
           if existsb writes_code s then set_hex else ret tt
       | VDouble d => write (put_double d)
       | VBool b => write (if b then str "1" else str "0")
       end);
  set_value true.

Definition PrintHandler : Handler double :=
  {| hstate := PrintHandler_;
     on e := match e with
             | StartObject => startObject
             | EndObject => endObject
             | StartArray => startArray
             | EndArray => endArray
             | Key k => key k
             | Null => null
             | Value v => value v
             end;
     h_reset := reset;
     h_asVar _ := VEmpty |}.
End Print.
End PrintHandler.
