(* ===== verification/JsonFacts.v ===== *)
(** The JSON parser: what an accepted text makes its handler see.

    [json] is the abstract syntax, [ev] the calls of a handler that describe
    a value.  The parser's states fall into [kind]s; the transition table is
    summarised by two tables over kinds that the kernel checks entry by
    entry.  The invariant [Inv] relates the stack of modes to the containers
    that are open. *)

From S2P Require Import Prelude Strings NumericString Encodings Json.

Open Scope st_scope.
Local Open Scope Z_scope.
Import Codes Parser.

(** ** Abstract syntax *)
#[local] Set Warnings "-register-all".

Inductive json {double : Type} :=
| JNull
| JScalar (v : scalar double)
| JArr (l : list json)
| JObj (m : list (list Z * json)).
Arguments json : clear implicits.

Section JsonInd.
Context {double : Type} (P : json double -> Prop).
Context (Hnull : P JNull) (Hscalar : forall v, P (JScalar v)).
Context (Harr : forall l, Forall P l -> P (JArr l)).
Context (Hobj : forall m, Forall (fun kv => P (snd kv)) m -> P (JObj m)).

Fixpoint json_ind' (j : json double) : P j :=
  match j with
  | JNull => Hnull
  | JScalar v => Hscalar v
  | JArr l => Harr l ((fix go l : Forall P l :=
      match l with [] => List.Forall_nil _ | j :: r => List.Forall_cons _ _ _ (json_ind' j) (go r) end) l)
  | JObj m => Hobj m ((fix go m : Forall (fun kv => P (snd kv)) m :=
      match m with [] => List.Forall_nil _ | kv :: r => List.Forall_cons _ kv _ (json_ind' (snd kv)) (go r) end) m)
  end.
End JsonInd.

(** The calls that describe a value. *)
Fixpoint ev {double} (j : json double) : list (event double) :=
  match j with
  | JNull => [Null]
  | JScalar v => [Value v]
  | JArr l => StartArray :: concat (map ev l) ++ [EndArray]
  | JObj m => StartObject :: concat (map (fun kv => Key (fst kv) :: ev (snd kv)) m) ++ [EndObject]
  end.

Definition container {double} (j : json double) : bool :=
  match j with JArr _ | JObj _ => true | _ => false end.

(** The calls, one after the other. *)
Fixpoint replay {double} (H : Handler double) (es : list (event double)) : ST (hstate H) unit :=
  match es with
  | [] => ret tt
  | e :: r => do* on H e; replay H r
  end.

Lemma replay_app {double} (H : Handler double) a b h h1 :
  replay H a h = (Done tt, h1) -> replay H (a ++ b) h = replay H b h1.
Proof.
  revert h. induction a as [|e a IH]; intros h; simpl; [by injection 1 as ->|].
  unfold bind. destruct (on H e h) as [[[]| | |] h']; try done. apply IH.
Qed.

(** ** Inversion of successful runs *)
Lemma bind_inv {S A B} (m : ST S A) (k : A -> ST S B) s b s' :
  bind m k s = (Done b, s') -> exists a s1, m s = (Done a, s1) /\ k a s1 = (Done b, s').
Proof. unfold bind. destruct (m s) as [[a| | |] s1]; try done. eauto. Qed.

Lemma assert_inv {S} c (s s' : S) x : poco_assert c s = (Done x, s') -> c = true /\ s' = s.
Proof. destruct c; simpl; [|done]. by injection 1 as _ ->. Qed.

(** Split a run that succeeded into the runs of its parts. *)
Ltac inv_run :=
  repeat match goal with
  | H : bind _ _ _ = (Done _, _) |- _ => apply bind_inv in H as (? & ? & ? & H)
  | H : get _ = (Done _, _) |- _ => injection H as <- <-
  | H : modify _ _ = (Done _, _) |- _ => injection H as <- <-
  | H : ret _ _ = (Done _, _) |- _ => injection H as <- <-
  | H : poco_assert _ _ = (Done _, _) |- _ => apply assert_inv in H as [? ->]
  end.

(** ** The table over kinds of states *)
Inductive kind := KGo | KOk | KOb | KKe | KCo | KVal | KStr | KScalar | KComment.

Global Instance kind_eq_dec : EqDecision kind.
Proof. solve_decision. Defined.

Definition kind_of (s : Z) : kind :=
  if s =? GO then KGo else if s =? OK then KOk else if s =? OB then KOb else if s =? KE then KKe
  else if s =? CO then KCo else if (s =? VA) || (s =? AR) then KVal
  else if (ST_ <=? s) && (s <=? U4) || (s =? D1) || (s =? D2) then KStr
  else if (C1 <=? s) && (s <=? C3) then KComment
  else KScalar.

Definition entry (s c : Z) : Z := nth (Z.to_nat c) (nth (Z.to_nat s) _stateTransitionTable []) xx.

(** Moves between states, and the states in which an action can occur. *)
Definition move_ok (k k' : kind) : bool :=
  bool_decide (k = k') || (bool_decide (k = KScalar) && bool_decide (k' = KOk)).

Definition action_ok (k : kind) (a : Z) : bool :=
  if a =? -9 then bool_decide (k = KOb)
  else if (a =? -8) || (a =? -3) then bool_decide (k = KOk) || bool_decide (k = KScalar)
  else if a =? -7 then bool_decide (k = KOk) || bool_decide (k = KScalar) || bool_decide (k = KVal)
  else if (a =? -6) || (a =? -5) then bool_decide (k = KGo) || bool_decide (k = KVal)
  else if a =? -4 then bool_decide (k = KStr)
  else if a =? -2 then bool_decide (k = KCo)
  else if a =? SB then bool_decide (k = KOb) || bool_decide (k = KKe) || bool_decide (k = KVal)
  else if (a =? MX) || (a =? ZX) || (a =? IX) || (a =? NU) || (a =? FA) || (a =? TR)
    then bool_decide (k = KVal)
  else if (a =? DE) || (a =? DF) then bool_decide (k = KScalar)
  else if (a =? EX) || (a =? UC) then bool_decide (k = KStr)
  else if a =? CE then bool_decide (k = KComment)
  else true.

Definition entry_ok (s c : Z) : bool :=
  let a := entry s c in
  if 0 <=? a then (a <? 36) && move_ok (kind_of s) (kind_of a) else action_ok (kind_of s) a.

Lemma entries_checked s c : 0 <= s < 36 -> 0 <= c < 32 -> entry_ok s c = true.
Proof.
  intros Hs Hc.
  assert (Hall : allbelow 36 (fun s => allbelow 32 (entry_ok s)) = true) by (vm_compute; reflexivity).
  apply (allbelow_spec _ _ (allbelow_spec _ _ Hall s Hs) c Hc).
Qed.

Lemma class_range ch :
  0 <= ch < 128 -> let c := nth (Z.to_nat ch) _asciiClass xx in c = xx \/ 0 <= c < 32.
Proof.
  intros Hch. cbv zeta.
  assert (Hall : allbelow 128 (fun ch => let c := nth (Z.to_nat ch) _asciiClass xx in
            (c =? xx) || ((0 <=? c) && (c <? 32))) = true) by (vm_compute; reflexivity).
  pose proof (allbelow_spec _ _ Hall ch Hch) as H. cbv zeta in H.
  apply orb_true_iff in H as [H%Z.eqb_eq|H]; [by left|right; lia].
Qed.

(** ** The stack of modes *)

(** Handlers that do not throw the exception the parser catches. *)
Definition is_syntax (x : exception) : bool :=
  match x with SyntaxException | URISyntaxException | PathSyntaxException => true | _ => false end.

Class Quiet {double} (H : Handler double) :=
  quiet : forall e h x h', on H e h = (Raise x, h') -> is_syntax x = false.

Section Machine.
Context {double : Type} (parseFloat : list Z -> res double) (H : Handler double) `{!Quiet H}.
Local Abbreviation parser := (Parser_ H).
Local Abbreviation tree := (json double).
Implicit Types (p : parser) (h : hstate H).

(** The modes, the innermost first. *)
Definition stack_is p (ms : list Z) : Prop :=
  _top H p = Z.of_nat (length ms) - 1 /\ (length ms <= length (_stack H p))%nat
  /\ take (length ms) (_stack H p) = rev ms.

Lemma stack_top_spec p m ms : stack_is p (m :: ms) -> stack_top H p = (Done m, p).
Proof.
  intros (Ht & Hl & Hs). unfold stack_top. rewrite bind_get, Ht. cbn [length] in *.
  rewrite (proj2 (Z.ltb_ge _ _)) by lia. replace (Z.to_nat _) with (length ms) by lia.
  assert (_stack H p !! length ms = Some m) as ->; [|done].
  rewrite <-(lookup_take_lt _ (S (length ms))), Hs by lia. simpl.
  rewrite lookup_app_r by (rewrite length_rev; lia). by rewrite length_rev, Nat.sub_diag.
Qed.

Lemma pop_spec p m ms m' :
  stack_is p (m :: ms) ->
  pop H m' p = (if m =? m' then (Done true, set_top H (_top H p - 1) p) else (Done false, p))
  /\ stack_is (set_top H (_top H p - 1) p) ms.
Proof.
  intros Hst. split.
  - unfold pop. rewrite bind_get, (proj2 (Z.ltb_ge _ _)) by (destruct Hst; simpl in *; lia).
    rewrite (bind_Done _ _ _ _ _ (stack_top_spec p m ms Hst)). by destruct (m =? m').
  - destruct Hst as (Ht & Hl & Hs). split; [simpl in *; lia|]. split; [simpl in *; lia|].
    cbn [set_top _stack length] in *.
    replace (length ms) with (length ms `min` S (length ms))%nat by lia.
    rewrite <-take_take, Hs. simpl. apply take_app_length'. by rewrite length_rev.
Qed.

Lemma push_spec p ms m :
  stack_is p ms -> ms <> [] -> _depth H p < 0 ->
  exists st, push H m p = (Done true, set_stack H st (set_top H (_top H p + 1) p))
             /\ stack_is (set_stack H st (set_top H (_top H p + 1) p)) (m :: ms).
Proof.
  intros (Ht & Hl & Hs) Hne Hd. unfold push. rewrite bind_modify, bind_get. cbv zeta.
  cbn [set_top _depth _top _stack].
  rewrite (proj2 (Z.leb_gt 0 _)), (proj2 (Z.ltb_lt _ 0)) by lia. rewrite andb_false_l, andb_true_l.
  assert (length ms <> 0)%nat by by destruct ms.
  set (st0 := if Z.of_nat (length (_stack H p)) <=? _top H p + 1
              then _stack H p ++ replicate (length (_stack H p)) 0 else _stack H p).
  assert (Hlen : (S (length ms) <= length st0)%nat).
  { unfold st0. destruct (Z.leb_spec (Z.of_nat (length (_stack H p))) (_top H p + 1)); [|lia].
    rewrite length_app, length_replicate. lia. }
  assert (Htake : take (length ms) st0 = rev ms).
  { unfold st0. destruct (_ <=? _); [rewrite take_app_le by lia|]; done. }
  exists (<[Z.to_nat (_top H p + 1) := m]> st0). split.
  - assert (Hrun : forall {A} (k : unit -> ST parser A),
      (bind (if Z.of_nat (length (_stack H p)) <=? _top H p + 1
             then modify (fun p => set_stack H (_stack H p ++ replicate (length (_stack H p)) 0) p)
             else ret tt) k) (set_top H (_top H p + 1) p)
      = k tt (set_stack H st0 (set_top H (_top H p + 1) p))).
    { intros A k. unfold st0. destruct (_ <=? _); [done|]. rewrite bind_ret. by destruct p. }
    rewrite Hrun, bind_get. cbn [set_stack set_top _top _stack].
    rewrite (proj2 (Z.leb_le 0 _)), (proj2 (Z.ltb_lt _ _)) by lia. done.
  - split; [simpl; lia|]. cbn [set_stack set_top _top _stack]. rewrite length_insert. split; [simpl; lia|].
    replace (Z.to_nat _) with (length ms) by lia. simpl length. simpl rev. rewrite <-Htake.
    rewrite (take_S_r _ _ m) by (apply list_lookup_insert_eq; lia). f_equal.
    apply take_insert_ge. lia.
Qed.

(** ** Open containers *)

(** An array with its elements so far; an object with its members so far and
    the key that waits for its value. *)
Inductive frame :=
| FArr (l : list tree)
| FObj (m : list (list Z * tree)) (k : option (list Z)).

Definition members (m : list (list Z * tree)) : list (event double) :=
  concat (map (fun kv => Key (fst kv) :: ev (snd kv)) m).

Definition frame_ev (f : frame) : list (event double) :=
  match f with
  | FArr l => StartArray :: concat (map ev l)
  | FObj m k => StartObject :: members m ++ match k with Some k => [Key k] | None => [] end
  end.

(** The calls so far, for the open containers, the innermost first. *)
Fixpoint ev_open (fs : list frame) : list (event double) :=
  match fs with [] => [] | f :: fs => ev_open fs ++ frame_ev f end.

(** Containers that wait for a value, with their modes. *)
Inductive waits : frame -> Z -> Prop :=
| waits_arr l : waits (FArr l) MODE_ARRAY
| waits_obj m k : waits (FObj m (Some k)) MODE_OBJECT.

Definition outer (fs : list frame) (ms : list Z) : Prop := Forall2 waits fs ms.

(** A container that just got a value. *)
Inductive fed : frame -> Z -> Prop :=
| fed_arr l : fed (FArr l) MODE_ARRAY
| fed_obj m : fed (FObj m None) MODE_OBJECT.

Definition feed (v : tree) (f : frame) : frame :=
  match f with
  | FArr l => FArr (l ++ [v])
  | FObj m (Some k) => FObj (m ++ [(k, v)]) None
  | f => f
  end.

Lemma feed_waits v f m : waits f m -> fed (feed v f) m /\ frame_ev (feed v f) = frame_ev f ++ ev v.
Proof.
  destruct 1; (split; [constructor|]); simpl.
  - rewrite map_app, concat_app. simpl. by rewrite app_nil_r.
  - unfold members. rewrite map_app, concat_app. simpl. rewrite !app_nil_r, <-!app_assoc. done.
Qed.

Definition pending (t : JSONType) : Prop := t <> T_NONE /\ t <> T_STRING.

(** What the kind of the state says about the type, the open containers and the modes. *)
Definition shape (k : kind) (t : JSONType) (fs : list frame) (ms : list Z) : Prop :=
  match k with
  | KGo => t = T_NONE /\ fs = [] /\ ms = []
  | KOb | KKe => t = T_NONE /\ exists m fs' ms', fs = FObj m None :: fs' /\ ms = MODE_KEY :: ms' /\ outer fs' ms'
  | KCo => t = T_NONE /\ exists m k fs' ms', fs = FObj m (Some k) :: fs' /\ ms = MODE_KEY :: ms' /\ outer fs' ms'
  | KVal => t = T_NONE /\ fs <> [] /\ outer fs ms
  | KStr => t = T_STRING /\
      ((exists m fs' ms', fs = FObj m None :: fs' /\ ms = MODE_KEY :: ms' /\ outer fs' ms')
       \/ (fs <> [] /\ outer fs ms))
  | KScalar => pending t /\ fs <> [] /\ outer fs ms
  | KOk => (pending t /\ fs <> [] /\ outer fs ms)
           \/ (t = T_NONE /\ exists f m fs' ms', fs = f :: fs' /\ ms = m :: ms' /\ fed f m /\ outer fs' ms')
  | KComment => False
  end.

(** The calls so far have brought the handler from [h0] to [h]. *)
Definition seen (h0 : hstate H) (es : list (event double)) h : Prop := replay H es h0 = (Done tt, h).

Inductive progress (h0 : hstate H) (s : Z) (t : JSONType) (ms : list Z) (h : hstate H) : Prop :=
| progress_open fs : shape (kind_of s) t fs ms -> seen h0 (ev_open fs) h -> progress h0 s t ms h
| progress_end v : s = OK -> t = T_NONE -> ms = [] -> container v = true -> seen h0 (ev v) h ->
    progress h0 s t ms h.

Record Inv (h0 : hstate H) p : Prop := {
  inv_state : 0 <= _state H p < 36;
  inv_depth : _depth H p < 0;
  inv_comments : _allowComments H p = false;
  inv_progress : exists ms h, stack_is p (ms ++ [MODE_DONE]) /\ _pHandler H p = Some h
                              /\ progress h0 (_state H p) (_type H p) ms h
}.

Lemma seen_app h0 a b h1 h2 : seen h0 a h1 -> replay H b h1 = (Done tt, h2) -> seen h0 (a ++ b) h2.
Proof. intros H1 H2. unfold seen. by rewrite (replay_app H a b h0 h1 H1). Qed.

(** A value reaches the innermost container. *)
Lemma seen_value h0 f fs m h h' v :
  waits f m -> seen h0 (ev_open (f :: fs)) h -> replay H (ev v) h = (Done tt, h') ->
  seen h0 (ev_open (feed v f :: fs)) h'.
Proof.
  intros Hf Hs Hv. simpl. rewrite (proj2 (feed_waits v f m Hf)), app_assoc. by apply (seen_app _ _ _ h).
Qed.

(** A container is closed: it is a value of the next one, or the result. *)
Lemma progress_close h0 f fs ms v h h' e :
  ev v = frame_ev f ++ [e] -> container v = true -> outer fs ms ->
  seen h0 (ev_open (f :: fs)) h -> on H e h = (Done tt, h') ->
  progress h0 OK T_NONE ms h'.
Proof.
  intros Hv Hc Ho Hs He.
  assert (Hr : replay H [e] h = (Done tt, h')) by (simpl; unfold bind; by rewrite He).
  pose proof (seen_app _ _ _ _ _ Hs Hr) as Hs'. simpl in Hs'. rewrite <-app_assoc, <-Hv in Hs'.
  destruct Ho as [|f' m' fs' ms' Hw Ho]; [by apply (progress_end _ _ _ _ _ v)|].
  apply (progress_open _ _ _ _ _ (feed v f' :: fs')).
  - right. split; [done|]. exists (feed v f'), m', fs', ms'. split_and!; try done. by apply feed_waits.
  - simpl. rewrite (proj2 (feed_waits v f' m' Hw)), app_assoc. exact Hs'.
Qed.

(** ** Steps that call the handler *)
Lemma call_inv e p h u p' :
  _pHandler H p = Some h -> call H e p = (Done u, p') ->
  exists h', on H e h = (Done tt, h') /\ p' = set_handler H (Some h') p.
Proof.
  intros Hh. unfold call. rewrite Hh. destruct (on H e h) as [[[]| | |] h']; try done.
  injection 1 as <- <-. eauto.
Qed.

Lemma integer_value_inv s p h u p' :
  _pHandler H p = Some h -> integer_value H s p = (Done u, p') ->
  exists v h', on H (Value v) h = (Done tt, h') /\ p' = set_handler H (Some h') p.
Proof.
  intros Hh. unfold integer_value, catch_syntax.
  destruct (bind _ _ p) as [r p1] eqn:E. unfold bind, lift in E.
  destruct (NumericString.Parser.parse64 s (chr ",")) as [z| |x|] eqn:Ep.
  - set (w := if _ || _ then _ else _) in E. pose proof E as E'. unfold call in E'. rewrite Hh in E'.
    destruct (on H (Value w) h) as [[[]| |x|] h'] eqn:Eo; injection E' as <- <-; try done.
    + injection 1 as <- <-. eauto.
    + pose proof (quiet _ _ _ _ Eo). destruct x; done.
  - injection E as <- <-. done.
  - injection E as <- <-. intros Hu.
    assert (Hu' : (let* v := lift (NumericString.Parser.parseUnsigned64 s (chr ","))
                  in call H (Value (if 2 ^ 32 - 1 <? v then VUInt64 v else VUInt v))) p = (Done u, p'))
      by (destruct x; try done; exact Hu).
    apply bind_inv in Hu' as (z & p2 & Hz & Hc). injection Hz as _ <-.
    destruct (call_inv _ _ _ _ _ Hh Hc) as (h' & ? & ->). eauto.
  - injection E as <- <-. done.
Qed.

(** [parseBuffer] passes a pending value on. *)
Lemma parseBuffer_inv p h u p' :
  _pHandler H p = Some h -> parseBuffer parseFloat H p = (Done u, p') ->
  exists h', p' = set_buffer H [] (set_handler H (Some h') p)
    /\ (if type_eqb (_type H p) T_NONE then h' = h
        else exists v, container v = false /\ replay H (ev v) h = (Done tt, h')).
Proof.
  intros Hh Hrun. unfold parseBuffer in Hrun. rewrite bind_get, Hh in Hrun. cbv zeta in Hrun.
  apply bind_inv in Hrun as (u' & p1 & Hval & Hclear). injection Hclear as <- <-.
  assert (Hcall : forall v e q q' u, _pHandler H q = Some h -> ev v = [e] -> container v = false ->
            call H e q = (Done u, q') ->
            exists h', set_buffer H [] q' = set_buffer H [] (set_handler H (Some h') q)
              /\ exists v, container v = false /\ replay H (ev v) h = (Done tt, h')).
  { intros v e q q' u0 Hq Hv Hcon Hc. destruct (call_inv _ _ _ _ _ Hq Hc) as (h' & Ho & ->). exists h'.
    split; [done|]. exists v. split; [done|]. rewrite Hv. simpl. unfold bind. by rewrite Ho. }
  destruct (_type H p); simpl type_eqb; cbv iota.
  - injection Hval as <- <-. exists h. split; [|done]. destruct p; simpl in *. by subst.
  - destruct (integer_value_inv _ _ _ _ _ Hh Hval) as (v & h' & Ho & ->). exists h'. split; [done|].
    exists (JScalar v). split; [done|]. simpl. unfold bind. by rewrite Ho.
  - apply bind_inv in Hval as (? & ? & [_ ->]%assert_inv & Hval). destruct (_ =? _); [done|].
    apply bind_inv in Hval as (d & p2 & Hd & Hval). injection Hd as _ <-.
    by apply (Hcall (JScalar (VDouble d))) in Hval.
  - by apply (Hcall JNull) in Hval.
  - by apply (Hcall (JScalar (VBool true))) in Hval.
  - by apply (Hcall (JScalar (VBool false))) in Hval.
  - by apply (Hcall (JScalar (VString (_parseBuffer H p)))) in Hval.
Qed.

(** ** The invariant holds of a new parser and is kept by every accepted character *)
Lemma construct_inv h0 : Inv h0 (Parser.construct H (Some h0)).
Proof.
  split; [simpl; unfold GO; lia|done|done|].
  exists [], h0. split; [|split; [done|]].
  - split; [done|]. split; [simpl; lia|done].
  - apply (progress_open _ _ _ _ _ []); [done|done].
Qed.

(** A step that only changes members the invariant does not speak of. *)
Lemma inv_same h0 p p' :
  Inv h0 p -> _state H p' = _state H p -> _depth H p' = _depth H p -> _type H p' = _type H p ->
  _allowComments H p' = _allowComments H p -> _top H p' = _top H p -> _stack H p' = _stack H p ->
  _pHandler H p' = _pHandler H p -> Inv h0 p'.
Proof.
  intros [Hs Hd Hc (ms & h & Hst & Hh & Hp)] E1 E2 E3 E4 E5 E6 E7. split.
  - by rewrite E1.
  - by rewrite E2.
  - by rewrite E4.
  - exists ms, h. rewrite E1, E3, E7. split_and!; try done. unfold stack_is in *. by rewrite E5, E6.
Qed.

Ltac same := eapply inv_same; [eassumption|done..].

Lemma addChar_inv h0 ch c p u p' :
  Inv h0 p -> addCharToParseBuffer H ch c p = (Done u, p') -> Inv h0 p'.
Proof.
  intros Hinv Hrun. unfold addCharToParseBuffer in Hrun. rewrite bind_get in Hrun.
  destruct (_escaped H p).
  - unfold addEscapedCharToParseBuffer, parseBufferPopBackChar in Hrun.
    rewrite bind_modify, bind_bind, bind_get, bind_bind in Hrun.
    apply bind_inv in Hrun as (? & ? & [_ ->]%assert_inv & Hrun). rewrite bind_modify in Hrun.
    injection Hrun as <- <-. same.
  - destruct (negb _); [|injection Hrun as <- <-; done]. destruct (_ || _).
    + injection Hrun as <- <-. same.
    + injection Hrun as <- <-. done.
Qed.

(** A move inside the table. *)
Lemma move_inv h0 p s' :
  Inv h0 p -> 0 <= s' < 36 -> move_ok (kind_of (_state H p)) (kind_of s') = true ->
  Inv h0 (set_state H s' p).
Proof.
  intros [Hs Hd Hc (ms & h & Hst & Hh & Hp)] Hr Hm. split; [done..|].
  exists ms, h. split_and!; [done|done|]. cbn [set_state _state _type].
  unfold move_ok in Hm. apply orb_true_iff in Hm as [Hm%bool_decide_eq_true|Hm].
  - destruct Hp as [fs Hsh Hseen|v Es Et Em Hv Hseen].
    + apply (progress_open _ _ _ _ _ fs); [by rewrite <-Hm|done].
    + rewrite Es in Hm. assert (s' = OK) as ->; [|by apply (progress_end _ _ _ _ _ v)].
      revert Hm. unfold kind_of. repeat case_match; try done. unfold OK in *. lia.
  - apply andb_true_iff in Hm as [Hk%bool_decide_eq_true Hk'%bool_decide_eq_true].
    destruct Hp as [fs Hsh Hseen|v Es Et Em Hv Hseen]; [|by rewrite Es in Hk].
    apply (progress_open _ _ _ _ _ fs); [|done]. rewrite Hk' . rewrite Hk in Hsh. by left.
Qed.

Lemma popBack_inv p u p' :
  parseBufferPopBackChar H p = (Done u, p') -> p' = set_buffer H (removelast (_parseBuffer H p)) p.
Proof.
  unfold parseBufferPopBackChar. intros Hrun. rewrite bind_get in Hrun.
  apply bind_inv in Hrun as (? & ? & [_ ->]%assert_inv & Hrun). by injection Hrun as <- <-.
Qed.

(** What is left of a value when its delimiter is read: the innermost
    container has it, or the whole text was read before. *)
Definition delivered (h0 : hstate H) (ms : list Z) (h : hstate H) : Prop :=
  ms = [] \/ exists f m fs' ms', ms = m :: ms' /\ fed f m /\ outer fs' ms' /\ seen h0 (ev_open (f :: fs')) h.

Lemma flush_inv h0 p u1 p1 u2 p2 :
  Inv h0 p -> kind_of (_state H p) = KOk \/ kind_of (_state H p) = KScalar ->
  parseBufferPopBackChar H p = (Done u1, p1) -> parseBuffer parseFloat H p1 = (Done u2, p2) ->
  exists ms h, p2 = set_buffer H [] (set_handler H (Some h) p)
    /\ stack_is p (ms ++ [MODE_DONE]) /\ delivered h0 ms h.
Proof.
  intros [Hs Hd Hc (ms & h & Hst & Hh & Hp)] Hk ->%popBack_inv Hpb.
  destruct (parseBuffer_inv (set_buffer H (removelast (_parseBuffer H p)) p) h u2 p2 Hh Hpb) as (h' & -> & Hv).
  cbn [set_buffer _type] in Hv. exists ms, h'. split; [by destruct p|]. split; [done|].
  destruct Hp as [fs Hsh Hseen|v Es Et Em Hcont Hseen]; [|by left]. right.
  assert (Hpend : pending (_type H p) /\ fs <> [] /\ outer fs ms \/
     (_type H p = T_NONE /\ exists f m fs' ms', fs = f :: fs' /\ ms = m :: ms' /\ fed f m /\ outer fs' ms'))
    by (destruct Hk as [Hk|Hk]; rewrite Hk in Hsh; [done|by left]).
  destruct Hpend as [([Hn _] & Hne & Ho)|(Et & f & m & fs' & ms' & -> & -> & Hf & Ho)].
  - destruct Ho as [|f m fs' ms' Hw Ho]; [done|].
    destruct (_type H p); try done; simpl in Hv; destruct Hv as (v & _ & Hv);
      exists (feed v f), m, fs', ms'; (split_and!; [done|by apply feed_waits|done|]);
      by apply (seen_value h0 f fs' m h h').
  - rewrite Et in Hv. simpl in Hv. subst h'. by exists f, m, fs', ms'.
Qed.

(** The end of a container, behind its last value. *)
Lemma close_inv h0 p ms h e u1 p1 mode p2 :
  0 <= _state H p < 36 -> _depth H p < 0 -> _allowComments H p = false ->
  stack_is p (ms ++ [MODE_DONE]) -> _pHandler H p = Some h -> delivered h0 ms h ->
  (mode = MODE_ARRAY /\ e = EndArray \/ mode = MODE_OBJECT /\ e = EndObject) ->
  call H e p = (Done u1, p1) -> pop H mode p1 = (Done true, p2) ->
  Inv h0 (set_state H OK (set_type H T_NONE p2)).
Proof.
  intros Hs Hd Hc Hst Hh Hdel Hmode Hcall Hpop.
  destruct (call_inv _ _ _ _ _ Hh Hcall) as (h' & Ho & ->).
  destruct Hdel as [->|(f & m & fs' & ms' & -> & Hfed & Hout & Hseen)].
  - destruct (pop_spec (set_handler H (Some h') p) MODE_DONE [] mode Hst) as [Hp _].
    rewrite Hp in Hpop. destruct Hmode as [[-> ->]|[-> ->]]; done.
  - destruct (pop_spec (set_handler H (Some h') p) m (ms' ++ [MODE_DONE]) mode Hst) as [Hp Hst'].
    rewrite Hp in Hpop. destruct (Z.eqb_spec m mode) as [->|]; [|done]. injection Hpop as <-.
    split; [simpl; unfold OK; lia|done|done|]. exists ms', h'. split; [exact Hst'|]. split; [done|].
    destruct Hmode as [[-> ->]|[-> ->]]; inversion Hfed; subst.
    + by apply (progress_close h0 (FArr l) fs' ms' (JArr l) h h' EndArray).
    + apply (progress_close h0 (FObj m None) fs' ms' (JObj m) h h' EndObject); try done.
      simpl. by rewrite app_nil_r.
Qed.

(** The start of a container. *)
Lemma open_inv h0 p f e mode st t u1 p1 p2 :
  Inv h0 p -> kind_of (_state H p) = KGo \/ kind_of (_state H p) = KVal ->
  frame_ev f = [e] -> 0 <= st < 36 -> t = T_NONE ->
  (forall fs ms, outer fs ms -> shape (kind_of st) t (f :: fs) (mode :: ms)) ->
  parseBufferPopBackChar H p = (Done u1, p1) -> call H e p1 = (Done u1, p2) ->
  forall p3, push H mode p2 = (Done true, p3) -> _type H p3 = T_NONE -> Inv h0 (set_state H st p3).
Proof.
  intros [Hs Hd Hc (ms & h & Hst & Hh & Hp)] Hk Hf Hr -> Hshape ->%popBack_inv Hcall p3 Hpush Ht.
  destruct (call_inv _ (set_buffer H (removelast (_parseBuffer H p)) p) h _ _ Hh Hcall) as (h' & Ho & ->).
  set (q := set_handler H (Some h') (set_buffer H (removelast (_parseBuffer H p)) p)) in *.
  destruct (push_spec q (ms ++ [MODE_DONE]) mode Hst ltac:(by destruct ms) Hd) as (stk & Hrun & Hst').
  rewrite Hrun in Hpush. injection Hpush as <-.
  split; [done|done|done|]. exists (mode :: ms), h'. split; [exact Hst'|]. split; [done|].
  cbn [set_state set_stack set_top _state _type]. cbn [set_stack set_top _type] in Ht. rewrite Ht.
  destruct Hp as [fs Hsh Hseen|v Es Et Em Hcont Hseen]; [|by rewrite Es in Hk; destruct Hk].
  apply (progress_open _ _ _ _ _ (f :: fs)).
  - apply Hshape. destruct Hk as [Hk|Hk]; rewrite Hk in Hsh.
    + destruct Hsh as (_ & -> & ->). constructor.
    + by destruct Hsh as (_ & _ & ?).
  - simpl. rewrite Hf. apply (seen_app _ _ _ h); [done|]. simpl. unfold bind. by rewrite Ho.
Qed.

(** Steps that keep the containers and the calls, with a new state and type. *)
Lemma retype_inv h0 p p' st t :
  Inv h0 p -> kind_of (_state H p) <> KOk -> 0 <= st < 36 ->
  (forall fs ms, shape (kind_of (_state H p)) (_type H p) fs ms -> shape (kind_of st) t fs ms) ->
  _depth H p' = _depth H p -> _allowComments H p' = _allowComments H p ->
  _top H p' = _top H p -> _stack H p' = _stack H p -> _pHandler H p' = _pHandler H p ->
  Inv h0 (set_state H st (set_type H t p')).
Proof.
  intros [Hs Hd Hc (ms & h & Hst & Hh & Hp)] Hk Hr Hshape E1 E2 E3 E4 E5.
  split; [done|cbn; by rewrite E1|cbn; by rewrite E2|].
  exists ms, h. split; [unfold stack_is in *; cbn; by rewrite E3, E4|]. split; [cbn; by rewrite E5|].
  destruct Hp as [fs Hsh Hseen|v Es Et Em Hcont Hseen]; [|by rewrite Es in Hk].
  apply (progress_open _ _ _ _ _ fs); [by apply Hshape|done].
Qed.

Lemma enter_inv t s p b p' :
  enter H t s p = (Done b, p') -> p' = set_state H s (set_type H t p).
Proof. unfold enter. rewrite !bind_modify. by injection 1 as <- <-. Qed.

Lemma when_inv m k p p' :
  when H m k p = (Done true, p') -> exists p1, m p = (Done true, p1) /\ k p1 = (Done true, p').
Proof.
  unfold when. intros Hrun. apply bind_inv in Hrun as (b & p1 & Hm & Hk). destruct b; [eauto|done].
Qed.

Lemma type_is_inv t p u p' : type_is H t p = (Done u, p') -> p' = p /\ _type H p = t.
Proof.
  unfold type_is. rewrite bind_get. intros [Ht ->]%assert_inv. split; [done|].
  by destruct (_type H p), t.
Qed.

Lemma type_is_not_inv t p u p' : type_is_not H t p = (Done u, p') -> p' = p.
Proof. unfold type_is_not. rewrite bind_get. by intros [Ht ->]%assert_inv. Qed.

(** The scalar values and the strings begin and go on. *)
Lemma decode_inv p p' :
  decodeUnicodeChar H p = (Done true, p') ->
  exists b u, p' = set_buffer H b (set_high H u p).
Proof.
  unfold decodeUnicodeChar. rewrite bind_get. cbv zeta. intros Hrun.
  apply bind_inv in Hrun as (? & ? & [_ ->]%assert_inv & Hrun).
  apply bind_inv in Hrun as (? & ? & [_ ->]%assert_inv & Hrun).
  destruct (_ && _); [done|]. rewrite bind_modify in Hrun.
  destruct (negb _).
  - destruct (IS_LOW_SURROGATE _); [|done]. rewrite !bind_modify in Hrun. injection Hrun as <-. by do 2 eexists.
  - repeat case_match; try done; try rewrite !bind_modify in Hrun; injection Hrun as <-.
    all: do 2 eexists; reflexivity.
Qed.

Lemma action_string_inv h0 p a p' :
  Inv h0 p -> action_ok (kind_of (_state H p)) a = true -> a = UC \/ a = EX \/ a = SB ->
  action parseFloat H a p = (Done true, p') -> Inv h0 p'.
Proof.
  intros Hinv Hk Ha Hrun. destruct Ha as [->|[->| ->]].
  - change (bool_decide (kind_of (_state H p) = KStr) = true) in Hk. apply bool_decide_eq_true in Hk.
    change (when H (decodeUnicodeChar H) (let* p := get in
       do* modify (set_state H (if negb (_utf16HighSurrogate H p =? 0) then D1 else ST_)); ret true) p
       = (Done true, p')) in Hrun.
    apply when_inv in Hrun as (p1 & Hdec & Hrun). rewrite bind_get, bind_modify in Hrun.
    injection Hrun as <-. apply decode_inv in Hdec as (b & u & ->).
    apply move_inv; [same|by case_match|]. cbn [set_buffer set_high _state]. rewrite Hk. by case_match.
  - change (bool_decide (kind_of (_state H p) = KStr) = true) in Hk. apply bool_decide_eq_true in Hk.
    injection Hrun as <-. apply move_inv; [same|done|]. cbn. by rewrite Hk.
  - change (bool_decide (kind_of (_state H p) = KOb) || bool_decide (kind_of (_state H p) = KKe)
            || bool_decide (kind_of (_state H p) = KVal) = true) in Hk.
    change ((do* clearBuffer H; do* type_is H T_NONE; enter H T_STRING ST_) p = (Done true, p')) in Hrun.
    apply bind_inv in Hrun as (? & ? & Hclear & Hrun). injection Hclear as <- <-.
    apply bind_inv in Hrun as (? & ? & [-> _]%type_is_inv & ->%enter_inv).
    apply (retype_inv h0 p); try done; [intros E; by rewrite E in Hk|].
    intros fs ms Hsh. apply orb_true_iff in Hk as [[Hk|Hk]%orb_true_iff|Hk];
      apply bool_decide_eq_true in Hk; rewrite Hk in Hsh; destruct Hsh as [_ Hsh]; (split; [done|]).
    + left. destruct Hsh as (m & fs' & ms' & ?). eauto.
    + left. destruct Hsh as (m & fs' & ms' & ?). eauto.
    + by right.
Qed.

Lemma action_scalar_inv h0 p a p' :
  Inv h0 p -> action_ok (kind_of (_state H p)) a = true ->
  a = MX \/ a = ZX \/ a = IX \/ a = NU \/ a = FA \/ a = TR \/ a = DE \/ a = DF ->
  action parseFloat H a p = (Done true, p') -> Inv h0 p'.
Proof.
  intros Hinv Hk Ha Hrun.
  assert (Hx : exists s t, p' = set_state H s (set_type H t p) /\ pending t /\ 0 <= s < 36 /\ kind_of s = KScalar).
  { assert (Henter : forall (m : ST parser unit) s t, (forall q q' u, m q = (Done u, q') -> q' = q) ->
       bind m (fun _ => enter H t s) p = (Done true, p') -> p' = set_state H s (set_type H t p)).
    { intros m s t Hm Hb. apply bind_inv in Hb as (u & q & ->%Hm & ->%enter_inv). done. }
    assert (Hnone : forall q q' u, type_is H T_NONE q = (Done u, q') -> q' = q)
      by (intros q q' u Ht; by apply type_is_inv in Ht as [-> _]).
    assert (Hnum : forall q q' u, assertNotStringNullBool H q = (Done u, q') -> q' = q)
      by (intros q q' u Ht; unfold assertNotStringNullBool in Ht; rewrite bind_get in Ht; by apply assert_inv in Ht as [_ ->]).
    assert (Hret : forall q q' u, ret tt q = (Done u, q') -> q' = q :> parser) by (intros q q' u; by injection 1).
    destruct Ha as [->|[->|[->|[->|[->|[->|[->| ->]]]]]]].
    - exists MI, T_INTEGER. by rewrite (Henter (ret tt) MI T_INTEGER Hret Hrun).
    - exists ZE, T_INTEGER. by rewrite (Henter (ret tt) ZE T_INTEGER Hret Hrun).
    - exists IT, T_INTEGER. by rewrite (Henter (ret tt) IT T_INTEGER Hret Hrun).
    - exists N1, T_NULL. by rewrite (Henter _ N1 T_NULL Hnone Hrun).
    - exists F1, T_FALSE. by rewrite (Henter _ F1 T_FALSE Hnone Hrun).
    - exists T1, T_TRUE. by rewrite (Henter _ T1 T_TRUE Hnone Hrun).
    - exists E1, T_FLOAT. by rewrite (Henter _ E1 T_FLOAT Hnum Hrun).
    - exists FX, T_FLOAT. by rewrite (Henter _ FX T_FLOAT Hnum Hrun). }
  destruct Hx as (s & t & -> & Hpend & Hr & Hks).
  assert (Hk' : kind_of (_state H p) = KVal \/ kind_of (_state H p) = KScalar).
  { destruct Ha as [->|[->|[->|[->|[->|[->|[->| ->]]]]]]]; apply bool_decide_eq_true in Hk; eauto. }
  apply (retype_inv h0 p); try done; [intros E; rewrite E in Hk'; by destruct Hk'|].
  intros fs ms Hsh. rewrite Hks. split; [done|].
  destruct Hk' as [E|E]; rewrite E in Hsh; by destruct Hsh as (_ & ? & ?).
Qed.

Lemma action_empty_object_inv h0 p p' :
  Inv h0 p -> kind_of (_state H p) = KOb -> action parseFloat H (-9) p = (Done true, p') -> Inv h0 p'.
Proof.
  intros [Hs Hd Hc (ms & h & Hst & Hh & Hp)] Hk Hrun.
  change ((do* clearBuffer H; do* call H EndObject;
     when H (pop H MODE_KEY) (do* modify (set_state H OK); ret true)) p = (Done true, p')) in Hrun.
  apply bind_inv in Hrun as (? & ? & Hclear & Hrun). injection Hclear as <- <-.
  apply bind_inv in Hrun as (? & p1 & Hcall & Hrun). apply when_inv in Hrun as (p2 & Hpop & Hrun).
  rewrite bind_modify in Hrun. injection Hrun as <-.
  destruct (call_inv _ (set_buffer H [] p) h _ _ Hh Hcall) as (h' & Ho & ->).
  destruct Hp as [fs Hsh Hseen|v Es Et Em Hcont Hseen]; [|by rewrite Es in Hk].
  rewrite Hk in Hsh. destruct Hsh as (Et & m & fs' & ms' & -> & -> & Hout).
  destruct (pop_spec (set_handler H (Some h') (set_buffer H [] p)) MODE_KEY (ms' ++ [MODE_DONE]) MODE_KEY Hst)
    as [Hp Hst']. rewrite Hp in Hpop. injection Hpop as <-.
  split; [done|done|done|]. exists ms', h'. split; [exact Hst'|]. split; [done|].
  cbn [set_state set_top set_handler set_buffer _state _type]. rewrite Et.
  apply (progress_close h0 (FObj m None) fs' ms' (JObj m) h h' EndObject); try done.
  simpl. by rewrite app_nil_r.
Qed.

Lemma action_end_object_inv h0 p p' :
  Inv h0 p -> kind_of (_state H p) = KOk \/ kind_of (_state H p) = KScalar ->
  action parseFloat H (-8) p = (Done true, p') -> Inv h0 p'.
Proof.
  intros Hinv Hk Hrun. pose proof Hinv as [Hs Hd Hc _].
  change ((do* parseBufferPopBackChar H; do* parseBuffer parseFloat H; do* call H EndObject;
     when H (pop H MODE_OBJECT) (enter H T_NONE OK)) p = (Done true, p')) in Hrun.
  apply bind_inv in Hrun as (? & p1 & H1 & Hrun). apply bind_inv in Hrun as (? & p2 & H2 & Hrun).
  apply bind_inv in Hrun as (? & p3 & H3 & Hrun). apply when_inv in Hrun as (p4 & H4 & ->%enter_inv).
  destruct (flush_inv _ _ _ _ _ _ Hinv Hk H1 H2) as (ms1 & h1 & -> & Hst1 & Hdel).
  eapply (close_inv h0 _ ms1 h1 EndObject _ _ MODE_OBJECT); [..|exact H3|exact H4]; try done. by right.
Qed.

(** In front of the first value nothing is pending. *)
Lemma flush_none h0 p u1 p1 u2 p2 :
  Inv h0 p -> kind_of (_state H p) = KVal ->
  parseBufferPopBackChar H p = (Done u1, p1) -> parseBuffer parseFloat H p1 = (Done u2, p2) ->
  exists ms h, p2 = set_buffer H [] (set_handler H (Some h) p) /\ stack_is p (ms ++ [MODE_DONE])
    /\ (delivered h0 ms h \/ exists ms', ms = MODE_OBJECT :: ms').
Proof.
  intros [Hs Hd Hc (ms & h & Hst & Hh & Hp)] Hk ->%popBack_inv H2.
  destruct Hp as [fs Hsh Hseen|v Es Et Em Hcont Hseen]; [|by rewrite Es in Hk].
  rewrite Hk in Hsh. destruct Hsh as (Et & Hne & Hout).
  destruct (parseBuffer_inv (set_buffer H (removelast (_parseBuffer H p)) p) h _ _ Hh H2) as (h1 & -> & Hv).
  cbn [set_buffer _type] in Hv. rewrite Et in Hv. simpl in Hv. subst h1.
  exists ms, h. split; [by destruct p|]. split; [done|].
  destruct Hout as [|f m fs' ms' Hw Ho]; [done|]. destruct Hw as [l|m k]; [left|right; eauto].
  right. exists (FArr l), MODE_ARRAY, fs', ms'. by repeat constructor.
Qed.

Lemma action_end_array_inv h0 p p' :
  Inv h0 p -> kind_of (_state H p) = KOk \/ kind_of (_state H p) = KScalar \/ kind_of (_state H p) = KVal ->
  action parseFloat H (-7) p = (Done true, p') -> Inv h0 p'.
Proof.
  intros Hinv Hk Hrun. pose proof Hinv as [Hs Hd Hc _].
  change ((do* parseBufferPopBackChar H; do* parseBuffer parseFloat H; do* call H EndArray;
     when H (pop H MODE_ARRAY) (enter H T_NONE OK)) p = (Done true, p')) in Hrun.
  apply bind_inv in Hrun as (? & p1 & H1 & Hrun). apply bind_inv in Hrun as (? & p2 & H2 & Hrun).
  apply bind_inv in Hrun as (? & p3 & H3 & Hrun). apply when_inv in Hrun as (p4 & H4 & ->%enter_inv).
  assert (Hdel : exists ms h, p2 = set_buffer H [] (set_handler H (Some h) p) /\ stack_is p (ms ++ [MODE_DONE])
            /\ (delivered h0 ms h \/ exists ms', ms = MODE_OBJECT :: ms')).
  { destruct Hk as [Hk|[Hk|Hk]]; [| |by eapply flush_none].
    - destruct (flush_inv _ _ _ _ _ _ Hinv (or_introl Hk) H1 H2) as (ms & h & ? & ? & ?). eauto 10.
    - destruct (flush_inv _ _ _ _ _ _ Hinv (or_intror Hk) H1 H2) as (ms & h & ? & ? & ?). eauto 10. }
  destruct Hdel as (ms & h & -> & Hst & [Hdel|(ms' & ->)]).
  - eapply (close_inv h0 _ ms h EndArray _ _ MODE_ARRAY); [..|exact H3|exact H4]; try done. by left.
  - destruct (call_inv _ (set_buffer H [] (set_handler H (Some h) p)) h _ _ eq_refl H3) as (h' & _ & ->).
    match type of H4 with pop H _ ?q = _ =>
      destruct (pop_spec q MODE_OBJECT (ms' ++ [MODE_DONE]) MODE_ARRAY Hst) as [Hp4 _] end.
    by rewrite Hp4 in H4.
Qed.

Lemma action_start_inv h0 p a p' :
  Inv h0 p -> kind_of (_state H p) = KGo \/ kind_of (_state H p) = KVal -> a = -6 \/ a = -5 ->
  action parseFloat H a p = (Done true, p') -> Inv h0 p'.
Proof.
  intros Hinv Hk Ha Hrun.
  assert (Hx : exists e mode st f, frame_ev f = [e] /\ 0 <= st < 36
    /\ (forall fs ms, outer fs ms -> shape (kind_of st) T_NONE (f :: fs) (mode :: ms))
    /\ (do* parseBufferPopBackChar H; do* call H e;
        when H (push H mode) (do* type_is H T_NONE; do* modify (set_state H st); ret true)) p = (Done true, p')).
  { destruct Ha as [->| ->].
    - exists StartObject, MODE_KEY, OB, (FObj [] None). split_and!; try done.
      intros fs ms Ho. split; [done|]. eauto 10.
    - exists StartArray, MODE_ARRAY, AR, (FArr []). split_and!; try done.
      intros fs ms Ho. split; [done|]. split; [done|]. by repeat constructor. }
  destruct Hx as (e & mode & st & f & Hf & Hr & Hshape & Hx).
  apply bind_inv in Hx as ([] & p1 & H1 & Hx). apply bind_inv in Hx as ([] & p2 & H2 & Hx).
  apply when_inv in Hx as (p3 & H3 & Hx). apply bind_inv in Hx as (? & ? & [-> Ht]%type_is_inv & Hx).
  rewrite bind_modify in Hx. injection Hx as <-.
  by eapply (open_inv h0 p f e mode st T_NONE tt p1 p2).
Qed.

(** The end of a string: a key, or a value. *)
Lemma action_end_string_inv h0 p p' :
  Inv h0 p -> kind_of (_state H p) = KStr -> action parseFloat H (-4) p = (Done true, p') -> Inv h0 p'.
Proof.
  intros [Hs Hd Hc (ms & h & Hst & Hh & Hp)] Hk Hrun.
  destruct Hp as [fs Hsh Hseen|v Es Et Em Hcont Hseen]; [|by rewrite Es in Hk].
  rewrite Hk in Hsh. destruct Hsh as (Et & Hsh).
  unfold action in Hrun. simpl Z.eqb in Hrun. cbv iota in Hrun.
  apply bind_inv in Hrun as (? & p1 & ->%popBack_inv & Hrun).
  set (q := set_buffer H _ p) in Hrun.
  destruct Hsh as [(m & fs' & ms' & -> & -> & Hout)|[Hne Hout]].
  - rewrite (bind_Done _ _ _ _ _ (stack_top_spec q MODE_KEY (ms' ++ [MODE_DONE]) Hst)) in Hrun.
    simpl Z.eqb in Hrun. cbv iota in Hrun.
    apply bind_inv in Hrun as (? & ? & [-> _]%type_is_inv & Hrun).
    rewrite !bind_modify, bind_get in Hrun. apply bind_inv in Hrun as (? & p2 & Hcall & Hrun).
    unfold clearBuffer in Hrun. rewrite bind_modify in Hrun. injection Hrun as <-.
    match type of Hcall with call H ?e ?p0 = _ =>
      destruct (call_inv e p0 h _ _ Hh Hcall) as (h' & Ho & ->) end.
    cbn [set_state set_type _parseBuffer] in Ho. set (kk := _parseBuffer H q) in Ho. clearbody kk.
    split; [done|done|done|]. exists (MODE_KEY :: ms'), h'. split; [exact Hst|]. split; [done|].
    apply (progress_open _ _ _ _ _ (FObj m (Some kk) :: fs')).
    + split; [done|]. eauto 10.
    + simpl in Hseen |- *. rewrite app_nil_r in Hseen. rewrite app_comm_cons, app_assoc.
      apply (seen_app _ _ _ h); [done|]. unfold replay, bind. by rewrite Ho.
  - destruct Hout as [|f m fs' ms' Hw Ho]; [done|].
    rewrite (bind_Done _ _ _ _ _ (stack_top_spec q m (ms' ++ [MODE_DONE]) Hst)) in Hrun.
    assert (Hrun' : (do* type_is H T_STRING; do* parseBuffer parseFloat H; enter H T_NONE OK) q = (Done true, p'))
      by (destruct Hw; exact Hrun).
    apply bind_inv in Hrun' as (? & ? & [-> _]%type_is_inv & Hrun').
    apply bind_inv in Hrun' as (? & p2 & Hpb & ->%enter_inv).
    destruct (parseBuffer_inv q h _ _ Hh Hpb) as (h' & -> & Hv).
    unfold q in Hv. cbn [set_buffer _type] in Hv. rewrite Et in Hv. destruct Hv as (v & _ & Hv).
    split; [done|done|done|]. exists (m :: ms'), h'. split; [exact Hst|]. split; [done|].
    apply (progress_open _ _ _ _ _ (feed v f :: fs')).
    + right. split; [done|]. exists (feed v f), m, fs', ms'. split_and!; try done. by apply feed_waits.
    + by apply (seen_value h0 f fs' m h h').
Qed.

(** A comma, and a colon. *)
Lemma action_comma_inv h0 p p' :
  Inv h0 p -> kind_of (_state H p) = KOk \/ kind_of (_state H p) = KScalar ->
  action parseFloat H (-3) p = (Done true, p') -> Inv h0 p'.
Proof.
  intros Hinv Hk Hrun. pose proof Hinv as [Hs Hd Hc _].
  unfold action in Hrun. simpl Z.eqb in Hrun. cbv iota in Hrun.
  apply bind_inv in Hrun as (? & p1 & H1 & Hrun). apply bind_inv in Hrun as (? & p2 & H2 & Hrun).
  destruct (flush_inv _ _ _ _ _ _ Hinv Hk H1 H2) as (ms & h & -> & Hst & Hdel). clear H1 H2.
  set (q := set_buffer H [] _) in Hrun.
  destruct Hdel as [->|(f & m & fs' & ms' & -> & Hfed & Hout & Hseen)].
  { by rewrite (bind_Done _ _ _ _ _ (stack_top_spec q MODE_DONE [] Hst)) in Hrun. }
  rewrite (bind_Done _ _ _ _ _ (stack_top_spec q m (ms' ++ [MODE_DONE]) Hst)) in Hrun.
  destruct Hfed as [l|mm]; simpl Z.eqb in Hrun; cbv iota in Hrun.
  - apply bind_inv in Hrun as (? & ? & ->%type_is_not_inv & ->%enter_inv).
    split; [done|done|done|]. exists (MODE_ARRAY :: ms'), h. split; [exact Hst|]. split; [done|].
    apply (progress_open _ _ _ _ _ (FArr l :: fs')); [|done].
    split; [done|]. split; [done|]. by repeat constructor.
  - apply when_inv in Hrun as (p3 & Hpop & Hrun). apply when_inv in Hrun as (p4 & Hpush & Hrun).
    apply bind_inv in Hrun as (? & ? & ->%type_is_not_inv & ->%enter_inv).
    destruct (pop_spec q MODE_OBJECT (ms' ++ [MODE_DONE]) MODE_OBJECT Hst) as [Hp Hst'].
    rewrite Hp in Hpop. injection Hpop as <-.
    destruct (push_spec _ _ MODE_KEY Hst' ltac:(by destruct ms') Hd) as (stk & Hpu & Hst'').
    change (_top H p) with (_top H q) in Hpush. rewrite Hpu in Hpush. injection Hpush as <-.
    split; [done|done|done|]. exists (MODE_KEY :: ms'), h. split; [exact Hst''|]. split; [done|].
    apply (progress_open _ _ _ _ _ (FObj mm None :: fs')); [|done].
    split; [done|]. eauto 10.
Qed.

Lemma action_colon_inv h0 p p' :
  Inv h0 p -> kind_of (_state H p) = KCo -> action parseFloat H (-2) p = (Done true, p') -> Inv h0 p'.
Proof.
  intros [Hs Hd Hc (ms & h & Hst & Hh & Hp)] Hk Hrun.
  destruct Hp as [fs Hsh Hseen|v Es Et Em Hcont Hseen]; [|by rewrite Es in Hk].
  rewrite Hk in Hsh. destruct Hsh as (Et & m & k & fs' & ms' & -> & -> & Hout).
  unfold action in Hrun. simpl Z.eqb in Hrun. cbv iota in Hrun.
  apply bind_inv in Hrun as (? & p1 & ->%popBack_inv & Hrun).
  apply when_inv in Hrun as (p1 & Hpop & Hrun). apply when_inv in Hrun as (p2 & Hpush & Hrun).
  apply bind_inv in Hrun as (? & ? & [-> Ht]%type_is_inv & Hrun). rewrite bind_modify in Hrun.
  injection Hrun as <-. set (q := set_buffer H _ p) in *.
  destruct (pop_spec q MODE_KEY (ms' ++ [MODE_DONE]) MODE_KEY Hst) as [Hp Hst'].
  rewrite Hp in Hpop. injection Hpop as <-.
  destruct (push_spec _ _ MODE_OBJECT Hst' ltac:(by destruct ms') Hd) as (stk & Hpu & Hst'').
  change (_top H p) with (_top H q) in Hpush. rewrite Hpu in Hpush. injection Hpush as <-.
  split; [done|done|done|]. exists (MODE_OBJECT :: ms'), h. split; [exact Hst''|]. split; [done|].
  apply (progress_open _ _ _ _ _ (FObj m (Some k) :: fs')); [|done].
  split; [exact Et|]. split; [done|]. constructor; [constructor|done].
Qed.

Lemma action_begin_comment p :
  _allowComments H p = false -> action parseFloat H CB p = (Done false, p).
Proof.
  intros E. unfold action. repeat match goal with |- context [CB =? ?c] =>
    let b := eval vm_compute in (CB =? c) in change (CB =? c) with b; cbv iota end.
  by rewrite bind_get, E.
Qed.

Lemma action_inv h0 p a p' :
  Inv h0 p -> action_ok (kind_of (_state H p)) a = true ->
  action parseFloat H a p = (Done true, p') -> Inv h0 p'.
Proof.
  intros Hinv Hk Hrun.
  assert (Hlist : In a [UC; EX; MX; ZX; IX; DE; DF; SB; NU; FA; TR; CE; CB; -9; -8; -7; -6; -5; -4; -3; -2]).
  { unfold action in Hrun.
    repeat match type of Hrun with (if a =? ?c then _ else _) _ = _ =>
      destruct (Z.eqb_spec a c) as [->|?]; [simpl; tauto|] end. done. }
  simpl in Hlist.
  repeat match type of Hlist with
  | _ \/ _ => destruct Hlist as [<-|Hlist]
  | False => done
  end.
  all: try (apply (action_string_inv h0 p _ p' Hinv Hk); [by auto|exact Hrun]).
  all: try (apply (action_scalar_inv h0 p _ p' Hinv Hk); [by auto 10|exact Hrun]).
  all: cbn in Hk; rewrite ?orb_true_iff, ?bool_decide_eq_true in Hk.
  - destruct Hinv as [_ _ _ (ms & h & _ & _ & [fs Hsh _|v Es _ _ _ _])]; rewrite ?Hk, ?Es in *; done.
  - change (-10) with CB in Hrun. by rewrite (action_begin_comment p (inv_comments _ _ Hinv)) in Hrun.
  - by apply (action_empty_object_inv h0 p).
  - by apply (action_end_object_inv h0 p).
  - apply (action_end_array_inv h0 p); [done| |done]. tauto.
  - apply (action_start_inv h0 p (-6)); by auto.
  - apply (action_start_inv h0 p (-5)); by auto.
  - by apply (action_end_string_inv h0 p).
  - by apply (action_comma_inv h0 p).
  - by apply (action_colon_inv h0 p).
Qed.

Lemma parseChar_inv h0 p ch src src' p' :
  Inv h0 p -> 0 <= ch -> parseChar parseFloat H ch src p = (Done (true, src'), p') -> Inv h0 p'.
Proof.
  intros Hinv Hch Hrun. unfold parseChar in Hrun. rewrite bind_get in Hrun.
  destruct (_ && _); [done|]. destruct (Z.leb_spec 0x80 ch) as [Hbig|Hsmall].
  - destruct (_ =? _)%nat; [done|]. destruct (_ <? _)%nat; [done|]. destruct (negb _); [done|].
    rewrite bind_modify in Hrun. injection Hrun as _ <-. same.
  - destruct (class_range ch) as [Hc|Hc]; [lia|by rewrite Hc in Hrun|].
    set (c := nth (Z.to_nat ch) _asciiClass xx) in *. cbv zeta in Hrun.
    destruct (c <=? xx); [done|]. apply bind_inv in Hrun as (? & p1 & Hadd & Hrun).
    apply (addChar_inv h0) in Hadd; [|done]. rewrite bind_get in Hrun.
    pose proof (entries_checked _ c (inv_state _ _ Hadd) Hc) as Hok. unfold entry_ok, entry in Hok.
    apply bind_inv in Hrun as (b & p2 & Hrun & Hret). injection Hret as -> <- <-.
    set (a := nth _ (nth _ _stateTransitionTable []) xx) in *. destruct (Z.leb_spec 0 a).
    + rewrite bind_modify in Hrun. injection Hrun as <-. apply andb_true_iff in Hok as [Ha Hok].
      apply move_inv; [done|lia|done].
    + by apply (action_inv h0 p1 a).
Qed.

Lemma parse_loop_inv h0 fuel e src p u p' :
  Inv h0 p -> Forall is_byte src -> parse_loop parseFloat H fuel e src p = (Done u, p') -> Inv h0 p'.
Proof.
  revert src p. induction fuel as [|fuel IH]; intros src p Hinv Hsrc Hrun; [done|]. simpl in Hrun.
  destruct src as [|c src]; [by injection Hrun as <- <-|]. inv_Forall.
  apply bind_inv in Hrun as ([b src'] & p1 & Hchar & Hrun). simpl in Hrun. destruct b; [|done].
  assert (Hsrc' : Forall is_byte src').
  { unfold parseChar in Hchar. rewrite bind_get in Hchar. destruct (_ && _); [done|].
    destruct (0x80 <=? c).
    - destruct (_ =? _)%nat; [done|]. destruct (_ <? _)%nat; [done|]. destruct (negb _); [done|].
      rewrite bind_modify in Hchar. injection Hchar as <- _. by apply Forall_drop.
    - cbv zeta in Hchar. destruct (_ <=? _); [done|]. apply bind_inv in Hchar as (? & ? & _ & Hchar).
      rewrite bind_get in Hchar. apply bind_inv in Hchar as (? & ? & _ & Hret). by injection Hret as _ <- _. }
  eapply IH; [|exact Hsrc'|exact Hrun]. eapply parseChar_inv; [done| |exact Hchar]. unfold is_byte in *. lia.
Qed.

(** [done] accepts when a container was read and nothing is open. *)
Lemma done_inv h0 p p' :
  Inv h0 p -> done H p = (Done true, p') ->
  exists v h, _state H p = OK /\ _type H p = T_NONE /\ _pHandler H p = Some h /\ stack_is p [MODE_DONE]
    /\ container v = true /\ seen h0 (ev v) h /\ p' = set_top H (_top H p - 1) p.
Proof.
  intros [_ _ _ (ms & h & Hst & Hh & Hp)] Hdone. unfold done in Hdone. rewrite bind_get in Hdone.
  destruct (Z.eqb_spec (_state H p) OK) as [Es|]; [|done]. destruct ms as [|m ms].
  - destruct (pop_spec p MODE_DONE [] MODE_DONE Hst) as [Hpop _]. rewrite Hpop in Hdone. injection Hdone as <-.
    destruct Hp as [fs Hsh Hseen|v _ Et _ Hv Hseen].
    + rewrite Es in Hsh. destruct Hsh as [(_ & Hne & Ho)|(_ & f & m & fs' & ms' & _ & ? & _)]; [|done].
      inversion Ho. by subst.
    + exists v, h. by split_and!.
  - destruct (pop_spec p m (ms ++ [MODE_DONE]) MODE_DONE Hst) as [Hpop _]. rewrite Hpop in Hdone.
    destruct (Z.eqb_spec m MODE_DONE) as [->|]; [|done].
    destruct Hp as [fs Hsh Hseen|v _ _ ? _ _]; [|done]. rewrite Es in Hsh.
    destruct Hsh as [(_ & Hne & Ho)|(_ & f & m & fs' & ms' & _ & [= <- <-] & Hf & _)].
    + inversion Ho as [|? ? ? ? Hw]; subst. inversion Hw.
    + inversion Hf.
Qed.

(** What [parse] makes the handler see. *)
Lemma parse_with_inv h0 e s p x p' :
  Inv h0 p -> Forall is_byte s -> parse_with parseFloat H e s p = (Done x, p') ->
  exists p1 v h, parse_loop parseFloat H (S (length s)) e s p = (Done tt, p1)
    /\ _state H p1 = OK /\ _type H p1 = T_NONE /\ _pHandler H p1 = Some h
    /\ container v = true /\ seen h0 (ev v) h /\ _pHandler H p' = Some h /\ x = h_asVar H h.
Proof.
  intros Hinv Hs Hrun. unfold parse_with in Hrun.
  apply bind_inv in Hrun as ([] & p1 & Hloop & Hrun). pose proof (parse_loop_inv h0 _ _ _ _ _ _ Hinv Hs Hloop) as Hinv1.
  apply bind_inv in Hrun as (b & p2 & Hdone & Hrun). destruct b; [|done].
  rewrite bind_get in Hrun. injection Hrun as <- <-.
  destruct (done_inv h0 p1 p2 Hinv1 Hdone) as (v & h & Es & Et & Hh & _ & Hv & Hseen & ->).
  exists p1, v, h. split_and!; try done. unfold asVar. cbn. by rewrite Hh.
Qed.
End Machine.
