(* ===== verification/JsonBuild.v ===== *)
(** ParseHandler builds the value its calls describe.

    [denotes heap lo x j]: the variable [x] stands for the value [j], through
    nodes of the heap at [lo] and above; the children of a node lie behind
    it, so the shared pointers form a tree.  An object keeps its members
    sorted by key, the last one of each key: [norm] is the value that is
    left. *)

From S2P Require Import Prelude Strings NumericString Encodings Json JsonFacts.

Open Scope st_scope.
Local Open Scope Z_scope.

#[local] Set Warnings "-register-all".

Section Build.
Context {double : Type}.
Local Abbreviation var := (Var double).
Local Abbreviation tree := (json double).
Local Abbreviation handler := (ParseHandler_ double).
Implicit Types (h : handler) (heap : list (node double)).

Fixpoint norm (j : tree) : tree :=
  match j with
  | JNull => JNull
  | JScalar v => JScalar v
  | JArr l => JArr (map norm l)
  | JObj m => JObj (foldl (fun acc kv => map_set (fst kv) (snd kv) acc) []
                      (map (fun kv => (fst kv, norm (snd kv))) m))
  end.

Inductive denotes heap : nat -> var -> tree -> Prop :=
| den_null lo : denotes heap lo VEmpty JNull
| den_scalar lo v : denotes heap lo (VScalar v) (JScalar v)
| den_arr lo p xs l : (lo <= p)%nat -> heap !! p = Some (ArrayNode xs) ->
    Forall2 (denotes heap (S p)) xs l -> denotes heap lo (VArray p) (JArr l)
| den_obj lo p xs m : (lo <= p)%nat -> heap !! p = Some (ObjectNode xs) ->
    Forall2 (fun a b => fst a = fst b /\ denotes heap (S p) (snd a) (snd b)) xs m ->
    denotes heap lo (VObject p) (JObj m).

(** The nodes at [lo] and above are still there. *)
Definition keeps (lo : nat) heap heap' : Prop :=
  forall i n, (lo <= i)%nat -> heap !! i = Some n -> heap' !! i = Some n.

Lemma denotes_keep heap heap' j : forall lo lo' x,
  denotes heap lo x j -> (lo' <= lo)%nat -> keeps lo heap heap' -> denotes heap' lo' x j.
Proof.
  induction j as [|v|l IH|m IH] using json_ind'; intros lo lo' x Hx Hlo Hk;
    inversion Hx as [| |? p xs ? Hp Hn Hl|? p xs ? Hp Hn Hl]; subst.
  - constructor.
  - constructor.
  - econstructor; [lia|by apply (Hk p)|].
    assert (Hk' : keeps (S p) heap heap') by (intros i n Hi; apply Hk; lia). clear Hx Hk Hn.
    revert IH. induction Hl as [|y j xs l Hy _ IHl]; intros IH; inversion IH; subst; constructor; eauto.
  - econstructor; [lia|by apply (Hk p)|].
    assert (Hk' : keeps (S p) heap heap') by (intros i n Hi; apply Hk; lia). clear Hx Hk Hn.
    revert IH. induction Hl as [|y j xs l [Hy1 Hy2] _ IHl]; intros IH; inversion IH; subst; constructor; eauto.
Qed.

(** Assignments to related maps leave related maps. *)
Lemma map_set_rel {A B} (R : A -> B -> Prop) k a b xs ys :
  R a b -> Forall2 (fun x y => fst x = fst y /\ R (snd x) (snd y)) xs ys ->
  Forall2 (fun x y => fst x = fst y /\ R (snd x) (snd y)) (map_set k a xs) (map_set k b ys).
Proof.
  intros Hab. induction 1 as [|[k1 x] [k2 y] xs ys [Hk Hr] Hrest IH]; simpl in *; [by repeat constructor|].
  subst k2. destruct (str_lt k k1); [by repeat constructor|]. destruct (str_lt k1 k); by repeat constructor.
Qed.

(** A value is attached to the container a pointer points to. *)
Definition attach (k : list Z) (x : var) (n : node double) : node double :=
  match n with ObjectNode m => ObjectNode (map_set k x m) | ArrayNode l => ArrayNode (l ++ [x]) end.

Inductive points : var -> nat -> node double -> Prop :=
| points_arr p xs : points (VArray p) p (ArrayNode xs)
| points_obj p xs : points (VObject p) p (ObjectNode xs).

Local Abbreviation PH := (ParseHandler.ParseHandler (double := double)).

(** [setValue] attaches to the container on top of the stack. *)
Lemma setValue_spec h c p n r x :
  ph_stack h = c :: r -> points c p n -> ph_heap h !! p = Some n ->
  exists h', ParseHandler.setValue x h = (Done tt, h') /\ ph_stack h' = ph_stack h
    /\ ph_result h' = ph_result h /\ ph_heap h' = <[p := attach (ph_key h) x n]> (ph_heap h).
Proof.
  intros Hs Hp Hn. unfold ParseHandler.setValue, ParseHandler.top. rewrite bind_bind, bind_get, Hs, bind_ret.
  destruct Hp; [|rewrite bind_get]; unfold ParseHandler.write, ParseHandler.set_key; rewrite ?bind_modify;
    (eexists; split; [reflexivity|]); simpl; (split_and!; [done|done|]);
    rewrite list_insert_alter; apply list_alter_ext; [|done| |done]; intros y Hy; by rewrite Hn in Hy; injection Hy as <-.
Qed.

(** The start of a container below another one: a new node, attached. *)
Lemma start_spec h c p n r n0 ptr :
  ph_stack h = c :: r -> points c p n -> ph_heap h !! p = Some n ->
  exists h', ParseHandler.start n0 ptr h = (Done tt, h')
    /\ ph_stack h' = ptr (length (ph_heap h)) :: ph_stack h /\ ph_result h' = ph_result h
    /\ ph_heap h' = <[p := attach (ph_key h) (ptr (length (ph_heap h))) n]> (ph_heap h) ++ [n0].
Proof.
  intros Hs Hp Hn. unfold ParseHandler.start. rewrite bind_get. cbv zeta. rewrite bind_modify, Hs.
  assert (p < length (ph_heap h))%nat by by eapply lookup_lt_Some.
  destruct (setValue_spec {| ph_stack := c :: r; ph_key := ph_key h; ph_result := ph_result h;
    ph_heap := ph_heap h ++ [n0] |} c p n r (ptr (length (ph_heap h)))) as (h' & Hrun & E1 & E2 & E3);
    [done|done|by simpl; rewrite lookup_app_l by done|].
  rewrite (bind_Done _ _ _ _ _ Hrun). eexists. split; [reflexivity|]. simpl in *. rewrite E1, E2, E3.
  split_and!; [done|done|]. by rewrite insert_app_l.
Qed.

(** What feeding a value to the container at [p] does. *)
Record built h p n (j : tree) h' (x : var) : Prop := {
  built_stack : ph_stack h' = ph_stack h;
  built_result : ph_result h' = ph_result h;
  built_grow : (length (ph_heap h) <= length (ph_heap h'))%nat;
  built_parent : ph_heap h' !! p = Some (attach (ph_key h) x n);
  built_frame : forall i, (i < length (ph_heap h))%nat -> i <> p -> ph_heap h' !! i = ph_heap h !! i;
  built_value : denotes (ph_heap h') (length (ph_heap h)) x (norm j)
}.

Definition builds (j : tree) : Prop := forall h c p n r,
  ph_stack h = c :: r -> points c p n -> ph_heap h !! p = Some n ->
  exists h' x, replay PH (ev j) h = (Done tt, h') /\ built h p n j h' x.

Lemma replay_one e h h' : on PH e h = (Done tt, h') -> replay PH [e] h = (Done tt, h').
Proof. intros He. simpl. unfold bind. simpl in He. by rewrite He. Qed.

Lemma builds_leaf j x : (forall h, replay PH (ev j) h = ParseHandler.setValue x h) ->
  (forall heap lo, denotes heap lo x (norm j)) -> builds j.
Proof.
  intros Hev Hx h c p n r Hs Hp Hn. destruct (setValue_spec h c p n r x Hs Hp Hn) as (h' & Hrun & E1 & E2 & E3).
  assert (p < length (ph_heap h))%nat by by eapply lookup_lt_Some.
  exists h', x. rewrite Hev. split; [done|]. split; rewrite ?E3; try done.
  - by rewrite length_insert.
  - by apply list_lookup_insert_eq.
  - intros i Hi Hne. by apply list_lookup_insert_ne.
Qed.

Lemma built_keeps h p n j h' x q :
  built h p n j h' x -> (p < q)%nat -> keeps q (ph_heap h) (ph_heap h').
Proof.
  intros Hb Hq i y Hi Hy. rewrite (built_frame _ _ _ _ _ _ Hb i); [done| |lia].
  by eapply lookup_lt_Some.
Qed.

(** The elements of an array, and the members of an object, one by one. *)
Lemma fill_array q l : Forall builds l -> forall h r xs vs,
  ph_stack h = VArray q :: r -> ph_heap h !! q = Some (ArrayNode xs) ->
  Forall2 (denotes (ph_heap h) (S q)) xs vs ->
  exists h' xs', replay PH (concat (map ev l)) h = (Done tt, h')
    /\ ph_stack h' = ph_stack h /\ ph_result h' = ph_result h
    /\ (length (ph_heap h) <= length (ph_heap h'))%nat
    /\ ph_heap h' !! q = Some (ArrayNode xs')
    /\ Forall2 (denotes (ph_heap h') (S q)) xs' (vs ++ map norm l)
    /\ (forall i, (i < q)%nat -> ph_heap h' !! i = ph_heap h !! i).
Proof.
  intros Hl. induction Hl as [|j l Hj _ IH]; intros h r xs vs Hs Hq Hxs.
  { exists h, xs. rewrite app_nil_r. by split_and!. }
  destruct (Hj h (VArray q) q (ArrayNode xs) r Hs (points_arr _ _) Hq) as (h1 & x & Hrun & Hb).
  assert (q < length (ph_heap h))%nat by by eapply lookup_lt_Some.
  pose proof (built_keeps _ _ _ _ _ _ (S q) Hb ltac:(lia)) as Hk.
  destruct (IH h1 r (xs ++ [x]) (vs ++ [norm j])) as (h2 & xs' & Hrun2 & E1 & E2 & E3 & E4 & E5 & E6).
  - by rewrite (built_stack _ _ _ _ _ _ Hb).
  - apply (built_parent _ _ _ _ _ _ Hb).
  - apply Forall2_app.
    + eapply Forall2_impl; [|exact Hxs]. intros y v Hy. by eapply denotes_keep.
    + constructor; [|constructor]. eapply denotes_keep; [apply (built_value _ _ _ _ _ _ Hb)|lia|by intros ? ?].
  - exists h2, xs'. simpl. rewrite (replay_app PH _ _ _ _ Hrun). destruct Hb.
    split_and!; [done|congruence|congruence|lia|done| |].
    + by rewrite <-app_assoc in E5.
    + intros i Hi. rewrite E6 by done. apply built_frame0; lia.
Qed.

Lemma fill_object q m : Forall (fun kv => builds (snd kv)) m -> forall h r xs vs,
  ph_stack h = VObject q :: r -> ph_heap h !! q = Some (ObjectNode xs) ->
  Forall2 (fun a b => fst a = fst b /\ denotes (ph_heap h) (S q) (snd a) (snd b)) xs vs ->
  exists h' xs', replay PH (concat (map (fun kv => Key (fst kv) :: ev (snd kv)) m)) h = (Done tt, h')
    /\ ph_stack h' = ph_stack h /\ ph_result h' = ph_result h
    /\ (length (ph_heap h) <= length (ph_heap h'))%nat
    /\ ph_heap h' !! q = Some (ObjectNode xs')
    /\ Forall2 (fun a b => fst a = fst b /\ denotes (ph_heap h') (S q) (snd a) (snd b)) xs'
         (foldl (fun acc kv => map_set (fst kv) (snd kv) acc) vs
            (map (fun kv => (fst kv, norm (snd kv))) m))
    /\ (forall i, (i < q)%nat -> ph_heap h' !! i = ph_heap h !! i).
Proof.
  intros Hm. induction Hm as [|[k j] m Hj _ IH]; intros h r xs vs Hs Hq Hxs.
  { exists h, xs. by split_and!. }
  simpl in Hj. set (h0 := {| ph_stack := ph_stack h; ph_key := k; ph_result := ph_result h; ph_heap := ph_heap h |}).
  destruct (Hj h0 (VObject q) q (ObjectNode xs) r Hs (points_obj _ _) Hq) as (h1 & x & Hrun & Hb).
  assert (q < length (ph_heap h0))%nat by by eapply lookup_lt_Some.
  pose proof (built_keeps _ _ _ _ _ _ (S q) Hb ltac:(lia)) as Hk.
  destruct (IH h1 r (map_set k x xs) (map_set k (norm j) vs)) as (h2 & xs' & Hrun2 & E1 & E2 & E3 & E4 & E5 & E6).
  - by rewrite (built_stack _ _ _ _ _ _ Hb).
  - apply (built_parent _ _ _ _ _ _ Hb).
  - apply (map_set_rel (denotes (ph_heap h1) (S q))).
    + eapply denotes_keep; [apply (built_value _ _ _ _ _ _ Hb)|lia|by intros ? ?].
    + eapply Forall2_impl; [|exact Hxs]. intros y v [Hy1 Hy2]. split; [done|]. by eapply denotes_keep.
  - exists h2, xs'. cbn [map concat app replay fst snd].
    change (on PH (Key k)) with (ParseHandler.set_key (double := double) k). unfold ParseHandler.set_key.
    rewrite bind_modify. fold h0. rewrite (replay_app PH _ _ _ _ Hrun). destruct Hb.
    split_and!; [done|by rewrite E1, built_stack0|by rewrite E2, built_result0|simpl in *; lia|done|done|].
    intros i Hi. rewrite E6 by done. apply (built_frame0 i); simpl in *; lia.
Qed.

Lemma end_spec c r h e : ph_stack h = c :: r -> e = EndArray \/ e = EndObject ->
  replay PH [e] h = (Done tt, {| ph_stack := r; ph_key := ph_key h; ph_result := ph_result h; ph_heap := ph_heap h |}).
Proof.
  intros Hs He. apply replay_one. destruct He as [->| ->]; simpl;
    unfold ParseHandler.endArray, ParseHandler.endObject, ParseHandler.endContainer; by rewrite bind_get, Hs.
Qed.

(** A container below another one. *)
Lemma builds_array l : Forall builds l -> builds (JArr l).
Proof.
  intros Hl h c p n r Hs Hp Hn.
  assert (p < length (ph_heap h))%nat by by eapply lookup_lt_Some.
  destruct (start_spec h c p n r (ArrayNode []) VArray Hs Hp Hn) as (h1 & H1 & E1 & E2 & E3).
  set (q := length (ph_heap h)) in *.
  assert (Hlen : length (<[p:=attach (ph_key h) (VArray q) n]> (ph_heap h)) = q) by by rewrite length_insert.
  destruct (fill_array q l Hl h1 (ph_stack h) [] []) as (h2 & xs & H2 & F1 & F2 & F3 & F4 & F5 & F6);
    [done|rewrite E3; by apply list_lookup_middle|constructor|].
  cbn [ev replay]. change (on PH StartArray) with (ParseHandler.start (double := double) (ArrayNode []) VArray).
  rewrite (bind_Done _ _ _ _ _ H1).
  rewrite (replay_app PH _ _ _ _ H2), (end_spec (VArray q) (ph_stack h) h2) by (by rewrite F1 || by left).
  eexists _, (VArray q). split; [reflexivity|].
  assert (Hh1 : forall i, (i < q)%nat -> ph_heap h1 !! i = <[p:=attach (ph_key h) (VArray q) n]> (ph_heap h) !! i)
    by (intros i Hi; rewrite E3; apply lookup_app_l; lia).
  split; simpl; try congruence.
  - rewrite E3 in F3. rewrite length_app, Hlen in F3. lia.
  - rewrite F6, Hh1 by lia. by apply list_lookup_insert_eq.
  - intros i Hi Hne. rewrite F6, Hh1 by lia. by apply list_lookup_insert_ne.
  - by econstructor.
Qed.

Lemma builds_object m : Forall (fun kv => builds (snd kv)) m -> builds (JObj m).
Proof.
  intros Hm h c p n r Hs Hp Hn.
  assert (p < length (ph_heap h))%nat by by eapply lookup_lt_Some.
  destruct (start_spec h c p n r (ObjectNode []) VObject Hs Hp Hn) as (h1 & H1 & E1 & E2 & E3).
  set (q := length (ph_heap h)) in *.
  assert (Hlen : length (<[p:=attach (ph_key h) (VObject q) n]> (ph_heap h)) = q) by by rewrite length_insert.
  destruct (fill_object q m Hm h1 (ph_stack h) [] []) as (h2 & xs & H2 & F1 & F2 & F3 & F4 & F5 & F6);
    [done|rewrite E3; by apply list_lookup_middle|constructor|].
  cbn [ev replay]. change (on PH StartObject) with (ParseHandler.start (double := double) (ObjectNode []) VObject).
  rewrite (bind_Done _ _ _ _ _ H1).
  rewrite (replay_app PH _ _ _ _ H2), (end_spec (VObject q) (ph_stack h) h2) by (by rewrite F1 || by right).
  eexists _, (VObject q). split; [reflexivity|].
  assert (Hh1 : forall i, (i < q)%nat -> ph_heap h1 !! i = <[p:=attach (ph_key h) (VObject q) n]> (ph_heap h) !! i)
    by (intros i Hi; rewrite E3; apply lookup_app_l; lia).
  split; simpl; try congruence.
  - rewrite E3 in F3. rewrite length_app, Hlen in F3. lia.
  - rewrite F6, Hh1 by lia. by apply list_lookup_insert_eq.
  - intros i Hi Hne. rewrite F6, Hh1 by lia. by apply list_lookup_insert_ne.
  - by econstructor.
Qed.

Lemma builds_all j : builds j.
Proof.
  induction j as [|v|l IH|m IH] using json_ind'.
  - apply (builds_leaf _ VEmpty); [|constructor]. intros h. simpl. unfold bind, ret, ParseHandler.null.
    by destruct (ParseHandler.setValue _ h) as [[[]| | |] ?].
  - apply (builds_leaf _ (VScalar v)); [|constructor]. intros h. simpl. unfold bind, ret, ParseHandler.value.
    by destruct (ParseHandler.setValue _ h) as [[[]| | |] ?].
  - by apply builds_array.
  - by apply builds_object.
Qed.

(** A whole text: the result denotes the value, and nothing is left open. *)
Lemma build_root h j :
  ph_stack h = [] -> container j = true ->
  exists h', replay PH (ev j) h = (Done tt, h') /\ ph_stack h' = []
    /\ denotes (ph_heap h') (length (ph_heap h)) (ph_result h') (norm j).
Proof.
  intros Hs Hc. set (q := length (ph_heap h)).
  assert (Hq : forall (n0 : node double) hp, hp = ph_heap h ++ [n0] -> hp !! q = Some n0)
    by (intros n0 hp ->; apply list_lookup_middle; done).
  destruct j as [| |l|m]; try done.
  - set (h1 := {| ph_stack := [VArray q]; ph_key := ph_key h; ph_result := VArray q;
                  ph_heap := ph_heap h ++ [ArrayNode []] |}).
    destruct (fill_array q l (Forall_true _ _ builds_all) h1 [] [] []) as (h2 & xs & H2 & F1 & F2 & F3 & F4 & F5 & F6);
      [done|by apply Hq|constructor|].
    cbn [ev replay]. change (on PH StartArray) with (ParseHandler.start (double := double) (ArrayNode []) VArray).
    unfold ParseHandler.start.
    rewrite bind_bind, bind_get, !bind_bind, bind_modify, Hs, !bind_bind, !bind_modify. fold q. fold h1.
    rewrite (replay_app PH _ _ _ _ H2), (end_spec (VArray q) [] h2) by (by rewrite F1 || by left).
    eexists. split; [reflexivity|]. simpl. split; [done|]. rewrite F2. by econstructor.
  - set (h1 := {| ph_stack := [VObject q]; ph_key := ph_key h; ph_result := VObject q;
                  ph_heap := ph_heap h ++ [ObjectNode []] |}).
    destruct (fill_object q m (Forall_true _ _ (fun kv => builds_all (snd kv))) h1 [] [] [])
      as (h2 & xs & H2 & F1 & F2 & F3 & F4 & F5 & F6); [done|by apply Hq|constructor|].
    cbn [ev replay]. change (on PH StartObject) with (ParseHandler.start (double := double) (ObjectNode []) VObject).
    unfold ParseHandler.start.
    rewrite bind_bind, bind_get, !bind_bind, bind_modify, Hs, !bind_bind, !bind_modify. fold q. fold h1.
    rewrite (replay_app PH _ _ _ _ H2), (end_spec (VObject q) [] h2) by (by rewrite F1 || by right).
    eexists. split; [reflexivity|]. simpl. split; [done|]. rewrite F2. by econstructor.
Qed.

(** Nothing in the handler throws. *)
Definition no_throw {S A} (m : ST S A) : Prop := forall s x s', m s <> (Raise x, s').

Lemma no_throw_bind {S A B} (m : ST S A) (k : A -> ST S B) :
  no_throw m -> (forall a, no_throw (k a)) -> no_throw (bind m k).
Proof.
  intros Hm Hk s x s' Hrun. unfold bind in Hrun. destruct (m s) as [[a| |y|] s1] eqn:E; try done.
  - by apply (Hk a s1 x s').
  - by apply (Hm s y s1).
Qed.

#[global] Instance parse_handler_quiet : Quiet PH.
Proof.
  assert (Hset : forall v, no_throw (ParseHandler.setValue (double := double) v)).
  { intros v. unfold ParseHandler.setValue, ParseHandler.top.
    apply no_throw_bind; [apply no_throw_bind; [done|]; intros h; by destruct (ph_stack h)|].
    intros []; try done. }
  assert (Hstart : forall n p, no_throw (ParseHandler.start (double := double) n p)).
  { intros n p. apply no_throw_bind; [done|]. intros h. apply no_throw_bind; [done|]. intros _.
    apply no_throw_bind; [by destruct (ph_stack h)|done]. }
  assert (Hend : no_throw (ParseHandler.endContainer (double := double)))
    by (apply no_throw_bind; [done|]; intros h; by destruct (ph_stack h)).
  intros e h x h' Hrun. exfalso. revert Hrun. destruct e; simpl.
  - apply Hstart.
  - apply Hend.
  - apply Hstart.
  - apply Hend.
  - done.
  - apply Hset.
  - apply Hset.
Qed.
End Build.
