(* ===== verification/JsonText.v ===== *)
(** What Stringifier writes is read back by Parser.

    [eats t p p']: the parser reads the text [t] and goes from [p] to [p'],
    whatever follows.  [At] is the parser between two tokens, [After] the
    parser behind a value that may still be pending in the buffer. *)

From S2P Require Import Prelude Strings NumericString Encodings Json JsonFacts JsonBuild.

Open Scope st_scope.
Local Open Scope Z_scope.
Import Codes Parser.

Definition class (c : Z) : Z := nth (Z.to_nat c) _asciiClass xx.

(** The white space of the table, and the characters that go into the buffer. *)
Definition is_white (c : Z) : bool := (c =? 32) || (c =? 9) || (c =? 10) || (c =? 13).
Definition white (ws : list Z) : Prop := Forall (fun c => is_white c = true) ws.

Definition pushes (ty : JSONType) (k : Z) : bool :=
  negb (type_eqb ty T_NONE) || negb ((k =? C_SPACE) || (k =? C_WHITE)).

(** Run the switch over the actions at a known code. *)
Ltac run_action :=
  unfold action;
  repeat lazymatch goal with |- (if ?b then _ else _) _ = _ =>
    let v := eval vm_compute in b in change b with v; cbv iota end.

(** Text in UTF-8, with [P] on the ASCII characters. *)
Inductive utf8_text (P : Z -> bool) : list Z -> Prop :=
| utf8_nil : utf8_text P []
| utf8_ascii c s : 0 < c < 128 -> P c = true -> utf8_text P s -> utf8_text P (c :: s)
| utf8_seq c t s : 0x80 <= c -> utf8CheckFirst c = S (length t) -> UTF8.isLegal (c :: t) = true ->
    Forall (fun b => 0x80 <= b) t -> utf8_text P s -> utf8_text P ((c :: t) ++ s).

(** Characters that stand for themselves in a string. *)
Definition raw (c : Z) : bool := (32 <=? c) && (c <? 128) && negb (c =? 34) && negb (c =? 92).

Lemma raw_class c : raw c = true -> 0 < c < 128 /\ 0 <= class c /\ entry ST_ (class c) = ST_.
Proof.
  intros Hr. assert (Hc : 0 <= c < 128) by (unfold raw in Hr; lia).
  assert (Hall : allbelow 128 (fun c => if raw c then (0 <? c) && (0 <=? class c) && (entry ST_ (class c) =? ST_) else true)
    = true) by (vm_compute; reflexivity).
  pose proof (allbelow_spec _ _ Hall c Hc) as Hx. cbv beta in Hx. rewrite Hr in Hx. lia.
Qed.

(** The hexadecimal digits that [hex4] writes. *)
Lemma hex4_digits c :
  0 < c < 32 -> Forall (fun d => 0 < d < 128 /\ 0 <= class d /\ entry U1 (class d) = U2 /\ entry U2 (class d) = U3
                         /\ entry U3 (class d) = U4 /\ entry U4 (class d) = UC) (Stringifier.hex4 c)
  /\ forallb (fun x => x <? 16) (map hex_digit (Stringifier.hex4 c)) = true
  /\ foldl (fun uc x => Z.lor (Z.shiftl uc 4) x) 0 (map hex_digit (Stringifier.hex4 c)) = c.
Proof.
  intros Hc.
  assert (Hall : allbelow 32 (fun c =>
    forallb (fun d => (0 <? d) && (d <? 128) && (0 <=? class d) && (entry U1 (class d) =? U2) && (entry U2 (class d) =? U3)
                      && (entry U3 (class d) =? U4) && (entry U4 (class d) =? UC)) (Stringifier.hex4 c)
    && forallb (fun x => x <? 16) (map hex_digit (Stringifier.hex4 c))
    && (foldl (fun uc x => Z.lor (Z.shiftl uc 4) x) 0 (map hex_digit (Stringifier.hex4 c)) =? c)) = true)
    by (vm_compute; reflexivity).
  pose proof (allbelow_spec _ _ Hall c ltac:(lia)) as Hx. cbv beta in Hx.
  rewrite !andb_true_iff in Hx. destruct Hx as [[H1 H2] H3%Z.eqb_eq]. split_and!; [|done|done].
  apply List.Forall_forall. intros d Hd. apply (proj1 (forallb_forall _ _) H1) in Hd. lia.
Qed.

(** The three ways to write a character. *)
Lemma format_char_cases c :
  0 < c < 128 ->
  (exists x, Stringifier.format_char c = [92; x] /\ 0 < x < 128 /\ 0 <= class x
             /\ entry EC (class x) = ST_ /\ escape x = [c])
  \/ (0 < c < 32 /\ Stringifier.format_char c = [92; chr "u"] ++ Stringifier.hex4 c)
  \/ (raw c = true /\ Stringifier.format_char c = [c]).
Proof.
  intros Hc. unfold Stringifier.format_char.
  repeat match goal with |- context [if c =? ?k then _ else _] =>
    destruct (Z.eqb_spec c k) as [->|?]; [left; by eexists|] end.
  right. destruct (Z.ltb_spec 0 c), (Z.leb_spec c 0x1F); cbn [andb]; try lia; [left|right]; split; try done; unfold raw; lia.
Qed.

(** The state behind a run of characters that only move. *)
Fixpoint walk (st : Z) (t : list Z) : option Z :=
  match t with
  | [] => Some st
  | c :: t => if (0 <? c) && (c <? 128) && (0 <=? class c) && (0 <=? entry st (class c))
              then walk (entry st (class c)) t else None
  end.

(** ** The text of an integer *)
Local Abbreviation digits := (map NumericString.digit_char).

Lemma walk_digits ds : Forall (fun d => 0 <= d < 10) ds -> walk IT (digits ds) = Some IT.
Proof.
  induction 1 as [|d ds Hd _ IH]; [done|]. simpl.
  assert (Hall : allbelow 10 (fun d => let c := NumericString.digit_char d in
    (0 <? c) && (c <? 128) && (0 <=? class c) && (entry IT (class c) =? IT)) = true) by (vm_compute; reflexivity).
  pose proof (allbelow_spec _ _ Hall d Hd) as Hx. cbv zeta beta in Hx.
  rewrite !andb_true_iff, Z.eqb_eq in Hx. destruct Hx as [[[-> ->] ->] ->]. done.
Qed.

(** The first digit: where it leads from the start of a value and from a sign. *)
Lemma first_digit d : 0 <= d < 10 ->
  let c := NumericString.digit_char d in let s := if d =? 0 then ZE else IT in
  0 < c < 128 /\ 0 <= class c /\ entry MI (class c) = s
  /\ entry VA (class c) = (if d =? 0 then ZX else IX) /\ entry AR (class c) = (if d =? 0 then ZX else IX).
Proof.
  intros Hd. cbv zeta.
  assert (Hall : allbelow 10 (fun d => let c := NumericString.digit_char d in
    (0 <? c) && (c <? 128) && (0 <=? class c) && (entry MI (class c) =? (if d =? 0 then ZE else IT))
    && (entry VA (class c) =? (if d =? 0 then ZX else IX)) && (entry AR (class c) =? (if d =? 0 then ZX else IX))) = true)
    by (vm_compute; reflexivity).
  pose proof (allbelow_spec _ _ Hall d Hd) as Hx. cbv zeta beta in Hx.
  rewrite !andb_true_iff, !Z.eqb_eq in Hx. destruct Hx as [[[[[? ?] ?] ?] ?] ?]. split_and!; try lia; done.
Qed.

(** White space behind a number ends it. *)
Lemma strToInt_loop_white I ws t : white ws -> forall st r,
  NumericString.strToInt_loop I 10 (chr ",") st r (t ++ ws) = NumericString.strToInt_loop I 10 (chr ",") st r t.
Proof.
  intros Hws. induction t as [|c t IH]; intros st r.
  - destruct Hws as [|c ws Hc _]; [done|]. unfold is_white in Hc.
    rewrite !orb_true_iff, !Z.eqb_eq in Hc. destruct Hc as [[[->| ->]| ->]| ->]; reflexivity.
  - cbn [app NumericString.strToInt_loop]. rewrite IH.
    repeat match goal with |- context [let? v := NumericString.arith I ?z in _] =>
      destruct (NumericString.arith I z); cbn [rbind]; rewrite ?IH end; reflexivity.
Qed.

Lemma c_str_nonzero t : Forall (fun c => c <> 0) t -> NumericString.c_str t = t.
Proof. induction 1 as [|c t Hc _ IH]; [done|]. simpl. by rewrite (proj2 (Z.eqb_neq c 0)), IH. Qed.

Lemma strToInt_white I ws c t :
  white ws -> Forall (fun c => c <> 0) (c :: t) -> isspace c = false ->
  NumericString.strToInt I ((c :: t) ++ ws) 10 (chr ",") = NumericString.strToInt I (c :: t) 10 (chr ",").
Proof.
  intros Hws Ht Hc. unfold NumericString.strToInt. rewrite !c_str_nonzero; [|done|].
  - cbn [app NumericString.skip_space]. rewrite Hc. cbv zeta.
    destruct ((10 =? 10) && (c =? chr "-")); [by rewrite strToInt_loop_white|].
    destruct (c =? chr "+"); [by rewrite strToInt_loop_white|]. by rewrite (strToInt_loop_white I ws (c :: t)).
  - apply Forall_app. split; [done|]. eapply Forall_impl; [|exact Hws].
    intros x Hx ->. done.
Qed.

(** The sign and the digits of an integer, and what [parse64] makes of them. *)
Record number (z : Z) (t : list Z) (d : Z) (ds : list Z) : Prop := {
  number_text : t = (if z <? 0 then [chr "-"] else []) ++ digits (d :: ds);
  number_digits : Forall (fun d => 0 <= d < 10) (d :: ds);
  number_lead : d = 0 -> ds = [];
  number_parse : forall ws, white ws -> NumericString.Parser.parse64 (t ++ ws) (chr ",") = Done z
}.

Lemma number_exists z :
  - 2 ^ 63 < z < 2 ^ 63 ->
  exists t d ds, NumericString.Formatter.format_Int64 z = Done t /\ number z t d ds.
Proof.
  intros Hz.
  destruct (NumericString.signed_roundtrip NumericString.Int64 z (chr ",")) as (t & Ht & Hp);
    [done|by vm_compute|simpl; lia|].
  pose proof Ht as Ht'.
  destruct (NumericString.intToStr_text 20 z 10 NumericString.Formatter.POCO_MAX_INT_STRING_LEN) as (ds & Hds & Hval & E);
    [lia|unfold NumericString.MAX_DIGITS; lia|lia|unfold NumericString.Formatter.POCO_MAX_INT_STRING_LEN; lia|].
  rewrite E in Ht'. cbn [NumericString.Formatter.appended rbind app] in Ht'. injection Ht' as Ht'.
  rewrite <-map_rev in Ht'. destruct Hds as (Hd & Hne & Hlead).
  destruct (rev ds) as [|d r] eqn:Er; [by rewrite <-(rev_involutive ds), Er in Hne|].
  assert (Hds : ds = rev r ++ [d]) by by rewrite <-(rev_involutive ds), Er.
  assert (Hdig : Forall (fun d => 0 <= d < 10) (d :: r)) by (rewrite <-Er; by apply Forall_rev).
  exists t, d, r. split; [exact Ht|].
  assert (Hnz : Forall (fun c => c <> 0) (digits (d :: r))).
  { apply List.Forall_map. eapply Forall_impl; [|exact Hdig]. intros x Hx Hx0.
    destruct (NumericString.digit_char_plain x ltac:(simpl in *; lia)) as [Hx1 _]. by rewrite Hx0 in Hx1. }
  split; [done|done| |].
  - intros ->. destruct Hlead as [Hl|Hl]; [|rewrite Hds, length_app, app_nth2 in Hl by (simpl; lia)].
    + rewrite Hl in Er. by injection Er as <-.
    + simpl in Hl. replace (_ - _)%nat with 0%nat in Hl by lia. done.
  - intros ws Hws. unfold NumericString.Parser.parse64, NumericString.Parser.tryParse64. rewrite <-Hp. f_equal.
    subst t. cbn [map]. inversion Hdig as [|? ? Hd0]; subst.
    destruct (NumericString.digit_char_plain d ltac:(lia)) as (_ & Hsp & _).
    destruct (z <? 0).
    + apply (strToInt_white _ ws (chr "-") (digits (d :: r))); try done. by constructor.
    + by apply (strToInt_white _ ws (NumericString.digit_char d) (digits r)).
Qed.
Section Text.
Context {double : Type} (parseFloat : list Z -> res double) (H : Handler double).
Local Abbreviation parser := (Parser_ H).
Local Abbreviation tree := (json double).
Implicit Types (p q : parser) (h : hstate H).

Inductive eats : list Z -> parser -> parser -> Prop :=
| eats_nil p : eats [] p p
| eats_cons c t s p p1 p2 :
    (forall rest, parseChar parseFloat H c (t ++ rest) p = (Done (true, rest), p1)) ->
    eats s p1 p2 -> eats (c :: t ++ s) p p2.

Lemma eats_app s t p p1 p2 : eats s p p1 -> eats t p1 p2 -> eats (s ++ t) p p2.
Proof.
  induction 1 as [p|c u s p q r Hc _ IH]; intros Ht; simpl; [done|].
  rewrite <-app_assoc. eapply eats_cons; [exact Hc|auto].
Qed.

Lemma eats_one c p p' :
  (forall rest, parseChar parseFloat H c rest p = (Done (true, rest), p')) -> eats [c] p p'.
Proof. intros Hc. apply (eats_cons c [] [] p p' p'); [done|constructor]. Qed.

Lemma eats_loop s p p' fuel e :
  eats s p p' -> (length s < fuel)%nat -> parse_loop parseFloat H fuel e s p = (Done tt, p').
Proof.
  intros Hs. revert fuel. induction Hs as [p|c t s p q r Hc _ IH]; intros fuel Hf.
  - by destruct fuel; [lia|].
  - destruct fuel as [|fuel]; [lia|]. simpl. rewrite (bind_Done _ _ _ _ _ (Hc s)). simpl.
    apply IH. rewrite length_cons, length_app in Hf. lia.
Qed.

(** The parser between two steps. *)
Record At p (st : Z) (ty : JSONType) (buf : list Z) h (ms : list Z) : Prop := {
  at_state : _state H p = st;
  at_type : _type H p = ty;
  at_buffer : _parseBuffer H p = buf;
  at_handler : _pHandler H p = Some h;
  at_stack : stack_is H p ms;
  at_escaped : _escaped H p = false;
  at_comment : _comment H p = false;
  at_high : _utf16HighSurrogate H p = 0;
  at_depth : _depth H p < 0
}.

Lemma at_set_buffer p st ty buf h ms b : At p st ty buf h ms -> At (set_buffer H b p) st ty b h ms.
Proof. by intros []. Qed.

Lemma at_set_state p st ty buf h ms s : At p st ty buf h ms -> At (set_state H s p) s ty buf h ms.
Proof. by intros []. Qed.

Lemma at_set_type p st ty buf h ms t : At p st ty buf h ms -> At (set_type H t p) st t buf h ms.
Proof. by intros []. Qed.

Lemma at_set_handler p st ty buf h ms h' : At p st ty buf h ms -> At (set_handler H (Some h') p) st ty buf h' ms.
Proof. by intros []. Qed.

(** An ASCII character: the buffer, then the table. *)
Lemma char_step p st ty buf h ms c rest :
  At p st ty buf h ms -> 0 < c < 128 -> 0 <= class c ->
  parseChar parseFloat H c rest p
  = (let* ok := (if 0 <=? entry st (class c) then do* modify (set_state H (entry st (class c))); ret true
                 else action parseFloat H (entry st (class c))) in ret (ok, rest))
    (set_buffer H (if pushes ty (class c) then buf ++ [c] else buf) p).
Proof.
  intros [E1 E2 E3 E4 E5 E6 E7 E8 E9] Hc Hk. unfold parseChar. rewrite bind_get.
  rewrite (proj2 (Z.eqb_neq c 0)) by lia. rewrite andb_false_r.
  rewrite (proj2 (Z.leb_gt 0x80 c)) by lia. cbv zeta. change (nth (Z.to_nat c) _asciiClass xx) with (class c).
  rewrite (proj2 (Z.leb_gt (class c) xx)) by (unfold xx; lia).
  assert (Hadd : addCharToParseBuffer H c (class c) p
    = (Done tt, set_buffer H (if pushes ty (class c) then buf ++ [c] else buf) p)).
  { unfold addCharToParseBuffer. rewrite bind_get, E6, E7, E2. fold (pushes ty (class c)).
    destruct (pushes ty (class c)); simpl; [unfold parseBufferPushBackChar; by rewrite <-E3|].
    rewrite <-E3. by destruct p. }
  rewrite (bind_Done _ _ _ _ _ Hadd), bind_get. cbn [set_buffer _state]. rewrite E1. done.
Qed.

(** A move, and an action. *)
Lemma eats_move p st ty buf h ms c s :
  At p st ty buf h ms -> 0 < c < 128 -> 0 <= class c -> entry st (class c) = s -> 0 <= s ->
  exists p', eats [c] p p' /\ At p' s ty (if pushes ty (class c) then buf ++ [c] else buf) h ms.
Proof.
  intros Hp Hc Hk He Hs. eexists. split.
  - apply eats_one. intros rest. rewrite (char_step p st ty buf h ms c rest Hp Hc Hk), He.
    rewrite (proj2 (Z.leb_le 0 s)) by done. reflexivity.
  - by eapply at_set_state, at_set_buffer.
Qed.

Lemma eats_action p st ty buf h ms c a p' :
  At p st ty buf h ms -> 0 < c < 128 -> 0 <= class c -> entry st (class c) = a -> a < 0 ->
  action parseFloat H a (set_buffer H (if pushes ty (class c) then buf ++ [c] else buf) p) = (Done true, p') ->
  eats [c] p p'.
Proof.
  intros Hp Hc Hk He Ha Hrun. apply eats_one. intros rest.
  rewrite (char_step p st ty buf h ms c rest Hp Hc Hk), He.
  rewrite (proj2 (Z.leb_gt 0 a)) by done. by rewrite (bind_Done _ _ _ _ _ Hrun).
Qed.

Lemma white_class c : is_white c = true -> 0 < c < 128 /\ 0 <= class c /\ (class c = C_SPACE \/ class c = C_WHITE).
Proof.
  unfold is_white. rewrite !orb_true_iff, !Z.eqb_eq.
  intros [[[->| ->]| ->]| ->]; (split; [lia|]); (split; [done|]); [by left|by right..].
Qed.

(** White space between two tokens. *)
Lemma eats_white ws p st buf h ms :
  At p st T_NONE buf h ms -> In st [GO; OK; OB; KE; CO; VA; AR] -> white ws ->
  exists p', eats ws p p' /\ At p' st T_NONE buf h ms.
Proof.
  intros Hp Hst Hws. revert p Hp. induction Hws as [|c ws Hc _ IH]; intros p Hp.
  { exists p. split; [constructor|done]. }
  destruct (white_class c Hc) as (H1 & H2 & H3).
  destruct (eats_move p st T_NONE buf h ms c st Hp H1 H2) as (p1 & E1 & Hp1).
  - simpl in Hst. destruct H3 as [->| ->]; intuition (subst; done).
  - simpl in Hst. intuition (subst; done).
  - assert (pushes T_NONE (class c) = false) as Hpu by (destruct H3 as [->| ->]; done). rewrite Hpu in Hp1.
    destruct (IH p1 Hp1) as (p2 & E2 & Hp2). exists p2. split; [|done].
    by apply (eats_app [c] ws p p1 p2).
Qed.

(** ** Behind a value *)

(** The value is on its way: [parseBuffer] brings the handler to [h],
    with white space behind the text of the value or not. *)
Record After p h (m : Z) (ms : list Z) : Prop := {
  after_at : exists st ty buf h1, At p st ty buf h1 (m :: ms) /\ In st [OK; ZE; IT] /\ ty <> T_STRING
    /\ forall q ws, _pHandler H q = Some h1 -> _type H q = ty -> _parseBuffer H q = buf ++ ws -> white ws ->
         parseBuffer parseFloat H q = (Done tt, set_buffer H [] (set_handler H (Some h) q))
}.

Lemma parseBuffer_none q h :
  _pHandler H q = Some h -> _type H q = T_NONE ->
  parseBuffer parseFloat H q = (Done tt, set_buffer H [] (set_handler H (Some h) q)).
Proof.
  intros Hh Ht. unfold parseBuffer. rewrite bind_get, Hh, Ht, bind_ret. unfold clearBuffer, modify.
  do 2 f_equal. destruct q. simpl in *. by subst.
Qed.

Lemma after_ok p h m ms : At p OK T_NONE [] h (m :: ms) -> After p h m ms.
Proof.
  intros Hp. split. exists OK, T_NONE, [], h. split_and!; try done; [by left|].
  intros q ws Hh Ht _ _. by apply parseBuffer_none.
Qed.

Lemma after_white ws p h m ms :
  After p h m ms -> white ws -> exists p', eats ws p p' /\ After p' h m ms.
Proof.
  intros Hp Hws. revert p Hp. induction Hws as [|c ws Hc _ IH]; intros p Hp.
  { exists p. split; [constructor|done]. }
  destruct (white_class c Hc) as (H1 & H2 & H3). destruct Hp as [(st & ty & buf & h1 & Hp & Hst & Hty & Hfl)].
  destruct (eats_move p st ty buf h1 (m :: ms) c OK Hp H1 H2) as (p1 & E1 & Hp1); [|done|].
  { simpl in Hst. destruct H3 as [->| ->]; intuition (subst; done). }
  destruct (IH p1) as (p2 & E2 & Hp2).
  - split. exists OK, ty, (if pushes ty (class c) then buf ++ [c] else buf), h1.
    split_and!; [done|by left|done|]. intros q ws' Hh Ht Hb Hws'.
    destruct (pushes ty (class c)).
    + apply (Hfl q (c :: ws')); try done; [by rewrite Hb, <-app_assoc|by constructor].
    + by apply (Hfl q ws').
  - exists p2. split; [|done]. by apply (eats_app [c] ws p p1 p2).
Qed.

(** Popping the delimiter and passing the value on. *)
Lemma pop_flush p st ty buf h1 h ms c k (K : ST (Parser_ H) bool) :
  At p st ty buf h1 ms -> pushes ty k = true ->
  (forall q, _pHandler H q = Some h1 -> _type H q = ty -> _parseBuffer H q = buf ->
     parseBuffer parseFloat H q = (Done tt, set_buffer H [] (set_handler H (Some h) q))) ->
  bind (parseBufferPopBackChar H) (fun _ => bind (parseBuffer parseFloat H) (fun _ => K))
    (set_buffer H (if pushes ty k then buf ++ [c] else buf) p)
  = K (set_buffer H [] (set_handler H (Some h) p)).
Proof.
  intros Hp -> Hfl. unfold parseBufferPopBackChar. rewrite bind_bind, bind_get. cbn [set_buffer _parseBuffer].
  assert ((1 <=? length (buf ++ [c]))%nat = true) as -> by (apply Nat.leb_le; rewrite length_app; simpl; lia).
  rewrite bind_bind. unfold poco_assert. rewrite bind_ret, bind_modify. cbn [set_buffer _parseBuffer].
  rewrite removelast_last.
  erewrite bind_Done by (apply Hfl; [apply Hp|apply Hp|reflexivity]). by destruct p.
Qed.

(** Delimiters are not white space. *)
Lemma delimiter_pushes c : In c [44; 93; 125; 58; 91; 123; 34] -> forall ty, pushes ty (class c) = true.
Proof. intros Hc ty. simpl in Hc. unfold pushes. intuition (subst; by rewrite orb_true_r). Qed.

(** The character behind a value: the pending value reaches the handler, then [K] runs. *)
Lemma after_flush p h m ms c a (K : ST parser bool) :
  After p h m ms -> In c [44; 93; 125] ->
  (forall st, In st [OK; ZE; IT] -> entry st (class c) = a) -> a < 0 ->
  (forall p0, action parseFloat H a p0 = (do* parseBufferPopBackChar H; do* parseBuffer parseFloat H; K) p0) ->
  exists q st ty, At q st ty [] h (m :: ms) /\ ty <> T_STRING
    /\ forall p', K q = (Done true, p') -> eats [c] p p'.
Proof.
  intros [(st & ty & buf & h1 & Hp & Hst & Hty & Hfl)] Hc He Ha HK.
  assert (Hpu : pushes ty (class c) = true) by (apply delimiter_pushes; simpl in *; tauto).
  assert (Hc' : 0 < c < 128 /\ 0 <= class c) by (simpl in Hc; intuition (subst; done)).
  exists (set_buffer H [] (set_handler H (Some h) p)), st, ty.
  split; [by eapply at_set_buffer, at_set_handler|]. split; [done|]. intros p' Hrun.
  apply (eats_action p st ty buf h1 (m :: ms) c a p' Hp); [apply Hc'..|by apply He|done|].
  rewrite HK, (pop_flush p st ty buf h1 h (m :: ms) c (class c) K Hp Hpu); [done|].
  intros q Hh Ht Hb. apply (Hfl q []); try done; [by rewrite app_nil_r|constructor].
Qed.

Lemma type_is_not_run q t : _type H q <> t -> type_is_not H t q = (Done tt, q).
Proof. intros Ht. unfold type_is_not. rewrite bind_get. destruct (_type H q), t; done. Qed.

Lemma type_is_run q t : _type H q = t -> type_is H t q = (Done tt, q).
Proof. intros Ht. unfold type_is. rewrite bind_get, Ht. by destruct t. Qed.

Lemma call_run e q h h' :
  _pHandler H q = Some h -> on H e h = (Done tt, h') -> call H e q = (Done tt, set_handler H (Some h') q).
Proof. intros Hh He. unfold call. by rewrite Hh, He. Qed.

(** [pop] and [push] between two steps. *)
Lemma at_pop p st ty buf h m ms :
  At p st ty buf h (m :: ms) -> exists q, pop H m p = (Done true, q) /\ At q st ty buf h ms.
Proof.
  intros Hp. destruct (pop_spec parseFloat H p m ms m (at_stack _ _ _ _ _ _ Hp)) as [E Hst].
  eexists. rewrite E, Z.eqb_refl. split; [done|]. by destruct Hp.
Qed.

Lemma at_push p st ty buf h ms m :
  At p st ty buf h ms -> ms <> [] -> exists q, push H m p = (Done true, q) /\ At q st ty buf h (m :: ms).
Proof.
  intros Hp Hne.
  destruct (push_spec parseFloat H p ms m (at_stack _ _ _ _ _ _ Hp) Hne (at_depth _ _ _ _ _ _ Hp)) as (l & E & Hst).
  eexists. split; [exact E|]. by destruct Hp.
Qed.

Lemma eats_comma_array p h ms :
  After p h MODE_ARRAY ms -> exists p', eats [44] p p' /\ At p' VA T_NONE [] h (MODE_ARRAY :: ms).
Proof.
  intros Hp. edestruct (after_flush p h MODE_ARRAY ms 44 (-3)) as (q & st & ty & Hq & Hty & Heat);
    [done|by left|intros st; simpl; intuition (subst; done)|done|reflexivity|].
  eexists. split.
  - apply Heat. rewrite (bind_Done _ _ _ _ _ (stack_top_spec parseFloat H q MODE_ARRAY ms (at_stack _ _ _ _ _ _ Hq))).
    cbv [Z.eqb MODE_ARRAY MODE_OBJECT Pos.eqb].
    rewrite (bind_Done _ _ _ _ _ (type_is_not_run q T_STRING ltac:(by rewrite (at_type _ _ _ _ _ _ Hq)))).
    reflexivity.
  - by eapply at_set_state, at_set_type.
Qed.

Lemma eats_comma_object p h ms :
  After p h MODE_OBJECT ms -> ms <> [] -> exists p', eats [44] p p' /\ At p' KE T_NONE [] h (MODE_KEY :: ms).
Proof.
  intros Hp Hne. edestruct (after_flush p h MODE_OBJECT ms 44 (-3)) as (q & st & ty & Hq & Hty & Heat);
    [done|by left|intros st; simpl; intuition (subst; done)|done|reflexivity|].
  destruct (at_pop _ _ _ _ _ _ _ Hq) as (q1 & E1 & Hq1).
  destruct (at_push _ _ _ _ _ _ MODE_KEY Hq1 Hne) as (q2 & E2 & Hq2).
  eexists. split.
  - apply Heat. rewrite (bind_Done _ _ _ _ _ (stack_top_spec parseFloat H q MODE_OBJECT ms (at_stack _ _ _ _ _ _ Hq))).
    change (MODE_OBJECT =? MODE_OBJECT) with true. cbv iota. unfold when.
    rewrite (bind_Done _ _ _ _ _ E1), (bind_Done _ _ _ _ _ E2).
    rewrite (bind_Done _ _ _ _ _ (type_is_not_run q2 T_STRING ltac:(by rewrite (at_type _ _ _ _ _ _ Hq2)))).
    reflexivity.
  - by eapply at_set_state, at_set_type.
Qed.

(** The end of a container behind a value. *)
Lemma eats_close p h h' m ms c :
  After p h m ms ->
  (c = 93 /\ m = MODE_ARRAY /\ on H EndArray h = (Done tt, h')
   \/ c = 125 /\ m = MODE_OBJECT /\ on H EndObject h = (Done tt, h')) ->
  exists p', eats [c] p p' /\ At p' OK T_NONE [] h' ms.
Proof.
  intros Hp Hc.
  assert (exists e a, on H e h = (Done tt, h') /\ In c [44; 93; 125] /\ a < 0
    /\ (forall st, In st [OK; ZE; IT] -> entry st (class c) = a)
    /\ forall p0, action parseFloat H a p0 = (do* parseBufferPopBackChar H; do* parseBuffer parseFloat H;
         do* call H e; when H (pop H m) (enter H T_NONE OK)) p0) as (e & a & He & Hin & Ha & Hent & Hact).
  { destruct Hc as [(-> & -> & Hc)|(-> & -> & Hc)]; [exists EndArray, (-7)|exists EndObject, (-8)];
      (split_and!; [done|simpl; tauto|done|intros st; simpl; intuition (subst; done)|reflexivity]). }
  destruct (after_flush p h m ms c a _ Hp Hin Hent Ha Hact) as (q & st & ty & Hq & Hty & Heat).
  destruct (at_pop _ _ _ _ _ _ _ (at_set_handler _ _ _ _ _ _ h' Hq)) as (q1 & E1 & Hq1).
  eexists. split.
  - apply Heat. rewrite (bind_Done _ _ _ _ _ (call_run e q h h' (at_handler _ _ _ _ _ _ Hq) He)). unfold when.
    rewrite (bind_Done _ _ _ _ _ E1). reflexivity.
  - by eapply at_set_state, at_set_type.
Qed.

(** ** Brackets, colons and quotes *)
Lemma popBack_one q c : _parseBuffer H q = [c] -> parseBufferPopBackChar H q = (Done tt, set_buffer H [] q).
Proof. intros Hb. unfold parseBufferPopBackChar. rewrite bind_get, Hb. simpl. unfold bind, modify. simpl. by rewrite Hb. Qed.

Lemma eats_open p st h h' ms c :
  At p st T_NONE [] h ms -> In st [GO; VA; AR] -> ms <> [] ->
  (c = 91 /\ on H StartArray h = (Done tt, h') -> exists p', eats [c] p p' /\ At p' AR T_NONE [] h' (MODE_ARRAY :: ms))
  /\ (c = 123 /\ on H StartObject h = (Done tt, h') ->
       exists p', eats [c] p p' /\ At p' OB T_NONE [] h' (MODE_KEY :: ms)).
Proof.
  intros Hp Hst Hne.
  assert (Hgen : forall e a mode s, on H e h = (Done tt, h') -> a < 0 -> In c [91; 123] ->
    (forall st, In st [GO; VA; AR] -> entry st (class c) = a) ->
    (forall p0, action parseFloat H a p0 = (do* parseBufferPopBackChar H; do* call H e;
       when H (push H mode) (do* type_is H T_NONE; do* modify (set_state H s); ret true)) p0) ->
    exists p', eats [c] p p' /\ At p' s T_NONE [] h' (mode :: ms)).
  { intros e a mode s He Ha Hc Hent Hact.
    set (q := set_buffer H [] (set_buffer H [c] p)).
    assert (Hq : At q st T_NONE [] h ms) by by eapply at_set_buffer, at_set_buffer.
    destruct (at_push _ _ _ _ _ _ mode (at_set_handler _ _ _ _ _ _ h' Hq) Hne) as (q1 & E1 & Hq1).
    eexists. split; [|by eapply at_set_state].
    apply (eats_action p st T_NONE [] h ms c a _ Hp); [simpl in Hc; intuition lia|simpl in Hc; intuition (subst; done)|by apply Hent|done|].
    rewrite (delimiter_pushes c) by (simpl in *; tauto). rewrite Hact.
    rewrite (bind_Done _ _ _ _ _ (popBack_one (set_buffer H ([] ++ [c]) p) c eq_refl)).
    rewrite (bind_Done _ _ _ _ _ (call_run e q h h' (at_handler _ _ _ _ _ _ Hq) He)). unfold when.
    rewrite (bind_Done _ _ _ _ _ E1).
    rewrite (bind_Done _ _ _ _ _ (type_is_run q1 T_NONE (at_type _ _ _ _ _ _ Hq1))). reflexivity. }
  split; intros [-> He].
  - apply (Hgen StartArray (-5)); [done|done|by left| |reflexivity]. intros s; simpl; intuition (subst; done).
  - apply (Hgen StartObject (-6)); [done|done|by right; left| |reflexivity]. intros s; simpl; intuition (subst; done).
Qed.

Lemma eats_empty_array p h h' ms :
  At p AR T_NONE [] h (MODE_ARRAY :: ms) -> on H EndArray h = (Done tt, h') ->
  exists p', eats [93] p p' /\ At p' OK T_NONE [] h' ms.
Proof.
  intros Hp He. set (q := set_buffer H [] (set_handler H (Some h) p)).
  assert (Hq : At q AR T_NONE [] h (MODE_ARRAY :: ms)) by by eapply at_set_buffer, at_set_handler.
  destruct (at_pop _ _ _ _ _ _ _ (at_set_handler _ _ _ _ _ _ h' Hq)) as (q1 & E1 & Hq1).
  eexists. split; [|by eapply at_set_state, at_set_type].
  eapply (eats_action p AR T_NONE [] h (MODE_ARRAY :: ms) 93 (-7) _ Hp); [done|done|done|done|]. run_action.
  rewrite (pop_flush p AR T_NONE [] h h (MODE_ARRAY :: ms) 93 (class 93) _ Hp); [|done|by intros; apply parseBuffer_none].
  fold q. rewrite (bind_Done _ _ _ _ _ (call_run EndArray q h h' (at_handler _ _ _ _ _ _ Hq) He)). unfold when.
  rewrite (bind_Done _ _ _ _ _ E1). reflexivity.
Qed.

Lemma eats_empty_object p h h' ms :
  At p OB T_NONE [] h (MODE_KEY :: ms) -> on H EndObject h = (Done tt, h') ->
  exists p', eats [125] p p' /\ At p' OK T_NONE [] h' ms.
Proof.
  intros Hp He. set (q := set_buffer H [] (set_buffer H [125] p)).
  assert (Hq : At q OB T_NONE [] h (MODE_KEY :: ms)) by by eapply at_set_buffer, at_set_buffer.
  destruct (at_pop _ _ _ _ _ _ _ (at_set_handler _ _ _ _ _ _ h' Hq)) as (q1 & E1 & Hq1).
  eexists. split; [|by eapply at_set_state].
  eapply (eats_action p OB T_NONE [] h (MODE_KEY :: ms) 125 (-9) _ Hp); [done|done|done|done|]. run_action.
  unfold clearBuffer. rewrite bind_modify. fold q.
  rewrite (bind_Done _ _ _ _ _ (call_run EndObject q h h' (at_handler _ _ _ _ _ _ Hq) He)). unfold when.
  rewrite (bind_Done _ _ _ _ _ E1). reflexivity.
Qed.

Lemma eats_colon p h ms :
  At p CO T_NONE [] h (MODE_KEY :: ms) -> ms <> [] ->
  exists p', eats [58] p p' /\ At p' VA T_NONE [] h (MODE_OBJECT :: ms).
Proof.
  intros Hp Hne. set (q := set_buffer H [] (set_buffer H [58] p)).
  assert (Hq : At q CO T_NONE [] h (MODE_KEY :: ms)) by by eapply at_set_buffer, at_set_buffer.
  destruct (at_pop _ _ _ _ _ _ _ Hq) as (q1 & E1 & Hq1).
  destruct (at_push _ _ _ _ _ _ MODE_OBJECT Hq1 Hne) as (q2 & E2 & Hq2).
  eexists. split; [|by eapply at_set_state].
  eapply (eats_action p CO T_NONE [] h (MODE_KEY :: ms) 58 (-2) _ Hp); [done|done|done|done|]. run_action.
  rewrite (bind_Done _ _ _ _ _ (popBack_one (set_buffer H [58] p) 58 eq_refl)). fold q. unfold when.
  rewrite (bind_Done _ _ _ _ _ E1), (bind_Done _ _ _ _ _ E2).
  rewrite (bind_Done _ _ _ _ _ (type_is_run q2 T_NONE (at_type _ _ _ _ _ _ Hq2))). reflexivity.
Qed.

Lemma eats_quote p st h ms :
  At p st T_NONE [] h ms -> In st [OB; KE; VA; AR] -> exists p', eats [34] p p' /\ At p' ST_ T_STRING [] h ms.
Proof.
  intros Hp Hst. set (q := set_buffer H [] (set_buffer H [34] p)).
  assert (Hq : At q st T_NONE [] h ms) by by eapply at_set_buffer, at_set_buffer.
  eexists. split; [|by eapply at_set_state, at_set_type].
  eapply (eats_action p st T_NONE [] h ms 34 SB _ Hp); [done|done| |done|].
  { simpl in Hst. intuition (subst; done). }
  run_action. unfold clearBuffer. rewrite bind_modify. fold q.
  rewrite (bind_Done _ _ _ _ _ (type_is_run q T_NONE (at_type _ _ _ _ _ _ Hq))). reflexivity.
Qed.

(** ** Strings *)
Lemma eats_raw p b h ms c :
  At p ST_ T_STRING b h ms -> raw c = true -> exists p', eats [c] p p' /\ At p' ST_ T_STRING (b ++ [c]) h ms.
Proof.
  intros Hp Hc. destruct (raw_class c Hc) as (H1 & H2 & H3).
  by apply (eats_move p ST_ T_STRING b h ms c ST_ Hp H1 H2 H3).
Qed.

(** A sequence of several bytes is taken as a whole. *)
Lemma eats_seq p b h ms c t :
  At p ST_ T_STRING b h ms -> 0x80 <= c -> utf8CheckFirst c = S (length t) -> UTF8.isLegal (c :: t) = true ->
  exists p', eats (c :: t) p p' /\ At p' ST_ T_STRING (b ++ c :: t) h ms.
Proof.
  intros Hp Hc Hn Hl. exists (set_buffer H (b ++ c :: t) p). split; [|by eapply at_set_buffer].
  assert (Hgoal : eats (c :: t ++ []) p (set_buffer H (b ++ c :: t) p)); [|by rewrite app_nil_r in Hgoal].
  apply (eats_cons c t [] _ (set_buffer H (b ++ c :: t) p)); [|constructor].
  intros rest. unfold parseChar. rewrite bind_get, (proj2 (Z.eqb_neq c 0)), andb_false_r by lia.
  rewrite (proj2 (Z.leb_le 0x80 c)) by done. cbv zeta. rewrite Hn. cbn [Nat.eqb Nat.sub].
  rewrite Nat.sub_0_r, (proj2 (Nat.ltb_ge _ _)) by (rewrite length_app; lia).
  rewrite take_app_length, drop_app_length, Hl. cbn [negb]. rewrite bind_modify.
  by rewrite (at_buffer _ _ _ _ _ _ Hp).
Qed.

Lemma popBack_app q b c : _parseBuffer H q = b ++ [c] -> parseBufferPopBackChar H q = (Done tt, set_buffer H b q).
Proof.
  intros Hb. unfold parseBufferPopBackChar. rewrite bind_get, Hb, length_app, Nat.add_comm. simpl.
  unfold bind, modify. simpl. by rewrite Hb, removelast_last.
Qed.

(** A backslash and the character behind it. *)
Lemma eats_escape p b h ms x s :
  At p ST_ T_STRING b h ms -> 0 < x < 128 -> 0 <= class x -> entry EC (class x) = s -> 0 <= s ->
  exists p', eats [92; x] p p' /\ At p' s T_STRING (b ++ escape x) h ms.
Proof.
  intros Hp Hx Hk He Hs. set (q := set_state H EC (set_escaped H true (set_buffer H (b ++ [92]) p))).
  assert (Hq : eats [92] p q)
    by (apply (eats_action p ST_ T_STRING b h ms 92 EX q Hp); [done|done|done|done|reflexivity]).
  set (q' := set_state H s (set_buffer H (b ++ escape x) (set_buffer H b (set_escaped H false q)))).
  exists q'. split.
  - apply (eats_app [92] [x] p q q' Hq). apply eats_one. intros rest. unfold parseChar. rewrite bind_get.
    rewrite (proj2 (Z.eqb_neq x 0)), andb_false_r by lia. rewrite (proj2 (Z.leb_gt 0x80 x)) by lia. cbv zeta.
    change (nth (Z.to_nat x) _asciiClass xx) with (class x). rewrite (proj2 (Z.leb_gt (class x) xx)) by (unfold xx; lia).
    assert (Hadd : addCharToParseBuffer H x (class x) q
      = (Done tt, set_buffer H (b ++ escape x) (set_buffer H b (set_escaped H false q)))).
    { unfold addCharToParseBuffer. rewrite bind_get. cbn [q set_state set_escaped _escaped].
      unfold addEscapedCharToParseBuffer. rewrite bind_modify.
      rewrite (bind_Done _ _ _ _ _ (popBack_app (set_escaped H false q) b 92 eq_refl)). reflexivity. }
    rewrite (bind_Done _ _ _ _ _ Hadd), bind_get. cbn [q set_state set_escaped set_buffer _state].
    fold (entry EC (class x)). rewrite He, (proj2 (Z.leb_le 0 s)) by done. reflexivity.
  - destruct Hp. by split.
Qed.

Lemma decode_run q b c h ms st :
  At q st T_STRING (b ++ [92; chr "u"] ++ Stringifier.hex4 c) h ms -> 0 < c < 32 ->
  decodeUnicodeChar H q = (Done true, set_buffer H (b ++ [c]) (set_buffer H b q)).
Proof.
  intros Hq Hc. destruct (hex4_digits c Hc) as (_ & Hd & Hv). unfold decodeUnicodeChar.
  rewrite bind_get, (at_buffer _ _ _ _ _ _ Hq), app_assoc.
  assert (Hlen : length ((b ++ [92; chr "u"]) ++ Stringifier.hex4 c) = (length b + 6)%nat)
    by (rewrite !length_app; simpl; lia).
  cbv zeta. unfold poco_assert. rewrite Hlen, (proj2 (Nat.leb_le _ _)) by lia. rewrite bind_ret.
  replace (length b + 6 - 4)%nat with (length (b ++ [92; chr "u"])) by (rewrite length_app; simpl; lia).
  rewrite drop_app_length, Hd, bind_ret, Hv, (proj2 (Z.eqb_neq c 0)), andb_false_r by lia.
  replace (length b + 6 - 6)%nat with (length b) by lia. rewrite <-app_assoc, take_app_length, bind_modify.
  rewrite (at_high _ _ _ _ _ _ Hq). cbn [Z.eqb negb]. rewrite (proj2 (Z.ltb_lt c 128)), bind_modify by lia.
  assert (utf8_bytes c 0 = [c]) as ->; [|done].
  unfold utf8_bytes. simpl. rewrite Z.shiftr_0_r, Z.lor_0_r. unfold u8. rewrite Z.mod_small by lia. done.
Qed.

Lemma eats_unicode p b h ms c :
  At p ST_ T_STRING b h ms -> 0 < c < 32 ->
  exists p', eats ([92; chr "u"] ++ Stringifier.hex4 c) p p' /\ At p' ST_ T_STRING (b ++ [c]) h ms.
Proof.
  intros Hp Hc. destruct (hex4_digits c Hc) as (Hf & _ & _).
  destruct (eats_escape p b h ms (chr "u") U1 Hp ltac:(done) ltac:(done) ltac:(done) ltac:(done)) as (p1 & E1 & Hp1).
  change (escape (chr "u")) with [92; chr "u"] in Hp1.
  pose proof (fun q st => decode_run q b c h ms st) as Hdec.
  unfold Stringifier.hex4 in *. set (d1 := NumericString.digit_char (c / 16)) in *.
  set (d0 := NumericString.digit_char (c mod 16)) in *.
  repeat match goal with Hx : Forall _ (_ :: _) |- _ => apply Forall_cons_iff in Hx as [(? & ? & ? & ? & ? & ?) Hx] end.
  destruct (eats_move _ _ _ _ _ _ (chr "0") U2 Hp1) as (p2 & E2 & Hp2); try done.
  destruct (eats_move _ _ _ _ _ _ (chr "0") U3 Hp2) as (p3 & E3 & Hp3); try done.
  destruct (eats_move _ _ _ _ _ _ d1 U4 Hp3) as (p4 & E4 & Hp4); try done.
  cbn [pushes type_eqb negb orb] in *. rewrite <-!app_assoc in Hp4. cbn [app] in Hp4.
  set (q := set_buffer H (b ++ [92; chr "u"; chr "0"; chr "0"; d1; d0]) p4).
  assert (Hq : At q U4 T_STRING (b ++ [92; chr "u"; chr "0"; chr "0"; d1; d0]) h ms) by by eapply at_set_buffer.
  set (q' := set_buffer H (b ++ [c]) (set_buffer H b q)).
  assert (Hq' : At q' U4 T_STRING (b ++ [c]) h ms) by by eapply at_set_buffer, at_set_buffer.
  exists (set_state H ST_ q'). split; [|by eapply at_set_state].
  apply (eats_app [92; chr "u"] _ p p1 _ E1), (eats_app [chr "0"] _ p1 p2 _ E2), (eats_app [chr "0"] _ p2 p3 _ E3),
    (eats_app [d1] _ p3 p4 _ E4).
  apply (eats_action _ _ _ _ _ _ d0 UC _ Hp4); [done|done|done|done|].
  cbn [pushes type_eqb negb orb]. rewrite <-app_assoc. cbn [app]. fold q. run_action. unfold when.
  rewrite (bind_Done _ _ _ _ _ (Hdec q U4 Hq Hc)). fold q'. rewrite bind_get, (at_high _ _ _ _ _ _ Hq'). reflexivity.
Qed.

(** A character of a string as [formatString] writes it. *)
Lemma eats_format_char p b h ms c :
  At p ST_ T_STRING b h ms -> 0 < c < 128 ->
  exists p', eats (Stringifier.format_char c) p p' /\ At p' ST_ T_STRING (b ++ [c]) h ms.
Proof.
  intros Hp Hc.
  destruct (format_char_cases c Hc) as [(x & -> & Hx & Hk & He & <-)|[[Hl ->]|[Hr ->]]].
  - by apply (eats_escape p b h ms x ST_ Hp).
  - by apply eats_unicode.
  - by apply eats_raw.
Qed.

(** The texts of strings and of keys. *)
Lemma eats_formatted s : utf8_text (fun _ => true) s -> forall p b h ms,
  At p ST_ T_STRING b h ms ->
  exists p', eats (concat (map Stringifier.format_char s)) p p' /\ At p' ST_ T_STRING (b ++ s) h ms.
Proof.
  induction 1 as [|c s Hc _ _ IH|c t s Hc Hn Hl Ht _ IH]; intros p b h ms Hp.
  - exists p. rewrite app_nil_r. split; [constructor|done].
  - destruct (eats_format_char p b h ms c Hp Hc) as (p1 & E1 & Hp1).
    destruct (IH p1 _ h ms Hp1) as (p2 & E2 & Hp2). exists p2. rewrite <-app_assoc in Hp2.
    split; [|done]. by apply (eats_app _ _ p p1 p2).
  - destruct (eats_seq p b h ms c t Hp Hc Hn Hl) as (p1 & E1 & Hp1).
    destruct (IH p1 _ h ms Hp1) as (p2 & E2 & Hp2). exists p2. rewrite <-app_assoc in Hp2. split; [|done].
    rewrite map_app, concat_app. apply (eats_app _ _ p p1 p2); [|done].
    assert (Hid : forall t, Forall (fun b => 0x80 <= b) t -> concat (map Stringifier.format_char t) = t).
    { induction 1 as [|x u Hx _ IHu]; [done|]. simpl. rewrite IHu. unfold Stringifier.format_char.
      repeat match goal with |- context [if x =? ?k then _ else _] =>
        rewrite (proj2 (Z.eqb_neq x k)) by lia end.
      rewrite (proj2 (Z.leb_gt x 0x1F)), andb_false_r by lia. done. }
    rewrite Hid by by constructor. done.
Qed.

Lemma eats_raw_text s : utf8_text raw s -> forall p b h ms,
  At p ST_ T_STRING b h ms -> exists p', eats s p p' /\ At p' ST_ T_STRING (b ++ s) h ms.
Proof.
  induction 1 as [|c s Hc Hr _ IH|c t s Hc Hn Hl Ht _ IH]; intros p b h ms Hp.
  - exists p. rewrite app_nil_r. split; [constructor|done].
  - destruct (eats_raw p b h ms c Hp Hr) as (p1 & E1 & Hp1).
    destruct (IH p1 _ h ms Hp1) as (p2 & E2 & Hp2). exists p2. rewrite <-app_assoc in Hp2.
    split; [|done]. by apply (eats_app [c] _ p p1 p2).
  - destruct (eats_seq p b h ms c t Hp Hc Hn Hl) as (p1 & E1 & Hp1).
    destruct (IH p1 _ h ms Hp1) as (p2 & E2 & Hp2). exists p2. rewrite <-app_assoc in Hp2. split; [|done].
    by apply (eats_app _ _ p p1 p2).
Qed.

(** The quote at the end of a value, and of a key. *)
Lemma eats_end_string p b h h' m ms :
  At p ST_ T_STRING b h (m :: ms) -> m = MODE_ARRAY \/ m = MODE_OBJECT ->
  on H (Value (VString b)) h = (Done tt, h') ->
  exists p', eats [34] p p' /\ At p' OK T_NONE [] h' (m :: ms).
Proof.
  intros Hp Hm He. set (q := set_buffer H b (set_buffer H (b ++ [34]) p)).
  assert (Hq : At q ST_ T_STRING b h (m :: ms)) by by eapply at_set_buffer, at_set_buffer.
  exists (set_state H OK (set_type H T_NONE (set_buffer H [] (set_handler H (Some h') q)))).
  split; [|by eapply at_set_state, at_set_type, at_set_buffer, at_set_handler].
  eapply (eats_action p ST_ T_STRING b h (m :: ms) 34 (-4) _ Hp); [done|done|done|done|]. run_action.
  rewrite (bind_Done _ _ _ _ _ (popBack_app (set_buffer H (b ++ [34]) p) b 34 eq_refl)). fold q.
  rewrite (bind_Done _ _ _ _ _ (stack_top_spec parseFloat H q m ms (at_stack _ _ _ _ _ _ Hq))).
  assert (Hpb : parseBuffer parseFloat H q = (Done tt, set_buffer H [] (set_handler H (Some h') q))).
  { unfold parseBuffer. rewrite bind_get, (at_handler _ _ _ _ _ _ Hq), (at_type _ _ _ _ _ _ Hq), (at_buffer _ _ _ _ _ _ Hq).
    by rewrite (bind_Done _ _ _ _ _ (call_run _ q h h' (at_handler _ _ _ _ _ _ Hq) He)). }
  transitivity ((do* type_is H T_STRING; do* parseBuffer parseFloat H; enter H T_NONE OK) q);
    [by destruct Hm as [->| ->]|].
  rewrite (bind_Done _ _ _ _ _ (type_is_run q T_STRING (at_type _ _ _ _ _ _ Hq))), (bind_Done _ _ _ _ _ Hpb).
  reflexivity.
Qed.

Lemma eats_end_key p b h h' ms :
  At p ST_ T_STRING b h (MODE_KEY :: ms) -> on H (Key b) h = (Done tt, h') ->
  exists p', eats [34] p p' /\ At p' CO T_NONE [] h' (MODE_KEY :: ms).
Proof.
  intros Hp He. set (q := set_buffer H b (set_buffer H (b ++ [34]) p)).
  assert (Hq : At q ST_ T_STRING b h (MODE_KEY :: ms)) by by eapply at_set_buffer, at_set_buffer.
  set (q1 := set_state H CO (set_type H T_NONE q)).
  assert (Hq1 : At q1 CO T_NONE b h (MODE_KEY :: ms)) by by eapply at_set_state, at_set_type.
  exists (set_buffer H [] (set_handler H (Some h') q1)). split; [|by eapply at_set_buffer, at_set_handler].
  eapply (eats_action p ST_ T_STRING b h (MODE_KEY :: ms) 34 (-4) _ Hp); [done|done|done|done|]. run_action.
  rewrite (bind_Done _ _ _ _ _ (popBack_app (set_buffer H (b ++ [34]) p) b 34 eq_refl)). fold q.
  rewrite (bind_Done _ _ _ _ _ (stack_top_spec parseFloat H q MODE_KEY ms (at_stack _ _ _ _ _ _ Hq))).
  change (MODE_KEY =? MODE_KEY) with true. cbv iota.
  rewrite (bind_Done _ _ _ _ _ (type_is_run q T_STRING (at_type _ _ _ _ _ _ Hq))), !bind_modify, bind_get. fold q1.
  rewrite (at_buffer _ _ _ _ _ _ Hq1), (bind_Done _ _ _ _ _ (call_run _ q1 h h' (at_handler _ _ _ _ _ _ Hq1) He)).
  reflexivity.
Qed.

(** ** Literals and numbers *)
Lemma eats_walk t : forall p st ty b h ms s,
  At p st ty b h ms -> ty <> T_NONE -> walk st t = Some s ->
  exists p', eats t p p' /\ At p' s ty (b ++ t) h ms.
Proof.
  induction t as [|c t IH]; intros p st ty b h ms s Hp Hty Hw; simpl in Hw.
  - injection Hw as ->. exists p. rewrite app_nil_r. split; [constructor|done].
  - destruct (_ && _) eqn:Hc; [|done]. rewrite !andb_true_iff, Z.ltb_lt, Z.ltb_lt, !Z.leb_le in Hc.
    destruct Hc as [[[H1 H2] H3] H4].
    destruct (eats_move p st ty b h ms c _ Hp (conj H1 H2) H3 eq_refl H4) as (p1 & E1 & Hp1).
    assert (pushes ty (class c) = true) as Hpu by (unfold pushes; by destruct ty). rewrite Hpu in Hp1.
    destruct (IH p1 _ _ _ _ _ _ Hp1 Hty Hw) as (p2 & E2 & Hp2). exists p2. rewrite <-app_assoc in Hp2.
    split; [|done]. by apply (eats_app [c] t p p1 p2).
Qed.

(** The first character of a value chooses the type. *)
Lemma eats_first p st h ms c a ty s :
  At p st T_NONE [] h ms -> 0 < c < 128 -> 0 <= class c -> entry st (class c) = a -> a < 0 ->
  pushes T_NONE (class c) = true ->
  (forall q, _type H q = T_NONE -> action parseFloat H a q = (Done true, set_state H s (set_type H ty q))) ->
  exists p', eats [c] p p' /\ At p' s ty [c] h ms.
Proof.
  intros Hp Hc Hk He Ha Hpu Hact. eexists. split; [|by eapply at_set_state, at_set_type, at_set_buffer].
  eapply (eats_action p st T_NONE [] h ms c a _ Hp); [done..|]. rewrite Hpu. apply Hact. apply Hp.
Qed.

(** [true], [false] and [null]. *)
Lemma eats_literal p st h h' m ms ty e c t a s :
  At p st T_NONE [] h (m :: ms) -> In st [VA; AR] ->
  In (c :: t, ty, e, a, s) [(str "true", T_TRUE, Value (VBool true), TR, T1);
    (str "false", T_FALSE, Value (VBool false), FA, F1); (str "null", T_NULL, Null, NU, N1)] ->
  on H e h = (Done tt, h') -> exists p', eats (c :: t) p p' /\ After p' h' m ms.
Proof.
  intros Hp Hst Hlit He.
  assert (Hfacts : 0 < c < 128 /\ 0 <= class c /\ a < 0 /\ pushes T_NONE (class c) = true /\ entry st (class c) = a
    /\ walk s t = Some OK /\ ty <> T_NONE /\ ty <> T_STRING
    /\ (forall q, _type H q = T_NONE -> action parseFloat H a q = (Done true, set_state H s (set_type H ty q)))
    /\ (forall q, _pHandler H q = Some h -> _type H q = ty ->
          parseBuffer parseFloat H q = (Done tt, set_buffer H [] (set_handler H (Some h') q)))).
  { simpl in Hlit. destruct Hlit as [E|[E|[E|[]]]]; injection E as <- <- <- <- <- <-;
      split_and!; try done; try (simpl in Hst; intuition (subst; done)).
    all: try (intros q Ht; run_action; rewrite (bind_Done _ _ _ _ _ (type_is_run q T_NONE Ht)); reflexivity).
    all: intros q Hq Ht; unfold parseBuffer; rewrite bind_get, Hq, Ht;
      by rewrite (bind_Done _ _ _ _ _ (call_run _ q h h' Hq He)). }
  destruct Hfacts as (H1 & H2 & H3 & H4 & H5 & H6 & H7 & H8 & H9 & H10).
  destruct (eats_first p st h (m :: ms) c a ty s Hp H1 H2 H5 H3 H4 H9) as (p1 & E1 & Hp1).
  destruct (eats_walk t p1 s ty [c] h (m :: ms) OK Hp1 H7 H6) as (p2 & E2 & Hp2).
  exists p2. split; [by apply (eats_app [c] t p p1 p2)|]. split.
  exists OK, ty, ([c] ++ t), h. split_and!; [done|by left|done|]. intros q ws Hq Ht _ _. by apply H10.
Qed.

Definition int_scalar (z : Z) : scalar double :=
  if (2 ^ 31 - 1 <? z) || (z <? - 2 ^ 31) then VInt64 z else VInt z.

Lemma eats_number p st h h' m ms z t d ds :
  At p st T_NONE [] h (m :: ms) -> In st [VA; AR] -> number z t d ds ->
  on H (Value (int_scalar z)) h = (Done tt, h') -> exists p', eats t p p' /\ After p' h' m ms.
Proof.
  intros Hp Hst [Ht Hd Hlead Hparse] He. apply Forall_cons_iff in Hd as [Hd Hds].
  destruct (first_digit d Hd) as (H1 & H2 & H3 & H4 & H5).
  set (s := if d =? 0 then ZE else IT) in *. set (c := NumericString.digit_char d) in *.
  assert (Hw : walk s (digits ds) = Some s).
  { unfold s. destruct (Z.eqb_spec d 0) as [->|]; [by rewrite Hlead|by apply walk_digits]. }
  assert (Hrun : exists p', eats t p p' /\ At p' s T_INTEGER t h (m :: ms)).
  { destruct (z <? 0); subst t; cbn [map app]; fold c.
    - destruct (eats_first p st h (m :: ms) (chr "-") MX T_INTEGER MI Hp) as (p1 & E1 & Hp1);
        [done|done|simpl in Hst; intuition (subst; done)|done|done|reflexivity|].
      destruct (eats_walk (c :: digits ds) p1 MI T_INTEGER [chr "-"] h (m :: ms) s Hp1) as (p2 & E2 & Hp2);
        [done|simpl|].
      + rewrite H3, (proj2 (Z.ltb_lt 0 c)), (proj2 (Z.ltb_lt c 128)), (proj2 (Z.leb_le 0 (class c))) by lia.
        unfold s at 1. by destruct (d =? 0).
      + exists p2. split; [by apply (eats_app [chr "-"] _ p p1 p2)|done].
    - destruct (eats_first p st h (m :: ms) c (if d =? 0 then ZX else IX) T_INTEGER s Hp H1 H2) as (p1 & E1 & Hp1).
      + simpl in Hst. intuition (subst; done).
      + by destruct (d =? 0).
      + unfold pushes. destruct (Z.eqb_spec (class c) C_SPACE) as [E|], (Z.eqb_spec (class c) C_WHITE) as [E'|]; try done;
          exfalso; [rewrite E in H4|rewrite E in H4|rewrite E' in H4]; by destruct (d =? 0).
      + intros q _. unfold s. by destruct (d =? 0).
      + destruct (eats_walk (digits ds) p1 s T_INTEGER [c] h (m :: ms) s Hp1 ltac:(done) Hw) as (p2 & E2 & Hp2).
        exists p2. split; [by apply (eats_app [c] _ p p1 p2)|done]. }
  destruct Hrun as (p' & E & Hp'). exists p'. split; [done|]. split. exists s, T_INTEGER, t, h.
  split_and!; [done|unfold s; destruct (d =? 0); simpl; tauto|done|].
  intros q ws Hq Hty Hb Hws. unfold parseBuffer. rewrite bind_get, Hq, Hty, Hb. cbv zeta.
  assert (Hiv : integer_value H (t ++ ws) q = (Done tt, set_handler H (Some h') q)).
  { unfold integer_value, catch_syntax, lift. rewrite Hparse by done. unfold bind at 1.
    fold (int_scalar z). by rewrite (call_run _ q h h' Hq He). }
  by rewrite (bind_Done _ _ _ _ _ Hiv).
Qed.
End Text.
