(* ===== verification/JsonRound.v ===== *)
(** Stringifier and Parser are inverse to each other.

    [reads t es]: at the start of a value the parser reads the text [t] and
    makes its handler see the calls [es].  The text of a value that the
    printer can express reads as the calls that describe the value, whatever
    the indentation. *)

From Stdlib Require Import Sorted.
From S2P Require Import Prelude Strings NumericString Encodings Json JsonFacts JsonBuild JsonText.

Open Scope st_scope.
Local Open Scope Z_scope.
Import Codes Parser.

#[local] Set Warnings "-register-all".

(** ** Values with a faithful text *)
Definition printable_scalar {double} (v : scalar double) : Prop :=
  match v with
  | VInt z => - 2 ^ 31 <= z < 2 ^ 31
  | VInt64 z => - 2 ^ 63 < z < - 2 ^ 31 \/ 2 ^ 31 <= z < 2 ^ 63
  | VBool _ => True
  | VString s => utf8_text (fun _ => true) s
  | VUInt _ | VUInt64 _ | VDouble _ => False
  end.

Inductive printable {double} : json double -> Prop :=
| print_null : printable JNull
| print_scalar v : printable_scalar v -> printable (JScalar v)
| print_arr l : Forall printable l -> printable (JArr l)
| print_obj m : Forall (fun kv => utf8_text raw (fst kv) /\ printable (snd kv)) m -> printable (JObj m).

(** Objects list their members by increasing keys. *)
Inductive sorted_keys {double} : json double -> Prop :=
| sk_null : sorted_keys JNull
| sk_scalar v : sorted_keys (JScalar v)
| sk_arr l : Forall sorted_keys l -> sorted_keys (JArr l)
| sk_obj m : StronglySorted (fun a b => str_lt (fst a) (fst b) = true) m ->
    Forall (fun kv => sorted_keys (snd kv)) m -> sorted_keys (JObj m).

(** The nesting of a value. *)
Fixpoint height {double} (j : json double) : nat :=
  match j with
  | JNull | JScalar _ => 1
  | JArr l => S (list_max (map height l))
  | JObj m => S (list_max (map (fun kv => height (snd kv)) m))
  end.

Lemma str_lt_asym a : forall b, str_lt a b = true -> str_lt b a = false.
Proof.
  induction a as [|x a IH]; intros [|y b]; simpl; try done.
  destruct (Z.ltb_spec x y), (Z.ltb_spec y x); try done; try lia;
    destruct (Z.eqb_spec x y), (Z.eqb_spec y x); subst; try lia; try done. apply IH.
Qed.

Lemma map_set_last {A} k (v : A) m :
  Forall (fun kv => str_lt (fst kv) k = true) m -> map_set k v m = m ++ [(k, v)].
Proof.
  induction 1 as [|[k' v'] m Hk _ IH]; [done|]. simpl in *. by rewrite (str_lt_asym _ _ Hk), Hk, IH.
Qed.

Lemma foldl_map_set {A} (m acc : list (list Z * A)) :
  StronglySorted (fun a b => str_lt (fst a) (fst b) = true) (acc ++ m) ->
  foldl (fun acc kv => map_set (fst kv) (snd kv) acc) acc m = acc ++ m.
Proof.
  revert acc. induction m as [|[k v] m IH]; intros acc Hs; [by rewrite app_nil_r|]. simpl.
  rewrite map_set_last.
  - rewrite IH; by rewrite <-app_assoc.
  - clear IH. induction acc as [|a acc IH]; [constructor|]. simpl in Hs. apply StronglySorted_inv in Hs as [Hs Ha].
    constructor; [|by apply IH]. apply List.Forall_app in Ha as [_ Ha]. by inversion Ha.
Qed.

Lemma norm_sorted {double} (j : json double) : sorted_keys j -> norm j = j.
Proof.
  induction j as [|v|l IH|m IH] using json_ind'; intros Hs; [done|done| |]; simpl; f_equal.
  - inversion Hs as [| |? Hl|]; subst. clear Hs. induction Hl as [|j l Hj _ IHl]; [done|].
    inversion IH; subst. simpl. f_equal; auto.
  - inversion Hs as [| | |? Hm Hl]; subst.
    assert (map (fun kv => (fst kv, norm (snd kv))) m = m) as ->.
    { clear Hs Hm. induction Hl as [|[k j] m Hj _ IHl]; [done|]. inversion IH; subst. simpl in *. f_equal; [f_equal|]; auto. }
    by rewrite foldl_map_set.
Qed.

(** What is built has its keys in order. *)
Lemma str_lt_trans a : forall b c, str_lt a b = true -> str_lt b c = true -> str_lt a c = true.
Proof.
  induction a as [|x a IH]; intros [|y b] [|z c]; simpl; try done.
  destruct (Z.ltb_spec x y), (Z.ltb_spec y z), (Z.ltb_spec x z); try done; try lia;
    destruct (Z.eqb_spec x y), (Z.eqb_spec y z), (Z.eqb_spec x z); try done; try lia. apply IH.
Qed.

Lemma str_lt_total a : forall b, str_lt a b = false -> str_lt b a = false -> a = b.
Proof.
  induction a as [|x a IH]; intros [|y b]; simpl; try done.
  destruct (Z.ltb_spec x y), (Z.ltb_spec y x); try done; try lia.
  destruct (Z.eqb_spec x y), (Z.eqb_spec y x); subst; try lia. intros H1 H2. f_equal. by apply IH.
Qed.

(** The entries behind an assignment: the old ones and the new one. *)
Lemma map_set_Forall {A} (P : list Z * A -> Prop) k v m : Forall P m -> P (k, v) -> Forall P (map_set k v m).
Proof.
  intros Hm Hk. induction Hm as [|[k' v'] m Hk' Hm IH]; simpl; [by constructor|].
  destruct (str_lt k k'); [by repeat constructor|]. destruct (str_lt k' k); by constructor.
Qed.

Lemma map_set_sorted {A} k (v : A) m :
  StronglySorted (fun a b => str_lt (fst a) (fst b) = true) m ->
  StronglySorted (fun a b => str_lt (fst a) (fst b) = true) (map_set k v m).
Proof.
  induction 1 as [|[k' v'] m Hm IH Hk]; simpl; [by repeat constructor|].
  destruct (str_lt k k') eqn:E1; [|destruct (str_lt k' k) eqn:E2].
  - constructor; [by constructor|]. constructor; [done|]. eapply Forall_impl; [|exact Hk].
    intros [k2 v2] H2. by eapply str_lt_trans.
  - constructor; [done|]. by apply map_set_Forall.
  - assert (k = k') as -> by by apply str_lt_total. by constructor.
Qed.

Lemma norm_sorted_keys {double} (j : json double) : sorted_keys (norm j).
Proof.
  induction j as [|v|l IH|m IH] using json_ind'; simpl; constructor.
  - by apply List.Forall_map.
  - generalize (map (fun kv => (fst kv, norm (snd kv))) m). intros l.
    assert (Hs : StronglySorted (fun a b : list Z * json double => str_lt (fst a) (fst b) = true) []) by constructor.
    revert Hs. generalize (@nil (list Z * json double)).
    induction l as [|[k v] l IHl]; intros acc Hs; [done|]. simpl. by apply IHl, map_set_sorted.
  - assert (Hs : Forall (fun kv => sorted_keys (snd kv)) (@nil (list Z * json double))) by constructor.
    revert Hs. generalize (@nil (list Z * json double)).
    induction IH as [|[k v] m Hv _ IHm]; intros acc Hs; [done|]. simpl. by apply IHm, map_set_Forall.
Qed.

Lemma replay_split {double} (H : Handler double) a b h h' :
  replay H (a ++ b) h = (Done tt, h') -> exists h1, replay H a h = (Done tt, h1) /\ replay H b h1 = (Done tt, h').
Proof.
  revert h. induction a as [|e a IH]; intros h Hr; [by exists h|]. simpl in *.
  apply bind_inv in Hr as ([] & h1 & He & Hr). destruct (IH h1 Hr) as (h2 & H2 & H3).
  exists h2. by rewrite (bind_Done _ _ _ _ _ He).
Qed.

#[local] Strategy 1000 [NumericString.Formatter.appended NumericString.intToStr].

Lemma format_int_64 : NumericString.Formatter.format_int = NumericString.Formatter.format_Int64.
Proof. reflexivity. Qed.

Section Round.
Context {double : Type} (parseFloat : list Z -> res double) (formatDouble : double -> list Z).
Context (H : Handler double) (heap : list (node double)).
Local Abbreviation parser := (Parser_ H).
Implicit Types (p q : parser) (h : hstate H).
Local Abbreviation eats := (eats parseFloat H).
Local Abbreviation At := (At H).
Local Abbreviation After := (After parseFloat H).

Definition mode_ok (m : Z) : Prop := m = MODE_ARRAY \/ m = MODE_OBJECT.

Definition reads (t : list Z) (es : list (event double)) : Prop := forall p st h h' m ms,
  At p st T_NONE [] h (m :: ms) -> In st [VA; AR] -> mode_ok m -> ms <> [] ->
  replay H es h = (Done tt, h') -> exists p', eats t p p' /\ After p' h' m ms.

Definition reads_container (t : list Z) (es : list (event double)) : Prop := forall p st h h' ms,
  At p st T_NONE [] h ms -> In st [GO; VA; AR] -> ms <> [] ->
  replay H es h = (Done tt, h') -> exists p', eats t p p' /\ At p' OK T_NONE [] h' ms.

Lemma container_reads t es : reads_container t es -> reads t es.
Proof.
  intros Hc p st h h' m ms Hp Hst Hm Hne Hr.
  destruct (Hc p st h h' (m :: ms) Hp) as (p' & E & Hp'); [simpl in *; tauto|done|done|].
  exists p'. split; [done|]. by apply after_ok.
Qed.

(** A single call. *)
Lemma replay_one_inv e h h' : replay H [e] h = (Done tt, h') -> on H e h = (Done tt, h').
Proof. simpl. intros ([] & h1 & He & Hr)%bind_inv. by injection Hr as <-. Qed.

Lemma reads_null : reads (str "null") [Null].
Proof.
  intros p st h h' m ms Hp Hst _ _ He%replay_one_inv.
  eapply (eats_literal parseFloat H p st h h' m ms T_NULL Null _ _ NU N1 Hp Hst); [by right; right; left|done].
Qed.

Lemma reads_int z :
  - 2 ^ 63 < z < 2 ^ 63 ->
  exists t, NumericString.Formatter.format_Int64 z = Done t /\ reads t [Value (int_scalar z)].
Proof.
  intros Hz. destruct (number_exists z Hz) as (t & d & ds & Ht & Hn). exists t. split; [done|].
  intros p st h h' m ms Hp Hst _ _ He%replay_one_inv. by apply (eats_number parseFloat H p st h h' m ms z t d ds).
Qed.

Lemma reads_bool (b : bool) : reads (if b then str "true" else str "false") [Value (VBool b)].
Proof.
  intros p st h h' m ms Hp Hst _ _ He%replay_one_inv. destruct b.
  - eapply (eats_literal parseFloat H p st h h' m ms T_TRUE _ _ _ TR T1 Hp Hst); [by left|done].
  - eapply (eats_literal parseFloat H p st h h' m ms T_FALSE _ _ _ FA F1 Hp Hst); [by right; left|done].
Qed.

Lemma reads_string s : utf8_text (fun _ => true) s -> reads (Stringifier.formatString s) [Value (VString s)].
Proof.
  intros Hv p st h h' m ms Hp Hst Hm _ He%replay_one_inv.
  destruct (eats_quote parseFloat H p st h (m :: ms) Hp) as (p1 & E1 & Hp1); [simpl in *; tauto|].
  destruct (eats_formatted parseFloat H s Hv p1 [] h (m :: ms) Hp1) as (p2 & E2 & Hp2).
  destruct (eats_end_string parseFloat H p2 s h h' m ms Hp2 Hm He) as (p3 & E3 & Hp3).
  exists p3. split; [|by apply after_ok]. unfold Stringifier.formatString.
  by apply (eats_app _ _ [34] _ p p1 p3 E1), (eats_app _ _ _ _ p1 p2 p3 E2).
Qed.

Lemma reads_scalar v :
  printable_scalar v ->
  exists t, Stringifier.format_scalar formatDouble v = Done t /\ reads t [Value v].
Proof.
  destruct v as [z|z|z|z|d|b|s]; intros Hv; try (by destruct Hv).
  - destruct (reads_int z) as (t & Ht & Hr); [cbn in Hv; lia|]. exists t.
    cbn [Stringifier.format_scalar]. rewrite format_int_64. split; [exact Ht|].
    assert (int_scalar z = VInt z :> scalar double) as <-; [|done].
    unfold int_scalar. by rewrite (proj2 (Z.ltb_ge _ z)), (proj2 (Z.ltb_ge z _)) by (cbn in Hv; lia).
  - destruct (reads_int z) as (t & Ht & Hr); [cbn in Hv; lia|]. exists t. split; [exact Ht|].
    assert (int_scalar z = VInt64 z :> scalar double) as <-; [|done].
    unfold int_scalar. replace (_ || _) with true by (cbn in Hv; lia). done.
  - eexists. split; [reflexivity|]. apply reads_bool.
  - eexists. split; [reflexivity|]. by apply reads_string.
Qed.

(** ** Containers *)
Lemma spaces_white n : white (Stringifier.spaces n).
Proof. induction n; constructor; [done|exact IHn]. Qed.

Lemma newline_white (b : bool) : white (if b then [10] else []).
Proof. destruct b; repeat constructor. Qed.

Lemma white_app a b : white a -> white b -> white (a ++ b).
Proof. intros Ha Hb. by apply List.Forall_app. Qed.

(** The elements of an array, separated by commas. *)
Lemma reads_elements (f : Var double -> res (list Z)) indent step xs l :
  Forall2 (fun x j => exists t, f x = Done t /\ reads t (ev j)) xs l -> l <> [] ->
  exists t, Stringifier.array_entries f indent step xs = Done t /\ forall p st h h' ms,
    At p st T_NONE [] h (MODE_ARRAY :: ms) -> In st [VA; AR] -> ms <> [] ->
    replay H (concat (map ev l)) h = (Done tt, h') -> exists p', eats t p p' /\ After p' h' MODE_ARRAY ms.
Proof.
  induction 1 as [|x j xs l (t & Ht & Hr) Hrest IH]; intros Hne; [done|]. clear Hne.
  assert (Hfirst : forall p st h h1 ms, At p st T_NONE [] h (MODE_ARRAY :: ms) -> In st [VA; AR] -> ms <> [] ->
    replay H (ev j) h = (Done tt, h1) ->
    exists p1, eats (Stringifier.spaces indent ++ t) p p1 /\ After p1 h1 MODE_ARRAY ms).
  { intros p st h h1 ms Hp Hst Hne Hev.
    destruct (eats_white parseFloat H (Stringifier.spaces indent) p st [] h (MODE_ARRAY :: ms) Hp) as (q & E & Hq);
      [simpl in *; tauto|apply spaces_white|].
    destruct (Hr q st h h1 MODE_ARRAY ms Hq Hst (or_introl eq_refl) Hne Hev) as (p1 & E1 & Hp1).
    exists p1. split; [|done]. by apply (eats_app _ _ _ _ p q p1). }
  destruct Hrest as [|x' j' xs l Hx Hrest].
  - exists (Stringifier.spaces indent ++ t). cbn [Stringifier.array_entries]. rewrite Ht. cbn [rbind].
    rewrite !app_nil_r. split; [done|]. intros p st h h' ms Hp Hst Hne Hev. cbn [map concat] in Hev.
    rewrite app_nil_r in Hev. eauto.
  - destruct IH as (t2 & Ht2 & Hr2); [done|].
    eexists. split; [cbn [Stringifier.array_entries] in *; rewrite Ht; cbn [rbind]; rewrite Ht2; reflexivity|].
    intros p st h h' ms Hp Hst Hne Hev. cbn [map concat] in Hev.
    apply replay_split in Hev as (h1 & Hev1 & Hev2).
    destruct (Hfirst p st h h1 ms Hp Hst Hne Hev1) as (p1 & E1 & Hp1).
    destruct (eats_comma_array parseFloat H p1 h1 ms Hp1) as (p2 & E2 & Hp2).
    destruct (eats_white parseFloat H (if (0 <? step)%nat then [10] else []) p2 VA [] h1 (MODE_ARRAY :: ms) Hp2)
      as (p3 & E3 & Hp3); [simpl; tauto|apply newline_white|].
    destruct (Hr2 p3 VA h1 h' ms Hp3 (or_introl eq_refl) Hne Hev2) as (p4 & E4 & Hp4).
    exists p4. split; [|done]. rewrite app_assoc. apply (eats_app _ _ _ _ p p1 p4 E1). rewrite <-app_assoc.
    by apply (eats_app _ _ [44] _ p1 p2 p4 E2), (eats_app _ _ _ _ p2 p3 p4 E3).
Qed.

Lemma reads_array (f : Var double -> res (list Z)) indent step xs l :
  Forall2 (fun x j => exists t, f x = Done t /\ reads t (ev j)) xs l ->
  exists t, Stringifier.array_entries f indent step xs = Done t /\ forall a b, white a -> white b ->
    reads_container (str "[" ++ a ++ t ++ b ++ str "]") (ev (JArr l)).
Proof.
  intros Hl. destruct (decide (l = [])) as [->|Hne].
  - inversion Hl; subst. exists []. split; [done|]. intros a b Ha Hb p st h h' ms Hp Hst Hne Hev. cbn [ev map concat app] in Hev.
    apply bind_inv in Hev as ([] & h1 & He1 & He2%replay_one_inv).
    destruct (proj1 (eats_open parseFloat H p st h h1 ms 91 Hp Hst Hne) (conj eq_refl He1)) as (p1 & E1 & Hp1).
    destruct (eats_white parseFloat H (a ++ b) p1 AR [] h1 (MODE_ARRAY :: ms) Hp1) as (p2 & E2 & Hp2);
      [simpl; tauto|by apply white_app|].
    destruct (eats_empty_array parseFloat H p2 h1 h' ms Hp2 He2) as (p3 & E3 & Hp3).
    exists p3. split; [|done]. apply (eats_app _ _ [91] _ p p1 p3 E1).
    change (eats (a ++ b ++ [93]) p1 p3). rewrite app_assoc. by apply (eats_app _ _ _ _ p1 p2 p3 E2).
  - destruct (reads_elements f indent step xs l Hl Hne) as (t & Ht & Hr). exists t. split; [done|].
    intros a b Ha Hb p st h h' ms Hp Hst Hms Hev. cbn [ev] in Hev.
    apply bind_inv in Hev as ([] & h1 & He1 & Hev). apply replay_split in Hev as (h2 & Hev & He2%replay_one_inv).
    destruct (proj1 (eats_open parseFloat H p st h h1 ms 91 Hp Hst Hms) (conj eq_refl He1)) as (p1 & E1 & Hp1).
    destruct (eats_white parseFloat H a p1 AR [] h1 (MODE_ARRAY :: ms) Hp1) as (p2 & E2 & Hp2); [simpl; tauto|done|].
    destruct (Hr p2 AR h1 h2 ms Hp2 ltac:(by right; left) Hms Hev) as (p3 & E3 & Hp3).
    destruct (after_white parseFloat H b p3 h2 MODE_ARRAY ms Hp3 Hb) as (p4 & E4 & Hp4).
    destruct (eats_close parseFloat H p4 h2 h' MODE_ARRAY ms 93 Hp4) as (p5 & E5 & Hp5); [by left|].
    exists p5. split; [|done].
    by apply (eats_app _ _ [91] _ p p1 p5 E1), (eats_app _ _ _ _ p1 p2 p5 E2), (eats_app _ _ _ _ p2 p3 p5 E3),
      (eats_app _ _ _ _ p3 p4 p5 E4).
Qed.

(** The members of an object. *)
Lemma reads_members (f : Var double -> res (list Z)) indent step xs m :
  Forall2 (fun a b => fst a = fst b /\ utf8_text raw (fst b) /\
             exists t, f (snd a) = Done t /\ reads t (ev (snd b))) xs m -> m <> [] ->
  exists t, Stringifier.object_entries f indent step xs = Done t /\ forall p st h h' ms,
    At p st T_NONE [] h (MODE_KEY :: ms) -> In st [OB; KE] -> ms <> [] ->
    replay H (members m) h = (Done tt, h') -> exists p', eats t p p' /\ After p' h' MODE_OBJECT ms.
Proof.
  induction 1 as [|[k x] [k' j] xs m (Hk & Hraw & t & Ht & Hr) Hrest IH]; intros Hne; [done|]. clear Hne.
  cbn [fst snd] in *. subst k'.
  set (colon := if (0 <? indent)%nat then str " : " else str ":").
  set (member := Stringifier.spaces indent ++ [34] ++ k ++ [34] ++ colon ++ t).
  assert (Hfirst : forall p st h h1 ms, At p st T_NONE [] h (MODE_KEY :: ms) -> In st [OB; KE] -> ms <> [] ->
    replay H (Key k :: ev j) h = (Done tt, h1) -> exists p1, eats member p p1 /\ After p1 h1 MODE_OBJECT ms).
  { intros p st h h1 ms Hp Hst Hne Hev. apply bind_inv in Hev as ([] & h0 & He & Hev).
    destruct (eats_white parseFloat H (Stringifier.spaces indent) p st [] h (MODE_KEY :: ms) Hp) as (q & E & Hq);
      [simpl in *; tauto|apply spaces_white|].
    destruct (eats_quote parseFloat H q st h (MODE_KEY :: ms) Hq) as (q1 & E1 & Hq1); [simpl in *; tauto|].
    destruct (eats_raw_text parseFloat H k Hraw q1 [] h (MODE_KEY :: ms) Hq1) as (q2 & E2 & Hq2).
    destruct (eats_end_key parseFloat H q2 k h h0 ms Hq2 He) as (q3 & E3 & Hq3).
    assert (Hcolon : exists q4, eats colon q3 q4 /\ At q4 VA T_NONE [] h0 (MODE_OBJECT :: ms)).
    { unfold colon. destruct (0 <? indent)%nat; [|by apply (eats_colon parseFloat H q3 h0 ms)].
      destruct (eats_white parseFloat H [32] q3 CO [] h0 (MODE_KEY :: ms) Hq3) as (r1 & F1 & Hr1);
        [simpl; tauto|by repeat constructor|].
      destruct (eats_colon parseFloat H r1 h0 ms Hr1 Hne) as (r2 & F2 & Hr2).
      destruct (eats_white parseFloat H [32] r2 VA [] h0 (MODE_OBJECT :: ms) Hr2) as (r3 & F3 & Hr3);
        [simpl; tauto|by repeat constructor|].
      exists r3. split; [|done]. by apply (eats_app _ _ [32] _ q3 r1 r3 F1), (eats_app _ _ [58] _ r1 r2 r3 F2). }
    destruct Hcolon as (q4 & E4 & Hq4).
    destruct (Hr q4 VA h0 h1 MODE_OBJECT ms Hq4 ltac:(by left) ltac:(by right) Hne Hev) as (q5 & E5 & Hq5).
    exists q5. split; [|done]. unfold member.
    by apply (eats_app _ _ _ _ p q q5 E), (eats_app _ _ [34] _ q q1 q5 E1), (eats_app _ _ _ _ q1 q2 q5 E2),
      (eats_app _ _ [34] _ q2 q3 q5 E3), (eats_app _ _ _ _ q3 q4 q5 E4). }
  set (nl := if (0 <? step)%nat then [10] else []). assert (Hnl : white nl) by apply newline_white.
  destruct Hrest as [|x' j' xs m Hx Hrest].
  - exists (member ++ nl). cbn [Stringifier.object_entries]. rewrite Ht. cbn [rbind]. fold colon nl.
    split; [unfold member; by rewrite !app_nil_r, <-!app_assoc|].
    intros p st h h' ms Hp Hst Hne Hev. unfold members in Hev. cbn [map concat fst snd] in Hev. rewrite app_nil_r in Hev.
    destruct (Hfirst p st h h' ms Hp Hst Hne Hev) as (p1 & E1 & Hp1).
    destruct (after_white parseFloat H nl p1 h' MODE_OBJECT ms Hp1 Hnl) as (p2 & E2 & Hp2).
    exists p2. split; [|done]. by apply (eats_app _ _ _ _ p p1 p2).
  - destruct IH as (t2 & Ht2 & Hr2); [done|].
    exists (member ++ [44] ++ nl ++ t2). split.
    { cbn [Stringifier.object_entries] in *. rewrite Ht. cbn [rbind]. rewrite Ht2. cbn [rbind]. fold colon nl.
      unfold member. by rewrite <-!app_assoc. }
    intros p st h h' ms Hp Hst Hne Hev. unfold members in Hev. cbn [map concat fst snd] in Hev.
    apply replay_split in Hev as (h1 & Hev1 & Hev2).
    destruct (Hfirst p st h h1 ms Hp Hst Hne Hev1) as (p1 & E1 & Hp1).
    destruct (eats_comma_object parseFloat H p1 h1 ms Hp1 Hne) as (p2 & E2 & Hp2).
    destruct (eats_white parseFloat H nl p2 KE [] h1 (MODE_KEY :: ms) Hp2) as (p3 & E3 & Hp3); [simpl; tauto|done|].
    destruct (Hr2 p3 KE h1 h' ms Hp3 ltac:(by right; left) Hne Hev2) as (p4 & E4 & Hp4).
    exists p4. split; [|done]. apply (eats_app _ _ _ _ p p1 p4 E1).
    by apply (eats_app _ _ [44] _ p1 p2 p4 E2), (eats_app _ _ _ _ p2 p3 p4 E3).
Qed.

Lemma reads_object (f : Var double -> res (list Z)) indent step xs m :
  Forall2 (fun a b => fst a = fst b /\ utf8_text raw (fst b) /\
             exists t, f (snd a) = Done t /\ reads t (ev (snd b))) xs m ->
  exists t, Stringifier.object_entries f indent step xs = Done t /\ forall a b, white a -> white b ->
    reads_container (str "{" ++ a ++ t ++ b ++ str "}") (ev (JObj m)).
Proof.
  intros Hm. destruct (decide (m = [])) as [->|Hne].
  - inversion Hm; subst. exists []. split; [done|]. intros a b Ha Hb p st h h' ms Hp Hst Hne Hev. cbn [ev map concat app] in Hev.
    apply bind_inv in Hev as ([] & h1 & He1 & He2%replay_one_inv).
    destruct (proj2 (eats_open parseFloat H p st h h1 ms 123 Hp Hst Hne) (conj eq_refl He1)) as (p1 & E1 & Hp1).
    destruct (eats_white parseFloat H (a ++ b) p1 OB [] h1 (MODE_KEY :: ms) Hp1) as (p2 & E2 & Hp2);
      [simpl; tauto|by apply white_app|].
    destruct (eats_empty_object parseFloat H p2 h1 h' ms Hp2 He2) as (p3 & E3 & Hp3).
    exists p3. split; [|done]. apply (eats_app _ _ [123] _ p p1 p3 E1).
    change (eats (a ++ b ++ [125]) p1 p3). rewrite app_assoc. by apply (eats_app _ _ _ _ p1 p2 p3 E2).
  - destruct (reads_members f indent step xs m Hm Hne) as (t & Ht & Hr). exists t. split; [done|].
    intros a b Ha Hb p st h h' ms Hp Hst Hms Hev. cbn [ev] in Hev.
    apply bind_inv in Hev as ([] & h1 & He1 & Hev). apply replay_split in Hev as (h2 & Hev & He2%replay_one_inv).
    destruct (proj2 (eats_open parseFloat H p st h h1 ms 123 Hp Hst Hms) (conj eq_refl He1)) as (p1 & E1 & Hp1).
    destruct (eats_white parseFloat H a p1 OB [] h1 (MODE_KEY :: ms) Hp1) as (p2 & E2 & Hp2); [simpl; tauto|done|].
    destruct (Hr p2 OB h1 h2 ms Hp2 ltac:(by left) Hms Hev) as (p3 & E3 & Hp3).
    destruct (after_white parseFloat H b p3 h2 MODE_OBJECT ms Hp3 Hb) as (p4 & E4 & Hp4).
    destruct (eats_close parseFloat H p4 h2 h' MODE_OBJECT ms 125 Hp4) as (p5 & E5 & Hp5); [by right|].
    exists p5. split; [|done].
    by apply (eats_app _ _ [123] _ p p1 p5 E1), (eats_app _ _ _ _ p1 p2 p5 E2), (eats_app _ _ _ _ p2 p3 p5 E3),
      (eats_app _ _ _ _ p3 p4 p5 E4).
Qed.

(** ** Values *)
Lemma list_max_le_In n (l : list nat) x : (list_max l <= n)%nat -> In x l -> (x <= n)%nat.
Proof. intros Hl Hx. apply list_max_le in Hl. by apply (proj1 (List.Forall_forall _ _) Hl). Qed.

Definition texts (j : json double) : Prop := forall lo x fuel indent step,
  denotes heap lo x j -> (height j <= fuel)%nat ->
  exists t, Stringifier.stringify_at formatDouble heap fuel x indent step = Done t
    /\ reads t (ev j) /\ (container j = true -> reads_container t (ev j)).

Lemma texts_all j : printable j -> texts j.
Proof.
  induction j as [|v|l IH|m IH] using json_ind'; intros Hp lo x fuel indent step Hx Hf;
    inversion Hx as [| |? q xs ? Hq Hn Hl|? q xs ? Hq Hn Hl]; subst; (destruct fuel as [|fuel]; [simpl in Hf; lia|]);
    cbn [Stringifier.stringify_at].
  - exists (str "null"). split_and!; [done|apply reads_null|done].
  - inversion Hp as [|? Hv| |]; subst. destruct (reads_scalar v Hv) as (t & Ht & Hr). by exists t.
  - inversion Hp as [| |? Hpl|]; subst. rewrite Hn.
    destruct (reads_array (fun v => Stringifier.stringify_at formatDouble heap fuel v (indent + step) step)
      indent step xs l) as (t & -> & Hr).
    { cbn [height] in Hf.
      assert (Hh : forall j, In j l -> (height j <= fuel)%nat)
        by (intros j Hj; apply (list_max_le_In fuel (map height l)); [lia|by apply in_map]).
      clear Hx Hp Hn Hf. induction Hl as [|y j xs l Hy _ IHl]; [constructor|].
      inversion IH as [|? ? IHj IHrest]; inversion Hpl as [|? ? Hpj Hprest]; subst.
      constructor; [|by apply IHl; [| |intros i Hi; apply Hh; by right]].
      destruct (IHj Hpj (S q) y fuel (indent + step)%nat step Hy) as (t & Ht & Hr & _); [apply Hh; by left|eauto]. }
    cbn [rbind]. eexists. split; [reflexivity|]. rewrite (app_assoc _ _ (str "]")).
    specialize (Hr (if (0 <? indent)%nat then [10] else [])
      ((if (0 <? step)%nat then [10] else []) ++ Stringifier.spaces (Stringifier.outdent indent step)) (newline_white _)
      (white_app _ _ (newline_white _) (spaces_white _))).
    split; [by apply container_reads|done].
  - inversion Hp as [| | |? Hpm]; subst. rewrite Hn.
    destruct (reads_object (fun v => Stringifier.stringify_at formatDouble heap fuel v (indent + step) step)
      indent step xs m) as (t & -> & Hr).
    { cbn [height] in Hf.
      assert (Hh : forall kv, In kv m -> (height (snd kv) <= fuel)%nat)
        by (intros kv Hj; apply (list_max_le_In fuel (map (fun kv => height (snd kv)) m)); [lia|];
            by apply (in_map (fun kv => height (snd kv)))).
      clear Hx Hp Hn Hf. induction Hl as [|y kv xs m [Hk Hy] _ IHl]; [constructor|].
      inversion IH as [|? ? IHj IHrest]; inversion Hpm as [|? ? [Hpk Hpj] Hprest]; subst.
      constructor; [|by apply IHl; [| |intros i Hi; apply Hh; by right]]. split_and!; [done|done|].
      destruct (IHj Hpj (S q) (snd y) fuel (indent + step)%nat step Hy) as (t & Ht & Hr & _); [apply Hh; by left|eauto]. }
    cbn [rbind]. eexists. split; [reflexivity|].
    specialize (Hr (if (0 <? indent)%nat then [10] else []) (Stringifier.spaces (Stringifier.outdent indent step))
      (newline_white _) (spaces_white _)).
    split; [by apply container_reads|done].
Qed.

(** The whole text of a container. *)
Lemma construct_at h : At (construct H (Some h)) GO T_NONE [] h [MODE_DONE].
Proof. split; try done. split_and!; [done|simpl; lia|done]. Qed.

Lemma reads_parse t es e h h' :
  reads_container t es -> replay H es h = (Done tt, h') ->
  exists p', parse_with parseFloat H e t (construct H (Some h)) = (Done (h_asVar H h'), p') /\ _pHandler H p' = Some h'.
Proof.
  intros Hr Hev.
  destruct (Hr (construct H (Some h)) GO h h' [MODE_DONE] (construct_at h) ltac:(by left) ltac:(done) Hev)
    as (p1 & E1 & Hp1).
  destruct (at_pop parseFloat H _ _ _ _ _ _ _ Hp1) as (p2 & E2 & Hp2). exists p2. split; [|apply Hp2].
  unfold parse_with. rewrite (bind_Done _ _ _ _ _ (eats_loop parseFloat H t _ _ (S (length t)) e E1 ltac:(lia))).
  assert (Hd : done H p1 = (Done true, p2)) by (unfold done; by rewrite bind_get, (at_state _ _ _ _ _ _ _ Hp1)).
  rewrite (bind_Done _ _ _ _ _ Hd), bind_get. unfold asVar. by rewrite (at_handler _ _ _ _ _ _ _ Hp2).
Qed.
End Round.

(** What is printed is read back as the same value. *)
Lemma stringify_parse {double} (parseFloat : list Z -> res double) formatDouble heap lo x j fuel indent e h :
  denotes heap lo x j -> printable j -> sorted_keys j -> container j = true -> (height j <= fuel)%nat ->
  ph_stack h = [] ->
  exists t p' h' y, Stringifier.stringify formatDouble heap fuel x indent = Done t
    /\ parse_with parseFloat ParseHandler.ParseHandler e t (construct ParseHandler.ParseHandler (Some h)) = (Done y, p')
    /\ _pHandler ParseHandler.ParseHandler p' = Some h' /\ denotes (ph_heap h') (length (ph_heap h)) y j.
Proof.
  intros Hx Hp Hs Hc Hf Hh.
  destruct (texts_all parseFloat formatDouble ParseHandler.ParseHandler heap j Hp lo x fuel indent indent Hx Hf)
    as (t & Ht & _ & Hr).
  destruct (build_root h j Hh Hc) as (h' & Hev & _ & Hy). rewrite (norm_sorted j Hs) in Hy.
  destruct (reads_parse parseFloat ParseHandler.ParseHandler t (ev j) e h h' (Hr Hc) Hev) as (p' & E & Hp').
  exists t, p', h', (ph_result h'). by split_and!.
Qed.
