(* ===== verification/JsonClaims.v ===== *)
(** Theorems on the JSON parser, the value it builds and the printers. *)

From Stdlib Require Import Sorted.
From S2P Require Import Prelude Strings NumericString Encodings Json JsonFacts JsonBuild JsonText JsonRound.

Open Scope st_scope.
Local Open Scope Z_scope.
Import Codes Parser.

(** ** A text and what follows it *)
Section More.
Context {double : Type} (parseFloat : list Z -> res double) (H : Handler double).
Local Abbreviation parser := (Parser_ H).
Implicit Types (p : parser).

Lemma parseChar_more c src more p src' p' :
  parseChar parseFloat H c src p = (Done (true, src'), p') ->
  parseChar parseFloat H c (src ++ more) p = (Done (true, src' ++ more), p').
Proof.
  unfold parseChar. rewrite !bind_get. destruct (_ && _); [done|]. destruct (0x80 <=? c).
  - destruct (_ =? _)%nat; [done|]. destruct (Nat.ltb_spec (length src) (utf8CheckFirst c - 1)); [done|].
    rewrite (proj2 (Nat.ltb_ge _ _)) by (rewrite length_app; lia).
    rewrite take_app_le, drop_app_le by lia. destruct (negb _); [done|].
    rewrite !bind_modify. by injection 1 as <- <-.
  - cbv zeta. destruct (_ <=? _); [done|].
    intros (? & p1 & Hadd & Hrun)%bind_inv. rewrite (bind_Done _ _ _ _ _ Hadd). rewrite !bind_get in *.
    apply bind_inv in Hrun as (b & p2 & Hrun & Hret). rewrite (bind_Done _ _ _ _ _ Hrun).
    by injection Hret as -> <- <-.
Qed.

Lemma parseChar_shorter c src p r p' :
  parseChar parseFloat H c src p = (Done r, p') -> (length (snd r) <= length src)%nat.
Proof.
  unfold parseChar. rewrite !bind_get. destruct (_ && _); [by injection 1 as <- _|]. destruct (0x80 <=? c).
  - destruct (_ =? _)%nat; [done|]. destruct (_ <? _)%nat; [done|]. destruct (negb _); [done|].
    rewrite !bind_modify. injection 1 as <- _. cbn [snd]. rewrite length_drop. lia.
  - cbv zeta. destruct (_ <=? _); [by injection 1 as <- _|].
    intros (? & p1 & _ & Hrun)%bind_inv. rewrite !bind_get in *.
    apply bind_inv in Hrun as (b & p2 & _ & Hret). by injection Hret as <- _.
Qed.

Lemma parse_loop_more more fuel : forall fuel' e src p p',
  parse_loop parseFloat H fuel e src p = (Done tt, p') -> (length src < fuel)%nat ->
  (length src + length more < fuel')%nat ->
  exists fuel'', (length more < fuel'')%nat
    /\ parse_loop parseFloat H fuel' e (src ++ more) p = parse_loop parseFloat H fuel'' e more p'.
Proof.
  induction fuel as [|fuel IH]; intros fuel' e src p p' Hrun Hf Hf'; [done|]. simpl in Hrun.
  destruct src as [|c src].
  { injection Hrun as <-. exists fuel'. simpl in *. split; [lia|done]. }
  destruct fuel' as [|fuel']; [simpl in Hf'; lia|].
  apply bind_inv in Hrun as ([b src'] & p1 & Hc & Hrun). cbn [fst snd] in Hrun. destruct b; [|done].
  pose proof (parseChar_shorter _ _ _ _ _ Hc). simpl in *.
  destruct (IH fuel' e src' p1 p' Hrun) as (fuel'' & Hl & E); [lia|lia|].
  exists fuel''. split; [done|]. cbn [app parse_loop].
  by rewrite (bind_Done _ _ _ _ _ (parseChar_more _ _ more _ _ _ Hc)).
Qed.

(** ** The flags between two characters *)

(** An escape is only pending in the state behind a backslash. *)
Record calm p : Prop := {
  calm_escaped : _escaped H p = true -> _state H p = EC;
  calm_comment : _comment H p = false;
  calm_allow : _allowComments H p = false
}.

Definition flags p : Prop := _escaped H p = false /\ _comment H p = false /\ _allowComments H p = false.

Definition keeps_flags {A} (m : ST parser A) : Prop := forall p r p', flags p -> m p = (r, p') -> flags p'.

Lemma keeps_bind {A B} (m : ST parser A) (k : A -> ST parser B) :
  keeps_flags m -> (forall a, keeps_flags (k a)) -> keeps_flags (bind m k).
Proof.
  intros Hm Hk p r p' Hp. unfold bind. destruct (m p) as [[a| |x|] p1] eqn:E; intros Hr.
  - by apply (Hk a p1 r p' (Hm p _ p1 Hp E)).
  - injection Hr as _ <-. exact (Hm p _ p1 Hp E).
  - injection Hr as _ <-. exact (Hm p _ p1 Hp E).
  - injection Hr as _ <-. exact (Hm p _ p1 Hp E).
Qed.

Lemma keeps_get : keeps_flags get.
Proof. intros p r p' Hp. by injection 1 as _ <-. Qed.

Lemma keeps_ret {A} (a : A) : keeps_flags (ret a).
Proof. intros p r p' Hp. by injection 1 as _ <-. Qed.

Lemma keeps_raise {A} x : keeps_flags (throw x : ST parser A).
Proof. intros p r p' Hp. by injection 1 as _ <-. Qed.

Lemma keeps_modify f : (forall p, flags p -> flags (f p)) -> keeps_flags (modify f).
Proof. intros Hf p r p' Hp. injection 1 as _ <-. by apply Hf. Qed.

Lemma keeps_lift {A} (r : res A) : keeps_flags (lift r).
Proof. intros p x p' Hp. by injection 1 as _ <-. Qed.

Lemma keeps_assert c : keeps_flags (poco_assert c).
Proof. destruct c; [apply keeps_ret|apply keeps_raise]. Qed.

Lemma keeps_call e : keeps_flags (call H e).
Proof.
  intros p r p' Hp. unfold call. destruct (_pHandler H p) as [h|]; [|by injection 1 as _ <-].
  destruct (on H e h) as [x h']. by injection 1 as _ <-.
Qed.

Lemma keeps_catch {A} (m k : ST parser A) : keeps_flags m -> keeps_flags k -> keeps_flags (catch_syntax m k).
Proof.
  intros Hm Hk p r p' Hp. unfold catch_syntax. destruct (m p) as [x p1] eqn:E. pose proof (Hm p _ p1 Hp E) as Hp1.
  destruct x as [| |x|]; try (by injection 1 as _ <-). destruct x; try (by injection 1 as _ <-); by apply Hk.
Qed.
End More.

Create HintDb flags.
#[local] Hint Resolve keeps_get keeps_ret keeps_raise keeps_lift keeps_assert keeps_call : flags.

(** The operations of the parser, step by step. *)
Ltac keep_flags := repeat first
  [ solve [eauto with flags]
  | apply keeps_bind; [|intros ?]
  | apply keeps_modify; by intros ? (? & ? & ?)
  | apply keeps_catch
  | match goal with |- keeps_flags _ (if ?b then _ else _) => destruct b end
  | match goal with |- keeps_flags _ (match ?x with _ => _ end) => destruct x end ].

Section Flags.
Context {double : Type} (parseFloat : list Z -> res double) (H : Handler double).
Local Abbreviation parser := (Parser_ H).
Implicit Types (p : parser).

Lemma keeps_stack_top : keeps_flags H (stack_top H).
Proof. unfold stack_top. keep_flags. Qed.

Lemma keeps_push m : keeps_flags H (push H m).
Proof. unfold push. keep_flags. Qed.

Lemma keeps_pop m : keeps_flags H (pop H m).
Proof. unfold pop. pose proof keeps_stack_top. keep_flags. Qed.

Lemma keeps_parseBuffer : keeps_flags H (parseBuffer parseFloat H).
Proof. unfold parseBuffer, integer_value, clearBuffer. keep_flags. Qed.

Lemma keeps_decode : keeps_flags H (decodeUnicodeChar H).
Proof. unfold decodeUnicodeChar. keep_flags. Qed.

Lemma keeps_action a : a <> EX -> keeps_flags H (action parseFloat H a).
Proof.
  intros Ha. destruct (decide (a = CB)) as [->|Hcb].
  { intros p r p' Hp Hr. rewrite (action_begin_comment parseFloat H p) in Hr by apply Hp. by injection Hr as _ <-. }
  pose proof keeps_stack_top. pose proof keeps_push. pose proof keeps_pop.
  pose proof keeps_parseBuffer. pose proof keeps_decode.
  unfold action. rewrite (proj2 (Z.eqb_neq a EX) Ha), (proj2 (Z.eqb_neq a CB) Hcb).
  unfold when, enter, clearBuffer, assertNotStringNullBool, type_is, type_is_not, parseBufferPopBackChar.
  repeat match goal with |- keeps_flags _ (if a =? ?c then _ else _) => destruct (a =? c); [solve [keep_flags]|] end.
  apply keeps_ret.
Qed.

Lemma flags_calm p : flags H p -> calm H p.
Proof. intros (E1 & E2 & E3). split; [by rewrite E1|done|done]. Qed.

Lemma addChar_flags c k p u p' : calm H p -> addCharToParseBuffer H c k p = (Done u, p') -> flags H p'.
Proof.
  intros [E1 E2 E3] Hrun. unfold addCharToParseBuffer in Hrun. rewrite bind_get in Hrun.
  destruct (_escaped H p) eqn:E.
  - unfold addEscapedCharToParseBuffer in Hrun. rewrite bind_modify in Hrun.
    apply bind_inv in Hrun as (? & p1 & ->%popBack_inv & Hrun). by injection Hrun as _ <-.
  - rewrite E2 in Hrun. destruct (_ || _); by injection Hrun as _ <-.
Qed.

Lemma parseChar_calm c src p r p' :
  calm H p -> parseChar parseFloat H c src p = (Done r, p') -> calm H p'.
Proof.
  intros Hp. unfold parseChar. rewrite bind_get. destruct (_ && _); [by injection 1 as _ <-|]. destruct (0x80 <=? c).
  - destruct (_ =? _)%nat; [done|]. destruct (_ <? _)%nat; [done|]. destruct (negb _); [done|].
    rewrite bind_modify. injection 1 as _ <-. by destruct Hp.
  - cbv zeta. destruct (_ <=? _); [by injection 1 as _ <-|].
    intros (? & p1 & Hadd & Hrun)%bind_inv. apply addChar_flags in Hadd; [|done]. rewrite bind_get in Hrun.
    apply bind_inv in Hrun as (b & p2 & Hrun & Hret). injection Hret as _ <-. set (a := nth _ _ xx) in Hrun.
    destruct (0 <=? a); [rewrite bind_modify in Hrun; injection Hrun as _ <-; by apply flags_calm|].
    destruct (decide (a = EX)) as [Ha|Ha]; [|apply flags_calm; by apply (keeps_action a Ha p1 (Done b))].
    rewrite Ha in Hrun. change (action parseFloat H EX) with (do* modify (set_escaped H true); do* modify (set_state H EC);
      ret true) in Hrun. rewrite !bind_modify in Hrun. injection Hrun as _ <-. by destruct Hadd as (? & ? & ?).
Qed.

Lemma parse_loop_calm fuel e : forall src p u p',
  calm H p -> parse_loop parseFloat H fuel e src p = (Done u, p') -> calm H p'.
Proof.
  induction fuel as [|fuel IH]; intros src p u p' Hp Hrun; [done|]. simpl in Hrun.
  destruct src as [|c src]; [by injection Hrun as _ <-|].
  apply bind_inv in Hrun as ([b src'] & p1 & Hc & Hrun). cbn [fst] in Hrun. destruct b; [|done].
  by apply (IH src' p1 u p' (parseChar_calm _ _ _ _ _ Hp Hc)).
Qed.

End Flags.

(** ** A bracket too many *)
Lemma bind_UB {S A B} (m : ST S A) (k : A -> ST S B) s s' : m s = (UB, s') -> bind m k s = (UB, s').
Proof. intros E. unfold bind. by rewrite E. Qed.

Lemma bracket_undefined {double} (parseFloat : list Z -> res double) (p : Parser_ ParseHandler.ParseHandler)
    (h : ParseHandler_ double) c src :
  calm _ p -> _state _ p = OK -> _type _ p = T_NONE -> _pHandler _ p = Some h -> ph_stack h = [] ->
  c = chr "]" \/ c = chr "}" -> exists p', parseChar parseFloat _ c src p = (UB, p').
Proof.
  intros [Ee Ec _] Es Et Hh Hst Hc. unfold parseChar. rewrite bind_get.
  assert (Hx : exists a, nth (Z.to_nat c) _asciiClass xx = class c /\ 0 <= class c /\ 0 < c < 128 /\ entry OK (class c) = a
    /\ pushes T_NONE (class c) = true /\ a < 0 /\ exists e K, (e = EndArray \/ e = EndObject)
    /\ forall q, action parseFloat (ParseHandler.ParseHandler (double := double)) a q
       = (do* parseBufferPopBackChar _; do* parseBuffer parseFloat _; do* call _ e; K) q).
  { destruct Hc as [->| ->]; eexists; (split_and!; try done); eexists _, _; (split; [|reflexivity]); [by left|by right]. }
  destruct Hx as (a & -> & Hk & Hr & Ha & Hpu & Hneg & e & K & He & Hact).
  rewrite (proj2 (Z.eqb_neq c 0)), andb_false_r, (proj2 (Z.leb_gt 128 c)) by lia. cbv zeta.
  rewrite (proj2 (Z.leb_gt (class c) xx)) by (unfold xx; lia).
  set (q := set_buffer _ (_parseBuffer _ p ++ [c]) p).
  assert (Hadd : addCharToParseBuffer _ c (class c) p = (Done tt, q)).
  { unfold addCharToParseBuffer. rewrite bind_get. destruct (_escaped _ p); [by specialize (Ee eq_refl); rewrite Es in Ee|].
    rewrite Ec, Et. fold (pushes T_NONE (class c)). by rewrite Hpu. }
  rewrite (bind_Done _ _ _ _ _ Hadd), bind_get. change (_state _ q) with (_state _ p). rewrite Es.
  fold (entry OK (class c)). rewrite Ha, (proj2 (Z.leb_gt 0 a)) by done. unfold bind at 1. rewrite Hact.
  rewrite (bind_Done _ _ _ _ _ (popBack_app _ q (_parseBuffer _ p) c eq_refl)).
  rewrite (bind_Done _ _ _ _ _ (parseBuffer_none parseFloat ParseHandler.ParseHandler (set_buffer _ (_parseBuffer _ p) q) h Hh Et)).
  eexists. unfold bind at 1. unfold call. cbn [set_buffer set_handler _pHandler].
  assert (on ParseHandler.ParseHandler e h = (UB, h)) as ->; [|reflexivity].
  destruct He as [->| ->]; simpl; unfold ParseHandler.endArray, ParseHandler.endObject, ParseHandler.endContainer;
    by rewrite bind_get, Hst.
Qed.

(** ** Theorems *)
Local Abbreviation PH := ParseHandler.ParseHandler.

(** C36: whatever handler the parser drives, an accepted text makes it see
    exactly the calls of one object or array, properly nested and with a key
    in front of each member; the result is the handler's.  The handler throws
    none of the exceptions that the parser takes for its own ([Quiet]). *)
Theorem json_handler_protocol {double} (parseFloat : list Z -> res double) (H : Handler double) (Hq : Quiet H)
    (h0 : hstate H) s x p' :
  Forall is_byte s -> parse parseFloat H s (construct H (Some h0)) = (Done x, p') ->
  exists v h, container v = true /\ replay H (ev v) h0 = (Done tt, h) /\ _pHandler H p' = Some h /\ x = h_asVar H h.
Proof.
  intros Hs Hrun.
  destruct (parse_with_inv parseFloat H h0 _ s _ x p' (construct_inv H h0) Hs Hrun)
    as (p1 & v & h & _ & _ & _ & _ & Hv & Hseen & Hh & Hx). by exists v, h.
Qed.

(** Texts of the witnesses: [{"b":[1,"\u0007x",null],"a":true}] and its value. *)
Definition no_float : list Z -> res unit := fun _ => Raise SyntaxException.
Definition sample_text : list Z :=
  str "{" ++ [34] ++ str "b" ++ [34] ++ str ":[1," ++ [34; 92] ++ str "u0007x" ++ [34] ++ str ",null]," ++ [34] ++ str "a"
  ++ [34] ++ str ":true}".
Definition sample : json unit :=
  JObj [(str "a", JScalar (VBool true)); (str "b", JArr [JScalar (VInt 1); JScalar (VString (7 :: str "x")); JNull])].
Definition sample_heap : list (node unit) :=
  [ObjectNode [(str "a", VScalar (VBool true)); (str "b", VArray 1)];
   ArrayNode [VScalar (VInt 1); VScalar (VString (7 :: str "x")); VEmpty]].

Lemma sample_denotes : denotes sample_heap 0 (VObject 0) sample.
Proof. repeat first [econstructor; [lia|reflexivity|] | constructor | done]. Qed.

(** The run of the parser on the sample. *)
Definition sample_run : res (Var unit) * Parser_ PH :=
  Eval vm_compute in parse no_float PH sample_text (construct PH (Some ParseHandler.construct)).

Lemma sample_text_bytes : Forall is_byte sample_text.
Proof. repeat (constructor; [done|]). constructor. Qed.

Lemma json_handler_protocol_witness :
  exists (v : json unit) h, container v = true /\ replay PH (ev v) ParseHandler.construct = (Done tt, h)
              /\ ph_result h = VObject 0.
Proof.
  destruct (json_handler_protocol no_float PH parse_handler_quiet ParseHandler.construct sample_text (VObject 0)
    (snd sample_run) sample_text_bytes ltac:(vm_compute; reflexivity)) as (v & h & H1 & H2 & H3 & H4).
  exists v, h. by split_and!.
Defined.

(** The value that [parse] returns through a new [ParseHandler] is a tree:
    objects and arrays behind pointers that are not shared, equal to a
    complete value in which each object keeps the last member of each key, by
    increasing keys.  No container is left open. *)
Theorem json_parse_builds {double} (parseFloat : list Z -> res double) s x p' :
  Forall is_byte s -> parse parseFloat PH s (construct PH (Some ParseHandler.construct)) = (Done x, p') ->
  exists v h, container v = true /\ _pHandler PH p' = Some h /\ ph_stack h = []
    /\ replay PH (ev v) ParseHandler.construct = (Done tt, h)
    /\ denotes (ph_heap h) 0 x (norm v) /\ sorted_keys (norm v).
Proof.
  intros Hs Hrun.
  destruct (parse_with_inv parseFloat PH ParseHandler.construct _ s _ x p' (construct_inv PH _) Hs Hrun)
    as (p1 & v & h & _ & _ & _ & _ & Hv & Hseen & Hh & ->).
  destruct (build_root ParseHandler.construct v eq_refl Hv) as (h' & Hev & Hst & Hden).
  unfold seen in Hseen. rewrite Hseen in Hev. injection Hev as <-.
  exists v, h. split_and!; try done. apply norm_sorted_keys.
Qed.

Lemma json_parse_builds_witness :
  exists (v : json unit) h, container v = true /\ _pHandler PH (snd sample_run) = Some h /\ denotes (ph_heap h) 0 (VObject 0) (norm v).
Proof.
  destruct (json_parse_builds no_float sample_text (VObject 0) (snd sample_run) sample_text_bytes
    ltac:(vm_compute; reflexivity)) as (v & h & H1 & H2 & _ & _ & H3 & _).
  exists v, h. by split_and!.
Defined.

(** C35: what [Stringifier] prints of an object or array, with any
    indentation, [Parser] reads back as the same value: members, order,
    integers with their types, truth values, nulls and strings with every
    character escaped and restored.  The values are [printable]: keys hold no
    character that needs an escape ([key_not_escaped]) and are sorted as a map has
    them; an integer is an [int] or an [Int64] outside the range of [int] and not
    its least value, so no UInt, UInt64 or double; strings are UTF-8 without
    NUL. *)
Theorem json_roundtrip {double} (parseFloat : list Z -> res double) (formatDouble : double -> list Z)
    heap lo x j fuel indent :
  denotes heap lo x j -> printable j -> sorted_keys j -> container j = true -> (height j <= fuel)%nat ->
  exists t p' h y, Stringifier.stringify formatDouble heap fuel x indent = Done t
    /\ parse parseFloat PH t (construct PH (Some ParseHandler.construct)) = (Done y, p')
    /\ _pHandler PH p' = Some h /\ denotes (ph_heap h) 0 y j.
Proof.
  intros Hx Hp Hs Hc Hf. exact (stringify_parse parseFloat formatDouble heap lo x j fuel indent SyntaxException
    ParseHandler.construct Hx Hp Hs Hc Hf eq_refl).
Qed.

Lemma sample_printable : printable sample.
Proof.
  assert (Hkey : forall c, raw c = true -> utf8_text raw [c])
    by (intros c Hc; constructor; [unfold raw in Hc; lia|done|constructor]).
  repeat constructor; try lia; try (by apply Hkey); done.
Qed.

Lemma sample_sorted : sorted_keys sample.
Proof. repeat constructor. Qed.

Lemma json_roundtrip_witness :
  exists t p' h y, Stringifier.stringify (fun _ : unit => []) sample_heap 3 (VObject 0) 2 = Done t
    /\ parse no_float PH t (construct PH (Some ParseHandler.construct)) = (Done y, p')
    /\ _pHandler PH p' = Some h /\ denotes (ph_heap h) 0 y sample.
Proof.
  exact (json_roundtrip no_float (fun _ => []) sample_heap 0 (VObject 0) sample 3 2
    sample_denotes sample_printable sample_sorted eq_refl ltac:(vm_compute; lia)).
Defined.

(** A closing bracket behind a complete text is undefined behaviour: the
    parser passes the end of the container to the handler before it looks at
    its own stack, and [ParseHandler] pops an empty stack. *)
Theorem json_extra_bracket_undefined {double} (parseFloat : list Z -> res double) s x p' c :
  Forall is_byte s -> parse parseFloat PH s (construct PH (Some ParseHandler.construct)) = (Done x, p') ->
  c = chr "]" \/ c = chr "}" ->
  fst (parse parseFloat PH (s ++ [c]) (construct PH (Some ParseHandler.construct))) = UB.
Proof.
  intros Hs Hrun Hc.
  destruct (parse_with_inv parseFloat PH ParseHandler.construct _ s _ x p' (construct_inv PH _) Hs Hrun)
    as (p1 & v & h & Hloop & Es & Et & Hh & Hv & Hseen & _).
  destruct (build_root ParseHandler.construct v eq_refl Hv) as (h' & Hev & Hst & _).
  unfold seen in Hseen. rewrite Hseen in Hev. injection Hev as <-.
  assert (Hcalm : calm PH p1) by (eapply (parse_loop_calm parseFloat PH); [|exact Hloop]; done).
  destruct (parse_loop_more parseFloat PH [c] _ (S (length (s ++ [c]))) SyntaxException s _ p1 Hloop) as (fuel & Hf & E);
    [lia|rewrite length_app; simpl; lia|].
  destruct fuel as [|fuel]; [simpl in Hf; lia|]. destruct (bracket_undefined parseFloat p1 h c [] Hcalm Es Et Hh Hst Hc) as [p2 E2].
  cbn [parse_loop] in E. rewrite (bind_UB _ _ _ _ E2) in E.
  unfold parse, parse_with. erewrite bind_UB; [done|exact E].
Qed.

Lemma json_extra_bracket_undefined_witness :
  fst (parse no_float PH (sample_text ++ [chr "]"]) (construct PH (Some ParseHandler.construct))) = UB.
Proof.
  exact (json_extra_bracket_undefined no_float sample_text (VObject 0) (snd sample_run) (chr "]") sample_text_bytes
    ltac:(vm_compute; reflexivity) (or_introl eq_refl)).
Defined.

(** ** Observed behaviour *)
Local Abbreviation UPH := (ParseHandler.ParseHandler (double := unit)).
Local Abbreviation fresh := (construct UPH (Some ParseHandler.construct)).

(** What [PrintHandler] writes for the calls of a value. *)
Definition print_out (j : json unit) : list Z :=
  PrintHandler.out (snd (replay (PrintHandler.PrintHandler (fun _ => [])) (ev j) (PrintHandler.construct 0))).

(** [PrintHandler] writes truth values as numbers, leaves out the commas
    between nested containers, and writes integers in hexadecimal behind a
    string with an escaped control character. *)
Lemma print_handler_misprints :
  print_out (JArr [JScalar (VBool true)]) = str "[1]"
  /\ print_out (JArr [JArr [JScalar (VInt 1)]; JArr [JScalar (VInt 2)]]) = str "[[1][2]]"
  /\ print_out (JArr [JScalar (VString [7]); JScalar (VInt 26)]) = str "[" ++ [34; 92] ++ str "u0007" ++ [34] ++ str ",1A]".
Proof. by vm_compute. Qed.

(** A character above ASCII is taken in any state of the parser, also between tokens. *)
Lemma multibyte_between_tokens :
  fst (parse no_float UPH (str "[" ++ [0xC3; 0xA9] ++ str "]") fresh) = Done (VArray 0).
Proof. by vm_compute. Qed.

(** Limits above the initial size of the stack end in an assertion; the
    stack only grows when the depth is unlimited. *)
Lemma depth_above_stack_size :
  fst (parse no_float UPH (replicate 128 (chr "[")) (setDepth _ 300 fresh)) = Raise AssertionViolationException
  /\ fst (parse no_float UPH (replicate 128 (chr "[") ++ replicate 128 (chr "]")) fresh) = Done (VArray 0).
Proof. by vm_compute. Qed.

(** The number 0e1 of the JSON grammar is rejected. *)
Lemma zero_exponent_rejected : fst (parse no_float UPH (str "[0e1]") fresh) = Raise SyntaxException.
Proof. by vm_compute. Qed.

(** A comment may stand for the last letter of a literal. *)
Lemma comment_inside_literal :
  fst (parse no_float UPH (str "[tru/**/]") (setAllowComments _ true fresh)) = Done (VArray 0).
Proof. by vm_compute. Qed.

(** Keys are printed as they are: a quote in a key makes the text unreadable. *)
Lemma key_not_escaped :
  exists t, Stringifier.stringify (fun _ : unit => []) [ObjectNode [([34], VEmpty)]] 2 (VObject 0) 0 = Done t
    /\ fst (parse no_float UPH t fresh) = Raise SyntaxException.
Proof. eexists. split; [reflexivity|]. by vm_compute. Qed.

(** [reset] keeps the comment flag: behind a text that ends inside a comment
    no character of the next text enters the buffer, and the first bracket
    ends in an assertion. *)
Lemma reset_inside_comment :
  let p := snd (parse no_float UPH (str "[/*") (setAllowComments _ true fresh)) in
  fst (parse no_float UPH (str "[]") (snd (reset _ p))) = Raise AssertionViolationException.
Proof. by vm_compute. Qed.
