(* ===== verification/JsonObject.v ===== *)
(** Object and Array of JSON as containers: Object.cpp, Object.h, Array.cpp
    and Array.h, for objects that do not preserve the insertion order.

    The members of an object are a [std::map]: its entries by increasing
    keys.  [Object] is refined to a finite map, whatever the sequence of
    calls. *)

From Stdlib Require Import Sorted.
From stdpp Require Import gmap.
From S2P Require Import Prelude Strings Json JsonRound.

Local Open Scope Z_scope.

(** [_values.find(key)] and [_values.erase(key)] *)
Fixpoint map_find {A} (k : list Z) (m : list (list Z * A)) : option A :=
  match m with
  | [] => None
  | (k', v) :: r =>
      if str_lt k k' then None
      else if str_lt k' k then map_find k r
      else Some v
  end.

Fixpoint map_erase {A} (k : list Z) (m : list (list Z * A)) : list (list Z * A) :=
  match m with
  | [] => []
  | (k', v) :: r =>
      if str_lt k k' then m
      else if str_lt k' k then (k', v) :: map_erase k r
      else r
  end.

Module Object.
Section Object.
Context {double : Type}.
Local Abbreviation var := (Var double).
Local Abbreviation members := (list (list Z * var)).

(** [_values]; [_keys] stays empty and [_pStruct] is not used. *)
Record Object_ := { _values : members }.

Definition construct : Object_ := {| _values := [] |}.

Definition get (key : list Z) (o : Object_) : var :=
  match map_find key (_values o) with Some v => v | None => VEmpty end.

(** An empty pointer is [None]. *)
Definition getArray (key : list Z) (o : Object_) : option nat :=
  match map_find key (_values o) with Some (VArray p) => Some p | _ => None end.
Definition getObject (key : list Z) (o : Object_) : option nat :=
  match map_find key (_values o) with Some (VObject p) => Some p | _ => None end.

Definition getNames (o : Object_) : list (list Z) := map fst (_values o).

Definition has (key : list Z) (o : Object_) : bool :=
  match map_find key (_values o) with Some _ => true | None => false end.
Definition isArray (key : list Z) (o : Object_) : bool :=
  match map_find key (_values o) with Some (VArray _) => true | _ => false end.
Definition isNull (key : list Z) (o : Object_) : bool :=
  match map_find key (_values o) with None | Some VEmpty => true | _ => false end.
Definition isObject (key : list Z) (o : Object_) : bool :=
  match map_find key (_values o) with Some (VObject _) => true | _ => false end.
Definition size (o : Object_) : nat := length (_values o).

Definition set (key : list Z) (value : var) (o : Object_) : Object_ := {| _values := map_set key value (_values o) |}.
Definition remove (key : list Z) (o : Object_) : Object_ := {| _values := map_erase key (_values o) |}.
Definition clear (o : Object_) : Object_ := {| _values := [] |}.
End Object.
Arguments Object_ : clear implicits.
End Object.

Module Array.
Section Array.
Context {double : Type}.
Local Abbreviation var := (Var double).

Record Array_ := { _values : list var }.

Definition construct : Array_ := {| _values := [] |}.

(** [_values.at(index)] throws out of range, and the exception is ignored. *)
Definition get (index : nat) (a : Array_) : var :=
  match _values a !! index with Some v => v | None => VEmpty end.

Definition getArray (index : nat) (a : Array_) : option nat :=
  match get index a with VArray p => Some p | _ => None end.
Definition getObject (index : nat) (a : Array_) : option nat :=
  match get index a with VObject p => Some p | _ => None end.
Definition isArray (index : nat) (a : Array_) : bool :=
  match get index a with VArray _ => true | _ => false end.
Definition isObject (index : nat) (a : Array_) : bool :=
  match get index a with VObject _ => true | _ => false end.
Definition isNull (index : nat) (a : Array_) : bool :=
  if (index <? length (_values a))%nat
  then match _values a !! index with Some VEmpty => true | _ => false end
  else true.
Definition size (a : Array_) : nat := length (_values a).

Definition add (value : var) (a : Array_) : Array_ := {| _values := _values a ++ [value] |}.

(** [_values.erase(_values.begin() + index)]: undefined past the end. *)
Definition remove (index : nat) (a : Array_) : res Array_ :=
  if (index <? length (_values a))%nat
  then Done {| _values := take index (_values a) ++ drop (S index) (_values a) |}
  else UB.

Definition clear (a : Array_) : Array_ := {| _values := [] |}.
End Array.
Arguments Array_ : clear implicits.
End Array.

(** ** Sorted entries as a finite map *)
Section Sorted.
Context {A : Type}.
Local Abbreviation entries := (list (list Z * A)).
Local Abbreviation by_key := (fun a b : list Z * A => str_lt (fst a) (fst b) = true).

Lemma str_lt_irrefl k : str_lt k k = false.
Proof. induction k as [|x k IH]; [done|]. simpl. by rewrite Z.ltb_irrefl, Z.eqb_refl. Qed.

(** The three ways to compare two keys. *)
Lemma key_cases k k' :
  (str_lt k k' = true /\ str_lt k' k = false /\ k <> k')
  \/ (str_lt k k' = false /\ str_lt k' k = true /\ k <> k')
  \/ (k = k' /\ str_lt k k' = false /\ str_lt k' k = false).
Proof.
  destruct (str_lt k k') eqn:E1.
  - left. split_and!; [done|by apply str_lt_asym|intros ->; by rewrite str_lt_irrefl in E1].
  - destruct (str_lt k' k) eqn:E2; [right; left|right; right].
    + split_and!; [done|done|intros ->; by rewrite str_lt_irrefl in E2].
    + split_and!; [by apply str_lt_total|done|done].
Qed.

Definition find_map (m : entries) : gmap (list Z) A := list_to_map m.

Lemma find_none k (m : entries) : Forall (fun kv => str_lt k (fst kv) = true) m -> find_map m !! k = None.
Proof.
  intros Hm. apply not_elem_of_list_to_map_1. intros Hin. apply list_elem_of_fmap in Hin as ([k' v] & -> & Hin).
  apply list_elem_of_In, (proj1 (List.Forall_forall _ _) Hm) in Hin. by rewrite str_lt_irrefl in Hin.
Qed.

Lemma map_find_spec k (m : entries) : StronglySorted by_key m -> map_find k m = find_map m !! k.
Proof.
  induction 1 as [|[k' v] m Hm IH Hk]; [done|]. simpl in *. unfold find_map. simpl.
  destruct (key_cases k k') as [(E1 & E2 & Hne)|[(E1 & E2 & Hne)|(-> & E1 & E2)]]; rewrite E1, ?E2.
  - rewrite lookup_insert_ne by done. symmetry. apply find_none. eapply Forall_impl; [|exact Hk].
    intros [k2 v2] H2. by apply (str_lt_trans _ k').
  - by rewrite lookup_insert_ne.
  - by rewrite lookup_insert_eq.
Qed.

Lemma map_set_find k (v : A) (m : entries) :
  StronglySorted by_key m -> find_map (map_set k v m) = <[k := v]> (find_map m).
Proof.
  induction 1 as [|[k' v'] m Hm IH Hk]; [done|]. simpl.
  destruct (key_cases k k') as [(E1 & E2 & Hne)|[(E1 & E2 & Hne)|(-> & E1 & E2)]]; rewrite E1, ?E2; unfold find_map in *; simpl.
  - done.
  - rewrite IH. by rewrite insert_insert_ne.
  - by rewrite insert_insert_eq.
Qed.

Lemma map_erase_find k (m : entries) :
  StronglySorted by_key m -> find_map (map_erase k m) = delete k (find_map m).
Proof.
  induction 1 as [|[k' v'] m Hm IH Hk]; [unfold find_map; simpl; by rewrite delete_empty|]. simpl.
  assert (Hlow : str_lt k k' = true \/ k = k' -> find_map m !! k = None).
  { intros Hc. apply find_none. eapply Forall_impl; [|exact Hk].
    intros [k2 v2] H2. destruct Hc as [Hc| ->]; [by apply (str_lt_trans _ k')|done]. }
  destruct (key_cases k k') as [(E1 & E2 & Hne)|[(E1 & E2 & Hne)|(-> & E1 & E2)]]; rewrite E1, ?E2; unfold find_map in *; simpl.
  - rewrite delete_insert_ne, delete_id by (done || by apply Hlow; left). done.
  - by rewrite IH, delete_insert_ne.
  - rewrite delete_insert_id; [done|]. by apply Hlow; right.
Qed.

Lemma map_erase_Forall (P : list Z * A -> Prop) k m : Forall P m -> Forall P (map_erase k m).
Proof.
  intros Hm. induction Hm as [|[k' v'] m Hk' Hm IH]; simpl; [by constructor|].
  destruct (str_lt k k'); [by constructor|]. destruct (str_lt k' k); [by constructor|done].
Qed.

Lemma map_erase_sorted k (m : entries) : StronglySorted by_key m -> StronglySorted by_key (map_erase k m).
Proof.
  induction 1 as [|[k' v'] m Hm IH Hk]; simpl; [constructor|].
  destruct (str_lt k k'); [by constructor|]. destruct (str_lt k' k); [|done].
  constructor; [done|]. by apply map_erase_Forall.
Qed.

Lemma sorted_nodup (m : entries) : StronglySorted by_key m -> NoDup (map fst m).
Proof.
  induction 1 as [|[k v] m Hm IH Hk]; simpl; constructor; [|done].
  intros ([k' v'] & Hkk & Hin)%list_elem_of_fmap. simpl in Hkk. subst k'.
  apply list_elem_of_In, (proj1 (List.Forall_forall _ _) Hk) in Hin. simpl in Hin. by rewrite str_lt_irrefl in Hin.
Qed.
End Sorted.

(** ** Calls on an object and on a finite map *)
Section Refinement.
Context {double : Type}.
Local Abbreviation var := (Var double).
Local Abbreviation object := (Object.Object_ double).
Local Abbreviation finmap := (gmap (list Z) var).

Inductive object_op :=
| OSet (k : list Z) (v : var) | ORemove (k : list Z) | OClear
| OGet (k : list Z) | OGetArray (k : list Z) | OGetObject (k : list Z)
| OHas (k : list Z) | OIsNull (k : list Z) | OIsArray (k : list Z) | OIsObject (k : list Z)
| OSize.

Inductive answer := ANone | AVar (v : var) | APtr (p : option nat) | ABool (b : bool) | ASize (n : nat).

Definition object_step (op : object_op) (o : object) : answer * object :=
  match op with
  | OSet k v => (ANone, Object.set k v o)
  | ORemove k => (ANone, Object.remove k o)
  | OClear => (ANone, Object.clear o)
  | OGet k => (AVar (Object.get k o), o)
  | OGetArray k => (APtr (Object.getArray k o), o)
  | OGetObject k => (APtr (Object.getObject k o), o)
  | OHas k => (ABool (Object.has k o), o)
  | OIsNull k => (ABool (Object.isNull k o), o)
  | OIsArray k => (ABool (Object.isArray k o), o)
  | OIsObject k => (ABool (Object.isObject k o), o)
  | OSize => (ASize (Object.size o), o)
  end.

(** The pointer a value holds, when it is an array or an object. *)
Definition array_ptr (v : var) : option nat := match v with VArray p => Some p | _ => None end.
Definition object_ptr (v : var) : option nat := match v with VObject p => Some p | _ => None end.

Definition map_step (op : object_op) (M : finmap) : answer * finmap :=
  match op with
  | OSet k v => (ANone, <[k := v]> M)
  | ORemove k => (ANone, delete k M)
  | OClear => (ANone, ∅)
  | OGet k => (AVar (default VEmpty (M !! k)), M)
  | OGetArray k => (APtr (M !! k ≫= array_ptr), M)
  | OGetObject k => (APtr (M !! k ≫= object_ptr), M)
  | OHas k => (ABool (bool_decide (is_Some (M !! k))), M)
  | OIsNull k => (ABool (match default VEmpty (M !! k) with VEmpty => true | _ => false end), M)
  | OIsArray k => (ABool (bool_decide (is_Some (M !! k ≫= array_ptr))), M)
  | OIsObject k => (ABool (bool_decide (is_Some (M !! k ≫= object_ptr))), M)
  | OSize => (ASize (size M), M)
  end.

Fixpoint run_ops {S} (step : object_op -> S -> answer * S) (ops : list object_op) (s : S) : list answer * S :=
  match ops with
  | [] => ([], s)
  | op :: ops => let '(a, s) := step op s in let '(r, s) := run_ops step ops s in (a :: r, s)
  end.

Local Abbreviation sorted_members := (StronglySorted (fun a b : list Z * var => str_lt (fst a) (fst b) = true)).

Record object_is (o : object) (M : finmap) : Prop := {
  object_sorted : sorted_members (Object._values o);
  object_map : find_map (Object._values o) = M
}.

Lemma object_find o M k : object_is o M -> map_find k (Object._values o) = M !! k.
Proof. intros [Hs <-]. by apply map_find_spec. Qed.

Lemma object_step_refines op o M :
  object_is o M -> fst (object_step op o) = fst (map_step op M)
                   /\ object_is (snd (object_step op o)) (snd (map_step op M)).
Proof.
  intros Ho. pose proof Ho as [Hs Hm].
  destruct op as [k v|k| |k|k|k|k|k|k|k|]; cbn [object_step map_step fst snd];
    unfold Object.get, Object.getArray, Object.getObject, Object.has, Object.isNull, Object.isArray, Object.isObject;
    rewrite ?(object_find o M k Ho); (split; [|try exact Ho]).
  - done.
  - split; [by apply map_set_sorted|]. cbn [Object.set Object._values]. by rewrite map_set_find, Hm.
  - done.
  - split; [by apply map_erase_sorted|]. cbn [Object.remove Object._values]. by rewrite map_erase_find, Hm.
  - done.
  - split; [constructor|done].
  - by destruct (M !! k).
  - by destruct (M !! k) as [[]|].
  - by destruct (M !! k) as [[]|].
  - by destruct (M !! k).
  - by destruct (M !! k) as [[]|].
  - by destruct (M !! k) as [[]|].
  - by destruct (M !! k) as [[]|].
  - f_equal. rewrite <-Hm. unfold Object.size, find_map. rewrite map_size_list_to_map; [done|].
    by apply sorted_nodup.
Qed.

Lemma run_ops_refines ops : forall o M, object_is o M ->
  fst (run_ops object_step ops o) = fst (run_ops map_step ops M)
  /\ object_is (snd (run_ops object_step ops o)) (snd (run_ops map_step ops M)).
Proof.
  induction ops as [|op ops IH]; intros o M Ho; [done|]. simpl.
  destruct (object_step_refines op o M Ho) as [E Ho'].
  destruct (object_step op o) as [a o1], (map_step op M) as [b M1]. simpl in E, Ho'. subst b.
  specialize (IH o1 M1 Ho'). destruct (run_ops object_step ops o1), (run_ops map_step ops M1).
  destruct IH as [E IH]. simpl in *. by subst.
Qed.

(** A JSON object answers every sequence of calls like a finite map from
    keys to values, and lists its names by increasing keys, each once. *)
Theorem json_object_refines_map ops :
  let '(answers, o) := run_ops object_step ops Object.construct in
  let '(spec, M) := run_ops map_step ops ∅ in
  answers = spec /\ StronglySorted (fun a b => str_lt a b = true) (Object.getNames o)
  /\ forall k, k ∈ Object.getNames o <-> is_Some (M !! k).
Proof.
  destruct (run_ops_refines ops Object.construct ∅) as [E Ho]; [by split; [constructor|]|].
  destruct (run_ops object_step ops _) as [answers o], (run_ops map_step ops ∅) as [spec M].
  cbn [fst snd] in E, Ho. subst spec. split; [done|].
  unfold Object.getNames. destruct Ho as [Hs <-]. split.
  - induction Hs as [|kv m Hm IH Hk]; simpl; constructor; [done|]. by apply List.Forall_map.
  - intros k. unfold find_map. rewrite <-(elem_of_dom (D := gset (list Z))), dom_list_to_map_L, elem_of_list_to_set.
    done.
Qed.
End Refinement.
