(* ===== verification/Fifo.v ===== *)
(** Buffer.h and FIFOBuffer.h at [char], the instantiation the library provides.

    A [Buffer] owns memory of [_capacity] characters, of which [_used] count;
    [memcpy] and [memmove] outside the memory are undefined.  A [FIFOBuffer]
    is a window [_begin], [_used] into a buffer, with end-of-file and error
    flags and two events for changes of state; the notifications are kept in
    a log.  Sizes are [std::size_t]: a difference wraps around. *)

From S2P Require Import Prelude.

Open Scope st_scope.
Local Open Scope Z_scope.

(** ** Memory *)

(** What [new char[n]] holds before it is written. *)
Definition fresh (uninit : nat -> Z) (n : Z) : list Z := map uninit (seq 0 (Z.to_nat n)).

(** The [len] characters from [off] on, and the memory with [data] from [off] on. *)
Definition mem_read (off len : Z) (mem : list Z) : res (list Z) :=
  if (0 <=? off) && (off + len <=? Z.of_nat (length mem))
  then Done (take (Z.to_nat len) (drop (Z.to_nat off) mem)) else UB.

Definition mem_write (off : Z) (data mem : list Z) : res (list Z) :=
  if (0 <=? off) && (off + Z.of_nat (length data) <=? Z.of_nat (length mem))
  then Done (take (Z.to_nat off) mem ++ data ++ drop (Z.to_nat off + length data) mem) else UB.

(** ** Buffer *)
Module Buffer.
Section Buffer.
Context (uninit : nat -> Z).

(** [_capacity] is the length of the memory behind [_ptr]. *)
Record Buffer_ := { _ptr : list Z; _used : Z; _ownMem : bool }.

Definition capacity (b : Buffer_) : Z := Z.of_nat (length (_ptr b)).
Definition size (b : Buffer_) : Z := _used b.
Definition empty (b : Buffer_) : bool := 0 =? _used b.

(** The three constructors. *)
Definition construct (capacity : Z) : Buffer_ := {| _ptr := fresh uninit capacity; _used := capacity; _ownMem := true |}.
Definition construct_on (mem : list Z) : Buffer_ := {| _ptr := mem; _used := Z.of_nat (length mem); _ownMem := false |}.
Definition construct_copy (mem : list Z) : Buffer_ := {| _ptr := mem; _used := Z.of_nat (length mem); _ownMem := true |}.

(** [memcpy] of the contents into new memory of [newCapacity] characters. *)
Definition regrow (newCapacity copied : Z) (preserveContent : bool) (b : Buffer_) : res (list Z) :=
  if preserveContent then
    (let? old := mem_read 0 copied (_ptr b) in mem_write 0 old (fresh uninit newCapacity))%res
  else Done (fresh uninit newCapacity).

Definition resize (newCapacity : Z) (preserveContent : bool) : ST Buffer_ unit :=
  let* b := get in
  if negb (_ownMem b) then throw InvalidAccessException
  else
    let* mem := lift (if capacity b <? newCapacity then regrow newCapacity (_used b) preserveContent b
                      else Done (_ptr b)) in
    modify (fun b => {| _ptr := mem; _used := newCapacity; _ownMem := _ownMem b |}).

Definition setCapacity (newCapacity : Z) (preserveContent : bool) : ST Buffer_ unit :=
  let* b := get in
  if negb (_ownMem b) then throw InvalidAccessException
  else if negb (newCapacity =? capacity b) then
    let* mem := lift (regrow newCapacity (if _used b <? newCapacity then _used b else newCapacity) preserveContent b) in
    modify (fun b => {| _ptr := mem; _used := if newCapacity <? _used b then newCapacity else _used b;
                        _ownMem := _ownMem b |})
  else ret tt.

(** [memcpy(_ptr + off, data, n)] *)
Definition put (off : Z) (data : list Z) : ST Buffer_ unit :=
  let* b := get in
  let* mem := lift (mem_write off data (_ptr b)) in
  modify (fun b => {| _ptr := mem; _used := _used b; _ownMem := _ownMem b |}).

Definition assign (buf : list Z) : ST Buffer_ unit :=
  let sz := Z.of_nat (length buf) in
  if sz =? 0 then ret tt
  else
    let* b := get in
    do* (if capacity b <? sz then resize sz false else ret tt);
    do* put 0 buf;
    modify (fun b => {| _ptr := _ptr b; _used := sz; _ownMem := _ownMem b |}).

Definition append (buf : list Z) : ST Buffer_ unit :=
  let sz := Z.of_nat (length buf) in
  if sz =? 0 then ret tt
  else
    let* b := get in
    do* resize (_used b + sz) true;
    let* b := get in
    put (_used b - sz) buf.

Definition append_char (val : Z) : ST Buffer_ unit :=
  let* b := get in
  do* resize (_used b + 1) true;
  let* b := get in
  put (_used b - 1) [val].

(** [swap] exchanges memory and sizes, not [_ownMem]; [operator =] swaps with
    a copy of the other buffer, which is destroyed: the memory its
    destructor deletes is the second component. *)
Definition copy_construct (other : Buffer_) : res Buffer_ :=
  (let? mem := mem_read 0 (_used other) (_ptr other) in
   Done {| _ptr := mem; _used := _used other; _ownMem := true |})%res.

Definition swap (a b : Buffer_) : Buffer_ * Buffer_ :=
  ({| _ptr := _ptr b; _used := _used b; _ownMem := _ownMem a |},
   {| _ptr := _ptr a; _used := _used a; _ownMem := _ownMem b |}).

Definition deleted (b : Buffer_) : option (list Z) := if _ownMem b then Some (_ptr b) else None.

Definition operator_assign (this other : Buffer_) : res (Buffer_ * option (list Z)) :=
  (let? tmp := copy_construct other in
   let '(this, tmp) := swap this tmp in
   Done (this, deleted tmp))%res.

(** [operator ==] of two buffers. *)
Definition equals (a b : Buffer_) : bool :=
  (_used a =? _used b) && bool_decide (take (Z.to_nat (_used a)) (_ptr a) = take (Z.to_nat (_used b)) (_ptr b)).

Definition clear : ST Buffer_ unit :=
  let* b := get in put 0 (replicate (Z.to_nat (_used b)) 0).

(** [operator []] *)
Definition at_ (index : Z) : ST Buffer_ Z :=
  let* b := get in
  do* poco_assert (index <? _used b);
  aget (_ptr b) index.
End Buffer.
End Buffer.

(** ** FIFOBuffer *)
Inductive fifo_event := Readable (flag : bool) | Writable (flag : bool).

Record FIFOBuffer_ := {
  _buffer : Buffer.Buffer_;
  _begin : Z;
  _used : Z;
  _notify : bool;
  _eof : bool;
  _error : bool;
  _log : list fifo_event    (* what the observers of [readable] and [writable] were told *)
}.

Module FIFOBuffer.
Section FIFO.
Context (uninit : nat -> Z).
Local Abbreviation fifo := FIFOBuffer_.

(** Assignments to the members. *)
Definition set_window (begin used : Z) (f : fifo) : fifo :=
  Build_FIFOBuffer_ (_buffer f) begin used (_notify f) (_eof f) (_error f) (_log f).
Definition set_buffer (b : Buffer.Buffer_) (f : fifo) : fifo :=
  Build_FIFOBuffer_ b (_begin f) (_used f) (_notify f) (_eof f) (_error f) (_log f).
Definition set_flags (eof error : bool) (f : fifo) : fifo :=
  Build_FIFOBuffer_ (_buffer f) (_begin f) (_used f) (_notify f) eof error (_log f).
Definition emit (e : fifo_event) : ST fifo unit :=
  modify (fun f => Build_FIFOBuffer_ (_buffer f) (_begin f) (_used f) (_notify f) (_eof f) (_error f) (_log f ++ [e])).

(** A call on [_buffer]. *)
Definition on_buffer {A} (m : ST Buffer.Buffer_ A) : ST fifo A := fun f =>
  let '(r, b) := m (_buffer f) in (r, set_buffer b f).

Definition construct (size : Z) (notify : bool) : fifo :=
  Build_FIFOBuffer_ (Buffer.construct uninit size) 0 0 notify false false [].
Definition construct_on (mem : list Z) (notify : bool) : fifo :=
  Build_FIFOBuffer_ (Buffer.construct_on mem) 0 0 notify false false [].
Definition construct_copy (mem : list Z) (notify : bool) : fifo :=
  Build_FIFOBuffer_ (Buffer.construct_copy mem) 0 (Z.of_nat (length mem)) notify false false [].

Definition size (f : fifo) : Z := Buffer.size (_buffer f).
Definition used (f : fifo) : Z := _used f.
Definition available (f : fifo) : Z := u64 (Buffer.size (_buffer f) - _used f).
Definition isValid (f : fifo) : bool := negb (_error f).
Definition hasEOF (f : fifo) : bool := _eof f.
Definition isEmpty (f : fifo) : bool := 0 =? _used f.
Definition isEOF (f : fifo) : bool := isEmpty f && _eof f.
Definition isFull (f : fifo) : bool := size f =? _used f.
Definition isReadable (f : fifo) : bool := negb (isEmpty f) && isValid f.
Definition isWritable (f : fifo) : bool := negb (isFull f) && isValid f && negb (_eof f).

Definition notify (usedBefore : Z) : ST fifo unit :=
  let* f := get in
  do* (if (usedBefore =? 0) && (0 <? _used f) then emit (Readable true)
       else if (0 <? usedBefore) && (0 =? _used f) then emit (Readable false) else ret tt);
  if (usedBefore =? size f) && (_used f <? size f) then emit (Writable true)
  else if (usedBefore <? size f) && (_used f =? size f) then emit (Writable false) else ret tt.

(** [if (_notify) notify(usedBefore);] *)
Definition maybe_notify (usedBefore : Z) : ST fifo unit :=
  let* f := get in if _notify f then notify usedBefore else ret tt.

Definition resize (newSize : Z) (preserveContent : bool) : ST fifo unit :=
  let* f := get in
  if preserveContent && (newSize <? _used f) then throw InvalidAccessException
  else
    let usedBefore := _used f in
    do* on_buffer (Buffer.resize uninit newSize preserveContent);
    do* (if negb preserveContent then modify (fun f => set_window (_begin f) 0 f) else ret tt);
    maybe_notify usedBefore.

(** [peek(pBuffer, length)] and [peek(buffer, length)]: what was copied. *)
Definition peek (length : Z) : ST fifo (list Z) :=
  if length =? 0 then ret []
  else
    let* f := get in
    if negb (isReadable f) then ret []
    else
      let length := if _used f <? length then _used f else length in
      lift (mem_read (_begin f) length (Buffer._ptr (_buffer f))).

Definition peek_buffer (length : Z) : ST fifo (list Z) :=
  let* f := get in
  if negb (isReadable f) then ret []
  else
    let length := if (length =? 0) || (_used f <? length) then _used f else length in
    peek length.

(** What the two [read] do behind [peek]. *)
Definition consume (usedBefore length : Z) (data : list Z) : ST fifo (list Z) :=
  let readLen := Z.of_nat (List.length data) in
  let* f := get in
  do* poco_assert (readLen <=? _used f);
  let used := _used f - readLen in
  do* modify (set_window (if used =? 0 then 0 else _begin f + length) used);
  do* maybe_notify usedBefore;
  ret data.

Definition read (length : Z) : ST fifo (list Z) :=
  if length =? 0 then ret []
  else
    let* f := get in
    if negb (isReadable f) then ret []
    else let* data := peek length in consume (_used f) length data.

Definition read_buffer (length : Z) : ST fifo (list Z) :=
  let* f := get in
  if negb (isReadable f) then ret []
  else let* data := peek_buffer length in consume (_used f) length data.

(** [write(pBuffer, length)] with the characters as a list; the length written. *)
Definition write (data : list Z) : ST fifo Z :=
  let length := Z.of_nat (List.length data) in
  if length =? 0 then ret 0
  else
    let* f := get in
    if negb (isWritable f) then ret 0
    else
      do* (if u64 (size f - (_begin f + _used f)) <? length then
             let* kept := lift (mem_read (_begin f) (_used f) (Buffer._ptr (_buffer f))) in
             do* on_buffer (Buffer.put 0 kept);
             modify (fun f => set_window 0 (_used f) f)
           else ret tt);
      let* f := get in
      let usedBefore := _used f in
      let available := u64 (size f - _used f - _begin f) in
      let len := if available <? length then available else length in
      do* on_buffer (Buffer.put (_begin f + _used f) (take (Z.to_nat len) data));
      do* modify (fun f => set_window (_begin f) (_used f + len) f);
      let* f := get in
      do* poco_assert (_used f <=? size f);
      do* maybe_notify usedBefore;
      ret len.

(** [write(buffer, length)] *)
Definition write_buffer (data : list Z) (length : Z) : ST fifo Z :=
  let sz := Z.of_nat (List.length data) in
  let len := if length =? 0 then sz else if sz <? length then sz else length in
  write (take (Z.to_nat len) data).

Definition drain (length : Z) : ST fifo unit :=
  let* f := get in
  let usedBefore := _used f in
  do* modify (if (0 =? length) || (_used f <=? length) then set_window 0 0
              else set_window (_begin f) (_used f - length));
  maybe_notify usedBefore.

Definition copy (data : list Z) : ST fifo unit :=
  let length := Z.of_nat (List.length data) in
  if 0 =? length then ret tt
  else
    let* f := get in
    if available f <? length then throw InvalidAccessException
    else if negb (isWritable f) then throw InvalidAccessException
    else
      do* poco_assert (_used f <? Buffer._used (_buffer f));
      do* on_buffer (Buffer.put (_used f) data);
      do* modify (fun f => set_window (_begin f) (_used f + length) f);
      maybe_notify (_used f).

Definition advance (length : Z) : ST fifo unit :=
  let* f := get in
  if available f <? length then throw InvalidAccessException
  else if negb (isWritable f) then throw InvalidAccessException
  else
    do* modify (fun f => set_window (_begin f) (_used f + length) f);
    maybe_notify (_used f).

(** [next()]: the offset of the pointer. *)
Definition next : ST fifo Z :=
  let* f := get in
  if available f =? 0 then throw InvalidAccessException else ret (_used f).

(** [operator []] *)
Definition at_ (index : Z) : ST fifo Z :=
  let* f := get in
  if _used f <=? index then throw InvalidAccessException
  else on_buffer (Buffer.at_ (_begin f + index)).

Definition setError (error : bool) : ST fifo unit :=
  if error then
    let* f := get in
    do* (if isReadable f && _notify f then emit (Readable false) else ret tt);
    do* (if isWritable f && _notify f then emit (Writable false) else ret tt);
    modify (fun f => set_window (_begin f) 0 (set_flags (_eof f) true f))
  else
    do* modify (fun f => set_flags (_eof f) false f);
    let* f := get in
    if _notify f && negb (_eof f) then emit (Writable true) else ret tt.

Definition setEOF (eof : bool) : ST fifo unit :=
  let* f := get in
  do* (if _notify f then emit (Writable (negb eof)) else ret tt);
  modify (fun f => set_flags eof (_error f) f).

Definition setNotify (notify : bool) : ST fifo unit :=
  modify (fun f => Build_FIFOBuffer_ (_buffer f) (_begin f) (_used f) notify (_eof f) (_error f) (_log f)).
End FIFO.
End FIFOBuffer.
