(* ===== verification/FifoFacts.v ===== *)
(** FIFOBuffer as a bounded queue.

    [queue] is the buffer that FIFOBuffer.h documents: a capacity, the
    characters in order, the flags and what the observers are told.  Reading,
    writing, peeking, emptying, indexing and the changes of the flags refine it;
    a drain that leaves something, a flag that is set to what it is, resizing and
    the operations on raw positions do not. *)

From S2P Require Import Prelude Fifo.

Open Scope st_scope.
Local Open Scope Z_scope.
Import FIFOBuffer.

(** ** Segments of memory *)
Definition segment (b u : Z) (mem : list Z) : list Z := take (Z.to_nat u) (drop (Z.to_nat b) mem).

Lemma segment_length b u mem :
  0 <= b -> 0 <= u -> b + u <= Z.of_nat (length mem) -> Z.of_nat (length (segment b u mem)) = u.
Proof. intros. unfold segment. rewrite length_take, length_drop. lia. Qed.

Lemma mem_read_segment b u mem :
  0 <= b -> b + u <= Z.of_nat (length mem) -> mem_read b u mem = Done (segment b u mem).
Proof.
  intros Hb Hu. unfold mem_read. by rewrite (proj2 (Z.leb_le 0 b)), (proj2 (Z.leb_le (b + u) _)) by done.
Qed.

(** Writing behind a segment extends it. *)
Lemma mem_write_segment b u d mem :
  0 <= b -> 0 <= u -> b + u + Z.of_nat (length d) <= Z.of_nat (length mem) ->
  exists mem', mem_write (b + u) d mem = Done mem' /\ length mem' = length mem
    /\ segment b (u + Z.of_nat (length d)) mem' = segment b u mem ++ d.
Proof.
  intros Hb Hu Hd. unfold mem_write.
  rewrite (proj2 (Z.leb_le 0 (b + u))), (proj2 (Z.leb_le _ (Z.of_nat (length mem)))) by lia. cbn [andb].
  eexists. split; [done|]. split; [rewrite !length_app, length_take, length_drop; lia|].
  unfold segment. replace (Z.to_nat (b + u)) with (Z.to_nat b + Z.to_nat u)%nat by lia.
  rewrite drop_app_le by (rewrite length_take; lia). rewrite <-take_drop_commute.
  replace (Z.to_nat (u + Z.of_nat (length d))) with (Z.to_nat u + length d)%nat by lia.
  set (s := take (Z.to_nat u) (drop (Z.to_nat b) mem)).
  assert (Hs : length s = Z.to_nat u) by (unfold s; rewrite length_take, length_drop; lia).
  rewrite take_app, take_ge by lia. f_equal. rewrite Hs. replace (_ + _ - _)%nat with (length d) by lia.
  by rewrite take_app_length.
Qed.

(** The front of a segment, and what is left of it. *)
Lemma segment_take b u n mem : 0 <= n <= u -> segment b n mem = take (Z.to_nat n) (segment b u mem).
Proof. intros Hn. unfold segment. rewrite take_take. f_equal. lia. Qed.

Lemma segment_drop b u n mem :
  0 <= b -> 0 <= n <= u -> segment (b + n) (u - n) mem = drop (Z.to_nat n) (segment b u mem).
Proof.
  intros Hb Hn. unfold segment.
  replace (Z.to_nat u) with (Z.to_nat n + Z.to_nat (u - n))%nat by lia. rewrite <-take_drop_commute, drop_drop.
  by replace (Z.to_nat (b + n)) with (Z.to_nat b + Z.to_nat n)%nat by lia.
Qed.

(** ** The queue *)
Record queue := {
  q_cap : Z;
  q_data : list Z;
  q_notify : bool;
  q_eof : bool;
  q_error : bool;
  q_log : list fifo_event
}.

Definition q_used (q : queue) : Z := Z.of_nat (length (q_data q)).

(** What the observers are told when the number of characters changes. *)
Definition transitions (cap before after : Z) : list fifo_event :=
  (if (before =? 0) && (0 <? after) then [Readable true]
   else if (0 <? before) && (0 =? after) then [Readable false] else [])
  ++ (if (before =? cap) && (after <? cap) then [Writable true]
      else if (before <? cap) && (after =? cap) then [Writable false] else []).

Definition q_update (data : list Z) (q : queue) : queue :=
  {| q_cap := q_cap q; q_data := data; q_notify := q_notify q; q_eof := q_eof q; q_error := q_error q;
     q_log := q_log q ++ (if q_notify q then transitions (q_cap q) (q_used q) (Z.of_nat (length data)) else []) |}.

Definition q_tell (es : list fifo_event) (data : list Z) (eof error : bool) (q : queue) : queue :=
  {| q_cap := q_cap q; q_data := data; q_notify := q_notify q; q_eof := eof; q_error := error;
     q_log := q_log q ++ (if q_notify q then es else []) |}.

Definition q_readable (q : queue) : bool := negb (q_used q =? 0) && negb (q_error q).
Definition q_writable (q : queue) : bool := negb (q_cap q =? q_used q) && negb (q_error q) && negb (q_eof q).

Inductive fifo_op :=
| Write (d : list Z) | WriteBuffer (d : list Z) (n : nat)
| Read (n : nat) | ReadBuffer (n : nat) | Peek (n : nat) | PeekBuffer (n : nat)
| Drain (n : nat) | At (i : nat) | Used | Available
| SetError (b : bool) | SetEOF (b : bool) | SetNotify (b : bool).

Inductive fifo_answer := AData (d : list Z) | ANum (n : Z) | AUnit.

Definition q_write (d : list Z) (q : queue) : res fifo_answer * queue :=
  if (length d =? 0)%nat || negb (q_writable q) then (Done (ANum 0), q)
  else let n := Z.min (Z.of_nat (length d)) (q_cap q - q_used q) in
       (Done (ANum n), q_update (q_data q ++ take (Z.to_nat n) d) q).

(** A length of zero means everything for the overloads that take a [Buffer]. *)
Definition all_if_zero (n : nat) (l : list Z) : nat := if (n =? 0)%nat then length l else n.

(** The calls as FIFOBuffer.h has them: [drain(n)] takes [n] elements out of the
    queue, all of them when [n] is zero or too large; clearing an EOF that was not
    set has no effect. *)
Definition q_step (op : fifo_op) (q : queue) : res fifo_answer * queue :=
  match op with
  | Write d => q_write d q
  | WriteBuffer d n => q_write (take (all_if_zero n d) d) q
  | Read n => if q_readable q then (Done (AData (take n (q_data q))), if (n =? 0)%nat then q else q_update (drop n (q_data q)) q)
              else (Done (AData []), q)
  | ReadBuffer n => if q_readable q
                    then let n := all_if_zero n (q_data q) in (Done (AData (take n (q_data q))), q_update (drop n (q_data q)) q)
                    else (Done (AData []), q)
  | Peek n => (Done (AData (if q_readable q then take n (q_data q) else [])), q)
  | PeekBuffer n => (Done (AData (if q_readable q then take (all_if_zero n (q_data q)) (q_data q) else [])), q)
  | Drain n => (Done AUnit, q_update (drop (all_if_zero n (q_data q)) (q_data q)) q)
  | At i => (match q_data q !! i with Some c => Done (ANum c) | None => Raise InvalidAccessException end, q)
  | Used => (Done (ANum (q_used q)), q)
  | Available => (Done (ANum (q_cap q - q_used q)), q)
  | SetError true => (Done AUnit, q_tell ((if q_readable q then [Readable false] else [])
                                          ++ (if q_writable q then [Writable false] else [])) [] (q_eof q) true q)
  | SetError false => (Done AUnit, q_tell (if q_eof q then [] else [Writable true]) (q_data q) (q_eof q) false q)
  | SetEOF b => (Done AUnit, if Bool.eqb b (q_eof q) then q else q_tell [Writable (negb b)] (q_data q) b (q_error q) q)
  | SetNotify b => (Done AUnit, {| q_cap := q_cap q; q_data := q_data q; q_notify := b; q_eof := q_eof q;
                                   q_error := q_error q; q_log := q_log q |})
  end.

(** Where the code does what is documented: a drain empties the queue
    ([fifo_drain_newest] is one that does not), and a flag is set that was not set,
    or cleared that was set ([fifo_eof_event]). *)
Definition settled (op : fifo_op) (q : queue) : bool :=
  match op with
  | Drain n => (length (q_data q) <=? all_if_zero n (q_data q))%nat
  | SetEOF b => negb (Bool.eqb b (q_eof q))
  | SetError b => negb (Bool.eqb b (q_error q))
  | _ => true
  end.

(** The same calls on the buffer. *)
Definition answer {A} (k : A -> fifo_answer) (m : ST FIFOBuffer_ A) : ST FIFOBuffer_ fifo_answer :=
  let* a := m in ret (k a).

Definition fifo_step (op : fifo_op) : ST FIFOBuffer_ fifo_answer :=
  match op with
  | Write d => answer ANum (write d)
  | WriteBuffer d n => answer ANum (write_buffer d (Z.of_nat n))
  | Read n => answer AData (read (Z.of_nat n))
  | ReadBuffer n => answer AData (read_buffer (Z.of_nat n))
  | Peek n => answer AData (peek (Z.of_nat n))
  | PeekBuffer n => answer AData (peek_buffer (Z.of_nat n))
  | Drain n => answer (fun _ => AUnit) (drain (Z.of_nat n))
  | At i => answer ANum (at_ (Z.of_nat i))
  | Used => let* f := get in ret (ANum (used f))
  | Available => let* f := get in ret (ANum (available f))
  | SetError b => answer (fun _ => AUnit) (setError b)
  | SetEOF b => answer (fun _ => AUnit) (setEOF b)
  | SetNotify b => answer (fun _ => AUnit) (setNotify b)
  end.

(** ** Refinement *)
Record fifo_is (f : FIFOBuffer_) (q : queue) : Prop := {
  fifo_begin : 0 <= _begin f;
  fifo_used : _used f = q_used q;
  fifo_window : _begin f + _used f <= q_cap q;
  fifo_cap : Buffer._used (_buffer f) = q_cap q;
  fifo_mem : Z.of_nat (length (Buffer._ptr (_buffer f))) = q_cap q;
  fifo_max : q_cap q < 2 ^ 64;
  fifo_data : segment (_begin f) (_used f) (Buffer._ptr (_buffer f)) = q_data q;
  fifo_notify : _notify f = q_notify q;
  fifo_eof : _eof f = q_eof q;
  fifo_error : _error f = q_error q;
  fifo_log : _log f = q_log q
}.

Lemma fifo_readable f q : fifo_is f q -> isReadable f = q_readable q.
Proof. intros []. unfold isReadable, q_readable, isEmpty, isValid. rewrite fifo_used0, fifo_error0. by rewrite Z.eqb_sym. Qed.

Lemma fifo_writable f q : fifo_is f q -> isWritable f = q_writable q.
Proof.
  intros []. unfold isWritable, q_writable, isFull, isValid, size, Buffer.size.
  by rewrite fifo_cap0, fifo_used0, fifo_error0, fifo_eof0.
Qed.

(** A new window into the same memory, with the notifications. *)
Lemma maybe_notify_run f q b u mem data :
  fifo_is f q -> 0 <= b -> u = Z.of_nat (length data) -> b + u <= q_cap q ->
  Z.of_nat (length mem) = q_cap q -> segment b u mem = data ->
  exists f', maybe_notify (q_used q)
      (set_window b u (set_buffer {| Buffer._ptr := mem; Buffer._used := Buffer._used (_buffer f);
                                     Buffer._ownMem := Buffer._ownMem (_buffer f) |} f))
    = (Done tt, f') /\ fifo_is f' (q_update data q).
Proof.
  intros [Hb Hu Hw Hc Hm Hx Hd Hn He Hr Hl] Hb' Hu' Hw' Hm' Hd'. subst u. set (u := Z.of_nat (length data)) in *.
  unfold maybe_notify. rewrite bind_get. cbn [set_window set_buffer _notify]. rewrite Hn.
  destruct (q_notify q) eqn:En.
  - unfold notify. rewrite bind_get. cbn [set_window set_buffer _used size Buffer.size _buffer]. unfold size, Buffer.size.
    cbn [set_window set_buffer _buffer Buffer._used]. rewrite Hc.
    repeat match goal with |- context [if ?c then _ else _] =>
      lazymatch c with _ && _ => destruct c eqn:? end end;
    (eexists; split; [reflexivity|]); split; cbn [q_update q_cap q_data q_notify q_eof q_error q_log set_window set_buffer
       _begin _used _buffer _notify _eof _error _log Buffer._ptr Buffer._used]; try done; try congruence;
    unfold transitions; rewrite Hl, En; fold u;
    repeat match goal with H : _ && _ = _ |- _ => rewrite H; clear H end; rewrite ?app_nil_r, <-?app_assoc; done.
  - eexists. split; [reflexivity|]. split; cbn [q_update q_cap q_data q_notify q_eof q_error q_log set_window set_buffer
       _begin _used _buffer _notify _eof _error _log Buffer._ptr Buffer._used]; try done; try congruence.
    by rewrite Hl, En, app_nil_r.
Qed.

Definition refines (op : fifo_op) : Prop := forall f q, fifo_is f q -> settled op q = true ->
  exists f', fifo_step op f = (fst (q_step op q), f') /\ fifo_is f' (snd (q_step op q)).

Lemma fifo_same f : set_buffer (_buffer f) f = f.
Proof. by destruct f. Qed.

Lemma fifo_rebuild f : set_buffer {| Buffer._ptr := Buffer._ptr (_buffer f); Buffer._used := Buffer._used (_buffer f);
  Buffer._ownMem := Buffer._ownMem (_buffer f) |} f = f.
Proof. by destruct f as [[] ? ? ? ? ? ?]. Qed.

(** ** Peeking and reading *)
Lemma peek_run f q n :
  fifo_is f q -> peek (Z.of_nat n) f = (Done (if q_readable q then take n (q_data q) else []), f).
Proof.
  intros Hf. pose proof Hf as [Hb Hu Hw Hc Hm Hx Hd _ _ _ _]. unfold peek.
  destruct (Z.eqb_spec (Z.of_nat n) 0) as [E|Hn].
  { assert (n = 0%nat) as -> by lia. by destruct (q_readable q). }
  rewrite bind_get, (fifo_readable f q Hf). destruct (q_readable q); [|done]. cbv zeta. cbn [negb]. unfold lift.
  set (len := if _used f <? Z.of_nat n then _used f else Z.of_nat n).
  assert (Hlen : 0 <= len <= _used f) by (unfold len, q_used in *; destruct (Z.ltb_spec (_used f) (Z.of_nat n)); lia).
  rewrite mem_read_segment by lia. rewrite (segment_take _ (_used f)), Hd by lia. do 2 f_equal.
  unfold len in *. destruct (Z.ltb_spec (_used f) (Z.of_nat n)); [|by rewrite Nat2Z.id].
  rewrite Hu. unfold q_used in *. rewrite Nat2Z.id, take_ge, take_ge by lia. done.
Qed.

Lemma peek_buffer_run f q n :
  fifo_is f q ->
  peek_buffer (Z.of_nat n) f = (Done (if q_readable q then take (all_if_zero n (q_data q)) (q_data q) else []), f).
Proof.
  intros Hf. unfold peek_buffer. rewrite bind_get, (fifo_readable f q Hf). destruct (q_readable q) eqn:Er; [|done].
  cbv zeta. cbn [negb]. rewrite (fifo_used f q Hf). unfold q_used, all_if_zero.
  destruct (Nat.eqb_spec n 0) as [->|Hn]; simpl orb.
  - cbv iota. by rewrite (peek_run f q _ Hf), Er.
  - rewrite (proj2 (Z.eqb_neq (Z.of_nat n) 0)) by lia. cbn [orb]. destruct (Z.ltb_spec (Z.of_nat (length (q_data q))) (Z.of_nat n)).
    + rewrite (peek_run f q _ Hf), Er. by rewrite !take_ge by lia.
    + by rewrite (peek_run f q _ Hf), Er.
Qed.

Lemma consume_run f q n :
  fifo_is f q -> q_readable q = true -> n <> 0%nat ->
  exists f', consume (q_used q) (Z.of_nat n) (take n (q_data q)) f = (Done (take n (q_data q)), f')
             /\ fifo_is f' (q_update (drop n (q_data q)) q).
Proof.
  intros Hf Hr Hn. pose proof Hf as [Hb Hu Hw Hc Hm Hx Hd _ _ _ _].
  unfold consume. cbv zeta. rewrite bind_get, length_take, Hu. unfold q_used in *.
  rewrite (proj2 (Z.leb_le _ _)) by lia. unfold poco_assert. rewrite bind_ret, bind_modify.
  set (u := Z.of_nat (length (q_data q)) - Z.of_nat (n `min` length (q_data q))).
  destruct (maybe_notify_run f q (if u =? 0 then 0 else _begin f + Z.of_nat n) u (Buffer._ptr (_buffer f))
    (drop n (q_data q)) Hf) as (f' & E & Hf').
  - destruct (u =? 0); lia.
  - rewrite length_drop. unfold u. lia.
  - destruct (Z.eqb_spec u 0); unfold u in *; lia.
  - done.
  - rewrite <-Hd. rewrite Hu in *. destruct (Z.eqb_spec u 0) as [E|E].
    + rewrite E. transitivity (@nil Z); [done|]. symmetry. apply drop_ge.
      pose proof (f_equal (@length Z) Hd). unfold u in E. lia.
    + replace u with (Z.of_nat (length (q_data q)) - Z.of_nat n) by (unfold u in *; lia).
      rewrite segment_drop by (unfold u in *; lia). by rewrite Nat2Z.id.
  - rewrite fifo_rebuild in E. unfold q_used in E. rewrite (bind_Done _ _ _ _ _ E). by exists f'.
Qed.

Lemma answer_run {A} (k : A -> fifo_answer) m f a f' : m f = (Done a, f') -> answer k m f = (Done (k a), f').
Proof. intros E. unfold answer. by rewrite (bind_Done _ _ _ _ _ E). Qed.

Lemma refines_read n : refines (Read n).
Proof.
  intros f q Hf _. cbn [q_step fifo_step].
  assert (Hrun : exists f', read (Z.of_nat n) f = (Done (if q_readable q then take n (q_data q) else []), f')
    /\ fifo_is f' (if q_readable q then if (n =? 0)%nat then q else q_update (drop n (q_data q)) q else q)).
  { unfold read. destruct (Nat.eqb_spec n 0) as [->|Hn]; [exists f; by destruct (q_readable q)|].
    rewrite (proj2 (Z.eqb_neq (Z.of_nat n) 0)) by lia. rewrite bind_get, (fifo_readable f q Hf).
    destruct (q_readable q) eqn:Er; [|by exists f]. cbn [negb].
    rewrite (bind_Done _ _ _ _ _ (peek_run f q n Hf)), Er, (fifo_used f q Hf). by apply consume_run. }
  destruct Hrun as (f' & E & Hf'). exists f'. rewrite (answer_run _ _ _ _ _ E).
  by destruct (q_readable q).
Qed.

Lemma q_readable_ne q : q_readable q = true -> q_data q <> [].
Proof. unfold q_readable, q_used. by destruct (q_data q). Qed.

Lemma consume_zero_run f q :
  fifo_is f q -> q_readable q = true ->
  consume (q_used q) 0 (q_data q) f = consume (q_used q) (q_used q) (q_data q) f.
Proof.
  intros Hf Hr. unfold consume. cbv zeta. rewrite !bind_get. rewrite (fifo_used f q Hf). unfold q_used.
  by rewrite Z.sub_diag.
Qed.

Lemma refines_read_buffer n : refines (ReadBuffer n).
Proof.
  intros f q Hf _. cbn [q_step fifo_step]. cbv zeta.
  assert (Hrun : exists f', read_buffer (Z.of_nat n) f
      = (Done (if q_readable q then take (all_if_zero n (q_data q)) (q_data q) else []), f')
    /\ fifo_is f' (if q_readable q then q_update (drop (all_if_zero n (q_data q)) (q_data q)) q else q)).
  { unfold read_buffer. rewrite bind_get, (fifo_readable f q Hf). destruct (q_readable q) eqn:Er; [|by exists f].
    cbn [negb]. rewrite (bind_Done _ _ _ _ _ (peek_buffer_run f q n Hf)), Er, (fifo_used f q Hf).
    unfold all_if_zero. destruct (Nat.eqb_spec n 0) as [->|Hn]; [|by apply consume_run].
    rewrite take_ge by lia. change (Z.of_nat 0) with 0. rewrite (consume_zero_run f q Hf Er).
    pose proof (consume_run f q (length (q_data q)) Hf Er) as Hc. rewrite take_ge in Hc by lia.
    apply Hc. pose proof (q_readable_ne q Er). by destruct (q_data q). }
  destruct Hrun as (f' & E & Hf'). exists f'. rewrite (answer_run _ _ _ _ _ E).
  by destruct (q_readable q).
Qed.

(** ** Writing *)

Lemma put_run f off d mem' :
  mem_write off d (Buffer._ptr (_buffer f)) = Done mem' ->
  on_buffer (Buffer.put off d) f
  = (Done tt, set_buffer {| Buffer._ptr := mem'; Buffer._used := Buffer._used (_buffer f);
                            Buffer._ownMem := Buffer._ownMem (_buffer f) |} f).
Proof. intros E. unfold on_buffer, Buffer.put. rewrite bind_get. unfold lift, bind at 1. by rewrite E. Qed.

(** The window is moved to the front, or the data fits behind it. *)
Lemma compact_run f q (d : list Z) :
  fifo_is f q ->
  exists f1, (if u64 (size f - (_begin f + _used f)) <? Z.of_nat (length d)
              then let* kept := lift (mem_read (_begin f) (_used f) (Buffer._ptr (_buffer f))) in
                   do* on_buffer (Buffer.put 0 kept);
                   modify (fun f => set_window 0 (_used f) f)
              else ret tt) f = (Done tt, f1)
    /\ fifo_is f1 q /\ (_begin f1 = 0 \/ _begin f1 + _used f1 + Z.of_nat (length d) <= q_cap q).
Proof.
  intros Hf. pose proof Hf as [Hb Hu Hw Hc Hm Hx Hd Hn He Hr Hl]. unfold size, Buffer.size. rewrite Hc.
  assert (0 <= _used f) by (rewrite Hu; unfold q_used; lia).
  unfold u64. rewrite Z.mod_small by lia. destruct (Z.ltb_spec (q_cap q - (_begin f + _used f)) (Z.of_nat (length d))).
  - unfold lift. rewrite mem_read_segment by lia. unfold bind at 1. rewrite Hd.
    destruct (mem_write_segment 0 0 (q_data q) (Buffer._ptr (_buffer f))) as (mem' & E & El & Es);
      [lia|lia|unfold q_used in *; lia|].
    change (0 + 0) with 0 in E. rewrite (bind_Done _ _ _ _ _ (put_run f 0 _ mem' E)).
    eexists. split; [reflexivity|]. split; [|by left].
    split; cbn [set_window set_buffer _begin _used _buffer _notify _eof _error _log Buffer._ptr Buffer._used];
      try done; try lia. cbn in Es. rewrite Hu. exact Es.
  - exists f. split; [done|]. split; [done|]. right. lia.
Qed.

Lemma write_run f q (d : list Z) :
  fifo_is f q ->
  exists f' n, write d f = (Done n, f') /\ fst (q_write d q) = Done (ANum n) /\ fifo_is f' (snd (q_write d q)).
Proof.
  intros Hf. unfold write, q_write. cbv zeta.
  destruct (Nat.eqb_spec (length d) 0) as [E|Hne].
  { rewrite E. exists f, 0. done. }
  rewrite (proj2 (Z.eqb_neq (Z.of_nat (length d)) 0)) by lia. rewrite bind_get, (fifo_writable f q Hf). cbn [orb].
  destruct (q_writable q) eqn:Ew; cbn [negb]; [|by exists f, 0].
  destruct (compact_run f q d Hf) as (f1 & E1 & Hf1 & Hfit). rewrite (bind_Done _ _ _ _ _ E1). clear E1 Hf f.
  rename f1 into f. pose proof Hf1 as [Hb Hu Hw Hc Hm Hx Hd Hn He Hr Hl]. rewrite bind_get. cbv zeta.
  assert (Hs : size f = q_cap q) by done. rewrite Hs.
  assert (0 <= _used f) by (rewrite Hu; unfold q_used; lia).
  assert (u64 (q_cap q - _used f - _begin f) = q_cap q - _used f - _begin f) as -> by (unfold u64; rewrite Z.mod_small; lia).
  set (len := if q_cap q - _used f - _begin f <? Z.of_nat (length d) then q_cap q - _used f - _begin f else Z.of_nat (length d)).
  assert (Hlen : len = Z.min (Z.of_nat (length d)) (q_cap q - q_used q)).
  { unfold len. rewrite <-Hu. destruct (Z.ltb_spec (q_cap q - _used f - _begin f) (Z.of_nat (length d))); lia. }
  assert (Hlt : Z.of_nat (length (take (Z.to_nat len) d)) = len) by (rewrite length_take; lia).
  destruct (mem_write_segment (_begin f) (_used f) (take (Z.to_nat len) d) (Buffer._ptr (_buffer f))) as (mem' & E & El & Es);
    [lia|lia|lia|]. rewrite Hlt in Es.
  set (f1 := set_buffer {| Buffer._ptr := mem'; Buffer._used := Buffer._used (_buffer f);
                           Buffer._ownMem := Buffer._ownMem (_buffer f) |} f).
  rewrite (bind_Done _ _ _ _ _ (put_run f _ _ mem' E)), bind_modify, bind_get. fold f1.
  cbn [f1 set_window set_buffer _used _buffer Buffer._used size Buffer.size].
  assert (Hnew : _used f + len = Z.of_nat (length (q_data q ++ take (Z.to_nat len) d)))
    by (rewrite length_app; unfold q_used in *; lia).
  destruct (maybe_notify_run f q (_begin f) (_used f + len) mem' (q_data q ++ take (Z.to_nat len) d) Hf1)
    as (f' & E2 & Hf'); [lia|done|lia|lia|by rewrite Es, Hd|].
  exists f', len. rewrite <-Hlen. split; [|split; [done|exact Hf']].
  unfold size, Buffer.size. cbn [set_window set_buffer _used _buffer Buffer._used].
  rewrite (proj2 (Z.leb_le _ _)) by lia. unfold poco_assert. rewrite bind_ret. rewrite Hu at 1.
  change (set_window (_begin f1) (_used f1 + len) f1) with (set_window (_begin f) (_used f + len) f1).
  by rewrite (bind_Done _ _ _ _ _ E2).
Qed.

Lemma refines_write d : refines (Write d).
Proof.
  intros f q Hf _. destruct (write_run f q d Hf) as (f' & n & E & Ea & Hf'). exists f'.
  cbn [fifo_step q_step]. rewrite (answer_run _ _ _ _ _ E). by rewrite Ea.
Qed.

Lemma refines_write_buffer d n : refines (WriteBuffer d n).
Proof.
  intros f q Hf _. cbn [fifo_step q_step]. unfold write_buffer. cbv zeta.
  assert (Ht : take (Z.to_nat (if Z.of_nat n =? 0 then Z.of_nat (length d)
      else if Z.of_nat (length d) <? Z.of_nat n then Z.of_nat (length d) else Z.of_nat n)) d = take (all_if_zero n d) d).
  { unfold all_if_zero. destruct (Nat.eqb_spec n 0) as [->|Hn]; [cbv iota; change (Z.of_nat 0 =? 0) with true; cbv iota; by rewrite Nat2Z.id|].
    rewrite (proj2 (Z.eqb_neq (Z.of_nat n) 0)) by lia.
    destruct (Z.ltb_spec (Z.of_nat (length d)) (Z.of_nat n)); rewrite Nat2Z.id; [by rewrite !take_ge by lia|done]. }
  rewrite Ht. destruct (write_run f q (take (all_if_zero n d) d) Hf) as (f' & k & E & Ea & Hf'). exists f'.
  rewrite (answer_run _ _ _ _ _ E). by rewrite Ea.
Qed.

(** ** Draining, indexing and flags *)
Lemma drain_all n f q : fifo_is f q -> (length (q_data q) <= all_if_zero n (q_data q))%nat ->
  exists f', drain (Z.of_nat n) f = (Done tt, f') /\ fifo_is f' (q_update [] q).
Proof.
  intros Hf Hn. pose proof Hf as [Hb Hu Hw Hc Hm Hx Hd _ _ _ _]. unfold drain. rewrite bind_get. cbv zeta. rewrite bind_modify, Hu.
  assert ((0 =? Z.of_nat n) || (q_used q <=? Z.of_nat n) = true) as ->.
  { unfold all_if_zero, q_used in *. destruct (Nat.eqb_spec n 0) as [->|?]; [done|]. apply orb_true_iff. right. lia. }
  destruct (maybe_notify_run f q 0 0 (Buffer._ptr (_buffer f)) [] Hf) as (f' & E & Hf'); [lia|done|unfold q_used in *; lia|done|done|].
  rewrite fifo_rebuild in E. exists f'. done.
Qed.

Lemma refines_drain n : refines (Drain n).
Proof.
  intros f q Hf Hs. cbn [settled] in Hs. apply Nat.leb_le in Hs. destruct (drain_all n f q Hf Hs) as (f' & E & Hf'). exists f'.
  cbn [fifo_step q_step fst snd]. rewrite (answer_run _ _ _ _ _ E), drop_ge by done. done.
Qed.

Lemma refines_at i : refines (At i).
Proof.
  intros f q Hf _. pose proof Hf as [Hb Hu Hw Hc Hm Hx Hd Hn He Hr Hl]. cbn [fifo_step q_step fst snd].
  exists f. split; [|done]. unfold answer, at_. rewrite bind_bind, bind_get, Hu. unfold q_used in *.
  destruct (Z.leb_spec (Z.of_nat (length (q_data q))) (Z.of_nat i)) as [Hi|Hi].
  - by rewrite lookup_ge_None_2 by lia.
  - destruct (lookup_lt_is_Some_2 (q_data q) i) as [c Ec]; [lia|]. rewrite Ec.
    assert (Hmem : Buffer._ptr (_buffer f) !! (Z.to_nat (_begin f) + i)%nat = Some c).
    { rewrite <-Hd in Ec. unfold segment in Ec. rewrite lookup_take_lt, lookup_drop in Ec by lia. done. }
    assert (Hat : on_buffer (Buffer.at_ (_begin f + Z.of_nat i)) f = (Done c, f)).
    { unfold on_buffer, Buffer.at_. rewrite bind_get, Hc, (proj2 (Z.ltb_lt _ _)) by lia. unfold poco_assert. rewrite bind_ret.
      rewrite (aget_in _ _ c); [by rewrite fifo_same|lia|]. rewrite <-Hmem. f_equal. lia. }
    by rewrite (bind_Done _ _ _ _ _ Hat).
Qed.

Ltac flag_solve := cbn [q_tell q_cap q_data q_notify q_eof q_error q_log set_window set_flags
   _begin _used _buffer _notify _eof _error _log]; try done; try congruence; try lia.

Lemma refines_set_error b : refines (SetError b).
Proof.
  intros f q Hf _. pose proof Hf as [Hb Hu Hw Hc Hm Hx Hd Hn He Hr Hl]. cbn [fifo_step].
  assert (Hrun : exists f', setError b f = (Done tt, f') /\ fifo_is f' (snd (q_step (SetError b) q))).
  { assert (0 <= _used f) by (rewrite Hu; unfold q_used; lia). destruct b; cbn [q_step snd]; unfold setError.
    - rewrite bind_get, (fifo_readable f q Hf), (fifo_writable f q Hf), Hn.
      destruct (q_readable q), (q_writable q), (q_notify q) eqn:En; cbn [andb];
        (eexists; split; [reflexivity|]); split; flag_solve; rewrite ?Hl, ?En, ?app_nil_r, <-?app_assoc. all: try done.
    - rewrite bind_modify, bind_get. cbn [set_flags _notify _eof]. rewrite Hn, He.
      destruct (q_notify q) eqn:En, (q_eof q) eqn:Ee; cbn [andb negb];
        (eexists; split; [reflexivity|]); split; flag_solve; rewrite ?Hl, ?En, ?app_nil_r; done. }
  destruct Hrun as (f' & E & Hf'). exists f'. rewrite (answer_run _ _ _ _ _ E). by destruct b.
Qed.

Lemma refines_set_eof b : refines (SetEOF b).
Proof.
  intros f q Hf Hs. pose proof Hf as [Hb Hu Hw Hc Hm Hx Hd Hn He Hr Hl]. cbn [settled] in Hs. apply negb_true_iff in Hs.
  cbn [fifo_step q_step fst snd]. rewrite Hs.
  assert (Hrun : exists f', setEOF b f = (Done tt, f') /\ fifo_is f' (q_tell [Writable (negb b)] (q_data q) b (q_error q) q)).
  { unfold setEOF. rewrite bind_get, Hn. destruct (q_notify q) eqn:En;
      (eexists; split; [reflexivity|]); split; flag_solve; rewrite ?Hl, ?En, ?app_nil_r; done. }
  destruct Hrun as (f' & E & Hf'). exists f'. by rewrite (answer_run _ _ _ _ _ E).
Qed.

Lemma refines_all op : refines op.
Proof.
  destruct op as [d|d n|n|n|n|n|n|i| | |b|b|b].
  - apply refines_write.
  - apply refines_write_buffer.
  - apply refines_read.
  - apply refines_read_buffer.
  - intros f q Hf _. exists f. split; [|done]. exact (answer_run _ _ _ _ _ (peek_run f q n Hf)).
  - intros f q Hf _. exists f. split; [|done]. exact (answer_run _ _ _ _ _ (peek_buffer_run f q n Hf)).
  - apply refines_drain.
  - apply refines_at.
  - intros f q Hf _. exists f. split; [|done]. cbn [fifo_step q_step fst]. rewrite bind_get. unfold used.
    by rewrite (fifo_used f q Hf).
  - intros f q Hf _. exists f. split; [|done]. pose proof Hf as [Hb Hu Hw Hc Hm Hx _ _ _ _ _].
    cbn [fifo_step q_step fst]. rewrite bind_get. unfold available, Buffer.size. rewrite Hc, Hu.
    unfold u64, q_used in *. rewrite Z.mod_small by lia. done.
  - apply refines_set_error.
  - apply refines_set_eof.
  - intros f q [] _. eexists. split; [reflexivity|]. by split.
Qed.

(** ** Sequences of calls *)
Fixpoint fifo_run (ops : list fifo_op) (f : FIFOBuffer_) : list (res fifo_answer) * FIFOBuffer_ :=
  match ops with
  | [] => ([], f)
  | op :: ops => let '(a, f) := fifo_step op f in let '(r, f) := fifo_run ops f in (a :: r, f)
  end.

Fixpoint queue_run (ops : list fifo_op) (q : queue) : list (res fifo_answer) * queue :=
  match ops with
  | [] => ([], q)
  | op :: ops => let '(a, q) := q_step op q in let '(r, q) := queue_run ops q in (a :: r, q)
  end.

Fixpoint all_settled (ops : list fifo_op) (q : queue) : bool :=
  match ops with
  | [] => true
  | op :: ops => settled op q && all_settled ops (snd (q_step op q))
  end.

Definition empty_queue (size : Z) (notify : bool) : queue :=
  {| q_cap := size; q_data := []; q_notify := notify; q_eof := false; q_error := false; q_log := [] |}.

Lemma construct_is uninit size notify :
  0 <= size < 2 ^ 64 -> fifo_is (construct uninit size notify) (empty_queue size notify).
Proof.
  intros Hs. split; cbn; try done; try lia. unfold fresh. rewrite length_map, length_seq. lia.
Qed.

Lemma run_refines ops : forall f q, fifo_is f q -> all_settled ops q = true ->
  fst (fifo_run ops f) = fst (queue_run ops q) /\ fifo_is (snd (fifo_run ops f)) (snd (queue_run ops q)).
Proof.
  induction ops as [|op ops IH]; intros f q Hf Hs; [done|]. cbn [fifo_run queue_run all_settled] in *. apply andb_prop in Hs as [Hs1 Hs2].
  destruct (refines_all op f q Hf Hs1) as (f' & -> & Hf'). destruct (q_step op q) as [a q']. cbn [fst snd] in *.
  specialize (IH f' q' Hf' Hs2). destruct (fifo_run ops f') as [r f2], (queue_run ops q') as [r' q2].
  cbn [fst snd] in *. destruct IH as [-> IH]. done.
Qed.

(** ** Shrinking *)
Lemma maybe_notify_frame u f :
  exists log, maybe_notify u f
    = (Done tt, Build_FIFOBuffer_ (_buffer f) (_begin f) (_used f) (_notify f) (_eof f) (_error f) log).
Proof.
  destruct f as [b bg us no eo er lo]. unfold maybe_notify. rewrite bind_get. cbn [_notify]. destruct no; [|by exists lo].
  unfold notify. rewrite bind_get. cbn [_used _begin _buffer _eof _error].
  repeat match goal with |- context [if ?c then _ else _] => lazymatch c with _ && _ => destruct c end end;
    eexists; reflexivity.
Qed.

(** [write] when the window ends behind the size: the differences wrap around. *)
Lemma write_past_end f d :
  d <> [] -> isWritable f = true -> 0 <= size f < _begin f + _used f -> 0 <= _begin f ->
  _begin f + _used f + Z.of_nat (length d) < 2 ^ 64 ->
  Z.of_nat (length (Buffer._ptr (_buffer f))) < _begin f + _used f + Z.of_nat (length d) ->
  fst (write d f) = UB.
Proof.
  intros Hd Hw Hs Hb Hmax Hm. unfold write. cbv zeta.
  assert (0 < Z.of_nat (length d)) by (destruct d; [done|simpl; lia]).
  rewrite (proj2 (Z.eqb_neq (Z.of_nat (length d)) 0)) by lia. rewrite bind_get, Hw. cbn [negb].
  assert (Hu : u64 (size f - (_begin f + _used f)) = 2 ^ 64 + size f - (_begin f + _used f)).
  { unfold u64. symmetry. apply (Z.mod_unique _ _ (-1)); [left; lia|lia]. }
  rewrite Hu, (proj2 (Z.ltb_ge _ _)) by lia. rewrite bind_ret, bind_get. cbv zeta.
  assert (Hu' : u64 (size f - _used f - _begin f) = 2 ^ 64 + size f - (_begin f + _used f)).
  { rewrite <-Hu. f_equal. lia. }
  rewrite Hu', (proj2 (Z.ltb_ge _ _)) by lia. rewrite Nat2Z.id, take_ge by lia.
  assert (E : on_buffer (Buffer.put (_begin f + _used f) d) f = (UB, f)).
  { unfold on_buffer, Buffer.put. rewrite bind_get. unfold lift, bind at 1, mem_write.
    rewrite (proj2 (Z.leb_gt (_begin f + _used f + Z.of_nat (length d)) _)) by lia. rewrite andb_false_r. by rewrite fifo_same. }
  unfold bind at 1. by rewrite E.
Qed.

(** ** Theorems *)



(** When the data reaches the end of the memory, shrinking a FIFOBuffer to
    a size that still holds the data makes the next write overflow the memory:
    the window is not moved, and the space behind it wraps around. *)
Theorem fifo_shrink_overflow uninit f q n d :
  fifo_is f q -> Buffer._ownMem (_buffer f) = true -> q_eof q = false -> q_error q = false ->
  _begin f + q_used q = q_cap q -> q_used q < n < q_cap q ->
  d <> [] -> q_cap q + Z.of_nat (length d) < 2 ^ 64 ->
  fst ((do* resize uninit n true; write d) f) = UB.
Proof.
  intros [Hb Hu Hw Hc Hm Hx Hd Hn He Hr Hl] Hown Eeof Eerr Hend Hsz Hne Hmax.
  assert (0 <= q_used q) by (unfold q_used; lia).
  set (f1 := set_buffer {| Buffer._ptr := Buffer._ptr (_buffer f); Buffer._used := n; Buffer._ownMem := true |} f).
  assert (Hbuf : on_buffer (Buffer.resize uninit n true) f = (Done tt, f1)).
  { unfold on_buffer, Buffer.resize. rewrite bind_get, Hown. cbn [negb]. unfold Buffer.capacity.
    rewrite (proj2 (Z.ltb_ge _ _)) by lia. unfold lift, bind at 1, modify. by rewrite Hown. }
  destruct (maybe_notify_frame (_used f) f1) as [log E].
  assert (Hres : resize uninit n true f = (Done tt, Build_FIFOBuffer_ (_buffer f1) (_begin f1) (_used f1) (_notify f1)
      (_eof f1) (_error f1) log)).
  { unfold resize. rewrite bind_get, (proj2 (Z.ltb_ge n (_used f))) by lia. cbn [andb]. cbv zeta.
    rewrite (bind_Done _ _ _ _ _ Hbuf). cbn [negb]. by rewrite bind_ret. }
  rewrite (bind_Done _ _ _ _ _ Hres). apply write_past_end; try done.
  - unfold isWritable, isFull, isValid, size, Buffer.size. cbn. rewrite He, Hr, Eeof, Eerr, (proj2 (Z.eqb_neq _ _)) by lia.
    done.
  - unfold size, Buffer.size. cbn. lia.
  - cbn. lia.
  - cbn. rewrite Hm. destruct d; [done|]. simpl length. lia.
Qed.

Lemma fifo_shrink_overflow_witness :
  let f := snd (fifo_run [Write (str "abcdefgh"); Read 6] (construct (fun _ => 0) 8 false)) in
  fst ((do* resize (fun _ => 0) 4 true; write (str "i")) f) = UB.
Proof.
  intros f.
  pose proof (run_refines [Write (str "abcdefgh"); Read 6] _ _ (construct_is (fun _ => 0) 8 false ltac:(lia)) eq_refl) as [_ Hf].
  apply (fifo_shrink_overflow (fun _ => 0) f _ 4 (str "i") Hf); try reflexivity; try (vm_compute; done).
Defined.

(** ** Observed behaviour *)

(** [drain(n)] drops the newest characters, not the oldest. *)
Lemma fifo_drain_newest :
  fst (fifo_run [Write (str "abcd"); Drain 2; ReadBuffer 0] (construct (fun _ => 0) 8 false))
  = [Done (ANum 4); Done AUnit; Done (AData (str "ab"))].
Proof. by vm_compute. Qed.

(** Clearing an EOF that was not set is documented to have no effect; the
    observers are told that the buffer is writable, also when it is full. *)
Example fifo_eof_event :
  _log (snd (fifo_run [Write (str "ab"); SetEOF false] (construct (fun _ => 0) 2 true))) = [Readable true; Writable false; Writable true].
Proof. by vm_compute. Qed.

(** Behind a read [copy] writes at the wrong place: it overwrites data that
    was not read, and what is appended is old memory. *)
Lemma fifo_copy_misplaced :
  let f := snd (fifo_run [Write (str "abcd"); Read 2] (construct (fun _ => 0) 8 false)) in
  fst (fifo_run [ReadBuffer 0] (snd (copy (str "xy") f))) = [Done (AData (str "xy" ++ [0; 0]))].
Proof. by vm_compute. Qed.

(** Assigning to a buffer that wraps memory of its caller: the temporary
    deletes that memory, and nobody deletes the copy the buffer now holds. *)
Lemma buffer_assign_deletes_wrapped mem data :
  Buffer.operator_assign (Buffer.construct_on mem) (Buffer.construct_copy data)
  = Done ({| Buffer._ptr := data; Buffer._used := Z.of_nat (length data); Buffer._ownMem := false |}, Some mem).
Proof.
  unfold Buffer.operator_assign, Buffer.copy_construct. cbn.
  replace (mem_read 0 (Z.of_nat (length data)) data) with (Done data); [done|].
  unfold mem_read. rewrite Nat2Z.id. cbn [Z.to_nat drop]. rewrite take_ge by done.
  destruct (Z.leb_spec (0 + Z.of_nat (length data)) (Z.of_nat (length data))); [done|lia].
Qed.
