(* ===== verification/Notify.v ===== *)
(** NotificationQueue, PriorityNotificationQueue and TimedNotificationQueue.

    The first two differ in the container of the notifications only, which is
    a parameter with its law.  A thread that finds the queue empty appends a
    [WaitInfo] to [_waitQueue] and waits for its event; an enqueuing thread
    hands the notification to the first one.  The sections under the mutex
    are operations on the shared state; the steps of the threads between
    them interleave freely.  [Timed] gives up the mutex while it holds an
    iterator, so it is modelled with the nodes of the multimap. *)

From stdpp Require Import gmap.
From S2P Require Import Prelude.

Open Scope st_scope.
Local Open Scope Z_scope.

(** Notifications are numbers: what they are does not matter to the queues. *)
Local Abbreviation notification := nat.

(** ** The containers *)

(** [NfQueue] with the way a notification of kind [K] is inserted; it is taken
    from the front. *)
Class NfQueue (K : Type) := {
  nf_insert : K -> notification -> list (K * notification) -> list (K * notification);
  nf_insert_perm k n q : nf_insert k n q ≡ₚ (k, n) :: q
}.

(** NotificationQueue: [enqueueNotification] ([Normal]) and [enqueueUrgentNotification]. *)
Inductive urgency := Normal | Urgent.

Definition deque_insert (k : urgency) (n : notification) (q : list (urgency * notification)) :=
  match k with Normal => q ++ [(k, n)] | Urgent => (k, n) :: q end.

#[global] Program Instance deque_queue : NfQueue urgency := {| nf_insert := deque_insert |}.
Next Obligation. intros [] n q; simpl; [by rewrite Permutation_app_comm|done]. Qed.

(** PriorityNotificationQueue: [std::multimap::insert], behind the entries of the same key. *)
Fixpoint multimap_insert {A} (k : Z) (v : A) (q : list (Z * A)) : list (Z * A) :=
  match q with
  | [] => [(k, v)]
  | (k', v') :: r => if k <? k' then (k, v) :: q else (k', v') :: multimap_insert k v r
  end.

Lemma multimap_insert_perm {A} k (v : A) q : multimap_insert k v q ≡ₚ (k, v) :: q.
Proof.
  induction q as [|[k' v'] q IH]; [done|]. simpl. destruct (k <? k'); [done|].
  rewrite IH. apply Permutation_swap.
Qed.

#[global] Instance multimap_queue : NfQueue Z := {| nf_insert := multimap_insert; nf_insert_perm := multimap_insert_perm |}.

(** ** The shared state *)

(** [WaitInfo]: the notification handed over and the state of the event. *)
Record WaitInfo := { pNf : option notification; nfAvailable : bool }.

(** Where a thread is: outside the queue, waiting for its event without or
    with a time limit, or behind a [tryWait] that timed out. *)
Inductive local := Idle | Waiting (w : nat) | TimedWaiting (w : nat) | TimedOut (w : nat).

Section Queue.
Context {K : Type} `{!NfQueue K}.

(** The members, the [WaitInfo] objects that are allocated, the threads, and
    what happened: the notifications that were enqueued, that left the
    container, that were removed by [clear], and that were returned. *)
Record World := {
  _nfQueue : list (K * notification);
  _waitQueue : list nat;
  infos : gmap nat WaitInfo;
  next_info : nat;
  threads : gmap nat local;
  h_enqueued : list (K * notification);
  h_left : list (K * notification);
  h_cleared : list notification;
  h_returned : list notification
}.

Definition construct : World :=
  {| _nfQueue := []; _waitQueue := []; infos := ∅; next_info := 0; threads := ∅;
     h_enqueued := []; h_left := []; h_cleared := []; h_returned := [] |}.

Definition at_thread (t : nat) (s : World) : local := default Idle (threads s !! t).

Definition set_thread (t : nat) (l : local) : ST World unit :=
  modify (fun s => {| _nfQueue := _nfQueue s; _waitQueue := _waitQueue s; infos := infos s; next_info := next_info s;
    threads := <[t := l]> (threads s); h_enqueued := h_enqueued s; h_left := h_left s; h_cleared := h_cleared s;
    h_returned := h_returned s |}).

Definition set_queues (q : list (K * notification)) (ws : list nat) : ST World unit :=
  modify (fun s => {| _nfQueue := q; _waitQueue := ws; infos := infos s; next_info := next_info s;
    threads := threads s; h_enqueued := h_enqueued s; h_left := h_left s; h_cleared := h_cleared s;
    h_returned := h_returned s |}).

Definition set_infos (m : gmap nat WaitInfo) (n : nat) : ST World unit :=
  modify (fun s => {| _nfQueue := _nfQueue s; _waitQueue := _waitQueue s; infos := m; next_info := n;
    threads := threads s; h_enqueued := h_enqueued s; h_left := h_left s; h_cleared := h_cleared s;
    h_returned := h_returned s |}).

(** The history. *)
Definition record (enq left : list (K * notification)) (cleared returned : list notification) : ST World unit :=
  modify (fun s => {| _nfQueue := _nfQueue s; _waitQueue := _waitQueue s; infos := infos s; next_info := next_info s;
    threads := threads s; h_enqueued := h_enqueued s ++ enq; h_left := h_left s ++ left;
    h_cleared := h_cleared s ++ cleared; h_returned := h_returned s ++ returned |}).

Definition returns (n : option notification) : ST World (option notification) :=
  do* record [] [] [] (option_list n); ret n.

(** [*pWI]: undefined when the object was deleted. *)
Definition info (w : nat) : ST World WaitInfo :=
  let* s := get in match infos s !! w with Some i => ret i | None => undef end.

Definition set_info (w : nat) (f : WaitInfo -> WaitInfo) : ST World unit :=
  let* i := info w in
  let* s := get in
  set_infos (<[w := f i]> (infos s)) (next_info s).

(** [delete pWI] *)
Definition delete_info (w : nat) : ST World unit :=
  do* info w;
  let* s := get in
  set_infos (delete w (infos s)) (next_info s).

(** ** Operations under the mutex *)

(** [enqueueNotification(pNotification, ...)]; [None] is a null pointer. *)
Definition enqueueNotification (k : K) (pNotification : option notification) : ST World unit :=
  match pNotification with
  | None => throw NullPointerException
  | Some n =>
      do* record [(k, n)] [] [] [];
      let* s := get in
      match _waitQueue s with
      | [] => set_queues (nf_insert k n (_nfQueue s)) []
      | w :: ws =>
          do* set_queues (_nfQueue s) ws;
          do* record [] [(k, n)] [] [];
          set_info w (fun i => {| pNf := Some n; nfAvailable := true |})
      end
  end.

Definition dequeueOne : ST World (option notification) :=
  let* s := get in
  match _nfQueue s with
  | [] => ret None
  | (k, n) :: q =>
      do* set_queues q (_waitQueue s);
      do* record [] [(k, n)] [] [];
      ret (Some n)
  end.

Definition dequeueNotification : ST World (option notification) :=
  let* n := dequeueOne in returns n.

(** The first part of the two [waitDequeueNotification]: [None] when the
    thread has to wait. *)
Definition wait_begin (t : nat) (timed : bool) : ST World (option notification) :=
  let* n := dequeueOne in
  match n with
  | Some n => returns (Some n)
  | None =>
      let* s := get in
      let w := next_info s in
      do* set_infos (<[w := {| pNf := None; nfAvailable := false |}]> (infos s)) (S w);
      do* set_queues (_nfQueue s) (_waitQueue s ++ [w]);
      do* set_thread t (if timed then TimedWaiting w else Waiting w);
      ret None
  end.

(** Behind [wait()], and behind a [tryWait] that succeeded. *)
Definition wait_end (t w : nat) : ST World (option notification) :=
  let* i := info w in
  do* delete_info w;
  do* set_thread t Idle;
  returns (pNf i).

(** Behind a [tryWait] that timed out. *)
Definition timeout_end (t w : nat) : ST World (option notification) :=
  let* i := info w in
  let* s := get in
  do* set_queues (_nfQueue s) (filter (fun w' => w' <> w) (_waitQueue s));
  do* delete_info w;
  do* set_thread t Idle;
  returns (pNf i).

(** [dispatch]: every notification goes to the notification center. *)
Fixpoint dispatch_loop (fuel : nat) : ST World unit :=
  match fuel with
  | O => fail_eof
  | S fuel =>
      let* n := dequeueOne in
      match n with
      | None => ret tt
      | Some n => do* returns (Some n); dispatch_loop fuel
      end
  end.

Definition dispatch : ST World unit := let* s := get in dispatch_loop (S (length (_nfQueue s))).

(** The loop of [wakeUpAll] over the waiting threads. *)
Fixpoint wake (ws : list nat) : ST World unit :=
  match ws with
  | [] => ret tt
  | w :: ws => do* set_info w (fun i => {| pNf := pNf i; nfAvailable := true |}); wake ws
  end.

Definition wakeUpAll : ST World unit :=
  let* s := get in
  do* wake (_waitQueue s);
  set_queues (_nfQueue s) [].

Definition clear : ST World unit :=
  let* s := get in
  do* record [] (_nfQueue s) (map snd (_nfQueue s)) [];
  set_queues [] (_waitQueue s).

Definition empty (s : World) : bool := (length (_nfQueue s) =? 0)%nat.
Definition size (s : World) : nat := length (_nfQueue s).
Definition hasIdleThreads (s : World) : bool := negb (length (_waitQueue s) =? 0)%nat.

(** ** Steps of the threads *)
Inductive action :=
| Enqueue (k : K) (n : notification)
| Dequeue (t : nat)
| WaitBegin (t : nat) (timed : bool)
| WaitEnd (t : nat)
| TimeOut (t : nat)
| TimeOutEnd (t : nat)
| WakeUpAll
| Clear
| Dispatch.

(** The event of a thread that waits. *)
Definition signalled (w : nat) (s : World) : bool :=
  match infos s !! w with Some i => nfAvailable i | None => true end.

(** When a step can be taken: a wait ends when the event was set, a time
    limit can run out at any time. *)
Definition enabled (a : action) (s : World) : bool :=
  match a with
  | Enqueue _ _ | WakeUpAll | Clear | Dispatch => true
  | Dequeue t | WaitBegin t _ => match at_thread t s with Idle => true | _ => false end
  | WaitEnd t => match at_thread t s with Waiting w | TimedWaiting w => signalled w s | _ => false end
  | TimeOut t => match at_thread t s with TimedWaiting _ => true | _ => false end
  | TimeOutEnd t => match at_thread t s with TimedOut _ => true | _ => false end
  end.

(** What the step does; the result of a call that returns a notification. *)
Definition act (a : action) : ST World (option notification) :=
  match a with
  | Enqueue k n => do* enqueueNotification k (Some n); ret None
  | Dequeue _ => dequeueNotification
  | WaitBegin t timed => wait_begin t timed
  | WaitEnd t => let* s := get in
      match at_thread t s with Waiting w | TimedWaiting w => wait_end t w | _ => ret None end
  | TimeOut t => let* s := get in
      match at_thread t s with TimedWaiting w => do* set_thread t (TimedOut w); ret None | _ => ret None end
  | TimeOutEnd t => let* s := get in
      match at_thread t s with TimedOut w => timeout_end t w | _ => ret None end
  | WakeUpAll => do* wakeUpAll; ret None
  | Clear => do* clear; ret None
  | Dispatch => do* dispatch; ret None
  end.

Inductive reachable : World -> Prop :=
| reach_start : reachable construct
| reach_step s a r s' : reachable s -> enabled a s = true -> act a s = (r, s') -> reachable s'.
End Queue.
Arguments World : clear implicits.
Arguments action : clear implicits.

(** ** TimedNotificationQueue *)
Module Timed.

(** The call that a thread is in: [waitDequeueNotification()], or the overload
    with what is left of its [milliseconds]. *)
Inductive call := Unlimited | Limited (milliseconds : Z).

(** Where a thread is: outside; at the head of its loop; holding an iterator
    without the mutex; at [dequeueOne(it)]; at the head of the loop of
    [wait(interval)], called with the clock at [began]; in its [tryWait], with
    its local [now] and the milliseconds; behind a [tryWait] that succeeded,
    with the clock to measure from; where there is nothing to wait for but the
    event; waiting for the event. *)
Inductive position :=
| Out
| Loop (c : call)
| Peeked (c : call) (it : nat)
| Due (it : nat)
| AtWait (c : call) (began : Z) (it : nat) (interval : Z)
| InTryWait (c : call) (began : Z) (it : nat) (interval start milliseconds : Z)
| Woken (c : call) (began : Z)
| NoneDue (c : call)
| Blocked (c : call) (began : Z).

(** The nodes of the multimap by increasing clock, each with its identity:
    an iterator is the identity of a node.  [available] is the state of the
    event, which resets itself when a wait succeeds. *)
Record TimedQueue := {
  nodes : list (Z * (nat * notification));
  next_node : nat;
  available : bool;
  now : Z;
  positions : gmap nat position;
  t_enqueued : list (Z * notification);
  t_returned : list (Z * notification);
  t_cleared : list (Z * notification)
}.

Definition construct (start : Z) : TimedQueue :=
  {| nodes := []; next_node := 0; available := false; now := start; positions := ∅;
     t_enqueued := []; t_returned := []; t_cleared := [] |}.

Definition position_of (t : nat) (s : TimedQueue) : position := default Out (positions s !! t).

Definition move (t : nat) (p : position) : ST TimedQueue unit :=
  modify (fun s => {| nodes := nodes s; next_node := next_node s; available := available s; now := now s;
    positions := <[t := p]> (positions s); t_enqueued := t_enqueued s; t_returned := t_returned s; t_cleared := t_cleared s |}).

Definition set_nodes (l : list (Z * (nat * notification))) (n : nat) (avail : bool) : ST TimedQueue unit :=
  modify (fun s => {| nodes := l; next_node := n; available := avail; now := now s; positions := positions s;
    t_enqueued := t_enqueued s; t_returned := t_returned s; t_cleared := t_cleared s |}).

Definition note (enq ret cleared : list (Z * notification)) : ST TimedQueue unit :=
  modify (fun s => {| nodes := nodes s; next_node := next_node s; available := available s; now := now s;
    positions := positions s; t_enqueued := t_enqueued s ++ enq; t_returned := t_returned s ++ ret;
    t_cleared := t_cleared s ++ cleared |}).

(** The node an iterator points to; undefined when it was erased. *)
Definition node_at (it : nat) (l : list (Z * (nat * notification))) : option (Z * notification) :=
  match List.find (fun e => (fst (snd e) =? it)%nat) l with Some (c, (_, n)) => Some (c, n) | None => None end.

Definition deref (it : nat) : ST TimedQueue (Z * notification) :=
  let* s := get in match node_at it (nodes s) with Some e => ret e | None => undef end.

Definition erase (it : nat) (l : list (Z * (nat * notification))) := List.filter (fun e => negb (fst (snd e) =? it)%nat) l.

(** [enqueueNotification(pNotification, clock)], and the overload with a
    timestamp: the clock is moved by the distance to the current time. *)
Definition enqueueNotification (n : option notification) (clock : Z) : ST TimedQueue unit :=
  match n with
  | None => throw NullPointerException
  | Some n =>
      do* note [(clock, n)] [] [];
      let* s := get in
      set_nodes (multimap_insert clock (next_node s, n) (nodes s)) (S (next_node s)) true
  end.

Definition enqueueNotification_at (n : option notification) (timestamp tsNow : Z) : ST TimedQueue unit :=
  match n with
  | None => throw NullPointerException
  | Some n =>
      let* s := get in
      let* diff := lift (int64 (timestamp - tsNow)) in
      let* clock := lift (int64 (now s + diff)) in
      enqueueNotification (Some n) clock
  end.

(** [dequeueOne(it)] *)
Definition dequeueOne (it : nat) : ST TimedQueue notification :=
  let* e := deref it in
  let* s := get in
  do* set_nodes (erase it (nodes s)) (next_node s) (available s);
  do* note [] [e] [];
  ret (snd e).

(** [clock.elapsed()] *)
Definition elapsed (clock : Z) : ST TimedQueue Z := let* s := get in lift (int64 (now s - clock)).

Definition dequeueNotification : ST TimedQueue (option notification) :=
  let* s := get in
  match nodes s with
  | [] => ret None
  | (clock, (it, _)) :: _ =>
      let* e := elapsed clock in
      let* sleep := lift (int64 (- e)) in
      if sleep <=? 0 then let* n := dequeueOne it in ret (Some n) else ret None
  end.

(** The parts of the two [waitDequeueNotification] between which other threads
    run: the section under the mutex, *)
Definition look (t : nat) (c : call) : ST TimedQueue unit :=
  let* s := get in
  if match c with Unlimited => true | Limited milliseconds => 0 <=? milliseconds end then
    match nodes s with
    | [] => move t (NoneDue c)
    | (_, (it, _)) :: _ => move t (Peeked c it)
    end
  else move t Out.

(** what is done with the iterator, *)
Definition decide_ (t : nat) (c : call) (it : nat) : ST TimedQueue unit :=
  let* e := deref it in
  let* s := get in
  match c with
  | Unlimited =>
      let* d := elapsed (fst e) in
      let* sleep := lift (int64 (- d)) in
      move t (if sleep <=? 0 then Due it else AtWait c (now s) it sleep)
  | Limited milliseconds =>
      let* sleep := lift (int64 (fst e - now s)) in
      if sleep <=? 0 then move t (Due it)
      else
        let* limit := lift (int64 (1000 * milliseconds)) in
        move t (if sleep <=? limit then AtWait c (now s) it sleep else NoneDue c)
  end.

(** and the end, *)
Definition finish (t it : nat) : ST TimedQueue notification :=
  let* n := dequeueOne it in
  do* move t Out;
  ret n.

(** what comes when the container is empty or its first node too far ahead, *)
Definition block (t : nat) (c : call) : ST TimedQueue unit :=
  let* s := get in
  if match c with Unlimited => true | Limited milliseconds => 0 <? milliseconds end then move t (Blocked c (now s))
  else move t Out.

(** and what is left of the milliseconds, measured from a clock. *)
Definition resume (t : nat) (c : call) (began : Z) : ST TimedQueue unit :=
  match c with
  | Unlimited => move t (Loop Unlimited)
  | Limited milliseconds =>
      let* e := elapsed began in
      let* r := lift (int64 (e + 999)) in
      let* milliseconds := lift (int64 (milliseconds - Z.quot r 1000)) in
      move t (Loop (Limited milliseconds))
  end.

(** [wait(interval)]: the head of its loop and the call of [tryWait]; *)
Definition MAX_SLEEP : Z := 8 * 60 * 60 * 1000000.

Definition wait_head (t : nat) (c : call) (began : Z) (it : nat) (interval : Z) : ST TimedQueue unit :=
  if 0 <? interval then
    let* s := get in
    let sleep := if interval <=? MAX_SLEEP then interval else MAX_SLEEP in
    let* r := lift (int64 (sleep + 999)) in
    move t (InTryWait c began it interval (now s) (Z.quot r 1000))
  else move t (Due it).

(** the end of the body, behind a [tryWait] that failed. *)
Definition wait_again (t : nat) (c : call) (began : Z) (it : nat) (interval start : Z) : ST TimedQueue unit :=
  let* e := elapsed start in
  let* interval := lift (int64 (interval - e)) in
  move t (AtWait c began it interval).

(** The event was set: a wait for it succeeds and resets it. *)
Definition awake (t : nat) (c : call) (began : Z) : ST TimedQueue unit :=
  let* s := get in
  do* set_nodes (nodes s) (next_node s) false;
  move t (Woken c began).

Definition clear : ST TimedQueue unit :=
  let* s := get in
  do* note [] [] (map (fun e => (fst e, snd (snd e))) (nodes s));
  set_nodes [] (next_node s) (available s).

Definition empty (s : TimedQueue) : bool := (length (nodes s) =? 0)%nat.
Definition size (s : TimedQueue) : nat := length (nodes s).

Inductive action :=
| Enqueue (n : notification) (clock : Z)
| Dequeue (t : nat)
| Enter (t : nat) (c : call)      (* a call of waitDequeueNotification *)
| Look (t : nat)
| Decide (t : nat)
| Block (t : nat)
| Resume (t : nat)
| Finish (t : nat)
| WaitHead (t : nat)
| Awake (t : nat)
| GiveUp (t : nat)                (* tryWait returns false *)
| Clear
| Tick (d : nat).

(** When a step can be taken.  A wait for the event succeeds when it is set; a
    [tryWait] can return false at any time, as nothing is assumed of how well it
    keeps its time limit.  The clock does not run backwards and stays below
    2^62 microseconds. *)
Definition enabled (a : action) (s : TimedQueue) : bool :=
  match a with
  | Enqueue _ _ | Clear => true
  | Dequeue t | Enter t _ => match position_of t s with Out => true | _ => false end
  | Look t => match position_of t s with Loop _ => true | _ => false end
  | Decide t => match position_of t s with Peeked _ _ => true | _ => false end
  | Block t => match position_of t s with NoneDue _ => true | _ => false end
  | Resume t => match position_of t s with Woken _ _ => true | _ => false end
  | Finish t => match position_of t s with Due _ => true | _ => false end
  | WaitHead t => match position_of t s with AtWait _ _ _ _ => true | _ => false end
  | Awake t => match position_of t s with InTryWait _ _ _ _ _ _ | Blocked _ _ => available s | _ => false end
  | GiveUp t => match position_of t s with InTryWait _ _ _ _ _ _ | Blocked (Limited _) _ => true | _ => false end
  | Tick d => now s + Z.of_nat d <? 2 ^ 62
  end.

(** A step without a result. *)
Definition unit_act (m : ST TimedQueue unit) : ST TimedQueue (option notification) := do* m; ret None.

Definition act (a : action) : ST TimedQueue (option notification) :=
  let* s := get in
  match a with
  | Enqueue n clock => unit_act (enqueueNotification (Some n) clock)
  | Dequeue _ => dequeueNotification
  | Enter t c => unit_act (move t (Loop c))
  | Look t => match position_of t s with Loop c => unit_act (look t c) | _ => ret None end
  | Decide t => match position_of t s with Peeked c it => unit_act (decide_ t c it) | _ => ret None end
  | Block t => match position_of t s with NoneDue c => unit_act (block t c) | _ => ret None end
  | Resume t => match position_of t s with Woken c began => unit_act (resume t c began) | _ => ret None end
  | Finish t => match position_of t s with Due it => let* n := finish t it in ret (Some n) | _ => ret None end
  | WaitHead t => match position_of t s with
                  | AtWait c began it interval => unit_act (wait_head t c began it interval)
                  | _ => ret None
                  end
  | Awake t => match position_of t s with
               | InTryWait c began _ _ _ _ | Blocked c began => unit_act (awake t c began)
               | _ => ret None
               end
  | GiveUp t => match position_of t s with
                | InTryWait c began it interval start _ => unit_act (wait_again t c began it interval start)
                | Blocked c began => unit_act (move t (Woken c began))
                | _ => ret None
                end
  | Clear => unit_act clear
  | Tick d => unit_act (modify (fun s => {| nodes := nodes s; next_node := next_node s; available := available s;
                now := now s + Z.of_nat d; positions := positions s; t_enqueued := t_enqueued s;
                t_returned := t_returned s; t_cleared := t_cleared s |}))
  end.

(** The steps of some threads, with or without [clear], from a new queue. *)
Inductive reachable (allowed : action -> bool) (start : Z) : TimedQueue -> Prop :=
| reach_start : reachable allowed start (construct start)
| reach_step s a r s' : reachable allowed start s -> allowed a = true -> enabled a s = true ->
    act a s = (r, s') -> reachable allowed start s'.
End Timed.
