(* ===== verification/NotifyFacts.v ===== *)
(** Every interleaving of threads on a notification queue: no notification is
    lost or returned twice, no deleted object is used, no thread sleeps
    while a notification waits, and the order of the container is kept. *)

From S2P Require Import Prelude Notify.
From stdpp Require Import list gmap.

Open Scope st_scope.
Local Open Scope Z_scope.

(** ** Notifications on their way *)

(** Those handed to a waiting thread that has not returned yet. *)
Definition pending (m : gmap nat WaitInfo) : list nat := omap (fun wi => pNf (snd wi)) (map_to_list m).

Lemma pending_insert m w i :
  m !! w = None -> pending (<[w := i]> m) ≡ₚ option_list (pNf i) ++ pending m.
Proof.
  intros Hw. unfold pending. rewrite map_to_list_insert by done. simpl. by destruct (pNf i).
Qed.

Lemma pending_delete m w i :
  m !! w = Some i -> pending m ≡ₚ option_list (pNf i) ++ pending (delete w m).
Proof.
  intros Hw. rewrite <-(pending_insert (delete w m)) by apply lookup_delete_eq.
  by rewrite insert_delete_id.
Qed.

Lemma pending_update m w i i' :
  m !! w = Some i -> pNf i = None -> pending (<[w := i']> m) ≡ₚ option_list (pNf i') ++ pending m.
Proof.
  intros Hw Hi. rewrite (pending_delete m w i Hw), Hi. simpl.
  rewrite <-(pending_insert (delete w m)) by apply lookup_delete_eq. by rewrite insert_delete_eq.
Qed.

Section Invariant.
Context {K : Type} `{!NfQueue K}.
Local Abbreviation world := (World K).
Implicit Types (s : world).

Definition waits_on (l : local) (w : nat) : Prop :=
  match l with Idle => False | Waiting w' | TimedWaiting w' | TimedOut w' => w = w' end.

(** The entries of some kinds, and containers that keep them in order. *)
Definition lane (L : K -> bool) (q : list (K * nat)) : list (K * nat) := List.filter (fun e => L (fst e)) q.

(** Properties that the container keeps. *)
Definition stable (P : list (K * nat) -> Prop) : Prop :=
  P [] /\ (forall k n q, P q -> P (nf_insert k n q)) /\ (forall e q, P (e :: q) -> P q).

Definition fifo_lane (L : K -> bool) : Prop := forall k n q,
  (forall P, stable P -> P q) -> lane L (nf_insert k n q) = lane L q ++ lane L [(k, n)].

Lemma lane_app L a b : lane L (a ++ b) = lane L a ++ lane L b.
Proof. apply List.filter_app. Qed.

Record queue_inv s : Prop := {
  inv_idle : _waitQueue s <> [] -> _nfQueue s = [];
  inv_nodup : NoDup (_waitQueue s);
  inv_waiting : forall w, w ∈ _waitQueue s -> infos s !! w = Some {| pNf := None; nfAvailable := false |};
  inv_fresh : forall w, is_Some (infos s !! w) -> (w < next_info s)%nat;
  inv_threads : forall t w, waits_on (at_thread t s) w -> is_Some (infos s !! w);
  inv_unique : forall t1 t2 w, waits_on (at_thread t1 s) w -> waits_on (at_thread t2 s) w -> t1 = t2;
  inv_signal : forall w i, infos s !! w = Some i -> w ∈ _waitQueue s \/ nfAvailable i = true;
  inv_enqueued : h_enqueued s ≡ₚ h_left s ++ _nfQueue s;
  inv_left : map snd (h_left s) ≡ₚ h_cleared s ++ h_returned s ++ pending (infos s);
  inv_lane : forall L, fifo_lane L -> lane L (h_enqueued s) = lane L (h_left s) ++ lane L (_nfQueue s);
  inv_owner : forall w, is_Some (infos s !! w) -> exists t, waits_on (at_thread t s) w;
  inv_stable : forall P, stable P -> P (_nfQueue s)
}.

Lemma construct_queue_inv : queue_inv construct.
Proof.
  split; try done; cbn.
  - constructor.
  - by intros w Hw%not_elem_of_nil.
  - by intros w [].
  - by intros w [].
  - by intros P (H & _).
Qed.

(** A step succeeds and keeps the invariant. *)
Definition keeps_inv {A} (m : ST world A) s : Prop := exists r s', m s = (Done r, s') /\ queue_inv s'.

Ltac fields := cbn [_nfQueue _waitQueue infos next_info threads h_enqueued h_left h_cleared h_returned].

(** [dequeueOne], and the notification it takes still has to be returned. *)
Lemma dequeue_inv s :
  queue_inv s -> keeps_inv dequeueNotification s.
Proof.
  intros [I1 I2 I3 I4 I5 I6 I7 I8 I9 I10 I11 I12]. unfold keeps_inv, dequeueNotification, dequeueOne.
  destruct (_nfQueue s) as [|[k n] q] eqn:Eq.
  - eexists _, _. split; [unfold bind, get, ret; rewrite Eq; reflexivity|].
    split; fields; rewrite ?Eq, ?app_nil_r in *; done.
  - eexists _, _. split; [unfold bind, get, ret; rewrite Eq; reflexivity|].
    split; fields; try done.
    + intros Hw. specialize (I1 Hw). done.
    + rewrite I8, !app_nil_r, <-app_assoc. done.
    + rewrite !app_nil_r, map_app, I9. simpl. rewrite <-!app_assoc. do 2 f_equiv. apply Permutation_app_comm.
    + intros L HL. rewrite !app_nil_r, (I10 L HL), (lane_app L (h_left s)), <-app_assoc, <-(lane_app L [(k, n)] q). done.
    + intros P HP. destruct (HP) as (_ & _ & Htl). by apply (Htl (k, n)), I12.
Qed.

(** Enqueuing: into the container, or to the first waiting thread. *)
Lemma enqueue_inv s k n : queue_inv s -> keeps_inv (enqueueNotification k (Some n)) s.
Proof.
  intros [I1 I2 I3 I4 I5 I6 I7 I8 I9 I10 I11 I12]. unfold keeps_inv, enqueueNotification, record, set_queues.
  rewrite bind_modify, bind_get. fields. destruct (_waitQueue s) as [|w ws] eqn:Ew.
  - eexists _, _. split; [reflexivity|]. split; fields; rewrite ?app_nil_r; try done.
    + rewrite nf_insert_perm, I8, <-app_assoc. f_equiv. apply Permutation_app_comm.
    + intros L HL. rewrite lane_app, (I10 L HL), (HL k n _ I12), app_assoc. done.
    + intros P HP. destruct (HP) as (_ & Hins & _). by apply Hins, I12.
  - assert (Hw : infos s !! w = Some {| pNf := None; nfAvailable := false |}) by (apply I3; by left).
    rewrite !bind_modify. unfold set_info, info, set_infos. rewrite bind_bind, bind_get. fields. rewrite Hw, bind_ret, bind_get.
    eexists _, _. split; [reflexivity|]. apply NoDup_cons in I2 as [Hnin I2]. split; fields; rewrite ?app_nil_r.
    + intros _. by apply I1.
    + done.
    + intros w' Hw'. rewrite lookup_insert_ne by (intros ->; done). apply I3. by right.
    + intros w' Hw'. destruct (decide (w = w')) as [->|Hne]; [by apply I4|]. rewrite lookup_insert_ne in Hw' by done. by apply I4.
    + intros t w' Ht. destruct (decide (w = w')) as [->|Hne]; [by rewrite lookup_insert_eq|].
      rewrite lookup_insert_ne by done. by apply (I5 t).
    + done.
    + intros w' i Hi. destruct (decide (w = w')) as [->|Hne].
      * rewrite lookup_insert_eq in Hi. injection Hi as <-. by right.
      * rewrite lookup_insert_ne in Hi by done. destruct (I7 w' i Hi) as [Hin|]; [|by right]. left.
        apply elem_of_cons in Hin as [->|]; done.
    + rewrite I8, (I1 ltac:(done)), !app_nil_r. done.
    + rewrite map_app, I9, (pending_update _ w _ _ Hw) by done. simpl. rewrite <-!app_assoc. do 2 f_equiv.
      apply Permutation_app_comm.
    + intros L HL. rewrite !lane_app, (I10 L HL), (I1 ltac:(done)). simpl. by rewrite !app_nil_r.
    + intros w' Hw'. apply I11. destruct (decide (w = w')) as [->|Hne]; [done|]. by rewrite lookup_insert_ne in Hw'.
    + done.
Qed.

(** A thread starts to wait. *)
Lemma wait_begin_inv s t timed :
  queue_inv s -> at_thread t s = Idle -> keeps_inv (wait_begin t timed) s.
Proof.
  intros Hinv Ht. destruct (_nfQueue s) as [|[k n] q] eqn:Eq.
  - pose proof Hinv as [I1 I2 I3 I4 I5 I6 I7 I8 I9 I10 I11 I12].
    assert (Hnew : infos s !! next_info s = None).
    { destruct (infos s !! next_info s) eqn:E; [|done]. pose proof (I4 (next_info s) ltac:(eauto)). lia. }
    assert (Hnin : next_info s ∉ _waitQueue s) by (intros Hin%I3; by rewrite Hnew in Hin).
    assert (Hat : forall t', at_thread t' {| _nfQueue := _nfQueue s; _waitQueue := _waitQueue s; infos := infos s;
        next_info := next_info s; threads := <[t := if timed then TimedWaiting (next_info s) else Waiting (next_info s)]> (threads s);
        h_enqueued := h_enqueued s; h_left := h_left s; h_cleared := h_cleared s; h_returned := h_returned s |}
      = if decide (t = t') then (if timed then TimedWaiting (next_info s) else Waiting (next_info s)) else at_thread t' s).
    { intros t'. unfold at_thread. fields. destruct (decide (t = t')) as [->|Hne];
        [by rewrite lookup_insert_eq|by rewrite lookup_insert_ne]. }
    unfold at_thread in Hat. cbn in Hat.
    eexists _, _. split; [unfold wait_begin, dequeueOne, bind, get, ret; rewrite Eq; reflexivity|].
    split; fields.
    + intros _. done.
    + apply NoDup_app. split_and!; [done|by intros w Hw ->%list_elem_of_singleton|apply NoDup_singleton].
    + intros w [Hw| ->%list_elem_of_singleton]%elem_of_app; [|by rewrite lookup_insert_eq].
      rewrite lookup_insert_ne by (intros <-; done). by apply I3.
    + intros w Hw. destruct (decide (next_info s = w)) as [<-|Hne]; [lia|].
      rewrite lookup_insert_ne in Hw by done. specialize (I4 w Hw). lia.
    + intros t' w Hw. unfold at_thread in Hw. cbn in Hw. rewrite Hat in Hw. destruct (decide (t = t')) as [->|Hne].
      * assert (w = next_info s) as -> by by destruct timed. by rewrite lookup_insert_eq.
      * destruct (decide (next_info s = w)) as [<-|Hne']; [by rewrite lookup_insert_eq|].
        rewrite lookup_insert_ne by done. by apply (I5 t').
    + intros t1 t2 w H1 H2. unfold at_thread in H1, H2. cbn in H1, H2. rewrite Hat in H1, H2.
      assert (Hold : forall t', waits_on (default Idle (threads s !! t')) w -> w <> next_info s).
      { intros t' Hw ->. destruct (I5 t' _ Hw) as [i Hi]. by rewrite Hnew in Hi. }
      destruct (decide (t = t1)), (decide (t = t2)); subst; try done.
      * destruct (Hold t2 H2). by destruct timed.
      * destruct (Hold t1 H1). by destruct timed.
      * by apply (I6 t1 t2 w).
    + intros w i Hi. destruct (decide (next_info s = w)) as [<-|Hne]; [left; apply elem_of_app; right; by left|].
      rewrite lookup_insert_ne in Hi by done. destruct (I7 w i Hi) as [|]; [left; apply elem_of_app; by left|by right].
    + exact I8.
    + by rewrite pending_insert.
    + exact I10.
    + intros w Hw. destruct (decide (next_info s = w)) as [<-|Hne].
      * exists t. unfold at_thread. cbn. rewrite Hat, decide_True by done. by destruct timed.
      * rewrite lookup_insert_ne in Hw by done. destruct (I11 w Hw) as [t' Ht']. exists t'. unfold at_thread. cbn.
        rewrite Hat, decide_False; [done|]. intros ->. by rewrite Ht in Ht'.
    + exact I12.
  - destruct (dequeue_inv s Hinv) as (r & s' & E & Hs'). exists r, s'. split; [|done]. rewrite <-E.
    unfold wait_begin, dequeueNotification, dequeueOne, bind, get, ret. by rewrite Eq.
Qed.

(** A thread returns: its [WaitInfo] is deleted and gone from the wait queue. *)
Definition released s (t w : nat) (i : WaitInfo) : world :=
  {| _nfQueue := _nfQueue s; _waitQueue := filter (fun w' => w' <> w) (_waitQueue s); infos := delete w (infos s);
     next_info := next_info s; threads := <[t := Idle]> (threads s); h_enqueued := h_enqueued s ++ [];
     h_left := h_left s ++ []; h_cleared := h_cleared s ++ []; h_returned := h_returned s ++ option_list (pNf i) |}.

Lemma released_inv s t w i :
  queue_inv s -> waits_on (at_thread t s) w -> infos s !! w = Some i -> queue_inv (released s t w i).
Proof.
  intros [I1 I2 I3 I4 I5 I6 I7 I8 I9 I10 I11 I12] Ht Hw.
  assert (Hat : forall t', default Idle (<[t := Idle]> (threads s) !! t') = if decide (t = t') then Idle else at_thread t' s).
  { intros t'. unfold at_thread. destruct (decide (t = t')) as [->|Hne]; [by rewrite lookup_insert_eq|by rewrite lookup_insert_ne]. }
  assert (Hother : forall t' w', waits_on (default Idle (<[t := Idle]> (threads s) !! t')) w' -> waits_on (at_thread t' s) w' /\ w' <> w).
  { intros t' w' Hw'. rewrite Hat in Hw'. destruct (decide (t = t')) as [->|Hne]; [done|]. split; [done|].
    intros ->. by destruct Hne, (I6 t t' w Ht Hw'). }
  split; unfold released; fields; rewrite ?app_nil_r.
  - intros Hne. apply I1. intros E. by rewrite E in Hne.
  - by apply NoDup_filter.
  - intros w' [Hne Hin]%list_elem_of_filter. rewrite lookup_delete_ne by done. by apply I3.
  - intros w' Hs. apply I4. destruct (decide (w = w')) as [->|Hne]; [done|]. by rewrite lookup_delete_ne in Hs.
  - intros t' w' Hw'. unfold at_thread in Hw'. cbn in Hw'. apply Hother in Hw' as [Hw' Hne].
    rewrite lookup_delete_ne by done. by apply (I5 t').
  - intros t1 t2 w' H1 H2. unfold at_thread in H1, H2. cbn in H1, H2. apply Hother in H1 as [H1 _], H2 as [H2 _].
    by apply (I6 t1 t2 w').
  - intros w' i' Hi. apply lookup_delete_Some in Hi as [Hne Hi]. destruct (I7 w' i' Hi) as [Hin|]; [|by right].
    left. by apply list_elem_of_filter.
  - done.
  - rewrite I9, (pending_delete _ w i Hw), <-!app_assoc. done.
  - done.
  - intros w' [i' Hi']. apply lookup_delete_Some in Hi' as [Hne Hi']. destruct (I11 w' ltac:(eauto)) as [t' Ht'].
    exists t'. unfold at_thread. cbn. rewrite Hat, decide_False; [done|]. intros ->.
    destruct Hne. unfold waits_on in *. destruct (at_thread t' s); by subst.
  - done.
Qed.

Lemma wait_end_inv s t w :
  queue_inv s -> waits_on (at_thread t s) w -> signalled w s = true -> keeps_inv (wait_end t w) s.
Proof.
  intros Hinv Ht Hsig. destruct (inv_threads s Hinv t w Ht) as [i Hi]. unfold signalled in Hsig. rewrite Hi in Hsig.
  exists (pNf i), (released s t w i). split; [|by apply released_inv].
  assert (Hf : filter (fun w' => w' <> w) (_waitQueue s) = _waitQueue s).
  { assert (Hnin : w ∉ _waitQueue s) by (intros Hin%(inv_waiting s Hinv); rewrite Hi in Hin; by injection Hin as ->).
    revert Hnin. generalize (_waitQueue s). induction l as [|w' l IH]; intros Hnin; [done|].
    apply not_elem_of_cons in Hnin as [Hne Hnin]. rewrite filter_cons_True by done. by rewrite IH. }
  unfold wait_end, delete_info, info, returns, record, set_infos, set_thread, bind, get, ret, modify. rewrite Hi. cbn. rewrite Hi.
  unfold released. by rewrite Hf.
Qed.

Lemma timeout_end_inv s t w :
  queue_inv s -> waits_on (at_thread t s) w -> keeps_inv (timeout_end t w) s.
Proof.
  intros Hinv Ht. destruct (inv_threads s Hinv t w Ht) as [i Hi].
  exists (pNf i), (released s t w i). split; [|by apply released_inv].
  unfold timeout_end, delete_info, info, returns, record, set_infos, set_queues, set_thread, bind, get, ret, modify.
  rewrite Hi. cbn. by rewrite Hi.
Qed.

(** A time limit runs out: only the position of the thread changes. *)
Lemma timeout_inv s t w :
  queue_inv s -> at_thread t s = TimedWaiting w -> keeps_inv (do* set_thread t (TimedOut w); ret (@None nat)) s.
Proof.
  intros [I1 I2 I3 I4 I5 I6 I7 I8 I9 I10 I11 I12] Ht. eexists _, _. split; [reflexivity|].
  assert (Hat : forall t' w', waits_on (default Idle (<[t := TimedOut w]> (threads s) !! t')) w' <-> waits_on (at_thread t' s) w').
  { intros t' w'. unfold at_thread in *. destruct (decide (t = t')) as [->|Hne]; [by rewrite lookup_insert_eq, Ht|].
    by rewrite lookup_insert_ne. }
  split; fields; try done.
  - intros t' w' Hw. unfold at_thread in Hw. cbn in Hw. apply Hat in Hw. by apply (I5 t').
  - intros t1 t2 w' H1 H2. unfold at_thread in H1, H2. cbn in H1, H2. apply Hat in H1, H2. by apply (I6 t1 t2 w').
  - intros w' Hw'. destruct (I11 w' Hw') as [t' Ht']. exists t'. unfold at_thread. cbn. by apply Hat.
Qed.

(** [wakeUpAll] sets the events of all waiting threads. *)
Lemma wake_run ws : forall s,
  NoDup ws -> (forall w, w ∈ ws -> infos s !! w = Some {| pNf := None; nfAvailable := false |}) ->
  exists m, wake ws s = (Done tt, {| _nfQueue := _nfQueue s; _waitQueue := _waitQueue s; infos := m; next_info := next_info s;
      threads := threads s; h_enqueued := h_enqueued s; h_left := h_left s; h_cleared := h_cleared s; h_returned := h_returned s |})
    /\ (forall w, m !! w = if decide (w ∈ ws) then Some {| pNf := None; nfAvailable := true |} else infos s !! w)
    /\ pending m ≡ₚ pending (infos s).
Proof.
  induction ws as [|w ws IH]; intros s Hnd Hws.
  - exists (infos s). split; [by destruct s|]. split; [|done]. intros w.
    by rewrite decide_False by apply not_elem_of_nil.
  - apply NoDup_cons in Hnd as [Hnin Hnd]. assert (Hw := Hws w ltac:(by left)).
    set (s1 := {| _nfQueue := _nfQueue s; _waitQueue := _waitQueue s;
      infos := <[w := {| pNf := None; nfAvailable := true |}]> (infos s); next_info := next_info s;
      threads := threads s; h_enqueued := h_enqueued s; h_left := h_left s; h_cleared := h_cleared s; h_returned := h_returned s |}).
    destruct (IH s1 Hnd) as (m & E & Hm & Hp).
    { intros w' Hw'. cbn. rewrite lookup_insert_ne by (intros ->; done). apply Hws. by right. }
    exists m. split; [|split].
    + cbn [wake]. unfold set_info, info, set_infos. rewrite !bind_bind, bind_get, Hw, bind_ret, bind_bind, bind_get, bind_modify.
      exact E.
    + intros w'. rewrite Hm. cbn. destruct (decide (w' ∈ ws)) as [Hin|Hn].
      * by rewrite decide_True by by right.
      * destruct (decide (w = w')) as [->|Hne]; [by rewrite decide_True, lookup_insert_eq by by left|].
        rewrite lookup_insert_ne by done. rewrite decide_False; [done|].
        intros [->|]%elem_of_cons; done.
    + rewrite Hp. cbn. by rewrite (pending_update _ w _ _ Hw).
Qed.

Lemma wakeUpAll_inv s : queue_inv s -> keeps_inv wakeUpAll s.
Proof.
  intros [I1 I2 I3 I4 I5 I6 I7 I8 I9 I10 I11 I12]. destruct (wake_run (_waitQueue s) s I2 I3) as (m & E & Hm & Hp).
  eexists _, _. split.
  { unfold wakeUpAll. rewrite bind_get, (bind_Done _ _ _ _ _ E). reflexivity. }
  assert (Hsome : forall w, is_Some (m !! w) <-> is_Some (infos s !! w)).
  { intros w. rewrite Hm. destruct (decide (w ∈ _waitQueue s)) as [Hin|]; [|done]. by rewrite (I3 w Hin). }
  split; fields; try done.
  - constructor.
  - by intros w Hw%not_elem_of_nil.
  - intros w Hw%Hsome. by apply I4.
  - intros t w Hw. apply Hsome. by apply (I5 t).
  - intros w i Hi. right. rewrite Hm in Hi. destruct (decide (w ∈ _waitQueue s)); [by injection Hi as <-|].
    by destruct (I7 w i Hi).
  - by rewrite Hp.
  - intros w Hw%Hsome. by apply I11.
Qed.

Lemma clear_inv s : queue_inv s -> keeps_inv clear s.
Proof.
  intros [I1 I2 I3 I4 I5 I6 I7 I8 I9 I10 I11 I12]. eexists _, _. split; [reflexivity|]. split; fields; rewrite ?app_nil_r; try done.
  - rewrite map_app, I9, <-!app_assoc. f_equiv. rewrite app_assoc, Permutation_app_comm. done.
  - intros L HL. by rewrite (I10 L HL), lane_app, app_nil_r.
  - by intros P (HP & _).
Qed.

(** [dequeueOne] and [returns] shorten the container. *)
Lemma dequeue_shorter s r s' :
  dequeueNotification s = (Done r, s') -> r <> None -> (length (_nfQueue s') < length (_nfQueue s))%nat.
Proof.
  unfold dequeueNotification, dequeueOne, bind, get, ret. destruct (_nfQueue s) as [|[k n] q]; cbn.
  - by injection 1 as <- _.
  - injection 1 as _ <-. cbn. lia.
Qed.

Lemma dispatch_loop_inv fuel : forall s, queue_inv s -> (length (_nfQueue s) < fuel)%nat -> keeps_inv (dispatch_loop fuel) s.
Proof.
  induction fuel as [|fuel IH]; intros s Hinv Hf; [lia|].
  destruct (dequeue_inv s Hinv) as (r & s' & E & Hinv').
  destruct (_nfQueue s) as [|[k n] q] eqn:Eq.
  - exists tt, s. split; [|done]. cbn [dispatch_loop]. unfold dequeueOne, bind, get, ret. by rewrite Eq.
  - assert (Hr : r = Some n) by (unfold dequeueNotification, dequeueOne, bind, get, ret in E; rewrite Eq in E; by injection E).
    pose proof (dequeue_shorter s r s' E ltac:(by subst)) as Hlt. rewrite Eq in Hlt. cbn in Hlt, Hf.
    destruct (IH s' Hinv' ltac:(lia)) as (u & s2 & E2 & Hinv2). exists u, s2. split; [|done].
    cbn [dispatch_loop]. subst r. rewrite <-E2. clear E2 IH.
    unfold dequeueNotification in E. unfold bind at 1. unfold bind in E at 1.
    destruct (dequeueOne s) as [[x| |e|] s1] eqn:Ed; try done.
    assert (x = Some n) as -> by (unfold dequeueOne, bind, get, ret in Ed; rewrite Eq in Ed; by injection Ed).
    by rewrite (bind_Done _ _ _ _ _ E).
Qed.

(** Every step that can be taken succeeds and keeps the invariant. *)
Lemma act_inv a s : queue_inv s -> enabled a s = true -> keeps_inv (act a) s.
Proof.
  intros Hinv He.
  assert (Hunit : forall (m : ST world unit), keeps_inv m s -> keeps_inv (do* m; ret (@None nat)) s).
  { intros m (r & s' & E & Hs'). exists None, s'. by rewrite (bind_Done _ _ _ _ _ E). }
  destruct a as [k n|t|t timed|t|t|t| | |]; cbn [act enabled] in *.
  - apply Hunit, enqueue_inv, Hinv.
  - by apply dequeue_inv.
  - apply wait_begin_inv; [done|]. by destruct (at_thread t s).
  - unfold keeps_inv. rewrite bind_get. destruct (at_thread t s) eqn:Et; try done;
      apply wait_end_inv; try done; by rewrite Et.
  - unfold keeps_inv. rewrite bind_get. destruct (at_thread t s) eqn:Et; try done. by apply timeout_inv.
  - unfold keeps_inv. rewrite bind_get. destruct (at_thread t s) eqn:Et; try done.
    apply timeout_end_inv; [done|]. by rewrite Et.
  - apply Hunit, wakeUpAll_inv, Hinv.
  - apply Hunit, clear_inv, Hinv.
  - apply Hunit. unfold dispatch, keeps_inv. rewrite bind_get. apply dispatch_loop_inv; [done|lia].
Qed.

Lemma reachable_inv s : reachable s -> queue_inv s.
Proof.
  induction 1 as [|s a r s' _ IH He Ha]; [apply construct_queue_inv|].
  destruct (act_inv a s IH He) as (r' & s2 & E & Hs2). rewrite Ha in E. by injection E as _ ->.
Qed.

(** ** Results and the history *)

Lemma dequeue_returned s n s' :
  dequeueNotification s = (Done (Some n), s') -> h_returned s' = h_returned s ++ [n].
Proof.
  unfold dequeueNotification, dequeueOne, bind, get, ret. destruct (_nfQueue s) as [|[k m] q]; cbn; [done|].
  intros [= <- <-]. cbn. by rewrite app_nil_r.
Qed.

(** A call that ends hands out what its [WaitInfo] holds. *)
Lemma wait_end_returned s t w i :
  infos s !! w = Some i -> exists s', wait_end t w s = (Done (pNf i), s') /\ h_returned s' = h_returned s ++ option_list (pNf i).
Proof.
  intros Hi. unfold wait_end, delete_info, info, returns, record, set_infos, set_thread, bind, get, ret, modify.
  rewrite Hi. cbn. rewrite Hi. eexists. by split.
Qed.

Lemma timeout_end_returned s t w i :
  infos s !! w = Some i -> exists s', timeout_end t w s = (Done (pNf i), s') /\ h_returned s' = h_returned s ++ option_list (pNf i).
Proof.
  intros Hi. unfold timeout_end, delete_info, info, returns, record, set_infos, set_queues, set_thread, bind, get, ret, modify.
  rewrite Hi. cbn. rewrite Hi. eexists. by split.
Qed.

Lemma wait_begin_returned s t timed n s' :
  wait_begin t timed s = (Done (Some n), s') -> h_returned s' = h_returned s ++ [n].
Proof.
  unfold wait_begin, dequeueOne, bind, get, ret. destruct (_nfQueue s) as [|[k m] q]; cbn; [done|].
  intros [= <- <-]. cbn. by rewrite app_nil_r.
Qed.

Lemma act_returned a s n s' :
  queue_inv s -> act a s = (Done (Some n), s') -> h_returned s' = h_returned s ++ [n].
Proof.
  intros Hinv. assert (Hunit : forall (m : ST world unit), (do* m; ret (@None nat)) s <> (Done (Some n), s')).
  { intros m. unfold bind. by destruct (m s) as [[] ?]. }
  destruct a as [k m|t|t timed|t|t|t| | |]; cbn [act]; rewrite ?bind_get; try by intros E%Hunit.
  - by apply dequeue_returned.
  - by apply wait_begin_returned.
  - destruct (at_thread t s) as [|w|w|w] eqn:Et; try done;
      (destruct (inv_threads s Hinv t w) as [i Hi]; [by rewrite Et|]);
      destruct (wait_end_returned s t w i Hi) as (s2 & -> & Hr); intros [= Hp <-]; by rewrite Hr, Hp.
  - by destruct (at_thread t s).
  - destruct (at_thread t s) as [|w|w|w] eqn:Et; try done.
    destruct (inv_threads s Hinv t w) as [i Hi]; [by rewrite Et|].
    destruct (timeout_end_returned s t w i Hi) as (s2 & -> & Hr). intros [= Hp <-]. by rewrite Hr, Hp.
Qed.

(** ** Threads do not disturb each other *)

Definition of_thread (a : action K) (t : nat) : bool :=
  match a with
  | Dequeue t' | WaitBegin t' _ | WaitEnd t' | TimeOut t' | TimeOutEnd t' => (t' =? t)%nat
  | Enqueue _ _ | WakeUpAll | Clear | Dispatch => false
  end.

(** Thread [t] waits for [w], whose event was set. *)
Definition handed s (t w : nat) (l : local) (i : WaitInfo) : Prop :=
  infos s !! w = Some i /\ nfAvailable i = true /\ at_thread t s = l /\ waits_on l w.

Lemma at_thread_other t t' s l :
  t' <> t -> default Idle (<[t' := l]> (threads s) !! t) = at_thread t s.
Proof. intros Hne. by rewrite lookup_insert_ne. Qed.

Lemma dispatch_loop_quiet fuel : forall s r s',
  dispatch_loop fuel s = (r, s') -> infos s' = infos s /\ threads s' = threads s.
Proof.
  induction fuel as [|fuel IH]; intros s r s'; cbn [dispatch_loop]; [by intros [= _ <-]|].
  unfold dequeueOne, bind, get, ret. destruct (_nfQueue s) as [|[k m] q]; cbn; [by intros [= _ <-]|].
  intros E%IH. exact E.
Qed.

Lemma unit_step (m : ST world unit) s r s' : (do* m; ret (@None nat)) s = (r, s') -> exists x, m s = (x, s').
Proof. unfold bind. destruct (m s) as [[x| |e|] s1]; intros [= _ <-]; eauto. Qed.

(** The steps of the other threads leave a thread its notification. *)
Lemma act_handed a s r s' t w l i :
  queue_inv s -> handed s t w l i -> of_thread a t = false -> enabled a s = true -> act a s = (r, s') -> handed s' t w l i.
Proof.
  intros Hinv (Hi & Hav & Hl & Hw) Ha He.
  assert (Hnin : w ∉ _waitQueue s).
  { intros Hin%(inv_waiting s Hinv). rewrite Hi in Hin. by injection Hin as ->. }
  assert (Hother : forall t' w', (t' =? t)%nat = false -> waits_on (at_thread t' s) w' -> w' <> w).
  { intros t' w' Hne%Nat.eqb_neq Hw' ->. rewrite <-Hl in Hw. by destruct Hne, (inv_unique s Hinv t' t w). }
  destruct a as [k m|t'|t' timed|t'|t'|t'| | |]; cbn [act of_thread enabled] in *; rewrite ?bind_get.
  - intros [x E]%unit_step. revert E. unfold enqueueNotification, record, set_queues. rewrite bind_modify, bind_get. fields.
    destruct (_waitQueue s) as [|w0 ws] eqn:Ew; [by intros [= _ <-]|].
    apply not_elem_of_cons in Hnin as [Hne _]. rewrite !bind_modify.
    unfold set_info, info, set_infos. rewrite bind_bind, bind_get. fields.
    destruct (infos s !! w0); [|by intros [= _ <-]]. rewrite bind_ret, bind_get. intros [= _ <-].
    split; [|done]. cbn. by rewrite lookup_insert_ne.
  - unfold dequeueNotification, dequeueOne, bind, get, ret. by destruct (_nfQueue s) as [|[k m] q]; cbn; intros [= _ <-].
  - unfold wait_begin, dequeueOne, bind, get, ret. apply Nat.eqb_neq in Ha.
    destruct (_nfQueue s) as [|[k m] q]; cbn; intros [= _ <-]; [|done].
    split; [|split; [done|split; [|done]]]; cbn.
    + rewrite lookup_insert_ne; [done|]. intros <-. pose proof (inv_fresh s Hinv (next_info s) ltac:(eauto)). lia.
    + rewrite <-Hl. by apply at_thread_other.
  - assert (He' : forall w', waits_on (at_thread t' s) w' -> wait_end t' w' s = (r, s') -> handed s' t w l i).
    { intros w' Hw'. destruct (inv_threads s Hinv t' w' Hw') as [i' Hi']. specialize (Hother t' w' Ha Hw').
      unfold wait_end, delete_info, info, returns, record, set_infos, set_thread, bind, get, ret, modify. rewrite Hi'. cbn.
      rewrite Hi'. intros [= _ <-]. split; [|split; [done|split; [|done]]]; cbn; [by rewrite lookup_delete_ne|].
      rewrite <-Hl. apply at_thread_other. by apply Nat.eqb_neq. }
    destruct (at_thread t' s); try done; by apply He'.
  - destruct (at_thread t' s); try done. intros [= _ <-]. split; [done|split; [done|split; [|done]]].
    rewrite <-Hl. apply at_thread_other. by apply Nat.eqb_neq.
  - destruct (at_thread t' s) as [|w'|w'|w'] eqn:Et; try done.
    assert (Hw' : waits_on (at_thread t' s) w') by by rewrite Et.
    destruct (inv_threads s Hinv t' w' Hw') as [i' Hi']. specialize (Hother t' w' Ha ltac:(by rewrite Et)).
    unfold timeout_end, delete_info, info, returns, record, set_infos, set_queues, set_thread, bind, get, ret, modify. rewrite Hi'. cbn.
    rewrite Hi'. intros [= _ <-]. split; [|split; [done|split; [|done]]]; cbn; [by rewrite lookup_delete_ne|].
    rewrite <-Hl. apply at_thread_other. by apply Nat.eqb_neq.
  - destruct (wake_run (_waitQueue s) s (inv_nodup s Hinv) (inv_waiting s Hinv)) as (m & E & Hm & _).
    intros [x Ex]%unit_step. revert Ex. unfold wakeUpAll. rewrite bind_get, (bind_Done _ _ _ _ _ E). intros [= _ <-].
    split; [|done]. cbn. by rewrite Hm, decide_False.
  - by intros [= _ <-].
  - intros [x E]%unit_step. revert E. unfold dispatch. rewrite bind_get. intros [E1 E2]%dispatch_loop_quiet.
    unfold handed, at_thread. by rewrite E1, E2.
Qed.

(** Steps of other threads than [t], in any order. *)
Inductive others (t : nat) : world -> world -> Prop :=
| others_refl s : others t s s
| others_step s a r s1 s2 : of_thread a t = false -> enabled a s = true -> act a s = (r, s1) -> others t s1 s2 -> others t s s2.

Lemma others_handed t s s' :
  others t s s' -> queue_inv s -> forall w l i, handed s t w l i -> queue_inv s' /\ handed s' t w l i.
Proof.
  induction 1 as [|s a r s1 s2 Ha He E _ IH]; [done|]. intros Hinv w l i Hh.
  apply IH; [|by eapply act_handed].
  destruct (act_inv a s Hinv He) as (r' & s1' & E' & Hs1). rewrite E in E'. by injection E' as _ ->.
Qed.

(** Notifications go to the waiting threads in the order of their calls. *)
Fixpoint enqueue_all (l : list (K * nat)) : ST world unit :=
  match l with [] => ret tt | (k, n) :: l => do* enqueueNotification k (Some n); enqueue_all l end.

Lemma enqueue_to_waiting s k n w ws :
  queue_inv s -> _waitQueue s = w :: ws ->
  exists s', enqueueNotification k (Some n) s = (Done tt, s') /\ queue_inv s' /\ _waitQueue s' = ws
    /\ infos s' !! w = Some {| pNf := Some n; nfAvailable := true |} /\ threads s' = threads s.
Proof.
  intros Hinv Ew. destruct (enqueue_inv s k n Hinv) as (u & s' & E & Hs'). destruct u. exists s'. split; [done|]. split; [done|].
  revert E. unfold enqueueNotification, record, set_queues. rewrite bind_modify, bind_get. fields. rewrite Ew, !bind_modify.
  unfold set_info, info, set_infos. rewrite bind_bind, bind_get. fields.
  rewrite (inv_waiting s Hinv w) by (rewrite Ew; by left). rewrite bind_ret, bind_get. intros [= <-]. cbn.
  by rewrite lookup_insert_eq.
Qed.

Lemma enqueue_all_reaches l : forall s k n ws w ws',
  queue_inv s -> _waitQueue s = ws ++ w :: ws' -> length l = length ws ->
  exists s', enqueue_all (l ++ [(k, n)]) s = (Done tt, s') /\ queue_inv s' /\ threads s' = threads s
    /\ infos s' !! w = Some {| pNf := Some n; nfAvailable := true |}.
Proof.
  induction l as [|[k' n'] l IH]; intros s k n [|w0 ws] w ws' Hinv Ew Hlen; try done; cbn [app enqueue_all].
  - destruct (enqueue_to_waiting s k n w ws' Hinv Ew) as (s' & E & Hs' & _ & Hi & Ht).
    exists s'. by rewrite (bind_Done _ _ _ _ _ E).
  - destruct (enqueue_to_waiting s k' n' w0 _ Hinv Ew) as (s1 & E & Hs1 & Ew1 & _ & Ht1).
    destruct (IH s1 k n ws w ws' Hs1 Ew1 ltac:(by injection Hlen)) as (s' & E' & Hs' & Ht & Hi).
    exists s'. rewrite (bind_Done _ _ _ _ _ E). by rewrite Ht.
Qed.
(** ** The order of the waiting threads *)

(** A step takes threads from the wait queue, in any place, or puts a new one
    at its end, and moves no other thread. *)
Definition in_line (a : action K) s s' : Prop :=
  sublist (_waitQueue s') (_waitQueue s ++ [next_info s]) /\ (next_info s <= next_info s')%nat
  /\ forall t, of_thread a t = false -> at_thread t s' = at_thread t s.

Lemma in_line_same a s s' :
  sublist (_waitQueue s') (_waitQueue s) -> next_info s' = next_info s ->
  (forall t, of_thread a t = false -> at_thread t s' = at_thread t s) -> in_line a s s'.
Proof. intros H1 H2 H3. split; [|split; [lia|done]]. by apply sublist_inserts_r. Qed.

Lemma dispatch_loop_line fuel : forall s r s',
  dispatch_loop fuel s = (r, s') -> _waitQueue s' = _waitQueue s /\ next_info s' = next_info s /\ threads s' = threads s.
Proof.
  induction fuel as [|fuel IH]; intros s r s'; cbn [dispatch_loop]; [by intros [= _ <-]|].
  unfold dequeueOne, bind, get, ret. destruct (_nfQueue s) as [|[k m] q]; cbn; [by intros [= _ <-]|].
  intros E%IH. exact E.
Qed.

Lemma act_in_line a s r s' : queue_inv s -> enabled a s = true -> act a s = (r, s') -> in_line a s s'.
Proof.
  intros Hinv He. destruct a as [k m|t'|t' timed|t'|t'|t'| | |]; cbn [act enabled] in *; rewrite ?bind_get.
  - intros [x E]%unit_step. revert E. unfold enqueueNotification, record, set_queues. rewrite bind_modify, bind_get. fields.
    destruct (_waitQueue s) as [|w0 ws] eqn:Ew; [intros [= _ <-]; apply in_line_same; [apply sublist_nil_l|done..]|].
    rewrite !bind_modify. unfold set_info, info, set_infos. rewrite bind_bind, bind_get. fields.
    rewrite (inv_waiting s Hinv w0) by (rewrite Ew; by left). rewrite bind_ret, bind_get. intros [= _ <-].
    apply in_line_same; [|done..]. rewrite Ew. by apply sublist_cons.
  - unfold dequeueNotification, dequeueOne, bind, get, ret.
    by destruct (_nfQueue s) as [|[k m] q]; cbn; intros [= _ <-]; apply in_line_same.
  - unfold wait_begin, dequeueOne, bind, get, ret. destruct (_nfQueue s) as [|[k m] q]; cbn; intros [= _ <-]; [|by apply in_line_same].
    split; [done|]. split; [cbn; lia|]. intros t Ht%Nat.eqb_neq. by apply at_thread_other.
  - assert (He' : forall w', waits_on (at_thread t' s) w' -> wait_end t' w' s = (r, s') -> in_line (WaitEnd t') s s').
    { intros w' Hw'. destruct (inv_threads s Hinv t' w' Hw') as [i' Hi'].
      unfold wait_end, delete_info, info, returns, record, set_infos, set_thread, bind, get, ret, modify. rewrite Hi'. cbn.
      rewrite Hi'. intros [= _ <-]. apply in_line_same; [done..|]. intros t Ht%Nat.eqb_neq. by apply at_thread_other. }
    destruct (at_thread t' s); try done; by apply He'.
  - destruct (at_thread t' s); try done. intros [= _ <-]. apply in_line_same; [done..|].
    intros t Ht%Nat.eqb_neq. by apply at_thread_other.
  - destruct (at_thread t' s) as [|w'|w'|w'] eqn:Et; try done. destruct (inv_threads s Hinv t' w') as [i' Hi']; [by rewrite Et|].
    unfold timeout_end, delete_info, info, returns, record, set_infos, set_queues, set_thread, bind, get, ret, modify. rewrite Hi'. cbn.
    rewrite Hi'. intros [= _ <-]. apply in_line_same; [apply sublist_filter|done|]. intros t Ht%Nat.eqb_neq. by apply at_thread_other.
  - destruct (wake_run (_waitQueue s) s (inv_nodup s Hinv) (inv_waiting s Hinv)) as (m & E & _).
    intros [x Ex]%unit_step. revert Ex. unfold wakeUpAll. rewrite bind_get, (bind_Done _ _ _ _ _ E). intros [= _ <-].
    apply in_line_same; [apply sublist_nil_l|done..].
  - intros [= _ <-]. by apply in_line_same.
  - intros [x E]%unit_step. revert E. unfold dispatch. rewrite bind_get. intros (E1 & E2 & E3)%dispatch_loop_line.
    apply in_line_same; [by rewrite E1|done|]. intros t _. unfold at_thread. by rewrite E3.
Qed.

Lemma wait_end_idle t w s r s' : queue_inv s -> waits_on (at_thread t s) w -> wait_end t w s = (r, s') -> at_thread t s' = Idle.
Proof.
  intros Hinv Hw. destruct (inv_threads s Hinv t w Hw) as [i Hi].
  unfold wait_end, delete_info, info, returns, record, set_infos, set_thread, bind, get, ret, modify. rewrite Hi. cbn.
  rewrite Hi. intros [= _ <-]. unfold at_thread. cbn. by rewrite lookup_insert_eq.
Qed.

Lemma timeout_end_idle t w s r s' : queue_inv s -> waits_on (at_thread t s) w -> timeout_end t w s = (r, s') -> at_thread t s' = Idle.
Proof.
  intros Hinv Hw. destruct (inv_threads s Hinv t w Hw) as [i Hi].
  unfold timeout_end, delete_info, info, returns, record, set_infos, set_queues, set_thread, bind, get, ret, modify. rewrite Hi. cbn.
  rewrite Hi. intros [= _ <-]. unfold at_thread. cbn. by rewrite lookup_insert_eq.
Qed.

(** The threads in front of [w] are some of [ws], if it still waits. *)
Definition behind (ws : list nat) (w : nat) s : Prop :=
  (w < next_info s)%nat
  /\ (w ∈ _waitQueue s -> exists front rest, _waitQueue s = front ++ w :: rest /\ sublist front ws).

Lemma sublist_behind (ws front : list nat) w rest q :
  NoDup (front ++ w :: rest) -> sublist q (front ++ w :: rest) -> sublist front ws -> w ∈ q ->
  exists front' rest', q = front' ++ w :: rest' /\ sublist front' ws.
Proof.
  intros (_ & Hd & (Hw & _)%NoDup_cons)%NoDup_app (q1 & q2 & -> & H1 & H2)%sublist_app_r Hf Hin.
  assert (w ∉ q1) as Hn1 by (intros H; apply (Hd w (elem_of_sublist _ _ _ H H1)); by left).
  apply elem_of_app in Hin as [Hin|Hin]; [done|].
  apply sublist_cons_r in H2 as [H2|(q3 & -> & _)]; [by apply (elem_of_sublist _ _ _ Hin) in H2|].
  exists q1, q3. split; [done|]. by etrans.
Qed.

Lemma behind_step ws w a s r s' : queue_inv s -> enabled a s = true -> act a s = (r, s') -> behind ws w s -> behind ws w s'.
Proof.
  intros Hinv He E [Hlt Hb]. destruct (act_in_line a s r s' Hinv He E) as (Hq & Hn & _). split; [lia|]. intros Hin.
  assert (w ∈ _waitQueue s) as Hin0.
  { pose proof (elem_of_sublist _ _ _ Hin Hq) as Hin'. apply elem_of_app in Hin' as [|Hx%list_elem_of_singleton]; [done|lia]. }
  destruct (Hb Hin0) as (front & rest & Ew & Hf). rewrite Ew, <- app_assoc in Hq. cbn [app] in Hq.
  eapply sublist_behind; [|exact Hq|done|done]. change (w :: rest ++ [next_info s]) with ((w :: rest) ++ [next_info s]).
  rewrite app_assoc, <- Ew. apply NoDup_app. split_and!; [apply Hinv| |apply NoDup_singleton].
  intros x Hx ->%list_elem_of_singleton. pose proof (inv_fresh s Hinv (next_info s)) as Hf'. rewrite (inv_waiting s Hinv _ Hx) in Hf'.
  specialize (Hf' ltac:(eauto)). lia.
Qed.

Lemma step_inv a s r s' : queue_inv s -> enabled a s = true -> act a s = (r, s') -> queue_inv s'.
Proof. intros Hinv He E. destruct (act_inv a s Hinv He) as (r' & s1 & E' & Hs1). rewrite E in E'. by injection E' as _ ->. Qed.

Lemma others_behind ws w t s s' : others t s s' -> queue_inv s -> behind ws w s -> behind ws w s'.
Proof.
  induction 1 as [|s a r s1 s2 _ He E _ IH]; [done|]. intros Hinv Hb. apply IH; [by eapply step_inv|by eapply behind_step].
Qed.

Lemma others_snoc t s a r s1 s2 : others t s s1 -> of_thread a t = false -> enabled a s1 = true -> act a s1 = (r, s2) -> others t s s2.
Proof.
  induction 1 as [|s b r' s3 s4 Hb He E _ IH]; intros Ha He' E'; [|by apply (others_step t s b r' s3 s2); [..|apply IH]].
  apply (others_step t s a r s2 s2); [done..|constructor].
Qed.

(** The call of thread [t] that waits for [w] began in [s0], and since then
    only other threads ran. *)
Definition called (t w : nat) s0 s : Prop :=
  reachable s0 /\ w = next_info s0 /\ exists timed s1, enabled (WaitBegin t timed) s0 = true
    /\ act (WaitBegin t timed) s0 = (Done None, s1) /\ others t s1 s.

Definition sleeps_on (l : local) (w : nat) : Prop := l = Waiting w \/ l = TimedWaiting w.

Lemma begin_sleeps t timed w s r s' : at_thread t s = Idle -> act (WaitBegin t timed) s = (r, s') -> sleeps_on (at_thread t s') w ->
  r = Done None /\ w = next_info s.
Proof.
  intros Ht. cbn [act]. unfold wait_begin, dequeueOne, bind, get, ret. destruct (_nfQueue s) as [|[k m] q]; cbn; intros [= <- <-].
  - unfold at_thread. cbn. rewrite lookup_insert_eq. by destruct timed; intros [[= <-]|[= <-]].
  - change (sleeps_on (at_thread t s) w -> Done (Some m) = Done None /\ w = next_info s). rewrite Ht. by intros [|].
Qed.

(** Every other step of a thread of its own ends outside of the wait. *)
Lemma own_step t a w s r s' : queue_inv s -> of_thread a t = true -> enabled a s = true -> act a s = (r, s') ->
  sleeps_on (at_thread t s') w -> exists timed, a = WaitBegin t timed /\ at_thread t s = Idle.
Proof.
  intros Hinv Ha He E. assert (forall l, at_thread t s' = l -> ~ sleeps_on l w -> sleeps_on (at_thread t s') w -> False) as Hno by (by intros l ->).
  destruct a as [k m|t'|t' timed|t'|t'|t'| | |]; cbn [of_thread] in Ha; try done; apply Nat.eqb_eq in Ha as ->;
    cbn [act enabled] in *; rewrite ?bind_get in E; (destruct (at_thread t s) as [|w'|w'|w'] eqn:Et; try done).
  - intros Hs. destruct (Hno Idle); [|by intros [|]|done]. revert E. unfold dequeueNotification, dequeueOne, bind, get, ret.
    by destruct (_nfQueue s) as [|[k m] q]; cbn; intros [= _ <-].
  - by exists timed.
  - intros Hs. destruct (Hno Idle); [|by intros [|]|done]. apply (wait_end_idle t w' s r s' Hinv); [by rewrite Et|exact E].
  - intros Hs. destruct (Hno Idle); [|by intros [|]|done]. apply (wait_end_idle t w' s r s' Hinv); [by rewrite Et|exact E].
  - intros Hs. injection E as _ <-. destruct (Hno (TimedOut w')); [|by intros [|]|done]. unfold at_thread. cbn. by rewrite lookup_insert_eq.
  - intros Hs. destruct (Hno Idle); [|by intros [|]|done]. apply (timeout_end_idle t w' s r s' Hinv); [by rewrite Et|exact E].
Qed.

Lemma waiting_called t w s : reachable s -> sleeps_on (at_thread t s) w -> exists s0, called t w s0 s.
Proof.
  intros Hr. induction Hr as [|s a r s' Hs IH He E]; intros Ht; [by destruct Ht|].
  pose proof (reachable_inv s Hs) as Hinv. destruct (act_in_line a s r s' Hinv He E) as (_ & _ & Hth).
  destruct (of_thread a t) eqn:Ea.
  - destruct (own_step t a w s r s' Hinv Ea He E Ht) as (timed & -> & Hi). destruct (begin_sleeps t timed w s r s' Hi E Ht) as [-> ->].
    exists s. split_and!; [done..|]. exists timed, s'. split_and!; [done..|constructor].
  - rewrite (Hth t Ea) in Ht. destruct (IH Ht) as (s0 & H0 & Hw & timed & s1 & He1 & E1 & Ho). exists s0. split; [done|]. split; [done|].
    exists timed, s1. split_and!; [done..|]. by eapply others_snoc.
Qed.

(** Nobody who called later is in front. *)
Lemma called_behind t w s0 s : called t w s0 s -> behind (_waitQueue s0) w s.
Proof.
  intros (Hr & -> & timed & s1 & He & E & Ho). pose proof (reachable_inv s0 Hr) as Hinv.
  apply (others_behind _ _ _ _ _ Ho); [by eapply step_inv|]. revert E. cbn [act]. unfold wait_begin, dequeueOne, bind, get, ret.
  destruct (_nfQueue s0) as [|[k m] q]; cbn; [|done]. intros [= <-]. split; [cbn; lia|]. intros _. cbn. by exists (_waitQueue s0), [].
Qed.
End Invariant.
