(* ===== verification/NotifyClaims.v ===== *)
(** NotificationQueue and PriorityNotificationQueue under every interleaving
    of their threads: exactly-once delivery, no lost wake-up, and the order
    in which notifications leave. *)

From S2P Require Import Prelude Notify NotifyFacts.
From stdpp Require Import sorting list gmap.

Open Scope st_scope.
Local Open Scope Z_scope.

(** ** Executing a schedule *)
Section Schedule.
Context {K : Type} `{!NfQueue K}.

Fixpoint run (l : list (action K)) (s : World K) : option (World K) :=
  match l with
  | [] => Some s
  | a :: l => if enabled a s then match act a s with (Done _, s') => run l s' | _ => None end else None
  end.

Lemma run_reachable l : forall s s', reachable s -> run l s = Some s' -> reachable s'.
Proof.
  induction l as [|a l IH]; cbn [run]; intros s s' Hs; [by intros [= <-]|].
  destruct (enabled a s) eqn:He; [|done]. destruct (act a s) as [[r| |e|] s1] eqn:E; try done.
  apply IH. by eapply reach_step.
Qed.
End Schedule.

(** ** What the two containers keep *)
Definition is_normal (k : urgency) : bool := match k with Normal => true | Urgent => false end.

(** No urgent entry is behind a normal one. *)
Definition urgent_first (q : list (urgency * nat)) : Prop :=
  exists u n, q = u ++ n /\ Forall (fun e => fst e = Urgent) u /\ Forall (fun e => fst e = Normal) n.

Lemma normal_lane : fifo_lane is_normal.
Proof.
  intros [] n q _; cbn [nf_insert deque_queue deque_insert]; [by rewrite lane_app|].
  cbn. by rewrite app_nil_r.
Qed.

Lemma urgent_first_stable : stable urgent_first.
Proof.
  split; [by exists [], []|]. split.
  - intros k n q (u & m & -> & Hu & Hm). destruct k.
    + exists u, (m ++ [(Normal, n)]). split_and!; [by rewrite app_assoc|done|].
      apply Forall_app. split; [done|by constructor].
    + exists ((Urgent, n) :: u), m. split_and!; [done|by constructor|done].
  - intros e q (u & m & E & Hu & Hm). destruct u as [|e' u]; cbn in E.
    + destruct m as [|e' m]; [done|]. injection E as -> ->. exists [], m. apply Forall_cons in Hm as [_ Hm]. done.
    + injection E as -> ->. exists u, m. by apply Forall_cons in Hu as [_ Hu].
Qed.

Definition by_priority {A} (q : list (Z * A)) : Prop := StronglySorted (fun a b => fst a <= fst b) q.

Lemma multimap_insert_sorted {A} k (n : A) q : by_priority q -> by_priority (multimap_insert k n q).
Proof.
  unfold by_priority. induction 1 as [|[k' n'] q Hq IH Hall]; [by repeat constructor|]. cbn [multimap_insert].
  destruct (Z.ltb_spec k k') as [Hlt|Hge].
  - constructor; [by constructor|]. constructor; [cbn; lia|]. eapply Forall_impl; [exact Hall|]. cbn. lia.
  - constructor; [done|]. rewrite multimap_insert_perm. by constructor.
Qed.

Lemma by_priority_stable : stable (by_priority (A := nat)).
Proof.
  split; [constructor|]. split; [intros; by apply multimap_insert_sorted|].
  intros e q Hq. by apply StronglySorted_inv in Hq as [Hq _].
Qed.

Lemma lane_none {K} (L : K -> bool) (q : list (K * nat)) : Forall (fun e => L (fst e) = false) q -> lane L q = [].
Proof. induction 1 as [|e q He _ IH]; [done|]. cbn. by rewrite He. Qed.

Lemma lane_cons {K} (L : K -> bool) e (q : list (K * nat)) : lane L (e :: q) = lane L [e] ++ lane L q.
Proof. apply (lane_app L [e] q). Qed.

Lemma priority_lane p : fifo_lane (Z.eqb p).
Proof.
  intros k n q Hq. specialize (Hq _ by_priority_stable). cbn [nf_insert multimap_queue].
  unfold by_priority in Hq. induction Hq as [|[k' n'] q Hq IH Hall]; [done|]. cbn [multimap_insert].
  destruct (Z.ltb_spec k k') as [Hlt|Hge].
  - rewrite lane_cons. cbn [lane List.filter fst].
    destruct (Z.eqb_spec p k) as [->|_]; [|by rewrite app_nil_r].
    destruct (Z.eqb_spec k k'); [lia|]. change (List.filter _ q) with (lane (Z.eqb k) q). rewrite lane_none; [done|]. eapply Forall_impl; [exact Hall|]. cbn. intros; lia.
  - by rewrite (lane_cons _ _ (multimap_insert k n q)), (lane_cons _ _ q), IH, app_assoc.
Qed.

(** ** Claims *)

(** C25: in every interleaving of the threads that use a notification queue
    every step runs to its end (no deleted [WaitInfo] is used, no exception),
    and every enqueued notification is in exactly one place: in the
    container, with a thread that was woken for it, removed by [clear], or
    returned; what a call returns is what the history records, and no thread
    is registered as waiting while the container holds something. *)
Theorem queue_exactly_once {K} `{!NfQueue K} (s : World K) (H : reachable s) :
  map snd (h_enqueued s) ≡ₚ map snd (_nfQueue s) ++ pending (infos s) ++ h_cleared s ++ h_returned s
  /\ (_waitQueue s <> [] -> _nfQueue s = [])
  /\ forall a, enabled a s = true -> exists r s', act a s = (Done r, s')
       /\ (forall n, r = Some n -> h_returned s' = h_returned s ++ [n]).
Proof.
  apply reachable_inv in H as Hinv. split; [|split].
  - rewrite (inv_enqueued s Hinv), map_app, (inv_left s Hinv), Permutation_app_comm. f_equiv.
    by rewrite (app_assoc (h_cleared s)), Permutation_app_comm.
  - apply (inv_idle s Hinv).
  - intros a He. destruct (act_inv a s Hinv He) as (r & s' & E & _). exists r, s'. split; [done|].
    intros n ->. by apply (act_returned a).
Qed.

(** Two threads wait, a notification is handed over, an urgent and a normal
    one are queued behind [wakeUpAll]. *)
Definition queue_demo : list (action urgency) :=
  [WaitBegin 1 false; WaitBegin 2 true; Enqueue Normal 7; WakeUpAll; Enqueue Normal 8; Enqueue Urgent 9; TimeOut 2].

Lemma queue_exactly_once_witness :
  exists s : World urgency, run queue_demo construct = Some s /\ pending (infos s) = [7%nat]
    /\ map snd (h_enqueued s) ≡ₚ [9; 8]%nat ++ [7%nat] ++ [] ++ [].
Proof.
  eexists. split; [vm_compute; reflexivity|]. split; [vm_compute; reflexivity|].
  match goal with |- map snd (h_enqueued ?s) ≡ₚ _ =>
    assert (Hs : reachable s) by (apply (run_reachable queue_demo construct); [constructor|vm_compute; reflexivity]);
    exact (proj1 (queue_exactly_once s Hs)) end.
Defined.

(** C26: a thread sleeps only while the container is empty and it is itself
    registered, and the threads that wait are served in the order of their
    calls: in front of it are only threads that waited when its own call began
    (in the state [s0], since when only other threads ran); enqueuing one
    notification more than there are threads in front hands it the last one,
    and whatever the other threads do then, its call can return and returns that
    notification, also when its time limit ran out in between. *)
Theorem queue_no_lost_wakeup {K} `{!NfQueue K} (s : World K) (t w : nat)
    (Hr : reachable s) (Ht : at_thread t s = Waiting w \/ at_thread t s = TimedWaiting w) (Hsleep : signalled w s = false) :
  _nfQueue s = [] /\ exists s0 front rest, called t w s0 s /\ _waitQueue s = front ++ w :: rest /\ sublist front (_waitQueue s0)
  /\ forall l k n, length l = length front ->
     exists s1, enqueue_all (l ++ [(k, n)]) s = (Done tt, s1)
     /\ forall s2, others t s1 s2 ->
          enabled (WaitEnd t) s2 = true /\ (exists s3, act (WaitEnd t) s2 = (Done (Some n), s3))
          /\ (forall s3 s4, act (TimeOut t) s2 = (Done None, s3) -> at_thread t s = TimedWaiting w -> others t s3 s4 ->
               exists s5, act (TimeOutEnd t) s4 = (Done (Some n), s5)).
Proof.
  pose proof (reachable_inv s Hr) as Hinv.
  assert (Hw : waits_on (at_thread t s) w) by (destruct Ht as [-> | ->]; done).
  destruct (inv_threads s Hinv t w Hw) as [i Hi]. unfold signalled in Hsleep. rewrite Hi in Hsleep.
  destruct (inv_signal s Hinv w i Hi) as [Hin|]; [|congruence].
  split. { apply (inv_idle s Hinv). intros E. rewrite E in Hin. by apply not_elem_of_nil in Hin. }
  destruct (waiting_called t w s Hr Ht) as (s0 & Hc). destruct (called_behind t w s0 s Hc) as [_ Hb].
  destruct (Hb Hin) as (front & rest & Ew & Hf). exists s0, front, rest. do 3 (split; [done|]).
  intros l k n Hlen. destruct (enqueue_all_reaches l s k n front w rest Hinv Ew Hlen) as (s1 & E & Hs1 & Hth & Hi1).
  exists s1. split; [done|]. intros s2 Hs2.
  assert (Hat1 : at_thread t s1 = at_thread t s) by (unfold at_thread; by rewrite Hth).
  destruct (others_handed t s1 s2 Hs2 Hs1 w (at_thread t s) _ (conj Hi1 (conj eq_refl (conj Hat1 Hw)))) as (Hinv2 & Hi2 & _ & Hat2 & _).
  split_and!.
  - cbn [enabled]. rewrite Hat2. destruct Ht as [-> | ->]; unfold signalled; by rewrite Hi2.
  - cbn [act]. rewrite bind_get, Hat2. destruct (wait_end_returned s2 t w _ Hi2) as (s3 & E3 & _).
    exists s3. by destruct Ht as [-> | ->].
  - intros s3 s4 E3 Htw Hs4. rewrite Htw in Hat2.
    destruct (act_inv (TimeOut t) s2 Hinv2) as (r' & s3' & E3' & Hinv3); [cbn; by rewrite Hat2|].
    rewrite E3 in E3'. injection E3' as _ <-. cbn [act] in E3. rewrite bind_get, Hat2 in E3. injection E3 as E3.
    assert (Hh3 : handed s3 t w (TimedOut w) {| pNf := Some n; nfAvailable := true |}).
    { rewrite <-E3. split; [done|]. split; [done|]. split; [|done]. unfold at_thread. cbn. by rewrite lookup_insert_eq. }
    destruct (others_handed t s3 s4 Hs4 Hinv3 _ _ _ Hh3) as (_ & Hi4 & _ & Hat4 & _).
    cbn [act]. rewrite bind_get, Hat4. destruct (timeout_end_returned s4 t w _ Hi4) as (s5 & E5 & _). by exists s5.
Qed.

(** The two waiting threads of the demonstration, before anything is enqueued. *)
Lemma queue_no_lost_wakeup_witness :
  exists s : World urgency, run [WaitBegin 1 false; WaitBegin 2 true] construct = Some s
    /\ exists s1, enqueue_all ([(Normal, 7%nat)] ++ [(Urgent, 8%nat)]) s = (Done tt, s1)
    /\ exists s3, act (WaitEnd 2) s1 = (Done (Some 8%nat), s3).
Proof.
  eexists. split; [vm_compute; reflexivity|].
  match goal with |- exists s1, enqueue_all _ ?s = _ /\ _ =>
    assert (Hs : reachable s) by (apply (run_reachable [WaitBegin 1 false; WaitBegin 2 true] construct); [constructor|vm_compute; reflexivity]);
    destruct (queue_no_lost_wakeup s 2 1 Hs (or_intror eq_refl) eq_refl) as (_ & s0 & front & rest & _ & Ew & _ & Hall) end.
  destruct front as [|w0 front]; [discriminate Ew|]. injection Ew as <- Ew.
  destruct front as [|w1 front]; [|exfalso; injection Ew as _ Ew; by destruct front].
  destruct (Hall [(Normal, 7%nat)] Urgent 8%nat eq_refl) as (s1 & E1 & Hs1). exists s1. split; [exact E1|].
  destruct (Hs1 s1 (others_refl _ _)) as (_ & H3 & _). exact H3.
Defined.

(** NotificationQueue: the normal notifications leave in the order in
    which they were enqueued, and an urgent one is never behind a normal one.
    PriorityNotificationQueue: the container is ordered by priority, and the
    notifications of one priority leave in the order in which they were
    enqueued; handing one to a waiting thread keeps both orders. *)
Theorem queue_order {s : World urgency} {p : World Z} (Hs : reachable s) (Hp : reachable p) :
  lane is_normal (h_enqueued s) = lane is_normal (h_left s) ++ lane is_normal (_nfQueue s)
  /\ urgent_first (_nfQueue s)
  /\ (forall k, lane (Z.eqb k) (h_enqueued p) = lane (Z.eqb k) (h_left p) ++ lane (Z.eqb k) (_nfQueue p))
  /\ by_priority (_nfQueue p).
Proof.
  apply reachable_inv in Hs, Hp. split_and!.
  - apply (inv_lane s Hs), normal_lane.
  - apply (inv_stable s Hs), urgent_first_stable.
  - intros k. apply (inv_lane p Hp), priority_lane.
  - apply (inv_stable p Hp), by_priority_stable.
Qed.

Definition priority_demo : list (action Z) :=
  [WaitBegin 1 false; Enqueue 3 1; Enqueue 3 2; Enqueue 1 3; Enqueue 3 4; Dequeue 2; WaitEnd 1].

Lemma queue_order_witness :
  exists (s : World urgency) (p : World Z), run queue_demo construct = Some s /\ run priority_demo construct = Some p
    /\ urgent_first (_nfQueue s) /\ lane (Z.eqb 3) (h_enqueued p) = [(3, 1%nat)] ++ [(3, 2%nat); (3, 4%nat)].
Proof.
  eexists _, _. split; [vm_compute; reflexivity|]. split; [vm_compute; reflexivity|].
  match goal with |- urgent_first (_nfQueue ?s) /\ lane _ (h_enqueued ?p) = _ =>
    assert (Hs : reachable s) by (apply (run_reachable queue_demo construct); [constructor|vm_compute; reflexivity]);
    assert (Hp : reachable p) by (apply (run_reachable priority_demo construct); [constructor|vm_compute; reflexivity]);
    destruct (queue_order Hs Hp) as (_ & H1 & H2 & _); split; [exact H1|exact (H2 3)] end.
Defined.
