(* ===== verification/NotifyTimed.v ===== *)
(** TimedNotificationQueue: with one consumer every notification is returned
    once, when it is due, and the consumer does not sleep past the first
    one; with two consumers, or with [clear], the iterator that is used without
    the mutex can be dangling, and a notification can be left behind. *)

From S2P Require Import Prelude Notify NotifyFacts NotifyClaims.
From stdpp Require Import sorting list gmap.

Open Scope st_scope.
Local Open Scope Z_scope.
Import Timed.

(** ** Nodes and iterators *)
Local Abbreviation node := (Z * (nat * nat))%type.

Definition id_of (e : node) : nat := fst (snd e).
Definition entry (e : node) : Z * nat := (fst e, snd (snd e)).
Definition ids (l : list node) : list nat := map id_of l.

(** The multimap of the nodes: by increasing clock, every node its own identity. *)
Record well_formed (l : list node) (next : nat) : Prop := {
  wf_sorted : by_priority l;
  wf_nodup : NoDup (ids l);
  wf_fresh : forall it, it ∈ ids l -> (it < next)%nat
}.

Lemma insert_well_formed l next c n :
  well_formed l next -> well_formed (multimap_insert c (next, n) l) (S next).
Proof.
  intros [H1 H2 H3]. split.
  - by apply multimap_insert_sorted.
  - unfold ids. rewrite multimap_insert_perm. cbn. constructor; [|done]. intros Hin%H3. lia.
  - intros it. unfold ids. rewrite multimap_insert_perm. cbn. intros [->|Hin%H3]%elem_of_cons; lia.
Qed.

Lemma erase_Forall (P : node -> Prop) it l : Forall P l -> Forall P (erase it l).
Proof. induction 1 as [|e l He _ IH]; [done|]. cbn. destruct (negb _); [by constructor|done]. Qed.

Lemma erase_cons it e l : erase it (e :: l) = if (id_of e =? it)%nat then erase it l else e :: erase it l.
Proof. unfold erase. cbn [List.filter]. unfold id_of. by destruct (_ =? it)%nat. Qed.

Lemma erase_none it l : it ∉ ids l -> erase it l = l.
Proof.
  induction l as [|e l IH]; [done|]. intros [Hne Hn]%not_elem_of_cons. rewrite erase_cons.
  destruct (Nat.eqb_spec (id_of e) it); [by subst|]. by rewrite IH.
Qed.

Lemma erase_ids it it' l : it' ∈ ids (erase it l) -> it' ∈ ids l.
Proof.
  induction l as [|e l IH]; [done|]. cbn. destruct (_ =? it)%nat; cbn; [by intros ?%IH; right|].
  intros [->|?%IH]%elem_of_cons; [by left|by right].
Qed.

Lemma erase_well_formed it l next : well_formed l next -> well_formed (erase it l) next.
Proof.
  intros [H1 H2 H3]. unfold by_priority in *. split.
  - unfold by_priority. induction H1 as [|e l Hl IH Hall]; [constructor|]. apply NoDup_cons in H2 as [_ H2]. cbn. destruct (negb _).
    + constructor; [|by apply erase_Forall]. apply IH; [done|]. intros it' Hin. apply H3. by right.
    + apply IH; [done|]. intros it' Hin. apply H3. by right.
  - clear H1 H3. induction l as [|e l IH]; [constructor|]. apply NoDup_cons in H2 as [Hn H2]. cbn. destruct (negb _); cbn.
    + constructor; [|by apply IH]. by intros ?%erase_ids.
    + by apply IH.
  - intros it' Hin%erase_ids. by apply H3.
Qed.

Lemma node_at_elem it l : it ∈ ids l -> exists e, node_at it l = Some e.
Proof.
  unfold node_at. induction l as [|[c [i n]] l IH]; cbn; [by intros ?%not_elem_of_nil|].
  intros [->|Hin]%elem_of_cons; [rewrite Nat.eqb_refl; eauto|]. destruct (i =? it)%nat; [eauto|by apply IH].
Qed.

Lemma node_at_ids it l e : node_at it l = Some e -> it ∈ ids l.
Proof.
  unfold node_at. induction l as [|[c [i n]] l IH]; [done|]. cbn.
  destruct (Nat.eqb_spec i it) as [->|_]; [by left|]. intros He. right. by apply IH.
Qed.

(** Erasing the node of an iterator takes its entry from the container. *)
Lemma erase_perm it l e :
  NoDup (ids l) -> node_at it l = Some e -> map entry l ≡ₚ e :: map entry (erase it l).
Proof.
  unfold node_at. induction l as [|[c [i n]] l IH]; [done|]. intros [Hn Hnd]%NoDup_cons.
  rewrite erase_cons. cbn [id_of fst snd List.find]. destruct (Nat.eqb_spec i it) as [->|Hne]; cbn [map].
  - intros [= <-]. by rewrite erase_none.
  - intros He. rewrite (IH Hnd He). apply Permutation_swap.
Qed.

Lemma node_at_head c it n l : node_at it ((c, (it, n)) :: l) = Some (c, n).
Proof. unfold node_at. cbn. by rewrite Nat.eqb_refl. Qed.

Lemma node_at_insert c x it l e :
  fst x <> it -> node_at it l = Some e -> node_at it (multimap_insert c x l) = Some e.
Proof.
  intros Hx. unfold node_at. induction l as [|[c' [i n]] l IH]; [done|]. cbn [multimap_insert].
  destruct (c <? c'); cbn [List.find].
  - cbn. destruct (Nat.eqb_spec (fst x) it); [done|]. done.
  - cbn. destruct (i =? it)%nat; [done|]. exact IH.
Qed.

(** ** One consumer *)

(** The clocks of notifications and the time limits at which no [Int64] or
    [long] overflows. *)
Definition clock_ok (c : Z) : bool := (- 2 ^ 62 <=? c) && (c <? 2 ^ 63).
Definition limit_ok (c : call) : bool :=
  match c with Unlimited => true | Limited milliseconds => milliseconds <=? 2 ^ 63 / 1000 end.

(** The steps when only thread [t] takes notifications and [clear] is not called. *)
Definition single (t : nat) (a : Timed.action) : bool :=
  match a with
  | Enqueue _ c => clock_ok c
  | Tick _ => true
  | Clear => false
  | Enter t' c => (t' =? t)%nat && limit_ok c
  | Dequeue t' | Look t' | Decide t' | Block t' | Resume t' | Finish t' | WaitHead t' | Awake t' | GiveUp t' => (t' =? t)%nat
  end.

(** A call that is in its loop. *)
Definition running (c : call) : Prop :=
  match c with Unlimited => True | Limited milliseconds => 0 <= milliseconds <= 2 ^ 63 / 1000 end.

(** The iterator is valid and, unless the event is set, the first one. *)
Definition first_or_set (s : TimedQueue) (it : nat) : Prop := available s = true \/ hd_error (ids (nodes s)) = Some it.

(** What the consumer may rely on where it stands: an iterator can be used, and
    the time that is still to be waited for reaches to the clock of its node. *)
Definition position_ok (s : TimedQueue) (p : position) : Prop :=
  match p with
  | Out => True
  | Loop c => limit_ok c = true
  | Peeked c it => running c /\ it ∈ ids (nodes s) /\ first_or_set s it
  | Due it => exists e, node_at it (nodes s) = Some e /\ fst e <= now s
  | AtWait c began it interval => running c /\ 0 <= began <= now s /\ interval < 2 ^ 63 /\ first_or_set s it
      /\ exists e, node_at it (nodes s) = Some e /\ fst e <= now s + interval
  | InTryWait c began it interval start ms => running c /\ 0 <= began <= now s /\ 0 < interval < 2 ^ 63 /\ first_or_set s it
      /\ 0 <= start <= now s /\ ms = (Z.min interval MAX_SLEEP + 999) / 1000
      /\ exists e, node_at it (nodes s) = Some e /\ fst e <= start + interval
  | Woken c began => running c /\ 0 <= began <= now s
  | NoneDue c => running c /\ (c = Unlimited -> available s = true \/ nodes s = [])
  | Blocked c began => running c /\ 0 <= began <= now s /\ (c = Unlimited -> available s = true \/ nodes s = [])
  end.

Record container_inv (s : TimedQueue) : Prop := {
  ti_wf : well_formed (nodes s) (next_node s);
  ti_conserved : t_enqueued s ≡ₚ map entry (nodes s) ++ t_returned s;
  ti_returned : Forall (fun e => fst e <= now s) (t_returned s);
  ti_now : 0 <= now s < 2 ^ 62;
  ti_clocks : Forall (fun e => clock_ok (fst e) = true) (nodes s)
}.

Definition timed_inv (t : nat) (s : TimedQueue) : Prop := container_inv s /\ position_ok s (position_of t s).

(** A step succeeds and keeps the invariant. *)
Definition steps_to {A} (t : nat) (m : ST TimedQueue A) s : Prop := exists r s', m s = (Done r, s') /\ timed_inv t s'.

Lemma position_move t p q s : position_of t {| nodes := nodes s; next_node := next_node s; available := available s; now := now s;
  positions := <[t := p]> q; t_enqueued := t_enqueued s; t_returned := t_returned s; t_cleared := t_cleared s |} = p.
Proof. unfold position_of. cbn. by rewrite lookup_insert_eq. Qed.

Lemma timed_move_inv t p s : container_inv s -> position_ok s p -> steps_to t (move t p) s.
Proof.
  intros [] Hp. eexists _, _. split; [reflexivity|]. split; [by split|].
  rewrite position_move. by destruct p.
Qed.

Lemma steps_lift {A B} t (r : res A) a (k : A -> ST TimedQueue B) s : r = Done a -> steps_to t (k a) s -> steps_to t (bind (lift r) k) s.
Proof. intros -> H. exact H. Qed.

Lemma node_clock it e s : container_inv s -> node_at it (nodes s) = Some e -> - 2 ^ 62 <= fst e < 2 ^ 63.
Proof.
  intros [_ _ _ _ Hc]. unfold node_at. destruct (List.find _ _) as [[c [i n]]|] eqn:E; [|done]. intros [= <-].
  apply find_some in E as [E _]. rewrite List.Forall_forall in Hc. specialize (Hc _ E). cbn in *. unfold clock_ok in Hc. lia.
Qed.

(** A notification is returned when it is due. *)
Lemma dequeueOne_run it e s :
  container_inv s -> node_at it (nodes s) = Some e -> fst e <= now s ->
  exists s', Timed.dequeueOne it s = (Done (snd e), s') /\ container_inv s' /\ positions s' = positions s
    /\ t_returned s' = t_returned s ++ [e].
Proof.
  intros [Hwf Hc Hd Hn Hk] He Hdue. eexists. split; [unfold Timed.dequeueOne, deref, bind, get; rewrite He; reflexivity|].
  split; [|done]. split; cbn.
  - by apply erase_well_formed.
  - rewrite app_nil_r, Hc, (erase_perm it _ e (wf_nodup _ _ Hwf) He). cbn. by rewrite app_assoc, (Permutation_app_comm _ [e]).
  - apply Forall_app. split; [done|]. by constructor.
  - done.
  - by apply erase_Forall.
Qed.

(** A new node leaves the consumer what it relies on: its event is set. *)
Lemma enqueued_position t n c s : container_inv s -> position_ok s (position_of t s) ->
  position_ok (snd (Timed.enqueueNotification (Some n) c s)) (position_of t s).
Proof.
  intros [Hwf _ _ _ _].
  assert (forall it e, node_at it (nodes s) = Some e -> node_at it (multimap_insert c (next_node s, n) (nodes s)) = Some e) as Hat.
  { intros it e He. apply node_at_insert; [|done]. cbn. intros <-. apply node_at_ids, (wf_fresh _ _ Hwf) in He. lia. }
  destruct (position_of t s) as [|k|k it|it|k b it i|k b it i st ms|k b|k|k b]; cbn; unfold first_or_set; cbn; try tauto.
  - intros (H1 & H2 & _). split_and!; [done| |by left]. unfold ids. rewrite multimap_insert_perm. by right.
  - intros (e & He & H). eauto.
  - intros (H1 & H2 & H3 & _ & e & He & H). eauto 10.
  - intros (H1 & H2 & H3 & _ & H4 & H5 & e & He & H). eauto 12.
Qed.

Lemma timed_enqueue_inv t n c s : timed_inv t s -> clock_ok c = true -> steps_to t (Timed.enqueueNotification (Some n) c) s.
Proof.
  intros [Hinv Hp] Hck. pose proof (enqueued_position t n c s Hinv Hp) as Hp'. destruct Hinv as [Hwf Hc Hd Hn Hk].
  eexists _, _. split; [reflexivity|]. split; [|exact Hp'].
  split; cbn; rewrite ?app_nil_r; [by apply insert_well_formed| |done|done|].
  - rewrite multimap_insert_perm, Hc. cbn. by rewrite Permutation_app_comm.
  - rewrite multimap_insert_perm. by constructor.
Qed.

Lemma timed_dequeue_inv t s : timed_inv t s -> position_of t s = Out -> steps_to t Timed.dequeueNotification s.
Proof.
  intros Hinv Ht. unfold steps_to, Timed.dequeueNotification. rewrite bind_get.
  destruct (nodes s) as [|[c [it n]] l] eqn:En; [by exists None, s|].
  assert (node_at it (nodes s) = Some (c, n)) as Hat by (rewrite En; apply node_at_head).
  pose proof (node_clock it (c, n) s (proj1 Hinv) Hat) as Hr. cbn [fst] in Hr. destruct (proj1 Hinv) as [_ _ _ Hn _].
  unfold elapsed. rewrite bind_bind, bind_get. apply steps_lift with (a := now s - c); [apply int64_ok; lia|].
  apply steps_lift with (a := - (now s - c)); [apply int64_ok; lia|]. unfold steps_to.
  destruct (Z.leb_spec (- (now s - c)) 0) as [Hle|]; [|by exists None, s].
  destruct (dequeueOne_run it (c, n) s (proj1 Hinv) Hat) as (s' & E & Hs' & Hpos & _); [cbn; lia|].
  exists (Some n), s'. split; [by rewrite (bind_Done _ _ _ _ _ E)|]. split; [done|].
  assert (position_of t s' = Out) as -> by (unfold position_of in *; by rewrite Hpos). done.
Qed.

Lemma finish_run t it e s : timed_inv t s -> position_of t s = Due it -> node_at it (nodes s) = Some e ->
  exists s', finish t it s = (Done (snd e), s') /\ timed_inv t s' /\ t_returned s' = t_returned s ++ [e].
Proof.
  intros [Hinv Hp] Ht He. rewrite Ht in Hp. destruct Hp as (e' & He' & Hdue). rewrite He in He'. injection He' as <-.
  destruct (dequeueOne_run it e s Hinv He Hdue) as (s1 & E & Hs1 & _ & Er).
  destruct (timed_move_inv t Out s1 Hs1 I) as (u & s2 & E2 & Hs2). exists s2. split; [|split; [done|]].
  - unfold finish. by rewrite (bind_Done _ _ _ _ _ E), (bind_Done _ _ _ _ _ E2).
  - injection E2 as _ <-. exact Er.
Qed.

Lemma look_inv t c s : timed_inv t s -> position_of t s = Loop c -> steps_to t (look t c) s.
Proof.
  intros [Hinv Hp] Ht. rewrite Ht in Hp. cbn in Hp. unfold steps_to, look. rewrite bind_get.
  destruct (match c with Unlimited => true | Limited ms => 0 <=? ms end) eqn:Ec; [|by apply timed_move_inv].
  assert (running c) by (destruct c; cbn in *; [done|lia]).
  destruct (nodes s) as [|[k [it n]] l] eqn:En; apply timed_move_inv; try done; cbn; unfold first_or_set; rewrite En.
  - split; [done|]. by right.
  - split_and!; [done|by left|by right].
Qed.

Lemma decide_inv t c it s : timed_inv t s -> position_of t s = Peeked c it -> steps_to t (decide_ t c it) s.
Proof.
  intros [Hinv Hp] Ht. rewrite Ht in Hp. destruct Hp as (Hc & Hin & Hf). destruct (node_at_elem it _ Hin) as [e He].
  pose proof (node_clock it e s Hinv He) as Hr. pose proof (ti_now s Hinv) as Hn.
  unfold steps_to, decide_, deref, elapsed. rewrite bind_bind, bind_get, He, bind_ret, bind_get.
  destruct c as [|ms]; cbn in Hc.
  - rewrite bind_bind, bind_get. apply steps_lift with (a := now s - fst e); [apply int64_ok; lia|].
    apply steps_lift with (a := - (now s - fst e)); [apply int64_ok; lia|].
    destruct (Z.leb_spec (- (now s - fst e)) 0); apply timed_move_inv; try done; cbn; [exists e; split; [done|lia]|].
    split_and!; [done|lia|lia|lia|done|]. exists e. split; [done|lia].
  - apply steps_lift with (a := fst e - now s); [apply int64_ok; lia|].
    destruct (Z.leb_spec (fst e - now s) 0); [apply timed_move_inv; [done|]; exists e; split; [done|lia]|].
    apply steps_lift with (a := 1000 * ms); [apply int64_ok; lia|].
    destruct (fst e - now s <=? 1000 * ms); apply timed_move_inv; try done; cbn.
    split_and!; [lia..|done|]. exists e. split; [done|lia].
Qed.

Lemma block_inv t c s : timed_inv t s -> position_of t s = NoneDue c -> steps_to t (block t c) s.
Proof.
  intros [Hinv Hp] Ht. rewrite Ht in Hp. destruct Hp as [Hc Hb]. pose proof (ti_now s Hinv) as Hn.
  unfold steps_to, block. rewrite bind_get. destruct (match c with Unlimited => true | Limited ms => 0 <? ms end); apply timed_move_inv; try done.
  split_and!; [done|lia|lia|done].
Qed.

Lemma resume_inv t c b s : timed_inv t s -> position_of t s = Woken c b -> steps_to t (resume t c b) s.
Proof.
  intros [Hinv Hp] Ht. rewrite Ht in Hp. destruct Hp as [Hc Hb]. pose proof (ti_now s Hinv) as Hn.
  destruct c as [|ms]; [by apply timed_move_inv|]. cbn in Hc. unfold steps_to, resume, elapsed. rewrite bind_bind, bind_get.
  apply steps_lift with (a := now s - b); [apply int64_ok; lia|]. apply steps_lift with (a := now s - b + 999); [apply int64_ok; lia|].
  pose proof (Z.quot_pos (now s - b + 999) 1000) as Hq0. assert (Z.quot (now s - b + 999) 1000 <= 2 ^ 62) as Hq1.
  { rewrite Z.quot_div_nonneg by lia. apply Z.div_le_upper_bound; lia. }
  apply steps_lift with (a := ms - Z.quot (now s - b + 999) 1000); [apply int64_ok; lia|].
  apply timed_move_inv; [done|]. cbn. lia.
Qed.

Lemma wait_head_inv t c b it i s : timed_inv t s -> position_of t s = AtWait c b it i -> steps_to t (wait_head t c b it i) s.
Proof.
  intros [Hinv Hp] Ht. rewrite Ht in Hp. destruct Hp as (Hc & Hb & Hi & Hf & e & He & Hdue). pose proof (ti_now s Hinv) as Hn.
  unfold wait_head. destruct (Z.ltb_spec 0 i); [|apply timed_move_inv; [done|]; exists e; split; [done|lia]].
  assert ((if i <=? MAX_SLEEP then i else MAX_SLEEP) = Z.min i MAX_SLEEP) as -> by (destruct (Z.leb_spec i MAX_SLEEP); lia).
  unfold steps_to. rewrite bind_get.
  apply steps_lift with (a := Z.min i MAX_SLEEP + 999); [apply int64_ok; unfold MAX_SLEEP; lia|]. apply timed_move_inv; [done|].
  split_and!; [done|lia|lia|lia|lia|done|lia|lia| |by exists e].
  rewrite Z.quot_div_nonneg by (unfold MAX_SLEEP; lia). done.
Qed.

Lemma wait_again_run t c b it i st ms s : timed_inv t s -> position_of t s = InTryWait c b it i st ms ->
  exists s', wait_again t c b it i st s = (Done tt, s') /\ timed_inv t s' /\ position_of t s' = AtWait c b it (i - (now s - st))
    /\ nodes s' = nodes s /\ t_returned s' = t_returned s.
Proof.
  intros [Hinv Hp] Ht. rewrite Ht in Hp. destruct Hp as (Hc & Hb & Hi & Hf & Hst & _ & e & He & Hdue). pose proof (ti_now s Hinv) as Hn.
  destruct (timed_move_inv t (AtWait c b it (i - (now s - st))) s Hinv) as ([] & s' & E & Hs').
  { split_and!; [done|lia|lia|lia|done|]. exists e. split; [done|lia]. }
  exists s'. split_and!; [|done|..]; [|injection E as <-; try done..]; [|unfold position_of; cbn; by rewrite lookup_insert_eq].
  unfold wait_again, elapsed, lift. rewrite bind_bind, bind_get. rewrite (bind_Done _ _ _ (now s - st) s) by (by rewrite int64_ok by lia).
  rewrite (bind_Done _ _ _ (i - (now s - st)) s) by (by rewrite int64_ok by lia). exact E.
Qed.

Lemma awake_inv t c b s : timed_inv t s -> running c -> 0 <= b <= now s -> steps_to t (awake t c b) s.
Proof.
  intros [[] _] Hc Hb. unfold steps_to, awake. rewrite bind_get. unfold set_nodes. rewrite bind_modify. by apply timed_move_inv.
Qed.

Lemma tick_inv t d s : timed_inv t s -> now s + Z.of_nat d < 2 ^ 62 -> steps_to t (act (Tick d)) s.
Proof.
  intros [[Hwf Hc Hd Hn Hk] Hp] Hlt. eexists _, _. split; [reflexivity|]. split.
  - split; cbn; try done; [|lia]. eapply Forall_impl; [exact Hd|]. cbn. lia.
  - change (position_of t _) with (position_of t s). destruct (position_of t s) as [|k|k it|it|k b it i|k b it i st ms|k b|k|k b];
      cbn in *; unfold first_or_set in *; cbn in *; try tauto.
    + destruct Hp as (e & He & Hdue). exists e. split; [done|lia].
    + destruct Hp as (H1 & H2 & H3 & H4 & e & He & H5). split_and!; [done|lia..|done|]. exists e. split; [done|lia].
    + destruct Hp as (H1 & H2 & H3 & H4 & H5 & H6). split_and!; [done|lia|lia|lia|lia|done|lia|lia|apply H6..].
    + destruct Hp as (H1 & H2). split; [done|lia].
    + destruct Hp as (H1 & H2 & H3). split_and!; [done|lia..|done].
Qed.

Lemma steps_unit t m s : steps_to t m s -> steps_to t (unit_act m) s.
Proof. intros (r & s' & E & Hs'). exists None, s'. unfold unit_act. by rewrite (bind_Done _ _ _ _ _ E). Qed.

Lemma give_up_inv t s : timed_inv t s -> enabled (GiveUp t) s = true -> steps_to t (act (GiveUp t)) s.
Proof.
  intros Hinv He. cbn [enabled] in *. unfold steps_to, act. rewrite bind_get. destruct (position_of t s) as [| | | | |c b it i st ms| | |c b] eqn:Ep; try done.
  - apply steps_unit. destruct (wait_again_run t c b it i st ms s Hinv Ep) as (s' & E & Hs' & _). by exists tt, s'.
  - apply steps_unit, timed_move_inv; [apply Hinv|]. destruct Hinv as [_ Hp]. rewrite Ep in Hp. destruct Hp as (H1 & H2 & _). done.
Qed.

Lemma timed_awake_inv t s : timed_inv t s -> enabled (Awake t) s = true -> steps_to t (act (Awake t)) s.
Proof.
  intros Hinv He. cbn [enabled] in *. unfold steps_to, act. rewrite bind_get. pose proof (proj2 Hinv) as Hp.
  destruct (position_of t s) as [| | | | |c b it i st ms| | |c b] eqn:Ep; try done; apply steps_unit, awake_inv; try done; apply Hp.
Qed.

Lemma timed_act_inv t a s : timed_inv t s -> single t a = true -> enabled a s = true -> steps_to t (act a) s.
Proof.
  intros Hinv Hs He.
  destruct a as [n c|t'|t' c|t'|t'|t'|t'|t'|t'|t'|t'| |d]; cbn [single] in Hs; try (apply andb_prop in Hs as [Hs Hc]);
    try apply Nat.eqb_eq in Hs as ->; try done;
    try (by apply give_up_inv); try (by apply timed_awake_inv); try (apply tick_inv; [done|cbn in He; lia]);
    cbn [enabled] in *; unfold steps_to, act; rewrite bind_get; try (destruct (position_of t s) eqn:Ep; try done; []).
  - apply steps_unit, timed_enqueue_inv; [done|]. unfold clock_ok. lia.
  - by apply timed_dequeue_inv.
  - apply steps_unit, timed_move_inv; [apply Hinv|done].
  - by apply steps_unit, look_inv.
  - by apply steps_unit, decide_inv.
  - by apply steps_unit, block_inv.
  - by apply steps_unit, resume_inv.
  - pose proof (proj2 Hinv) as Hp. rewrite Ep in Hp. destruct Hp as (e & Hnode & _).
    destruct (finish_run t it e s Hinv Ep Hnode) as (s' & E & Hs' & _). exists (Some (snd e)), s'. by rewrite (bind_Done _ _ _ _ _ E).
  - by apply steps_unit, wait_head_inv.
Qed.

Lemma timed_reachable_inv t start s : 0 <= start < 2 ^ 62 -> Timed.reachable (single t) start s -> timed_inv t s.
Proof.
  intros Hst. induction 1 as [|s a r s' _ IH Ha He E].
  - split; [|done]. split; cbn; try done. split; [constructor|constructor|by intros it ?%not_elem_of_nil].
  - destruct (timed_act_inv t a s IH Ha He) as (r' & s2 & E2 & Hs2). rewrite E in E2. by injection E2 as _ ->.
Qed.

(** When the interval has passed, the wait ends with the notification. *)
Lemma wait_over t c b it i st ms s : timed_inv t s -> position_of t s = InTryWait c b it i st ms -> st + i <= now s ->
  exists e s1 s2 s3, node_at it (nodes s) = Some e /\ act (GiveUp t) s = (Done None, s1) /\ act (WaitHead t) s1 = (Done None, s2)
    /\ act (Finish t) s2 = (Done (Some (snd e)), s3) /\ t_returned s3 = t_returned s ++ [e].
Proof.
  intros Hinv Hp Hover. destruct (wait_again_run t c b it i st ms s Hinv Hp) as (s1 & E1 & H1 & P1 & N1 & R1).
  pose proof (proj2 H1) as Hok. rewrite P1 in Hok. destruct Hok as (_ & _ & _ & _ & e & He & Hdue).
  destruct (timed_move_inv t (Due it) s1 (proj1 H1)) as ([] & s2 & E2 & H2). { exists e. split; [done|lia]. }
  assert (position_of t s2 = Due it /\ nodes s2 = nodes s1 /\ t_returned s2 = t_returned s1) as (P2 & N2 & R2).
  { injection E2 as <-. split; [|done]. unfold position_of. cbn. by rewrite lookup_insert_eq. }
  destruct (finish_run t it e s2 H2 P2) as (s3 & E3 & _ & R3); [congruence|].
  exists e, s1, s2, s3. split_and!; [congruence|..|congruence].
  - unfold act. rewrite bind_get, Hp. unfold unit_act. by rewrite (bind_Done _ _ _ _ _ E1).
  - unfold act. rewrite bind_get, P1. unfold unit_act, wait_head. rewrite (proj2 (Z.ltb_ge _ _)) by lia. by rewrite (bind_Done _ _ _ _ _ E2).
  - unfold act. rewrite bind_get, P2. by rewrite (bind_Done _ _ _ _ _ E3).
Qed.

(** ** Claims *)

(** Executing a schedule, until it is stuck or undefined. *)
Fixpoint run_timed (l : list Timed.action) (s : TimedQueue) : res (option nat) * TimedQueue :=
  match l with
  | [] => (Done None, s)
  | a :: l => if enabled a s then match act a s with (Done _, s') => run_timed l s' | p => p end else (Eof, s)
  end.

Lemma run_timed_reachable allowed start l : forall s s' r,
  Timed.reachable allowed start s -> forallb allowed l = true -> run_timed l s = (Done r, s') ->
  Timed.reachable allowed start s'.
Proof.
  induction l as [|a l IH]; cbn [run_timed forallb]; intros s s' r Hs; [by intros _ [= _ <-]|].
  intros [Ha Hl]%andb_prop. destruct (enabled a s) eqn:He; [|done].
  destruct (act a s) as [[x| |e|] s1] eqn:E; try done. apply IH; [|done]. by eapply Timed.reach_step.
Qed.


(** The consumer waits for the notification of clock 2000, one of clock 1000
    comes in and is returned first, behind a tryWait that gave up too early. *)
Definition timed_demo : list Timed.action :=
  [Enter 1 Unlimited; Enqueue 7 2000; Look 1; Decide 1; WaitHead 1; Enqueue 8 1000; Awake 1; Resume 1; Look 1; Decide 1; WaitHead 1;
   Tick 900; GiveUp 1; WaitHead 1; Tick 100; GiveUp 1; WaitHead 1; Finish 1; Enter 1 (Limited 15); Look 1; Decide 1; WaitHead 1].


(** The steps of two consumers. *)
Definition consumers (a : Timed.action) : bool := single 1 a || single 2 a.

(** With two consuming threads the queue is not safe: both look at the
    first notification before one of them erases it, and the other then
    uses a dangling iterator; and as one event serves all threads, two
    notifications enqueued one after the other wake only one of the two
    threads that wait: the other sleeps while a due notification is queued
    and no other thread is in the queue. *)
Theorem timed_two_consumers :
  (exists l s, forallb consumers l = true /\ run_timed l (Timed.construct 0) = (UB, s))
  /\ exists l s, forallb consumers l = true /\ run_timed l (Timed.construct 0) = (Done None, s)
       /\ position_of 1 s = Out /\ position_of 2 s = Blocked Unlimited 0 /\ available s = false
       /\ map entry (nodes s) = [(0, 8%nat)] /\ now s = 0.
Proof.
  split.
  - exists [Enqueue 7 0; Enter 1 Unlimited; Enter 2 Unlimited; Look 1; Look 2; Decide 1; Finish 1; Decide 2]. eexists.
    split; [reflexivity|]. vm_compute. reflexivity.
  - exists [Enter 1 Unlimited; Enter 2 Unlimited; Look 1; Look 2; Block 1; Block 2; Enqueue 7 0; Enqueue 8 0; Awake 1; Resume 1; Look 1; Decide 1; Finish 1].
    eexists. split; [reflexivity|]. split; [vm_compute; reflexivity|]. vm_compute. done.
Qed.

(** One consumer is not safe either when another thread calls [clear]. *)
Example timed_clear :
  fst (run_timed [Enqueue 7 0; Enter 1 Unlimited; Look 1; Clear; Decide 1] (Timed.construct 0)) = UB.
Proof. vm_compute. reflexivity. Qed.

(** A time limit above 2^63/1000 milliseconds overflows. *)
Example timed_limit_overflow :
  fst (run_timed [Enqueue 7 1; Enter 1 (Limited (2 ^ 63 - 1)); Look 1; Decide 1] (Timed.construct 0)) = UB.
Proof. vm_compute. reflexivity. Qed.
