(* ===== verification/Glob.v ===== *)
(** Glob patterns: the matching part of Glob.cpp, over the characters that a
    TextIterator reads from UTF-8 strings.

    An iterator is the rest of its string.  [Unicode::toLower] looks
    characters up in the tables of the bundled pcre: it is a parameter. *)

From S2P Require Import Prelude Strings Encodings TextConv.

Local Open Scope Z_scope.
Local Open Scope res_scope.

Module Glob.
Section Glob.
Context (toLower : Z -> Z).

Record Glob_ := { _pattern : list Z; _options : Z }.

Definition GLOB_DOT_SPECIAL : Z := 0x01.
Definition GLOB_FOLLOW_SYMLINKS : Z := 0x02.
Definition GLOB_CASELESS : Z := 0x04.
Definition GLOB_DIRS_ONLY : Z := 0x80.

Definition has_option (g : Glob_) (o : Z) : bool := negb (Z.land (_options g) o =? 0).

(** A character as it is compared. *)
Definition fold_case (g : Glob_) (c : Z) : Z := if has_option g GLOB_CASELESS then toLower c else c.

(** [*it] and [++it] *)
Definition deref : list Z -> res Z := Iterator.deref UTF8.encoding.
Definition next : list Z -> res (list Z) := Iterator.next UTF8.encoding.

Definition at_end (it : list Z) : bool := match it with [] => true | _ => false end.

(** The loop of [matchSet] that looks for the closing bracket. *)
Fixpoint skip_set (fuel : nat) (itp : list Z) : res (list Z) :=
  if at_end itp then Raise SyntaxException
  else match fuel with
  | O => UB
  | S fuel =>
      let? ch := deref itp in
      if ch =? chr "]" then next itp
      else if ch =? 92 then
        let? itp := next itp in
        if at_end itp then Raise SyntaxException
        else let? itp := next itp in skip_set fuel itp
      else let? itp := next itp in skip_set fuel itp
  end.

(** One element of a set: a character, escaped or not, or a range. *)
Definition set_item (ch : Z) (itp : list Z) : res (Z * Z * list Z) :=
  (let? itp := if ch =? 92 then
                 let? itp := next itp in
                 if at_end itp then Raise SyntaxException else Done itp
               else Done itp in
   let? first := deref itp in
   let? itp := next itp in
   if at_end itp then Done (first, first, itp)
   else
     let? ch := deref itp in
     if ch =? chr "-" then
       let? itp := next itp in
       if at_end itp then Raise SyntaxException
       else
         let? last := deref itp in
         let? itp := next itp in
         Done (first, last, itp)
     else Done (first, first, itp)).

Fixpoint matchSet (g : Glob_) (fuel : nat) (itp : list Z) (c : Z) : res (bool * list Z) :=
  if at_end itp then Done (false, itp)
  else match fuel with
  | O => UB
  | S fuel =>
      let? ch := deref itp in
      if ch =? chr "]" then let? itp := next itp in Done (false, itp)
      else
        let? item := set_item ch itp in
        let '(first, last, itp) := item in
        if (fold_case g first <=? c) && (c <=? fold_case g last) then
          let? itp := skip_set (length itp) itp in Done (true, itp)
        else matchSet g fuel itp c
  end.

(** The asterisks at the end of a pattern when the subject has ended. *)
Fixpoint skip_stars (fuel : nat) (itp : list Z) : res (list Z) :=
  if at_end itp then Done itp
  else match fuel with
  | O => UB
  | S fuel =>
      let? ch := deref itp in
      if ch =? chr "*" then let? itp := next itp in skip_stars fuel itp else Done itp
  end.

(** [match(itp, endp, its, ends)]; [star] is the loop behind an asterisk,
    whose calls of [matchAfterAsterisk] work on copies of the iterators. *)
Fixpoint match_ (g : Glob_) (fuel : nat) (itp its : list Z) : res bool :=
  if at_end itp then Done (at_end its)
  else if at_end its then
    let? itp := skip_stars (length itp) itp in Done (at_end itp)
  else match fuel with
  | O => UB
  | S fuel =>
      let? p := deref itp in
      if p =? chr "?" then
        let? itp := next itp in let? its := next its in match_ g fuel itp its
      else if p =? chr "*" then
        let? itp := next itp in
        if at_end itp then Done true
        else
          (fix star (n : nat) (its : list Z) : res bool :=
             if at_end its then Done false
             else match n with
             | O => UB
             | S n =>
                 let? m := match_ g fuel itp its in
                 if m then Done true else let? its := next its in star n its
             end) (length its) its
      else if p =? chr "[" then
        let? itp := next itp in
        if at_end itp then Raise SyntaxException
        else
          let? p := deref itp in
          let invert := p =? chr "!" in
          let? itp := if invert then next itp else Done itp in
          if at_end itp then Raise SyntaxException
          else
            let? c := deref its in
            let? its := next its in
            let? r := matchSet g (length itp) itp (fold_case g c) in
            let '(mtch, itp) := r in
            if (invert && mtch) || (negb invert && negb mtch) then Done false
            else match_ g fuel itp its
      else
        let? itp := if p =? 92 then
                      let? itp := next itp in
                      if at_end itp then Raise SyntaxException else Done itp
                    else Done itp in
        let? p := deref itp in
        let? c := deref its in
        if negb (fold_case g p =? fold_case g c) then Done false
        else let? itp := next itp in let? its := next its in match_ g fuel itp its
  end.

(** [match(subject)] *)
Definition match_subject (g : Glob_) (subject : list Z) : res bool :=
  (let? hidden :=
     if has_option g GLOB_DOT_SPECIAL && negb (at_end subject) then
       let? c := deref subject in
       if c =? chr "." then
         let? p := deref (_pattern g) in
         Done ((p =? chr "?") || (p =? chr "*"))
       else Done false
     else Done false in
   if hidden then Done false
   else match_ g (length (_pattern g)) (_pattern g) subject).
End Glob.
End Glob.
