(* ===== verification/GlobFacts.v ===== *)
(** Glob::match against the meaning of patterns.

    [pattern_text p ts]: the characters [p] spell the tokens [ts];
    [matches ts s]: the tokens match the characters [s].  The backtracking
    matcher decides [matches] for every pattern of the grammar, and ends with
    a truth value or SyntaxException for every other one. *)

From S2P Require Import Prelude Strings Encodings TextConv EncodingFacts Glob.
From stdpp Require Import list.

Local Open Scope Z_scope.
Local Open Scope res_scope.
Import Glob.

(** ** Characters of a text *)
Local Abbreviation T := (text UTF8.encoding).

Lemma T_cons_bytes c l : scalar c -> exists b r, T (c :: l) = b :: r.
Proof.
  intros Hc. unfold text. cbn [map concat]. pose proof (enc_length (E := UTF8.encoding) c Hc).
  destruct (enc UTF8.encoding c) as [|b r]; [simpl in *; lia|]. by exists b, (r ++ concat (map (enc UTF8.encoding) l)).
Qed.

Lemma at_end_T l : Forall scalar l -> at_end (T l) = match l with [] => true | _ => false end.
Proof. destruct 1 as [|c l Hc _]; [done|]. by destruct (T_cons_bytes c l Hc) as (b & r & ->). Qed.

Lemma at_end_cons c l : scalar c -> at_end (T (c :: l)) = false.
Proof. intros Hc. by destruct (T_cons_bytes c l Hc) as (b & r & ->). Qed.

Lemma deref_T c l : scalar c -> deref (T (c :: l)) = Done c.
Proof. apply deref_enc. Qed.

Lemma next_T c l : scalar c -> next (T (c :: l)) = Done (T l).
Proof. apply next_enc. Qed.

Lemma T_fuel l : Forall scalar l -> (length l <= length (T l))%nat.
Proof. apply text_length. Qed.

(** The next character of a text is read. *)
Ltac read_one := repeat first [rewrite at_end_cons by assumption | rewrite deref_T by assumption
  | rewrite next_T by assumption | progress cbn [rbind negb andb orb]].

(** ** The grammar of patterns and its meaning *)
Inductive token := One | Star | Lit (c : Z) | Class_ (invert : bool) (items : list (Z * Z)).

(** The first character of an element of a set. *)
Definition first_text (f : list Z) (c : Z) : Prop := (f = [c] /\ c <> chr "]" /\ c <> 92) \/ f = [92; c].

Inductive set_text : list Z -> list (Z * Z) -> Prop :=
| set_close : set_text [chr "]"] []
| set_char f c rest items :
    first_text f c -> head rest <> Some (chr "-") -> set_text rest items -> set_text (f ++ rest) ((c, c) :: items)
| set_range f a b rest items :
    first_text f a -> b <> chr "]" -> b <> 92 -> set_text rest items ->
    set_text (f ++ chr "-" :: b :: rest) ((a, b) :: items).

Inductive pattern_text : list Z -> list token -> Prop :=
| pt_nil : pattern_text [] []
| pt_one p ts : pattern_text p ts -> pattern_text (chr "?" :: p) (One :: ts)
| pt_star p ts : pattern_text p ts -> pattern_text (chr "*" :: p) (Star :: ts)
| pt_lit c p ts : c <> chr "?" -> c <> chr "*" -> c <> chr "[" -> c <> 92 -> pattern_text p ts -> pattern_text (c :: p) (Lit c :: ts)
| pt_escape c p ts : pattern_text p ts -> pattern_text (92 :: c :: p) (Lit c :: ts)
| pt_class s items p ts : set_text s items -> head s <> Some (chr "!") -> pattern_text p ts ->
    pattern_text (chr "[" :: s ++ p) (Class_ false items :: ts)
| pt_class_not s items p ts : set_text s items -> pattern_text p ts ->
    pattern_text (chr "[" :: chr "!" :: s ++ p) (Class_ true items :: ts).

Section Meaning.
Context (fold : Z -> Z).

Definition in_class (items : list (Z * Z)) (c : Z) : bool :=
  existsb (fun ab => (fold (fst ab) <=? fold c) && (fold c <=? fold (snd ab))) items.

Inductive matches : list token -> list Z -> Prop :=
| m_end : matches [] []
| m_one ts c s : matches ts s -> matches (One :: ts) (c :: s)
| m_skip ts s : matches ts s -> matches (Star :: ts) s
| m_more ts c s : matches (Star :: ts) s -> matches (Star :: ts) (c :: s)
| m_lit ts p c s : fold p = fold c -> matches ts s -> matches (Lit p :: ts) (c :: s)
| m_class ts invert items c s : in_class items c = negb invert -> matches ts s -> matches (Class_ invert items :: ts) (c :: s).

Lemma matches_star ts s : matches (Star :: ts) s <-> exists a b, s = a ++ b /\ matches ts b.
Proof.
  split.
  - remember (Star :: ts) as us eqn:Eu. intros H. revert Eu. induction H; intros [= ->]; [by exists [], s|].
    destruct (IHmatches eq_refl) as (a & b & -> & Hb). by exists (c :: a), b.
  - intros (a & b & -> & Hb). induction a as [|c a IH]; [by apply m_skip|by apply m_more].
Qed.

(** What matches the empty text, behind something, matches any text. *)
Lemma matches_nil_any t ts s : matches (t :: ts) [] -> matches (t :: ts) s.
Proof.
  revert t. induction ts as [|u ts IH]; intros t H; inversion H as [| |? ? H1| | |]; subst; apply matches_star.
  - exists s, []. by rewrite app_nil_r.
  - exists [], s. split; [done|]. by apply IH.
Qed.

Lemma matches_one ts c s : matches (One :: ts) (c :: s) <-> matches ts s.
Proof. split; [by inversion 1|by constructor]. Qed.

Lemma matches_lit p ts c s : matches (Lit p :: ts) (c :: s) <-> fold p = fold c /\ matches ts s.
Proof. split; [by inversion 1|by intros []; constructor]. Qed.

Lemma matches_class invert items ts c s :
  matches (Class_ invert items :: ts) (c :: s) <-> in_class items c = negb invert /\ matches ts s.
Proof. split; [by inversion 1|by intros []; constructor]. Qed.

(** A result that decides whether the tokens match. *)
Definition decides (r : res bool) (ts : list token) (s : list Z) : Prop :=
  exists b, r = Done b /\ (b = true <-> matches ts s).

Lemma decides_iff r ts s ts' s' : decides r ts s -> (matches ts' s' <-> matches ts s) -> decides r ts' s'.
Proof. intros (b & E & Hb) Hiff. exists b. split; [done|]. by rewrite Hiff. Qed.

Lemma decides_false ts s : (matches ts s -> False) -> decides (Done false) ts s.
Proof. intros Hno. exists false. split; [done|]. split; [done|]. by intros ?%Hno. Qed.
End Meaning.

(** ** Sets *)
Section Match.
Context (toLower : Z -> Z) (g : Glob_).
Local Abbreviation fold := (fold_case toLower g).

Lemma skip_set_run s items r fuel :
  set_text s items -> Forall scalar (s ++ r) -> (length s <= fuel)%nat -> skip_set fuel (T (s ++ r)) = Done (T r).
Proof.
  intros Hs. revert fuel. induction Hs as [|f c rest items Hf _ Hs IH|f a b rest items Hf Hb1 Hb2 Hs IH]; intros fuel Hsc Hl.
  - apply Forall_cons in Hsc as [Hc _]. destruct fuel; [simpl in Hl; lia|]. cbn [skip_set app]. by read_one.
  - destruct Hf as [(-> & H1 & H2)| ->]; cbn [app] in *.
    + apply Forall_cons in Hsc as [Hc Hsc]. destruct fuel; [simpl in Hl; lia|]. cbn [skip_set]. read_one.
      rewrite (proj2 (Z.eqb_neq _ _) H1), (proj2 (Z.eqb_neq _ _) H2). apply IH; [done|simpl in Hl; lia].
    + apply Forall_cons in Hsc as [Hc Hsc]. apply Forall_cons in Hsc as [Hc' Hsc].
      destruct fuel; [simpl in Hl; lia|]. cbn [skip_set]. read_one. change (92 =? chr "]") with false. cbn [Z.eqb Pos.eqb].
      read_one. apply IH; [done|simpl in Hl; lia].
  - assert (Hmid : forall fuel', (2 + length rest <= fuel')%nat -> Forall scalar (chr "-" :: b :: rest ++ r) ->
      skip_set fuel' (T (chr "-" :: b :: rest ++ r)) = Done (T r)).
    { intros [|[|fuel']] Hl' Hsc'; [lia|lia|]. apply Forall_cons in Hsc' as [Hd Hsc']. apply Forall_cons in Hsc' as [Hsb Hsc'].
      cbn [skip_set]. read_one. change (chr "-" =? chr "]") with false. change (chr "-" =? 92) with false. cbn iota.
      read_one. rewrite (proj2 (Z.eqb_neq _ _) Hb1), (proj2 (Z.eqb_neq _ _) Hb2). apply IH; [done|lia]. }
    destruct Hf as [(-> & H1 & H2)| ->]; cbn [app] in *.
    + apply Forall_cons in Hsc as [Hc Hsc]. destruct fuel; [simpl in Hl; lia|]. cbn [skip_set]. read_one.
      rewrite (proj2 (Z.eqb_neq _ _) H1), (proj2 (Z.eqb_neq _ _) H2). apply Hmid; [simpl in Hl; lia|done].
    + apply Forall_cons in Hsc as [Hc Hsc]. apply Forall_cons in Hsc as [Hc' Hsc].
      destruct fuel; [simpl in Hl; lia|]. cbn [skip_set]. read_one. change (92 =? chr "]") with false. cbn [Z.eqb Pos.eqb].
      read_one. apply Hmid; [simpl in Hl; lia|done].
Qed.

(** An element begins with [f]; what the code does with the text [rest] behind it. *)
Definition item_rest (first : Z) (itp : list Z) : res (Z * Z * list Z) :=
  if at_end itp then Done (first, first, itp)
  else
    let? ch := deref itp in
    if ch =? chr "-" then
      let? itp := next itp in
      if at_end itp then Raise SyntaxException
      else let? last := deref itp in let? itp := next itp in Done (first, last, itp)
    else Done (first, first, itp).

Lemma set_item_first f c rest :
  first_text f c -> Forall scalar (f ++ rest) -> rest <> [] ->
  exists ch, deref (T (f ++ rest)) = Done ch /\ at_end (T (f ++ rest)) = false /\ ch <> chr "]"
    /\ set_item ch (T (f ++ rest)) = item_rest c (T rest).
Proof.
  intros Hf Hsc Hne. destruct Hf as [(-> & H1 & H2)| ->]; cbn [app] in *.
  - apply Forall_cons in Hsc as [Hc Hsc]. exists c. read_one. split_and!; try done.
    unfold set_item. rewrite (proj2 (Z.eqb_neq _ _) H2). by read_one.
  - apply Forall_cons in Hsc as [Hc Hsc]. apply Forall_cons in Hsc as [Hc' Hsc]. exists 92. read_one. split_and!; try done.
    unfold set_item. cbn [Z.eqb Pos.eqb]. by read_one.
Qed.

Lemma set_text_cons s items : set_text s items -> exists c r, s = c :: r.
Proof. destruct 1 as [|? ? ? ? [(-> & _)| ->]|? ? ? ? ? [(-> & _)| ->]]; cbn; eauto. Qed.

Lemma matchSet_run s items r fuel c :
  set_text s items -> Forall scalar (s ++ r) -> (length s <= fuel)%nat ->
  matchSet toLower g fuel (T (s ++ r)) (fold c) = Done (in_class fold items c, T r).
Proof.
  intros Hs. revert fuel. induction Hs as [|f a rest items Hf Hd Hs IH|f a b rest items Hf Hb1 Hb2 Hs IH]; intros fuel Hsc Hl.
  - apply Forall_cons in Hsc as [Hc _]. destruct fuel; [simpl in Hl; lia|]. cbn [matchSet app]. by read_one.
  - rewrite <-app_assoc in *. destruct (set_text_cons _ _ Hs) as (d & rest' & Erest).
    destruct (set_item_first f a (rest ++ r) Hf Hsc) as (ch & E1 & E2 & Hch & E3); [by rewrite Erest|].
    assert (Hlf : (0 < length f)%nat) by (destruct Hf as [(-> & _)| ->]; cbn; lia). rewrite length_app in Hl.
    apply Forall_app in Hsc as [_ Hsc]. destruct fuel as [|fuel]; [lia|]. cbn [matchSet].
    rewrite E2, E1. cbn [rbind]. rewrite (proj2 (Z.eqb_neq _ _) Hch), E3. unfold item_rest.
    assert (Hsd : scalar d) by (rewrite Erest in Hsc; by apply Forall_cons in Hsc as [? _]).
    assert (E4 : at_end (T (rest ++ r)) = false) by (rewrite Erest; by apply at_end_cons).
    assert (E5 : deref (T (rest ++ r)) = Done d) by (rewrite Erest; by apply deref_T).
    rewrite E4, E5. cbn [rbind]. rewrite Erest in Hd. cbn in Hd. destruct (Z.eqb_spec d (chr "-")) as [->|_]; [done|].
    cbn [rbind]. unfold in_class. cbn [existsb fst snd]. destruct (_ && _) eqn:Em; cbn [orb].
    + rewrite (skip_set_run rest items r) by (done || (pose proof (T_fuel (rest ++ r) Hsc); rewrite length_app in *; lia)). done.
    + rewrite IH by (done || lia). done.
  - rewrite <-app_assoc in *. cbn [app] in *.
    destruct (set_item_first f a (chr "-" :: b :: rest ++ r) Hf Hsc ltac:(done)) as (ch & E1 & E2 & Hch & E3).
    assert (Hlf : (0 < length f)%nat) by (destruct Hf as [(-> & _)| ->]; cbn; lia). rewrite length_app in Hl.
    apply Forall_app in Hsc as [_ Hsc]. apply Forall_cons in Hsc as [Hd Hsc]. apply Forall_cons in Hsc as [Hsb Hsc].
    destruct fuel as [|fuel]; [lia|]. cbn [matchSet].
    rewrite E2, E1. cbn [rbind]. rewrite (proj2 (Z.eqb_neq _ _) Hch), E3. unfold item_rest. read_one. rewrite Z.eqb_refl. read_one.
    unfold in_class. cbn [existsb fst snd]. destruct (_ && _) eqn:Em; cbn [orb].
    + rewrite (skip_set_run rest items r) by (done || (pose proof (T_fuel (rest ++ r) Hsc); rewrite length_app in *; lia)). done.
    + rewrite IH by (done || (simpl in Hl; lia)). done.
Qed.

(** ** Matching *)

(** When the subject has ended only asterisks may be left. *)
Lemma skip_stars_run p ts fuel :
  pattern_text p ts -> Forall scalar p -> (length p <= fuel)%nat ->
  exists b, (let? itp := skip_stars fuel (T p) in Done (at_end itp)) = Done b /\ (b = true <-> matches fold ts []).
Proof.
  intros Hp. revert fuel.
  assert (Hstop : forall c q t us fuel, scalar c -> c <> chr "*" -> (forall us, matches fold (t :: us) [] -> False) ->
    (length (c :: q) <= fuel)%nat ->
    exists b, (let? itp := skip_stars fuel (T (c :: q)) in Done (at_end itp)) = Done b /\ (b = true <-> matches fold (t :: us) [])).
  { intros c q t us fuel Hc Hne Hno Hl. destruct fuel; [simpl in Hl; lia|]. cbn [skip_stars]. read_one.
    rewrite (proj2 (Z.eqb_neq _ _) Hne). read_one. exists false. split; [done|]. split; [done|]. by intros ?%Hno. }
  induction Hp as [|p ts Hp IH|p ts Hp IH|c p ts H1 H2 H3 H4 Hp IH|c p ts Hp IH|s items p ts Hs Hh Hp IH|s items p ts Hs Hp IH];
    intros fuel Hsc Hl; try (apply Forall_cons in Hsc as [Hc Hsc]; apply Hstop; try done; by inversion 1).
  - exists true. destruct fuel; cbn; (split; [done|]; split; [by constructor|done]).
  - apply Forall_cons in Hsc as [Hc Hsc]. destruct fuel as [|fuel]; [simpl in Hl; lia|]. cbn [skip_stars]. read_one.
    rewrite Z.eqb_refl. read_one. destruct (IH fuel Hsc ltac:(simpl in Hl; lia)) as (b & E & Hb). exists b. split; [exact E|].
    rewrite Hb. split; [by apply m_skip|]. intros H. by inversion H.
Qed.

(** The loop behind an asterisk tries the suffixes of the subject. *)
Definition star (fuel : nat) (itp : list Z) :=
  (fix star (n : nat) (its : list Z) : res bool :=
     if at_end its then Done false
     else match n with
     | O => UB
     | S n =>
         let? m := match_ toLower g fuel itp its in
         if m then Done true else let? its := next its in star n its
     end).

Lemma star_run fuel itp (P : list Z -> Prop) s :
  Forall scalar s -> (forall s', Forall scalar s' -> exists b, match_ toLower g fuel itp (T s') = Done b /\ (b = true <-> P s')) ->
  forall n, (length s <= n)%nat ->
  exists b, star fuel itp n (T s) = Done b /\ (b = true <-> exists a c r, s = a ++ c :: r /\ P (c :: r)).
Proof.
  intros Hs Hm. induction Hs as [|c s Hc Hs IH]; intros n Hn.
  - exists false. split; [by destruct n|]. split; [done|]. intros (a & c & r & E & _). by destruct a.
  - destruct n as [|n]; [simpl in Hn; lia|]. cbn [star]. rewrite at_end_cons by done.
    destruct (Hm (c :: s)) as (b & E & Hb); [by constructor|]. cbn beta iota. rewrite E. cbn [rbind]. destruct b.
    + exists true. split; [done|]. split; [|done]. intros _. exists [], c, s. split; [done|]. by apply Hb.
    + rewrite next_T by done. cbn [rbind]. destruct (IH n ltac:(simpl in Hn; lia)) as (b' & E' & Hb'). exists b'. split; [exact E'|].
      rewrite Hb'. split.
      * intros (a & c' & r & -> & HP). by exists (c :: a), c', r.
      * intros ([|c0 a] & c' & r & E0 & HP); injection E0 as -> ->; [by apply Hb in HP|]. by exists a, c', r.
Qed.

(** A set that is read, with what its first character decided. *)
Lemma class_step invert items p ts d s fuel :
  decides fold (match_ toLower g fuel (T p) (T s)) ts s ->
  decides fold (if (invert && in_class fold items d) || (negb invert && negb (in_class fold items d)) then Done false
    else match_ toLower g fuel (T p) (T s)) (Class_ invert items :: ts) (d :: s).
Proof.
  intros IH. destruct ((invert && in_class fold items d) || _) eqn:Ec.
  - apply decides_false. rewrite matches_class. intros [E _]. rewrite E in Ec. by destruct invert.
  - apply (decides_iff _ _ _ _ _ _ IH). rewrite matches_class. split; [by intros []|]. split; [|done].
    by destruct invert, (in_class fold items d).
Qed.

(** A character that has to be the same. *)
Lemma literal_step c p ts d s fuel :
  decides fold (match_ toLower g fuel (T p) (T s)) ts s ->
  decides fold (if negb (fold c =? fold d) then Done false else match_ toLower g fuel (T p) (T s)) (Lit c :: ts) (d :: s).
Proof.
  intros IH. destruct (Z.eqb_spec (fold c) (fold d)) as [E|Hne]; cbn [negb].
  - apply (decides_iff _ _ _ _ _ _ IH). rewrite matches_lit. naive_solver.
  - apply decides_false. rewrite matches_lit. naive_solver.
Qed.

(** Behind an asterisk. *)
Lemma star_step p ts d s fuel :
  pattern_text p ts -> Forall scalar p -> Forall scalar (d :: s) ->
  (forall s', Forall scalar s' -> decides fold (match_ toLower g fuel (T p) (T s')) ts s') ->
  decides fold (if at_end (T p) then Done true else star fuel (T p) (length (T (d :: s))) (T (d :: s))) (Star :: ts) (d :: s).
Proof.
  intros Hp Hsc Hs IH. rewrite at_end_T by done. destruct p as [|c p].
  - exists true. split; [done|]. split; [|done]. intros _. inversion Hp; subst. apply matches_star. exists (d :: s), [].
    split; [by rewrite app_nil_r|constructor].
  - destruct (star_run fuel (T (c :: p)) (matches fold ts) (d :: s) Hs IH _ (T_fuel _ Hs)) as (b & E & Hb).
    exists b. split; [exact E|]. rewrite Hb, matches_star. split.
    + intros (a & c' & r & E' & HP). by exists a, (c' :: r).
    + intros (a & [|c' r] & E' & HP); [|by exists a, c', r]. destruct ts as [|t ts]; [by inversion Hp|].
      exists [], d, s. split; [done|]. by apply matches_nil_any.
Qed.

(** The characters of the grammar are told apart. *)
Ltac which_char := repeat match goal with
  | H : ?c <> ?x |- context [?c =? ?x] => rewrite (proj2 (Z.eqb_neq c x) H)
  | |- context [?c =? ?x] => let b := eval vm_compute in (c =? x) in
      match b with true => idtac | false => idtac end; change (c =? x) with b
  end; cbn iota.

Lemma match_run p ts : pattern_text p ts -> Forall scalar p ->
  forall fuel s, Forall scalar s -> (length p <= fuel)%nat -> decides fold (match_ toLower g fuel (T p) (T s)) ts s.
Proof.
  intros Hp0. pose proof Hp0 as Hp.
  induction Hp as [|p ts Hp IH|p ts Hp IH|c p ts H1 H2 H3 H4 Hp IH|c p ts Hp IH|s0 items p ts Hs0 Hh Hp IH|s0 items p ts Hs0 Hp IH];
    intros Hsc fuel s Hs Hl.
  1: { exists (at_end (T s)). split; [by destruct fuel|]. rewrite at_end_T by done.
       destruct s; split; try done; [constructor|by inversion 1]. }
  all: destruct fuel as [|fuel]; [simpl in Hl; lia|]; pose proof Hsc as Hsc0; apply Forall_cons in Hsc as [Hc Hsc];
    cbn [match_]; rewrite at_end_cons by done; pose proof Hs as Hs1; destruct Hs as [|d s Hd Hs];
    [change (at_end (T [])) with true; cbn iota; apply skip_stars_run; [done|done|by apply T_fuel]|];
    read_one; which_char; read_one; simpl in Hl.
  - apply (decides_iff _ _ _ _ _ _ (IH Hp Hsc fuel s Hs ltac:(lia))), matches_one.
  - apply star_step; try done. intros s' Hs'. apply (IH Hp Hsc); [done|lia].
  - apply literal_step, (IH Hp Hsc); [done|lia].
  - apply Forall_cons in Hsc as [Hc' Hsc]. read_one.
    apply literal_step, (IH Hp Hsc); [done|lia].
  - destruct (set_text_cons _ _ Hs0) as (c0 & r0 & E0). pose proof Hsc as Hsp. apply Forall_app in Hsp as [_ Hsp].
    assert (E1 : at_end (T (s0 ++ p)) = false) by (rewrite E0 in *; apply at_end_cons; by apply Forall_cons in Hsc as [? _]).
    assert (E2 : deref (T (s0 ++ p)) = Done c0) by (rewrite E0 in *; apply deref_T; by apply Forall_cons in Hsc as [? _]).
    rewrite E1, E2. cbn [rbind]. rewrite E0 in Hh. cbn in Hh. destruct (Z.eqb_spec c0 (chr "!")) as [->|_]; [done|]. cbn [rbind].
    rewrite E1. read_one. rewrite (matchSet_run s0 items p) by (done || (pose proof (T_fuel _ Hsc); rewrite length_app in *; lia)).
    cbn [rbind]. apply (class_step false), (IH Hp Hsp); [done|rewrite length_app in Hl; lia].
  - apply Forall_cons in Hsc as [Hc' Hsc]. pose proof Hsc as Hsp. apply Forall_app in Hsp as [_ Hsp].
    destruct (set_text_cons _ _ Hs0) as (c0 & r0 & E0).
    assert (E1 : at_end (T (s0 ++ p)) = false) by (rewrite E0 in *; apply at_end_cons; by apply Forall_cons in Hsc as [? _]).
    read_one. which_char. read_one. rewrite E1. read_one.
    rewrite (matchSet_run s0 items p) by (done || (pose proof (T_fuel _ Hsc); rewrite length_app in *; lia)).
    cbn [rbind]. apply (class_step true), (IH Hp Hsp); [done|rewrite length_app in Hl; lia].
Qed.

(** ** Patterns outside the grammar *)

(** A value, or a syntax error; never undefined, never out of fuel. *)
Definition calm {A} (Q : A -> Prop) (r : res A) : Prop := r = Raise SyntaxException \/ exists a, r = Done a /\ Q a.

Lemma calm_bind {A B} (P : A -> Prop) (Q : B -> Prop) (m : res A) (k : A -> res B) :
  calm P m -> (forall a, P a -> calm Q (k a)) -> calm Q (let? a := m in k a).
Proof. intros [->|(a & -> & Ha)] Hk; [by left|by apply Hk]. Qed.

Lemma calm_done {A} (Q : A -> Prop) a : Q a -> calm Q (Done a).
Proof. right. eauto. Qed.

Lemma calm_syntax {A} (Q : A -> Prop) : calm Q (Raise SyntaxException).
Proof. by left. Qed.

(** An iterator behind at least [n] characters of [l]. *)
Definition behind (n : nat) (l it : list Z) : Prop := exists l', it = T l' /\ Forall scalar l' /\ (length l' + n <= length l)%nat.

Lemma calm_skip_set l : forall fuel, Forall scalar l -> (length l <= fuel)%nat -> calm (behind 1 l) (skip_set fuel (T l)).
Proof.
  induction l as [l IH] using (induction_ltof1 _ (@length Z)). intros fuel Hsc Hl.
  destruct Hsc as [|c l Hc Hsc]; [destruct fuel; by left|]. destruct fuel as [|fuel]; [simpl in Hl; lia|]. simpl in Hl.
  assert (Hweak : forall l1 it, (length l1 <= length l)%nat -> behind 1 l1 it -> behind 1 (c :: l) it).
  { intros l1 it Hl1 (l' & -> & Hl' & Hlen). exists l'. split_and!; [done|done|]. simpl. lia. }
  assert (Hrec : forall l1, (length l1 <= length l)%nat -> Forall scalar l1 -> calm (behind 1 (c :: l)) (skip_set fuel (T l1))).
  { intros l1 Hl1 Hs1. destruct (IH l1 ltac:(unfold ltof; simpl; lia) fuel Hs1 ltac:(lia)) as [->|(a & -> & Ha)]; [by left|].
    right. exists a. split; [done|]. by apply (Hweak l1). }
  cbn [skip_set]. read_one. destruct (c =? chr "]"); [|destruct (c =? 92); read_one].
  - read_one. apply calm_done. exists l. split_and!; [done|done|simpl; lia].
  - rewrite at_end_T by done. destruct Hsc as [|d l Hd Hsc]; [by left|]. read_one. apply Hrec; [simpl; lia|done].
  - by apply Hrec.
Qed.

Lemma calm_set_item c l : Forall scalar (c :: l) -> calm (fun r => behind 1 (c :: l) (snd r)) (set_item c (T (c :: l))).
Proof.
  intros Hsc. unfold set_item.
  assert (Hpos : calm (fun it => exists d r, it = T (d :: r) /\ Forall scalar (d :: r) /\ (length (d :: r) <= length (c :: l))%nat)
    (if c =? 92 then let? itp := next (T (c :: l)) in if at_end itp then Raise SyntaxException else Done itp else Done (T (c :: l)))).
  { pose proof Hsc as [Hc Hsl]%Forall_cons. destruct (c =? 92); [|apply calm_done; by exists c, l]. read_one.
    rewrite at_end_T by done. destruct l as [|d l]; [by left|]. apply calm_done. exists d, l. split_and!; [done|done|simpl; lia]. }
  eapply calm_bind; [exact Hpos|]. intros it (d & r & -> & [Hd Hr]%Forall_cons & Hlen). simpl in Hlen. read_one.
  rewrite at_end_T by done. destruct Hr as [|e r He Hr].
  { apply calm_done. exists []. split_and!; [done|done|simpl; lia]. }
  read_one. destruct (e =? chr "-").
  - read_one. rewrite at_end_T by done. destruct Hr as [|f r Hf Hr]; [by left|]. read_one. apply calm_done.
    exists r. split_and!; [done|done|simpl in *; lia].
  - apply calm_done. exists (e :: r). split_and!; [done|by constructor|simpl in *; lia].
Qed.

Lemma calm_matchSet l : forall fuel c, Forall scalar l -> (length l <= fuel)%nat ->
  calm (fun r => behind 0 l (snd r)) (matchSet toLower g fuel (T l) c).
Proof.
  induction l as [l IH] using (induction_ltof1 _ (@length Z)). intros fuel c Hsc Hl. pose proof Hsc as Hsc0.
  destruct Hsc as [|d l Hd Hsc]; [destruct fuel; apply calm_done; exists []; by split_and!|].
  destruct fuel as [|fuel]; [simpl in Hl; lia|]. simpl in Hl. cbn [matchSet]. read_one. destruct (d =? chr "]").
  { read_one. apply calm_done. exists l. split_and!; [done|done|simpl; lia]. }
  eapply calm_bind; [by apply calm_set_item|]. intros [[a b] it] (l' & E & Hl' & Hlen). cbn in E. subst it. simpl in Hlen. destruct (_ && _).
  - eapply calm_bind; [apply calm_skip_set; [done|by apply T_fuel]|]. intros it (l2 & -> & Hl2 & Hlen2).
    apply calm_done. exists l2. split_and!; [done|done|simpl; lia].
  - destruct (IH l' ltac:(unfold ltof; simpl; lia) fuel c Hl' ltac:(lia)) as [->|(r & -> & l2 & E & Hl2 & Hlen2)]; [by left|].
    right. exists r. split; [done|]. exists l2. split_and!; [done|done|simpl; lia].
Qed.

Lemma calm_skip_stars l : forall fuel, Forall scalar l -> (length l <= fuel)%nat -> calm (fun _ => True) (skip_stars fuel (T l)).
Proof.
  induction l as [|c l IH]; intros fuel Hsc Hl; [destruct fuel; by apply calm_done|].
  apply Forall_cons in Hsc as [Hc Hsc]. destruct fuel as [|fuel]; [simpl in Hl; lia|]. simpl in Hl. cbn [skip_stars]. read_one.
  destruct (_ =? _); [|by apply calm_done]. read_one. apply IH; [done|lia].
Qed.

Lemma calm_star fuel itp s n :
  Forall scalar s -> (length s <= n)%nat -> (forall s', Forall scalar s' -> calm (fun _ => True) (match_ toLower g fuel itp (T s'))) ->
  calm (fun _ => True) (star fuel itp n (T s)).
Proof.
  intros Hs Hn Hm. revert n Hn. induction Hs as [|c s Hc Hs IH]; intros n Hn; [destruct n; by apply calm_done|].
  destruct n as [|n]; [simpl in Hn; lia|]. cbn [star]. rewrite at_end_cons by done.
  eapply calm_bind; [apply Hm; by constructor|]. intros [] _; [by apply calm_done|]. read_one. apply IH. simpl in Hn. lia.
Qed.

Lemma calm_match fuel : forall p s, Forall scalar p -> Forall scalar s -> (length p <= fuel)%nat ->
  calm (fun _ => True) (match_ toLower g fuel (T p) (T s)).
Proof.
  induction fuel as [|fuel IH]; intros p s Hp Hs Hl; (destruct Hp as [|c p Hc Hp]; [by apply calm_done|]); [simpl in Hl; lia|].
  simpl in Hl. cbn [match_]. rewrite at_end_cons by done. destruct Hs as [|d s Hd Hs].
  { change (at_end (T [])) with true. cbn iota. eapply calm_bind; [|intros; by apply calm_done].
    apply calm_skip_stars; [by constructor|]. apply T_fuel. by constructor. }
  read_one. destruct (c =? chr "?"); [read_one; apply IH; [done|done|lia]|]. destruct (c =? chr "*"); [|destruct (c =? chr "[")].
  - read_one. rewrite at_end_T by done. destruct p as [|c' p]; [by apply calm_done|].
    apply (calm_star fuel); [by constructor|apply T_fuel; by constructor|]. intros s' Hs'. apply IH; [done|done|lia].
  - read_one. rewrite at_end_T by done. destruct Hp as [|c' p Hc' Hp]; [by left|]. read_one.
    eapply (calm_bind (behind 0 (c' :: p))).
    { destruct (c' =? chr "!"); [read_one|]; apply calm_done; [exists p|exists (c' :: p)];
        split_and!; try done; try (by constructor); simpl; lia. }
    intros it (l1 & -> & Hl1 & Hlen1). simpl in Hlen1. rewrite at_end_T by done. destruct l1 as [|e l1]; [by left|]. read_one.
    eapply calm_bind; [apply calm_matchSet; [done|by apply T_fuel]|]. intros [m it] (l2 & E & Hl2 & Hlen2). cbn in E, Hlen2. subst it.
    destruct (_ || _); [by apply calm_done|]. apply IH; [done|done|simpl in Hlen1, Hl; lia].
  - eapply (calm_bind (fun it => exists e r, it = T (e :: r) /\ Forall scalar (e :: r) /\ (length r <= length p)%nat)).
    { destruct (c =? 92); [|apply calm_done; exists c, p; split_and!; [done|by constructor|done]].
      read_one. rewrite at_end_T by done. destruct p as [|e p]; [by left|]. apply calm_done. exists e, p. split_and!; [done|done|simpl; lia]. }
    intros it (e & r & -> & [He Hr]%Forall_cons & Hlen). read_one. destruct (negb _); [by apply calm_done|]. read_one.
    apply IH; [done|done|lia].
Qed.
End Match.

(** ** Claims *)

Lemma plain_scalar l : forallb (fun c => (0 <=? c) && (c <? 0xD800)) l = true -> Forall scalar l.
Proof. rewrite List.forallb_forall, List.Forall_forall. intros H c Hc%H. unfold scalar. lia. Qed.

(** A leading dot that [GLOB_DOT_SPECIAL] hides from a wildcard. *)
Definition hidden (options : Z) (ts : list token) (s : list Z) : Prop :=
  Z.land options GLOB_DOT_SPECIAL <> 0 /\ head s = Some (chr ".") /\ (head ts = Some One \/ head ts = Some Star).

Lemma pattern_head p ts : pattern_text p ts ->
  (head ts = Some One <-> head p = Some (chr "?")) /\ (head ts = Some Star <-> head p = Some (chr "*")).
Proof. destruct 1; cbn; split; split; try done; try congruence; intros [= <-]; done. Qed.

(** The test in front of [match]. *)
Lemma hidden_run toLower options p ts s :
  pattern_text p ts -> Forall scalar p -> Forall scalar s -> p <> [] ->
  let g := {| _pattern := T p; _options := options |} in
  exists h, (hidden options ts s <-> h = true)
    /\ match_subject toLower g (T s) = if h then Done false else match_ toLower g (length (T p)) (T p) (T s).
Proof.
  intros Hp Hsp Hs Hne g. unfold match_subject, has_option, hidden. cbn [_options _pattern g].
  destruct Hsp as [|c p Hc Hsp]; [done|]. destruct (pattern_head _ _ Hp) as [H1 H2]. cbn in H1, H2.
  destruct (Z.eqb_spec (Z.land options GLOB_DOT_SPECIAL) 0) as [E0|Hset]; cbn [negb andb rbind].
  { exists false. split; [|done]. naive_solver. }
  destruct Hs as [|d s Hd Hs]; [exists false; split; [naive_solver|done]|].
  read_one. destruct (Z.eqb_spec d (chr ".")) as [->|Hdot]; read_one; [|exists false; split; [naive_solver|done]].
  exists ((c =? chr "?") || (c =? chr "*")). split; [|done].
  destruct (Z.eqb_spec c (chr "?")), (Z.eqb_spec c (chr "*")); cbn; naive_solver.
Qed.

(** C38: Glob::match decides the meaning of its pattern: for every pattern of
    the grammar that is not empty and in which no end of a range is written with a
    backslash (Glob.h allows it, see [glob_range_end_not_escaped]), and every
    subject in UTF-8, it returns, and returns true exactly when the tokens match the characters (up to case with
    GLOB_CASELESS) and a leading dot is not hidden (GLOB_DOT_SPECIAL). *)
Theorem glob_match_correct toLower options p ts s
    (Hp : pattern_text p ts) (Hsp : Forall scalar p) (Hs : Forall scalar s) (Hne : p <> []) :
  let g := {| _pattern := text UTF8.encoding p; _options := options |} in
  exists b, match_subject toLower g (text UTF8.encoding s) = Done b
    /\ (b = true <-> matches (fold_case toLower g) ts s /\ ~ hidden options ts s).
Proof.
  intros g. destruct (hidden_run toLower options p ts s Hp Hsp Hs Hne) as (h & Hh & E0). fold g in E0. rewrite E0.
  destruct (match_run toLower g p ts Hp Hsp _ s Hs (T_fuel p Hsp)) as (b & E & Hb). rewrite E.
  destruct h; [exists false|exists b]; (split; [done|]); naive_solver.
Qed.

(** The pattern [*[!a-c].h] and a subject. *)
Lemma glob_match_correct_witness :
  exists b, match_subject (fun c => c) {| _pattern := text UTF8.encoding (str "*[!a-c].h"); _options := 1 |}
      (text UTF8.encoding (str "z.d.h")) = Done b
    /\ (b = true <-> matches (fold_case (fun c => c) {| _pattern := text UTF8.encoding (str "*[!a-c].h"); _options := 1 |})
      [Star; Class_ true [(97, 99)]; Lit 46; Lit 104] (str "z.d.h") /\ ~ hidden 1 [Star; Class_ true [(97, 99)]; Lit 46; Lit 104] (str "z.d.h")).
Proof.
  apply (glob_match_correct (fun c => c) 1 (str "*[!a-c].h")); [|by apply plain_scalar|by apply plain_scalar|done].
  apply pt_star, (pt_class_not [97; 45; 99; 93]); [|by repeat constructor].
  apply (set_range [97] 97 99 [93]); [by left|done|done|apply set_close].
Defined.

(** For every pattern that is not empty and every subject, in UTF-8,
    Glob::match ends, with a truth value or with SyntaxException: no
    iterator is moved or read past its end. *)
Theorem glob_match_total toLower options p s (Hsp : Forall scalar p) (Hs : Forall scalar s) (Hne : p <> []) :
  let r := match_subject toLower {| _pattern := text UTF8.encoding p; _options := options |} (text UTF8.encoding s) in
  (exists b, r = Done b) \/ r = Raise SyntaxException.
Proof.
  intros r. set (g := {| _pattern := T p; _options := options |}) in *.
  assert (calm (fun _ => True) r) as [->|(b & -> & _)]; [|by right|by left; exists b].
  subst r. unfold match_subject. eapply (calm_bind (fun _ => True)).
  - destruct (has_option g _ && negb (at_end (T s))) eqn:E; [|by apply calm_done].
    destruct Hs as [|d s Hd Hs]; [by rewrite andb_false_r in E|]. read_one. destruct (d =? chr "."); [|by apply calm_done].
    destruct Hsp as [|c p Hc Hsp]; [done|]. cbn [_pattern g]. read_one. by apply calm_done.
  - intros [] _; [by apply calm_done|]. apply calm_match; [done|done|by apply T_fuel].
Qed.

(** A set that is not closed. *)
Lemma glob_match_total_witness :
  let r := match_subject (fun c => c) {| _pattern := text UTF8.encoding (str "a[b"); _options := 0 |} (text UTF8.encoding (str "ab")) in
  (exists b, r = Done b) \/ r = Raise SyntaxException.
Proof. apply (glob_match_total (fun c => c) 0 (str "a[b") (str "ab")); [by apply plain_scalar|by apply plain_scalar|done]. Defined.

(** With GLOB_DOT_SPECIAL an empty pattern is read past its end. *)
Lemma glob_empty_pattern :
  match_subject (fun c => c) {| _pattern := []; _options := GLOB_DOT_SPECIAL |} (str ".profile") = Raise AssertionViolationException.
Proof. by vm_compute. Qed.

(** The end of a range is not unescaped: in [[+-\]]] the range ends at the
    backslash and the set at the first bracket. *)
Lemma glob_range_end_not_escaped :
  let g := {| _pattern := str "[+-" ++ [92] ++ str "]]"; _options := 0 |} in
  match_subject (fun c => c) g (str "A") = Done false /\ match_subject (fun c => c) g (str "A]") = Done true.
Proof. split; by vm_compute. Qed.
