(* ===== verification/Tokenizer.v ===== *)
(** StringTokenizer.cpp: splitting a string at separator characters, and the
    operations on the tokens. *)

From S2P Require Import Prelude Strings.
From stdpp Require Import list.

Local Open Scope Z_scope.

Module Tokenizer.

Definition TOK_IGNORE_EMPTY : Z := 1.
Definition TOK_TRIM : Z := 2.

(** [trim]: the number of white space characters at either end, and [substr]. *)
Fixpoint leading_space (s : list Z) : nat :=
  match s with
  | c :: r => if Ascii.isSpace c then S (leading_space r) else 0
  | [] => 0
  end.

Definition trim (token : list Z) : list Z :=
  let front := leading_space token in
  let back := if (front =? length token)%nat then 0%nat else leading_space (rev token) in
  take (length token - back - front) (drop front token).

(** The variables of the constructor's loop. *)
Record Loop := { _tokens : list (list Z); token : list Z; lastToken : bool }.

Definition step (separators : list Z) (doTrim ignoreEmpty : bool) (s : Loop) (c : Z) : Loop :=
  if contains separators c then
    let t := if doTrim then trim (token s) else token s in
    {| _tokens := if negb (eqb_str t []) || negb ignoreEmpty then _tokens s ++ [t] else _tokens s;
       token := [];
       lastToken := if negb ignoreEmpty then true else lastToken s |}
  else {| _tokens := _tokens s; token := token s ++ [c]; lastToken := false |}.

Definition construct (str separators : list Z) (options : Z) : list (list Z) :=
  let doTrim := negb (Z.land options TOK_TRIM =? 0) in
  let ignoreEmpty := negb (Z.land options TOK_IGNORE_EMPTY =? 0) in
  let s := foldl (step separators doTrim ignoreEmpty) {| _tokens := []; token := []; lastToken := false |} str in
  if negb (eqb_str (token s) []) then
    let t := if doTrim then trim (token s) else token s in
    if negb (eqb_str t []) then _tokens s ++ [t] else _tokens s
  else if lastToken s then _tokens s ++ [[]] else _tokens s.

(** [std::find] from [first] on: the position, or the end. *)
Fixpoint find_from (tokens : list (list Z)) (t : list Z) : nat :=
  match tokens with
  | [] => 0
  | x :: r => if eqb_str x t then 0 else S (find_from r t)
  end.

(** [operator []] *)
Definition at_ (tokens : list (list Z)) (index : nat) : res (list Z) :=
  if (length tokens <=? index)%nat then Raise RangeException
  else match tokens !! index with Some t => Done t | None => UB end.

Definition has (tokens : list (list Z)) (t : list Z) : bool := negb (find_from tokens t =? length tokens)%nat.

(** [find]; [begin() + pos] is undefined behind the end. *)
Definition find (tokens : list (list Z)) (t : list Z) (pos : nat) : res nat :=
  if (length tokens <? pos)%nat then UB
  else let i := (pos + find_from (drop pos tokens) t)%nat in
       if (i =? length tokens)%nat then Raise NotFoundException else Done i.

(** [count(token)]: [fuel] rounds of the loop. *)
Fixpoint count_loop (fuel : nat) (rest : list (list Z)) (t : list Z) (result : nat) : res nat :=
  let i := find_from rest t in
  if (i =? length rest)%nat then Done result
  else match fuel with O => UB | S fuel => count_loop fuel (drop (S i) rest) t (S result) end.

Definition count (tokens : list (list Z)) (t : list Z) : res nat := count_loop (length tokens) tokens t 0.

(** [replace]: the tokens in front, those that are left, and the result. *)
Fixpoint replace_loop (fuel : nat) (front rest : list (list Z)) (old new : list Z) (result : nat) : res (nat * list (list Z)) :=
  let i := find_from rest old in
  if (i =? length rest)%nat then Done (result, front ++ rest)
  else match fuel with
  | O => UB
  | S fuel => replace_loop fuel (front ++ take i rest ++ [new]) (drop (S i) rest) old new (S result)
  end.

Definition replace (tokens : list (list Z)) (old new : list Z) (pos : nat) : res (nat * list (list Z)) :=
  if (length tokens <? pos)%nat then UB
  else replace_loop (length tokens) (take pos tokens) (drop pos tokens) old new 0.
End Tokenizer.
Import Tokenizer.

(** ** Fields of a string *)

(** What lies between the separators: one field more than there are separators. *)
Fixpoint fields (separators s : list Z) : list (list Z) :=
  match s with
  | [] => [[]]
  | c :: r =>
      if contains separators c then [] :: fields separators r
      else match fields separators r with f :: fs => (c :: f) :: fs | [] => [[c]] end
  end.

Lemma fields_cons seps s : exists f fs, fields seps s = f :: fs.
Proof. destruct s as [|c r]; cbn; [eauto|]. destruct (contains seps c); [eauto|]. destruct (fields seps r); eauto. Qed.

Lemma fields_snoc seps s : exists fs f, fields seps s = fs ++ [f].
Proof.
  destruct (fields seps s) as [|f fs _] eqn:E using rev_ind; [|eauto]. destruct (fields_cons seps s) as (f & fs & E'). congruence.
Qed.

(** No field holds a separator. *)
Lemma fields_avoid seps s : Forall (fun f => avoids seps f = true) (fields seps s).
Proof.
  induction s as [|c r IH]; cbn [fields]; [by repeat constructor|]. destruct (contains seps c) eqn:E; [by constructor|].
  destruct (fields seps r) as [|f fs]; [|apply Forall_cons in IH as [Hf Hfs]]; (constructor; [|done]);
    rewrite avoids_cons; unfold not_in; by rewrite E.
Qed.

(** The string is the fields with separators between them. *)
Inductive joined (seps : list Z) : list (list Z) -> list Z -> Prop :=
| joined_one f : joined seps [f] f
| joined_more f fs c s : contains seps c = true -> joined seps fs s -> joined seps (f :: fs) (f ++ c :: s).

Lemma fields_joined seps s : joined seps (fields seps s) s.
Proof.
  induction s as [|c r IH]; cbn [fields]; [constructor|]. destruct (contains seps c) eqn:E; [by apply (joined_more _ [])|].
  destruct IH as [f|f fs c' s Hc' Hj]; [constructor|]. rewrite app_comm_cons. by constructor.
Qed.

Lemma fields_last seps s c fs f :
  fields seps s = fs ++ [f] -> fields seps (s ++ [c]) = if contains seps c then fs ++ [f; []] else fs ++ [f ++ [c]].
Proof.
  revert fs f. induction s as [|d r IH]; intros fs f; cbn [fields app].
  - intros E. destruct fs as [|? [|? fs]]; try discriminate E. injection E as <-. cbn. by destruct (contains seps c).
  - destruct (fields_snoc seps r) as (gs & g & Er). specialize (IH gs g Er). rewrite Er, IH.
    destruct (contains seps d).
    + rewrite app_comm_cons. intros [<- <-]%app_inj_tail. by destruct (contains seps c).
    + destruct gs as [|g0 gs]; cbn.
      * intros E. destruct fs as [|? [|? fs]]; try discriminate E. injection E as <-. by destruct (contains seps c).
      * rewrite app_comm_cons. intros [<- <-]%app_inj_tail. by destruct (contains seps c).
Qed.

(** ** Trimming is that of String.h *)
Lemma leading_space_spec s :
  (leading_space s <= length s)%nat /\ (forall i, (i < leading_space s)%nat -> Str.space_at s i = true)
  /\ (leading_space s = length s \/ Str.space_at s (leading_space s) = false).
Proof.
  induction s as [|c r (H1 & H2 & H3)]; cbn [leading_space length]; [split_and!; [lia|intros; lia|by left]|].
  destruct (Ascii.isSpace c) eqn:E; [|split_and!; [lia|intros; lia|by right]].
  split_and!; [lia| |destruct H3 as [H3|H3]; [left; lia|by right]].
  intros [|i] Hi; [done|]. apply H2. lia.
Qed.

Lemma space_at_rev s i : (i < length s)%nat -> Str.space_at (rev s) i = Str.space_at s (length s - 1 - i).
Proof.
  intros Hi. unfold Str.space_at. rewrite rev_alt. change (rev_append s []) with (reverse s). rewrite reverse_lookup by done.
  by replace (length s - S i)%nat with (length s - 1 - i)%nat by lia.
Qed.

Lemma trim_is_trim s : trim s = Str.trim s.
Proof.
  unfold trim, Str.trim. destruct (leading_space_spec s) as (A1 & A2 & A3).
  destruct (Str.first_nonspace_spec s (length s) 0 (length s)) as (F1 & F2 & F3); [lia..|].
  set (f := Str.first_nonspace s (length s) 0 (length s)) in *.
  assert (Ef : leading_space s = f).
  { destruct (Nat.lt_trichotomy (leading_space s) f) as [Hlt|[|Hgt]]; [|done|].
    - specialize (F2 (leading_space s) ltac:(lia)). destruct A3; [lia|congruence].
    - specialize (A2 f Hgt). destruct F3; [lia|congruence]. }
  rewrite Ef in *. clearbody f. destruct (Str.last_nonspace_spec s f (length s)) as (M1 & M2 & M3); [lia|].
  set (m := Str.last_nonspace s f (length s)) in *. clearbody m. destruct (Nat.eqb_spec f (length s)) as [E|Hne].
  { f_equal. lia. }
  destruct A3 as [|Hf]; [lia|]. destruct (leading_space_spec (rev s)) as (B1 & B2 & B3). rewrite length_rev in *.
  set (b := leading_space (rev s)) in *. clearbody b.
  assert (Hb : (b <= length s - 1 - f)%nat).
  { destruct (Nat.le_gt_cases b (length s - 1 - f)) as [|Hgt]; [done|]. specialize (B2 _ Hgt).
    rewrite space_at_rev in B2 by lia. replace (length s - 1 - (length s - 1 - f))%nat with f in B2 by lia. congruence. }
  destruct B3 as [|B3]; [lia|]. rewrite space_at_rev in B3 by lia. f_equal.
  destruct (Nat.lt_trichotomy m (length s - b)) as [Hlt|[|Hgt]]; [|lia|].
  - specialize (M2 (length s - 1 - b)%nat ltac:(lia)). congruence.
  - destruct M3 as [|M3]; [lia|]. specialize (B2 (length s - m)%nat ltac:(lia)). rewrite space_at_rev in B2 by lia.
    replace (length s - 1 - (length s - m))%nat with (m - 1)%nat in B2 by lia. congruence.
Qed.

(** ** The constructor *)
Definition has_option (options o : Z) : bool := negb (Z.land options o =? 0).
Definition nonempty (t : list Z) : Prop := t <> [].
Local Instance nonempty_dec t : Decision (nonempty t) := not_dec _.

Lemma step_fields seps (doTrim ignoreEmpty : bool) s :
  let tr := if doTrim then trim else id in
  let l := foldl (step seps doTrim ignoreEmpty) {| _tokens := []; token := []; lastToken := false |} s in
  exists fs f, fields seps s = fs ++ [f] /\ token l = f
    /\ _tokens l = (if ignoreEmpty then filter nonempty (map tr fs) else map tr fs)
    /\ lastToken l = negb ignoreEmpty && eqb_str f [] && negb (eqb_str s []).
Proof.
  intros tr l. subst l. induction s as [|c s IH] using rev_ind.
  { exists [], []. cbn. split_and!; try done; by destruct ignoreEmpty. }
  destruct IH as (fs & f & Ef & Et & Ets & El). rewrite foldl_snoc. set (l := foldl _ _ s) in *. clearbody l.
  pose proof (fields_last seps s c fs f Ef) as Enew. unfold step.
  assert (Hne : eqb_str (s ++ [c]) [] = false) by (unfold eqb_str; apply bool_decide_eq_false; by destruct s).
  rewrite Hne. destruct (contains seps c).
  - exists (fs ++ [f]), []. rewrite <-app_assoc. split; [exact Enew|]. cbn. split_and!; [done| |].
    + rewrite map_app. cbn. rewrite Et. replace (if doTrim then trim f else f) with (tr f) by (by destruct doTrim).
      rewrite Ets. unfold eqb_str. destruct ignoreEmpty; cbn [negb]; rewrite ?orb_true_r, ?orb_false_r; [|done].
      rewrite filter_app. case_bool_decide as E; cbn [negb].
      * rewrite filter_cons_False by (rewrite E; intros H; by apply H). by rewrite app_nil_r.
      * by rewrite filter_cons_True.
    + rewrite El. by destruct ignoreEmpty.
  - exists fs, (f ++ [c]). split; [exact Enew|]. cbn. split_and!; [by rewrite Et|done|].
    unfold eqb_str. rewrite bool_decide_eq_false_2 by by destruct f. by rewrite andb_false_r.
Qed.

(** ** Searching and replacing *)
Lemma find_from_spec tokens t :
  (find_from tokens t <= length tokens)%nat /\ (t ∉ take (find_from tokens t) tokens)
  /\ ((find_from tokens t < length tokens)%nat -> tokens !! find_from tokens t = Some t).
Proof.
  induction tokens as [|x r (H1 & H2 & H3)]; cbn [find_from length]; [split_and!; [lia|apply not_elem_of_nil|lia]|].
  destruct (eqb_str x t) eqn:E.
  - apply eqb_str_spec in E as ->. split_and!; [lia|apply not_elem_of_nil|done].
  - assert (Hne : t <> x) by (intros ->; by rewrite (proj2 (eqb_str_spec x x) eq_refl) in E). split_and!; [lia| |].
    + cbn. by apply not_elem_of_cons.
    + cbn. intros Hlt. apply H3. lia.
Qed.

Definition occurrences (t : list Z) (tokens : list (list Z)) : nat := length (filter (fun x => x = t) tokens).

(** The tokens in front of the first occurrence, and what is behind it. *)
Lemma find_from_split tokens t :
  (find_from tokens t = length tokens /\ (t ∉ tokens))
  \/ exists a b, tokens = a ++ t :: b /\ (t ∉ a) /\ find_from tokens t = length a.
Proof.
  destruct (find_from_spec tokens t) as (H1 & H2 & H3). destruct (decide (find_from tokens t = length tokens)) as [E|Hne].
  - left. split; [done|]. by rewrite E, firstn_all in H2.
  - right. specialize (H3 ltac:(lia)). exists (take (find_from tokens t) tokens), (drop (S (find_from tokens t)) tokens).
    split_and!; [by rewrite take_drop_middle|done|]. rewrite length_take. lia.
Qed.

Lemma occurrences_absent t a : t ∉ a -> occurrences t a = 0%nat /\ forall new, map (fun x => if eqb_str x t then new else x) a = a.
Proof.
  unfold occurrences. induction a as [|x a IH]; [done|]. intros [Hne Hn]%not_elem_of_cons. destruct (IH Hn) as [H1 H2].
  rewrite filter_cons_False by done. split; [done|]. intros new. cbn.
  unfold eqb_str. by rewrite bool_decide_eq_false_2, H2 by done.
Qed.

Lemma replace_loop_run old new fuel : forall front rest result, (length rest <= fuel)%nat ->
  replace_loop fuel front rest old new result
  = Done ((result + occurrences old rest)%nat, front ++ map (fun x => if eqb_str x old then new else x) rest).
Proof.
  induction fuel as [|fuel IH]; intros front rest result Hl;
    (destruct (find_from_split rest old) as [[E Hn]|(a & b & -> & Ha & E)]; cbn [replace_loop]; rewrite E).
  1, 3: rewrite Nat.eqb_refl; destruct (occurrences_absent old rest Hn) as [-> ->]; by rewrite Nat.add_0_r.
  - rewrite length_app in Hl. simpl in Hl. lia.
  - rewrite length_app in *. simpl in Hl. cbn [length]. destruct (Nat.eqb_spec (length a) (length a + S (length b))); [lia|].
    rewrite take_app_length. replace (S (length a)) with (length (a ++ [old])) by (rewrite length_app; simpl; lia).
    replace (a ++ old :: b) with ((a ++ [old]) ++ b) by (by rewrite <-app_assoc). rewrite drop_app_length, IH by lia.
    destruct (occurrences_absent old a Ha) as [H1 H2]. unfold occurrences in *.
    rewrite <-app_assoc, !filter_app, !length_app, H1, !map_app, H2. rewrite filter_cons_True by done. cbn [map filter length app].
    rewrite (proj2 (eqb_str_spec old old) eq_refl), <-!app_assoc. cbn. f_equal. f_equal. lia.
Qed.

Lemma count_loop_run t fuel : forall rest result, (length rest <= fuel)%nat ->
  count_loop fuel rest t result = Done (result + occurrences t rest)%nat.
Proof.
  induction fuel as [|fuel IH]; intros rest result Hl;
    (destruct (find_from_split rest t) as [[E Hn]|(a & b & -> & Ha & E)]; cbn [count_loop]; rewrite E).
  1, 3: rewrite Nat.eqb_refl; destruct (occurrences_absent t rest Hn) as [-> _]; by rewrite Nat.add_0_r.
  - rewrite length_app in Hl. simpl in Hl. lia.
  - rewrite length_app in *. simpl in Hl. cbn [length]. destruct (Nat.eqb_spec (length a) (length a + S (length b))); [lia|].
    replace (S (length a)) with (length (a ++ [t])) by (rewrite length_app; simpl; lia).
    replace (a ++ t :: b) with ((a ++ [t]) ++ b) by (by rewrite <-app_assoc). rewrite drop_app_length, IH by lia.
    destruct (occurrences_absent t a Ha) as [H1 _]. unfold occurrences in *.
    rewrite <-app_assoc, !filter_app, !length_app, H1. rewrite filter_cons_True by done. cbn [filter length app]. f_equal. cbn. lia.
Qed.

(** ** Claims *)

(** StringTokenizer splits a string into its fields, the pieces between
    separator characters: with TOK_IGNORE_EMPTY the tokens are the fields
    that are not empty, trimmed first with TOK_TRIM; without it all fields
    are tokens, an empty string has none, and with TOK_TRIM a last field of
    white space only is dropped. *)
Theorem tokenizer_splits s separators options :
  let tr := if has_option options TOK_TRIM then Str.trim else id in
  let tokens := construct s separators options in
  exists front last, fields separators s = front ++ [last]
  /\ joined separators (front ++ [last]) s /\ Forall (fun f => avoids separators f = true) (front ++ [last])
  /\ tokens =
     if has_option options TOK_IGNORE_EMPTY then filter nonempty (map tr (front ++ [last]))
     else if eqb_str s [] then []
     else if eqb_str (tr last) [] && negb (eqb_str last []) then map tr front
     else map tr (front ++ [last]).
Proof.
  intros tr tokens. subst tokens. unfold construct. fold (has_option options TOK_TRIM). fold (has_option options TOK_IGNORE_EMPTY).
  set (doTrim := has_option options TOK_TRIM) in *. set (ign := has_option options TOK_IGNORE_EMPTY).
  destruct (step_fields separators doTrim ign s) as (fs & f & Ef & Et & Ets & El). cbn zeta in *.
  set (l := foldl _ _ s) in *. clearbody l ign. exists fs, f. split; [done|]. rewrite <-Ef.
  split; [apply fields_joined|]. split; [apply fields_avoid|]. rewrite Ef, Et, Ets, El.
  assert (Htr : forall x, (if doTrim then trim x else x) = tr x) by (intros x; subst tr; destruct doTrim; [apply trim_is_trim|done]).
  assert (Hmap : map (if doTrim then trim else id) fs = map tr fs).
  { apply map_ext. intros x. rewrite <-Htr. by destruct doTrim. }
  rewrite Htr, Hmap, map_app, filter_app. clear Htr Hmap Et Ets El. assert (Htr0 : tr [] = []) by (subst tr; by destruct doTrim).
  clearbody tr. cbn [map]. unfold eqb_str. destruct (decide (f = [])) as [->|Hf]; [rewrite (bool_decide_eq_true_2 ([] = [])) by done|rewrite (bool_decide_eq_false_2 (f = [])) by done]; cbn [negb andb].
  - rewrite Htr0, andb_true_r, andb_false_r. destruct ign; cbn [negb andb].
    + rewrite filter_cons_False by (intros H; by apply H). by rewrite app_nil_r.
    + case_bool_decide as Hs; cbn [negb]; [|done]. subst s.
      cbn in Ef. by destruct fs as [|? [|? fs]].
  - assert (Hs : s <> []) by (intros ->; cbn in Ef; destruct fs as [|? [|? fs]]; try discriminate Ef; by injection Ef as <-).
    rewrite andb_true_r, (bool_decide_eq_false_2 (s = [])) by done.
    case_bool_decide as E; cbn [negb]; destruct ign; try done.
    + rewrite filter_cons_False by (rewrite E; intros H; by apply H). by rewrite app_nil_r.
    + by rewrite filter_cons_True.
Qed.

(** Replacing and counting tokens: every occurrence from [pos] on. *)
Lemma tokenizer_replace tokens old new pos :
  (pos <= length tokens)%nat ->
  replace tokens old new pos
  = Done (occurrences old (drop pos tokens), take pos tokens ++ map (fun x => if eqb_str x old then new else x) (drop pos tokens))
  /\ count tokens old = Done (occurrences old tokens).
Proof.
  intros Hp. unfold replace, count. rewrite (proj2 (Nat.ltb_ge _ _) Hp). split; [|by apply count_loop_run].
  rewrite replace_loop_run; [done|]. rewrite length_drop. lia.
Qed.

(** TOK_TRIM alone keeps a blank first token and drops a blank last one. *)
Lemma tokenizer_blank_last :
  construct (str " ;a") (str ";") TOK_TRIM = [[]; str "a"] /\ construct (str "a; ") (str ";") TOK_TRIM = [str "a"].
Proof. split; by vm_compute. Qed.
