(* ===== verification/BinaryStream.v ===== *)
(** BinaryReader and BinaryWriter on a 64-bit little-endian machine, with the
    ByteOrder functions they use.

    A reader keeps what is left of its stream and the stream's state bits; a
    read that comes too short leaves the rest of its variable as it was, so
    reading takes the old value.  A floating point number is the list of its
    bytes. *)

From S2P Require Import Prelude Encodings TextConv.

Open Scope st_scope.
Local Open Scope Z_scope.

(** [UInt64 flipBytes(UInt64)] *)
Definition flipBytes64 (value : Z) : Z :=
  let hi := u32 (Z.shiftr value 32) in
  let lo := u32 (Z.land value 0xFFFFFFFF) in
  Z.lor (flipBytes32 hi) (u64 (Z.shiftl (flipBytes32 lo) 32)).

Definition s16 : Z -> Z := swrap 16.

Inductive StreamByteOrder := NATIVE_BYTE_ORDER | BIG_ENDIAN_BYTE_ORDER | LITTLE_ENDIAN_BYTE_ORDER.

Definition flips (byteOrder : StreamByteOrder) : bool :=
  match byteOrder with BIG_ENDIAN_BYTE_ORDER => true | _ => false end.

(** ** BinaryWriter *)
Module Writer.

Record BinaryWriter := { _ostr : list Z; _flipBytes : bool; _pTextConverter : option Converter.TextConverter }.

Definition construct (byteOrder : StreamByteOrder) (conv : option Converter.TextConverter) : BinaryWriter :=
  {| _ostr := []; _flipBytes := flips byteOrder; _pTextConverter := conv |}.

Definition byteOrder (w : BinaryWriter) : StreamByteOrder :=
  if _flipBytes w then BIG_ENDIAN_BYTE_ORDER else LITTLE_ENDIAN_BYTE_ORDER.

(** [_ostr.write(bytes, n)] *)
Definition put (bytes : list Z) : ST BinaryWriter unit :=
  modify (fun w => {| _ostr := _ostr w ++ bytes; _flipBytes := _flipBytes w; _pTextConverter := _pTextConverter w |}).

(** An integer of [n] bytes, flipped if need be. *)
Definition put_word (n : nat) (flip : Z -> Z) (value : Z) : ST BinaryWriter unit :=
  let* w := get in
  put (le_bytes n (if _flipBytes w then flip value else value)).

Definition write_bool (value : bool) : ST BinaryWriter unit := put [if value then 1 else 0].
Definition write_char (value : Z) : ST BinaryWriter unit := put [u8 value].
Definition write_unsigned_char (value : Z) : ST BinaryWriter unit := put [u8 value].
Definition write_signed_char (value : Z) : ST BinaryWriter unit := put [u8 value].
Definition write_short (value : Z) : ST BinaryWriter unit := put_word 2 flipBytes16 (u16 value).
Definition write_unsigned_short (value : Z) : ST BinaryWriter unit := put_word 2 flipBytes16 (u16 value).
Definition write_int (value : Z) : ST BinaryWriter unit := put_word 4 flipBytes32 (u32 value).
Definition write_unsigned_int (value : Z) : ST BinaryWriter unit := put_word 4 flipBytes32 (u32 value).
Definition write_long (value : Z) : ST BinaryWriter unit := put_word 8 flipBytes64 (u64 value).
Definition write_unsigned_long (value : Z) : ST BinaryWriter unit := put_word 8 flipBytes64 (u64 value).

(** [for (i...) _ostr.write(--ptr, 1)]: from the last byte to the first. *)
Fixpoint put_backwards (n : nat) (memory : list Z) : ST BinaryWriter unit :=
  match n with
  | O => ret tt
  | S n => do* put (option_list (memory !! n)); put_backwards n memory
  end.

Definition write_real (n : nat) (memory : list Z) : ST BinaryWriter unit :=
  let* w := get in
  if _flipBytes w then put_backwards n memory else put memory.

Definition write_float : list Z -> ST BinaryWriter unit := write_real 4.
Definition write_double : list Z -> ST BinaryWriter unit := write_real 8.

(** The loop of the two [write7BitEncoded]. *)
Fixpoint write7_loop (fuel : nat) (value : Z) : ST BinaryWriter unit :=
  match fuel with
  | O => undef
  | S fuel =>
      let c := u8 (Z.land value 0x7F) in
      let value := Z.shiftr value 7 in
      let c := if negb (value =? 0) then Z.lor c 0x80 else c in
      do* put [c];
      if negb (value =? 0) then write7_loop fuel value else ret tt
  end.

Definition write7BitEncoded (value : Z) : ST BinaryWriter unit := write7_loop 5 value.
Definition write7BitEncoded64 (value : Z) : ST BinaryWriter unit := write7_loop 10 value.

(** A text with its length in front; [length] is a [UInt32]. *)
Definition put_text (text : list Z) : ST BinaryWriter unit :=
  let length := u32 (Z.of_nat (List.length text)) in
  do* write7BitEncoded length;
  put (take (Z.to_nat length) text).

Definition write_string (value : list Z) : ST BinaryWriter unit :=
  let* w := get in
  match _pTextConverter w with
  | Some C => let* r := lift (Converter.convert C (fun c => c) value []) in put_text (snd r)
  | None => put_text value
  end.

(** [const char*]; [None] is a null pointer. *)
Definition write_cstr (value : option (list Z)) : ST BinaryWriter unit :=
  match value with
  | None => throw NullPointerException
  | Some value =>
      let* w := get in
      match _pTextConverter w with
      | Some C => let* r := lift (Converter.convert_bytes C (fun c => c) value []) in put_text (snd r)
      | None => put_text value
      end
  end.

(** [std::vector<T>], with the operator of the elements. *)
Fixpoint write_elements {T} (write : T -> ST BinaryWriter unit) (value : list T) : ST BinaryWriter unit :=
  match value with [] => ret tt | x :: r => do* write x; write_elements write r end.

Definition write_vector {T} (write : T -> ST BinaryWriter unit) (value : list T) : ST BinaryWriter unit :=
  do* write_unsigned_int (u32 (Z.of_nat (length value)));
  write_elements write value.

Definition writeRaw (rawData : list Z) : ST BinaryWriter unit := put rawData.

Definition writeBOM : ST BinaryWriter unit := put_word 2 flipBytes16 0xFEFF.
End Writer.

(** ** BinaryReader *)
Module Reader.

Record BinaryReader := {
  rest : list Z;            (* what the stream still holds *)
  eofbit : bool;
  failbit : bool;
  _flipBytes : bool;
  _pTextConverter : option Converter.TextConverter
}.

Definition construct (input : list Z) (byteOrder : StreamByteOrder) (conv : option Converter.TextConverter) : BinaryReader :=
  {| rest := input; eofbit := false; failbit := false; _flipBytes := flips byteOrder; _pTextConverter := conv |}.

Definition byteOrder (r : BinaryReader) : StreamByteOrder :=
  if _flipBytes r then BIG_ENDIAN_BYTE_ORDER else LITTLE_ENDIAN_BYTE_ORDER.

Definition good (r : BinaryReader) : bool := negb (eofbit r) && negb (failbit r).
Definition fail (r : BinaryReader) : bool := failbit r.
Definition eof (r : BinaryReader) : bool := eofbit r.

Definition set_stream (l : list Z) (e f : bool) : ST BinaryReader unit :=
  modify (fun r => {| rest := l; eofbit := e; failbit := f; _flipBytes := _flipBytes r; _pTextConverter := _pTextConverter r |}).

(** [_istr.read(buffer, n)]: the bytes that were stored. *)
Definition get_bytes (n : nat) : ST BinaryReader (list Z) :=
  let* r := get in
  if negb (good r) then do* set_stream (rest r) (eofbit r) true; ret []
  else if (n <=? length (rest r))%nat then do* set_stream (drop n (rest r)) false false; ret (take n (rest r))
  else do* set_stream [] true true; ret (rest r).

(** A variable of which the first bytes were stored. *)
Definition overwrite (old got : list Z) : list Z := got ++ drop (length got) old.

Definition get_word (n : nat) (flip : Z -> Z) (old : Z) : ST BinaryReader Z :=
  let* got := get_bytes n in
  let* r := get in
  let value := le_combine (overwrite (le_bytes n old) got) in
  ret (if _flipBytes r then flip value else value).

(** A single byte. *)
Definition get_byte (old : Z) : ST BinaryReader Z :=
  let* got := get_bytes 1 in ret (le_combine (overwrite [old] got)).

(** The byte of a [bool]. *)
Definition read_bool : Z -> ST BinaryReader Z := get_byte.
Definition read_char : Z -> ST BinaryReader Z := get_byte.
Definition read_unsigned_char : Z -> ST BinaryReader Z := get_byte.
Definition read_signed_char (old : Z) : ST BinaryReader Z := let* v := get_byte (u8 old) in ret (s8 v).
Definition read_short (old : Z) : ST BinaryReader Z := let* v := get_word 2 flipBytes16 (u16 old) in ret (s16 v).
Definition read_unsigned_short : Z -> ST BinaryReader Z := get_word 2 flipBytes16.
Definition read_int (old : Z) : ST BinaryReader Z := let* v := get_word 4 flipBytes32 (u32 old) in ret (s32 v).
Definition read_unsigned_int : Z -> ST BinaryReader Z := get_word 4 flipBytes32.
Definition read_long (old : Z) : ST BinaryReader Z := let* v := get_word 8 flipBytes64 (u64 old) in ret (s64 v).
Definition read_unsigned_long : Z -> ST BinaryReader Z := get_word 8 flipBytes64.

(** [for (i...) _istr.read(--ptr, 1)] *)
Fixpoint get_backwards (n : nat) (memory : list Z) : ST BinaryReader (list Z) :=
  match n with
  | O => ret memory
  | S n =>
      let* got := get_bytes 1 in
      get_backwards n (match got with b :: _ => <[n := b]> memory | [] => memory end)
  end.

Definition read_real (n : nat) (old : list Z) : ST BinaryReader (list Z) :=
  let* r := get in
  if _flipBytes r then get_backwards n old
  else let* got := get_bytes n in ret (overwrite old got).

Definition read_float : list Z -> ST BinaryReader (list Z) := read_real 4.
Definition read_double : list Z -> ST BinaryReader (list Z) := read_real 8.

(** The loop of the two [read7BitEncoded], for [width] bits: a shift by the
    width or more is undefined. *)
Fixpoint read7_loop (fuel : nat) (width value s : Z) : ST BinaryReader Z :=
  match fuel with
  | O => undef
  | S fuel =>
      let* got := get_bytes 1 in
      let c := match got with b :: _ => b | [] => 0 end in
      if width <=? s then undef
      else
        let x := Z.shiftl (Z.land c 0x7F) s mod 2 ^ width in
        let value := (value + x) mod 2 ^ width in
        if negb (Z.land c 0x80 =? 0) then read7_loop fuel width value (s + 7) else ret value
  end.

Definition read7BitEncoded : ST BinaryReader Z := let* r := get in read7_loop (S (length (rest r))) 32 0 0.
Definition read7BitEncoded64 : ST BinaryReader Z := let* r := get in read7_loop (S (length (rest r))) 64 0 0.

(** [while (size--) { char c; if (!_istr.read(&c, 1).good()) break; value += c; }] *)
Fixpoint get_chars (fuel : nat) (size : Z) (value : list Z) : ST BinaryReader (list Z) :=
  if size =? 0 then ret value
  else match fuel with
  | O => undef
  | S fuel =>
      let* got := get_bytes 1 in
      let* r := get in
      if negb (good r) then ret value else get_chars fuel (size - 1) (value ++ got)
  end.

Definition read_string (old : list Z) : ST BinaryReader (list Z) :=
  let* size := read7BitEncoded in
  let* r := get in
  if negb (good r) then ret []
  else
    let* value := get_chars (S (length (rest r))) size [] in
    let* r := get in
    match _pTextConverter r with
    | Some C => let* c := lift (Converter.convert C (fun c => c) value []) in ret (snd c)
    | None => ret value
    end.

(** [std::vector<T>]: elements are appended; [elem] is one variable for all. *)
Fixpoint get_elements {T} (read : T -> ST BinaryReader T) (fuel : nat) (size : Z) (elem : T) (value : list T) : ST BinaryReader (list T) :=
  let* r := get in
  if negb (good r) || (size <=? 0) then ret value
  else match fuel with
  | O => undef
  | S fuel => let* elem := read elem in get_elements read fuel (size - 1) elem (value ++ [elem])
  end.

Definition read_vector {T} (read : T -> ST BinaryReader T) (elem : T) (old : list T) : ST BinaryReader (list T) :=
  let* size := read_unsigned_int 0 in
  let* r := get in
  if negb (good r) then ret old else get_elements read (Z.to_nat size) size elem old.

Definition readRaw (length : nat) : ST BinaryReader (list Z) :=
  let* r := get in get_chars (S (List.length (rest r))) (Z.of_nat length) [].

Definition readRaw_buffer (buffer : list Z) (length : nat) : ST BinaryReader (list Z) :=
  let* got := get_bytes length in ret (overwrite buffer got).

(** [readBOM]; [bom] holds [old] before. *)
Definition readBOM (old : Z) : ST BinaryReader unit :=
  let* got := get_bytes 2 in
  let bom := le_combine (overwrite (le_bytes 2 old) got) in
  modify (fun r => {| rest := rest r; eofbit := eofbit r; failbit := failbit r; _flipBytes := negb (bom =? 0xFEFF);
                      _pTextConverter := _pTextConverter r |}).
End Reader.
