(* ===== verification/BinaryFacts.v ===== *)
(** What BinaryWriter writes BinaryReader reads back.

    A [Codec] is a pair of operators such that reading consumes exactly the
    bytes that writing appended, whatever the variable held before and
    whatever follows in the stream; vectors of a codec are a codec again. *)

From S2P Require Import Prelude Encodings TextConv BinaryStream.
From stdpp Require Import list.

Open Scope st_scope.
Local Open Scope Z_scope.

(** ** Flipping is reversing the bytes *)
Lemma lor4 b0 b1 b2 b3 :
  is_byte b0 -> is_byte b1 -> is_byte b2 -> is_byte b3 ->
  Z.lor (Z.lor b0 (Z.shiftl b1 8)) (Z.lor (Z.shiftl b2 16) (Z.shiftl b3 24)) = le_combine [b0; b1; b2; b3].
Proof.
  unfold is_byte. intros. rewrite (Z.lor_comm b0), (lor_shiftl_add b1 b0 8) by lia.
  rewrite Z.lor_assoc, (Z.lor_comm _ (Z.shiftl b2 16)), (lor_shiftl_add b2 _ 16) by lia.
  rewrite (Z.lor_comm _ (Z.shiftl b3 24)), (lor_shiftl_add b3 _ 24) by lia. cbn [le_combine]. lia.
Qed.

(** A byte of a number under a mask. *)
Lemma byte_mask x k m : 0 <= k -> m = Z.shiftl 255 k -> Z.land x m = Z.shiftl (x / 2 ^ k mod 256) k.
Proof.
  intros Hk ->. rewrite land_shifted_mask by done. f_equal. rewrite (land_mask _ 8 255) by done.
  by rewrite Z.shiftr_div_pow2.
Qed.

Lemma flip16 x : 0 <= x < 2 ^ 16 -> flipBytes16 x = le_combine (be_bytes 2 x).
Proof.
  intros Hx. unfold flipBytes16, be_bytes. cbn [le_bytes rev app le_combine].
  rewrite (byte_mask _ 0 0x00FF), (byte_mask _ 8 0xFF00) by done. rewrite Z.lor_comm, Z.shiftl_0_r.
  rewrite Z.shiftr_div_pow2, (Z.shiftl_mul_pow2 x) by lia. rewrite lor_shiftl_add by lia. unfold u16. lia.
Qed.

Lemma flip32 x : 0 <= x < 2 ^ 32 -> flipBytes32 x = le_combine (be_bytes 4 x).
Proof.
  intros Hx. unfold flipBytes32, be_bytes. cbn [le_bytes rev app].
  rewrite (byte_mask _ 0 0x000000FF), (byte_mask _ 8 0x0000FF00), (byte_mask _ 16 0x00FF0000), (byte_mask _ 24 0xFF000000) by done.
  rewrite Z.shiftl_0_r, !Z.shiftr_div_pow2, !(Z.shiftl_mul_pow2 x) by lia.
  rewrite <-lor4 by (unfold is_byte; lia). do 3 f_equal; lia.
Qed.

Lemma le_combine_app a b : le_combine (a ++ b) = le_combine a + 256 ^ Z.of_nat (length a) * le_combine b.
Proof.
  induction a as [|x a IH]; [cbn [app le_combine length]; lia|]. cbn [app le_combine length]. rewrite IH, Nat2Z.inj_succ, Z.pow_succ_r by lia. lia.
Qed.

Lemma le_combine_be_range n x : 0 <= le_combine (be_bytes n x) < 256 ^ Z.of_nat n.
Proof. pose proof (le_combine_range (be_bytes n x) (be_bytes_bytes n x)) as H. by rewrite length_be_bytes in H. Qed.

Lemma flip64 x : 0 <= x < 2 ^ 64 -> flipBytes64 x = le_combine (be_bytes 8 x).
Proof.
  intros Hx. unfold flipBytes64. cbv zeta. rewrite (land_mask x 32 0xFFFFFFFF), Z.shiftr_div_pow2 by lia. unfold u32, u64.
  rewrite (Z.mod_small (x / 2 ^ 32)), Z.mod_mod by lia.
  rewrite !flip32 by lia. pose proof (le_combine_be_range 4 (x / 2 ^ 32)) as H1. pose proof (le_combine_be_range 4 (x mod 2 ^ 32)) as H2.
  change (256 ^ Z.of_nat 4) with (2 ^ 32) in H1, H2.
  assert (E : be_bytes 8 x = be_bytes 4 (x / 2 ^ 32) ++ be_bytes 4 (x mod 2 ^ 32)).
  { unfold be_bytes. change (2 ^ 32) with (256 ^ Z.of_nat 4). rewrite (le_bytes_mod 4 x), <-rev_app_distr. f_equal. apply (le_bytes_app 4 4). }
  rewrite E, le_combine_app, length_be_bytes. change (256 ^ Z.of_nat 4) with (2 ^ 32). clear E.
  revert H1 H2. generalize (le_combine (be_bytes 4 (x / 2 ^ 32))) (le_combine (be_bytes 4 (x mod 2 ^ 32))). intros a b Ha Hb.
  rewrite (Z.mod_small (Z.shiftl b 32)) by (rewrite Z.shiftl_mul_pow2 by lia; lia).
  rewrite Z.lor_comm, lor_shiftl_add by lia. lia.
Qed.

(** What flipping has to be for integers of [n] bytes. *)
Definition flips_bytes (n : nat) (flip : Z -> Z) : Prop :=
  forall x, 0 <= x < 256 ^ Z.of_nat n -> flip x = le_combine (be_bytes n x).

Lemma flips_16 : flips_bytes 2 flipBytes16. Proof. intros x Hx. by apply flip16. Qed.
Lemma flips_32 : flips_bytes 4 flipBytes32. Proof. intros x Hx. by apply flip32. Qed.
Lemma flips_64 : flips_bytes 8 flipBytes64. Proof. intros x Hx. by apply flip64. Qed.

Lemma flip_bytes n flip x :
  flips_bytes n flip -> 0 <= x < 256 ^ Z.of_nat n -> le_bytes n (flip x) = be_bytes n x.
Proof.
  intros Hf Hx. rewrite (Hf x Hx). rewrite <-(length_be_bytes n x) at 1. apply le_bytes_combine, be_bytes_bytes.
Qed.

Lemma flip_back n flip x :
  flips_bytes n flip -> 0 <= x < 256 ^ Z.of_nat n -> flip (le_combine (be_bytes n x)) = x.
Proof.
  intros Hf Hx. rewrite Hf by apply le_combine_be_range. unfold be_bytes at 1.
  rewrite <-(length_be_bytes n x) at 1. rewrite le_bytes_combine by apply be_bytes_bytes.
  unfold be_bytes. rewrite rev_involutive, le_combine_bytes. by apply Z.mod_small.
Qed.

(** ** Codecs *)
Section Codecs.
Context (flip : bool) (cw cr : option Converter.TextConverter).

(** A writer and a reader at some point of the stream. *)
Definition wstate (out : list Z) : Writer.BinaryWriter :=
  {| Writer._ostr := out; Writer._flipBytes := flip; Writer._pTextConverter := cw |}.
Definition rstate (input : list Z) : Reader.BinaryReader :=
  {| Reader.rest := input; Reader.eofbit := false; Reader.failbit := false; Reader._flipBytes := flip; Reader._pTextConverter := cr |}.

(** [ok v]: the values that are written; [fits v]: what the variable may hold
    before it is read. *)
Class Codec {T} (write : T -> ST Writer.BinaryWriter unit) (read : T -> ST Reader.BinaryReader T) (ok fits : T -> Prop) : Prop :=
  codec_law : forall v, ok v -> exists bytes,
    (forall out, write v (wstate out) = (Done tt, wstate (out ++ bytes)))
    /\ (forall old tail, fits old -> read old (rstate (bytes ++ tail)) = (Done v, rstate tail)).

Lemma get_bytes_run n bs tail : length bs = n -> Reader.get_bytes n (rstate (bs ++ tail)) = (Done bs, rstate tail).
Proof.
  intros <-. unfold Reader.get_bytes. rewrite bind_get. cbn [Reader.good Reader.eofbit Reader.failbit rstate negb andb Reader.rest].
  rewrite (proj2 (Nat.leb_le _ _)) by (rewrite length_app; lia). unfold Reader.set_stream. rewrite bind_modify.
  by rewrite take_app_length, drop_app_length.
Qed.

Lemma writer_put_run bs out : Writer.put bs (wstate out) = (Done tt, wstate (out ++ bs)).
Proof. done. Qed.

Lemma overwrite_all old got : (length old <= length got)%nat -> Reader.overwrite old got = got.
Proof. intros H. unfold Reader.overwrite. by rewrite drop_ge, app_nil_r. Qed.

(** *** Integers *)
Definition in_word (n : nat) (x : Z) : Prop := 0 <= x < 256 ^ Z.of_nat n.

Lemma word_codec n f : flips_bytes n f -> Codec (Writer.put_word n f) (Reader.get_word n f) (in_word n) (fun _ => True).
Proof.
  intros Hf v Hv. exists (if flip then be_bytes n v else le_bytes n v).
  assert (Hlen : length (if flip then be_bytes n v else le_bytes n v) = n)
    by (destruct flip; [apply length_be_bytes|apply length_le_bytes]).
  split.
  - intros out. unfold Writer.put_word. rewrite bind_get. cbn [Writer._flipBytes wstate].
    by destruct flip; [rewrite (flip_bytes n f v Hf Hv)|].
  - intros old tail _. unfold Reader.get_word. rewrite (bind_Done _ _ _ _ _ (get_bytes_run n _ tail Hlen)), bind_get.
    rewrite overwrite_all by (rewrite length_le_bytes; lia). cbn [Reader._flipBytes rstate]. unfold ret. do 2 f_equal.
    destruct flip; [by apply flip_back|]. rewrite le_combine_bytes. by apply Z.mod_small.
Qed.

Lemma byte_codec : Codec (fun v => Writer.put [u8 v]) Reader.get_byte is_byte (fun _ => True).
Proof.
  intros v Hv. exists [v]. split; [intros out; by rewrite (u8_id v Hv)|]. intros old tail _. unfold Reader.get_byte.
  rewrite (bind_Done _ _ _ _ _ (get_bytes_run 1 [v] tail eq_refl)), overwrite_all by done. unfold ret. cbn [le_combine]. do 2 f_equal. lia.
Qed.

(** The operators convert to an unsigned type before and back after. *)
Lemma codec_convert (w : Z -> ST Writer.BinaryWriter unit) r ok ok' (f g h : Z -> Z) :
  Codec w r ok (fun _ => True) -> (forall v, ok' v -> ok (f v) /\ g (f v) = v) ->
  Codec (fun v => w (f v)) (fun old => let* v := r (h old) in ret (g v)) ok' (fun _ => True).
Proof.
  intros C Hok v Hv. destruct (Hok v Hv) as [Hf Hg]. destruct (C (f v) Hf) as (bs & Hw & Hr). exists bs. split; [done|].
  intros old tail _. rewrite (bind_Done _ _ _ _ _ (Hr (h old) tail I)). by rewrite Hg.
Qed.

Lemma codec_truncate (w : Z -> ST Writer.BinaryWriter unit) r ok (f : Z -> Z) :
  Codec w r ok (fun _ => True) -> (forall v, ok v -> f v = v) -> Codec (fun v => w (f v)) r ok (fun _ => True).
Proof.
  intros C Hok v Hv. destruct (C v Hv) as (bs & Hw & Hr). exists bs. by rewrite (Hok v Hv).
Qed.

Definition signed (w : Z) (v : Z) : Prop := - 2 ^ (w - 1) <= v < 2 ^ (w - 1).

Lemma signed_back w v : 0 < w -> signed w v -> 0 <= v mod 2 ^ w < 2 ^ w /\ swrap w (v mod 2 ^ w) = v.
Proof.
  intros Hw [H1 H2]. assert (E : 2 ^ w = 2 * 2 ^ (w - 1)) by (rewrite <-Z.pow_succ_r by lia; f_equal; lia).
  assert (0 < 2 ^ (w - 1)) by (apply Z.pow_pos_nonneg; lia). split; [apply Z.mod_pos_bound; lia|].
  unfold swrap. rewrite Zplus_mod_idemp_l, Z.mod_small by lia. lia.
Qed.

Lemma bool_codec : Codec (fun v => Writer.write_bool (v =? 1)) Reader.read_bool (fun v => v = 0 \/ v = 1) (fun _ => True).
Proof.
  intros v Hv. destruct (byte_codec v) as (bs & Hw & Hr); [unfold is_byte; lia|]. exists bs. split; [|done].
  intros out. rewrite <-Hw. by destruct Hv as [-> | ->].
Qed.

Lemma char_codec : Codec Writer.write_char Reader.read_char is_byte (fun _ => True).
Proof. exact byte_codec. Qed.
Lemma unsigned_char_codec : Codec Writer.write_unsigned_char Reader.read_unsigned_char is_byte (fun _ => True).
Proof. exact byte_codec. Qed.

Lemma signed_char_codec : Codec Writer.write_signed_char Reader.read_signed_char (signed 8) (fun _ => True).
Proof.
  intros v Hv. destruct (codec_convert _ _ _ (signed 8) u8 s8 u8 byte_codec) with (v := v) as (bs & Hw & Hr); [|done|].
  - intros x Hx. by apply (signed_back 8 x).
  - exists bs. split; [|done]. intros out. rewrite <-Hw. unfold Writer.write_signed_char. by rewrite (u8_id (u8 v)) by apply u8_byte.
Qed.

Lemma short_codec : Codec Writer.write_short Reader.read_short (signed 16) (fun _ => True).
Proof. exact (codec_convert _ _ _ _ u16 s16 u16 (word_codec 2 _ flips_16) (fun v Hv => signed_back 16 v eq_refl Hv)). Qed.
Lemma int_codec : Codec Writer.write_int Reader.read_int (signed 32) (fun _ => True).
Proof. exact (codec_convert _ _ _ _ u32 s32 u32 (word_codec 4 _ flips_32) (fun v Hv => signed_back 32 v eq_refl Hv)). Qed.
Lemma long_codec : Codec Writer.write_long Reader.read_long (signed 64) (fun _ => True).
Proof. exact (codec_convert _ _ _ _ u64 s64 u64 (word_codec 8 _ flips_64) (fun v Hv => signed_back 64 v eq_refl Hv)). Qed.

Lemma unsigned_short_codec : Codec Writer.write_unsigned_short Reader.read_unsigned_short (in_word 2) (fun _ => True).
Proof. exact (codec_truncate _ _ _ u16 (word_codec 2 _ flips_16) (fun v Hv => Z.mod_small v _ Hv)). Qed.
Lemma unsigned_int_codec : Codec Writer.write_unsigned_int Reader.read_unsigned_int (in_word 4) (fun _ => True).
Proof. exact (codec_truncate _ _ _ u32 (word_codec 4 _ flips_32) (fun v Hv => Z.mod_small v _ Hv)). Qed.
Lemma unsigned_long_codec : Codec Writer.write_unsigned_long Reader.read_unsigned_long (in_word 8) (fun _ => True).
Proof. exact (codec_truncate _ _ _ u64 (word_codec 8 _ flips_64) (fun v Hv => Z.mod_small v _ Hv)). Qed.

(** *** Floating point numbers *)
Lemma put_backwards_run n : forall memory out, (n <= length memory)%nat ->
  Writer.put_backwards n memory (wstate out) = (Done tt, wstate (out ++ rev (take n memory))).
Proof.
  induction n as [|n IH]; intros memory out Hn; [cbn; by rewrite app_nil_r|].
  destruct (lookup_lt_is_Some_2 memory n ltac:(lia)) as [b Hb]. cbn [Writer.put_backwards]. rewrite Hb.
  rewrite (bind_Done _ _ _ _ _ (writer_put_run _ out)), IH by lia. rewrite (take_S_r _ _ _ Hb), rev_app_distr. by rewrite <-app_assoc.
Qed.

Lemma get_backwards_run n : forall memory v tail, length memory = length v -> (n <= length v)%nat -> drop n memory = drop n v ->
  Reader.get_backwards n memory (rstate (rev (take n v) ++ tail)) = (Done v, rstate tail).
Proof.
  induction n as [|n IH]; intros memory v tail Hl Hn Hd; [by rewrite !drop_0 in Hd; subst|].
  destruct (lookup_lt_is_Some_2 v n ltac:(lia)) as [b Hb]. cbn [Reader.get_backwards].
  rewrite (take_S_r _ _ _ Hb), rev_app_distr, <-app_assoc. change (rev [b]) with [b].
  rewrite (bind_Done _ _ _ _ _ (get_bytes_run 1 [b] _ eq_refl)). apply IH; [by rewrite length_insert|lia|].
  rewrite (drop_S _ _ _ Hb). rewrite (drop_S (<[n:=b]> memory) b n) by (apply list_lookup_insert_eq; lia).
  by rewrite drop_insert_lt, Hd by lia.
Qed.

Lemma real_codec n : Codec (Writer.write_real n) (Reader.read_real n) (fun v => length v = n) (fun v => length v = n).
Proof.
  intros v Hv. exists (if flip then rev v else v). split.
  - intros out. unfold Writer.write_real. rewrite bind_get. cbn [Writer._flipBytes wstate]. destruct flip eqn:Ef; [|done].
    pose proof (put_backwards_run n v out ltac:(lia)) as E. rewrite E. by rewrite take_ge by lia.
  - intros old tail Hold. unfold Reader.read_real. rewrite bind_get. cbn [Reader._flipBytes rstate]. destruct flip eqn:Ef.
    + pose proof (get_backwards_run n old v tail ltac:(lia) ltac:(lia) ltac:(by rewrite !drop_ge by lia)) as E.
      rewrite take_ge in E by lia. exact E.
    + pose proof (get_bytes_run n v tail Hv) as E. rewrite (bind_Done _ _ _ _ _ E), overwrite_all by lia. done.
Qed.

(** *** Integers in seven-bit groups *)
Fixpoint seven (fuel : nat) (v : Z) : list Z :=
  match fuel with
  | O => []
  | S fuel => if v <? 128 then [v] else (128 + v mod 128) :: seven fuel (v / 128)
  end.

Lemma low_bits c : is_byte c -> Z.land c 0x7F = c mod 128 /\ Z.land c 0x80 = if c <? 128 then 0 else 128.
Proof.
  intros Hc. split; [by rewrite (land_mask c 7)|]. apply Z.eqb_eq.
  revert Hc. apply (allbelow_spec 256 (fun c => Z.land c 0x80 =? if c <? 128 then 0 else 128)). by vm_compute.
Qed.

Lemma write7_run fuel : forall v out, (0 < fuel)%nat -> 0 <= v < 128 ^ Z.of_nat fuel ->
  Writer.write7_loop fuel v (wstate out) = (Done tt, wstate (out ++ seven fuel v)).
Proof.
  induction fuel as [|fuel IH]; intros v out Hf Hv; [lia|]. rewrite Nat2Z.inj_succ, Z.pow_succ_r in Hv by lia.
  cbn [Writer.write7_loop seven]. rewrite (land_mask v 7), Z.shiftr_div_pow2 by done. change (2 ^ 7) with 128.
  rewrite (u8_id (v mod 128)) by (unfold is_byte; lia). destruct (Z.ltb_spec v 128) as [Hlt|Hge].
  - rewrite (Z.div_small v 128), (Z.mod_small v 128) by lia. cbn [Z.eqb negb]. by rewrite (bind_Done _ _ _ _ _ (writer_put_run _ out)).
  - rewrite (proj2 (Z.eqb_neq (v / 128) 0)) by lia. cbn [negb]. rewrite (bind_Done _ _ _ _ _ (writer_put_run _ out)).
    assert (0 < fuel)%nat by (destruct fuel; [cbn in Hv|]; lia).
    rewrite IH by lia. rewrite <-app_assoc. cbn [app]. do 3 f_equal.
    rewrite Z.lor_comm. change (Z.lor 0x80) with (Z.lor (Z.shiftl 1 7)). by rewrite lor_shiftl_add by lia.
Qed.

(** One round of the loop, with the byte it reads. *)
Lemma read7_byte fuel w value s c tail :
  is_byte c -> 0 <= s < w ->
  Reader.read7_loop (S fuel) w value s (rstate (c :: tail))
  = let value' := (value + (c mod 128 * 2 ^ s) mod 2 ^ w) mod 2 ^ w in
    (if c <? 128 then ret value' else Reader.read7_loop fuel w value' (s + 7)) (rstate tail).
Proof.
  intros Hc [Hs0 Hs]. cbn [Reader.read7_loop].
  rewrite (bind_Done _ _ _ _ _ (get_bytes_run 1 [c] tail eq_refl : Reader.get_bytes 1 (rstate (c :: tail)) = _)).
  rewrite (proj2 (Z.leb_gt w s)) by done. destruct (low_bits c Hc) as [-> ->]. cbv zeta.
  rewrite Z.shiftl_mul_pow2 by done. by destruct (c <? 128).
Qed.

Lemma read7_run n : forall fuel w value s v tail,
  0 <= v < 128 ^ Z.of_nat n -> (0 < n)%nat -> (length (seven n v) <= fuel)%nat -> 0 <= s < w -> 0 <= value -> value + v * 2 ^ s < 2 ^ w ->
  Reader.read7_loop fuel w value s (rstate (seven n v ++ tail)) = (Done (value + v * 2 ^ s), rstate tail).
Proof.
  induction n as [|n IH]; intros fuel w value s v tail Hv Hn Hf Hs Hval Hsum; [lia|].
  rewrite Nat2Z.inj_succ, Z.pow_succ_r in Hv by lia.
  assert (Hp : 0 < 2 ^ s) by (apply Z.pow_pos_nonneg; lia). cbn [seven] in *.
  destruct (Z.ltb_spec v 128) as [Hlt|Hge]; cbn [app length] in *; (destruct fuel as [|fuel]; [lia|]).
  - rewrite read7_byte by (unfold is_byte; lia). cbv zeta. rewrite (proj2 (Z.ltb_lt v 128)), (Z.mod_small v 128) by lia.
    rewrite (Z.mod_small (v * 2 ^ s)), Z.mod_small by nia. done.
  - pose proof (Z.div_mod v 128 ltac:(lia)) as Hdm. pose proof (Z.mod_pos_bound v 128 ltac:(lia)) as Hm.
    set (q := v / 128) in *. set (m := v mod 128) in *. clearbody q m.
    rewrite read7_byte by (unfold is_byte; lia). cbv zeta. rewrite (proj2 (Z.ltb_ge (128 + m) 128)) by lia.
    rewrite (Z.add_comm 128 m), <-(Z.mul_1_l 128) at 1. rewrite Z.mod_add, (Z.mod_small m) by lia.
    assert (Hpow : 2 ^ (s + 7) = 128 * 2 ^ s) by (rewrite Z.pow_add_r by lia; lia).
    assert (Hs7 : s + 7 < w) by (apply (Z.pow_lt_mono_r_iff 2); nia).
    assert (0 < n)%nat by (destruct n; [cbn in Hv|]; lia).
    rewrite (Z.mod_small (m * 2 ^ s)), Z.mod_small by nia. rewrite IH by (rewrite ?Hpow; nia || lia).
    do 2 f_equal. rewrite Hpow. nia.
Qed.

Lemma seven_length n v : (1 <= n)%nat -> (1 <= length (seven n v) <= n)%nat.
Proof.
  revert v. induction n as [|[|n] IH]; intros v Hn; [lia|cbn; destruct (v <? 128); cbn; lia|].
  cbn [seven]. destruct (v <? 128); [cbn; lia|]. specialize (IH (v / 128) ltac:(lia)). cbn [length]. cbn [seven] in IH. lia.
Qed.

Lemma seven_codec n w : (0 < n)%nat -> 2 ^ w <= 128 ^ Z.of_nat n -> 0 < w ->
  Codec (Writer.write7_loop n) (fun _ => let* r := get in Reader.read7_loop (S (length (Reader.rest r))) w 0 0)
    (fun v => 0 <= v < 2 ^ w) (fun _ => True).
Proof.
  intros Hn Hw Hpos v Hv. exists (seven n v). split; [intros out; apply write7_run; lia|].
  intros old tail _. rewrite bind_get. rewrite (read7_run n) by (cbn [Reader.rest rstate]; rewrite ?length_app; lia).
  do 2 f_equal. lia.
Qed.

Lemma seven32_codec : Codec Writer.write7BitEncoded (fun _ => Reader.read7BitEncoded) (fun v => 0 <= v < 2 ^ 32) (fun _ => True).
Proof. by apply (seven_codec 5 32); [lia|..]. Qed.
Lemma seven64_codec : Codec Writer.write7BitEncoded64 (fun _ => Reader.read7BitEncoded64) (fun v => 0 <= v < 2 ^ 64) (fun _ => True).
Proof. by apply (seven_codec 10 64); [lia|..]. Qed.

Lemma length_seven_range (t : list Z) : Z.of_nat (length t) < 2 ^ 32 -> 0 <= Z.of_nat (length t) < 128 ^ Z.of_nat 5.
Proof. change (128 ^ Z.of_nat 5) with 34359738368. lia. Qed.

(** *** Texts *)
Lemma get_chars_run t : forall fuel acc tail, (length t <= fuel)%nat ->
  Reader.get_chars fuel (Z.of_nat (length t)) acc (rstate (t ++ tail)) = (Done (acc ++ t), rstate tail).
Proof.
  induction t as [|c t IH]; intros fuel acc tail Hf; [destruct fuel; cbn; by rewrite app_nil_r|].
  destruct fuel as [|fuel]; [simpl in Hf; lia|]. cbn [length Reader.get_chars].
  rewrite (proj2 (Z.eqb_neq _ 0)) by lia.
  rewrite (bind_Done _ _ _ _ _ (get_bytes_run 1 [c] (t ++ tail) eq_refl : Reader.get_bytes 1 (rstate ((c :: t) ++ tail)) = _)), bind_get.
  cbn [Reader.good Reader.eofbit Reader.failbit rstate negb andb].
  replace (Z.of_nat (S (length t)) - 1) with (Z.of_nat (length t)) by lia. rewrite IH by (simpl in Hf; lia). by rewrite <-app_assoc.
Qed.

(** A text in its stored form: its length and its bytes. *)
Definition stored (t : list Z) : list Z := seven 5 (Z.of_nat (length t)) ++ t.

Lemma put_text_run t out : Z.of_nat (length t) < 2 ^ 32 ->
  Writer.put_text t (wstate out) = (Done tt, wstate (out ++ stored t)).
Proof.
  intros Ht. unfold Writer.put_text, u32. rewrite Z.mod_small by lia.
  rewrite (bind_Done _ _ _ _ _ (write7_run 5 _ out ltac:(lia) (length_seven_range t Ht) : Writer.write7BitEncoded _ _ = _)).
  rewrite writer_put_run, Nat2Z.id, firstn_all. unfold stored. by rewrite <-app_assoc.
Qed.

(** What the converters of the two sides make of a text: [t] is stored. *)
Definition converts (convert : Converter.TextConverter -> list Z -> res (Z * list Z)) (s t : list Z) : Prop :=
  Z.of_nat (length t) < 2 ^ 32 /\
  match cw, cr with
  | None, None => t = s
  | Some A, Some B => (exists e, convert A s = Done (e, t)) /\ exists e, Converter.convert B (fun c => c) t [] = Done (e, s)
  | _, _ => False
  end.

Lemma read_string_run convert s t old tail : converts convert s t ->
  Reader.read_string old (rstate (stored t ++ tail)) = (Done s, rstate tail).
Proof.
  intros [Hlen Hc]. unfold Reader.read_string, stored. rewrite <-app_assoc.
  destruct (seven32_codec (Z.of_nat (length t))) as (bs & Hw & Hr); [lia|].
  pose proof (write7_run 5 _ [] ltac:(lia) (length_seven_range t Hlen)) as Hw'.
  assert (bs = seven 5 (Z.of_nat (length t))) as ->.
  { specialize (Hw []). unfold Writer.write7BitEncoded in Hw. rewrite Hw in Hw'. by injection Hw'. }
  rewrite (bind_Done _ _ _ _ _ (Hr 0 _ I)), bind_get. cbn [Reader.good Reader.eofbit Reader.failbit rstate negb andb Reader.rest].
  assert (Hchars := get_chars_run t (S (length (t ++ tail))) [] tail ltac:(rewrite length_app; lia)).
  rewrite (bind_Done _ _ _ _ _ Hchars), bind_get. cbn [Reader._pTextConverter rstate app].
  destruct cw as [A|], cr as [B|]; try done; [|by subst]. destruct Hc as [_ [e HB]]. unfold lift, bind. rewrite HB. done.
Qed.

Lemma string_codec :
  Codec Writer.write_string Reader.read_string (fun s => exists t, converts (fun C s => Converter.convert C (fun c => c) s []) s t) (fun _ => True).
Proof.
  intros s [t Ht]. exists (stored t). split; [|intros; by eapply read_string_run]. intros out. destruct Ht as [Hlen Hc].
  unfold Writer.write_string. rewrite bind_get. cbn [Writer._pTextConverter wstate].
  destruct cw as [A|] eqn:Ea, cr as [B|]; try done; [|subst t; by apply put_text_run].
  destruct Hc as [[e HA] _]. unfold bind at 1, lift. rewrite HA. by apply put_text_run.
Qed.

Lemma cstr_codec :
  Codec (fun s => Writer.write_cstr (Some s)) Reader.read_string
    (fun s => exists t, converts (fun C s => Converter.convert_bytes C (fun c => c) s []) s t) (fun _ => True).
Proof.
  intros s [t Ht]. exists (stored t). split; [|intros; by eapply read_string_run]. intros out. destruct Ht as [Hlen Hc].
  unfold Writer.write_cstr. rewrite bind_get. cbn [Writer._pTextConverter wstate].
  destruct cw as [A|] eqn:Ea, cr as [B|]; try done; [|subst t; by apply put_text_run].
  destruct Hc as [[e HA] _]. unfold bind at 1, lift. rewrite HA. by apply put_text_run.
Qed.

Lemma raw_codec n : Codec Writer.writeRaw (fun _ => Reader.readRaw n) (fun s => length s = n) (fun _ => True).
Proof.
  intros s <-. exists s. split; [done|]. intros old tail _. unfold Reader.readRaw. rewrite bind_get.
  apply get_chars_run. cbn [Reader.rest rstate]. rewrite length_app. lia.
Qed.

(** *** Vectors *)
Lemma elements_run {T} (write : T -> ST Writer.BinaryWriter unit) read ok fits (l : list T) :
  Codec write read ok fits -> (forall v, ok v -> fits v) -> Forall ok l ->
  exists bytes, (forall out, Writer.write_elements write l (wstate out) = (Done tt, wstate (out ++ bytes)))
    /\ (forall elem acc tail, fits elem ->
          Reader.get_elements read (length l) (Z.of_nat (length l)) elem acc (rstate (bytes ++ tail)) = (Done (acc ++ l), rstate tail)).
Proof.
  intros C Hfits Hl. induction Hl as [|v l Hv Hl IH].
  - exists []. split; [intros out; cbn; by rewrite app_nil_r|]. intros elem acc tail _. cbn. by rewrite app_nil_r.
  - destruct IH as (bs & Hw & Hr). destruct (C v Hv) as (b & Hwv & Hrv). exists (b ++ bs). split.
    + intros out. cbn [Writer.write_elements]. by rewrite (bind_Done _ _ _ _ _ (Hwv out)), Hw, app_assoc.
    + intros elem acc tail Helem. cbn [length Reader.get_elements]. rewrite bind_get.
      cbn [Reader.good Reader.eofbit Reader.failbit rstate negb andb orb]. rewrite (proj2 (Z.leb_gt _ 0)) by lia.
      rewrite <-app_assoc, (bind_Done _ _ _ _ _ (Hrv elem _ Helem)).
      replace (Z.of_nat (S (length l)) - 1) with (Z.of_nat (length l)) by lia. rewrite Hr by auto. by rewrite <-app_assoc.
Qed.

Lemma vector_codec {T} (write : T -> ST Writer.BinaryWriter unit) read ok fits elem :
  Codec write read ok fits -> (forall v, ok v -> fits v) -> fits elem ->
  Codec (Writer.write_vector write) (Reader.read_vector read elem)
    (fun l => Forall ok l /\ Z.of_nat (length l) < 2 ^ 32) (fun old => old = []).
Proof.
  intros C Hfits Helem l [Hl Hlen]. destruct (elements_run write read ok fits l C Hfits Hl) as (bs & Hw & Hr).
  destruct (unsigned_int_codec (Z.of_nat (length l))) as (b & Hwn & Hrn); [split; [lia|]; cbn; lia|].
  exists (b ++ bs). split.
  - intros out. unfold Writer.write_vector, u32. rewrite Z.mod_small by lia.
    by rewrite (bind_Done _ _ _ _ _ (Hwn out)), Hw, app_assoc.
  - intros old tail ->. unfold Reader.read_vector. rewrite <-app_assoc, (bind_Done _ _ _ _ _ (Hrn 0 _ I)), bind_get.
    cbn [Reader.good Reader.eofbit Reader.failbit rstate negb andb]. rewrite Nat2Z.id. by apply Hr.
Qed.
End Codecs.
