(* ===== verification/BinaryClaims.v ===== *)
(** Theorems on BinaryReader and BinaryWriter: round trips of whole streams,
    and what a stored seven-bit integer may look like. *)

From S2P Require Import Prelude Encodings TextConv BinaryStream BinaryFacts.
From stdpp Require Import list.

Open Scope st_scope.
Local Open Scope Z_scope.

(** ** Streams of values *)

(** The operators of the two classes, with a value or, on reading, with what
    the variable holds. *)
Inductive item :=
| IBool (v : Z) | IChar (v : Z) | IUnsignedChar (v : Z) | ISignedChar (v : Z)
| IShort (v : Z) | IUnsignedShort (v : Z) | IInt (v : Z) | IUnsignedInt (v : Z) | ILong (v : Z) | IUnsignedLong (v : Z)
| IFloat (v : list Z) | IDouble (v : list Z)
| IString (v : list Z) | ICStr (v : list Z) | IRaw (v : list Z)
| I7Bit (v : Z) | I7Bit64 (v : Z)
| IInts (v : list Z) | IStrings (v : list (list Z)).

Definition write_item (i : item) : ST Writer.BinaryWriter unit :=
  match i with
  | IBool v => Writer.write_bool (v =? 1)
  | IChar v => Writer.write_char v
  | IUnsignedChar v => Writer.write_unsigned_char v
  | ISignedChar v => Writer.write_signed_char v
  | IShort v => Writer.write_short v
  | IUnsignedShort v => Writer.write_unsigned_short v
  | IInt v => Writer.write_int v
  | IUnsignedInt v => Writer.write_unsigned_int v
  | ILong v => Writer.write_long v
  | IUnsignedLong v => Writer.write_unsigned_long v
  | IFloat v => Writer.write_float v
  | IDouble v => Writer.write_double v
  | IString v => Writer.write_string v
  | ICStr v => Writer.write_cstr (Some v)
  | IRaw v => Writer.writeRaw v
  | I7Bit v => Writer.write7BitEncoded v
  | I7Bit64 v => Writer.write7BitEncoded64 v
  | IInts v => Writer.write_vector Writer.write_int v
  | IStrings v => Writer.write_vector Writer.write_string v
  end.

Definition as_item {T} (k : T -> item) (m : ST Reader.BinaryReader T) : ST Reader.BinaryReader item := let* v := m in ret (k v).

Definition read_item (i : item) : ST Reader.BinaryReader item :=
  match i with
  | IBool v => as_item IBool (Reader.read_bool v)
  | IChar v => as_item IChar (Reader.read_char v)
  | IUnsignedChar v => as_item IUnsignedChar (Reader.read_unsigned_char v)
  | ISignedChar v => as_item ISignedChar (Reader.read_signed_char v)
  | IShort v => as_item IShort (Reader.read_short v)
  | IUnsignedShort v => as_item IUnsignedShort (Reader.read_unsigned_short v)
  | IInt v => as_item IInt (Reader.read_int v)
  | IUnsignedInt v => as_item IUnsignedInt (Reader.read_unsigned_int v)
  | ILong v => as_item ILong (Reader.read_long v)
  | IUnsignedLong v => as_item IUnsignedLong (Reader.read_unsigned_long v)
  | IFloat v => as_item IFloat (Reader.read_float v)
  | IDouble v => as_item IDouble (Reader.read_double v)
  | IString v => as_item IString (Reader.read_string v)
  | ICStr v => as_item ICStr (Reader.read_string v)
  | IRaw v => as_item IRaw (Reader.readRaw (length v))
  | I7Bit _ => as_item I7Bit Reader.read7BitEncoded
  | I7Bit64 _ => as_item I7Bit64 Reader.read7BitEncoded64
  | IInts v => as_item IInts (Reader.read_vector Reader.read_int 0 v)
  | IStrings v => as_item IStrings (Reader.read_vector Reader.read_string [] v)
  end.

Fixpoint write_items (l : list item) : ST Writer.BinaryWriter unit :=
  match l with [] => ret tt | i :: l => do* write_item i; write_items l end.

Fixpoint read_items (l : list item) : ST Reader.BinaryReader (list item) :=
  match l with
  | [] => ret []
  | i :: l => let* v := read_item i in let* vs := read_items l in ret (v :: vs)
  end.

Section Items.
Context (cw cr : option Converter.TextConverter).

(** Strings of which a converter and its inverse give the text back. *)
Definition text_ok (s : list Z) : Prop := exists t, converts cw cr (fun C s => Converter.convert C (fun c => c) s []) s t.
Definition cstr_ok (s : list Z) : Prop := exists t, converts cw cr (fun C s => Converter.convert_bytes C (fun c => c) s []) s t.

(** A value of the type that is read into a variable. *)
Definition readable (i var : item) : Prop :=
  match i, var with
  | IBool v, IBool _ => v = 0 \/ v = 1
  | IChar v, IChar _ | IUnsignedChar v, IUnsignedChar _ => is_byte v
  | ISignedChar v, ISignedChar _ => signed 8 v
  | IShort v, IShort _ => signed 16 v
  | IInt v, IInt _ => signed 32 v
  | ILong v, ILong _ => signed 64 v
  | IUnsignedShort v, IUnsignedShort _ => 0 <= v < 2 ^ 16
  | IUnsignedInt v, IUnsignedInt _ => 0 <= v < 2 ^ 32
  | IUnsignedLong v, IUnsignedLong _ => 0 <= v < 2 ^ 64
  | IFloat v, IFloat old => length v = 4%nat /\ length old = 4%nat
  | IDouble v, IDouble old => length v = 8%nat /\ length old = 8%nat
  | IString v, IString _ => text_ok v
  | ICStr v, ICStr _ => cstr_ok v
  | IRaw v, IRaw old => length v = length old
  | I7Bit v, I7Bit _ => 0 <= v < 2 ^ 32
  | I7Bit64 v, I7Bit64 _ => 0 <= v < 2 ^ 64
  | IInts v, IInts old => (Forall (signed 32) v /\ Z.of_nat (length v) < 2 ^ 32) /\ old = []
  | IStrings v, IStrings old => (Forall text_ok v /\ Z.of_nat (length v) < 2 ^ 32) /\ old = []
  | _, _ => False
  end.

Context (flip : bool).
Local Abbreviation W := (wstate flip cw).
Local Abbreviation R := (rstate flip cr).

(** The bytes of an item are those its codec writes. *)
Definition item_bytes (i var : item) : Prop := exists bytes,
  (forall out, write_item i (W out) = (Done tt, W (out ++ bytes)))
  /\ (forall tail, read_item var (R (bytes ++ tail)) = (Done i, R tail)).

Lemma codec_item {T} (k : T -> item) write read ok fits v old var :
  Codec flip cw cr write read ok fits -> ok v -> fits old ->
  write_item (k v) = write v -> read_item var = as_item k (read old) -> item_bytes (k v) var.
Proof.
  intros C Hv Hold Ew Er. destruct (C v Hv) as (bs & Hw & Hr). exists bs. rewrite Ew, Er. split; [done|].
  intros tail. unfold as_item. by rewrite (bind_Done _ _ _ _ _ (Hr old tail Hold)).
Qed.

Lemma readable_bytes i var : readable i var -> item_bytes i var.
Proof.
  destruct i, var; try done; cbn [readable]; intros H.
  - exact (codec_item IBool _ _ _ _ v v0 (IBool v0) (bool_codec flip cw cr) H I eq_refl eq_refl).
  - exact (codec_item IChar _ _ _ _ v v0 (IChar v0) (char_codec flip cw cr) H I eq_refl eq_refl).
  - exact (codec_item IUnsignedChar _ _ _ _ v v0 (IUnsignedChar v0) (unsigned_char_codec flip cw cr) H I eq_refl eq_refl).
  - exact (codec_item ISignedChar _ _ _ _ v v0 (ISignedChar v0) (signed_char_codec flip cw cr) H I eq_refl eq_refl).
  - exact (codec_item IShort _ _ _ _ v v0 (IShort v0) (short_codec flip cw cr) H I eq_refl eq_refl).
  - exact (codec_item IUnsignedShort _ _ _ _ v v0 (IUnsignedShort v0) (unsigned_short_codec flip cw cr) H I eq_refl eq_refl).
  - exact (codec_item IInt _ _ _ _ v v0 (IInt v0) (int_codec flip cw cr) H I eq_refl eq_refl).
  - exact (codec_item IUnsignedInt _ _ _ _ v v0 (IUnsignedInt v0) (unsigned_int_codec flip cw cr) H I eq_refl eq_refl).
  - exact (codec_item ILong _ _ _ _ v v0 (ILong v0) (long_codec flip cw cr) H I eq_refl eq_refl).
  - exact (codec_item IUnsignedLong _ _ _ _ v v0 (IUnsignedLong v0) (unsigned_long_codec flip cw cr) H I eq_refl eq_refl).
  - exact (codec_item IFloat _ _ _ _ v v0 (IFloat v0) (real_codec flip cw cr 4) (proj1 H) (proj2 H) eq_refl eq_refl).
  - exact (codec_item IDouble _ _ _ _ v v0 (IDouble v0) (real_codec flip cw cr 8) (proj1 H) (proj2 H) eq_refl eq_refl).
  - exact (codec_item IString _ _ _ _ v v0 (IString v0) (string_codec flip cw cr) H I eq_refl eq_refl).
  - exact (codec_item ICStr _ _ _ _ v v0 (ICStr v0) (cstr_codec flip cw cr) H I eq_refl eq_refl).
  - exact (codec_item IRaw _ _ _ _ v [] (IRaw v0) (raw_codec flip cw cr (length v0)) H I eq_refl eq_refl).
  - exact (codec_item I7Bit _ _ _ _ v 0 (I7Bit v0) (seven32_codec flip cw cr) H I eq_refl eq_refl).
  - exact (codec_item I7Bit64 _ _ _ _ v 0 (I7Bit64 v0) (seven64_codec flip cw cr) H I eq_refl eq_refl).
  - destruct H as [H1 ->].
    exact (codec_item IInts _ _ _ _ v [] (IInts []) (vector_codec flip cw cr _ _ _ _ 0 (int_codec flip cw cr) (fun _ _ => I) I) H1 eq_refl eq_refl eq_refl).
  - destruct H as [H1 ->].
    exact (codec_item IStrings _ _ _ _ v [] (IStrings []) (vector_codec flip cw cr _ _ _ _ [] (string_codec flip cw cr) (fun _ _ => I) I) H1 eq_refl eq_refl eq_refl).
Qed.

Lemma items_bytes l vars : Forall2 readable l vars -> exists bytes,
  (forall out, write_items l (W out) = (Done tt, W (out ++ bytes)))
  /\ (forall tail, read_items vars (R (bytes ++ tail)) = (Done l, R tail)).
Proof.
  induction 1 as [|i var l vars Hi _ (bs & Hw & Hr)].
  - exists []. split; [intros out; cbn; by rewrite app_nil_r|done].
  - destruct (readable_bytes i var Hi) as (b & Hwi & Hri). exists (b ++ bs). split.
    + intros out. cbn [write_items]. by rewrite (bind_Done _ _ _ _ _ (Hwi out)), Hw, app_assoc.
    + intros tail. cbn [read_items]. rewrite <-app_assoc, (bind_Done _ _ _ _ _ (Hri _)), (bind_Done _ _ _ _ _ (Hr tail)). done.
Qed.
End Items.

(** The byte order mark tells the reader the order of the writer. *)
Lemma bom_bytes flip cw cr : exists bytes,
  (forall out, Writer.writeBOM (wstate flip cw out) = (Done tt, wstate flip cw (out ++ bytes)))
  /\ (forall flip' junk tail, Reader.readBOM junk (rstate flip' cr (bytes ++ tail)) = (Done tt, rstate flip cr tail)).
Proof.
  exists (if flip then [0xFE; 0xFF] else [0xFF; 0xFE]). split; [by destruct flip|].
  intros flip' junk tail. unfold Reader.readBOM.
  rewrite (bind_Done _ _ _ _ _ (get_bytes_run flip' cr 2 (if flip then [0xFE; 0xFF] else [0xFF; 0xFE]) tail ltac:(by destruct flip))).
  rewrite overwrite_all by by destruct flip. by destruct flip.
Qed.

(** ** Claims *)

(** C39: whatever a BinaryWriter of either byte order writes behind its byte
    order mark (truth values, characters, integers, floating point numbers,
    strings through the text converters, raw data, seven-bit integers,
    vectors), a BinaryReader that starts with any byte order reads back, value
    by value, whatever its variables held before; it consumes exactly what
    was written, and the stream stays good. *)
Theorem binary_roundtrip wo ro cw cr items vars (H : Forall2 (readable cw cr) items vars) :
  exists bytes,
    (do* Writer.writeBOM; write_items items) (Writer.construct wo cw)
      = (Done tt, {| Writer._ostr := bytes; Writer._flipBytes := flips wo; Writer._pTextConverter := cw |})
    /\ forall junk tail, exists r,
         (do* Reader.readBOM junk; read_items vars) (Reader.construct (bytes ++ tail) ro cr) = (Done items, r)
         /\ Reader.rest r = tail /\ Reader.good r = true /\ Reader.byteOrder r = if flips wo then BIG_ENDIAN_BYTE_ORDER else LITTLE_ENDIAN_BYTE_ORDER.
Proof.
  destruct (bom_bytes (flips wo) cw cr) as (b & Hwb & Hrb). destruct (items_bytes cw cr (flips wo) items vars H) as (bs & Hw & Hr).
  exists (b ++ bs). split; [by rewrite (bind_Done _ _ _ _ _ (Hwb [])), Hw|].
  intros junk tail. exists (rstate (flips wo) cr tail). split; [|done].
  change (Reader.construct ((b ++ bs) ++ tail) ro cr) with (rstate (flips ro) cr ((b ++ bs) ++ tail)).
  by rewrite <-app_assoc, (bind_Done _ _ _ _ _ (Hrb _ junk _)).
Qed.

Definition to_latin1 : Converter.TextConverter :=
  {| Converter._inEncoding := UTF8.encoding; Converter._outEncoding := Latin1.encoding; Converter._defaultChar := 63 |}.
Definition from_latin1 : Converter.TextConverter :=
  {| Converter._inEncoding := Latin1.encoding; Converter._outEncoding := UTF8.encoding; Converter._defaultChar := 63 |}.

Lemma binary_roundtrip_witness :
  exists bytes,
    (do* Writer.writeBOM; write_items [IInt (-2); IString [195; 169]; I7Bit 624485]) (Writer.construct BIG_ENDIAN_BYTE_ORDER (Some to_latin1))
      = (Done tt, {| Writer._ostr := bytes; Writer._flipBytes := true; Writer._pTextConverter := Some to_latin1 |})
    /\ forall junk tail, exists r,
         (do* Reader.readBOM junk; read_items [IInt 0; IString []; I7Bit 0]) (Reader.construct (bytes ++ tail) LITTLE_ENDIAN_BYTE_ORDER (Some from_latin1))
           = (Done [IInt (-2); IString [195; 169]; I7Bit 624485], r)
         /\ Reader.rest r = tail /\ Reader.good r = true /\ Reader.byteOrder r = BIG_ENDIAN_BYTE_ORDER.
Proof.
  apply (binary_roundtrip BIG_ENDIAN_BYTE_ORDER LITTLE_ENDIAN_BYTE_ORDER (Some to_latin1) (Some from_latin1)).
  constructor; [cbn; unfold signed; lia|]. constructor; [|constructor; [cbn; lia|constructor]].
  exists [233]. split; [done|]. split; exists 0; vm_compute; reflexivity.
Defined.

(** ** Seven-bit integers of any input *)

(** The first [j] bytes are there and each promises another one. *)
Definition overlong (j : nat) (input : list Z) : bool := (j <=? length input)%nat && forallb (fun b => 128 <=? b) (take j input).

Lemma read7_any j : forall fuel w value s input flip cr,
  0 <= s -> w <= s + 7 * Z.of_nat j -> (j = 0%nat \/ s + 7 * (Z.of_nat j - 1) < w) -> 0 <= value < 2 ^ w ->
  Forall is_byte input -> (length input < fuel)%nat ->
  let r := fst (Reader.read7_loop fuel w value s (rstate flip cr input)) in
  if overlong j input then r = UB else exists v, r = Done v /\ 0 <= v < 2 ^ w.
Proof.
  induction j as [|j IH]; intros fuel w value s input flip cr Hs Hw Hj Hval Hin Hf; (destruct fuel as [|fuel]; [lia|]).
  - cbn [Reader.read7_loop].
    assert (Hget : exists got st, Reader.get_bytes 1 (rstate flip cr input) = (Done got, st)) by (destruct input; eexists _, _; reflexivity).
    destruct Hget as (got & st & E). rewrite (bind_Done _ _ _ _ _ E), (proj2 (Z.leb_le w s)) by lia. done.
  - destruct Hj as [|Hj]; [done|]. destruct Hin as [|c input Hc Hin].
    + cbn -[Z.leb Z.modulo Z.pow]. unfold bind. cbn -[Z.leb Z.modulo Z.pow]. rewrite (proj2 (Z.leb_gt w s)) by lia. cbn -[Z.modulo Z.pow].
      eexists. split; [reflexivity|]. apply Z.mod_pos_bound. lia.
    + rewrite read7_byte by (done || lia). cbv zeta. unfold overlong. cbn [length Nat.leb take forallb].
      assert (Hp : 0 < 2 ^ w) by lia.
      destruct (Z.ltb_spec c 128) as [Hlt|Hge].
      * rewrite (proj2 (Z.leb_gt 128 c)) by lia. rewrite andb_false_r. eexists. split; [reflexivity|]. by apply Z.mod_pos_bound.
      * rewrite (proj2 (Z.leb_le 128 c)) by lia. cbn [andb]. simpl in Hf. apply IH; done || lia.
Qed.

(** C40: on any input read7BitEncoded either returns an integer of its width or
    is undefined (it shifts by the width of the type or more), and it is
    undefined exactly when the input starts with five bytes that announce
    another one, ten for 64 bits. *)
Theorem read7_exact input byteOrder conv (H : Forall is_byte input) :
  let r := Reader.construct input byteOrder conv in
  (if overlong 5 input then fst (Reader.read7BitEncoded r) = UB
   else exists v, fst (Reader.read7BitEncoded r) = Done v /\ 0 <= v < 2 ^ 32)
  /\ (if overlong 10 input then fst (Reader.read7BitEncoded64 r) = UB
      else exists v, fst (Reader.read7BitEncoded64 r) = Done v /\ 0 <= v < 2 ^ 64).
Proof.
  intros r. unfold Reader.read7BitEncoded, Reader.read7BitEncoded64. rewrite !bind_get.
  change r with (rstate (flips byteOrder) conv input). cbn [Reader.rest rstate].
  split; apply read7_any; first [done | lia | by right | idtac].
Qed.

Lemma read7_exact_witness :
  fst (Reader.read7BitEncoded (Reader.construct [255; 255; 255; 255; 255; 0] NATIVE_BYTE_ORDER None)) = UB.
Proof.
  refine (proj1 (read7_exact [255; 255; 255; 255; 255; 0] NATIVE_BYTE_ORDER None _)).
  repeat constructor; unfold is_byte; lia.
Defined.

(** A stored length that promises more than there is: what is there is read,
    and the stream has failed. *)
Lemma read_string_truncated :
  let '(r, s) := Reader.read_string [] (Reader.construct [5; 97; 98] NATIVE_BYTE_ORDER None) in
  r = Done [97; 98] /\ Reader.fail s = true /\ Reader.eof s = true.
Proof. by vm_compute. Qed.
