(* ===== verification/HexBinary.v ===== *)
(** HexBinary (Foundation/src/HexBinaryEncoder.cpp, HexBinaryDecoder.cpp): two
    digits per byte, with line breaks and either case on writing, with white
    space and either case on reading. *)

From S2P Require Import Prelude StreamBuf.
From stdpp Require Import list.

Open Scope st_scope.
Local Open Scope Z_scope.

Definition digits : list Z := str "0123456789abcdef0123456789ABCDEF".

Module Encoder.
(** [_pos] is an [int] that counts the characters of the line; the count is
    exact while fewer than 2^31 of them are on it, and does not matter when the
    line length is 0. *)
Record HexBinaryEncoderBuf := { _pos : Z; _lineLength : Z; _uppercase : Z; _buf : Sink.ostreambuf }.

Definition construct (ostr : Sink.ostreambuf) : HexBinaryEncoderBuf :=
  {| _pos := 0; _lineLength := 72; _uppercase := 0; _buf := ostr |}.

Definition setLineLength (n : Z) (b : HexBinaryEncoderBuf) : HexBinaryEncoderBuf :=
  {| _pos := _pos b; _lineLength := n; _uppercase := _uppercase b; _buf := _buf b |}.
Definition setUppercase (flag : bool) (b : HexBinaryEncoderBuf) : HexBinaryEncoderBuf :=
  {| _pos := _pos b; _lineLength := _lineLength b; _uppercase := if flag then 16 else 0; _buf := _buf b |}.
Definition set_pos (n : Z) (b : HexBinaryEncoderBuf) : HexBinaryEncoderBuf :=
  {| _pos := n; _lineLength := _lineLength b; _uppercase := _uppercase b; _buf := _buf b |}.

(** [if (_buf.sputc(c) == eof) return eof;] *)
Definition put (c : Z) : ST HexBinaryEncoderBuf unit := fun b =>
  let (ok, buf) := Sink.sputc c (_buf b) in
  let b' := {| _pos := _pos b; _lineLength := _lineLength b; _uppercase := _uppercase b; _buf := buf |} in
  if ok then (Done tt, b') else (Eof, b').

Definition put_digit (idx : Z) : ST HexBinaryEncoderBuf unit :=
  let* c := aget digits idx in put c.

Definition writeToDevice (c : Z) : ST HexBinaryEncoderBuf Z :=
  let* b := get in
  do* put_digit (_uppercase b + Z.land (Z.shiftr c 4) 0xF);
  do* modify (fun b => set_pos (_pos b + 1) b);
  do* put_digit (_uppercase b + Z.land c 0xF);
  do* modify (fun b => set_pos (_pos b + 1) b);
  let* b := get in
  do* (if (_lineLength b <=? _pos b) && (0 <? _lineLength b) then
         do* put (chr "010"); modify (set_pos 0)
       else ret tt);
  ret c.

Fixpoint write (bs : list Z) : ST HexBinaryEncoderBuf unit :=
  match bs with
  | [] => ret tt
  | c :: r => let* _c := writeToDevice c in write r
  end.

(** [close] flushes the buffers only. *)
Definition close : ST HexBinaryEncoderBuf Z := ret 0.

Definition encode (lineLength : Z) (upper : bool) (bs : list Z) : res (list Z) :=
  match (do* write bs; close) (setUppercase upper (setLineLength lineLength (construct Sink.empty))) with
  | (Done _, b) => Done (Sink.written (_buf b))
  | (Eof, _) => Eof
  | (Raise e, _) => Raise e
  | (UB, _) => UB
  end.
End Encoder.

Module Decoder.
(** The state is what the connected stream holds. *)
Fixpoint readOne_loop (buf : list Z) : option Z * list Z :=
  match buf with
  | [] => (None, [])
  | ch :: r => if (ch =? 32) || (ch =? 13) || (ch =? 9) || (ch =? 10) then readOne_loop r else (Some ch, r)
  end.

Definition readOne : ST (list Z) (option Z) := fun buf => let (c, r) := readOne_loop buf in (Done c, r).

(** The value of a digit. *)
Definition digit_value (n : Z) : res Z :=
  if (chr "0" <=? n) && (n <=? chr "9") then Done (n - chr "0")
  else if (chr "A" <=? n) && (n <=? chr "F") then Done (n - chr "A" + 10)
  else if (chr "a" <=? n) && (n <=? chr "f") then Done (n - chr "a" + 10)
  else Raise DataFormatException.

Definition readFromDevice : ST (list Z) Z :=
  let* n := readOne in
  match n with
  | None => fail_eof
  | Some n =>
      let* c := lift (digit_value n) in
      let* n := readOne in
      match n with
      | None => throw DataFormatException
      | Some n => let* d := lift (digit_value n) in ret (Z.lor (Z.shiftl c 4) d)
      end
  end.

Definition decode (n : nat) (text : list Z) : res (list Z) :=
  fst (Unbuffered.xsgetn readFromDevice n (Unbuffered.BasicUnbufferedStreamBuf text)).
End Decoder.

(** ** The reference *)
Definition is_white (c : Z) : bool := (c =? 32) || (c =? 13) || (c =? 9) || (c =? 10).

Definition hex_digit (upper : bool) (n : Z) : Z := if n <? 10 then 48 + n else (if upper then 55 else 87) + n.
Definition hex_byte (upper : bool) (b : Z) : list Z := [hex_digit upper (b / 16); hex_digit upper (b mod 16)].

(** A line break behind the byte with which a line reaches its length; [pos]
    characters are on the line. *)
Fixpoint hex_text (lineLength : Z) (upper : bool) (pos : Z) (bs : list Z) : list Z :=
  match bs with
  | [] => []
  | b :: r =>
      if (lineLength <=? pos + 2) && (0 <? lineLength) then hex_byte upper b ++ 10 :: hex_text lineLength upper 0 r
      else hex_byte upper b ++ hex_text lineLength upper (pos + 2) r
  end.

(** The bytes of a text without white space, and the error it ends with. *)
Fixpoint hex_pairs (t : list Z) : list Z * option exception :=
  match t with
  | [] => ([], None)
  | [_] => ([], Some DataFormatException)
  | a :: b :: r =>
      match Decoder.digit_value a, Decoder.digit_value b with
      | Done x, Done y => let m := hex_pairs r in (16 * x + y :: fst m, snd m)
      | _, _ => ([], Some DataFormatException)
      end
  end.

Definition hex_meaning (text : list Z) : list Z * option exception := hex_pairs (List.filter (fun c => negb (is_white c)) text).

(** ** The encoder *)
Section EncoderRun.
Import Encoder.

Definition sent (cs : list Z) (p : Z) (b : HexBinaryEncoderBuf) : HexBinaryEncoderBuf :=
  {| _pos := p; _lineLength := _lineLength b; _uppercase := _uppercase b;
     _buf := {| Sink.written := Sink.written (_buf b) ++ cs; Sink.room := Sink.room (_buf b) |} |}.

Lemma hex_put_run c b : Sink.room (_buf b) = None -> put c b = (Done tt, sent [c] (_pos b) b).
Proof. unfold put, Sink.sputc, sent. intros Hu. by rewrite Hu. Qed.

Lemma digits_at (upper : bool) n : 0 <= n < 16 -> digits !! Z.to_nat ((if upper then 16 else 0) + n) = Some (hex_digit upper n).
Proof.
  intros Hn. assert (H := allbelow_spec 16 (fun n => bool_decide (digits !! Z.to_nat ((if upper then 16 else 0) + n) = Some (hex_digit upper n)))).
  eapply bool_decide_eq_true_1, H; [by destruct upper; vm_compute|done].
Qed.

Lemma put_digit_run (upper : bool) n b : Sink.room (_buf b) = None -> 0 <= n < 16 ->
  put_digit ((if upper then 16 else 0) + n) b = (Done tt, sent [hex_digit upper n] (_pos b) b).
Proof.
  intros Hu Hn. unfold put_digit. rewrite (bind_Done _ _ b (hex_digit upper n) b); [by apply hex_put_run|].
  apply aget_in; [destruct upper; lia|by apply digits_at].
Qed.

Lemma write_byte_run (upper : bool) c b :
  Sink.room (_buf b) = None -> _uppercase b = (if upper then 16 else 0) -> is_byte c ->
  exists b', writeToDevice c b = (Done c, b')
    /\ b' = if (_lineLength b <=? _pos b + 2) && (0 <? _lineLength b) then sent (hex_byte upper c ++ [10]) 0 b
            else sent (hex_byte upper c) (_pos b + 2) b.
Proof.
  intros Hu Hup Hc. unfold is_byte in Hc. unfold writeToDevice. rewrite bind_get, Hup.
  rewrite (land_mask _ 4 0xF), (land_mask c 4 0xF), Z.shiftr_div_pow2 by lia. change (2 ^ 4) with 16.
  rewrite (Z.mod_small (c / 16)) by lia.
  rewrite (bind_Done _ _ _ _ _ (put_digit_run upper (c / 16) b Hu ltac:(lia))), bind_modify.
  erewrite bind_Done by (apply put_digit_run; [exact Hu|lia]). rewrite bind_modify, bind_get.
  cbn [_lineLength _pos set_pos sent]. replace (_pos b + 1 + 1) with (_pos b + 2) by lia. destruct (_ && _).
  - eexists. split; [|reflexivity]. rewrite bind_bind.
    erewrite bind_Done by (by apply hex_put_run). unfold hex_byte, sent. cbn. by rewrite <-!app_assoc.
  - eexists. split; [|reflexivity]. rewrite bind_ret. unfold hex_byte, sent. cbn. by rewrite <-app_assoc.
Qed.

Lemma hex_write_run (upper : bool) bs : forall b,
  Sink.room (_buf b) = None -> _uppercase b = (if upper then 16 else 0) -> Forall is_byte bs ->
  exists p, write bs b = (Done tt, sent (hex_text (_lineLength b) upper (_pos b) bs) p b).
Proof.
  induction bs as [|c bs IH]; intros b Hu Hup Hbs.
  - exists (_pos b). destruct b as [p l u [w r]]. unfold sent. cbn. by rewrite app_nil_r.
  - apply Forall_cons in Hbs as [Hc Hbs]. destruct (write_byte_run upper c b Hu Hup Hc) as (b' & E & ->).
    cbn [write]. rewrite (bind_Done _ _ _ _ _ E). cbn [hex_text].
    destruct (_ && _); (match goal with |- context [write bs (sent ?cs ?q b)] => destruct (IH (sent cs q b) Hu Hup Hbs) as (p & ->) end);
      exists p; unfold sent; cbn; by rewrite <-?app_assoc.
Qed.
End EncoderRun.

(** ** The decoder *)
Lemma readOne_spec text :
  Decoder.readOne_loop text = match List.filter (fun c => negb (is_white c)) text with
    | [] => (None, [])
    | c :: _ => (Some c, snd (Decoder.readOne_loop text))
    end
  /\ List.filter (fun c => negb (is_white c)) (snd (Decoder.readOne_loop text)) = tail (List.filter (fun c => negb (is_white c)) text).
Proof.
  induction text as [|c text IH]; [done|]. cbn [Decoder.readOne_loop List.filter]. fold (is_white c).
  destruct (is_white c); [exact IH|done].
Qed.

Lemma digit_value_cases n : Decoder.digit_value n = Raise DataFormatException \/ exists v, Decoder.digit_value n = Done v /\ 0 <= v < 16.
Proof.
  unfold Decoder.digit_value. change (chr "0") with 48. change (chr "9") with 57. change (chr "A") with 65. change (chr "F") with 70.
  change (chr "a") with 97. change (chr "f") with 102.
  destruct (_ && _) eqn:E1; [right; eexists; split; [done|lia]|].
  destruct ((65 <=? n) && _) eqn:E2; [right; eexists; split; [done|lia]|].
  destruct ((97 <=? n) && _) eqn:E3; [right; eexists; split; [done|lia]|by left].
Qed.

(** [readOne] at the next character that is not white space. *)
Lemma readOne_run text :
  match List.filter (fun c => negb (is_white c)) text with
  | [] => Decoder.readOne text = (Done None, [])
  | c :: r => exists text', Decoder.readOne text = (Done (Some c), text') /\ List.filter (fun c => negb (is_white c)) text' = r
  end.
Proof.
  destruct (readOne_spec text) as [E F]. unfold Decoder.readOne. destruct (List.filter _ text) as [|c r]; rewrite E; [done|].
  eexists. split; [done|]. exact F.
Qed.

#[global] Instance hex_stream : ByteStream Decoder.readFromDevice (fun _ => True) hex_meaning.
Proof.
  intros text _. unfold hex_meaning. remember (List.filter _ text) as t eqn:Et. revert text Et.
  induction t as [t IH] using (induction_ltof1 _ (@length Z)). intros text Et.
  pose proof (readOne_run text) as R1. rewrite <-Et in R1. destruct t as [|a t].
  { apply (produces_eof _ text []); [|done]. unfold Decoder.readFromDevice. by rewrite (bind_Done _ _ _ _ _ R1). }
  destruct R1 as (text1 & R1 & Et1). pose proof (readOne_run text1) as R2. rewrite Et1 in R2.
  destruct (digit_value_cases a) as [Ha|(x & Ha & Hx)].
  { assert (Hp : hex_pairs (a :: t) = ([], Some DataFormatException)) by (destruct t; cbn; by rewrite ?Ha). rewrite Hp.
    apply (produces_throw _ text text1). unfold Decoder.readFromDevice. rewrite (bind_Done _ _ _ _ _ R1). unfold bind, lift. by rewrite Ha. }
  destruct t as [|b t].
  { apply (produces_throw _ text []). unfold Decoder.readFromDevice. rewrite (bind_Done _ _ _ _ _ R1). unfold bind at 1, lift.
    rewrite Ha. by rewrite (bind_Done _ _ _ _ _ R2). }
  destruct R2 as (text2 & R2 & Et2). cbn [hex_pairs]. rewrite Ha. destruct (digit_value_cases b) as [Hb|(y & Hb & Hy)]; rewrite Hb.
  { apply (produces_throw _ text text2). unfold Decoder.readFromDevice. rewrite (bind_Done _ _ _ _ _ R1). unfold bind at 1, lift.
    rewrite Ha, (bind_Done _ _ _ _ _ R2). unfold bind, lift. by rewrite Hb. }
  apply (produces_cons _ text text2); [|cbn; lia|apply IH; [unfold ltof; cbn; lia|done]].
  unfold Decoder.readFromDevice. rewrite (bind_Done _ _ _ _ _ R1). unfold bind at 1, lift.
  rewrite Ha, (bind_Done _ _ _ _ _ R2). unfold bind, lift. rewrite Hb. unfold ret. do 2 f_equal.
  rewrite lor_shiftl_add by lia. lia.
Qed.

(** ** Reading what was written *)
Lemma digit_value_digit (upper : bool) n : 0 <= n < 16 -> Decoder.digit_value (hex_digit upper n) = Done n /\ is_white (hex_digit upper n) = false.
Proof.
  intros Hn. assert (H := allbelow_spec 16 (fun n => bool_decide (Decoder.digit_value (hex_digit upper n) = Done n)
    && negb (is_white (hex_digit upper n)))).
  specialize (H ltac:(by destruct upper; vm_compute) n Hn). apply andb_prop in H as [H1 H2].
  split; [by eapply bool_decide_eq_true_1|by apply negb_true_iff].
Qed.

Lemma hex_text_meaning lineLength (upper : bool) bs : forall pos, Forall is_byte bs ->
  hex_meaning (hex_text lineLength upper pos bs) = (bs, None).
Proof.
  induction bs as [|b bs IH]; intros pos Hbs; [done|]. apply Forall_cons in Hbs as [Hb Hbs]. unfold is_byte in Hb.
  destruct (digit_value_digit upper (b / 16)) as [D1 W1]; [lia|]. destruct (digit_value_digit upper (b mod 16)) as [D2 W2]; [lia|].
  cbn [hex_text]. unfold hex_byte. assert (Hpair : forall t, hex_meaning t = (bs, None) ->
    hex_meaning (hex_digit upper (b / 16) :: hex_digit upper (b mod 16) :: t) = (b :: bs, None)).
  { intros t Ht. unfold hex_meaning in *. cbn [List.filter]. rewrite W1, W2. cbn [negb hex_pairs]. rewrite D1, D2, Ht. cbn. do 2 f_equal. lia. }
  destruct (_ && _); apply Hpair; [|by apply IH]. exact (IH 0 Hbs).
Qed.

(** The hexadecimal encoder writes two digits per byte in the case asked
    for, with a line break whenever a line reaches the line length; on any
    text the decoder hands out the bytes of its digit pairs, white space
    skipped, up to the first error; so decoding, in either case and with any
    line length, gives back the bytes that were encoded. *)
Theorem hexbinary_roundtrip lineLength (upper : bool) n bs text (H : Forall is_byte bs) :
  Encoder.encode lineLength upper bs = Done (hex_text lineLength upper 0 bs)
  /\ Decoder.decode n (hex_text lineLength upper 0 bs) = Done (take n bs)
  /\ Decoder.decode n text = delivered n (hex_meaning text).
Proof.
  assert (Hdec : forall t, Decoder.decode n t = delivered n (hex_meaning t)) by (intros t; by apply (Unbuffered.read_stream Decoder.readFromDevice (wf := fun _ => True))).
  split; [|split; [|done]].
  - unfold Encoder.encode.
    destruct (hex_write_run upper bs (Encoder.setUppercase upper (Encoder.setLineLength lineLength (Encoder.construct Sink.empty))))
      as (p & E); [done|done|done|]. by rewrite (bind_Done _ _ _ _ _ E).
  - by rewrite Hdec, hex_text_meaning.
Qed.

Lemma hexbinary_roundtrip_witness :
  Encoder.encode 4 true [254; 1; 171] = Done (str "FE01" ++ 10 :: str "AB")
  /\ Decoder.decode 9 (str "FE01" ++ 10 :: str "AB") = Done [254; 1; 171]
  /\ Decoder.decode 9 (str "0g") = Raise DataFormatException.
Proof. apply (hexbinary_roundtrip 4 true 9 [254; 1; 171] (str "0g")). repeat constructor; unfold is_byte; lia. Defined.
