(* ===== verification/CacheUnique.v ===== *)
(** Caches with one expiry time per entry: UniqueExpireStrategy.h,
    UniqueAccessExpireStrategy.h and the decorators that give a value its
    expiry time, as two more strategies for the cache of Cache.v.

    Both strategies keep a multimap ordered by time with an index of its nodes
    by key; they differ in what a node holds beside the time, so the shared
    handlers are written once over the type [P] of that part.  Times are Int64
    microseconds. *)

From stdpp Require Import gmap sorting.
From S2P Require Import Prelude Cache CacheFacts CacheClaims.

Open Scope st_scope.

(** ** The values *)

(** What UniqueExpireStrategy asks of a value... *)
Class HasExpiration (V : Type) := getExpiration : V -> Z.
(** ... and UniqueAccessExpireStrategy. *)
Class HasTimeout (V : Type) := getTimeout : V -> Z.

Module Decorator.
Section Code.
Context {T : Type}.

Record ExpirationDecorator := { _value : T; _expiresAt : Z }.

(** The constructors; [now] is the clock when the time stamp is constructed. *)
Definition expire_in_ms (now : Z) (p : T) (diffInMs : Z) : ExpirationDecorator :=
  {| _value := p; _expiresAt := s64 (now + s64 (diffInMs * 1000)) |}.
Definition expire_after (now : Z) (p : T) (timeSpan : Z) : ExpirationDecorator :=
  {| _value := p; _expiresAt := s64 (now + timeSpan) |}.
Definition expire_at (p : T) (timeStamp : Z) : ExpirationDecorator :=
  {| _value := p; _expiresAt := timeStamp |}.

Record AccessExpirationDecorator := { _access_value : T; _span : Z }.

Definition access_in_ms (p : T) (diffInMs : Z) : AccessExpirationDecorator :=
  {| _access_value := p; _span := s64 (diffInMs * 1000) |}.
Definition access_after (p : T) (timeSpan : Z) : AccessExpirationDecorator :=
  {| _access_value := p; _span := timeSpan |}.
End Code.
Arguments ExpirationDecorator : clear implicits.
Arguments AccessExpirationDecorator : clear implicits.

#[global] Instance decorator_expiration T : HasExpiration (ExpirationDecorator T) := _expiresAt.
#[global] Instance decorator_timeout T : HasTimeout (AccessExpirationDecorator T) := _span.
End Decorator.

(** ** The handlers both strategies have *)
Module Unique.
Section Shared.
Context {K P : Type} `{Countable K} (time : nat -> Z) (keyOf : P -> K).

Record UniqueStrategy := {
  _keys : gmap K nat;
  _keyIndex : Nodes.nodes (Z * P)         (* std::multimap<Timestamp, P> *)
}.

Definition construct : UniqueStrategy := {| _keys := ∅; _keyIndex := Nodes.none |}.

Definition not_later (a b : Z * P) : bool := fst a <=? fst b.

(** The end of [onAdd]: the node goes into the index, an old one is erased. *)
Definition add_node (expire : Z) (p : P) : ST (UniqueStrategy * nat) unit :=
  let* s := gets in
  let (it, index) := Nodes.insert not_later (expire, p) (_keyIndex s) in
  match _keys s !! keyOf p with
  | None => puts {| _keys := <[keyOf p := it]> (_keys s); _keyIndex := index |}
  | Some old =>
      let* index := lift (Nodes.erase old index) in
      puts {| _keys := <[keyOf p := it]> (_keys s); _keyIndex := index |}
  end.

Definition onRemove (k : K) : ST (UniqueStrategy * nat) unit :=
  let* s := gets in
  match _keys s !! k with
  | None => ret tt
  | Some it =>
      let* index := lift (Nodes.erase it (_keyIndex s)) in
      puts {| _keys := delete k (_keys s); _keyIndex := index |}
  end.

Definition onClear : ST (UniqueStrategy * nat) unit :=
  let* s := gets in
  puts {| _keys := ∅; _keyIndex := {| Nodes.items := []; Nodes.fresh := Nodes.fresh (_keyIndex s) |} |}.

Definition onIsValid (k : K) (valid : bool) : ST (UniqueStrategy * nat) bool :=
  let* s := gets in
  match _keys s !! k with
  | None => ret false
  | Some it =>
      let* n := Expire.now time in
      match Nodes.find_node it (Nodes.items (_keyIndex s)) with
      | None => undef
      | Some (t, _) => ret (if t <=? n then false else valid)
      end
  end.

(** [while (it != end() && it->first < now)] *)
Fixpoint replace_loop (now : Z) (l : list (Z * P)) (elemsToRemove : gset K) : gset K :=
  match l with
  | [] => elemsToRemove
  | (t, p) :: l => if t <? now then replace_loop now l ({[keyOf p]} ∪ elemsToRemove) else elemsToRemove
  end.

Definition onReplace (elemsToRemove : gset K) : ST (UniqueStrategy * nat) (gset K) :=
  let* s := gets in
  let* n := Expire.now time in
  ret (replace_loop n (map snd (Nodes.items (_keyIndex s))) elemsToRemove).
End Shared.
Arguments UniqueStrategy K P {_ _}.

Section Strategies.
Context {K V : Type} `{Countable K} (time : nat -> Z).

(** *** UniqueExpireStrategy: a node holds the key *)
Definition onAdd `{HasExpiration V} (k : K) (v : V) : ST (UniqueStrategy K K * nat) unit :=
  add_node id (getExpiration v) k.

Definition onGet (k : K) : ST (UniqueStrategy K K * nat) unit := ret tt.

Definition strategy `{HasExpiration V} : AbstractStrategy K V :=
  {| state := UniqueStrategy K K; Cache.onAdd := onAdd; Cache.onRemove := onRemove; Cache.onGet := onGet;
     Cache.onClear := onClear; Cache.onIsValid := onIsValid time; Cache.onReplace := onReplace time id |}.

(** *** UniqueAccessExpireStrategy: a node holds the key and the time span *)
Definition access_onAdd `{HasTimeout V} (k : K) (v : V) : ST (UniqueStrategy K (K * Z) * nat) unit :=
  let* n := Expire.now time in
  add_node fst (s64 (n + getTimeout v)) (k, getTimeout v).

Definition access_onGet (k : K) : ST (UniqueStrategy K (K * Z) * nat) unit :=
  let* s := gets in
  match _keys s !! k with
  | None => ret tt
  | Some it =>
      match Nodes.find_node it (Nodes.items (_keyIndex s)) with
      | None => undef
      | Some (_, ke) =>
          let* n := Expire.now time in
          let* index := lift (Nodes.erase it (_keyIndex s)) in
          let (itt, index) := Nodes.insert not_later (s64 (n + snd ke), ke) index in
          puts {| _keys := <[k := itt]> (_keys s); _keyIndex := index |}
      end
  end.

Definition access_strategy `{HasTimeout V} : AbstractStrategy K V :=
  {| state := UniqueStrategy K (K * Z); Cache.onAdd := access_onAdd; Cache.onRemove := onRemove;
     Cache.onGet := access_onGet; Cache.onClear := onClear; Cache.onIsValid := onIsValid time;
     Cache.onReplace := onReplace time fst |}.
End Strategies.
Arguments strategy K V {_ _} time {_}.
Arguments access_strategy K V {_ _} time {_}.
End Unique.

(** ** Both strategies implement a list of entries in order of time *)
Module UniqueModel.
Import Unique Stamped.
Section Shared.
Context {K P : Type} `{Countable K} (time : nat -> Z) (keyOf : P -> K).
Abbreviation key := (fun a : Z * P => keyOf (snd a)).

Definition unique_rep (s : UniqueStrategy K P) (es : list (Z * P)) : Prop := kept key (_keyIndex s) (_keys s) es.

(** The time at which the entry of a key expires. *)
Definition deadline (k : K) (es : list (Z * P)) : Z := match entry key k es with Some a => fst a | None => 0 end.

Definition expired_keys (now : Z) (es : list (Z * P)) : gset K := replace_loop keyOf now es ∅.

Lemma deadline_elem t p es : NoDup (key <$> es) -> (t, p) ∈ es -> deadline (keyOf p) es = t.
Proof. intros Hn Hin. unfold deadline. by rewrite (entry_elem key (t, p) es Hn Hin). Qed.

Lemma replace_loop_union now es D : replace_loop keyOf now es D = D ∪ expired_keys now es.
Proof.
  unfold expired_keys. revert D. induction es as [|(t & p) es IH]; intros D; simpl; [by rewrite union_empty_r_L|].
  case_match; [|by rewrite union_empty_r_L]. rewrite (IH ({[_]} ∪ D)), (IH ({[_]} ∪ ∅)). set_solver.
Qed.

(** The keys given up are those of the entries whose time has passed. *)
Lemma elem_expired now es k :
  in_order fst es -> k ∈ expired_keys now es <-> exists t p, (t, p) ∈ es /\ keyOf p = k /\ t < now.
Proof.
  unfold expired_keys. induction 1 as [|(t & p) es Ho IH Hb]; simpl.
  - split; [set_solver|]. by intros (t & p & ?%not_elem_of_nil & _).
  - setoid_rewrite elem_of_cons. destruct (Z.ltb_spec t now) as [Hlt|Hge].
    + rewrite replace_loop_union. fold (expired_keys now es) in IH. rewrite !elem_of_union, IH. set_solver.
    + split; [set_solver|]. rewrite List.Forall_forall in Hb. intros (u & q & [[= -> ->]|Hin] & _ & Hu); [lia|].
      apply list_elem_of_In, Hb in Hin. simpl in Hin. lia.
Qed.

Lemma construct_rep : unique_rep construct [].
Proof. apply kept_nil. Qed.

Lemma add_node_ok s es n t p :
  unique_rep s es -> keyOf p ∉ key <$> es ->
  exists s', add_node keyOf t p (s, n) = (Done tt, (s', n)) /\ unique_rep s' (ins fst (t, p) es).
Proof.
  intros Hc Hk. unfold add_node, bind, gets. simpl. rewrite (kept_absent key _ _ _ _ Hc Hk).
  eexists. split; [done|]. by apply (kept_insert key fst _ _ _ (t, p)).
Qed.

Lemma onRemove_ok s es n k :
  unique_rep s es -> k ∈ key <$> es ->
  exists s', onRemove k (s, n) = (Done tt, (s', n)) /\ unique_rep s' (drop_key key k es).
Proof.
  intros Hc Hk. destruct (kept_erase key _ _ _ _ Hc Hk) as (it & a & l & Hit & _ & _ & _ & El & _ & Hc').
  unfold onRemove, bind, gets. simpl. rewrite Hit. unfold lift. rewrite El. by eexists.
Qed.

Lemma onClear_ok s es n : unique_rep s es -> exists s', onClear (s, n) = (Done tt, (s', n)) /\ unique_rep s' [].
Proof. intros _. eexists. split; [done|]. apply kept_nil. Qed.

Lemma onIsValid_ok s es n k :
  unique_rep s es -> k ∈ key <$> es ->
  onIsValid time k true (s, n) = (Done (time n <? deadline k es), (s, S n)).
Proof.
  intros Hc Hk. destruct (kept_erase key _ _ _ _ Hc Hk) as (it & (t & p) & l & Hit & Hf & _ & Hen & _).
  unfold onIsValid, bind, gets, Expire.now. simpl. rewrite Hit. simpl. rewrite Hf. unfold deadline. rewrite Hen. simpl.
  rewrite Z.ltb_antisym. by destruct (t <=? time n).
Qed.

Lemma onReplace_ok s es n D :
  unique_rep s es -> onReplace time keyOf D (s, n) = (Done (D ∪ expired_keys (time n) es), (s, S n)).
Proof.
  intros [Hk _]. unfold onReplace, bind, gets, Expire.now. simpl.
  change (map snd (Nodes.items (_keyIndex s))) with ((Nodes.items (_keyIndex s)).*2). by rewrite Hk, replace_loop_union.
Qed.
End Shared.

Section Models.
Context {K V : Type} `{Countable K} (time : nat -> Z).

Definition unique_model `{HasExpiration V} : StrategyModel K V :=
  {| mstate := list (Z * K);
     m_tracks := tracks (fun a => snd a) fst;
     m_add k v es n := (ins fst (getExpiration v, k) es, n);
     m_remove := drop_key (fun a => snd a);
     m_get _ es n := (es, n);
     m_clear _ := [];
     m_valid k es n := (time n <? deadline id k es, S n);
     m_replace es n := (expired_keys id (time n) es, S n) |}.

(** The time span kept for a key. *)
Definition span (k : K) (es : list (Z * (K * Z))) : Z :=
  match entry (fun a => fst (snd a)) k es with Some a => snd (snd a) | None => 0 end.

Definition unique_access_model `{HasTimeout V} : StrategyModel K V :=
  {| mstate := list (Z * (K * Z));
     m_tracks := tracks (fun a => fst (snd a)) fst;
     m_add k v es n := (ins fst (s64 (time n + getTimeout v), (k, getTimeout v)) es, S n);
     m_remove := drop_key (fun a => fst (snd a));
     m_get k es n := (ins fst (s64 (time n + span k es), (k, span k es)) (drop_key (fun a => fst (snd a)) k es), S n);
     m_clear _ := [];
     m_valid k es n := (time n <? deadline fst k es, S n);
     m_replace es n := (expired_keys fst (time n) es, S n) |}.

#[global] Instance unique_laws `{HasExpiration V} : ModelLaws unique_model.
Proof.
  split; [|apply remove_tracks|done|intros; apply clear_tracks].
  intros k v es n X. apply (add_tracks (fun a => snd a) fst (_, k)).
Qed.

#[global] Instance unique_access_laws `{HasTimeout V} : ModelLaws unique_access_model.
Proof.
  split; [|apply remove_tracks| |intros; apply clear_tracks].
  - intros k v es n X. apply (add_tracks (fun a => fst (snd a)) fst (_, (k, _))).
  - intros k es n X. apply (renew_tracks (fun a => fst (snd a)) fst (_, (k, _))).
Qed.

Lemma unique_access_onGet_ok s es n k :
  unique_rep fst s es -> k ∈ (fun a => fst (snd a)) <$> es ->
  exists s', access_onGet time k (s, n) = (Done tt, (s', S n)) /\
    unique_rep fst s' (ins fst (s64 (time n + span k es), (k, span k es)) (drop_key (fun a => fst (snd a)) k es)).
Proof.
  intros Hc Hk. destruct (kept_erase _ _ _ _ _ Hc Hk) as (it & (t & (x & d)) & l & Hit & Hf & Ha & Hen & El & Hfr & Hc').
  simpl in Ha. subst x. unfold access_onGet, bind, gets, Expire.now. simpl. rewrite Hit, Hf. simpl. unfold lift. rewrite El. simpl.
  unfold span. rewrite Hen. simpl. eexists. split; [done|].
  apply (kept_insert (fun a => fst (snd a)) fst _ _ _ (s64 (time n + d), (k, d))) in Hc'; [|rewrite elem_drop_key; naive_solver].
  simpl in Hc'. by rewrite insert_delete_eq in Hc'.
Qed.

#[global] Instance unique_Implements `{HasExpiration V} : Implements (Unique.strategy K V time) unique_model.
Proof.
  refine {| rep := (unique_rep id : state (Unique.strategy K V time) -> mstate unique_model -> Prop) |}; simpl.
  - intros s es n X k v Hr (_ & -> & _) HX. rewrite elem_of_list_to_set in HX. by apply (add_node_ok id).
  - intros s es n X k Hr (_ & -> & _) HX. rewrite elem_of_list_to_set in HX. by apply (onRemove_ok id).
  - intros s es n X k Hr _ _. by exists s.
  - intros s es n Hr. by eapply (onClear_ok id).
  - intros s es n X k Hr (_ & -> & _) HX. rewrite elem_of_list_to_set in HX. by apply (onIsValid_ok time id).
  - intros s es n D Hr. by apply (onReplace_ok time id).
Defined.

#[global] Instance unique_access_Implements `{HasTimeout V} : Implements (Unique.access_strategy K V time) unique_access_model.
Proof.
  refine {| rep := (unique_rep fst : state (Unique.access_strategy K V time) -> mstate unique_access_model -> Prop) |}; simpl.
  - intros s es n X k v Hr (_ & -> & _) HX. rewrite elem_of_list_to_set in HX. by apply (add_node_ok fst).
  - intros s es n X k Hr (_ & -> & _) HX. rewrite elem_of_list_to_set in HX. by apply (onRemove_ok fst).
  - intros s es n X k Hr (_ & -> & _) HX. rewrite elem_of_list_to_set in HX. by apply unique_access_onGet_ok.
  - intros s es n Hr. by eapply (onClear_ok fst).
  - intros s es n X k Hr (_ & -> & _) HX. rewrite elem_of_list_to_set in HX. by apply (onIsValid_ok time fst).
  - intros s es n D Hr. by apply (onReplace_ok time fst).
Defined.
End Models.
End UniqueModel.

(** ** What a cache of values with their own expiry time answers *)
Module UniqueSpec.
Import Abstract Pure Stamped UniqueModel.
Section Facts.
Context {K V : Type} `{Countable K} `{HE : HasExpiration V} (time : nat -> Z).
Context (clock_mono : forall i j, (i <= j)%nat -> time i <= time j).
Abbreviation model := (unique_model (K := K) (V := V) time).
Abbreviation pure := (pcache (V := V) model).

(** The cache against what the client has stored: an entry that is there is
    the one stored, with its time; one that is gone has expired. *)
Record timely (p : pure) (g : gmap K V) : Prop := {
  ti_tracks : tracked _ p;
  ti_data k v : p_data _ p !! k = Some v -> g !! k = Some v /\ (getExpiration v, k) ∈ p_m _ p;
  ti_gone k v : g !! k = Some v -> p_data _ p !! k = None -> getExpiration v <= time (p_n _ p)
}.

Lemma timely_later m d n n' g :
  timely (@Build_pcache K V _ _ model m d n) g -> (n <= n')%nat -> timely (@Build_pcache K V _ _ model m d n') g.
Proof.
  intros [H1 H2 H3] Hn. pose proof (clock_mono _ _ Hn). split; simpl in *; [done|done|].
  intros k v Hg Hd. specialize (H3 _ _ Hg Hd). lia.
Qed.

Lemma timely_deadline p g k v : timely p g -> p_data _ p !! k = Some v -> deadline id k (p_m _ p) = getExpiration v.
Proof.
  intros Ht Hd. destruct (ti_data _ _ Ht k v Hd) as [_ Hin]. apply (deadline_elem id _ k); [apply (ti_tracks _ _ Ht)|done].
Qed.

(** An entry is removed: the client asked for it, or it has expired. *)
Lemma timely_remove k p g g' :
  timely p g -> delete k g' = delete k g ->
  (g' !! k = None \/ g' = g /\ forall v, g !! k = Some v -> getExpiration v <= time (p_n _ p)) ->
  timely (p_remove _ k p) g'.
Proof.
  intros [H1 H2 H3] Hne Hk. pose proof (Sound.tracked_remove _ k p H1) as Ht.
  pose proof (Sound.p_remove_delete _ k p) as Ed.
  assert (Hx : forall x, x <> k -> g' !! x = g !! x).
  { intros x Hx. by rewrite <-(lookup_delete_ne g' k x), <-(lookup_delete_ne g k x), Hne. }
  assert (En : p_n _ (p_remove _ k p) = p_n _ p) by (unfold p_remove; by case_match).
  split; [done|..]; rewrite ?Ed, ?En.
  - intros x v [Hxk Hd]%lookup_delete_Some. destruct (H2 x v Hd) as [Hg Hin]. split; [by rewrite Hx|].
    unfold p_remove. case_match; [|done]. by apply list_elem_of_filter.
  - intros x v Hg Hd. destruct (decide (x = k)) as [->|Hxk].
    + destruct Hk as [Hk|[-> Ho]]; [congruence|eauto].
    + rewrite Hx in Hg by done. rewrite lookup_delete_ne in Hd by done. eauto.
Qed.

Lemma timely_evict_all ks p g :
  timely p g -> (forall k v, k ∈ ks -> g !! k = Some v -> getExpiration v <= time (p_n _ p)) ->
  timely (p_remove_all _ ks p) g.
Proof.
  revert p. induction ks as [|k ks IH]; intros p Ht Ho; simpl; [done|]. apply IH.
  - apply (timely_remove k p g g); [done|done|]. right. split; [done|]. intros v. apply Ho, elem_of_cons. by left.
  - intros x v Hx Hg. unfold p_remove. case_match; simpl; eapply Ho; try done; apply elem_of_cons; by right.
Qed.

Lemma timely_expired p g k :
  timely p g -> k ∈ expired_keys id (time (p_n _ p)) (p_m _ p) <->
  exists v, p_data _ p !! k = Some v /\ getExpiration v < time (p_n _ p).
Proof.
  intros Ht. destruct (ti_tracks _ _ Ht) as (Hn & HX & Ho). rewrite (elem_expired id _ _ _ Ho). split.
  - intros (t & x & Hin & Hx & Hlt). simpl in Hx. subst x.
    assert (is_Some (p_data _ p !! k)) as [w Hw].
    { apply elem_of_dom. rewrite HX, elem_of_list_to_set. by apply (list_elem_of_fmap_2 snd) in Hin. }
    exists w. split; [done|]. pose proof (deadline_elem id t k _ Hn Hin) as Hd. simpl in Hd.
    rewrite (timely_deadline p g k w Ht Hw) in Hd. by subst t.
  - intros (w & Hw & Hlt). exists (getExpiration w), k. split_and!; [|done|done]. by apply (ti_data _ _ Ht).
Qed.

Lemma timely_replace p g : timely p g -> timely (p_replace _ p) g.
Proof.
  intros Ht. unfold p_replace. cbn [m_replace unique_model]. apply timely_evict_all.
  - destruct p as [m d n]. apply (timely_later m d n); [done|simpl; lia].
  - intros k v Hk Hg. simpl. apply elem_of_elements, (timely_expired p g k Ht) in Hk as (w & Hw & Hlt).
    destruct (ti_data _ _ Ht k w Hw) as [Hg' _]. rewrite Hg in Hg'. injection Hg' as <-.
    pose proof (clock_mono (p_n _ p) (S (p_n _ p)) ltac:(lia)). lia.
Qed.

Lemma timely_store k v p g : timely p g -> timely (p_store _ k v p) (<[k := v]> g).
Proof.
  intros Ht. unfold p_store. apply timely_replace.
  assert (Hr : timely (p_remove _ k p) (delete k g)).
  { apply (timely_remove k p g); [done|by rewrite delete_delete_eq|left; by rewrite lookup_delete_eq]. }
  pose proof (p_remove_absent _ k p) as Hk. destruct (p_remove _ k p) as [m d n]. simpl in *.
  destruct Hr as [H1 H2 H3]. split; cbn [p_m p_data p_n] in *.
  - unfold tracked. cbn [p_m p_data]. rewrite dom_insert_L. apply (add_tracks (fun a => snd a) fst (_, k)); [done|]. by apply not_elem_of_dom.
  - intros x w. rewrite ins_perm, elem_of_cons. destruct (decide (x = k)) as [->|Hx].
    + rewrite !lookup_insert_eq. intros [= <-]. auto.
    + rewrite !lookup_insert_ne by done. intros Hd. destruct (H2 x w Hd) as [Hg Hin].
      rewrite lookup_delete_ne in Hg by done. auto.
  - intros x w. destruct (decide (x = k)) as [->|Hx]; [by rewrite !lookup_insert_eq|].
    rewrite !lookup_insert_ne by done. intros Hg. apply H3. by rewrite lookup_delete_ne.
Qed.

(** What was stored for a key, until it expires. *)
Definition unexpired (g : gmap K V) (n : nat) (k : K) : option V :=
  match g !! k with
  | Some v => if time n <? getExpiration v then Some v else None
  | None => None
  end.

Lemma timely_value p g k :
  timely p g -> unexpired g (p_n _ p) k =
    match p_data _ p !! k with
    | Some v => if time (p_n _ p) <? deadline id k (p_m _ p) then Some v else None
    | None => None
    end.
Proof.
  intros Ht. unfold unexpired. destruct (p_data _ p !! k) as [v|] eqn:Hd.
  - by rewrite (timely_deadline p g k v Ht Hd), (proj1 (ti_data _ _ Ht k v Hd)).
  - destruct (g !! k) as [v|] eqn:Hg; [|done]. pose proof (ti_gone _ _ Ht _ _ Hg Hd). by rewrite (proj2 (Z.ltb_ge _ _)).
Qed.

Lemma timely_has k p g :
  timely p g -> fst (p_has _ k p) = bool_decide (is_Some (unexpired g (p_n _ p) k)) /\ timely (snd (p_has _ k p)) g.
Proof.
  intros Ht. rewrite (timely_value p g k Ht). unfold p_has. destruct (p_data _ p !! k) as [v|]; [|done]. simpl.
  destruct p as [m d n]. split; [by destruct (time _ <? _)|]. apply (timely_later m d n); [done|simpl; lia].
Qed.

Lemma timely_get k p g :
  timely p g -> fst (p_get _ k p) = unexpired g (p_n _ p) k /\ timely (snd (p_get _ k p)) g.
Proof.
  intros Ht. rewrite (timely_value p g k Ht). unfold p_get. destruct (p_data _ p !! k) as [v|] eqn:Hd; [|done].
  simpl. destruct p as [m d n]. simpl in *.
  assert (Hl : timely (@Build_pcache K V _ _ model m d (S n)) g) by (apply (timely_later m d n); [done|lia]).
  pose proof (timely_deadline _ g k v Ht Hd) as El. simpl in El.
  destruct (Z.ltb_spec (time n) (deadline id k m)) as [|He]; [done|]. split; [done|].
  apply (timely_remove k _ g g Hl); [done|]. right. split; [done|]. intros w Hg. simpl.
  destruct (ti_data _ _ Ht k v Hd) as [Hg' _]. rewrite Hg in Hg'. injection Hg' as <-.
  pose proof (clock_mono n (S n) ltac:(lia)). lia.
Qed.

Lemma timely_step o p g : timely p g -> timely (snd (p_step _ o p)) (Sound.ideal_step o g).
Proof.
  intros Ht. destruct o as [k v|k v|k|k|k| | | |]; simpl; [by apply timely_store|by apply timely_store|..].
  - apply (timely_remove k p g); [done|by rewrite delete_delete_eq|left; by rewrite lookup_delete_eq].
  - pose proof (timely_has k p g Ht) as [_ Hh]. by destruct (p_has _ k p).
  - pose proof (timely_get k p g Ht) as [_ Hh]. by destruct (p_get _ k p).
  - split; simpl; try done. split_and!; [constructor|by rewrite dom_empty_L|constructor].
  - by apply timely_replace.
  - by apply timely_replace.
  - by apply timely_replace.
Qed.

(** After a replacement no entry is left whose time has passed, and all that
    have not expired then are left. *)
Lemma timely_keys p g k :
  timely p g ->
  (k ∈ dom (p_data _ (p_replace _ p)) -> exists v, g !! k = Some v /\ time (p_n _ p) <= getExpiration v) /\
  (is_Some (unexpired g (p_n _ (p_replace _ p)) k) -> k ∈ dom (p_data _ (p_replace _ p))).
Proof.
  intros Ht. pose proof (timely_replace p g Ht) as Hr. split.
  - intros [v Hv]%elem_of_dom. exists v. split; [by apply (ti_data _ _ Hr)|].
    pose proof (lookup_weaken _ _ _ _ Hv (Sound.p_replace_subseteq _ p)) as Hd.
    destruct (Z.le_gt_cases (time (p_n _ p)) (getExpiration v)) as [|Hlt]; [done|]. exfalso.
    unfold p_replace in Hv. cbn [m_replace unique_model] in Hv. apply Sound.p_remove_all_gone in Hv.
    apply Hv, elem_of_elements, (timely_expired p g k Ht). eauto.
  - intros Hf. rewrite (timely_value _ g k Hr) in Hf. apply elem_of_dom.
    destruct (p_data _ (p_replace _ p) !! k); [eauto|by destruct Hf].
Qed.

(** What the client has stored after a sequence of calls. *)
Definition ideal (ops : list (op K V)) (g : gmap K V) : gmap K V := foldl (fun g o => Sound.ideal_step o g) g ops.

Lemma timely_run ops p g : timely p g -> timely (snd (p_run _ ops p)) (ideal ops g).
Proof. revert p g. induction ops as [|o ops IH]; intros p g Ht; simpl; [done|]. by apply IH, timely_step. Qed.

Lemma initially_timely : timely (@Build_pcache K V _ _ model [] ∅ 0) ∅.
Proof. split; simpl; [|done|done]. split_and!; [constructor|by rewrite dom_empty_L|constructor]. Qed.
End Facts.
End UniqueSpec.

(** ** The claims *)
Import Abstract.

(** In a cache whose values carry their own expiry time, with a clock that
    does not run backwards: every sequence of calls ends without the use of an
    erased iterator, and behind it [get] and [has] answer for a key exactly
    the value last stored if its expiry time is still to come, and nothing
    otherwise; the keys listed are of values whose time has not passed when
    the call starts, and include all that have not expired when it ends. *)
Theorem unique_cache_exact {K V} `{Countable K} `{HasExpiration V} (time : nat -> Z)
    (clock_mono : forall i j, (i <= j)%nat -> time i <= time j) (ops : list (op K V)) :
  let S := Unique.strategy K V time in
  let g := UniqueSpec.ideal ops ∅ in
  exists answers c, run S ops (construct S Unique.construct) = (Done answers, c) /\
  (forall k, fst (doGet S k c) = Done (UniqueSpec.unexpired time g (readings S c) k)) /\
  (forall k, fst (doHas S k c) = Done (bool_decide (is_Some (UniqueSpec.unexpired time g (readings S c) k)))) /\
  exists X c', getAllKeys S c = (Done X, c') /\
    (forall k, k ∈ X -> exists v, g !! k = Some v /\ time (readings S c) <= getExpiration v) /\
    (forall k, is_Some (UniqueSpec.unexpired time g (readings S c') k) -> k ∈ X).
Proof.
  intros S g. set (M := UniqueModel.unique_model (K := K) (V := V) time).
  set (p0 := @Pure.Build_pcache K V _ _ M [] ∅ 0).
  assert (Hsim : Pure.sim S M (construct S Unique.construct) p0).
  { split_and!; [apply UniqueModel.construct_rep|done|done|]. apply (UniqueSpec.initially_timely time). }
  destruct (Pure.cache_run_ok S M ops _ p0 Hsim) as (c & Ec & Hs).
  pose proof (UniqueSpec.timely_run time clock_mono ops p0 ∅ (UniqueSpec.initially_timely time)) as Ht. fold g M in Ht.
  eexists _, c. split; [exact Ec|]. set (p := snd (Pure.p_run M ops p0)) in *. clearbody p.
  assert (Hn : readings S c = Pure.p_n _ p) by apply Hs. rewrite Hn. split_and!.
  - intros k. destruct (Pure.doGet_ok _ _ k c p Hs) as (c' & -> & _).
    exact (f_equal Done (proj1 (UniqueSpec.timely_get time clock_mono k p g Ht))).
  - intros k. destruct (Pure.doHas_ok _ _ k c p Hs) as (c' & -> & _).
    exact (f_equal Done (proj1 (UniqueSpec.timely_has time clock_mono k p g Ht))).
  - destruct (Pure.doReplace_ok _ _ c p Hs) as (c' & Er & Hs2). exists (dom (_data S c')), c'.
    split; [unfold getAllKeys; by rewrite (bind_Done _ _ _ _ _ Er)|].
    destruct Hs2 as (_ & Hd2 & Hn2 & _). rewrite Hd2, Hn2.
    split; intros k; apply (UniqueSpec.timely_keys time clock_mono p g k Ht).
Qed.

(** Two values, one of which expires before it is asked for. *)
Lemma unique_cache_exact_witness :
  let S := Unique.strategy Z (Decorator.ExpirationDecorator Z) (fun n => Z.of_nat n) in
  let c := snd (run S [Add 1 (Decorator.expire_at 10 1); Add 2 (Decorator.expire_after 0 20 100)]
                 (construct S Unique.construct)) in
  fst (doGet S 1 c) = Done None /\ fst (doGet S 2 c) = Done (Some (Decorator.expire_after 0 20 100)).
Proof.
  intros S c. destruct (unique_cache_exact (fun n => Z.of_nat n) (fun i j => proj1 (Nat2Z.inj_le i j))
    [Add 1 (Decorator.expire_at 10 1); Add 2 (Decorator.expire_after 0 20 100)]) as (answers & c' & E & T & _).
  fold S in E, T. assert (c' = c) as -> by (subst c; by rewrite E).
  split; (etransitivity; [apply T|]); vm_compute; reflexivity.
Defined.

(** In a cache that expires entries by access with a time span of their own,
    [get] renews the expiry time before it asks whether the entry is valid:
    it returns the value of an entry whose time has passed, which [has] denies. *)
Example unique_access_get_ignores_age :
  let time := fun n => if (n <=? 2)%nat then 0 else 30000 in
  let S := Unique.access_strategy Z (Decorator.AccessExpirationDecorator Z) time in
  let c := snd (run S [Add 1 (Decorator.access_in_ms 10 25); Has 1] (construct S Unique.construct)) in
  fst (doHas S 1 c) = Done false /\ fst (doGet S 1 c) = Done (Some (Decorator.access_in_ms 10 25)).
Proof. vm_compute. done. Qed.
