(* ===== verification/Headers.v ===== *)
(** Message headers of POCO Net: the map they are kept in (ListMap.h at
    std::string, NameValueCollection.cpp), reading and writing them
    (MessageHeader.cpp) and the splitting of their values.

    An input stream is a read-only buffer with a position, as the characters
    in front of the position, the last one first, and those behind it;
    [failed] stands for the state bits that make the stream refuse to work. *)

From S2P Require Import Prelude Strings.

Open Scope st_scope.

(** ** std::istream *)
Module IStream.
Record istream := { before : list Z; rest : list Z; failed : bool }.

Definition open (text : list Z) : istream := {| before := []; rest := text; failed := false |}.

Definition eof : Z := -1.

(** [rdbuf()->sbumpc()] does not look at the state of the stream. *)
Definition sbumpc : ST istream Z := fun i =>
  match rest i with
  | [] => (Done eof, i)
  | c :: r => (Done c, {| before := c :: before i; rest := r; failed := failed i |})
  end.

(** [get()]: the end of the input sets eofbit and failbit. *)
Definition get_char : ST istream Z := fun i =>
  if failed i then (Done eof, i)
  else match rest i with
  | [] => (Done eof, {| before := before i; rest := []; failed := true |})
  | c :: r => (Done c, {| before := c :: before i; rest := r; failed := false |})
  end.

(** [putback(ch)]: a buffer that cannot be written takes back only the
    character it has given out; anything else sets badbit. *)
Definition putback (ch : Z) : ST istream unit := fun i =>
  (Done tt,
   if failed i then i
   else match before i with
   | c :: b => if c =? u8 ch then {| before := b; rest := c :: rest i; failed := false |}
               else {| before := before i; rest := rest i; failed := true |}
   | [] => {| before := []; rest := rest i; failed := true |}
   end).

(** [while (more(ch, acc.length())) { acc += ch; ch = next(); }] *)
Fixpoint collect (next : ST istream Z) (more : Z -> Z -> bool) (fuel : nat) (acc : list Z) (ch : Z) :
    ST istream (list Z * Z) :=
  if more ch (Z.of_nat (length acc)) then
    match fuel with
    | O => undef
    | S fuel => let* c := next in collect next more fuel (acc ++ [ch]) c
    end
  else ret (acc, ch).

(** [while (more(ch)) ch = next();] *)
Fixpoint skip (next : ST istream Z) (more : Z -> bool) (fuel : nat) (ch : Z) : ST istream Z :=
  if more ch then
    match fuel with
    | O => undef
    | S fuel => let* c := next in skip next more fuel c
    end
  else ret ch.

(** A loop ends with the input: one round for each character that is left,
    and one for [ch]. *)
Definition rounds (i : istream) : nat := S (length (rest i)).

Definition collect_all (next : ST istream Z) (more : Z -> Z -> bool) (acc : list Z) (ch : Z) : ST istream (list Z * Z) :=
  let* i := get in collect next more (rounds i) acc ch.
Definition skip_all (next : ST istream Z) (more : Z -> bool) (ch : Z) : ST istream Z :=
  let* i := get in skip next more (rounds i) ch.
End IStream.

(** ** ListMap<std::string, std::string> *)
Module ListMap.

Abbreviation pairs := (list (list Z * list Z)).

Definition isEqual (s1 s2 : list Z) : bool := Str.icompare s1 s2 =? 0.

(** [find]: the position of the first entry with the key. *)
Fixpoint find (key : list Z) (l : pairs) : option nat :=
  match l with
  | [] => None
  | e :: l => if isEqual (fst e) key then Some O else S <$> find key l
  end.

(** [insert]: in front of the first entry with the key. *)
Definition insert (val : list Z * list Z) (l : pairs) : pairs :=
  match find (fst val) l with
  | None => l ++ [val]
  | Some i => take i l ++ val :: drop i l
  end.

(** [erase(key)]: the number of entries erased, and the others. *)
Fixpoint erase_loop (key : list Z) (removed : bool) (count : nat) (l : pairs) : nat * pairs :=
  match l with
  | [] => (count, [])
  | e :: r =>
      if isEqual (fst e) key then erase_loop key true (S count) r
      else if removed then (count, e :: r)
      else let (c, r) := erase_loop key removed count r in (c, e :: r)
  end.

Definition erase (key : list Z) (l : pairs) : nat * pairs :=
  match find key l with
  | None => (O, l)
  | Some i => let (c, r) := erase_loop key false O (drop i l) in (c, take i l ++ r)
  end.

(** [operator []] const *)
Definition at_const (key : list Z) (l : pairs) : res (list Z) :=
  match find key l with
  | Some i => match l !! i with Some e => Done (snd e) | None => UB end
  | None => Raise NotFoundException
  end.
End ListMap.

(** ** NameValueCollection *)
Module NameValueCollection.

(** The object is its [_map]. *)
Abbreviation collection := ListMap.pairs.

Definition set (name value : list Z) (m : collection) : collection :=
  match ListMap.find name m with
  | Some i => alter (fun e => (fst e, value)) i m
  | None => ListMap.insert (name, value) m
  end.

Definition add (name value : list Z) (m : collection) : collection := ListMap.insert (name, value) m.

Definition get (name : list Z) (m : collection) : res (list Z) :=
  match ListMap.find name m with
  | Some i => match m !! i with Some e => Done (snd e) | None => UB end
  | None => Raise NotFoundException
  end.

Definition get_default (name defaultValue : list Z) (m : collection) : res (list Z) :=
  match ListMap.find name m with
  | Some i => match m !! i with Some e => Done (snd e) | None => UB end
  | None => Done defaultValue
  end.

Definition has (name : list Z) (m : collection) : bool :=
  match ListMap.find name m with Some _ => true | None => false end.

Definition erase (name : list Z) (m : collection) : collection := snd (ListMap.erase name m).
Definition clear (m : collection) : collection := [].
Definition empty (m : collection) : bool := match m with [] => true | _ => false end.
Definition size (m : collection) : Z := s32 (Z.of_nat (length m)).
End NameValueCollection.

(** ** MessageHeader *)
Module MessageHeader.
Import IStream.

Definition MAX_NAME_LENGTH : Z := 256.
Definition MAX_VALUE_LENGTH : Z := 8192.
Definition DFL_FIELD_LIMIT : Z := 100.

Record MessageHeader_ := { _map : NameValueCollection.collection; _fieldLimit : Z }.

Definition construct : MessageHeader_ := {| _map := []; _fieldLimit := DFL_FIELD_LIMIT |}.

Definition on_map (f : NameValueCollection.collection -> NameValueCollection.collection) (h : MessageHeader_) : MessageHeader_ :=
  {| _map := f (_map h); _fieldLimit := _fieldLimit h |}.

Definition setFieldLimit (limit : Z) (h : MessageHeader_) : res MessageHeader_ :=
  if 0 <=? limit then Done {| _map := _map h; _fieldLimit := limit |} else Raise AssertionViolationException.

(** [write]: what goes to the stream. *)
Definition write (h : MessageHeader_) : list Z :=
  concat (map (fun e => fst e ++ str ": " ++ snd e ++ [13; 10]) (_map h)).

Definition name_more (ch n : Z) : bool :=
  negb (ch =? eof) && negb (ch =? chr ":") && negb (ch =? 10) && (n <? MAX_NAME_LENGTH).
Definition value_more (ch n : Z) : bool :=
  negb (ch =? eof) && negb (ch =? 13) && negb (ch =? 10) && (n <? MAX_VALUE_LENGTH).
Definition blank_more (ch : Z) : bool :=
  negb (ch =? eof) && Ascii.isSpace ch && negb (ch =? 13) && negb (ch =? 10).

(** The end of a line, behind a value. *)
Definition line_end (ch : Z) : ST istream Z :=
  let* ch := if ch =? 13 then sbumpc else ret ch in
  if ch =? 10 then sbumpc
  else if negb (ch =? eof) then throw MessageException
  else ret ch.

(** [while (ch == ' ' || ch == '\t')]: the folded lines. *)
Fixpoint read_folds (fuel : nat) (value : list Z) (ch : Z) : ST istream (list Z * Z) :=
  if (ch =? 32) || (ch =? 9) then
    match fuel with
    | O => undef
    | S fuel =>
        let* vc := collect_all sbumpc value_more value ch in
        let* ch := line_end (snd vc) in
        read_folds fuel (fst vc) ch
    end
  else ret (value, ch).

(** The value behind a colon, and the character behind it. *)
Definition read_value : ST istream (list Z * Z) :=
  let* ch := sbumpc in
  let* ch := skip_all sbumpc blank_more ch in
  let* vc := collect_all sbumpc value_more [] ch in
  let* ch := line_end (snd vc) in
  let* i := get in
  let* vc := read_folds (rounds i) (fst vc) ch in
  ret (Str.trimRightInPlace (fst vc), snd vc).

(** A computation on the stream beside an object. *)
Definition on_stream {H A} (m : ST istream A) : ST (H * istream) A := fun s =>
  let (r, i) := m (snd s) in (r, (fst s, i)).

(** The loop of [read]; [fields] fields have been added. *)
Fixpoint read_loop (fuel : nat) (fields ch : Z) : ST (MessageHeader_ * istream) Z :=
  if (ch =? eof) || (ch =? 13) || (ch =? 10) then ret ch
  else match fuel with
  | O => undef
  | S fuel =>
      let* s := get in
      if (0 <? _fieldLimit (fst s)) && (fields =? _fieldLimit (fst s)) then throw MessageException
      else
        let* nc := on_stream (collect_all sbumpc name_more [] ch) in
        let ch := snd nc in
        if ch =? 10 then let* ch := on_stream sbumpc in read_loop fuel fields ch
        else if negb (ch =? chr ":") then throw MessageException
        else
          let* vc := on_stream read_value in
          do* modify (fun s => (on_map (NameValueCollection.add (fst nc) (fst vc)) (fst s), snd s));
          read_loop fuel (fields + 1) (snd vc)
  end.

Definition read : ST (MessageHeader_ * istream) unit :=
  let* ch := on_stream sbumpc in
  let* s := get in
  let* ch := read_loop (rounds (snd s)) 0 ch in
  on_stream (putback ch).

(** *** Splitting values *)

(** Between quotes: what is added to the element and what is left behind
    the character that ends it. *)
Fixpoint quoted (it : list Z) : list Z * list Z :=
  match it with
  | [] => ([], [])
  | c :: r =>
      if c =? 34 then ([], it)
      else if c =? 92 then
        match r with
        | [] => ([], [])
        | d :: r => let (a, b) := quoted r in (d :: a, b)
        end
      else let (a, b) := quoted r in (c :: a, b)
  end.

(** An element is finished. *)
Definition push_element (ignoreEmpty : bool) (elem : list Z) (elements : list (list Z)) : list (list Z) :=
  let elem := Str.trimInPlace elem in
  if negb ignoreEmpty || negb (eqb_str elem []) then elements ++ [elem] else elements.

Fixpoint split_loop (fuel : nat) (ignoreEmpty : bool) (it elem : list Z) (elements : list (list Z)) : res (list (list Z)) :=
  match it with
  | [] => Done (if negb (eqb_str elem []) then push_element ignoreEmpty elem elements else elements)
  | c :: r =>
      match fuel with
      | O => UB
      | S fuel =>
          if c =? 34 then
            let (a, b) := quoted r in
            match b with
            | [] => split_loop fuel ignoreEmpty [] (elem ++ c :: a) elements
            | d :: b => split_loop fuel ignoreEmpty b (elem ++ c :: a ++ [d]) elements
            end
          else if c =? 92 then
            match r with
            | [] => split_loop fuel ignoreEmpty [] elem elements
            | d :: r => split_loop fuel ignoreEmpty r (elem ++ [d]) elements
            end
          else if c =? chr "," then split_loop fuel ignoreEmpty r [] (push_element ignoreEmpty elem elements)
          else split_loop fuel ignoreEmpty r (elem ++ [c]) elements
      end
  end.

Definition splitElements (s : list Z) (ignoreEmpty : bool) : res (list (list Z)) :=
  split_loop (length s) ignoreEmpty s [] [].

Definition hasToken (h : MessageHeader_) (fieldName token : list Z) : res bool :=
  (let? field := NameValueCollection.get_default fieldName [] (_map h) in
   let? tokens := splitElements field true in
   Done (existsb (fun t => Str.icompare t token =? 0) tokens))%res.

(** The value of a parameter up to the semicolon. *)
Fixpoint param_value (fuel : nat) (it pvalue : list Z) : res (list Z * list Z) :=
  match it with
  | [] => Done (pvalue, [])
  | c :: r =>
      if c =? chr ";" then Done (pvalue, it)
      else match fuel with
      | O => UB
      | S fuel =>
          if c =? 34 then let (a, b) := quoted r in param_value fuel (tail b) (pvalue ++ a)
          else if c =? 92 then
            match r with
            | [] => param_value fuel [] pvalue
            | d :: r => param_value fuel r (pvalue ++ [d])
            end
          else param_value fuel r (pvalue ++ [c])
      end
  end.

Fixpoint param_loop (fuel : nat) (it : list Z) (parameters : NameValueCollection.collection) :
    res NameValueCollection.collection :=
  match it with
  | [] => Done parameters
  | _ =>
      match fuel with
      | O => UB
      | S fuel =>
          let it := snd (span Ascii.isSpace it) in
          let (pname, it) := span (not_in (str "=;")) it in
          let pname := Str.trimRightInPlace pname in
          let it := match it with c :: r => if c =? chr ";" then it else r | [] => [] end in
          let it := snd (span Ascii.isSpace it) in
          let? vr := param_value (length it) it [] in
          let pvalue := Str.trimRightInPlace (fst vr) in
          let parameters := if negb (eqb_str pname []) then NameValueCollection.add pname pvalue parameters else parameters in
          param_loop fuel (tail (snd vr)) parameters
      end
  end%res.

(** [splitParameters(begin, end, parameters)] *)
Definition splitParameters_range (it : list Z) (parameters : NameValueCollection.collection) : res NameValueCollection.collection :=
  param_loop (length it) it parameters.

Definition splitParameters (s : list Z) : res (list Z * NameValueCollection.collection) :=
  (let it := snd (span Ascii.isSpace s) in
   let (value, it) := span (not_in (str ";")) it in
   let value := Str.trimRightInPlace value in
   let? parameters := splitParameters_range (tail it) [] in
   Done (value, parameters))%res.

(** [quote]: [mustQuote] of a character, and what is appended to [result]. *)
Definition must_quote (allowSpace : bool) (c : Z) : bool :=
  negb (Ascii.isAlphaNumeric c) && negb (c =? chr ".") && negb (c =? chr "_") && negb (c =? chr "-")
  && negb (Ascii.isSpace c && allowSpace).

Definition quote (value : list Z) (allowSpace : bool) : list Z :=
  if existsb (must_quote allowSpace) value then [34] ++ value ++ [34] else value.
End MessageHeader.
