(* ===== verification/HeadersFacts.v ===== *)
(** Facts about message headers: the map behind them is a map from names,
    whatever their case, to the values that were added, the latest first;
    reading what was written, and what reading does to any input. *)

From S2P Require Import Prelude Strings Headers.
From stdpp Require Import gmap list.

Open Scope st_scope.
Local Open Scope Z_scope.

(** ** The map *)
Import ListMap.

(** What [icompare] compares of a name. *)
Definition fold_name (s : list Z) : list Z := map (fun c => s8 (Ascii.toLower c)) s.

Lemma isEqual_iff a b : isEqual a b = true <-> fold_name a = fold_name b.
Proof.
  unfold isEqual, fold_name. rewrite Z.eqb_eq. revert b. induction a as [|x a IH]; intros [|y b]; cbn; try done.
  destruct (_ <? _) eqn:E1; [split; [done|intros [= E _]; rewrite E in E1; lia]|].
  destruct (_ >? _) eqn:E2; [split; [done|intros [= E _]; rewrite E in E2; lia]|].
  rewrite IH. split; [intros ->; f_equal; lia|by intros [= _ ->]].
Qed.

Lemma isEqual_false a b : isEqual a b = false <-> fold_name a <> fold_name b.
Proof. rewrite <-not_true_iff_false. by rewrite isEqual_iff. Qed.

Definition name_of (e : list Z * list Z) : list Z := fold_name (fst e).

(** The values of a name, in the order of the list. *)
Definition values (n : list Z) (l : pairs) : list (list Z) := (filter (fun e => name_of e = n) l).*2.

(** Entries of one name follow each other. *)
Fixpoint grouped (l : pairs) : Prop :=
  match l with
  | [] => True
  | e :: r => (name_of e ∈ name_of <$> r -> name_of <$> head r = Some (name_of e)) /\ grouped r
  end.

Lemma values_nil n l : values n l = [] <-> n ∉ name_of <$> l.
Proof.
  unfold values. induction l as [|e l IH]; [split; [intros _; apply not_elem_of_nil|done]|].
  rewrite filter_cons, fmap_cons, not_elem_of_cons. case_decide; cbn; [split; [done|naive_solver]|]. rewrite IH. naive_solver.
Qed.

Lemma values_cons n e l : values n (e :: l) = if decide (name_of e = n) then snd e :: values n l else values n l.
Proof. unfold values. rewrite filter_cons. by case_decide. Qed.

Lemma values_app n l1 l2 : values n (l1 ++ l2) = values n l1 ++ values n l2.
Proof. unfold values. by rewrite list.filter_app, fmap_app. Qed.

(** [find] stops at the first entry of the name. *)
Lemma find_split key l :
  match find key l with
  | Some i => exists a e b, l = a ++ e :: b /\ length a = i /\ name_of e = fold_name key /\ fold_name key ∉ name_of <$> a
  | None => fold_name key ∉ name_of <$> l
  end.
Proof.
  induction l as [|e l IH]; cbn [find]; [apply not_elem_of_nil|]. destruct (isEqual (fst e) key) eqn:E.
  - apply isEqual_iff in E. exists [], e, l. split_and!; [done|done|done|apply not_elem_of_nil].
  - apply isEqual_false in E. destruct (find key l) as [i|]; cbn.
    + destruct IH as (a & e' & b & -> & <- & He & Ha). exists (e :: a), e', b. split_and!; [done..|].
      rewrite fmap_cons, not_elem_of_cons. split; [|done]. intros E'. by apply E.
    + rewrite not_elem_of_cons. split; [|done]. intros E'. by apply E.
Qed.

Lemma take_drop_middle' {A} (a : list A) e b : take (length a) (a ++ e :: b) = a /\ drop (length a) (a ++ e :: b) = e :: b.
Proof. by rewrite take_app_length, drop_app_length. Qed.

(** Whether an entry is the first of its name or in front of the others. *)
Lemma grouped_front a e b : grouped (a ++ e :: b) -> forall e', name_of e' = name_of e -> name_of e ∉ name_of <$> a -> grouped (a ++ e' :: e :: b).
Proof.
  induction a as [|x a IH]; cbn [app grouped].
  - intros [H1 H2] e' He' _. split; [|done]. intros _. cbn. by rewrite He'.
  - intros [H1 H2] e' He' [Hx Ha]%not_elem_of_cons. split; [|by apply IH]. intros Hin. destruct a as [|y a]; cbn in *.
    + rewrite He' in *. assert (name_of x <> name_of e) by congruence. apply elem_of_cons in Hin as [|Hin]; [done|].
      specialize (H1 Hin). by injection H1 as ->.
    + apply H1. rewrite elem_of_cons, fmap_app, elem_of_app, fmap_cons, fmap_cons, !elem_of_cons in Hin.
      rewrite elem_of_cons, fmap_app, elem_of_app, fmap_cons, elem_of_cons. rewrite He' in Hin. tauto.
Qed.

Lemma grouped_snoc l e : grouped l -> name_of e ∉ name_of <$> l -> grouped (l ++ [e]).
Proof.
  induction l as [|x l IH]; cbn [app grouped]; [intros _ _; split; [by intros ?%not_elem_of_nil|done]|].
  intros [H1 H2] [Hx Hl]%not_elem_of_cons. split; [|by apply IH]. rewrite fmap_app, elem_of_app, (list_elem_of_singleton _ (name_of e)).
  intros [Hin|Ex]; [|by rewrite Ex in Hx]. specialize (H1 Hin). by destruct l.
Qed.

Lemma insert_grouped val l : grouped l -> grouped (insert val l).
Proof.
  intros Hg. unfold insert. pose proof (find_split (fst val) l) as F. destruct (find (fst val) l) as [i|].
  - destruct F as (a & e & b & -> & <- & He & Ha). destruct (take_drop_middle' a e b) as [-> ->].
    apply grouped_front; [done|by rewrite He|by rewrite He].
  - by apply grouped_snoc.
Qed.

Lemma insert_values val l n :
  values n (insert val l) = if decide (name_of val = n) then snd val :: values n l else values n l.
Proof.
  unfold insert. pose proof (find_split (fst val) l) as F. destruct (find (fst val) l) as [i|].
  - destruct F as (a & e & b & -> & <- & He & Ha). destruct (take_drop_middle' a e b) as [-> ->].
    rewrite !values_app, values_cons. case_decide as D; [|done]. rewrite <-D. unfold name_of at 1. apply values_nil in Ha.
    change (fold_name (fst val)) with (name_of val) in *. by rewrite Ha.
  - rewrite values_app. unfold values at 2. rewrite filter_cons. case_decide as D; cbn; [|by rewrite app_nil_r].
    apply values_nil in F. rewrite <-D. change (fold_name (fst val)) with (name_of val) in F. by rewrite F.
Qed.

Lemma find_values key l :
  match find key l with
  | Some i => exists e, l !! i = Some e /\ exists vs, values (fold_name key) l = snd e :: vs
  | None => values (fold_name key) l = []
  end.
Proof.
  pose proof (find_split key l) as F. destruct (find key l) as [i|]; [|by apply values_nil].
  destruct F as (a & e & b & -> & <- & He & Ha). exists e. split; [by rewrite lookup_app_r, Nat.sub_diag by lia|].
  exists (values (fold_name key) b). apply values_nil in Ha. by rewrite values_app, Ha, values_cons, decide_True.
Qed.

Lemma alter_middle {A} (f : A -> A) a e b : alter f (length a) (a ++ e :: b) = a ++ f e :: b.
Proof. induction a as [|x a IH]; [done|]. cbn. by f_equal. Qed.

(** Only the names matter for the grouping. *)
Lemma grouped_names l l' : name_of <$> l = name_of <$> l' -> grouped l -> grouped l'.
Proof.
  revert l'. induction l as [|e l IH]; intros [|e' l'] E; try discriminate E; [done|]. rewrite !fmap_cons in E. injection E as E1 E2.
  intros [H1 H2]. split; [|by apply (IH l')]. rewrite <-E1, <-E2. intros Hin. specialize (H1 Hin).
  destruct l, l'; try discriminate E2; [done|]. rewrite !fmap_cons in E2. injection E2 as E2 _. cbn in *. congruence.
Qed.

Lemma set_spec name value m :
  grouped m ->
  let m' := NameValueCollection.set name value m in
  grouped m' /\ forall n, values n m' = if decide (fold_name name = n) then value :: tail (values n m) else values n m.
Proof.
  intros Hg m'. subst m'. unfold NameValueCollection.set. pose proof (find_split name m) as F. destruct (find name m) as [i|] eqn:Ef.
  - destruct F as (a & e & b & -> & <- & He & Ha). rewrite alter_middle. split.
    + apply (grouped_names (a ++ e :: b)); [|done]. rewrite !fmap_app. by cbn.
    + intros n. rewrite !values_app, !values_cons. change (name_of (fst e, value)) with (name_of e). cbn [snd]. apply values_nil in Ha.
      destruct (decide (fold_name name = n)) as [<-|D]; [by rewrite !(decide_True _ _ He), Ha|by rewrite !decide_False by congruence].
  - split; [by apply insert_grouped|]. intros n. rewrite insert_values. change (name_of (name, value)) with (fold_name name). case_decide as D; [|done].
    apply values_nil in F. rewrite D in F. by rewrite F.
Qed.

Lemma grouped_filter n l : grouped l -> grouped (filter (fun e => name_of e <> n) l).
Proof.
  induction l as [|e l IH]; [done|]. intros [H1 H2]. rewrite filter_cons. case_decide as D; [|by apply IH].
  split; [|by apply IH]. intros (x & Ex & [_ Hx]%list_elem_of_filter)%list_elem_of_fmap.
  specialize (H1 (proj2 (list_elem_of_fmap _ _ _) (ex_intro _ x (conj Ex Hx)))). destruct l as [|y l]; [done|].
  cbn in H1. injection H1 as H1. rewrite filter_cons_True by (by rewrite H1). cbn. by rewrite H1.
Qed.

Lemma values_filter n n' l : values n' (filter (fun e => name_of e <> n) l) = if decide (n = n') then [] else values n' l.
Proof.
  induction l as [|e l IH]; [by case_decide|]. destruct (decide (name_of e = n)) as [E|E].
  - rewrite filter_cons_False by (by intros []). rewrite IH, values_cons. repeat case_decide; congruence.
  - rewrite filter_cons_True by done. rewrite !values_cons, IH. repeat case_decide; congruence.
Qed.

(** The run of entries that [erase] removes is all of them. *)
Lemma erase_loop_spec key l : forall removed count,
  grouped l -> (removed = true -> fold_name key ∈ name_of <$> l -> name_of <$> head l = Some (fold_name key)) ->
  erase_loop key removed count l = ((count + length (values (fold_name key) l))%nat, filter (fun e => name_of e <> fold_name key) l).
Proof.
  induction l as [|e l IH]; intros removed count Hg Hr; [by rewrite Nat.add_0_r|]. destruct Hg as [H1 H2].
  cbn [erase_loop]. rewrite values_cons, filter_cons. destruct (isEqual (fst e) key) eqn:E.
  - apply isEqual_iff in E. change (name_of e = fold_name key) in E. rewrite decide_True by done. rewrite decide_False by (by intros []).
    rewrite IH; [|done|by rewrite <-E]. f_equal. cbn. lia.
  - apply isEqual_false in E. change (name_of e <> fold_name key) in E. rewrite decide_False by done. rewrite decide_True by done.
    destruct removed; [|by rewrite IH].
    assert (Hn : fold_name key ∉ name_of <$> l).
    { intros Hin. specialize (Hr eq_refl ltac:(apply elem_of_cons; by right)). cbn in Hr. congruence. }
    pose proof Hn as Hv. apply values_nil in Hv. rewrite Hv, Nat.add_0_r. do 2 f_equal. symmetry.
    apply filter_keeps. intros x Hx Ex. apply Hn. rewrite <-Ex. by apply list_elem_of_fmap_2.
Qed.

Lemma erase_spec name m :
  grouped m -> erase name m = (length (values (fold_name name) m), filter (fun e => name_of e <> fold_name name) m).
Proof.
  intros Hg. unfold erase. pose proof (find_split name m) as F. destruct (find name m) as [i|].
  - destruct F as (a & e & b & -> & <- & He & Ha). destruct (take_drop_middle' a e b) as [-> ->].
    assert (Hb : grouped (e :: b)) by (clear -Hg; induction a as [|x a IH]; [done|]; apply IH, Hg).
    rewrite (erase_loop_spec name _ false 0 Hb) by done. rewrite values_app, list.filter_app.
    apply values_nil in Ha as Ha'. rewrite Ha'. f_equal. f_equal. symmetry. apply filter_keeps.
    intros x Hx Ex. apply Ha. rewrite <-Ex. by apply list_elem_of_fmap_2.
  - apply values_nil in F as Fv. rewrite Fv. f_equal. symmetry. apply filter_keeps.
    intros x Hx Ex. apply F. rewrite <-Ex. by apply list_elem_of_fmap_2.
Qed.

(** ** A NameValueCollection is a map from names to values *)
Module Multimap.

Inductive op :=
| Set_ (name value : list Z) | Add (name value : list Z) | Erase (name : list Z) | Clear
| Get (name : list Z) | GetDefault (name defaultValue : list Z) | Has (name : list Z).

Inductive answer := Nothing | Value (r : res (list Z)) | Flag (b : bool).

Definition step (o : op) (m : NameValueCollection.collection) : answer * NameValueCollection.collection :=
  match o with
  | Set_ n v => (Nothing, NameValueCollection.set n v m)
  | Add n v => (Nothing, NameValueCollection.add n v m)
  | Erase n => (Nothing, NameValueCollection.erase n m)
  | Clear => (Nothing, NameValueCollection.clear m)
  | Get n => (Value (NameValueCollection.get n m), m)
  | GetDefault n d => (Value (NameValueCollection.get_default n d m), m)
  | Has n => (Flag (NameValueCollection.has n m), m)
  end.

Fixpoint run (ops : list op) (m : NameValueCollection.collection) : list answer * NameValueCollection.collection :=
  match ops with
  | [] => ([], m)
  | o :: ops => let (a, m) := step o m in let (l, m) := run ops m in (a :: l, m)
  end.

(** The values of every name without its case, in the order that ListMap.h
    documents: a value that is added goes behind the others of its name. *)
Abbreviation multimap := (list Z -> list (list Z)).

Definition update (n : list Z) (vs : list (list Z)) (g : multimap) : multimap := fun n' => if decide (n = n') then vs else g n'.

Definition spec_step (o : op) (g : multimap) : answer * multimap :=
  match o with
  | Set_ n v => (Nothing, update (fold_name n) (v :: tail (g (fold_name n))) g)
  | Add n v => (Nothing, update (fold_name n) (g (fold_name n) ++ [v]) g)
  | Erase n => (Nothing, update (fold_name n) [] g)
  | Clear => (Nothing, fun _ => [])
  | Get n => (Value (match g (fold_name n) with v :: _ => Done v | [] => Raise NotFoundException end), g)
  | GetDefault n d => (Value (Done (match g (fold_name n) with v :: _ => v | [] => d end)), g)
  | Has n => (Flag (match g (fold_name n) with _ :: _ => true | [] => false end), g)
  end.

Fixpoint spec_run (ops : list op) (g : multimap) : list answer * multimap :=
  match ops with
  | [] => ([], g)
  | o :: ops => let (a, g) := spec_step o g in let (l, g) := spec_run ops g in (a :: l, g)
  end.

(** The calls that depend on which value of a name is the first are made for
    names with at most one. *)
Definition single (n : list Z) (g : multimap) : bool := match g (fold_name n) with [] | [_] => true | _ => false end.
Definition settled (o : op) (g : multimap) : bool :=
  match o with Set_ n _ | Get n | GetDefault n _ => single n g | _ => true end.
Fixpoint all_settled (ops : list op) (g : multimap) : bool :=
  match ops with
  | [] => true
  | o :: ops => settled o g && all_settled ops (snd (spec_step o g))
  end.

Definition models (m : NameValueCollection.collection) (g : multimap) : Prop := grouped m /\ forall n, values n m ≡ₚ g n.

Lemma single_same n m g : models m g -> single n g = true -> values (fold_name n) m = g (fold_name n).
Proof.
  intros [_ Hv] Hs. specialize (Hv (fold_name n)). unfold single in Hs. destruct (g (fold_name n)) as [|v [|]]; [|by apply Permutation_singleton_r in Hv|done].
  by apply Permutation_nil_r in Hv.
Qed.

Lemma step_models o m g : models m g -> settled o g = true ->
  fst (step o m) = fst (spec_step o g) /\ models (snd (step o m)) (snd (spec_step o g)).
Proof.
  intros Hm Hs. pose proof (fun n => single_same n m g Hm) as H1. destruct Hm as [Hg Hv].
  destruct o as [n v|n v|n| |n|n d|n]; cbn [step spec_step fst snd settled] in *; try specialize (H1 n Hs); (split; [try done|try done]).
  - destruct (set_spec n v m Hg) as [Hs' Hvs]. split; [done|]. intros n'. rewrite Hvs. unfold update. case_decide as D; [by rewrite <-H1, D|by rewrite Hv].
  - split; [by apply insert_grouped|]. intros n'. unfold NameValueCollection.add. rewrite insert_values.
    change (name_of (n, v)) with (fold_name n). unfold update. case_decide as D; [|by rewrite Hv].
    cbn [snd]. rewrite <- D, <- Hv. by rewrite <- Permutation_cons_append.
  - unfold NameValueCollection.erase. rewrite erase_spec by done. cbn [snd]. split; [by apply grouped_filter|]. intros n'.
    rewrite values_filter. unfold update. by case_decide.
  - unfold NameValueCollection.get. rewrite <-H1. pose proof (find_values n m) as F.
    destruct (find n m); [destruct F as (e & He & vs & ->); by rewrite He|by rewrite F].
  - unfold NameValueCollection.get_default. rewrite <-H1. pose proof (find_values n m) as F.
    destruct (find n m); [destruct F as (e & He & vs & ->); by rewrite He|by rewrite F].
  - unfold NameValueCollection.has. specialize (Hv (fold_name n)). pose proof (find_values n m) as F.
    destruct (find n m).
    + destruct F as (e & He & vs & Ev). rewrite Ev in Hv. destruct (g (fold_name n)); [|done]. by apply Permutation_nil_r in Hv.
    + rewrite F in Hv. apply Permutation_nil_l in Hv. by rewrite <- Hv.
Qed.

Lemma run_models ops : forall m g, models m g -> all_settled ops g = true ->
  fst (run ops m) = fst (spec_run ops g) /\ models (snd (run ops m)) (snd (spec_run ops g)).
Proof.
  induction ops as [|o ops IH]; intros m g Hm Hs; [done|]. cbn [run spec_run all_settled] in *. apply andb_true_iff in Hs as [Hs1 Hs2].
  destruct (step_models o m g Hm Hs1) as [Ea Hm']. destruct (step o m) as [a m'], (spec_step o g) as [a' g'].
  cbn in *. subst a'. destruct (IH m' g' Hm' Hs2) as [El Hm2]. destruct (run ops m'), (spec_run ops g'). cbn in *. by rewrite El.
Qed.
End Multimap.



(** ListMap.h documents that a new value goes to the end of the entries of its
    name; it goes to their front, so names that come more than once are
    reversed. *)
Example add_reverses :
  NameValueCollection.add (str "a") (str "2") (NameValueCollection.add (str "A") (str "1") []) = [(str "a", str "2"); (str "A", str "1")].
Proof. reflexivity. Qed.

(** ** Reading characters one ahead *)
Import IStream.

(** The text [p] is still to be looked at, and its first character, which the
    code holds in [ch], has been taken from the stream. *)
Definition cur (p : list Z) : Z := match p with [] => eof | c :: _ => c end.

Definition seen (b p : list Z) : istream :=
  {| before := match p with [] => b | c :: _ => c :: b end; rest := tail p; failed := false |}.

Lemma sbumpc_seen b c p : sbumpc (seen b (c :: p)) = (Done (cur p), seen (c :: b) p).
Proof. by destruct p. Qed.

Lemma putback_seen b c p : is_byte c -> putback (cur (c :: p)) (seen b (c :: p)) = (Done tt, {| before := b; rest := c :: p; failed := false |}).
Proof. intros Hc. unfold putback. cbn. by rewrite u8_id, Z.eqb_refl. Qed.

Lemma rounds_seen b p : (length p <= rounds (seen b p))%nat.
Proof. unfold rounds. destruct p; cbn; lia. Qed.

(** Characters taken while [more] holds of them and of the length so far. *)
Definition passes (more : Z -> Z -> bool) (n : nat) (w : list Z) : Prop :=
  forall i c, w !! i = Some c -> more c (Z.of_nat (n + i)) = true.

Lemma passes_cons more n c w : passes more n (c :: w) <-> more c (Z.of_nat n) = true /\ passes more (S n) w.
Proof.
  split.
  - intros H. split; [specialize (H 0%nat c eq_refl); by rewrite Nat.add_0_r in H|]. intros i d Hd.
    specialize (H (S i) d Hd). by replace (S n + i)%nat with (n + S i)%nat by lia.
  - intros [H1 H2] [|i] d Hd; [injection Hd as <-; by rewrite Nat.add_0_r|]. replace (n + S i)%nat with (S n + i)%nat by lia. by apply H2.
Qed.

(** [next] goes from character to character of a text that ends in [p]. *)
Definition steps (next : ST istream Z) (p : list Z) : Prop :=
  forall b c w, next (seen b (c :: w ++ p)) = (Done (cur (w ++ p)), seen (c :: b) (w ++ p)).

Lemma sbumpc_steps p : steps sbumpc p.
Proof. intros b c w. apply sbumpc_seen. Qed.

Lemma get_steps p : p <> [] -> steps get_char p.
Proof. intros Hp b c w. unfold get_char, seen. cbn. destruct (w ++ p) as [|d q] eqn:E; [|done]. by apply app_nil in E as [_ ->]. Qed.

Lemma collect_run next more w p : steps next p -> forall fuel acc b,
  passes more (length acc) w -> more (cur p) (Z.of_nat (length acc + length w)) = false -> (length w <= fuel)%nat ->
  collect next more fuel acc (cur (w ++ p)) (seen b (w ++ p)) = (Done (acc ++ w, cur p), seen (rev w ++ b) p).
Proof.
  intros Hs. induction w as [|c w IH]; intros fuel acc b Hw Hp Hf.
  - cbn [length app rev] in *. rewrite Nat.add_0_r in Hp. destruct fuel; cbn [collect]; rewrite Hp, app_nil_r; done.
  - destruct fuel as [|fuel]; [cbn in Hf; lia|]. apply passes_cons in Hw as [Hc Hw]. cbn [collect app]. cbn [cur]. rewrite Hc.
    rewrite (bind_Done _ _ _ _ _ (Hs b c w)), IH; cbn [rev].
    + by rewrite <-!app_assoc.
    + rewrite length_app. cbn. by rewrite Nat.add_1_r.
    + rewrite length_app. cbn [length] in *. by replace (length acc + 1 + length w)%nat with (length acc + S (length w))%nat by lia.
    + cbn in Hf. lia.
Qed.

Lemma collect_all_run next more w p acc b :
  steps next p -> passes more (length acc) w -> more (cur p) (Z.of_nat (length acc + length w)) = false ->
  collect_all next more acc (cur (w ++ p)) (seen b (w ++ p)) = (Done (acc ++ w, cur p), seen (rev w ++ b) p).
Proof.
  intros Hs Hw Hp. unfold collect_all. rewrite bind_get. apply collect_run; [done..|].
  etransitivity; [|apply rounds_seen]. rewrite length_app. lia.
Qed.

(** Some characters pass. *)
Lemma passes_some more p : (forall n, more eof n = false) -> forall n,
  exists w p', p = w ++ p' /\ passes more n w /\ more (cur p') (Z.of_nat (n + length w)) = false.
Proof.
  intros He. induction p as [|c p IH]; intros n; [exists [], []; split_and!; [done|by intros i d [=]|apply He]|].
  destruct (more c (Z.of_nat n)) eqn:E.
  - destruct (IH (S n)) as (w & p' & -> & Hw & Hp). exists (c :: w), p'. split_and!; [done|by apply passes_cons|].
    cbn. by replace (n + S (length w))%nat with (S n + length w)%nat by lia.
  - exists [], (c :: p). split_and!; [done|by intros i d [=]|]. by rewrite Nat.add_0_r.
Qed.

Lemma collect_all_total more p acc b : (forall n, more eof n = false) ->
  exists w p', p = w ++ p' /\ passes more (length acc) w /\ more (cur p') (Z.of_nat (length acc + length w)) = false
    /\ collect_all sbumpc more acc (cur p) (seen b p) = (Done (acc ++ w, cur p'), seen (rev w ++ b) p').
Proof.
  intros He. destruct (passes_some more p He (length acc)) as (w & p' & -> & Hw & Hp). exists w, p'.
  split_and!; [done..|]. apply collect_all_run; [apply sbumpc_steps|done|done].
Qed.

Lemma skip_run next more w p : steps next p -> forall fuel b,
  Forall (fun c => more c = true) w -> more (cur p) = false -> (length w <= fuel)%nat ->
  skip next more fuel (cur (w ++ p)) (seen b (w ++ p)) = (Done (cur p), seen (rev w ++ b) p).
Proof.
  intros Hs. induction w as [|c w IH]; intros fuel b Hw Hp Hf.
  - destruct fuel; cbn [skip app]; by rewrite Hp.
  - destruct fuel as [|fuel]; [cbn in Hf; lia|]. apply Forall_cons in Hw as [Hc Hw]. cbn [skip app]. cbn [cur]. rewrite Hc.
    rewrite (bind_Done _ _ _ _ _ (Hs b c w)), IH; [|done|done|cbn in Hf; lia]. cbn [rev]. by rewrite <-app_assoc.
Qed.

Lemma skip_all_run next more w p b :
  steps next p -> Forall (fun c => more c = true) w -> more (cur p) = false ->
  skip_all next more (cur (w ++ p)) (seen b (w ++ p)) = (Done (cur p), seen (rev w ++ b) p).
Proof.
  intros Hs Hw Hp. unfold skip_all. rewrite bind_get. apply skip_run; [done..|].
  etransitivity; [|apply rounds_seen]. rewrite length_app. lia.
Qed.

Lemma skip_all_total more p b : more eof = false ->
  exists w p', p = w ++ p' /\ Forall (fun c => more c = true) w /\ more (cur p') = false
    /\ skip_all sbumpc more (cur p) (seen b p) = (Done (cur p'), seen (rev w ++ b) p').
Proof.
  intros He. assert (exists w p', p = w ++ p' /\ Forall (fun c => more c = true) w /\ more (cur p') = false) as (w & p' & -> & Hw & Hp).
  { induction p as [|c p (w & p' & -> & Hw & Hp)]; [by exists [], []|]. destruct (more c) eqn:E; [|by exists [], (c :: w ++ p')].
    exists (c :: w), p'. split_and!; [done|by constructor|done]. }
  exists w, p'. split_and!; [done..|]. apply skip_all_run; [apply sbumpc_steps|done|done].
Qed.

(** ** Reading what was written *)
Import MessageHeader.

Lemma line_end_crlf b p : line_end 13 (seen b (13 :: 10 :: p)) = (Done (cur p), seen (10 :: 13 :: b) p).
Proof.
  unfold line_end. change (13 =? 13) with true. rewrite (bind_Done _ _ _ _ _ (sbumpc_seen b 13 (10 :: p))).
  cbn [cur]. change (10 =? 10) with true. apply sbumpc_seen.
Qed.

(** The names and values that survive the trip. *)
Record sendable (e : list Z * list Z) : Prop := {
  se_name : Forall (fun c => is_byte c /\ c <> chr ":" /\ c <> 10) (fst e);
  se_start : match fst e with c :: _ => c <> 13 /\ c <> 32 /\ c <> 9 | [] => False end;
  se_name_max : Z.of_nat (length (fst e)) <= MAX_NAME_LENGTH;
  se_value : Forall (fun c => is_byte c /\ c <> 13 /\ c <> 10) (snd e);
  se_left : match snd e with c :: _ => Ascii.isSpace c = false | [] => True end;
  se_right : Str.trimRightInPlace (snd e) = snd e;
  se_value_max : Z.of_nat (length (snd e)) <= MAX_VALUE_LENGTH
}.

Lemma passes_Forall (P : Z -> Prop) more max n w :
  (forall c k, P c -> k < max -> more c k = true) -> Forall P w -> Z.of_nat (n + length w) <= max -> passes more n w.
Proof.
  intros Hm Hw Hl i c Hi. apply Hm; [by eapply (Forall_lookup_1 P)|]. apply lookup_lt_Some in Hi. lia.
Qed.

Lemma read_value_run b v p :
  Forall (fun c => is_byte c /\ c <> 13 /\ c <> 10) v ->
  match v with c :: _ => Ascii.isSpace c = false | [] => True end ->
  Str.trimRightInPlace v = v -> Z.of_nat (length v) <= MAX_VALUE_LENGTH ->
  cur p <> 32 -> cur p <> 9 ->
  exists b', read_value (seen b (58 :: 32 :: v ++ 13 :: 10 :: p)) = (Done (v, cur p), seen b' p).
Proof.
  intros Hv Hs Ht Hl H32 H9. unfold read_value. rewrite (bind_Done _ _ _ _ _ (sbumpc_seen _ _ _)).
  assert (Hb : blank_more (cur (v ++ 13 :: 10 :: p)) = false).
  { unfold blank_more. destruct v as [|c v]; [done|]. cbn [cur app]. by rewrite Hs, andb_false_r. }
  rewrite (bind_Done _ _ _ _ _ (skip_all_run sbumpc blank_more [32] (v ++ 13 :: 10 :: p) _ (sbumpc_steps _) ltac:(by repeat constructor) Hb)).
  rewrite (bind_Done _ _ _ _ _ (collect_all_run sbumpc value_more v (13 :: 10 :: p) [] _ (sbumpc_steps _)
    ltac:(apply (passes_Forall _ _ MAX_VALUE_LENGTH _ _) with (2 := Hv); [|done]; unfold value_more, is_byte, eof; intros c k Hc Hk; lia)
    ltac:(done))).
  cbn [fst snd app]. rewrite (bind_Done _ _ _ _ _ (line_end_crlf _ p)), bind_get.
  assert (Hfold : (cur p =? 32) || (cur p =? 9) = false) by lia.
  eexists. erewrite bind_Done by (unfold rounds; cbn [read_folds]; rewrite Hfold; reflexivity).
  cbn [fst snd]. by rewrite Ht.
Qed.

Lemma read_loop_run es : forall fuel fields b h p,
  Forall sendable es -> (length es <= fuel)%nat -> (0 < _fieldLimit h -> fields + Z.of_nat (length es) <= _fieldLimit h) -> 0 <= fields ->
  cur p = 13 ->
  let text := concat (map (fun e => fst e ++ str ": " ++ snd e ++ [13; 10]) es) ++ p in
  exists b', read_loop fuel fields (cur text) (h, seen b text)
    = (Done 13, ({| _map := foldl (fun m e => NameValueCollection.add (fst e) (snd e) m) (_map h) es; _fieldLimit := _fieldLimit h |}, seen b' p)).
Proof.
  induction es as [|[n v] es IH]; intros fuel fields b h p Hes Hf Hl H0 Hp text; subst text.
  - exists b. cbn [map concat app foldl]. destruct fuel; cbn [read_loop]; rewrite Hp; by destruct h.
  - destruct fuel as [|fuel]; [cbn in Hf; lia|]. apply Forall_cons in Hes as [[Hn Hst Hnl Hv Hvl Htr Hvm] Hes]. cbn [fst snd] in *.
    cbn [map concat fst snd]. rewrite <-!app_assoc. change (str ": ") with [58; 32]. set (q := concat _ ++ p). cbn [app]. cbn [length] in *.
    destruct n as [|c n]; [done|]. cbn [app cur read_loop]. pose proof Hn as Hn'. apply Forall_cons in Hn' as [(Hc & Hc1 & Hc2) _].
    change (chr ":") with 58 in *. unfold is_byte in Hc. rewrite (proj2 (Z.eqb_neq c eof)), (proj2 (Z.eqb_neq c 13)), (proj2 (Z.eqb_neq c 10)) by (unfold eof; lia).
    cbn [orb]. rewrite bind_get. cbn [fst]. rewrite (proj2 (andb_false_iff (0 <? _fieldLimit h) _)) by lia.
    assert (Hq : cur q <> 32 /\ cur q <> 9).
    { subst q. destruct es as [|[n' v'] es]; [cbn; rewrite Hp; lia|]. apply Forall_cons in Hes as [[_ Hst' _ _ _ _ _] _]. cbn in Hst'.
      destruct n' as [|d n']; [done|]. cbn. lia. }
    rewrite (bind_Done _ _ _ (c :: n, 58) (h, seen (rev (c :: n) ++ b) (58 :: 32 :: v ++ 13 :: 10 :: q))).
    2:{ unfold on_stream. cbn [snd]. pose proof (collect_all_run sbumpc name_more (c :: n) (58 :: 32 :: v ++ 13 :: 10 :: q) [] b (sbumpc_steps _)) as R.
        cbn [app cur] in R. rewrite R; [done| |done].
        apply (passes_Forall _ _ MAX_NAME_LENGTH _ _) with (2 := Hn); [|done]. unfold name_more, is_byte, eof. change (chr ":") with 58. intros; lia. }
    cbn [snd fst]. change (58 =? 10) with false. change (58 =? 58) with true. cbn [negb].
    destruct (read_value_run (rev (c :: n) ++ b) v q) as (b2 & Erv); [done..|by destruct Hq|by destruct Hq|].
    rewrite (bind_Done _ _ _ (v, cur q) (h, seen b2 q)) by (unfold on_stream; cbn [snd]; by rewrite Erv).
    rewrite bind_modify. cbn [fst snd].
    destruct (IH fuel (fields + 1) b2 (on_map (NameValueCollection.add (c :: n) v) h) p) as (b' & E); [done|lia|cbn; lia|lia|done|].
    exists b'. exact E.
Qed.

Definition add_all (m es : NameValueCollection.collection) : NameValueCollection.collection :=
  foldl (fun m e => NameValueCollection.add (fst e) (snd e) m) m es.

Lemma add_all_values n es : forall m, values n (add_all m es) = rev (values n es) ++ values n m.
Proof.
  induction es as [|[k v] es IH]; intros m; [done|]. cbn [add_all foldl fst snd]. fold (add_all (NameValueCollection.add k v m) es).
  rewrite IH. unfold NameValueCollection.add. rewrite insert_values, values_cons. case_decide; cbn; [by rewrite <-app_assoc|done].
Qed.

Lemma insert_permuted e m : ListMap.insert e m ≡ₚ e :: m.
Proof.
  unfold ListMap.insert. destruct (find (fst e) m) as [i|].
  - rewrite <- (take_drop i m) at 3. by rewrite Permutation_middle.
  - by rewrite <- Permutation_cons_append.
Qed.

Lemma add_all_permuted es : forall m, add_all m es ≡ₚ m ++ es.
Proof.
  induction es as [|[k v] es IH]; intros m; [by rewrite app_nil_r|]. cbn [add_all foldl fst snd].
  fold (add_all (NameValueCollection.add k v m) es). rewrite IH. unfold NameValueCollection.add. rewrite insert_permuted. cbn [app].
  by rewrite Permutation_middle.
Qed.

Lemma add_all_distinct es : forall m, NoDup (name_of <$> m ++ es) -> add_all m es = m ++ es.
Proof.
  induction es as [|[k v] es IH]; intros m Hn; [by rewrite app_nil_r|]. cbn [add_all foldl fst snd].
  fold (add_all (NameValueCollection.add k v m) es).
  assert (E : NameValueCollection.add k v m = m ++ [(k, v)]).
  { unfold NameValueCollection.add, insert. pose proof (find_split k m) as F. cbn [fst] in *. destruct (find k m) as [i|]; [|done].
    exfalso. destruct F as (a & e & b & -> & _ & He & _). rewrite fmap_app in Hn. apply NoDup_app in Hn as (_ & Hd & _).
    apply (Hd (fold_name k)); [|rewrite fmap_cons; apply elem_of_cons; by left].
    rewrite fmap_app, fmap_cons, elem_of_app, elem_of_cons. right. left. by rewrite He. }
  rewrite E, IH; [by rewrite <-app_assoc|]. by rewrite <-app_assoc.
Qed.

(** A stream at some position, and the same when its next character has been
    taken. *)
Definition at_text (b text : list Z) : istream := {| before := b; rest := text; failed := false |}.

Lemma sbumpc_at b text : sbumpc (at_text b text) = (Done (cur text), seen b text).
Proof. by destruct text. Qed.

Lemma write_length h : (length (_map h) <= length (write h))%nat.
Proof.
  unfold write. induction (_map h) as [|e m IH]; [done|]. cbn [map concat length]. rewrite !length_app. cbn [length]. lia.
Qed.

(** Reading a header in front of an empty line. *)
Lemma read_run h h0 b0 body :
  Forall sendable (_map h) -> (0 < _fieldLimit h0 -> Z.of_nat (length (_map h)) <= _fieldLimit h0) ->
  exists b, read (h0, at_text b0 (write h ++ 13 :: 10 :: body))
    = (Done tt, ({| _map := add_all (_map h0) (_map h); _fieldLimit := _fieldLimit h0 |}, at_text b (13 :: 10 :: body))).
Proof.
  intros Hs Hl. set (t := write h ++ 13 :: 10 :: body).
  destruct (read_loop_run (_map h) (rounds (seen b0 t)) 0 b0 h0 (13 :: 10 :: body)) as (b & E); [done| |lia|done|done|].
  { etransitivity; [|apply rounds_seen]. subst t. rewrite length_app. pose proof (write_length h). lia. }
  exists b. unfold read. rewrite (bind_Done _ _ _ (cur t) (h0, seen b0 t)) by (unfold on_stream; cbn [snd]; by rewrite sbumpc_at).
  rewrite bind_get. cbn [snd]. rewrite (bind_Done _ _ _ _ _ E). unfold on_stream. cbn [snd].
  change 13 with (cur (13 :: 10 :: body)) at 1. by rewrite (putback_seen b 13 (10 :: body)).
Qed.

(** A header that is written and read back, with anything behind the empty
    line that ends it, has the same fields, and in the same order when no name
    comes twice; the stream is left at the empty line.  It takes names without colon or line feed that
    do not start with a blank or a carriage return, values without line
    breaks or blanks at their ends, the lengths the reader allows, and no
    more fields than its limit. *)
Theorem header_roundtrip h limit body :
  Forall sendable (_map h) -> (0 < limit -> Z.of_nat (length (_map h)) <= limit) ->
  exists h' b,
    read ({| _map := []; _fieldLimit := limit |}, open (write h ++ 13 :: 10 :: body))
      = (Done tt, (h', {| before := b; rest := 13 :: 10 :: body; failed := false |}))
    /\ _map h' ≡ₚ _map h
    /\ (NoDup (name_of <$> _map h) -> _map h' = _map h).
Proof.
  intros Hs Hl. destruct (read_run h {| _map := []; _fieldLimit := limit |} [] body Hs Hl) as (b & E).
  eexists _, b. split; [exact E|]. cbn [_map]. split.
  - apply add_all_permuted.
  - intros Hn. by rewrite add_all_distinct.
Qed.

Lemma header_roundtrip_witness :
  let m := [(str "Host", str "a.b:80"); (str "X", []); (str "x", str "v w")] in
  exists h' b,
    read ({| _map := []; _fieldLimit := 3 |}, open (write {| _map := m; _fieldLimit := 0 |} ++ 13 :: 10 :: str "body"))
      = (Done tt, (h', {| before := b; rest := 13 :: 10 :: str "body"; failed := false |}))
    /\ _map h' ≡ₚ m
    /\ (NoDup (name_of <$> m) -> _map h' = m).
Proof.
  apply (header_roundtrip {| _map := [(str "Host", str "a.b:80"); (str "X", []); (str "x", str "v w")]; _fieldLimit := 0 |} 3 (str "body")).
  - repeat constructor; cbn; unfold is_byte; lia || done.
  - cbn. lia.
Defined.

(** ** Reading anything *)
Lemma passes_bound (P : Z -> Prop) more max n w :
  (forall c k, more c k = true -> P c /\ k < max) -> passes more n w -> Z.of_nat n <= max ->
  Forall P w /\ Z.of_nat (n + length w) <= max.
Proof.
  intros Hm. revert n. induction w as [|c w IH]; intros n Hw Hn; [split; [done|cbn; lia]|].
  apply passes_cons in Hw as [Hc Hw]. destruct (Hm _ _ Hc) as [HP Hlt]. destruct (IH (S n) Hw) as [Hw' Hl]; [lia|].
  split; [by constructor|cbn; lia].
Qed.

Definition clean_value (v : list Z) : Prop := Forall (fun c => c <> 13 /\ c <> 10) v /\ Z.of_nat (length v) <= MAX_VALUE_LENGTH.
Definition clean_name (n : list Z) : Prop := Forall (fun c => c <> chr ":" /\ c <> 10) n /\ Z.of_nat (length n) <= MAX_NAME_LENGTH.

(** How a part of the reader can end: with MessageException, or at a position
    not behind [n] characters of the input. *)
Definition calm {A} (n : nat) (Q : A -> list Z -> Prop) (o : res A * istream) : Prop :=
  (exists i, o = (Raise MessageException, i))
  \/ exists a b p, o = (Done a, seen b p) /\ (length p <= n)%nat /\ Forall is_byte p /\ Q a p.

Lemma calm_seq {A B} n (Q : A -> list Z -> Prop) n' (R : B -> list Z -> Prop) (m : ST istream A) (k : A -> ST istream B) i :
  calm n Q (m i) -> (forall a b p, (length p <= n)%nat -> Forall is_byte p -> Q a p -> calm n' R (k a (seen b p))) -> calm n' R (bind m k i).
Proof.
  intros [[j E]|(a & b & p & E & Hl & Hb & HQ)] Hk.
  - left. exists j. by apply bind_Raise.
  - rewrite (bind_Done _ _ _ _ _ E). by apply Hk.
Qed.

Lemma calm_ret {A} n (Q : A -> list Z -> Prop) a b p : (length p <= n)%nat -> Forall is_byte p -> Q a p -> calm n Q (ret a (seen b p)).
Proof. intros Hl Hb HQ. right. by exists a, b, p. Qed.

Lemma calm_throw {A} n (Q : A -> list Z -> Prop) i : calm n Q (throw MessageException i).
Proof. left. by exists i. Qed.

Lemma cur_eof p : Forall is_byte p -> cur p = eof -> p = [].
Proof. intros Hp E. destruct p as [|c p]; [done|]. apply Forall_cons in Hp as [Hc _]. unfold is_byte, eof in *. cbn in E. lia. Qed.

Lemma calm_sbumpc b p : Forall is_byte p -> calm (length p - 1) (fun ch p' => ch = cur p') (sbumpc (seen b p)).
Proof.
  intros Hp. right. destruct p as [|c p]; [by exists eof, b, []|]. exists (cur p), (c :: b), p. rewrite sbumpc_seen.
  apply Forall_cons in Hp as [_ Hp]. split_and!; [done|cbn; lia|done|done].
Qed.

(** The end of a line is at least one character, or the end of the input. *)
Lemma calm_line_end b p : Forall is_byte p -> calm (length p - 1) (fun ch p' => ch = cur p') (line_end (cur p) (seen b p)).
Proof.
  intros Hp. unfold line_end. apply (calm_seq (if cur p =? 13 then length p - 1 else length p) (fun ch p' => ch = cur p')).
  - destruct (cur p =? 13); [by apply calm_sbumpc|by apply calm_ret].
  - intros ch b' p' Hl Hp' ->. assert (Hl' : (length p' <= length p)%nat) by (destruct (cur p =? 13); lia). destruct (Z.eqb_spec (cur p') 10) as [E|E].
    + destruct (calm_sbumpc b' p' Hp') as [|(a & b2 & p2 & E2 & Hl2 & Hp2 & ->)]; [by left|]. right. exists (cur p2), b2, p2. split_and!; [done|lia|done|done].
    + destruct (Z.eqb_spec (cur p') eof) as [E2|E2]; [|by apply calm_throw].
      rewrite (cur_eof p' Hp' E2). apply calm_ret; [cbn; lia|done|done].
Qed.

Lemma value_collect b p v : Forall is_byte p -> clean_value v ->
  calm (length p) (fun vc p' => clean_value (fst vc) /\ snd vc = cur p') (collect_all sbumpc value_more v (cur p) (seen b p)).
Proof.
  intros Hp [Hv Hl]. destruct (collect_all_total value_more p v b) as (w & p' & -> & Hw & _ & E); [done|].
  right. exists (v ++ w, cur p'), (rev w ++ b), p'. apply Forall_app in Hp as [_ Hp']. rewrite length_app. split_and!; [done|lia|done| |done].
  destruct (passes_bound (fun c => c <> 13 /\ c <> 10) value_more MAX_VALUE_LENGTH _ _ ltac:(unfold value_more; intros; lia) Hw Hl) as [Hw' Hl'].
  split; [by apply Forall_app|]. cbn [fst]. by rewrite length_app.
Qed.

Lemma calm_folds fuel : forall b p v, Forall is_byte p -> clean_value v -> (length p <= fuel)%nat ->
  calm (length p) (fun vc p' => clean_value (fst vc) /\ snd vc = cur p') (read_folds fuel v (cur p) (seen b p)).
Proof.
  induction fuel as [|fuel IH]; intros b p v Hp Hv Hf.
  - destruct p; [|cbn in Hf; lia]. apply (calm_ret _ _ (v, eof)); done.
  - cbn [read_folds]. destruct (_ || _) eqn:E; [|by apply calm_ret].
    apply (calm_seq (length p) (fun vc p' => clean_value (fst vc) /\ snd vc = cur p')); [by apply value_collect|].
    intros vc b1 p1 Hl1 Hp1 [Hv1 ->]. apply (calm_seq (length p1 - 1) (fun ch p' => ch = cur p')); [by apply calm_line_end|].
    intros ch b2 p2 Hl2 Hp2 ->. destruct (IH b2 p2 (fst vc) Hp2 Hv1) as [|(a & b3 & p3 & E3 & Hl3 & HQ)]; [|by left|].
    + destruct p; [done|]. cbn in *. lia.
    + right. exists a, b3, p3. split; [done|]. split; [lia|done].
Qed.

Lemma clean_trimRight v : clean_value v -> clean_value (Str.trimRightInPlace v).
Proof.
  intros [Hv Hl]. unfold Str.trimRightInPlace, clean_value. split; [by apply Forall_take|]. rewrite length_take. lia.
Qed.

Lemma calm_read_value b c p : Forall is_byte (c :: p) ->
  calm (length p) (fun vc p' => clean_value (fst vc) /\ snd vc = cur p') (read_value (seen b (c :: p))).
Proof.
  intros Hp. unfold read_value.
  apply (calm_seq (length p) (fun ch p' => ch = cur p')).
  { destruct (calm_sbumpc b (c :: p) Hp) as [|(a & b1 & p1 & E & Hl & HQ)]; [by left|]. right. exists a, b1, p1. cbn in Hl. split; [done|]. split; [lia|done]. }
  intros ch b1 p1 Hl1 Hp1 ->. destruct (skip_all_total blank_more p1 b1 eq_refl) as (w & p2 & -> & _ & _ & E2).
  rewrite (bind_Done _ _ _ _ _ E2). apply Forall_app in Hp1 as [_ Hp2]. rewrite length_app in Hl1.
  apply (calm_seq (length p2) (fun vc p' => clean_value (fst vc) /\ snd vc = cur p')); [apply value_collect; [done|]; by split|].
  intros vc b3 p3 Hl3 Hp3 [Hv3 ->]. apply (calm_seq (length p3 - 1) (fun ch p' => ch = cur p')); [by apply calm_line_end|].
  intros ch b4 p4 Hl4 Hp4 ->. rewrite bind_get.
  apply (calm_seq (length p4) (fun vc p' => clean_value (fst vc) /\ snd vc = cur p')); [apply calm_folds; [done|done|apply rounds_seen]|].
  intros vc2 b5 p5 Hl5 Hp5 [Hv5 ->]. apply calm_ret; [lia|done|]. split; [by apply clean_trimRight|done].
Qed.

Definition clean_field (e : list Z * list Z) : Prop := clean_name (fst e) /\ clean_value (snd e).

(** The header with the fields [added] behind a run of the loop that started
    with [fields] of them. *)
Record read_outcome (h : MessageHeader_) (fields : Z) (r : res Z) (h' : MessageHeader_) (i' : istream) (added : NameValueCollection.collection) : Prop := {
  ro_header : h' = {| _map := add_all (_map h) added; _fieldLimit := _fieldLimit h |};
  ro_clean : Forall clean_field added;
  ro_limit : 0 < _fieldLimit h -> fields <= _fieldLimit h -> fields + Z.of_nat (length added) <= _fieldLimit h;
  ro_end : r = Raise MessageException \/ exists p b, r = Done (cur p) /\ i' = seen b p /\ Forall is_byte p
}.

Lemma outcome_none h fields r i' :
  (r = Raise MessageException \/ exists p b, r = Done (cur p) /\ i' = seen b p /\ Forall is_byte p) -> read_outcome h fields r h i' [].
Proof. split; [by destruct h|done|cbn; lia|done]. Qed.

Lemma read_loop_total fuel : forall fields b p h, Forall is_byte p -> (length p <= fuel)%nat -> 
  exists r h' i' added, read_loop fuel fields (cur p) (h, seen b p) = (r, (h', i')) /\ read_outcome h fields r h' i' added.
Proof.
  assert (Hend : forall fields b p h, Forall is_byte p -> read_outcome h fields (Done (cur p)) h (seen b p) []) by (intros fields b p h Hp; apply outcome_none; right; by exists p, b).
  assert (Hthrow : forall fields h i, read_outcome h fields (Raise MessageException) h i []) by (intros; apply outcome_none; by left).
  induction fuel as [|fuel IH]; intros fields b p h Hp Hf.
  { destruct p; [|cbn in Hf; lia]. eexists _, h, _, []. split; [reflexivity|]. by apply (Hend fields b []). }
  cbn [read_loop]. destruct (_ || _) eqn:Estop; [eexists _, h, _, []; split; [reflexivity|by apply Hend]|].
  rewrite bind_get. cbn [fst]. destruct (_ && _) eqn:Elim; [eexists _, h, _, []; split; [reflexivity|by apply Hthrow]|].
  destruct (collect_all_total name_more p [] b) as (n & q & Epq & Hn & Hstop & E1); [done|]. 
  rewrite (bind_Done _ _ _ (n, cur q) (h, seen (rev n ++ b) q)) by (unfold on_stream; cbn [snd]; by rewrite E1). cbn [fst snd].
  assert (Hq : Forall is_byte q) by (rewrite Epq in Hp; by apply Forall_app in Hp as [_ Hq]).
  assert (Hl : (length q <= length p)%nat) by (rewrite Epq, length_app; lia).
  destruct (Z.eqb_spec (cur q) 10) as [E10|N10].
  - destruct q as [|c q]; [done|]. rewrite (bind_Done _ _ _ (cur q) (h, seen (c :: rev n ++ b) q)) by (unfold on_stream; cbn [snd]; by rewrite sbumpc_seen).
    apply IH; [by apply Forall_cons in Hq as [_ Hq]|cbn in *; lia].
  - destruct (Z.eqb_spec (cur q) (chr ":")) as [E58|N58]; cbn [negb]; [|eexists _, h, _, []; split; [reflexivity|by apply Hthrow]].
    destruct q as [|c q]; [done|]. destruct (calm_read_value (rev n ++ b) c q Hq) as [[i E]|(vc & b2 & p2 & E & Hl2 & Hp2 & Hvc & Ecur)].
    { eexists _, h, i, []. split; [|by apply Hthrow]. rewrite (bind_Raise _ _ _ MessageException (h, i)); [reflexivity|].
      unfold on_stream. cbn [snd]. by rewrite E. }
    rewrite (bind_Done _ _ _ vc (h, seen b2 p2)) by (unfold on_stream; cbn [snd]; by rewrite E). rewrite bind_modify. cbn [fst snd]. rewrite Ecur.
    destruct (IH (fields + 1) b2 p2 (on_map (NameValueCollection.add n (fst vc)) h) Hp2) as (r & h' & i' & added & Er & [Ho1 Ho2 Ho3 Ho4]); [cbn in *; lia|].
    exists r, h', i', ((n, fst vc) :: added). split; [done|]. split; [by rewrite Ho1| | |done].
    + constructor; [|done]. split; [|done]. cbn [fst].
      destruct (passes_bound (fun c => c <> chr ":" /\ c <> 10) name_more MAX_NAME_LENGTH _ _ ltac:(unfold name_more; intros; lia) Hn ltac:(done)) as [Hn1 Hn2]. by split.
    + cbn [length]. cbn in Ho3. intros HL HfL. specialize (Ho3 HL ltac:(lia)). lia.
Qed.

(** A stream of bytes that refuses to work only at its end. *)
Definition sane (i : istream) : Prop := Forall is_byte (rest i) /\ (failed i = true -> rest i = []).

(** What a header holds after reading has added fields. *)
Definition grown (h h' : MessageHeader_) (added : NameValueCollection.collection) : Prop :=
  h' = {| _map := add_all (_map h) added; _fieldLimit := _fieldLimit h |}
  /\ Forall clean_field added /\ (0 < _fieldLimit h -> Z.of_nat (length added) <= _fieldLimit h).

Lemma grown_refl h : grown h h [].
Proof. split_and!; [by destruct h|done|cbn; lia]. Qed.

Lemma putback_sane b p : Forall is_byte p -> exists i, putback (cur p) (seen b p) = (Done tt, i) /\ sane i.
Proof.
  intros Hp. destruct p as [|c p].
  - eexists. split; [reflexivity|]. cbn [failed seen before]. change (u8 (cur [])) with 255. destruct b as [|c b]; [by split|]. destruct (Z.eqb_spec c 255) as [->|]; [|by split].
    split; [|done]. repeat constructor; unfold is_byte; lia.
  - pose proof Hp as Hp'. apply Forall_cons in Hp' as [Hc _]. rewrite putback_seen by done. eexists. split; [done|by split].
Qed.

Lemma read_total h b text : Forall is_byte text ->
  exists r h' i added, read (h, at_text b text) = (r, (h', i)) /\ (r = Done tt /\ sane i \/ r = Raise MessageException) /\ grown h h' added.
Proof.
  intros Ht. destruct (read_loop_total (rounds (seen b text)) 0 b text h Ht (rounds_seen _ _)) as (r & h' & i' & added & E & [H1 H2 H3 H4]).
  assert (Hread : read (h, at_text b text) = bind (fun _ => (r, (h', i'))) (fun ch => on_stream (putback ch)) (h, seen b text)).
  { unfold read. rewrite (bind_Done _ _ _ (cur text) (h, seen b text)) by (unfold on_stream; cbn [snd]; by rewrite sbumpc_at).
    rewrite bind_get. unfold bind at 1. cbn [snd]. by rewrite E. }
  rewrite Hread. assert (grown h h' added) by (split_and!; [done|done|lia]). destruct H4 as [->|(p & b' & -> & -> & Hp)].
  - eexists _, h', i', added. split; [reflexivity|]. split; [by right|done].
  - destruct (putback_sane b' p Hp) as (i & Ei & Hi). exists (Done tt), h', i, added. split; [|split; [by left|done]].
    unfold bind, on_stream. cbn [snd]. by rewrite Ei.
Qed.

Lemma read_sane h i : sane i ->
  exists r h' i' added, read (h, i) = (r, (h', i')) /\ (r = Done tt /\ sane i' \/ r = Raise MessageException) /\ grown h h' added.
Proof.
  intros [Hb Hf]. destruct i as [b t [|]]; [|by apply read_total]. cbn in Hf. rewrite Hf by done.
  exists (Done tt), h, {| before := b; rest := []; failed := true |}, []. split_and!; [done|left; by split|apply grown_refl].
Qed.

(** Whatever the input, MessageHeader::read ends: normally or with
    MessageException.  The fields it has added by then have names of at most
    256 characters without colon or line feed, values of at most 8192
    characters without carriage return or line feed, folded lines included,
    and they are no more than the field limit, when there is one. *)
Theorem header_read_bounded h text : Forall is_byte text ->
  exists r h' i added,
    read (h, open text) = (r, (h', i)) /\ (r = Done tt \/ r = Raise MessageException)
    /\ h' = {| _map := add_all (_map h) added; _fieldLimit := _fieldLimit h |}
    /\ Forall clean_field added
    /\ (0 < _fieldLimit h -> Z.of_nat (length added) <= _fieldLimit h).
Proof.
  intros Ht. destruct (read_total h [] text Ht) as (r & h' & i & added & E & Hr & Hg). exists r, h', i, added. split; [done|]. split; [tauto|done].
Qed.

(** A folded line, a line without colon, and a field too many. *)
Lemma header_read_bounded_witness :
  exists r h' i added,
    read ({| _map := []; _fieldLimit := 1 |}, open (str "a: b" ++ [10] ++ str " c" ++ [13; 10] ++ str "xyz" ++ [10] ++ str "d:e" ++ [10; 10])) = (r, (h', i))
    /\ (r = Done tt \/ r = Raise MessageException)
    /\ h' = {| _map := add_all [] added; _fieldLimit := 1 |} /\ Forall clean_field added
    /\ (0 < 1 -> Z.of_nat (length added) <= 1).
Proof.
  apply (header_read_bounded {| _map := []; _fieldLimit := 1 |}). repeat (apply Forall_app; split); first [apply str_bytes|repeat constructor; unfold is_byte; lia].
Defined.
