(* ===== verification/Http.v ===== *)
(** HTTP messages of POCO Net: MediaType.cpp, HTTPMessage.cpp, HTTPRequest.cpp
    and HTTPResponse.cpp.

    A message is its header with what the derived class adds; a class that
    reads itself from a stream works on the pair of the object and the stream,
    so that an exception leaves what was stored before it. *)

From S2P Require Import Prelude Strings NumericString Headers.

Open Scope st_scope.
Local Open Scope Z_scope.

Import IStream.

(** ** MediaType *)
Module MediaType.
Record MediaType_ := { _type : list Z; _subType : list Z; _parameters : NameValueCollection.collection }.

Definition construct (type subType : list Z) : MediaType_ := {| _type := type; _subType := subType; _parameters := [] |}.

Definition setType (type : list Z) (m : MediaType_) : MediaType_ :=
  {| _type := type; _subType := _subType m; _parameters := _parameters m |}.
Definition setSubType (subType : list Z) (m : MediaType_) : MediaType_ :=
  {| _type := _type m; _subType := subType; _parameters := _parameters m |}.
Definition setParameter (name value : list Z) (m : MediaType_) : MediaType_ :=
  {| _type := _type m; _subType := _subType m; _parameters := NameValueCollection.set name value (_parameters m) |}.
Definition getParameter (name : list Z) (m : MediaType_) : res (list Z) := NameValueCollection.get name (_parameters m).
Definition hasParameter (name : list Z) (m : MediaType_) : bool := NameValueCollection.has name (_parameters m).
Definition removeParameter (name : list Z) (m : MediaType_) : MediaType_ :=
  {| _type := _type m; _subType := _subType m; _parameters := NameValueCollection.erase name (_parameters m) |}.

Definition toString (m : MediaType_) : list Z :=
  _type m ++ str "/" ++ _subType m
  ++ concat (map (fun e => str "; " ++ fst e ++ str "=" ++ MessageHeader.quote (snd e) false) (_parameters m)).

Definition matches (m : MediaType_) (type subType : list Z) : bool :=
  (Str.icompare (_type m) type =? 0) && (Str.icompare (_subType m) subType =? 0).
Definition matches_type (m : MediaType_) (type : list Z) : bool := Str.icompare (_type m) type =? 0.

Definition matchesRange (m : MediaType_) (type subType : list Z) : bool :=
  if eqb_str (_type m) (str "*") || eqb_str type (str "*") || (Str.icompare (_type m) type =? 0) then
    eqb_str (_subType m) (str "*") || eqb_str subType (str "*") || (Str.icompare (_subType m) subType =? 0)
  else false.
Definition matchesRange_type (m : MediaType_) (type : list Z) : bool :=
  eqb_str (_type m) (str "*") || eqb_str type (str "*") || matches_type m type.

Definition parse (mediaType : list Z) : res MediaType_ :=
  (let it := snd (span Ascii.isSpace mediaType) in
   let (type, it) := span (not_in (str "/")) it in
   let it := tail it in
   let (subType, it) := span (fun c => not_in (str ";") c && negb (Ascii.isSpace c)) it in
   let it := snd (span (not_in (str ";")) it) in
   let? parameters := MessageHeader.splitParameters_range it [] in
   Done {| _type := type; _subType := subType; _parameters := parameters |})%res.
End MediaType.

(** ** HTTPMessage *)
Module HTTPMessage.
Import MessageHeader.

Definition HTTP_1_0 : list Z := str "HTTP/1.0".
Definition HTTP_1_1 : list Z := str "HTTP/1.1".
Definition IDENTITY_TRANSFER_ENCODING : list Z := str "identity".
Definition CHUNKED_TRANSFER_ENCODING : list Z := str "chunked".
Definition UNKNOWN_CONTENT_LENGTH : Z := -1.
Definition UNKNOWN_CONTENT_TYPE : list Z := [].
Definition CONTENT_LENGTH : list Z := str "Content-Length".
Definition CONTENT_TYPE : list Z := str "Content-Type".
Definition TRANSFER_ENCODING : list Z := str "Transfer-Encoding".
Definition CONNECTION : list Z := str "Connection".
Definition CONNECTION_KEEP_ALIVE : list Z := str "Keep-Alive".
Definition CONNECTION_CLOSE : list Z := str "Close".

Record HTTPMessage_ := { header : MessageHeader_; _version : list Z }.

Definition construct : HTTPMessage_ := {| header := MessageHeader.construct; _version := HTTP_1_0 |}.
Definition construct_version (version : list Z) : HTTPMessage_ := {| header := MessageHeader.construct; _version := version |}.

Definition set_header (h : MessageHeader_) (m : HTTPMessage_) : HTTPMessage_ := {| header := h; _version := _version m |}.
Definition setVersion (version : list Z) (m : HTTPMessage_) : HTTPMessage_ := {| header := header m; _version := version |}.

(** The operations of the base classes on the fields. *)
Definition set (name value : list Z) (m : HTTPMessage_) : HTTPMessage_ :=
  set_header (on_map (NameValueCollection.set name value) (header m)) m.
Definition add (name value : list Z) (m : HTTPMessage_) : HTTPMessage_ :=
  set_header (on_map (NameValueCollection.add name value) (header m)) m.
Definition erase (name : list Z) (m : HTTPMessage_) : HTTPMessage_ :=
  set_header (on_map (NameValueCollection.erase name) (header m)) m.
Definition get_default (name defaultValue : list Z) (m : HTTPMessage_) : res (list Z) :=
  NameValueCollection.get_default name defaultValue (_map (header m)).

Definition setContentLength (length : Z) (m : HTTPMessage_) : res HTTPMessage_ :=
  if negb (length =? UNKNOWN_CONTENT_LENGTH) then
    (let? t := Formatter.format_long length in Done (set CONTENT_LENGTH t m))%res
  else Done (erase CONTENT_LENGTH m).

Definition getContentLength (m : HTTPMessage_) : res Z :=
  (let? contentLength := get_default CONTENT_LENGTH [] m in
   if negb (eqb_str contentLength []) then Parser.parse64 contentLength (chr ",") else Done UNKNOWN_CONTENT_LENGTH)%res.

Definition setContentLength64 (length : Z) (m : HTTPMessage_) : res HTTPMessage_ :=
  if negb (length =? UNKNOWN_CONTENT_LENGTH) then
    (let? t := Formatter.format_Int64 length in Done (set CONTENT_LENGTH t m))%res
  else Done (erase CONTENT_LENGTH m).

Definition getContentLength64 (m : HTTPMessage_) : res Z :=
  (let? contentLength := get_default CONTENT_LENGTH [] m in
   if negb (eqb_str contentLength []) then Parser.parse64 contentLength (chr ",") else Done UNKNOWN_CONTENT_LENGTH)%res.

Definition setTransferEncoding (transferEncoding : list Z) (m : HTTPMessage_) : HTTPMessage_ :=
  if Str.icompare transferEncoding IDENTITY_TRANSFER_ENCODING =? 0 then erase TRANSFER_ENCODING m
  else set TRANSFER_ENCODING transferEncoding m.

Definition getTransferEncoding (m : HTTPMessage_) : res (list Z) := get_default TRANSFER_ENCODING IDENTITY_TRANSFER_ENCODING m.

Definition setChunkedTransferEncoding (flag : bool) (m : HTTPMessage_) : HTTPMessage_ :=
  if flag then setTransferEncoding CHUNKED_TRANSFER_ENCODING m else setTransferEncoding IDENTITY_TRANSFER_ENCODING m.

Definition getChunkedTransferEncoding (m : HTTPMessage_) : res bool :=
  (let? e := getTransferEncoding m in Done (Str.icompare e CHUNKED_TRANSFER_ENCODING =? 0))%res.

Definition setContentType (mediaType : list Z) (m : HTTPMessage_) : HTTPMessage_ :=
  if eqb_str mediaType [] then erase CONTENT_TYPE m else set CONTENT_TYPE mediaType m.

Definition setContentType_media (mediaType : MediaType.MediaType_) (m : HTTPMessage_) : HTTPMessage_ :=
  setContentType (MediaType.toString mediaType) m.

Definition getContentType (m : HTTPMessage_) : res (list Z) := get_default CONTENT_TYPE UNKNOWN_CONTENT_TYPE m.

Definition setKeepAlive (keepAlive : bool) (m : HTTPMessage_) : HTTPMessage_ :=
  if keepAlive then set CONNECTION CONNECTION_KEEP_ALIVE m else set CONNECTION CONNECTION_CLOSE m.

Definition getKeepAlive (m : HTTPMessage_) : res bool :=
  (let? connection := get_default CONNECTION [] m in
   Done (if negb (eqb_str connection []) then negb (Str.icompare connection CONNECTION_CLOSE =? 0)
         else eqb_str (_version m) HTTP_1_1))%res.

(** [write] and [read] are those of the header. *)
Definition write (m : HTTPMessage_) : list Z := MessageHeader.write (header m).

Definition read : ST (HTTPMessage_ * istream) unit := fun s =>
  let (r, hi) := MessageHeader.read (header (fst s), snd s) in
  (r, (set_header (fst hi) (fst s), snd hi)).
End HTTPMessage.

(** A word of at most [max] characters, behind what ends it. *)
Definition word_more (max : Z) (ch n : Z) : bool := negb (Ascii.isSpace ch) && negb (ch =? eof) && (n <? max).
Definition to_newline (ch : Z) : bool := negb (ch =? 10) && negb (ch =? eof).

(** ** HTTPRequest *)
Module HTTPRequest.
Import HTTPMessage.

Definition MAX_METHOD_LENGTH : Z := 32.
Definition MAX_URI_LENGTH : Z := 4096.
Definition MAX_VERSION_LENGTH : Z := 8.

Definition HTTP_GET : list Z := str "GET".
Definition HOST : list Z := str "Host".
Definition COOKIE : list Z := str "Cookie".
Definition AUTHORIZATION : list Z := str "Authorization".
Definition PROXY_AUTHORIZATION : list Z := str "Proxy-Authorization".

Record HTTPRequest_ := { message : HTTPMessage_; _method : list Z; _uri : list Z }.

Definition construct : HTTPRequest_ := {| message := HTTPMessage.construct; _method := HTTP_GET; _uri := str "/" |}.
Definition construct_uri (method uri version : list Z) : HTTPRequest_ :=
  {| message := construct_version version; _method := method; _uri := uri |}.

Definition on_message (f : HTTPMessage_ -> HTTPMessage_) (q : HTTPRequest_) : HTTPRequest_ :=
  {| message := f (message q); _method := _method q; _uri := _uri q |}.
Definition setMethod (method : list Z) (q : HTTPRequest_) : HTTPRequest_ :=
  {| message := message q; _method := method; _uri := _uri q |}.
Definition setURI (uri : list Z) (q : HTTPRequest_) : HTTPRequest_ :=
  {| message := message q; _method := _method q; _uri := uri |}.

Definition setHost (host : list Z) (q : HTTPRequest_) : HTTPRequest_ := on_message (set HOST host) q.

(** A [Poco::UInt16] goes to [NumberFormatter::append(std::string&, int)]. *)
Definition setHost_port (host : list Z) (port : Z) (q : HTTPRequest_) : res HTTPRequest_ :=
  (let value := if contains host (chr ":") then str "[" ++ host ++ str "]" else host in
   if negb (port =? 80) && negb (port =? 443) then
     let? value := Formatter.append_int (value ++ str ":") port in Done (setHost value q)
   else Done (setHost value q))%res.

Definition getHost (q : HTTPRequest_) : res (list Z) := NameValueCollection.get HOST (MessageHeader._map (header (message q))).

Fixpoint cookie_text (first : bool) (cookies : NameValueCollection.collection) : list Z :=
  match cookies with
  | [] => []
  | e :: r => (if first then [] else str "; ") ++ fst e ++ str "=" ++ snd e ++ cookie_text false r
  end.

Definition setCookies (cookies : NameValueCollection.collection) (q : HTTPRequest_) : HTTPRequest_ :=
  on_message (add COOKIE (cookie_text true cookies)) q.

(** From the first field with the name on, as long as the name stays. *)
Fixpoint cookie_loop (l cookies : NameValueCollection.collection) : res NameValueCollection.collection :=
  match l with
  | [] => Done cookies
  | e :: l =>
      if Str.icompare (fst e) COOKIE =? 0 then
        (let? cookies := MessageHeader.splitParameters_range (snd e) cookies in cookie_loop l cookies)%res
      else Done cookies
  end.

Definition getCookies (cookies : NameValueCollection.collection) (q : HTTPRequest_) : res NameValueCollection.collection :=
  let m := MessageHeader._map (header (message q)) in
  match ListMap.find COOKIE m with
  | None => Done cookies
  | Some i => cookie_loop (drop i m) cookies
  end.

Definition hasCredentials (q : HTTPRequest_) : bool := NameValueCollection.has AUTHORIZATION (MessageHeader._map (header (message q))).
Definition hasProxyCredentials (q : HTTPRequest_) : bool :=
  NameValueCollection.has PROXY_AUTHORIZATION (MessageHeader._map (header (message q))).

(** [getCredentials(header, scheme, authInfo)] *)
Definition get_credentials (field : list Z) (q : HTTPRequest_) : res (list Z * list Z) :=
  let m := MessageHeader._map (header (message q)) in
  if NameValueCollection.has field m then
    (let? auth := NameValueCollection.get field m in
     let it := snd (span Ascii.isSpace auth) in
     let (scheme, it) := span (fun c => negb (Ascii.isSpace c)) it in
     let it := snd (span Ascii.isSpace it) in
     Done (scheme, it))%res
  else Raise NotAuthenticatedException.

Definition set_credentials (field scheme authInfo : list Z) (q : HTTPRequest_) : HTTPRequest_ :=
  on_message (set field (scheme ++ str " " ++ authInfo)) q.

Definition getCredentials : HTTPRequest_ -> res (list Z * list Z) := get_credentials AUTHORIZATION.
Definition setCredentials : list Z -> list Z -> HTTPRequest_ -> HTTPRequest_ := set_credentials AUTHORIZATION.
Definition getProxyCredentials : HTTPRequest_ -> res (list Z * list Z) := get_credentials PROXY_AUTHORIZATION.
Definition setProxyCredentials : list Z -> list Z -> HTTPRequest_ -> HTTPRequest_ := set_credentials PROXY_AUTHORIZATION.

Definition write (q : HTTPRequest_) : list Z :=
  _method q ++ str " " ++ _uri q ++ str " " ++ _version (message q) ++ [13; 10] ++ HTTPMessage.write (message q) ++ [13; 10].

(** A word of the request line and the blanks behind it. *)
Definition read_word (max : Z) (ch : Z) : ST istream (list Z * Z) :=
  let* wc := collect_all get_char (word_more max) [] ch in
  if negb (Ascii.isSpace (snd wc)) then throw MessageException else ret wc.

(** The request line. *)
Definition read_line : ST istream (list Z * list Z * list Z) :=
  let* ch := get_char in
  if ch =? eof then throw NoMessageException
  else
    let* ch := skip_all get_char Ascii.isSpace ch in
    if ch =? eof then throw MessageException
    else
      let* method := read_word MAX_METHOD_LENGTH ch in
      let* ch := skip_all get_char Ascii.isSpace (snd method) in
      let* uri := read_word MAX_URI_LENGTH ch in
      let* ch := skip_all get_char Ascii.isSpace (snd uri) in
      let* version := read_word MAX_VERSION_LENGTH ch in
      let* _ch := skip_all get_char to_newline (snd version) in
      ret (fst method, fst uri, fst version).

(** [HTTPMessage::read] on the base object. *)
Definition read_message : ST (HTTPRequest_ * istream) unit := fun s =>
  let (r, mi) := HTTPMessage.read (message (fst s), snd s) in
  (r, (on_message (fun _ => fst mi) (fst s), snd mi)).

(** The rest of the line that ends the header. *)
Definition read_end : ST istream unit :=
  let* ch := get_char in
  let* _ch := skip_all get_char to_newline ch in
  ret tt.

Definition read : ST (HTTPRequest_ * istream) unit :=
  let* l := MessageHeader.on_stream read_line in
  do* read_message;
  do* MessageHeader.on_stream read_end;
  let '(method, uri, version) := l in
  modify (fun s => (on_message (setVersion version) (setURI uri (setMethod method (fst s))), snd s)).
End HTTPRequest.

(** ** HTTPResponse *)
Module HTTPResponse.
Import HTTPMessage.

Definition MAX_VERSION_LENGTH : Z := 8.
Definition MAX_STATUS_LENGTH : Z := 3.
Definition MAX_REASON_LENGTH : Z := 512.

(** HTTPStatus is an enumeration that [setStatus] fills with any number. *)
Record HTTPResponse_ := { message : HTTPMessage_; _status : Z; _reason : list Z }.

Definition getReasonForStatus (status : Z) : list Z :=
  match status with
  | 100 => str "Continue"
  | 101 => str "Switching Protocols"
  | 200 => str "OK"
  | 201 => str "Created"
  | 202 => str "Accepted"
  | 203 => str "Non-Authoritative Information"
  | 204 => str "No Content"
  | 205 => str "Reset Content"
  | 206 => str "Partial Content"
  | 300 => str "Multiple Choices"
  | 301 => str "Moved Permanently"
  | 302 => str "Found"
  | 303 => str "See Other"
  | 304 => str "Not Modified"
  | 305 => str "Use Proxy"
  | 307 => str "Temporary Redirect"
  | 400 => str "Bad Request"
  | 401 => str "Unauthorized"
  | 402 => str "Payment Required"
  | 403 => str "Forbidden"
  | 404 => str "Not Found"
  | 405 => str "Method Not Allowed"
  | 406 => str "Not Acceptable"
  | 407 => str "Proxy Authentication Required"
  | 408 => str "Request Time-out"
  | 409 => str "Conflict"
  | 410 => str "Gone"
  | 411 => str "Length Required"
  | 412 => str "Precondition Failed"
  | 413 => str "Request Entity Too Large"
  | 414 => str "Request-URI Too Large"
  | 415 => str "Unsupported Media Type"
  | 416 => str "Requested Range Not Satisfiable"
  | 417 => str "Expectation Failed"
  | 500 => str "Internal Server Error"
  | 501 => str "Not Implemented"
  | 502 => str "Bad Gateway"
  | 503 => str "Service Unavailable"
  | 504 => str "Gateway Time-out"
  | 505 => str "HTTP Version not supported"
  | _ => str "???"
  end.

Definition HTTP_OK : Z := 200.

Definition construct : HTTPResponse_ :=
  {| message := HTTPMessage.construct; _status := HTTP_OK; _reason := getReasonForStatus HTTP_OK |}.
Definition construct_reason (version : list Z) (status : Z) (reason : list Z) : HTTPResponse_ :=
  {| message := construct_version version; _status := status; _reason := reason |}.
Definition construct_status (version : list Z) (status : Z) : HTTPResponse_ :=
  {| message := construct_version version; _status := status; _reason := getReasonForStatus status |}.

Definition on_message (f : HTTPMessage_ -> HTTPMessage_) (q : HTTPResponse_) : HTTPResponse_ :=
  {| message := f (message q); _status := _status q; _reason := _reason q |}.
Definition setStatus (status : Z) (q : HTTPResponse_) : HTTPResponse_ :=
  {| message := message q; _status := status; _reason := _reason q |}.
Definition setReason (reason : list Z) (q : HTTPResponse_) : HTTPResponse_ :=
  {| message := message q; _status := _status q; _reason := reason |}.
Definition setStatusAndReason (status : Z) (reason : list Z) (q : HTTPResponse_) : HTTPResponse_ :=
  {| message := message q; _status := status; _reason := reason |}.
Definition setStatusAndReason_default (status : Z) (q : HTTPResponse_) : HTTPResponse_ :=
  setStatusAndReason status (getReasonForStatus status) q.

Definition setStatus_text (status : list Z) (q : HTTPResponse_) : res HTTPResponse_ :=
  (let? n := Parser.parse status (chr ",") in Done (setStatus n q))%res.

(** [ostr << n] of an [int] in decimal. *)
Fixpoint decimal (fuel : nat) (n : Z) (text : list Z) : list Z :=
  match fuel with
  | O => text
  | S fuel =>
      let text := (chr "0" + n mod 10) :: text in
      if n / 10 =? 0 then text else decimal fuel (n / 10) text
  end.

Definition int_text (n : Z) : list Z := if n <? 0 then chr "-" :: decimal 10 (- n) [] else decimal 10 n [].

Definition write (q : HTTPResponse_) : list Z :=
  _version (message q) ++ str " " ++ int_text (_status q) ++ str " " ++ _reason q ++ [13; 10]
  ++ HTTPMessage.write (message q) ++ [13; 10].

Definition reason_blank (ch : Z) : bool := Ascii.isSpace ch && negb (ch =? 13) && negb (ch =? 10) && negb (ch =? eof).
Definition reason_more (ch n : Z) : bool := negb (ch =? 13) && negb (ch =? 10) && negb (ch =? eof) && (n <? MAX_REASON_LENGTH).

(** The status line. *)
Definition read_line : ST istream (list Z * list Z * list Z) :=
  let* ch := get_char in
  if ch =? eof then throw NoMessageException
  else
    let* ch := skip_all get_char Ascii.isSpace ch in
    if ch =? eof then throw MessageException
    else
      let* version := HTTPRequest.read_word MAX_VERSION_LENGTH ch in
      let* ch := skip_all get_char Ascii.isSpace (snd version) in
      let* status := HTTPRequest.read_word MAX_STATUS_LENGTH ch in
      let* ch := skip_all get_char reason_blank (snd status) in
      let* reason := collect_all get_char reason_more [] ch in
      if negb (Ascii.isSpace (snd reason)) then throw MessageException
      else
        let* _ch := if snd reason =? 13 then get_char else ret (snd reason) in
        ret (fst version, fst status, fst reason).

Definition read_message : ST (HTTPResponse_ * istream) unit := fun s =>
  let (r, mi) := HTTPMessage.read (message (fst s), snd s) in
  (r, (on_message (fun _ => fst mi) (fst s), snd mi)).

(** [setVersion], [setStatus] and [setReason]: a status that is no number
    leaves the new version. *)
Definition read : ST (HTTPResponse_ * istream) unit :=
  let* l := MessageHeader.on_stream read_line in
  do* read_message;
  do* MessageHeader.on_stream HTTPRequest.read_end;
  let '(version, status, reason) := l in
  do* modify (fun s => (on_message (setVersion version) (fst s), snd s));
  let* n := lift (Parser.parse status (chr ",")) in
  modify (fun s => (setReason reason (setStatus n (fst s)), snd s)).
End HTTPResponse.
