(* ===== verification/HttpFacts.v ===== *)
(** Facts about HTTP messages: requests, responses and media types are read
    back from what was written, and reading a request or response ends on
    any input. *)

From S2P Require Import Prelude Strings NumericString Headers HeadersFacts Http.
From stdpp Require Import list.

Open Scope st_scope.
Local Open Scope Z_scope.

Import IStream MessageHeader.

(** ** Reading what was written *)

(** A word of a request or status line. *)
Record wordy (max : Z) (w : list Z) : Prop := {
  wo_some : w <> [];
  wo_chars : Forall (fun c => is_byte c /\ Ascii.isSpace c = false) w;
  wo_max : Z.of_nat (length w) <= max
}.

Lemma get_at b c p : get_char (at_text b (c :: p)) = (Done c, seen b (c :: p)).
Proof. done. Qed.

Lemma seen_at b c p : seen b (c :: p) = at_text (c :: b) p.
Proof. done. Qed.

Lemma wordy_cur max w p : wordy max w -> Ascii.isSpace (cur (w ++ p)) = false /\ cur (w ++ p) <> eof.
Proof. intros [Hs Hc _]. destruct w as [|c w]; [done|]. apply Forall_cons in Hc as [[Hb Hc] _]. split; [done|]. cbn. unfold is_byte, eof in *. lia. Qed.

Lemma wordy_passes max w : wordy max w -> passes (word_more max) 0 w.
Proof.
  intros [_ Hc Hl]. apply (passes_Forall (fun c => is_byte c /\ Ascii.isSpace c = false) _ max); [|done|done].
  intros c k [Hb Hs] Hk. unfold word_more, is_byte, eof in *. rewrite Hs. cbn. lia.
Qed.

(** A word in front of a blank [s]. *)
Lemma read_word_run max w s p b :
  wordy max w -> Ascii.isSpace s = true ->
  HTTPRequest.read_word max (cur (w ++ s :: p)) (seen b (w ++ s :: p)) = (Done (w, s), seen (rev w ++ b) (s :: p)).
Proof.
  intros Hw Hs. unfold HTTPRequest.read_word.
  rewrite (bind_Done _ _ _ _ _ (collect_all_run get_char (word_more max) w (s :: p) [] b (get_steps (s :: p) ltac:(done)) (wordy_passes max w Hw)
    ltac:(unfold word_more; cbn [cur]; by rewrite Hs))).
  cbn [fst snd app cur]. by rewrite Hs.
Qed.

(** Blanks in front of something else, and in front of a word. *)
Lemma skip_blank_run more ws c p b :
  Forall (fun c => more c = true) ws -> more c = false ->
  skip_all get_char more (cur (ws ++ c :: p)) (seen b (ws ++ c :: p)) = (Done c, seen (rev ws ++ b) (c :: p)).
Proof. apply (skip_all_run get_char more ws (c :: p) b). by apply get_steps. Qed.

Lemma skip_word_run max ws w s p b :
  wordy max w -> Forall (fun c => Ascii.isSpace c = true) ws ->
  skip_all get_char Ascii.isSpace (cur (ws ++ w ++ s :: p)) (seen b (ws ++ w ++ s :: p)) = (Done (cur (w ++ s :: p)), seen (rev ws ++ b) (w ++ s :: p)).
Proof.
  intros Hw Hs. destruct (wordy_cur max w (s :: p) Hw) as [Hc _]. destruct (w ++ s :: p) as [|c q] eqn:E; [by apply app_nil in E as [_ ?]|].
  by apply skip_blank_run.
Qed.

Lemma skip_none_run max w s p b : wordy max w ->
  skip_all get_char Ascii.isSpace (cur (w ++ s :: p)) (seen b (w ++ s :: p)) = (Done (cur (w ++ s :: p)), seen b (w ++ s :: p)).
Proof. intros Hw. by apply (skip_word_run max []). Qed.

Lemma skip_one_run max w s p b : wordy max w ->
  skip_all get_char Ascii.isSpace 32 (seen b (32 :: w ++ s :: p)) = (Done (cur (w ++ s :: p)), seen (32 :: b) (w ++ s :: p)).
Proof. intros Hw. apply (skip_word_run max [32]); [done|by repeat constructor]. Qed.

(** The end of a line. *)
Lemma skip_line_run p b : skip_all get_char to_newline 13 (seen b (13 :: 10 :: p)) = (Done 10, at_text (10 :: 13 :: b) p).
Proof. apply (skip_blank_run to_newline [13] 10 p b); [by repeat constructor|done]. Qed.

Definition request_ok (q : HTTPRequest.HTTPRequest_) : Prop :=
  wordy HTTPRequest.MAX_METHOD_LENGTH (HTTPRequest._method q) /\ wordy HTTPRequest.MAX_URI_LENGTH (HTTPRequest._uri q)
  /\ wordy HTTPRequest.MAX_VERSION_LENGTH (HTTPMessage._version (HTTPRequest.message q)).

Lemma request_line_run m u v p :
  wordy HTTPRequest.MAX_METHOD_LENGTH m -> wordy HTTPRequest.MAX_URI_LENGTH u -> wordy HTTPRequest.MAX_VERSION_LENGTH v ->
  exists b, HTTPRequest.read_line (open (m ++ 32 :: u ++ 32 :: v ++ 13 :: 10 :: p)) = (Done (m, u, v), at_text b p).
Proof.
  intros Hm Hu Hv. unfold HTTPRequest.read_line. set (t := m ++ _).
  destruct (wordy_cur _ m (32 :: u ++ 32 :: v ++ 13 :: 10 :: p) Hm) as [Hms Hme]. fold t in Hms, Hme.
  rewrite (bind_Done _ _ _ (cur t) (seen [] t)) by (destruct t; [by destruct Hme|done]).
  rewrite (proj2 (Z.eqb_neq _ _) Hme). subst t.
  rewrite (bind_Done _ _ _ _ _ (skip_none_run _ m 32 _ [] Hm)).
  rewrite (proj2 (Z.eqb_neq _ _) Hme), (bind_Done _ _ _ _ _ (read_word_run _ m 32 _ _ Hm eq_refl)). cbn [fst snd].
  rewrite (bind_Done _ _ _ _ _ (skip_one_run _ u 32 _ _ Hu)), (bind_Done _ _ _ _ _ (read_word_run _ u 32 _ _ Hu eq_refl)). cbn [fst snd].
  rewrite (bind_Done _ _ _ _ _ (skip_one_run _ v 13 _ _ Hv)), (bind_Done _ _ _ _ _ (read_word_run _ v 13 _ _ Hv eq_refl)). cbn [fst snd].
  rewrite (bind_Done _ _ _ _ _ (skip_line_run p _)).
  eexists. reflexivity.
Qed.

Lemma read_end_run b body : exists b', HTTPRequest.read_end (at_text b (13 :: 10 :: body)) = (Done tt, at_text b' body).
Proof.
  unfold HTTPRequest.read_end. rewrite (bind_Done _ _ _ _ _ (get_at b 13 (10 :: body))).
  rewrite (bind_Done _ _ _ _ _ (skip_line_run body b)).
  eexists. reflexivity.
Qed.

(** A new header filled by reading. *)
Lemma fresh_permuted m : add_all [] m ≡ₚ m.
Proof. apply add_all_permuted. Qed.

Lemma fresh_distinct m : NoDup (name_of <$> m) -> add_all [] m = m.
Proof. intros Hn. by rewrite add_all_distinct. Qed.

(** C17: a request that is written and read into a new object, with any body
    behind it, has the same method, URI, version and fields, and the fields are
    in the same order when no name comes twice (the order of fields of one name
    is the subject of [add_reverses]); the stream is left at the body.  Method,
    URI and version are words of the lengths the reader allows, the fields at
    most as many as it allows, with names and values as [sendable] has them. *)
Theorem request_roundtrip q body :
  request_ok q -> Forall sendable (_map (HTTPMessage.header (HTTPRequest.message q))) ->
  Z.of_nat (length (_map (HTTPMessage.header (HTTPRequest.message q)))) <= DFL_FIELD_LIMIT ->
  exists q' b,
    HTTPRequest.read (HTTPRequest.construct, open (HTTPRequest.write q ++ body)) = (Done tt, (q', at_text b body))
    /\ HTTPRequest._method q' = HTTPRequest._method q /\ HTTPRequest._uri q' = HTTPRequest._uri q
    /\ HTTPMessage._version (HTTPRequest.message q') = HTTPMessage._version (HTTPRequest.message q)
    /\ _map (HTTPMessage.header (HTTPRequest.message q')) ≡ₚ _map (HTTPMessage.header (HTTPRequest.message q))
    /\ (NoDup (name_of <$> _map (HTTPMessage.header (HTTPRequest.message q))) ->
        _map (HTTPMessage.header (HTTPRequest.message q')) = _map (HTTPMessage.header (HTTPRequest.message q))).
Proof.
  destruct q as [[h v] m u]. intros (Hm & Hu & Hv) Hs Hl. cbn in Hm, Hu, Hv, Hs, Hl. unfold HTTPRequest.write, HTTPMessage.write.
  cbn [HTTPRequest._method HTTPRequest._uri HTTPRequest.message HTTPMessage._version HTTPMessage.header].
  change (str " ") with [32]. rewrite <-!app_assoc. cbn [app].
  destruct (request_line_run m u v (write h ++ 13 :: 10 :: body) Hm Hu Hv) as (b1 & E1).
  destruct (read_run h MessageHeader.construct b1 body Hs (fun _ => Hl)) as (b2 & E2). destruct (read_end_run b2 body) as (b3 & E3).
  eexists _, b3. split; [|cbn [HTTPRequest._method HTTPRequest._uri HTTPRequest.message HTTPMessage._version HTTPMessage.header _map]].
  - unfold HTTPRequest.read. rewrite (bind_Done _ _ _ (m, u, v) (HTTPRequest.construct, at_text b1 (write h ++ 13 :: 10 :: body)))
      by (unfold on_stream; cbn [snd]; by rewrite E1).
    erewrite bind_Done by (unfold HTTPRequest.read_message, HTTPMessage.read; cbn [fst snd HTTPRequest.message HTTPRequest.construct HTTPMessage.header HTTPMessage.construct]; rewrite E2; reflexivity).
    erewrite bind_Done by (unfold on_stream; cbn [snd]; rewrite E3; reflexivity). reflexivity.
  - split_and!; [done..| |].
    + apply fresh_permuted.
    + apply fresh_distinct.
Qed.

(** A field that can be sent, as a test. *)
Definition sendableb (e : list Z * list Z) : bool :=
  forallb (fun c => is_byteb c && negb (c =? chr ":") && negb (c =? 10)) (fst e)
  && match fst e with c :: _ => negb (c =? 13) && negb (c =? 32) && negb (c =? 9) | [] => false end
  && (Z.of_nat (length (fst e)) <=? MAX_NAME_LENGTH)
  && forallb (fun c => is_byteb c && negb (c =? 13) && negb (c =? 10)) (snd e)
  && match snd e with c :: _ => negb (Ascii.isSpace c) | [] => true end
  && eqb_str (Str.trimRightInPlace (snd e)) (snd e)
  && (Z.of_nat (length (snd e)) <=? MAX_VALUE_LENGTH).

Lemma sendableb_sound e : sendableb e = true -> sendable e.
Proof.
  unfold sendableb. intros H. repeat apply andb_prop in H as [H ?].
  split; try (apply List.Forall_forall; intros c Hc;
    match goal with F : forallb _ ?l = true, Hc : In _ ?l |- _ => rewrite forallb_forall in F; specialize (F c Hc) end;
    unfold is_byte, is_byteb in *; lia).
  - destruct (fst e); [done|lia].
  - lia.
  - destruct (snd e) as [|c v]; [done|]. by apply negb_true_iff.
  - by apply eqb_str_spec.
  - lia.
Qed.

Definition wordyb (max : Z) (w : list Z) : bool :=
  negb (eqb_str w []) && forallb (fun c => is_byteb c && negb (Ascii.isSpace c)) w && (Z.of_nat (length w) <=? max).

Lemma wordyb_sound max w : wordyb max w = true -> wordy max w.
Proof.
  unfold wordyb. intros [[H1 H2]%andb_prop H3]%andb_prop. split; [by intros ->| |lia].
  apply List.Forall_forall. intros c Hc. rewrite forallb_forall in H2. apply H2, andb_prop in Hc as [Hb Hc].
  split; [by apply is_byteb_spec|by apply negb_true_iff].
Qed.

Lemma request_roundtrip_witness :
  let q := {| HTTPRequest.message := {| HTTPMessage.header := {| _map := [(str "Host", str "a.b:80"); (str "Accept", str "x, y")]; _fieldLimit := 0 |};
                                        HTTPMessage._version := HTTPMessage.HTTP_1_1 |};
              HTTPRequest._method := str "POST"; HTTPRequest._uri := str "/p?q=1" |} in
  exists q' b,
    HTTPRequest.read (HTTPRequest.construct, open (HTTPRequest.write q ++ str "body")) = (Done tt, (q', at_text b (str "body")))
    /\ HTTPRequest._uri q' = str "/p?q=1" /\ _map (HTTPMessage.header (HTTPRequest.message q')) = _map (HTTPMessage.header (HTTPRequest.message q)).
Proof.
  intros q. destruct (request_roundtrip q (str "body")) as (q' & b & E & _ & Hu & _ & _ & Hm).
  - split_and!; by apply wordyb_sound.
  - repeat (constructor; [by apply sendableb_sound|]). constructor.
  - done.
  - exists q', b. split_and!; [done|done|]. apply Hm. refine (proj1 (bool_decide_eq_true _) _). by vm_compute.
Defined.

(** ** Responses *)

Lemma status_text s : 100 <= s < 1000 ->
  wordy HTTPResponse.MAX_STATUS_LENGTH (HTTPResponse.int_text s) /\ Parser.parse (HTTPResponse.int_text s) (chr ",") = Done s.
Proof.
  intros Hs. assert (H := allbelow_spec 1000 (fun s => (s <? 100) || (wordyb HTTPResponse.MAX_STATUS_LENGTH (HTTPResponse.int_text s)
    && bool_decide (Parser.parse (HTTPResponse.int_text s) (chr ",") = Done s))) ltac:(by vm_compute) s ltac:(lia)).
  cbv beta in H. rewrite (proj2 (Z.ltb_ge s 100)) in H by lia. apply andb_prop in H as [H1 H2].
  split; [by apply wordyb_sound|by apply bool_decide_eq_true in H2].
Qed.

(** A reason phrase that is read back. *)
Record phrase (r : list Z) : Prop := {
  ph_chars : Forall (fun c => is_byte c /\ c <> 13 /\ c <> 10) r;
  ph_start : match r with c :: _ => Ascii.isSpace c = false | [] => True end;
  ph_max : Z.of_nat (length r) <= HTTPResponse.MAX_REASON_LENGTH
}.

Lemma status_line_run v s r p :
  wordy HTTPResponse.MAX_VERSION_LENGTH v -> 100 <= s < 1000 -> phrase r ->
  exists b, HTTPResponse.read_line (open (v ++ 32 :: HTTPResponse.int_text s ++ 32 :: r ++ 13 :: 10 :: p)) = (Done (v, HTTPResponse.int_text s, r), at_text b p).
Proof.
  intros Hv Hs [Hr Hst Hl]. destruct (status_text s Hs) as [Hw _]. set (t := HTTPResponse.int_text s) in *. clearbody t.
  unfold HTTPResponse.read_line. set (x := v ++ _).
  destruct (wordy_cur _ v (32 :: t ++ 32 :: r ++ 13 :: 10 :: p) Hv) as [Hvs Hve]. fold x in Hvs, Hve.
  rewrite (bind_Done _ _ _ (cur x) (seen [] x)) by (destruct x; [by destruct Hve|done]).
  rewrite (proj2 (Z.eqb_neq _ _) Hve). subst x. rewrite (bind_Done _ _ _ _ _ (skip_none_run _ v 32 _ [] Hv)).
  rewrite (proj2 (Z.eqb_neq _ _) Hve), (bind_Done _ _ _ _ _ (read_word_run _ v 32 _ _ Hv eq_refl)). cbn [fst snd].
  rewrite (bind_Done _ _ _ _ _ (skip_one_run _ t 32 _ _ Hw)), (bind_Done _ _ _ _ _ (read_word_run _ t 32 _ _ Hw eq_refl)). cbn [fst snd].
  assert (Hb : HTTPResponse.reason_blank (cur (r ++ 13 :: 10 :: p)) = false).
  { destruct r as [|c r]; [done|]. cbn [app cur]. unfold HTTPResponse.reason_blank. by rewrite Hst. }
  set (b := rev t ++ _). pose proof (skip_all_run get_char HTTPResponse.reason_blank [32] (r ++ 13 :: 10 :: p) b (get_steps (r ++ 13 :: 10 :: p) ltac:(by destruct r))
    ltac:(by repeat constructor) Hb) as E. rewrite (bind_Done _ _ _ _ _ E).
  rewrite (bind_Done _ _ _ _ _ (collect_all_run get_char HTTPResponse.reason_more r (13 :: 10 :: p) [] _ (get_steps (13 :: 10 :: p) ltac:(done))
    ltac:(apply (passes_Forall _ _ HTTPResponse.MAX_REASON_LENGTH) with (2 := Hr); [|done]; unfold HTTPResponse.reason_more, is_byte, eof; intros; lia)
    ltac:(done))).
  cbn [fst snd app cur]. change (Ascii.isSpace 13) with true. change (13 =? 13) with true. cbn [negb].
  eexists. reflexivity.
Qed.

Definition response_ok (q : HTTPResponse.HTTPResponse_) : Prop :=
  wordy HTTPResponse.MAX_VERSION_LENGTH (HTTPMessage._version (HTTPResponse.message q)) /\ 100 <= HTTPResponse._status q < 1000
  /\ phrase (HTTPResponse._reason q).

(** A response that is written and read into a new object, with any body
    behind it, has the same version, status, reason and fields, these in the
    same order when no name comes twice; the stream is left at the body.  The status
    has three digits, and the reason neither line breaks nor a blank in
    front. *)
Theorem response_roundtrip q body :
  response_ok q -> Forall sendable (_map (HTTPMessage.header (HTTPResponse.message q))) ->
  Z.of_nat (length (_map (HTTPMessage.header (HTTPResponse.message q)))) <= DFL_FIELD_LIMIT ->
  exists q' b,
    HTTPResponse.read (HTTPResponse.construct, open (HTTPResponse.write q ++ body)) = (Done tt, (q', at_text b body))
    /\ HTTPResponse._status q' = HTTPResponse._status q /\ HTTPResponse._reason q' = HTTPResponse._reason q
    /\ HTTPMessage._version (HTTPResponse.message q') = HTTPMessage._version (HTTPResponse.message q)
    /\ _map (HTTPMessage.header (HTTPResponse.message q')) ≡ₚ _map (HTTPMessage.header (HTTPResponse.message q))
    /\ (NoDup (name_of <$> _map (HTTPMessage.header (HTTPResponse.message q))) ->
        _map (HTTPMessage.header (HTTPResponse.message q')) = _map (HTTPMessage.header (HTTPResponse.message q))).
Proof.
  destruct q as [[h v] s r]. intros (Hv & Hst & Hr) Hs Hl. cbn in Hv, Hst, Hr, Hs, Hl. unfold HTTPResponse.write, HTTPMessage.write.
  cbn [HTTPResponse._status HTTPResponse._reason HTTPResponse.message HTTPMessage._version HTTPMessage.header].
  change (str " ") with [32]. rewrite <-!app_assoc. cbn [app].
  destruct (status_line_run v s r (write h ++ 13 :: 10 :: body) Hv Hst Hr) as (b1 & E1). destruct (status_text s Hst) as [_ Hp].
  destruct (read_run h MessageHeader.construct b1 body Hs (fun _ => Hl)) as (b2 & E2). destruct (read_end_run b2 body) as (b3 & E3).
  eexists _, b3. split; [|cbn [HTTPResponse._status HTTPResponse._reason HTTPResponse.message HTTPMessage._version HTTPMessage.header _map]].
  - unfold HTTPResponse.read. rewrite (bind_Done _ _ _ (v, HTTPResponse.int_text s, r) (HTTPResponse.construct, at_text b1 (write h ++ 13 :: 10 :: body)))
      by (unfold on_stream; cbn [snd]; by rewrite E1).
    erewrite bind_Done by (unfold HTTPResponse.read_message, HTTPMessage.read; cbn [fst snd HTTPResponse.message HTTPResponse.construct HTTPMessage.header HTTPMessage.construct]; rewrite E2; reflexivity).
    erewrite bind_Done by (unfold on_stream; cbn [snd]; rewrite E3; reflexivity).
    rewrite bind_modify. unfold lift. erewrite bind_Done by (by rewrite Hp). reflexivity.
  - split_and!; [done..| |].
    + apply fresh_permuted.
    + apply fresh_distinct.
Qed.

Lemma response_roundtrip_witness :
  let q := {| HTTPResponse.message := {| HTTPMessage.header := {| _map := [(str "Server", str "x")]; _fieldLimit := 0 |};
                                         HTTPMessage._version := HTTPMessage.HTTP_1_0 |};
              HTTPResponse._status := 404; HTTPResponse._reason := HTTPResponse.getReasonForStatus 404 |} in
  exists q' b,
    HTTPResponse.read (HTTPResponse.construct, open (HTTPResponse.write q ++ str "body")) = (Done tt, (q', at_text b (str "body")))
    /\ HTTPResponse._status q' = 404 /\ HTTPResponse._reason q' = str "Not Found".
Proof.
  intros q. destruct (response_roundtrip q (str "body")) as (q' & b & E & Hs & Hr & _).
  - split_and!; [by apply wordyb_sound|done|done|]. split; [|done|done].
    apply List.Forall_forall. intros c Hc. vm_compute in Hc. unfold is_byte. lia.
  - repeat (constructor; [by apply sendableb_sound|]). constructor.
  - done.
  - exists q', b. split_and!; [done|done|done].
Defined.

(** ** Reading anything *)

(** A character of it, or the end. *)
Definition code (ch : Z) : Prop := ch = eof \/ is_byte ch.

Lemma get_sane i : sane i -> exists c i', get_char i = (Done c, i') /\ sane i' /\ code c /\ (c = eof \/ length (rest i) = S (length (rest i'))).
Proof.
  intros [Hb Hf]. unfold get_char. destruct (failed i) eqn:E.
  - exists eof, i. split_and!; [done|split; [done|by rewrite E]|by left|by left].
  - destruct (rest i) as [|c r] eqn:Er; [eexists _, _; split; [done|]; split_and!; [by split|by left|by left]|].
    apply Forall_cons in Hb as [Hc Hr]. eexists _, _. split; [done|]. split_and!; [by split|by right|by right].
Qed.

Lemma collect_sane more fuel : (forall n, more eof n = false) -> forall i acc ch,
  sane i -> code ch -> ch = eof \/ (length (rest i) < fuel)%nat ->
  exists w ch' i', collect get_char more fuel acc ch i = (Done (acc ++ w, ch'), i') /\ sane i' /\ code ch'
    /\ passes more (length acc) w /\ (Forall is_byte w) .
Proof.
  intros He. induction fuel as [|fuel IH]; intros i acc ch Hi Hc Hf; cbn [collect].
  - destruct Hf as [->|]; [|lia]. rewrite He. exists [], eof, i. rewrite app_nil_r. split_and!; [done|done|by left|by intros ? ? ?|done].
  - destruct (more ch _) eqn:E; [|exists [], ch, i; rewrite app_nil_r; split_and!; [done|done|done|by intros ? ? ?|done]].
    destruct (get_sane i Hi) as (c & i1 & E1 & Hi1 & Hc1 & Hl1). rewrite (bind_Done _ _ _ _ _ E1).
    destruct (IH i1 (acc ++ [ch]) c Hi1 Hc1) as (w & ch' & i' & E2 & Hi' & Hc' & Hw & Hb).
    { destruct Hl1 as [|Hl1]; [by left|]. destruct Hf as [->|Hf]; [by rewrite He in E|]. right. lia. }
    exists (ch :: w), ch', i'. rewrite E2, <-app_assoc. split_and!; [done|done|done| |].
    + apply passes_cons. split; [done|]. by rewrite length_app, Nat.add_1_r in Hw.
    + constructor; [|done]. destruct Hc as [->|]; [by rewrite He in E|done].
Qed.

Lemma skip_sane more fuel : more eof = false -> forall i ch,
  sane i -> code ch -> ch = eof \/ (length (rest i) < fuel)%nat ->
  exists ch' i', skip get_char more fuel ch i = (Done ch', i') /\ sane i' /\ code ch'.
Proof.
  intros He. induction fuel as [|fuel IH]; intros i ch Hi Hc Hf; cbn [skip].
  - destruct Hf as [->|]; [|lia]. rewrite He. exists eof, i. split_and!; [done|done|by left].
  - destruct (more ch) eqn:E; [|by exists ch, i].
    destruct (get_sane i Hi) as (c & i1 & E1 & Hi1 & Hc1 & Hl1). rewrite (bind_Done _ _ _ _ _ E1). apply IH; [done|done|].
    destruct Hl1 as [|Hl1]; [by left|]. destruct Hf as [->|Hf]; [by rewrite He in E|]. right. lia.
Qed.

(** How a part of the reader can end: with one of the exceptions [es], or with
    a result. *)
Definition tame {A} (es : list exception) (Q : A -> Prop) (o : res A * istream) : Prop :=
  (exists e i, e ∈ es /\ o = (Raise e, i)) \/ exists a i, o = (Done a, i) /\ sane i /\ Q a.

Lemma tame_bind {A B} es (Q : A -> Prop) (R : B -> Prop) (m : ST istream A) (k : A -> ST istream B) i :
  tame es Q (m i) -> (forall a j, sane j -> Q a -> tame es R (k a j)) -> tame es R (bind m k i).
Proof.
  intros [(e & j & He & E)|(a & j & E & Hj & HQ)] Hk.
  - left. exists e, j. split; [done|]. by apply bind_Raise.
  - rewrite (bind_Done _ _ _ _ _ E). by apply Hk.
Qed.

Lemma tame_ret {A} es (Q : A -> Prop) a i : sane i -> Q a -> tame es Q (ret a i).
Proof. intros Hi HQ. right. by exists a, i. Qed.

Lemma tame_throw {A} es (Q : A -> Prop) e i : e ∈ es -> tame es Q (throw e i).
Proof. intros He. left. by exists e, i. Qed.

Lemma tame_get es i : sane i -> tame es code (get_char i).
Proof. intros Hi. destruct (get_sane i Hi) as (c & i1 & E1 & Hi1 & Hc1 & _). right. by exists c, i1. Qed.

Lemma tame_skip es more ch i : more eof = false -> sane i -> code ch -> tame es code (skip_all get_char more ch i).
Proof.
  intros He Hi Hc. unfold skip_all. rewrite bind_get. destruct (skip_sane more (rounds i) He i ch Hi Hc) as (c & j & E & Hj & Hcj); [unfold rounds; right; lia|].
  right. by exists c, j.
Qed.

Lemma tame_collect es more ch i : (forall n, more eof n = false) -> sane i -> code ch ->
  tame es (fun wc => passes more 0 (fst wc) /\ Forall is_byte (fst wc) /\ code (snd wc)) (collect_all get_char more [] ch i).
Proof.
  intros He Hi Hc. unfold collect_all. rewrite bind_get.
  destruct (collect_sane more (rounds i) He i [] ch Hi Hc) as (w & c & j & E & Hj & Hcj & Hw & Hb); [unfold rounds; right; lia|].
  right. by exists (w, c), j.
Qed.

(** What a word is when it has been read. *)
Definition short (max : Z) (w : list Z) : Prop := Forall (fun c => Ascii.isSpace c = false) w /\ Z.of_nat (length w) <= max.

Lemma tame_word es max ch i : MessageException ∈ es -> 0 <= max -> sane i -> code ch ->
  tame es (fun wc => short max (fst wc) /\ code (snd wc)) (HTTPRequest.read_word max ch i).
Proof.
  intros He Hm Hi Hc. unfold HTTPRequest.read_word. eapply tame_bind; [apply (tame_collect es (word_more max)); [done|done|done]|].
  intros [w c] j Hj (Hw & Hb & Hcj). cbn [fst snd] in *. destruct (negb _) eqn:E; [by apply tame_throw|].
  apply tame_ret; [done|]. cbn [fst snd]. split; [|done].
  apply (passes_bound (fun c => Ascii.isSpace c = false) (word_more max) max 0 w); [|done|done].
  intros d k Hd. unfold word_more in Hd. destruct (Ascii.isSpace d); [done|]. cbn in Hd. lia.
Qed.

Abbreviation message_errors := [NoMessageException; MessageException].

Lemma tame_request_line i : sane i ->
  tame message_errors (fun l => let '(m, u, v) := l in short HTTPRequest.MAX_METHOD_LENGTH m /\ short HTTPRequest.MAX_URI_LENGTH u
    /\ short HTTPRequest.MAX_VERSION_LENGTH v) (HTTPRequest.read_line i).
Proof.
  intros Hi. assert (He : MessageException ∈ message_errors) by (by repeat constructor). unfold HTTPRequest.read_line.
  eapply tame_bind; [by apply tame_get|]. intros c0 i0 Hi0 Hc0. destruct (c0 =? eof); [apply tame_throw; by constructor|].
  eapply tame_bind; [by apply tame_skip|]. intros c1 i1 Hi1 Hc1. destruct (c1 =? eof); [by apply tame_throw|].
  eapply tame_bind; [by apply (tame_word message_errors HTTPRequest.MAX_METHOD_LENGTH)|]. intros m i2 Hi2 [Hm Hc2].
  eapply tame_bind; [by apply tame_skip|]. intros c3 i3 Hi3 Hc3.
  eapply tame_bind; [by apply (tame_word message_errors HTTPRequest.MAX_URI_LENGTH)|]. intros u i4 Hi4 [Hu Hc4].
  eapply tame_bind; [by apply tame_skip|]. intros c5 i5 Hi5 Hc5.
  eapply tame_bind; [by apply (tame_word message_errors HTTPRequest.MAX_VERSION_LENGTH)|]. intros v i6 Hi6 [Hv Hc6].
  eapply tame_bind; [by apply tame_skip|]. intros c7 i7 Hi7 Hc7. by apply tame_ret.
Qed.

Lemma tame_read_end es i : sane i -> tame es (fun _ => True) (HTTPRequest.read_end i).
Proof.
  intros Hi. unfold HTTPRequest.read_end. eapply tame_bind; [by apply tame_get|]. intros c j Hj Hc.
  eapply tame_bind; [by apply tame_skip|]. intros c2 k Hk _. by apply tame_ret.
Qed.

(** The operations that a message passes on to its header. *)
Lemma message_read_sane m i : sane i ->
  exists r m' i' added, HTTPMessage.read (m, i) = (r, (m', i')) /\ (r = Done tt /\ sane i' \/ r = Raise MessageException)
    /\ grown (HTTPMessage.header m) (HTTPMessage.header m') added /\ HTTPMessage._version m' = HTTPMessage._version m.
Proof.
  intros Hi. unfold HTTPMessage.read. cbn [fst snd].
  destruct (read_sane (HTTPMessage.header m) i Hi) as (r & h' & i' & added & E & Hr & Hg). rewrite E.
  by eexists r, _, i', added.
Qed.

(** C18: whatever the input, reading a request ends: normally, with
    NoMessageException or with MessageException.  The fields added by then are
    within the limits of the header; when it ends normally the method has at
    most 32, the URI 4096 and the version 8 characters, none of them white
    space, and otherwise they are as they were. *)
Theorem request_read_bounded q text : Forall is_byte text ->
  exists r q' i added,
    HTTPRequest.read (q, open text) = (r, (q', i))
    /\ grown (HTTPMessage.header (HTTPRequest.message q)) (HTTPMessage.header (HTTPRequest.message q')) added
    /\ (r = Done tt
        /\ short HTTPRequest.MAX_METHOD_LENGTH (HTTPRequest._method q') /\ short HTTPRequest.MAX_URI_LENGTH (HTTPRequest._uri q')
        /\ short HTTPRequest.MAX_VERSION_LENGTH (HTTPMessage._version (HTTPRequest.message q'))
      \/ (r = Raise NoMessageException \/ r = Raise MessageException)
        /\ HTTPRequest._method q' = HTTPRequest._method q /\ HTTPRequest._uri q' = HTTPRequest._uri q
        /\ HTTPMessage._version (HTTPRequest.message q') = HTTPMessage._version (HTTPRequest.message q)).
Proof.
  intros Ht. assert (Hi : sane (open text)) by (by split). unfold HTTPRequest.read.
  destruct (tame_request_line (open text) Hi) as [(e & i & He & E)|([[m u] v] & i & E & Hs & Hm & Hu & Hv)].
  { exists (Raise e), q, i, []. split; [unfold bind, on_stream; cbn [snd]; by rewrite E|]. split; [apply grown_refl|]. right. split; [|done].
    apply elem_of_cons in He as [->|He]; [by left|]. apply list_elem_of_singleton in He as ->. by right. }
  rewrite (bind_Done _ _ _ (m, u, v) (q, i)) by (unfold on_stream; cbn [snd]; by rewrite E).
  destruct (message_read_sane (HTTPRequest.message q) i Hs) as (r & m' & i' & added & E2 & Hr & Hg & Hver).
  destruct Hr as [[-> Hs']| ->].
  - erewrite bind_Done by (unfold HTTPRequest.read_message; cbn [fst snd]; rewrite E2; reflexivity).
    destruct (tame_read_end [] i' Hs') as [(e & j & He & _)|(? & j & E3 & Hj & _)]; [by apply not_elem_of_nil in He|].
    erewrite bind_Done by (unfold on_stream; cbn [snd]; rewrite E3; reflexivity).
    eexists _, _, _, added. split; [reflexivity|]. split; [done|]. by left.
  - eexists _, _, _, added. split; [unfold bind, HTTPRequest.read_message; cbn [fst snd]; rewrite E2; reflexivity|]. split; [done|].
    right. split; [by right|done].
Qed.

Lemma request_read_bounded_witness :
  exists r q' i added,
    HTTPRequest.read (HTTPRequest.construct, open (str "GET /a")) = (r, (q', i))
    /\ grown MessageHeader.construct (HTTPMessage.header (HTTPRequest.message q')) added
    /\ (r = Done tt
        /\ short HTTPRequest.MAX_METHOD_LENGTH (HTTPRequest._method q') /\ short HTTPRequest.MAX_URI_LENGTH (HTTPRequest._uri q')
        /\ short HTTPRequest.MAX_VERSION_LENGTH (HTTPMessage._version (HTTPRequest.message q'))
      \/ (r = Raise NoMessageException \/ r = Raise MessageException)
        /\ HTTPRequest._method q' = str "GET" /\ HTTPRequest._uri q' = str "/"
        /\ HTTPMessage._version (HTTPRequest.message q') = str "HTTP/1.0").
Proof. apply (request_read_bounded HTTPRequest.construct (str "GET /a")), str_bytes. Defined.

(** ** Parameters and media types *)

(** A parameter that is read back: the quotes that [quote] sets do not
    protect a quote or a backslash inside, and blanks at the end go. *)
Record param_ok (e : list Z * list Z) : Prop := {
  pa_name : avoids (str "=;") (fst e) = true;
  pa_start : match fst e with c :: _ => Ascii.isSpace c = false | [] => False end;
  pa_name_end : Str.trimRightInPlace (fst e) = fst e;
  pa_value : Forall (fun c => is_byte c /\ c <> 34 /\ c <> 92) (snd e);
  pa_value_end : Str.trimRightInPlace (snd e) = snd e
}.

Lemma quoted_run v r : Forall (fun c => c <> 34 /\ c <> 92) v -> quoted (v ++ 34 :: r) = (v, 34 :: r).
Proof.
  induction 1 as [|c v [H1 H2] Hv IH]; [done|]. cbn [app quoted].
  rewrite (proj2 (Z.eqb_neq c 34)), (proj2 (Z.eqb_neq c 92)) by done. by rewrite IH.
Qed.

(** Characters that stand for themselves. *)
Lemma plain_run v r : forall fuel pvalue,
  Forall (fun c => c <> 34 /\ c <> 92 /\ c <> chr ";") v -> (length (v ++ r) <= fuel)%nat -> (r = [] \/ exists r', r = chr ";" :: r') ->
  param_value fuel (v ++ r) pvalue = Done (pvalue ++ v, r).
Proof.
  induction v as [|c v IH]; intros fuel pvalue Hv Hf Hr.
  - rewrite app_nil_r. destruct Hr as [->|(r' & ->)]; by destruct fuel.
  - destruct fuel as [|fuel]; [cbn in Hf; lia|]. apply Forall_cons in Hv as [(H1 & H2 & H3) Hv]. cbn [app param_value].
    rewrite (proj2 (Z.eqb_neq c (chr ";"))), (proj2 (Z.eqb_neq c 34)), (proj2 (Z.eqb_neq c 92)) by done.
    rewrite IH; [by rewrite <-app_assoc|done|cbn in Hf; lia|done].
Qed.

(** Characters that need no quotes. *)
Lemma unquoted_char c : is_byte c -> must_quote false c = false -> c <> 34 /\ c <> 92 /\ c <> chr ";" /\ Ascii.isSpace c = false.
Proof.
  intros Hc Hq. assert (H := allbelow_spec 256 (fun c => must_quote false c || (negb (c =? 34) && negb (c =? 92) && negb (c =? chr ";") && negb (Ascii.isSpace c)))
    ltac:(by vm_compute) c Hc). cbv beta in H. rewrite Hq in H. cbn [orb] in H. destruct (Ascii.isSpace c); [by rewrite andb_false_r in H|]. lia.
Qed.

Lemma quote_run v r :
  Forall (fun c => is_byte c /\ c <> 34 /\ c <> 92) v -> (r = [] \/ exists r', r = chr ";" :: r') ->
  param_value (length (quote v false ++ r)) (quote v false ++ r) [] = Done (v, r)
  /\ snd (span Ascii.isSpace (quote v false ++ r)) = quote v false ++ r.
Proof.
  intros Hv Hr. unfold quote. destruct (existsb (must_quote false) v) eqn:E.
  - split; [|done]. rewrite <-!app_assoc. cbn [app length param_value]. change (34 =? chr ";") with false. change (34 =? 34) with true. cbn [tail].
    rewrite quoted_run by (eapply Forall_impl; [exact Hv|]; cbn; tauto). cbn [tail app].
    rewrite (plain_run [] r _ v); [by rewrite app_nil_r|done| |done]. cbn [app]. rewrite length_app. cbn [length]. lia.
  - assert (Hp : Forall (fun c => c <> 34 /\ c <> 92 /\ c <> chr ";" /\ Ascii.isSpace c = false) v).
    { apply List.Forall_forall. intros c Hc. apply unquoted_char; [by apply (proj1 (List.Forall_forall _ _) Hv c Hc)|].
      destruct (must_quote false c) eqn:Q; [|done]. rewrite <-E. symmetry. apply existsb_exists. eauto. }
    split.
    + apply (plain_run v r _ []); [|done|done]. eapply Forall_impl; [exact Hp|]. cbn. tauto.
    + destruct v as [|c v]; [by destruct Hr as [->|(r' & ->)]|]. apply Forall_cons in Hp as [(_ & _ & _ & Hc) _]. cbn. by rewrite Hc.
Qed.

(** Parameters as they are written, each behind a semicolon. *)
Definition params_text (ps : NameValueCollection.collection) : list Z :=
  concat (map (fun e => str "; " ++ fst e ++ str "=" ++ quote (snd e) false) ps).

Lemma params_start ps : params_text ps = [] \/ exists r, params_text ps = chr ";" :: r.
Proof. destruct ps as [|e ps]; [by left|]. right. eexists. reflexivity. Qed.

Lemma param_loop_run ps : forall fuel m,
  Forall param_ok ps -> (length (tail (params_text ps)) <= fuel)%nat -> param_loop fuel (tail (params_text ps)) m = Done (add_all m ps).
Proof.
  induction ps as [|[n v] ps IH]; intros fuel m Hps Hf; [by destruct fuel|].
  apply Forall_cons in Hps as [[Hn Hst Hne Hv Hve] Hps]. cbn [fst snd] in *.
  assert (Et : tail (params_text ((n, v) :: ps)) = 32 :: n ++ chr "=" :: quote v false ++ params_text ps).
  { unfold params_text. cbn [map concat fst snd]. by rewrite <-!app_assoc. }
  rewrite Et in *. destruct fuel as [|fuel]; [cbn in Hf; lia|]. cbn [param_loop].
  assert (Es : snd (span Ascii.isSpace (32 :: n ++ chr "=" :: quote v false ++ params_text ps)) = n ++ chr "=" :: quote v false ++ params_text ps).
  { cbn. destruct n as [|c n]; [done|]. cbn. by rewrite Hst. }
  rewrite Es, (span_avoids (str "=;") n (chr "=")) by done. rewrite Hne. change (chr "=" =? chr ";") with false. cbv iota zeta.
  destruct (quote_run v (params_text ps) Hv (params_start ps)) as [Eq Esp]. rewrite Esp, Eq. cbn [rbind fst snd]. rewrite Hve.
  destruct (negb (eqb_str n [])) eqn:En; [|by destruct n].
  rewrite IH; [done|done|]. cbn [length] in Hf. rewrite length_app in Hf. cbn [length] in Hf. rewrite length_app in Hf.
  destruct (params_text ps); cbn [tail length] in *; lia.
Qed.

(** The parameters behind a value. *)
Lemma params_run ps m : Forall param_ok ps -> splitParameters_range (params_text ps) m = Done (add_all m ps).
Proof.
  intros Hps. unfold splitParameters_range. destruct (params_start ps) as [E|(r & E)].
  - rewrite E. destruct ps as [|e ps]; [done|]. discriminate E.
  - pose proof (param_loop_run ps (length r) m Hps) as R. rewrite E in *. cbn [tail length] in *.
    cbn [param_loop]. change (span Ascii.isSpace (chr ";" :: r)) with (@nil Z, chr ";" :: r). cbn [snd].
    change (span (not_in (str "=;")) (chr ";" :: r)) with (@nil Z, chr ";" :: r). cbv iota zeta.
    change (chr ";" =? chr ";") with true. cbv iota. change (span Ascii.isSpace (chr ";" :: r)) with (@nil Z, chr ";" :: r). cbn [snd].
    cbn [length param_value]. change (chr ";" =? chr ";") with true. cbn [rbind fst snd tail].
    by apply R.
Qed.

(** A media type that is written and parsed has the same type and subtype
    and the same parameters, in the same order when no name comes twice, quoted
    values included; a value must not hold a quote or a backslash, nor end in a
    blank. *)
Theorem media_type_roundtrip m :
  Forall (fun c => Ascii.isSpace c = false) (MediaType._type m) -> avoids (str "/") (MediaType._type m) = true ->
  Forall (fun c => Ascii.isSpace c = false) (MediaType._subType m) -> avoids (str ";") (MediaType._subType m) = true ->
  Forall param_ok (MediaType._parameters m) ->
  exists m', MediaType.parse (MediaType.toString m) = Done m'
    /\ MediaType._type m' = MediaType._type m /\ MediaType._subType m' = MediaType._subType m
    /\ MediaType._parameters m' ≡ₚ MediaType._parameters m
    /\ (NoDup (name_of <$> MediaType._parameters m) -> MediaType._parameters m' = MediaType._parameters m).
Proof.
  destruct m as [t s ps]. cbn [MediaType._type MediaType._subType MediaType._parameters]. intros Ht Hts Hs Hss Hps.
  unfold MediaType.toString, MediaType.parse. cbn [MediaType._type MediaType._subType MediaType._parameters]. fold (params_text ps).
  assert (E1 : snd (span Ascii.isSpace (t ++ str "/" ++ s ++ params_text ps)) = t ++ chr "/" :: s ++ params_text ps).
  { destruct t as [|c t]; [done|]. apply Forall_cons in Ht as [Hc _]. cbn. by rewrite Hc. }
  rewrite E1, (span_avoids (str "/") t (chr "/")) by done. cbn [tail].
  assert (E2 : span (fun c => not_in (str ";") c && negb (Ascii.isSpace c)) (s ++ params_text ps) = (s, params_text ps)).
  { assert (Hall : Forall (fun c => not_in (str ";") c && negb (Ascii.isSpace c) = true) s).
    { apply avoids_Forall in Hss. rewrite List.Forall_forall in Hss, Hs |- *. intros c Hc. by rewrite (Hss c Hc), (Hs c Hc). }
    destruct (params_start ps) as [->|(r & ->)]; [rewrite app_nil_r; by apply span_all|by apply span_app]. }
  rewrite E2. assert (E3 : snd (span (not_in (str ";")) (params_text ps)) = params_text ps) by (by destruct (params_start ps) as [->|(r & ->)]).
  rewrite E3, params_run by done. cbn [rbind]. eexists. split; [reflexivity|]. split_and!; [done|done|apply fresh_permuted|apply fresh_distinct].
Qed.

Lemma media_type_roundtrip_witness :
  let m := {| MediaType._type := str "text"; MediaType._subType := str "plain"; MediaType._parameters := [(str "charset", str "us-ascii"); (str "x", str "a;b")] |} in
  exists m', MediaType.parse (MediaType.toString m) = Done m' /\ MediaType._parameters m' = MediaType._parameters m.
Proof.
  intros m. destruct (media_type_roundtrip m) as (m' & E & _ & _ & _ & Hp); [by repeat constructor|done|by repeat constructor|done| |].
  - repeat constructor; unfold is_byte; lia || done.
  - exists m'. split; [done|]. apply Hp. refine (proj1 (bool_decide_eq_true _) _). by vm_compute.
Defined.

(** A quote inside a value is not protected, and ends it too early. *)
Example quote_not_escaped :
  splitParameters (str "v; n=" ++ quote ([chr "a"; 34; chr ";"; chr "b"]) false) = Done (str "v", [(str "n", str "a"); ([chr "b"; 34], [])]).
Proof. reflexivity. Qed.

(** The content length takes thousand separators, signs and anything behind a
    blank. *)
Example content_length_lenient :
  let m t := HTTPMessage.set HTTPMessage.CONTENT_LENGTH t HTTPMessage.construct in
  HTTPMessage.getContentLength (m (str "1,0,0")) = Done 100 /\ HTTPMessage.getContentLength (m (str "-5")) = Done (-5)
  /\ HTTPMessage.getContentLength (m (str "7 bytes")) = Done 7.
Proof. split_and!; reflexivity. Qed.
