(* ===== verification/HttpStreams.v ===== *)
(** The streams an HTTP message body travels in: BufferedStreamBuf.h,
    HTTPSession.cpp, HTTPChunkedStream.cpp, HTTPFixedLengthStream.cpp and
    HTTPHeaderStream.cpp.

    The socket is a parameter: [receiveBytes] hands out what the peer sends, in
    pieces of any size, and [incoming] is what it still has to hand out;
    [sendBytes] takes as many of the bytes as it likes and returns their number
    (or a negative one), and [sent] records what it took.  Timeouts and network
    errors are not modelled.  A [char] is signed, and [get] widens it to
    [int]. *)

From S2P Require Import Prelude Strings NumericString.
From stdpp Require Import list.

Open Scope st_scope.
Local Open Scope Z_scope.

Class StreamSocket (S : Type) := {
  receiveBytes : nat -> S -> list Z * S;
  incoming : S -> list Z;
  sendBytes : list Z -> S -> Z * S
}.

(** What receiveBytes of a blocking stream socket documents: the next bytes, at
    most as many as asked for, and none only at the end. *)
Class StreamSocketLaws (S : Type) `{StreamSocket S} :=
  receive_ok n s : incoming s = fst (receiveBytes n s) ++ incoming (snd (receiveBytes n s))
    /\ (length (fst (receiveBytes n s)) <= n)%nat
    /\ ((0 < n)%nat -> incoming s <> [] -> fst (receiveBytes n s) <> []).

(** A socket whose sendBytes sends all it is given.  StreamSocket.h does not
    promise it: fewer bytes may be sent than were specified. *)
Class SendsAll (S : Type) `{StreamSocket S} :=
  sends_all bytes s : fst (sendBytes bytes s) = Z.of_nat (length bytes).

Definition BUFFER_SIZE : nat := Z.to_nat 4096.
Definition eof : Z := -1.

(** ** HTTPSession: the part that moves bytes *)
Module Session.
Section Code.
Context {S : Type} `{StreamSocket S}.

(** [_buffer] is what lies between [_pCurrent] and [_pEnd]. *)
Record HTTPSession := { _socket : S; _buffer : list Z; sent : list Z }.

Definition construct (socket : S) : HTTPSession := {| _socket := socket; _buffer := []; sent := [] |}.

Definition receive (length : nat) : ST HTTPSession (list Z) := fun s =>
  let (d, k) := receiveBytes length (_socket s) in
  (Done d, {| _socket := k; _buffer := _buffer s; sent := sent s |}).

Definition set_buffer (b : list Z) : ST HTTPSession unit :=
  modify (fun s => {| _socket := _socket s; _buffer := b; sent := sent s |}).

Definition refill : ST HTTPSession unit :=
  do* set_buffer [];
  let* d := receive BUFFER_SIZE in
  set_buffer d.

(** [get()] returns the next [char], or eof. *)
Definition get_char : ST HTTPSession Z :=
  let* s := get in
  do* match _buffer s with [] => refill | _ => ret tt end;
  let* s := get in
  match _buffer s with
  | c :: b => do* set_buffer b; ret (s8 c)
  | [] => ret eof
  end.

Definition peek : ST HTTPSession Z :=
  let* s := get in
  do* match _buffer s with [] => refill | _ => ret tt end;
  let* s := get in
  ret (match _buffer s with c :: _ => s8 c | [] => eof end).

(** [read(buffer, length)]: the bytes it stores; their number is its result. *)
Definition read (length : nat) : ST HTTPSession (list Z) :=
  let* s := get in
  match _buffer s with
  | [] => receive length
  | b => do* set_buffer (drop length b); ret (take length b)
  end.

Definition write (bytes : list Z) : ST HTTPSession Z := fun s =>
  let (n, k) := sendBytes bytes (_socket s) in
  (Done n, {| _socket := k; _buffer := _buffer s; sent := sent s ++ take (Z.to_nat n) bytes |}).

(** What is still to be read. *)
Definition stream (s : HTTPSession) : list Z := _buffer s ++ incoming (_socket s).

(** [while (more(ch)) ch = get();] and the same with [acc += ch] *)
Fixpoint skip (more : Z -> bool) (fuel : nat) (ch : Z) : ST HTTPSession Z :=
  if more ch then
    match fuel with O => undef | Datatypes.S fuel => let* c := get_char in skip more fuel c end
  else ret ch.

Fixpoint collect (more : Z -> bool) (fuel : nat) (acc : list Z) (ch : Z) : ST HTTPSession (list Z * Z) :=
  if more ch then
    match fuel with O => undef | Datatypes.S fuel => let* c := get_char in collect more fuel (acc ++ [u8 ch]) c end
  else ret (acc, ch).

Definition skip_all (more : Z -> bool) (ch : Z) : ST HTTPSession Z :=
  let* s := get in skip more (Datatypes.S (length (stream s))) ch.
Definition collect_all (more : Z -> bool) (ch : Z) : ST HTTPSession (list Z * Z) :=
  let* s := get in collect more (Datatypes.S (length (stream s))) [] ch.
End Code.
Arguments HTTPSession : clear implicits.
End Session.

(** ** BasicBufferedStreamBuf over a device *)
Module Buffered.
Section Code.
Context {D : Type} (bufsize : nat).
(** [readFromDevice(buffer, length)] returns a number and stores the bytes. *)
Context (readFromDevice : nat -> ST D (Z * list Z)) (writeToDevice : list Z -> ST D Z).

(** [gbuf] lies between [gptr] and [egptr], [pbuf] between [pbase] and [pptr];
    the put back area in front of [gptr] is left out. *)
Record streambuf := { device : D; gbuf : list Z; pbuf : list Z }.

Definition construct (d : D) : streambuf := {| device := d; gbuf := []; pbuf := [] |}.

Definition on_device {A} (m : ST D A) : ST streambuf A := fun b =>
  let (r, d) := m (device b) in (r, {| device := d; gbuf := gbuf b; pbuf := pbuf b |}).
Definition set_gbuf (l : list Z) : ST streambuf unit :=
  modify (fun b => {| device := device b; gbuf := l; pbuf := pbuf b |}).
Definition set_pbuf (l : list Z) : ST streambuf unit :=
  modify (fun b => {| device := device b; gbuf := gbuf b; pbuf := l |}).

Definition underflow : ST streambuf Z :=
  let* b := get in
  match gbuf b with
  | c :: _ => ret c
  | [] =>
      let* nd := on_device (readFromDevice (bufsize - 4)) in
      if fst nd <=? 0 then ret eof
      else
        do* set_gbuf (snd nd);
        match snd nd with c :: _ => ret c | [] => undef end
  end.

(** [sbumpc]: [underflow], and one character on. *)
Definition sbumpc : ST streambuf Z :=
  let* c := underflow in
  if c =? eof then ret eof
  else
    let* b := get in
    do* set_gbuf (tail (gbuf b));
    ret c.

(** [xsgetn]: characters up to a number or the end. *)
Fixpoint xsgetn (n : nat) : ST streambuf (list Z) :=
  match n with
  | O => ret []
  | S n =>
      let* c := sbumpc in
      if c =? eof then ret [] else let* l := xsgetn n in ret (c :: l)
  end.

Definition flushBuffer : ST streambuf Z :=
  let* b := get in
  let n := Z.of_nat (length (pbuf b)) in
  let* w := on_device (writeToDevice (pbuf b)) in
  if w =? n then do* set_pbuf []; ret n else ret (-1).

(** [*pptr() = c]: the array has [bufsize] characters. *)
Definition overflow (c : Z) : ST streambuf Z :=
  let* b := get in
  if (length (pbuf b) <? bufsize)%nat then
    do* set_pbuf (pbuf b ++ [c]);
    let* n := flushBuffer in
    ret (if n =? -1 then eof else c)
  else undef.

(** [sputc]: [epptr] leaves room for one character more. *)
Definition sputc (c : Z) : ST streambuf Z :=
  let* b := get in
  if (length (pbuf b) <? bufsize - 1)%nat then do* set_pbuf (pbuf b ++ [c]); ret c
  else overflow c.

(** [xsputn]: the number of characters that were taken. *)
Fixpoint xsputn (l : list Z) : ST streambuf nat :=
  match l with
  | [] => ret O
  | c :: l =>
      let* r := sputc c in
      if r =? eof then ret O else let* n := xsputn l in ret (S n)
  end.

Definition sync : ST streambuf Z :=
  let* b := get in
  match pbuf b with
  | [] => ret 0
  | _ => let* n := flushBuffer in ret (if n =? -1 then -1 else 0)
  end.
End Code.
Arguments streambuf : clear implicits.
End Buffered.

Import Session.

(** ** HTTPChunkedStreamBuf *)
Module Chunked.
Section Code.
Context {S : Type} `{StreamSocket S}.

Record HTTPChunkedStreamBuf := { _session : HTTPSession S; _chunk : Z }.

Definition construct (session : HTTPSession S) : HTTPChunkedStreamBuf := {| _session := session; _chunk := 0 |}.

Definition on_session {A} (m : ST (HTTPSession S) A) : ST HTTPChunkedStreamBuf A := fun b =>
  let (r, s) := m (_session b) in (r, {| _session := s; _chunk := _chunk b |}).
Definition set_chunk (n : Z) : ST HTTPChunkedStreamBuf unit := modify (fun b => {| _session := _session b; _chunk := n |}).

Definition to_newline (ch : Z) : bool := negb (ch =? eof) && negb (ch =? 10).

(** The line with the length of a chunk. *)
Definition read_length : ST (HTTPSession S) (list Z) :=
  let* ch := get_char in
  let* ch := skip_all Ascii.isSpace ch in
  let* lc := collect_all Ascii.isHexDigit ch in
  let* _ch := skip_all to_newline (snd lc) in
  ret (fst lc).

(** The chunk that is open is read, or the line behind the last one. *)
Definition read_chunk (length : nat) : ST HTTPChunkedStreamBuf (Z * list Z) :=
  let* b := get in
  if 0 <? _chunk b then
    let length := if _chunk b <? Z.of_nat length then Z.to_nat (_chunk b) else length in
    let* d := on_session (read length) in
    let n := Z.of_nat (List.length d) in
    do* (if 0 <? n then set_chunk (_chunk b - n) else ret tt);
    ret (n, d)
  else
    let* ch := on_session get_char in
    let* _ch := on_session (skip_all to_newline ch) in
    ret (0, []).

Definition readFromDevice (length : nat) : ST HTTPChunkedStreamBuf (Z * list Z) :=
  let* b := get in
  if _chunk b =? 0 then
    let* chunkLen := on_session read_length in
    let* chunk := lift (Parser.tryParseHex chunkLen) in
    match chunk with
    | Some chunk => do* set_chunk chunk; read_chunk length
    | None => ret (eof, [])
    end
  else read_chunk length.

(** [NumberFormatter::appendHex] at [std::streamsize], a [long]. *)
Definition writeToDevice (buffer : list Z) : ST HTTPChunkedStreamBuf Z :=
  let n := Z.of_nat (length buffer) in
  let* chunkBuffer := lift (Formatter.appendHex_long [] n) in
  let* _n := on_session (write (chunkBuffer ++ [13; 10] ++ buffer ++ [13; 10])) in
  ret n.

Abbreviation streambuf := (Buffered.streambuf HTTPChunkedStreamBuf).

(** [close()] of an output stream. *)
Definition close : ST streambuf unit :=
  let* _r := Buffered.sync writeToDevice in
  let* _n := Buffered.on_device (on_session (write (str "0" ++ [13; 10; 13; 10]))) in
  ret tt.

Definition get_bytes (n : nat) : ST streambuf (list Z) := Buffered.xsgetn BUFFER_SIZE readFromDevice n.
Definition put_bytes (l : list Z) : ST streambuf nat := Buffered.xsputn BUFFER_SIZE writeToDevice l.
End Code.
Arguments HTTPChunkedStreamBuf S : clear implicits.
End Chunked.

(** ** HTTPFixedLengthStreamBuf *)
Module FixedLength.
Section Code.
Context {S : Type} `{StreamSocket S}.

Record HTTPFixedLengthStreamBuf := { _session : HTTPSession S; _length : Z; _count : Z }.

Definition construct (session : HTTPSession S) (length : Z) : HTTPFixedLengthStreamBuf :=
  {| _session := session; _length := length; _count := 0 |}.

Definition on_session {A} (m : ST (HTTPSession S) A) : ST HTTPFixedLengthStreamBuf A := fun b =>
  let (r, s) := m (_session b) in (r, {| _session := s; _length := _length b; _count := _count b |}).
Definition add_count (n : Z) : ST HTTPFixedLengthStreamBuf unit :=
  modify (fun b => {| _session := _session b; _length := _length b; _count := _count b + n |}).

(** [length], cut to what is left of the content. *)
Definition cut (b : HTTPFixedLengthStreamBuf) (length : nat) : nat :=
  if _length b <? _count b + Z.of_nat length then Z.to_nat (_length b - _count b) else length.

Definition readFromDevice (length : nat) : ST HTTPFixedLengthStreamBuf (Z * list Z) :=
  let* b := get in
  if _count b <? _length b then
    let* d := on_session (read (cut b length)) in
    let n := Z.of_nat (List.length d) in
    do* (if 0 <? n then add_count n else ret tt);
    ret (n, d)
  else ret (0, []).

Definition writeToDevice (buffer : list Z) : ST HTTPFixedLengthStreamBuf Z :=
  let* b := get in
  if _count b <? _length b then
    let* n := on_session (write (take (cut b (length buffer)) buffer)) in
    do* (if 0 <? n then add_count n else ret tt);
    ret n
  else ret 0.

Abbreviation streambuf := (Buffered.streambuf HTTPFixedLengthStreamBuf).
Definition get_bytes (n : nat) : ST streambuf (list Z) := Buffered.xsgetn BUFFER_SIZE readFromDevice n.
Definition put_bytes (l : list Z) : ST streambuf nat := Buffered.xsputn BUFFER_SIZE writeToDevice l.
End Code.
Arguments HTTPFixedLengthStreamBuf S : clear implicits.
End FixedLength.

(** ** HTTPHeaderStreamBuf *)
Module HeaderStream.
Section Code.
Context {S : Type} `{StreamSocket S}.

Record HTTPHeaderStreamBuf := { _session : HTTPSession S; _end : bool }.

Definition construct (session : HTTPSession S) : HTTPHeaderStreamBuf := {| _session := session; _end := false |}.

Definition on_session {A} (m : ST (HTTPSession S) A) : ST HTTPHeaderStreamBuf A := fun b =>
  let (r, s) := m (_session b) in (r, {| _session := s; _end := _end b |}).

(** [while (ch != eof && ch != '\n' && n < length - 1)]; [d] is stored so far. *)
Fixpoint line_loop (fuel length : nat) (d : list Z) (ch : Z) : ST (HTTPSession S) (list Z * Z) :=
  if negb (ch =? eof) && negb (ch =? 10) && (List.length d <? length - 1)%nat then
    match fuel with
    | O => undef
    | Datatypes.S fuel => let* c := get_char in line_loop fuel length (d ++ [u8 ch]) c
    end
  else ret (d, ch).

Definition readFromDevice (length : nat) : ST HTTPHeaderStreamBuf (Z * list Z) :=
  let* b := get in
  if _end b then ret (0, [])
  else
    let* ch := on_session get_char in
    let* dc := on_session (line_loop length length [] ch) in
    if negb (snd dc =? eof) then
      let d := fst dc ++ [u8 (snd dc)] in
      do* (if (List.length d =? 2)%nat then modify (fun b => {| _session := _session b; _end := true |}) else ret tt);
      ret (Z.of_nat (List.length d), d)
    else ret (Z.of_nat (List.length (fst dc)), fst dc).

Definition writeToDevice (buffer : list Z) : ST HTTPHeaderStreamBuf Z := on_session (write buffer).

Abbreviation streambuf := (Buffered.streambuf HTTPHeaderStreamBuf).
Definition get_bytes (n : nat) : ST streambuf (list Z) := Buffered.xsgetn BUFFER_SIZE readFromDevice n.
Definition put_bytes (l : list Z) : ST streambuf nat := Buffered.xsputn BUFFER_SIZE writeToDevice l.
End Code.
Arguments HTTPHeaderStreamBuf S : clear implicits.
End HeaderStream.
