(* ===== verification/HttpStreamFacts.v ===== *)
(** HTTP body streams: what is read off a session and what is sent over it,
    whatever the pieces the socket delivers.

    The buffered stream is proved against two interfaces, what a device hands
    out and what it takes; the chunked, the fixed length and the header stream
    implement them. *)

From S2P Require Import Prelude Strings NumericString HttpStreams.
From stdpp Require Import list.

Import Session.

Open Scope st_scope.
Local Open Scope Z_scope.

(** ** Reading a session *)
Section Session.
Context {S : Type} `{StreamSocketLaws S}.
Implicit Types s : HTTPSession S.

(** [s'] has the bytes [r] left, and nothing was sent. *)
Definition left_with s s' r : Prop := stream s' = r /\ sent s' = sent s.

Lemma get_ok s :
  exists s', left_with s s' (tail (stream s)) /\
    get_char s = (Done (match stream s with c :: _ => s8 c | [] => eof end), s').
Proof.
  unfold get_char, left_with, stream. destruct s as [k b o]. cbn [_buffer _socket sent].
  destruct b as [|c b].
  - pose proof (receive_ok BUFFER_SIZE k) as (E1 & E2 & E3).
    st_unfold. unfold refill, receive, set_buffer, modify. st_unfold. cbn [_buffer _socket sent].
    destruct (receiveBytes BUFFER_SIZE k) as [d k'] eqn:E. cbn [fst snd] in *. cbn [_buffer _socket sent].
    rewrite E1. destruct d as [|c d]; cbn [app tail].
    + destruct (incoming k) as [|x l] eqn:Ei; [|by destruct E3; [unfold BUFFER_SIZE; lia|..]].
      simpl in E1. rewrite <-E1. eexists. split; [|reflexivity]. cbn. by rewrite <-E1.
    + eexists. split; [|reflexivity]. done.
  - st_unfold. eexists. split; [|reflexivity]. done.
Qed.

Lemma get_cons s c r : stream s = c :: r -> exists s', left_with s s' r /\ get_char s = (Done (s8 c), s').
Proof. intros E. destruct (get_ok s) as (s' & Hs & Hg). rewrite E in *. eauto. Qed.

Lemma read_ok n s :
  (0 < n)%nat -> exists d s', read n s = (Done d, s') /\ stream s = d ++ stream s' /\ sent s' = sent s
    /\ (length d <= n)%nat /\ (stream s <> [] -> d <> []).
Proof.
  intros Hn. unfold read, stream. destruct s as [k b o]. st_unfold. cbn [_buffer _socket sent].
  destruct b as [|c b].
  - pose proof (receive_ok n k) as (E1 & E2 & E3). unfold receive.
    cbn [_buffer _socket sent]. destruct (receiveBytes n k) as [d k']. cbn [fst snd] in *.
    do 2 eexists. split; [reflexivity|]. cbn. auto.
  - do 2 eexists. split; [reflexivity|]. cbn [_buffer _socket sent].
    rewrite app_assoc, take_drop. rewrite length_take. split_and!; [done..|lia|].
    intros _. by destruct n; [lia|].
Qed.

Lemma write_ok `{!SendsAll S} bytes s : exists s', write bytes s = (Done (Z.of_nat (length bytes)), s') /\ sent s' = sent s ++ bytes.
Proof.
  unfold write. pose proof (sends_all bytes (_socket s)) as E. destruct (sendBytes bytes (_socket s)) as [n k]. cbn [fst] in E. subst n.
  eexists. split; [reflexivity|]. cbn [sent]. by rewrite Nat2Z.id, take_ge.
Qed.

(** The loops stop at the first character that [more] refuses. *)
Lemma skip_stop more fuel ch s : more ch = false -> skip more fuel ch s = (Done ch, s).
Proof. intros E. destruct fuel; simpl; by rewrite E. Qed.

Lemma session_skip_run more pre : forall fuel ch s c r,
  stream s = pre ++ c :: r -> more ch = true -> Forall (fun x => more (s8 x) = true) pre ->
  more (s8 c) = false -> (length pre < fuel)%nat ->
  exists s', left_with s s' r /\ skip more fuel ch s = (Done (s8 c), s').
Proof.
  induction pre as [|x pre IH]; intros fuel ch s c r Hs Hch Hpre Hc Hf;
    (destruct fuel as [|fuel]; [simpl in Hf; lia|]); cbn [skip]; rewrite Hch; cbn [app] in Hs;
    destruct (get_cons s _ _ Hs) as (s1 & [Hs1 Ho] & Hg); rewrite (bind_Done _ _ _ _ _ Hg).
  - exists s1. by rewrite skip_stop.
  - apply Forall_cons_iff in Hpre as [Hx Hpre].
    destruct (IH fuel (s8 x) s1 c r) as (s' & [? ?] & ->); [done..|simpl in Hf; lia|].
    exists s'. split; [|done]. unfold left_with. by rewrite <-Ho.
Qed.

Lemma collect_stop more fuel acc ch s : more ch = false -> collect more fuel acc ch s = (Done (acc, ch), s).
Proof. intros E. destruct fuel; simpl; by rewrite E. Qed.

Lemma session_collect_run more pre : forall fuel acc ch s c r,
  stream s = pre ++ c :: r -> more ch = true -> Forall (fun x => more (s8 x) = true) pre ->
  Forall (fun x => u8 (s8 x) = x) pre ->
  more (s8 c) = false -> (length pre < fuel)%nat ->
  exists s', left_with s s' r /\ collect more fuel acc ch s = (Done (acc ++ u8 ch :: pre, s8 c), s').
Proof.
  induction pre as [|x pre IH]; intros fuel acc ch s c r Hs Hch Hpre Hu Hc Hf;
    (destruct fuel as [|fuel]; [simpl in Hf; lia|]); cbn [collect]; rewrite Hch; cbn [app] in Hs;
    destruct (get_cons s _ _ Hs) as (s1 & [Hs1 Ho] & Hg); rewrite (bind_Done _ _ _ _ _ Hg).
  - exists s1. by rewrite collect_stop.
  - apply Forall_cons_iff in Hpre as [Hx Hpre]. apply Forall_cons_iff in Hu as [Hux Hu].
    destruct (IH fuel (acc ++ [u8 ch]) (s8 x) s1 c r) as (s' & [? ?] & ->); [done..|simpl in Hf; lia|].
    exists s'. rewrite <-app_assoc, Hux. split; [|done]. unfold left_with. by rewrite <-Ho.
Qed.

(** The same with [e] in hand, the rest of the text still in the session. *)
Lemma skip_text more pre e c r s :
  e :: stream s = pre ++ c :: r -> Forall (fun x => more (s8 x) = true) pre -> more (s8 c) = false ->
  exists s', left_with s s' r /\ skip_all more (s8 e) s = (Done (s8 c), s').
Proof.
  intros E Hpre Hc. unfold skip_all. rewrite bind_get. destruct pre as [|x pre]; cbn [app] in E.
  - injection E as -> E. exists s. by rewrite skip_stop.
  - injection E as -> E. apply Forall_cons_iff in Hpre as [Hx Hpre].
    apply (session_skip_run more pre); [done..|]. rewrite E, length_app. simpl. lia.
Qed.

Lemma collect_text more pre e c r s :
  e :: stream s = pre ++ c :: r -> Forall (fun x => more (s8 x) = true) pre ->
  Forall (fun x => u8 (s8 x) = x) pre -> more (s8 c) = false ->
  exists s', left_with s s' r /\ collect_all more (s8 e) s = (Done (pre, s8 c), s').
Proof.
  intros E Hpre Hu Hc. unfold collect_all. rewrite bind_get. destruct pre as [|x pre]; cbn [app] in E.
  - injection E as -> E. exists s. by rewrite collect_stop.
  - injection E as -> E. apply Forall_cons_iff in Hpre as [Hx Hpre]. apply Forall_cons_iff in Hu as [Hux Hu].
    destruct (session_collect_run more pre (Datatypes.S (length (stream s))) [] (s8 x) s c r) as (s' & Hs & ->);
      [done..|rewrite E, length_app; simpl; lia|]. exists s'. by rewrite Hux.
Qed.
End Session.

(** ** The buffered stream over a device *)

(** What a device promises a stream that reads [n] bytes at a time: in a state
    with [data] ahead it hands out the next bytes, some unless there are none,
    and then it is done. *)
Class DeviceReads {D : Type} (readFromDevice : nat -> ST D (Z * list Z)) (n : nat)
    (ahead : D -> list Z -> Prop) (finished : D -> Prop) : Prop := {
  device_data d data : ahead d data -> Forall is_byte data;
  device_more d data : ahead d data -> data <> [] ->
    exists bytes rest d', readFromDevice n d = (Done (Z.of_nat (length bytes), bytes), d')
      /\ bytes <> [] /\ data = bytes ++ rest /\ ahead d' rest;
  device_end d : ahead d [] -> exists d', readFromDevice n d = (Done (0, []), d') /\ finished d'
}.

(** What a buffered stream writes: some bytes, at most a buffer full. *)
Definition a_buffer (n : nat) (buf : list Z) : Prop :=
  buf <> [] /\ (length buf <= n)%nat /\ Forall is_byte buf.

(** What a device promises a stream that writes [k] bytes at most: it takes
    everything, or it is full of a part of it and stays so. *)
Class DeviceWrites {D : Type} (writeToDevice : list Z -> ST D Z) (k : nat)
    (wrote full : D -> list Z -> Prop) : Prop := {
  device_write d x buf : wrote d x -> a_buffer k buf -> exists n d', writeToDevice buf d = (Done n, d')
    /\ ((n = Z.of_nat (length buf) /\ wrote d' (x ++ buf))
        \/ (n <> Z.of_nat (length buf) /\ forall l, full d' (x ++ buf ++ l)));
  device_full d x buf : full d x -> exists n d', writeToDevice buf d = (Done n, d') /\ full d' x
}.

Module Reading.
Import Buffered.
Section Code.
Context {D : Type} (bufsize : nat) {readFromDevice : nat -> ST D (Z * list Z)}.
Context {ahead : D -> list Z -> Prop} {finished : D -> Prop}.
Context `{!DeviceReads readFromDevice (bufsize - 4) ahead finished}.
Implicit Types b : streambuf D.

(** [data] is in the buffer and ahead in the device. *)
Definition holds b (data : list Z) : Prop :=
  exists rest, ahead (device b) rest /\ Forall is_byte (gbuf b) /\ data = gbuf b ++ rest.

(** The end was met. *)
Definition drained b : Prop := finished (device b) /\ gbuf b = [].

Lemma underflow_some b c data :
  holds b (c :: data) -> exists b', underflow bufsize readFromDevice b = (Done c, b')
    /\ is_byte c /\ holds b' (c :: data) /\ gbuf b' <> [].
Proof.
  intros (rest & Ha & Hb & E). unfold underflow. rewrite bind_get. destruct (gbuf b) as [|x g] eqn:G.
  - cbn [app] in E. subst rest. pose proof (device_data _ _ Ha) as Hd.
    destruct (device_more _ _ Ha) as (bytes & rest & d' & Hr & Hne & E & Ha'); [done|].
    unfold on_device, bind at 1. rewrite Hr. cbn [fst snd]. destruct bytes as [|y bytes]; [done|].
    rewrite (proj2 (Z.leb_gt _ _)) by (simpl; lia). injection E as <- ->.
    unfold set_gbuf. rewrite bind_modify. eexists. split; [reflexivity|].
    apply Forall_cons_iff in Hd as [? Hd]. apply Forall_app in Hd as [? _].
    split; [done|]. split; [|done]. exists rest. cbn. split_and!; [done| |done]. by constructor.
  - injection E as <- ->. exists b. apply Forall_cons_iff in Hb as [? Hb].
    split_and!; [done..| |by rewrite G]. exists rest. rewrite G. split_and!; [done| |done]. by constructor.
Qed.

Lemma sbumpc_some b c data :
  holds b (c :: data) -> exists b', sbumpc bufsize readFromDevice b = (Done c, b') /\ holds b' data /\ is_byte c.
Proof.
  intros Hb. destruct (underflow_some _ _ _ Hb) as (b1 & Hu & Hc & (rest & Ha & Hby & E) & Hne).
  unfold sbumpc. rewrite (bind_Done _ _ _ _ _ Hu). unfold eof.
  rewrite (proj2 (Z.eqb_neq c (-1))) by (unfold is_byte in Hc; lia). rewrite bind_get.
  unfold set_gbuf. rewrite bind_modify. eexists. split; [reflexivity|]. split; [|done].
  destruct (gbuf b1) as [|x g]; [done|]. injection E as -> ->.
  exists rest. apply Forall_cons_iff in Hby as [_ ?]. done.
Qed.

Lemma sbumpc_end b :
  holds b [] -> exists b', sbumpc bufsize readFromDevice b = (Done eof, b') /\ drained b'.
Proof.
  intros (rest & Ha & _ & E). symmetry in E. apply app_eq_nil in E as [G ->].
  destruct (device_end _ Ha) as (d' & Hr & Hf).
  unfold sbumpc, underflow. rewrite bind_bind, bind_get, G, bind_bind.
  unfold on_device, bind at 1. rewrite Hr. cbn [fst snd]. eexists. split; [reflexivity|]. by split.
Qed.

(** Asking for [n] characters gives the next [n], or all there are. *)
Lemma xsgetn_some n : forall b data,
  holds b data -> (n <= length data)%nat ->
  exists b', xsgetn bufsize readFromDevice n b = (Done (take n data), b') /\ holds b' (drop n data).
Proof.
  induction n as [|n IH]; intros b data Hb Hn; [exists b; by rewrite drop_0|].
  destruct data as [|c data]; [simpl in Hn; lia|]. cbn [xsgetn].
  destruct (sbumpc_some _ _ _ Hb) as (b1 & Hs & Hb1 & Hc). rewrite (bind_Done _ _ _ _ _ Hs).
  unfold eof. rewrite (proj2 (Z.eqb_neq c (-1))) by (unfold is_byte in Hc; lia).
  destruct (IH b1 data) as (b' & Hx & Hb'); [done|simpl in Hn; lia|].
  rewrite (bind_Done _ _ _ _ _ Hx). exists b'. done.
Qed.

Lemma xsgetn_all n : forall b data,
  holds b data -> (length data < n)%nat ->
  exists b', xsgetn bufsize readFromDevice n b = (Done data, b') /\ drained b'.
Proof.
  induction n as [|n IH]; intros b data Hb Hn; [lia|]. cbn [xsgetn]. destruct data as [|c data].
  - destruct (sbumpc_end _ Hb) as (b1 & Hs & Hd). rewrite (bind_Done _ _ _ _ _ Hs). by exists b1.
  - destruct (sbumpc_some _ _ _ Hb) as (b1 & Hs & Hb1 & Hc). rewrite (bind_Done _ _ _ _ _ Hs).
    unfold eof. rewrite (proj2 (Z.eqb_neq c (-1))) by (unfold is_byte in Hc; lia).
    destruct (IH b1 data) as (b' & Hx & Hb'); [done|simpl in Hn; lia|].
    rewrite (bind_Done _ _ _ _ _ Hx). exists b'. done.
Qed.

Lemma construct_holds d data : ahead d data -> holds (construct d) data.
Proof. exists data. split_and!; [done|constructor|done]. Qed.
End Code.
End Reading.

Module Writing.
Import Buffered.
Section Code.
Context {D : Type} (bufsize : nat) (room : (0 < bufsize)%nat) {writeToDevice : list Z -> ST D Z}.
Context {wrote full : D -> list Z -> Prop} `{!DeviceWrites writeToDevice bufsize wrote full}.
Implicit Types b : streambuf D.

(** [x] was put into the stream; the device has a part of it. *)
Definition took b (x : list Z) : Prop :=
  exists w, wrote (device b) w /\ x = w ++ pbuf b /\ (length (pbuf b) < bufsize)%nat
    /\ Forall is_byte (pbuf b).

(** The device is full, whatever is put behind [x]. *)
Definition overrun b (x : list Z) : Prop := full (device b) x.

Lemma flushBuffer_ok b w :
  wrote (device b) w -> a_buffer bufsize (pbuf b) -> exists n b', flushBuffer writeToDevice b = (Done n, b')
    /\ ((n <> -1 /\ wrote (device b') (w ++ pbuf b) /\ pbuf b' = [])
        \/ (n = -1 /\ forall l, full (device b') (w ++ pbuf b ++ l))).
Proof.
  intros Hw Hbuf. unfold flushBuffer. rewrite bind_get.
  destruct (device_write _ _ (pbuf b) Hw Hbuf) as (n & d' & Hr & [[-> Hd]|[Hn Hd]]);
    unfold on_device, bind at 1; rewrite Hr.
  - rewrite Z.eqb_refl. unfold set_pbuf. rewrite bind_modify. do 2 eexists. split; [reflexivity|].
    left. split_and!; [lia|done..].
  - rewrite (proj2 (Z.eqb_neq _ _)) by done. do 2 eexists. split; [reflexivity|]. by right.
Qed.

Lemma sputc_ok b x c :
  is_byte c -> took b x -> exists r b', sputc bufsize writeToDevice c b = (Done r, b')
    /\ ((r = c /\ took b' (x ++ [c])) \/ (r = eof /\ forall l, overrun b' (x ++ [c] ++ l))).
Proof.
  intros Hc (w & Hw & -> & Hl & Hp). unfold sputc. rewrite bind_get.
  assert (Forall is_byte (pbuf b ++ [c])) by (apply Forall_app_2; [done|by apply Forall_singleton]).
  case_match eqn:E.
  - unfold set_pbuf. rewrite bind_modify. do 2 eexists. split; [reflexivity|]. left. split; [done|].
    exists w. cbn. rewrite app_assoc, length_app. apply Nat.ltb_lt in E. simpl. split_and!; [done..|lia|done].
  - unfold overflow. rewrite bind_get, (proj2 (Nat.ltb_lt _ _)) by done.
    unfold set_pbuf. rewrite bind_modify.
    set (b1 := {| device := _; gbuf := _; pbuf := _ |}).
    destruct (flushBuffer_ok b1 w Hw) as (n & b' & Hr & [(Hn & Hd & Hp')|(-> & Hd)]);
      [|rewrite (bind_Done _ _ _ _ _ Hr)..].
    { split_and!; [by intros [_ [=]]%app_eq_nil|cbn; rewrite length_app; simpl; lia|done]. }
    + rewrite (proj2 (Z.eqb_neq _ _)) by done. do 2 eexists. split; [reflexivity|]. left. split; [done|].
      exists (w ++ pbuf b ++ [c]). rewrite Hp', app_nil_r. simpl. by rewrite <-app_assoc.
    + do 2 eexists. split; [reflexivity|]. right. split; [done|]. intros l. unfold overrun.
      specialize (Hd l). cbn in Hd. by rewrite <-!app_assoc in *.
Qed.

(** Either everything was taken, or the device is full. *)
Lemma xsputn_ok l : forall b x,
  Forall is_byte l -> took b x -> exists k b', xsputn bufsize writeToDevice l b = (Done k, b')
    /\ ((k = length l /\ took b' (x ++ l)) \/ overrun b' (x ++ l)).
Proof.
  induction l as [|c l IH]; intros b x Hl Hb; cbn [xsputn].
  - exists O, b. split; [done|]. left. by rewrite app_nil_r.
  - apply Forall_cons_iff in Hl as [Hc Hl].
    destruct (sputc_ok b x c Hc Hb) as (r & b1 & Hr & [[-> Hb1]|[-> Hb1]]); rewrite (bind_Done _ _ _ _ _ Hr).
    + unfold eof. rewrite (proj2 (Z.eqb_neq c (-1))) by (unfold is_byte in Hc; lia).
      destruct (IH b1 (x ++ [c]) Hl Hb1) as (k & b' & Hk & Hb'). rewrite (bind_Done _ _ _ _ _ Hk).
      rewrite <-app_assoc in Hb'. do 2 eexists. split; [reflexivity|].
      destruct Hb' as [[-> ?]|?]; [by left|by right].
    + do 2 eexists. split; [reflexivity|]. right. apply (Hb1 l).
Qed.

Lemma sync_ok b x :
  took b x -> exists r b', sync writeToDevice b = (Done r, b')
    /\ ((r = 0 /\ wrote (device b') x /\ pbuf b' = []) \/ (r = -1 /\ overrun b' x)).
Proof.
  intros (w & Hw & -> & Hl & Hby). unfold sync. rewrite bind_get. destruct (pbuf b) as [|c p] eqn:E.
  - do 2 eexists. split; [reflexivity|]. left. by rewrite app_nil_r.
  - destruct (flushBuffer_ok b w Hw) as (n & b' & Hr & [(Hn & Hd & Hp)|(-> & Hd)]);
      [rewrite E; split_and!; [done|lia|done]|rewrite (bind_Done _ _ _ _ _ Hr); do 2 eexists; (split; [reflexivity|])..].
    + rewrite (proj2 (Z.eqb_neq _ _)) by done. left. by rewrite <-E.
    + right. split; [done|]. specialize (Hd []). by rewrite app_nil_r, E in Hd.
Qed.

Lemma sync_overrun b x :
  overrun b x -> exists r b', sync writeToDevice b = (Done r, b') /\ overrun b' x.
Proof.
  unfold overrun. intros Hf. unfold sync. rewrite bind_get. destruct (pbuf b) as [|c p] eqn:E; [by eauto|].
  unfold flushBuffer. rewrite bind_bind, bind_get, bind_bind.
  destruct (device_full _ _ (pbuf b) Hf) as (n & d' & Hr & Hd). unfold on_device, bind at 1. rewrite Hr.
  destruct (n =? _); unfold set_pbuf; eexists _, _; (split; [reflexivity|done]).
Qed.

Lemma construct_took d : wrote d [] -> took (construct d) [].
Proof. exists []. done. Qed.
End Code.
End Writing.

(** ** The chunked stream *)

(** [t] is the number [n] in hexadecimal digits. *)
Definition hex_text (n : Z) (t : list Z) : Prop :=
  exists ds, is_digits 16 ds /\ value_lsb 16 ds = n /\ t = rev (map digit_char ds).

(** What may stand behind the length of a chunk. *)
Definition extension (e : list Z) : Prop :=
  Forall (fun c => 0 <= c < 128 /\ c <> 10) e /\ match e with c :: _ => Ascii.isHexDigit c = false | [] => True end.

(** RFC 2616, 3.6.1: [text] carries [data] in chunks, no trailers behind. *)
Inductive framed : list Z -> list Z -> Prop :=
| framed_last t e : hex_text 0 t -> extension e -> framed (t ++ e ++ [13; 10; 13; 10]) []
| framed_chunk t e d text data :
    hex_text (Z.of_nat (length d)) t -> extension e -> d <> [] -> Z.of_nat (length d) < 2 ^ 32 ->
    Forall is_byte d -> framed text data ->
    framed (t ++ e ++ 13 :: 10 :: d ++ 13 :: 10 :: text) (d ++ data).

Lemma framed_bytes text data : framed text data -> Forall is_byte data.
Proof. induction 1; [constructor|by apply Forall_app]. Qed.

(** The characters of a hexadecimal number. *)
Lemma hex_text_chars n t :
  hex_text n t -> t <> [] /\ Forall (fun x => s8 x = x /\ u8 x = x /\ Ascii.isHexDigit x = true /\ Ascii.isSpace x = false) t.
Proof.
  intros (ds & (Hd & Hne & _) & _ & ->). split.
  - intros E. apply (f_equal (@length Z)) in E. rewrite length_rev, length_map in E. by destruct ds.
  - apply Forall_rev, Forall_map. eapply Forall_impl; [exact Hd|]. intros x Hx. cbv beta.
    assert (T : (s8 (digit_char x) =? digit_char x) && (u8 (digit_char x) =? digit_char x)
      && Ascii.isHexDigit (digit_char x) && negb (Ascii.isSpace (digit_char x)) = true).
    { revert x Hx. apply (allbelow_spec 16 (fun x => _ && _ && _ && _)). by vm_compute. }
    rewrite !andb_true_iff, !Z.eqb_eq, negb_true_iff in T. tauto.
Qed.

Lemma hex_text_parse n t : hex_text n t -> n < 2 ^ 32 -> Parser.tryParseHex t = Done (Some n).
Proof.
  intros (ds & Hds & <- & ->) Hn. unfold Parser.tryParseHex.
  apply strToInt_digits; [by right|done|done|simpl; lia].
Qed.

Lemma s8_low x : 0 <= x < 128 -> s8 x = x.
Proof. unfold s8, swrap. simpl. lia. Qed.

Lemma buffer_some : (0 < BUFFER_SIZE - 4)%nat.
Proof. unfold BUFFER_SIZE. lia. Qed.

Module ChunkedReads.
Import Chunked.
Section Code.
Context {S : Type} `{StreamSocketLaws S}.
Implicit Types (s : HTTPSession S) (d : HTTPChunkedStreamBuf S).

Lemma read_length_ok s ws n t e r :
  ws = [] \/ ws = [13; 10] -> hex_text n t -> extension e -> stream s = ws ++ t ++ e ++ 13 :: 10 :: r ->
  exists s', left_with s s' r /\ read_length s = (Done t, s').
Proof.
  intros Hws Ht [He He0] Es. destruct (hex_text_chars n t Ht) as [Hne Hch].
  destruct t as [|c t]; [done|]. pose proof Hch as [(Hc8 & _ & _ & Hsp) _]%Forall_cons_iff.
  assert (Hh : exists h r', e ++ 13 :: 10 :: r = h :: r' /\ Ascii.isHexDigit (s8 h) = false).
  { destruct e as [|h e]; [exists 13; eexists; by split|]. apply Forall_cons_iff in He as [[Hh _] _].
    exists h. eexists. split; [reflexivity|]. by rewrite s8_low by done. }
  destruct Hh as (h & r' & Eh & Hh). rewrite Eh in Es.
  destruct (stream s) as [|c0 q] eqn:Eq; [by destruct ws|].
  destruct (get_cons s c0 q Eq) as (s1 & [Q1 O1] & G). unfold read_length. rewrite (bind_Done _ _ _ _ _ G).
  destruct (skip_text Ascii.isSpace ws c0 c (t ++ h :: r') s1) as (s2 & [Q2 O2] & K);
    [by rewrite Q1|by destruct Hws as [-> | ->]; repeat constructor|by rewrite Hc8|].
  rewrite (bind_Done _ _ _ _ _ K).
  destruct (collect_text Ascii.isHexDigit (c :: t) c h r' s2) as (s3 & [Q3 O3] & C);
    [by rewrite Q2|..|done|].
  { eapply Forall_impl; [exact Hch|]. by intros x (-> & _ & ? & _). }
  { eapply Forall_impl; [exact Hch|]. by intros x (-> & ? & _ & _). }
  rewrite (bind_Done _ _ _ _ _ C).
  destruct (skip_text to_newline (e ++ [13]) h 10 r s3) as (s4 & [Q4 O4] & N);
    [by rewrite Q3, <-app_assoc|..|done|].
  { apply Forall_app. split; [|by repeat constructor]. eapply Forall_impl; [exact He|].
    intros x [Hx H10]. rewrite s8_low by done. unfold to_newline, eof. lia. }
  cbn [fst snd]. rewrite (bind_Done _ _ _ _ _ N). exists s4. split; [|done].
  split; [done|congruence].
Qed.

(** [data] is ahead, and [rest] behind it: inside a chunk, or before a length. *)
Definition ahead (o rest : list Z) d (data : list Z) : Prop :=
  sent (_session d) = o /\
  ((_chunk d = 0 /\ exists ws text, (ws = [] \/ ws = [13; 10]) /\ framed text data
      /\ stream (_session d) = ws ++ text ++ rest)
   \/ exists part text more, _chunk d = Z.of_nat (length part) /\ part <> [] /\ Forall is_byte part
      /\ framed text more /\ data = part ++ more
      /\ stream (_session d) = part ++ 13 :: 10 :: text ++ rest).

Definition finished (o rest : list Z) d : Prop := stream (_session d) = rest /\ sent (_session d) = o.

Lemma on_session_ok {A} (m : ST (HTTPSession S) A) d a s' :
  m (_session d) = (Done a, s') -> on_session m d = (Done a, {| _session := s'; _chunk := _chunk d |}).
Proof. intros E. unfold on_session. by rewrite E. Qed.

(** Inside a chunk the bytes of the chunk come, never more. *)
Lemma read_chunk_ok o rest n d part text more :
  (0 < n)%nat -> sent (_session d) = o -> _chunk d = Z.of_nat (length part) -> part <> [] ->
  Forall is_byte part -> framed text more -> stream (_session d) = part ++ 13 :: 10 :: text ++ rest ->
  exists bytes data' d', read_chunk n d = (Done (Z.of_nat (length bytes), bytes), d')
    /\ bytes <> [] /\ part ++ more = bytes ++ data' /\ ahead o rest d' data'.
Proof.
  intros Hn Ho Hc Hne Hp Hf Es. unfold read_chunk. rewrite bind_get.
  assert (0 < length part)%nat by (destruct part; simpl; [done|lia]).
  rewrite (proj2 (Z.ltb_lt 0 _)) by lia.
  set (k := if _chunk d <? Z.of_nat n then Z.to_nat (_chunk d) else n).
  assert (Hk : (0 < k <= length part)%nat).
  { subst k. destruct (_chunk d <? Z.of_nat n) eqn:E; lia. }
  destruct (read_ok k (_session d)) as (b & s' & Hr & Eb & O' & Hl & Hb); [lia|].
  rewrite (bind_Done _ _ _ _ _ (on_session_ok _ _ _ _ Hr)).
  assert (b <> []) by (apply Hb; rewrite Es; by destruct part).
  assert (0 < length b)%nat by (destruct b; simpl; [done|lia]).
  rewrite (proj2 (Z.ltb_lt 0 _)) by lia. unfold set_chunk. rewrite bind_modify. cbn [_session _chunk].
  rewrite Eb in Es. assert (Ep : part = b ++ drop (length b) part).
  { rewrite <-(take_drop (length b) part) at 1. f_equal.
    apply (f_equal (take (length b))) in Es. rewrite take_app_length, take_app_le in Es by lia. done. }
  remember (drop (length b) part) as part' eqn:Epart. clear Epart. rewrite Ep in Es. rewrite <-app_assoc in Es.
  apply app_inv_head in Es. exists b, (part' ++ more). eexists. split; [reflexivity|].
  split; [done|]. split; [by rewrite Ep at 1; rewrite <-app_assoc|].
  split; [cbn; by rewrite O'|]. cbn [_session _chunk].
  rewrite Hc, Ep, length_app. rewrite Ep in Hp. apply Forall_app in Hp as [_ Hp].
  destruct part' as [|x part'].
  - left. split; [simpl; lia|]. exists [13; 10], text. split_and!; [by right|done|done].
  - right. exists (x :: part'), text, more. split_and!; [lia|done..].
Qed.

(** A chunk length is read and the chunk is open. *)
Lemma read_open n d ws v t e r :
  ws = [] \/ ws = [13; 10] -> hex_text v t -> v < 2 ^ 32 -> extension e -> _chunk d = 0 ->
  stream (_session d) = ws ++ t ++ e ++ 13 :: 10 :: r ->
  exists s', left_with (_session d) s' r
    /\ readFromDevice n d = read_chunk n {| _session := s'; _chunk := v |}.
Proof.
  intros Hws Ht Hv He Hc Es. unfold readFromDevice. rewrite bind_get, Hc. cbn [Z.eqb].
  destruct (read_length_ok _ _ _ _ _ _ Hws Ht He Es) as (s' & Hl & Hr).
  rewrite (bind_Done _ _ _ _ _ (on_session_ok _ _ _ _ Hr)).
  rewrite (bind_Done (lift _) _ _ (Some v) {| _session := s'; _chunk := _chunk d |});
    [|unfold lift; by rewrite (hex_text_parse v)].
  exists s'. split; [done|]. unfold set_chunk. by rewrite bind_modify.
Qed.

#[global] Instance chunked_reads o rest :
  DeviceReads readFromDevice (BUFFER_SIZE - 4) (ahead o rest) (finished o rest).
Proof.
  pose proof buffer_some as Hn. remember (BUFFER_SIZE - 4)%nat as n eqn:En. clear En. split.
  - intros d data (_ & [(_ & ws & text & _ & Hf & _)|(part & text & more & _ & _ & Hp & Hf & -> & _)]).
    + by apply framed_bytes in Hf.
    + apply Forall_app. split; [done|]. by apply framed_bytes in Hf.
  - intros d data [Ho [(Hc & ws & text & Hws & Hf & Es)|(part & text & more & Hc & Hne & Hp & Hf & -> & Es)]] Hd.
    + destruct Hf as [|t e part text more Ht He Hne Hv Hp Hf]; [done|].
      rewrite <-!app_assoc in Es. cbn [app] in Es. rewrite <-app_assoc in Es. cbn [app] in Es.
      destruct (read_open n d ws _ t e _ Hws Ht Hv He Hc Es) as (s' & [Q O'] & ->).
      apply (read_chunk_ok o rest n _ part text more); cbn; congruence || done.
    + unfold readFromDevice. rewrite bind_get.
      rewrite (proj2 (Z.eqb_neq _ _)) by (destruct part; [done|rewrite Hc; simpl; lia]).
      by apply (read_chunk_ok o rest n _ part text more).
  - intros d [Ho [(Hc & ws & text & Hws & Hf & Es)|(part & ? & ? & _ & Hne & _ & _ & E & _)]];
      [|by destruct part].
    inversion Hf as [t e Ht He E1 E2|t e part ? ? _ _ Hne _ _ _ E1 E2]; [|by destruct part].
    subst text. rewrite <-!app_assoc in Es. cbn [app] in Es.
    destruct (read_open n d ws 0 t e _ Hws Ht ltac:(lia) He Hc Es) as (s' & [Q O'] & ->).
    unfold read_chunk. rewrite bind_get. cbn [_chunk Z.ltb Z.compare].
    destruct (get_cons s' 13 _ Q) as (s1 & [Q1 O1] & G).
    rewrite (bind_Done _ _ _ _ _ (on_session_ok get_char {| _session := s'; _chunk := 0 |} _ _ G)).
    destruct (skip_text to_newline [13] 13 10 rest s1) as (s2 & [Q2 O2] & N); [by rewrite Q1|by repeat constructor|done|].
    rewrite (bind_Done _ _ _ _ _ (on_session_ok _ {| _session := s1; _chunk := 0 |} _ _ N)).
    eexists. split; [reflexivity|]. split; cbn; congruence.
Qed.
End Code.
End ChunkedReads.

Lemma appendHex_text n : 0 <= n < 2 ^ 63 -> exists t, Formatter.appendHex_long [] n = Done t /\ hex_text n t.
Proof.
  intros Hn. unfold Formatter.appendHex_long. replace (u64 n) with n by (unfold u64; lia).
  destruct (uIntToStr_text 16 n 16 Formatter.NF_MAX_INT_STRING_LEN) as (ds & Hds & Hv & E);
    [lia|unfold MAX_DIGITS; lia|lia|unfold Formatter.NF_MAX_INT_STRING_LEN; lia|].
  rewrite E. eexists. split; [reflexivity|]. by exists ds.
Qed.

Module ChunkedWrites.
Import Chunked.
Section Code.
Context {S : Type} `{StreamSocketLaws S} `{!SendsAll S}.

(** What went out behind [o] carries [x], in front of whatever comes next. *)
Definition wrote (o : list Z) (d : HTTPChunkedStreamBuf S) (x : list Z) : Prop :=
  exists text, sent (_session d) = o ++ text
    /\ forall text' data, framed text' data -> framed (text ++ text') (x ++ data).

(** It is never full. *)
Definition full (d : HTTPChunkedStreamBuf S) (x : list Z) : Prop := False.

#[global] Instance chunked_writes o : DeviceWrites writeToDevice BUFFER_SIZE (wrote o) full.
Proof.
  split; [|done]. intros d x buf (text & Es & Hf) (Hne & Hl & Hb).
  assert (Hlen : Z.of_nat (length buf) <= 4096).
  { rewrite <-(Z2Nat.id 4096) by lia. by apply Nat2Z.inj_le. }
  destruct (appendHex_text (Z.of_nat (length buf))) as (t & Et & Ht); [lia|].
  destruct (write_ok (t ++ [13; 10] ++ buf ++ [13; 10]) (_session d)) as (s' & Ew & Eo).
  unfold writeToDevice. unfold bind at 1, lift. rewrite Et. rewrite (bind_Done _ _ _ _ _ (ChunkedReads.on_session_ok _ _ _ _ Ew)).
  eexists _, _. split; [reflexivity|]. left. split; [done|].
  exists (text ++ t ++ 13 :: 10 :: buf ++ [13; 10]). cbn [_session]. rewrite Eo, Es, <-!app_assoc. split; [done|].
  intros text' data Hd. rewrite <-!app_assoc. apply Hf. cbn [app]. rewrite <-app_assoc.
  apply (framed_chunk t [] buf text' data); [done|by repeat constructor|done|lia|done..].
Qed.
End Code.
End ChunkedWrites.

(** ** The fixed length stream *)
Module Fixed.
Import FixedLength.
Section Code.
Context {S : Type} `{StreamSocketLaws S}.
Implicit Types d : HTTPFixedLengthStreamBuf S.

Lemma on_fixed_session {A} (m : ST (HTTPSession S) A) d a s' :
  m (_session d) = (Done a, s') ->
  on_session m d = (Done a, {| _session := s'; _length := _length d; _count := _count d |}).
Proof. intros E. unfold on_session. by rewrite E. Qed.

(** The rest of the content is ahead, and [rest] behind it. *)
Definition ahead (o rest : list Z) d (data : list Z) : Prop :=
  sent (_session d) = o /\ stream (_session d) = data ++ rest /\ Forall is_byte data
  /\ Z.of_nat (length data) <= Z.max 0 (_length d - _count d)
  /\ (Z.of_nat (length data) < _length d - _count d -> rest = []).

Definition finished (o rest : list Z) d : Prop := stream (_session d) = rest /\ sent (_session d) = o.

#[global] Instance fixed_reads o rest :
  DeviceReads readFromDevice (BUFFER_SIZE - 4) (ahead o rest) (finished o rest).
Proof.
  pose proof buffer_some as Hn. remember (BUFFER_SIZE - 4)%nat as n eqn:En. clear En. split.
  - by intros d data (_ & _ & ? & _).
  - intros d data (Ho & Es & Hb & Hl & Hr) Hne. unfold readFromDevice. rewrite bind_get.
    assert (0 < length data)%nat by (destruct data; simpl; [done|lia]).
    rewrite (proj2 (Z.ltb_lt _ _)) by lia.
    assert (Hk : (0 < cut d n)%nat /\ Z.of_nat (cut d n) <= _length d - _count d).
    { unfold cut. destruct (_length d <? _) eqn:E; lia. }
    destruct (read_ok (cut d n) (_session d)) as (b & s' & E & Eb & O' & Hlb & Hbne); [lia|].
    rewrite (bind_Done _ _ _ _ _ (on_fixed_session _ _ _ _ E)).
    assert (b <> []) by (apply Hbne; rewrite Es; by destruct data).
    assert (0 < length b)%nat by (destruct b; simpl; [done|lia]).
    rewrite (proj2 (Z.ltb_lt 0 _)) by lia. unfold add_count. rewrite bind_modify. cbn.
    assert (Hle : (length b <= length data)%nat).
    { destruct (decide (Z.of_nat (length data) < _length d - _count d)) as [Hs|]; [|lia].
      rewrite (Hr Hs), app_nil_r in Es. rewrite <-Es, Eb, length_app. lia. }
    rewrite Eb in Es. assert (Ed : data = b ++ drop (length b) data).
    { rewrite <-(take_drop (length b) data) at 1. f_equal.
      apply (f_equal (take (length b))) in Es. by rewrite take_app_length, take_app_le in Es by lia. }
    exists b, (drop (length b) data). eexists. split; [reflexivity|]. split; [done|]. split; [done|].
    rewrite Ed in Es at 1. rewrite <-app_assoc in Es. apply app_inv_head in Es.
    unfold ahead. cbn. rewrite length_drop. split_and!; [congruence|done|by apply Forall_drop|lia|].
    intros. apply Hr. lia.
  - intros d (Ho & Es & _ & _ & Hr). cbn [app] in Es. unfold readFromDevice. rewrite bind_get.
    destruct (_count d <? _length d) eqn:E; [|eexists; by split].
    assert (Hrest : rest = []) by (apply Hr; simpl; lia). rewrite Hrest in Es.
    assert (Hk : (0 < cut d n)%nat) by (apply Z.ltb_lt in E; unfold cut; destruct (_ <? _); lia).
    destruct (read_ok (cut d n) (_session d)) as (b & s' & Er & Eb & O' & Hlb & Hbne); [done|].
    rewrite (bind_Done _ _ _ _ _ (on_fixed_session _ _ _ _ Er)). rewrite Es in Eb.
    symmetry in Eb. apply app_eq_nil in Eb as [-> Eb]. eexists. split; [reflexivity|].
    split; cbn; congruence.
Qed.

(** What was put went out, as far as the length allows. *)
Definition wrote (o : list Z) (len : Z) d (x : list Z) : Prop :=
  sent (_session d) = o ++ x /\ _length d = len /\ _count d = Z.of_nat (length x) /\ _count d <= len.

Definition full (o : list Z) (len : Z) d (x : list Z) : Prop :=
  sent (_session d) = o ++ take (Z.to_nat len) x /\ _length d = len /\ _count d = len /\ len < Z.of_nat (length x).

#[global] Instance fixed_writes `{!SendsAll S} o len : DeviceWrites writeToDevice BUFFER_SIZE (wrote o len) (full o len).
Proof.
  split.
  - intros d x buf (Es & El & Ec & Hle) (Hne & _). unfold writeToDevice. rewrite bind_get.
    assert (0 < length buf)%nat by (destruct buf; simpl; [done|lia]).
    destruct (_count d <? _length d) eqn:E.
    + destruct (write_ok (take (cut d (length buf)) buf) (_session d)) as (s' & Ew & Eo).
      rewrite (bind_Done _ _ _ _ _ (on_fixed_session _ _ _ _ Ew)).
      assert (Hc : length (take (cut d (length buf)) buf) = Nat.min (Z.to_nat (len - Z.of_nat (length x))) (length buf)).
      { rewrite length_take. unfold cut. destruct (_length d <? _) eqn:E1; lia. }
      rewrite (proj2 (Z.ltb_lt 0 _)) by lia. unfold add_count, modify. cbn. do 2 eexists. split; [reflexivity|].
      rewrite Hc. unfold wrote, full. cbn. rewrite Eo, Es.
      destruct (decide (len < Z.of_nat (length x) + Z.of_nat (length buf))) as [Ho|Ho]; [right|left].
      * split; [lia|]. intros l. rewrite <-app_assoc, take_app_ge, take_app_le by lia. unfold cut.
        rewrite (proj2 (Z.ltb_lt _ _)) by lia.
        split_and!; [by do 3 f_equal; lia|done|lia|rewrite !length_app; lia].
      * rewrite take_ge by (unfold cut; destruct (_length d <? _) eqn:E1; lia).
        rewrite <-app_assoc, length_app. split_and!; [lia|done|done|lia|lia].
    + do 2 eexists. split; [reflexivity|]. right. split; [lia|]. intros l.
      split_and!; [|done|lia|rewrite !length_app; lia].
      rewrite take_app_le, take_ge by lia. done.
  - intros d x buf (Es & El & Ec & Hl). unfold writeToDevice. rewrite bind_get.
    rewrite (proj2 (Z.ltb_ge _ _)) by lia. do 2 eexists. split; [reflexivity|]. done.
Qed.
End Code.
End Fixed.

(** ** The header stream *)
Module Header.
Import HeaderStream.
Section Code.
Context {S : Type} `{StreamSocketLaws S}.
Implicit Types (s : HTTPSession S) (d : HTTPHeaderStreamBuf S).

(** A line that is not the empty one and fits the buffer. *)
Definition a_line (l : list Z) : Prop :=
  exists body, l = body ++ [10] /\ Forall (fun c => is_byte c /\ c <> 10 /\ c <> 255) body
    /\ length l <> 2%nat /\ (length l <= BUFFER_SIZE - 4)%nat.

(** A block of header lines and the empty line. *)
Definition a_block (text : list Z) : Prop :=
  exists lines, Forall a_line lines /\ text = concat lines ++ [13; 10].

Lemma s8_char c : is_byte c -> c <> 10 -> c <> 255 -> s8 c <> 10 /\ s8 c <> -1 /\ u8 (s8 c) = c.
Proof. unfold is_byte, s8, u8, swrap. simpl. intros. split_and!; lia. Qed.

Lemma line_loop_ok n body : forall fuel acc e s r,
  e :: stream s = body ++ 10 :: r -> Forall (fun c => is_byte c /\ c <> 10 /\ c <> 255) body ->
  (length acc + length body < n)%nat -> (length body <= fuel)%nat ->
  exists s', left_with s s' r /\ line_loop fuel n acc (s8 e) s = (Done (acc ++ body, 10), s').
Proof.
  induction body as [|x body IH]; intros fuel acc e s r E Hb Hn Hf; cbn [app] in E; injection E as -> E.
  - exists s. rewrite app_nil_r. by destruct fuel.
  - apply Forall_cons_iff in Hb as [(H1 & H2 & H3) Hb]. destruct (s8_char x H1 H2 H3) as (K1 & K2 & K3).
    destruct fuel as [|fuel]; [simpl in Hf; lia|]. cbn [line_loop]. unfold eof.
    rewrite (proj2 (Z.eqb_neq _ _) K1), (proj2 (Z.eqb_neq _ _) K2), (proj2 (Nat.ltb_lt _ _)) by (simpl in Hn; lia).
    cbn [negb andb]. destruct (stream s) as [|c q] eqn:Eq; [by destruct body|].
    destruct (get_cons s c q Eq) as (s1 & [Q1 O1] & G). rewrite (bind_Done _ _ _ _ _ G), K3.
    destruct (IH fuel (acc ++ [x]) c s1 r) as (s' & [Q O'] & ->);
      [by rewrite Q1|done|rewrite length_app; simpl in *; lia|simpl in Hf; lia|].
    exists s'. rewrite <-app_assoc. split; [|done]. split; [done|congruence].
Qed.

Definition ahead (o rest : list Z) d (data : list Z) : Prop :=
  sent (_session d) = o /\ stream (_session d) = data ++ rest /\
  ((_end d = true /\ data = []) \/ (_end d = false /\ a_block data)).

Definition finished (o rest : list Z) d : Prop := stream (_session d) = rest /\ sent (_session d) = o.

Lemma on_header_session {A} (m : ST (HTTPSession S) A) d a s' :
  m (_session d) = (Done a, s') -> on_session m d = (Done a, {| _session := s'; _end := _end d |}).
Proof. intros E. unfold on_session. by rewrite E. Qed.

(** One line is read; the empty one ends the header. *)
Lemma read_line_ok n d body r :
  _end d = false -> stream (_session d) = body ++ 10 :: r -> (length body < n)%nat ->
  Forall (fun c => is_byte c /\ c <> 10 /\ c <> 255) body ->
  exists s', left_with (_session d) s' r
    /\ readFromDevice n d = (Done (Z.of_nat (length (body ++ [10])), body ++ [10]),
         {| _session := s'; _end := Nat.eqb (length (body ++ [10])) 2 |}).
Proof.
  intros He Es Hn Hb. unfold readFromDevice. rewrite bind_get, He.
  destruct (stream (_session d)) as [|c q] eqn:Eq; [by destruct body|].
  destruct (get_cons _ c q Eq) as (s1 & [Q1 O1] & G).
  rewrite (bind_Done _ _ _ _ _ (on_header_session _ _ _ _ G)).
  destruct (line_loop_ok n body n [] c s1 r) as (s2 & [Q2 O2] & L); [by rewrite Q1|done|simpl; lia|lia|].
  rewrite (bind_Done _ _ _ _ _ (on_header_session _ {| _session := s1; _end := _end d |} _ _ L)).
  cbn [fst snd app _session _end]. change (10 =? eof) with false. cbn [negb]. change (u8 10) with 10.
  exists s2. split; [split; [done|congruence]|]. rewrite He. unfold bind, modify, ret.
  by destruct (Nat.eqb (length (body ++ [10])) 2).
Qed.

#[global] Instance header_reads o rest :
  DeviceReads readFromDevice (BUFFER_SIZE - 4) (ahead o rest) (finished o rest).
Proof.
  split.
  - intros d data (_ & _ & [[_ ->]|[_ (lines & Hl & ->)]]); [constructor|]. apply Forall_app_2; [|by repeat constructor].
    apply Forall_concat. eapply Forall_impl; [exact Hl|]. intros l (body & -> & Hb & _).
    apply Forall_app_2; [|by repeat constructor]. eapply Forall_impl; [exact Hb|]. by intros c [? _].
  - intros d data (Ho & Es & [[_ ->]|[He (lines & Hl & Ed)]]) Hne; [done|].
    destruct Hl as [|l lines (body & -> & Hb & H2 & Hlen) Hl]; cbn [concat app] in Ed; subst data.
    + destruct (read_line_ok (BUFFER_SIZE - 4) d [13] rest) as (s' & [Q O'] & E);
        [done|done|unfold BUFFER_SIZE; simpl; lia|by repeat constructor|].
      exists [13; 10], []. eexists. split; [exact E|]. split; [done|]. split; [done|].
      split_and!; [cbn; congruence|done|by left].
    + rewrite <-!app_assoc in Es. cbn [app] in Es. rewrite length_app in Hlen. cbn [length] in Hlen.
      destruct (read_line_ok (BUFFER_SIZE - 4) d body _ He Es ltac:(lia) Hb) as (s' & [Q O'] & E).
      exists (body ++ [10]), (concat lines ++ [13; 10]). eexists. split; [exact E|].
      split; [by intros [_ [=]]%app_eq_nil|]. split; [by rewrite <-!app_assoc|].
      split_and!; [cbn; congruence|by rewrite <-app_assoc|right]. split; [by apply Nat.eqb_neq|]. by exists lines.
  - intros d (Ho & Es & [[He _]|[_ (lines & _ & E)]]); [|by destruct (concat lines)].
    unfold readFromDevice. rewrite bind_get, He. eexists. split; [reflexivity|]. by split.
Qed.
End Code.
End Header.
