(* ===== verification/HttpStreamClaims.v ===== *)
(** HTTP body streams: the round trip of the chunked transfer coding, the
    exactness of the fixed length stream, and what is read off any input. *)

From S2P Require Import Prelude Strings NumericString HttpStreams HttpStreamFacts.
From stdpp Require Import list.
Import Session.

Open Scope st_scope.
Local Open Scope Z_scope.

(** A socket whose peer sent the bytes in pieces. *)
Module Pieces.

Fixpoint receive (n : nat) (k : list (list Z)) : list Z * list (list Z) :=
  match k with
  | [] => ([], [])
  | [] :: k => receive n k
  | p :: k => (take n p, drop n p :: k)
  end.

#[global] Instance socket : StreamSocket (list (list Z)) := 
  {| receiveBytes := receive; incoming k := concat k; sendBytes bytes k := (Z.of_nat (length bytes), k) |}.

#[global] Instance socket_laws : StreamSocketLaws (list (list Z)).
Proof.
  intros n k. cbn [receiveBytes incoming socket]. induction k as [|[|x p] k IH]; cbn [receive fst snd].
  - split_and!; [done|simpl; lia|done].
  - exact IH.
  - cbn [concat]. rewrite app_assoc, take_drop, length_take. split_and!; [done|lia|].
    intros Hn _. by destruct n; [lia|].
Qed.

#[global] Instance socket_sends : SendsAll (list (list Z)).
Proof. done. Qed.
End Pieces.

Lemma some_room : (0 < BUFFER_SIZE)%nat.
Proof. unfold BUFFER_SIZE. lia. Qed.

(** ** The chunked stream *)
Module ChunkedStream.
Import Chunked.
Section Code.
Context {S : Type} `{StreamSocketLaws S}.
Implicit Types (s : HTTPSession S) (b : Buffered.streambuf (HTTPChunkedStreamBuf S)).

Definition session_of b : HTTPSession S := _session (Buffered.device b).
Definition open s : Buffered.streambuf (HTTPChunkedStreamBuf S) := Buffered.construct (construct s).

(** The body is put and the stream is closed. *)
Definition put_all (l : list Z) : ST (Buffered.streambuf (HTTPChunkedStreamBuf S)) nat :=
  let* n := put_bytes l in
  do* close;
  ret n.

Lemma framed_read s text data rest n :
  framed text data -> stream s = text ++ rest ->
  exists b, get_bytes n (open s) = (Done (take n data), b)
    /\ sent (session_of b) = sent s /\ ((length data < n)%nat -> stream (session_of b) = rest).
Proof.
  intros Hf Es. unfold get_bytes.
  assert (Hh : Reading.holds (ahead := ChunkedReads.ahead (sent s) rest) (open s) data).
  { apply Reading.construct_holds. split; [done|]. left. split; [done|].
    exists [], text. split_and!; [by left|done|done]. }
  destruct (decide (length data < n)%nat) as [Hn|Hn].
  - destruct (Reading.xsgetn_all BUFFER_SIZE n _ _ Hh Hn) as (b & E & [Hr Ho] & _).
    exists b. rewrite take_ge by lia. done.
  - destruct (Reading.xsgetn_some BUFFER_SIZE n _ _ Hh ltac:(lia)) as (b & E & rest' & [Ho _] & _).
    exists b. done.
Qed.

Lemma put_all_framed `{!SendsAll S} s l :
  Forall is_byte l -> exists b text, put_all l (open s) = (Done (length l), b)
    /\ sent (session_of b) = sent s ++ text /\ framed text l.
Proof.
  intros Hl. unfold put_all, put_bytes.
  assert (Ht : Writing.took (wrote := ChunkedWrites.wrote (sent s)) BUFFER_SIZE (open s) []).
  { apply Writing.construct_took; [exact some_room|]. exists []. by rewrite app_nil_r. }
  destruct (Writing.xsputn_ok BUFFER_SIZE some_room l _ _ Hl Ht)
    as (k & b1 & E1 & [[-> Hb1]|[]]).
  rewrite (bind_Done _ _ _ _ _ E1). unfold close.
  destruct (Writing.sync_ok BUFFER_SIZE some_room _ _ Hb1) as (r & b2 & E2 & [(-> & (text & Es & Hf) & _)|[_ []]]).
  rewrite bind_bind, (bind_Done _ _ _ _ _ E2), bind_bind.
  destruct (write_ok (str "0" ++ [13; 10; 13; 10]) (_session (Buffered.device b2))) as (s' & Ew & Eo).
  unfold Buffered.on_device, on_session at 1, bind at 1. rewrite Ew.
  eexists _, (text ++ str "0" ++ [13; 10; 13; 10]). split; [reflexivity|].
  split; [cbn [session_of Buffered.device _session]; by rewrite Eo, Es, <-app_assoc|]. rewrite <-(app_nil_r l). apply Hf.
  apply (framed_last (str "0") []); [|by repeat constructor]. exists [0].
  split_and!; [|done..]. split_and!; [by repeat constructor|done|by left].
Qed.

(** *** Any input *)

(** [s'] is later on the connection than [s]. *)
Definition later s s' : Prop := (exists l, stream s = l ++ stream s') /\ sent s' = sent s.

Lemma later_trans s1 s2 s3 : later s1 s2 -> later s2 s3 -> later s1 s3.
Proof. intros [[l E1] E] [[l' E2] E']. split; [exists (l ++ l'); by rewrite E1, E2, <-app_assoc|congruence]. Qed.

Lemma later_refl s : later s s.
Proof. split; [by exists []|done]. Qed.

Lemma later_length s s' : later s s' -> (length (stream s') <= length (stream s))%nat.
Proof. intros [[l E] _]. rewrite E, length_app. lia. Qed.

Lemma get_total s :
  exists c s', get_char s = (Done c, s') /\ later s s'
    /\ (c = eof \/ (length (stream s') < length (stream s))%nat).
Proof.
  destruct (get_ok s) as (s' & [Q O'] & E). do 2 eexists. split; [exact E|].
  destruct (stream s) as [|c q] eqn:Eq; cbn [tail] in Q.
  - split; [|by left]. split; [exists []; by rewrite Eq, Q|done].
  - split; [split; [exists [c]; by rewrite Eq, Q|done]|right; rewrite Q; simpl; lia].
Qed.

Lemma skip_total more fuel : more eof = false -> forall ch s,
  (length (stream s) < fuel)%nat -> exists c s', skip more fuel ch s = (Done c, s') /\ later s s'.
Proof.
  intros He. induction fuel as [|fuel IH]; intros ch s Hf; [lia|]. cbn [skip].
  destruct (more ch); [|exists ch, s; split; [done|apply later_refl]].
  destruct (get_total s) as (c & s1 & G & Hl & Hc). rewrite (bind_Done _ _ _ _ _ G).
  destruct Hc as [-> |Hlt]; [rewrite skip_stop by done; eauto|].
  destruct (IH c s1) as (c' & s' & E & Hl'); [lia|]. eauto using later_trans.
Qed.

Lemma collect_total more fuel : more eof = false -> forall acc ch s,
  (length (stream s) < fuel)%nat -> exists lc s', collect more fuel acc ch s = (Done lc, s') /\ later s s'.
Proof.
  intros He. induction fuel as [|fuel IH]; intros acc ch s Hf; [lia|]. cbn [collect].
  destruct (more ch); [|exists (acc, ch), s; split; [done|apply later_refl]].
  destruct (get_total s) as (c & s1 & G & Hl & Hc). rewrite (bind_Done _ _ _ _ _ G).
  destruct Hc as [-> |Hlt]; [rewrite collect_stop by done; eauto|].
  destruct (IH (acc ++ [u8 ch]) c s1) as (c' & s' & E & Hl'); [lia|]. eauto using later_trans.
Qed.

Lemma session_skip_all_total more ch s :
  more eof = false -> exists c s', skip_all more ch s = (Done c, s') /\ later s s'.
Proof. intros He. apply skip_total; [done|lia]. Qed.

Lemma session_collect_all_total more ch s :
  more eof = false -> exists lc s', collect_all more ch s = (Done lc, s') /\ later s s'.
Proof. intros He. apply collect_total; [done|lia]. Qed.

Lemma read_length_total s : exists t s', read_length s = (Done t, s') /\ later s s'.
Proof.
  unfold read_length. destruct (get_total s) as (c & s1 & G & L1 & _). rewrite (bind_Done _ _ _ _ _ G).
  destruct (session_skip_all_total Ascii.isSpace c s1) as (c2 & s2 & E2 & L2); [done|]. rewrite (bind_Done _ _ _ _ _ E2).
  destruct (session_collect_all_total Ascii.isHexDigit c2 s2) as (lc & s3 & E3 & L3); [done|].
  rewrite (bind_Done _ _ _ _ _ E3).
  destruct (session_skip_all_total to_newline (snd lc) s3) as (c4 & s4 & E4 & L4); [done|].
  rewrite (bind_Done _ _ _ _ _ E4). do 2 eexists. split; [reflexivity|]. eauto using later_trans.
Qed.

(** Unsigned arithmetic wraps around: parsing hexadecimal digits always returns. *)
Lemma hex_loop_total t : forall state v, exists o, strToInt_loop UInt32 16 (chr ",") state v t = Done o.
Proof.
  induction t as [|c t IH]; intros state v; cbn [strToInt_loop]; [eauto|].
  assert (D : forall d, exists o, (if v >? imax UInt32 / 16 then Done None
    else let? w := arith UInt32 (v * 16 + d) in strToInt_loop UInt32 16 (chr ",") true w t)%res = Done o).
  { intros d. destruct (v >? _); [eauto|]. unfold arith. destruct (_ && _); cbn [rbind]; [apply IH|].
    change (imin UInt32 <? 0) with false. apply IH. }
  repeat match goal with
  | |- exists o, (if ?c then _ else _) = _ => destruct c
  | |- exists o, Done _ = Done o => eauto
  | |- _ => apply IH || apply D
  end.
Qed.

Lemma tryParseHex_total t : exists o, Parser.tryParseHex t = Done o.
Proof.
  unfold Parser.tryParseHex, strToInt. destruct (skip_space (c_str t)) as [|c r]; [eauto|].
  change (Parser.NUM_BASE_HEX =? 10) with false. cbn [andb]. cbv zeta.
  destruct (hex_loop_total (if c =? chr "+" then r else c :: r) false 0) as [o E].
  change Parser.NUM_BASE_HEX with 16. rewrite E. cbn [rbind]. destruct o; eauto.
Qed.

(** What one call hands out comes next on the connection, in front of what is left. *)
Definition hands_out (d d' : HTTPChunkedStreamBuf S) (bytes : list Z) : Prop :=
  exists l, stream (_session d) = l ++ bytes ++ stream (_session d') /\ sent (_session d') = sent (_session d).

Lemma later_hands_out s s' d d' bytes :
  later s s' -> _session d = s' -> hands_out d d' bytes -> hands_out {| _session := s; _chunk := 0 |} d' bytes.
Proof.
  intros [[l E] Eo] <- (l' & E' & Eo'). exists (l ++ l'). cbn. split; [|congruence].
  by rewrite E, E', <-app_assoc.
Qed.

Lemma read_chunk_total n d :
  (0 < n)%nat -> exists bytes d', read_chunk n d = (Done (Z.of_nat (length bytes), bytes), d') /\ hands_out d d' bytes.
Proof.
  intros Hn. unfold read_chunk. rewrite bind_get. destruct (0 <? _chunk d) eqn:E.
  - set (k := if _chunk d <? Z.of_nat n then Z.to_nat (_chunk d) else n).
    assert (Hk : (0 < k)%nat) by (subst k; destruct (_ <? Z.of_nat n); lia).
    destruct (read_ok k (_session d) Hk) as (b & s' & Er & Eb & Eo & _).
    rewrite (bind_Done _ _ _ _ _ (ChunkedReads.on_session_ok _ _ _ _ Er)).
    exists b. destruct (0 <? Z.of_nat (length b)); eexists; (split; [reflexivity|]); exists []; done.
  - destruct (get_total (_session d)) as (c & s1 & G & L1 & _).
    rewrite (bind_Done _ _ _ _ _ (ChunkedReads.on_session_ok _ _ _ _ G)).
    destruct (session_skip_all_total to_newline c s1) as (c2 & s2 & E2 & L2); [done|].
    rewrite (bind_Done _ _ _ _ _ (ChunkedReads.on_session_ok _ {| _session := s1; _chunk := _chunk d |} _ _ E2)).
    exists []. eexists. split; [reflexivity|]. destruct (later_trans _ _ _ L1 L2) as [[l El] Eo].
    by exists l.
Qed.

Lemma readFromDevice_total n d :
  (0 < n)%nat -> exists r bytes d', readFromDevice n d = (Done (r, bytes), d')
    /\ hands_out d d' bytes /\ (0 < r -> bytes <> []) /\ (r <= 0 -> bytes = []).
Proof.
  intros Hn. unfold readFromDevice. rewrite bind_get.
  assert (K : forall d, exists r bytes d', read_chunk n d = (Done (r, bytes), d')
    /\ hands_out d d' bytes /\ (0 < r -> bytes <> []) /\ (r <= 0 -> bytes = [])).
  { intros d1. destruct (read_chunk_total n d1 Hn) as (bytes & d' & E & Hh). do 3 eexists.
    split; [exact E|]. split; [done|]. destruct bytes; simpl; split; intros; done || lia. }
  destruct (_chunk d =? 0) eqn:Ec; [|apply K].
  destruct (read_length_total (_session d)) as (t & s1 & E1 & L1).
  rewrite (bind_Done _ _ _ _ _ (ChunkedReads.on_session_ok _ _ _ _ E1)).
  destruct (tryParseHex_total t) as [o Eo]. unfold bind at 1, lift. rewrite Eo. destruct o as [v|].
  - unfold set_chunk. rewrite bind_modify. destruct (K {| _session := s1; _chunk := v |}) as (r & b & d' & E & Hh & Hr).
    do 3 eexists. split; [exact E|]. split; [|done]. apply (later_hands_out _ _ _ d' b L1) in Hh; [|done]. exact Hh.
  - exists eof, []. eexists. split; [reflexivity|]. split; [|done]. destruct L1 as [[l El] Ho]. by exists l.
Qed.

(** Everything that is still to come through the stream, on the connection or buffered. *)
Definition to_come b : list Z := Buffered.gbuf b ++ stream (session_of b).

Lemma sbumpc_total b :
  exists c b', Buffered.sbumpc BUFFER_SIZE readFromDevice b = (Done c, b')
    /\ sent (session_of b') = sent (session_of b)
    /\ exists l, to_come b = l ++ (if c =? eof then [] else [c]) ++ to_come b'.
Proof.
  unfold Buffered.sbumpc, Buffered.underflow. rewrite bind_bind, bind_get. unfold to_come, session_of.
  destruct (Buffered.gbuf b) as [|x g] eqn:G.
  - rewrite bind_bind.
    destruct (readFromDevice_total (BUFFER_SIZE - 4) (Buffered.device b) buffer_some)
      as (r & bytes & d' & E & (l & El & Eo) & Hr & Hr'). unfold Buffered.on_device, bind at 1. rewrite E. cbn [fst snd].
    destruct (r <=? 0) eqn:Er.
    + rewrite bind_ret, Z.eqb_refl. do 2 eexists. split; [reflexivity|]. split; [done|]. exists l. cbn.
      by rewrite El, Hr', G by lia.
    + destruct bytes as [|x bytes]; [by destruct Hr; [lia|]|]. unfold Buffered.set_gbuf.
      rewrite bind_bind, bind_modify, bind_ret. destruct (x =? eof) eqn:Ex; rewrite ?bind_get, ?bind_modify;
        do 2 eexists; (split; [reflexivity|]); (split; [done|]); exists l; cbn; rewrite El, ?Ex, ?Z.eqb_refl; done.
  - rewrite bind_ret. destruct (x =? eof) eqn:Ex; rewrite ?bind_get; unfold Buffered.set_gbuf; rewrite ?bind_modify.
    + do 2 eexists. split; [reflexivity|]. split; [done|]. exists []. by rewrite G.
    + do 2 eexists. split; [reflexivity|]. split; [done|]. exists []. cbn. by rewrite Ex, G.
Qed.

Lemma xsgetn_total n : forall b,
  exists l b', Buffered.xsgetn BUFFER_SIZE readFromDevice n b = (Done l, b') /\ (length l <= n)%nat
    /\ sent (session_of b') = sent (session_of b)
    /\ exists skipped, sublist l skipped /\ to_come b = skipped ++ to_come b'.
Proof.
  induction n as [|n IH]; intros b; cbn [Buffered.xsgetn].
  - exists [], b. split_and!; [done..|]. by exists [].
  - destruct (sbumpc_total b) as (c & b1 & E & Ho & q & Eq). rewrite (bind_Done _ _ _ _ _ E).
    destruct (c =? eof).
    + exists [], b1. split_and!; [done|simpl; lia|done|]. exists q. split; [apply sublist_nil_l|done].
    + destruct (IH b1) as (l & b2 & E2 & Hl & Ho2 & q2 & Hq2 & Eq2). rewrite (bind_Done _ _ _ _ _ E2).
      exists (c :: l), b2. split_and!; [done|simpl; lia|congruence|]. exists (q ++ c :: q2).
      split; [|by rewrite Eq, Eq2, <-app_assoc]. by apply sublist_inserts_l, sublist_skip.
Qed.

(** C16: What a chunked output stream sends for a body, closed at the end, over a
    socket that sends all it is given in each call ([SendsAll]; the stream does
    not look at the number of bytes sent, see [chunked_partial_send]), is read
    back by a chunked input stream of a session that has it ahead, however the
    socket there cuts it into pieces and whatever follows on the connection: the
    reader gets the body, then the end of the stream, and the session is left at
    the first byte behind the message. *)
Theorem chunked_roundtrip `{!SendsAll S} s l :
  Forall is_byte l ->
  exists b text, put_all l (open s) = (Done (length l), b) /\ sent (session_of b) = sent s ++ text /\
    forall s' rest, stream s' = text ++ rest ->
      exists b', get_bytes (Datatypes.S (length l)) (open s') = (Done l, b')
        /\ stream (session_of b') = rest /\ sent (session_of b') = sent s'.
Proof.
  intros Hl. destruct (put_all_framed s l Hl) as (b & text & E & Es & Hf).
  exists b, text. split; [done|]. split; [done|]. intros s' rest Hs.
  destruct (framed_read s' text l rest (Datatypes.S (length l)) Hf Hs) as (b' & E' & Ho & Hr).
  exists b'. rewrite E', take_ge by lia. split; [done|]. split; [apply Hr; lia|done].
Qed.

(** A chunked input stream reads every body that RFC 2616 frames in chunks,
    extensions behind the lengths included: [n] characters asked for are the
    next [n] of the body, as many as there are, nothing is sent, and when the
    end was seen the session stands behind the last chunk. *)
Theorem chunked_reads_frames s text data rest n :
  framed text data -> stream s = text ++ rest ->
  exists b, get_bytes n (open s) = (Done (take n data), b)
    /\ sent (session_of b) = sent s /\ ((length data < n)%nat -> stream (session_of b) = rest).
Proof. apply framed_read. Qed.

(** C23: Reading a chunked stream always ends, whatever the peer sends, chunked or
    not: asked for [n] characters it returns at most [n], each of them sent by
    the peer, in that order; what is then left is the end of what the peer
    sends, and nothing was written to the connection. *)
Theorem chunked_read_total s n :
  exists l b, get_bytes n (open s) = (Done l, b) /\ (length l <= n)%nat
    /\ sent (session_of b) = sent s
    /\ exists skipped, sublist l skipped /\ stream s = skipped ++ to_come b.
Proof. exact (xsgetn_total n (open s)). Qed.
End Code.

Definition a_session (k : list (list Z)) : HTTPSession (list (list Z)) := Session.construct k.

(** Two messages on a connection, in three pieces. *)
Lemma chunked_roundtrip_witness :
  Forall is_byte (str "hello")
  /\ exists b text, put_all (str "hello") (open (a_session [])) = (Done 5%nat, b) /\ sent (session_of b) = [] ++ text
    /\ text = str "5" ++ [13; 10] ++ str "hello" ++ [13; 10] ++ str "0" ++ [13; 10; 13; 10]
    /\ exists b', get_bytes 6 (open (a_session [take 2 text; drop 2 text; str "GET"])) = (Done (str "hello"), b')
      /\ stream (session_of b') = str "GET" /\ sent (session_of b') = [].
Proof.
  assert (Hl : Forall is_byte (str "hello")) by apply str_bytes. split; [exact Hl|].
  destruct (chunked_roundtrip (a_session []) (str "hello") Hl) as (b & text & E & Es & H).
  exists b, text. split; [exact E|]. split; [exact Es|].
  assert (Et : text = str "5" ++ [13; 10] ++ str "hello" ++ [13; 10] ++ str "0" ++ [13; 10; 13; 10]).
  { change (sent (session_of b) = text) in Es. rewrite <-Es.
    apply (f_equal (fun r => sent (session_of (snd r)))) in E. cbn [snd] in E. rewrite <-E. by vm_compute. }
  split; [exact Et|]. apply (H (a_session [take 2 text; drop 2 text; str "GET"]) (str "GET")). by rewrite Et.
Defined.

Lemma chunked_reads_frames_witness :
  exists b, get_bytes 9 (open (a_session [str "3;x=y" ++ [13; 10] ++ str "abc" ++ [13; 10] ++ str "0";
      [13; 10; 13; 10] ++ str "HTTP/1.1"])) = (Done (str "abc"), b)
    /\ sent (session_of b) = [] /\ ((3 < 9)%nat -> stream (session_of b) = str "HTTP/1.1").
Proof.
  refine (chunked_reads_frames (a_session _) (str "3" ++ str ";x=y" ++ 13 :: 10 :: str "abc" ++ 13 :: 10 ::
    (str "0" ++ [] ++ [13; 10; 13; 10])) (str "abc" ++ []) (str "HTTP/1.1") 9 _ _); [|by vm_compute].
  apply framed_chunk; [exists [3]| |done|done|by repeat constructor|].
  - split_and!; [|done..]. split_and!; [by repeat constructor|done|by right].
  - split; [by repeat constructor|done].
  - apply framed_last; [|by repeat constructor]. exists [0].
    split_and!; [|done..]. split_and!; [by repeat constructor|done|by left].
Defined.

(** A length that is no number: the stream ends at once. *)
Lemma chunked_read_total_witness :
  exists l b, get_bytes 3 (open (a_session [str "zz" ++ [13; 10] ++ str "abc"])) = (Done l, b) /\ (length l <= 3)%nat
    /\ sent (session_of b) = []
    /\ exists skipped, sublist l skipped /\ str "zz" ++ [13; 10] ++ str "abc" = skipped ++ to_come b.
Proof. exact (chunked_read_total (a_session [str "zz" ++ [13; 10] ++ str "abc"]) 3). Defined.

(** A socket that takes at most four bytes at a time, as sendBytes may. *)
#[local] Instance slow : StreamSocket unit :=
  {| receiveBytes n k := ([], k); incoming k := []; sendBytes bytes k := (Z.min 4 (Z.of_nat (length bytes)), k) |}.

(** HTTPChunkedStreamBuf::writeToDevice and close do not look at what
    HTTPSession::write returns: over such a socket the stream takes the body and
    a part of it is never sent. *)
Example chunked_partial_send :
  let (r, b) := put_all (str "hello") (open (Session.construct tt)) in
  r = Done 5%nat /\ sent (session_of b) = str "5" ++ [13; 10] ++ str "h" ++ str "0" ++ [13; 10; 13].
Proof. by vm_compute. Qed.

(** Asked again after the end, the stream goes on into the next message. *)
Example chunked_reads_past_end :
  let b := snd (get_bytes 1 (open (a_session [str "0" ++ [13; 10; 13; 10] ++ str "GET / HTTP/1.1" ++ [13; 10]]))) in
  stream (session_of b) = str "GET / HTTP/1.1" ++ [13; 10]
  /\ stream (session_of (snd (get_bytes 1 b))) = [].
Proof. by vm_compute. Qed.

(** Trailers behind the last chunk are left on the connection. *)
Example chunked_leaves_trailers :
  let (r, b) := get_bytes 2 (open (a_session [str "1" ++ [13; 10] ++ str "a" ++ [13; 10]
    ++ str "0" ++ [13; 10] ++ str "X: y" ++ [13; 10; 13; 10]])) in
  r = Done (str "a") /\ stream (session_of b) = [13; 10].
Proof. by vm_compute. Qed.
End ChunkedStream.

(** ** The fixed length stream *)
Module FixedStream.
Import FixedLength.
Section Code.
Context {S : Type} `{StreamSocketLaws S}.
Implicit Types (s : HTTPSession S) (b : Buffered.streambuf (HTTPFixedLengthStreamBuf S)).

Definition session_of b : HTTPSession S := _session (Buffered.device b).
Definition open s (length : Z) : Buffered.streambuf (HTTPFixedLengthStreamBuf S) :=
  Buffered.construct (construct s length).

(** The body is put and the stream is flushed, as its destructor does. *)
Definition put_all (l : list Z) : ST (Buffered.streambuf (HTTPFixedLengthStreamBuf S)) nat :=
  let* n := put_bytes l in
  let* _r := Buffered.sync writeToDevice in
  ret n.

Lemma fixed_ahead s len :
  Forall is_byte (stream s) -> 0 <= len ->
  Fixed.ahead (sent s) (drop (Z.to_nat len) (stream s)) (construct s len) (take (Z.to_nat len) (stream s)).
Proof.
  intros Hb Hl. unfold Fixed.ahead. cbn. rewrite take_drop, length_take.
  split_and!; [done|done|by apply Forall_take|lia|]. intros. apply drop_ge. lia.
Qed.

(** A fixed length input stream gives the next [len] bytes of the connection
    and no more, however the socket cuts them: [n] characters asked for are the
    first [n] of these, and once the end was seen the connection stands exactly
    behind them.  Over a socket that sends all it is given, a fixed length
    output stream that is given [l] and flushed sends the first [len] bytes of [l], all of it when it is no longer, and
    then it took all of it. *)
Theorem fixed_length_exact `{!SendsAll S} s len l n :
  Forall is_byte (stream s) -> Forall is_byte l -> 0 <= len ->
  (exists b, get_bytes n (open s len) = (Done (take n (take (Z.to_nat len) (stream s))), b)
    /\ sent (session_of b) = sent s
    /\ (len < Z.of_nat n -> stream (session_of b) = drop (Z.to_nat len) (stream s)))
  /\ exists k b, put_all l (open s len) = (Done k, b)
    /\ sent (session_of b) = sent s ++ take (Z.to_nat len) l
    /\ (Z.of_nat (length l) <= len -> k = length l).
Proof.
  intros Hs Hl Hlen. split.
  - pose proof (Reading.construct_holds _ _ (fixed_ahead s len Hs Hlen)) as Hh. unfold get_bytes, open.
    destruct (decide (length (take (Z.to_nat len) (stream s)) < n)%nat) as [Hn|Hn].
    + destruct (Reading.xsgetn_all BUFFER_SIZE n _ _ Hh Hn) as (b & E & [Hr Ho] & _).
      exists b. rewrite (take_ge (take _ _)) by lia. done.
    + destruct (Reading.xsgetn_some BUFFER_SIZE n _ _ Hh ltac:(lia)) as (b & E & rest' & (Ho & Es & _) & _ & Ed).
      exists b. split; [done|]. split; [done|]. rewrite length_take in Hn. intros Hlt.
      destruct (decide (length (stream s) < n)%nat); lia.
  - assert (Ht : Writing.took (wrote := Fixed.wrote (sent s) len) BUFFER_SIZE (open s len) []).
    { apply Writing.construct_took; [exact some_room|]. split_and!; cbn; by rewrite ?app_nil_r. }
    unfold put_all, put_bytes.
    destruct (Writing.xsputn_ok BUFFER_SIZE some_room l _ _ Hl Ht) as (k & b1 & E1 & Hb1).
    rewrite (bind_Done _ _ _ _ _ E1). destruct Hb1 as [[-> Hb1]|Hb1].
    + destruct (Writing.sync_ok BUFFER_SIZE some_room _ _ Hb1) as (r & b2 & E2 & Hb2).
      rewrite (bind_Done _ _ _ _ _ E2). do 2 eexists. split; [reflexivity|]. split; [|done].
      destruct Hb2 as [(_ & (Eo & El & Ec & Hle) & _)|[_ (Eo & _)]]; unfold session_of; rewrite Eo; [|done].
      cbn in *. by rewrite take_ge by lia.
    + destruct (Writing.sync_overrun BUFFER_SIZE b1 _ Hb1) as (r & b2 & E2 & (Eo & _ & _ & Hlt)).
      rewrite (bind_Done _ _ _ _ _ E2). do 2 eexists. split; [reflexivity|]. split; [exact Eo|].
      cbn in Hlt. lia.
Qed.
End Code.

Definition bodies : list (list Z) := [str "Hel"; str "loGET"].

Lemma fixed_length_exact_witness :
  (exists b, get_bytes 9 (open (Session.construct bodies) 5) = (Done (str "Hello"), b)
    /\ sent (session_of b) = [] /\ (5 < 9 -> stream (session_of b) = str "GET"))
  /\ exists k b, put_all (str "answer") (open (Session.construct bodies) 5) = (Done k, b)
    /\ sent (session_of b) = str "answe" /\ (6 <= 5 -> k = 6%nat).
Proof.
  refine (fixed_length_exact (Session.construct bodies) 5 (str "answer") 9 _ _ _); [|apply str_bytes|lia].
  apply bytes_Forall. by vm_compute.
Defined.
End FixedStream.

(** ** The header stream *)
Module HeaderText.
Import HeaderStream.
Section Code.
Context {S : Type} `{StreamSocketLaws S}.

Definition session_of (b : Buffered.streambuf (HTTPHeaderStreamBuf S)) : HTTPSession S :=
  _session (Buffered.device b).
Definition open (s : HTTPSession S) : Buffered.streambuf (HTTPHeaderStreamBuf S) :=
  Buffered.construct (construct s).

(** A header stream gives the lines up to the empty one and nothing of the body. *)
Theorem header_stream_exact s text rest n :
  Header.a_block text -> stream s = text ++ rest -> (length text < n)%nat ->
  exists b, get_bytes n (open s) = (Done text, b) /\ stream (session_of b) = rest.
Proof.
  intros Hb Es Hn. unfold get_bytes.
  assert (Hh : Reading.holds (ahead := Header.ahead (sent s) rest) (open s) text).
  { apply Reading.construct_holds. split_and!; [done..|]. by right. }
  destruct (Reading.xsgetn_all BUFFER_SIZE n _ _ Hh Hn) as (b & E & [Hr Ho] & _). by exists b.
Qed.
End Code.

(** Any line of two characters ends the header. *)
Example header_stream_short_line :
  let (r, b) := get_bytes 64 (open (Session.construct [str "a" ++ [10] ++ str "Host: x" ++ [13; 10; 13; 10]])) in
  r = Done (str "a" ++ [10]) /\ stream (session_of b) = str "Host: x" ++ [13; 10; 13; 10].
Proof. by vm_compute. Qed.
End HeaderText.

(** ** Smaller facts *)

(** A byte 0xFF is taken for the end of the stream by [get]. *)
Example session_get_ff :
  fst (get_char (Session.construct [[255; 65]])) = Done eof
  /\ fst (get_char (Session.construct [[65]])) = Done 65.
Proof. by vm_compute. Qed.

(** After a flush that failed the buffer is full, and the next character is
    written behind its end. *)
Example overflow_after_failed_flush :
  let b := snd (Buffered.xsputn 4 (fun _ => ret 0) (str "abcd") (Buffered.construct tt)) in
  Buffered.pbuf b = str "abcd" /\ fst (Buffered.sputc 4 (fun _ => ret 0) 101 b) = UB.
Proof. by vm_compute. Qed.
