(* ===== verification/Config.v ===== *)
(** The configurations of POCO Util: AbstractConfiguration.cpp over any storage
    of raw properties, MapConfiguration.cpp, PropertyFileConfiguration.cpp,
    IniFileConfiguration.cpp, LayeredConfiguration.cpp and
    ConfigurationView.cpp.

    Keys and values are strings.  The configurations a layered one or a view
    refers to are kept in a heap, under their addresses, because they are
    shared.  The delegates of the events are a parameter: what they do to their
    own state, and whether they throw. *)

From S2P Require Import Prelude Strings NumericString Headers.
From stdpp Require Import gmap.

Open Scope st_scope.
Local Open Scope Z_scope.
Import IStream.

(** ** std::map with string keys, as its entries in order *)
Module StringMap.
Section Map.
Context (less : list Z -> list Z -> bool).
Abbreviation map := (list (list Z * list Z)).

(** [find]: the first entry that is not less, if the key is not less than it. *)
Fixpoint find (k : list Z) (m : map) : option (list Z) :=
  match m with
  | [] => None
  | (k', v) :: r => if less k' k then find k r else if less k k' then None else Some v
  end.

(** [m[k] = v]: a key that is there stays as it is. *)
Fixpoint assign (k v : list Z) (m : map) : map :=
  match m with
  | [] => [(k, v)]
  | (k', v') :: r =>
      if less k' k then (k', v') :: assign k v r
      else if less k k' then (k, v) :: m
      else (k', v) :: r
  end.
End Map.

(** [operator <] of std::string *)
Fixpoint str_less (a b : list Z) : bool :=
  match a, b with
  | _, [] => false
  | [], _ :: _ => true
  | x :: a, y :: b => if x <? y then true else if y <? x then false else str_less a b
  end.
End StringMap.

Abbreviation string_map := (list (list Z * list Z)).

(** ** The virtual functions of AbstractConfiguration *)
Class Configuration (C : Type) := {
  getRaw : list Z -> C -> res (option (list Z));
  setRaw : list Z -> list Z -> ST C unit;
  removeRaw : list Z -> ST C unit;
  enumerate : list Z -> C -> res (list (list Z))
}.

(** ** AbstractConfiguration *)
Module Abstract.

Inductive event :=
| propertyChanging (key value : list Z)
| propertyChanged (key value : list Z)
| propertyRemoving (key : list Z)
| propertyRemoved (key : list Z).

Section Code.
Context {C : Type} `{Configuration C}.

Record AbstractConfiguration := { raw : C; _depth : Z; _eventsEnabled : bool }.

Definition construct (c : C) : AbstractConfiguration := {| raw := c; _depth := 0; _eventsEnabled := true |}.
Definition set_depth (n : Z) (s : AbstractConfiguration) : AbstractConfiguration :=
  {| raw := raw s; _depth := n; _eventsEnabled := _eventsEnabled s |}.
Definition enableEvents (enable : bool) (s : AbstractConfiguration) : AbstractConfiguration :=
  {| raw := raw s; _depth := _depth s; _eventsEnabled := enable |}.

Definition raw_of (key : list Z) : ST AbstractConfiguration (option (list Z)) :=
  let* s := get in lift (getRaw key (raw s)).

(** [AutoCounter counter(_depth)]: the destructor runs on every way out. *)
Definition AutoCounter {A} (m : ST AbstractConfiguration A) : ST AbstractConfiguration A := fun s =>
  let (r, s') := m (set_depth (_depth s + 1) s) in (r, set_depth (_depth s' - 1) s').

(** The loop of uncheckedExpand, at [it] with [result] so far. *)
Fixpoint expand_loop (internalExpand : list Z -> ST AbstractConfiguration (list Z)) (fuel : nat) (it result : list Z) :
    ST AbstractConfiguration (list Z) :=
  match it with
  | [] => ret result
  | c :: it =>
      match fuel with
      | O => undef
      | S fuel =>
          if c =? chr "$" then
            match it with
            | d :: it' =>
                if d =? chr "{" then
                  let (prop, it) := span (fun x => negb (x =? chr "}")) it' in
                  let it := tail it in
                  let* value := raw_of prop in
                  match value with
                  | Some value =>
                      let* e := internalExpand value in
                      expand_loop internalExpand fuel it (result ++ e)
                  | None => expand_loop internalExpand fuel it (result ++ str "${" ++ prop ++ str "}")
                  end
                else expand_loop internalExpand fuel it (result ++ [chr "$"])
            | [] => expand_loop internalExpand fuel it (result ++ [chr "$"])
            end
          else expand_loop internalExpand fuel it (result ++ [c])
      end
  end.

Definition uncheckedExpand (internalExpand : list Z -> ST AbstractConfiguration (list Z)) (value : list Z) :
    ST AbstractConfiguration (list Z) :=
  expand_loop internalExpand (length value) value [].

Fixpoint internalExpand_fuel (fuel : nat) (value : list Z) : ST AbstractConfiguration (list Z) :=
  AutoCounter (
    let* s := get in
    if 10 <? _depth s then throw CircularReferenceException
    else match fuel with
    | O => undef
    | S fuel => uncheckedExpand (internalExpand_fuel fuel) value
    end).

(** A call at depth [_depth] nests until the depth is 11. *)
Definition internalExpand (value : list Z) : ST AbstractConfiguration (list Z) :=
  let* s := get in internalExpand_fuel (Z.to_nat (11 - _depth s)) value.

Definition expand (value : list Z) : ST AbstractConfiguration (list Z) := internalExpand value.

Definition hasProperty (key : list Z) : ST AbstractConfiguration bool :=
  let* v := raw_of key in ret (match v with Some _ => true | None => false end).

(** The readers differ in what they do with the value and with no value. *)
Definition get_with {A} (convert : list Z -> ST AbstractConfiguration A) (none : ST AbstractConfiguration A)
    (key : list Z) : ST AbstractConfiguration A :=
  let* v := raw_of key in
  match v with Some v => convert v | None => none end.

Definition expand_then {A} (parse : list Z -> res A) (v : list Z) : ST AbstractConfiguration A :=
  let* t := internalExpand v in lift (parse t).

(** [parseInt], [parseInt64], ...: hexadecimal behind "0x". *)
Definition is_hex (value : list Z) : bool := eqb_str (take 2 value) (str "0x") || eqb_str (take 2 value) (str "0X").

Definition parseInt (value : list Z) : res Z :=
  if is_hex value then let? n := Parser.parseHex value in Done (s32 n) else Parser.parse value (chr ",").
Definition parseUInt (value : list Z) : res Z :=
  if is_hex value then let? n := Parser.parseHex value in Done (s32 n)
  else let? n := Parser.parseUnsigned value (chr ",") in Done (s32 n).
Definition parseInt64 (value : list Z) : res Z :=
  if is_hex value then let? n := Parser.parseHex64 value in Done (s64 n) else Parser.parse64 value (chr ",").
Definition parseUInt64 (value : list Z) : res Z :=
  if is_hex value then Parser.parseHex64 value else Parser.parseUnsigned64 value (chr ",").

Definition parseBool (value : list Z) : res bool :=
  let? n := Parser.tryParse value (chr ",") in
  match n with
  | Some n => Done (negb (n =? 0))
  | None =>
      if Str.icompare value (str "true") =? 0 then Done true
      else if Str.icompare value (str "yes") =? 0 then Done true
      else if Str.icompare value (str "on") =? 0 then Done true
      else if Str.icompare value (str "false") =? 0 then Done false
      else if Str.icompare value (str "no") =? 0 then Done false
      else if Str.icompare value (str "off") =? 0 then Done false
      else Raise SyntaxException
  end.

Definition getString (key : list Z) : ST AbstractConfiguration (list Z) :=
  get_with internalExpand (throw NotFoundException) key.
Definition getString_default (key defaultValue : list Z) : ST AbstractConfiguration (list Z) :=
  get_with internalExpand (ret defaultValue) key.
Definition getRawString (key : list Z) : ST AbstractConfiguration (list Z) :=
  get_with ret (throw NotFoundException) key.
Definition getRawString_default (key defaultValue : list Z) : ST AbstractConfiguration (list Z) :=
  get_with ret (ret defaultValue) key.
Definition getInt (key : list Z) : ST AbstractConfiguration Z :=
  get_with (expand_then parseInt) (throw NotFoundException) key.
Definition getInt_default (key : list Z) (defaultValue : Z) : ST AbstractConfiguration Z :=
  get_with (expand_then parseInt) (ret defaultValue) key.
Definition getUInt (key : list Z) : ST AbstractConfiguration Z :=
  get_with (expand_then (fun t => Parser.parseUnsigned t (chr ","))) (throw NotFoundException) key.
Definition getUInt_default (key : list Z) (defaultValue : Z) : ST AbstractConfiguration Z :=
  get_with (expand_then (fun t => Parser.parseUnsigned t (chr ","))) (ret defaultValue) key.
Definition getInt64 (key : list Z) : ST AbstractConfiguration Z :=
  get_with (expand_then (fun t => Parser.parse64 t (chr ","))) (throw NotFoundException) key.
Definition getInt64_default (key : list Z) (defaultValue : Z) : ST AbstractConfiguration Z :=
  get_with (expand_then (fun t => Parser.parse64 t (chr ","))) (ret defaultValue) key.
Definition getUInt64 (key : list Z) : ST AbstractConfiguration Z :=
  get_with (expand_then (fun t => Parser.parseUnsigned64 t (chr ","))) (throw NotFoundException) key.
Definition getUInt64_default (key : list Z) (defaultValue : Z) : ST AbstractConfiguration Z :=
  get_with (expand_then (fun t => Parser.parseUnsigned64 t (chr ","))) (ret defaultValue) key.
Definition getBool (key : list Z) : ST AbstractConfiguration bool :=
  get_with (expand_then parseBool) (throw NotFoundException) key.
Definition getBool_default (key : list Z) (defaultValue : bool) : ST AbstractConfiguration bool :=
  get_with (expand_then parseBool) (ret defaultValue) key.

Definition keys (key : list Z) : ST AbstractConfiguration (list (list Z)) :=
  let* s := get in lift (enumerate key (raw s)).

(** *** Changes and their events *)
Section Events.
Context {O : Type} (notify : event -> ST O unit).

Definition on_config {A} (m : ST AbstractConfiguration A) : ST (AbstractConfiguration * O) A := fun so =>
  let (r, s) := m (fst so) in (r, (s, snd so)).
Definition on_observers {A} (m : ST O A) : ST (AbstractConfiguration * O) A := fun so =>
  let (r, o) := m (snd so) in (r, (fst so, o)).
Definition on_raw {A} (m : ST C A) : ST AbstractConfiguration A := fun s =>
  let (r, c) := m (raw s) in (r, {| raw := c; _depth := _depth s; _eventsEnabled := _eventsEnabled s |}).

Definition if_enabled (e : event) : ST (AbstractConfiguration * O) unit :=
  let* so := get in
  if _eventsEnabled (fst so) then on_observers (notify e) else ret tt.

Definition setRawWithEvent (key value : list Z) : ST (AbstractConfiguration * O) unit :=
  do* if_enabled (propertyChanging key value);
  do* on_config (on_raw (setRaw key value));
  if_enabled (propertyChanged key value).

Definition setString (key value : list Z) : ST (AbstractConfiguration * O) unit := setRawWithEvent key value.
Definition set_formatted (text : res (list Z)) (key : list Z) : ST (AbstractConfiguration * O) unit :=
  let* t := lift text in setRawWithEvent key t.
Definition setInt (key : list Z) (value : Z) := set_formatted (Formatter.format_int value) key.
Definition setUInt (key : list Z) (value : Z) := set_formatted (Formatter.format_unsigned value) key.
Definition setInt64 (key : list Z) (value : Z) := set_formatted (Formatter.format_Int64 value) key.
Definition setUInt64 (key : list Z) (value : Z) := set_formatted (Formatter.format_UInt64 value) key.
Definition setBool (key : list Z) (value : bool) := setRawWithEvent key (if value then str "true" else str "false").

Definition remove (key : list Z) : ST (AbstractConfiguration * O) unit :=
  do* if_enabled (propertyRemoving key);
  do* on_config (on_raw (removeRaw key));
  if_enabled (propertyRemoved key).
End Events.
End Code.
Arguments AbstractConfiguration C : clear implicits.
End Abstract.

(** ** MapConfiguration *)
Module MapConfiguration.

Definition prefix_of (key : list Z) : list Z := match key with [] => [] | _ => key ++ [chr "."] end.

(** [s.compare(0, prefix.size(), prefix) == 0] *)
Definition starts_with (prefix s : list Z) : bool := eqb_str (take (length prefix) s) prefix.

(** The part of a key behind the prefix, up to the next dot. *)
Definition sub_key (psize : nat) (k : list Z) : list Z := fst (span (fun c => negb (c =? chr ".")) (drop psize k)).

(** The loop of enumerate; [matches] says whether a key has the prefix. *)
Fixpoint enumerate_loop (matches : list Z -> bool) (psize : nat) (m : string_map) (seen : gset (list Z))
    (range : list (list Z)) : list (list Z) :=
  match m with
  | [] => range
  | (k, _) :: r =>
      if matches k then
        let subKey := sub_key psize k in
        if bool_decide (subKey ∈ seen) then enumerate_loop matches psize r seen range
        else enumerate_loop matches psize r ({[subKey]} ∪ seen) (range ++ [subKey])
      else enumerate_loop matches psize r seen range
  end.

(** The loop of removeRaw. *)
Fixpoint remove_loop (matches : list Z -> bool) (m : string_map) : string_map :=
  match m with
  | [] => []
  | (k, v) :: r => if matches k then remove_loop matches r else (k, v) :: remove_loop matches r
  end.

Record MapConfiguration_ := { _map : string_map }.

Definition construct : MapConfiguration_ := {| _map := [] |}.
Definition clear (c : MapConfiguration_) : MapConfiguration_ := {| _map := [] |}.

Definition get_raw (key : list Z) (c : MapConfiguration_) : res (option (list Z)) :=
  Done (StringMap.find StringMap.str_less key (_map c)).
Definition set_raw (key value : list Z) : ST MapConfiguration_ unit :=
  modify (fun c => {| _map := StringMap.assign StringMap.str_less key value (_map c) |}).
Definition enumerate_ (key : list Z) (c : MapConfiguration_) : res (list (list Z)) :=
  let prefix := prefix_of key in
  Done (enumerate_loop (starts_with prefix) (length prefix) (_map c) ∅ []).
Definition remove_raw (key : list Z) : ST MapConfiguration_ unit :=
  modify (fun c => {| _map := remove_loop (fun k => eqb_str k key || starts_with (prefix_of key) k) (_map c) |}).

#[global] Instance configuration : Configuration MapConfiguration_ :=
  {| getRaw := get_raw; setRaw := set_raw; removeRaw := remove_raw; enumerate := enumerate_ |}.
End MapConfiguration.

(** [peek()]: at the end of the input the stream is no longer good. *)
Definition peek : ST istream Z := fun i =>
  if failed i then (Done eof, i)
  else match rest i with
  | [] => (Done eof, {| before := before i; rest := []; failed := true |})
  | c :: _ => (Done c, i)
  end.

(** A computation on the stream beside a configuration. *)
Definition on_istr {C A} (m : ST istream A) : ST (C * istream) A := fun ci =>
  let (r, i) := m (snd ci) in (r, (fst ci, i)).
Definition on_conf {C A} (m : ST C A) : ST (C * istream) A := fun ci =>
  let (r, c) := m (fst ci) in (r, (c, snd ci)).

(** [while (!istr.eof()) parseLine(istr);]: only the end of the input fails. *)
Fixpoint load_loop {C} (parseLine : ST (C * istream) unit) (fuel : nat) : ST (C * istream) unit :=
  let* ci := get in
  if failed (snd ci) then ret tt
  else match fuel with
  | O => undef
  | S fuel => do* parseLine; load_loop parseLine fuel
  end.

(** Each line takes a character or meets the end. *)
Definition load_all {C} (parseLine : ST (C * istream) unit) : ST (C * istream) unit :=
  let* ci := get in load_loop parseLine (S (length (rest (snd ci)))).

Definition space_more (c : Z) : bool := negb (c =? eof) && Ascii.isSpace c.

(** ** PropertyFileConfiguration *)
Module PropertyFile.
Import MapConfiguration.

(** The characters a line ends with, and those a key ends with. *)
Definition line_more (c : Z) : bool := negb (c =? eof) && negb (c =? 10) && negb (c =? 13).
Definition key_more (c _n : Z) : bool :=
  negb (c =? eof) && negb (c =? chr "=") && negb (c =? chr ":") && negb (c =? 13) && negb (c =? 10).

Fixpoint readChar_loop (fuel : nat) : ST istream Z :=
  match fuel with
  | O => undef
  | S fuel =>
      let* c := get_char in
      if c =? 92 then
        let* c := get_char in
        if c =? chr "t" then ret 9
        else if c =? chr "r" then ret 13
        else if c =? chr "n" then ret 10
        else if c =? chr "f" then ret 12
        else if c =? 13 then
          let* p := peek in
          do* (if p =? 10 then let* _c := get_char in ret tt else ret tt);
          readChar_loop fuel
        else if c =? 10 then readChar_loop fuel
        else ret c
      else if (c =? 10) || (c =? 13) then ret 0
      else ret c
  end.

Definition readChar : ST istream Z := let* i := get in readChar_loop (rounds i).

(** [while (c != eof && c) { value += (char) c; c = readChar(istr); }] *)
Fixpoint value_loop (fuel : nat) (value : list Z) (c : Z) : ST istream (list Z) :=
  if negb (c =? eof) && negb (c =? 0) then
    match fuel with
    | O => undef
    | S fuel => let* c' := readChar in value_loop fuel (value ++ [c]) c'
    end
  else ret value.

Definition read_value : ST istream (list Z) :=
  let* c := readChar in
  let* i := get in
  value_loop (rounds i) [] c.

Definition parseLine : ST (MapConfiguration_ * istream) unit :=
  let* c := on_istr get_char in
  let* c := on_istr (skip_all get_char space_more c) in
  if c =? eof then ret tt
  else if (c =? chr "#") || (c =? chr "!") then
    let* _c := on_istr (skip_all get_char line_more c) in ret tt
  else
    let* kc := on_istr (collect_all get_char key_more [] c) in
    let* value := on_istr (if (snd kc =? chr "=") || (snd kc =? chr ":") then read_value else ret []) in
    on_conf (set_raw (Str.trim (fst kc)) (Str.trim value)).

Definition load : ST (MapConfiguration_ * istream) unit :=
  do* on_conf (modify clear);
  load_all parseLine.

Fixpoint save_loop (m : string_map) : list Z :=
  match m with
  | [] => []
  | (k, v) :: r => k ++ str ": " ++ v ++ [10] ++ save_loop r
  end.
Definition save (c : MapConfiguration_) : list Z := save_loop (_map c).
End PropertyFile.

(** ** IniFileConfiguration *)
Module IniFile.

Record IniFileConfiguration := { _map : string_map; _sectionKey : list Z }.

Definition construct : IniFileConfiguration := {| _map := []; _sectionKey := [] |}.

Definition ICompare (s1 s2 : list Z) : bool := Str.icompare s1 s2 <? 0.

(** [icompare(s, prefix.size(), prefix) == 0] *)
Definition starts_with (prefix s : list Z) : bool := Str.icompare_range s 0 (length prefix) prefix =? 0.

Definition set_map (m : string_map) (c : IniFileConfiguration) : IniFileConfiguration :=
  {| _map := m; _sectionKey := _sectionKey c |}.

Definition get_raw (key : list Z) (c : IniFileConfiguration) : res (option (list Z)) :=
  Done (StringMap.find ICompare key (_map c)).
Definition set_raw (key value : list Z) : ST IniFileConfiguration unit :=
  modify (fun c => set_map (StringMap.assign ICompare key value (_map c)) c).
Definition enumerate_ (key : list Z) (c : IniFileConfiguration) : res (list (list Z)) :=
  let prefix := MapConfiguration.prefix_of key in
  Done (MapConfiguration.enumerate_loop (starts_with prefix) (length prefix) (_map c) ∅ []).
Definition remove_raw (key : list Z) : ST IniFileConfiguration unit :=
  modify (fun c => set_map (MapConfiguration.remove_loop
    (fun k => (Str.icompare k key =? 0) || starts_with (MapConfiguration.prefix_of key) k) (_map c)) c).

#[global] Instance configuration : Configuration IniFileConfiguration :=
  {| getRaw := get_raw; setRaw := set_raw; removeRaw := remove_raw; enumerate := enumerate_ |}.

Definition line_more (c : Z) : bool := negb (c =? eof) && negb (c =? 10).
Definition section_more (c _n : Z) : bool := negb (c =? eof) && negb (c =? chr "]") && negb (c =? 10).
Definition key_more (c _n : Z) : bool := negb (c =? eof) && negb (c =? chr "=") && negb (c =? 10).
Definition value_more (c _n : Z) : bool := negb (c =? eof) && negb (c =? 10).

Definition full_key (section key : list Z) : list Z := MapConfiguration.prefix_of section ++ Str.trim key.

Definition parseLine : ST (IniFileConfiguration * istream) unit :=
  let* c := on_istr get_char in
  let* c := on_istr (skip_all get_char space_more c) in
  if c =? eof then ret tt
  else if c =? chr ";" then
    let* _c := on_istr (skip_all get_char line_more c) in ret tt
  else if c =? chr "[" then
    let* c := on_istr get_char in
    let* kc := on_istr (collect_all get_char section_more [] c) in
    on_conf (modify (fun s => {| _map := _map s; _sectionKey := Str.trim (fst kc) |}))
  else
    let* kc := on_istr (collect_all get_char key_more [] c) in
    let* value := on_istr (
      if snd kc =? chr "=" then
        let* c := get_char in
        let* vc := collect_all get_char value_more [] c in
        ret (fst vc)
      else ret []) in
    on_conf (let* s := get in set_raw (full_key (_sectionKey s) (fst kc)) (Str.trim value)).

Definition load : ST (IniFileConfiguration * istream) unit :=
  do* on_conf (modify (fun _ => construct));
  load_all parseLine.
End IniFile.

(** ** Shared configurations: a heap of objects that have their own events *)
Module Shared.
Section Code.
Context {C O : Type} `{Configuration C} (notify : Z -> Abstract.event -> ST O unit).

Record heap := { objects : gmap Z (Abstract.AbstractConfiguration C); observers : O }.

(** [p->getRaw(key, value)], [p->enumerate(key, range)] *)
Definition deref {A} (p : Z) (f : C -> res A) (h : heap) : res A :=
  match objects h !! p with Some s => f (Abstract.raw s) | None => UB end.

(** A member function of the object at [p] that changes it. *)
Definition call {A} (p : Z) (m : ST (Abstract.AbstractConfiguration C * O) A) : ST heap A := fun h =>
  match objects h !! p with
  | None => (UB, h)
  | Some s => let '(r, (s, o)) := m (s, observers h) in (r, {| objects := <[p := s]> (objects h); observers := o |})
  end.

Definition call_setRaw (p : Z) (key value : list Z) : ST heap unit :=
  call p (Abstract.on_config (Abstract.on_raw (setRaw key value))).
Definition call_remove (p : Z) (key : list Z) : ST heap unit := call p (Abstract.remove (notify p) key).
End Code.
Arguments heap C O : clear implicits.
End Shared.

(** ** LayeredConfiguration *)
Module Layered.
Section Code.
Context {C O : Type} `{Configuration C} (notify : Z -> Abstract.event -> ST O unit).

Record ConfigItem := { pConfig : Z; priority : Z; writeable : bool }.

Record LayeredConfiguration := { _configs : list ConfigItem; objects : Shared.heap C O }.

Definition construct (h : Shared.heap C O) : LayeredConfiguration := {| _configs := []; objects := h |}.
Definition set_configs (l : list ConfigItem) (s : LayeredConfiguration) : LayeredConfiguration :=
  {| _configs := l; objects := objects s |}.

Definition lowest (l : list ConfigItem) : res Z := match l with [] => Done 0 | i :: _ => arith Int32 (priority i - 1) end.
Definition highest (l : list ConfigItem) : res Z := match last l with None => Done 0 | Some i => arith Int32 (priority i + 1) end.

(** [while (it != end && it->priority < priority) ++it; _configs.insert(it, item);] *)
Fixpoint insert_item (item : ConfigItem) (l : list ConfigItem) : list ConfigItem :=
  match l with
  | [] => [item]
  | i :: r => if priority i <? priority item then i :: insert_item item r else item :: l
  end.

Definition add_at (p prio : Z) (w : bool) (s : LayeredConfiguration) : LayeredConfiguration :=
  set_configs (insert_item {| pConfig := p; priority := prio; writeable := w |} (_configs s)) s.
Definition add (p : Z) : ST LayeredConfiguration unit :=
  let* s := get in
  let* n := lift (highest (_configs s)) in
  modify (add_at p n false).
Definition add_priority (p prio : Z) : ST LayeredConfiguration unit := modify (add_at p prio false).
Definition addFront (p : Z) : ST LayeredConfiguration unit :=
  let* s := get in
  let* n := lift (lowest (_configs s)) in
  modify (add_at p n false).
Definition addWriteable (p prio : Z) : ST LayeredConfiguration unit := modify (add_at p prio true).

Fixpoint erase_first (p : Z) (l : list ConfigItem) : list ConfigItem :=
  match l with
  | [] => []
  | i :: r => if pConfig i =? p then r else i :: erase_first p r
  end.
Definition removeConfiguration (p : Z) (s : LayeredConfiguration) : LayeredConfiguration :=
  set_configs (erase_first p (_configs s)) s.

Fixpoint get_loop (key : list Z) (h : Shared.heap C O) (l : list ConfigItem) : res (option (list Z)) :=
  match l with
  | [] => Done None
  | i :: r =>
      let? v := Shared.deref (pConfig i) (getRaw key) h in
      match v with Some v => Done (Some v) | None => get_loop key h r end
  end.
Definition get_raw (key : list Z) (s : LayeredConfiguration) : res (option (list Z)) :=
  get_loop key (objects s) (_configs s).

Definition on_heap {A} (m : ST (Shared.heap C O) A) : ST LayeredConfiguration A := fun s =>
  let (r, h) := m (objects s) in (r, {| _configs := _configs s; objects := h |}).

(** The first layer that can be written. *)
Fixpoint first_writeable (l : list ConfigItem) : option Z :=
  match l with
  | [] => None
  | i :: r => if writeable i then Some (pConfig i) else first_writeable r
  end.

Definition set_raw (key value : list Z) : ST LayeredConfiguration unit :=
  let* s := get in
  match first_writeable (_configs s) with
  | Some p => on_heap (Shared.call_setRaw p key value)
  | None => throw RuntimeException
  end.

Definition remove_raw (key : list Z) : ST LayeredConfiguration unit :=
  let* s := get in
  match first_writeable (_configs s) with
  | Some p => on_heap (Shared.call_remove notify p key)
  | None => ret tt
  end.

Fixpoint collect_keys (part : list (list Z)) (seen : gset (list Z)) (range : list (list Z)) :
    gset (list Z) * list (list Z) :=
  match part with
  | [] => (seen, range)
  | k :: r =>
      if bool_decide (k ∈ seen) then collect_keys r seen range
      else collect_keys r ({[k]} ∪ seen) (range ++ [k])
  end.
Fixpoint enumerate_items (key : list Z) (h : Shared.heap C O) (l : list ConfigItem) (seen : gset (list Z))
    (range : list (list Z)) : res (list (list Z)) :=
  match l with
  | [] => Done range
  | i :: r =>
      let? part := Shared.deref (pConfig i) (enumerate key) h in
      let (seen, range) := collect_keys part seen range in
      enumerate_items key h r seen range
  end.
Definition enumerate_ (key : list Z) (s : LayeredConfiguration) : res (list (list Z)) :=
  enumerate_items key (objects s) (_configs s) ∅ [].

#[global] Instance configuration : Configuration LayeredConfiguration :=
  {| getRaw := get_raw; setRaw := set_raw; removeRaw := remove_raw; enumerate := enumerate_ |}.
End Code.
Arguments LayeredConfiguration C O : clear implicits.
End Layered.

(** ** ConfigurationView *)
Module View.
Section Code.
Context {C O : Type} `{Configuration C} (notify : Z -> Abstract.event -> ST O unit).

Record ConfigurationView := { _prefix : list Z; _pConfig : Z; objects : Shared.heap C O }.

Definition translateKey (prefix key : list Z) : list Z :=
  match prefix, key with
  | _ :: _, c :: _ => if c =? chr "[" then prefix ++ key else prefix ++ [chr "."] ++ key
  | _, _ => prefix ++ key
  end.

Definition on_heap {A} (m : ST (Shared.heap C O) A) : ST ConfigurationView A := fun s =>
  let (r, h) := m (objects s) in (r, {| _prefix := _prefix s; _pConfig := _pConfig s; objects := h |}).

Definition get_raw (key : list Z) (s : ConfigurationView) : res (option (list Z)) :=
  let? v := Shared.deref (_pConfig s) (getRaw (translateKey (_prefix s) key)) (objects s) in
  match v with
  | Some v => Done (Some v)
  | None => Shared.deref (_pConfig s) (getRaw key) (objects s)
  end.
Definition set_raw (key value : list Z) : ST ConfigurationView unit :=
  let* s := get in on_heap (Shared.call_setRaw (_pConfig s) (translateKey (_prefix s) key) value).
Definition enumerate_ (key : list Z) (s : ConfigurationView) : res (list (list Z)) :=
  Shared.deref (_pConfig s) (enumerate (translateKey (_prefix s) key)) (objects s).
Definition remove_raw (key : list Z) : ST ConfigurationView unit :=
  let* s := get in on_heap (Shared.call_remove notify (_pConfig s) (translateKey (_prefix s) key)).

#[global] Instance configuration : Configuration ConfigurationView :=
  {| getRaw := get_raw; setRaw := set_raw; removeRaw := remove_raw; enumerate := enumerate_ |}.
End Code.
Arguments ConfigurationView C O : clear implicits.
End View.
