(* ===== verification/ConfigFiles.v ===== *)
(** Configuration files: what a property file saves it loads, and loading ends
    on every text. *)

From S2P Require Import Prelude Strings Headers HeadersFacts Config.
From stdpp Require Import gmap.
From Stdlib Require Import Sorted.

Open Scope st_scope.
Local Open Scope Z_scope.
Import IStream.

(** ** Trimming *)

Lemma spaces_prefix l c x l' c' x' :
  Str.all_space l -> Str.all_space l' -> Ascii.isSpace c = false -> Ascii.isSpace c' = false ->
  l ++ c :: x = l' ++ c' :: x' -> l = l' /\ c :: x = c' :: x'.
Proof.
  intros Hl Hl' Hc Hc' E. pose proof (span_app _ l c x Hl Hc) as E1. pose proof (span_app _ l' c' x' Hl' Hc') as E2.
  rewrite E, E2 in E1. by injection E1 as -> -> ->.
Qed.

Lemma space_first t : t <> [] -> Str.space_at t 0 = false -> exists c x, t = c :: x /\ Ascii.isSpace c = false.
Proof. destruct t as [|c x]; [done|]. intros _ E. by exists c, x. Qed.

Lemma space_last t : t <> [] -> Str.space_at t (length t - 1) = false -> exists x c, t = x ++ [c] /\ Ascii.isSpace c = false.
Proof.
  intros Hne E. destruct t as [|c x _] using rev_ind; [done|]. exists x, c. split; [done|].
  unfold Str.space_at in E. rewrite length_app in E. cbn [length] in E.
  rewrite lookup_app_r in E by lia. by replace (length x + 1 - 1 - length x)%nat with 0%nat in E by lia.
Qed.

(** White space around a text without any at its ends. *)
Lemma trim_around l t r :
  Str.all_space l -> Str.all_space r -> Str.space_at t 0 = false -> Str.space_at t (length t - 1) = false ->
  Str.trim (l ++ t ++ r) = t.
Proof.
  intros Hl Hr H0 H1. destruct (Str.trim_decompose (l ++ t ++ r)) as (l' & r' & E & Hl' & Hr' & K0 & K1).
  set (t' := Str.trim _) in *. clearbody t'. destruct (decide (t = [])) as [-> |Ht].
  - destruct t' as [|c x]; [done|]. assert (Hs : Str.all_space (l ++ r)) by (by apply Forall_app_2).
    cbn [app] in E. rewrite E in Hs. apply Forall_app in Hs as [_ Hs]. apply Forall_cons in Hs as [Hs _].
    unfold Str.space_at in K0. cbn in K0. congruence.
  - destruct (space_first t Ht H0) as (c & x & Ec & Hc). destruct (space_last t Ht H1) as (y & d & Ed & Hd).
    destruct (decide (t' = [])) as [-> |Ht'].
    { assert (Hs : Str.all_space (l' ++ r')) by (by apply Forall_app_2).
      change (l' ++ r') with (l' ++ [] ++ r') in Hs. rewrite <-E, Ec in Hs.
      apply Forall_app in Hs as [_ Hs]. apply Forall_cons in Hs as [Hs _]. congruence. }
    destruct (space_first t' Ht' K0) as (c' & x' & Ec' & Hc'). destruct (space_last t' Ht' K1) as (y' & d' & Ed' & Hd').
    assert (E2 : t ++ r = t' ++ r').
    { rewrite Ec, Ec' in E. cbn [app] in E. apply spaces_prefix in E as [_ E]; [|done..]. by rewrite Ec, Ec'. }
    rewrite Ed, Ed' in E2. apply (f_equal (@rev Z)) in E2. rewrite !rev_app_distr in E2. cbn [rev app] in E2.
    apply spaces_prefix in E2 as [_ E2]; [|by apply Forall_rev|by apply Forall_rev|done|done].
    rewrite Ed, Ed'. apply (f_equal (@rev Z)) in E2. cbn [rev] in E2. by rewrite !rev_involutive in E2.
Qed.

Lemma trim_trim s : Str.trim (Str.trim s) = Str.trim s.
Proof.
  destruct (Str.trim_decompose s) as (l & r & _ & _ & _ & H0 & H1).
  rewrite <-(app_nil_r (Str.trim s)) at 1. by apply (trim_around []); [constructor|constructor|..].
Qed.

(** ** Reading a property file that was saved *)
Module Saved.
Import MapConfiguration PropertyFile.

(** Keys and values that survive the trip. *)
Record storable (e : list Z * list Z) : Prop := {
  st_key : Forall (fun c => is_byte c /\ c <> chr "=" /\ c <> chr ":" /\ c <> 13 /\ c <> 10) (fst e);
  st_start : head (fst e) <> Some (chr "#") /\ head (fst e) <> Some (chr "!");
  st_key_trim : Str.trim (fst e) = fst e;
  st_value : Forall (fun c => is_byte c /\ c <> 92 /\ c <> 13 /\ c <> 10 /\ c <> 0) (snd e);
  st_value_trim : Str.trim (snd e) = snd e
}.

Definition at_text (b text : list Z) : istream := {| before := b; rest := text; failed := false |}.

Lemma get_at_text b c text : get_char (at_text b (c :: text)) = (Done c, at_text (c :: b) text).
Proof. done. Qed.

Lemma readChar_plain b c text :
  is_byte c -> c <> 92 -> c <> 13 -> c <> 10 -> readChar (at_text b (c :: text)) = (Done c, at_text (c :: b) text).
Proof.
  intros Hc H1 H2 H3. unfold readChar, rounds. rewrite bind_get. cbn [readChar_loop].
  rewrite (bind_Done _ _ _ _ _ (get_at_text b c text)).
  by rewrite (proj2 (Z.eqb_neq c 92)), (proj2 (Z.eqb_neq c 10)), (proj2 (Z.eqb_neq c 13)).
Qed.

Lemma readChar_newline b text : readChar (at_text b (10 :: text)) = (Done 0, at_text (10 :: b) text).
Proof. done. Qed.

Lemma value_loop_run w : forall fuel b acc c text,
  Forall (fun c => is_byte c /\ c <> 92 /\ c <> 13 /\ c <> 10 /\ c <> 0) (c :: w) -> (length w < fuel)%nat ->
  exists b', value_loop fuel acc c (at_text b (w ++ 10 :: text)) = (Done (acc ++ c :: w), at_text b' text).
Proof.
  induction w as [|d w IH]; intros fuel b acc c text Hw Hf; (destruct fuel as [|fuel]; [lia|]); cbn [value_loop app];
    apply Forall_cons in Hw as [(Hc & _ & _ & _ & H0) Hw];
    rewrite (proj2 (Z.eqb_neq c eof)), (proj2 (Z.eqb_neq c 0)) by (done || (unfold is_byte in Hc; unfold eof; lia));
    cbn [negb andb].
  - rewrite (bind_Done _ _ _ _ _ (readChar_newline b text)). exists (10 :: b). by destruct fuel.
  - pose proof Hw as [(Hd & H1 & H2 & H3 & _) _]%Forall_cons.
    rewrite (bind_Done _ _ _ _ _ (readChar_plain b d _ Hd H1 H2 H3)).
    destruct (IH fuel (d :: b) (acc ++ [c]) d text Hw) as [b' E]; [simpl in Hf; lia|].
    exists b'. by rewrite E, <-app_assoc.
Qed.

Lemma read_value_saved b v text :
  Forall (fun c => is_byte c /\ c <> 92 /\ c <> 13 /\ c <> 10 /\ c <> 0) v ->
  exists b', PropertyFile.read_value (at_text b (32 :: v ++ 10 :: text)) = (Done (32 :: v), at_text b' text).
Proof.
  intros Hv. unfold PropertyFile.read_value.
  rewrite (bind_Done _ _ _ _ _ (readChar_plain b 32 (v ++ 10 :: text) ltac:(done) ltac:(done) ltac:(done) ltac:(done))).
  rewrite bind_get. apply (value_loop_run v _ (32 :: b) []); [|unfold rounds; cbn; rewrite length_app; lia].
  by constructor.
Qed.

Lemma on_istr_ok {C A} (m : ST istream A) (c : C) i a i' :
  m i = (Done a, i') -> on_istr m (c, i) = (Done a, (c, i')).
Proof. intros E. unfold on_istr. cbn. by rewrite E. Qed.

Lemma parseLine_saved e m b text :
  storable e -> exists b', parseLine (m, at_text b (fst e ++ str ": " ++ snd e ++ 10 :: text))
    = (Done tt, ({| _map := StringMap.assign StringMap.str_less (fst e) (snd e) (_map m) |}, at_text b' text)).
Proof.
  intros [Hk [Hh1 Hh2] Hkt Hv Hvt]. destruct e as [k v]. cbn [fst snd] in *. unfold parseLine.
  set (p := str ": " ++ v ++ 10 :: text). assert (Ep : p = chr ":" :: 32 :: v ++ 10 :: text) by done.
  assert (Hp : p <> []) by done. set (c := cur (k ++ p)).
  assert (G : get_char (at_text b (k ++ p)) = (Done c, seen b (k ++ p))) by (subst c; destruct k; done).
  assert (Hc : Ascii.isSpace c = false /\ c <> eof /\ c <> chr "#" /\ c <> chr "!").
  { subst c. destruct k as [|x k]; [done|]. cbn [cur app]. apply Forall_cons in Hk as [[Hx _] _].
    destruct (Str.trim_decompose (x :: k)) as (_ & _ & _ & _ & _ & H0 & _). rewrite Hkt in H0. cbn in H0.
    split_and!; [done|unfold is_byte in Hx; unfold eof; lia|by intros ->..]. }
  destruct Hc as (Hsp & Heof & H1 & H2).
  rewrite (bind_Done _ _ _ _ _ (on_istr_ok _ _ _ _ _ G)).
  assert (Sk : skip_all get_char space_more c (seen b (k ++ p)) = (Done c, seen b (k ++ p))).
  { apply (skip_all_run get_char space_more [] (k ++ p) b); [|constructor|].
    - apply get_steps. by destruct k.
    - fold c. unfold space_more. by rewrite Hsp, andb_false_r. }
  rewrite (bind_Done _ _ _ _ _ (on_istr_ok _ _ _ _ _ Sk)).
  rewrite (proj2 (Z.eqb_neq c eof)), (proj2 (Z.eqb_neq c (chr "#"))), (proj2 (Z.eqb_neq c (chr "!"))) by done. cbn [orb].
  assert (Cl : collect_all get_char key_more [] c (seen b (k ++ p)) = (Done ([] ++ k, cur p), seen (rev k ++ b) p)).
  { apply collect_all_run; [by apply get_steps| |done]. intros i x Hx. eapply (Forall_lookup_1 _ _ _ _ Hk) in Hx.
    destruct Hx as (Hx & ? & ? & ? & ?). unfold key_more, is_byte, eof in *. lia. }
  rewrite (bind_Done _ _ _ _ _ (on_istr_ok _ _ _ _ _ Cl)). rewrite Ep. cbn [cur fst snd app].
  change ((chr ":" =? chr "=") || (chr ":" =? chr ":")) with true. cbv iota.
  destruct (read_value_saved (chr ":" :: rev k ++ b) v text Hv) as [b' R].
  rewrite (bind_Done _ _ _ _ _ (on_istr_ok _ _ (seen (rev k ++ b) (chr ":" :: 32 :: v ++ 10 :: text)) _ _ R)).
  assert (Ev : Str.trim (32 :: v) = v).
  { destruct (Str.trim_decompose v) as (_ & _ & _ & _ & _ & V0 & V1). rewrite Hvt in V0, V1.
    rewrite <-(app_nil_r (32 :: v)). change ((32 :: v) ++ []) with ([32] ++ v ++ []).
    by apply trim_around; [repeat constructor|constructor|..]. }
  rewrite Ev, Hkt. by exists b'.
Qed.

(** Entries in the order of their keys. *)
Abbreviation in_order := (StronglySorted (fun a b : list Z * list Z => StringMap.str_less (fst a) (fst b) = true)).

Fixpoint assign_all (m es : string_map) : string_map :=
  match es with
  | [] => m
  | e :: es => assign_all (StringMap.assign StringMap.str_less (fst e) (snd e) m) es
  end.

Lemma assign_last k v m :
  Forall (fun e => StringMap.str_less (fst e) k = true) m ->
  StringMap.assign StringMap.str_less k v m = m ++ [(k, v)].
Proof.
  induction 1 as [|[k' v'] m Hk Hm IH]; [done|]. cbn [StringMap.assign app fst] in *. by rewrite Hk, IH.
Qed.

Lemma assign_all_order es : forall m,
  in_order es -> Forall (fun e => Forall (fun e' => StringMap.str_less (fst e') (fst e) = true) m) es ->
  assign_all m es = m ++ es.
Proof.
  induction es as [|[k v] es IH]; intros m Ho Hm; cbn [assign_all fst snd]; [by rewrite app_nil_r|].
  apply Forall_cons in Hm as [Hk Hm]. inversion Ho as [|? ? Ho' Hkv]; subst.
  rewrite assign_last by done. rewrite IH; [by rewrite <-app_assoc|done|].
  rewrite Forall_forall in Hm, Hkv. apply Forall_forall. intros e He. apply Forall_app_2; [by apply Hm|].
  apply Forall_singleton. by apply Hkv.
Qed.

Lemma load_loop_saved es : forall fuel b m,
  Forall storable es -> (length (save_loop es) < fuel)%nat ->
  exists b', load_loop parseLine fuel (m, at_text b (save_loop es))
    = (Done tt, ({| _map := assign_all (_map m) es |}, {| before := b'; rest := []; failed := true |})).
Proof.
  induction es as [|[k v] es IH]; intros fuel b m He Hf; (destruct fuel as [|fuel]; [lia|]); cbn [load_loop save_loop] in *;
    rewrite bind_get; cbn [failed snd at_text].
  - exists b. destruct m. by destruct fuel.
  - apply Forall_cons in He as [Hkv He].
    destruct (parseLine_saved (k, v) m b (save_loop es) Hkv) as [b1 E]. cbn [fst snd] in E.
    rewrite (bind_Done _ _ _ _ _ E).
    destruct (IH fuel b1 {| _map := StringMap.assign StringMap.str_less k v (_map m) |} He) as [b' E'].
    { rewrite !length_app in Hf. cbn [length] in Hf. change (length (str ": ")) with 2%nat in Hf. lia. }
    exists b'. exact E'.
Qed.
End Saved.

(** ** Any text *)

(** [i'] is [i] after some reading; only the end of the text fails. *)
Definition sane (i : istream) : Prop := failed i = true -> rest i = [].
Record onward (i i' : istream) : Prop := {
  ow_rest : (length (rest i') <= length (rest i))%nat;
  ow_failed : failed i = true -> failed i' = true;
  ow_sane : sane i -> sane i'
}.

(** A character was taken, or there was none. *)
Definition took (c : Z) (i i' : istream) : Prop :=
  onward i i' /\ ((failed i' = true /\ c = eof) \/ (length (rest i') < length (rest i))%nat).

Lemma onward_refl i : onward i i.
Proof. split; [lia|done|done]. Qed.

Lemma onward_trans i1 i2 i3 : onward i1 i2 -> onward i2 i3 -> onward i1 i3.
Proof. intros [? ? ?] [? ? ?]. split; [lia|auto|auto]. Qed.
Local Hint Resolve onward_refl onward_trans : core.

Lemma took_onward c i i' : took c i i' -> onward i i'.
Proof. by intros [? _]. Qed.
Local Hint Resolve took_onward : core.

Lemma get_any i : exists c i', get_char i = (Done c, i') /\ took c i i'.
Proof.
  unfold get_char. destruct i as [b [|c r] [|]]; cbn [failed rest]; do 2 eexists; (split; [reflexivity|]);
    (split; [split; cbn; try done; lia|]); cbn; try (by left); right; lia.
Qed.

Lemma peek_any i : exists c i', peek i = (Done c, i') /\ onward i i'.
Proof.
  unfold peek. destruct i as [b [|c r] [|]]; cbn [failed rest]; do 2 eexists; (split; [reflexivity|]);
    split; cbn; done || lia.
Qed.

Lemma skip_any more fuel : more eof = false -> forall ch i, (length (rest i) < fuel)%nat ->
  exists c i', skip get_char more fuel ch i = (Done c, i') /\ onward i i'.
Proof.
  intros He. induction fuel as [|fuel IH]; intros ch i Hf; [lia|]. cbn [skip]. destruct (more ch); [|by eexists _, _].
  destruct (get_any i) as (c & i1 & G & [Ho [[_ ->]|Hl]]); rewrite (bind_Done _ _ _ _ _ G).
  - destruct fuel; cbn [skip]; rewrite He; by eexists _, _.
  - destruct (IH c i1) as (c' & i2 & E & Ho2); [lia|]. eauto.
Qed.

Lemma collect_any more fuel : (forall n, more eof n = false) -> forall acc ch i, (length (rest i) < fuel)%nat ->
  exists wc i', collect get_char more fuel acc ch i = (Done wc, i') /\ onward i i'.
Proof.
  intros He. induction fuel as [|fuel IH]; intros acc ch i Hf; [lia|]. cbn [collect]. destruct (more ch _); [|by eexists _, _].
  destruct (get_any i) as (c & i1 & G & [Ho [[_ ->]|Hl]]); rewrite (bind_Done _ _ _ _ _ G).
  - destruct fuel; cbn [collect]; rewrite He; by eexists _, _.
  - destruct (IH (acc ++ [ch]) c i1) as (c' & i2 & E & Ho2); [lia|]. eauto.
Qed.

Lemma skip_all_any more ch i : more eof = false -> exists c i', skip_all get_char more ch i = (Done c, i') /\ onward i i'.
Proof. intros He. apply skip_any; [done|]. unfold rounds. lia. Qed.

Lemma collect_all_any more acc ch i : (forall n, more eof n = false) ->
  exists wc i', collect_all get_char more acc ch i = (Done wc, i') /\ onward i i'.
Proof. intros He. apply collect_any; [done|]. unfold rounds. lia. Qed.

(** A step on the stream beside a configuration. *)
Lemma on_istr_any {C A B} (m : ST istream A) (k : A -> ST (C * istream) B) (c : C) i a i' :
  m i = (Done a, i') -> bind (on_istr m) k (c, i) = k a (c, i').
Proof. intros E. apply bind_Done. by apply Saved.on_istr_ok. Qed.

(** A line leaves the configuration as [P] wants it and takes a character. *)
Definition line_keeps {C} (P : C -> Prop) (parseLine : ST (C * istream) unit) : Prop :=
  forall c i, P c -> exists c' i', parseLine (c, i) = (Done tt, (c', i')) /\ P c' /\ onward i i'
    /\ (failed i' = true \/ (length (rest i') < length (rest i))%nat).

Lemma load_any {C} (P : C -> Prop) parseLine : line_keeps P parseLine -> forall fuel c i,
  P c -> sane i -> (length (rest i) < fuel)%nat ->
  exists c' i', load_loop parseLine fuel (c, i) = (Done tt, (c', i')) /\ P c' /\ rest i' = [].
Proof.
  intros HP. induction fuel as [|fuel IH]; intros c i Hc Hs Hf; [lia|]. cbn [load_loop]. rewrite bind_get. cbn [snd].
  destruct (failed i) eqn:Ef; [exists c, i; split_and!; [done|done|by apply Hs]|].
  destruct (HP c i Hc) as (c1 & i1 & E & Hc1 & Ho & Hm). rewrite (bind_Done _ _ _ _ _ E).
  destruct Hm as [Hm|Hm].
  - exists c1, i1. assert (rest i1 = []) by (by apply (ow_sane _ _ Ho)).
    destruct fuel; cbn [load_loop]; rewrite bind_get; cbn [snd]; by rewrite Hm.
  - apply IH; [done|by apply (ow_sane _ _ Ho)|lia].
Qed.

(** [assign] keeps the order of the entries. *)
Section Assign.
Context (less : list Z -> list Z -> bool).
Context (less_trans : forall a b c, less a b = true -> less b c = true -> less a c = true).
Abbreviation ordered := (StronglySorted (fun a b : list Z * list Z => less (fst a) (fst b) = true)).

Lemma assign_Forall (P : list Z * list Z -> Prop) k v m :
  (forall k' v', P (k', v') -> P (k', v)) -> P (k, v) -> Forall P m -> Forall P (StringMap.assign less k v m).
Proof.
  intros HP Hk. induction 1 as [|[k' v'] m Hm1 Hm IH]; cbn [StringMap.assign]; [by repeat constructor|].
  destruct (less k' k); [by constructor|]. destruct (less k k'); constructor; eauto.
Qed.

Lemma assign_ordered k v m : ordered m -> ordered (StringMap.assign less k v m).
Proof.
  induction 1 as [|[k' v'] m Hm IH Hk']; cbn [StringMap.assign]; [by repeat constructor|].
  destruct (less k' k) eqn:E1; [|destruct (less k k') eqn:E2].
  - constructor; [done|]. by apply assign_Forall.
  - constructor; [by constructor|]. constructor; [done|]. eapply Forall_impl; [exact Hk'|].
    intros [k2 v2]. cbn. by apply less_trans.
  - by constructor.
Qed.
End Assign.

Lemma str_less_trans a : forall b c,
  StringMap.str_less a b = true -> StringMap.str_less b c = true -> StringMap.str_less a c = true.
Proof.
  induction a as [|x a IH]; intros [|y b] [|z c]; cbn [StringMap.str_less]; try done.
  destruct (x <? y) eqn:E1, (y <? z) eqn:E2, (y <? x) eqn:E3, (z <? y) eqn:E4, (x <? z) eqn:E5, (z <? x) eqn:E6;
    try lia; eauto.
Qed.

Lemma ICompare_trans a b c : IniFile.ICompare a b = true -> IniFile.ICompare b c = true -> IniFile.ICompare a c = true.
Proof.
  unfold IniFile.ICompare. rewrite !Z.ltb_lt. intros H1 H2.
  destruct (Str.icompare_trans a b c) as [_ H]; [lia|lia|]. apply H. by left.
Qed.

(** *** Property files *)

Lemma readChar_loop_any fuel : forall i, (length (rest i) < fuel)%nat ->
  exists c i', PropertyFile.readChar_loop fuel i = (Done c, i') /\ took c i i'.
Proof.
  induction fuel as [|fuel IH]; intros i Hf; [lia|]. cbn [PropertyFile.readChar_loop].
  destruct (get_any i) as (c & i1 & G & T). rewrite (bind_Done _ _ _ _ _ G).
  assert (Short : forall d, d <> eof -> forall c', c = d -> took c' i i1).
  { intros d Hd c' ->. destruct T as [Ho [[_ ->]|Hl]]; [done|]. split; [done|by right]. }
  destruct (c =? 92) eqn:E92.
  2: { destruct (_ || _) eqn:E; [|by eexists _, _]. eexists _, _. split; [reflexivity|]. apply (Short c); [unfold eof; lia|done]. }
  apply Z.eqb_eq in E92. destruct (Short 92 ltac:(done) 92 E92) as [Ho1 [[_ [=]]|Hl1]].
  destruct (get_any i1) as (c2 & i2 & G2 & T2). rewrite (bind_Done _ _ _ _ _ G2).
  pose proof (took_onward _ _ _ T2) as Ho2. pose proof (ow_rest _ _ Ho2).
  assert (Far : forall d, took d i i2) by (intros d; split; [by eauto|right; lia]).
  repeat match goal with |- context [if ?b then ret _ else _] => destruct b; [by eexists _, _|] end.
  destruct (c2 =? 13).
  - destruct (peek_any i2) as (p & i3 & P & Ho3). rewrite (bind_Done _ _ _ _ _ P).
    assert (exists i4, (if p =? 10 then let* _c := get_char in ret tt else ret tt) i3 = (Done tt, i4) /\ onward i3 i4)
      as (i4 & E4 & Ho4).
    { destruct (p =? 10); [|by exists i3]. destruct (get_any i3) as (x & i4 & G4 & T4).
      exists i4. rewrite (bind_Done _ _ _ _ _ G4). eauto. }
    rewrite (bind_Done _ _ _ _ _ E4). pose proof (ow_rest _ _ Ho3). pose proof (ow_rest _ _ Ho4).
    destruct (IH i4) as (d & i5 & E5 & T5); [lia|]. pose proof (ow_rest _ _ (took_onward _ _ _ T5)).
    exists d, i5. split; [done|]. split; [by eauto 6|right; lia].
  - destruct (c2 =? 10); [|by eexists _, _]. destruct (IH i2) as (d & i5 & E5 & T5); [lia|].
    pose proof (ow_rest _ _ (took_onward _ _ _ T5)). exists d, i5. split; [done|]. split; [by eauto|right; lia].
Qed.

Lemma readChar_any i : exists c i', PropertyFile.readChar i = (Done c, i') /\ took c i i'.
Proof. apply readChar_loop_any. unfold rounds. lia. Qed.

Lemma value_loop_any fuel : forall acc c i, (length (rest i) < fuel)%nat ->
  exists v i', PropertyFile.value_loop fuel acc c i = (Done v, i') /\ onward i i'.
Proof.
  induction fuel as [|fuel IH]; intros acc c i Hf; [lia|]. cbn [PropertyFile.value_loop].
  destruct (negb (c =? eof) && negb (c =? 0)); [|by eexists _, _].
  destruct (readChar_any i) as (c' & i1 & R & [Ho [[_ ->]|Hl]]); rewrite (bind_Done _ _ _ _ _ R).
  - destruct fuel; by eexists _, _.
  - destruct (IH (acc ++ [c]) c' i1) as (v & i2 & E & Ho2); [lia|]. eauto.
Qed.

Lemma read_value_any i : exists v i', PropertyFile.read_value i = (Done v, i') /\ onward i i'.
Proof.
  unfold PropertyFile.read_value. destruct (readChar_any i) as (c & i1 & R & [Ho _]). rewrite (bind_Done _ _ _ _ _ R), bind_get.
  destruct (value_loop_any (rounds i1) [] c i1) as (v & i2 & E & Ho2); [unfold rounds; lia|]. eauto.
Qed.

Abbreviation entries_in_order less := (StronglySorted (fun a b : list Z * list Z => less (fst a) (fst b) = true)).

Definition tidy_property (c : MapConfiguration.MapConfiguration_) : Prop :=
  entries_in_order StringMap.str_less (MapConfiguration._map c)
  /\ Forall (fun e => Str.trim (fst e) = fst e /\ Str.trim (snd e) = snd e) (MapConfiguration._map c).

Lemma property_line : line_keeps tidy_property PropertyFile.parseLine.
Proof.
  intros c i [Hord Htidy]. unfold PropertyFile.parseLine.
  destruct (get_any i) as (ch & i1 & G & T). rewrite (on_istr_any _ _ _ _ _ _ G).
  destruct (skip_all_any space_more ch i1) as (ch2 & i2 & E2 & O2); [done|]. rewrite (on_istr_any _ _ _ _ _ _ E2).
  assert (Far : forall i', onward i2 i' -> onward i i' /\ (failed i' = true \/ (length (rest i') < length (rest i))%nat)).
  { intros i' Ho. destruct T as [O1 T]. assert (O : onward i1 i') by eauto. split; [by eauto|].
    destruct T as [[Hf _]|Hl]; [left; by apply (ow_failed _ _ O)|right; pose proof (ow_rest _ _ O); lia]. }
  destruct (ch2 =? eof); [exists c, i2; split_and!; [done|done|by apply Far..]|].
  destruct (_ || _).
  { destruct (skip_all_any PropertyFile.line_more ch2 i2) as (ch3 & i3 & E3 & O3); [done|]. rewrite (on_istr_any _ _ _ _ _ _ E3).
    exists c, i3. split_and!; [done|done|by apply Far..]. }
  destruct (collect_all_any PropertyFile.key_more [] ch2 i2) as (kc & i3 & E3 & O3); [done|]. rewrite (on_istr_any _ _ _ _ _ _ E3).
  assert (exists v i4, (if (snd kc =? chr "=") || (snd kc =? chr ":") then PropertyFile.read_value else ret []) i3 = (Done v, i4)
    /\ onward i3 i4) as (v & i4 & E4 & O4).
  { destruct (_ || _); [apply read_value_any|by eexists _, _]. }
  rewrite (on_istr_any _ _ _ _ _ _ E4). eexists _, i4. split; [reflexivity|]. split; [|by apply Far; eauto].
  split; cbn.
  - apply assign_ordered; [exact str_less_trans|done].
  - apply assign_Forall; [|split; apply trim_trim|done]. intros k' v' [? _]. split; [done|apply trim_trim].
Qed.

(** *** Initialization files *)

Definition tidy_ini (c : IniFile.IniFileConfiguration) : Prop :=
  entries_in_order IniFile.ICompare (IniFile._map c)
  /\ Forall (fun e => Str.trim (snd e) = snd e) (IniFile._map c) /\ Str.trim (IniFile._sectionKey c) = IniFile._sectionKey c.

Lemma ini_line : line_keeps tidy_ini IniFile.parseLine.
Proof.
  intros c i (Hord & Htidy & Hsec). unfold IniFile.parseLine.
  destruct (get_any i) as (ch & i1 & G & T). rewrite (on_istr_any _ _ _ _ _ _ G).
  destruct (skip_all_any space_more ch i1) as (ch2 & i2 & E2 & O2); [done|]. rewrite (on_istr_any _ _ _ _ _ _ E2).
  assert (Far : forall i', onward i2 i' -> onward i i' /\ (failed i' = true \/ (length (rest i') < length (rest i))%nat)).
  { intros i' Ho. destruct T as [O1 T]. assert (O : onward i1 i') by eauto. split; [by eauto|].
    destruct T as [[Hf _]|Hl]; [left; by apply (ow_failed _ _ O)|right; pose proof (ow_rest _ _ O); lia]. }
  destruct (ch2 =? eof); [exists c, i2; split_and!; [done|done|by apply Far..]|].
  destruct (ch2 =? chr ";").
  { destruct (skip_all_any IniFile.line_more ch2 i2) as (ch3 & i3 & E3 & O3); [done|]. rewrite (on_istr_any _ _ _ _ _ _ E3).
    exists c, i3. split_and!; [done|done|by apply Far..]. }
  destruct (ch2 =? chr "[").
  { destruct (get_any i2) as (ch3 & i3 & G3 & T3). rewrite (on_istr_any _ _ _ _ _ _ G3).
    destruct (collect_all_any IniFile.section_more [] ch3 i3) as (kc & i4 & E4 & O4); [done|]. rewrite (on_istr_any _ _ _ _ _ _ E4).
    eexists _, i4. split; [reflexivity|]. split; [|by apply Far; eauto]. split_and!; [done|done|apply trim_trim]. }
  destruct (collect_all_any IniFile.key_more [] ch2 i2) as (kc & i3 & E3 & O3); [done|]. rewrite (on_istr_any _ _ _ _ _ _ E3).
  assert (exists v i4, (if snd kc =? chr "=" then
      let* c := get_char in let* vc := collect_all get_char IniFile.value_more [] c in ret (fst vc) else ret []) i3 = (Done v, i4)
    /\ onward i3 i4) as (v & i4 & E4 & O4).
  { destruct (_ =? _); [|by eexists _, _]. destruct (get_any i3) as (ch4 & i4 & G4 & T4). rewrite (bind_Done _ _ _ _ _ G4).
    destruct (collect_all_any IniFile.value_more [] ch4 i4) as (vc & i5 & E5 & O5); [done|]. rewrite (bind_Done _ _ _ _ _ E5).
    eexists _, i5. split; [reflexivity|]. eauto. }
  rewrite (on_istr_any _ _ _ _ _ _ E4). eexists _, i4. split; [reflexivity|]. split; [|by apply Far; eauto].
  split_and!; cbn; [by apply assign_ordered; [exact ICompare_trans|]| |done].
  apply assign_Forall; [|apply trim_trim|done]. intros. apply trim_trim.
Qed.

(** What PropertyFileConfiguration::save writes of a configuration whose keys
    and values need no escape, load reads back into any configuration: the same
    entries, and the stream is at its end. *)
Theorem property_file_roundtrip m c :
  Forall Saved.storable (MapConfiguration._map m) ->
  StronglySorted (fun a b => StringMap.str_less (fst a) (fst b) = true) (MapConfiguration._map m) ->
  exists i, PropertyFile.load (c, open (PropertyFile.save m)) = (Done tt, (m, i)) /\ rest i = [].
Proof.
  intros Hs Ho. destruct m as [es]. unfold PropertyFile.load. cbn [MapConfiguration._map] in *.
  rewrite (bind_Done _ _ _ tt (MapConfiguration.construct, open (PropertyFile.save_loop es))) by done.
  unfold load_all. rewrite bind_get. cbn [snd].
  destruct (Saved.load_loop_saved es (S (length (PropertyFile.save_loop es))) [] MapConfiguration.construct Hs ltac:(lia)) as [b' E].
  rewrite Saved.assign_all_order in E; [|done|apply Forall_true; constructor].
  eexists. split; [exact E|done].
Qed.

Lemma property_file_roundtrip_witness :
  exists i, PropertyFile.load (MapConfiguration.construct,
      open (PropertyFile.save {| MapConfiguration._map := [(str "log.level", str "debug"); (str "log.path", str "/var/log")] |}))
    = (Done tt, ({| MapConfiguration._map := [(str "log.level", str "debug"); (str "log.path", str "/var/log")] |}, i))
    /\ rest i = [].
Proof.
  apply (property_file_roundtrip {| MapConfiguration._map := [(str "log.level", str "debug"); (str "log.path", str "/var/log")] |}).
  - repeat apply Forall_cons_2; [..|constructor]; (split; cbn [fst snd];
      [by repeat constructor|by split|by vm_compute|by repeat constructor|by vm_compute]).
  - by repeat constructor.
Defined.

(** C22: Loading ends on every text, of a property file and of an initialization
    file: the whole text is read, the entries are in the order of their keys
    (letter case aside in an initialization file), and what is stored has no
    white space at its ends. *)
Theorem config_load_total text c d :
  (exists m i, PropertyFile.load (c, open text) = (Done tt, (m, i)) /\ rest i = [] /\ tidy_property m)
  /\ exists n i, IniFile.load (d, open text) = (Done tt, (n, i)) /\ rest i = [] /\ tidy_ini n.
Proof.
  split.
  - unfold PropertyFile.load. rewrite (bind_Done _ _ _ tt (MapConfiguration.construct, open text)) by done.
    unfold load_all. rewrite bind_get. cbn [snd].
    destruct (load_any _ _ property_line (S (length (rest (open text)))) MapConfiguration.construct (open text))
      as (m & i & E & Hm & Hr); [by repeat constructor|done|lia|by eauto].
  - unfold IniFile.load. rewrite (bind_Done _ _ _ tt (IniFile.construct, open text)) by done.
    unfold load_all. rewrite bind_get. cbn [snd].
    destruct (load_any _ _ ini_line (S (length (rest (open text)))) IniFile.construct (open text))
      as (m & i & E & Hm & Hr); [by repeat constructor|done|lia|by eauto].
Qed.

(** A backslash in a value is not escaped by [save], but taken as an escape by
    [load]. *)
Example property_save_not_escaped :
  let m := {| MapConfiguration._map := [(str "dir", [chr "a"; 92; chr "t"])] |} in
  fst (snd (PropertyFile.load (MapConfiguration.construct, open (PropertyFile.save m))))
    = {| MapConfiguration._map := [(str "dir", [chr "a"])] |}.
Proof. by vm_compute. Qed.

(** What follows a section name on its line is taken for a line of its own. *)
Example ini_text_behind_section :
  IniFile._map (fst (snd (IniFile.load (IniFile.construct, open (str "[net] ; socket" ++ [10] ++ str "port=1")))))
    = [(str "net.port", str "1")]
  /\ IniFile._map (fst (snd (IniFile.load (IniFile.construct, open (str "[net] port=1" ++ [10])))))
    = [(str "net.port", str "1")].
Proof. by vm_compute. Qed.

(** An escape sequence in a key is kept as it stands. *)
Example key_escape_kept :
  MapConfiguration._map (fst (snd (PropertyFile.load (MapConfiguration.construct,
    open ([chr "a"; 92; chr "t"; chr "="; 92; chr "n"; chr "b"; 10]))))) = [([chr "a"; 92; chr "t"], [chr "b"])].
Proof. by vm_compute. Qed.
