(* ===== verification/ConfigFacts.v ===== *)
(** Configurations: the expansion of references, the tree of keys, property
    files and layers. *)

From S2P Require Import Prelude Strings NumericString Headers HeadersFacts Config ConfigFiles.
From stdpp Require Import gmap.
From Stdlib Require Import Sorted.

Open Scope st_scope.
Local Open Scope Z_scope.

(** ** References between properties *)
Module Expansion.

(** The reference ends with a brace, or with the text. *)
Definition closed (q t : list Z) : Prop := q = chr "}" :: t \/ (q = [] /\ t = []).

Section Spec.
Context (lookup : list Z -> option (list Z)).

(** [expands_with K text result]: [result] is [text] with every [${name}] of a
    property replaced by what [K] gives for its value, and the others left. *)
Inductive expands_with (K : list Z -> list Z -> Prop) : list Z -> list Z -> Prop :=
| expands_nil : expands_with K [] []
| expands_char c t r : c <> chr "$" -> expands_with K t r -> expands_with K (c :: t) (c :: r)
| expands_dollar t r : head t <> Some (chr "{") -> expands_with K t r -> expands_with K (chr "$" :: t) (chr "$" :: r)
| expands_known p q t v e r :
    chr "}" ∉ p -> closed q t -> lookup p = Some v -> K v e -> expands_with K t r ->
    expands_with K (chr "$" :: chr "{" :: p ++ q) (e ++ r)
| expands_unknown p q t r :
    chr "}" ∉ p -> closed q t -> lookup p = None -> expands_with K t r ->
    expands_with K (chr "$" :: chr "{" :: p ++ q) (str "${" ++ p ++ str "}" ++ r).

(** References that nest at most [n] deep. *)
Fixpoint expands (n : nat) : list Z -> list Z -> Prop :=
  expands_with (match n with O => fun _ _ => False | S n => expands n end).
End Spec.

Abbreviation no_brace := (fun x => negb (x =? chr "}")).

Lemma span_closed p q t : chr "}" ∉ p -> closed q t -> span no_brace (p ++ q) = (p, q) /\ tail q = t.
Proof.
  intros Hp Hq. assert (Forall (fun x => no_brace x = true) p).
  { apply Forall_forall. intros x Hx. apply negb_true_iff, Z.eqb_neq. by intros ->. }
  destruct Hq as [-> | [-> ->]]; [by rewrite span_app|]. by rewrite app_nil_r, span_all.
Qed.

Lemma span_split l : let (p, q) := (span no_brace l) in l = p ++ q /\ (chr "}" ∉ p) /\ (closed q (tail q)).
Proof.
  induction l as [|c l IH]; cbn [span]; [split_and!; [done|apply not_elem_of_nil|by right]|].
  destruct (c =? chr "}") eqn:E; cbn [negb].
  - apply Z.eqb_eq in E as ->. split_and!; [done|apply not_elem_of_nil|by left].
  - destruct (span no_brace l) as [p q]. destruct IH as (-> & Hp & Hq). split_and!; [done| |done].
    apply Z.eqb_neq in E. rewrite not_elem_of_cons. by split.
Qed.

Section Run.
Context {C : Type} `{Configuration C}.
Context (lookup : list Z -> option (list Z)).
Abbreviation state := (Abstract.AbstractConfiguration C).

(** [m] gives what [R] allows, or throws when it allows nothing. *)
Definition decides (m : ST state (list Z)) (s : state) (R : list Z -> Prop) : Prop :=
  (exists r, m s = (Done r, s) /\ R r)
  \/ (m s = (Raise CircularReferenceException, s) /\ forall r, ~ R r).

Lemma decides_bind {A} (m : ST state A) (k : A -> ST state (list Z)) s a R :
  m s = (Done a, s) -> decides (k a) s R -> decides (bind m k) s R.
Proof. intros E. unfold decides. by rewrite (bind_Done _ _ _ _ _ E). Qed.

Lemma expand_loop_ok (ie : list Z -> ST state (list Z)) (K : list Z -> list Z -> Prop) (s : state) :
  (forall k, getRaw k (Abstract.raw s) = Done (lookup k)) ->
  (forall v, decides (ie v) s (K v)) -> (forall v e e', K v e -> K v e' -> e = e') -> forall fuel it acc, (length it <= fuel)%nat ->
  decides (Abstract.expand_loop ie fuel it acc) s
    (fun r => exists r', r = acc ++ r' /\ expands_with lookup K it r').
Proof.
  intros Hraw Hie Hfun. induction fuel as [|fuel IH]; intros it acc Hf.
  { destruct it; [|simpl in Hf; lia]. left. exists acc. split; [done|]. exists [].
    split; [by rewrite app_nil_r|constructor]. }
  destruct it as [|c it]; cbn [Abstract.expand_loop].
  { left. exists acc. split; [done|]. exists []. split; [by rewrite app_nil_r|constructor]. }
  assert (Hstep : forall e it', (length it' <= fuel)%nat ->
    (forall r', expands_with lookup K it' r' -> expands_with lookup K (c :: it) (e ++ r')) ->
    (forall r, expands_with lookup K (c :: it) r -> exists r', r = e ++ r' /\ expands_with lookup K it' r') ->
    decides (Abstract.expand_loop ie fuel it' (acc ++ e)) s
      (fun r => exists r', r = acc ++ r' /\ expands_with lookup K (c :: it) r')).
  { intros e it' Hl Hin Hout. destruct (IH it' (acc ++ e) Hl) as [(r & E & r' & -> & Hr)|[E Hn]].
    - left. eexists. split; [exact E|]. exists (e ++ r'). rewrite app_assoc. auto.
    - right. split; [done|]. intros r (r1 & -> & Hr1). destruct (Hout _ Hr1) as (r' & -> & Hr').
      apply (Hn (acc ++ e ++ r')). exists r'. by rewrite app_assoc. }
  simpl in Hf. destruct (c =? chr "$") eqn:Ec.
  2: { apply Z.eqb_neq in Ec. apply Hstep; [lia|by constructor|]. intros r Hr. inversion Hr; subst; [by eexists|done..]. }
  apply Z.eqb_eq in Ec as ->. destruct it as [|d it].
  { apply Hstep; [simpl; lia|by constructor|]. intros r Hr. inversion Hr; subst; [done|by eexists]. }
  destruct (d =? chr "{") eqn:Ed.
  2: { apply Z.eqb_neq in Ed. apply Hstep; [lia|constructor; [by intros [=]|done]|].
       intros r Hr. inversion Hr; subst; [done|by eexists|done..]. }
  apply Z.eqb_eq in Ed as ->. pose proof (span_split it) as Hsp.
  destruct (span no_brace it) as [p q] eqn:Esp. destruct Hsp as (Eit & Hp & Hq).
  assert (Hlen : (length (tail q) <= fuel)%nat).
  { apply (f_equal (@length Z)) in Eit. rewrite length_app in Eit. destruct q; simpl in *; lia. }
  assert (Hinv : forall r, expands_with lookup K (chr "$" :: chr "{" :: it) r ->
    (exists v e r', lookup p = Some v /\ K v e /\ r = e ++ r' /\ expands_with lookup K (tail q) r')
    \/ (exists r', lookup p = None /\ r = (str "${" ++ p ++ str "}") ++ r' /\ expands_with lookup K (tail q) r')).
  { clear Eit. intros r Hr. inversion Hr as [|? ? ? Hc|? ? Hh|p' q' t v e r' Hp' Hq' Hl HK Hr' E1 E2|p' q' t r' Hp' Hq' Hl Hr' E1 E2];
      subst; [done..| |]; (destruct (span_closed p' q' t Hp' Hq') as [Es <-]; rewrite Es in Esp; injection Esp as -> ->).
    - left. by exists v, e, r'.
    - right. exists r'. by rewrite <-!app_assoc. }
  eapply decides_bind; [unfold Abstract.raw_of, lift; rewrite bind_get, Hraw; done|].
  destruct (lookup p) as [v|] eqn:El.
  - destruct (Hie v) as [(e & E & He)|[E Hn]].
    + eapply decides_bind; [exact E|]. apply Hstep; [done|intros; subst it; by eapply expands_known|].
      intros r Hr. destruct (Hinv r Hr) as [(v' & e' & r' & [= <-] & He' & -> & Hr')|(r' & [=] & _)].
      rewrite (Hfun v e' e He' He). by eexists.
    + right. split; [exact (bind_Raise _ _ _ _ _ E)|]. intros r (r1 & -> & Hr1).
      destruct (Hinv r1 Hr1) as [(v' & e' & r' & [= <-] & He' & _)|(r' & [=] & _)]. by apply (Hn e').
  - apply Hstep; [done| |].
    + intros r' Hr'. subst it. rewrite <-!app_assoc. by eapply expands_unknown.
    + intros r Hr. destruct (Hinv r Hr) as [(v' & e' & r' & [=] & _)|(r' & _ & -> & Hr')]. by eexists.
Qed.
(** Expansion is a function of the text. *)
Lemma expands_with_functional (K : list Z -> list Z -> Prop) :
  (forall v e e', K v e -> K v e' -> e = e') ->
  forall t r, expands_with lookup K t r -> forall r', expands_with lookup K t r' -> r = r'.
Proof.
  intros HK t r Hr. induction Hr as [|c t r Hc Hr IH|t r Hh Hr IH|p q t v e r Hp Hq Hl He Hr IH|p q t r Hp Hq Hl Hr IH];
    intros r' Hr'.
  - by inversion Hr'.
  - inversion Hr'; subst; [f_equal; auto|done..].
  - inversion Hr'; subst; [done|f_equal; auto|done..].
  - destruct (span_closed p q t Hp Hq) as [Es <-].
    inversion Hr' as [|? ? ? Hc|? ? Hh|p' q' t' v' e' r1 Hp' Hq' Hl' He' Hr1 E1 E2|p' q' t' r1 Hp' Hq' Hl' Hr1 E1 E2];
      [done..| |]; destruct (span_closed p' q' t' Hp' Hq') as [Es' <-]; rewrite E1, Es in Es'; injection Es' as <- <-.
    + rewrite Hl in Hl'. injection Hl' as <-. rewrite (HK _ _ _ He He'). f_equal. auto.
    + by rewrite Hl in Hl'.
  - destruct (span_closed p q t Hp Hq) as [Es <-].
    inversion Hr' as [|? ? ? Hc|? ? Hh|p' q' t' v' e' r1 Hp' Hq' Hl' He' Hr1 E1 E2|p' q' t' r1 Hp' Hq' Hl' Hr1 E1 E2];
      [done..| |]; destruct (span_closed p' q' t' Hp' Hq') as [Es' <-]; rewrite E1, Es in Es'; injection Es' as <- <-.
    + by rewrite Hl in Hl'.
    + do 3 f_equal. auto.
Qed.

Lemma expands_functional n : forall v e e', expands lookup n v e -> expands lookup n v e' -> e = e'.
Proof.
  induction n as [|n IH]; intros v e e' He He'; by eapply expands_with_functional; [|exact He|exact He'].
Qed.

(** The counter is back where it was on every way out. *)
Lemma AutoCounter_decides (m : ST state (list Z)) (s : state) R :
  decides m (Abstract.set_depth (Abstract._depth s + 1) s) R -> decides (Abstract.AutoCounter m) s R.
Proof.
  assert (E : Abstract.set_depth (Abstract._depth s + 1 - 1) (Abstract.set_depth (Abstract._depth s + 1) s) = s).
  { destruct s. unfold Abstract.set_depth. cbn. f_equal. lia. }
  unfold Abstract.AutoCounter. intros [(r & Em & Hr)|[Em Hn]]; [left; exists r|right]; rewrite Em; cbn [Abstract._depth Abstract.set_depth] in *.
  - split; [|done]. f_equal. exact E.
  - split; [|done]. f_equal. exact E.
Qed.

Lemma internalExpand_deep fuel (s : state) v (R : list Z -> Prop) :
  10 <= Abstract._depth s -> (forall r, ~ R r) -> decides (Abstract.internalExpand_fuel fuel v) s R.
Proof.
  intros Hd HR. destruct fuel; cbn [Abstract.internalExpand_fuel]; apply AutoCounter_decides; right;
    (split; [|done]); rewrite bind_get; cbn [Abstract._depth Abstract.set_depth];
    rewrite (proj2 (Z.ltb_lt _ _)) by lia; done.
Qed.

Lemma internalExpand_ok n : forall fuel (s : state) v,
  (forall k, getRaw k (Abstract.raw s) = Done (lookup k)) ->
  Abstract._depth s = 9 - Z.of_nat n -> (n < fuel)%nat ->
  decides (Abstract.internalExpand_fuel fuel v) s (expands lookup n v).
Proof.
  induction n as [|n IH]; intros fuel s v Hraw Hd Hf; (destruct fuel as [|fuel]; [lia|]);
    cbn [Abstract.internalExpand_fuel]; apply AutoCounter_decides.
  all: set (s1 := Abstract.set_depth _ s); eapply decides_bind; [reflexivity|];
    assert (Hd1 : Abstract._depth s1 = Abstract._depth s + 1) by done;
    rewrite (proj2 (Z.ltb_ge 10 _)) by lia; unfold Abstract.uncheckedExpand.
  - destruct (expand_loop_ok (Abstract.internalExpand_fuel fuel) (fun _ _ => False) s1 Hraw) with (fuel := length v) (it := v) (acc := @nil Z)
      as [(r & E & r' & -> & Hr)|[E Hn]]; [|done|done| |].
    + intros w. apply internalExpand_deep; [lia|by intros r []].
    + left. by exists r'.
    + right. split; [done|]. intros r Hr. apply (Hn r). by exists r.
  - destruct (expand_loop_ok (Abstract.internalExpand_fuel fuel) (expands lookup n) s1 Hraw) with (fuel := length v) (it := v) (acc := @nil Z)
      as [(r & E & r' & -> & Hr)|[E Hn]]; [|by apply expands_functional|done| |].
    + intros w. apply IH; [done|lia|lia].
    + left. by exists r'.
    + right. split; [done|]. intros r Hr. apply (Hn r). by exists r.
Qed.
End Run.
End Expansion.

(** C20: Expanding a text in a configuration gives the text in which every
    reference to a property is replaced by the expansion of its value, when the
    references nest at most nine deep, and throws CircularReferenceException
    otherwise; there is only one such text, and the configuration, with its
    depth counter, is as it was on either way out. *)
Theorem expand_exact {C} `{Configuration C} (c : C) (lookup : list Z -> option (list Z)) text :
  (forall k, getRaw k c = Done (lookup k)) ->
  let s := Abstract.construct c in
  (forall r r', Expansion.expands lookup 9 text r -> Expansion.expands lookup 9 text r' -> r = r') /\
  ((exists r, Abstract.expand text s = (Done r, s) /\ Expansion.expands lookup 9 text r)
   \/ (Abstract.expand text s = (Raise CircularReferenceException, s) /\ forall r, ~ Expansion.expands lookup 9 text r)).
Proof.
  intros Hraw s. split; [intros r r'; apply Expansion.expands_functional|].
  apply (Expansion.internalExpand_ok lookup 9 11 s text); [done|done|lia].
Qed.

Definition some_properties : MapConfiguration.MapConfiguration_ :=
  {| MapConfiguration._map := [(str "base", str "/opt"); (str "bin", str "${base}/bin"); (str "loop", str "x${loop}")] |}.

Lemma expand_exact_witness :
  let s := Abstract.construct some_properties in
  let lookup := fun k => StringMap.find StringMap.str_less k (MapConfiguration._map some_properties) in
  (forall r r', Expansion.expands lookup 9 (str "${bin}:$1${none}") r -> Expansion.expands lookup 9 (str "${bin}:$1${none}") r' -> r = r')
  /\ ((exists r, Abstract.expand (str "${bin}:$1${none}") s = (Done r, s) /\ Expansion.expands lookup 9 (str "${bin}:$1${none}") r)
   \/ (Abstract.expand (str "${bin}:$1${none}") s = (Raise CircularReferenceException, s)
       /\ forall r, ~ Expansion.expands lookup 9 (str "${bin}:$1${none}") r)).
Proof. exact (expand_exact some_properties _ (str "${bin}:$1${none}") (fun _ => eq_refl)). Defined.

Example expand_some :
  fst (Abstract.expand (str "${bin}:$1${none}") (Abstract.construct some_properties)) = Done (str "/opt/bin:$1${none}")
  /\ fst (Abstract.expand (str "${loop}") (Abstract.construct some_properties)) = Raise CircularReferenceException.
Proof. by vm_compute. Qed.

(** ** The tree of keys *)
Module Tree.
Import MapConfiguration.

(** [k'] is [key] or lies below it. *)
Definition under (key k : list Z) : Prop := key = [] \/ k = key \/ (key ++ [chr "."]) `prefix_of` k.

(** [s] is the component of the key [k] behind [key]. *)
Definition child (key k s : list Z) : Prop :=
  exists t, k = MapConfiguration.prefix_of key ++ s ++ t /\ (chr "." ∉ s) /\ (t = [] \/ head t = Some (chr ".")).

#[global] Instance under_dec key k : Decision (under key k).
Proof. unfold under. apply _. Defined.

Inductive op := Set_ (k v : list Z) | Remove (k : list Z).

Definition step (o : op) (c : MapConfiguration_) : MapConfiguration_ :=
  match o with
  | Set_ k v => snd (setRaw k v c)
  | Remove k => snd (removeRaw k c)
  end.

Definition spec_step (o : op) (M : gmap (list Z) (list Z)) : gmap (list Z) (list Z) :=
  match o with
  | Set_ k v => <[k := v]> M
  | Remove k => filter (fun e => ~ under k (fst e)) M
  end.

Lemma str_less_irrefl a : StringMap.str_less a a = false.
Proof. induction a as [|x a IH]; [done|]. cbn. by rewrite Z.ltb_irrefl. Qed.

Lemma str_less_total a : forall b, StringMap.str_less a b = false -> StringMap.str_less b a = false -> a = b.
Proof.
  induction a as [|x a IH]; intros [|y b]; cbn [StringMap.str_less]; try done.
  destruct (x <? y) eqn:E1, (y <? x) eqn:E2; try done. intros H1 H2. f_equal; [lia|auto].
Qed.

Abbreviation ordered := (StronglySorted (fun a b : list Z * list Z => StringMap.str_less (fst a) (fst b) = true)).
Abbreviation find := (StringMap.find StringMap.str_less).

Lemma find_less k m : Forall (fun e => StringMap.str_less k (fst e) = true) m -> find k m = None.
Proof.
  destruct 1 as [|[k' v'] m Hk _]; [done|]. cbn [StringMap.find fst] in *. rewrite Hk. destruct (StringMap.str_less k' k) eqn:E; [|done].
  pose proof (str_less_trans _ _ _ Hk E) as F. by rewrite str_less_irrefl in F.
Qed.

Lemma find_cons k k' v' m :
  ordered ((k', v') :: m) -> find k ((k', v') :: m) = if bool_decide (k = k') then Some v' else find k m.
Proof.
  intros Ho. inversion Ho as [|? ? Ho' Hk]; subst. cbn [StringMap.find fst] in *. case_bool_decide as E.
  - subst k'. by rewrite str_less_irrefl.
  - destruct (StringMap.str_less k' k) eqn:E1; [done|]. destruct (StringMap.str_less k k') eqn:E2.
    + symmetry. apply find_less. eapply Forall_impl; [exact Hk|]. intros [k2 v2]. cbn. by apply str_less_trans.
    + by destruct E; apply str_less_total.
Qed.

Lemma find_assign k k' v m :
  ordered m -> find k' (StringMap.assign StringMap.str_less k v m) = if bool_decide (k' = k) then Some v else find k' m.
Proof.
  induction m as [|[k1 v1] m IH]; intros Ho; cbn [StringMap.assign].
  { rewrite find_cons by (by repeat constructor). done. }
  pose proof (assign_ordered _ str_less_trans k v _ Ho) as Ha. cbn [StringMap.assign] in Ha.
  pose proof Ho as Ho1. inversion Ho as [|? ? Ho' Hk]; subst.
  destruct (StringMap.str_less k1 k) eqn:E1; [|destruct (StringMap.str_less k k1) eqn:E2].
  - rewrite !find_cons by done. rewrite IH by done. do 2 case_bool_decide; try done. subst.
    by rewrite str_less_irrefl in E1.
  - by rewrite find_cons by done.
  - assert (k = k1) as -> by (by apply str_less_total). rewrite !find_cons by done. by case_bool_decide.
Qed.

Lemma remove_loop_Forall (P : list Z * list Z -> Prop) f m : Forall P m -> Forall P (remove_loop f m).
Proof. induction 1 as [|[k v] m Hk Hm IH]; [done|]. cbn. destruct (f k); [done|by constructor]. Qed.

Lemma remove_ordered f m : ordered m -> ordered (remove_loop f m).
Proof.
  induction 1 as [|[k v] m Hm IH Hk]; [constructor|]. cbn. destruct (f k); [done|]. constructor; [done|].
  by apply remove_loop_Forall.
Qed.

Lemma find_remove f k m : ordered m -> find k (remove_loop f m) = if f k then None else find k m.
Proof.
  induction m as [|[k1 v1] m IH]; intros Ho; [cbn; by destruct (f k)|].
  pose proof (remove_ordered f _ Ho) as Hr. rewrite find_cons by done. inversion Ho as [|? ? Ho' Hk]; subst.
  cbn [remove_loop] in *. specialize (IH Ho'). destruct (f k1) eqn:E1.
  - rewrite IH. destruct (f k) eqn:E; [done|]. case_bool_decide; [congruence|done].
  - rewrite find_cons, IH by done. case_bool_decide; [subst; by rewrite E1|done].
Qed.

Lemma starts_with_spec p k : starts_with p k = true <-> p `prefix_of` k.
Proof.
  unfold starts_with. rewrite eqb_str_spec. split.
  - intros E. exists (drop (length p) k). rewrite <-E at 1. by rewrite take_drop.
  - intros [t ->]. by rewrite take_app_length.
Qed.

Lemma removed_spec key k : eqb_str k key || starts_with (MapConfiguration.prefix_of key) k = bool_decide (under key k).
Proof.
  apply eq_true_iff_eq. rewrite orb_true_iff, eqb_str_spec, starts_with_spec, bool_decide_eq_true. unfold under.
  destruct key as [|c key]; cbn [MapConfiguration.prefix_of].
  - split; [by left|]. intros _. right. apply prefix_nil.
  - split; [intros [-> |Hp]; auto|]. intros [[=]|[-> |Hp]]; auto.
Qed.

(** The entries are those of the finite map. *)
Definition rep (c : MapConfiguration_) (M : gmap (list Z) (list Z)) : Prop :=
  ordered (_map c) /\ forall k, find k (_map c) = M !! k.

Lemma step_rep o c M : rep c M -> rep (step o c) (spec_step o M).
Proof.
  intros [Ho Hf]. destruct o as [k v|key]; split; cbn.
  - by apply assign_ordered; [exact str_less_trans|].
  - intros k'. rewrite find_assign, Hf by done. case_bool_decide; [subst; by rewrite lookup_insert_eq|by rewrite lookup_insert_ne].
  - by apply remove_ordered.
  - intros k. rewrite find_remove, removed_spec, Hf by done. case_bool_decide as E.
    + symmetry. apply map_lookup_filter_None. right. intros v _ Hn. by apply Hn.
    + symmetry. destruct (M !! k) as [v|] eqn:Ek.
      * by apply map_lookup_filter_Some.
      * apply map_lookup_filter_None. by left.
Qed.

Lemma find_elem k v m : ordered m -> (k, v) ∈ m <-> find k m = Some v.
Proof.
  induction m as [|[k1 v1] m IH]; intros Ho; [cbn; rewrite elem_of_nil; done|].
  rewrite find_cons by done. inversion Ho as [|? ? Ho' Hk]; subst. rewrite elem_of_cons, IH by done. case_bool_decide as E.
  - subst k1. split; [intros [[= ->]|Hin]; [done|]|intros [= ->]; by left].
    rewrite find_less in Hin by done. done.
  - split; [intros [[= -> ->]|?]; done|by right].
Qed.

Abbreviation no_dot := (fun c => negb (c =? chr ".")).

Lemma sub_key_spec r s : s = fst (span no_dot r) <-> exists t, r = s ++ t /\ (chr "." ∉ s) /\ (t = [] \/ head t = Some (chr ".")).
Proof.
  assert (Hfor : forall s, chr "." ∉ s <-> Forall (fun x => no_dot x = true) s).
  { intros s'. rewrite Forall_forall. split.
    - intros Hs x Hx. apply negb_true_iff, Z.eqb_neq. by intros ->.
    - intros Hs Hx. by apply Hs in Hx. }
  split.
  - intros ->. induction r as [|c r (t & Er & Hs & Ht)]; [exists []; split_and!; [done|apply not_elem_of_nil|by left]|].
    cbn [span]. destruct (c =? chr ".") eqn:E; cbn [negb].
    + apply Z.eqb_eq in E as ->. exists (chr "." :: r). split_and!; [done|apply not_elem_of_nil|by right].
    + destruct (span no_dot r) as [a b]. cbn [fst] in *. exists t. subst r. split_and!; [done| |done].
      apply Z.eqb_neq in E. apply not_elem_of_cons. by split.
  - intros (t & -> & Hs & Ht). apply Hfor in Hs. destruct t as [|d t]; [by rewrite app_nil_r, span_all|].
    destruct Ht as [[=]|[= ->]]. by rewrite span_app.
Qed.

Lemma child_spec key k s :
  starts_with (MapConfiguration.prefix_of key) k = true /\ s = sub_key (length (MapConfiguration.prefix_of key)) k <-> child key k s.
Proof.
  rewrite starts_with_spec. unfold sub_key, child. split.
  - intros [[r ->] Es]. rewrite drop_app_length in Es. apply sub_key_spec in Es as (t & -> & Hs & Ht). by exists t.
  - intros (t & -> & Hs & Ht). split; [by exists (s ++ t)|]. rewrite drop_app_length. apply sub_key_spec. by exists t.
Qed.

Lemma enumerate_loop_spec f n m : forall seen range,
  NoDup range -> (forall s, s ∈ seen <-> s ∈ range) ->
  NoDup (enumerate_loop f n m seen range)
  /\ forall s, s ∈ enumerate_loop f n m seen range <-> s ∈ range \/ exists k v, (k, v) ∈ m /\ f k = true /\ s = sub_key n k.
Proof.
  induction m as [|[k v] m IH]; intros seen range Hn Hs; cbn [enumerate_loop].
  { split; [done|]. intros s. split; [by left|]. intros [?|(k & v & Hin & _)]; [done|]. by apply elem_of_nil in Hin. }
  assert (Hskip : forall range' : list (list Z), (forall s, (s ∈ range' <-> s ∈ range \/ (f k = true /\ s = sub_key n k))) ->
    forall s, (s ∈ range' \/ exists k' v', (k', v') ∈ m /\ f k' = true /\ s = sub_key n k')
      <-> (s ∈ range \/ exists k' v', (k', v') ∈ (k, v) :: m /\ f k' = true /\ s = sub_key n k')).
  { intros range' Hr s. rewrite Hr. setoid_rewrite elem_of_cons. split.
    - intros [[?|[? ?]]|(k' & v' & ? & ?)]; [by left|right; exists k, v; auto|right; exists k', v'; auto].
    - intros [?|(k' & v' & [[= -> ->]|?] & ? & ?)]; [by left; left|by left; right|right; exists k', v'; auto]. }
  destruct (f k) eqn:Ef; [case_bool_decide as Eseen|].
  - destruct (IH seen range Hn Hs) as [H1 H2]. split; [done|]. intros s. rewrite H2. apply Hskip.
    intros s'. split; [by left|]. intros [?|[_ ->]]; [done|]. by apply Hs.
  - destruct (IH ({[sub_key n k]} ∪ seen) (range ++ [sub_key n k])) as [H1 H2].
    + apply NoDup_app. split_and!; [done| |apply NoDup_singleton]. intros x Hx ->%list_elem_of_singleton. by apply Eseen, Hs.
    + intros s. rewrite elem_of_union, elem_of_singleton, elem_of_app, list_elem_of_singleton, Hs. tauto.
    + split; [done|]. intros s. rewrite H2. apply Hskip. intros s'. rewrite elem_of_app, list_elem_of_singleton. naive_solver.
  - destruct (IH seen range Hn Hs) as [H1 H2]. split; [done|]. intros s. rewrite H2. apply Hskip. naive_solver.
Qed.
End Tree.

(** After any sequence of setRaw and removeRaw on a new MapConfiguration its
    properties are those of the finite map in which removing a key removes
    everything below it, and the keys of a node are, each once, the components
    that follow its name in the keys of the map. *)
Theorem map_configuration_tree ops :
  let c := foldl (fun c o => Tree.step o c) MapConfiguration.construct ops in
  let M := foldl (fun M o => Tree.spec_step o M) ∅ ops in
  (forall k, getRaw k c = Done (M !! k)) /\
  forall key, exists ks, enumerate key c = Done ks /\ NoDup ks /\
    forall s, s ∈ ks <-> exists k v, M !! k = Some v /\ Tree.child key k s.
Proof.
  intros c M. assert (Hr : Tree.rep c M).
  { subst c M. assert (H0 : Tree.rep MapConfiguration.construct ∅) by (split; [constructor|done]). revert H0.
    generalize MapConfiguration.construct (∅ : gmap (list Z) (list Z)). induction ops as [|o ops IH]; intros c M H0; [done|].
    cbn [foldl]. apply IH. by apply Tree.step_rep. }
  destruct Hr as [Ho Hf]. split; [intros k; cbn; unfold MapConfiguration.get_raw; by rewrite Hf|].
  intros key. eexists. split; [reflexivity|].
  destruct (Tree.enumerate_loop_spec (MapConfiguration.starts_with (MapConfiguration.prefix_of key))
    (length (MapConfiguration.prefix_of key)) (MapConfiguration._map c) ∅ []) as [H1 H2]; [constructor|set_solver|].
  split; [done|]. intros s. rewrite H2, elem_of_nil. split.
  - intros [[]|(k & v & Hin & E)]. exists k, v. split; [rewrite <-Hf; by apply Tree.find_elem|by apply Tree.child_spec].
  - intros (k & v & Hin & E). right. exists k, v. rewrite <-Hf in Hin. split; [by apply Tree.find_elem|by apply Tree.child_spec].
Qed.

(** ** Layers *)

(** What a layer promises: the properties are a function of the key, and
    setting one changes it and no other. *)
Class LawfulConfiguration (C : Type) `{Configuration C} := {
  valid : C -> Prop;
  value : C -> list Z -> option (list Z);
  raw_value c k : valid c -> getRaw k c = Done (value c k);
  raw_set c k v : valid c -> exists c', setRaw k v c = (Done tt, c') /\ valid c'
    /\ forall k', value c' k' = if bool_decide (k' = k) then Some v else value c k'
}.

#[global] Instance map_configuration_lawful : LawfulConfiguration MapConfiguration.MapConfiguration_.
Proof.
  refine {| valid c := Tree.ordered (MapConfiguration._map c);
            value c k := StringMap.find StringMap.str_less k (MapConfiguration._map c) |}.
  - done.
  - intros c k v Ho. eexists. split; [reflexivity|]. split.
    + by apply assign_ordered; [exact str_less_trans|].
    + intros k'. by apply Tree.find_assign.
Defined.

Module Layers.
Import Layered.
Section Facts.
Context {C O : Type} `{LawfulConfiguration C} (notify : Z -> Abstract.event -> ST O unit).
Implicit Types L : LayeredConfiguration C O.

(** The property [k] of the object at [p]. *)
Definition value_at (h : Shared.heap C O) (p : Z) (k : list Z) : option (list Z) :=
  match Shared.objects h !! p with Some s => value (Abstract.raw s) k | None => None end.

(** The layers are objects of the heap. *)
Definition layers_ok L : Prop :=
  Forall (fun i => exists s, Shared.objects (objects L) !! pConfig i = Some s /\ valid (Abstract.raw s)) (_configs L).

(** The first layer that has a value. *)
Fixpoint first_value (f : Z -> option (list Z)) (l : list ConfigItem) : option (list Z) :=
  match l with
  | [] => None
  | i :: r => match f (pConfig i) with Some v => Some v | None => first_value f r end
  end.

Lemma get_first L k : layers_ok L -> Layered.get_raw k L = Done (first_value (fun p => value_at (objects L) p k) (_configs L)).
Proof.
  unfold layers_ok, get_raw. generalize (_configs L) as l. induction 1 as [|i l (s & Es & Hs) Hl IH]; [done|].
  cbn [get_loop first_value]. unfold Shared.deref, value_at at 1. rewrite Es, raw_value by done. cbn [rbind].
  by destruct (value _ k).
Qed.

Lemma first_value_ext f g l : (forall p, f p = g p) -> first_value f l = first_value g l.
Proof. intros E. induction l as [|i l IH]; [done|]. cbn. by rewrite E, IH. Qed.

Lemma first_writeable_in l p : first_writeable l = Some p -> exists i, i ∈ l /\ pConfig i = p.
Proof.
  induction l as [|i l IH]; [done|]. cbn. destruct (writeable i).
  - intros [= <-]. exists i. split; [apply elem_of_cons; by left|done].
  - intros Hp. destruct (IH Hp) as (j & Hj & Ej). exists j. split; [apply elem_of_cons; by right|done].
Qed.

(** A layered configuration answers with the first layer that has the property;
    setting one changes it in the first layer that can be written, through every
    layer that is the same object, and in no other; without such a layer it
    throws. *)
Theorem layered_set_get L k v : layers_ok L ->
  match first_writeable (_configs L) with
  | None => Layered.set_raw k v L = (Raise RuntimeException, L)
  | Some p => exists L', Layered.set_raw k v L = (Done tt, L') /\ layers_ok L' /\ _configs L' = _configs L
      /\ forall k', Layered.get_raw k' L' = Done (first_value (fun q =>
           if bool_decide (q = p /\ k' = k) then Some v else value_at (objects L) q k') (_configs L))
  end.
Proof.
  intros HL. unfold Layered.set_raw. destruct (first_writeable (_configs L)) as [p|] eqn:Ep;
    [|by rewrite bind_get, Ep].
  destruct (first_writeable_in _ _ Ep) as (i & Hi & <-). pose proof HL as HL0. unfold layers_ok in HL0.
  rewrite Forall_forall in HL0. destruct (HL0 i Hi) as (s & Es & Hs). destruct (raw_set (Abstract.raw s) k v Hs) as (c' & Ec & Hc' & Hv).
  rewrite bind_get, Ep. unfold on_heap, Shared.call_setRaw, Shared.call. rewrite Es.
  unfold Abstract.on_config, Abstract.on_raw. cbn [fst snd]. rewrite Ec.
  set (s' := {| Abstract.raw := c'; Abstract._depth := _; Abstract._eventsEnabled := _ |}).
  set (h' := {| Shared.objects := _; Shared.observers := _ |}).
  assert (HL' : layers_ok {| _configs := _configs L; objects := h' |}).
  { unfold layers_ok. apply Forall_forall. intros j Hj. cbn. destruct (decide (pConfig j = pConfig i)) as [-> |Hne].
    - rewrite lookup_insert_eq. eauto.
    - rewrite lookup_insert_ne by done. by apply HL0. }
  eexists. split; [reflexivity|]. split; [done|]. split; [done|]. intros k'. rewrite get_first by done. cbn [_configs objects].
  f_equal. apply first_value_ext. intros q. unfold value_at. cbn [Shared.objects h'].
  destruct (decide (q = pConfig i)) as [-> |Hne].
  - rewrite lookup_insert_eq, Es. cbn [Abstract.raw s']. rewrite Hv. do 2 case_bool_decide; naive_solver.
  - rewrite lookup_insert_ne by done. rewrite bool_decide_eq_false_2 by naive_solver. done.
Qed.

(** Adding a layer keeps them in the order of their priorities, before those of
    the same priority. *)
Lemma insert_item_sorted item l :
  StronglySorted (fun a b => priority a <= priority b) l -> StronglySorted (fun a b => priority a <= priority b) (insert_item item l).
Proof.
  induction 1 as [|i l Hl IH Hi]; cbn [insert_item]; [by repeat constructor|]. destruct (priority i <? priority item) eqn:E.
  - constructor; [done|]. clear IH Hl. induction Hi as [|j l Hj Hi IH]; cbn [insert_item]; [constructor; [lia|constructor]|].
    destruct (priority j <? priority item); constructor; [done|done|lia|by constructor].
  - constructor; [by constructor|]. constructor; [lia|]. eapply Forall_impl; [exact Hi|]. cbn. lia.
Qed.
End Facts.
End Layers.

(** A view falls back to the whole configuration, so a property outside the
    prefix shows through it. *)
Example view_shows_whole :
  let c := {| MapConfiguration._map := [(str "port", str "1")] |} in
  let h := {| Shared.objects := {[ 1 := Abstract.construct c ]}; Shared.observers := tt |} in
  View.get_raw (str "port") {| View._prefix := str "net"; View._pConfig := 1; View.objects := h |} = Done (Some (str "1"))
  /\ View.enumerate_ [] {| View._prefix := str "net"; View._pConfig := 1; View.objects := h |} = Done [].
Proof. by vm_compute. Qed.

(** Hexadecimal numbers are read by [getInt] alone, whatever the type. *)
Example hex_only_int :
  let s := Abstract.construct {| MapConfiguration._map := [(str "n", str "0x10")] |} in
  fst (Abstract.getInt (str "n") s) = Done 16 /\ fst (Abstract.getUInt (str "n") s) = Raise SyntaxException
  /\ fst (Abstract.getInt64 (str "n") s) = Raise SyntaxException /\ fst (Abstract.getUInt64 (str "n") s) = Raise SyntaxException.
Proof. by vm_compute. Qed.
