(* ===== verification/Options.v ===== *)
(** Command line options of POCO Util: Option.cpp, OptionSet.cpp and
    OptionProcessor.cpp.

    The validator, the callback and the configuration of an option are used by
    Application, not by the processor, and are left out. *)

From S2P Require Import Prelude Strings.
From stdpp Require Import gmap.

Open Scope st_scope.
Local Open Scope Z_scope.

(** ** Option *)
Module Option.

Record Option_ := {
  _shortName : list Z; _fullName : list Z; _description : list Z; _required : bool; _repeatable : bool;
  _argName : list Z; _argRequired : bool; _group : list Z; _binding : list Z
}.

#[global] Instance Option_eq_dec : EqDecision Option_.
Proof. solve_decision. Defined.

Definition construct (fullName shortName description : list Z) (required : bool) (argName : list Z) (argRequired : bool) : Option_ :=
  {| _shortName := shortName; _fullName := fullName; _description := description; _required := required;
     _repeatable := false; _argName := argName; _argRequired := argRequired; _group := []; _binding := [] |}.

Definition repeatable (flag : bool) (o : Option_) : Option_ :=
  {| _shortName := _shortName o; _fullName := _fullName o; _description := _description o; _required := _required o;
     _repeatable := flag; _argName := _argName o; _argRequired := _argRequired o; _group := _group o; _binding := _binding o |}.
Definition required (flag : bool) (o : Option_) : Option_ :=
  {| _shortName := _shortName o; _fullName := _fullName o; _description := _description o; _required := flag;
     _repeatable := _repeatable o; _argName := _argName o; _argRequired := _argRequired o; _group := _group o; _binding := _binding o |}.
Definition argument (name : list Z) (required : bool) (o : Option_) : Option_ :=
  {| _shortName := _shortName o; _fullName := _fullName o; _description := _description o; _required := _required o;
     _repeatable := _repeatable o; _argName := name; _argRequired := required; _group := _group o; _binding := _binding o |}.
Definition noArgument (o : Option_) : Option_ := argument [] false o.
Definition group (g : list Z) (o : Option_) : Option_ :=
  {| _shortName := _shortName o; _fullName := _fullName o; _description := _description o; _required := _required o;
     _repeatable := _repeatable o; _argName := _argName o; _argRequired := _argRequired o; _group := g; _binding := _binding o |}.

Definition empty (s : list Z) : bool := match s with [] => true | _ => false end.
Definition takesArgument (o : Option_) : bool := negb (empty (_argName o)).

(** [option.find_first_of(":=")], as the text in front and the text behind. *)
Definition is_sep (c : Z) : bool := (c =? chr ":") || (c =? chr "=").
Definition split_sep (option : list Z) : list Z * list Z := span (fun c => negb (is_sep c)) option.

(** [option.compare(0, name.length(), name) == 0] *)
Definition begins (name option : list Z) : bool := eqb_str (take (length name) option) name.

(** [icompare(option, 0, len, _fullName, 0, len) == 0] *)
Definition same_start (o : Option_) (name : list Z) : bool :=
  Str.icompare name (take (length name) (_fullName o)) =? 0.

Definition matchesShort (o : Option_) (option : list Z) : bool :=
  negb (empty option) && negb (empty (_shortName o)) && begins (_shortName o) option.

Definition matchesFull (o : Option_) (option : list Z) : bool :=
  let name := fst (split_sep option) in
  (length name =? length (_fullName o))%nat && same_start o name.

Definition matchesPartial (o : Option_) (option : list Z) : bool :=
  negb (empty option) && same_start o (fst (split_sep option)).

(** What [process] stores in [arg]. *)
Definition process (o : Option_) (option : list Z) : res (list Z) :=
  let (name, rest) := split_sep option in
  if same_start o name then
    if takesArgument o then
      match rest with
      | [] => if _argRequired o then Raise MissingArgumentException else Done []
      | _ :: arg => Done arg
      end
    else match rest with [] => Done [] | _ => Raise UnexpectedArgumentException end
  else if negb (empty (_shortName o)) && begins (_shortName o) option then
    if takesArgument o then
      if _argRequired o && (length option =? length (_shortName o))%nat then Raise MissingArgumentException
      else Done (drop (length (_shortName o)) option)
    else if negb (length option =? length (_shortName o))%nat then Raise UnexpectedArgumentException
    else Done []
  else Raise UnknownOptionException.
End Option.

(** ** OptionSet *)
Module OptionSet.
Import Option.

Abbreviation options := (list Option_).

Fixpoint has_full (name : list Z) (l : options) : bool :=
  match l with
  | [] => false
  | o :: r => if eqb_str (_fullName o) name then true else has_full name r
  end.

Definition addOption (o : Option_) (l : options) : res options :=
  if empty (_fullName o) then Raise AssertionViolationException
  else if has_full (_fullName o) l then Raise DuplicateOptionException
  else Done (l ++ [o]).

Fixpoint has_loop (name : list Z) (matchShort found : bool) (l : options) : bool :=
  match l with
  | [] => found
  | o :: r =>
      if (matchShort && matchesShort o name) || (negb matchShort && matchesFull o name) then
        if negb found then has_loop name matchShort true r else false
      else has_loop name matchShort found r
  end.
Definition hasOption (name : list Z) (matchShort : bool) (l : options) : bool := has_loop name matchShort false l.

Fixpoint get_loop (name : list Z) (matchShort : bool) (pOption : option Option_) (l : options) : res Option_ :=
  match l with
  | [] => match pOption with Some o => Done o | None => Raise UnknownOptionException end
  | o :: r =>
      if (matchShort && matchesShort o name) || (negb matchShort && matchesPartial o name) then
        match pOption with
        | None => if negb matchShort && matchesFull o name then Done o else get_loop name matchShort (Some o) r
        | Some _ => if negb matchShort && matchesFull o name then Done o else Raise AmbiguousOptionException
        end
      else get_loop name matchShort pOption r
  end.
Definition getOption (name : list Z) (matchShort : bool) (l : options) : res Option_ := get_loop name matchShort None l.
End OptionSet.

(** ** OptionProcessor *)
Module OptionProcessor.
Import Option OptionSet.

Record OptionProcessor_ := {
  _options : options; _unixStyle : bool; _ignore : bool;
  _groups : gset (list Z); _specifiedOptions : gset (list Z); _deferredOption : list Z
}.

Definition construct (l : options) : OptionProcessor_ :=
  {| _options := l; _unixStyle := true; _ignore := false; _groups := ∅; _specifiedOptions := ∅; _deferredOption := [] |}.

Definition setUnixStyle (flag : bool) (p : OptionProcessor_) : OptionProcessor_ :=
  {| _options := _options p; _unixStyle := flag; _ignore := _ignore p; _groups := _groups p;
     _specifiedOptions := _specifiedOptions p; _deferredOption := _deferredOption p |}.

Definition set_ignore : ST OptionProcessor_ unit := modify (fun p =>
  {| _options := _options p; _unixStyle := _unixStyle p; _ignore := true; _groups := _groups p;
     _specifiedOptions := _specifiedOptions p; _deferredOption := _deferredOption p |}).
Definition add_group (g : list Z) : ST OptionProcessor_ unit := modify (fun p =>
  {| _options := _options p; _unixStyle := _unixStyle p; _ignore := _ignore p; _groups := {[g]} ∪ _groups p;
     _specifiedOptions := _specifiedOptions p; _deferredOption := _deferredOption p |}).
Definition add_specified (n : list Z) : ST OptionProcessor_ unit := modify (fun p =>
  {| _options := _options p; _unixStyle := _unixStyle p; _ignore := _ignore p; _groups := _groups p;
     _specifiedOptions := {[n]} ∪ _specifiedOptions p; _deferredOption := _deferredOption p |}).
Definition set_deferred (n : list Z) : ST OptionProcessor_ unit := modify (fun p =>
  {| _options := _options p; _unixStyle := _unixStyle p; _ignore := _ignore p; _groups := _groups p;
     _specifiedOptions := _specifiedOptions p; _deferredOption := n |}).

(** What a call returns, [optionName] and [optionArg]. *)
Abbreviation result := (bool * list Z * list Z)%type.

Definition check_group (o : Option_) : ST OptionProcessor_ unit :=
  if empty (_group o) then ret tt
  else
    let* p := get in
    if bool_decide (_group o ∈ _groups p) then throw IncompatibleOptionsException
    else add_group (_group o).

Definition processCommon (optionStr : list Z) (isShort : bool) : ST OptionProcessor_ result :=
  let* p := get in
  if negb (empty (_deferredOption p)) then
    let* o := lift (getOption (_deferredOption p) false (_options p)) in
    let optionWithArg := _deferredOption p ++ [chr "="] ++ optionStr in
    do* set_deferred [];
    let* arg := lift (process o optionWithArg) in
    ret (true, _fullName o, arg)
  else if empty optionStr then throw EmptyOptionException
  else
    let* o := lift (getOption optionStr isShort (_options p)) in
    do* check_group o;
    let* p := get in
    if bool_decide (_fullName o ∈ _specifiedOptions p) && negb (_repeatable o) then throw DuplicateOptionException
    else
      do* add_specified (_fullName o);
      if _argRequired o &&
         ((negb isShort && empty (snd (split_sep optionStr)))
          || (isShort && (length optionStr =? length (_shortName o))%nat)) then
        do* set_deferred (_fullName o);
        ret (true, [], [])
      else
        let* arg := lift (process o optionStr) in
        ret (true, _fullName o, arg).

Definition processUnix (argument : list Z) : ST OptionProcessor_ result :=
  match argument with
  | c :: it =>
      if c =? chr "-" then
        match it with
        | d :: it' =>
            if d =? chr "-" then
              match it' with
              | [] => do* set_ignore; ret (true, [], [])
              | _ => processCommon it' false
              end
            else processCommon it true
        | [] => ret (false, [], [])
        end
      else ret (false, [], [])
  | [] => ret (false, [], [])
  end.

Definition processDefault (argument : list Z) : ST OptionProcessor_ result :=
  match argument with
  | c :: it => if c =? chr "/" then processCommon it false else ret (false, [], [])
  | [] => ret (false, [], [])
  end.

Definition process (argument : list Z) : ST OptionProcessor_ result :=
  let* p := get in
  if negb (_ignore p) then
    if negb (empty (_deferredOption p)) then processCommon argument false
    else if _unixStyle p then processUnix argument
    else processDefault argument
  else ret (false, [], []).

Fixpoint required_loop (specified : gset (list Z)) (l : options) : res unit :=
  match l with
  | [] => Done tt
  | o :: r =>
      if _required o && negb (bool_decide (_fullName o ∈ specified)) then Raise MissingOptionException
      else required_loop specified r
  end.

Definition checkRequired : ST OptionProcessor_ unit :=
  let* p := get in
  do* lift (required_loop (_specifiedOptions p) (_options p));
  if negb (empty (_deferredOption p)) then
    let* o := lift (getOption (_deferredOption p) false (_options p)) in
    let* _arg := lift (Option.process o (_deferredOption p)) in
    ret tt
  else ret tt.
End OptionProcessor.
