(* ===== verification/OptionsFacts.v ===== *)
(** Command line options: what any command line can make the processor report,
    and that it reports the settings a command line spells. *)

From S2P Require Import Prelude Strings Options.
From stdpp Require Import gmap.
Import Option OptionSet OptionProcessor.

Open Scope st_scope.
Local Open Scope Z_scope.

(** The arguments of a command line, one after the other. *)
Fixpoint run (args : list (list Z)) : ST OptionProcessor_ (list result) :=
  match args with
  | [] => ret []
  | a :: args => let* r := process a in let* rs := run args in ret (r :: rs)
  end.

(** The options that were reported with a name, and their arguments. *)
Fixpoint reported (rs : list result) : list (list Z * list Z) :=
  match rs with
  | [] => []
  | (_, name, arg) :: rs => if empty name then reported rs else (name, arg) :: reported rs
  end.

Lemma reported_app a b : reported (a ++ b) = reported a ++ reported b.
Proof. induction a as [|[[? n] g] a IH]; cbn; [done|]. destruct (empty n); cbn; by rewrite IH. Qed.

Lemma run_app a : forall b p rs p', run a p = (Done rs, p') ->
  run (a ++ b) p = match run b p' with (Done rs', p'') => (Done (rs ++ rs'), p'') | (Eof, q) => (Eof, q)
                   | (Raise e, q) => (Raise e, q) | (UB, q) => (UB, q) end.
Proof.
  induction a as [|x a IH]; intros b p rs p' E; cbn [app run] in *.
  - injection E as <- <-. by destruct (run b p) as [[] ?].
  - unfold bind, ret in *. destruct (process x p) as [[r| | |] p1]; try done.
    destruct (run a p1) as [[rs1| | |] p2] eqn:E1; try done. injection E as <- <-.
    rewrite (IH b p1 _ _ E1). by destruct (run b p2) as [[] ?].
Qed.

(** ** Any command line *)
Module Any.

(** Options that must not be given twice, and options of groups. *)
Definition once (os : list Option_) : Prop := NoDup (_fullName <$> filter (fun o => _repeatable o = false) os).
Definition apart (os : list Option_) : Prop := NoDup (_group <$> filter (fun o => _group o <> []) os).

(** What was accepted so far: the options [os], the last of them waiting for its
    argument when [wait] says so. *)
Record accepted (l : list Option_) (p : OptionProcessor_) (os : list Option_) : Prop := {
  ac_options : _options p = l;
  ac_in : Forall (fun o => o ∈ l) os;
  ac_specified : forall o, o ∈ os -> _fullName o ∈ _specifiedOptions p;
  ac_groups : forall o, o ∈ os -> _group o <> [] -> _group o ∈ _groups p;
  ac_once : once os;
  ac_apart : apart os
}.

(** The names that were reported belong to [os], but for a last one that waits. *)
Definition told (p : OptionProcessor_) (os : list Option_) (names : list (list Z)) : Prop :=
  (_deferredOption p = [] /\ names = _fullName <$> os)
  \/ exists os' o, os = os' ++ [o] /\ _fullName o <> [] /\ _deferredOption p = _fullName o /\ names = _fullName <$> os'.

Lemma get_loop_in name ms pre l o : get_loop name ms pre l = Done o -> o ∈ l \/ pre = Some o.
Proof.
  revert pre. induction l as [|x l IH]; intros pre; cbn [get_loop].
  - destruct pre; [intros [= ->]; by right|done].
  - rewrite elem_of_cons. destruct (_ || _).
    + destruct pre; destruct (_ && _); try done.
      * intros [= ->]. by left; left.
      * intros [= ->]. by left; left.
      * intros Hg. destruct (IH _ Hg) as [?|[= ->]]; auto.
    + intros Hg. destruct (IH _ Hg); auto.
Qed.

Lemma getOption_in name ms l o : getOption name ms l = Done o -> o ∈ l.
Proof. intros Hg. by destruct (get_loop_in _ _ _ _ _ Hg). Qed.

Lemma once_snoc os o : once os -> (_repeatable o = false -> _fullName o ∉ _fullName <$> os) -> once (os ++ [o]).
Proof.
  unfold once. intros Hos Ho. rewrite filter_app, fmap_app. apply NoDup_app. split; [done|].
  rewrite filter_cons, filter_nil. case_decide as E; [|split; [by intros ? ? ?%elem_of_nil|constructor]]. cbn.
  split; [|apply NoDup_singleton]. intros n Hn ->%list_elem_of_singleton. apply (Ho E).
  apply list_elem_of_fmap in Hn as (x & -> & Hx). apply list_elem_of_filter in Hx as [_ Hx].
  apply list_elem_of_fmap. eauto.
Qed.

Lemma apart_snoc os o : apart os -> (_group o <> [] -> _group o ∉ _group <$> os) -> apart (os ++ [o]).
Proof.
  unfold apart. intros Hos Ho. rewrite filter_app, fmap_app. apply NoDup_app. split; [done|].
  rewrite filter_cons, filter_nil. case_decide as E; [|split; [by intros ? ? ?%elem_of_nil|constructor]]. cbn.
  split; [|apply NoDup_singleton]. intros n Hn ->%list_elem_of_singleton. apply (Ho E).
  apply list_elem_of_fmap in Hn as (x & -> & Hx). apply list_elem_of_filter in Hx as [_ Hx].
  apply list_elem_of_fmap. eauto.
Qed.

(** Options that [getOption] finds by their own full names. *)
Definition resolvable (l : list Option_) : Prop :=
  forall o, o ∈ l -> _fullName o <> [] /\ getOption (_fullName o) false l = Done o.

Lemma empty_false s : empty s = false -> s <> [].
Proof. by destruct s. Qed.

Lemma accepted_deferred l p os n : accepted l p os -> accepted l (set_deferred n p).2 os.
Proof. intros []. by split. Qed.

(** One more option passes the checks of [processCommon]. *)
Lemma accepted_snoc l p os o :
  accepted l p os -> o ∈ l -> (_group o <> [] -> _group o ∉ _groups p) ->
  (_repeatable o = false -> _fullName o ∉ _specifiedOptions p) ->
  forall p', _options p' = _options p -> _specifiedOptions p' = {[_fullName o]} ∪ _specifiedOptions p ->
  _groups p' = (if empty (_group o) then _groups p else {[_group o]} ∪ _groups p) -> accepted l p' (os ++ [o]).
Proof.
  intros [H1 H2 H3 H4 H5 H6] Ho Hg Hs p' E1 E2 E3. split.
  - by rewrite E1.
  - by apply Forall_app; split; [|constructor].
  - intros x [Hx| ->%list_elem_of_singleton]%elem_of_app; rewrite E2; [specialize (H3 x Hx)|]; set_solver.
  - intros x [Hx| ->%list_elem_of_singleton]%elem_of_app Hne; rewrite E3.
    + specialize (H4 x Hx Hne). destruct (empty _); set_solver.
    + destruct (_group o); [done|]. cbn. set_solver.
  - apply once_snoc; [done|]. intros Hr (x & Ex & Hx)%list_elem_of_fmap. apply (Hs Hr). rewrite Ex. by apply H3.
  - apply apart_snoc; [done|]. intros Hne (x & Ex & Hx)%list_elem_of_fmap. apply (Hg Hne).
    rewrite Ex in Hne |- *. by apply H4.
Qed.

Lemma check_group_done o p r p' : check_group o p = (Done r, p') ->
  (_group o <> [] -> _group o ∉ _groups p) /\ _options p' = _options p
  /\ _specifiedOptions p' = _specifiedOptions p /\ _deferredOption p' = _deferredOption p
  /\ _groups p' = (if empty (_group o) then _groups p else {[_group o]} ∪ _groups p).
Proof.
  unfold check_group. destruct (_group o) as [|c g] eqn:Eg; cbn [empty]; [by intros [= _ <-]|].
  unfold bind, get. case_bool_decide as E; [done|]. by intros [= _ <-].
Qed.

Lemma told_snoc p os names o p' : _fullName o <> [] -> told p os names -> _deferredOption p = [] ->
  (_deferredOption p' = [] -> told p' (os ++ [o]) (names ++ [_fullName o]))
  /\ (_deferredOption p' = _fullName o -> told p' (os ++ [o]) names).
Proof.
  intros Hne [[_ ->]|(os' & o' & _ & ? & E & _)] Hd; [|congruence]. split; intros Hp.
  - left. by rewrite fmap_app.
  - right. by exists os, o.
Qed.

Lemma reported_one n arg : n <> [] -> fst <$> reported [(true, n, arg)] = [n].
Proof. by destruct n. Qed.

(** The argument of the option that waits. *)
Lemma common_waiting l p os names s ms r p' :
  resolvable l -> accepted l p os -> told p os names -> _deferredOption p <> [] ->
  processCommon s ms p = (Done r, p') -> accepted l p' os /\ told p' os (names ++ (fst <$> reported [r])).
Proof.
  intros Hl Ha Ht Hd. unfold processCommon, bind, get, lift.
  destruct Ht as [[? _]|(os' & o & -> & Hne & Ed & ->)]; [done|].
  destruct (_deferredOption p) as [|c d] eqn:Edd; [done|]. cbn [empty negb].
  rewrite <- Edd, (ac_options _ _ _ Ha) in *. rewrite Ed.
  assert (o ∈ l) as Ho by (apply (proj1 (Forall_forall _ _) (ac_in _ _ _ Ha)); set_solver).
  rewrite (proj2 (Hl o Ho)). destruct (Option.process o _) as [arg| | |]; try done. intros [= <- <-].
  split; [by apply accepted_deferred|]. left. split; [done|]. by rewrite reported_one, fmap_app.
Qed.

(** A new option. *)
Lemma common_new l p os names s ms r p' :
  resolvable l -> accepted l p os -> told p os names -> _deferredOption p = [] ->
  processCommon s ms p = (Done r, p') ->
  exists os', accepted l p' os' /\ told p' os' (names ++ (fst <$> reported [r])).
Proof.
  intros Hl Ha Ht Hd. unfold processCommon, bind, get, lift. rewrite Hd. cbn [empty negb].
  destruct (empty s); [done|]. rewrite (ac_options _ _ _ Ha).
  destruct (getOption s ms l) as [o| | |] eqn:Eo; try done. apply getOption_in in Eo.
  destruct (Hl o Eo) as [Hne _].
  destruct (check_group o p) as [[[]| | |] p1] eqn:Ec; try done.
  apply check_group_done in Ec as (Hg & E1 & E2 & E3 & E4). rewrite E2.
  destruct (bool_decide _ && negb _) eqn:Edup; [done|].
  assert (_repeatable o = false -> _fullName o ∉ _specifiedOptions p) as Hs.
  { intros Hr. rewrite Hr, andb_true_r in Edup. by apply bool_decide_eq_false in Edup. }
  assert (forall q, _options q = _options p1 -> _groups q = _groups p1 ->
    _specifiedOptions q = {[_fullName o]} ∪ _specifiedOptions p1 -> accepted l q (os ++ [o])) as Hq.
  { intros q Q1 Q2 Q3. eapply accepted_snoc; eauto; congruence. }
  destruct (_argRequired o && _).
  - intros [= <- <-]. exists (os ++ [o]). split; [by apply Hq|]. cbn. rewrite app_nil_r.
    by apply (told_snoc p os names o).
  - destruct (Option.process o s) as [arg| | |]; try done. intros [= <- <-]. exists (os ++ [o]).
    split; [by apply Hq|]. rewrite reported_one by done. apply (told_snoc p os names o); [done..|]. cbn. congruence.
Qed.

Lemma common_told l p os names s ms r p' :
  resolvable l -> accepted l p os -> told p os names -> processCommon s ms p = (Done r, p') ->
  exists os', accepted l p' os' /\ told p' os' (names ++ (fst <$> reported [r])).
Proof.
  intros Hl Ha Ht E. destruct (decide (_deferredOption p = [])) as [Hd|Hd].
  - by eapply common_new.
  - exists os. by eapply common_waiting.
Qed.

Lemma process_told l p os names a r p' :
  resolvable l -> accepted l p os -> told p os names -> process a p = (Done r, p') ->
  exists os', accepted l p' os' /\ told p' os' (names ++ (fst <$> reported [r])).
Proof.
  intros Hl Ha Ht.
  assert (forall b, exists os', accepted l p os' /\ told p os' (names ++ (fst <$> reported [(b, [], [])]))) as Hno.
  { intros b. exists os. cbn. by rewrite app_nil_r. }
  unfold process, bind, get. destruct (_ignore p); cbn [negb]; [by intros [= <- <-]|].
  destruct (empty _) eqn:Ed; cbn [negb]; [|by eapply common_told].
  destruct (_unixStyle p); unfold processUnix, processDefault.
  - destruct a as [|c [|d [|e a]]]; try (by intros [= <- <-]); destruct (c =? _); try (by intros [= <- <-]);
      destruct (d =? _); try (by eapply common_told).
    intros [= <- <-]. destruct (Hno true) as (os' & [] & Ht'). by exists os'.
  - destruct a as [|c a]; [by intros [= <- <-]|]. destruct (c =? _); [by eapply common_told|by intros [= <- <-]].
Qed.

Lemma run_told l args : resolvable l -> forall p os names rs p',
  accepted l p os -> told p os names -> run args p = (Done rs, p') ->
  exists os', accepted l p' os' /\ told p' os' (names ++ (fst <$> reported rs)).
Proof.
  intros Hl. induction args as [|a args IH]; intros p os names rs p' Ha Ht; cbn [run].
  - intros [= <- <-]. exists os. cbn. by rewrite app_nil_r.
  - unfold bind, ret. destruct (process a p) as [[r| | |] p1] eqn:Er; try done.
    destruct (process_told _ _ _ _ _ _ _ Hl Ha Ht Er) as (os1 & Ha1 & Ht1).
    destruct (run args p1) as [[rs1| | |] p2] eqn:E1; try done. intros [= <- <-].
    destruct (IH _ _ _ _ _ Ha1 Ht1 E1) as (os2 & Ha2 & Ht2). exists os2. split; [done|].
    by rewrite (reported_app [r] rs1 : reported (r :: rs1) = _), fmap_app, app_assoc.
Qed.

Lemma accepted_start l unix : accepted l (setUnixStyle unix (construct l)) [].
Proof. by split; try (by intros ? ?%elem_of_nil); constructor. Qed.
End Any.

(** ** Command lines that spell settings *)
Module Spelled.
Import Any.

(** The ways to write an option: [--full], [--full=arg], [--full arg], [-s],
    [-sarg] and [-s arg]. *)
Inductive spelling := LongFlag | LongSep (sep : Z) | LongNext | ShortFlag | ShortArg | ShortNext.

Inductive item :=
| Setting (o : Option_) (how : spelling) (arg : list Z)
| Operand (a : list Z).

Definition minus : Z := chr "-".

Definition spell (i : item) : list (list Z) :=
  match i with
  | Setting o LongFlag _ => [minus :: minus :: _fullName o]
  | Setting o (LongSep sep) arg => [minus :: minus :: _fullName o ++ sep :: arg]
  | Setting o LongNext arg => [minus :: minus :: _fullName o; arg]
  | Setting o ShortFlag _ => [minus :: _shortName o]
  | Setting o ShortArg arg => [minus :: _shortName o ++ arg]
  | Setting o ShortNext arg => [minus :: _shortName o; arg]
  | Operand a => [a]
  end.

(** What the calls of [process] on these arguments give. *)
Definition answers (i : item) : list result :=
  match i with
  | Setting o (LongNext | ShortNext) arg => [(true, [], []); (true, _fullName o, arg)]
  | Setting o _ arg => [(true, _fullName o, arg)]
  | Operand _ => [(false, [], [])]
  end.

Fixpoint settings (its : list item) : list Option_ :=
  match its with
  | [] => []
  | Setting o _ _ :: its => o :: settings its
  | Operand _ :: its => settings its
  end.

(** Names without a separator, none of which is the start of another one. *)
Definition named (l : list Option_) : Prop :=
  forall o, o ∈ l -> _fullName o <> [] /\ Forall (fun c => negb (is_sep c) = true) (_fullName o)
                     /\ forall x, x ∈ l -> x = o \/ same_start x (_fullName o) = false.

(** A short name that can stand in front of [arg]. *)
Definition short_ok (l : list Option_) (o : Option_) (arg : list Z) : Prop :=
  (exists c s, _shortName o = c :: s /\ c <> minus)
  /\ (forall x, x ∈ l -> x = o \/ matchesShort x (_shortName o ++ arg) = false)
  /\ (same_start o (fst (split_sep (_shortName o ++ arg))) = true -> arg = [] /\ snd (split_sep (_shortName o)) = []).

Definition spelling_ok (l : list Option_) (i : item) : Prop :=
  match i with
  | Setting o how arg => o ∈ l /\
      match how with
      | LongFlag => _argRequired o = false /\ arg = []
      | LongSep sep => takesArgument o = true /\ is_sep sep = true
      | LongNext => takesArgument o = true /\ _argRequired o = true
      | ShortFlag => _argRequired o = false /\ arg = [] /\ short_ok l o []
      | ShortArg => takesArgument o = true /\ arg <> [] /\ short_ok l o arg
      | ShortNext => takesArgument o = true /\ _argRequired o = true /\ short_ok l o []
      end
  | Operand a => match a with c :: r => c <> minus \/ r = [] | [] => True end
  end.

Lemma icompare_refl s : Str.icompare s s = 0.
Proof. pose proof (Str.icompare_opp s s). lia. Qed.

Lemma same_start_refl o : same_start o (_fullName o) = true.
Proof. unfold same_start. by rewrite firstn_all, icompare_refl. Qed.

(** [tl] ends the name: nothing or a separator follows. *)
Definition name_end (tl : list Z) : Prop := match tl with [] => True | c :: _ => is_sep c = true end.

Lemma split_name n tl : Forall (fun c => negb (is_sep c) = true) n -> name_end tl -> split_sep (n ++ tl) = (n, tl).
Proof.
  intros Hn Ht. destruct tl as [|c tl]; unfold split_sep.
  - by rewrite app_nil_r, span_all.
  - rewrite span_app; [done..|]. cbn in Ht. by rewrite Ht.
Qed.

Lemma get_long l o tl : named l -> o ∈ l -> name_end tl -> getOption (_fullName o ++ tl) false l = Done o.
Proof.
  intros Hl Ho Ht. destruct (Hl o Ho) as (Hne & Hs & Hx). unfold getOption.
  assert (forall x, matchesPartial x (_fullName o ++ tl) = same_start x (_fullName o)) as Hp.
  { intros x. unfold matchesPartial. rewrite split_name by done. by destruct (_fullName o). }
  assert (matchesFull o (_fullName o ++ tl) = true) as Hf.
  { unfold matchesFull. by rewrite split_name, Nat.eqb_refl, same_start_refl by done. }
  clear Hl. induction l as [|x l IH]; [by apply elem_of_nil in Ho|]. cbn [get_loop]. rewrite Hp. cbn.
  destruct (decide (x = o)) as [->|Hxo]; [by rewrite same_start_refl, Hf|].
  destruct (Hx x) as [->|Hxx]; [left|done|]. rewrite Hxx. apply IH; [set_solver|].
  intros y Hy. apply Hx. by right.
Qed.

Lemma get_short_seen name l o : (forall x, x ∈ l -> matchesShort x name = false) -> get_loop name true (Some o) l = Done o.
Proof.
  induction l as [|x l IH]; intros Hx; [done|]. cbn [get_loop]. rewrite (Hx x) by left. cbn. apply IH.
  intros y Hy. apply Hx. by right.
Qed.

Lemma get_short l o arg : NoDup l -> o ∈ l -> short_ok l o arg -> getOption (_shortName o ++ arg) true l = Done o.
Proof.
  intros Hnd Ho ((c & s & Es & _) & Hx & _). unfold getOption.
  assert (matchesShort o (_shortName o ++ arg) = true) as Hm.
  { unfold matchesShort, begins. rewrite take_app_length, Es. cbn. unfold eqb_str. by rewrite bool_decide_true. }
  induction Hnd as [|x l Hxl Hnd IH]; [by apply elem_of_nil in Ho|]. cbn [get_loop].
  destruct (decide (x = o)) as [->|Hxo].
  - rewrite Hm. cbn. apply get_short_seen. intros y Hy. destruct (Hx y) as [->|]; [by right|done|done].
  - destruct (Hx x) as [->|Hxx]; [left|done|]. rewrite Hxx. cbn. apply IH; [set_solver|].
    intros y Hy. apply Hx. by right.
Qed.

Lemma process_sep o sep arg : Forall (fun c => negb (is_sep c) = true) (_fullName o) -> is_sep sep = true ->
  takesArgument o = true -> Option.process o (_fullName o ++ sep :: arg) = Done arg.
Proof. intros Hn Hs Ht. unfold Option.process. by rewrite split_name, same_start_refl, Ht by done. Qed.

Lemma process_flag o : Forall (fun c => negb (is_sep c) = true) (_fullName o) ->
  _argRequired o = false -> Option.process o (_fullName o) = Done [].
Proof.
  intros Hn Hr. unfold Option.process. rewrite <- (app_nil_r (_fullName o)) at 1.
  rewrite split_name, same_start_refl, Hr by done. by destruct (takesArgument o).
Qed.

Lemma begins_app n arg : begins n (n ++ arg) = true.
Proof. unfold begins. rewrite take_app_length. by apply eqb_str_spec. Qed.

Lemma process_short_flag l o : short_ok l o [] -> _argRequired o = false -> Option.process o (_shortName o) = Done [].
Proof.
  intros ((c & s & Es & _) & _ & Hs) Hr. rewrite app_nil_r in Hs. unfold Option.process. rewrite Hr.
  destruct (split_sep (_shortName o)) as [n rest] eqn:E. cbn [fst snd] in Hs.
  destruct (same_start o n); [destruct Hs as [_ ->]; [done|]; by destruct (takesArgument o)|].
  pose proof (begins_app (_shortName o) []) as Hb. rewrite app_nil_r in Hb.
  rewrite Hb, Nat.eqb_refl, drop_all. rewrite Es at 1. by destruct (takesArgument o).
Qed.

Lemma process_short_arg l o arg : short_ok l o arg -> takesArgument o = true -> arg <> [] ->
  Option.process o (_shortName o ++ arg) = Done arg.
Proof.
  intros ((c & s & Es & _) & _ & Hs) Ht Ha. unfold Option.process.
  destruct (split_sep (_shortName o ++ arg)) as [n rest] eqn:E. cbn [fst snd] in Hs.
  destruct (same_start o n); [by destruct Hs|]. rewrite begins_app, Ht, drop_app_length.
  rewrite Es at 1. cbn [empty negb andb]. rewrite length_app.
  destruct (Nat.eqb_spec (length (_shortName o) + length arg) (length (_shortName o))) as [El|El].
  - destruct arg; [done|cbn in El; lia].
  - by rewrite andb_false_r.
Qed.

(** The processor after it accepted [os]. *)
Record after (l os : list Option_) (p : OptionProcessor_) : Prop := {
  af_options : _options p = l; af_unix : _unixStyle p = true; af_ignore : _ignore p = false;
  af_deferred : _deferredOption p = [];
  af_specified : forall n, n ∈ _specifiedOptions p <-> n ∈ _fullName <$> os;
  af_groups : forall g, g <> [] -> g ∈ _groups p <-> g ∈ _group <$> os
}.

(** [o] may follow [os]. *)
Definition may_follow (os : list Option_) (o : Option_) : Prop :=
  (_repeatable o = false -> _fullName o ∉ _fullName <$> os) /\ (_group o <> [] -> _group o ∉ _group <$> os).

Definition accept (o : Option_) (d : list Z) (p : OptionProcessor_) : OptionProcessor_ :=
  {| _options := _options p; _unixStyle := _unixStyle p; _ignore := _ignore p;
     _groups := if empty (_group o) then _groups p else {[_group o]} ∪ _groups p;
     _specifiedOptions := {[_fullName o]} ∪ _specifiedOptions p; _deferredOption := d |}.

Lemma after_accept l os o p : after l os p -> after l (os ++ [o]) (accept o [] p).
Proof.
  intros [H1 H2 H3 H4 H5 H6]. split; try done; cbn.
  - intros n. rewrite fmap_app. specialize (H5 n). set_solver.
  - intros g Hg. rewrite fmap_app. specialize (H6 g Hg). destruct (_group o) eqn:E; cbn; rewrite ?E; set_solver.
Qed.

(** [processCommon] on a text that names [o]. *)
Lemma common_accept l os o p s ms : after l os p -> may_follow os o -> s <> [] -> getOption s ms l = Done o ->
  processCommon s ms p =
    if _argRequired o && ((negb ms && empty (snd (split_sep s))) || (ms && (length s =? length (_shortName o))%nat))
    then (Done (true, [], []), accept o (_fullName o) p)
    else match Option.process o s with
         | Done arg => (Done (true, _fullName o, arg), accept o [] p)
         | Eof => (Eof, accept o [] p) | Raise e => (Raise e, accept o [] p) | UB => (UB, accept o [] p)
         end.
Proof.
  intros [H1 H2 H3 H4 H5 H6] [Ho Hg] Hs Eo. unfold processCommon, bind, get, lift, check_group.
  rewrite H4. cbn [empty negb]. destruct s as [|c s]; [done|]. cbn [empty]. rewrite H1, Eo.
  assert (bool_decide (_fullName o ∈ _specifiedOptions p) && negb (_repeatable o) = false) as Hd.
  { destruct (_repeatable o); cbn; [by rewrite andb_false_r|]. rewrite bool_decide_false; [done|]. rewrite H5. auto. }
  generalize (Option.process o (c :: s)) as arg; intros arg.
  match goal with |- context [_argRequired o && ?x] => generalize (_argRequired o && x); intros b end.
  unfold accept. destruct (_group o) as [|g gs] eqn:Eg; cbn [empty].
  - cbn. rewrite Hd. by destruct p, b, arg; cbn in *; subst.
  - cbn. rewrite (bool_decide_false (g :: gs ∈ _groups p)) by (rewrite H6; [apply Hg|]; done). cbn. rewrite Hd.
    by destruct p, b, arg; cbn in *; subst.
Qed.

(** How [process] gets to [processCommon]. *)
Lemma process_long l os p s : after l os p -> s <> [] -> process (minus :: minus :: s) p = processCommon s false p.
Proof. intros [H1 H2 H3 H4 _ _] Hs. unfold process, bind, get. rewrite H3, H4, H2. cbn. by destruct s. Qed.

Lemma process_short l os p c s : after l os p -> c <> minus -> process (minus :: c :: s) p = processCommon (c :: s) true p.
Proof.
  intros [H1 H2 H3 H4 _ _] Hc. unfold process, bind, get. rewrite H3, H4, H2. cbn.
  by rewrite (proj2 (Z.eqb_neq c (chr "-"))).
Qed.

(** The argument after [--full] or [-s]. *)
Lemma process_next l os o p arg : named l -> o ∈ l -> takesArgument o = true -> after l os p ->
  process arg (accept o (_fullName o) p) = (Done (true, _fullName o, arg), accept o [] p).
Proof.
  intros Hl Ho Ht [H1 H2 H3 H4 _ _]. destruct (Hl o Ho) as (Hne & Hs & _).
  pose proof (get_long l o [] Hl Ho I) as Hg. rewrite app_nil_r in Hg.
  assert (empty (_fullName o) = false) as He by (by destruct (_fullName o)).
  set (q := accept o (_fullName o) p).
  assert (_ignore q = false /\ _deferredOption q = _fullName o /\ _options q = l) as (Q1 & Q2 & Q3) by done.
  unfold process, processCommon, bind, get, lift. rewrite Q1, Q2, He. cbn [negb]. rewrite Q3, Q2, He, Hg. cbn [negb app].
  by rewrite process_sep.
Qed.

Section items.
Context (l os : list Option_) (p : OptionProcessor_) (o : Option_).
Hypotheses (Hl : named l) (Hnd : NoDup l) (Ho : o ∈ l) (Hp : after l os p) (Hf : may_follow os o).

Lemma long_flag : _argRequired o = false ->
  process (minus :: minus :: _fullName o) p = (Done (true, _fullName o, []), accept o [] p).
Proof using All.
  intros Hr. destruct (Hl o Ho) as (Hne & Hs & _). rewrite (process_long l os) by done.
  pose proof (get_long l o [] Hl Ho I) as Hg. rewrite app_nil_r in Hg.
  by rewrite (common_accept l os o), Hr, process_flag by done.
Qed.

Lemma long_sep sep arg : takesArgument o = true -> is_sep sep = true ->
  process (minus :: minus :: _fullName o ++ sep :: arg) p = (Done (true, _fullName o, arg), accept o [] p).
Proof using All.
  intros Ht Hsep. destruct (Hl o Ho) as (Hne & Hs & _). rewrite (process_long l os); [|done|by destruct (_fullName o)].
  rewrite (common_accept l os o); [|done|done|by destruct (_fullName o)|by apply get_long].
  by rewrite split_name, andb_false_r, process_sep by done.
Qed.

Lemma long_wait : _argRequired o = true ->
  process (minus :: minus :: _fullName o) p = (Done (true, [], []), accept o (_fullName o) p).
Proof using All.
  intros Hr. destruct (Hl o Ho) as (Hne & Hs & _). rewrite (process_long l os) by done.
  pose proof (get_long l o [] Hl Ho I) as Hg. rewrite app_nil_r in Hg.
  rewrite (common_accept l os o), Hr by done. pose proof (split_name (_fullName o) [] Hs I) as E.
  rewrite app_nil_r in E. by rewrite E.
Qed.

Lemma short_common arg : short_ok l o arg ->
  process (minus :: _shortName o ++ arg) p = processCommon (_shortName o ++ arg) true p
  /\ _shortName o ++ arg <> [] /\ getOption (_shortName o ++ arg) true l = Done o.
Proof using All.
  intros Hs. split_and!; [|by destruct Hs as ((c & s & -> & _) & _)|by apply get_short].
  destruct Hs as ((c & s & Es & Hc) & _). rewrite Es. by apply (process_short l os).
Qed.

Lemma short_flag : _argRequired o = false -> short_ok l o [] ->
  process (minus :: _shortName o) p = (Done (true, _fullName o, []), accept o [] p).
Proof using All.
  intros Hr Hs. destruct (short_common [] Hs) as (E & Hne & Hg). rewrite app_nil_r in *. rewrite E.
  by rewrite (common_accept l os o), Hr, (process_short_flag l) by done.
Qed.

Lemma short_arg arg : takesArgument o = true -> arg <> [] -> short_ok l o arg ->
  process (minus :: _shortName o ++ arg) p = (Done (true, _fullName o, arg), accept o [] p).
Proof using All.
  intros Ht Ha Hs. destruct (short_common arg Hs) as (E & Hne & Hg). rewrite E.
  rewrite (common_accept l os o), (process_short_arg l) by done. rewrite length_app.
  rewrite (proj2 (Nat.eqb_neq (length (_shortName o) + length arg) _)) by (destruct arg; [done|cbn; lia]).
  by rewrite andb_false_r.
Qed.

Lemma short_wait : _argRequired o = true -> short_ok l o [] ->
  process (minus :: _shortName o) p = (Done (true, [], []), accept o (_fullName o) p).
Proof using All.
  intros Hr Hs. destruct (short_common [] Hs) as (E & Hne & Hg). rewrite app_nil_r in *. rewrite E.
  by rewrite (common_accept l os o), Hr, Nat.eqb_refl by done.
Qed.
End items.

Lemma run_one a p r p' : process a p = (Done r, p') -> run [a] p = (Done [r], p').
Proof. intros E. cbn. unfold bind, ret. by rewrite E. Qed.

Lemma run_two a b p r p' r' p'' : process a p = (Done r, p') -> process b p' = (Done r', p'') ->
  run [a; b] p = (Done [r; r'], p'').
Proof. intros E E'. cbn. unfold bind, ret. by rewrite E, E'. Qed.

Lemma run_setting l os p o how arg : named l -> NoDup l -> after l os p -> may_follow os o ->
  spelling_ok l (Setting o how arg) ->
  run (spell (Setting o how arg)) p = (Done (answers (Setting o how arg)), accept o [] p).
Proof.
  intros Hl Hnd Hp Hf [Ho H]. destruct how; cbn [spell answers].
  - destruct H as [Hr ->]. by apply run_one, (long_flag l os).
  - destruct H as [Ht Hs]. by apply run_one, (long_sep l os).
  - destruct H as [Ht Hr]. by eapply run_two; [apply (long_wait l os)|apply (process_next l os)].
  - destruct H as (Hr & -> & Hs). by apply run_one, (short_flag l os).
  - destruct H as (Ht & Ha & Hs). by apply run_one, (short_arg l os).
  - destruct H as (Ht & Hr & Hs). by eapply run_two; [apply (short_wait l os)|apply (process_next l os)].
Qed.

Lemma run_operand l os p a : after l os p -> spelling_ok l (Operand a) -> run [a] p = (Done [(false, [], [])], p).
Proof.
  intros [H1 H2 H3 H4 _ _] Ha. apply run_one. unfold process, bind, get. rewrite H3, H4, H2. cbn.
  destruct a as [|c a]; [done|]. cbn in Ha. destruct Ha as [Hc| ->]; cbn.
  - by rewrite (proj2 (Z.eqb_neq c (chr "-"))).
  - by destruct (c =? _).
Qed.

Lemma settings_app a b : settings (a ++ b) = settings a ++ settings b.
Proof. induction a as [|[] a IH]; cbn; by rewrite ?IH. Qed.

Lemma settings_in l its : Forall (spelling_ok l) its -> Forall (fun o => o ∈ l) (settings its).
Proof. induction 1 as [|[o how arg|a] its Hi _ IH]; cbn; [constructor| |done]. constructor; [apply Hi|done]. Qed.

(** The rules of [once] and [apart] let [o] follow the options in front of it. *)
Lemma follows l os o rest : named l -> Forall (fun x => x ∈ l) os -> o ∈ l ->
  once (os ++ o :: rest) -> apart (os ++ o :: rest) -> may_follow os o.
Proof.
  unfold once, apart. rewrite !filter_app, !fmap_app. intros Hl Hos Ho [_ [H1 _]]%NoDup_app [_ [H2 _]]%NoDup_app.
  split.
  - intros Hr (x & E & Hx)%list_elem_of_fmap. destruct (Hl o Ho) as (_ & _ & Hn).
    pose proof (proj1 (Forall_forall _ _) Hos x Hx) as Hxl. destruct (Hn x Hxl) as [->|Hs].
    + apply (H1 (_fullName o)); apply list_elem_of_fmap; exists o; split; try done; apply list_elem_of_filter;
        (split; [done|]); [done|by left].
    + by rewrite E, same_start_refl in Hs.
  - intros Hne (x & E & Hx)%list_elem_of_fmap. apply (H2 (_group o)); apply list_elem_of_fmap.
    + exists x. split; [done|]. apply list_elem_of_filter. split; [congruence|done].
    + exists o. split; [done|]. apply list_elem_of_filter. split; [done|by left].
Qed.

Lemma run_items l its : named l -> NoDup l -> forall os p, Forall (spelling_ok l) its -> Forall (fun x => x ∈ l) os ->
  once (os ++ settings its) -> apart (os ++ settings its) -> after l os p ->
  exists p', run (concat (spell <$> its)) p = (Done (concat (answers <$> its)), p') /\ after l (os ++ settings its) p'.
Proof.
  intros Hl Hnd. induction its as [|i its IH]; intros os p Hi Hos H1 H2 Hp.
  - exists p. cbn. by rewrite app_nil_r.
  - apply Forall_cons in Hi as [Hi Hits]. cbn [fmap list_fmap concat]. destruct i as [o how arg|a].
    + cbn [settings] in *. rewrite (run_app _ _ _ _ _ (run_setting l os p o how arg Hl Hnd Hp
        (follows l os o _ Hl Hos (proj1 Hi) H1 H2) Hi)).
      destruct (IH (os ++ [o]) (accept o [] p)) as (p' & -> & Ha); rewrite <- ?app_assoc; try done.
      * apply Forall_app. split; [done|]. by constructor; [apply Hi|].
      * by apply after_accept.
      * exists p'. split; [done|]. by rewrite <- app_assoc in Ha.
    + rewrite (run_app _ _ _ _ _ (run_operand l os p a Hp Hi)).
      destruct (IH os p) as (p' & -> & Ha); try done. by exists p'.
Qed.

(** After [--] nothing is an option. *)
Lemma run_ignored args p : _ignore p = true -> run args p = (Done (replicate (length args) (false, [], [])), p).
Proof.
  intros Hp. induction args as [|a args IH]; cbn; [done|]. unfold bind, ret at 1.
  unfold process at 1, bind, get. rewrite Hp. cbn. by rewrite IH.
Qed.

Lemma run_rest l os p rest : after l os p -> exists p',
  run ([minus; minus] :: rest) p = (Done ((true, [], []) :: replicate (length rest) (false, [], [])), p')
  /\ _options p' = l /\ _specifiedOptions p' = _specifiedOptions p /\ _deferredOption p' = [].
Proof.
  intros [H1 H2 H3 H4 _ _].
  assert (process [minus; minus] p = (Done (true, [], []), (set_ignore p).2)) as E.
  { unfold process, bind, get. by rewrite H3, H4, H2. }
  cbn [run]. unfold bind, ret. rewrite E, run_ignored by done. by eexists.
Qed.

Lemma required_ok specified l : (forall o, o ∈ l -> _required o = true -> _fullName o ∈ specified) ->
  required_loop specified l = Done tt.
Proof.
  induction l as [|o l IH]; intros H; [done|]. cbn.
  destruct (_required o) eqn:E; cbn; [rewrite bool_decide_true by (apply H; [left|done])|]; cbn; apply IH;
    intros x Hx; apply H; by right.
Qed.
End Spelled.

Import Any Spelled.

(** Whatever the command line is, if the processor takes it, the names it
    reports are those of options of the set (a last one may still wait for its
    argument), an option that is not repeatable is among them at most once, and
    at most one option of each group is. *)
Theorem options_at_most_once unix l args rs p :
  resolvable l -> run args (setUnixStyle unix (construct l)) = (Done rs, p) ->
  exists os waiting, fst <$> reported rs = _fullName <$> os
    /\ Forall (fun o => o ∈ l) (os ++ waiting) /\ once (os ++ waiting) /\ apart (os ++ waiting)
    /\ (waiting = [] \/ exists o, waiting = [o] /\ _deferredOption p = _fullName o).
Proof.
  intros Hl E. destruct (run_told l args Hl _ [] [] rs p (accepted_start l unix)
    (or_introl (conj eq_refl eq_refl)) E) as (os & [H1 H2 _ _ H3 H4] & [[_ Hn]|(os' & o & -> & _ & Hd & Hn)]).
  - exists os, []. rewrite app_nil_r. eauto 10.
  - exists os', [o]. eauto 10.
Qed.

(** C21: a command line that spells settings and operands is taken as it was
    meant: [process] reports each setting with its argument however it was
    written, hands every operand back and everything after [--], and
    [checkRequired] is satisfied.  The options are all different and no full name
    is the start of another one, or holds a separator ([named]; see
    [getOption_order]); an option that is not repeatable comes at most once
    ([once]) and so does an option of each group ([apart]); a short spelling
    belongs to no other option and is not the start of the full name
    ([short_ok]); every required option is given. *)
Theorem options_roundtrip l its rest :
  named l -> NoDup l -> Forall (spelling_ok l) its -> once (settings its) -> apart (settings its) ->
  (forall o, o ∈ l -> _required o = true -> o ∈ settings its) ->
  exists p, run (concat (spell <$> its) ++ [minus; minus] :: rest) (construct l)
    = (Done (concat (answers <$> its) ++ (true, [], []) :: replicate (length rest) (false, [], [])), p)
    /\ checkRequired p = (Done tt, p).
Proof.
  intros Hl Hnd Hi H1 H2 Hr.
  destruct (run_items l its Hl Hnd [] (construct l) Hi) as (p & E & Ha); try done; [split; try done; set_solver|].
  rewrite (run_app _ _ _ _ _ E). destruct (run_rest l _ p rest Ha) as (p' & -> & P1 & P2 & P3). exists p'. split; [done|].
  unfold checkRequired, bind, get, lift. rewrite P1, P2, P3, required_ok; [done|].
  intros o Ho Hreq. apply (af_specified _ _ _ Ha), list_elem_of_fmap. eauto.
Qed.

(** A set of options for the examples. *)
Definition opts : list Option_ :=
  [Option.construct (str "help") (str "h") [] false [] false;
   repeatable true (Option.construct (str "include") (str "I") [] false (str "path") true);
   Option.construct (str "verbose") (str "v") [] false (str "level") false;
   Option.construct (str "file") (str "f") [] true (str "name") true;
   group (str "mode") (Option.construct (str "quiet") [] [] false [] false);
   group (str "mode") (Option.construct (str "loud") [] [] false [] false)].

Definition opt (n : nat) : Option_ := nth n opts (Option.construct [] [] [] false [] false).

Lemma opts_in (P : Option_ -> Prop) : P (opt 0) -> P (opt 1) -> P (opt 2) -> P (opt 3) -> P (opt 4) -> P (opt 5) ->
  forall o, o ∈ opts -> P o.
Proof. intros. assert (Forall P opts) as H' by (by repeat constructor). by apply (proj1 (Forall_forall _ _) H'). Qed.

Ltac by_decide := refine (@bool_decide_unpack _ _ _); vm_compute; exact I.

Ltac each_option := refine (opts_in _ _ _ _ _ _ _); cbv beta.

Definition cmdline : list (list Z) := str <$> ["--help"; "-Isrc"; "--incl=lib"; "--loud"; "x"; "-f"; "-out"]%string.

Lemma options_at_most_once_witness : exists os waiting,
  [str "help"; str "include"; str "include"; str "loud"; str "file"] = _fullName <$> os
  /\ Forall (fun o => o ∈ opts) (os ++ waiting) /\ once (os ++ waiting) /\ apart (os ++ waiting)
  /\ (waiting = [] \/ exists o, waiting = [o] /\ _deferredOption (run cmdline (setUnixStyle true (construct opts))).2 = _fullName o).
Proof.
  apply (options_at_most_once true opts cmdline
    [(true, str "help", []); (true, str "include", str "src"); (true, str "include", str "lib"); (true, str "loud", []);
     (false, [], []); (true, [], []); (true, str "file", str "-out")]).
  - unfold resolvable. each_option; (split; [done|vm_compute; reflexivity]).
  - rewrite (surjective_pairing (run cmdline _)) at 1. apply (f_equal2 pair); [vm_compute; reflexivity|done].
Defined.

Definition wanted : list item :=
  [Setting (opt 0) ShortFlag []; Setting (opt 1) ShortArg (str "src"); Setting (opt 1) (LongSep (chr ":")) (str "a=b");
   Operand (str "x"); Setting (opt 3) LongNext (str "--"); Setting (opt 4) LongFlag []; Operand (str "-");
   Setting (opt 1) ShortNext (str "-y")].

Lemma options_roundtrip_witness : exists p,
  run (str <$> ["-h"; "-Isrc"; "--include:a=b"; "x"; "--file"; "--"; "--quiet"; "-"; "-I"; "-y"; "--"; "--help"]%string)
    (construct opts)
  = (Done (concat (answers <$> wanted) ++ [(true, [], []); (false, [], [])]), p) /\ checkRequired p = (Done tt, p).
Proof.
  apply (options_roundtrip opts wanted [str "--help"]).
  - unfold named. each_option; (split; [done|]; split; [repeat constructor|]; each_option; vm_compute; auto).
  - apply (NoDup_fmap_1 _fullName). by_decide.
  - repeat (apply Forall_cons; split); [..|by apply Forall_nil]; cbn [spelling_ok]; try (by left); try (by right).
    all: split; [by_decide|]; try done.
    all: unfold short_ok; split_and!; try done; try (by eexists _, _); try (each_option; vm_compute; auto; fail).
  - unfold once. by_decide.
  - unfold apart. by_decide.
  - each_option; try done. intros _. by_decide.
Defined.

(** ** What the loops and tests do that the documentation does not say *)

(** Two partial matches in front of the option with that very name make it
    ambiguous, although [hasOption] finds it; behind it they do not. *)
Definition flag (name : list Z) : Option_ := Option.construct name [] [] false [] false.

Example getOption_order :
  hasOption (str "in") false [flag (str "input"); flag (str "init"); flag (str "in")] = true
  /\ getOption (str "in") false [flag (str "input"); flag (str "init"); flag (str "in")] = Raise AmbiguousOptionException
  /\ getOption (str "in") false [flag (str "in"); flag (str "input"); flag (str "init")] = Done (flag (str "in")).
Proof. by vm_compute. Qed.

(** A short option whose argument continues its own full name is taken for the
    full name: [-include.h] is [-i] with "nclude.h", [-inc] lacks its argument. *)
Example short_as_full : let o := Option.construct (str "include") (str "i") [] false (str "path") true in
  (run [str "-include.h"] (construct [o])).1 = Done [(true, str "include", str "nclude.h")]
  /\ (run [str "-inc"] (construct [o])).1 = Raise MissingArgumentException.
Proof. by vm_compute. Qed.

(** A name of length zero matches every option partially. *)
Example empty_name_matches : (run [str "--=x"] (construct [opt 2])).1 = Done [(true, str "verbose", str "x")].
Proof. by vm_compute. Qed.

(** A repeatable option of a group cannot be repeated. *)
Example repeatable_in_group : (run [str "--loud"; str "--loud"] (construct [repeatable true (opt 5)])).1
  = Raise IncompatibleOptionsException.
Proof. by vm_compute. Qed.

(** What a name that is unknown and a name that is ambiguous raise. *)
Example option_errors :
  (run [str "--nope"] (construct opts)).1 = Raise UnknownOptionException
  /\ (run [str "--i"] (construct [flag (str "input"); flag (str "init")])).1 = Raise AmbiguousOptionException.
Proof. by vm_compute. Qed.
