(* ===== verification/Float.v ===== *)
(** Doubles: the finite numbers of IEEE 754 binary64 as multiples of the
    smallest one, and the arithmetic the date code uses. *)

From S2P Require Import Prelude.

Local Open Scope Z_scope.

Module Double.

(** A finite double is [x * 2 ^ -U]. *)
Definition U : Z := 1074.
#[global] Abbreviation double := Z (only parsing).

(** [n * 2 ^ -k], for the literals of the source. *)
Definition lit (n k : Z) : double := Z.shiftl n (U - k).

(** The integer closest to [p / q], the even one of two. *)
Definition rne (p q : Z) : Z :=
  let d := p / q in
  let r := p mod q in
  if 2 * r <? q then d else if q <? 2 * r then d + 1 else if Z.even d then d else d + 1.

(** The double closest to [p / q] units, with 53 bits of precision. *)
Definition round_pos (p q : Z) : double :=
  let k := Z.max 0 (Z.log2 (p / q) - 52) in
  Z.shiftl (rne p (Z.shiftl q k)) k.
Definition round (p q : Z) : double := if p <? 0 then - round_pos (- p) q else round_pos p q.

Definition of_int (z : Z) : double := round (Z.shiftl z U) 1.
Definition add (a b : double) : double := round (a + b) 1.
Definition sub (a b : double) : double := round (a - b) 1.
Definition mul (a b : double) : double := round (a * b) (Z.shiftl 1 U).
(** The divisors of the source are positive literals. *)
Definition div (a b : double) : double := round (Z.shiftl a U) b.
Definition floor (a : double) : double := Z.shiftl (Z.shiftr a U) U.

(** The conversion to an integer type truncates, and must not leave the type. *)
Definition trunc (a : double) : Z := Z.quot a (Z.shiftl 1 U).
Definition to_int (lo hi : Z) (a : double) : res Z :=
  if (lo <=? trunc a) && (trunc a <=? hi) then Done (trunc a) else UB.
Definition to_short (a : double) : res Z := to_int (- 2 ^ 15) (2 ^ 15 - 1) a.
Definition to_int32 (a : double) : res Z := to_int (- 2 ^ 31) (2 ^ 31 - 1) a.
Definition to_int64 (a : double) : res Z := to_int (- 2 ^ 63) (2 ^ 63 - 1) a.

(** ** Rounding to an integer *)
Lemma rne_exact n q : 0 < q -> rne (n * q) q = n.
Proof. intros Hq. unfold rne. rewrite Z.div_mul, Z.mod_mul by lia. by rewrite (proj2 (Z.ltb_lt (2 * 0) q)) by lia. Qed.

Lemma rne_near p q : 0 < q -> p / q <= rne p q <= p / q + 1.
Proof. intros Hq. unfold rne. repeat case_match; lia. Qed.

Lemma rne_mono p q p' q' : 0 < q -> 0 < q' -> p * q' <= p' * q -> rne p q <= rne p' q'.
Proof.
  intros Hq Hq' Hle. pose proof (rne_near p q Hq) as Hn. pose proof (rne_near p' q' Hq') as Hn'. revert Hn Hn'. unfold rne.
  pose proof (Z.div_mod p q ltac:(lia)) as Ep. pose proof (Z.div_mod p' q' ltac:(lia)) as Ep'.
  pose proof (Z.mod_pos_bound p q Hq) as Hr. pose proof (Z.mod_pos_bound p' q' Hq') as Hr'.
  generalize dependent (p mod q). generalize dependent (p' mod q'). intros r' Ep' Hr' r Ep Hr.
  generalize dependent (p / q). generalize dependent (p' / q'). intros d' Ep' d Ep. subst p p'.
  destruct (Z.lt_trichotomy d d') as [?|[Ed|?]]; [lia| |exfalso].
  2: { assert (q * q' * (d' + 1) <= q * q' * d) by (apply Z.mul_le_mono_nonneg_l; nia).
       assert (0 <= r * q') by nia. assert (r' * q < q' * q) by nia. lia. }
  subst d'. intros _ _.
  assert (r * q' <= r' * q) by nia.
  destruct (Z.ltb_spec (2 * r) q); destruct (Z.ltb_spec q (2 * r)); destruct (Z.ltb_spec (2 * r') q');
    destruct (Z.ltb_spec q' (2 * r')); destruct (Z.even d); try lia; nia.
Qed.

(** ** Rounding to 53 bits *)

(** The power of two in the last place. *)
Definition ulp (p q : Z) : Z := Z.max 0 (Z.log2 (p / q) - 52).

Lemma round_pos_eq p q : 0 < q -> round_pos p q = rne p (q * 2 ^ ulp p q) * 2 ^ ulp p q.
Proof. intros Hq. unfold round_pos, ulp. by rewrite !Z.shiftl_mul_pow2 by lia. Qed.

Lemma ulp_nonneg p q : 0 <= ulp p q.
Proof. unfold ulp. lia. Qed.

Lemma ulp_high p q : 0 <= p -> 0 < q -> p < 2 ^ 53 * (q * 2 ^ ulp p q).
Proof.
  intros Hp Hq. unfold ulp. destruct (Z.eq_dec (p / q) 0) as [E|E].
  - rewrite E. change (2 ^ Z.max 0 (Z.log2 0 - 52)) with 1. apply Z.div_small_iff in E; lia.
  - pose proof (Z.div_pos p q Hp Hq) as Hpq. pose proof (Z.log2_spec (p / q) ltac:(lia)) as [_ Hl]. pose proof (Z.log2_nonneg (p / q)).
    assert (p < q * (p / q + 1)) as Hd by (pose proof (Z.mul_succ_div_gt p q Hq); lia).
    assert (2 ^ Z.succ (Z.log2 (p / q)) <= 2 ^ 53 * 2 ^ Z.max 0 (Z.log2 (p / q) - 52)) as Hk.
    { rewrite <- Z.pow_add_r by lia. apply Z.pow_le_mono_r; lia. }
    generalize dependent (2 ^ Z.max 0 (Z.log2 (p / q) - 52)). generalize dependent (2 ^ Z.succ (Z.log2 (p / q))).
    generalize dependent (p / q). intros d _ _ Hd x Hdx y Hxy. nia.
Qed.

Lemma ulp_low p q : 0 <= p -> 0 < q -> 0 < ulp p q -> 2 ^ 52 * (q * 2 ^ ulp p q) <= p.
Proof.
  intros Hp Hq. unfold ulp. intros Hk. rewrite Z.max_r in * by lia.
  assert (0 < p / q) as Hpos by (destruct (Z.eq_dec (p / q) 0) as [E|]; [rewrite E in Hk; cbn in Hk; lia|pose proof (Z.div_pos p q Hp Hq); lia]).
  pose proof (Z.log2_spec (p / q) Hpos) as [Hl _]. pose proof (Z.mul_div_le p q Hq) as Hd.
  replace (2 ^ 52 * (q * 2 ^ (Z.log2 (p / q) - 52))) with (q * 2 ^ (Z.log2 (p / q))); [nia|].
  replace (Z.log2 (p / q)) with (52 + (Z.log2 (p / q) - 52)) at 1 by lia. rewrite Z.pow_add_r by lia. lia.
Qed.

Lemma round_pos_nonneg p q : 0 <= p -> 0 < q -> 0 <= round_pos p q.
Proof.
  intros Hp Hq. rewrite round_pos_eq by done. assert (0 < 2 ^ ulp p q) by (apply Z.pow_pos_nonneg; [lia|apply ulp_nonneg]).
  pose proof (rne_near p (q * 2 ^ ulp p q) ltac:(nia)). pose proof (Z.div_pos p (q * 2 ^ ulp p q) Hp ltac:(nia)). nia.
Qed.

Lemma round_pos_high p q : 0 <= p -> 0 < q -> round_pos p q <= 2 ^ 53 * 2 ^ ulp p q.
Proof.
  intros Hp Hq. rewrite round_pos_eq by done. pose proof (ulp_high p q Hp Hq).
  assert (0 < 2 ^ ulp p q) by (apply Z.pow_pos_nonneg; [lia|apply ulp_nonneg]).
  pose proof (rne_mono p (q * 2 ^ ulp p q) (2 ^ 53 * (q * 2 ^ ulp p q)) (q * 2 ^ ulp p q) ltac:(nia) ltac:(nia) ltac:(nia)) as Hm.
  rewrite rne_exact in Hm by nia. apply Z.mul_le_mono_nonneg_r; lia.
Qed.

Lemma round_pos_low p q : 0 <= p -> 0 < q -> 0 < ulp p q -> 2 ^ 52 * 2 ^ ulp p q <= round_pos p q.
Proof.
  intros Hp Hq Hk. rewrite round_pos_eq by done. pose proof (ulp_low p q Hp Hq Hk).
  assert (0 < 2 ^ ulp p q) by (apply Z.pow_pos_nonneg; [lia|apply ulp_nonneg]).
  pose proof (rne_mono (2 ^ 52 * (q * 2 ^ ulp p q)) (q * 2 ^ ulp p q) p (q * 2 ^ ulp p q) ltac:(nia) ltac:(nia) ltac:(nia)) as Hm.
  rewrite rne_exact in Hm by nia. apply Z.mul_le_mono_nonneg_r; lia.
Qed.

Lemma ulp_mono p q p' q' : 0 <= p -> 0 < q -> 0 < q' -> p * q' <= p' * q -> ulp p q <= ulp p' q'.
Proof.
  intros Hp Hq Hq' Hle. unfold ulp. assert (p / q <= p' / q'); [|pose proof (Z.log2_le_mono _ _ H); lia].
  apply Z.div_le_lower_bound; [done|]. pose proof (Z.mul_div_le p q Hq).
  apply (Z.mul_le_mono_pos_l _ _ q); [done|]. nia.
Qed.

Lemma round_pos_mono p q p' q' : 0 <= p -> 0 < q -> 0 < q' -> p * q' <= p' * q -> round_pos p q <= round_pos p' q'.
Proof.
  intros Hp Hq Hq' Hle. pose proof (ulp_mono p q p' q' Hp Hq Hq' Hle) as Hk. pose proof (ulp_nonneg p q) as Hk0.
  assert (0 <= p') as Hp' by nia.
  assert (0 < 2 ^ ulp p q) by (apply Z.pow_pos_nonneg; [lia|apply ulp_nonneg]).
  destruct (Z.eq_dec (ulp p q) (ulp p' q')) as [E|E].
  - rewrite !round_pos_eq, <- E by done. apply Z.mul_le_mono_nonneg_r; [lia|]. apply rne_mono; nia.
  - pose proof (round_pos_high p q Hp Hq). pose proof (round_pos_low p' q' Hp' Hq' ltac:(lia)).
    assert (2 ^ 53 * 2 ^ ulp p q <= 2 ^ 52 * 2 ^ ulp p' q'); [|lia].
    rewrite <- !Z.pow_add_r by lia. apply Z.pow_le_mono_r; lia.
Qed.

Lemma round_mono p q p' q' : 0 < q -> 0 < q' -> p * q' <= p' * q -> round p q <= round p' q'.
Proof.
  intros Hq Hq' Hle. unfold round. destruct (Z.ltb_spec p 0); destruct (Z.ltb_spec p' 0).
  - apply Z.opp_le_mono. rewrite !Z.opp_involutive. apply round_pos_mono; nia.
  - pose proof (round_pos_nonneg (- p) q ltac:(lia) Hq). pose proof (round_pos_nonneg p' q' ltac:(lia) Hq'). lia.
  - nia.
  - by apply round_pos_mono.
Qed.

(** The doubles. *)
Definition repr (n : Z) : Prop := exists m k, n = m * 2 ^ k /\ 0 <= k /\ - 2 ^ 53 <= m <= 2 ^ 53.

Lemma round_pos_exact n q : 0 <= n -> 0 < q -> repr n -> round_pos (n * q) q = n.
Proof.
  intros Hn Hq (m & k & E & Hk & Hm). rewrite round_pos_eq by done. unfold ulp. rewrite Z.div_mul by lia.
  remember (Z.max 0 (Z.log2 n - 52)) as j eqn:Hj.
  assert (exists i, n = i * 2 ^ j) as [i Ei].
  { destruct (Z.le_gt_cases j k) as [Hjk|Hjk].
    - exists (m * 2 ^ (k - j)). rewrite <- Z.mul_assoc, <- Z.pow_add_r by lia. by rewrite Z.sub_add.
    - assert (m < 2 ^ 53 -> False) as Hm'.
      { intros Hlt. assert (n < 2 ^ (53 + k)) by (rewrite Z.pow_add_r by lia; nia).
        destruct (Z.eq_dec n 0) as [->|]; [cbn in Hj; lia|].
        pose proof (proj1 (Z.log2_lt_pow2 n (53 + k) ltac:(lia)) ltac:(lia)). lia. }
      assert (m = 2 ^ 53) as -> by lia. rewrite <- Z.pow_add_r in E by lia. subst n.
      rewrite Z.log2_pow2 in Hj by lia. exists (2 ^ (53 + k - j)). rewrite <- Z.pow_add_r by lia. f_equal. lia. }
  rewrite Ei at 1. replace (i * 2 ^ j * q) with (i * (q * 2 ^ j)) by lia.
  rewrite rne_exact by (assert (0 < 2 ^ j) by (apply Z.pow_pos_nonneg; lia); nia). by rewrite <- Ei.
Qed.

Lemma repr_opp n : repr n -> repr (- n).
Proof. intros (m & k & -> & Hk & Hm). exists (- m), k. split_and!; lia. Qed.

Lemma round_exact n q : 0 < q -> repr n -> round (n * q) q = n.
Proof.
  intros Hq Hn. unfold round. destruct (Z.ltb_spec (n * q) 0).
  - rewrite <- Z.mul_opp_l, round_pos_exact; [lia|nia|done|by apply repr_opp].
  - apply round_pos_exact; [nia|done|done].
Qed.

(** What lies between two doubles stays there. *)
Lemma round_between lo hi p q : 0 < q -> repr lo -> repr hi -> lo * q <= p <= hi * q -> lo <= round p q <= hi.
Proof.
  intros Hq Hlo Hhi Hp. rewrite <- (round_exact lo q Hq Hlo) at 1. rewrite <- (round_exact hi q Hq Hhi) at 1.
  split; apply round_mono; nia.
Qed.

(** A large double is a multiple of a power of two. *)
Lemma round_multiple k p q : 0 < q -> 0 <= k -> 2 ^ (52 + k) * q <= p -> exists i, round p q = i * 2 ^ k.
Proof.
  intros Hq Hk Hp. assert (0 < 2 ^ (52 + k)) by (apply Z.pow_pos_nonneg; lia).
  unfold round. destruct (Z.ltb_spec p 0); [nia|]. rewrite round_pos_eq by done.
  assert (k <= ulp p q) as Hu.
  { unfold ulp. assert (2 ^ (52 + k) <= p / q) as Hd by (apply Z.div_le_lower_bound; lia).
    pose proof (Z.log2_le_mono _ _ Hd) as Hl. rewrite Z.log2_pow2 in Hl by lia. lia. }
  exists (rne p (q * 2 ^ ulp p q) * 2 ^ (ulp p q - k)). rewrite <- Z.mul_assoc, <- Z.pow_add_r by lia. by rewrite Z.sub_add.
Qed.

(** ** Fixed point

    The doubles [n * 2 ^ -k], on which the arithmetic is exact while
    [n] has at most 53 bits. *)
Definition q (k n : Z) : double := n * 2 ^ (U - k).

Definition small (n : Z) : Prop := - 2 ^ 53 <= n <= 2 ^ 53.

Section fixed.
Context (k : Z) (Hk : 0 <= k <= U).

Lemma repr_q_pow n j : 0 <= j -> small n -> repr (q k (n * 2 ^ j)).
Proof using Hk.
  intros Hj Hn. exists n, (j + (U - k)). split; [|split; [lia|done]]. unfold q. rewrite Z.pow_add_r by lia. lia.
Qed.

Lemma repr_q n : small n -> repr (q k n).
Proof using Hk. intros Hn. rewrite <- (Z.mul_1_r n). by apply (repr_q_pow n 0). Qed.

Lemma q_pos : 0 < 2 ^ (U - k).
Proof using Hk. apply Z.pow_pos_nonneg; lia. Qed.

Lemma unit_q : 2 ^ U = 2 ^ k * 2 ^ (U - k).
Proof using Hk. rewrite <- Z.pow_add_r by lia. f_equal. lia. Qed.

Lemma shift_unit n : Z.shiftl n U = q k (n * 2 ^ k).
Proof using Hk. unfold q. rewrite Z.shiftl_mul_pow2 by (unfold U; lia). rewrite unit_q. lia. Qed.

Lemma lit_q n j : 0 <= j <= k -> lit n j = q k (n * 2 ^ (k - j)).
Proof using Hk.
  intros Hj. unfold lit, q. rewrite Z.shiftl_mul_pow2 by lia. rewrite <- Z.mul_assoc, <- Z.pow_add_r by lia.
  do 2 f_equal. lia.
Qed.

Lemma of_int_q z : small z -> of_int z = q k (z * 2 ^ k).
Proof using Hk.
  intros Hz. unfold of_int. rewrite shift_unit. rewrite <- (Z.mul_1_r (q k _)) at 1.
  apply round_exact; [lia|apply repr_q_pow; [lia|done]].
Qed.

Lemma add_q a b : repr (q k (a + b)) -> add (q k a) (q k b) = q k (a + b).
Proof using.
  intros H. unfold add. replace (q k a + q k b) with (q k (a + b) * 1) by (unfold q; lia). apply round_exact; [lia|done].
Qed.

Lemma sub_q a b : repr (q k (a - b)) -> sub (q k a) (q k b) = q k (a - b).
Proof using.
  intros H. unfold sub. replace (q k a - q k b) with (q k (a - b) * 1) by (unfold q; lia). apply round_exact; [lia|done].
Qed.

Lemma mul_q a b c : a * b = c * 2 ^ k -> repr (q k c) -> mul (q k a) (q k b) = q k c.
Proof using Hk.
  intros E H. unfold mul. rewrite shift_unit. pose proof q_pos as Hu. assert (0 < 2 ^ k) by (apply Z.pow_pos_nonneg; lia).
  replace (q k a * q k b) with (q k c * q k (1 * 2 ^ k)).
  - apply round_exact; [|done]. unfold q. nia.
  - unfold q. generalize dependent (2 ^ (U - k)). intros x _. generalize dependent (2 ^ k). intros y E _. nia.
Qed.

Lemma div_zero b : 0 < b -> div (q k 0) b = q k 0.
Proof using.
  intros Hb. unfold div. replace (Z.shiftl (q k 0) U) with (q k 0 * b) by (unfold q; by rewrite Z.shiftl_0_l).
  apply round_exact; [done|]. exists 0, 0. split; [by unfold q|split; lia].
Qed.

Lemma floor_q a : floor (q k a) = q k (a / 2 ^ k * 2 ^ k).
Proof using Hk.
  unfold floor. rewrite Z.shiftr_div_pow2 by (unfold U; lia). rewrite shift_unit. do 2 f_equal.
  rewrite unit_q. unfold q. pose proof q_pos. apply Z.div_mul_cancel_r; [|lia]. apply Z.pow_nonzero; lia.
Qed.

(** The floor of a quotient is not disturbed by its rounding. *)
Lemma floor_between f x : q k (f * 2 ^ k) <= x < q k ((f + 1) * 2 ^ k) -> floor x = q k (f * 2 ^ k).
Proof using Hk.
  intros Hx. unfold floor. rewrite Z.shiftr_div_pow2 by (unfold U; lia). rewrite shift_unit. do 2 f_equal.
  rewrite unit_q. unfold q in Hx. set (u := 2 ^ (U - k)) in *. set (y := 2 ^ k) in *. clearbody u y.
  symmetry. apply (Z.div_unique_pos _ _ f (x - y * u * f)); [nia|lia].
Qed.

Lemma floor_div_q a b g : 0 < g -> 0 < b <= 2 ^ k -> small (a / b * 2 ^ k) -> small ((a / b + 1) * 2 ^ k - 1) ->
  floor (div (q k (a * g)) (q k (b * g))) = q k (a / b * 2 ^ k).
Proof using Hk.
  intros Hg Hb Hf Hf'. unfold div. pose proof q_pos as Hu. apply floor_between.
  assert (q k (a / b * 2 ^ k) <= round (Z.shiftl (q k (a * g)) U) (q k (b * g)) <= q k ((a / b + 1) * 2 ^ k - 1)) as Hr;
    [|unfold q in *; nia].
  pose proof (Z.div_mod a b ltac:(lia)) as E. pose proof (Z.mod_pos_bound a b ltac:(lia)).
  apply round_between; [unfold q; nia|by apply repr_q..|].
  set (f := a / b) in *. set (m := a mod b) in *. clearbody f m. subst a.
  rewrite shift_unit. unfold q. set (x := 2 ^ (U - k)) in *. clearbody x. set (y := 2 ^ k) in *. clearbody y.
  assert (0 < g * x * x) by nia. split.
  - replace (f * y * x * (b * g * x)) with (y * (f * b) * (g * x * x)) by ring.
    replace ((b * f + m) * g * x * y * x) with (y * (f * b + m) * (g * x * x)) by ring.
    apply Z.mul_le_mono_nonneg_r; [lia|]. nia.
  - replace (((f + 1) * y - 1) * x * (b * g * x)) with ((y * (f * b) + (y * b - b)) * (g * x * x)) by ring.
    replace ((b * f + m) * g * x * y * x) with ((y * (f * b) + y * m) * (g * x * x)) by ring.
    apply Z.mul_le_mono_nonneg_r; [lia|]. nia.
Qed.

Lemma trunc_q a : trunc (q k a) = Z.quot a (2 ^ k).
Proof using Hk.
  unfold trunc. rewrite shift_unit. unfold q. pose proof q_pos. rewrite Z.mul_1_l. apply Z.quot_mul_cancel_r; [|lia].
  apply Z.pow_nonzero; lia.
Qed.

Lemma to_int_q lo hi a : lo <= Z.quot a (2 ^ k) <= hi -> to_int lo hi (q k a) = Done (Z.quot a (2 ^ k)).
Proof using Hk.
  intros Hl. unfold to_int. rewrite trunc_q by done. by rewrite (proj2 (Z.leb_le lo _)), (proj2 (Z.leb_le _ hi)) by lia.
Qed.
End fixed.
End Double.
