(* ===== verification/DateTime.v ===== *)
(** Points in time and calendar dates of POCO Foundation: Timespan.cpp,
    Timestamp.cpp and DateTime.cpp with their headers.

    Signed overflow and a conversion of a double that does not fit are
    undefined; the conversion of a wide integer to a narrow one wraps. *)

From S2P Require Import Prelude Strings NumericString Float.

Open Scope res_scope.
Local Open Scope Z_scope.

(** A conversion to [int] or [short]. *)
Definition as_int (z : Z) : Z := (z + 2 ^ 31) mod 2 ^ 32 - 2 ^ 31.
Definition as_short (z : Z) : Z := (z + 2 ^ 15) mod 2 ^ 16 - 2 ^ 15.

(** ** Timespan: [_span] in microseconds *)
Module Timespan.
Definition MILLISECONDS : Z := 1000.
Definition SECONDS : Z := 1000 * MILLISECONDS.
Definition MINUTES : Z := 60 * SECONDS.
Definition HOURS : Z := 60 * MINUTES.
Definition DAYS : Z := 24 * HOURS.

Definition of_seconds (seconds microSeconds : Z) : res Z :=
  let? s := arith Int64 (seconds * SECONDS) in
  arith Int64 (s + microSeconds).

Definition construct (days hours minutes seconds microSeconds : Z) : res Z :=
  let? s := arith Int64 (seconds * SECONDS) in
  let? t := arith Int64 (microSeconds + s) in
  let? m := arith Int64 (minutes * MINUTES) in
  let? t := arith Int64 (t + m) in
  let? h := arith Int64 (hours * HOURS) in
  let? t := arith Int64 (t + h) in
  let? d := arith Int64 (days * DAYS) in
  arith Int64 (t + d).
Definition assign (days hours minutes seconds microSeconds : Z) : res Z :=
  construct days hours minutes seconds microSeconds.
Definition assign_seconds (seconds microSeconds : Z) : res Z := of_seconds seconds microSeconds.

Definition plus (_span d : Z) : res Z := arith Int64 (_span + d).
Definition minus (_span d : Z) : res Z := arith Int64 (_span - d).

Definition days (_span : Z) : Z := as_int (Z.quot _span DAYS).
Definition hours (_span : Z) : Z := as_int (Z.rem (Z.quot _span HOURS) 24).
Definition totalHours (_span : Z) : Z := as_int (Z.quot _span HOURS).
Definition minutes (_span : Z) : Z := as_int (Z.rem (Z.quot _span MINUTES) 60).
Definition totalMinutes (_span : Z) : Z := as_int (Z.quot _span MINUTES).
Definition seconds (_span : Z) : Z := as_int (Z.rem (Z.quot _span SECONDS) 60).
Definition totalSeconds (_span : Z) : Z := as_int (Z.quot _span SECONDS).
Definition milliseconds (_span : Z) : Z := as_int (Z.rem (Z.quot _span MILLISECONDS) 1000).
Definition totalMilliseconds (_span : Z) : Z := Z.quot _span MILLISECONDS.
Definition microseconds (_span : Z) : Z := as_int (Z.rem _span 1000).
Definition useconds (_span : Z) : Z := as_int (Z.rem _span 1000000).
Definition totalMicroseconds (_span : Z) : Z := _span.
End Timespan.

(** ** Timestamp: [_ts] in microseconds since 1970 *)
Module Timestamp.
Definition resolution : Z := 1000000.

(** 1970 in ticks of 100 ns since 15 October 1582. *)
Definition epoch : Z := Z.shiftl 0x01b21dd2 32 + 0x13814000.

Definition fromEpochTime (t : Z) : res Z := arith Int64 (t * resolution).
Definition fromUtcTime (val : Z) : res Z :=
  let? v := arith Int64 (val - epoch) in Done (Z.quot v 10).
Definition utcTime (_ts : Z) : res Z :=
  let? t := arith Int64 (_ts * 10) in
  let? t := arith Int64 (t + Z.shiftl 0x01b21dd2 32) in
  arith Int64 (t + 0x13814000).
Definition epochTime (_ts : Z) : Z := Z.quot _ts resolution.
Definition epochMicroseconds (_ts : Z) : Z := _ts.
Definition plus (_ts d : Z) : res Z := arith Int64 (_ts + d).
Definition minus (_ts d : Z) : res Z := arith Int64 (_ts - d).
Definition difference (_ts ts : Z) : res Z := arith Int64 (_ts - ts).
Definition isElapsed (now _ts interval : Z) : res bool :=
  let? diff := difference now _ts in Done (interval <=? diff).
End Timestamp.

(** ** DateTime *)
Module DateTime.
Import Double.

Record DateTime_ := {
  _utcTime : Z; _year : Z; _month : Z; _day : Z; _hour : Z; _minute : Z; _second : Z; _millisecond : Z; _microsecond : Z
}.

Definition isLeapYear (year : Z) : bool :=
  (Z.rem year 4 =? 0) && (negb (Z.rem year 100 =? 0) || (Z.rem year 400 =? 0)).

Definition daysOfMonthTable : list Z := [0; 31; 28; 31; 30; 31; 30; 31; 31; 30; 31; 30; 31].
Definition daysOfMonth (year month : Z) : res Z :=
  if between 1 month 12 then
    if (month =? 2) && isLeapYear year then Done 29 else Done (nth (Z.to_nat month) daysOfMonthTable 0)
  else Raise AssertionViolationException.

(** The checks of the constructor and of [assign], one after the other. *)
Definition check (year month day hour minute second millisecond microsecond : Z) : res unit :=
  if negb (between 0 year 9999) then Raise AssertionViolationException
  else if negb (between 1 month 12) then Raise AssertionViolationException
  else
    let? last := daysOfMonth year month in
    if negb (between 1 day last) then Raise AssertionViolationException
    else if negb (between 0 hour 23) then Raise AssertionViolationException
    else if negb (between 0 minute 59) then Raise AssertionViolationException
    else if negb (between 0 second 59) then Raise AssertionViolationException
    else if negb (between 0 millisecond 999) then Raise AssertionViolationException
    else if negb (between 0 microsecond 999) then Raise AssertionViolationException
    else Done tt.

Definition isValid (year month day hour minute second millisecond microsecond : Z) : bool :=
  between 0 year 9999 && between 1 month 12
  && match daysOfMonth year month with Done last => between 1 day last | _ => false end
  && between 0 hour 23 && between 0 minute 59 && between 0 second 59
  && between 0 millisecond 999 && between 0 microsecond 999.

(** [toJulianDay(utcTime)] and [toUtcTime] *)
Definition toJulianDay_utc (utcTime : Z) : double :=
  let utcDays := div (of_int utcTime) (lit 864000000000 0) in
  add utcDays (lit 4598321 1).

Definition toUtcTime (julianDay : double) : res Z :=
  to_int64 (mul (sub julianDay (lit 4598321 1)) (lit 864000000000 0)).

Definition lookup : list Z := [-91; -60; -30; 0; 31; 61; 92; 122; 153; 184; 214; 245; 275; 306; 337].

Definition toJulianDay (year month day hour minute second millisecond microsecond : Z) : double :=
  let dday := add (of_int day)
    (div (add (mul (add (mul (of_int ((hour * 60 + minute) * 60 + second)) (of_int 1000)) (of_int millisecond)) (of_int 1000))
              (of_int microsecond))
         (lit 86400000000 0)) in
  let (month, year) := if month <? 3 then (month + 12, year - 1) else (month, year) in
  let dyear := of_int year in
  let s := add dday (of_int (nth (Z.to_nat month) lookup 0)) in
  let s := add s (of_int (365 * year)) in
  let s := add s (floor (div dyear (of_int 4))) in
  let s := sub s (floor (div dyear (of_int 100))) in
  let s := add s (floor (div dyear (of_int 400))) in
  add s (lit 3442237 1).

(** The constructor from a date, and [assign]. *)
Definition assign (year month day hour minute second millisecond microsecond : Z) : res DateTime_ :=
  let? _checked := check year month day hour minute second millisecond microsecond in
  let? days := toUtcTime (toJulianDay year month day 0 0 0 0 0) in
  Done {| _utcTime := days + 10 * (hour * Timespan.HOURS + minute * Timespan.MINUTES + second * Timespan.SECONDS
                                   + millisecond * Timespan.MILLISECONDS + microsecond);
          _year := year; _month := month; _day := day; _hour := hour; _minute := minute; _second := second;
          _millisecond := millisecond; _microsecond := microsecond |}.

(** [checkLimit]: the new values of [lower] and [higher]. *)
Definition checkLimit (lower higher limit : Z) : Z * Z :=
  if limit <=? lower then (as_short (Z.rem lower limit), as_short (higher + as_short (Z.quot lower limit)))
  else (lower, higher).

Definition normalize (d : DateTime_) : res DateTime_ :=
  let (us, ms) := checkLimit (_microsecond d) (_millisecond d) 1000 in
  let (ms, s) := checkLimit ms (_second d) 1000 in
  let (s, mi) := checkLimit s (_minute d) 60 in
  let (mi, h) := checkLimit mi (_hour d) 60 in
  let (h, day) := checkLimit h (_day d) 24 in
  let? last := daysOfMonth (_year d) (_month d) in
  let '(y, mo, day) :=
    if last <? day then
      let day := as_short (day - last) in
      let mo := as_short (_month d + 1) in
      if 12 <? mo then (as_short (_year d + 1), as_short (mo - 12), day) else (_year d, mo, day)
    else (_year d, _month d, day) in
  Done {| _utcTime := _utcTime d; _year := y; _month := mo; _day := day; _hour := h; _minute := mi; _second := s;
          _millisecond := ms; _microsecond := us |}.

(** The part of [computeGregorian] that finds the date: year, month, day, and
    the fraction of the day. *)
Definition gregorian_date (julianDay : double) : res (Z * Z * Z * double) :=
  let z := floor (sub julianDay (lit 3442237 1)) in
  let r := sub (sub julianDay (lit 3442237 1)) z in
  let g := sub z (lit 1 2) in
  let a := floor (div g (lit 146097 2)) in
  let b := sub a (floor (div a (of_int 4))) in
  let? year := Double.to_short (floor (div (add b g) (lit 1461 2))) in
  let c := sub (add b z) (floor (mul (lit 1461 2) (of_int year))) in
  let? month := Double.to_short (floor (div (add (mul (of_int 5) c) (of_int 456)) (of_int 153))) in
  let dday := add (sub c (floor (div (sub (mul (lit 153 0) (of_int month)) (of_int 457)) (of_int 5)))) r in
  let? day := Double.to_short dday in
  let (year, month) := if 12 <? month then (as_short (year + 1), as_short (month - 12)) else (year, month) in
  Done (year, month, day, r).

(** The part that finds the time of the day. *)
Definition gregorian_time (r : double) : res (Z * Z * Z * Z * Z) :=
  let r := mul r (of_int 24) in
  let? hour := Double.to_short (floor r) in
  let r := mul (sub r (floor r)) (of_int 60) in
  let? minute := Double.to_short (floor r) in
  let r := mul (sub r (floor r)) (of_int 60) in
  let? second := Double.to_short (floor r) in
  let r := mul (sub r (floor r)) (of_int 1000) in
  let? millisecond := Double.to_short (floor r) in
  let r := mul (sub r (floor r)) (of_int 1000) in
  let? microsecond := Double.to_short (add r (lit 1 1)) in
  Done (hour, minute, second, millisecond, microsecond).

Definition computeGregorian (utc : Z) (julianDay : double) : res DateTime_ :=
  let? date := gregorian_date julianDay in
  let '(year, month, day, r) := date in
  let? time := gregorian_time r in
  let '(hour, minute, second, millisecond, microsecond) := time in
  normalize {| _utcTime := utc; _year := year; _month := month; _day := day; _hour := hour; _minute := minute;
               _second := second; _millisecond := millisecond; _microsecond := microsecond |}.

Definition computeDaytime (d : DateTime_) : DateTime_ :=
  let span := Z.quot (_utcTime d) 10 in
  {| _utcTime := _utcTime d; _year := _year d; _month := _month d; _day := _day d;
     _hour := as_short (Timespan.hours span); _minute := as_short (Timespan.minutes span);
     _second := as_short (Timespan.seconds span); _millisecond := as_short (Timespan.milliseconds span);
     _microsecond := as_short (Timespan.microseconds span) |}.

(** [computeGregorian(julianDay()); computeDaytime();] *)
Definition of_utc (utc : Z) : res DateTime_ :=
  let? d := computeGregorian utc (toJulianDay_utc utc) in
  Done (computeDaytime d).

Definition of_timestamp (ts : Z) : res DateTime_ := let? utc := Timestamp.utcTime ts in of_utc utc.
Definition of_julianDay (julianDay : double) : res DateTime_ :=
  let? utc := toUtcTime julianDay in computeGregorian utc julianDay.
Definition of_utc_diff (utcTime diff : Z) : res DateTime_ :=
  let? d := arith Int64 (diff * 10) in
  let? utc := arith Int64 (utcTime + d) in
  of_utc utc.

Definition timestamp (d : DateTime_) : res Z := Timestamp.fromUtcTime (_utcTime d).
Definition julianDay (d : DateTime_) : double := toJulianDay_utc (_utcTime d).

Definition hourAMPM (d : DateTime_) : Z :=
  if _hour d <? 1 then 12 else if 12 <? _hour d then _hour d - 12 else _hour d.
Definition isAM (d : DateTime_) : bool := _hour d <? 12.
Definition isPM (d : DateTime_) : bool := 12 <=? _hour d.

Definition dayOfWeek (d : DateTime_) : res Z :=
  let? n := to_int32 (floor (add (julianDay d) (lit 3 1))) in Done (Z.rem n 7).

(** The loop of [dayOfYear] over the months from [month] on. *)
Fixpoint doy_loop (n : nat) (year month : Z) : res Z :=
  match n with
  | O => Done 0
  | S n =>
      let? days := daysOfMonth year month in
      let? rest := doy_loop n year (month + 1) in
      Done (days + rest)
  end.
Definition dayOfYear (d : DateTime_) : res Z :=
  let? doy := doy_loop (Z.to_nat (_month d - 1)) (_year d) 1 in Done (doy + _day d).

(** The loop of [week]; the constructor refuses a day past 31. *)
Fixpoint week_loop (fuel : nat) (year firstDayOfWeek baseDay : Z) : res Z :=
  match fuel with
  | O => UB
  | S fuel =>
      let? first := assign year 1 baseDay 0 0 0 0 0 in
      let? dow := dayOfWeek first in
      if negb (dow =? firstDayOfWeek) then week_loop fuel year firstDayOfWeek (baseDay + 1) else Done baseDay
  end.
Definition week (firstDayOfWeek : Z) (d : DateTime_) : res Z :=
  if negb (between 0 firstDayOfWeek 6) then Raise AssertionViolationException
  else
    let? baseDay := week_loop 32 (_year d) firstDayOfWeek 1 in
    let? doy := dayOfYear d in
    let offs := if baseDay <=? 4 then 0 else 1 in
    if doy <? baseDay then Done offs else Done (Z.quot (doy - baseDay) 7 + 1 + offs).

Definition plus (d : DateTime_) (span : Z) : res DateTime_ := of_utc_diff (_utcTime d) span.
Definition minus (d : DateTime_) (span : Z) : res DateTime_ :=
  let? neg := arith Int64 (- span) in of_utc_diff (_utcTime d) neg.
Definition difference (d dateTime : DateTime_) : res Z :=
  let? t := arith Int64 (_utcTime d - _utcTime dateTime) in Done (Z.quot t 10).
Definition add_span (d : DateTime_) (span : Z) : res DateTime_ :=
  let? t := arith Int64 (span * 10) in
  let? utc := arith Int64 (_utcTime d + t) in
  of_utc utc.
Definition sub_span (d : DateTime_) (span : Z) : res DateTime_ :=
  let? t := arith Int64 (span * 10) in
  let? utc := arith Int64 (_utcTime d - t) in
  of_utc utc.
Definition makeUTC (d : DateTime_) (tzd : Z) : res DateTime_ :=
  let? span := arith Int64 (tzd * Timespan.SECONDS) in sub_span d span.
Definition makeLocal (d : DateTime_) (tzd : Z) : res DateTime_ :=
  let? span := arith Int64 (tzd * Timespan.SECONDS) in add_span d span.
End DateTime.
