(* ===== verification/DateTimeFacts.v ===== *)
(** Dates and times: the calendar behind the Julian day, and that the floating
    point arithmetic of DateTime finds it. *)

From S2P Require Import Prelude Strings NumericString Float DateTime.
Import Double DateTime.

Open Scope res_scope.
Local Open Scope Z_scope.

(** ** The calendar *)
Module Calendar.

Definition leap (y : Z) : bool := (y mod 4 =? 0) && (negb (y mod 100 =? 0) || (y mod 400 =? 0)).

Definition month_days (y m : Z) : Z :=
  if m =? 2 then if leap y then 29 else 28
  else if (m =? 4) || (m =? 6) || (m =? 9) || (m =? 11) then 30 else 31.

Definition valid (y m d : Z) : Prop := 1 <= m <= 12 /\ 1 <= d <= month_days y m.

#[global] Instance valid_dec y m d : Decision (valid y m d).
Proof. unfold valid. apply _. Defined.

(** The day after. *)
Definition next_day (y m d : Z) : Z * Z * Z :=
  if d <? month_days y m then (y, m, d + 1) else if m <? 12 then (y, m + 1, 1) else (y + 1, 1, 1).

(** The days since 1 March of the year 0, the first one being 1: in years that
    start with March a leap day is the last day. *)
Definition before_month (m : Z) : Z := (153 * m - 457) / 5.
Definition before_year (y : Z) : Z := 365 * y + y / 4 - y / 100 + y / 400.
Definition march_month (m : Z) : Z := if m <? 3 then m + 12 else m.
Definition march_year (y m : Z) : Z := if m <? 3 then y - 1 else y.
Definition day_no (y m d : Z) : Z := d + before_month (march_month m) + before_year (march_year y m).

Lemma isLeapYear_leap y : 0 <= y -> isLeapYear y = leap y.
Proof. intros Hy. unfold isLeapYear, leap. by rewrite !Z.rem_mod_nonneg by lia. Qed.

Lemma month_cases m : 1 <= m <= 12 ->
  m = 1 \/ m = 2 \/ m = 3 \/ m = 4 \/ m = 5 \/ m = 6 \/ m = 7 \/ m = 8 \/ m = 9 \/ m = 10 \/ m = 11 \/ m = 12.
Proof. lia. Qed.

Ltac each_month H := apply month_cases in H; destruct_or! H; subst; cbn -[before_year Z.sub Z.div Z.modulo].

Lemma daysOfMonth_days y m : 0 <= y -> 1 <= m <= 12 -> daysOfMonth y m = Done (month_days y m).
Proof.
  intros Hy Hm. unfold daysOfMonth, month_days. rewrite isLeapYear_leap by done. each_month Hm; try done. by destruct (leap y).
Qed.

Lemma month_days_bounds y m : 28 <= month_days y m <= 31.
Proof. unfold month_days. repeat case_match; lia. Qed.

Lemma before_year_step y : before_year y = before_year (y - 1) + (if leap y then 366 else 365).
Proof.
  unfold before_year, leap.
  assert (y / 4 = (y - 1) / 4 + (if y mod 4 =? 0 then 1 else 0)) as -> by (destruct (Z.eqb_spec (y mod 4) 0); lia).
  assert (y / 100 = (y - 1) / 100 + (if y mod 100 =? 0 then 1 else 0)) as -> by (destruct (Z.eqb_spec (y mod 100) 0); lia).
  assert (y / 400 = (y - 1) / 400 + (if y mod 400 =? 0 then 1 else 0)) as -> by (destruct (Z.eqb_spec (y mod 400) 0); lia).
  destruct (Z.eqb_spec (y mod 4) 0); destruct (Z.eqb_spec (y mod 100) 0); destruct (Z.eqb_spec (y mod 400) 0); cbn; lia.
Qed.

(** The day number of the next day is the next number. *)
Lemma day_no_next y m d : valid y m d -> let '(y', m', d') := next_day y m d in day_no y' m' d' = day_no y m d + 1.
Proof.
  intros [Hm Hd]. unfold next_day. destruct (Z.ltb_spec d (month_days y m)) as [Hl|Hl]; [unfold day_no; lia|].
  assert (d = month_days y m) as -> by lia. unfold month_days, day_no, march_month, march_year, before_month.
  pose proof (before_year_step y). clear Hd Hl. each_month Hm; repeat (match goal with |- context [if ?a <? ?b then _ else _] => destruct (Z.ltb_spec a b); [try lia|try lia] end); try lia.
  - destruct (leap y); lia.
  - rewrite (Z.add_simpl_r y 1). lia.
Qed.

Lemma next_day_valid y m d : valid y m d -> let '(y', m', d') := next_day y m d in valid y' m' d'.
Proof.
  intros [Hm Hd]. unfold next_day. destruct (Z.ltb_spec d (month_days y m)) as [Hl|Hl]; [split; lia|].
  destruct (Z.ltb_spec m 12) as [H|H]; [|split; [lia|]; cbn; lia].
  pose proof (month_days_bounds y (m + 1)). split; lia.
Qed.

(** ** The algorithm of [computeGregorian], in integers *)
Definition gregorian (z : Z) : Z * Z * Z :=
  let a := (4 * z - 1) / 146097 in
  let b := a - a / 4 in
  let year := (4 * (b + z) - 1) / 1461 in
  let c := b + z - 1461 * year / 4 in
  let month := (5 * c + 456) / 153 in
  let day := c - (153 * month - 457) / 5 in
  if 12 <? month then (year + 1, month - 12, day) else (year, month, day).

(** Where a day lies in its March year. *)
Lemma march_valid y m d : valid y m d ->
  let Y := march_year y m in let D := d + before_month (march_month m) in
  1 <= D <= 366 /\ (D = 366 -> Y mod 4 = 3 /\ (Y mod 100 = 99 -> Y mod 400 = 399))
  /\ 3 <= march_month m <= 14 /\ (5 * D + 456) / 153 = march_month m.
Proof.
  intros [Hm Hd]. unfold march_year, march_month, before_month. unfold month_days, leap in Hd.
  each_month Hm; try lia.
  all: destruct (Z.eqb_spec (y mod 4) 0); destruct (Z.eqb_spec (y mod 100) 0); destruct (Z.eqb_spec (y mod 400) 0); cbn in Hd; lia.
Qed.

Section steps.
Context (Y D : Z).
Hypotheses (HD : 1 <= D <= 366) (HL : D = 366 -> Y mod 4 = 3 /\ (Y mod 100 = 99 -> Y mod 400 = 399)).
Let z := D + before_year Y.

Lemma step_century : (4 * z - 1) / 146097 = Y / 100.
Proof using All. unfold z, before_year. lia. Qed.

Lemma step_year : (4 * (Y / 100 - Y / 100 / 4 + z) - 1) / 1461 = Y.
Proof using All. unfold z, before_year. lia. Qed.

Lemma step_day : Y / 100 - Y / 100 / 4 + z - 1461 * Y / 4 = D.
Proof using All. unfold z, before_year. lia. Qed.
End steps.
End Calendar.

Import Calendar.

(** ** The date in floating point *)
Module InDouble.

Lemma U31 : 0 <= 31 <= U. Proof. unfold U. lia. Qed.
Lemma U1 : 0 <= 1 <= U. Proof. unfold U. lia. Qed.
Lemma U0 : 0 <= 0 <= U. Proof. unfold U. lia. Qed.
#[local] Hint Resolve U31 U1 U0 : core.

(** Integers as doubles with 31 binary places. *)
Definition i31 (n : Z) : double := q 31 (n * 2 ^ 31).

Definition fits (n : Z) : Prop := - 2 ^ 22 < n < 2 ^ 22.

Lemma small_fits n f : fits n -> 0 <= f < 2 ^ 31 -> repr (q 31 (n * 2 ^ 31 + f)).
Proof. unfold fits. intros H Hf. apply repr_q; [done|]. unfold small. lia. Qed.

Lemma repr_frac f : 0 <= f < 2 ^ 31 -> repr (q 31 f).
Proof. intros Hf. apply repr_q; [done|]. unfold small. lia. Qed.

Lemma of_int_i z : fits z -> of_int z = i31 z.
Proof. intros H. unfold i31. apply of_int_q; [done|]. unfold fits, small in *. lia. Qed.

Lemma repr_i z : fits z -> repr (i31 z).
Proof. intros H. unfold i31. rewrite <- (Z.add_0_r (z * 2 ^ 31)). by apply small_fits. Qed.

Lemma add_i a b : fits (a + b) -> add (i31 a) (i31 b) = i31 (a + b).
Proof. intros H. unfold i31. rewrite Z.mul_add_distr_r. apply add_q. rewrite <- Z.mul_add_distr_r. by apply repr_i. Qed.

Lemma sub_i a b : fits (a - b) -> sub (i31 a) (i31 b) = i31 (a - b).
Proof. intros H. unfold i31. rewrite Z.mul_sub_distr_r. apply sub_q. rewrite <- Z.mul_sub_distr_r. by apply repr_i. Qed.

Lemma mul_i a b : fits (a * b) -> mul (i31 a) (i31 b) = i31 (a * b).
Proof. intros H. unfold i31. apply mul_q; [done|lia|by apply repr_i]. Qed.

Lemma floor_div_i a b : 0 < b <= 2 ^ 31 -> fits (a / b) -> floor (div (i31 a) (i31 b)) = i31 (a / b).
Proof. intros Hb Hf. unfold i31. apply floor_div_q; unfold fits, small in *; try done; lia. Qed.

Lemma to_short_i z : - 2 ^ 15 <= z < 2 ^ 15 -> Double.to_short (i31 z) = Done z.
Proof.
  intros Hz. unfold Double.to_short, i31. rewrite to_int_q, Z.quot_mul; try done. rewrite Z.quot_mul by done. lia.
Qed.

Lemma lit_31 n j : 0 <= j <= 31 -> lit n j = q 31 (n * 2 ^ (31 - j)).
Proof. by apply lit_q. Qed.

Lemma to_short_frac z f : 0 <= z < 2 ^ 15 -> 0 <= f < 2 ^ 31 -> Double.to_short (q 31 (z * 2 ^ 31 + f)) = Done z.
Proof.
  intros Hz Hf. assert (Z.quot (z * 2 ^ 31 + f) (2 ^ 31) = z) as E.
  { rewrite Z.quot_div_nonneg by lia. symmetry. apply (Z.div_unique_pos _ _ z f); lia. }
  unfold Double.to_short. rewrite to_int_q, E; [done..|]. lia.
Qed.

(** [365.25*_year] *)
Lemma floor_years y : -1 <= y <= 9999 -> floor (mul (q 31 (1461 * 2 ^ 29)) (of_int y)) = i31 (1461 * y / 4).
Proof.
  intros Hy. rewrite of_int_i by (unfold fits; lia). unfold i31.
  rewrite (mul_q 31 U31 _ _ (1461 * y * 2 ^ 29)); [|lia|apply repr_q; [done|unfold small; lia]].
  rewrite floor_q by done. do 2 f_equal. change (2 ^ 31) with (4 * 2 ^ 29). apply Z.div_mul_cancel_r; lia.
Qed.

(** Quarters of integers, divided by quarters of integers. *)
Lemma floor_div_quarters a b : 0 < b <= 2 ^ 31 -> fits (a / b) ->
  floor (div (q 31 (a * 2 ^ 29)) (q 31 (b * 2 ^ 29))) = i31 (a / b).
Proof. intros Hb Hf. apply floor_div_q; unfold fits, small in *; try done; lia. Qed.

Lemma day_no_fits y m d : 0 <= y <= 9999 -> valid y m d ->
  -1 <= march_year y m <= 9999 /\ -366 <= day_no y m d <= 3652800.
Proof.
  intros Hy Hv. destruct (march_valid y m d Hv) as (HD & _). unfold day_no, before_year in *.
  assert (-1 <= march_year y m <= 9999) by (unfold march_year; case_match; lia). lia.
Qed.

(** The Julian day of a moment: half a day off the day number. *)
Definition moment (z f : Z) : double := q 31 (z * 2 ^ 31 + f + 3442237 * 2 ^ 30).

Lemma gregorian_date_ok y m d f : 0 <= y <= 9999 -> valid y m d -> 0 <= f < 2 ^ 31 ->
  gregorian_date (moment (day_no y m d) f) = Done (y, m, d, q 31 f).
Proof.
  intros Hy Hv Hf. destruct (day_no_fits y m d Hy Hv) as [HY Hz].
  destruct (march_valid y m d Hv) as (HD & HL & Hm & Em).
  pose proof (step_century _ _ HD HL) as E1. pose proof (step_year _ _ HD HL) as E2. pose proof (step_day _ _ HD HL) as E3.
  unfold day_no in *. set (Y := march_year y m) in *. set (D := d + before_month (march_month m)) in *.
  set (z := D + before_year Y) in *. cbv zeta in E1, E2, E3.
  clearbody z. unfold gregorian_date, moment. rewrite !lit_31 by lia. change (31 - 1) with 30. change (31 - 2) with 29.
  rewrite sub_q by (rewrite Z.add_simpl_r; apply small_fits; [unfold fits; lia|done]). rewrite Z.add_simpl_r.
  rewrite floor_q by done. replace ((z * 2 ^ 31 + f) / 2 ^ 31) with z by (apply (Z.div_unique_pos _ _ z f); lia).
  rewrite (sub_q 31 (z * 2 ^ 31 + f)); rewrite (Z.add_simpl_l (z * 2 ^ 31) f); [|by apply repr_frac].
  rewrite (sub_q 31 (z * 2 ^ 31) (1 * 2 ^ 29)) by (apply repr_q; [done|unfold small; lia]).
  replace (z * 2 ^ 31 - 1 * 2 ^ 29) with ((4 * z - 1) * 2 ^ 29) by lia.
  rewrite floor_div_quarters, E1 by (rewrite ?E1; unfold fits; lia).
  rewrite (of_int_i 4), floor_div_i, sub_i by (unfold fits; lia).
  set (B := Y / 100 - Y / 100 / 4) in *. assert (0 <= B + 1 <= 101) as HB by (unfold B; lia). clearbody B.
  replace (add (i31 B) (q 31 ((4 * z - 1) * 2 ^ 29))) with (q 31 ((4 * (B + z) - 1) * 2 ^ 29)).
  2: { unfold i31. rewrite add_q by (apply repr_q; [done|unfold small; lia]). f_equal. lia. }
  rewrite floor_div_quarters, E2, to_short_i by (rewrite ?E2; unfold fits; lia). cbn [rbind].
  rewrite floor_years by lia. fold (i31 z). rewrite add_i, sub_i, E3 by (rewrite ?E3; unfold fits; lia).
  rewrite !of_int_i by (unfold fits; lia). rewrite mul_i, add_i by (unfold fits; lia).
  rewrite floor_div_i, Em, to_short_i by (rewrite ?Em; unfold fits; lia). cbn [rbind].
  change (q 31 (153 * 2 ^ (31 - 0))) with (i31 153). rewrite of_int_i, mul_i, sub_i, floor_div_i by (unfold fits; lia).
  fold (before_month (march_month m)).
  assert (0 <= before_month (march_month m) <= 337) by (unfold before_month; lia).
  rewrite sub_i by (unfold fits; lia). replace (D - before_month (march_month m)) with d by (unfold D; lia).
  assert (1 <= d <= 31) by (destruct Hv as [_ ?]; pose proof (month_days_bounds y m); lia).
  unfold i31. rewrite add_q by (apply small_fits; [unfold fits; lia|done]). rewrite to_short_frac by lia. cbn [rbind].
  subst Y. unfold march_month, march_year in *. destruct Hv as [Hm12 _]. destruct (Z.ltb_spec m 3).
  - rewrite (proj2 (Z.ltb_lt 12 (m + 12))) by lia. unfold as_short. do 4 f_equal; lia.
  - rewrite (proj2 (Z.ltb_ge 12 m)) by lia. done.
Qed.

(** ** The time of the day *)

(** [r*k] splits into its whole part and the rest. *)
Lemma mul_frac f k : 0 <= f < 2 ^ 31 -> 0 <= k <= 1000 -> mul (q 31 f) (of_int k) = q 31 (f * k).
Proof.
  intros Hf Hk. rewrite of_int_i by (unfold fits; lia). unfold i31. apply mul_q; [done|lia|].
  apply repr_q; [done|]. unfold small. nia.
Qed.

Lemma whole_part n : 0 <= n < 1000 * 2 ^ 31 ->
  Double.to_short (floor (q 31 n)) = Done (n / 2 ^ 31) /\ sub (q 31 n) (floor (q 31 n)) = q 31 (n mod 2 ^ 31).
Proof.
  intros Hn. rewrite floor_q by done. split.
  - apply to_short_i. lia.
  - rewrite sub_q; [f_equal; lia|]. apply repr_q; [done|]. unfold small. lia.
Qed.

(** The digits of the fraction [f] of a day in the bases 24, 60, 60, 1000. *)
Definition hour_of (f : Z) : Z := f * 24 / 2 ^ 31.
Definition f1 (f : Z) : Z := f * 24 mod 2 ^ 31.
Definition minute_of (f : Z) : Z := f1 f * 60 / 2 ^ 31.
Definition f2 (f : Z) : Z := f1 f * 60 mod 2 ^ 31.
Definition second_of (f : Z) : Z := f2 f * 60 / 2 ^ 31.
Definition f3 (f : Z) : Z := f2 f * 60 mod 2 ^ 31.
Definition milli_of (f : Z) : Z := f3 f * 1000 / 2 ^ 31.
Definition f4 (f : Z) : Z := f3 f * 1000 mod 2 ^ 31.
Definition micro_of (f : Z) : Z := (f4 f * 1000 + 2 ^ 30) / 2 ^ 31.

Lemma gregorian_time_ok f : 0 <= f < 2 ^ 31 ->
  gregorian_time (q 31 f) = Done (hour_of f, minute_of f, second_of f, milli_of f, micro_of f).
Proof.
  intros Hf. unfold gregorian_time. rewrite mul_frac by lia.
  destruct (whole_part (f * 24) ltac:(lia)) as [-> ->]. cbn [rbind]. fold (f1 f).
  assert (0 <= f1 f < 2 ^ 31) by (unfold f1; lia). rewrite mul_frac by lia.
  destruct (whole_part (f1 f * 60) ltac:(lia)) as [-> ->]. cbn [rbind]. fold (f2 f).
  assert (0 <= f2 f < 2 ^ 31) by (unfold f2; lia). rewrite mul_frac by lia.
  destruct (whole_part (f2 f * 60) ltac:(lia)) as [-> ->]. cbn [rbind]. fold (f3 f).
  assert (0 <= f3 f < 2 ^ 31) by (unfold f3; lia). rewrite mul_frac by lia.
  destruct (whole_part (f3 f * 1000) ltac:(lia)) as [-> ->]. cbn [rbind]. fold (f4 f).
  assert (0 <= f4 f < 2 ^ 31) by (unfold f4; lia). rewrite mul_frac by lia.
  rewrite lit_31 by lia. rewrite add_q by (apply repr_q; [done|unfold small; lia]).
  replace (f4 f * 1000 + 1 * 2 ^ (31 - 1)) with (micro_of f * 2 ^ 31 + (f4 f * 1000 + 2 ^ 30) mod 2 ^ 31) by (unfold micro_of; lia).
  rewrite to_short_frac by (unfold micro_of; lia). done.
Qed.

(** A day that ends more than half a microsecond later does not overflow. *)
Lemma time_bounds f : 0 <= f <= 2 ^ 31 - 2 ->
  0 <= hour_of f < 24 /\ 0 <= minute_of f < 60 /\ 0 <= second_of f < 60 /\ 0 <= milli_of f < 1000 /\ 0 <= micro_of f <= 1000
  /\ ((((hour_of f * 60 + minute_of f) * 60 + second_of f) * 1000 + milli_of f) * 1000 + micro_of f < 86400000000).
Proof.
  intros Hf.
  assert (f * 24 = hour_of f * 2 ^ 31 + f1 f /\ 0 <= f1 f < 2 ^ 31) by (unfold hour_of, f1; lia).
  assert (f1 f * 60 = minute_of f * 2 ^ 31 + f2 f /\ 0 <= f2 f < 2 ^ 31) by (unfold minute_of, f2; lia).
  assert (f2 f * 60 = second_of f * 2 ^ 31 + f3 f /\ 0 <= f3 f < 2 ^ 31) by (unfold second_of, f3; lia).
  assert (f3 f * 1000 = milli_of f * 2 ^ 31 + f4 f /\ 0 <= f4 f < 2 ^ 31) by (unfold milli_of, f4; lia).
  assert (micro_of f * 2 ^ 31 <= f4 f * 1000 + 2 ^ 30 < micro_of f * 2 ^ 31 + 2 ^ 31) by (unfold micro_of; lia).
  generalize dependent (hour_of f). generalize dependent (minute_of f). generalize dependent (second_of f).
  generalize dependent (milli_of f). generalize dependent (micro_of f). generalize dependent (f1 f).
  generalize dependent (f2 f). generalize dependent (f3 f). generalize dependent (f4 f). intros. lia.
Qed.

Lemma as_short_small z : - 2 ^ 15 <= z < 2 ^ 15 -> as_short z = z.
Proof. intros Hz. unfold as_short. lia. Qed.

Lemma checkLimit_carry lower higher limit : 0 < limit -> 0 <= lower <= limit -> limit <= 1000 -> 0 <= higher < 1000 ->
  exists c, checkLimit lower higher limit = (lower - c * limit, higher + c) /\ 0 <= c <= 1 /\ 0 <= lower - c * limit < limit.
Proof.
  intros H1 H2 H3 H4. unfold checkLimit. destruct (Z.leb_spec limit lower).
  - assert (lower = limit) as -> by lia. exists 1. rewrite Z.rem_same, Z.quot_same by lia.
    rewrite !as_short_small by (rewrite ?as_short_small; lia). split; [f_equal; lia|lia].
  - exists 0. split; [f_equal; lia|lia].
Qed.

(** [normalize] leaves the date of such a time alone. *)
Lemma normalize_date u y m d h mi s ms us : 0 <= y -> valid y m d ->
  0 <= h < 24 -> 0 <= mi < 60 -> 0 <= s < 60 -> 0 <= ms < 1000 -> 0 <= us <= 1000 ->
  ((((h * 60 + mi) * 60 + s) * 1000 + ms) * 1000 + us < 86400000000) ->
  exists h' mi' s' ms' us',
    normalize {| _utcTime := u; _year := y; _month := m; _day := d; _hour := h; _minute := mi; _second := s;
                 _millisecond := ms; _microsecond := us |}
    = Done {| _utcTime := u; _year := y; _month := m; _day := d; _hour := h'; _minute := mi'; _second := s';
              _millisecond := ms'; _microsecond := us' |}.
Proof.
  intros Hy [Hm Hd] Hh Hmi Hs Hms Hus Hsum. unfold normalize.
  cbn [_utcTime _year _month _day _hour _minute _second _millisecond _microsecond].
  destruct (checkLimit_carry us ms 1000) as (c1 & -> & ? & ?); try lia.
  destruct (checkLimit_carry (ms + c1) s 1000) as (c2 & -> & ? & ?); try lia.
  destruct (checkLimit_carry (s + c2) mi 60) as (c3 & -> & ? & ?); try lia.
  destruct (checkLimit_carry (mi + c3) h 60) as (c4 & -> & ? & ?); try lia.
  pose proof (month_days_bounds y m).
  destruct (checkLimit_carry (h + c4) d 24) as (c5 & -> & ? & ?); try lia.
  assert (c5 = 0) as -> by lia. rewrite daysOfMonth_days by done. cbn [rbind].
  rewrite (proj2 (Z.ltb_ge (month_days y m) (d + 0))), Z.add_0_r by lia. by eexists _, _, _, _, _.
Qed.
End InDouble.
