(* ===== verification/DateTimeClaims.v ===== *)
(** Dates and times: dates become points in time exactly, and points in time
    become dates again. *)

From S2P Require Import Prelude Strings NumericString Float DateTime DateTimeFacts.
Import Double DateTime Calendar InDouble.

Open Scope res_scope.
Local Open Scope Z_scope.

#[local] Hint Resolve U31 U1 U0 : core.

(** ** The Julian day of a point in time *)

(** 100 ns ticks of a day. *)
Definition DAY : Z := 864000000000.

Definition in_range (n : Z) : Prop := 0 <= n <= 3074800.

Section julian.
Context (n t : Z) (Hn : in_range n) (Ht : n * DAY <= t <= (n + 1) * DAY - 1024).

Lemma utc_rounded : q 0 (n * DAY) <= of_int t <= q 0 ((n + 1) * DAY - 1024).
Proof using All.
  unfold of_int. rewrite (shift_unit 0 U0). change (2 ^ 0) with 1. rewrite Z.mul_1_r. unfold in_range, DAY in *.
  apply round_between; [lia| | |].
  - replace (n * 864000000000) with (n * 52734375 * 2 ^ 14) by lia. apply repr_q_pow; [done|lia|]. unfold small. lia.
  - replace ((n + 1) * 864000000000 - 1024) with (((n + 1) * 843750000 - 1) * 2 ^ 10) by lia.
    apply repr_q_pow; [done|lia|]. unfold small. lia.
  - pose proof (q_pos 0 U0). unfold q. nia.
Qed.

Lemma days_rounded : q 31 (n * 2 ^ 31) <= div (of_int t) (lit DAY 0) <= q 31 ((n + 1) * 2 ^ 31 - 2).
Proof using All.
  pose proof utc_rounded as Hu. generalize dependent (of_int t). intros a Ha. rewrite (lit_q 0) by done.
  unfold div, in_range, DAY in *. pose proof (q_pos 31 U31) as Hp.
  rewrite Z.shiftl_mul_pow2 by (unfold U; lia). rewrite (unit_q 31 U31).
  unfold q in *. change (U - 0) with (31 + (U - 31)) in *. rewrite Z.pow_add_r in * by (unfold U; lia).
  change (2 ^ (0 - 0)) with 1. rewrite Z.mul_1_r.
  apply round_between.
  - lia.
  - apply (repr_q 31 U31). unfold small. lia.
  - apply (repr_q 31 U31). unfold small. lia.
  - generalize dependent (2 ^ (U - 31)). intros x Ha Hx. split; nia.
Qed.

Lemma julian_rounded : exists f, 0 <= f <= 2 ^ 31 - 2 /\ toJulianDay_utc t = moment (n + 578042) f.
Proof using All.
  pose proof days_rounded as Hd. unfold toJulianDay_utc. fold DAY. generalize dependent (div (of_int t) (lit DAY 0)).
  intros b Hb. unfold add, in_range in *. rewrite (lit_q 31) by done. change (31 - 1) with 30.
  pose proof (q_pos 31 U31) as Hp.
  destruct (round_multiple (U - 31) (b + q 31 (4598321 * 2 ^ 30)) 1) as [i Ei]; [lia|unfold U; lia| |].
  { replace (52 + (U - 31)) with (21 + 31 + (U - 31)) by lia. rewrite !Z.pow_add_r by (unfold U; lia).
    unfold q in *. generalize dependent (2 ^ (U - 31)). intros. nia. }
  assert (q 31 ((2 * n + 4598321) * 2 ^ 30) <= round (b + q 31 (4598321 * 2 ^ 30)) 1
          <= q 31 (((n + 1) * 2 ^ 30 - 1 + 4598321 * 2 ^ 29) * 2 ^ 1)) as Hr.
  { apply round_between; [lia| | |].
    - apply repr_q_pow; [done|lia|]. unfold small. lia.
    - apply repr_q_pow; [done|lia|]. unfold small. lia.
    - unfold q in *. generalize dependent (2 ^ (U - 31)). intros. nia. }
  rewrite Ei in *. fold (q 31 i) in *. exists (i - n * 2 ^ 31 - 4598321 * 2 ^ 30). split.
  - unfold q in Hr. generalize dependent (2 ^ (U - 31)). intros. nia.
  - unfold moment. f_equal. lia.
Qed.
End julian.

(** ** From a point in time to a date *)

(** A time of the day, and its ticks. *)
Record daytime := { hh : Z; mm : Z; ss : Z; milli : Z; micro : Z }.

Definition daytime_ok (c : daytime) : Prop :=
  0 <= hh c < 24 /\ 0 <= mm c < 60 /\ 0 <= ss c < 60 /\ 0 <= milli c < 1000 /\ 0 <= micro c < 1000.

Definition ticks (c : daytime) : Z :=
  10 * (hh c * Timespan.HOURS + mm c * Timespan.MINUTES + ss c * Timespan.SECONDS + milli c * Timespan.MILLISECONDS + micro c).

(** The number of 15 October 1582, the day at which [utcTime] starts. *)
Definition REFORM : Z := 578042.

Definition at_time (u y m d : Z) (c : daytime) : DateTime_ :=
  {| _utcTime := u; _year := y; _month := m; _day := d; _hour := hh c; _minute := mm c; _second := ss c;
     _millisecond := milli c; _microsecond := micro c |}.

Lemma as_int_small z : - 2 ^ 31 <= z < 2 ^ 31 -> as_int z = z.
Proof. intros Hz. unfold as_int. lia. Qed.

Lemma ticks_bounds c : daytime_ok c -> 0 <= ticks c <= DAY - 10.
Proof. unfold daytime_ok, ticks, DAY, Timespan.HOURS, Timespan.MINUTES, Timespan.SECONDS, Timespan.MILLISECONDS. lia. Qed.

Lemma ticks_ten c : ticks c / 10 * 10 = ticks c.
Proof. unfold ticks. rewrite (Z.mul_comm 10), Z.div_mul; lia. Qed.

Lemma span_part n c k m : 0 < k -> 0 < m -> 0 <= n -> (m * k | 86400000000) -> daytime_ok c -> m <= 1000 ->
  as_short (as_int (Z.rem (Z.quot (Z.quot (n * DAY + ticks c) 10) k) m)) = (ticks c / 10 / k) mod m.
Proof.
  intros Hk Hm Hn [x Hx] Hc Hm'. pose proof (ticks_bounds c Hc). unfold DAY in *.
  rewrite !(Z.quot_div_nonneg _ 10) by lia.
  assert (n * x * m * k = n * 86400000000) as Ex by (rewrite Hx; ring).
  replace ((n * 864000000000 + ticks c) / 10) with (n * x * m * k + ticks c / 10) by lia.
  rewrite Z.quot_div_nonneg by nia. rewrite (Z.div_add_l (n * x * m)) by lia.
  rewrite Z.rem_mod_nonneg by (try lia; assert (0 <= ticks c / 10 / k) by (apply Z.div_pos; lia); nia).
  rewrite Z.add_comm, Z.mod_add by lia. pose proof (Z.mod_pos_bound (ticks c / 10 / k) m Hm).
  by rewrite as_int_small, as_short_small by lia.
Qed.

Lemma computeDaytime_ok n y m d c d0 : 0 <= n -> daytime_ok c ->
  _utcTime d0 = n * DAY + ticks c -> _year d0 = y -> _month d0 = m -> _day d0 = d ->
  computeDaytime d0 = at_time (n * DAY + ticks c) y m d c.
Proof.
  intros Hn Hc Eu <- <- <-. unfold computeDaytime, at_time. rewrite Eu.
  unfold Timespan.hours, Timespan.minutes, Timespan.seconds, Timespan.milliseconds, Timespan.microseconds.
  rewrite <- (Z.quot_1_r (Z.quot (n * DAY + ticks c) 10)) at 5.
  rewrite !span_part; try done; try (match goal with |- (?a | ?b) => exists (b / a); vm_compute; reflexivity end).
  unfold daytime_ok, ticks, Timespan.HOURS, Timespan.MINUTES, Timespan.SECONDS, Timespan.MILLISECONDS in *.
  f_equal; lia.
Qed.

Lemma of_utc_ok y m d c : 0 <= y <= 9999 -> valid y m d -> REFORM <= day_no y m d -> daytime_ok c -> ticks c <= DAY - 1024 ->
  let u := (day_no y m d - REFORM) * DAY + ticks c in of_utc u = Done (at_time u y m d c).
Proof.
  intros Hy Hv Hr Hc Hl u. destruct (day_no_fits y m d Hy Hv) as [_ Hz]. pose proof (ticks_bounds c Hc).
  destruct (julian_rounded (day_no y m d - REFORM) u) as (f & Hf & Ej); [unfold in_range, REFORM in *; lia|unfold u, DAY in *; lia|].
  unfold of_utc, computeGregorian. rewrite Ej. replace (day_no y m d - REFORM + 578042) with (day_no y m d) by (unfold REFORM; lia).
  rewrite gregorian_date_ok by (done || lia). cbn [rbind]. rewrite gregorian_time_ok by lia. cbn [rbind].
  destruct (time_bounds f Hf) as (B1 & B2 & B3 & B4 & B5 & B6).
  destruct (normalize_date u y m d (hour_of f) (minute_of f) (second_of f) (milli_of f) (micro_of f))
    as (h' & mi' & s' & ms' & us' & ->); try done; [lia|]. cbn [rbind]. f_equal.
  by apply computeDaytime_ok; [lia|..].
Qed.

(** ** From a date to a point in time *)

Lemma of_int_0 z : small z -> of_int z = q 1 (z * 2).
Proof. intros Hz. by apply (of_int_q 1). Qed.

Lemma i31_q1 z : i31 z = q 1 (z * 2).
Proof. unfold i31, q. change (U - 1) with (30 + (U - 31)). rewrite Z.pow_add_r by (unfold U; lia). lia. Qed.

Lemma add_1 a b : small (a + b) -> add (q 1 a) (q 1 b) = q 1 (a + b).
Proof. intros H. by apply add_q, repr_q. Qed.

Lemma sub_1 a b : small (a - b) -> sub (q 1 a) (q 1 b) = q 1 (a - b).
Proof. intros H. by apply sub_q, repr_q. Qed.

Lemma no_time : div (add (mul (add (mul (of_int ((0 * 60 + 0) * 60 + 0)) (of_int 1000)) (of_int 0)) (of_int 1000)) (of_int 0))
    (lit 86400000000 0) = q 1 0.
Proof.
  rewrite !of_int_0 by (unfold small; lia). rewrite (mul_q 1 U1 _ _ 0) by (try done; by apply repr_q).
  rewrite add_1 by (unfold small; lia). rewrite (mul_q 1 U1 _ _ 0) by (try done; by apply repr_q).
  rewrite add_1 by (unfold small; lia). apply div_zero. rewrite (lit_q 1) by done. pose proof (q_pos 1 U1). unfold q. lia.
Qed.

Lemma lookup_month m : 3 <= m <= 14 -> nth (Z.to_nat m) lookup 0 = before_month m.
Proof.
  intros Hm. assert (m = 3 \/ m = 4 \/ m = 5 \/ m = 6 \/ m = 7 \/ m = 8 \/ m = 9 \/ m = 10 \/ m = 11 \/ m = 12 \/ m = 13 \/ m = 14) as Hc by lia.
  destruct_or! Hc; by subst.
Qed.

Lemma toJulianDay_ok y m d : 0 <= y <= 9999 -> valid y m d ->
  toJulianDay y m d 0 0 0 0 0 = q 1 (2 * day_no y m d + 3442237).
Proof.
  intros Hy Hv. destruct (day_no_fits y m d Hy Hv) as [HY Hz]. destruct (march_valid y m d Hv) as (HD & _ & Hm & _).
  assert (1 <= d <= 31) by (destruct Hv as [_ ?]; pose proof (month_days_bounds y m); lia).
  unfold toJulianDay. rewrite no_time.
  assert ((if m <? 3 then (m + 12, y - 1) else (m, y)) = (march_month m, march_year y m)) as ->
    by (unfold march_month, march_year; by destruct (m <? 3)).
  set (M := march_month m) in *. set (Y := march_year y m) in *. rewrite lookup_month by done.
  rewrite (of_int_i Y), (of_int_i 4), (of_int_i 100), (of_int_i 400) by (unfold fits; lia).
  rewrite !floor_div_i by (unfold fits; lia). rewrite !i31_q1.
  assert (0 <= before_month M <= 337) by (unfold before_month; lia).
  rewrite !of_int_0 by (unfold small; lia). rewrite (lit_q 1) by done. change (2 ^ (1 - 1)) with 1.
  rewrite !add_1, sub_1, !add_1 by (unfold small; lia). f_equal. unfold day_no, before_year. fold M Y. lia.
Qed.

Lemma toUtcTime_ok z : -366 <= z <= 3652800 -> toUtcTime (q 1 (2 * z + 3442237)) = Done ((z - REFORM) * DAY).
Proof.
  intros Hz. unfold toUtcTime, REFORM, DAY. rewrite !(lit_q 1) by done. change (2 ^ (1 - 1)) with 1. change (2 ^ (1 - 0)) with 2.
  rewrite sub_1 by (unfold small; lia).
  rewrite (mul_q 1 U1 _ _ ((z - 578042) * 52734375 * 2 ^ 15)); [|lia|apply repr_q_pow; [done|lia|unfold small; lia]].
  unfold to_int64. rewrite to_int_q; [f_equal|done|].
  - replace ((z - 578042) * 52734375 * 2 ^ 15) with ((z - 578042) * 864000000000 * 2 ^ 1) by lia. by rewrite Z.quot_mul.
  - replace ((z - 578042) * 52734375 * 2 ^ 15) with ((z - 578042) * 864000000000 * 2 ^ 1) by lia. rewrite Z.quot_mul by done. lia.
Qed.

Lemma between_true lo x hi : lo <= x <= hi -> between lo x hi = true.
Proof. intros H. unfold between. by rewrite (proj2 (Z.leb_le lo x)), (proj2 (Z.leb_le x hi)) by lia. Qed.

Lemma assign_ok y m d c : 0 <= y <= 9999 -> valid y m d -> daytime_ok c ->
  assign y m d (hh c) (mm c) (ss c) (milli c) (micro c)
  = Done (at_time ((day_no y m d - REFORM) * DAY + ticks c) y m d c).
Proof.
  intros Hy Hv Hc. destruct (day_no_fits y m d Hy Hv) as [_ Hz]. unfold assign, check. destruct Hv as [Hm Hd].
  rewrite daysOfMonth_days by lia. cbn [rbind]. unfold daytime_ok in Hc.
  rewrite !between_true by lia. cbn [negb rbind]. rewrite toJulianDay_ok by (try split; lia). by rewrite toUtcTime_ok.
Qed.

(** ** Days of the week *)

Definition weekday (z : Z) : Z := (z + 1721120) mod 7.

Lemma dayOfWeek_moment z f : 0 <= z <= 3652800 -> 0 <= f <= 2 ^ 31 - 2 ->
  floor (add (moment z f) (lit 3 1)) = q 30 ((z + 1721120) * 2 ^ 30).
Proof.
  intros Hz Hf. assert (0 <= 30 <= U) as H30 by (unfold U; lia). apply (floor_between 30 H30).
  rewrite (lit_q 31) by done. unfold moment, add. change (31 - 1) with 30.
  assert (q 30 ((z + 1721120) * 2 ^ 30) <= round (q 31 (z * 2 ^ 31 + f + 3442237 * 2 ^ 30) + q 31 (3 * 2 ^ 30)) 1
          <= q 30 ((z + 1721120 + 1) * 2 ^ 30 - 1)) as Hr.
  { apply round_between; [lia| | |].
    - apply repr_q_pow; [done|lia|]. unfold small. lia.
    - apply repr_q; [done|]. unfold small. lia.
    - unfold q. change (U - 30) with (1 + (U - 31)). rewrite Z.pow_add_r by (unfold U; lia).
      pose proof (q_pos 31 U31). generalize dependent (2 ^ (U - 31)). intros. nia. }
  unfold q in Hr |- *. pose proof (q_pos 30 H30). generalize dependent (2 ^ (U - 30)). intros. nia.
Qed.

Lemma dayOfWeek_ok y m d c : 0 <= y <= 9999 -> valid y m d -> REFORM <= day_no y m d -> daytime_ok c ->
  ticks c <= DAY - 1024 ->
  dayOfWeek (at_time ((day_no y m d - REFORM) * DAY + ticks c) y m d c) = Done (weekday (day_no y m d)).
Proof.
  intros Hy Hv Hr Hc Hl. destruct (day_no_fits y m d Hy Hv) as [_ Hz]. pose proof (ticks_bounds c Hc).
  unfold dayOfWeek, julianDay. cbn [at_time _utcTime]. unfold REFORM in *.
  destruct (julian_rounded (day_no y m d - 578042) ((day_no y m d - 578042) * DAY + ticks c)) as (f & Hf & ->);
    [unfold in_range; lia|unfold DAY in *; lia|]. rewrite Z.sub_add.
  rewrite dayOfWeek_moment by lia. unfold to_int32.
  rewrite to_int_q; rewrite ?Z.quot_mul by done; [|unfold U; lia|lia]. cbn [rbind]. f_equal. unfold weekday.
  apply Z.rem_mod_nonneg; lia.
Qed.

Lemma weekday_next z : weekday (z + 1) = (weekday z + 1) mod 7.
Proof. unfold weekday. lia. Qed.

(** ** The claims *)

Lemma timestamp_ok y m d c u : u = (day_no y m d - REFORM) * DAY + ticks c -> 0 <= y <= 9999 -> valid y m d -> daytime_ok c ->
  exists ts, Timestamp.fromUtcTime u = Done ts /\ Timestamp.utcTime ts = Done u.
Proof.
  intros -> Hy Hv Hc. destruct (day_no_fits y m d Hy Hv) as [_ Hz]. pose proof (ticks_bounds c Hc).
  set (u := _ + _). assert (exists k, u = k * 10 /\ - 3 * 10 ^ 17 <= k <= 3 * 10 ^ 17) as (k & Ek & Hk).
  { exists ((day_no y m d - REFORM) * 86400000000 + ticks c / 10). pose proof (ticks_ten c). unfold u, REFORM, DAY in *. lia. }
  exists (k - 12219292800000000). rewrite Ek. unfold Timestamp.fromUtcTime, Timestamp.utcTime, arith.
  change Timestamp.epoch with 122192928000000000. change (Z.shiftl 0x01b21dd2 32) with 122192927672762368.
  cbn [imin imax Int64]. split.
  - rewrite (proj2 (Z.leb_le (- 2 ^ 63) _)), (proj2 (Z.leb_le _ (2 ^ 63 - 1))) by lia. cbn [andb rbind]. f_equal.
    replace (k * 10 - 122192928000000000) with ((k - 12219292800000000) * 10) by lia. by rewrite Z.quot_mul.
  - repeat (rewrite (proj2 (Z.leb_le (- 2 ^ 63) _)), (proj2 (Z.leb_le _ (2 ^ 63 - 1))) by lia; cbn [andb rbind]).
    f_equal. lia.
Qed.

(** C5: a date since the calendar reform with a time that is not within 103
    microseconds of the end of the day becomes a timestamp, and the date and
    time of that timestamp are the ones it was made of, although the way back
    goes through a Julian day in double precision. *)
Theorem datetime_roundtrip y m d c : 0 <= y <= 9999 -> valid y m d -> REFORM <= day_no y m d ->
  daytime_ok c -> ticks c <= DAY - 1024 ->
  exists dt ts, assign y m d (hh c) (mm c) (ss c) (milli c) (micro c) = Done dt
    /\ timestamp dt = Done ts /\ of_timestamp ts = Done dt.
Proof.
  intros Hy Hv Hr Hc Hl. destruct (timestamp_ok y m d c _ eq_refl Hy Hv Hc) as (ts & E1 & E2). exists (at_time ((day_no y m d - REFORM) * DAY + ticks c) y m d c), ts.
  split; [by apply assign_ok|]. split; [done|]. unfold of_timestamp. rewrite E2. cbn [rbind]. by apply of_utc_ok.
Qed.

(** C6: the points in time of two consecutive days of the Gregorian calendar
    are exactly one day apart, and their days of the week follow each other, at
    every time of the day but its last 1023 microseconds and in years up to
    9999. *)
Theorem datetime_calendar y m d c : 0 <= y -> valid y m d -> REFORM <= day_no y m d -> daytime_ok c -> ticks c <= DAY - 1024 ->
  let '(y', m', d') := next_day y m d in
  y' <= 9999 ->
  exists a b w, assign y m d (hh c) (mm c) (ss c) (milli c) (micro c) = Done a
    /\ assign y' m' d' (hh c) (mm c) (ss c) (milli c) (micro c) = Done b
    /\ difference b a = Done Timespan.DAYS
    /\ dayOfWeek a = Done w /\ dayOfWeek b = Done ((w + 1) mod 7).
Proof.
  intros Hy Hv Hr Hc Hl. pose proof (day_no_next y m d Hv) as Hn. pose proof (next_day_valid y m d Hv) as Hv'.
  assert (let '(y', _, _) := next_day y m d in y <= y') as Hyy by (unfold next_day; destruct (d <? _), (m <? 12); lia).
  destruct (next_day y m d) as [[y' m'] d']. intros Hy'.
  eexists _, _, _. split; [by apply assign_ok; [lia|..]|]. split; [by apply assign_ok; [lia|..]|].
  split; [|split; [apply dayOfWeek_ok; by try lia|]].
  - unfold difference, at_time. cbn [_utcTime]. rewrite Hn.
    replace ((day_no y m d + 1 - REFORM) * DAY + ticks c - ((day_no y m d - REFORM) * DAY + ticks c)) with DAY by lia. done.
  - rewrite <- weekday_next, <- Hn. apply dayOfWeek_ok; by try lia.
Qed.

(** The constructor and [assign] accept exactly the dates [isValid] names,
    with the fields as given; everything else is an assertion violation, and
    nothing is undefined. *)
Theorem assign_total y m d h mi s ms us :
  if isValid y m d h mi s ms us
  then exists t, assign y m d h mi s ms us
    = Done {| _utcTime := t; _year := y; _month := m; _day := d; _hour := h; _minute := mi; _second := s;
              _millisecond := ms; _microsecond := us |}
  else assign y m d h mi s ms us = Raise AssertionViolationException.
Proof.
  destruct (isValid y m d h mi s ms us) eqn:E.
  - unfold isValid in E. rewrite !andb_true_iff in E. destruct E as (((((((Hy & Hm) & Hd) & Hh) & Hmi) & Hs) & Hms) & Hus).
    unfold between in Hy, Hm, Hh, Hmi, Hs, Hms, Hus. rewrite !andb_true_iff, !Z.leb_le in *.
    rewrite daysOfMonth_days in Hd by lia. unfold between in Hd. rewrite andb_true_iff, !Z.leb_le in Hd.
    eexists. apply (assign_ok y m d {| hh := h; mm := mi; ss := s; milli := ms; micro := us |}); [lia|split; lia|].
    unfold daytime_ok. cbn. lia.
  - unfold assign, check, isValid in *. destruct (between 0 y 9999); [|done]. destruct (between 1 m 12) eqn:Em; [|done].
    assert (exists last, daysOfMonth y m = Done last) as [last Ed]
      by (unfold daysOfMonth; rewrite Em; destruct ((m =? 2) && isLeapYear y); by eexists).
    rewrite Ed in E |- *. cbn [rbind negb andb] in *.
    destruct (between 1 d last), (between 0 h 23), (between 0 mi 59), (between 0 s 59), (between 0 ms 999), (between 0 us 999);
      done.
Qed.

(** ** Weeks *)
Definition midnight : daytime := {| hh := 0; mm := 0; ss := 0; milli := 0; micro := 0 |}.

Lemma january y d : day_no y 1 d = day_no y 1 1 + d - 1.
Proof. unfold day_no. lia. Qed.

Lemma january_1583 y : 1583 <= y -> REFORM <= day_no y 1 1.
Proof. intros Hy. unfold REFORM, day_no, before_month, before_year, march_year, march_month. cbn. lia. Qed.

Lemma week_step fuel y first b : 1583 <= y <= 9999 -> 1 <= b <= 31 ->
  week_loop (S fuel) y first b = if negb (weekday (day_no y 1 b) =? first) then week_loop fuel y first (b + 1) else Done b.
Proof.
  intros Hy Hb. cbn [week_loop]. pose proof (january_1583 y ltac:(lia)).
  assert (valid y 1 b) as Hv by (unfold valid, month_days; cbn; lia).
  assert (daytime_ok midnight) as Hm by (unfold daytime_ok; cbn; lia).
  pose proof (assign_ok y 1 b midnight ltac:(lia) Hv Hm) as Ea. cbn [midnight hh mm ss milli micro] in Ea. rewrite Ea.
  cbn [rbind]. rewrite dayOfWeek_ok; [done|lia|done|rewrite january; lia|done|by unfold ticks, DAY; cbn].
Qed.

Lemma week_loop_ok y first b n : 1583 <= y <= 9999 -> 1 <= b <= 7 -> weekday (day_no y 1 b) = first ->
  forall fuel, b - Z.of_nat n >= 1 -> (n < fuel)%nat -> week_loop fuel y first (b - Z.of_nat n) = Done b.
Proof.
  intros Hy Hb Hw. induction n as [|n IH]; intros fuel Hn Hf; (destruct fuel as [|fuel]; [lia|]); rewrite week_step by lia.
  - rewrite Z.sub_0_r, (proj2 (Z.eqb_eq _ _) Hw). done.
  - destruct (Z.eqb_spec (weekday (day_no y 1 (b - Z.of_nat (S n)))) first) as [E|E].
    + exfalso. rewrite <- Hw in E. rewrite !(january y (_ - _)), !(january y b) in E. unfold weekday in E. lia.
    + cbn [negb]. replace (b - Z.of_nat (S n) + 1) with (b - Z.of_nat n) by lia. apply IH; lia.
Qed.

(** The months in front of a month. *)
Lemma month_step y m : 1 <= m < 12 -> day_no y (m + 1) 1 = day_no y m 1 + month_days y m.
Proof.
  intros Hm. pose proof (month_days_bounds y m).
  pose proof (day_no_next y m (month_days y m) ltac:(split; lia)) as Hn. unfold next_day in Hn.
  rewrite Z.ltb_irrefl, (proj2 (Z.ltb_lt m 12)) in Hn by lia. unfold day_no in *. lia.
Qed.

Lemma doy_ok y n : forall m, 0 <= y -> 1 <= m -> m + Z.of_nat n <= 12 ->
  doy_loop n y m = Done (day_no y (m + Z.of_nat n) 1 - day_no y m 1).
Proof.
  induction n as [|n IH]; intros m Hy H1 H2; cbn [doy_loop]; [f_equal; rewrite Z.add_0_r; lia|].
  rewrite daysOfMonth_days, IH by lia. cbn [rbind]. rewrite month_step by lia. f_equal.
  replace (m + 1 + Z.of_nat n) with (m + Z.of_nat (S n)) by lia. lia.
Qed.

(** The number of a day in its year. *)
Definition doy (y m d : Z) : Z := day_no y m d - day_no y 1 1 + 1.

Lemma dayOfYear_ok u y m d c : 0 <= y -> valid y m d -> dayOfYear (at_time u y m d c) = Done (doy y m d).
Proof.
  intros Hy [Hm Hd]. unfold dayOfYear. cbn [at_time _month _year _day]. rewrite doy_ok by lia. cbn [rbind]. f_equal.
  rewrite Z2Nat.id by lia. replace (1 + (m - 1)) with m by lia. unfold doy, day_no. lia.
Qed.

Lemma doy_bounds y m d : valid y m d -> 1 <= doy y m d <= 366.
Proof.
  intros Hv. assert (forall n m', m' + Z.of_nat n <= 12 -> 1 <= m' -> day_no y m' 1 <= day_no y (m' + Z.of_nat n) 1) as Hmono.
  { induction n as [|n IH]; intros m' H1 H2; [rewrite Z.add_0_r; lia|]. specialize (IH (m' + 1) ltac:(lia) ltac:(lia)).
    rewrite month_step in IH by lia. pose proof (month_days_bounds y m').
    replace (m' + Z.of_nat (S n)) with (m' + 1 + Z.of_nat n) by lia. lia. }
  destruct Hv as [Hm Hd]. unfold doy. split.
  - specialize (Hmono (Z.to_nat (m - 1)) 1 ltac:(lia) ltac:(lia)). rewrite Z2Nat.id in Hmono by lia.
    replace (1 + (m - 1)) with m in Hmono by lia. unfold day_no in *. lia.
  - assert (day_no y m d <= day_no y 12 31).
    { destruct (Z.eq_dec m 12) as [->|]; [unfold day_no; cbn in Hd; lia|].
      specialize (Hmono (Z.to_nat (12 - (m + 1))) (m + 1) ltac:(lia) ltac:(lia)). rewrite Z2Nat.id, month_step in Hmono by lia.
      replace (m + 1 + (12 - (m + 1))) with 12 in Hmono by lia. unfold day_no in *. lia. }
    unfold day_no in *. pose proof (before_year_step y). cbn in *. destruct (leap y); unfold before_month in *; lia.
Qed.

(** The loop of [week] ends, and weeks are numbered so that week 1 is the
    one with 4 January in it: it starts on day [s] of the year, the given day
    of the week on or before 4 January, and the numbers run from 0 to 53. *)
Theorem week_number y m d c u first : 1583 <= y <= 9999 -> valid y m d -> 0 <= first <= 6 ->
  exists s w, -2 <= s <= 4 /\ weekday (day_no y 1 s) = first
    /\ week first (at_time u y m d c) = Done w /\ w = (doy y m d - s) / 7 + 1 /\ 0 <= w <= 53.
Proof.
  intros Hy Hv Hf. pose proof (doy_bounds y m d Hv) as Hd.
  set (b := 1 + (first - weekday (day_no y 1 1)) mod 7).
  assert (1 <= b <= 7) as Hb by (unfold b; lia).
  assert (weekday (day_no y 1 b) = first) as Hw by (rewrite january; unfold b, weekday; lia).
  assert (week_loop 32 y first 1 = Done b) as El.
  { rewrite <- (week_loop_ok y first b (Z.to_nat (b - 1)) Hy Hb Hw 32%nat) by lia. f_equal. lia. }
  exists (if b <=? 4 then b else b - 7), ((doy y m d - if b <=? 4 then b else b - 7) / 7 + 1).
  unfold week. rewrite between_true by lia. cbn [negb at_time _year]. rewrite El. cbn [rbind].
  rewrite (dayOfYear_ok u y m d c) by (done || lia). cbn [rbind]. clearbody b.
  destruct (Z.leb_spec b 4); (split; [lia|]); (split; [rewrite january in *; unfold weekday in *; lia|]).
  all: split; [|split; [done|lia]]; destruct (Z.ltb_spec (doy y m d) b); f_equal; rewrite ?Z.quot_div_nonneg by lia; lia.
Qed.

(** A span is made of the parts it is asked for. *)
Lemma timespan_parts d h mi s us : 0 <= d <= 10 ^ 6 -> 0 <= h < 24 -> 0 <= mi < 60 -> 0 <= s < 60 -> 0 <= us < 10 ^ 6 ->
  exists t, Timespan.construct d h mi s us = Done t /\ Timespan.days t = d /\ Timespan.hours t = h /\ Timespan.minutes t = mi
    /\ Timespan.seconds t = s /\ Timespan.milliseconds t = us / 1000 /\ Timespan.microseconds t = us mod 1000
    /\ Timespan.useconds t = us.
Proof.
  intros Hd Hh Hmi Hs Hus. unfold Timespan.construct, Timespan.days, Timespan.hours, Timespan.minutes, Timespan.seconds,
    Timespan.milliseconds, Timespan.microseconds, Timespan.useconds, Timespan.DAYS, Timespan.HOURS, Timespan.MINUTES,
    Timespan.SECONDS, Timespan.MILLISECONDS.
  assert (forall x, - 2 ^ 62 <= x <= 2 ^ 62 -> arith Int64 x = Done x) as Ha.
  { intros x Hx. unfold arith. cbn [imin imax Int64]. by rewrite (proj2 (Z.leb_le (- 2 ^ 63) x)), (proj2 (Z.leb_le x (2 ^ 63 - 1))) by lia. }
  repeat (rewrite Ha by lia; cbn [rbind]). eexists. split; [done|].
  rewrite !Z.quot_div_nonneg by lia. rewrite !Z.rem_mod_nonneg by lia. rewrite !as_int_small by lia. lia.
Qed.

(** ** Concrete dates *)
Ltac by_valid := refine (@bool_decide_unpack _ _ _); vm_compute; exact I.

Definition clock (h mi s ms us : Z) : daytime := {| hh := h; mm := mi; ss := s; milli := ms; micro := us |}.

Lemma datetime_roundtrip_witness : exists dt ts, assign 2014 5 13 16 53 20 123 456 = Done dt
  /\ timestamp dt = Done ts /\ of_timestamp ts = Done dt.
Proof.
  apply (datetime_roundtrip 2014 5 13 (clock 16 53 20 123 456)).
  - lia.
  - by_valid.
  - vm_compute. discriminate.
  - unfold daytime_ok. cbn. lia.
  - vm_compute. discriminate.
Defined.

Lemma datetime_calendar_witness : exists a b w, assign 2000 2 28 12 0 0 0 0 = Done a /\ assign 2000 2 29 12 0 0 0 0 = Done b
  /\ difference b a = Done Timespan.DAYS /\ dayOfWeek a = Done w /\ dayOfWeek b = Done ((w + 1) mod 7).
Proof.
  apply (datetime_calendar 2000 2 28 (clock 12 0 0 0 0)).
  - lia.
  - by_valid.
  - vm_compute. discriminate.
  - unfold daytime_ok. cbn. lia.
  - vm_compute. discriminate.
  - vm_compute. discriminate.
Defined.

Lemma week_number_witness : exists s w, -2 <= s <= 4 /\ weekday (day_no 2005 1 s) = 1
  /\ week 1 (at_time 0 2005 1 2 (clock 0 0 0 0 0)) = Done w /\ w = (doy 2005 1 2 - s) / 7 + 1 /\ 0 <= w <= 53.
Proof.
  apply (week_number 2005 1 2 (clock 0 0 0 0 0) 0 1).
  - lia.
  - by_valid.
  - lia.
Defined.

(** From the Julian day on, a point in time becomes the date of that day. *)
Lemma of_utc_moment u y m d f : 0 <= y <= 9999 -> valid y m d -> 0 <= f <= 2 ^ 31 - 2 ->
  toJulianDay_utc u = moment (day_no y m d) f ->
  exists dt, of_utc u = Done dt /\ _year dt = y /\ _month dt = m /\ _day dt = d
    /\ _hour dt = as_short (Timespan.hours (Z.quot u 10)).
Proof.
  intros Hy Hv Hf Ej. unfold of_utc, computeGregorian. rewrite Ej, gregorian_date_ok by (done || lia). cbn [rbind].
  rewrite gregorian_time_ok by lia. cbn [rbind]. destruct (time_bounds f Hf) as (B1 & B2 & B3 & B4 & B5 & B6).
  destruct (normalize_date u y m d (hour_of f) (minute_of f) (second_of f) (milli_of f) (micro_of f))
    as (h' & mi' & s' & ms' & us' & ->); try done; [lia|]. by eexists.
Qed.

Lemma julian_2014 : toJulianDay_utc 136192319999999990 = moment (day_no 2014 5 13) 0.
Proof. vm_compute. reflexivity. Qed.

Lemma julian_1500 : toJulianDay_utc (-26010288000000000) = moment (day_no 1500 5 13) (2 ^ 30).
Proof. vm_compute. reflexivity. Qed.

(** What [assign] gives and what comes back, when the Julian day is known. *)
Lemma there_and_back y m d c u y' m' d' f : 0 <= y <= 9999 -> valid y m d -> daytime_ok c ->
  u = (day_no y m d - REFORM) * DAY + ticks c -> 0 <= y' <= 9999 -> valid y' m' d' -> 0 <= f <= 2 ^ 31 - 2 ->
  toJulianDay_utc u = moment (day_no y' m' d') f ->
  exists a b, assign y m d (hh c) (mm c) (ss c) (milli c) (micro c) = Done a /\ of_utc (_utcTime a) = Done b
    /\ (_day a, _hour a) = (d, hh c) /\ (_day b, _hour b) = (d', as_short (Timespan.hours (Z.quot u 10))).
Proof.
  intros Hy Hv Hc Eu Hy' Hv' Hf Ej. destruct (of_utc_moment u y' m' d' f Hy' Hv' Hf Ej) as (b & Eb & _ & _ & Ed & Eh).
  eexists _, b. split; [by apply assign_ok|]. cbn [at_time _utcTime _day _hour]. rewrite <- Eu, Ed, Eh. done.
Qed.

(** One microsecond before midnight the Julian day is rounded to the next day:
    12 May 2014, 23:59:59.999999 comes back as 13 May 2014 with the same time. *)
Example last_microsecond : exists a b, assign 2014 5 12 23 59 59 999 999 = Done a /\ of_utc (_utcTime a) = Done b
  /\ (_day a, _hour a) = (12, 23) /\ (_day b, _hour b) = (13, 23).
Proof.
  apply (there_and_back 2014 5 12 (clock 23 59 59 999 999) 136192319999999990 2014 5 13 0);
    [lia|by_valid|unfold daytime_ok; cbn; lia|reflexivity|lia|by_valid|lia|exact julian_2014].
Qed.

(** A point in time before the reform gets a negative time of the day. *)
Example before_reform : exists a b, assign 1500 5 13 12 0 0 0 0 = Done a /\ of_utc (_utcTime a) = Done b
  /\ (_day a, _hour a) = (13, 12) /\ (_day b, _hour b) = (13, -12).
Proof.
  apply (there_and_back 1500 5 13 (clock 12 0 0 0 0) (-26010288000000000) 1500 5 13 (2 ^ 30));
    [lia|by_valid|unfold daytime_ok; cbn; lia|reflexivity|lia|by_valid|lia|exact julian_1500].
Qed.
