(* ===== verification/DateTimeText.v ===== *)
(** Dates and times as text: DateTimeFormat.cpp, DateTimeFormatter.cpp and
    DateTimeParser.cpp of POCO Foundation. *)

From S2P Require Import Prelude Strings NumericString Float DateTime.
Import DateTime Formatter.

Open Scope res_scope.
Local Open Scope Z_scope.

(** ** DateTimeFormat *)
Module DateTimeFormat.
Definition ISO8601_FORMAT : list Z := str "%Y-%m-%dT%H:%M:%S%z".
Definition ISO8601_FRAC_FORMAT : list Z := str "%Y-%m-%dT%H:%M:%s%z".
Definition RFC822_FORMAT : list Z := str "%w, %e %b %y %H:%M:%S %Z".
Definition RFC1123_FORMAT : list Z := str "%w, %e %b %Y %H:%M:%S %Z".
Definition HTTP_FORMAT : list Z := str "%w, %d %b %Y %H:%M:%S %Z".
Definition RFC850_FORMAT : list Z := str "%W, %e-%b-%y %H:%M:%S %Z".
Definition RFC1036_FORMAT : list Z := str "%W, %e %b %y %H:%M:%S %Z".
Definition ASCTIME_FORMAT : list Z := str "%w %b %f %H:%M:%S %Y".
Definition SORTABLE_FORMAT : list Z := str "%Y-%m-%d %H:%M:%S".

Definition WEEKDAY_NAMES : list (list Z) :=
  [str "Sunday"; str "Monday"; str "Tuesday"; str "Wednesday"; str "Thursday"; str "Friday"; str "Saturday"].

Definition MONTH_NAMES : list (list Z) :=
  [str "January"; str "February"; str "March"; str "April"; str "May"; str "June"; str "July"; str "August";
   str "September"; str "October"; str "November"; str "December"].
End DateTimeFormat.

(** ** DateTimeFormatter *)
Module DateTimeFormatter.
Import DateTimeFormat.

Definition UTC : Z := 0xFFFF.

(** [names[i]] *)
Definition name_at (names : list (list Z)) (i : Z) : res (list Z) :=
  if between 0 i (Z.of_nat (length names) - 1) then Done (nth (Z.to_nat i) names []) else UB.

Definition tzdISO (s : list Z) (tzd : Z) : res (list Z) :=
  if negb (tzd =? UTC) then
    if 0 <=? tzd then
      let? s := append0_int (s ++ str "+") (Z.quot tzd 3600) 2 in
      append0_int (s ++ str ":") (Z.quot (Z.rem tzd 3600) 60) 2
    else
      let? neg := arith Int32 (- tzd) in
      let? s := append0_int (s ++ str "-") (Z.quot neg 3600) 2 in
      append0_int (s ++ str ":") (Z.quot (Z.rem neg 3600) 60) 2
  else Done (s ++ str "Z").

Definition tzdRFC (s : list Z) (tzd : Z) : res (list Z) :=
  if negb (tzd =? UTC) then
    if 0 <=? tzd then
      let? s := append0_int (s ++ str "+") (Z.quot tzd 3600) 2 in
      append0_int s (Z.quot (Z.rem tzd 3600) 60) 2
    else
      let? neg := arith Int32 (- tzd) in
      let? s := append0_int (s ++ str "-") (Z.quot neg 3600) 2 in
      append0_int s (Z.quot (Z.rem neg 3600) 60) 2
  else Done (s ++ str "GMT").

(** The [switch] of [append]. *)
Definition append_field (s : list Z) (d : DateTime_) (tzd c : Z) : res (list Z) :=
  if c =? chr "w" then let? w := dayOfWeek d in let? n := name_at WEEKDAY_NAMES w in Done (s ++ take 3 n)
  else if c =? chr "W" then let? w := dayOfWeek d in let? n := name_at WEEKDAY_NAMES w in Done (s ++ n)
  else if c =? chr "b" then let? n := name_at MONTH_NAMES (_month d - 1) in Done (s ++ take 3 n)
  else if c =? chr "B" then let? n := name_at MONTH_NAMES (_month d - 1) in Done (s ++ n)
  else if c =? chr "d" then append0_int s (_day d) 2
  else if c =? chr "e" then append_int s (_day d)
  else if c =? chr "f" then append_int_width s (_day d) 2
  else if c =? chr "m" then append0_int s (_month d) 2
  else if c =? chr "n" then append_int s (_month d)
  else if c =? chr "o" then append_int_width s (_month d) 2
  else if c =? chr "y" then append0_int s (Z.rem (_year d) 100) 2
  else if c =? chr "Y" then append0_int s (_year d) 4
  else if c =? chr "H" then append0_int s (_hour d) 2
  else if c =? chr "h" then append0_int s (hourAMPM d) 2
  else if c =? chr "a" then Done (s ++ if isAM d then str "am" else str "pm")
  else if c =? chr "A" then Done (s ++ if isAM d then str "AM" else str "PM")
  else if c =? chr "M" then append0_int s (_minute d) 2
  else if c =? chr "S" then append0_int s (_second d) 2
  else if c =? chr "s" then
    let? s := append0_int s (_second d) 2 in append0_int (s ++ str ".") (_millisecond d * 1000 + _microsecond d) 6
  else if c =? chr "i" then append0_int s (_millisecond d) 3
  else if c =? chr "c" then append_int s (Z.quot (_millisecond d) 100)
  else if c =? chr "F" then append0_int s (_millisecond d * 1000 + _microsecond d) 6
  else if c =? chr "z" then tzdISO s tzd
  else if c =? chr "Z" then tzdRFC s tzd
  else Done (s ++ [c]).

Fixpoint append (s : list Z) (d : DateTime_) (fmt : list Z) (tzd : Z) : res (list Z) :=
  match fmt with
  | [] => Done s
  | c :: it =>
      if c =? chr "%" then
        match it with
        | [] => Done s
        | c :: it => let? s := append_field s d tzd c in append s d it tzd
        end
      else append (s ++ [c]) d it tzd
  end.

Definition format (d : DateTime_) (fmt : list Z) (tzd : Z) : res (list Z) := append [] d fmt tzd.

Definition append_span_field (s : list Z) (timespan c : Z) : res (list Z) :=
  if c =? chr "d" then append_int s (Timespan.days timespan)
  else if c =? chr "H" then append0_int s (Timespan.hours timespan) 2
  else if c =? chr "h" then append_int s (Timespan.totalHours timespan)
  else if c =? chr "M" then append0_int s (Timespan.minutes timespan) 2
  else if c =? chr "m" then append_int s (Timespan.totalMinutes timespan)
  else if c =? chr "S" then append0_int s (Timespan.seconds timespan) 2
  else if c =? chr "s" then append_int s (Timespan.totalSeconds timespan)
  else if c =? chr "i" then append0_int s (Timespan.milliseconds timespan) 3
  else if c =? chr "c" then append_int s (Z.quot (Timespan.milliseconds timespan) 100)
  else if c =? chr "F" then append0_int s (Timespan.milliseconds timespan * 1000 + Timespan.microseconds timespan) 6
  else Done (s ++ [c]).

Fixpoint append_span (s : list Z) (timespan : Z) (fmt : list Z) : res (list Z) :=
  match fmt with
  | [] => Done s
  | c :: it =>
      if c =? chr "%" then
        match it with
        | [] => Done s
        | c :: it => let? s := append_span_field s timespan c in append_span s timespan it
        end
      else append_span (s ++ [c]) timespan it
  end.
End DateTimeFormatter.

(** ** DateTimeParser *)
Module DateTimeParser.
Import DateTimeFormat.

(** SKIP_JUNK and SKIP_DIGITS *)
Fixpoint skip_junk (it : list Z) : list Z :=
  match it with c :: r => if negb (Ascii.isDigit c) then skip_junk r else it | [] => [] end.
Fixpoint skip_digits (it : list Z) : list Z :=
  match it with c :: r => if Ascii.isDigit c then skip_digits r else it | [] => [] end.

(** [var*10] plus the digit *)
Definition digit (var c : Z) : res Z :=
  let? v := arith Int32 (var * 10) in arith Int32 (v + (c - chr "0")).

(** PARSE_NUMBER, PARSE_NUMBER_N and PARSE_FRACTIONAL_N *)
Fixpoint parse_number (var : Z) (it : list Z) : res (Z * list Z) :=
  match it with
  | c :: r => if Ascii.isDigit c then let? v := digit var c in parse_number v r else Done (var, it)
  | [] => Done (var, it)
  end.

Fixpoint parse_number_n (n : nat) (var : Z) (it : list Z) : res (Z * list Z) :=
  match n, it with
  | S n, c :: r => if Ascii.isDigit c then let? v := digit var c in parse_number_n n v r else Done (var, it)
  | _, _ => Done (var, it)
  end.

Fixpoint times_ten (n : nat) (var : Z) : res Z :=
  match n with O => Done var | S n => let? v := arith Int32 (var * 10) in times_ten n v end.

Fixpoint parse_fractional_n (n : nat) (var : Z) (it : list Z) : res (Z * list Z) :=
  match n with
  | O => Done (var, it)
  | S n' =>
      let pad := let? v := times_ten n var in Done (v, it) in
      match it with
      | c :: r => if Ascii.isDigit c then let? v := digit var c in parse_fractional_n n' v r else pad
      | [] => pad
      end
  end.

Definition skip_while (p : Z -> bool) (it : list Z) : list Z := snd (span p it).
Definition isSpaceOrPunct (c : Z) : bool := Ascii.isSpace c || Ascii.isPunct c.

(** The first letter in upper case, the others in lower case. *)
Definition capitalized (s : list Z) : list Z :=
  match s with c :: r => Ascii.toUpper c :: map Ascii.toLower r | [] => [] end.

Fixpoint find_name (name : list Z) (names : list (list Z)) (i : Z) : option Z :=
  match names with
  | [] => None
  | n :: names => if Str.is_prefix name n then Some i else find_name name names (i + 1)
  end.

Definition parse_name (names : list (list Z)) (first : Z) (it : list Z) : res (Z * list Z) :=
  let (letters, it) := span Ascii.isAlpha (skip_while isSpaceOrPunct it) in
  let name := capitalized letters in
  if (length name <? 3)%nat then Raise SyntaxException
  else match find_name name names first with Some i => Done (i, it) | None => Raise SyntaxException end.

Definition parseMonth (it : list Z) : res (Z * list Z) := parse_name MONTH_NAMES 1 it.
Definition parseDayOfWeek (it : list Z) : res (Z * list Z) := parse_name WEEKDAY_NAMES 0 it.

Definition parseAMPM (it : list Z) (hour : Z) : res (Z * list Z) :=
  let (letters, it) := span Ascii.isAlpha (skip_while isSpaceOrPunct it) in
  let ampm := map Ascii.toUpper letters in
  if eqb_str ampm (str "AM") then Done (if hour =? 12 then 0 else hour, it)
  else if eqb_str ampm (str "PM") then Done (if hour <? 12 then hour + 12 else hour, it)
  else Raise SyntaxException.

Definition zones : list (list Z * Z) :=
  [(str "Z", 0); (str "UT", 0); (str "GMT", 0); (str "BST", 1*3600); (str "IST", 1*3600); (str "WET", 0);
   (str "WEST", 1*3600); (str "CET", 1*3600); (str "CEST", 2*3600); (str "EET", 2*3600); (str "EEST", 3*3600);
   (str "MSK", 3*3600); (str "MSD", 4*3600); (str "NST", -3*3600-1800); (str "NDT", -2*3600-1800);
   (str "AST", -4*3600); (str "ADT", -3*3600); (str "EST", -5*3600); (str "EDT", -4*3600); (str "CST", -6*3600);
   (str "CDT", -5*3600); (str "MST", -7*3600); (str "MDT", -6*3600); (str "PST", -8*3600); (str "PDT", -7*3600);
   (str "AKST", -9*3600); (str "AKDT", -8*3600); (str "HST", -10*3600); (str "AEST", 10*3600); (str "AEDT", 11*3600);
   (str "ACST", 9*3600+1800); (str "ACDT", 10*3600+1800); (str "AWST", 8*3600); (str "AWDT", 9*3600)].

Fixpoint zone (designator : list Z) (zones : list (list Z * Z)) : Z :=
  match zones with
  | [] => 0
  | (n, tzd) :: zones => if eqb_str designator n then tzd else zone designator zones
  end.

(** At most [n] letters. *)
Fixpoint take_alpha (n : nat) (it : list Z) : list Z * list Z :=
  match n, it with
  | S n, c :: r => if Ascii.isAlpha c then let (a, b) := take_alpha n r in (c :: a, b) else ([], it)
  | _, _ => ([], it)
  end.

Definition parseTZD (it : list Z) : res (Z * list Z) :=
  match skip_while Ascii.isSpace it with
  | [] => Done (0, [])
  | it =>
      let (designator, it) := take_alpha 4 it in
      let tzd := match designator with [] => 0 | _ => zone designator zones end in
      match it with
      | c :: r =>
          if (c =? chr "+") || (c =? chr "-") then
            let sign := if c =? chr "+" then 1 else -1 in
            let? h := parse_number_n 2 0 r in
            let it := match snd h with d :: r' => if d =? chr ":" then r' else snd h | [] => [] end in
            let? m := parse_number_n 2 0 it in
            Done (tzd + sign * (fst h * 3600 + fst m * 60), snd m)
          else Done (tzd, it)
      | [] => Done (tzd, it)
      end
  end.

(** The local variables of [parse]. *)
Record fields := {
  year : Z; month : Z; day : Z; hour : Z; minute : Z; second : Z; millis : Z; micros : Z; tzd : Z
}.

Definition start : fields :=
  {| year := 0; month := 0; day := 0; hour := 0; minute := 0; second := 0; millis := 0; micros := 0; tzd := 0 |}.

Definition set_year (v : Z) (f : fields) := {| year := v; month := month f; day := day f; hour := hour f; minute := minute f;
  second := second f; millis := millis f; micros := micros f; tzd := tzd f |}.
Definition set_month (v : Z) (f : fields) := {| year := year f; month := v; day := day f; hour := hour f; minute := minute f;
  second := second f; millis := millis f; micros := micros f; tzd := tzd f |}.
Definition set_day (v : Z) (f : fields) := {| year := year f; month := month f; day := v; hour := hour f; minute := minute f;
  second := second f; millis := millis f; micros := micros f; tzd := tzd f |}.
Definition set_hour (v : Z) (f : fields) := {| year := year f; month := month f; day := day f; hour := v; minute := minute f;
  second := second f; millis := millis f; micros := micros f; tzd := tzd f |}.
Definition set_minute (v : Z) (f : fields) := {| year := year f; month := month f; day := day f; hour := hour f; minute := v;
  second := second f; millis := millis f; micros := micros f; tzd := tzd f |}.
Definition set_second (v : Z) (f : fields) := {| year := year f; month := month f; day := day f; hour := hour f;
  minute := minute f; second := v; millis := millis f; micros := micros f; tzd := tzd f |}.
Definition set_fraction (ms us : Z) (f : fields) := {| year := year f; month := month f; day := day f; hour := hour f;
  minute := minute f; second := second f; millis := ms; micros := us; tzd := tzd f |}.
Definition set_tzd (v : Z) (f : fields) := {| year := year f; month := month f; day := day f; hour := hour f;
  minute := minute f; second := second f; millis := millis f; micros := micros f; tzd := v |}.

Definition century (y : Z) : res Z := arith Int32 (if 69 <=? y then y + 1900 else y + 2000).

(** PARSE_FRACTIONAL_N(millis, 3); PARSE_FRACTIONAL_N(micros, 3); SKIP_DIGITS(); *)
Definition parse_fraction (f : fields) (it : list Z) : res (fields * list Z) :=
  let? ms := parse_fractional_n 3 (millis f) it in
  let? us := parse_fractional_n 3 (micros f) (snd ms) in
  Done (set_fraction (fst ms) (fst us) f, skip_digits (snd us)).

Definition is_in (c : Z) (s : list Z) : bool := contains s c.

(** The [switch] of [parse]. *)
Definition parse_field (c : Z) (f : fields) (it : list Z) : res (fields * list Z) :=
  if is_in c (str "wW") then Done (f, skip_while Ascii.isAlpha (skip_while Ascii.isSpace it))
  else if is_in c (str "bB") then let? r := parseMonth it in Done (set_month (fst r) f, snd r)
  else if is_in c (str "def") then let? r := parse_number_n 2 (day f) (skip_junk it) in Done (set_day (fst r) f, snd r)
  else if is_in c (str "mno") then let? r := parse_number_n 2 (month f) (skip_junk it) in Done (set_month (fst r) f, snd r)
  else if c =? chr "y" then
    let? r := parse_number_n 2 (year f) (skip_junk it) in
    let? y := century (fst r) in
    Done (set_year y f, snd r)
  else if c =? chr "Y" then let? r := parse_number_n 4 (year f) (skip_junk it) in Done (set_year (fst r) f, snd r)
  else if c =? chr "r" then
    let? r := parse_number (year f) (skip_junk it) in
    let? y := if fst r <? 1000 then century (fst r) else Done (fst r) in
    Done (set_year y f, snd r)
  else if is_in c (str "Hh") then let? r := parse_number_n 2 (hour f) (skip_junk it) in Done (set_hour (fst r) f, snd r)
  else if is_in c (str "aA") then let? r := parseAMPM it (hour f) in Done (set_hour (fst r) f, snd r)
  else if c =? chr "M" then let? r := parse_number_n 2 (minute f) (skip_junk it) in Done (set_minute (fst r) f, snd r)
  else if c =? chr "S" then let? r := parse_number_n 2 (second f) (skip_junk it) in Done (set_second (fst r) f, snd r)
  else if c =? chr "s" then
    let? r := parse_number_n 2 (second f) (skip_junk it) in
    let f := set_second (fst r) f in
    match snd r with
    | d :: it => if is_in d (str ".,") then parse_fraction f it else Done (f, snd r)
    | [] => Done (f, snd r)
    end
  else if c =? chr "i" then
    let? r := parse_number_n 3 (millis f) (skip_junk it) in Done (set_fraction (fst r) (micros f) f, snd r)
  else if c =? chr "c" then
    let? r := parse_number_n 1 (millis f) (skip_junk it) in
    let? ms := arith Int32 (fst r * 100) in
    Done (set_fraction ms (micros f) f, snd r)
  else if c =? chr "F" then parse_fraction f (skip_junk it)
  else if is_in c (str "zZ") then let? r := parseTZD it in Done (set_tzd (fst r) f, snd r)
  else Done (f, it).

(** The [while] loop of [parse]. *)
Fixpoint parse_loop (fmt : list Z) (f : fields) (it : list Z) : res fields :=
  match fmt, it with
  | c :: itf, _ :: _ =>
      if c =? chr "%" then
        match itf with
        | d :: itf => let? r := parse_field d f it in parse_loop itf (fst r) (snd r)
        | [] => Done f
        end
      else parse_loop itf f it
  | _, _ => Done f
  end.

(** The date that [parse] assigns and [timeZoneDifferential]. *)
Definition parse (fmt str : list Z) : res (DateTime_ * Z) :=
  let? f := parse_loop fmt start str in
  let month := if month f =? 0 then 1 else month f in
  let day := if day f =? 0 then 1 else day f in
  if isValid (year f) month day (hour f) (minute f) (second f) (millis f) (micros f) then
    let? d := assign (year f) month day (hour f) (minute f) (second f) (millis f) (micros f) in
    Done (d, tzd f)
  else Raise SyntaxException.

(** [None]: false, and the arguments are as they were. *)
Definition tryParse (fmt str : list Z) : res (option (DateTime_ * Z)) :=
  match parse fmt str with
  | Done r => Done (Some r)
  | Raise _ => Done None
  | Eof => Eof
  | UB => UB
  end.

(** [tryParse] without a format *)
Definition guess (s : list Z) : res (option (DateTime_ * Z)) :=
  if (length s <? 4)%nat then Done None
  else if nth 3 s 0 =? chr "," then tryParse (str "%w, %e %b %r %H:%M:%S %Z") s
  else if nth 3 s 0 =? chr " " then tryParse ASCTIME_FORMAT s
  else if match Str.find_char s (chr ",") with Some i => (i <? 10)%nat | None => false end then
    tryParse (str "%W, %e %b %r %H:%M:%S %Z") s
  else if Ascii.isDigit (nth 0 s 0) then
    if contains s (chr " ") || (length s =? 10)%nat then tryParse SORTABLE_FORMAT s
    else if contains s (chr ".") || contains s (chr ",") then tryParse ISO8601_FRAC_FORMAT s
    else tryParse ISO8601_FORMAT s
  else Done None.

Definition parse_any (s : list Z) : res (DateTime_ * Z) :=
  let? r := guess s in
  match r with Some r => Done r | None => Raise SyntaxException end.
End DateTimeParser.
