(* ===== verification/DateTimeTextFacts.v ===== *)
(** Dates and times as text: what DateTimeFormatter writes, DateTimeParser
    reads back. *)

From S2P Require Import Prelude Strings NumericString Float DateTime DateTimeFacts DateTimeClaims DateTimeText.
From stdpp Require Import list.
Import DateTime Formatter DateTimeFormat DateTimeFormatter DateTimeParser Calendar.

Open Scope res_scope.
Local Open Scope Z_scope.

(** ** Numerals *)
Definition is_num (c : Z) : Prop := 48 <= c <= 57.

Definition num_from (v : Z) (t : list Z) : Z := fold_left (fun v c => v * 10 + (c - 48)) t v.
Abbreviation num := (num_from 0).

(** A text of [n] digits with value [v]. *)
Definition numeral (n : nat) (v : Z) (t : list Z) : Prop := length t = n /\ Forall is_num t /\ num t = v.

Lemma num_from_app v a b : num_from v (a ++ b) = num_from (num_from v a) b.
Proof. apply fold_left_app. Qed.

Lemma num_from_shift v t : num_from v t = v * 10 ^ Z.of_nat (length t) + num t.
Proof.
  revert v. induction t as [|c t IH]; intros v; cbn [num_from fold_left length]; [lia|].
  change (num_from (v * 10 + (c - 48)) t = v * 10 ^ Z.of_nat (S (length t)) + num_from (0 * 10 + (c - 48)) t).
  rewrite (IH (v * 10 + (c - 48))), (IH (0 * 10 + (c - 48))), Nat2Z.inj_succ, Z.pow_succ_r by lia. lia.
Qed.

Lemma num_bounds t : Forall is_num t -> 0 <= num t < 10 ^ Z.of_nat (length t).
Proof.
  induction t as [|c t IH] using rev_ind; [cbn; lia|]. intros [Ht Hc]%Forall_app. rewrite Forall_singleton in Hc.
  specialize (IH Ht). rewrite num_from_app, length_app, Nat2Z.inj_add, Z.pow_add_r by lia.
  change (num_from (num t) [c]) with (num t * 10 + (c - 48)). change (10 ^ Z.of_nat (length [c])) with 10.
  unfold is_num in Hc. lia.
Qed.

Lemma digit_char_num d : 0 <= d < 10 -> digit_char d = 48 + d.
Proof. intros H. apply Z.eqb_eq. by apply (allbelow_spec 10 (fun d => digit_char d =? 48 + d)). Qed.

Lemma digits_num ds : Forall (fun d => 0 <= d < 10) ds ->
  Forall is_num (rev (map digit_char ds)) /\ num (rev (map digit_char ds)) = value_lsb 10 ds.
Proof.
  induction 1 as [|d ds Hd Hds [IH1 IH2]]; [by split|]. cbn [map rev value_lsb]. split.
  - apply Forall_app. split; [done|]. apply Forall_singleton. rewrite digit_char_num by done. unfold is_num. lia.
  - rewrite num_from_app, IH2. change (value_lsb 10 ds * 10 + (digit_char d - 48) = d + 10 * value_lsb 10 ds).
    rewrite digit_char_num by done. lia.
Qed.

Lemma pad_ok n size fill buf : (length buf + n <= size)%nat -> pad n size fill buf = Done (buf ++ replicate n fill).
Proof.
  revert buf. induction n as [|n IH]; intros buf Hl; cbn [pad]; [by rewrite app_nil_r|].
  rewrite ptr_put_ok by lia. cbn [rbind]. rewrite IH by (rewrite length_app; cbn; lia). by rewrite <- app_assoc.
Qed.

Lemma num_zeros n t : num (replicate n 48 ++ t) = num t.
Proof. rewrite num_from_app. f_equal. by induction n. Qed.

(** [NumberFormatter::append0] writes numerals of the given width. *)
Lemma intToStr_numeral v n : (0 < n <= 9)%nat -> 0 <= v < 10 ^ Z.of_nat n ->
  exists t, intToStr v 10 NF_MAX_INT_STRING_LEN false (Z.of_nat n) (chr "0") 0 = Done (Some t) /\ numeral n v t.
Proof.
  intros Hn Hv. unfold intToStr, NF_MAX_INT_STRING_LEN. cbn [Z.ltb Z.compare orb Pos.compare Pos.compare_cont].
  destruct (digit_loop_spec n MAX_DIGITS 32 10 1 v []) as (ds & top & Hl & Ht & _ & (Hd & _ & _) & Hval & Hlen);
    [lia|by left|lia|unfold MAX_DIGITS; lia|cbn; lia|].
  rewrite Z.mul_1_l in Hl. rewrite Hl. cbn [rbind app]. change (chr "0" =? chr "0") with true. cbn [negb andb].
  cbv iota zeta. rewrite Z.mul_1_l, (proj2 (Z.ltb_ge top 0)) by lia. rewrite !Z.sub_0_r. unfold pad_to.
  rewrite length_map, pad_ok by (rewrite length_map; lia). cbn [rbind].
  rewrite (proj2 (Nat.ltb_lt _ _)) by (rewrite length_app, length_map, length_replicate; lia).
  destruct (digits_num ds Hd) as [H1 H2]. rewrite Hval in H2.
  eexists. split; [done|]. rewrite rev_app_distr, (rev_alt (replicate _ _) : _ = reverse _), reverse_replicate. split_and!.
  - rewrite length_app, length_replicate, length_rev, length_map. lia.
  - apply Forall_app. split; [|done]. apply Forall_replicate. unfold is_num, chr. cbn. lia.
  - by rewrite (num_zeros _ _ : num (replicate _ (chr "0") ++ _) = _).
Qed.

Lemma append0_any v n : (0 < n <= 9)%nat -> 0 <= v < 10 ^ Z.of_nat n ->
  exists t, numeral n v t /\ forall s, append0_int s v (Z.of_nat n) = Done (s ++ t).
Proof.
  intros Hn Hv. destruct (intToStr_numeral v n Hn Hv) as (t & E & Ht). exists t. split; [done|]. intros s.
  unfold append0_int, appended. by rewrite E.
Qed.

(** ** Reading numerals *)
Lemma is_num_digit c : is_num c -> Ascii.isDigit c = true.
Proof. intros Hc. rewrite Ascii.isDigit_spec; unfold is_num, is_byte, chr in *; cbn; lia. Qed.

(** The text ends, or goes on with something else than a digit. *)
Definition no_digit (rest : list Z) : Prop := match rest with [] => True | c :: _ => Ascii.isDigit c = false end.

Lemma digit_ok v c : 0 <= v < 10 ^ 8 -> is_num c -> digit v c = Done (v * 10 + (c - 48)).
Proof.
  intros Hv Hc. unfold digit, arith, is_num in *. cbn [imin imax Int32]. change (chr "0") with 48.
  rewrite (proj2 (Z.leb_le (- 2 ^ 31) (v * 10))), (proj2 (Z.leb_le (v * 10) (2 ^ 31 - 1))) by lia. cbn [andb rbind].
  by rewrite (proj2 (Z.leb_le (- 2 ^ 31) (_ + _))), (proj2 (Z.leb_le (_ + _) (2 ^ 31 - 1))) by lia.
Qed.

Lemma num_from_bounds v t k : 0 <= v < 10 ^ Z.of_nat k -> Forall is_num t ->
  0 <= num_from v t < 10 ^ Z.of_nat (k + length t).
Proof.
  intros Hv Ht. pose proof (num_bounds t Ht). rewrite num_from_shift, Nat2Z.inj_add, Z.pow_add_r by lia.
  assert (0 < 10 ^ Z.of_nat (length t)) by (apply Z.pow_pos_nonneg; lia). nia.
Qed.

Lemma parse_number_n_ok t : forall n v k rest, (length t <= n)%nat -> (k + length t <= 8)%nat -> 0 <= v < 10 ^ Z.of_nat k ->
  Forall is_num t -> (length t = n \/ no_digit rest) -> parse_number_n n v (t ++ rest) = Done (num_from v t, rest).
Proof.
  induction t as [|c t IH]; intros n v k rest Hn Hk Hv Ht Hr.
  - cbn [app num_from fold_left]. destruct n, rest; try done; cbn [parse_number_n]. destruct Hr as [|Hr]; [done|]. cbn in Hr. by rewrite Hr.
  - destruct n as [|n]; [cbn in Hn; lia|]. apply Forall_cons in Ht as [Hc Ht]. cbn [app parse_number_n length] in *.
    rewrite is_num_digit, digit_ok by (done || (split; [lia|]; eapply Z.lt_le_trans; [apply Hv|apply Z.pow_le_mono_r; lia])).
    cbn [rbind]. rewrite (IH n _ (S k)); [done|lia|lia| |done|destruct Hr; [left; lia|by right]].
    rewrite Nat2Z.inj_succ, Z.pow_succ_r by lia. unfold is_num in Hc. lia.
Qed.

Lemma parse_number_ok t : forall v k rest, (k + length t <= 8)%nat -> 0 <= v < 10 ^ Z.of_nat k ->
  Forall is_num t -> no_digit rest -> parse_number v (t ++ rest) = Done (num_from v t, rest).
Proof.
  induction t as [|c t IH]; intros v k rest Hk Hv Ht Hr.
  - cbn [app num_from fold_left]. destruct rest; try done; cbn [parse_number]. cbn in Hr. by rewrite Hr.
  - apply Forall_cons in Ht as [Hc Ht]. cbn [app parse_number length] in *.
    rewrite is_num_digit, digit_ok by (done || (split; [lia|]; eapply Z.lt_le_trans; [apply Hv|apply Z.pow_le_mono_r; lia])).
    cbn [rbind]. rewrite (IH _ (S k)); [done|lia| |done|done].
    rewrite Nat2Z.inj_succ, Z.pow_succ_r by lia. unfold is_num in Hc. lia.
Qed.

Lemma parse_fractional_ok t : forall v k rest, (k + length t <= 8)%nat -> 0 <= v < 10 ^ Z.of_nat k -> Forall is_num t ->
  parse_fractional_n (length t) v (t ++ rest) = Done (num_from v t, rest).
Proof.
  induction t as [|c t IH]; intros v k rest Hk Hv Ht; [done|]. apply Forall_cons in Ht as [Hc Ht].
  cbn [app parse_fractional_n length] in *.
  rewrite is_num_digit, digit_ok by (done || (split; [lia|]; eapply Z.lt_le_trans; [apply Hv|apply Z.pow_le_mono_r; lia])).
  cbn [rbind]. rewrite (IH _ (S k)); [done|lia| |done].
  rewrite Nat2Z.inj_succ, Z.pow_succ_r by lia. unfold is_num in Hc. lia.
Qed.

Lemma skip_junk_app j t : Forall (fun c => Ascii.isDigit c = false) j -> Forall is_num t -> t <> [] ->
  forall rest, skip_junk (j ++ t ++ rest) = t ++ rest.
Proof.
  intros Hj Ht Hne rest. induction Hj as [|c j Hc Hj IH]; cbn [app skip_junk].
  - destruct t as [|c t]; [done|]. apply Forall_cons in Ht as [Hc _]. cbn [app skip_junk]. by rewrite is_num_digit.
  - by rewrite Hc.
Qed.

(** ** Writing and reading along a format *)

(** [t] is what the format [fmt] makes of the date [d]. *)
Inductive writes (d : DateTime_) (tzd : Z) : list Z -> list Z -> Prop :=
| writes_end : writes d tzd [] []
| writes_lit c fmt t : c <> chr "%" -> writes d tzd fmt t -> writes d tzd (c :: fmt) (c :: t)
| writes_field c fmt u t : (forall s, append_field s d tzd c = Done (s ++ u)) -> writes d tzd fmt t ->
    writes d tzd (chr "%" :: c :: fmt) (u ++ t).

Lemma writes_append d tzd fmt t : writes d tzd fmt t -> forall s, append s d fmt tzd = Done (s ++ t).
Proof.
  induction 1 as [|c fmt t Hc _ IH|c fmt u t Hu _ IH]; intros s; cbn [append].
  - by rewrite app_nil_r.
  - rewrite (proj2 (Z.eqb_neq c (chr "%"))), IH by done. by rewrite <- app_assoc.
  - rewrite Z.eqb_refl, Hu. cbn [rbind]. by rewrite IH, <- app_assoc.
Qed.

(** Reading [it] along [fmt] turns [f] into [f']. *)
Definition reads (fmt : list Z) (f : fields) (it : list Z) (f' : fields) : Prop := parse_loop fmt f it = Done f'.

Lemma reads_end f it : reads [] f it f.
Proof. by destruct it. Qed.

Lemma reads_lit c fmt f it f' : c <> chr "%" -> it <> [] -> reads fmt f it f' -> reads (c :: fmt) f it f'.
Proof. intros Hc Hit Hr. unfold reads in *. destruct it; [done|]. cbn [parse_loop]. by rewrite (proj2 (Z.eqb_neq c (chr "%"))). Qed.

Lemma reads_field c fmt f it g rest f' : it <> [] -> parse_field c f it = Done (g, rest) -> reads fmt g rest f' ->
  reads (chr "%" :: c :: fmt) f it f'.
Proof.
  intros Hit Hp Hr. unfold reads in *. destruct it; [done|]. cbn [parse_loop]. rewrite Z.eqb_refl, Hp. done.
Qed.

Definition junk (j : list Z) : Prop := Forall (fun c => Ascii.isDigit c = false) j.

Lemma read_number n j t v k rest : numeral k v t -> (0 < k <= n)%nat -> (n <= 4)%nat -> (k = n \/ no_digit rest) -> junk j ->
  parse_number_n n 0 (skip_junk (j ++ t ++ rest)) = Done (v, rest).
Proof.
  intros (Hl & Hd & Hv) Hk Hn Hr Hj. rewrite skip_junk_app by (done || (destruct t; [cbn in Hl; lia|done])).
  rewrite (parse_number_n_ok t n 0 0%nat); [by rewrite Hv|lia|lia|cbn; lia|done|rewrite Hl; done].
Qed.

(** The numbers of a date: [parse_field] reads [n] digits into one of the
    fields. *)
Definition reads_into (n : nat) (c : Z) (get : fields -> Z) (set : Z -> fields -> fields) : Prop :=
  forall f it, parse_field c f it = let? r := parse_number_n n (get f) (skip_junk it) in Done (set (fst r) f, snd r).

Lemma into_year : reads_into 4 (chr "Y") year set_year. Proof. done. Qed.
Lemma into_month : reads_into 2 (chr "m") month set_month. Proof. done. Qed.
Lemma into_day : reads_into 2 (chr "d") day set_day. Proof. done. Qed.
Lemma into_day_e : reads_into 2 (chr "e") day set_day. Proof. done. Qed.
Lemma into_hour : reads_into 2 (chr "H") hour set_hour. Proof. done. Qed.
Lemma into_minute : reads_into 2 (chr "M") minute set_minute. Proof. done. Qed.
Lemma into_second : reads_into 2 (chr "S") second set_second. Proof. done. Qed.

Lemma reads_number n c get set fmt f j t v rest f' : reads_into n c get set -> (0 < n <= 4)%nat -> get f = 0 -> numeral n v t ->
  junk j -> reads fmt (set v f) rest f' -> reads (chr "%" :: c :: fmt) f (j ++ t ++ rest) f'.
Proof.
  intros Hc Hn Hf Ht Hj Hr. eapply reads_field; [| |exact Hr].
  - destruct Ht as (Hl & _). destruct j; [|done]. destruct t; [cbn in Hl; lia|done].
  - rewrite Hc, Hf, (read_number n j t v n); [done|done|lia|lia|by left|done].
Qed.

(** [%r]: all the digits, and no century is added. *)
Lemma reads_year_r fmt f j t v rest f' : year f = 0 -> numeral 4 v t -> 1000 <= v -> no_digit rest -> junk j ->
  reads fmt (set_year v f) rest f' -> reads (chr "%" :: chr "r" :: fmt) f (j ++ t ++ rest) f'.
Proof.
  intros Hf (Hl & Hd & Hv) Hy Hr Hj Hfmt. eapply reads_field; [| |exact Hfmt]; [by destruct j, t|].
  change (parse_field (chr "r") f (j ++ t ++ rest)) with
    (let? r := parse_number (year f) (skip_junk (j ++ t ++ rest)) in
     let? y := if fst r <? 1000 then century (fst r) else Done (fst r) in Done (set_year y f, snd r)).
  rewrite skip_junk_app by (done || by destruct t). rewrite Hf.
  rewrite (parse_number_ok t 0 0%nat) by (done || (cbn; lia)). rewrite Hv. cbn [rbind fst snd].
  by rewrite (proj2 (Z.ltb_ge v 1000)).
Qed.

(** [%s]: seconds and the six digits of the fraction. *)
Lemma split_fraction t ms us : numeral 6 (ms * 1000 + us) t -> 0 <= us < 1000 ->
  exists a b, t = a ++ b /\ numeral 3 ms a /\ numeral 3 us b.
Proof.
  intros (Hl & Hd & Hv) Hus. exists (take 3 t), (drop 3 t). split; [by rewrite take_drop|].
  rewrite <- (take_drop 3 t) in Hv, Hd. apply Forall_app in Hd as [Ha Hb]. rewrite num_from_app, num_from_shift in Hv.
  assert (length (take 3 t) = 3%nat /\ length (drop 3 t) = 3%nat) as [La Lb] by (rewrite length_take, length_drop; lia).
  pose proof (num_bounds _ Hb) as Bb. rewrite Lb in *. change (10 ^ Z.of_nat 3) with 1000 in *. split; split_and!; try done; lia.
Qed.

Lemma reads_fraction fmt f j ts v t ms us rest f' : second f = 0 -> millis f = 0 -> micros f = 0 ->
  numeral 2 v ts -> numeral 6 (ms * 1000 + us) t -> 0 <= us < 1000 -> no_digit rest -> junk j ->
  reads fmt (set_fraction ms us (set_second v f)) rest f' ->
  reads (chr "%" :: chr "s" :: fmt) f (j ++ ts ++ chr "." :: t ++ rest) f'.
Proof.
  intros Hs Hms Hus Hts Ht Hu Hr Hj Hfmt. eapply reads_field; [| |exact Hfmt].
  { destruct Hts as (Hl & _). by destruct j, ts. }
  destruct (split_fraction t ms us Ht Hu) as (a & b & -> & (La & Da & Va) & (Lb & Db & Vb)).
  change (parse_field (chr "s") f (j ++ ts ++ chr "." :: (a ++ b) ++ rest)) with
    (let? r := parse_number_n 2 (second f) (skip_junk (j ++ ts ++ chr "." :: (a ++ b) ++ rest)) in
     let f := set_second (fst r) f in
     match snd r with
     | d :: it => if is_in d (str ".,") then parse_fraction f it else Done (f, snd r)
     | [] => Done (f, snd r)
     end).
  rewrite Hs, (read_number 2 j ts v 2) by (try done; try lia; by left). cbn [rbind fst snd].
  change (is_in (chr ".") (str ".,")) with true. cbv iota zeta. unfold parse_fraction.
  cbn [millis micros set_second]. rewrite Hms, Hus, <- app_assoc.
  rewrite <- La at 1. rewrite (parse_fractional_ok a 0 0%nat) by (done || (cbn; lia)). cbn [rbind fst snd].
  rewrite <- Lb at 1. rewrite (parse_fractional_ok b 0 0%nat) by (done || (cbn; lia)). cbn [rbind fst snd]. rewrite Va, Vb.
  do 2 f_equal. destruct rest as [|c rest]; [done|]. cbn in *. by rewrite Hr.
Qed.

(** ** Time zones *)
Definition tzd_ok (z : Z) : Prop := z = UTC \/ (- 360000 < z < 360000 /\ z mod 60 = 0).

(** UTC is read as the differential 0. *)
Definition zone_of (z : Z) : Z := if z =? UTC then 0 else z.

Lemma parse_sign c th h col tm m : (c = chr "+" \/ c = chr "-") -> numeral 2 h th -> numeral 2 m tm -> (col = [] \/ col = [chr ":"]) ->
  parseTZD (c :: th ++ col ++ tm) = Done ((if c =? chr "+" then 1 else -1) * (h * 3600 + m * 60), []).
Proof.
  intros Hc (Lh & Dh & Vh) (Lm & Dm & Vm) Hcol.
  assert (parseTZD (c :: th ++ col ++ tm) =
    let? h := parse_number_n 2 0 (th ++ col ++ tm) in
    let it := match snd h with d :: r' => if d =? chr ":" then r' else snd h | [] => [] end in
    let? m := parse_number_n 2 0 it in
    Done (0 + (if c =? chr "+" then 1 else -1) * (fst h * 3600 + fst m * 60), snd m)) as -> by (by destruct Hc as [->| ->]).
  rewrite (parse_number_n_ok th 2 0 0%nat) by (done || (rewrite ?Lh; cbn; lia) || by left). cbn [rbind fst snd].
  assert (match col ++ tm with d :: r' => if d =? chr ":" then r' else col ++ tm | [] => [] end = tm ++ []) as ->.
  { rewrite app_nil_r. destruct Hcol as [->| ->]; [|done]. destruct tm as [|d tm]; [done|]. cbn [app].
    apply Forall_cons in Dm as [Hd _]. by rewrite (proj2 (Z.eqb_neq d (chr ":"))) by (unfold is_num, chr in *; cbn; lia). }
  rewrite (parse_number_n_ok tm 2 0 0%nat) by (done || (rewrite ?Lm; cbn; lia) || by left). cbn [rbind fst snd]. by rewrite Vh, Vm.
Qed.

(** What the differential looks like, with [col] between hours and minutes. *)
Definition zone_text (col utc : list Z) (z : Z) (t : list Z) : Prop :=
  if z =? UTC then t = utc
  else exists th tm, t = (if 0 <=? z then chr "+" else chr "-") :: th ++ col ++ tm
    /\ numeral 2 (Z.abs z / 3600) th /\ numeral 2 (Z.abs z mod 3600 / 60) tm.

Lemma neg_int32 z : - 360000 < z < 360000 -> arith Int32 (- z) = Done (- z).
Proof.
  intros Hz. unfold arith. cbn [imin imax Int32].
  by rewrite (proj2 (Z.leb_le (- 2 ^ 31) (- z))), (proj2 (Z.leb_le (- z) (2 ^ 31 - 1))) by lia.
Qed.

Lemma abs_parts z : - 360000 < z < 360000 -> let a := if 0 <=? z then z else - z in
  Z.quot a 3600 = Z.abs z / 3600 /\ Z.quot (Z.rem a 3600) 60 = Z.abs z mod 3600 / 60
  /\ 0 <= Z.abs z / 3600 < 10 ^ Z.of_nat 2 /\ 0 <= Z.abs z mod 3600 / 60 < 10 ^ Z.of_nat 2.
Proof.
  intros Hz a. assert (a = Z.abs z) as -> by (unfold a; destruct (Z.leb_spec 0 z); lia). change (10 ^ Z.of_nat 2) with 100.
  rewrite Z.rem_mod_nonneg, !Z.quot_div_nonneg by lia. lia.
Qed.

Lemma tzdISO_text z : tzd_ok z -> exists t, (forall s, tzdISO s z = Done (s ++ t)) /\ zone_text (str ":") (str "Z") z t.
Proof.
  intros [->|[Hz Hm]]; [by eexists|]. unfold zone_text, tzdISO. rewrite (proj2 (Z.eqb_neq z UTC)) by (unfold UTC; lia). cbn [negb].
  destruct (abs_parts z Hz) as (E1 & E2 & B1 & B2).
  destruct (append0_any _ 2 ltac:(lia) B1) as (th & Nh & Wh). destruct (append0_any _ 2 ltac:(lia) B2) as (tm & Nm & Wm).
  change (Z.of_nat 2) with 2 in *. destruct (0 <=? z).
  - eexists. split; [|by exists th, tm]. intros s. rewrite E1, E2, Wh. cbn [rbind]. rewrite Wm, <- !app_assoc. done.
  - eexists. split; [|by exists th, tm]. intros s. rewrite neg_int32 by done. cbn [rbind]. rewrite E1, E2, Wh. cbn [rbind].
    rewrite Wm, <- !app_assoc. done.
Qed.

Lemma tzdRFC_text z : tzd_ok z -> exists t, (forall s, tzdRFC s z = Done (s ++ t)) /\ zone_text [] (str "GMT") z t.
Proof.
  intros [->|[Hz Hm]]; [by eexists|]. unfold zone_text, tzdRFC. rewrite (proj2 (Z.eqb_neq z UTC)) by (unfold UTC; lia). cbn [negb].
  destruct (abs_parts z Hz) as (E1 & E2 & B1 & B2).
  destruct (append0_any _ 2 ltac:(lia) B1) as (th & Nh & Wh). destruct (append0_any _ 2 ltac:(lia) B2) as (tm & Nm & Wm).
  change (Z.of_nat 2) with 2 in *. destruct (0 <=? z).
  - eexists. split; [|by exists th, tm]. intros s. rewrite E1, E2, Wh. cbn [rbind]. rewrite Wm, <- !app_assoc. done.
  - eexists. split; [|by exists th, tm]. intros s. rewrite neg_int32 by done. cbn [rbind]. rewrite E1, E2, Wh. cbn [rbind].
    rewrite Wm, <- !app_assoc. done.
Qed.

Lemma parse_zone z t col utc : tzd_ok z -> (col = str ":" /\ utc = str "Z" \/ col = [] /\ utc = str "GMT") ->
  zone_text col utc z t -> parseTZD t = Done (zone_of z, []) /\ no_digit t /\ t <> [].
Proof.
  intros Hz Hcol Ht. unfold zone_text, zone_of in *. destruct (Z.eqb_spec z UTC) as [E|E].
  - subst t. by destruct Hcol as [[_ ->]|[_ ->]].
  - destruct Hz as [|[Hz Hm]]; [done|]. destruct Ht as (th & tm & -> & Nh & Nm). split; [|by destruct (0 <=? z)].
    rewrite (parse_sign _ th (Z.abs z / 3600) col tm (Z.abs z mod 3600 / 60)); try done.
    + do 2 f_equal. destruct (Z.leb_spec 0 z); cbn [Z.eqb]; change (chr "+" =? chr "+") with true; change (chr "-" =? chr "+") with false; cbv iota; lia.
    + destruct (0 <=? z); auto.
    + destruct Hcol as [[-> _]|[-> _]]; auto.
Qed.

Lemma skip_space_parse t : parseTZD (chr " " :: t) = parseTZD t.
Proof.
  unfold parseTZD, skip_while. assert (snd (span Ascii.isSpace (chr " " :: t)) = snd (span Ascii.isSpace t)) as ->; [|done].
  cbn [span]. change (Ascii.isSpace (chr " ")) with true. cbv iota. by destruct (span Ascii.isSpace t).
Qed.

(** ** Formats *)

(** A date of the calendar with its point in time, as [assign] makes it. *)
Definition dated (y m d : Z) (c : daytime) : DateTime_ := at_time ((day_no y m d - REFORM) * DAY + ticks c) y m d c.

Definition all_fields (y m d : Z) (c : daytime) (z : Z) : fields :=
  {| year := y; month := m; day := d; hour := hh c; minute := mm c; second := ss c; millis := milli c; micros := micro c;
     tzd := z |}.

Section texts.
Context (y m d : Z) (c : daytime) (z : Z).
Hypotheses (Hy : 0 <= y <= 9999) (Hv : valid y m d) (Hc : daytime_ok c) (Hz : tzd_ok z).

Lemma parse_done fmt s z' : reads fmt start s (all_fields y m d c z') -> parse fmt s = Done (dated y m d c, z').
Proof using Hy Hv Hc.
  intros Hr. unfold parse. rewrite Hr. cbn [rbind all_fields year month day hour minute second millis micros tzd].
  pose proof Hv as [Hm Hd]. rewrite (proj2 (Z.eqb_neq m 0)), (proj2 (Z.eqb_neq d 0)) by lia.
  assert (isValid y m d (hh c) (mm c) (ss c) (milli c) (micro c) = true) as ->.
  { unfold isValid, daytime_ok in *. rewrite daysOfMonth_days by lia. rewrite !between_true by lia. done. }
  by rewrite assign_ok.
Qed.

(** The numerals of the date and time. *)
Lemma number_texts : exists tY tM tD tH tI tS,
  (numeral 4 y tY /\ forall s, append0_int s y 4 = Done (s ++ tY)) /\ (numeral 2 m tM /\ forall s, append0_int s m 2 = Done (s ++ tM))
  /\ (numeral 2 d tD /\ forall s, append0_int s d 2 = Done (s ++ tD))
  /\ (numeral 2 (hh c) tH /\ forall s, append0_int s (hh c) 2 = Done (s ++ tH))
  /\ (numeral 2 (mm c) tI /\ forall s, append0_int s (mm c) 2 = Done (s ++ tI))
  /\ (numeral 2 (ss c) tS /\ forall s, append0_int s (ss c) 2 = Done (s ++ tS)).
Proof using Hy Hv Hc.
  destruct Hv as [Hm Hd]. pose proof (month_days_bounds y m). unfold daytime_ok in Hc.
  destruct (append0_any y 4) as (tY & ? & ?); [lia|cbn; lia|]. destruct (append0_any m 2) as (tM & ? & ?); [lia|cbn; lia|].
  destruct (append0_any d 2) as (tD & ? & ?); [lia|cbn; lia|]. destruct (append0_any (hh c) 2) as (tH & ? & ?); [lia|cbn; lia|].
  destruct (append0_any (mm c) 2) as (tI & ? & ?); [lia|cbn; lia|]. destruct (append0_any (ss c) 2) as (tS & ? & ?); [lia|cbn; lia|].
  by exists tY, tM, tD, tH, tI, tS.
Qed.

Definition iso_text (tY tM tD tH tI tS tF tz : list Z) : list Z :=
  tY ++ chr "-" :: tM ++ chr "-" :: tD ++ chr "T" :: tH ++ chr ":" :: tI ++ chr ":" :: tS ++ chr "." :: tF ++ tz.

Ltac junk_char := repeat constructor.

Lemma iso_frac_text : exists tY tM tD tH tI tS tF tz, let t := iso_text tY tM tD tH tI tS tF tz in
  format (dated y m d c) ISO8601_FRAC_FORMAT z = Done t /\ reads ISO8601_FRAC_FORMAT start t (all_fields y m d c (zone_of z))
  /\ numeral 4 y tY /\ numeral 2 m tM /\ numeral 2 d tD /\ numeral 2 (hh c) tH /\ numeral 2 (mm c) tI /\ numeral 2 (ss c) tS
  /\ numeral 6 (milli c * 1000 + micro c) tF /\ zone_text (str ":") (str "Z") z tz.
Proof using All.
  destruct number_texts as (tY & tM & tD & tH & tI & tS & (NY & WY) & (NM & WM) & (ND & WD) & (NH & WH) & (NI & WI) & (NS & WS)).
  pose proof Hc as (_ & _ & _ & Hms & Hus).
  destruct (append0_any (milli c * 1000 + micro c) 6) as (tF & NF & WF); [lia|cbn; lia|].
  destruct (tzdISO_text z Hz) as (tz & Wz & Nz). destruct (parse_zone z tz _ _ Hz (or_introl (conj eq_refl eq_refl)) Nz) as (Pz & Dz & Ez).
  exists tY, tM, tD, tH, tI, tS, tF, tz. split; [|split; [|done]].
  - unfold format. erewrite (writes_append _ _ _ (iso_text tY tM tD tH tI tS tF tz)); [done|].
    apply (writes_field _ _ (chr "Y")); [exact WY|]. apply writes_lit; [done|].
    apply (writes_field _ _ (chr "m")); [exact WM|]. apply writes_lit; [done|].
    apply (writes_field _ _ (chr "d")); [exact WD|]. apply writes_lit; [done|].
    apply (writes_field _ _ (chr "H")); [exact WH|]. apply writes_lit; [done|].
    apply (writes_field _ _ (chr "M")); [exact WI|]. apply writes_lit; [done|].
    replace (tS ++ chr "." :: tF ++ tz) with ((tS ++ chr "." :: tF) ++ tz ++ []) by (by rewrite app_nil_r, <- app_assoc).
    apply (writes_field _ _ (chr "s")).
    { intros s. change (append_field s (dated y m d c) z (chr "s")) with
        (let? s := append0_int s (ss c) 2 in append0_int (s ++ str ".") (milli c * 1000 + micro c) 6).
      rewrite WS. cbn [rbind]. rewrite (WF _ : append0_int _ _ 6 = _), <- !app_assoc. done. }
    apply (writes_field _ _ (chr "z")); [exact Wz|]. apply writes_end.
  - apply (reads_number 4 _ year set_year _ _ [] tY y); [apply into_year|lia|done|done|constructor|].
    apply reads_lit; [done|done|].
    apply (reads_number 2 _ month set_month _ _ [chr "-"] tM m); [apply into_month|lia|done|done|junk_char|].
    apply reads_lit; [done|done|].
    apply (reads_number 2 _ day set_day _ _ [chr "-"] tD d); [apply into_day|lia|done|done|junk_char|].
    apply reads_lit; [done|done|].
    apply (reads_number 2 _ hour set_hour _ _ [chr "T"] tH (hh c)); [apply into_hour|lia|done|done|junk_char|].
    apply reads_lit; [done|done|].
    apply (reads_number 2 _ minute set_minute _ _ [chr ":"] tI (mm c)); [apply into_minute|lia|done|done|junk_char|].
    apply reads_lit; [done|done|].
    apply (reads_fraction _ _ [chr ":"] tS (ss c) tF (milli c) (micro c) tz); [done|done|done|done|done|lia|done|junk_char|].
    eapply reads_field; [done| |apply reads_end].
    change (parse_field (chr "z") ?f tz) with (let? r := parseTZD tz in Done (set_tzd (fst r) f, snd r)). by rewrite Pz.
Qed.
End texts.

(** ** Guessing the format *)
Definition plain (c : Z) : Prop := c <> chr "," /\ c <> chr " ".

Lemma is_num_plain t : Forall is_num t -> Forall plain t.
Proof. intros H. eapply Forall_impl; [exact H|]. intros c Hc. unfold is_num, plain, chr in *. cbn. lia. Qed.

Lemma find_char_absent s c : Forall (fun x => x <> c) s -> Str.find_char s c = None.
Proof. induction 1 as [|x s Hx _ IH]; cbn; [done|]. by rewrite (proj2 (Z.eqb_neq x c)), IH. Qed.

Lemma contains_false s c : Forall (fun x => x <> c) s -> contains s c = false.
Proof. unfold contains. induction 1 as [|x s Hx _ IH]; cbn [existsb]; [done|]. rewrite IH, orb_false_r. apply Z.eqb_neq. congruence. Qed.

Lemma contains_app a c b : contains (a ++ c :: b) c = true.
Proof. unfold contains. rewrite existsb_app. cbn. by rewrite Z.eqb_refl, orb_true_r. Qed.

Lemma zone_plain z t : zone_text (str ":") (str "Z") z t -> Forall plain t.
Proof.
  unfold zone_text. destruct (z =? UTC); [intros ->; by repeat constructor|]. intros (th & tm & -> & (_ & Dh & _) & (_ & Dm & _)).
  constructor; [by destruct (0 <=? z)|]. apply Forall_app. split; [by apply is_num_plain|]. constructor; [done|]. by apply is_num_plain.
Qed.

Lemma guess_frac tY s y : numeral 4 y tY -> Forall plain s -> contains s (chr ".") = true -> (10 < length (tY ++ s))%nat ->
  guess (tY ++ s) = tryParse ISO8601_FRAC_FORMAT (tY ++ s).
Proof.
  intros (Hl & Hd & _) Hs Hdot Hlen.
  assert (Forall plain (tY ++ s)) as Hp by (apply Forall_app; split; [by apply is_num_plain|done]).
  assert (Str.find_char (tY ++ s) (chr ",") = None) as E1 by (apply find_char_absent; eapply Forall_impl; [exact Hp|by intros ? []]).
  assert (contains (tY ++ s) (chr " ") = false) as E2 by (apply contains_false; eapply Forall_impl; [exact Hp|by intros ? []]).
  assert (contains (tY ++ s) (chr ".") = true) as E3 by (unfold contains in *; by rewrite existsb_app, Hdot, orb_true_r).
  unfold guess. rewrite E1, E2, E3. rewrite (proj2 (Nat.ltb_ge _ 4)), (proj2 (Nat.eqb_neq _ 10)) by lia.
  destruct tY as [|a [|b [|e [|g []]]]]; try done. clear E1 E2 E3 Hlen Hp. inv_Forall. cbn [nth app] in *.
  rewrite (proj2 (Z.eqb_neq g (chr ","))), (proj2 (Z.eqb_neq g (chr " "))) by (unfold is_num, chr in *; cbn; lia).
  by rewrite is_num_digit.
Qed.

(** C7: a date and time with its zone, written in the ISO 8601 format with
    fractions, is read back by the parser that has to find out the format:
    the same date and time to the microsecond, and the same zone. *)
Theorem iso8601_roundtrip y m d c z : 0 <= y <= 9999 -> valid y m d -> daytime_ok c -> tzd_ok z ->
  exists s, format (dated y m d c) ISO8601_FRAC_FORMAT z = Done s /\ parse_any s = Done (dated y m d c, zone_of z).
Proof.
  intros Hy Hv Hc Hz. destruct (iso_frac_text y m d c z Hy Hv Hc Hz)
    as (tY & tM & tD & tH & tI & tS & tF & tz & Hw & Hr & NY & NM & ND & NH & NI & NS & NF & Nz).
  eexists. split; [exact Hw|]. unfold parse_any, iso_text in *. rewrite (guess_frac tY _ y NY).
  - unfold tryParse. by rewrite (parse_done y m d c Hy Hv Hc _ _ _ Hr).
  - destruct NM as (_ & DM & _), ND as (_ & DD & _), NH as (_ & DH & _), NI as (_ & DI & _), NS as (_ & DS & _), NF as (_ & DF & _).
    pose proof (zone_plain z tz Nz).
    repeat (first [apply Forall_cons; split; [done|] | apply Forall_app; split; [by apply is_num_plain|] ]). done.
  - rewrite !app_comm_cons, !app_assoc. rewrite <- (app_assoc _ (chr "." :: tF)). apply contains_app.
  - destruct NY as (LY & _), NM as (LM & _), ND as (LD & _), NH as (LH & _). rewrite !length_app. cbn [length].
    rewrite !length_app. cbn [length]. rewrite !length_app. cbn [length]. rewrite !length_app, LY, LM, LD, LH. lia.
Qed.

(** ** The format of HTTP *)

(** Characters that need no quotes in a header field, and texts that neither
    begin nor end with a blank. *)
Definition clean (c : Z) : Prop := c <> 34 /\ c <> 92 /\ c <> chr ";".
Definition tidy (s : list Z) : Prop :=
  Forall clean s /\ (exists a r, s = a :: r /\ Ascii.isSpace a = false) /\ exists r b, s = r ++ [b] /\ Ascii.isSpace b = false.

Lemma is_num_clean t : Forall is_num t -> Forall clean t.
Proof. intros H. eapply Forall_impl; [exact H|]. intros c Hc. unfold is_num, clean, chr in *. cbn. lia. Qed.

Lemma weekday_text w : 0 <= w <= 6 -> exists a b e, (forall n, name_at WEEKDAY_NAMES w = Done n -> take 3 n = [a; b; e])
  /\ (exists n, name_at WEEKDAY_NAMES w = Done n)
  /\ (forall f rest, parse_field (chr "w") f (a :: b :: e :: chr "," :: rest) = Done (f, chr "," :: rest))
  /\ Forall clean [a; b; e] /\ Ascii.isSpace a = false.
Proof.
  intros Hw. assert (w = 0 \/ w = 1 \/ w = 2 \/ w = 3 \/ w = 4 \/ w = 5 \/ w = 6) as Hc by lia.
  destruct_or! Hc; subst w; eexists _, _, _; (split; [intros n [= <-]; vm_compute; reflexivity|]);
    (split; [by eexists|]); (split; [intros f rest; vm_compute; reflexivity|split; [by repeat constructor|done]]).
Qed.

Lemma month_text m : 1 <= m <= 12 -> exists n, name_at MONTH_NAMES (m - 1) = Done n
  /\ (forall rest, parseMonth (chr " " :: take 3 n ++ chr " " :: rest) = Done (m, chr " " :: rest)) /\ Forall clean (take 3 n).
Proof.
  intros Hm. apply month_cases in Hm. destruct_or! Hm; subst m; eexists; (split; [reflexivity|]);
    (split; [intros rest; vm_compute; reflexivity|by repeat constructor]).
Qed.

(** The time in whole seconds. *)
Definition whole (c : daytime) : daytime := clock (hh c) (mm c) (ss c) 0 0.

Section http.
Context (y m d : Z) (c : daytime) (z : Z).
Hypotheses (Hy : 0 <= y <= 9999) (Hv : valid y m d) (Hc : daytime_ok c) (Hz : tzd_ok z).
Hypotheses (Hreform : REFORM <= day_no y m d) (Hl : ticks c <= DAY - 1024).

Definition http_text (tw tD tB tY tH tI tS tz : list Z) : list Z :=
  tw ++ chr "," :: chr " " :: tD ++ chr " " :: tB ++ chr " " :: tY ++ chr " " :: tH ++ chr ":" :: tI ++ chr ":" :: tS ++ chr " " :: tz.

Lemma reform_year : 1000 <= y.
Proof using Hy Hv Hreform.
  destruct (march_valid y m d Hv) as (HD & _). unfold REFORM, day_no, before_year, march_year in *. destruct (m <? 3); lia.
Qed.

Lemma http_weekday : exists a b e, (forall s, append_field s (dated y m d c) z (chr "w") = Done (s ++ [a; b; e]))
  /\ (forall f rest, parse_field (chr "w") f (a :: b :: e :: chr "," :: rest) = Done (f, chr "," :: rest))
  /\ Forall clean [a; b; e] /\ Ascii.isSpace a = false.
Proof using All.
  destruct (weekday_text (weekday (day_no y m d))) as (a & b & e & Ha & [n En] & Hp); [unfold weekday; lia|].
  exists a, b, e. split; [|exact Hp]. intros s. change (append_field s (dated y m d c) z (chr "w")) with
    (let? w := dayOfWeek (dated y m d c) in let? n := name_at WEEKDAY_NAMES w in Done (s ++ take 3 n)).
  unfold dated. rewrite dayOfWeek_ok by done. cbn [rbind]. rewrite En. cbn [rbind]. by rewrite (Ha n En).
Qed.

Lemma http_reads a b e tD tB tY tH tI tS tz :
  (forall f rest, parse_field (chr "w") f (a :: b :: e :: chr "," :: rest) = Done (f, chr "," :: rest)) ->
  (forall rest, parseMonth (chr " " :: tB ++ chr " " :: rest) = Done (m, chr " " :: rest)) ->
  numeral 2 d tD -> numeral 4 y tY -> numeral 2 (hh c) tH -> numeral 2 (mm c) tI -> numeral 2 (ss c) tS ->
  zone_text [] (str "GMT") z tz ->
  reads (str "%w, %e %b %r %H:%M:%S %Z") start (http_text [a; b; e] tD tB tY tH tI tS tz) (all_fields y m d (whole c) (zone_of z)).
Proof using All.
  intros Hw Hb ND NY NH NI NS Nz. destruct (parse_zone z tz _ _ Hz (or_intror (conj eq_refl eq_refl)) Nz) as (Pz & Dz & Ez).
  pose proof reform_year. unfold http_text. cbn [app].
  eapply (reads_field (chr "w")); [done|apply Hw|]. apply reads_lit; [done|done|]. apply reads_lit; [done|done|].
  apply (reads_number 2 _ day set_day _ _ [chr ","; chr " "] tD d); [apply into_day_e|lia|done|done|repeat constructor|].
  apply reads_lit; [done|done|].
  eapply (reads_field (chr "b")); [done| |].
  { match goal with |- parse_field _ ?f ?it = _ =>
      change (parse_field (chr "b") f it) with (let? r := parseMonth it in Done (set_month (fst r) f, snd r)) end. by rewrite Hb. }
  apply reads_lit; [done|done|].
  apply (reads_year_r _ _ [chr " "] tY y); [done|done|done|done|repeat constructor|].
  apply reads_lit; [done|done|].
  apply (reads_number 2 _ hour set_hour _ _ [chr " "] tH (hh c)); [apply into_hour|lia|done|done|repeat constructor|].
  apply reads_lit; [done|done|].
  apply (reads_number 2 _ minute set_minute _ _ [chr ":"] tI (mm c)); [apply into_minute|lia|done|done|repeat constructor|].
  apply reads_lit; [done|done|].
  apply (reads_number 2 _ second set_second _ _ [chr ":"] tS (ss c)); [apply into_second|lia|done|done|repeat constructor|].
  apply reads_lit; [done|done|].
  eapply (reads_field (chr "Z")); [done| |apply reads_end].
  match goal with |- parse_field _ ?f ?it = _ =>
    change (parse_field (chr "Z") f it) with (let? r := parseTZD it in Done (set_tzd (fst r) f, snd r)) end.
  by rewrite skip_space_parse, Pz.
Qed.

Lemma http_writes a b e tD tB tY tH tI tS tz n :
  (forall s, append_field s (dated y m d c) z (chr "w") = Done (s ++ [a; b; e])) -> name_at MONTH_NAMES (m - 1) = Done n -> tB = take 3 n ->
  (forall s, append0_int s d 2 = Done (s ++ tD)) -> (forall s, append0_int s y 4 = Done (s ++ tY)) ->
  (forall s, append0_int s (hh c) 2 = Done (s ++ tH)) -> (forall s, append0_int s (mm c) 2 = Done (s ++ tI)) ->
  (forall s, append0_int s (ss c) 2 = Done (s ++ tS)) -> (forall s, tzdRFC s z = Done (s ++ tz)) ->
  writes (dated y m d c) z HTTP_FORMAT (http_text [a; b; e] tD tB tY tH tI tS tz).
Proof using.
  intros Ww En -> WD WY WH WI WS Wz.
  unfold http_text. apply (writes_field _ _ (chr "w")); [exact Ww|]. do 2 (apply writes_lit; [done|]).
  apply (writes_field _ _ (chr "d")); [exact WD|]. apply writes_lit; [done|].
  apply (writes_field _ _ (chr "b")).
  { intros s. change (append_field s (dated y m d c) z (chr "b")) with
      (let? n := name_at MONTH_NAMES (m - 1) in Done (s ++ take 3 n)). by rewrite En. }
  apply writes_lit; [done|]. apply (writes_field _ _ (chr "Y")); [exact WY|]. apply writes_lit; [done|].
  apply (writes_field _ _ (chr "H")); [exact WH|]. apply writes_lit; [done|].
  apply (writes_field _ _ (chr "M")); [exact WI|]. apply writes_lit; [done|].
  apply (writes_field _ _ (chr "S")); [exact WS|]. apply writes_lit; [done|].
  rewrite <- (app_nil_r tz). apply (writes_field _ _ (chr "Z")); [exact Wz|]. apply writes_end.
Qed.

Lemma http_tidy a b e tD tB tY tH tI tS : Forall clean [a; b; e] -> Ascii.isSpace a = false -> Forall clean tB ->
  Forall is_num tD -> Forall is_num tY -> Forall is_num tH -> Forall is_num tI -> Forall is_num tS ->
  tidy (http_text [a; b; e] tD tB tY tH tI tS (str "GMT")).
Proof using.
  intros Hw Ha HB HD HY HH HI HS. split; [|split].
  - unfold http_text. repeat (first [apply Forall_cons; split; [done|] | apply Forall_app; split; [by first [done|apply is_num_clean]|] ]). by repeat constructor.
  - by eexists _, _.
  - exists (http_text [a; b; e] tD tB tY tH tI tS (str "GM")), (chr "T"). split; [|done]. unfold http_text.
    rewrite <- !app_assoc. do 3 f_equal. cbn [app]. by rewrite <- !app_assoc; cbn [app]; repeat (rewrite <- !app_assoc; cbn [app]).
Qed.

Lemma http_date_ok : exists s, (forall t, append t (dated y m d c) HTTP_FORMAT z = Done (t ++ s))
  /\ parse_any s = Done (dated y m d (whole c), zone_of z) /\ (z = UTC -> tidy s).
Proof using All.
  destruct (number_texts y m d c Hy Hv Hc) as (tY & tM & tD & tH & tI & tS & (NY & WY) & _ & (ND & WD) & (NH & WH) & (NI & WI) & (NS & WS)).
  destruct http_weekday as (a & b & e & Ww & Pw & Cw & Sa).
  destruct (month_text m (proj1 Hv)) as (n & En & Pn & Cn). destruct (tzdRFC_text z Hz) as (tz & Wz & Nz).
  exists (http_text [a; b; e] tD (take 3 n) tY tH tI tS tz). split; [|split].
  - intros t. by rewrite (writes_append _ _ _ _ (http_writes a b e tD (take 3 n) tY tH tI tS tz n Ww En eq_refl WD WY WH WI WS Wz)).
  - pose proof (http_reads a b e tD (take 3 n) tY tH tI tS tz Pw Pn ND NY NH NI NS Nz) as Hrd.
    assert (daytime_ok (whole c)) as Hw by (unfold daytime_ok, whole in *; cbn; lia).
    unfold parse_any. change (guess (http_text [a; b; e] tD (take 3 n) tY tH tI tS tz)) with
      (tryParse (str "%w, %e %b %r %H:%M:%S %Z") (http_text [a; b; e] tD (take 3 n) tY tH tI tS tz)).
    unfold tryParse. by rewrite (parse_done y m d (whole c) Hy Hv Hw _ _ _ Hrd).
  - intros ->. unfold zone_text in Nz. change (UTC =? UTC) with true in Nz. cbv iota in Nz. subst tz.
    apply http_tidy; try done; [apply ND|apply NY|apply NH|apply NI|apply NS].
Qed.
End http.

(** A date of HTTP, written with HTTP_FORMAT, is read back in whole seconds
    by the parser that has to find out the format, for dates since the calendar
    reform: day of the week, month name and zone included. *)
Theorem http_date_roundtrip y m d c z : 0 <= y <= 9999 -> valid y m d -> daytime_ok c -> tzd_ok z ->
  REFORM <= day_no y m d -> ticks c <= DAY - 1024 ->
  exists s, format (dated y m d c) HTTP_FORMAT z = Done s /\ parse_any s = Done (dated y m d (whole c), zone_of z).
Proof. intros H1 H2 H3 H4 H5 H6. destruct (http_date_ok y m d c z H1 H2 H3 H4 H5 H6) as (s & E1 & E2 & _). exists s. split; [apply (E1 [])|done]. Qed.

Lemma iso8601_roundtrip_witness : exists s, format (dated 2014 2 28 (clock 23 59 59 999 999)) ISO8601_FRAC_FORMAT (-5400) = Done s
  /\ parse_any s = Done (dated 2014 2 28 (clock 23 59 59 999 999), -5400).
Proof.
  apply (iso8601_roundtrip 2014 2 28 (clock 23 59 59 999 999) (-5400)).
  - lia.
  - by_valid.
  - unfold daytime_ok. cbn. lia.
  - right. split; [lia|reflexivity].
Defined.

Lemma http_date_roundtrip_witness : exists s, format (dated 1994 11 6 (clock 8 49 37 0 0)) HTTP_FORMAT UTC = Done s
  /\ parse_any s = Done (dated 1994 11 6 (clock 8 49 37 0 0), 0).
Proof.
  apply (http_date_roundtrip 1994 11 6 (clock 8 49 37 0 0) UTC).
  - lia.
  - by_valid.
  - unfold daytime_ok. cbn. lia.
  - by left.
  - vm_compute. discriminate.
  - vm_compute. discriminate.
Defined.

(** ** What the parser does not check *)

(** A year of too many digits overflows: [%r] reads them all into an [int]. *)
Example year_overflow : guess (str "Sun, 06 Nov 19940000000 08:49:37 GMT") = UB.
Proof. vm_compute. reflexivity. Qed.

(** The characters of the format between the fields need not be in the text. *)
Example separators_ignored : parse_loop ISO8601_FORMAT start (str "2014x05!!13 16abc53 20Z")
  = parse_loop ISO8601_FORMAT start (str "2014-05-13T16:53:20Z").
Proof. vm_compute. reflexivity. Qed.

(** A text that ends early leaves the rest at the first of January, midnight. *)
Example short_text : parse_loop ISO8601_FORMAT start (str "2014")
  = Done {| year := 2014; month := 0; day := 0; hour := 0; minute := 0; second := 0; millis := 0; micros := 0; tzd := 0 |}.
Proof. vm_compute. reflexivity. Qed.
