(* ===== verification/Cookie.v ===== *)
(** HTTP cookies and the date of a response: HTTPCookie.cpp and the members of
    HTTPResponse.cpp that use dates and cookies.

    The clock is a function: [now k] is what the [k]-th [Timestamp] that is
    made without an argument holds. *)

From S2P Require Import Prelude Strings NumericString Uri Headers Http Float DateTime DateTimeText.
From stdpp Require Import list.

Open Scope res_scope.
Local Open Scope Z_scope.

(** ** HTTPCookie *)
Module HTTPCookie.

Record HTTPCookie_ := {
  _version : Z; _name : list Z; _value : list Z; _comment : list Z; _domain : list Z; _path : list Z;
  _secure : bool; _maxAge : Z; _httpOnly : bool
}.

Definition construct_value (name value : list Z) : HTTPCookie_ :=
  {| _version := 0; _name := name; _value := value; _comment := []; _domain := []; _path := []; _secure := false;
     _maxAge := -1; _httpOnly := false |}.
Definition construct_name (name : list Z) : HTTPCookie_ := construct_value name [].
Definition construct : HTTPCookie_ := construct_value [] [].

Definition setVersion (version : Z) (c : HTTPCookie_) : HTTPCookie_ :=
  {| _version := version; _name := _name c; _value := _value c; _comment := _comment c; _domain := _domain c;
     _path := _path c; _secure := _secure c; _maxAge := _maxAge c; _httpOnly := _httpOnly c |}.
Definition setName (name : list Z) (c : HTTPCookie_) : HTTPCookie_ :=
  {| _version := _version c; _name := name; _value := _value c; _comment := _comment c; _domain := _domain c;
     _path := _path c; _secure := _secure c; _maxAge := _maxAge c; _httpOnly := _httpOnly c |}.
Definition setValue (value : list Z) (c : HTTPCookie_) : HTTPCookie_ :=
  {| _version := _version c; _name := _name c; _value := value; _comment := _comment c; _domain := _domain c;
     _path := _path c; _secure := _secure c; _maxAge := _maxAge c; _httpOnly := _httpOnly c |}.
Definition setComment (comment : list Z) (c : HTTPCookie_) : HTTPCookie_ :=
  {| _version := _version c; _name := _name c; _value := _value c; _comment := comment; _domain := _domain c;
     _path := _path c; _secure := _secure c; _maxAge := _maxAge c; _httpOnly := _httpOnly c |}.
Definition setDomain (domain : list Z) (c : HTTPCookie_) : HTTPCookie_ :=
  {| _version := _version c; _name := _name c; _value := _value c; _comment := _comment c; _domain := domain;
     _path := _path c; _secure := _secure c; _maxAge := _maxAge c; _httpOnly := _httpOnly c |}.
Definition setPath (path : list Z) (c : HTTPCookie_) : HTTPCookie_ :=
  {| _version := _version c; _name := _name c; _value := _value c; _comment := _comment c; _domain := _domain c;
     _path := path; _secure := _secure c; _maxAge := _maxAge c; _httpOnly := _httpOnly c |}.
Definition setSecure (secure : bool) (c : HTTPCookie_) : HTTPCookie_ :=
  {| _version := _version c; _name := _name c; _value := _value c; _comment := _comment c; _domain := _domain c;
     _path := _path c; _secure := secure; _maxAge := _maxAge c; _httpOnly := _httpOnly c |}.
Definition setMaxAge (maxAge : Z) (c : HTTPCookie_) : HTTPCookie_ :=
  {| _version := _version c; _name := _name c; _value := _value c; _comment := _comment c; _domain := _domain c;
     _path := _path c; _secure := _secure c; _maxAge := maxAge; _httpOnly := _httpOnly c |}.
Definition setHttpOnly (flag : bool) (c : HTTPCookie_) : HTTPCookie_ :=
  {| _version := _version c; _name := _name c; _value := _value c; _comment := _comment c; _domain := _domain c;
     _path := _path c; _secure := _secure c; _maxAge := _maxAge c; _httpOnly := flag |}.

Definition is_name (name attribute : list Z) : bool := Str.icompare name attribute =? 0.

(** [setMaxAge((int) ((exp.timestamp() - now) / Timestamp::resolution()))] *)
Definition age (value : list Z) (now : Z) : res Z :=
  let? exp := DateTimeParser.parse_any value in
  let? ts := DateTime.timestamp (fst exp) in
  let? diff := Timestamp.difference ts now in
  Done (as_int (Z.quot diff Timestamp.resolution)).

(** The loop of the constructor from a collection; the [k]-th clock reading is next. *)
Fixpoint attributes (now : nat -> Z) (k : nat) (nvc : NameValueCollection.collection) (c : HTTPCookie_) : res (HTTPCookie_ * nat) :=
  match nvc with
  | [] => Done (c, k)
  | (name, value) :: nvc =>
      if is_name name (str "comment") then attributes now k nvc (setComment value c)
      else if is_name name (str "domain") then attributes now k nvc (setDomain value c)
      else if is_name name (str "path") then attributes now k nvc (setPath value c)
      else if is_name name (str "max-age") then
        let? n := Parser.parse value (chr ",") in attributes now k nvc (setMaxAge n c)
      else if is_name name (str "secure") then attributes now k nvc (setSecure true c)
      else if is_name name (str "expires") then
        let? n := age value (now k) in attributes now (S k) nvc (setMaxAge n c)
      else if is_name name (str "version") then
        let? n := Parser.parse value (chr ",") in attributes now k nvc (setVersion n c)
      else if is_name name (str "HttpOnly") then attributes now k nvc (setHttpOnly true c)
      else attributes now k nvc (setValue value (setName name c))
  end.
Definition of_collection (now : nat -> Z) (k : nat) (nvc : NameValueCollection.collection) : res (HTTPCookie_ * nat) :=
  attributes now k nvc construct.

(** The parts of [toString]. *)
Definition attribute (label value : list Z) : list Z := match value with [] => [] | _ => label ++ value end.
Definition quoted_attribute (label value : list Z) : list Z :=
  match value with [] => [] | _ => label ++ [34] ++ value ++ [34] end.
Definition flags (c : HTTPCookie_) : list Z :=
  (if _secure c then str "; secure" else []) ++ (if _httpOnly c then str "; HttpOnly" else []).

Definition toString (now : Z) (c : HTTPCookie_) : res (list Z) :=
  let result := _name c ++ str "=" in
  if _version c =? 0 then
    let result := result ++ _value c ++ attribute (str "; domain=") (_domain c) ++ attribute (str "; path=") (_path c) in
    let? result :=
      if negb (_maxAge c =? -1) then
        let? span := arith Int64 (_maxAge c * Timestamp.resolution) in
        let? ts := Timestamp.plus now span in
        let? d := DateTime.of_timestamp ts in
        DateTimeFormatter.append (result ++ str "; expires=") d DateTimeFormat.HTTP_FORMAT DateTimeFormatter.UTC
      else Done result in
    Done (result ++ flags c)
  else
    let result := result ++ [34] ++ _value c ++ [34] ++ quoted_attribute (str "; Comment=") (_comment c)
      ++ quoted_attribute (str "; Domain=") (_domain c) ++ quoted_attribute (str "; Path=") (_path c) in
    let? result :=
      if negb (_maxAge c =? -1) then
        let? result := Formatter.append_int (result ++ str "; Max-Age=" ++ [34]) (_maxAge c) in Done (result ++ [34])
      else Done result in
    Done (result ++ flags c ++ str "; Version=" ++ [34; chr "1"; 34]).

Definition ILLEGAL_CHARS : list Z := str "()[]/|" ++ [92] ++ str "',;".
Definition escape (s : list Z) : res (list Z) := encode s ILLEGAL_CHARS [].
Definition unescape (s : list Z) : res (list Z) :=
  let (r, out) := decode s false [] in let? _tt := r in Done out.
End HTTPCookie.

(** ** The date and the cookies of a response *)
Module ResponseDates.
Import HTTPMessage HTTPResponse.

Definition DATE : list Z := str "Date".
Definition SET_COOKIE : list Z := str "Set-Cookie".

Definition fields (q : HTTPResponse_) : NameValueCollection.collection := MessageHeader._map (header (message q)).

Definition setDate (dateTime : Z) (q : HTTPResponse_) : res HTTPResponse_ :=
  let? d := DateTime.of_timestamp dateTime in
  let? s := DateTimeFormatter.format d DateTimeFormat.HTTP_FORMAT DateTimeFormatter.UTC in
  Done (on_message (set DATE s) q).

Definition getDate (q : HTTPResponse_) : res Z :=
  let? dateTime := NameValueCollection.get DATE (fields q) in
  let? d := DateTimeParser.parse_any dateTime in
  DateTime.timestamp (fst d).

Definition addCookie (now : Z) (cookie : HTTPCookie.HTTPCookie_) (q : HTTPResponse_) : res HTTPResponse_ :=
  let? s := HTTPCookie.toString now cookie in
  Done (on_message (add SET_COOKIE s) q).

Fixpoint cookies_loop (now : nat -> Z) (k : nat) (l : NameValueCollection.collection) (cookies : list HTTPCookie.HTTPCookie_) :
    res (list HTTPCookie.HTTPCookie_) :=
  match l with
  | [] => Done cookies
  | e :: l =>
      if Str.icompare (fst e) SET_COOKIE =? 0 then
        let? nvc := MessageHeader.splitParameters_range (snd e) [] in
        let? ck := HTTPCookie.of_collection now k nvc in
        cookies_loop now (snd ck) l (cookies ++ [fst ck])
      else Done cookies
  end.

Definition getCookies (now : nat -> Z) (q : HTTPResponse_) : res (list HTTPCookie.HTTPCookie_) :=
  match ListMap.find SET_COOKIE (fields q) with
  | None => Done []
  | Some i => cookies_loop now 0 (drop i (fields q)) []
  end.
End ResponseDates.
