(* ===== verification/CookieFacts.v ===== *)
(** Cookies as text: the parts of a cookie's text, the cookies of both versions
    as their parts, and the timestamps that a date of HTTP can carry. *)

From S2P Require Import Prelude Strings NumericString Uri Headers HeadersFacts Http HttpFacts UriFacts Float DateTime DateTimeFacts DateTimeClaims DateTimeText DateTimeTextFacts Cookie.
From stdpp Require Import list.
Import ListMap HTTPCookie MessageHeader Calendar.

Open Scope res_scope.
Local Open Scope Z_scope.

(** ** The parts of a cookie *)
Inductive part := Raw (name value : list Z) | Quoted (name value : list Z) | Flag (name : list Z).

Definition part_name (p : part) : list Z := match p with Raw n _ | Quoted n _ | Flag n => n end.
Definition part_value (p : part) : list Z := match p with Raw _ v | Quoted _ v => v | Flag _ => [] end.
Definition entry (p : part) : list Z * list Z := (part_name p, part_value p).

Definition part_text (p : part) : list Z :=
  match p with
  | Raw n v => n ++ chr "=" :: v
  | Quoted n v => n ++ chr "=" :: 34 :: v ++ [34]
  | Flag n => n
  end.

(** What follows the first part. *)
Definition more_text (ps : list part) : list Z := concat (map (fun p => str "; " ++ part_text p) ps).

Definition trimmed (s : list Z) : Prop := Str.trimRightInPlace s = s.
Definition starts (s : list Z) : Prop := match s with c :: _ => Ascii.isSpace c = false | [] => True end.

Record part_ok (p : part) : Prop := {
  po_name : avoids (str "=;") (part_name p) = true;
  po_ne : part_name p <> [];
  po_start : starts (part_name p);
  po_trim : trimmed (part_name p);
  po_value : match p with
             | Raw _ v => Forall (fun c => c <> 34 /\ c <> 92 /\ c <> chr ";") v /\ starts v
             | Quoted _ v => Forall (fun c => c <> 34 /\ c <> 92) v
             | Flag _ => True
             end;
  po_value_trim : trimmed (part_value p)
}.

Definition rest_ok (r : list Z) : Prop := r = [] \/ exists r', r = chr ";" :: r'.

Lemma skip_start s r : starts s -> s <> [] -> snd (span Ascii.isSpace (s ++ r)) = s ++ r.
Proof. destruct s as [|c s]; [done|]. intros Hs _. cbn in *. by rewrite Hs. Qed.

Lemma skip_rest r : rest_ok r -> snd (span Ascii.isSpace r) = r.
Proof. intros [->|(r' & ->)]; done. Qed.

(** One round of the loop of [splitParameters]. *)
Lemma value_run p r : part_ok p -> rest_ok r -> exists it,
  (let (pname, it) := span (not_in (str "=;")) (part_text p ++ r) in
   let it := match it with c :: r => if c =? chr ";" then it else r | [] => [] end in (pname, snd (span Ascii.isSpace it))) = (part_name p, it)
  /\ param_value (length it) it [] = Done (part_value p, r) /\ (length it <= length (part_text p ++ r))%nat.
Proof.
  intros [Hn Hne Hs _ Hv _] Hr. destruct p as [n v|n v|n]; cbn [part_text part_name part_value] in *.
  - exists (v ++ r). rewrite <- app_assoc. cbn [app]. rewrite (span_avoids (str "=;") n (chr "=")) by done.
    change (chr "=" =? chr ";") with false. cbv iota zeta. destruct Hv as [Hv Hsv]. split_and!.
    + destruct v as [|c v]; [cbn [app]; by rewrite (skip_rest r)|by rewrite skip_start].
    + by apply (plain_run v r _ []).
    + rewrite ?length_app. cbn [length]. rewrite ?length_app. lia.
  - exists (34 :: v ++ 34 :: r). rewrite <- app_assoc. cbn [app]. rewrite <- app_assoc. cbn [app].
    rewrite (span_avoids (str "=;") n (chr "=")) by done. change (chr "=" =? chr ";") with false. cbv iota zeta. split_and!.
    + done.
    + cbn [length param_value]. change (34 =? chr ";") with false. change (34 =? 34) with true. cbv iota.
      rewrite quoted_run by done. cbn [tail app]. rewrite (plain_run [] r _ v); [by rewrite app_nil_r|done| |done].
      cbn [app]. rewrite length_app. cbn [length]. lia.
    + rewrite ?length_app. cbn [length]. rewrite ?length_app. cbn [length]. lia.
  - exists r. destruct Hr as [->|(r' & ->)].
    + rewrite app_nil_r, span_avoids_all by done. cbn. split_and!; [done|done|lia].
    + rewrite (span_avoids (str "=;") n (chr ";")) by done. change (chr ";" =? chr ";") with true. cbv iota. split_and!; [done|done|].
      rewrite length_app. lia.
Qed.

Lemma part_run fuel sp p r m : part_ok p -> rest_ok r -> sp = [] \/ sp = [32] ->
  param_loop (S fuel) (sp ++ part_text p ++ r) m = param_loop fuel (tail r) (NameValueCollection.add (part_name p) (part_value p) m).
Proof.
  intros Hp Hr Hsp. destruct (value_run p r Hp Hr) as (it & E & Ev & _). destruct Hp as [Hn Hne Hs Ht _ Hvt].
  assert (starts (part_text p) /\ part_text p <> []) as [Hst Htne] by (by destruct p as [[]|[]|[]]).
  assert (snd (span Ascii.isSpace (sp ++ part_text p ++ r)) = part_text p ++ r) as Esp.
  { destruct Hsp as [->| ->]; cbn [app]; [by apply skip_start|]. cbn [span]. change (Ascii.isSpace 32) with true. cbv iota.
    pose proof (skip_start (part_text p) r Hst Htne) as E'. by destruct (span Ascii.isSpace (part_text p ++ r)). }
  destruct (sp ++ part_text p ++ r) as [|c0 t0] eqn:E0; [by destruct Hsp as [->| ->], (part_text p)|].
  cbn [param_loop]. rewrite Esp. destruct (span (not_in (str "=;")) (part_text p ++ r)) as [pname it0]. injection E as -> E.
  rewrite E, Ev. cbn [rbind fst snd]. rewrite Ht, Hvt. by destruct (part_name p).
Qed.

Lemma more_ok ps : rest_ok (more_text ps).
Proof. destruct ps as [|p ps]; [by left|]. right. eexists. reflexivity. Qed.

Lemma more_tail p ps : tail (more_text (p :: ps)) = [32] ++ part_text p ++ more_text ps.
Proof. unfold more_text. cbn [map concat]. by rewrite <- app_assoc. Qed.

Lemma parts_run ps : forall fuel m, Forall part_ok ps -> (length (more_text ps) <= fuel)%nat ->
  param_loop fuel (tail (more_text ps)) m = Done (add_all m (entry <$> ps)).
Proof.
  induction ps as [|p ps IH]; intros fuel m Hps Hf; [by destruct fuel|]. apply Forall_cons in Hps as [Hp Hps].
  assert (length (more_text (p :: ps)) = S (S (length (part_text p ++ more_text ps)))) as El
    by (unfold more_text; cbn [map concat]; rewrite !length_app; change (length (str "; ")) with 2%nat; lia).
  destruct fuel as [|fuel]; [lia|]. rewrite more_tail, part_run by (done || apply more_ok || by right).
  rewrite IH; [done|done|]. rewrite El, length_app in Hf. lia.
Qed.

(** A cookie's text gives the entries of its parts. *)
Lemma split_parts p ps : part_ok p -> Forall part_ok ps ->
  splitParameters_range (part_text p ++ more_text ps) [] = Done (add_all [] (entry <$> p :: ps)).
Proof.
  intros Hp Hps. unfold splitParameters_range.
  destruct (length (part_text p ++ more_text ps)) as [|fuel] eqn:El.
  { exfalso. destruct Hp as [_ Hne _ _ _ _]. rewrite length_app in El. destruct p as [[]|[]|[]]; cbn in El; try lia; done. }
  pose proof (part_run fuel [] p (more_text ps) [] Hp (more_ok ps) (or_introl eq_refl)) as E. cbn [app] in E. rewrite E.
  rewrite parts_run; [done|done|]. rewrite length_app in El.
  assert (0 < length (part_text p))%nat; [|lia]. destruct Hp as [_ Hne _ _ _ _]. destruct p as [[]|[]|[]]; cbn in *; try lia; done.
Qed.

(** ** The cookies of RFC 2109 *)
Lemma trimmed_solid s : Forall (fun c => Ascii.isSpace c = false) s -> trimmed s.
Proof.
  intros Hs. unfold trimmed, Str.trimRightInPlace. destruct (length s) as [|n] eqn:El; [by destruct s|]. cbn [Str.last_nonspace].
  assert (Str.space_at s n = false) as ->.
  { unfold Str.space_at. destruct (s !! n) as [c|] eqn:E; [|done]. apply list_elem_of_lookup_2 in E. by apply (proj1 (Forall_forall _ _) Hs). }
  rewrite andb_false_r. apply take_ge. lia.
Qed.

(** The text of an age, which is read back. *)
Definition age_char (c : Z) : Prop := 45 <= c <= 57.

Lemma age_char_clean c : age_char c -> c <> 34 /\ c <> 92 /\ Ascii.isSpace c = false.
Proof. unfold age_char. intros H. split_and!; [lia|lia|]. rewrite Ascii.isSpace_spec; unfold is_byte; lia. Qed.

Lemma age_text v : - 2 ^ 31 < v < 2 ^ 31 -> exists t,
  (forall s, Formatter.append_int s v = Done (s ++ t)) /\ Parser.parse t (chr ",") = Done v /\ Forall age_char t.
Proof.
  intros Hv. destruct (intToStr_text 20 v 10 Formatter.NF_MAX_INT_STRING_LEN) as (ds & Hds & Hval & E);
    [lia|unfold MAX_DIGITS; lia|lia|unfold Formatter.NF_MAX_INT_STRING_LEN; lia|].
  eexists. split; [intros s; unfold Formatter.append_int, Formatter.appended; rewrite E; reflexivity|].
  assert (Forall age_char (rev (map digit_char ds))) as Ha.
  { destruct Hds as (Hd & _). destruct (digits_num ds Hd) as [Hn _]. eapply Forall_impl; [exact Hn|]. unfold is_num, age_char. intros; lia. }
  unfold Parser.parse, Parser.tryParse, Parser.NUM_BASE_DEC. destruct (v <? 0) eqn:Ev; cbn [app]; split.
  - rewrite strToInt_neg_digits by (done || (cbn; lia)). cbn. f_equal. lia.
  - constructor; [unfold age_char, chr; cbn; lia|done].
  - rewrite strToInt_digits by (done || (cbn; lia) || by left). cbn. f_equal. lia.
  - done.
Qed.

Definition opt_quoted (label value : list Z) : list part := match value with [] => [] | _ => [Quoted label value] end.
Definition flag_parts (c : HTTPCookie_) : list part :=
  (if _secure c then [Flag (str "secure")] else []) ++ (if _httpOnly c then [Flag (str "HttpOnly")] else []).

(** The parts behind the value, when [t] is the text of the age. *)
Definition parts1 (c : HTTPCookie_) (t : list Z) : list part :=
  opt_quoted (str "Comment") (_comment c) ++ opt_quoted (str "Domain") (_domain c) ++ opt_quoted (str "Path") (_path c)
  ++ (if _maxAge c =? -1 then [] else [Quoted (str "Max-Age") t]) ++ flag_parts c ++ [Quoted (str "Version") (str "1")].

Lemma more_text_app a b : more_text (a ++ b) = more_text a ++ more_text b.
Proof. unfold more_text. by rewrite map_app, concat_app. Qed.

Lemma quoted_attribute_text label v : quoted_attribute (str "; " ++ label ++ str "=") v = more_text (opt_quoted label v).
Proof.
  unfold quoted_attribute, opt_quoted. destruct v as [|x v]; [done|]. unfold more_text. cbn [map concat part_text].
  rewrite app_nil_r, <- !app_assoc. done.
Qed.

Lemma flags_text c : flags c = more_text (flag_parts c).
Proof. unfold flags, flag_parts. by destruct (_secure c), (_httpOnly c). Qed.

Lemma more_one p : more_text [p] = str "; " ++ part_text p.
Proof. unfold more_text. cbn [map concat]. by rewrite app_nil_r. Qed.

Lemma quoted_text n v : part_text (Quoted n v) = n ++ str "=" ++ [34] ++ v ++ [34].
Proof. done. Qed.

Lemma toString_parts1 now c t : _version c = 1 -> (forall s, Formatter.append_int s (_maxAge c) = Done (s ++ t)) ->
  toString now c = Done (part_text (Quoted (_name c) (_value c)) ++ more_text (parts1 c t)).
Proof.
  intros Hv Ht. unfold toString. rewrite Hv. cbn [Z.eqb]. cbv iota zeta.
  change (str "; Comment=") with (str "; " ++ str "Comment" ++ str "="). change (str "; Domain=") with (str "; " ++ str "Domain" ++ str "=").
  change (str "; Path=") with (str "; " ++ str "Path" ++ str "="). rewrite !quoted_attribute_text, flags_text.
  unfold parts1. rewrite !more_text_app, more_one, !quoted_text.
  destruct (_maxAge c =? -1); cbn [negb rbind].
  - change (more_text []) with (@nil Z). f_equal. rewrite <- !app_assoc. done.
  - rewrite Ht. cbn [rbind]. rewrite more_one, quoted_text. f_equal. rewrite <- !app_assoc. done.
Qed.

(** ** Reading the attributes *)
Definition ATTRIBUTES : list (list Z) :=
  [str "comment"; str "domain"; str "path"; str "max-age"; str "secure"; str "expires"; str "version"; str "HttpOnly"].
Definition own_name (n : list Z) : Prop := Forall (fun a => is_name n a = false) ATTRIBUTES.

Lemma attributes_app now a : forall k b c,
  attributes now k (a ++ b) c = let? r := attributes now k a c in attributes now (snd r) b (fst r).
Proof.
  induction a as [|[n v] a IH]; intros k b c; [done|]. cbn [app attributes].
  repeat match goal with |- context [if is_name n ?a then _ else _] => destruct (is_name n a) end; try apply IH.
  - by destruct (Parser.parse v _); cbn [rbind].
  - by destruct (age v (now k)); cbn [rbind].
  - by destruct (Parser.parse v _); cbn [rbind].
Qed.

Lemma attributes_own now k n v c : own_name n -> attributes now k [(n, v)] c = Done (setValue v (setName n c), k).
Proof.
  intros H. unfold own_name, ATTRIBUTES in H. inv_Forall. cbn [attributes].
  repeat match goal with H : is_name n ?a = false |- _ => rewrite H; clear H end. done.
Qed.

(** A quoted attribute that is not there leaves the empty text. *)
Lemma attributes_opt now k label v c set : (forall c, attributes now k [(label, v)] c = Done (set v c, k)) -> (v = [] -> set v c = c) ->
  attributes now k (entry <$> opt_quoted label v) c = Done (set v c, k).
Proof. intros H1 H2. destruct v; cbn; [by rewrite H2|]. apply H1. Qed.

Lemma attributes_flags now k c0 c : _secure c = false -> _httpOnly c = false ->
  attributes now k (entry <$> flag_parts c0) c = Done (setHttpOnly (_httpOnly c0) (setSecure (_secure c0) c), k).
Proof.
  intros H1 H2. unfold flag_parts. destruct (_secure c0), (_httpOnly c0), c; cbn in *; subst; done.
Qed.

Lemma attributes1 now k c t : own_name (_name c) -> _version c = 1 -> Parser.parse t (chr ",") = Done (_maxAge c) ->
  attributes now k (entry <$> Quoted (_name c) (_value c) :: parts1 c t) HTTPCookie.construct = Done (c, k).
Proof.
  intros Hn Hv Ht. unfold parts1. change (Quoted (_name c) (_value c) :: ?r) with ([Quoted (_name c) (_value c)] ++ r).
  rewrite !fmap_app, attributes_app. change (entry <$> [Quoted (_name c) (_value c)]) with [(_name c, _value c)].
  rewrite attributes_own by done. cbn [rbind fst snd].
  rewrite attributes_app, (attributes_opt now k (str "Comment") (_comment c) _ setComment); [|done|by intros ->]. cbn [rbind fst snd].
  rewrite attributes_app, (attributes_opt now k (str "Domain") (_domain c) _ setDomain); [|done|by intros ->]. cbn [rbind fst snd].
  rewrite attributes_app, (attributes_opt now k (str "Path") (_path c) _ setPath); [|done|by intros ->]. cbn [rbind fst snd].
  rewrite attributes_app.
  match goal with |- context [attributes now k (entry <$> (if _ then _ else _)) ?c1] => set (c1' := c1) end.
  assert (attributes now k (entry <$> (if _maxAge c =? -1 then [] else [Quoted (str "Max-Age") t])) c1' = Done (setMaxAge (_maxAge c) c1', k)) as ->.
  { destruct (Z.eqb_spec (_maxAge c) (-1)) as [->|]; [done|].
    change (attributes now k (entry <$> [Quoted (str "Max-Age") t]) c1') with
      (let? n := Parser.parse t (chr ",") in Done (setMaxAge n c1', k)). by rewrite Ht. }
  cbn [rbind fst snd]. rewrite attributes_app, attributes_flags by done. cbn [rbind fst snd].
  change (attributes now k (entry <$> [Quoted (str "Version") (str "1")]) ?c2) with (Done (setVersion 1 c2, k)).
  unfold c1'. destruct c; cbn in *; subst. done.
Qed.

(** ** A cookie comes back *)
Definition clean_value (v : list Z) : Prop := Forall (fun c => c <> 34 /\ c <> 92) v /\ trimmed v.

Record cookie1_ok (c : HTTPCookie_) : Prop := {
  co_version : _version c = 1;
  co_own : own_name (_name c);
  co_name : avoids (str "=;") (_name c) = true;
  co_ne : _name c <> [];
  co_start : starts (_name c);
  co_trim : trimmed (_name c);
  co_value : clean_value (_value c);
  co_comment : clean_value (_comment c);
  co_domain : clean_value (_domain c);
  co_path : clean_value (_path c);
  co_age : - 2 ^ 31 < _maxAge c < 2 ^ 31
}.

Definition LABELS : list (list Z) :=
  [str "Comment"; str "Domain"; str "Path"; str "Max-Age"; str "secure"; str "HttpOnly"; str "Version"].

Lemma label_part p : part_name p ∈ LABELS ->
  (match p with Raw _ _ => False | Quoted _ v => clean_value v | Flag _ => True end) -> part_ok p.
Proof.
  intros Hn Hv. assert (part_ok (Flag (part_name p))) as [H1 H2 H3 H4 _ _].
  { unfold LABELS in Hn. repeat (apply elem_of_cons in Hn as [->|Hn]; [by split|]). by apply elem_of_nil in Hn. }
  destruct p as [n v|n v|n]; [done|by split; [..|apply Hv|apply Hv]|by split].
Qed.

Lemma sublist_map {A B} (f : A -> B) l k : l `sublist_of` k -> f <$> l `sublist_of` f <$> k.
Proof. induction 1; cbn; by constructor. Qed.

Lemma opt_quoted_sub label v : part_name <$> opt_quoted label v `sublist_of` [label].
Proof. destruct v; cbn; [apply sublist_nil_l|done]. Qed.

Lemma parts1_labels c t : part_name <$> parts1 c t `sublist_of` LABELS.
Proof.
  unfold parts1, LABELS. rewrite !fmap_app.
  change [str "Comment"; str "Domain"; str "Path"; str "Max-Age"; str "secure"; str "HttpOnly"; str "Version"] with
    ([str "Comment"] ++ [str "Domain"] ++ [str "Path"] ++ [str "Max-Age"] ++ [str "secure"; str "HttpOnly"] ++ [str "Version"]).
  repeat apply sublist_app; try apply opt_quoted_sub.
  - destruct (_maxAge c =? -1); [apply sublist_nil_l|done].
  - unfold flag_parts. destruct (_secure c), (_httpOnly c); cbn; [done|by do 2 constructor|by do 2 constructor|apply sublist_nil_l].
  - done.
Qed.

Lemma parts1_ok c t : cookie1_ok c -> Forall age_char t -> Forall part_ok (parts1 c t).
Proof.
  intros Hc Ht. assert (clean_value t) as Htc.
  { split; [|apply trimmed_solid]; (eapply Forall_impl; [exact Ht|]); intros x Hx; apply age_char_clean in Hx; by destruct Hx as (?&?&?). }
  assert (forall p, p ∈ parts1 c t -> part_name p ∈ LABELS) as Hl.
  { intros p Hp. eapply elem_of_submseteq; [|apply sublist_submseteq, (parts1_labels c t)]. by apply list_elem_of_fmap_2. }
  assert (Forall (fun p => match p with Raw _ _ => False | Quoted _ v => clean_value v | Flag _ => True end) (parts1 c t)) as Hv.
  { assert (forall label v, clean_value v ->
      Forall (fun p => match p with Raw _ _ => False | Quoted _ v => clean_value v | Flag _ => True end) (opt_quoted label v)) as Ho
      by (intros label [|x v] H; cbn [opt_quoted]; [by constructor|by apply Forall_singleton]).
    destruct Hc. unfold parts1. repeat (apply Forall_app; split); try (by apply Ho).
    - destruct (_maxAge c =? -1); [by constructor|by apply Forall_singleton].
    - destruct (_secure c); by repeat constructor.
    - destruct (_httpOnly c); by repeat constructor.
    - apply Forall_singleton. change (clean_value (str "1")). split; [by repeat constructor|by apply trimmed_solid; repeat constructor]. }
  apply Forall_forall. intros p Hp. apply label_part; [by apply Hl|]. exact (proj1 (Forall_forall _ _) Hv p Hp).
Qed.

(** No attribute has the cookie's name, and none is written twice. *)
Lemma names_distinct p ps labels : own_name (part_name p) -> part_name <$> ps `sublist_of` labels ->
  NoDup (fold_name <$> labels) -> Forall (fun l => l ∈ fold_name <$> ATTRIBUTES) (fold_name <$> labels) ->
  NoDup (name_of <$> (entry <$> p :: ps)).
Proof.
  intros Hn Hs Hd Hl. rewrite <- list_fmap_compose. change (name_of ∘ entry) with (fold_name ∘ part_name).
  rewrite list_fmap_compose, fmap_cons. apply (sublist_NoDup _ (fold_name (part_name p) :: (fold_name <$> labels)));
    [|apply sublist_skip, sublist_map, Hs].
  constructor; [|done]. intros Hin. apply (proj1 (Forall_forall _ _) Hl) in Hin. apply list_elem_of_fmap in Hin as (a & Ea & Ha).
  apply (proj1 (Forall_forall _ _) Hn) in Ha. by apply isEqual_false in Ha.
Qed.

(** What a cookie's text is read as. *)
Lemma read_parts clock k p ps labels : part_ok p -> Forall part_ok ps -> own_name (part_name p) -> part_name <$> ps `sublist_of` labels ->
  NoDup (fold_name <$> labels) -> Forall (fun l => l ∈ fold_name <$> ATTRIBUTES) (fold_name <$> labels) ->
  (let? nvc := splitParameters_range (part_text p ++ more_text ps) [] in of_collection clock k nvc)
  = attributes clock k (entry <$> p :: ps) HTTPCookie.construct.
Proof. intros H1 H2 H3 H4 H5 H6. rewrite split_parts, add_all_distinct by (done || by apply (names_distinct _ _ labels)). done. Qed.

Lemma cookie1_text now c : cookie1_ok c -> exists s, toString now c = Done s
  /\ forall clock k, (let? nvc := splitParameters_range s [] in of_collection clock k nvc) = Done (c, k).
Proof.
  intros Hc. destruct (age_text (_maxAge c) (co_age c Hc)) as (t & Ht & Pt & Ct).
  exists (part_text (Quoted (_name c) (_value c)) ++ more_text (parts1 c t)). split; [by apply toString_parts1, Ht; apply Hc|].
  intros clock k. rewrite (read_parts _ _ _ _ LABELS); [by apply attributes1; [apply Hc..|]| |by apply parts1_ok|apply Hc|apply parts1_labels|..];
    [|refine (@bool_decide_unpack _ _ _); vm_compute; exact I..].
  destruct Hc. by split; [..|apply co_value0|apply co_value0].
Qed.

(** ** The points in time that can be sent *)

(** Every day since the calendar reform has a date. *)
Lemma day_no_onto (n : nat) : exists y m d, 1582 <= y /\ valid y m d /\ day_no y m d = REFORM + Z.of_nat n.
Proof.
  induction n as [|n (y & m & d & Hy & Hv & E)]; [exists 1582, 10, 15; split_and!; [lia|by_valid|reflexivity]|].
  pose proof (day_no_next y m d Hv) as Hn. pose proof (next_day_valid y m d Hv) as Hv'.
  assert (let '(y', _, _) := next_day y m d in y <= y') as Hyy by (unfold next_day; destruct (d <? _), (m <? 12); lia).
  destruct (next_day y m d) as [[y' m'] d']. exists y', m', d'. split_and!; [lia|done|lia].
Qed.

Lemma year_of y m d : valid y m d -> day_no y m d <= day_no 9999 12 31 -> y <= 9999.
Proof.
  intros Hv. change (day_no 9999 12 31) with 3652365. destruct Hv as [Hm Hd].
  unfold day_no, before_year, march_year, march_month, before_month. destruct (Z.ltb_spec m 3); lia.
Qed.

(** Since 15 October 1582, before the year 10000, and not in the last 102
    microseconds of a day. *)
Definition sendable (ts : Z) : Prop :=
  -12219292800000000 <= ts < 253402300800000000 /\ ts mod 86400000000 <= 86400000000 - 103.
Definition whole_second (ts : Z) : Z := ts - ts mod 1000000.

Lemma daytime_of t : 0 <= t < 86400000000 -> exists c, daytime_ok c /\ ticks c = 10 * t /\ ticks (whole c) = 10 * whole_second t.
Proof.
  intros Ht. exists {| hh := t / 3600000000; mm := t / 60000000 mod 60; ss := t / 1000000 mod 60; milli := t / 1000 mod 1000; micro := t mod 1000 |}.
  unfold daytime_ok, ticks, whole, clock, whole_second, Timespan.HOURS, Timespan.MINUTES, Timespan.SECONDS, Timespan.MILLISECONDS.
  cbn [hh mm ss milli micro]. split_and!; lia.
Qed.

Lemma fromUtc_exact t : - 2 ^ 58 <= t <= 2 ^ 58 -> Timestamp.fromUtcTime (t * 10 + Timestamp.epoch) = Done t.
Proof.
  intros Ht. unfold Timestamp.fromUtcTime, arith. replace (t * 10 + Timestamp.epoch - Timestamp.epoch) with (t * 10) by lia.
  cbn [imin imax Int64]. rewrite (proj2 (Z.leb_le (- 2 ^ 63) _)), (proj2 (Z.leb_le _ (2 ^ 63 - 1))) by lia. cbn [andb rbind].
  by rewrite Z.quot_mul.
Qed.

Lemma utcTime_exact t : - 2 ^ 58 <= t <= 2 ^ 58 -> Timestamp.utcTime t = Done (t * 10 + Timestamp.epoch).
Proof.
  intros Ht. unfold Timestamp.utcTime, arith. change Timestamp.epoch with 122192928000000000. change (Z.shiftl 0x01b21dd2 32) with 122192927672762368.
  cbn [imin imax Int64]. repeat (rewrite (proj2 (Z.leb_le (- 2 ^ 63) _)), (proj2 (Z.leb_le _ (2 ^ 63 - 1))) by lia; cbn [andb rbind]).
  f_equal. lia.
Qed.

(** What is sent for a timestamp, and what it is read as. *)
Lemma sent_date ts : sendable ts -> exists d s d', DateTime.of_timestamp ts = Done d
  /\ (forall t, DateTimeFormatter.append t d DateTimeFormat.HTTP_FORMAT DateTimeFormatter.UTC = Done (t ++ s))
  /\ DateTimeParser.parse_any s = Done (d', 0) /\ DateTime.timestamp d' = Done (whole_second ts) /\ tidy s.
Proof.
  intros [Hr Hl]. destruct (daytime_of (ts mod 86400000000)) as (c & Hc & Et & Ew); [lia|].
  destruct (day_no_onto (Z.to_nat (ts / 86400000000 + 141427))) as (y & m & d & Hy & Hv & En). rewrite Z2Nat.id in En by lia.
  assert (y <= 9999) as Hy' by (apply (year_of y m d Hv); change (day_no 9999 12 31) with 3652365; unfold REFORM in En; lia).
  assert (REFORM <= day_no y m d) as Hre by lia. assert (ticks c <= DAY - 1024) as Htl by (unfold DAY; lia).
  destruct (http_date_ok y m d c DateTimeFormatter.UTC) as (s & Ef & Ep & Hs); [lia|done|done|by left|done|done|].
  assert ((day_no y m d - REFORM) * DAY + ticks c = ts * 10 + Timestamp.epoch) as Eu
    by (rewrite En, Et; change Timestamp.epoch with 122192928000000000; unfold DAY; lia).
  exists (dated y m d c), s, (dated y m d (whole c)). split_and!.
  - unfold DateTime.of_timestamp. rewrite utcTime_exact by lia. cbn [rbind]. rewrite <- Eu. by apply of_utc_ok; try lia.
  - exact Ef.
  - exact Ep.
  - unfold DateTime.timestamp, dated. cbn [DateTime._utcTime at_time].
    replace ((day_no y m d - REFORM) * DAY + ticks (whole c)) with (whole_second ts * 10 + Timestamp.epoch)
      by (rewrite En, Ew; change Timestamp.epoch with 122192928000000000; unfold whole_second, DAY; lia).
    apply fromUtc_exact. unfold whole_second. lia.
  - by apply Hs.
Qed.

(** ** The cookies of Netscape *)
Definition raw_value (v : list Z) : Prop := Forall clean v /\ starts v /\ trimmed v.

(** A cookie of version 0 has no comment, and no quotes around its values. *)
Record cookie0_ok (c : HTTPCookie_) : Prop := {
  cz_version : _version c = 0;
  cz_own : own_name (_name c);
  cz_name : avoids (str "=;") (_name c) = true;
  cz_ne : _name c <> [];
  cz_start : starts (_name c);
  cz_trim : trimmed (_name c);
  cz_value : raw_value (_value c);
  cz_comment : _comment c = [];
  cz_domain : raw_value (_domain c);
  cz_path : raw_value (_path c)
}.

Definition opt_raw (label value : list Z) : list part := match value with [] => [] | _ => [Raw label value] end.
Definition parts0 (c : HTTPCookie_) (expires : list part) : list part :=
  opt_raw (str "domain") (_domain c) ++ opt_raw (str "path") (_path c) ++ expires ++ flag_parts c.

Lemma attribute_text label v : attribute (str "; " ++ label ++ str "=") v = more_text (opt_raw label v).
Proof.
  unfold attribute, opt_raw. destruct v as [|x v]; [done|]. unfold more_text. cbn [map concat part_text].
  rewrite app_nil_r, <- !app_assoc. done.
Qed.

Lemma raw_text n v : part_text (Raw n v) = n ++ str "=" ++ v.
Proof. done. Qed.

Lemma attributes_opt0 now k label v c set : (forall c, attributes now k [(label, v)] c = Done (set v c, k)) -> (v = [] -> set v c = c) ->
  attributes now k (entry <$> opt_raw label v) c = Done (set v c, k).
Proof. intros H1 H2. destruct v; cbn; [by rewrite H2|]. apply H1. Qed.

(** The attributes but for the expiry. *)
Lemma attributes0 now k c expires k' n : own_name (_name c) -> _version c = 0 -> _comment c = [] ->
  (forall c, _maxAge c = -1 -> attributes now k (entry <$> expires) c = Done (setMaxAge n c, k')) ->
  attributes now k (entry <$> Raw (_name c) (_value c) :: parts0 c expires) HTTPCookie.construct = Done (setMaxAge n c, k').
Proof.
  intros Hn Hv Hc He. unfold parts0. change (Raw (_name c) (_value c) :: ?r) with ([Raw (_name c) (_value c)] ++ r).
  rewrite !fmap_app, attributes_app. change (entry <$> [Raw (_name c) (_value c)]) with [(_name c, _value c)].
  rewrite attributes_own by done. cbn [rbind fst snd].
  rewrite attributes_app, (attributes_opt0 now k (str "domain") (_domain c) _ setDomain); [|done|by intros ->]. cbn [rbind fst snd].
  rewrite attributes_app, (attributes_opt0 now k (str "path") (_path c) _ setPath); [|done|by intros ->]. cbn [rbind fst snd].
  rewrite attributes_app, He by done. cbn [rbind fst snd]. rewrite attributes_flags by done. destruct c; cbn in *; subst. done.
Qed.

Definition LABELS0 : list (list Z) := [str "domain"; str "path"; str "expires"; str "secure"; str "HttpOnly"].

Lemma label_part0 p : part_name p ∈ LABELS0 ->
  (match p with Raw _ v => raw_value v | Quoted _ _ => False | Flag _ => True end) -> part_ok p.
Proof.
  intros Hn Hv. assert (part_ok (Flag (part_name p))) as [H1 H2 H3 H4 _ _].
  { unfold LABELS0 in Hn. repeat (apply elem_of_cons in Hn as [->|Hn]; [by split|]). by apply elem_of_nil in Hn. }
  destruct p as [n v|n v|n]; [|done|by split]. destruct Hv as (V1 & V2 & V3). by split.
Qed.

(** The expiry is either not there or a raw value. *)
Definition expiry (expires : list part) : Prop := expires = [] \/ exists s, expires = [Raw (str "expires") s] /\ raw_value s.

Lemma parts0_labels c expires : expiry expires -> part_name <$> parts0 c expires `sublist_of` LABELS0.
Proof.
  intros He. unfold parts0, LABELS0. rewrite !fmap_app.
  change [str "domain"; str "path"; str "expires"; str "secure"; str "HttpOnly"] with
    ([str "domain"] ++ [str "path"] ++ [str "expires"] ++ [str "secure"; str "HttpOnly"]).
  repeat apply sublist_app.
  - destruct (_domain c); cbn; [apply sublist_nil_l|done].
  - destruct (_path c); cbn; [apply sublist_nil_l|done].
  - destruct He as [->|(s & -> & _)]; cbn; [apply sublist_nil_l|done].
  - unfold flag_parts. destruct (_secure c), (_httpOnly c); cbn; [done|by do 2 constructor|by do 2 constructor|apply sublist_nil_l].
Qed.

Lemma parts0_ok c expires : cookie0_ok c -> expiry expires -> Forall part_ok (parts0 c expires).
Proof.
  intros Hc He.
  assert (Forall (fun p => match p with Raw _ v => raw_value v | Quoted _ _ => False | Flag _ => True end) (parts0 c expires)) as Hv.
  { assert (forall label v, raw_value v ->
      Forall (fun p => match p with Raw _ v => raw_value v | Quoted _ _ => False | Flag _ => True end) (opt_raw label v)) as Ho
      by (intros label [|x v] H; cbn [opt_raw]; [by constructor|by apply Forall_singleton]).
    destruct Hc. unfold parts0. repeat (apply Forall_app; split); try (by apply Ho).
    - destruct He as [->|(s & -> & Hs)]; [by constructor|by apply Forall_singleton].
    - destruct (_secure c); by repeat constructor.
    - destruct (_httpOnly c); by repeat constructor. }
  apply Forall_forall. intros p Hp. apply label_part0; [|exact (proj1 (Forall_forall _ _) Hv p Hp)].
  eapply elem_of_submseteq; [|apply sublist_submseteq, (parts0_labels c expires He)]. by apply list_elem_of_fmap_2.
Qed.

Lemma toString_parts0 now c t0 s : _version c = 0 -> (_maxAge c <> -1 -> arith Int64 (_maxAge c * Timestamp.resolution) = Done t0
    /\ exists ts d, Timestamp.plus now t0 = Done ts /\ DateTime.of_timestamp ts = Done d
    /\ forall t, DateTimeFormatter.append t d DateTimeFormat.HTTP_FORMAT DateTimeFormatter.UTC = Done (t ++ s)) ->
  toString now c = Done (part_text (Raw (_name c) (_value c))
    ++ more_text (parts0 c (if _maxAge c =? -1 then [] else [Raw (str "expires") s]))).
Proof.
  intros Hv Ha. unfold toString. rewrite Hv. cbn [Z.eqb]. cbv iota zeta.
  change (str "; domain=") with (str "; " ++ str "domain" ++ str "="). change (str "; path=") with (str "; " ++ str "path" ++ str "=").
  rewrite !attribute_text, flags_text. unfold parts0. rewrite !more_text_app, !raw_text.
  destruct (Z.eqb_spec (_maxAge c) (-1)) as [|Hm]; cbn [negb rbind].
  - change (more_text []) with (@nil Z). f_equal. rewrite <- !app_assoc. done.
  - destruct (Ha Hm) as (-> & ts & d & E1 & E2 & E3). cbn [rbind]. rewrite E1. cbn [rbind]. rewrite E2. cbn [rbind]. rewrite E3. cbn [rbind].
    rewrite more_one, raw_text. f_equal. rewrite <- !app_assoc. done.
Qed.

Lemma trimmed_last s b : Ascii.isSpace b = false -> trimmed (s ++ [b]).
Proof.
  intros Hb. unfold trimmed, Str.trimRightInPlace. rewrite length_app, Nat.add_comm. cbn [length Nat.add Str.last_nonspace].
  assert (Str.space_at (s ++ [b]) (length s) = false) as ->
    by (unfold Str.space_at; rewrite lookup_app_r, Nat.sub_diag by lia; cbn; by rewrite Hb).
  rewrite andb_false_r. apply take_ge. rewrite length_app. cbn. lia.
Qed.

Lemma tidy_raw s : tidy s -> raw_value s.
Proof. intros (H1 & (a & r & -> & Ha) & (r' & b & E & Hb)). split_and!; [done|done|]. rewrite E. by apply trimmed_last. Qed.

Lemma age_read s d' ts now : DateTimeParser.parse_any s = Done (d', 0) -> DateTime.timestamp d' = Done ts ->
  - 2 ^ 62 < ts - now < 2 ^ 62 -> age s now = Done (as_int (Z.quot (ts - now) Timestamp.resolution)).
Proof.
  intros E1 E2 Hd. unfold age. rewrite E1. cbn [rbind fst]. rewrite E2. cbn [rbind]. unfold Timestamp.difference, arith.
  cbn [imin imax Int64]. rewrite (proj2 (Z.leb_le (- 2 ^ 63) _)), (proj2 (Z.leb_le _ (2 ^ 63 - 1))) by lia. done.
Qed.

(** The age that a reader at the time [t] gives a cookie that expires at [ts]. *)
Definition age_at (ts t : Z) : Z := Z.quot (whole_second ts - t) Timestamp.resolution.

Lemma cookie0_text now c : cookie0_ok c -> - 2 ^ 31 <= _maxAge c < 2 ^ 31 ->
  (_maxAge c <> -1 -> sendable (now + _maxAge c * 1000000)) ->
  exists s, toString now c = Done s
    /\ forall clock k, (_maxAge c <> -1 -> - 2 ^ 31 <= age_at (now + _maxAge c * 1000000) (clock k) < 2 ^ 31) ->
       (let? nvc := splitParameters_range s [] in of_collection clock k nvc)
       = Done (if _maxAge c =? -1 then (c, k) else (setMaxAge (age_at (now + _maxAge c * 1000000) (clock k)) c, S k)).
Proof.
  intros Hc Hm Hs. assert (part_ok (Raw (_name c) (_value c))) as Hp by (destruct Hc as [? ? ? ? ? ? (?&?&?) ? ? ?]; by split).
  destruct (Z.eqb_spec (_maxAge c) (-1)) as [E|Hne].
  - pose proof (toString_parts0 now c 0 [] (cz_version c Hc) ltac:(done)) as Et. rewrite E in Et. cbn [Z.eqb Pos.eqb] in Et.
    eexists. split; [exact Et|]. intros clock k _. rewrite (read_parts _ _ _ _ LABELS0); [|done|apply parts0_ok; [done|by left]|apply Hc|apply parts0_labels; by left|..];
      [|refine (@bool_decide_unpack _ _ _); vm_compute; exact I..].
    rewrite (attributes0 clock k c [] k (-1)); [by destruct c; cbn in *; subst|apply Hc..|]. intros c0 E0. by destruct c0; cbn in *; subst.
  - specialize (Hs Hne). set (ts := now + _maxAge c * 1000000) in *. destruct (sent_date ts Hs) as (d & s & d' & E1 & E2 & E3 & E4 & Ht).
    pose proof (toString_parts0 now c (_maxAge c * 1000000) s (cz_version c Hc)) as Et. rewrite (proj2 (Z.eqb_neq _ _) Hne) in Et.
    assert (expiry [Raw (str "expires") s]) as Hx by (right; eexists; split; [done|by apply tidy_raw]).
    eexists. split.
    + apply Et. intros _. split; [|exists ts, d; split_and!; [|done|done]].
      * unfold arith, Timestamp.resolution. cbn [imin imax Int64]. by rewrite (proj2 (Z.leb_le (- 2 ^ 63) _)), (proj2 (Z.leb_le _ (2 ^ 63 - 1))) by lia.
      * unfold Timestamp.plus, arith. fold ts. destruct Hs as [Hs _]. cbn [imin imax Int64].
        by rewrite (proj2 (Z.leb_le (- 2 ^ 63) _)), (proj2 (Z.leb_le _ (2 ^ 63 - 1))) by lia.
    + intros clock k Ha. specialize (Ha Hne). rewrite (read_parts _ _ _ _ LABELS0); [|done|by apply parts0_ok|apply Hc|by apply parts0_labels|..];
        [|refine (@bool_decide_unpack _ _ _); vm_compute; exact I..].
      apply attributes0; [apply Hc..|]. intros c0 _.
      change (attributes clock k (entry <$> [Raw (str "expires") s]) c0) with (let? n := age s (clock k) in Done (setMaxAge n c0, S k)).
      rewrite (age_read s d' (whole_second ts)); [|done|done|unfold age_at, Timestamp.resolution in Ha; lia]. cbn [rbind].
      fold (age_at ts (clock k)). by rewrite as_int_small.
Qed.
