(* ===== verification/CookieClaims.v ===== *)
(** Cookies and dates in HTTP messages: what a response is given it has. *)

From S2P Require Import Prelude Strings NumericString Uri Headers HeadersFacts Http HttpFacts UriFacts Float DateTime DateTimeFacts DateTimeClaims DateTimeText DateTimeTextFacts Cookie CookieFacts.
From stdpp Require Import list.
Import ListMap HTTPCookie MessageHeader HTTPMessage HTTPResponse ResponseDates HTTPCookie.

Open Scope res_scope.
Local Open Scope Z_scope.

(** ** What a response is given it has *)
Lemma find_first key a e b : fold_name key ∉ name_of <$> a -> name_of e = fold_name key -> find key (a ++ e :: b) = Some (length a).
Proof.
  induction a as [|x a IH]; intros Ha He; cbn [app find length].
  - by rewrite (proj2 (isEqual_iff (fst e) key)).
  - rewrite fmap_cons in Ha. apply not_elem_of_cons in Ha as [Hx Ha]. rewrite (proj2 (isEqual_false (fst x) key)) by (by intros E; apply Hx).
    by rewrite IH.
Qed.

Lemma get_set name v m : NameValueCollection.get name (NameValueCollection.set name v m) = Done v.
Proof.
  unfold NameValueCollection.get, NameValueCollection.set. pose proof (find_split name m) as F. destruct (find name m) as [i|] eqn:Ef.
  - destruct F as (a & e & b & -> & <- & He & Ha). rewrite alter_middle, find_first by done. by rewrite list_lookup_middle.
  - unfold ListMap.insert. cbn [fst]. rewrite Ef, find_first by done. by rewrite list_lookup_middle.
Qed.

(** A cookie that is read as it was: one of version 1, or one of version 0
    without an age. *)
Definition kept (c : HTTPCookie_) : Prop := cookie1_ok c \/ (cookie0_ok c /\ _maxAge c = -1).

Lemma kept_text now c : kept c -> exists s, toString now c = Done s
  /\ forall clock k, (let? nvc := splitParameters_range s [] in of_collection clock k nvc) = Done (c, k).
Proof.
  intros [Hc|[Hc Hm]]; [by apply cookie1_text|]. destruct (cookie0_text now c Hc) as (s & E & H); [lia|done|].
  exists s. split; [done|]. intros clock k. rewrite H by done. by rewrite Hm.
Qed.

Fixpoint add_cookies (now : Z) (cs : list HTTPCookie_) (q : HTTPResponse_) : res HTTPResponse_ :=
  match cs with
  | [] => Done q
  | c :: cs => let? q := addCookie now c q in add_cookies now cs q
  end.

Definition set_cookie (s : list Z) : list Z * list Z := (SET_COOKIE, s).

(** The cookie is the first of the cookies, behind the other fields. *)
Lemma add_cookie_fields now c s q m ss : toString now c = Done s -> fold_name SET_COOKIE ∉ name_of <$> m ->
  fields q = m ++ (set_cookie <$> ss) -> exists q', addCookie now c q = Done q' /\ fields q' = m ++ (set_cookie <$> s :: ss).
Proof.
  intros Es Hm Hq. unfold addCookie. rewrite Es. cbn [rbind]. eexists. split; [done|].
  change (fields (on_message (add SET_COOKIE s) q)) with (NameValueCollection.add SET_COOKIE s (fields q)). rewrite Hq.
  unfold NameValueCollection.add, ListMap.insert. cbn [fst]. destruct ss as [|s' ss]; cbn [fmap list_fmap].
  - rewrite app_nil_r. pose proof (find_split SET_COOKIE m) as F. destruct (find SET_COOKIE m); [|done].
    destruct F as (a & e & b & -> & _ & He & _). exfalso. apply Hm. rewrite fmap_app, fmap_cons, elem_of_app, elem_of_cons. by right; left.
  - rewrite find_first by done. by rewrite take_app_length, drop_app_length.
Qed.

Lemma add_cookies_fields now m cs : Forall kept cs -> fold_name SET_COOKIE ∉ name_of <$> m -> forall q ss, fields q = m ++ (set_cookie <$> ss) ->
  exists q' texts, add_cookies now cs q = Done q' /\ fields q' = m ++ (set_cookie <$> texts ++ ss)
    /\ Forall2 (fun c s => forall clock k, (let? nvc := splitParameters_range s [] in of_collection clock k nvc) = Done (c, k)) (rev cs) texts.
Proof.
  intros Hcs Hm. induction cs as [|c cs IH]; intros q ss Hq; [by exists q, []|]. apply Forall_cons in Hcs as [Hc Hcs].
  destruct (kept_text now c Hc) as (s & Es & Hs). destruct (add_cookie_fields now c s q m ss Es Hm Hq) as (q1 & E1 & H1).
  destruct (IH Hcs q1 (s :: ss) H1) as (q' & texts & E' & H' & H2). exists q', (texts ++ [s]). split_and!.
  - cbn [add_cookies]. rewrite E1. cbn [rbind]. exact E'.
  - by rewrite <- app_assoc.
  - cbn [rev]. apply Forall2_app; [done|]. by repeat constructor.
Qed.

Lemma cookies_run clock texts : forall k cs acc,
  Forall2 (fun c s => forall clock k, (let? nvc := splitParameters_range s [] in of_collection clock k nvc) = Done (c, k)) cs texts ->
  cookies_loop clock k (set_cookie <$> texts) acc = Done (acc ++ cs).
Proof.
  induction texts as [|s texts IH]; intros k cs acc H; inversion H as [|c ? cs' ? Hc Hcs]; subst; [by rewrite app_nil_r|].
  cbn [fmap list_fmap cookies_loop fst snd set_cookie]. change (Str.icompare SET_COOKIE SET_COOKIE =? 0) with true. cbv iota.
  specialize (Hc clock k). destruct (splitParameters_range s []) as [nvc| | |]; cbn [rbind] in *; [|done..]. rewrite Hc. cbn [rbind fst snd].
  rewrite (IH k cs' _ Hcs). by rewrite <- app_assoc.
Qed.

Lemma cookies_ok now clock cs q : Forall kept cs -> ListMap.find SET_COOKIE (fields q) = None ->
  exists q' added, add_cookies now cs q = Done q' /\ getCookies clock q' = Done (rev cs)
    /\ fields q' = fields q ++ added /\ length added = length cs.
Proof.
  intros Hcs Hf. pose proof (find_split SET_COOKIE (fields q)) as F. rewrite Hf in F.
  destruct (add_cookies_fields now (fields q) cs Hcs F q []) as (q' & texts & E & Eq & H); [by rewrite app_nil_r|].
  rewrite app_nil_r in Eq. exists q', (set_cookie <$> texts). split_and!; [done| |done|].
  - unfold getCookies. rewrite Eq. destruct texts as [|s texts].
    + apply Forall2_nil_inv_r in H. rewrite H. cbn [fmap list_fmap]. by rewrite app_nil_r, Hf.
    + cbn [fmap list_fmap]. rewrite find_first by done. rewrite drop_app_length. exact (cookies_run clock (s :: texts) 0 (rev cs) [] H).
  - rewrite length_fmap. apply Forall2_length in H. by rewrite <- H, length_rev.
Qed.

(** A text that [escape] made can be a value. *)
Lemma escaped_char c : is_byte c ->
  Forall (fun x => clean x /\ Ascii.isSpace x = false) (if escaped ILLEGAL_CHARS c then percent c else [c]).
Proof.
  intros Hc. pose proof (allbelow_spec 256 (fun c =>
    forallb (fun x => negb (x =? 34) && negb (x =? 92) && negb (x =? chr ";") && negb (Ascii.isSpace x))
      (if escaped ILLEGAL_CHARS c then percent c else [c])) ltac:(vm_compute; reflexivity) c Hc) as H. cbv beta in H.
  apply List.Forall_forall. intros x Hx. rewrite forallb_forall in H. specialize (H x Hx). rewrite !andb_true_iff, !negb_true_iff, !Z.eqb_neq in H.
  unfold clean. tauto.
Qed.

Lemma escaped_solid v : Forall is_byte v -> Forall (fun x => clean x /\ Ascii.isSpace x = false) (encoding ILLEGAL_CHARS v).
Proof.
  unfold encoding. induction 1 as [|c v Hc Hv IH]; cbn [map concat]; [by constructor|]. apply Forall_app. split; [by apply escaped_char|done].
Qed.

Lemma solid_raw v : Forall (fun x => clean x /\ Ascii.isSpace x = false) v -> raw_value v.
Proof.
  intros H. split_and!.
  - eapply Forall_impl; [exact H|]. by intros x [].
  - destruct H as [|x v [_ Hx] _]; [done|exact Hx].
  - apply trimmed_solid. eapply Forall_impl; [exact H|]. by intros x [].
Qed.

Lemma kept_value v c : raw_value v -> kept c -> kept (setValue v c).
Proof.
  intros Hv [Hc|[Hc Hm]]; [left|right; split; [|done]]; destruct Hc; split; try done.
  destruct Hv as (H1 & _ & H2). split; [|done]. cbn. eapply Forall_impl; [exact H1|]. by intros x (?&?&?).
Qed.

(** C8: the cookies added to a response that has none are the cookies it has
    (their order is not claimed: ListMap.h documents another than the code
    gives), and its other fields stay as they are.  Every cookie is [kept]: of
    version 1, or of version 0 without an age and a comment; its name is not
    empty, not the name of an attribute, without the separators and without
    blanks around it; its value and its attributes hold no quote and no
    backslash and end in no blank (in version 0 they hold no semicolon and start
    with no blank either); the age is above the least int. *)
Theorem response_cookies now clock cs q : Forall kept cs -> ListMap.find SET_COOKIE (fields q) = None ->
  exists q' added cs', add_cookies now cs q = Done q' /\ getCookies clock q' = Done cs' /\ cs' ≡ₚ cs
    /\ fields q' = fields q ++ added /\ length added = length cs.
Proof.
  intros Hcs Hf. destruct (cookies_ok now clock cs q Hcs Hf) as (q' & added & E & G & R). exists q', added, (rev cs).
  split_and!; [done|done|symmetry; apply Permutation_rev|apply R..].
Qed.


(** C10: the date of a response is the timestamp it was given, without the
    fraction of the second, for every timestamp from the calendar reform to the
    year 9999 that is not in the last 102 microseconds of a day. *)
Theorem response_date ts q : sendable ts ->
  exists q', setDate ts q = Done q' /\ getDate q' = Done (whole_second ts).
Proof.
  intros Hs. destruct (sent_date ts Hs) as (d & s & d' & E1 & E2 & E3 & E4 & _). eexists. split.
  - unfold setDate, DateTimeFormatter.format. rewrite E1. cbn [rbind]. rewrite (E2 []). cbn [rbind app]. reflexivity.
  - unfold getDate. change (fields (on_message (set DATE s) q)) with (NameValueCollection.set DATE s (fields q)).
    rewrite get_set. cbn [rbind]. rewrite E3. exact E4.
Qed.

(** Every string of bytes can be the value of a cookie: escaped, it is carried
    by a response and its cookie is the one that was added, and unescaped it is
    the string again. *)
Theorem escaped_value now clock v c q : Forall is_byte v -> kept c -> ListMap.find SET_COOKIE (fields q) = None ->
  exists t q', escape v = Done t /\ addCookie now (setValue t c) q = Done q' /\ getCookies clock q' = Done [setValue t c]
    /\ unescape t = Done v.
Proof.
  intros Hv Hc Hf. exists (encoding ILLEGAL_CHARS v).
  destruct (cookies_ok now clock [setValue (encoding ILLEGAL_CHARS v) c] q) as (q' & added & E & G & _); [|done|].
  { apply Forall_singleton, kept_value; [|done]. by apply solid_raw, escaped_solid. }
  exists q'. split_and!; [unfold escape; by rewrite uri_encode_spec| |exact G|].
  - cbn [add_cookies] in E. destruct (addCookie now _ q) as [q1| | |]; cbn [rbind] in E; [exact E|done..].
  - unfold unescape, decode. by rewrite decode_encoding.
Qed.

(** ** Witnesses *)
Definition session : HTTPCookie_ :=
  {| HTTPCookie._version := 1; _name := str "sid"; _value := str "a;b, c"; _comment := []; _domain := str "x.org"; _path := str "/"; _secure := true;
     _maxAge := 3600; _httpOnly := true |}.
Definition plain : HTTPCookie_ := setPath (str "/a b") (construct_value (str "lang") (str "en")).

Ltac by_cookie := constructor; first [lia | done | by repeat constructor
  | split; [by repeat constructor|reflexivity] | split_and!; [by repeat constructor|done|reflexivity] | split; cbn; lia].

Lemma session_ok : cookie1_ok session.
Proof. by_cookie. Qed.

Lemma plain_ok : cookie0_ok plain.
Proof. by_cookie. Qed.

Lemma response_cookies_witness : exists q' added cs', add_cookies 0 [session; plain] HTTPResponse.construct = Done q'
  /\ getCookies (fun _ => 0) q' = Done cs' /\ cs' ≡ₚ [session; plain] /\ fields q' = fields HTTPResponse.construct ++ added /\ length added = 2%nat.
Proof.
  apply (response_cookies 0 (fun _ => 0) [session; plain] HTTPResponse.construct); [|reflexivity].
  apply Forall_cons_2; [left; exact session_ok|]. apply Forall_cons_2; [right; split; [exact plain_ok|reflexivity]|apply Forall_nil_2].
Defined.


Lemma response_date_witness : exists q', setDate 1400000000123456 HTTPResponse.construct = Done q' /\ getDate q' = Done 1400000000000000.
Proof. apply (response_date 1400000000123456 HTTPResponse.construct). split; [lia|vm_compute; discriminate]. Defined.

Lemma escaped_value_witness : exists t q', escape [0; 34; 59; 92; 255] = Done t /\ addCookie 0 (setValue t session) HTTPResponse.construct = Done q'
  /\ getCookies (fun _ => 0) q' = Done [setValue t session] /\ unescape t = Done [0; 34; 59; 92; 255].
Proof.
  apply (escaped_value 0 (fun _ => 0) [0; 34; 59; 92; 255] session HTTPResponse.construct); [|left; exact session_ok|reflexivity].
  repeat constructor; unfold is_byte; lia.
Defined.

(** ** Names of attributes *)

(** A cookie that has the name of an attribute is not read as a cookie. *)
Example attribute_name : (let? s := toString 0 (construct_value (str "Path") (str "x")) in
  let? nvc := splitParameters_range s [] in let? r := of_collection (fun _ => 0) 0 nvc in Done (_name (fst r), _path (fst r))) = Done ([], str "x").
Proof. vm_compute. reflexivity. Qed.
