(* ===== verification/Random.v ===== *)
(** Random numbers: Random.cpp.

    The state is a buffer of words that [new] leaves uninitialized ([None]);
    [_state] is the buffer from its second word on, and the two pointers are
    positions in it. Reading a word that was never written, or one outside the
    buffer, is undefined. *)

From S2P Require Import Prelude NumericString.
From stdpp Require Import list.

Open Scope st_scope.
Local Open Scope Z_scope.

Module Random.

Definition TYPE_0 : Z := 0.
Definition BREAK_0 : Z := 8.
Definition DEG_0 : nat := 0.
Definition SEP_0 : nat := 0.
Definition TYPE_1 : Z := 1.
Definition BREAK_1 : Z := 32.
Definition DEG_1 : nat := 7.
Definition SEP_1 : nat := 3.
Definition TYPE_2 : Z := 2.
Definition BREAK_2 : Z := 64.
Definition DEG_2 : nat := 15.
Definition SEP_2 : nat := 1.
Definition TYPE_3 : Z := 3.
Definition BREAK_3 : Z := 128.
Definition DEG_3 : nat := 31.
Definition SEP_3 : nat := 3.
Definition TYPE_4 : Z := 4.
Definition BREAK_4 : Z := 256.
Definition DEG_4 : nat := 63.
Definition SEP_4 : nat := 1.
Definition MAX_TYPES : Z := 5.
Definition NSHUFF : nat := 50.

Record Random_ := {
  _pBuffer : list (option Z);
  _fptr : option nat;
  _rptr : option nat;
  _randType : Z;
  _randDeg : nat;
  _randSep : nat
}.

Definition set_buffer (b : list (option Z)) (r : Random_) : Random_ :=
  {| _pBuffer := b; _fptr := _fptr r; _rptr := _rptr r; _randType := _randType r; _randDeg := _randDeg r; _randSep := _randSep r |}.
Definition set_ptrs (f r : nat) (s : Random_) : Random_ :=
  {| _pBuffer := _pBuffer s; _fptr := Some f; _rptr := Some r; _randType := _randType s; _randDeg := _randDeg s; _randSep := _randSep s |}.
Definition set_type (t : Z) (deg sep : nat) (s : Random_) : Random_ :=
  {| _pBuffer := _pBuffer s; _fptr := _fptr s; _rptr := _rptr s; _randType := t; _randDeg := deg; _randSep := sep |}.

(** A word of the buffer, and [_state[i]]. *)
Definition word (i : nat) : ST Random_ Z := fun s =>
  match _pBuffer s !! i with Some (Some w) => (Done w, s) | _ => (UB, s) end.
Definition set_word (i : nat) (w : Z) : ST Random_ unit := fun s =>
  if (i <? length (_pBuffer s))%nat then (Done tt, set_buffer (<[i := Some w]> (_pBuffer s)) s) else (UB, s).
Definition state (i : nat) : ST Random_ Z := word (S i).
Definition set_state (i : nat) (w : Z) : ST Random_ unit := set_word (S i) w.
Definition deref (p : option nat) : ST Random_ nat := match p with Some i => ret i | None => undef end.

Definition goodRand (x : Z) : res Z :=
  (let x := if x =? 0 then 123459876 else x in
   let hi := Z.quot x 127773 in
   let lo := Z.rem x 127773 in
   let? a := arith Int32 (16807 * lo) in
   let? b := arith Int32 (2836 * hi) in
   let? x := arith Int32 (a - b) in
   let? x := if x <? 0 then arith Int32 (x + 0x7FFFFFFF) else Done x in
   Done (u32 x))%res.

Definition next : ST Random_ Z :=
  let* s := get in
  if _randType s =? TYPE_0 then
    let* i := state 0 in
    let* g := lift (goodRand (s32 i)) in
    let i := Z.land g 0x7FFFFFFF in
    do* set_state 0 i;
    ret i
  else
    let* f := deref (_fptr s) in
    let* r := deref (_rptr s) in
    let* vf := state f in
    let* vr := state r in
    do* set_state f (u32 (vf + vr));
    let* v := state f in
    let i := Z.land (Z.shiftr v 1) 0x7FFFFFFF in
    do* modify (if (_randDeg s <=? f + 1)%nat then set_ptrs 0 (r + 1)
                else if (_randDeg s <=? r + 1)%nat then set_ptrs (f + 1) 0
                else set_ptrs (f + 1) (r + 1));
    ret i.

Definition next_below (n : Z) : ST Random_ Z :=
  let* i := next in if n =? 0 then undef else ret (i mod n).
Definition nextChar : ST Random_ Z := let* i := next in ret (s8 (Z.land (Z.shiftr i 3) 0xFF)).
Definition nextBool : ST Random_ bool := let* i := next in ret (negb (Z.land i 0x1000 =? 0)).

(** The loops of [seed]. *)
Fixpoint fill (i n : nat) : ST Random_ unit :=
  match n with
  | O => ret tt
  | S n =>
      let* w := state (i - 1) in
      let* g := lift (goodRand (s32 w)) in
      do* set_state i g;
      fill (S i) n
  end.
Fixpoint shuffle (lim : nat) : ST Random_ unit :=
  match lim with
  | O => ret tt
  | S lim => do* next; shuffle lim
  end.

Definition seed (x : Z) : ST Random_ unit :=
  do* set_state 0 x;
  let* s := get in
  let* lim :=
    if _randType s =? TYPE_0 then ret NSHUFF
    else
      do* fill 1 (_randDeg s - 1);
      do* modify (set_ptrs (_randSep s) 0);
      ret (10 * _randDeg s)%nat in
  shuffle lim.

(** [seed()]: [words] are the words that the RandomInputStream gives. *)
Fixpoint read_words (i : nat) (words : list Z) : ST Random_ unit :=
  match words with
  | [] => ret tt
  | w :: words => do* set_state i w; read_words (S i) words
  end.
Definition seed_device (source : nat -> list Z) : ST Random_ unit :=
  let* s := get in
  let len := if _randType s =? TYPE_0 then 1%nat else _randDeg s in
  read_words 0 (source len).

Definition initState (s n : Z) : ST Random_ unit :=
  if n <? BREAK_0 then throw BugcheckException
  else
    do* modify (if n <? BREAK_1 then set_type TYPE_0 DEG_0 SEP_0
                else if n <? BREAK_2 then set_type TYPE_1 DEG_1 SEP_1
                else if n <? BREAK_3 then set_type TYPE_2 DEG_2 SEP_2
                else if n <? BREAK_4 then set_type TYPE_3 DEG_3 SEP_3
                else set_type TYPE_4 DEG_4 SEP_4);
    do* seed s;
    let* st := get in
    if _randType st =? TYPE_0 then set_word 0 (_randType st)
    else let* r := deref (_rptr st) in set_word 0 (u32 (MAX_TYPES * Z.of_nat r + _randType st)).

(** The constructor; [time] is what [std::time] returns. *)
Definition construct (time stateSize : Z) : res Random_ :=
  if (BREAK_0 <=? stateSize) && (stateSize <=? BREAK_4) then
    match initState (u32 time) stateSize
      {| _pBuffer := replicate (Z.to_nat (stateSize / 4)) None; _fptr := None; _rptr := None; _randType := 0; _randDeg := 0; _randSep := 0 |} with
    | (Done _, s) => Done s
    | (Eof, _) => Eof
    | (Raise e, _) => Raise e
    | (UB, _) => UB
    end
  else Raise AssertionViolationException.
End Random.
