(* ===== verification/RandomFacts.v ===== *)
(** Random numbers are those of the documented generators. *)

From S2P Require Import Prelude NumericString Random.
From stdpp Require Import list.
Import Random.

Open Scope st_scope.
Local Open Scope Z_scope.

(** ** The minimal standard generator *)

(** 7^5 * x mod (2^31 - 1) *)
Definition minstd (x : Z) : Z := (16807 * (if x =? 0 then 123459876 else x)) mod (2 ^ 31 - 1).

Lemma minstd_bounds x : 0 <= minstd x < 2 ^ 31 - 1.
Proof. unfold minstd. apply Z.mod_pos_bound. lia. Qed.

Lemma arith_small z : - 2 ^ 31 <= z < 2 ^ 31 -> arith Int32 z = Done z.
Proof. intros H. unfold arith. cbn [imin imax Int32]. by rewrite (proj2 (Z.leb_le _ z)), (proj2 (Z.leb_le z _)) by lia. Qed.

(** No step of the computation overflows 31 bits. *)
Lemma goodRand_ok x : - 2 ^ 31 <= x < 2 ^ 31 -> goodRand x = Done (minstd x).
Proof.
  intros Hx. unfold goodRand, minstd. set (x0 := if x =? 0 then _ else x). assert (- 2 ^ 31 <= x0 < 2 ^ 31) as Hx0 by (unfold x0; destruct (x =? 0); lia).
  clearbody x0. cbv zeta. rewrite !arith_small by lia. cbn [rbind]. rewrite arith_small by lia. cbn [rbind].
  set (y := 16807 * Z.rem x0 127773 - 2836 * Z.quot x0 127773).
  assert (y = 16807 * x0 - Z.quot x0 127773 * (2 ^ 31 - 1)) as Ey by (unfold y; lia).
  assert (- 2147464004 <= y <= 2147464004) as Hy by (unfold y; lia).
  assert ((16807 * x0) mod (2 ^ 31 - 1) = y mod (2 ^ 31 - 1)) as ->.
  { replace (16807 * x0) with (y + Z.quot x0 127773 * (2 ^ 31 - 1)) by lia. by rewrite Z_mod_plus_full. }
  clearbody y. clear Ey. destruct (Z.ltb_spec y 0); cbn [rbind]; [rewrite arith_small by lia; cbn [rbind]|]; unfold u32; f_equal; lia.
Qed.

(** ** Additive feedback *)

(** The last words, the oldest first; the next one is the sum of the oldest
    and the one [sep] places before the end. *)
Definition lag_word (sep : nat) (q : list Z) : Z := u32 (nth 0 q 0 + nth (length q - sep) q 0).
Definition lag (sep : nat) (q : list Z) : list Z := tail q ++ [lag_word sep q].

Fixpoint lag_outputs (sep n : nat) (q : list Z) : list Z :=
  match n with O => [] | S n => lag_word sep q / 2 :: lag_outputs sep n (lag sep q) end.

(** The words that a seed gives, and the outputs of the simple generator. *)
Fixpoint minstd_words (n : nat) (x : Z) : list Z :=
  match n with O => [] | S n => x :: minstd_words n (minstd (s32 x)) end.
Fixpoint minstd_outputs (n : nat) (x : Z) : list Z :=
  match n with O => [] | S n => minstd (s32 x) :: minstd_outputs n (minstd (s32 x)) end.

(** The polynomial for a size of the state. *)
Definition degree (size : Z) : nat := if size <? 64 then 7 else if size <? 128 then 15 else if size <? 256 then 31 else 63.
Definition separation (size : Z) : nat := if size <? 64 then 3 else if size <? 128 then 1 else if size <? 256 then 3 else 1.

Definition reference (seed size : Z) (n : nat) : list Z :=
  if size <? 32 then drop 50 (minstd_outputs (50 + n) seed)
  else
    let q := minstd_words (degree size) seed in
    drop (10 * degree size) (lag_outputs (separation size) (10 * degree size + n) (drop (separation size) q ++ take (separation size) q)).

Fixpoint nexts (n : nat) : ST Random_ (list Z) :=
  match n with
  | O => ret []
  | S n => let* i := next in let* l := nexts n in ret (i :: l)
  end.

Definition is_word (w : Z) : Prop := 0 <= w < 2 ^ 32.

(** The state at a point of the sequence. *)
Record additive (sep : nat) (q : list Z) (s : Random_) : Prop := {
  ad_type : _randType s <> 0;
  ad_sep : (0 < sep < length q)%nat;
  ad_deg : _randDeg s = length q;
  ad_words : Forall is_word q;
  ad_rep : exists h a x b ext r, _pBuffer s = h :: (Some <$> a ++ x :: b) ++ ext /\ q = x :: b ++ a
    /\ _fptr s = Some (length a) /\ _rptr s = Some r
    /\ ((sep <= length a /\ r = length a - sep) \/ (length a < sep /\ r = length a + length q - sep))%nat
}.

Record simple (x : Z) (s : Random_) : Prop := {
  si_type : _randType s = 0;
  si_word : is_word x;
  si_rep : exists h ext, _pBuffer s = h :: Some x :: ext
}.

Lemma state_at s h ws ext i w : _pBuffer s = h :: (Some <$> ws) ++ ext -> ws !! i = Some w -> state i s = (Done w, s).
Proof.
  intros E H. unfold state, word. rewrite E. cbn [lookup list_lookup]. by rewrite (lookup_app_l_Some _ _ _ (Some w)) by (by rewrite list_lookup_fmap, H).
Qed.

Lemma set_state_at s h a x b ext w : _pBuffer s = h :: a ++ x :: b ++ ext ->
  set_state (length a) w s = (Done tt, set_buffer (h :: a ++ Some w :: b ++ ext) s).
Proof.
  intros E. unfold set_state, set_word. rewrite E. cbn [length]. rewrite length_app. cbn [length].
  rewrite (proj2 (Nat.ltb_lt _ _)) by lia. do 2 f_equal.
  change (<[S (length a) := Some w]> (h :: ?l)) with (h :: <[length a := Some w]> l). by rewrite insert_app_r_alt, Nat.sub_diag by lia.
Qed.

(** The word at the rear pointer. *)
Lemma rear_word sep a x b r : (0 < sep < length (x :: b ++ a))%nat ->
  ((sep <= length a /\ r = length a - sep) \/ (length a < sep /\ r = length a + length (x :: b ++ a) - sep))%nat ->
  (a ++ x :: b) !! r = Some (nth (length (x :: b ++ a) - sep) (x :: b ++ a) 0).
Proof.
  intros Hs Hr. set (q := x :: b ++ a) in *. assert (length q = S (length b + length a)) as El by (unfold q; cbn; by rewrite length_app).
  assert (nth (length q - sep) q 0 = default 0 (q !! (length q - sep)%nat)) as -> by (by rewrite nth_lookup).
  destruct (lookup_lt_is_Some_2 q (length q - sep)) as [w Hw]; [lia|]. rewrite Hw. change (default 0 (Some w)) with w. assert (((x :: b) ++ a) !! (length q - sep)%nat = Some w) as Hw' by exact Hw. clear Hw.
  destruct Hr as [[H1 ->]|[H1 ->]].
  - rewrite lookup_app_r in Hw' by (cbn [length]; lia). rewrite lookup_app_l by lia. rewrite <- Hw'. f_equal. cbn [length]. lia.
  - rewrite lookup_app_l in Hw' by (cbn [length]; lia). rewrite lookup_app_r by lia. rewrite <- Hw'. f_equal. lia.
Qed.

Lemma half_word w : is_word w -> Z.land (Z.shiftr w 1) 0x7FFFFFFF = w / 2.
Proof. intros Hw. unfold is_word in Hw. rewrite (land_mask _ 31) by done. rewrite Z.shiftr_div_pow2 by done. change (2 ^ 1) with 2. lia. Qed.

Lemma lag_word_ok sep q : is_word (lag_word sep q).
Proof. unfold lag_word, u32, is_word. lia. Qed.

(** One number of the additive generator. *)
Lemma additive_next sep q s : additive sep q s -> exists s', next s = (Done (lag_word sep q / 2), s') /\ additive sep (lag sep q) s'.
Proof.
  intros [Ht Hs Hd Hw (h & a & x & b & ext & r & Eb & Eq & Ef & Er & Hr)]. subst q.
  assert (lag_word sep (x :: b ++ a) = u32 (x + nth (length (x :: b ++ a) - sep) (x :: b ++ a) 0)) as Elw by done.
  set (w := lag_word sep (x :: b ++ a)) in *. pose proof (rear_word sep a x b r Hs Hr) as Hrear.
  assert (is_word w) as Hww by apply lag_word_ok.
  unfold next. rewrite bind_get, (proj2 (Z.eqb_neq _ _)), Ef, Er by done. cbn [deref]. rewrite !bind_ret.
  rewrite (bind_Done _ _ _ _ _ (state_at s _ _ _ _ _ Eb (list_lookup_middle a b x _ eq_refl))).
  rewrite (bind_Done _ _ _ _ _ (state_at s _ _ _ _ _ Eb Hrear)). rewrite <- Elw.
  rewrite fmap_app, fmap_cons, <- app_assoc in Eb. cbn [app] in Eb.
  pose proof (set_state_at s h (Some <$> a) (Some x) (Some <$> b) ext w Eb) as Hset. rewrite length_fmap in Hset.
  rewrite (bind_Done _ _ _ _ _ Hset). set (s1 := set_buffer _ s).
  assert (_pBuffer s1 = h :: (Some <$> a ++ w :: b) ++ ext) as E1 by (cbn; by rewrite fmap_app, fmap_cons, <- app_assoc).
  rewrite (bind_Done _ _ _ _ _ (state_at s1 _ _ _ _ _ E1 (list_lookup_middle a b w _ eq_refl))).
  rewrite bind_modify, half_word by done. eexists. split; [reflexivity|].
  assert (length (lag sep (x :: b ++ a)) = length (x :: b ++ a)) as Ell by (unfold lag; cbn; rewrite length_app; cbn; lia).
  cbn [length] in *. rewrite length_app in *. rewrite Hd. split.
  - by repeat case_match.
  - by rewrite Ell.
  - rewrite Ell. by repeat case_match.
  - unfold lag. cbn [tail]. apply Forall_cons in Hw as [_ Hw]. apply Forall_app. split; [done|]. by apply Forall_singleton.
  - rewrite Ell. unfold lag. fold w. cbn [tail]. destruct b as [|y b].
    + rewrite (proj2 (Nat.leb_le _ _)) by (cbn; lia). destruct (a ++ [w]) as [|z l] eqn:Ea; [by destruct a|].
      exists h, [], z, l, ext, (r + 1)%nat. split_and!; [exact E1|cbn [app]; by rewrite app_nil_r|done|done|]. cbn [length] in *. lia.
    + rewrite (proj2 (Nat.leb_gt _ _)) by (cbn; lia). exists h, (a ++ [w]), y, b, ext, (if (S (length (y :: b) + length a) <=? r + 1)%nat then 0 else r + 1)%nat.
      rewrite length_app. split_and!.
      * rewrite <- app_assoc. by repeat case_match.
      * cbn [app]. by rewrite <- app_assoc.
      * by repeat case_match.
      * by repeat case_match.
      * cbn [length] in *. destruct (Nat.leb_spec (S (S (length b) + length a)) (r + 1)); lia.
Qed.

(** One number of the simple generator. *)
Lemma simple_next x s : simple x s -> exists s', next s = (Done (minstd (s32 x)), s') /\ simple (minstd (s32 x)) s'.
Proof.
  intros [Ht Hx (h & ext & Eb)]. pose proof (minstd_bounds (s32 x)) as Hm.
  unfold next. rewrite bind_get, Ht. change (0 =? TYPE_0) with true. cbv iota.
  rewrite (bind_Done _ _ _ _ _ (state_at s h [x] ext 0 x Eb eq_refl)).
  rewrite (bind_Done _ _ _ (minstd (s32 x)) s) by (unfold lift; rewrite goodRand_ok; [done|unfold s32, swrap; lia]). cbv zeta.
  rewrite (land_mask _ 31), Z.mod_small by (done || lia).
  rewrite (bind_Done _ _ _ _ _ (set_state_at s h [] (Some x) [] ext _ Eb)). eexists. split; [reflexivity|].
  split; [done|unfold is_word; lia|]. by exists h, ext.
Qed.

(** ** Seeding *)
Fixpoint lag_run (sep n : nat) (q : list Z) : list Z := match n with O => q | S n => lag_run sep n (lag sep q) end.
Fixpoint minstd_run (n : nat) (x : Z) : Z := match n with O => x | S n => minstd_run n (minstd (s32 x)) end.

Lemma lag_outputs_drop sep m n : forall q, drop m (lag_outputs sep (m + n) q) = lag_outputs sep n (lag_run sep m q).
Proof. induction m as [|m IH]; intros q; [done|]. cbn [Nat.add lag_outputs drop lag_run]. apply IH. Qed.

Lemma minstd_outputs_drop m n : forall x, drop m (minstd_outputs (m + n) x) = minstd_outputs n (minstd_run m x).
Proof. induction m as [|m IH]; intros x; [done|]. cbn [Nat.add minstd_outputs drop minstd_run]. apply IH. Qed.

Lemma nexts_additive sep n : forall q s, additive sep q s -> exists s', nexts n s = (Done (lag_outputs sep n q), s').
Proof.
  induction n as [|n IH]; intros q s Hs; [by eexists|]. destruct (additive_next sep q s Hs) as (s1 & E1 & H1).
  destruct (IH _ _ H1) as (s2 & E2). cbn [nexts lag_outputs]. rewrite (bind_Done _ _ _ _ _ E1), (bind_Done _ _ _ _ _ E2). by eexists.
Qed.

Lemma nexts_simple n : forall x s, simple x s -> exists s', nexts n s = (Done (minstd_outputs n x), s').
Proof.
  induction n as [|n IH]; intros x s Hs; [by eexists|]. destruct (simple_next x s Hs) as (s1 & E1 & H1).
  destruct (IH _ _ H1) as (s2 & E2). cbn [nexts minstd_outputs]. rewrite (bind_Done _ _ _ _ _ E1), (bind_Done _ _ _ _ _ E2). by eexists.
Qed.

Lemma shuffle_additive sep n : forall q s, additive sep q s -> exists s', shuffle n s = (Done tt, s') /\ additive sep (lag_run sep n q) s'.
Proof.
  induction n as [|n IH]; intros q s Hs; [by eexists|]. destruct (additive_next sep q s Hs) as (s1 & E1 & H1).
  destruct (IH _ _ H1) as (s2 & E2 & H2). cbn [shuffle lag_run]. rewrite (bind_Done _ _ _ _ _ E1). eauto.
Qed.

Lemma shuffle_simple n : forall x s, simple x s -> exists s', shuffle n s = (Done tt, s') /\ simple (minstd_run n x) s'.
Proof.
  induction n as [|n IH]; intros x s Hs; [by eexists|]. destruct (simple_next x s Hs) as (s1 & E1 & H1).
  destruct (IH _ _ H1) as (s2 & E2 & H2). cbn [shuffle minstd_run]. rewrite (bind_Done _ _ _ _ _ E1). eauto.
Qed.

Lemma minstd_words_ok n : forall x, is_word x -> Forall is_word (minstd_words n x) /\ length (minstd_words n x) = n.
Proof.
  induction n as [|n IH]; intros x Hx; [done|]. pose proof (minstd_bounds (s32 x)).
  destruct (IH (minstd (s32 x))) as [H1 H2]; [unfold is_word; lia|]. cbn. by split; [constructor|f_equal].
Qed.

Lemma fill_ok n : forall pre w s h ext, _pBuffer s = h :: (Some <$> pre ++ [w]) ++ replicate n None ++ ext ->
  fill (S (length pre)) n s = (Done tt, set_buffer (h :: (Some <$> pre ++ minstd_words (S n) w) ++ ext) s).
Proof.
  induction n as [|n IH]; intros pre w s h ext Eb; [destruct s; cbn in *; by subst|]. cbn [fill]. rewrite Nat.sub_1_r. cbn [pred].
  rewrite (bind_Done _ _ _ _ _ (state_at s _ _ _ _ _ Eb (list_lookup_middle pre [] w _ eq_refl))).
  rewrite (bind_Done _ _ _ (minstd (s32 w)) s) by (unfold lift; rewrite goodRand_ok; [done|unfold s32, swrap; lia]).
  pose proof (set_state_at s h (Some <$> pre ++ [w]) None (replicate n None) ext (minstd (s32 w)) Eb) as Hset.
  rewrite length_fmap, length_app, Nat.add_comm in Hset. rewrite (bind_Done _ _ _ _ _ Hset).
  specialize (IH (pre ++ [w]) (minstd (s32 w)) (set_buffer (h :: (Some <$> pre ++ [w]) ++ Some (minstd (s32 w)) :: replicate n None ++ ext) s) h ext).
  rewrite length_app, Nat.add_comm in IH. cbn [length Nat.add] in *. rewrite IH.
  - cbn [minstd_words]. by rewrite <- !app_assoc.
  - cbn [_pBuffer set_buffer]. by rewrite !fmap_app, <- !app_assoc.
Qed.

Lemma seed_additive sep d x s ext : _randType s <> 0 -> _randDeg s = d -> _randSep s = sep -> (0 < sep < d)%nat -> is_word x ->
  _pBuffer s = None :: replicate d None ++ ext -> exists s', seed x s = (Done tt, s')
    /\ additive sep (lag_run sep (10 * d) (drop sep (minstd_words d x) ++ take sep (minstd_words d x))) s'.
Proof.
  intros Ht Hd Hs Hlt Hx Eb. destruct d as [|d]; [lia|]. cbn [replicate] in Eb. unfold seed.
  rewrite (bind_Done _ _ _ _ _ (set_state_at s None [] None (replicate d None) ext x Eb)), bind_get.
  cbn [_randType _randDeg _randSep set_buffer]. rewrite (proj2 (Z.eqb_neq _ _)), Hd, Hs, Nat.sub_1_r by done. cbn [pred].
  rewrite !bind_bind. pose proof (fill_ok d [] x (set_buffer (None :: [] ++ Some x :: replicate d None ++ ext) s) None ext eq_refl) as Hf.
  cbn [length] in Hf. rewrite (bind_Done _ _ _ _ _ Hf). rewrite bind_bind, bind_modify, bind_ret. cbn [app].
  destruct (minstd_words_ok (S d) x Hx) as [Hw Hl]. set (q := minstd_words (S d) x) in *. clearbody q.
  destruct (lookup_lt_is_Some_2 q sep) as [y Hy]; [lia|]. apply take_drop_middle in Hy as Em.
  assert (drop sep q = y :: drop (S sep) q) as Edr by (by apply drop_S). rewrite Edr.
  apply shuffle_additive. split.
  - exact Ht.
  - cbn [length app]. rewrite length_app, length_take, length_drop. lia.
  - cbn [length app]. rewrite length_app, length_take, length_drop. cbn. lia.
  - rewrite <- Edr. apply Forall_app. split; [by apply Forall_drop|by apply Forall_take].
  - exists None, (take sep q), y, (drop (S sep) q), ext, 0%nat. rewrite Em, length_take. split_and!; [done|done|cbn; f_equal; lia|done|lia].
Qed.

Lemma seed_simple x s ext : _randType s = 0 -> is_word x -> _pBuffer s = None :: None :: ext ->
  exists s', seed x s = (Done tt, s') /\ simple (minstd_run 50 x) s'.
Proof.
  intros Ht Hx Eb. unfold seed. rewrite (bind_Done _ _ _ _ _ (set_state_at s None [] None [] ext x Eb)), bind_get.
  cbn [_randType set_buffer]. rewrite Ht. change (0 =? TYPE_0) with true. cbv iota. rewrite bind_ret. apply shuffle_simple.
  split; [done|done|]. by exists None, ext.
Qed.

(** The end of [initState]. *)
Definition label : ST Random_ unit :=
  let* st := get in
  if _randType st =? TYPE_0 then set_word 0 (_randType st)
  else let* r := deref (_rptr st) in set_word 0 (u32 (MAX_TYPES * Z.of_nat r + _randType st)).

Lemma label_additive sep q s : additive sep q s -> exists s', label s = (Done tt, s') /\ additive sep q s'.
Proof.
  intros [Ht Hs Hd Hw (h & a & x & b & ext & r & Eb & Eq & Ef & Er & Hr)]. unfold label. rewrite bind_get, (proj2 (Z.eqb_neq _ _)), Er by done.
  cbn [deref]. rewrite bind_ret. unfold set_word. rewrite Eb. cbn [length Nat.ltb Nat.leb insert list_insert]. eexists. split; [done|].
  split; [done..|]. by eexists _, a, x, b, ext, r.
Qed.

Lemma label_simple x s : simple x s -> exists s', label s = (Done tt, s') /\ simple x s'.
Proof.
  intros [Ht Hx (h & ext & Eb)]. unfold label. rewrite bind_get, Ht. change (0 =? TYPE_0) with true. cbv iota.
  unfold set_word. rewrite Eb. cbn [length Nat.ltb Nat.leb insert list_insert]. eexists. split; [done|]. split; [done..|]. by eexists _, ext.
Qed.

Definition blank (size : Z) : Random_ :=
  {| _pBuffer := replicate (Z.to_nat (size / 4)) None; _fptr := None; _rptr := None; _randType := 0; _randDeg := 0; _randSep := 0 |}.

Lemma init_additive x size : 32 <= size <= 256 -> is_word x -> exists s, initState x size (blank size) = (Done tt, s)
  /\ additive (separation size) (lag_run (separation size) (10 * degree size)
       (drop (separation size) (minstd_words (degree size) x) ++ take (separation size) (minstd_words (degree size) x))) s.
Proof.
  intros Hs Hx. unfold initState. rewrite (proj2 (Z.ltb_ge size BREAK_0)) by (unfold BREAK_0; lia). rewrite bind_modify.
  rewrite (proj2 (Z.ltb_ge size BREAK_1)) by (unfold BREAK_1; lia).
  set (t := if size <? BREAK_2 then TYPE_1 else if size <? BREAK_3 then TYPE_2 else if size <? BREAK_4 then TYPE_3 else TYPE_4).
  match goal with |- context [do* seed x; ?k] => change k with label end.
  match goal with |- context [if size <? BREAK_2 then ?f else ?g] => assert ((if size <? BREAK_2 then f else g) = set_type t (degree size) (separation size)) as -> end.
  { unfold t, degree, separation, BREAK_2, BREAK_3, BREAK_4. by repeat case_match. }
  assert (0 < separation size < degree size)%nat as Hd by (unfold separation, degree; repeat case_match; lia).
  assert (_pBuffer (blank size) = None :: replicate (degree size) None ++ replicate (Z.to_nat (size / 4) - S (degree size)) None) as Eb.
  { cbn [_pBuffer blank]. rewrite <- replicate_add. change (None :: replicate ?n None) with (replicate (S n) (@None Z)). f_equal.
    unfold degree. repeat case_match; lia. }
  destruct (seed_additive (separation size) (degree size) x (set_type t (degree size) (separation size) (blank size))
    (replicate (Z.to_nat (size / 4) - S (degree size)) None)) as (s1 & E1 & H1);
    [unfold t; repeat case_match; done|done|done|done|done|exact Eb|].
  rewrite (bind_Done _ _ _ _ _ E1). exact (label_additive _ _ _ H1).
Qed.

Lemma init_simple x size : 8 <= size < 32 -> is_word x -> exists s, initState x size (blank size) = (Done tt, s) /\ simple (minstd_run 50 x) s.
Proof.
  intros Hs Hx. unfold initState. rewrite (proj2 (Z.ltb_ge size BREAK_0)) by (unfold BREAK_0; lia). rewrite bind_modify.
  rewrite (proj2 (Z.ltb_lt size BREAK_1)) by (unfold BREAK_1; lia). match goal with |- context [do* seed x; ?k] => change k with label end.
  destruct (seed_simple x (set_type TYPE_0 DEG_0 SEP_0 (blank size)) (replicate (Z.to_nat (size / 4) - 2) None)) as (s1 & E1 & H1);
    [done|done| |].
  { cbn [_pBuffer blank set_type]. change (None :: None :: replicate ?n None) with (replicate (S (S n)) (@None Z)). f_equal. lia. }
  rewrite (bind_Done _ _ _ _ _ E1). exact (label_simple _ _ H1).
Qed.

Lemma lag_outputs_bounds sep n : forall q, Forall (fun i => 0 <= i < 2 ^ 31) (lag_outputs sep n q).
Proof. induction n as [|n IH]; intros q; constructor; [|apply IH]. pose proof (lag_word_ok sep q) as H. unfold is_word in H. lia. Qed.

Lemma minstd_outputs_bounds n : forall x, Forall (fun i => 0 <= i < 2 ^ 31) (minstd_outputs n x).
Proof. induction n as [|n IH]; intros x; constructor; [|apply IH]. pose proof (minstd_bounds (s32 x)). lia. Qed.

(** C12: for every size of the state and every time, making a generator and
    drawing numbers never overflows, leaves the buffer or reads a word that was
    not written, and the numbers are those of the documented generators: the
    minimal standard generator 7^5 x mod (2^31 - 1) for less than 32 bytes, and
    otherwise the halves of the words w(k) = w(k - deg) + w(k - sep) mod 2^32 of
    the trinomial of the size, from words seeded by that generator, the first
    ten rounds left out. *)
Theorem random_sequence time size n : 8 <= size <= 256 ->
  exists s s', construct time size = Done s /\ nexts n s = (Done (reference (u32 time) size n), s')
    /\ Forall (fun i => 0 <= i < 2 ^ 31) (reference (u32 time) size n).
Proof.
  intros Hs. assert (is_word (u32 time)) as Hx by (unfold is_word, u32; lia). unfold construct, reference.
  rewrite (proj2 (Z.leb_le BREAK_0 _)), (proj2 (Z.leb_le _ BREAK_4)) by (unfold BREAK_0, BREAK_4; lia). cbn [andb]. fold (blank size).
  destruct (Z.ltb_spec size 32).
  - destruct (init_simple (u32 time) size) as (s & -> & H1); [lia|done|]. rewrite minstd_outputs_drop.
    destruct (nexts_simple n _ _ H1) as (s' & E). exists s, s'. split_and!; [done|exact E|apply minstd_outputs_bounds].
  - destruct (init_additive (u32 time) size) as (s & -> & H1); [lia|done|]. cbv zeta. rewrite lag_outputs_drop.
    destruct (nexts_additive _ n _ _ H1) as (s' & E). exists s, s'. split_and!; [done|exact E|apply lag_outputs_bounds].
Qed.

Lemma random_sequence_witness : exists s s', construct 1 40 = Done s
  /\ nexts 3 s = (Done [964237963; 406111040; 156505215], s')
  /\ Forall (fun i => 0 <= i < 2 ^ 31) [964237963; 406111040; 156505215].
Proof.
  assert (reference (u32 1) 40 3 = [964237963; 406111040; 156505215]) as E by (vm_compute; reflexivity). rewrite <- E.
  apply (random_sequence 1 40 3). lia.
Defined.
