(* ===== verification/Uuid.v ===== *)
(** Universally unique identifiers: UUID.cpp and UUIDGenerator.cpp, on a
    little-endian machine.

    The clock is a function: [now k] is its [k]-th reading. The address of the
    machine and the bytes of the random device are arguments. *)

From S2P Require Import Prelude Strings NumericString Encodings Digest DateTime Random.
From stdpp Require Import list.

Open Scope st_scope.
Local Open Scope Z_scope.

(** ** UUID *)
Module UUID.

Record UUID_ := { _timeLow : Z; _timeMid : Z; _timeHiAndVersion : Z; _clockSeq : Z; _node : list Z }.

Global Instance UUID_eq_dec : EqDecision UUID_.
Proof. solve_decision. Defined.

Definition UUID_TIME_BASED : Z := 0x01.
Definition UUID_DCE_UID : Z := 0x02.
Definition UUID_NAME_BASED : Z := 0x03.
Definition UUID_RANDOM : Z := 0x04.

Definition construct : UUID_ := {| _timeLow := 0; _timeMid := 0; _timeHiAndVersion := 0; _clockSeq := 0; _node := replicate 6 0 |}.

(** The constructor from the fields, whose parameters are wider than the fields. *)
Definition of_fields (timeLow timeMid timeHiAndVersion clockSeq : Z) (node : list Z) : UUID_ :=
  {| _timeLow := timeLow; _timeMid := u16 timeMid; _timeHiAndVersion := u16 timeHiAndVersion; _clockSeq := clockSeq; _node := take 6 node |}.

(** [memcpy] from a buffer, and what is left of it. *)
Definition memcpy (n : nat) (buffer : list Z) : res (list Z * list Z) :=
  if (n <=? length buffer)%nat then Done (take n buffer, drop n buffer) else UB.

Definition copyFrom (buffer : list Z) : res UUID_ :=
  (let? a := memcpy 4 buffer in
   let? b := memcpy 2 (snd a) in
   let? c := memcpy 2 (snd b) in
   let? d := memcpy 2 (snd c) in
   let? e := memcpy 6 (snd d) in
   Done {| _timeLow := flipBytes32 (le_combine (fst a)); _timeMid := flipBytes16 (le_combine (fst b));
           _timeHiAndVersion := flipBytes16 (le_combine (fst c)); _clockSeq := flipBytes16 (le_combine (fst d)); _node := fst e |})%res.

(** The constructor from bytes, with the version and the variant. *)
Definition of_bytes (bytes : list Z) (version : Z) : res UUID_ :=
  (let? u := copyFrom bytes in
   Done {| _timeLow := _timeLow u; _timeMid := _timeMid u;
           _timeHiAndVersion := u16 (Z.lor (Z.land (_timeHiAndVersion u) 0x0FFF) (Z.shiftl version 12));
           _clockSeq := u16 (Z.lor (Z.land (_clockSeq u) 0x3FFF) 0x8000); _node := _node u |})%res.

Definition copyTo (u : UUID_) : list Z :=
  le_bytes 4 (flipBytes32 (_timeLow u)) ++ le_bytes 2 (flipBytes16 (_timeMid u)) ++ le_bytes 2 (flipBytes16 (_timeHiAndVersion u))
  ++ le_bytes 2 (flipBytes16 (_clockSeq u)) ++ _node u.

Definition toNetwork (u : UUID_) : UUID_ :=
  {| _timeLow := flipBytes32 (_timeLow u); _timeMid := flipBytes16 (_timeMid u);
     _timeHiAndVersion := flipBytes16 (_timeHiAndVersion u); _clockSeq := flipBytes16 (_clockSeq u); _node := _node u |}.
Definition fromNetwork (u : UUID_) : UUID_ := toNetwork u.

Definition nibble (hex : Z) : Z :=
  if NumericString.between (chr "a") hex (chr "f") then u8 (hex - chr "a" + 10)
  else if NumericString.between (chr "A") hex (chr "F") then u8 (hex - chr "A" + 10)
  else if NumericString.between (chr "0") hex (chr "9") then u8 (hex - chr "0")
  else 0.

(** [*it++] *)
Definition take_char (it : list Z) : res (Z * list Z) := match it with c :: r => Done (c, r) | [] => UB end.

(** A field of [n] digits in an unsigned type of [w] bits. *)
Fixpoint digits (w : Z) (n : nat) (v : Z) (it : list Z) : res (Z * list Z) :=
  match n with
  | O => Done (v, it)
  | S n =>
      (let? c := take_char it in
       digits w n (Z.lor (Z.shiftl v 4) (nibble (fst c)) mod 2 ^ w) (snd c))%res
  end.

Definition skip (haveHyphens : bool) (it : list Z) : list Z := if haveHyphens then tail it else it.

(** [_node[i] = (nibble(it++ ) << 4) | nibble(it++ )] on the character under the
    iterator: which operand is evaluated first is not specified. *)
Fixpoint node_bytes (left_first : bool) (n : nat) (it : list Z) : res (list Z) :=
  match n with
  | O => Done []
  | S n =>
      (let? c := take_char it in
       let? d := take_char (snd c) in
       let hi := if left_first then fst c else fst d in
       let lo := if left_first then fst d else fst c in
       let? r := node_bytes left_first n (snd d) in
       Done (u8 (Z.lor (Z.shiftl (nibble hi) 4) (nibble lo)) :: r))%res
  end.

Definition hyphen_at (uuid : list Z) (i : nat) : bool := match uuid !! i with Some c => c =? chr "-" | None => false end.

Definition tryParse (left_first : bool) (uuid : list Z) (u : UUID_) : res (bool * UUID_) :=
  if (length uuid <? 32)%nat then Done (false, u)
  else
    let hyphens := hyphen_at uuid 8 && hyphen_at uuid 13 && hyphen_at uuid 18 && hyphen_at uuid 23 in
    if hyphens && negb (36 <=? length uuid)%nat then Done (false, u)
    else
      (let? a := digits 32 8 0 uuid in
       let? b := digits 16 4 0 (skip hyphens (snd a)) in
       let? c := digits 16 4 0 (skip hyphens (snd b)) in
       let? d := digits 16 4 0 (skip hyphens (snd c)) in
       let? e := node_bytes left_first 6 (skip hyphens (snd d)) in
       Done (true, {| _timeLow := fst a; _timeMid := fst b; _timeHiAndVersion := fst c; _clockSeq := fst d; _node := e |}))%res.

Definition parse (left_first : bool) (uuid : list Z) (u : UUID_) : res UUID_ :=
  (let? r := tryParse left_first uuid u in if fst r then Done (snd r) else Raise SyntaxException)%res.

Definition hex_digits : list Z := str "0123456789abcdef".
Definition hex_digit (d : Z) : Z := nth (Z.to_nat d) hex_digits 0.
Definition appendHex8 (s : list Z) (n : Z) : list Z := s ++ [hex_digit (Z.land (Z.shiftr n 4) 0xF); hex_digit (Z.land n 0xF)].
Definition appendHex16 (s : list Z) (n : Z) : list Z := appendHex8 (appendHex8 s (u8 (Z.shiftr n 8))) (u8 (Z.land n 0xFF)).
Definition appendHex32 (s : list Z) (n : Z) : list Z := appendHex16 (appendHex16 s (u16 (Z.shiftr n 16))) (u16 (Z.land n 0xFFFF)).

Definition toString (u : UUID_) : list Z :=
  let result := appendHex32 [] (_timeLow u) ++ [chr "-"] in
  let result := appendHex16 result (_timeMid u) ++ [chr "-"] in
  let result := appendHex16 result (_timeHiAndVersion u) ++ [chr "-"] in
  let result := appendHex16 result (_clockSeq u) ++ [chr "-"] in
  fold_left appendHex8 (_node u) result.

Definition version (u : UUID_) : Z := Z.shiftr (_timeHiAndVersion u) 12.
Definition variant (u : UUID_) : Z :=
  let v := Z.shiftr (_clockSeq u) 13 in
  if Z.land v 6 =? 6 then v else if negb (Z.land v 4 =? 0) then 2 else 0.

Fixpoint compare_node (a b : list Z) : Z :=
  match a, b with
  | x :: a, y :: b => if x <? y then -1 else if y <? x then 1 else compare_node a b
  | _, _ => 0
  end.

Definition compare (u v : UUID_) : Z :=
  if negb (_timeLow u =? _timeLow v) then (if _timeLow u <? _timeLow v then -1 else 1)
  else if negb (_timeMid u =? _timeMid v) then (if _timeMid u <? _timeMid v then -1 else 1)
  else if negb (_timeHiAndVersion u =? _timeHiAndVersion v) then (if _timeHiAndVersion u <? _timeHiAndVersion v then -1 else 1)
  else if negb (_clockSeq u =? _clockSeq v) then (if _clockSeq u <? _clockSeq v then -1 else 1)
  else compare_node (_node u) (_node v).

Definition isNull (u : UUID_) : bool := compare u construct =? 0.

(** The name spaces, which are made from their texts. *)
Definition null : UUID_ := construct.
Definition uuidDNS (left_first : bool) : res UUID_ := parse left_first (str "6ba7b810-9dad-11d1-80b4-00c04fd430c8") construct.
Definition uuidURI (left_first : bool) : res UUID_ := parse left_first (str "6ba7b811-9dad-11d1-80b4-00c04fd430c8") construct.
Definition uuidOID (left_first : bool) : res UUID_ := parse left_first (str "6ba7b812-9dad-11d1-80b4-00c04fd430c8") construct.
Definition uuidX500 (left_first : bool) : res UUID_ := parse left_first (str "6ba7b814-9dad-11d1-80b4-00c04fd430c8") construct.
End UUID.

(** ** UUIDGenerator *)
Module UUIDGenerator.
Import UUID.

Record UUIDGenerator_ := {
  _random : Random.Random_;
  _lastTime : Z;
  _ticks : Z;
  node : list Z;
  _haveNode : bool
}.

Section Generator.
Context (now : nat -> Z) (nodeId : res (list Z)).

(** The constructor makes the random numbers, then reads the clock. *)
Definition construct (time : Z) (k : nat) : res (UUIDGenerator_ * nat) :=
  (let? r := Random.construct time 256 in
   Done ({| _random := r; _lastTime := now k; _ticks := 0; node := replicate 6 0; _haveNode := false |}, S k))%res.

Definition set_stamp (time ticks : Z) (g : UUIDGenerator_) : UUIDGenerator_ :=
  {| _random := _random g; _lastTime := time; _ticks := ticks; node := node g; _haveNode := _haveNode g |}.
Definition set_node (n : list Z) (g : UUIDGenerator_) : UUIDGenerator_ :=
  {| _random := _random g; _lastTime := _lastTime g; _ticks := _ticks g; node := n; _haveNode := true |}.
Definition set_random (r : Random.Random_) (g : UUIDGenerator_) : UUIDGenerator_ :=
  {| _random := r; _lastTime := _lastTime g; _ticks := _ticks g; node := node g; _haveNode := _haveNode g |}.

(** The loop of [timeStamp]: [k] is the next reading; [None] when [fuel]
    readings were not enough. *)
Fixpoint stamp_loop (fuel : nat) (t : Z) (k : nat) (g : UUIDGenerator_) : option (Z * nat * UUIDGenerator_) :=
  match fuel with
  | O => None
  | S fuel =>
      if negb (t =? _lastTime g) then Some (t, k, set_stamp t 0 g)
      else if _ticks g <? 100 then Some (t, k, set_stamp (_lastTime g) (_ticks g + 1) g)
      else stamp_loop fuel (now k) (S k) g
  end.

Definition timeStamp (fuel : nat) (k : nat) (g : UUIDGenerator_) : option (res Z * nat * UUIDGenerator_) :=
  match stamp_loop fuel (now k) (S k) g with
  | None => None
  | Some (t, k, g) => Some ((let? tv := Timestamp.utcTime t in arith Int64 (tv + _ticks g))%res, k, g)
  end.

(** The UUID for a time, with the next random number. *)
Definition time_based (tv : Z) (g : UUIDGenerator_) : res UUID_ * UUIDGenerator_ :=
  let timeLow := u32 (Z.land tv 0xFFFFFFFF) in
  let timeMid := u16 (Z.land (Z.shiftr tv 32) 0xFFFF) in
  let timeHiAndVersion := u16 (u16 (Z.land (Z.shiftr tv 48) 0x0FFF) + Z.shiftl UUID_TIME_BASED 12) in
  let (i, r) := Random.next (_random g) in
  ((let? i := i in
    let clockSeq := Z.lor (Z.land (u16 (Z.shiftr i 4)) 0x3FFF) 0x8000 in
    Done (of_fields timeLow timeMid timeHiAndVersion clockSeq (node g)))%res, set_random r g).

Definition create (fuel : nat) (k : nat) (g : UUIDGenerator_) : option (res UUID_ * nat * UUIDGenerator_) :=
  match (if negb (_haveNode g) then (let? n := nodeId in Done (set_node n g))%res else Done g) with
  | Done g =>
      match timeStamp fuel k g with
      | None => None
      | Some (Done tv, k, g) => let (u, g) := time_based tv g in Some (u, k, g)
      | Some (Eof, k, g) => Some (Eof, k, g)
      | Some (Raise e, k, g) => Some (Raise e, k, g)
      | Some (UB, k, g) => Some (UB, k, g)
      end
  | Eof => Some (Eof, k, g)
  | Raise e => Some (Raise e, k, g)
  | UB => Some (UB, k, g)
  end.

(** [bytes] are what the RandomInputStream gives. *)
Definition createRandom (bytes : list Z) : res UUID_ := of_bytes bytes UUID_RANDOM.

Definition createOne (fuel : nat) (bytes : list Z) (k : nat) (g : UUIDGenerator_) : option (res UUID_ * nat * UUIDGenerator_) :=
  match create fuel k g with
  | Some (Raise _, k, g) => Some (createRandom bytes, k, g)
  | r => r
  end.
End Generator.

(** The first [n] bytes of a digest. *)
Definition buffer (n : nat) (d : list Z) : res (list Z) := if (n <=? length d)%nat then Done (take n d) else UB.

Definition createFromName_engine (E : DigestEngine) (nsid : UUID_) (name : list Z) : ST (engine E) UUID_ :=
  let netNsid := toNetwork nsid in
  do* reset E;
  do* update E (le_bytes 4 (_timeLow netNsid));
  do* update E (le_bytes 2 (_timeMid netNsid));
  do* update E (le_bytes 2 (_timeHiAndVersion netNsid));
  do* update E (le_bytes 2 (_clockSeq netNsid));
  do* update E (_node netNsid);
  do* update E name;
  do* digest E;
  let* e := get in
  lift (let? b := buffer 16 (result E e) in of_bytes b UUID_NAME_BASED)%res.

Definition createFromName (nsid : UUID_) (name : list Z) : res UUID_ :=
  (let? md5 := Digest.construct MD5.MD5Engine in fst (createFromName_engine MD5.MD5Engine nsid name md5))%res.
End UUIDGenerator.
