(* ===== verification/UuidFacts.v ===== *)
(** Identifiers as text, as bytes and in order. *)

From S2P Require Import Prelude Strings NumericString Encodings BinaryStream BinaryFacts Digest DigestFacts DateTime Random RandomFacts Uuid.
From stdpp Require Import list.
Import UUID.

Open Scope res_scope.
Local Open Scope Z_scope.

Record wf (u : UUID_) : Prop := {
  wf_low : 0 <= _timeLow u < 2 ^ 32;
  wf_mid : 0 <= _timeMid u < 2 ^ 16;
  wf_hi : 0 <= _timeHiAndVersion u < 2 ^ 16;
  wf_seq : 0 <= _clockSeq u < 2 ^ 16;
  wf_node : Forall is_byte (_node u);
  wf_length : length (_node u) = 6%nat
}.

(** ** Numbers as digits, the high one first *)
Fixpoint digs (B : Z) (n : nat) (v : Z) : list Z :=
  match n with O => [] | S n => v / B ^ Z.of_nat n mod B :: digs B n v end.

Lemma length_digs B n v : length (digs B n v) = n.
Proof. induction n; cbn; by f_equal. Qed.

Lemma digs_range B n v : 0 < B -> Forall (fun d => 0 <= d < B) (digs B n v).
Proof. intros HB. induction n; constructor; [|done]. apply Z.mod_pos_bound. lia. Qed.

Lemma digs_shift B n v k : 0 < B -> digs B n (v + k * B ^ Z.of_nat n) = digs B n v.
Proof.
  intros HB. revert k. induction n as [|n IH]; intros k; [done|]. cbn [digs]. rewrite Nat2Z.inj_succ, Z.pow_succ_r by lia.
  replace (v + k * (B * B ^ Z.of_nat n)) with (v + (k * B) * B ^ Z.of_nat n) by lia. rewrite IH. f_equal.
  rewrite Z.div_add by (apply Z.pow_nonzero; lia). by rewrite Z_mod_plus_full.
Qed.

Lemma digs_mod B n v : 0 < B -> digs B n (v mod B ^ Z.of_nat n) = digs B n v.
Proof.
  intros HB. rewrite Z.mod_eq by (apply Z.pow_nonzero; lia).
  replace (v - B ^ Z.of_nat n * (v / B ^ Z.of_nat n)) with (v + (- (v / B ^ Z.of_nat n)) * B ^ Z.of_nat n) by lia. by apply digs_shift.
Qed.

(** ** The order of texts *)
Fixpoint lex (a b : list Z) : Z :=
  match a, b with
  | [], [] => 0
  | [], _ => -1
  | _, [] => 1
  | x :: a, y :: b => if x <? y then -1 else if y <? x then 1 else lex a b
  end.

Definition cmp (v w : Z) : Z := if v <? w then -1 else if w <? v then 1 else 0.
Definition thn (a b : Z) : Z := if a =? 0 then b else a.

Lemma lex_cons x a y b : lex (x :: a) (y :: b) = thn (cmp x y) (lex a b).
Proof. cbn [lex]. unfold cmp, thn. by repeat case_match. Qed.

Lemma thn_assoc a b c : thn (thn a b) c = thn a (thn b c).
Proof. unfold thn. destruct (a =? 0) eqn:E; [done|]. by rewrite E. Qed.

Lemma thn_0 a : thn a 0 = a.
Proof. unfold thn. destruct (Z.eqb_spec a 0); lia. Qed.

Lemma lex_app a : forall a' b b', length a = length a' -> lex (a ++ b) (a' ++ b') = thn (lex a a') (lex b b').
Proof.
  induction a as [|x a IH]; intros [|y a'] b b' Hl; try discriminate Hl; [done|]. cbn [app]. rewrite !lex_cons, IH by (by injection Hl).
  by rewrite thn_assoc.
Qed.

Lemma lex_same a : lex a a = 0.
Proof. induction a; [done|]. rewrite lex_cons, IHa. unfold cmp, thn. by rewrite Z.ltb_irrefl. Qed.

Lemma lex_digs B n v w : 0 < B -> 0 <= v < B ^ Z.of_nat n -> 0 <= w < B ^ Z.of_nat n -> lex (digs B n v) (digs B n w) = cmp v w.
Proof.
  intros HB. revert v w. induction n as [|n IH]; intros v w Hv Hw; [cbn in *; unfold cmp; by replace v with w by lia; rewrite Z.ltb_irrefl|].
  rewrite Nat2Z.inj_succ, Z.pow_succ_r in Hv, Hw by lia. cbn [digs]. set (P := B ^ Z.of_nat n) in *. assert (0 < P) by (apply Z.pow_pos_nonneg; lia).
  rewrite lex_cons, <- (digs_mod B n v), <- (digs_mod B n w) by done. fold P. rewrite IH by (apply Z.mod_pos_bound; lia).
  rewrite !(Z.mod_small (_ / P)) by (split; [apply Z.div_pos; lia|apply Z.div_lt_upper_bound; lia]).
  pose proof (Z.div_mod v P ltac:(lia)). pose proof (Z.div_mod w P ltac:(lia)). pose proof (Z.mod_pos_bound v P ltac:(lia)). pose proof (Z.mod_pos_bound w P ltac:(lia)).
  unfold cmp, thn. destruct (Z.ltb_spec (v / P) (w / P)), (Z.ltb_spec (w / P) (v / P)); cbn [Z.eqb]; try lia.
  - rewrite (proj2 (Z.ltb_lt v w)) by nia. done.
  - rewrite (proj2 (Z.ltb_ge v w)), (proj2 (Z.ltb_lt w v)) by nia. done.
  - assert (v / P = w / P) as Eq by lia. destruct (Z.ltb_spec (v mod P) (w mod P)), (Z.ltb_spec (w mod P) (v mod P)); try lia.
    + by rewrite (proj2 (Z.ltb_lt v w)) by nia.
    + by rewrite (proj2 (Z.ltb_ge v w)), (proj2 (Z.ltb_lt w v)) by nia.
    + by rewrite (proj2 (Z.ltb_ge v w)), (proj2 (Z.ltb_ge w v)) by nia.
Qed.

(** The hexadecimal digits are in the order of their values. *)
Lemma hex_digit_cmp a b : 0 <= a < 16 -> 0 <= b < 16 -> cmp (hex_digit a) (hex_digit b) = cmp a b.
Proof.
  intros Ha Hb. pose proof (allbelow_spec 16 (fun a => allbelow 16 (fun b => cmp (hex_digit a) (hex_digit b) =? cmp a b))
    ltac:(vm_compute; reflexivity) a Ha) as H. cbv beta in H. apply (allbelow_spec 16 _ H b) in Hb. by apply Z.eqb_eq.
Qed.

Lemma lex_hex a : forall b, length a = length b -> Forall (fun d => 0 <= d < 16) a -> Forall (fun d => 0 <= d < 16) b ->
  lex (hex_digit <$> a) (hex_digit <$> b) = lex a b.
Proof.
  induction a as [|x a IH]; intros [|y b] Hl Ha Hb; try discriminate Hl; [done|]. apply Forall_cons in Ha as [Hx Ha], Hb as [Hy Hb].
  rewrite !fmap_cons, !lex_cons, hex_digit_cmp, IH by (done || by injection Hl). done.
Qed.

Definition hex (n : nat) (v : Z) : list Z := hex_digit <$> digs 16 n v.

Lemma length_hex n v : length (hex n v) = n.
Proof. unfold hex. by rewrite length_fmap, length_digs. Qed.

Lemma lex_hexes n v w : 0 <= v < 16 ^ Z.of_nat n -> 0 <= w < 16 ^ Z.of_nat n -> lex (hex n v) (hex n w) = cmp v w.
Proof. intros Hv Hw. unfold hex. rewrite lex_hex by (by apply digs_range || by rewrite !length_digs). by apply lex_digs. Qed.

(** ** The text *)
Lemma appendHex8_text s n : is_byte n -> appendHex8 s n = s ++ hex 2 n.
Proof.
  intros Hn. unfold is_byte in Hn. unfold appendHex8, hex. f_equal. cbn [digs fmap list_fmap Z.of_nat].
  rewrite (land_mask _ 4), (land_mask n 4), Z.shiftr_div_pow2 by done. cbn. rewrite Z.div_1_r. done.
Qed.

Lemma hex_split a b v : hex (a + b) v = hex a (v / 16 ^ Z.of_nat b) ++ hex b v.
Proof.
  unfold hex. rewrite <- fmap_app. f_equal. induction a as [|a IH]; [done|]. cbn [Nat.add digs app]. rewrite IH.
  rewrite Z.div_div by (lia || apply Z.pow_pos_nonneg; lia). by rewrite Nat2Z.inj_add, Z.pow_add_r, Z.mul_comm by lia.
Qed.

Lemma hex_mod n v : hex n (v mod 16 ^ Z.of_nat n) = hex n v.
Proof. unfold hex. by rewrite digs_mod. Qed.

Lemma appendHex16_text s n : 0 <= n < 2 ^ 16 -> appendHex16 s n = s ++ hex 4 n.
Proof.
  intros Hn. unfold appendHex16. rewrite (land_mask n 8), Z.shiftr_div_pow2 by done. unfold u8.
  rewrite !appendHex8_text by (unfold is_byte; lia). rewrite <- app_assoc. f_equal. change (hex 4 n) with (hex (2 + 2) n). rewrite hex_split. f_equal.
  - rewrite Z.mod_small by lia. done.
  - rewrite Z.mod_mod by lia. change (2 ^ 8) with (16 ^ Z.of_nat 2). apply hex_mod.
Qed.

Lemma appendHex32_text s n : 0 <= n < 2 ^ 32 -> appendHex32 s n = s ++ hex 8 n.
Proof.
  intros Hn. unfold appendHex32. rewrite (land_mask n 16), Z.shiftr_div_pow2 by done. unfold u16.
  rewrite !appendHex16_text by lia. rewrite <- app_assoc. f_equal. change (hex 8 n) with (hex (4 + 4) n). rewrite hex_split. f_equal.
  - rewrite Z.mod_small by lia. done.
  - rewrite Z.mod_mod by lia. change (2 ^ 16) with (16 ^ Z.of_nat 4). apply hex_mod.
Qed.

Definition node_text (node : list Z) : list Z := concat (hex 2 <$> node).

Lemma node_text_ok node : forall s, Forall is_byte node -> fold_left appendHex8 node s = s ++ node_text node.
Proof.
  induction node as [|b node IH]; intros s Hn; [cbn; by rewrite app_nil_r|]. apply Forall_cons in Hn as [Hb Hn].
  cbn [fold_left]. rewrite IH, appendHex8_text by done. unfold node_text. rewrite fmap_cons. cbn [concat]. by rewrite <- app_assoc.
Qed.

Definition text (h : list Z) (a b c d e : list Z) : list Z := a ++ h ++ b ++ h ++ c ++ h ++ d ++ h ++ e.

Lemma toString_text u : wf u -> toString u = text [chr "-"] (hex 8 (_timeLow u)) (hex 4 (_timeMid u)) (hex 4 (_timeHiAndVersion u))
  (hex 4 (_clockSeq u)) (node_text (_node u)).
Proof.
  intros [H1 H2 H3 H4 H5 _]. unfold toString, text. rewrite node_text_ok by done. rewrite !appendHex16_text, appendHex32_text by done.
  cbn [app]. by rewrite <- !app_assoc.
Qed.

(** ** The bytes *)
Lemma be_digs n : forall v, be_bytes n v = digs 256 n v.
Proof.
  induction n as [|n IH]; intros v; [done|]. cbn [digs]. unfold be_bytes in *. rewrite <- IH. rewrite <- Nat.add_1_r, le_bytes_app, rev_app_distr.
  cbn [le_bytes rev app]. done.
Qed.

Lemma copyTo_digs u : wf u -> copyTo u = digs 256 4 (_timeLow u) ++ digs 256 2 (_timeMid u) ++ digs 256 2 (_timeHiAndVersion u)
  ++ digs 256 2 (_clockSeq u) ++ _node u.
Proof.
  intros [H1 H2 H3 H4 _ _]. unfold copyTo. rewrite flip32, !flip16 by done. rewrite <- !be_digs.
  assert (forall n v, le_bytes n (le_combine (be_bytes n v)) = be_bytes n v) as E
    by (intros n v; rewrite <- (length_be_bytes n v) at 1; apply le_bytes_combine, be_bytes_bytes).
  by rewrite !E.
Qed.

Lemma lex_node a : forall b, length a = length b -> Forall is_byte a -> Forall is_byte b -> lex (node_text a) (node_text b) = lex a b.
Proof.
  induction a as [|x a IH]; intros [|y b] Hl Ha Hb; try discriminate Hl; [done|]. apply Forall_cons in Ha as [Hx Ha], Hb as [Hy Hb].
  unfold node_text in *. rewrite !fmap_cons. cbn [concat]. rewrite lex_app by (by rewrite !length_hex). rewrite lex_hexes by done.
  rewrite IH by (done || by injection Hl). by rewrite lex_cons.
Qed.

Lemma compare_node_lex a : forall b, length a = length b -> compare_node a b = lex a b.
Proof. induction a as [|x a IH]; intros [|y b] Hl; try discriminate Hl; [done|]. cbn [compare_node lex]. by rewrite IH by (by injection Hl). Qed.

Lemma compare_thn u v : length (_node u) = length (_node v) -> compare u v = thn (cmp (_timeLow u) (_timeLow v)) (thn (cmp (_timeMid u) (_timeMid v))
  (thn (cmp (_timeHiAndVersion u) (_timeHiAndVersion v)) (thn (cmp (_clockSeq u) (_clockSeq v)) (lex (_node u) (_node v))))).
Proof.
  intros Hl. unfold compare. rewrite (compare_node_lex _ _ Hl).
  assert (forall a b r, (if negb (a =? b) then (if a <? b then -1 else 1) else r) = thn (cmp a b) r) as E.
  { intros a b r. unfold cmp, thn. destruct (Z.eqb_spec a b) as [->|]; cbn [negb]; [by rewrite Z.ltb_irrefl|].
    destruct (Z.ltb_spec a b); [done|]. by rewrite (proj2 (Z.ltb_lt b a)) by lia. }
  by rewrite !E.
Qed.

(** C15: the order of identifiers is the order of their texts and the order of
    their bytes, and only equal identifiers are equal in it. *)
Theorem uuid_order u v : wf u -> wf v ->
  compare u v = lex (toString u) (toString v) /\ compare u v = lex (copyTo u) (copyTo v) /\ (compare u v = 0 <-> u = v).
Proof.
  intros Hu Hv. rewrite (toString_text u Hu), (toString_text v Hv), (copyTo_digs u Hu), (copyTo_digs v Hv).
  destruct Hu as [U1 U2 U3 U4 U5 U6], Hv as [V1 V2 V3 V4 V5 V6]. rewrite compare_thn by congruence. split_and!.
  - unfold text. rewrite !lex_app by (by rewrite ?length_hex). rewrite lex_same, !lex_hexes by done. rewrite lex_node by (done || congruence). done.
  - rewrite !lex_app by (by rewrite !length_digs). by rewrite !lex_digs by done.
  - assert (forall a b c, thn (cmp a b) c = 0 <-> a = b /\ c = 0) as E.
    { intros a b c. unfold cmp, thn. destruct (Z.ltb_spec a b), (Z.ltb_spec b a); cbn [Z.eqb]; lia. }
    rewrite !E. assert (forall a b : list Z, length a = length b -> lex a b = 0 <-> a = b) as El.
    { induction a as [|x a IH]; intros [|y b] Hl; try discriminate Hl; [done|]. rewrite lex_cons, E, IH by (by injection Hl).
      split; [by intros [-> ->]|by intros [= -> ->]]. }
    rewrite El by congruence. destruct u, v; cbn. split; [by intros (-> & -> & -> & -> & ->)|by intros [= -> -> -> -> ->]].
Qed.

(** ** Reading the text *)
Definition HEX : list Z := str "0123456789abcdefABCDEF".

Lemma nibble_range c : 0 <= nibble c < 16.
Proof. unfold nibble, NumericString.between, u8, chr. cbn. repeat case_match; lia. Qed.

(** [cs] spells the number [v] in [n] hexadecimal digits of either case. *)
Definition spells (n : nat) (v : Z) (cs : list Z) : Prop := nibble <$> cs = digs 16 n v /\ Forall (fun c => contains HEX c = true) cs.

Lemma hex_spells n v : spells n v (hex n v).
Proof.
  assert (forall d, 0 <= d < 16 -> nibble (hex_digit d) = d /\ contains HEX (hex_digit d) = true) as Hd.
  { intros d Hd. pose proof (allbelow_spec 16 (fun d => (nibble (hex_digit d) =? d) && contains HEX (hex_digit d)) ltac:(vm_compute; reflexivity) d Hd) as H.
    cbv beta in H. apply andb_true_iff in H as [H1 H2]. split; [by apply Z.eqb_eq|done]. }
  pose proof (digs_range 16 n v eq_refl) as Hr. unfold spells, hex. induction Hr as [|d ds H _ [IH1 IH2]]; [done|].
  destruct (Hd d H) as [E1 E2]. rewrite !fmap_cons, E1, IH1. split; [done|]. by constructor.
Qed.

Lemma spells_length n v cs : spells n v cs -> length cs = n.
Proof. intros [E _]. apply (f_equal length) in E. by rewrite length_fmap, length_digs in E. Qed.

Lemma digits_cons w n v c it : digits w (S n) v (c :: it) = digits w n ((v * 16 + nibble c) mod 2 ^ w) it.
Proof. cbn [digits take_char rbind fst snd]. pose proof (nibble_range c). by rewrite lor_shiftl_add by lia. Qed.

Lemma digits_ok w n v : forall cs r x, spells n v cs -> 0 <= v < 16 ^ Z.of_nat n -> 0 <= x -> (x + 1) * 16 ^ Z.of_nat n <= 2 ^ w ->
  digits w n x (cs ++ r) = Done (x * 16 ^ Z.of_nat n + v, r).
Proof.
  induction n as [|n IH] in v |- *; intros cs r x Hc Hv Hx Hw; [destruct cs; [|by destruct Hc]; cbn in *; do 2 f_equal; lia|].
  rewrite Nat2Z.inj_succ, Z.pow_succ_r in * by lia. set (P := 16 ^ Z.of_nat n) in *. assert (0 < P) by (apply Z.pow_pos_nonneg; lia).
  destruct cs as [|c cs]; [by destruct Hc|]. destruct Hc as [E Hh]. rewrite fmap_cons in E. cbn [digs] in E. injection E as Ec E. fold P in Ec.
  apply Forall_cons in Hh as [_ Hh]. cbn [app]. rewrite digits_cons, Ec.
  rewrite !(Z.mod_small (v / P)) by (split; [apply Z.div_pos; lia|apply Z.div_lt_upper_bound; lia]).
  pose proof (Z.div_mod v P ltac:(lia)) as Hdm. pose proof (Z.mod_pos_bound v P ltac:(lia)) as Hmb.
  assert (0 <= v / P < 16) as Hq by (split; [apply Z.div_pos; lia|apply Z.div_lt_upper_bound; lia]).
  assert (x * 16 + v / P < 2 ^ w) by nia. rewrite (Z.mod_small (x * 16 + v / P)) by lia.
  rewrite (IH (v mod P)); [do 2 f_equal; lia| |done|lia|nia]. split; [|done]. unfold P. by rewrite digs_mod.
Qed.

Definition swap_nibbles (b : Z) : Z := b mod 16 * 16 + b / 16.

Lemma node_bytes_ok left node : forall cs r, Forall is_byte node -> Forall2 (spells 2) node cs ->
  node_bytes left (length node) (concat cs ++ r) = Done (if left then node else swap_nibbles <$> node).
Proof.
  induction node as [|b node IH]; intros cs r Hn Hc; [by inversion Hc; destruct left|]. inversion Hc as [|? c ? cs' H1 H2]; subst. clear Hc.
  apply Forall_cons in Hn as [Hb Hn]. unfold is_byte in Hb. destruct H1 as [E _]. destruct c as [|c1 [|c2 [|]]]; try discriminate E.
  cbn [digs fmap list_fmap Z.of_nat Z.pow] in E. injection E as E1 E2. rewrite Z.div_1_r in E2. cbn in E1.
  cbn [concat app length node_bytes take_char rbind fst snd]. rewrite (IH cs' r Hn H2). cbn [rbind].
  pose proof (nibble_range c1). pose proof (nibble_range c2).
  destruct left; rewrite lor_shiftl_add by lia; unfold u8; rewrite Z.mod_small by lia.
  - do 2 f_equal. rewrite E1, E2. lia.
  - rewrite fmap_cons. do 2 f_equal. unfold swap_nibbles. rewrite E1, E2. lia.
Qed.

(** A text of an identifier, with or without hyphens, in digits of either case. *)
Inductive spelling (u : UUID_) : bool -> list Z -> Prop :=
| Spelling (h : bool) a b c d (e : list (list Z)) :
    spells 8 (_timeLow u) a -> spells 4 (_timeMid u) b -> spells 4 (_timeHiAndVersion u) c -> spells 4 (_clockSeq u) d ->
    Forall2 (spells 2) (_node u) e ->
    spelling u h (text (if h then [chr "-"] else []) a b c d (concat e)).

Lemma spells_no_hyphen n v cs i c : spells n v cs -> cs !! i = Some c -> (c =? chr "-") = false.
Proof.
  intros [_ H] Hi. apply (Forall_lookup_1 _ _ _ _ H) in Hi. apply Z.eqb_neq. by intros ->.
Qed.

Lemma concat_length2 (e : list (list Z)) node : Forall2 (spells 2) node e -> length (concat e) = (2 * length node)%nat.
Proof. induction 1 as [|b c node e H _ IH]; [done|]. cbn [concat length]. rewrite length_app, IH, (spells_length _ _ _ H). lia. Qed.

Lemma parse_spelling left u h s r u0 : wf u -> spelling u h s ->
  tryParse left (s ++ r) u0 = Done (true, {| _timeLow := _timeLow u; _timeMid := _timeMid u; _timeHiAndVersion := _timeHiAndVersion u;
    _clockSeq := _clockSeq u; _node := if left then _node u else swap_nibbles <$> _node u |}).
Proof.
  intros [W1 W2 W3 W4 W5 W6] [h' a b c d e Ha Hb Hc Hd He]. pose proof (spells_length _ _ _ Ha) as La. pose proof (spells_length _ _ _ Hb) as Lb.
  pose proof (spells_length _ _ _ Hc) as Lc. pose proof (spells_length _ _ _ Hd) as Ld. pose proof (concat_length2 _ _ He) as Le. rewrite W6 in Le.
  assert (length (text (if h' then [chr "-"] else []) a b c d (concat e) ++ r) = ((if h' then 36 else 32) + length r)%nat) as Ll
    by (unfold text; destruct h'; rewrite !length_app; cbn [length]; lia).
  unfold tryParse. rewrite Ll. rewrite (proj2 (Nat.ltb_ge _ _)) by (destruct h'; lia).
  set (hy := hyphen_at _ 8 && _ && _ && _). assert (hy = h') as ->.
  { unfold hy, hyphen_at, text. destruct h'.
    - rewrite <- !app_assoc. do 9 (destruct a as [|? a]; [try discriminate La|]). all: try discriminate La.
      do 5 (destruct b as [|? b]; [try discriminate Lb|]). all: try discriminate Lb.
      do 5 (destruct c as [|? c]; [try discriminate Lc|]). all: try discriminate Lc.
      do 5 (destruct d as [|? d]; [try discriminate Ld|]). all: try discriminate Ld. reflexivity.
    - destruct b as [|b0 b]; [discriminate Lb|]. cbn [app]. rewrite <- app_assoc, lookup_app_r by lia. rewrite La. cbn [lookup list_lookup Nat.sub app].
      by rewrite (spells_no_hyphen _ _ _ 0 b0 Hb eq_refl). }
  assert (h' && negb (36 <=? (if h' then 36 else 32) + length r)%nat = false) as ->.
  { destruct h'; [|done]. by rewrite (proj2 (Nat.leb_le _ _)) by lia. }
  assert (forall cs : list Z, skip h' ((if h' then [chr "-"] else []) ++ cs) = cs) as Hsk by (by destruct h').
  unfold text. rewrite <- !app_assoc. rewrite (digits_ok 32 8 (_timeLow u) a) by (done || lia). cbn [rbind fst snd]. rewrite Hsk.
  rewrite (digits_ok 16 4 (_timeMid u) b) by (done || lia). cbn [rbind fst snd]. rewrite Hsk.
  rewrite (digits_ok 16 4 (_timeHiAndVersion u) c) by (done || lia). cbn [rbind fst snd]. rewrite Hsk.
  rewrite (digits_ok 16 4 (_clockSeq u) d) by (done || lia). cbn [rbind fst snd]. rewrite Hsk.
  pose proof (node_bytes_ok left (_node u) e r W5 He) as En. rewrite W6 in En. rewrite En. done.
Qed.

Lemma toString_spelling u : wf u -> spelling u true (toString u).
Proof.
  intros Hu. rewrite toString_text by done. apply (Spelling u true); try apply hex_spells.
  generalize (_node u). intros l. induction l as [|b l IH]; cbn; constructor; [apply hex_spells|done].
Qed.

Lemma memcpy_app a r : memcpy (length a) (a ++ r) = Done (a, r).
Proof. unfold memcpy. rewrite (proj2 (Nat.leb_le _ _)) by (rewrite length_app; lia). by rewrite take_app_length, drop_app_length. Qed.

Lemma be_bytes_of_le n v : be_bytes n (le_combine (be_bytes n v)) = le_bytes n v.
Proof.
  unfold be_bytes. rewrite <- (length_be_bytes n v) at 1. unfold be_bytes. rewrite le_bytes_combine by apply be_bytes_bytes. apply rev_involutive.
Qed.

Lemma unflip n v f : flips_bytes n f -> 0 <= v < 256 ^ Z.of_nat n -> f (le_combine (be_bytes n v)) = v.
Proof.
  intros Hf Hv. pose proof (le_combine_range (be_bytes n v) (be_bytes_bytes n v)) as Hr. rewrite length_be_bytes in Hr.
  rewrite Hf by done. rewrite be_bytes_of_le, le_combine_bytes. by apply Z.mod_small.
Qed.

Lemma copy_back u r : wf u -> copyFrom (copyTo u ++ r) = Done u.
Proof.
  intros Hu. rewrite (copyTo_digs u Hu), <- !be_digs, <- !app_assoc. destruct Hu as [H1 H2 H3 H4 H5 H6]. unfold copyFrom.
  assert (forall n v s, memcpy n (be_bytes n v ++ s) = Done (be_bytes n v, s)) as Em
    by (intros n v s; rewrite <- (length_be_bytes n v) at 1; apply memcpy_app).
  rewrite !Em. cbn [rbind fst snd]. rewrite Em. cbn [rbind fst snd]. rewrite Em. cbn [rbind fst snd]. rewrite Em. cbn [rbind fst snd].
  rewrite <- H6, memcpy_app. cbn [rbind fst snd].
  rewrite (unflip 4 _ _ flips_32), !(unflip 2 _ _ flips_16) by done. by destruct u.
Qed.

(** C14: an identifier is read from its text, with or without hyphens and in
    digits of either case, and from the bytes it was copied to.  The order in
    which the two digits of a byte of the node are read is not specified (the
    operands of UUID.cpp:191): this holds when the left one is read first, and
    [uuid_other_order] has the other order. *)
Theorem uuid_roundtrip u u0 : wf u ->
  parse true (toString u) u0 = Done u
  /\ (forall h s, spelling u h s -> parse true s u0 = Done u)
  /\ copyFrom (copyTo u) = Done u.
Proof.
  intros Hu. assert (forall h s, spelling u h s -> parse true s u0 = Done u) as H.
  { intros h s Hs. unfold parse. rewrite <- (app_nil_r s), (parse_spelling true u h) by done. by destruct u. }
  split_and!; [by apply (H true), toString_spelling|exact H|]. rewrite <- (app_nil_r (copyTo u)). by apply copy_back.
Qed.

(** tryParse documents that it takes only what is syntactically valid; it takes
    an identifier with anything behind it. *)
Lemma parse_trailing u h s r u0 : wf u -> spelling u h s -> parse true (s ++ r) u0 = Done u.
Proof. intros Hu Hs. unfold parse. rewrite (parse_spelling true u h) by done. by destruct u. Qed.

(** In the other order of evaluation the digits of every byte of the node are
    exchanged. *)
Theorem uuid_other_order u r u0 : wf u ->
  parse false (toString u ++ r) u0 = Done {| _timeLow := _timeLow u; _timeMid := _timeMid u; _timeHiAndVersion := _timeHiAndVersion u;
    _clockSeq := _clockSeq u; _node := swap_nibbles <$> _node u |}.
Proof. intros Hu. unfold parse. by rewrite (parse_spelling false u true) by (done || by apply toString_spelling). Qed.

(** ** Any text *)
Lemma digits_total w n : 0 <= w -> forall v it, (n <= length it)%nat -> 0 <= v < 2 ^ w ->
  exists v', digits w n v it = Done (v', drop n it) /\ 0 <= v' < 2 ^ w.
Proof.
  intros Hw. induction n as [|n IH]; intros v it Hl Hv; [by exists v|]. destruct it as [|c it]; [cbn in Hl; lia|]. cbn in Hl.
  rewrite digits_cons. destruct (IH ((v * 16 + nibble c) mod 2 ^ w) it) as (v' & E & H'); [lia|apply Z.mod_pos_bound; lia|]. by exists v'.
Qed.

Lemma node_bytes_total left n : forall it, (2 * n <= length it)%nat ->
  exists l, node_bytes left n it = Done l /\ Forall is_byte l /\ length l = n.
Proof.
  induction n as [|n IH]; intros it Hl; [by exists []|]. destruct it as [|c [|d it]]; [cbn in Hl; lia..|]. cbn in Hl.
  destruct (IH it) as (l & E & H1 & H2); [lia|]. cbn [node_bytes take_char rbind fst snd]. rewrite E. cbn [rbind].
  eexists. split; [done|]. split; [constructor; [apply u8_byte|done]|by cbn; f_equal].
Qed.

(** Every text gives an identifier or leaves the old one; no character behind
    the text is read. *)
Theorem uuid_parse_total left s u : wf u -> exists b u', tryParse left s u = Done (b, u') /\ wf u' /\ (b = false -> u' = u)
  /\ (b = true <-> (36 <= length s)%nat \/ ((32 <= length s)%nat /\ hyphen_at s 8 && hyphen_at s 13 && hyphen_at s 18 && hyphen_at s 23 = false)).
Proof.
  intros Hu. unfold tryParse. destruct (Nat.ltb_spec (length s) 32); [exists false, u; split_and!; [done|done|done|split; [done|lia]]|].
  set (h := hyphen_at s 8 && _ && _ && _). destruct (h && negb (36 <=? length s)%nat) eqn:Eh.
  { exists false, u. split_and!; [done|done|done|]. split; [done|]. apply andb_true_iff in Eh as [-> Eh%negb_true_iff%Nat.leb_gt]. intros [?|[_ ?]]; [lia|done]. }
  assert ((if h then 36 else 32) <= length s)%nat as Hl by (destruct h; cbn [andb] in Eh; [apply negb_false_iff, Nat.leb_le in Eh; lia|lia]).
  assert (forall it, length (skip h it) = length it - (if h then 1 else 0))%nat as Hsk by (intros it; destruct h, it; cbn; lia).
  destruct (digits_total 32 8 ltac:(lia) 0 s) as (v1 & -> & R1); [destruct h; lia|lia|]. cbn [rbind fst snd].
  destruct (digits_total 16 4 ltac:(lia) 0 (skip h (drop 8 s))) as (v2 & -> & R2); [rewrite Hsk, length_drop; destruct h; lia|lia|]. cbn [rbind fst snd].
  match goal with |- context [digits 16 4 0 (skip h ?it)] => destruct (digits_total 16 4 ltac:(lia) 0 (skip h it)) as (v3 & -> & R3) end;
    [rewrite !Hsk, length_drop, Hsk, length_drop; destruct h; lia|lia|]. cbn [rbind fst snd].
  match goal with |- context [digits 16 4 0 (skip h ?it)] => destruct (digits_total 16 4 ltac:(lia) 0 (skip h it)) as (v4 & -> & R4) end;
    [rewrite !Hsk, length_drop, Hsk, length_drop, Hsk, length_drop; destruct h; lia|lia|]. cbn [rbind fst snd].
  match goal with |- context [node_bytes left 6 ?it] => destruct (node_bytes_total left 6 it) as (l & -> & R5 & R6) end;
    [rewrite !Hsk, length_drop, Hsk, length_drop, Hsk, length_drop, Hsk, length_drop; destruct h; lia|]. cbn [rbind].
  eexists true, _. split_and!; [done|by split|done|]. split; [intros _|done]. destruct h; [left; lia|right; split; [lia|done]].
Qed.

(** Digits that are none are zeros. *)
Example not_hexadecimal : tryParse true (replicate 32 (chr "z")) UUID.construct = Done (true, UUID.construct).
Proof. vm_compute. reflexivity. Qed.
