(* ===== verification/UuidClaims.v ===== *)
(** What the generator of identifiers makes: identifiers from names, and
    identifiers that differ. *)

From S2P Require Import Prelude Strings NumericString Encodings BinaryStream BinaryFacts Digest DigestSpec DigestFacts DateTime Random RandomFacts Uuid UuidFacts.
From stdpp Require Import list.
Import UUID UUIDGenerator.

Open Scope st_scope.
Local Open Scope Z_scope.

(** ** Identifiers from bytes *)

(** RFC 4122, 4.3: the version in the high bits of byte 6 and the variant in
    those of byte 8. *)
Definition rfc_bytes (version : Z) (h : list Z) : list Z :=
  alter (fun b => b mod 16 + 16 * version) 6%nat (alter (fun b => b mod 64 + 128) 8%nat (take 16 h)).

Lemma flip_combine n f l : flips_bytes n f -> length l = n -> Forall is_byte l -> f (le_combine l) = le_combine (rev l).
Proof.
  intros Hf Hl Hb. pose proof (le_combine_range l Hb) as Hr. rewrite Hl in Hr. rewrite Hf by done.
  unfold be_bytes. by rewrite <- Hl, le_bytes_combine.
Qed.

Lemma of_bytes_ok bs v : (16 <= length bs)%nat -> Forall is_byte bs -> 0 <= v < 16 ->
  exists u, of_bytes bs v = Done u /\ wf u /\ copyTo u = rfc_bytes v bs /\ version u = v /\ variant u = 2.
Proof.
  intros Hl Hb Hv. do 16 (destruct bs as [|? bs]; [cbn in Hl; lia|]). clear Hl.
  do 16 (apply Forall_cons in Hb as [? Hb]). clear Hb.
  unfold of_bytes, copyFrom, memcpy. cbn [length Nat.leb take drop rbind fst snd]. rewrite ?take_0.
  rewrite (flip_combine 4 _ _ flips_32), !(flip_combine 2 _ _ flips_16) by (done || (repeat (apply Forall_cons; split; [done|]); apply Forall_nil_2)).
  cbn [rev app le_combine]. unfold is_byte in *. rewrite (land_mask _ 12), (land_mask _ 14), Z.lor_comm by done.
  rewrite lor_shiftl_add by lia. rewrite (Z.lor_comm _ 0x8000). change 0x8000 with (Z.shiftl 2 14). rewrite (lor_shiftl_add 2) by lia.
  unfold u16. rewrite !(Z.mod_small (_ + _) (2 ^ 16)) by lia. eexists. split; [done|].
  match goal with |- wf ?w /\ _ => assert (wf w) as Hw end.
  { split; cbn [_timeLow _timeMid _timeHiAndVersion _clockSeq _node]; [lia..| |reflexivity]. repeat (apply Forall_cons; split; [unfold is_byte; lia|]). apply Forall_nil_2. }
  split; [done|]. split; [|split].
  - rewrite (copyTo_digs _ Hw). cbn [_timeLow _timeMid _timeHiAndVersion _clockSeq _node digs Z.of_nat Pos.of_succ_nat Pos.succ app].
    unfold rfc_bytes. cbn [take alter list_alter]. rewrite ?take_0. repeat (apply f_equal2; [lia|]). done.
  - unfold version. cbn [_timeHiAndVersion]. rewrite Z.shiftr_div_pow2 by lia. lia.
  - unfold variant. cbn [_clockSeq]. rewrite Z.shiftr_div_pow2 by lia.
    match goal with |- context [Z.land ?x 6] => assert (x = 4 \/ x = 5) as [-> | ->] by lia; done end.
Qed.

(** ** Identifiers from names *)
Section Names.
Context {E : DigestEngine} {H : list Z -> list Z} `{HE : !HashEngine E H}.

Lemma fits_small d : (length d <= 16)%nat -> fits d.
Proof. intros Hl. unfold fits. lia. Qed.

Lemma name_digest e m nsid name : rep e m -> (16 <= DIGEST_SIZE E)%nat -> wf nsid -> Forall is_byte name -> fits name ->
  exists u e', createFromName_engine E nsid name e = (Done u, e') /\ rep e' [] /\ wf u /\ version u = UUID_NAME_BASED /\ variant u = 2
    /\ copyTo u = rfc_bytes UUID_NAME_BASED (H (copyTo nsid ++ name)).
Proof.
  intros Hr Hd Hw Hn Hf. destruct (reset_rep _ _ Hr) as (e0 & E0 & R0 & _).
  assert (Forall is_byte (_node nsid) /\ fits (_node nsid)) as [Nb Nf] by (split; [apply Hw|apply fits_small; rewrite (wf_length _ Hw); lia]).
  destruct (update_rep _ _ (le_bytes 4 (flipBytes32 (_timeLow nsid))) R0) as (e1 & E1 & R1 & _); [apply le_bytes_bytes|apply fits_small; cbn; lia|].
  destruct (update_rep _ _ (le_bytes 2 (flipBytes16 (_timeMid nsid))) R1) as (e2 & E2 & R2 & _); [apply le_bytes_bytes|apply fits_small; cbn; lia|].
  destruct (update_rep _ _ (le_bytes 2 (flipBytes16 (_timeHiAndVersion nsid))) R2) as (e3 & E3 & R3 & _); [apply le_bytes_bytes|apply fits_small; cbn; lia|].
  destruct (update_rep _ _ (le_bytes 2 (flipBytes16 (_clockSeq nsid))) R3) as (e4 & E4 & R4 & _); [apply le_bytes_bytes|apply fits_small; cbn; lia|].
  destruct (update_rep _ _ (_node nsid) R4 Nb Nf) as (e5 & E5 & R5 & _). destruct (update_rep _ _ name R5 Hn Hf) as (e6 & E6 & R6 & _).
  destruct (digest_rep _ _ R6) as (e7 & E7 & R7 & Hres).
  assert (((((([] ++ le_bytes 4 (flipBytes32 (_timeLow nsid))) ++ le_bytes 2 (flipBytes16 (_timeMid nsid)))
    ++ le_bytes 2 (flipBytes16 (_timeHiAndVersion nsid))) ++ le_bytes 2 (flipBytes16 (_clockSeq nsid))) ++ _node nsid) ++ name = copyTo nsid ++ name) as Em
    by (unfold copyTo; by rewrite <- !app_assoc). rewrite Em in Hres.
  destruct (of_bytes_ok (take 16 (H (copyTo nsid ++ name))) UUID_NAME_BASED) as (u & Eu & Wu & Cu & Vu & Tu);
    [rewrite length_take, hash_length; lia|apply Forall_take, hash_bytes|done|].
  unfold rfc_bytes in Cu. rewrite take_take in Cu.
  exists u, e7. split; [|done]. unfold createFromName_engine. cbn [toNetwork _timeLow _timeMid _timeHiAndVersion _clockSeq _node].
  rewrite (bind_Done _ _ _ _ _ E0), (bind_Done _ _ _ _ _ E1), (bind_Done _ _ _ _ _ E2), (bind_Done _ _ _ _ _ E3), (bind_Done _ _ _ _ _ E4),
    (bind_Done _ _ _ _ _ E5), (bind_Done _ _ _ _ _ E6), (bind_Done _ _ _ _ _ E7), bind_get.
  unfold lift, buffer. rewrite Hres, (proj2 (Nat.leb_le _ _)) by (rewrite hash_length; lia). cbn [rbind]. by rewrite Eu.
Qed.
End Names.

(** ** Identifiers from the time *)
Section Times.
Context (now : nat -> Z) (nodeId : res (list Z)).

Lemma stamp_loop_S fuel t k g : stamp_loop now (S fuel) t k g =
  if negb (t =? _lastTime g) then Some (t, k, set_stamp t 0 g)
  else if _ticks g <? 100 then Some (t, k, set_stamp (_lastTime g) (_ticks g + 1) g)
  else stamp_loop now fuel (now k) (S k) g.
Proof. done. Qed.

(** The loop of [timeStamp] ends when the clock moves. *)
Lemma stamp_ends g k j : now (k + j)%nat <> _lastTime g -> exists r, stamp_loop now (S j) (now k) (S k) g = Some r.
Proof.
  revert k. induction j as [|j IH]; intros k Hj; rewrite stamp_loop_S.
  - rewrite Nat.add_0_r in Hj. rewrite (proj2 (Z.eqb_neq _ _)) by done. by eexists.
  - destruct (negb (now k =? _lastTime g)); [by eexists|]. destruct (_ticks g <? 100); [by eexists|].
    apply (IH (S k)). by rewrite Nat.add_succ_comm.
Qed.

Fixpoint creates (fuel n k : nat) (g : UUIDGenerator_) : option (res (list UUID_) * nat * UUIDGenerator_) :=
  match n with
  | O => Some (Done [], k, g)
  | S n =>
      match create now nodeId fuel k g with
      | Some (Done u, k, g) =>
          match creates fuel n k g with
          | Some (Done us, k, g) => Some (Done (u :: us), k, g)
          | r => r
          end
      | Some (Eof, k, g) => Some (Eof, k, g)
      | Some (Raise e, k, g) => Some (Raise e, k, g)
      | Some (UB, k, g) => Some (UB, k, g)
      | None => None
      end
  end.

(** The time in an identifier, in units of 100 nanoseconds. *)
Definition time_of (u : UUID_) : Z := _timeLow u + 2 ^ 32 * _timeMid u + 2 ^ 48 * (_timeHiAndVersion u mod 2 ^ 12).
Definition stamp (g : UUIDGenerator_) : Z := _lastTime g * 10 + Timestamp.epoch + _ticks g.

Context (nid : list Z) (Hnid : Forall is_byte nid) (Lnid : length nid = 6%nat) (Enid : nodeId = Done nid).
(** The clock does not run backwards, and stands still for less than ten
    readings; the time of the first [N] readings fits 60 bits. *)
Context (Hmono : forall j, now j <= now (S j)) (Hrate : forall j, now j < now (j + 10)%nat)
  (N : nat) (Hrange : forall j, (j < N)%nat -> -12219292800000000 <= now j <= 10 ^ 17).

(** The last [_ticks + 1] readings gave [_lastTime]. *)
Record ready (g : UUIDGenerator_) (k : nat) : Prop := {
  rd_random : exists sep q, additive sep q (_random g);
  rd_ticks : 0 <= _ticks g < Z.of_nat k;
  rd_last : forall j, (k - 1 - Z.to_nat (_ticks g) <= j < k)%nat -> now j = _lastTime g;
  rd_node : _haveNode g = true -> node g = nid
}.

Lemma ready_ticks g k : ready g k -> _ticks g <= 9.
Proof using All.
  intros [_ Ht Hl _]. destruct (Z.leb_spec (_ticks g) 9); [done|]. exfalso. pose proof (Hrate (k - 11)) as Hr.
  rewrite (Hl (k - 11)%nat), (Hl (k - 11 + 10)%nat) in Hr by lia. lia.
Qed.

Lemma time_based_ok g tv : (exists sep q, additive sep q (_random g)) -> node g = nid -> 0 <= tv < 2 ^ 60 ->
  exists u r, time_based tv g = (Done u, set_random r g) /\ (exists sep q, additive sep q r)
    /\ time_of u = tv /\ wf u /\ version u = UUID_TIME_BASED /\ variant u = 2 /\ _node u = nid.
Proof using All.
  intros (sep & q & Ha) Hn Htv. destruct (additive_next sep q (_random g) Ha) as (r & En & Hr). pose proof (lag_word_ok sep q) as Hw.
  unfold time_based. rewrite En. cbn [rbind]. eexists _, r. split; [done|]. split; [by exists sep, (lag sep q)|].
  set (i := lag_word sep q / 2). assert (0 <= i < 2 ^ 31) as Hi by (unfold i, is_word in *; lia). clearbody i.
  unfold of_fields, time_of, version, variant. cbn [_timeLow _timeMid _timeHiAndVersion _clockSeq _node]. rewrite Hn.
  assert (take 6 nid = nid) as -> by (apply take_ge; lia).
  rewrite (land_mask tv 32), !(land_mask _ 16), (land_mask _ 12), (land_mask _ 14), !Z.shiftr_div_pow2 by done.
  unfold u16, u32, UUID_TIME_BASED. change (Z.shiftl 1 12) with 4096. rewrite (Z.lor_comm _ 0x8000). change 0x8000 with (Z.shiftl 2 14).
  rewrite lor_shiftl_add by lia. split_and!; [lia|split; cbn [_timeLow _timeMid _timeHiAndVersion _clockSeq _node]; [lia..|done|done]|lia| |done].
  match goal with |- context [Z.land ?x 6] => assert (x = 4 \/ x = 5) as [-> | ->] by lia; done end.
Qed.

(** One call: one reading of the clock, and a later time. *)
Lemma create_ok g k fuel : ready g k -> (k < N)%nat -> exists u g', create now nodeId (S fuel) k g = Some (Done u, S k, g') /\ ready g' (S k)
  /\ stamp g < stamp g' /\ time_of u = stamp g' /\ wf u /\ version u = UUID_TIME_BASED /\ variant u = 2 /\ _node u = nid.
Proof using All.
  intros Hg HN. pose proof (ready_ticks g k Hg) as H9. destruct Hg as [Hr Ht Hl Hn]. unfold create.
  set (g1 := if _haveNode g then g else set_node nid g).
  assert ((if negb (_haveNode g) then rbind nodeId (fun n => Done (set_node n g)) else Done g) = Done g1) as ->
    by (unfold g1; rewrite Enid; by destruct (_haveNode g)).
  assert (node g1 = nid /\ _random g1 = _random g /\ _lastTime g1 = _lastTime g /\ _ticks g1 = _ticks g /\ _haveNode g1 = true) as (N1 & N2 & N3 & N4 & N5)
    by (unfold g1; destruct (_haveNode g) eqn:Eh; split_and!; try done; by apply Hn).
  clearbody g1. assert (_lastTime g <= now k) as Hge.
  { specialize (Hmono (k - 1)). rewrite (Hl (k - 1)%nat) in Hmono by lia. by replace (S (k - 1)) with k in Hmono by lia. }
  set (g2 := set_stamp (now k) (if now k =? _lastTime g then _ticks g + 1 else 0) g1).
  assert (stamp_loop now (S fuel) (now k) (S k) g1 = Some (now k, S k, g2)) as El.
  { rewrite stamp_loop_S, N3, N4. unfold g2. destruct (Z.eqb_spec (now k) (_lastTime g)) as [E|E]; cbn [negb]; [|done].
    rewrite (proj2 (Z.ltb_lt (_ticks g) 100)) by lia. by rewrite E. }
  pose proof (Hrange k HN) as Hk. unfold timeStamp. rewrite El.
  assert (stamp g2 = now k * 10 + Timestamp.epoch + _ticks g2) as Es by done.
  assert (0 <= _ticks g2 <= 10) as Ht2 by (unfold g2; cbn [_ticks set_stamp]; case_match; lia).
  assert (rbind (Timestamp.utcTime (now k)) (fun tv => arith Int64 (tv + _ticks g2)) = Done (stamp g2)) as ->.
  { rewrite Es. unfold Timestamp.utcTime, arith. change Timestamp.epoch with 122192928000000000. change (Z.shiftl 0x01b21dd2 32) with 122192927672762368.
    cbn [imin imax Int64]. repeat (rewrite (proj2 (Z.leb_le (- 2 ^ 63) _)), (proj2 (Z.leb_le _ (2 ^ 63 - 1))) by lia; cbn [andb rbind]). f_equal. lia. }
  destruct (time_based_ok g2 (stamp g2)) as (u & r & Eu & Hr' & U1 & U2 & U3 & U4 & U5).
  { cbn [_random set_stamp g2]. by rewrite N2. }
  { exact N1. }
  { rewrite Es. change Timestamp.epoch with 122192928000000000. lia. }
  rewrite Eu. exists u, (set_random r g2). split; [done|]. split.
  { split; [exact Hr'| | |intros _; exact N1]; cbn [_ticks _lastTime set_random set_stamp g2].
    - case_match; lia.
    - intros j Hj. destruct (Z.eqb_spec (now k) (_lastTime g)) as [E|E].
      + destruct (decide (j = k)) as [->|]; [done|]. rewrite E. apply Hl. lia.
      + by replace j with k by lia. }
  split; [|done]. change (stamp (set_random r g2)) with (stamp g2). unfold stamp, g2. cbn [_lastTime _ticks set_stamp].
  destruct (Z.eqb_spec (now k) (_lastTime g)) as [E|E]; lia.
Qed.

Definition made (u : UUID_) : Prop := wf u /\ version u = UUID_TIME_BASED /\ variant u = 2 /\ _node u = nid.

Lemma creates_ok fuel n : forall k g, ready g k -> (k + n <= N)%nat -> exists us g', creates (S fuel) n k g = Some (Done us, (k + n)%nat, g')
  /\ length us = n /\ Forall made us /\ Forall (fun u => stamp g < time_of u) us /\ NoDup us.
Proof using All.
  induction n as [|n IH]; intros k g Hg HN; [exists [], g; cbn [creates]; rewrite Nat.add_0_r; split_and!; try done; constructor|].
  destruct (create_ok g k fuel Hg) as (u & g1 & E1 & H1 & Hs & Eu & U); [lia|]. destruct (IH _ _ H1 ltac:(lia)) as (us & g2 & E2 & L & M & T & D).
  cbn [creates]. rewrite E1, E2. exists (u :: us), g2. split_and!.
  - by rewrite Nat.add_succ_comm.
  - cbn. by f_equal.
  - by constructor.
  - constructor; [lia|]. eapply Forall_impl; [exact T|]. cbv beta. intros; lia.
  - constructor; [|done]. intros Hin. apply (proj1 (Forall_forall _ _) T) in Hin. lia.
Qed.
End Times.

(** C11: the identifiers that a new generator makes from the time are all
    different, and every one is a time based identifier of the machine, when the
    clock does not run backwards and gives the same microsecond less than ten
    times in a row; each call reads the clock once. *)
Theorem uuids_distinct now nodeId nid time n : nodeId = Done nid -> Forall is_byte nid -> length nid = 6%nat ->
  (forall j, now j <= now (S j)) -> (forall j, now j < now (j + 10)%nat) -> (forall j, (j <= n)%nat -> -12219292800000000 <= now j <= 10 ^ 17) ->
  exists g us g', UUIDGenerator.construct now time 0 = Done (g, 1%nat)
    /\ creates now nodeId 1 n 1 g = Some (Done us, (1 + n)%nat, g') /\ length us = n /\ NoDup us
    /\ Forall (fun u => wf u /\ version u = UUID_TIME_BASED /\ variant u = 2 /\ _node u = nid) us.
Proof.
  intros H1 H2 H3 H4 H5 H6. destruct (init_additive (u32 time) 256) as (r & Er & Hr); [lia|unfold is_word, u32; lia|].
  unfold UUIDGenerator.construct, Random.construct. change ((Random.BREAK_0 <=? 256) && (256 <=? Random.BREAK_4)) with true. cbv iota.
  fold (blank 256). rewrite Er. cbn [rbind]. eexists.
  match goal with |- exists us g', Done (?g0, 1%nat) = Done (?g, 1%nat) /\ _ => set (g1 := g0) end.
  assert (forall j, (j < S n)%nat -> -12219292800000000 <= now j <= 10 ^ 17) as H6' by (intros j Hj; apply H6; lia).
  destruct (creates_ok now nodeId nid H2 H3 H1 H4 H5 (S n) H6' 0 n 1 g1) as (us & g' & E & L & M & _ & D).
  { split; [by eexists _, _|cbn; lia| |done]. intros j Hj. cbn in Hj. by replace j with 0%nat by lia. }
  { lia. }
  exists us, g'. split_and!; [done|exact E|done|done|exact M].
Qed.


(** ** Witnesses *)
Definition dns : UUID_ := of_fields 0x6ba7b810 0x9dad 0x11d1 0x80b4 [0; 0xc0; 0x4f; 0xd4; 0x30; 0xc8].

Lemma dns_wf : wf dns.
Proof.
  split; [vm_compute; split; [discriminate|reflexivity]..| |reflexivity]. cbn. repeat (apply Forall_cons; split; [unfold is_byte; lia|]). apply Forall_nil_2. Qed.

Example dns_space : uuidDNS true = Done dns.
Proof. vm_compute. reflexivity. Qed.

Lemma uuid_order_witness : compare UUID.construct dns = lex (UUID.toString UUID.construct) (UUID.toString dns)
  /\ compare UUID.construct dns = lex (copyTo UUID.construct) (copyTo dns) /\ (compare UUID.construct dns = 0 <-> UUID.construct = dns).
Proof.
  apply (uuid_order UUID.construct dns); [|exact dns_wf].
  split; [vm_compute; split; [discriminate|reflexivity]..| |reflexivity]. cbn. repeat (apply Forall_cons; split; [unfold is_byte; lia|]). apply Forall_nil_2.
Defined.

Lemma uuid_roundtrip_witness : UUID.parse true (UUID.toString dns) UUID.construct = Done dns
  /\ (forall h s, spelling dns h s -> UUID.parse true s UUID.construct = Done dns)
  /\ copyFrom (copyTo dns) = Done dns.
Proof. apply (uuid_roundtrip dns UUID.construct). exact dns_wf. Defined.

(** A clock that stands still every other reading. *)
Definition slow_clock (k : nat) : Z := 1400000000000000 + Z.of_nat k / 2.

Lemma uuids_distinct_witness : exists g us g', UUIDGenerator.construct slow_clock 5 0 = Done (g, 1%nat)
  /\ creates slow_clock (Done [2; 0; 0; 0; 0; 1]) 1 100 1 g = Some (Done us, 101%nat, g') /\ length us = 100%nat /\ NoDup us
  /\ Forall (fun u => wf u /\ version u = UUID_TIME_BASED /\ variant u = 2 /\ _node u = [2; 0; 0; 0; 0; 1]) us.
Proof.
  apply (uuids_distinct slow_clock (Done [2; 0; 0; 0; 0; 1]) [2; 0; 0; 0; 0; 1] 5 100).
  - reflexivity.
  - repeat (apply Forall_cons; split; [unfold is_byte; lia|]). apply Forall_nil_2.
  - reflexivity.
  - intros j. unfold slow_clock. lia.
  - intros j. unfold slow_clock. lia.
  - intros j Hj. unfold slow_clock. lia.
Defined.


(** ** Too many identifiers in a microsecond *)

(** A microsecond has ten units of 100 nanoseconds, and the generator counts up
    to a hundred: the eleventh identifier of a microsecond has the time of the
    first one of the next. *)
Definition busy_clock (k : nat) : Z := if (k <=? 10)%nat then 1400000000000000 else 1400000000000001.

Fixpoint stamps (n k : nat) (g : UUIDGenerator_) : list (res Z) :=
  match n with
  | O => []
  | S n => match timeStamp busy_clock 1 k g with Some (t, k, g) => t :: stamps n k g | None => [] end
  end.

Example same_time : forall r,
  let g := {| _random := r; _lastTime := busy_clock 0; _ticks := 0; node := []; _haveNode := false |} in
  stamps 11 1 g !! 9%nat = Some (Done 136192928000000010) /\ stamps 11 1 g !! 10%nat = Some (Done 136192928000000010).
Proof. intros r. vm_compute. done. Qed.
